(* ===== verification/_CoqProject ===== *)
-Q . S2P
Prelude.v
StateMonad.v
Utils.v
SubsecondTime.v
AddressHomeLookup.v
CacheBlockInfo.v
CacheSet.v
LruBits.v
CacheSetLRU.v
CacheSetMRU.v
CacheSetPLRU.v
CacheSetSRRIP.v
CachePolicy.v
FaultInjection.v
Cache.v
TLB.v
CachePerfModel.v
ATD.v
DirectoryEntry.v
DramDirectoryCache.v
ReqQueueList.v
ShmemPerf.v
MovingAverage.v
ContentionModel.v
QueueModelHistoryList.v
QueueModel.v
Prefetcher.v
DramPerfModel.v
DramDirectoryCntlr.v
DirectoryCoherence.v
DramCntlr.v
NucaCache.v
CacheStates.v
CacheCntlr.v
MSHR.v
CacheInclusion.v
MemoryManager.v
CacheMachine.v
NetworkMesh.v
Network.v
NetworkRouting.v
CircularQueue.v
MicroOp.v
MicroOpFacts.v
CoreModelNehalem.v
RobTimer.v
RobInvariant.v
RobAccess.v
RobState.v
RobDeps.v
RobIssue.v
RobCycle.v
RobExecute.v
RobEnqueue.v
RobNehalem.v
RobCorrect.v
RobTermination.v
IntervalContention.v
Windows.v
IntervalTimer.v
WindowsFacts.v
WindowsBranch.v
WindowsInv.v
IntervalInv.v
IntervalSteps.v
IntervalCorrect.v
IntervalTheorems.v
SimState.v
ThreadManager.v
SchedulerPinned.v
SyscallServer.v
BarrierSyncServer.v
Simulator.v
SchedulerConsistency.v
KernelInvariant.v
Kernel.v
SyncServer.v
FutexFifo.v
BranchPredictor.v
