(* ===== verification/Prelude.v ===== *)
(** * LifeSim: verification of the simulator's cores, memory subsystem and kernel

    LifeSim is a many-core simulator built on Sniper, in C++ under src/common.
    Cores issue memory accesses to a hierarchy of caches; the last private
    level sends coherence requests over a network to the tag directory that is
    the home of the address; the directory grants the line, from another cache,
    from a NUCA cache or from DRAM.  Every component also computes simulated
    time, through clocks, latencies and queueing models.  Beside the memory
    subsystem stands the kernel of the simulator: the thread manager, the
    scheduler, the servers for futexes, mutexes and barriers, and the barrier that
    keeps the clocks of the cores together, which call each other through hooks.
    This library models the memory path from a core's access through the levels of
    caches and their controllers to the tag directory and DRAM, the on-chip network,
    the kernel, and of the cores the branch predictors and the out-of-order core,
    which takes micro-operations through dispatch, issue and commit cycle by cycle.

    ** Correspondence

    All definitions are executable and translate the functions of the same name.
    A failed assertion, an error message that ends the simulation, an access
    outside an array, a null pointer, a division by zero and a bad cast are
    values of [error] (Prelude); machine integers are [Z] with wrap-around
    written out.

    - Prelude: integers, failure, loops, shared lemmas and tactics.
      StateMonad: state with failure, weakest preconditions.
    - Utils: src/common/misc/utils.{h,cc} (bits, rounding, random numbers).
    - SubsecondTime: src/common/misc/subsecond_time.{h,cc}: time as a 64-bit
      count of femtoseconds, clock periods and bandwidths.
    - AddressHomeLookup: home node and linear address of an address.
    - CacheBlockInfo, CacheSet, Cache: memory_subsystem/cache.  The replacement
      policies are instances of the class [ReplacementPolicy] (CacheSetLRU with
      LruBits, CacheSetMRU, CacheSetPLRU, CacheSetSRRIP), CachePolicy selects
      one by name and dispatches, FaultInjection is the hook of the data array.
    - DirectoryEntry, DramDirectoryCache: memory_subsystem/directory_schemes and
      dram_directory_cache: entries as heap objects, allocation and eviction.
    - ReqQueueList: the queue of requests per address.
    - ShmemPerf: the latency breakdown that travels with a request.
    - DramDirectoryCntlr: dram_directory_cntlr.cc, every handler, for the MSI,
      MESI and MESIF protocols; the NUCA cache is reached through the class
      [NucaCache].  DirectoryCoherence: its correctness proofs.
    - MovingAverage, ContentionModel, QueueModelHistoryList, QueueModel:
      src/common/misc/moving_average.h and the queueing models of
      src/common/performance_model.
    - NucaCache: nuca_cache.{h,cc}, over Cache and QueueModel, as an instance of
      the interface that the directory uses.
    - DramPerfModel, DramCntlr: the DRAM performance models, the DRAM controller
      and the DRAM cache, as instances of the class [DramCntlrInterface], and the
      handler of the messages that the directory sends them.
    - Prefetcher, TLB: the simple and the global-history prefetcher; TLB levels.
    - CachePerfModel, ATD: latencies of a cache and the clocks of a core's memory
      accesses; auxiliary tag directories.
    - CacheCntlr: parametric_dram_directory_msi/cache_cntlr.{h,cc}, every handler of
      a cache level: the heap [Hier] has the controllers, the masters that controllers
      of a shared cache point to, and the clocks; a core that waits for the network
      thread is an entry of [h_pending], which the reply of the directory resumes.
      MemoryManager: the construction of the hierarchy, accesses through the TLBs and
      the delivery of messages (memory_manager.cc).
      CacheStates, CacheInclusion, MSHR, CacheMachine: their proofs; [machine_step]
      (CacheMachine) is the relation of accesses and messages in any order.
    - NetworkMesh, Network: src/common/network and the queues of
      transport/smtransport.cc: packets, the magic, hop-counter, hop-by-hop and bus
      models, sending and receiving; [Net] has the node of every core.
      NetworkRouting: their proofs.
    - CircularQueue: misc/circular_queue.h.  MicroOp: performance_models/micro_op
      (micro-operations, register and memory dependencies) and hit_where.{h,cc}.
      CoreModelNehalem: core_model and rob_contention_nehalem.cc, the contention of
      issue as an instance of the class [RobContention].  RobTimer:
      rob_performance_model/rob_timer.{h,cc}: the record [RobTimer] has the fields of
      the class and the trace of what left the core; the memory below is reached
      through the class [CoreMemory].  MicroOpFacts, RobInvariant, RobAccess,
      RobState, RobDeps, RobIssue, RobCycle, RobExecute, RobEnqueue, RobNehalem,
      RobCorrect, RobTermination: their proofs; [reachable] (RobCorrect) is the
      relation of the states of a core.
    - IntervalContention, Windows, IntervalTimer: interval_performance_model
      (interval_contention_nehalem.cc, windows.cc, interval_timer.cc) and
      misc/fixed_point.h: the core as a rate of dispatch with penalties.  [Windows]
      has the ring of the window and the old window and the critical path through
      the latter; references to entries are places in the ring.  The contention of
      issue is an instance of the class [IntervalContention].  WindowsFacts,
      WindowsBranch, WindowsInv, IntervalInv, IntervalSteps, IntervalCorrect,
      IntervalTheorems: their proofs; [visited] (IntervalTheorems) is the relation of
      the states between calls of [simulate].
    - SimState: the state of the kernel as one record, and the tables of
      thread.h, core.h and the header files of the components below.
      ThreadManager: thread_manager.cc and thread.cc.  SchedulerPinned:
      scheduler_dynamic.cc, scheduler_pinned_base.cc, scheduler_pinned.cc and
      scheduler_roaming.cc.  SyscallServer: syscall_server.cc (futexes, sleeping).
      BarrierSyncServer: barrier_sync_server.cc.  Simulator: hooks_manager.cc and
      the registration of the components, which ties the knot between them.
      SyncServer: sync_server.cc, over the kernel.
      SchedulerConsistency, KernelInvariant, Kernel, FutexFifo: their proofs; the
      kernel's operations are the steps of the relation [kstep] (Kernel).
    - BranchPredictor: branch_predictor.cc and branch_predictors/.

    ** What is proved

    - Directory (DirectoryCoherence): after any sequence of packets, every entry
      is coherent; requests of an address are answered in order, each at most
      once and to its requester; the mutual recursion of the handlers ends.
      NucaCache repeats the three for the directory composed with the modelled
      NUCA cache, discharging the promise [NucaCacheOk] that the directory
      theorems rely on.
    - Caches (Cache, NucaCache): with any policy, hash function and fault
      injector, a cache in which only absent lines are inserted is a set of lines of
      bounded size; splitting an address loses nothing.
    - Cache hierarchy (CacheMachine, over CacheInclusion): in machines of private
      first-level caches above shared ones every line of a first-level cache is in the
      cache below, which has at least the same rights ([two_level_inclusion]); requests of
      the directory reach every cache above the last level; with any number of levels a
      change of state reaches all of them ([update_reaches_all_levels]) and an insertion
      keeps inclusion.
      [mshr_cleanup_keeps_latest] is about the table of outstanding misses (MSHR).
    - Network (NetworkRouting): on meshes, tori, lines and rings a packet reaches its
      destination and no other core, with the latencies of the links it took
      ([mesh_delivers]); without queues the mesh computes the times of the hop counter
      ([mesh_degrades_to_hop_counter]); broadcasts without a tree reach every core, with
      a tree they never end; memory controllers get nodes of their own.
    - Out-of-order core (RobCorrect, over RobState to RobEnqueue): in every state that
      instructions, calls of [execute] and [synchronize] can reach, the next step
      succeeds and its time is accounted for ([rob_steps_succeed]);
      micro-operations are issued after the results they depend on are there
      ([rob_respects_data_flow]), leave the core in program order
      ([rob_commits_in_order]) and never exceed window and reservation stations
      ([rob_window_bounded]).  [simulate] ends (RobTermination): nothing in the core
      waits for ever ([rob_simulate_ends]), within a number of calls that depends on the
      content of the core and on how far its memory queues are behind the clock
      ([Slack] in RobState lets the invariant count from there).  The theorems hold for any contention model and memory
      that meet [RobContentionOk] and [CoreMemoryOk], any configuration with
      [CfgOk] and instructions with [UopIn], which says what the decoder guarantees:
      registers in range, at most three source registers, dependencies
      inside the instruction.  Circular queues are lists ([circular_queue_refines_list]).
    - Interval model (IntervalTheorems, IntervalContention): simulation ends, dispatches
      in program order and accounts in the CPI stack for the latency it returns
      ([interval_simulate_ends]); the length of the critical path is what the
      micro-operations of the old window contribute to it ([critical_path_adds_up]);
      the resolution time of a branch is the longest chain of dependent
      micro-operations before it, among those whose last one takes time
      ([branch_resolution_longest_chain]); the length under
      contention for the ports of a Nehalem core is the shortest that any assignment
      to ports achieves ([effective_length_optimal]).  The first three hold for any
      contention model and memory that meet [IntervalContentionOk], [CoreMemoryOk] and
      [CoreMemoryKnown], any configuration with [TCfgOk], and as many micro-operations
      as keep the times of the model below 2^62 cycles.
    - Policies: LRU and MRU refine a recency stack; victims of NMRU, NRU, SRRIP
      and tree PLRU are characterised; round robin terminates when a way can be
      replaced.  Every policy meets [ReplacementPolicyOk], against which the
      cache theorems are proved.
    - Time and queues: unit conversions round-trip within stated bounds; the
      contention model never uses more units than there are and starts requests
      as early as possible; the history list never serves two requests at once;
      the basic and contention queues agree; the M/G/1 window keeps its sums;
      the moving mean is the mean of the window; latency breakdowns add up.
    - DRAM: the controller is a memory of blocks; a DRAM cache in front of any
      implementation of the interface reads memory once per miss or prefetch; the
      read-write model serves reads as if there were no writes.
    - TLBs hold the page looked up last and pass their victims on; the prefetchers
      stay inside their tables.
    - Kernel: in every state that the operations can reach in any order, scheduler,
      threads and cores agree on who runs where ([kernel_consistent]); yielding and
      periodic rescheduling succeed from all of them ([scheduler_total]); a
      rescheduled core goes to the thread that has waited longest
      ([reschedule_best]).  These three leave out PERIODIC_WORKLOAD and affinities of
      threads that the scheduler has no record of, where they fail
      ([hyper_period_thread_on_two_cores], [early_affinity_out_of_bounds]).  Futexes
      wake the longest waiters, which then run ([futex_wake_fifo], in every state);
      mutexes serve threads in order of arrival, barriers work in rounds, and the
      synchronisation server reaches the kernel only through its operations.
    - Branch predictors: tables are never indexed out of bounds and counters keep
      their width; a new loop predictor is right from the second pass of a loop on,
      whatever the branches of other sets do.
    - Theorems whose names say what goes wrong (for instance
      [flush_buffer_used_after_free], [nuca_hit_writes_garbage],
      [two_level_lost_write], [history_list_interval_inverted]) show behaviour of the code that its
      authors cannot have intended.

    ** Bounds and fuel

    Fuel stands for recursion that is not structural.  The handlers get the
    number of requests queued for the address plus two, which [dir_terminates]
    shows to be enough: every recursive call dequeues one request.  The loop of
    the geometric mean gets the length of its ring plus one
    ([window_product_ends]); round robin gets one turn of the set, after which
    it provably repeats itself.  The retries of the random policy depend on the
    generator and their bound is a parameter ([cfg_retry_fuel]).  Hooks that call
    hooks get a nesting depth; [scheduler_total] shows that the number of cores
    plus four is enough, since every nested rescheduling fills a core that was
    empty.  How often the barrier must advance until a thread runs depends on the
    time-outs of the application; its bounds are parameters of the configuration
    ([sim_advance_fuel], [sim_release_fuel]).

    A packet is followed through the network for as many hops as there are cores,
    which [mesh_delivers] shows to be enough; the number of packets that one call of
    [netPullFromTransport] takes is an argument.

    The loops of the out-of-order core run over the entries of the reorder buffer and
    need no fuel, but for the one of [simulate], whose number of calls of [execute] is an
    argument: [rob_simulate_ends] shows that [simulate_fuel] is enough, which counts the
    stages left to the micro-operations in the core and the cycles that each can be held up.

    In the interval model the loop that dispatches while the window is full has the
    number of calls of [dispatchWindow] as an argument: [interval_simulate_ends] shows
    that 16384 are enough, since a call that dispatches nothing adds at least one
    unit to the bandwidth that remains, of which 16384 make a micro-operation.

    The recursion between cache levels is bounded by the number of levels
    ([e_levels]); [update_reaches_all_levels] shows that a controller never runs out.
    The loop over the waiters of a line has its bound as an argument.

    Values that the source leaves uninitialised (the forwarder of an entry, the
    replacement pointers of the directory, [eviction] in [sendDataToNUCA]) are
    parameters, so that the theorems hold whatever they are.  So are [pow] of
    the C library, the contents of data buffers and the global time of the clock
    skew server.

    ** Not modelled

    Statistics registration, logging and locks have no effect on the results
    modelled; the operations of the kernel run with the thread manager's lock
    held.  Of the core models, the simultaneous-multithreading timer, the performance
    models that call the timers and the decoder, which is built on the XED library,
    are left out.  Of the schedulers, the static, sequential and big-small ones, DVFS and
    the branches of the reliability management unit, which are floating-point
    models driven by trace files, are left out.  Configuration parsing (Boost),
    tracing, scripting, the Pin front end and the HotSpot thermal model are
    outside the scope. *)

From stdpp Require Export base tactics list list_numbers numbers option strings.
From Stdlib Require Export ZArith Lia.

#[global] Open Scope Z_scope.

(** ** The hint database of the width lemmas *)

Create HintDb sim discriminated.

(** ** Fixed-width integers (src/common/misc/fixed_types.h)

    A [w]-bit unsigned integer is a [Z] in [0, 2^w); every operation that can
    leave the range goes through [wrap]. *)

Definition wrap (w z : Z) : Z := z mod 2 ^ w.

Abbreviation u8 := (wrap 8).
Abbreviation u16 := (wrap 16).
Abbreviation u32 := (wrap 32).
Abbreviation u64 := (wrap 64).

(** The two's complement reading of the low [w] bits, for SInt32 and SInt64. *)
Definition swrap (w z : Z) : Z :=
  let r := wrap w z in if r <? 2 ^ (w - 1) then r else r - 2 ^ w.

Abbreviation s32 := (swrap 32).
Abbreviation s64 := (swrap 64).

(** Bitwise complement of a [w]-bit unsigned value. *)
Definition wnot (w z : Z) : Z := 2 ^ w - 1 - z.

Definition in_width (w z : Z) : Prop := 0 <= z < 2 ^ w.

(** ** Failure

    [assert], [LOG_ASSERT_ERROR] and [LOG_PRINT_ERROR] abort the simulator;
    an access outside an array is undefined behaviour; recursion that is not
    structural runs on fuel.  All are values of [error]. *)

Inductive error : Type :=
  | AssertFailed            (* assert(...) or LOG_ASSERT_ERROR(...) *)
  | LogError                (* LOG_PRINT_ERROR(...) *)
  | OutOfBounds             (* array access outside its extent *)
  | NullDeref               (* method call through a null pointer *)
  | DivByZero
  | BadCast                 (* a C-style downcast to another class *)
  | BadConversion           (* a floating-point value converted outside the integer type *)
  | OutOfFuel.              (* the model's recursion bound was reached *)

#[global] Instance error_eq_dec : EqDecision error.
Proof. solve_decision. Defined.

Inductive res (A : Type) : Type :=
  | Ok (a : A)
  | Err (e : error).
Arguments Ok {A} a.
Arguments Err {A} e.

#[global] Instance res_ret : MRet res := fun A a => Ok a.
#[global] Instance res_bind : MBind res := fun A B f m =>
  match m with Ok a => f a | Err e => Err e end.

(** [assert(b)] *)
Definition assert_ (b : bool) : res unit := if b then Ok tt else Err AssertFailed.

(** [a[i]] and [a[i] = x] with the extent checked. *)
Definition aget {A} (l : list A) (i : nat) : res A :=
  match l !! i with Some x => Ok x | None => Err OutOfBounds end.

Definition aset {A} (l : list A) (i : nat) (x : A) : res (list A) :=
  match l !! i with Some _ => Ok (<[i := x]> l) | None => Err OutOfBounds end.

(** ** Tactics *)

(** Case analysis on the comparisons that the code branches on. *)
Ltac zcase :=
  match goal with
  | |- context [if ?a <? ?b then _ else _] => destruct (Z.ltb_spec a b)
  | |- context [if ?a <=? ?b then _ else _] => destruct (Z.leb_spec a b)
  | |- context [if ?a =? ?b then _ else _] => destruct (Z.eqb_spec a b)
  | H : context [if ?a <? ?b then _ else _] |- _ => destruct (Z.ltb_spec a b)
  | H : context [if ?a <=? ?b then _ else _] |- _ => destruct (Z.leb_spec a b)
  | H : context [if ?a =? ?b then _ else _] |- _ => destruct (Z.eqb_spec a b)
  end.

(** Evaluate a closed subterm of the goal. *)
Ltac veval t := let v := eval vm_compute in t in change t with v; cbv iota.

(** Peel the binds of a successful computation [H : m = Ok _]. *)
Ltac res_inv H :=
  repeat match type of H with
  | mbind ?f ?m = Ok _ =>
      let E := fresh "E" in
      destruct m eqn:E; cbn [mbind res_bind] in H; [ | discriminate H ]
  end.

(** ** Termination

    A computation does not run out of the recursion bound of the model. *)

Definition no_fuel_error {A} (r : res A) : Prop := r <> Err OutOfFuel.

Lemma no_fuel_bind {A B} (m : res A) (f : A -> res B) :
  no_fuel_error m -> (forall a, m = Ok a -> no_fuel_error (f a)) -> no_fuel_error (mbind f m).
Proof. unfold no_fuel_error. destruct m as [a|e]; cbn; [auto|]. intros He _ [= ->]. by apply He. Qed.

Lemma no_fuel_aget {A} (l : list A) i : no_fuel_error (aget l i).
Proof. unfold no_fuel_error, aget. by destruct (l !! i). Qed.

Lemma no_fuel_aset {A} (l : list A) i x : no_fuel_error (aset l i x).
Proof. unfold no_fuel_error, aset. by destruct (l !! i). Qed.

Lemma no_fuel_assert b : no_fuel_error (assert_ b).
Proof. by destruct b. Qed.

Create HintDb fuel.
#[export] Hint Resolve no_fuel_aget no_fuel_aset no_fuel_assert : fuel.

(** Follow the binds and branches of a computation. *)
Ltac nofuel :=
  repeat match goal with
  | |- no_fuel_error (mbind _ _) => apply no_fuel_bind; [|intros ? ?]
  | |- no_fuel_error (match ?x with _ => _ end) => destruct x
  | |- no_fuel_error (Ok _) => discriminate
  | |- no_fuel_error (mret _) => discriminate
  | |- no_fuel_error (Err ?e) => discriminate
  | |- no_fuel_error _ => solve [auto with fuel]
  end.

(** ** Width lemmas *)

Lemma wrap_small w z : 0 <= z < 2 ^ w -> wrap w z = z.
Proof. intros. unfold wrap. by apply Z.mod_small. Qed.

Lemma wrap_range w z : 0 <= w -> 0 <= wrap w z < 2 ^ w.
Proof. intros. unfold wrap. apply Z.mod_pos_bound. lia. Qed.

Lemma wrap_wrap w z : 0 <= w -> wrap w (wrap w z) = wrap w z.
Proof. intros. apply wrap_small, wrap_range; lia. Qed.

Lemma wrap_add_l w a b : 0 <= w -> wrap w (wrap w a + b) = wrap w (a + b).
Proof. intros. unfold wrap. by rewrite Zplus_mod_idemp_l. Qed.

Lemma wrap_add_r w a b : 0 <= w -> wrap w (a + wrap w b) = wrap w (a + b).
Proof. intros. unfold wrap. by rewrite Zplus_mod_idemp_r. Qed.

Lemma wrap_sub_l w a b : 0 <= w -> wrap w (wrap w a - b) = wrap w (a - b).
Proof. intros. unfold wrap. by rewrite Zminus_mod_idemp_l. Qed.

Lemma wrap_land w z : 0 <= w -> wrap w z = Z.land z (Z.ones w).
Proof. intros. unfold wrap. by rewrite Z.land_ones. Qed.

Lemma swrap_small w z : 0 < w -> - 2 ^ (w - 1) <= z < 2 ^ (w - 1) -> swrap w z = z.
Proof.
  intros Hw Hz. unfold swrap.
  assert (2 ^ w = 2 * 2 ^ (w - 1)) as Hp.
  { rewrite <- Z.pow_succ_r by lia. f_equal. lia. }
  destruct (decide (0 <= z)).
  - rewrite wrap_small by lia. zcase; lia.
  - unfold wrap. replace (z mod 2 ^ w) with (z + 2 ^ w).
    + zcase; lia.
    + apply (Z.mod_unique _ _ (-1)); lia.
Qed.

(** Bit fields that do not overlap: [|] is [+]. *)
Lemma lor_add_low k a b : 0 <= k -> 0 <= b < 2 ^ k -> Z.lor (a * 2 ^ k) b = a * 2 ^ k + b.
Proof.
  intros Hk Hb. assert (Z.land (a * 2 ^ k) b = 0) as E.
  { apply Z.bits_inj'. intros i Hi. rewrite Z.land_spec, Z.bits_0.
    destruct (Z.ltb_spec i k).
    - by rewrite Z.mul_pow2_bits_low by lia.
    - rewrite <- (Z.mod_small b (2 ^ k)) by lia.
      rewrite Z.mod_pow2_bits_high by lia. apply andb_false_r. }
  by rewrite <- Z.lxor_lor, <- Z.add_nocarry_lxor.
Qed.

Lemma in_width_wrap w z : 0 <= w -> in_width w (wrap w z).
Proof. apply wrap_range. Qed.

#[export] Hint Resolve wrap_range in_width_wrap : sim.

(** ** Array lemmas *)

Section arrays.
Context {A : Type}.
Implicit Types (l : list A) (x : A).

Lemma aget_ok l i x : aget l i = Ok x <-> l !! i = Some x.
Proof. unfold aget. destruct (l !! i); split; congruence. Qed.

Lemma aget_lt l i : (i < length l)%nat -> exists x, aget l i = Ok x /\ l !! i = Some x.
Proof.
  intros Hi. destruct (lookup_lt_is_Some_2 l i Hi) as [x Hx].
  exists x. by rewrite aget_ok.
Qed.

Lemma aset_lt l i x : (i < length l)%nat -> aset l i x = Ok (<[i := x]> l).
Proof.
  intros Hi. unfold aset. by destruct (lookup_lt_is_Some_2 l i Hi) as [y ->].
Qed.

Lemma aset_ok l i x l' :
  aset l i x = Ok l' <-> (i < length l)%nat /\ l' = <[i := x]> l.
Proof.
  unfold aset. destruct (l !! i) eqn:E.
  - apply lookup_lt_Some in E. split; [intros; by simplify_eq | by intros [_ ->]].
  - apply lookup_ge_None in E. split; [congruence | lia].
Qed.

Lemma aget_ge l i : (length l <= i)%nat -> aget l i = Err OutOfBounds.
Proof. intros. unfold aget. by rewrite (proj2 (lookup_ge_None l i)). Qed.
End arrays.

(** ** Counted loops: [for (i = 0; i < n; i++)] *)

Definition for_ {A} (n : nat) (f : nat -> A -> A) (a : A) : A :=
  foldl (fun a i => f i a) a (seq 0 n).

Fixpoint for_res_from {A} (k i : nat) (f : nat -> A -> res A) (a : A) : res A :=
  match k with
  | O => Ok a
  | S k => a ← f i a; for_res_from k (S i) f a
  end.
Definition for_res {A} (n : nat) (f : nat -> A -> res A) (a : A) : res A := for_res_from n 0 f a.

Lemma for_S {A} n (f : nat -> A -> A) a : for_ (S n) f a = f n (for_ n f a).
Proof. unfold for_. by rewrite seq_S, foldl_app. Qed.

Lemma for_res_from_last {A} k i (f : nat -> A -> res A) a :
  for_res_from (S k) i f a = (a ← for_res_from k i f a; f (i + k)%nat a).
Proof.
  revert i a. induction k as [|k IH]; intros i a.
  - cbn. rewrite Nat.add_0_r. by destruct (f i a).
  - change (for_res_from (S (S k)) i f a) with (a' ← f i a; for_res_from (S k) (S i) f a').
    change (for_res_from (S k) i f a) with (a' ← f i a; for_res_from k (S i) f a').
    destruct (f i a) as [a'|e]; cbn [mbind res_bind]; [|done].
    rewrite IH. by replace (S i + k)%nat with (i + S k)%nat by lia.
Qed.

Lemma for_res_S {A} n (f : nat -> A -> res A) a :
  for_res (S n) f a = (a ← for_res n f a; f n a).
Proof. apply for_res_from_last. Qed.

Lemma no_fuel_for {A} n (f : nat -> A -> res A) a :
  (forall i a, no_fuel_error (f i a)) -> no_fuel_error (for_res n f a).
Proof.
  intros Hf. unfold for_res. generalize 0%nat. revert a.
  induction n as [|n IH]; intros a i; cbn [for_res_from]; nofuel; auto.
Qed.

(** Loop rule: an invariant that each iteration re-establishes. *)
Lemma for_res_inv {A} (Inv : nat -> A -> Prop) n (f : nat -> A -> res A) a :
  Inv 0%nat a ->
  (forall i a, (i < n)%nat -> Inv i a -> exists a', f i a = Ok a' /\ Inv (S i) a') ->
  exists a', for_res n f a = Ok a' /\ Inv n a'.
Proof.
  intros H0. induction n as [|n IH]; intros Hs; [by exists a|].
  destruct IH as (a' & E & Ha'); [intros; apply Hs; [lia|done]|].
  rewrite for_res_S, E. cbn [mbind res_bind]. apply Hs; [lia|done].
Qed.

(** The same rule for loops that may fail. *)
Lemma for_res_inv_ok {A} (Inv : nat -> A -> Prop) n (f : nat -> A -> res A) a a' :
  Inv 0%nat a ->
  (forall i a a', (i < n)%nat -> Inv i a -> f i a = Ok a' -> Inv (S i) a') ->
  for_res n f a = Ok a' -> Inv n a'.
Proof.
  intros H0. revert a'. induction n as [|n IH]; intros a' Hs; [intros [= <-]; done|].
  rewrite for_res_S. intros H. res_inv H.
  eapply Hs; [lia| |exact H]. eapply IH; [|done]. intros; eapply Hs; eauto with lia.
Qed.

Lemma for_inv {A} (Inv : nat -> A -> Prop) n (f : nat -> A -> A) a :
  Inv 0%nat a ->
  (forall i a, (i < n)%nat -> Inv i a -> Inv (S i) (f i a)) -> Inv n (for_ n f a).
Proof.
  intros H0. induction n as [|n IH]; intros Hs; [done|].
  rewrite for_S. apply Hs; [lia|]. apply IH. intros; apply Hs; [lia|done].
Qed.

Lemma list_lookup_total_Some {A} `{Inhabited A} (l : list A) i x :
  l !! i = Some x -> l !!! i = x.
Proof. apply list_lookup_total_correct. Qed.

Lemma filter_ne_notin (w : nat) (l : list nat) : w ∉ l -> filter (fun v => v <> w) l = l.
Proof.
  induction l as [|a l IH]; intros Hn; [done|]. apply not_elem_of_cons in Hn as [Ha Hl].
  rewrite filter_cons_True by done. by rewrite IH.
Qed.

Lemma alter_insert {A} (f : A -> A) (l : list A) i x : l !! i = Some x -> alter f i l = <[i := f x]> l.
Proof.
  intros Hi. apply list_eq. intros j. rewrite list_lookup_alter. case_decide; subst.
  - rewrite Hi, list_lookup_insert_eq by (by eapply lookup_lt_Some). done.
  - by rewrite list_lookup_insert_ne.
Qed.

Lemma alter_none {A} (f : A -> A) (l : list A) i : l !! i = None -> alter f i l = l.
Proof. intros Hi. apply list_eq. intros j. rewrite list_lookup_alter. case_decide; subst; [by rewrite Hi|done]. Qed.

(** Sums *)
Definition total (l : list Z) : Z := foldr Z.add 0 l.

Lemma total_cons x l : total (x :: l) = x + total l.
Proof. done. Qed.

Lemma total_app l k : total (l ++ k) = total l + total k.
Proof. induction l as [|x l IH]; [done|]. rewrite <- app_comm_cons, !total_cons. lia. Qed.

(** Two arrays with the same domain have the same extent. *)
Lemma lookup_same_length {A B} (l : list A) (k : list B) :
  (forall i, is_Some (l !! i) <-> is_Some (k !! i)) -> length l = length k.
Proof.
  intros H. destruct (decide (length l < length k)%nat); [|destruct (decide (length k < length l)%nat)]; [| |lia].
  - pose proof (proj1 (lookup_lt_is_Some _ _) (proj2 (H (length l)) (lookup_lt_is_Some_2 _ _ l0))). lia.
  - pose proof (proj1 (lookup_lt_is_Some _ _) (proj1 (H (length k)) (lookup_lt_is_Some_2 _ _ l0))). lia.
Qed.
