(* ===== verification/StateMonad.v ===== *)
(** * State and failure

    The monad of the stateful components: a computation reads and changes a
    state [S] and either returns or fails with an [error] (the failure modes of
    Prelude).  [wp] is its weakest precondition; [keeps] states that an operation
    keeps an invariant and a view of the state. *)

From S2P Require Import Prelude.

Definition ST (S A : Type) : Type := S -> res (A * S).

#[global] Instance st_ret {S} : MRet (ST S) := fun A a s => Ok (a, s).
#[global] Instance st_bind {S} : MBind (ST S) := fun A B f m s =>
  match m s with Ok (a, s) => f a s | Err e => Err e end.

Section operations.
Context {S : Type}.

Definition gets {A} (f : S -> A) : ST S A := fun s => Ok (f s, s).
Definition modify (f : S -> S) : ST S unit := fun s => Ok (tt, f s).
Definition fail {A} (e : error) : ST S A := fun _ => Err e.
Definition lift_res {A} (r : res A) : ST S A := fun s => a ← r; Ok (a, s).
Definition assertM (b : bool) : ST S unit := lift_res (assert_ b).

(** A computation on a component of the state. *)
Definition zoom {T A} (proj : S -> T) (upd : T -> S -> S) (m : ST T A) : ST S A := fun s =>
  '(a, t) ← m (proj s); Ok (a, upd t s).
End operations.

(** ** Weakest preconditions

    [wp m Q s]: run from [s], [m] ends in a state that satisfies [Q], or fails with an error
    of the program; it never runs out of the model's fuel. *)

Definition wp {S A} (m : ST S A) (Q : A -> S -> Prop) (s : S) : Prop :=
  match m s with Ok (a, s') => Q a s' | Err e => e <> OutOfFuel end.

Section wp.
Context {S : Type}.
Implicit Types (s : S).

Lemma wp_bind {A B} (m : ST S A) (f : A -> ST S B) Q s :
  wp m (fun a => wp (f a) Q) s -> wp (mbind f m) Q s.
Proof. unfold wp, mbind, st_bind. by destruct (m s) as [[a s']|e]. Qed.

Lemma wp_ret {A} (a : A) (Q : A -> S -> Prop) s : Q a s -> wp (mret a) Q s.
Proof. done. Qed.

Lemma wp_gets {A} (f : S -> A) Q s : Q (f s) s -> wp (gets f) Q s.
Proof. done. Qed.

Lemma wp_modify (f : S -> S) Q s : Q tt (f s) -> wp (modify f) Q s.
Proof. done. Qed.

Lemma wp_fail {A} e (Q : A -> S -> Prop) s : e <> OutOfFuel -> wp (fail e) Q s.
Proof. done. Qed.

Lemma wp_lift {A} (r : res A) (Q : A -> S -> Prop) s :
  no_fuel_error r -> (forall a, r = Ok a -> Q a s) -> wp (lift_res r) Q s.
Proof.
  unfold wp, lift_res, no_fuel_error. destruct r as [a|e]; cbn; [auto|]. intros He _ ->. by apply He.
Qed.

Lemma wp_assert b (Q : unit -> S -> Prop) s : (b = true -> Q tt s) -> wp (assertM b) Q s.
Proof. intros H. apply wp_lift; destruct b; intros; cbn in *; try done. destruct a. auto. Qed.

Lemma wp_mono {A} (m : ST S A) (Q R : A -> S -> Prop) s :
  wp m Q s -> (forall a s', Q a s' -> R a s') -> wp m R s.
Proof. unfold wp. destruct (m s) as [[a s']|e]; auto. Qed.

Lemma wp_zoom {T A} (proj : S -> T) (upd : T -> S -> S) (m : ST T A) Q s :
  wp m (fun a t => Q a (upd t s)) (proj s) -> wp (zoom proj upd m) Q s.
Proof. unfold wp, zoom. destruct (m (proj s)) as [[a t]|e]; done. Qed.

Lemma wp_ok {A} (m : ST S A) (Q : A -> S -> Prop) s a s' : wp m Q s -> m s = Ok (a, s') -> Q a s'.
Proof. unfold wp. intros H E. by rewrite E in H. Qed.

Lemma wp_no_fuel {A} (m : ST S A) (Q : A -> S -> Prop) s : wp m Q s -> no_fuel_error (m s).
Proof. unfold wp, no_fuel_error. destruct (m s); [done|]. by intros H [= ->]. Qed.
End wp.

(** ** Operations that keep an invariant and a view of the state

    [keeps I V m Q]: from a state of the invariant [I], [m] keeps [I] and, up to the
    equivalence [V], the part of the state that [V] compares; its result satisfies [Q]. *)

Definition keeps {S A} (I : S -> Prop) (V : relation S) (m : ST S A) (Q : A -> Prop) : Prop :=
  forall s, I s -> wp m (fun a s' => I s' /\ V s s' /\ Q a) s.

Section keeps.
Context {S : Type} (I : S -> Prop) (V : relation S) `{!PreOrder V}.

Lemma keeps_bind {A B} (m : ST S A) (f : A -> ST S B) Q R :
  keeps I V m Q -> (forall a, Q a -> keeps I V (f a) R) -> keeps I V (mbind f m) R.
Proof.
  intros Hm Hf s Hs. apply wp_bind. eapply wp_mono; [by apply Hm|]. intros a s' (HI & HV & HQ).
  eapply wp_mono; [by apply (Hf a HQ)|]. intros b s'' (HI' & HV' & HR). split_and!; try done.
  by etrans.
Qed.

Lemma keeps_ret {A} (a : A) (Q : A -> Prop) : Q a -> keeps I V (mret a) Q.
Proof. intros HQ s Hs. split_and!; done. Qed.

Lemma keeps_fail {A} e (Q : A -> Prop) : e <> OutOfFuel -> keeps I V (fail e) Q.
Proof. by intros He s Hs. Qed.

Lemma keeps_gets {A} (f : S -> A) : keeps I V (gets f) (fun _ => True).
Proof. by intros s Hs. Qed.

Lemma keeps_lift {A} (r : res A) : no_fuel_error r -> keeps I V (lift_res r) (fun a => r = Ok a).
Proof. intros Hr s Hs. apply wp_lift; [done|]. intros a Ha. by split_and!. Qed.

Lemma keeps_assert b : keeps I V (assertM b) (fun _ => b = true).
Proof. intros s Hs. apply wp_assert. by intros ->. Qed.

Lemma keeps_modify (f : S -> S) :
  (forall s, I s -> I (f s) /\ V s (f s)) -> keeps I V (modify f) (fun _ => True).
Proof. intros Hf s Hs. destruct (Hf s Hs). by apply wp_modify. Qed.

Lemma keeps_mono {A} (m : ST S A) (Q R : A -> Prop) :
  keeps I V m Q -> (forall a, Q a -> R a) -> keeps I V m R.
Proof. intros Hm HQ s Hs. eapply wp_mono; [by apply Hm|]. intros a s' (? & ? & ?). auto. Qed.
End keeps.

(** ** Preconditions relative to the errors that are allowed

    [wpe E m Q s]: run from [s], [m] ends in a state that satisfies [Q], or fails with an error of
    [E].  With no error allowed it is total correctness, [runs]; with every error allowed it is
    partial correctness, [wlp]. *)

Definition wpe {S A} (E : error -> Prop) (m : ST S A) (Q : A -> S -> Prop) (s : S) : Prop :=
  match m s with Ok (a, s') => Q a s' | Err e => E e end.

Abbreviation runs := (wpe (fun _ => False)).
Abbreviation wlp := (wpe (fun _ => True)).

Section wpe.
Context {S : Type} (E : error -> Prop).
Implicit Types (s : S).

Lemma wpe_bind {A B} (m : ST S A) (f : A -> ST S B) Q s :
  wpe E m (fun a => wpe E (f a) Q) s -> wpe E (mbind f m) Q s.
Proof. unfold wpe, mbind, st_bind. by destruct (m s) as [[a s']|e]. Qed.

Lemma wpe_ret {A} (a : A) (Q : A -> S -> Prop) s : Q a s -> wpe E (mret a) Q s.
Proof. done. Qed.

Lemma wpe_gets {A} (f : S -> A) Q s : Q (f s) s -> wpe E (gets f) Q s.
Proof. done. Qed.

Lemma wpe_modify (f : S -> S) Q s : Q tt (f s) -> wpe E (modify f) Q s.
Proof. done. Qed.

Lemma wpe_fail {A} e (Q : A -> S -> Prop) s : E e -> wpe E (fail e) Q s.
Proof. done. Qed.

Lemma wpe_lift {A} (r : res A) (Q : A -> S -> Prop) s a : r = Ok a -> Q a s -> wpe E (lift_res r) Q s.
Proof. intros ->. done. Qed.

Lemma wpe_mono {A} (E' : error -> Prop) (m : ST S A) (Q R : A -> S -> Prop) s :
  wpe E' m Q s -> (forall e, E' e -> E e) -> (forall a s', Q a s' -> R a s') -> wpe E m R s.
Proof. unfold wpe. destruct (m s) as [[a s']|e]; auto. Qed.

Lemma wpe_ok {A} (m : ST S A) (Q : A -> S -> Prop) s a s' : wpe E m Q s -> m s = Ok (a, s') -> Q a s'.
Proof. unfold wpe. intros H Em. by rewrite Em in H. Qed.
End wpe.

Section partial.
Context {S : Type}.
Implicit Types (s : S).

Lemma wlp_fail {A} e (Q : A -> S -> Prop) s : wlp (fail e) Q s.
Proof. done. Qed.

Lemma wlp_lift {A} (r : res A) (Q : A -> S -> Prop) s : (forall a, r = Ok a -> Q a s) -> wlp (lift_res r) Q s.
Proof. unfold wpe, lift_res. destruct r; cbn; auto. Qed.

Lemma wlp_assert b (Q : unit -> S -> Prop) s : (b = true -> Q tt s) -> wlp (assertM b) Q s.
Proof. intros H. apply wlp_lift. destruct b; intros [] E; [auto|done]. Qed.

Lemma wlp_intro {A} (m : ST S A) (Q : A -> S -> Prop) s : (forall a s', m s = Ok (a, s') -> Q a s') -> wlp m Q s.
Proof. unfold wpe. destruct (m s) as [[a s']|e]; auto. Qed.

Lemma runs_ok {A} (m : ST S A) (Q : A -> S -> Prop) s : runs m Q s -> exists a s', m s = Ok (a, s') /\ Q a s'.
Proof. unfold wpe. destruct (m s) as [[a s']|e]; [eauto|done]. Qed.
End partial.
