(* ===== verification/Utils.v ===== *)
(** * Integer utilities and pseudo-random generators

    Models src/common/misc/utils.cc ([isPower2], [floorLog2], [ceilLog2],
    [countBits]), src/common/misc/rng.h (the drand48-style hash used for set
    indexing) and src/common/misc/random.h (the [Random] class). *)

From S2P Require Import Prelude.

(** ** utils.cc *)

Definition isPower2 (n : Z) : bool := Z.land n (u32 (n - 1)) =? 0.

(** One line [if (n & mask) { p += k; n >>= k; }] of [floorLog2]. *)
Definition floorLog2_step (mask k : Z) (pn : Z * Z) : Z * Z :=
  let '(p, n) := pn in
  if Z.land n mask =? 0 then (p, n) else (p + k, Z.shiftr n k).

Definition floorLog2 (n : Z) : Z :=
  if n =? 0 then -1 else
  let pn := (0, n) in
  let pn := floorLog2_step 0xffff0000 16 pn in
  let pn := floorLog2_step 0x0000ff00 8 pn in
  let pn := floorLog2_step 0x000000f0 4 pn in
  let pn := floorLog2_step 0x0000000c 2 pn in
  let '(p, n) := pn in
  if Z.land n 0x00000002 =? 0 then p else p + 1.

Definition ceilLog2 (n : Z) : Z := floorLog2 (u32 (n - 1)) + 1.

(** [for (result = 1; n &= n - 1; ++result);] *)
Fixpoint countBits_loop (fuel : nat) (n result : Z) : res Z :=
  match fuel with
  | O => Err OutOfFuel
  | S fuel =>
      let n := Z.land n (u64 (n - 1)) in
      if n =? 0 then Ok result else countBits_loop fuel n (u64 (result + 1))
  end.

Definition countBits (n : Z) : res Z :=
  if n =? 0 then Ok 0 else countBits_loop 64 n 1.

(** ** rng.h *)

Definition RNG_A : Z := 0x5DEECE66D.
Definition RNG_C : Z := 0xB.
Definition RNG_M : Z := 2 ^ 48 - 1.

Definition rng_next (state : Z) : Z * Z :=
  let state := Z.land (u64 (RNG_A * state + RNG_C)) RNG_M in
  (Z.shiftr state 16, state).

Definition rng_seed (seed : Z) : Z := u64 (u64 (Z.shiftl seed 16) + 0x330E).

(** ** random.h: class Random (its only field is [_seed]) *)

Definition random_next (seed limit : Z) : Z * Z :=
  let seed := u32 (u32 (seed * 1103515245) + 12345) in
  ((seed / 65536) mod limit, seed).

(** ** Lemmas *)

Lemma land_shifted_ones_zero n k :
  0 <= k -> 0 <= n < 2 ^ (2 * k) ->
  Z.land n (Z.shiftl (Z.ones k) k) = 0 <-> n < 2 ^ k.
Proof.
  intros Hk Hn. 
  assert (Z.land n (Z.shiftl (Z.ones k) k) = Z.shiftl (Z.shiftr n k) k) as ->.
  { apply Z.bits_inj'. intros i Hi. rewrite Z.land_spec.
    destruct (Z.ltb_spec i k).
    - rewrite !Z.shiftl_spec_low by lia. by rewrite andb_false_r.
    - rewrite !Z.shiftl_spec by lia. rewrite Z.shiftr_spec by lia.
      replace (i - k + k) with i by lia.
      destruct (Z.ltb_spec (i - k) k).
      + rewrite Z.ones_spec_low by lia. by rewrite andb_true_r.
      + rewrite Z.ones_spec_high by lia. rewrite andb_false_r. symmetry.
        destruct (decide (n = 0)) as [->|]; [apply Z.bits_0|].
        apply Z.bits_above_log2; [lia|]. 
        apply Z.log2_lt_pow2; [lia|]. eapply Z.lt_le_trans; [apply Hn|].
        apply Z.pow_le_mono_r; lia. }
  rewrite Z.shiftl_mul_pow2, Z.shiftr_div_pow2 by lia.
  pose proof (Z.pow_pos_nonneg 2 k ltac:(lia) Hk).
  split; intros H'.
  - apply Z.mul_eq_0_l in H'; [|lia]. apply Z.div_small_iff in H'; lia.
  - rewrite Z.div_small; lia.
Qed.

(** One halving step keeps [p + log2 n] and halves the width of [n]. *)
Lemma floorLog2_step_spec k w p n p' n' :
  0 < k -> w = 2 * k -> 0 < n < 2 ^ w ->
  floorLog2_step (Z.shiftl (Z.ones k) k) k (p, n) = (p', n') ->
  0 < n' < 2 ^ k /\ p' + Z.log2 n' = p + Z.log2 n.
Proof.
  intros Hk -> Hn. unfold floorLog2_step.
  pose proof (land_shifted_ones_zero n k ltac:(lia) ltac:(lia)) as Hz.
  pose proof (Z.pow_pos_nonneg 2 k ltac:(lia) ltac:(lia)) as Hp.
  assert (2 ^ (2 * k) = 2 ^ k * 2 ^ k) as E.
  { rewrite <- Z.pow_add_r by lia. f_equal; lia. }
  destruct (Z.eqb_spec (Z.land n (Z.shiftl (Z.ones k) k)) 0) as [e|e]; intros ?; simplify_eq.
  - apply Hz in e. split; [lia | done].
  - assert (2 ^ k <= n) by (destruct (decide (n < 2 ^ k)); [tauto | lia]).
    rewrite Z.log2_shiftr by lia. rewrite Z.shiftr_div_pow2 by lia.
    assert (k <= Z.log2 n) by (apply Z.log2_le_pow2; lia).
    repeat split; [apply Z.div_str_pos; lia | apply Z.div_lt_upper_bound; nia | lia].
Qed.

Lemma floorLog2_correct n : 0 < n < 2 ^ 32 -> floorLog2 n = Z.log2 n.
Proof.
  intros Hn. unfold floorLog2. destruct (Z.eqb_spec n 0); [lia|].
  destruct (floorLog2_step 0xffff0000 16 (0, n)) as [p1 n1] eqn:E1.
  apply (floorLog2_step_spec 16 32) in E1 as [R1 L1]; [|lia..].
  destruct (floorLog2_step 0xff00 8 (p1, n1)) as [p2 n2] eqn:E2.
  apply (floorLog2_step_spec 8 16) in E2 as [R2 L2]; [|lia..].
  destruct (floorLog2_step 0xf0 4 (p2, n2)) as [p3 n3] eqn:E3.
  apply (floorLog2_step_spec 4 8) in E3 as [R3 L3]; [|lia..].
  destruct (floorLog2_step 0xc 2 (p3, n3)) as [p4 n4] eqn:E4.
  apply (floorLog2_step_spec 2 4) in E4 as [R4 L4]; [|lia..].
  assert (n4 = 1 \/ n4 = 2 \/ n4 = 3) as Hn4 by (change (2 ^ 2) with 4 in R4; lia).
  clear - L1 L2 L3 L4 Hn4.
  destruct Hn4 as [-> | [-> | ->]]; simpl Z.log2 in L4;
    match goal with |- context [?a =? 0] => veval (a =? 0) end; lia.
Qed.

Lemma floorLog2_pow2 k : 0 <= k < 32 -> floorLog2 (2 ^ k) = k.
Proof.
  intros Hk. rewrite floorLog2_correct, Z.log2_pow2; [lia..|].
  split; [apply Z.pow_pos_nonneg; lia | apply Z.pow_lt_mono_r; lia].
Qed.

Lemma ceilLog2_correct n : 0 < n < 2 ^ 32 -> ceilLog2 n = Z.log2_up n.
Proof.
  intros Hn. unfold ceilLog2. rewrite wrap_small by lia.
  destruct (decide (n = 1)) as [->|]; [done|].
  rewrite floorLog2_correct by lia.
  rewrite Z.log2_up_eqn by lia. rewrite Z.sub_1_r. lia.
Qed.

(** The number of bits set in [z], by recursion on its binary digits. *)
Fixpoint ppopcount (p : positive) : Z :=
  match p with xH => 1 | xO p => ppopcount p | xI p => 1 + ppopcount p end.

Definition popcount (z : Z) : Z := match z with Zpos p => ppopcount p | _ => 0 end.

Lemma ppopcount_pos p : 1 <= ppopcount p.
Proof. induction p; cbn [ppopcount]; lia. Qed.

Lemma popcount_pos z : 0 < z -> 1 <= popcount z.
Proof. destruct z; try lia. intros _. apply ppopcount_pos. Qed.

Lemma popcount_double z : popcount (2 * z) = popcount z.
Proof. by destruct z. Qed.

Lemma popcount_bound w z : 0 <= w -> 0 <= z < 2 ^ w -> popcount z <= w.
Proof.
  intros Hw. revert z. apply (natlike_ind (fun w => forall z, 0 <= z < 2 ^ w -> popcount z <= w));
    [| |done].
  - intros z Hz. replace z with 0 by (change (2 ^ 0) with 1 in Hz; lia). done.
  - clear w Hw. intros w Hw IH z Hz. rewrite Z.pow_succ_r in Hz by lia.
    destruct z as [|[p|p|]|]; [cbn; lia| | |cbn; lia|lia].
    + specialize (IH (Zpos p) ltac:(lia)). cbn [popcount ppopcount] in *. lia.
    + specialize (IH (Zpos p) ltac:(lia)). cbn [popcount ppopcount] in *. lia.
Qed.

(** [n & (n - 1)] clears exactly one set bit. *)
Lemma land_pred_popcount p :
  let n := Z.land (Zpos p) (Zpos p - 1) in
  0 <= n < Zpos p /\ popcount n = ppopcount p - 1.
Proof.
  cbv zeta. induction p as [p IH | p IH |].
  - replace (Z.land (Zpos p~1) (Zpos p~1 - 1)) with (Zpos p~0).
    + cbn [popcount ppopcount]. lia.
    + apply Z.bits_inj'. intros i Hi. rewrite Z.land_spec.
      replace (Zpos p~1 - 1) with (2 * Zpos p) by lia.
      replace (Zpos p~1) with (2 * Zpos p + 1) by lia.
      replace (Zpos p~0) with (2 * Zpos p) by lia.
      destruct (decide (i = 0)) as [->|].
      * by rewrite Z.testbit_even_0, andb_false_r.
      * replace i with (Z.succ (Z.pred i)) by lia.
        rewrite Z.testbit_even_succ, Z.testbit_odd_succ by lia. by rewrite andb_diag.
  - replace (Z.land (Zpos p~0) (Zpos p~0 - 1)) with (2 * Z.land (Zpos p) (Zpos p - 1)).
    + rewrite popcount_double. cbn [ppopcount]. lia.
    + apply Z.bits_inj'. intros i Hi. rewrite Z.land_spec.
      replace (Zpos p~0 - 1) with (2 * (Zpos p - 1) + 1) by lia.
      replace (Zpos p~0) with (2 * Zpos p) by lia.
      destruct (decide (i = 0)) as [->|].
      * by rewrite !Z.testbit_even_0.
      * replace i with (Z.succ (Z.pred i)) by lia.
        by rewrite !Z.testbit_even_succ, Z.testbit_odd_succ, Z.land_spec by lia.
  - veval (Z.land 1 (1 - 1)). cbn. lia.
Qed.

Lemma countBits_loop_spec fuel n r :
  0 < n < 2 ^ 64 -> popcount n <= Z.of_nat fuel -> 0 <= r -> r + popcount n <= 2 ^ 64 ->
  countBits_loop fuel n r = Ok (r + popcount n - 1).
Proof.
  revert n r. induction fuel as [|fuel IH]; intros n r Hn Hf Hr Hb.
  { pose proof (popcount_pos n). lia. }
  cbn [countBits_loop]. rewrite (wrap_small 64 (n - 1)) by lia.
  destruct n as [|p|]; [lia| |lia].
  destruct (land_pred_popcount p) as [Hlt Hpc]. 
  change (popcount (Zpos p)) with (ppopcount p) in *.
  zcase.
  - rewrite e in Hpc. cbn in Hpc. f_equal. lia.
  - pose proof (popcount_pos (Z.land (Zpos p) (Zpos p - 1))).
    rewrite wrap_small by lia. rewrite IH by lia. f_equal. lia.
Qed.

Lemma countBits_correct n : 0 <= n < 2 ^ 64 -> countBits n = Ok (popcount n).
Proof.
  intros Hn. unfold countBits. zcase; [by subst|].
  pose proof (popcount_bound 64 n ltac:(lia) Hn).
  rewrite countBits_loop_spec by lia. f_equal. lia.
Qed.

Lemma ppopcount_1 p : ppopcount p = 1 <-> exists k, 0 <= k /\ Zpos p = 2 ^ k.
Proof.
  split.
  - induction p as [p IH | p IH |]; cbn [ppopcount]; intros H.
    + pose proof (ppopcount_pos p). lia.
    + destruct (IH H) as (k & Hk & E). exists (Z.succ k). rewrite Z.pow_succ_r; lia.
    + by exists 0.
  - intros (k & Hk & E). revert p E. pattern k. apply natlike_ind; [| |done]; clear.
    + intros p E. change (2 ^ 0) with 1 in E. by simplify_eq.
    + intros k Hk IH p E. rewrite Z.pow_succ_r in E by lia.
      destruct p; [lia| |lia]. cbn [ppopcount]. apply IH. lia.
Qed.

Lemma isPower2_correct n :
  0 < n < 2 ^ 32 -> isPower2 n = true <-> exists k, 0 <= k /\ n = 2 ^ k.
Proof.
  intros Hn. unfold isPower2. rewrite wrap_small by lia.
  destruct n as [|p|]; [lia| |lia]. rewrite Z.eqb_eq, <- ppopcount_1.
  destruct (land_pred_popcount p) as [Hlt Hpc]. split; intros H.
  - rewrite H in Hpc. cbn in Hpc. lia.
  - destruct (Z.land (Zpos p) (Zpos p - 1)) as [|q|] eqn:E; [done| |lia].
    pose proof (ppopcount_pos q). cbn in Hpc. lia.
Qed.

Lemma random_next_range seed limit :
  0 < limit -> 0 <= fst (random_next seed limit) < limit.
Proof. intros. cbn. apply Z.mod_pos_bound. lia. Qed.

Lemma rng_next_range state :
  0 <= fst (rng_next state) < 2 ^ 32 /\ in_width 48 (snd (rng_next state)).
Proof.
  unfold rng_next, in_width, RNG_M. cbn [fst snd].
  change (2 ^ 48 - 1) with (Z.ones 48). rewrite <- wrap_land by lia.
  pose proof (wrap_range 48 (u64 (RNG_A * state + RNG_C)) ltac:(lia)) as H.
  split; [|done]. rewrite Z.shiftr_div_pow2 by lia.
  split; [apply Z.div_pos; lia | apply Z.div_lt_upper_bound; lia].
Qed.
