(* ===== verification/SubsecondTime.v ===== *)
(** * Simulated time

    Models src/common/misc/subsecond_time.h: the class [SubsecondTime] (a
    64-bit count of femtoseconds, every operation modulo 2^64), and the classes
    built on it: [ComponentPeriod], [SubsecondTimeCycleConverter],
    [ComponentBandwidth], [ComponentBandwidthPerCycle], [ComponentLatency] and
    [ComponentTime].

    The latter hold a [const ComponentPeriod*] whose target changes when the
    frequency of the component is changed, so they are modelled with a period
    reference [pref] that is read in a store of periods at each use. *)

From S2P Require Import Prelude.

(** ** class SubsecondTime: its only field is [m_time] *)

Abbreviation SubsecondTime := Z (only parsing).

Definition FS_1 : Z := 1.
Definition PS_1 : Z := FS_1 * 1000.
Definition NS_1 : Z := PS_1 * 1000.
Definition US_1 : Z := NS_1 * 1000.
Definition MS_1 : Z := US_1 * 1000.
Definition SEC_1 : Z := MS_1 * 1000.

Definition st_add (lhs rhs : SubsecondTime) : SubsecondTime := u64 (lhs + rhs).
Definition st_sub (lhs rhs : SubsecondTime) : SubsecondTime := u64 (lhs - rhs).
Definition st_mul (lhs rhs : Z) : SubsecondTime := u64 (lhs * rhs).
(** A shift by 64 or more is undefined. *)
Definition st_shl (lhs : SubsecondTime) (n : Z) : SubsecondTime := u64 (Z.shiftl lhs n).

Definition st_div (lhs rhs : Z) : res Z :=
  if rhs =? 0 then Err DivByZero else Ok (lhs / rhs).
Definition st_mod (lhs rhs : Z) : res Z :=
  if rhs =? 0 then Err DivByZero else Ok (lhs mod rhs).

Definition FS (fs : Z) : SubsecondTime := st_mul fs FS_1.
Definition PS (ps : Z) : SubsecondTime := st_mul ps PS_1.
Definition NS (ns : Z) : SubsecondTime := st_mul ns NS_1.
Definition US (us : Z) : SubsecondTime := st_mul us US_1.
Definition MS (ms : Z) : SubsecondTime := st_mul ms MS_1.
Definition SEC (sec : Z) : SubsecondTime := st_mul sec SEC_1.
Definition Zero : SubsecondTime := 0.
Definition MaxTime : SubsecondTime := 0xffffffffffffffff.

Definition getFS (t : SubsecondTime) : Z := t / FS_1.
Definition getPS (t : SubsecondTime) : Z := t / PS_1.
Definition getNS (t : SubsecondTime) : Z := t / NS_1.
Definition getUS (t : SubsecondTime) : Z := t / US_1.
Definition getMS (t : SubsecondTime) : Z := t / MS_1.
Definition getSEC (t : SubsecondTime) : Z := t / SEC_1.

Definition st_eqb (lhs rhs : SubsecondTime) : bool := lhs =? rhs.
Definition st_neb (lhs rhs : SubsecondTime) : bool := negb (st_eqb lhs rhs).
Definition st_ltb (lhs rhs : SubsecondTime) : bool := lhs <? rhs.
Definition st_gtb (lhs rhs : SubsecondTime) : bool := st_ltb rhs lhs.
Definition st_leb (lhs rhs : SubsecondTime) : bool := negb (st_gtb lhs rhs).
Definition st_geb (lhs rhs : SubsecondTime) : bool := negb (st_ltb lhs rhs).

(** [(lhs.m_time + ((rhs.m_time/2) + 1)) / rhs.m_time] *)
Definition divideRounded (lhs rhs : SubsecondTime) : res Z :=
  if rhs =? 0 then Err DivByZero else Ok (u64 (lhs + (rhs / 2 + 1)) / rhs).

(** ** class ComponentPeriod: its only field is [m_period] *)

Definition fromFreqHz (freq_in_hz : Z) : res SubsecondTime := st_div (SEC 1) freq_in_hz.
Definition getPeriodInFreqMHz (m_period : SubsecondTime) : res Z := st_div US_1 m_period.
Definition period_mul (m_period rhs : Z) : SubsecondTime := st_mul m_period rhs.

(** ** Classes that hold a pointer to a period *)

Abbreviation pref := nat (only parsing).
Abbreviation periods := (nat -> SubsecondTime) (only parsing).

(** [setPeriodFromFreqHz] on the period that [p] points to. *)
Definition setPeriodFromFreqHz (st : periods) (p : pref) (freq_in_hz : Z) : res periods :=
  m ← fromFreqHz freq_in_hz; Ok (fun q => if decide (q = p) then m else st q).

Definition cyclesToSubsecondTime (st : periods) (p : pref) (cycles : Z) : SubsecondTime :=
  st_mul (st p) cycles.
Definition subsecondTimeToCycles (st : periods) (p : pref) (time : SubsecondTime) : res Z :=
  st_div time (st p).

(** class ComponentBandwidth; the constructor scales a float, the field is an integer. *)
Record ComponentBandwidth := { m_bw_in_bits_per_us : Z }.

Definition bw_getLatency (b : ComponentBandwidth) (bits_transmitted : Z) : res SubsecondTime :=
  st_div (st_mul (US 1) bits_transmitted) (m_bw_in_bits_per_us b).
Definition bw_getRoundedLatency (b : ComponentBandwidth) (bits_transmitted : Z) : res SubsecondTime :=
  st_div (st_add (st_mul (US 1) bits_transmitted) (US 1 / 2)) (m_bw_in_bits_per_us b).

Record ComponentBandwidthPerCycle := {
  bpc_period : pref;
  m_bw_in_bits_per_cycle : Z
}.

Definition isInfinite (b : ComponentBandwidthPerCycle) : bool := m_bw_in_bits_per_cycle b =? 0.
Definition bpc_getLatency (st : periods) (b : ComponentBandwidthPerCycle) (bits_transmitted : Z)
  : res SubsecondTime :=
  st_div (st_mul (st (bpc_period b)) bits_transmitted) (m_bw_in_bits_per_cycle b).
Definition bpc_getRoundedLatency (st : periods) (b : ComponentBandwidthPerCycle)
    (bits_transmitted : Z) : res SubsecondTime :=
  let period := st (bpc_period b) in
  st_div (st_add (st_mul period bits_transmitted) (period / 2)) (m_bw_in_bits_per_cycle b).

Record ComponentLatency := { cl_period : pref; m_fixed_cycle_latency : Z }.

Definition cl_getLatency (st : periods) (l : ComponentLatency) : SubsecondTime :=
  st_mul (st (cl_period l)) (m_fixed_cycle_latency l).
Definition cl_add (l : ComponentLatency) (rhs : Z) : ComponentLatency :=
  {| cl_period := cl_period l; m_fixed_cycle_latency := u64 (m_fixed_cycle_latency l + rhs) |}.

Record ComponentTime := { ct_period : pref; ct_time : SubsecondTime }.

Definition ComponentTime_new (p : pref) : ComponentTime := {| ct_period := p; ct_time := Zero |}.
Definition addCycleLatency (st : periods) (t : ComponentTime) (num_cycles : Z) : ComponentTime :=
  {| ct_period := ct_period t; ct_time := st_add (ct_time t) (st_mul (st (ct_period t)) num_cycles) |}.
Definition addLatency (t : ComponentTime) (time_to_add : SubsecondTime) : ComponentTime :=
  {| ct_period := ct_period t; ct_time := st_add (ct_time t) time_to_add |}.
(** [addLatency(const ComponentTime&)] and [operator+=]: the periods must be the same object. *)
Definition ct_add (t rhs : ComponentTime) : res ComponentTime :=
  _ ← assert_ (bool_decide (ct_period rhs = ct_period t));
  Ok {| ct_period := ct_period t; ct_time := st_add (ct_time t) (ct_time rhs) |}.
Definition ct_reset (t : ComponentTime) : ComponentTime :=
  {| ct_period := ct_period t; ct_time := Zero |}.
Definition getLatencyGenerator (t : ComponentTime) : ComponentTime := ComponentTime_new (ct_period t).
Definition getCycleCount (st : periods) (t : ComponentTime) : res Z :=
  divideRounded (ct_time t) (st (ct_period t)).
Definition setElapsedTime (t : ComponentTime) (new_time : SubsecondTime) : ComponentTime :=
  {| ct_period := ct_period t; ct_time := new_time |}.

(** ** Lemmas *)

Lemma st_add_small a b : 0 <= a -> 0 <= b -> a + b < 2 ^ 64 -> st_add a b = a + b.
Proof. intros. unfold st_add. apply wrap_small. lia. Qed.

Lemma st_mul_small a b : 0 <= a -> 0 <= b -> a * b < 2 ^ 64 -> st_mul a b = a * b.
Proof. intros. unfold st_mul. apply wrap_small. nia. Qed.

Lemma st_add_range a b : in_width 64 (st_add a b).
Proof. unfold st_add. apply in_width_wrap. lia. Qed.

Lemma st_add_assoc a b c : st_add (st_add a b) c = st_add a (st_add b c).
Proof. unfold st_add. rewrite wrap_add_l, wrap_add_r by lia. f_equal. lia. Qed.

Lemma st_add_sub a b : in_width 64 a -> st_sub (st_add a b) b = a.
Proof.
  unfold in_width, st_sub, st_add. intros. rewrite wrap_sub_l by lia.
  rewrite Z.add_simpl_r. apply wrap_small. lia.
Qed.

#[export] Hint Resolve st_add_range : sim.

(** [floor (N / floor (N / m)) = m] as soon as [m * m <= N]. *)
Lemma div_div_roundtrip N m : 0 < m -> m * m <= N -> N / (N / m) = m.
Proof.
  intros Hm HN. pose proof (Z.div_mod N m ltac:(lia)) as E.
  pose proof (Z.mod_pos_bound N m Hm) as Hr.
  assert (m <= N / m) by (apply Z.div_le_lower_bound; lia).
  symmetry. apply (Z.div_unique N (N / m) m (N mod m)); [lia|].
  lia.
Qed.

(** A count of cycles added to a zero counter, as long as it does not overflow. *)
Lemma addCycleLatency_zero st p n :
  0 <= st p -> 0 <= n -> st p * n < 2 ^ 64 ->
  ct_time (addCycleLatency st (ComponentTime_new p) n) = st p * n.
Proof.
  intros. cbn. unfold Zero. rewrite (st_mul_small (st p) n) by lia.
  rewrite st_add_small; nia.
Qed.

(** Adding the rounding constant to a multiple of the period does not reach the next one. *)
Lemma divideRounded_multiple p n :
  3 <= p -> 0 <= n -> p * n + p < 2 ^ 64 -> divideRounded (p * n) p = Ok n.
Proof.
  intros Hp Hn Hb. unfold divideRounded. zcase; [lia|].
  assert (p / 2 + 1 < p) by (apply Z.lt_add_lt_sub_r; apply Z.div_lt_upper_bound; lia).
  assert (0 <= p / 2) by (apply Z.div_pos; lia).
  rewrite wrap_small by nia. f_equal.
  symmetry. apply (Z.div_unique _ _ _ (p / 2 + 1)); lia.
Qed.

(** ** Properties *)

(** Advancing a fresh component clock by [n] cycles and asking for its cycle count
    gives [n] back, for every clock period of at least three femtoseconds and every
    span that fits the 64-bit counter with one period to spare. *)
Theorem cycle_count_roundtrip (st : periods) (p : pref) (n : Z) :
  3 <= st p -> 0 <= n -> st p * n + st p < 2 ^ 64 ->
  getCycleCount st (addCycleLatency st (ComponentTime_new p) n) = Ok n.
Proof.
  intros. unfold getCycleCount. rewrite addCycleLatency_zero by lia.
  cbn [ct_period addCycleLatency ComponentTime_new]. by apply divideRounded_multiple.
Qed.

Lemma cycle_count_roundtrip_witness :
  getCycleCount (fun _ => 1000000) (addCycleLatency (fun _ => 1000000) (ComponentTime_new 0) 12345)
  = Ok 12345.
Proof. apply cycle_count_roundtrip; vm_compute; congruence. Defined.

(** The frequency of a component set in whole MHz reads back unchanged up to
    31622 MHz (the largest m with m * m <= 10^9). *)
Theorem frequency_roundtrip (m : Z) :
  1 <= m <= 31622 ->
  exists p, fromFreqHz (m * 1000000) = Ok p /\ getPeriodInFreqMHz p = Ok m.
Proof.
  intros Hm. exists (1000000000 / m). unfold fromFreqHz, getPeriodInFreqMHz, st_div.
  change (SEC 1) with (1000000000 * 1000000). change US_1 with 1000000000.
  assert (m <= 1000000000 / m) by (apply Z.div_le_lower_bound; nia).
  destruct (Z.eqb_spec (m * 1000000) 0); [lia|].
  destruct (Z.eqb_spec (1000000000 / m) 0); [lia|].
  rewrite Z.div_mul_cancel_r by lia. split; [done|].
  f_equal. apply div_div_roundtrip; nia.
Qed.

Lemma frequency_roundtrip_witness :
  exists p, fromFreqHz (2660 * 1000000) = Ok p /\ getPeriodInFreqMHz p = Ok 2660.
Proof. apply frequency_roundtrip. lia. Defined.

(** The integer division of [divideRounded] is not the nearest integer: just under
    half a period is already counted as one cycle, for every period. *)
Theorem divideRounded_biased (p : Z) :
  2 < p < 2 ^ 63 ->
  divideRounded (p - (p / 2 + 1)) p = Ok 1 /\ 2 * (p - (p / 2 + 1)) < p.
Proof.
  intros Hp. unfold divideRounded. destruct (Z.eqb_spec p 0); [lia|].
  replace (p - (p / 2 + 1) + (p / 2 + 1)) with p by lia.
  rewrite wrap_small by lia. rewrite Z.div_same by lia. split; [done|].
  pose proof (Z.div_mod p 2 ltac:(lia)). pose proof (Z.mod_pos_bound p 2). lia.
Qed.

Lemma divideRounded_biased_witness :
  divideRounded 499999 1000000 = Ok 1 /\ 2 * 499999 < 1000000.
Proof. apply (divideRounded_biased 1000000). lia. Defined.
