(* ===== verification/AddressHomeLookup.v ===== *)
(** * Home node of an address

    Models src/common/core/memory_subsystem/address_home_lookup.cc: the
    interleaving of addresses over home nodes, and the per-node linear address
    that a distributed cache uses for its set index. *)

From S2P Require Import Prelude.

Record AddressHomeLookup := {
  m_ahl_param : Z;
  m_ahl_mask : Z;
  m_core_list : list Z;
  m_total_modules : Z;
  ahl_cache_block_size : Z
}.

(** The constructor, with its assertion [(1 << ahl_param) >= cache_block_size] on
    32-bit signed integers. *)
Definition AddressHomeLookup_new (ahl_param : Z) (core_list : list Z) (cache_block_size : Z)
  : res AddressHomeLookup :=
  _ ← assert_ (s32 cache_block_size <=? s32 (Z.shiftl 1 ahl_param));
  Ok {| m_ahl_param := ahl_param;
        m_ahl_mask := u64 (Z.shiftl 1 ahl_param - 1);
        m_core_list := core_list;
        m_total_modules := Z.of_nat (length core_list);
        ahl_cache_block_size := cache_block_size |}.

Definition module_num (a : AddressHomeLookup) (address : Z) : res Z :=
  if m_total_modules a =? 0 then Err DivByZero
  else Ok (s32 (Z.shiftr address (m_ahl_param a) mod m_total_modules a)).

Definition getHome (a : AddressHomeLookup) (address : Z) : res Z :=
  m ← module_num a address;
  _ ← assert_ ((0 <=? m) && (m <? s32 (m_total_modules a)));
  aget (m_core_list a) (Z.to_nat m).

Definition getLinearBlock (a : AddressHomeLookup) (address : Z) : res Z :=
  if m_total_modules a =? 0 then Err DivByZero
  else Ok (Z.shiftr address (m_ahl_param a) / m_total_modules a).

Definition getLinearAddress (a : AddressHomeLookup) (address : Z) : res Z :=
  b ← getLinearBlock a address;
  Ok (Z.lor (u64 (Z.shiftl b (m_ahl_param a))) (Z.land address (m_ahl_mask a))).

(** What the constructor establishes for a non-empty list of nodes. *)
Definition ahl_wf (a : AddressHomeLookup) : Prop :=
  0 <= m_ahl_param a < 31 /\
  m_ahl_mask a = Z.ones (m_ahl_param a) /\
  m_total_modules a = Z.of_nat (length (m_core_list a)) /\
  0 < m_total_modules a < 2 ^ 31.

Lemma ahl_new_wf p cores bs a :
  0 <= p < 31 -> 0 < Z.of_nat (length cores) < 2 ^ 31 ->
  AddressHomeLookup_new p cores bs = Ok a -> ahl_wf a.
Proof.
  intros Hp Hc H. unfold AddressHomeLookup_new in H. res_inv H. simplify_eq.
  unfold ahl_wf; cbn. repeat split; try lia.
  rewrite Z.ones_equiv, Z.shiftl_mul_pow2, Z.mul_1_l by lia.
  rewrite wrap_small; [lia|].
  pose proof (Z.pow_pos_nonneg 2 p). 
  assert (2 ^ p <= 2 ^ 31) by (apply Z.pow_le_mono_r; lia). lia.
Qed.

(** Arithmetic reading of the two components of an address. *)
Lemma linear_address_arith a address :
  ahl_wf a -> in_width 64 address ->
  getLinearAddress a address =
    Ok (address / 2 ^ m_ahl_param a / m_total_modules a * 2 ^ m_ahl_param a
        + address mod 2 ^ m_ahl_param a).
Proof.
  intros (Hp & Hm & Ht & Hr) [Ha Hb]. unfold getLinearAddress, getLinearBlock.
  destruct (Z.eqb_spec (m_total_modules a) 0); [lia|]. cbn [mbind res_bind].
  set (k := m_ahl_param a) in *. set (N := m_total_modules a) in *.
  assert (0 < 2 ^ k) by (apply Z.pow_pos_nonneg; lia).
  rewrite Hm, Z.land_ones, Z.shiftr_div_pow2, Z.shiftl_mul_pow2 by lia.
  assert (0 <= address / 2 ^ k / N * 2 ^ k <= address) as Hle.
  { split; [apply Z.mul_nonneg_nonneg; [|lia]; apply Z.div_pos; [apply Z.div_pos|]; lia|].
    trans (address / 2 ^ k * 2 ^ k).
    - apply Z.mul_le_mono_nonneg_r; [lia|]. apply Z.div_le_upper_bound; [lia|].
      pose proof (Z.div_pos address (2 ^ k)). nia.
    - pose proof (Z.mul_div_le address (2 ^ k)). lia. }
  rewrite wrap_small by lia. f_equal.
  apply lor_add_low; [lia|]. apply Z.mod_pos_bound. lia.
Qed.

Lemma module_num_arith a address :
  ahl_wf a -> in_width 64 address ->
  module_num a address = Ok (address / 2 ^ m_ahl_param a mod m_total_modules a).
Proof.
  intros (Hp & Hm & Ht & Hr) [Ha Hb]. unfold module_num.
  destruct (Z.eqb_spec (m_total_modules a) 0); [lia|].
  rewrite Z.shiftr_div_pow2 by lia. f_equal.
  pose proof (Z.mod_pos_bound (address / 2 ^ m_ahl_param a) (m_total_modules a)).
  apply swrap_small; cbn; lia.
Qed.

(** [getHome] never fails on a lookup table built over a non-empty list. *)
Lemma getHome_total a address :
  ahl_wf a -> in_width 64 address ->
  exists c, getHome a address = Ok c /\ c ∈ m_core_list a.
Proof.
  intros Hwf Ha. unfold getHome. rewrite module_num_arith by done. cbn [mbind res_bind].
  destruct Hwf as (Hp & Hm & Ht & Hr).
  pose proof (Z.mod_pos_bound (address / 2 ^ m_ahl_param a) (m_total_modules a)).
  set (m := address / 2 ^ m_ahl_param a mod m_total_modules a) in *.
  rewrite (swrap_small 32 (m_total_modules a)) by (cbn; lia).
  assert (((0 <=? m) && (m <? m_total_modules a)) = true) as ->.
  { apply andb_true_intro; split; [apply Z.leb_le | apply Z.ltb_lt]; lia. }
  cbn [assert_ mbind res_bind].
  destruct (aget_lt (m_core_list a) (Z.to_nat m)) as (c & Hc & Hl); [lia|].
  exists c. split; [done|]. apply list_elem_of_lookup. eauto.
Qed.

(** "Within home node, return unique, incrementing address": on the addresses that
    live on one home node, [getLinearAddress] is strictly increasing (hence
    injective), so two lines of a node never collide in its linear space. *)
Theorem linear_address_increasing (a : AddressHomeLookup) (x y m lx ly : Z) :
  ahl_wf a -> in_width 64 x -> in_width 64 y -> x < y ->
  module_num a x = Ok m -> module_num a y = Ok m ->
  getLinearAddress a x = Ok lx -> getLinearAddress a y = Ok ly -> lx < ly.
Proof.
  intros Hwf Hx Hy Hlt. rewrite !module_num_arith, !linear_address_arith by done.
  intros Ex Ey Lx Ly. simplify_eq. 
  destruct Hwf as (Hp & Hm & Ht & Hr). destruct Hx, Hy.
  set (k := m_ahl_param a) in *. set (n := m_total_modules a) in *.
  assert (0 < 2 ^ k) as Hk by (apply Z.pow_pos_nonneg; lia).
  pose proof (Z.div_mod x (2 ^ k) ltac:(lia)). pose proof (Z.mod_pos_bound x (2 ^ k) Hk).
  pose proof (Z.div_mod y (2 ^ k) ltac:(lia)). pose proof (Z.mod_pos_bound y (2 ^ k) Hk).
  pose proof (Z.div_mod (x / 2 ^ k) n ltac:(lia)). 
  pose proof (Z.div_mod (y / 2 ^ k) n ltac:(lia)).
  pose proof (Z.div_le_mono x y (2 ^ k) Hk ltac:(lia)).
  pose proof (Z.div_le_mono (x / 2 ^ k) (y / 2 ^ k) n ltac:(lia) ltac:(lia)).
  destruct (decide (x / 2 ^ k / n = y / 2 ^ k / n)) as [E|]; [|nia].
  assert (x / 2 ^ k = y / 2 ^ k) by congruence. nia.
Qed.

(** Four nodes with 64-byte interleaving: two blocks of node 2. *)
Definition ahl_example : AddressHomeLookup :=
  {| m_ahl_param := 6; m_ahl_mask := 63; m_core_list := [0; 4; 8; 12];
     m_total_modules := 4; ahl_cache_block_size := 64 |}.

Lemma linear_address_increasing_witness : 64 + 5 < 2 * 64 + 3.
Proof.
  apply (linear_address_increasing ahl_example (6 * 64 + 5) (10 * 64 + 3) 2);
    try reflexivity; unfold ahl_wf, in_width, ahl_example; cbn; repeat split; lia.
Defined.
