(* ===== verification/CacheBlockInfo.v ===== *)
(** * Cache line state

    Models src/common/core/memory_subsystem/cache/cache_state.h,
    cache_block_info.{h,cc} and the derived classes of pr_l1_cache_block_info.h,
    pr_l2_cache_block_info.{h,cc} and shared_cache_block_info.{h,cc} (built, as
    in the source, without ENABLE_TRACK_SHARING_PREVCACHES), and
    mem_component.h. *)

From S2P Require Import Prelude.

(** ** cache_state.h *)

Inductive cstate_t :=
  | INVALID | SHARED | SHARED_UPGRADING | EXCLUSIVE | OWNED | MODIFIED
  | INVALID_COLD | INVALID_EVICT | INVALID_COHERENCY.

#[global] Instance cstate_eq_dec : EqDecision cstate_t.
Proof. solve_decision. Defined.

Definition readable (c : cstate_t) : bool :=
  bool_decide (c = MODIFIED) || bool_decide (c = OWNED)
  || bool_decide (c = SHARED) || bool_decide (c = EXCLUSIVE).

Definition writable (c : cstate_t) : bool := bool_decide (c = MODIFIED).

(** ** mem_component.h: the numeric values of [MemComponent::component_t] *)

Definition INVALID_MEM_COMPONENT : Z := 0.
Definition CORE_COMPONENT : Z := 1.
Definition L1_ICACHE : Z := 2.
Definition L1_DCACHE : Z := 3.
Definition L2_CACHE : Z := 4.
Definition LAST_LEVEL_CACHE : Z := 20.
Definition TAG_DIR : Z := 21.
Definition NUCA_CACHE : Z := 22.
Definition DRAM_CACHE : Z := 23.
Definition DRAM_COMPONENT : Z := 24.

(** ** cache_block_info.h *)

Inductive cache_t := INVALID_CACHE_TYPE | PR_L1_CACHE | PR_L2_CACHE | SHARED_CACHE.
Inductive option_t := PREFETCH | WARMUP.

#[global] Instance cache_t_eq_dec : EqDecision cache_t.
Proof. solve_decision. Defined.

Definition option_bit (o : option_t) : Z := match o with PREFETCH => 0 | WARMUP => 1 end.

(** The fields that the derived class adds. *)
Inductive block_class :=
  | PrL1CacheBlockInfo
  | PrL2CacheBlockInfo (m_cached_loc_bitvec : Z)
  | SharedCacheBlockInfo.

Record CacheBlockInfo := mkBlock {
  m_tag : Z;               (* IntPtr *)
  m_cstate : cstate_t;
  m_owner : Z;             (* UInt64 *)
  m_used : Z;              (* BitsUsedType = UInt8 *)
  m_options : Z;           (* UInt8 *)
  m_class : block_class
}.

(** [~0] converted to IntPtr, the tag of an invalid block. *)
Definition TAG_NONE : Z := 2 ^ 64 - 1.

Definition CacheBlockInfo_new (c : block_class) : CacheBlockInfo :=
  mkBlock TAG_NONE INVALID 0 0 0 c.

(** [CacheBlockInfo::create] *)
Definition create (cache_type : cache_t) : res CacheBlockInfo :=
  match cache_type with
  | PR_L1_CACHE => Ok (CacheBlockInfo_new PrL1CacheBlockInfo)
  | PR_L2_CACHE => Ok (CacheBlockInfo_new (PrL2CacheBlockInfo 0))
  | SHARED_CACHE => Ok (CacheBlockInfo_new SharedCacheBlockInfo)
  | INVALID_CACHE_TYPE => Err LogError
  end.

Definition isValid (b : CacheBlockInfo) : bool := negb (m_tag b =? TAG_NONE).

Definition setTag (b : CacheBlockInfo) (tag : Z) : CacheBlockInfo :=
  mkBlock tag (m_cstate b) (m_owner b) (m_used b) (m_options b) (m_class b).
Definition setCState (b : CacheBlockInfo) (c : cstate_t) : CacheBlockInfo :=
  mkBlock (m_tag b) c (m_owner b) (m_used b) (m_options b) (m_class b).
Definition setOwner (b : CacheBlockInfo) (owner : Z) : CacheBlockInfo :=
  mkBlock (m_tag b) (m_cstate b) owner (m_used b) (m_options b) (m_class b).
Definition setUsed (b : CacheBlockInfo) (used : Z) : CacheBlockInfo :=
  mkBlock (m_tag b) (m_cstate b) (m_owner b) used (m_options b) (m_class b).
Definition setOptions (b : CacheBlockInfo) (options : Z) : CacheBlockInfo :=
  mkBlock (m_tag b) (m_cstate b) (m_owner b) (m_used b) options (m_class b).

(** The virtual [invalidate]: the base class clears tag and state, PrL2 also its
    location bits; usage, owner and options keep their value. *)
Definition block_invalidate (b : CacheBlockInfo) : CacheBlockInfo :=
  let c := match m_class b with
           | PrL2CacheBlockInfo _ => PrL2CacheBlockInfo 0
           | c => c
           end in
  mkBlock TAG_NONE INVALID (m_owner b) (m_used b) (m_options b) c.

(** The virtual [clone], dispatched on the class of [this]: PrL2 casts its argument. *)
Definition clone (this src : CacheBlockInfo) : res CacheBlockInfo :=
  let base c := mkBlock (m_tag src) (m_cstate src) (m_owner src) (m_used src) (m_options src) c in
  match m_class this, m_class src with
  | PrL2CacheBlockInfo _, PrL2CacheBlockInfo bv => Ok (base (PrL2CacheBlockInfo bv))
  | PrL2CacheBlockInfo _, _ => Err BadCast
  | c, _ => Ok (base c)
  end.

Definition hasOption (b : CacheBlockInfo) (o : option_t) : bool :=
  negb (Z.land (m_options b) (Z.shiftl 1 (option_bit o)) =? 0).
Definition setOption (b : CacheBlockInfo) (o : option_t) : CacheBlockInfo :=
  setOptions b (u8 (Z.lor (m_options b) (Z.shiftl 1 (option_bit o)))).
Definition clearOption (b : CacheBlockInfo) (o : option_t) : CacheBlockInfo :=
  setOptions b (u8 (Z.land (m_options b) (wnot 64 (Z.shiftl 1 (option_bit o))))).

Definition BitsUsedOffset : Z := 3.

(** [updateUsage(BitsUsedType used)] *)
Definition updateUsage_mask (b : CacheBlockInfo) (used : Z) : bool * CacheBlockInfo :=
  let new_bits_set := negb (Z.land used (Z.lnot (m_used b)) =? 0) in
  (new_bits_set, setUsed b (Z.lor (m_used b) used)).

(** [updateUsage(UInt32 offset, UInt32 size)] *)
Definition updateUsage (b : CacheBlockInfo) (offset size : Z) : bool * CacheBlockInfo :=
  let first := Z.shiftr offset BitsUsedOffset in
  let last := Z.shiftr (u32 (u32 (offset + size) - 1)) BitsUsedOffset in
  let first_mask := u64 (u64 (Z.shiftl 1 first) - 1) in
  let last_mask := u64 (u64 (Z.shiftl 1 (last + 1)) - 1) in
  let usage_mask := Z.land last_mask (wnot 64 first_mask) in
  updateUsage_mask b (u8 usage_mask).

(** ** pr_l2_cache_block_info.cc *)

Definition getCachedLoc (bv : Z) : res Z :=
  _ ← assert_ (negb (bv =? Z.lor (Z.shiftl 1 L1_ICACHE) (Z.shiftl 1 L1_DCACHE)));
  if bv =? Z.shiftl 1 L1_ICACHE then Ok L1_ICACHE
  else if bv =? Z.shiftl 1 L1_DCACHE then Ok L1_DCACHE
  else if bv =? 0 then Ok INVALID_MEM_COMPONENT
  else Err LogError.

Definition setCachedLoc (bv cached_loc : Z) : res Z :=
  _ ← assert_ (negb (cached_loc =? INVALID_MEM_COMPONENT));
  _ ← assert_ (Z.land bv (Z.shiftl 1 cached_loc) =? 0);
  Ok (u32 (Z.lor bv (Z.shiftl 1 cached_loc))).

Definition clearCachedLoc (bv cached_loc : Z) : res Z :=
  _ ← assert_ (negb (cached_loc =? INVALID_MEM_COMPONENT));
  _ ← assert_ (negb (Z.land bv (Z.shiftl 1 cached_loc) =? 0));
  Ok (Z.land bv (wnot 32 (Z.shiftl 1 cached_loc))).

(** ** Lemmas *)

Lemma block_invalidate_invalid b : isValid (block_invalidate b) = false.
Proof. done. Qed.

Lemma clone_tag this src b : clone this src = Ok b -> m_tag b = m_tag src /\ m_cstate b = m_cstate src.
Proof. unfold clone. intros. repeat case_match; by simplify_eq. Qed.

(** Two blocks of the same derived class. *)
Definition same_class (a b : CacheBlockInfo) : bool :=
  match m_class a, m_class b with
  | PrL1CacheBlockInfo, PrL1CacheBlockInfo | PrL2CacheBlockInfo _, PrL2CacheBlockInfo _
  | SharedCacheBlockInfo, SharedCacheBlockInfo => true
  | _, _ => false
  end.

Lemma clone_same_class this src : same_class this src = true -> clone this src = Ok src.
Proof. unfold same_class, clone. destruct src as [????? []]; cbn; by repeat case_match. Qed.

Lemma testbit_wnot w z i :
  0 <= i < w -> in_width w z -> Z.testbit (wnot w z) i = negb (Z.testbit z i).
Proof.
  intros Hi [H0 H1]. unfold wnot. replace (2 ^ w - 1 - z) with (Z.lnot z mod 2 ^ w).
  - rewrite Z.mod_pow2_bits_low by lia. by rewrite Z.lnot_spec by lia.
  - symmetry. apply (Z.mod_unique _ _ (-1)); [lia|]. unfold Z.lnot. lia.
Qed.

Lemma testbit_mask n i :
  0 <= i < 64 -> 0 <= n < 64 -> Z.testbit (u64 (u64 (Z.shiftl 1 n) - 1)) i = (i <? n).
Proof.
  intros Hi Hn. assert (2 ^ n < 2 ^ 64) by (apply Z.pow_lt_mono_r; lia).
  assert (0 < 2 ^ n) by (apply Z.pow_pos_nonneg; lia).
  rewrite Z.shiftl_mul_pow2, Z.mul_1_l, (wrap_small 64 (2 ^ n)) by lia.
  rewrite wrap_small by lia. replace (2 ^ n - 1) with (Z.ones n) by (rewrite Z.ones_equiv; lia).
  by rewrite Z.testbit_ones_nonneg by lia.
Qed.

(** The mask of [updateUsage] has a bit for each 8-byte element that the access touches. *)
Lemma usage_mask_bits offset size i :
  0 <= offset -> 0 < size -> offset + size <= 64 -> 0 <= i < 8 ->
  Z.testbit (u8 (Z.land (u64 (u64 (Z.shiftl 1 (Z.shiftr (u32 (u32 (offset + size) - 1)) 3 + 1)) - 1))
                        (wnot 64 (u64 (u64 (Z.shiftl 1 (Z.shiftr offset 3)) - 1))))) i
  = (offset <? 8 * (i + 1)) && (8 * i <? offset + size).
Proof.
  intros Ho Hs Hb Hi. rewrite (wrap_small 32 (offset + size)), (wrap_small 32 (_ - 1)) by lia.
  rewrite !Z.shiftr_div_pow2 by lia. change (2 ^ 3) with 8.
  assert (0 <= offset / 8 < 63) by (split; [apply Z.div_pos | apply Z.div_lt_upper_bound]; lia).
  assert (0 <= (offset + size - 1) / 8 < 63)
    by (split; [apply Z.div_pos | apply Z.div_lt_upper_bound]; lia).
  rewrite wrap_land by lia. rewrite Z.land_spec, Z.land_spec, Z.testbit_ones_nonneg by lia.
  rewrite testbit_wnot, !testbit_mask by (auto with sim lia || apply in_width_wrap; lia).
  pose proof (Z.div_mod offset 8 ltac:(lia)). pose proof (Z.mod_pos_bound offset 8).
  pose proof (Z.div_mod (offset + size - 1) 8 ltac:(lia)).
  pose proof (Z.mod_pos_bound (offset + size - 1) 8).
  apply eq_true_iff_eq.
  rewrite !andb_true_iff, negb_true_iff, Z.ltb_ge, !Z.ltb_lt. lia.
Qed.

Lemma updateUsage_mask_flag b used :
  0 <= used -> 0 <= m_used b ->
  fst (updateUsage_mask b used) = true <-> m_used (snd (updateUsage_mask b used)) <> m_used b.
Proof.
  intros Hu Hm. cbn. rewrite negb_true_iff, Z.eqb_neq. apply not_iff_compat.
  split; intros E; apply Z.bits_inj'; intros i Hi; apply (f_equal (fun z => Z.testbit z i)) in E;
    revert E; rewrite ?Z.land_spec, ?Z.lor_spec, ?Z.lnot_spec, ?Z.bits_0 by done;
    by destruct (Z.testbit used i), (Z.testbit (m_used b) i).
Qed.

(** An access of [size] bytes at [offset] of a 64-byte line marks exactly the 8-byte
    elements it overlaps as used, keeps the marks already set, and reports whether
    the usage mask changed. *)
Theorem updateUsage_correct (b : CacheBlockInfo) (offset size : Z) :
  in_width 8 (m_used b) -> 0 <= offset -> 0 < size -> offset + size <= 64 ->
  let '(new_bits, b') := updateUsage b offset size in
  (forall i, 0 <= i < 8 ->
     Z.testbit (m_used b') i
     = Z.testbit (m_used b) i || ((offset <? 8 * (i + 1)) && (8 * i <? offset + size))) /\
  (new_bits = true <-> m_used b' <> m_used b).
Proof.
  intros [Hu _] Ho Hs Hb. unfold updateUsage, BitsUsedOffset.
  destruct (updateUsage_mask b _) as [f b'] eqn:E. split.
  - intros i Hi. injection E as _ <-. cbn [m_used setUsed].
    by rewrite Z.lor_spec, usage_mask_bits by lia.
  - match type of E with updateUsage_mask _ ?u = _ =>
      pose proof (updateUsage_mask_flag b u (proj1 (wrap_range 8 _ ltac:(lia))) Hu) as F end.
    by rewrite E in F.
Qed.

Lemma updateUsage_correct_witness :
  let b := CacheBlockInfo_new PrL1CacheBlockInfo in
  let '(new_bits, b') := updateUsage b 12 8 in
  (forall i, 0 <= i < 8 ->
     Z.testbit (m_used b') i
     = Z.testbit (m_used b) i || ((12 <? 8 * (i + 1)) && (8 * i <? 12 + 8))) /\
  (new_bits = true <-> m_used b' <> m_used b).
Proof.
  apply (updateUsage_correct (CacheBlockInfo_new PrL1CacheBlockInfo) 12 8);
    unfold in_width; cbn; lia.
Defined.
