(* ===== verification/CacheSet.v ===== *)
(** * One set of a set-associative cache

    Models src/common/core/memory_subsystem/cache/cache_set.{h,cc}.  The class
    is abstract: [getReplacementIndex] and [updateReplacementIndex] are virtual.
    They form the type class [ReplacementPolicy]; what every policy promises is
    the class [ReplacementPolicyOk], against which the theorems on cache sets
    and caches are proved.

    A policy has state per set ([P]) and may have a statistics object that all
    sets of a cache share ([I], the [CacheSetInfo] of the code), which is
    threaded through every operation. *)

From stdpp Require Import gmap.
From S2P Require Import Prelude CacheBlockInfo.

(** The virtual interface of the controller used by query-based selection. *)
Record CacheCntlr := { isInLowerLevelCache : CacheBlockInfo -> bool }.

(** What [getReplacementIndex] returns: the victim's way, the number of calls it made
    to [incrementQBSLookupCost], and the updated states. *)
Record Victim (P I : Type) := mkVictim {
  v_index : nat;
  v_qbs_lookups : nat;
  v_info : I;
  v_policy : P
}.
Arguments mkVictim {P I} _ _ _ _.
Arguments v_index {P I} _.
Arguments v_qbs_lookups {P I} _.
Arguments v_info {P I} _.
Arguments v_policy {P I} _.

Class ReplacementPolicy (P I : Type) := {
  getReplacementIndex : list CacheBlockInfo -> option CacheCntlr -> I -> P -> res (Victim P I);
  updateReplacementIndex : nat -> I -> P -> res (I * P)
}.

Definition isValidReplacement (blocks : list CacheBlockInfo) (index : nat) : res bool :=
  b ← aget blocks index; Ok (negb (bool_decide (m_cstate b = SHARED_UPGRADING))).

(** The loop shared by the policies that look for an invalid block first:
    [for (i = 0; i < m_associativity; i++) if (!m_cache_block_info_array[i]->isValid())]. *)
Fixpoint first_invalid_from (i : nat) (blocks : list CacheBlockInfo) : option nat :=
  match blocks with
  | [] => None
  | b :: blocks => if isValid b then first_invalid_from (S i) blocks else Some i
  end.
Abbreviation first_invalid := (first_invalid_from 0).

Record CacheSet (P : Type) := mkCacheSet {
  m_cache_block_info_array : list CacheBlockInfo;
  m_blocks : option (list Z);   (* allocated only with fault injection *)
  m_blocksize : Z;
  m_policy : P
}.
Arguments mkCacheSet {P} _ _ _ _.
Arguments m_cache_block_info_array {P} _.
Arguments m_blocks {P} _.
Arguments m_blocksize {P} _.
Arguments m_policy {P} _.

(** [memcpy] out of and into the data array. *)
Definition mem_read (m : list Z) (pos n : Z) : res (list Z) :=
  if pos + n <=? Z.of_nat (length m) then Ok (take (Z.to_nat n) (drop (Z.to_nat pos) m))
  else Err OutOfBounds.
Definition mem_write (m : list Z) (pos n : Z) (src : list Z) : res (list Z) :=
  if (pos + n <=? Z.of_nat (length m)) && (n <=? Z.of_nat (length src))
  then Ok (take (Z.to_nat pos) m ++ take (Z.to_nat n) src ++ drop (Z.to_nat (pos + n)) m)
  else Err OutOfBounds.

Section CacheSet.
Context {P I : Type} `{!ReplacementPolicy P I}.
Implicit Types (s : CacheSet P) (info : I).

Definition associativity s : nat := length (m_cache_block_info_array s).

Definition set_array s a : CacheSet P := mkCacheSet a (m_blocks s) (m_blocksize s) (m_policy s).
Definition set_blocks s m : CacheSet P :=
  mkCacheSet (m_cache_block_info_array s) m (m_blocksize s) (m_policy s).
Definition set_policy s p : CacheSet P :=
  mkCacheSet (m_cache_block_info_array s) (m_blocks s) (m_blocksize s) p.

(** The constructor; [faults] says whether fault injection is enabled. *)
Definition CacheSet_new (cache_type : cache_t) (assoc : nat) (blocksize : Z)
    (faults : bool) (p : P) : res (CacheSet P) :=
  b ← create cache_type;
  Ok (mkCacheSet (replicate assoc b)
        (if faults then Some (replicate (assoc * Z.to_nat blocksize) 0) else None)
        blocksize p).

Definition data_pos s (line_index : nat) (offset : Z) : Z :=
  Z.of_nat line_index * m_blocksize s + offset.

(** [want] is [out_buff != NULL]; the bytes copied are the first result. *)
Definition read_line s info (line_index : nat) (offset : Z) (want : bool) (bytes : Z)
    (update_replacement : bool) : res (option (list Z) * I * CacheSet P) :=
  _ ← assert_ (u32 (offset + bytes) <=? m_blocksize s);
  out ← match want, m_blocks s with
        | true, Some m => d ← mem_read m (data_pos s line_index offset) bytes; Ok (Some d)
        | _, _ => Ok None
        end;
  if update_replacement then
    '(info, p) ← updateReplacementIndex line_index info (m_policy s);
    Ok (out, info, set_policy s p)
  else Ok (out, info, s).

Definition write_line s info (line_index : nat) (offset : Z) (in_buff : option (list Z))
    (bytes : Z) (update_replacement : bool) : res (I * CacheSet P) :=
  _ ← assert_ (u32 (offset + bytes) <=? m_blocksize s);
  s ← match in_buff, m_blocks s with
      | Some src, Some m =>
          m ← mem_write m (data_pos s line_index offset) bytes src; Ok (set_blocks s (Some m))
      | _, _ => Ok s
      end;
  if update_replacement then
    '(info, p) ← updateReplacementIndex line_index info (m_policy s);
    Ok (info, set_policy s p)
  else Ok (info, s).

(** [for (index = m_associativity-1; index >= 0; index--)], looking for [tag]. *)
Fixpoint find_down (blocks : list CacheBlockInfo) (tag : Z) (n : nat) : option nat :=
  match n with
  | O => None
  | S index =>
      match blocks !! index with
      | Some b => if m_tag b =? tag then Some index else find_down blocks tag index
      | None => None
      end
  end.

Definition find s (tag : Z) : option nat :=
  find_down (m_cache_block_info_array s) tag (associativity s).

Definition invalidate s (tag : Z) : bool * CacheSet P :=
  match find_down (m_cache_block_info_array s) tag (associativity s) with
  | Some index =>
      (true, set_array s (alter block_invalidate index (m_cache_block_info_array s)))
  | None => (false, s)
  end.

Record InsertResult := mkInserted {
  ins_index : nat;
  ins_eviction : bool;
  ins_evict_info : CacheBlockInfo;        (* the caller's evict_block_info afterwards *)
  ins_evict_buff : option (list Z);       (* what was copied to evict_buff *)
  ins_qbs_lookups : nat;
  ins_info : I;
  ins_set : CacheSet P
}.

Definition insert s info (cntlr : option CacheCntlr) (cache_block_info : CacheBlockInfo)
    (fill_buff : option (list Z)) (evict_block_info : CacheBlockInfo) (want_evict : bool)
    : res InsertResult :=
  v ← getReplacementIndex (m_cache_block_info_array s) cntlr info (m_policy s);
  let index := v_index v in
  let s := set_policy s (v_policy v) in
  _ ← assert_ (bool_decide (index < associativity s)%nat);
  old ← aget (m_cache_block_info_array s) index;
  '(eviction, evict_block_info, evict_buff) ←
    (if isValid old then
       e ← clone evict_block_info old;
       d ← match want_evict, m_blocks s with
           | true, Some m => d ← mem_read m (data_pos s index 0) (m_blocksize s); Ok (Some d)
           | _, _ => Ok None
           end;
       Ok (true, e, d)
     else Ok (false, evict_block_info, None));
  b ← clone old cache_block_info;
  let s := set_array s (<[index := b]> (m_cache_block_info_array s)) in
  s ← match fill_buff, m_blocks s with
      | Some src, Some m =>
          m ← mem_write m (data_pos s index 0) (m_blocksize s) src; Ok (set_blocks s (Some m))
      | _, _ => Ok s
      end;
  Ok (mkInserted index eviction evict_block_info evict_buff (v_qbs_lookups v) (v_info v) s).

Definition peekBlock s (way : nat) : res CacheBlockInfo := aget (m_cache_block_info_array s) way.
End CacheSet.
Arguments InsertResult P I : clear implicits.

(** ** What a policy promises to the cache set

    Well-formedness of the per-set state and of the shared statistics for a given
    associativity; a victim inside the set; preservation by both operations; and
    [updateReplacementIndex] succeeds on every way of the set. *)

Class ReplacementPolicyOk (P I : Type) `{!ReplacementPolicy P I} := {
  policy_wf : nat -> P -> Prop;
  info_wf : nat -> I -> Prop;
  getReplacementIndex_ok : forall blocks cntlr info p v,
    policy_wf (length blocks) p -> info_wf (length blocks) info ->
    getReplacementIndex blocks cntlr info p = Ok v ->
    (v_index v < length blocks)%nat /\
    policy_wf (length blocks) (v_policy v) /\ info_wf (length blocks) (v_info v);
  updateReplacementIndex_ok : forall assoc i info p,
    policy_wf assoc p -> info_wf assoc info -> (i < assoc)%nat ->
    exists info' p', updateReplacementIndex i info p = Ok (info', p') /\
      policy_wf assoc p' /\ info_wf assoc info'
}.

(** A policy whose search for a victim always ends. *)
Class PolicyTerminates (P I : Type) `{!ReplacementPolicy P I, !ReplacementPolicyOk P I} := {
  getReplacementIndex_fuel : forall blocks cntlr info p,
    policy_wf (length blocks) p -> no_fuel_error (getReplacementIndex blocks cntlr info p);
  updateReplacementIndex_fuel : forall i info p, no_fuel_error (updateReplacementIndex i info p)
}.

(** ** Lemmas on the search loops *)

Lemma first_invalid_from_spec i blocks :
  match first_invalid_from i blocks with
  | Some j => (i <= j < i + length blocks)%nat /\
      (exists b, blocks !! (j - i)%nat = Some b /\ isValid b = false) /\
      (forall k b, (k < j - i)%nat -> blocks !! k = Some b -> isValid b = true)
  | None => Forall (fun b => isValid b = true) blocks
  end.
Proof.
  revert i. induction blocks as [|b blocks IH]; intros i; cbn [first_invalid_from]; [constructor|].
  destruct (isValid b) eqn:E.
  - specialize (IH (S i)). destruct (first_invalid_from (S i) blocks) as [j|]; [|by constructor].
    destruct IH as (Hj & (c & Hc & Hi) & Hlt). cbn [length].
    split; [lia|]. replace (j - i)%nat with (S (j - S i)) by lia. split; [by exists c|].
    intros [|k] c' Hk Hl; cbn in Hl; [congruence|]. apply (Hlt k c'); [lia|done].
  - cbn [length]. rewrite Nat.sub_diag. repeat split; [lia..| by exists b | lia].
Qed.

Lemma first_invalid_lt blocks j : first_invalid blocks = Some j -> (j < length blocks)%nat.
Proof. intros E. pose proof (first_invalid_from_spec 0 blocks) as H. rewrite E in H. lia. Qed.

Lemma first_invalid_none blocks :
  first_invalid blocks = None <-> Forall (fun b => isValid b = true) blocks.
Proof.
  pose proof (first_invalid_from_spec 0 blocks) as H.
  destruct (first_invalid blocks) as [j|]; [|done].
  destruct H as (_ & (b & Hb & Hv) & _). split; [done|]. intros HF.
  eapply Forall_lookup_1 in HF; [|exact Hb]. congruence.
Qed.

Lemma find_down_spec blocks tag n :
  (n <= length blocks)%nat ->
  match find_down blocks tag n with
  | Some i => (i < n)%nat /\ exists b, blocks !! i = Some b /\ m_tag b = tag
  | None => forall i b, (i < n)%nat -> blocks !! i = Some b -> m_tag b <> tag
  end.
Proof.
  induction n as [|n IH]; intros Hn; cbn [find_down]; [lia|].
  destruct (lookup_lt_is_Some_2 blocks n ltac:(lia)) as [b Hb]. rewrite Hb.
  destruct (Z.eqb_spec (m_tag b) tag); [split; [lia|eauto]|].
  specialize (IH ltac:(lia)). destruct (find_down blocks tag n) as [i|].
  - destruct IH as [? ?]; split; [lia|done].
  - intros i c Hi Hc. destruct (decide (i = n)) as [->|]; [congruence|]. apply (IH i c); [lia|done].
Qed.

(** ** Abstract view: the set of tags that are cached *)

Definition tags (blocks : list CacheBlockInfo) : gset Z :=
  list_to_set (filter (fun t => t <> TAG_NONE) (m_tag <$> blocks)).

Lemma elem_of_tags blocks t :
  t ∈ tags blocks <-> t <> TAG_NONE /\ exists i b, blocks !! i = Some b /\ m_tag b = t.
Proof.
  unfold tags. rewrite elem_of_list_to_set, list_elem_of_filter, list_elem_of_fmap.
  split.
  - intros (Ht & b & -> & Hb). split; [done|]. apply list_elem_of_lookup in Hb as [i Hi]. eauto.
  - intros (Ht & i & b & Hb & <-). split; [done|]. exists b. split; [done|].
    apply list_elem_of_lookup. eauto.
Qed.

(** No valid tag is present in two ways. *)
Definition unique_tags (blocks : list CacheBlockInfo) : Prop :=
  forall i j bi bj, blocks !! i = Some bi -> blocks !! j = Some bj ->
    m_tag bi = m_tag bj -> m_tag bi <> TAG_NONE -> i = j.

Lemma isValid_true b : isValid b = true <-> m_tag b <> TAG_NONE.
Proof. unfold isValid. by rewrite negb_true_iff, Z.eqb_neq. Qed.

Lemma isValid_false b : isValid b = false <-> m_tag b = TAG_NONE.
Proof. unfold isValid. by rewrite negb_false_iff, Z.eqb_eq. Qed.

Section replace_way.
Context (blocks : list CacheBlockInfo) (i : nat) (old b : CacheBlockInfo).
Hypotheses (Hold : blocks !! i = Some old) (Huniq : unique_tags blocks).

Local Lemma lookup_replaced j c :
  <[i := b]> blocks !! j = Some c <-> (j = i /\ c = b) \/ (j <> i /\ blocks !! j = Some c).
Proof.
  apply lookup_lt_Some in Hold as Hlt. destruct (decide (j = i)) as [->|Hne].
  - rewrite list_lookup_insert_eq by done. intuition congruence.
  - rewrite list_lookup_insert_ne by done. intuition congruence.
Qed.

Lemma tags_replace :
  m_tag b <> TAG_NONE ->
  tags (<[i := b]> blocks) = {[m_tag b]} ∪ (tags blocks ∖ {[m_tag old]}).
Proof.
  intros Hb. apply set_eq. intros t. rewrite elem_of_union, elem_of_difference, !elem_of_tags,
    !elem_of_singleton. split.
  - intros (Ht & j & c & Hc & Htag). apply lookup_replaced in Hc as [[-> ->] | [Hne Hc]]; [auto|].
    right. split_and!; [done|eauto|]. intros ->.
    apply Hne, (Huniq j i c old); congruence.
  - intros [-> | ((Ht & j & c & Hc & Htag) & Hold')].
    + split; [done|]. exists i, b. rewrite lookup_replaced. auto.
    + split; [done|]. exists j, c. rewrite lookup_replaced. split; [|done]. right.
      split; [|done]. intros ->. congruence.
Qed.

Lemma unique_replace :
  (m_tag b <> TAG_NONE -> m_tag b ∉ tags blocks) -> unique_tags (<[i := b]> blocks).
Proof.
  intros Hb j k bj bk Hj Hk E Hv.
  apply lookup_replaced in Hj as [[-> ->] | [Hj Hbj]];
    apply lookup_replaced in Hk as [[-> ->] | [Hk Hbk]]; [done| | |by eapply Huniq].
  - destruct (Hb Hv). rewrite elem_of_tags. split; [done|eauto].
  - rewrite E in Hv. destruct (Hb Hv). rewrite elem_of_tags. split; [done|eauto].
Qed.

Lemma tags_clear :
  m_tag b = TAG_NONE -> tags (<[i := b]> blocks) = tags blocks ∖ {[m_tag old]}.
Proof.
  intros Hb. apply set_eq. intros t. rewrite elem_of_difference, !elem_of_tags, elem_of_singleton.
  split.
  - intros (Ht & j & c & Hc & Htag). apply lookup_replaced in Hc as [[-> ->] | [Hne Hc]]; [congruence|].
    split_and!; [done|eauto|]. intros ->. apply Hne, (Huniq j i c old); congruence.
  - intros ((Ht & j & c & Hc & Htag) & Hold'). split; [done|].
    exists j, c. rewrite lookup_replaced. split; [|done]. right. split; [|done]. intros ->. congruence.
Qed.
End replace_way.

Section set_facts.
Context {P I : Type} `{!ReplacementPolicy P I, !ReplacementPolicyOk P I}.
Implicit Types (s : CacheSet P) (info : I).

Definition set_tags s : gset Z := tags (m_cache_block_info_array s).

Definition set_wf (assoc : nat) s : Prop :=
  associativity s = assoc /\ unique_tags (m_cache_block_info_array s) /\
  policy_wf assoc (m_policy s) /\ 0 <= m_blocksize s /\
  match m_blocks s with
  | Some m => Z.of_nat (length m) = Z.of_nat assoc * m_blocksize s
  | None => True
  end.

(** [find] reports a way of the set that holds the tag, or that none does. *)
Lemma find_some s tag i :
  find s tag = Some i ->
  exists b, m_cache_block_info_array s !! i = Some b /\ m_tag b = tag.
Proof.
  unfold find. intros E. pose proof (find_down_spec (m_cache_block_info_array s) tag
    (associativity s) ltac:(unfold associativity; lia)) as H.
  rewrite E in H. naive_solver.
Qed.

Lemma find_none s tag : tag <> TAG_NONE -> find s tag = None <-> tag ∉ set_tags s.
Proof.
  intros Ht. unfold find, set_tags. pose proof (find_down_spec (m_cache_block_info_array s) tag
    (associativity s) ltac:(unfold associativity; lia)) as H.
  rewrite elem_of_tags. destruct (find_down _ _ _) as [i|].
  - destruct H as (_ & b & Hb & E). split; [done|]. intros HF. destruct HF. eauto.
  - split; [|done]. intros _ (_ & i & b & Hb & E).
    apply (H i b); [|done..]. by apply lookup_lt_Some in Hb.
Qed.

Lemma find_unique s tag i b :
  unique_tags (m_cache_block_info_array s) -> tag <> TAG_NONE ->
  m_cache_block_info_array s !! i = Some b -> m_tag b = tag -> find s tag = Some i.
Proof.
  intros Hu Ht Hi E. destruct (find s tag) as [j|] eqn:Ef.
  - apply find_some in Ef as (c & Hc & Ec). f_equal. eapply (Hu j i); eauto; congruence.
  - apply find_none in Ef; [|done]. destruct Ef. apply elem_of_tags. eauto.
Qed.

Lemma mem_write_length m pos n src m' :
  0 <= pos -> 0 <= n -> mem_write m pos n src = Ok m' -> length m' = length m.
Proof.
  intros Hp Hn. unfold mem_write. destruct (andb _ _) eqn:E; intros ?; simplify_eq.
  apply andb_true_iff in E as [E1%Z.leb_le E2%Z.leb_le].
  rewrite !length_app, length_drop, !length_take. lia.
Qed.

(** The effects of a successful [insert], with the buffers abstracted. *)
Lemma insert_inv s info cntlr blk fill ev want r :
  0 <= m_blocksize s ->
  insert s info cntlr blk fill ev want = Ok r ->
  exists v old b,
    getReplacementIndex (m_cache_block_info_array s) cntlr info (m_policy s) = Ok v /\
    ins_index r = v_index v /\ ins_info r = v_info v /\
    m_cache_block_info_array s !! v_index v = Some old /\
    clone old blk = Ok b /\
    m_cache_block_info_array (ins_set r) = <[v_index v := b]> (m_cache_block_info_array s) /\
    m_policy (ins_set r) = v_policy v /\ m_blocksize (ins_set r) = m_blocksize s /\
    ins_eviction r = isValid old /\
    (isValid old = true -> m_tag (ins_evict_info r) = m_tag old /\ m_cstate (ins_evict_info r) = m_cstate old) /\
    length <$> m_blocks (ins_set r) = length <$> m_blocks s.
Proof.
  intros Hbs H. unfold insert in H. res_inv H. destruct a2 as [[e ei] eb]. cbn in H. res_inv H.
  simplify_eq. apply aget_ok in E1. cbn in E1. exists a, a1, a2. cbn.
  assert (e = isValid a1 /\ (isValid a1 = true -> m_tag ei = m_tag a1 /\ m_cstate ei = m_cstate a1)) as [-> Hev].
  { destruct (isValid a1); [|by simplify_eq]. res_inv E2. simplify_eq.
    split; [done|]. intros _. by apply clone_tag in E5. }
  destruct fill as [src|], (m_blocks s) as [m|] eqn:Em; cbn in E4; try (rewrite Em in E4; cbn in E4);
    res_inv E4; simplify_eq; cbn; rewrite ?Em; repeat (split; [done|]); try done.
  f_equal. eapply mem_write_length; [| |exact E5]; cbn; [|done].
  unfold data_pos; cbn. nia.
Qed.

(** Inserting a line that is not in the set. *)
Lemma insert_spec assoc s info cntlr blk fill ev want r :
  set_wf assoc s -> info_wf assoc info ->
  m_tag blk <> TAG_NONE -> m_tag blk ∉ set_tags s ->
  insert s info cntlr blk fill ev want = Ok r ->
  set_wf assoc (ins_set r) /\ info_wf assoc (ins_info r) /\
  set_tags (ins_set r) =
    {[m_tag blk]} ∪ (set_tags s ∖ (if ins_eviction r then {[m_tag (ins_evict_info r)]} else ∅)) /\
  (ins_eviction r = true -> m_tag (ins_evict_info r) ∈ set_tags s) /\
  find (ins_set r) (m_tag blk) = Some (ins_index r) /\
  m_blocksize (ins_set r) = m_blocksize s.
Proof.
  intros (Ha & Hu & Hp & Hbs & Hm) Hinfo Ht Hn H.
  destruct (insert_inv s info cntlr blk fill ev want r Hbs H) as
    (v & old & b & Hv & Hix & Hin & Hold & Hcl & Harr & Hpol & Hbsz & Hev & Hevt & Hlen).
  apply clone_tag in Hcl as [Hbt _]. unfold associativity in Ha. rewrite <- Ha in Hp, Hinfo.
  destruct (getReplacementIndex_ok _ _ _ _ _ Hp Hinfo Hv) as (Hlt & Hp' & Hi').
  assert (unique_tags (m_cache_block_info_array (ins_set r))) as Hu'.
  { rewrite Harr. eapply unique_replace; [done..|]. by rewrite Hbt. }
  assert (find (ins_set r) (m_tag blk) = Some (ins_index r)) as Hf.
  { apply (find_unique (ins_set r) (m_tag blk) (ins_index r) b); [done..| |done].
    rewrite Harr, Hix. by apply list_lookup_insert_eq. }
  assert (set_tags (ins_set r) = {[m_tag blk]} ∪ (set_tags s ∖ {[m_tag old]})) as Htags.
  { unfold set_tags. rewrite Harr, <- Hbt. eapply tags_replace; [done..|]. by rewrite Hbt. }
  split_and!; try done.
  - unfold set_wf, associativity. rewrite Harr, length_insert, Hpol, Hbsz. rewrite <- Ha.
    split_and!; try done; [by rewrite <- Harr|].
    destruct (m_blocks s), (m_blocks (ins_set r)); try done. cbn in Hlen. simplify_eq.
    rewrite Hlen. lia.
  - by rewrite Hin, <- Ha.
  - rewrite Htags, Hev. destruct (isValid old) eqn:Eo.
    + by rewrite (proj1 (Hevt eq_refl)).
    + apply isValid_false in Eo. f_equal. apply set_eq. intros t.
      rewrite !elem_of_difference, elem_of_singleton. rewrite Eo.
      split; [set_solver|]. intros [Hin' _]. split; [done|]. intros ->.
      apply elem_of_tags in Hin' as [? _]. done.
  - rewrite Hev. intros Eo. rewrite (proj1 (Hevt Eo)). apply elem_of_tags.
    apply isValid_true in Eo. eauto.
Qed.

(** Invalidation removes exactly the tag, and reports whether it was there. *)
Lemma invalidate_spec assoc s tag :
  set_wf assoc s -> tag <> TAG_NONE ->
  let '(hit, s') := invalidate s tag in
  set_wf assoc s' /\ set_tags s' = set_tags s ∖ {[tag]} /\ (hit = true <-> tag ∈ set_tags s) /\
  m_blocksize s' = m_blocksize s.
Proof.
  intros (Ha & Hu & Hp & Hbs & Hm) Ht. unfold invalidate.
  change (find_down _ _ _) with (find s tag). destruct (find s tag) as [i|] eqn:Ef.
  - apply find_some in Ef as (b & Hb & Eb).
    assert (alter block_invalidate i (m_cache_block_info_array s)
            = <[i := block_invalidate b]> (m_cache_block_info_array s)) as Halt.
    { apply list_eq. intros j. destruct (decide (j = i)) as [->|].
      - rewrite list_lookup_alter_eq, Hb, list_lookup_insert_eq by (by eapply lookup_lt_Some). done.
      - by rewrite list_lookup_alter_ne, list_lookup_insert_ne by done. }
    unfold set_wf, associativity, set_tags in *. cbn. rewrite Halt, length_insert.
    split_and!; try done.
    + eapply unique_replace; done.
    + rewrite <- Eb. by eapply tags_clear.
    + split; [|done]. intros _. apply elem_of_tags. split; [done|eauto].
  - apply find_none in Ef; [|done]. split_and!; try done; set_solver.
Qed.

(** Reads and writes leave the tags alone and preserve the invariant; on a way of the
    set, and inside the line, they cannot fail when no data array is allocated. *)
Lemma read_line_spec assoc s info i off want n upd out info' s' :
  set_wf assoc s -> info_wf assoc info -> (i < assoc)%nat ->
  read_line s info i off want n upd = Ok (out, info', s') ->
  set_wf assoc s' /\ info_wf assoc info' /\
  m_cache_block_info_array s' = m_cache_block_info_array s /\ m_blocksize s' = m_blocksize s.
Proof.
  intros (Ha & Hu & Hp & Hbs & Hm) Hinfo Hi H. unfold read_line in H. res_inv H.
  destruct upd; [|by simplify_eq].
  destruct (updateReplacementIndex_ok assoc i info (m_policy s)) as (i' & p' & E' & Hp' & Hi'); [done..|].
  rewrite E' in H. cbn in H. simplify_eq. done.
Qed.

Lemma write_line_spec assoc s info i off buf n upd info' s' :
  set_wf assoc s -> info_wf assoc info -> (i < assoc)%nat -> 0 <= off -> 0 <= n ->
  write_line s info i off buf n upd = Ok (info', s') ->
  set_wf assoc s' /\ info_wf assoc info' /\
  m_cache_block_info_array s' = m_cache_block_info_array s /\ m_blocksize s' = m_blocksize s.
Proof.
  intros (Ha & Hu & Hp & Hbs & Hm) Hinfo Hi Ho Hn H. unfold write_line in H. res_inv H.
  assert (set_wf assoc a0 /\ m_cache_block_info_array a0 = m_cache_block_info_array s /\
          m_blocksize a0 = m_blocksize s /\ m_policy a0 = m_policy s) as (Hwf & Harr & Hbz & Hpol).
  { destruct buf as [src|], (m_blocks s) as [m|] eqn:Em; res_inv E0; simplify_eq;
      unfold set_wf; cbn; rewrite ?Em; split_and!; try done.
    rewrite (mem_write_length m (data_pos s i off) n src a1); [done| |done|done].
    unfold data_pos. nia. }
  destruct Hwf as (Ha0 & Hu0 & Hp0 & Hbs0 & Hm0).
  destruct upd; [|simplify_eq; split_and!; try done].
  destruct (updateReplacementIndex_ok assoc i info (m_policy a0)) as (i' & p' & E' & Hp' & Hi'); [done..|].
  rewrite E' in H. cbn in H. simplify_eq. done.
Qed.
End set_facts.
