(* ===== verification/LruBits.v ===== *)
(** * Recency stacks

    [CacheSetLRU], [CacheSetMRU] and [CacheSetNMRU] all keep an array
    [m_lru_bits] with the position of each way in a recency stack, and move a
    way to the front with the same loop
    (src/common/core/memory_subsystem/cache/cache_set_lru.cc, [moveToMRU];
    cache_set_mru.cc and cache_set_nmru.cc, [updateReplacementIndex]).

    Here are that loop, the abstract stack it implements, and the refinement
    between the two. *)

From S2P Require Import Prelude CacheBlockInfo CacheSet.

(** [m_lru_bits[i] = i] for every way. *)
Definition lru_bits_init (assoc : nat) : list Z := (fun i => u8 (Z.of_nat i)) <$> seq 0 assoc.

(** The loop updates the array in place and reads [m_lru_bits[accessed_index]] in each
    iteration. *)
Definition moveToMRU (bits : list Z) (accessed_index : nat) : res (list Z) :=
  _ ← aget bits accessed_index;
  let bits := for_ (length bits)
    (fun i bits => if bits !!! i <? bits !!! accessed_index
                   then <[i := u8 (bits !!! i + 1)]> bits else bits) bits in
  Ok (<[accessed_index := 0]> bits).

(** ** Abstract recency stack: ways from most to least recently used *)

Definition touch (w : nat) (order : list nat) : list nat :=
  w :: filter (fun v => v <> w) order.

(** [m_lru_bits] holds the position of each way in the stack. *)
Definition lru_repr (bits : list Z) (order : list nat) : Prop :=
  length bits = length order /\ (length order <= 256)%nat /\
  forall k w, order !! k = Some w -> bits !! w = Some (Z.of_nat k).

(** ** The loop computes a map *)

Lemma moveToMRU_loop_lookup bits acc x n :
  bits !! acc = Some x -> (n <= length bits)%nat ->
  forall i, for_ n (fun i bits => if bits !!! i <? bits !!! acc
                            then <[i := u8 (bits !!! i + 1)]> bits else bits) bits !! i
    = (fun y => if decide (i < n)%nat then (if y <? x then u8 (y + 1) else y) else y) <$> bits !! i.
Proof.
  intros Hacc. induction n as [|n IH]; intros Hn i.
  { cbn. by destruct (bits !! i). }
  rewrite for_S. specialize (IH ltac:(lia)).
  set (r := for_ n _ bits) in *.
  assert (r !! acc = Some x) as Hra.
  { rewrite IH, Hacc. cbn. case_decide; [|done]. zcase; [lia|done]. }
  destruct (lookup_lt_is_Some_2 bits n ltac:(lia)) as [y Hy].
  assert (r !! n = Some y) as Hrn.
  { rewrite IH, Hy. cbn. case_decide; [lia|done]. }
  assert (length r = length bits) as Hlen.
  { apply lookup_same_length. intros j. rewrite IH. by rewrite fmap_is_Some. }
  rewrite (list_lookup_total_Some r n y Hrn), (list_lookup_total_Some r acc x Hra).
  destruct (decide (i = n)) as [->|Hne].
  - rewrite Hy. cbn. case_decide; [|lia]. zcase; [|done].
    apply list_lookup_insert_eq. lia.
  - assert ((if y <? x then <[n:=u8 (y + 1)]> r else r) !! i = r !! i) as ->.
    { zcase; [|done]. by apply list_lookup_insert_ne. }
    rewrite IH. destruct (bits !! i); [cbn|done]. f_equal. repeat case_decide; try lia; done.
Qed.

Lemma moveToMRU_spec bits acc x :
  bits !! acc = Some x ->
  moveToMRU bits acc
  = Ok (<[acc := 0]> ((fun y => if y <? x then u8 (y + 1) else y) <$> bits)).
Proof.
  intros Hacc. unfold moveToMRU. rewrite (proj2 (aget_ok bits acc x)) by done.
  cbn [mbind res_bind]. do 2 f_equal. apply list_eq. intros i.
  rewrite (moveToMRU_loop_lookup bits acc x) by done. rewrite list_lookup_fmap.
  destruct (bits !! i) eqn:E; [|done]. apply lookup_lt_Some in E. cbn. by case_decide.
Qed.

(** ** Facts on represented stacks *)

Lemma lru_repr_lt bits order k w : lru_repr bits order -> order !! k = Some w -> (w < length bits)%nat.
Proof. intros (_ & _ & H) Hk. by eapply lookup_lt_Some, H. Qed.

Lemma lru_repr_NoDup bits order : lru_repr bits order -> NoDup order.
Proof.
  intros (_ & _ & H). apply NoDup_alt. intros i j w Hi Hj.
  apply H in Hi, Hj. simplify_eq. lia.
Qed.

(** Every way is in the stack. *)
Lemma lru_repr_elem bits order w : lru_repr bits order -> (w < length bits)%nat -> w ∈ order.
Proof.
  intros Hr Hw. pose proof (lru_repr_NoDup _ _ Hr) as Hnd.
  assert (order ⊆+ seq 0 (length bits)) as Hsub.
  { apply NoDup_submseteq; [done|]. intros v [k Hk]%list_elem_of_lookup.
    apply elem_of_seq. pose proof (lru_repr_lt _ _ _ _ Hr Hk). lia. }
  apply submseteq_length_Permutation in Hsub; [|rewrite length_seq; destruct Hr; lia].
  rewrite Hsub. apply elem_of_seq. lia.
Qed.

Lemma lru_repr_split bits order w :
  lru_repr bits order -> (w < length bits)%nat ->
  exists l1 l2, order = l1 ++ w :: l2 /\ touch w order = w :: l1 ++ l2 /\
    bits !! w = Some (Z.of_nat (length l1)).
Proof.
  intros Hr Hw. pose proof (lru_repr_elem _ _ _ Hr Hw) as Hin.
  pose proof (lru_repr_NoDup _ _ Hr) as Hnd.
  apply list_elem_of_split in Hin as (l1 & l2 & ->). exists l1, l2. split; [done|]. split.
  - unfold touch. f_equal. apply NoDup_app in Hnd as (_ & Hd & [Hw2 _]%NoDup_cons).
    rewrite filter_app, filter_cons_False by naive_solver.
    f_equal; apply filter_ne_notin; [|done]. intros Hi. by apply (Hd w Hi), list_elem_of_here.
  - destruct Hr as (_ & _ & H). apply H. by rewrite lookup_app_r, Nat.sub_diag by lia.
Qed.

(** The entry of a way is its position. *)
Lemma lru_repr_position bits order w b :
  lru_repr bits order -> bits !! w = Some b -> exists k, order !! k = Some w /\ b = Z.of_nat k.
Proof.
  intros Hr Hb. destruct (lru_repr_split bits order w Hr ltac:(by eapply lookup_lt_Some))
    as (l1 & l2 & -> & _ & Hbw).
  exists (length l1). split; [by rewrite lookup_app_r, Nat.sub_diag by lia | congruence].
Qed.

Lemma lru_bits_init_repr assoc :
  (assoc <= 256)%nat -> lru_repr (lru_bits_init assoc) (seq 0 assoc).
Proof.
  intros Ha. unfold lru_repr, lru_bits_init. rewrite length_fmap, length_seq.
  split_and!; [done..|]. intros k w Hk. apply lookup_seq in Hk as [-> Hlt]. cbn.
  rewrite list_lookup_fmap, (proj2 (lookup_seq 0 assoc k k)) by lia. cbn.
  f_equal. apply wrap_small. lia.
Qed.

(** The loop implements move-to-front: the represented stack after [moveToMRU w] is
    the stack with [w] moved to its front. *)
Lemma moveToMRU_touch bits order w :
  lru_repr bits order -> (w < length bits)%nat ->
  exists bits', moveToMRU bits w = Ok bits' /\ lru_repr bits' (touch w order) /\
    length bits' = length bits.
Proof.
  intros Hr Hw. destruct (lru_repr_split _ _ _ Hr Hw) as (l1 & l2 & -> & -> & Hbw).
  pose proof (lru_repr_NoDup _ _ Hr) as Hnd. destruct Hr as (Hl & H256 & Hr).
  rewrite (moveToMRU_spec _ _ _ Hbw). eexists. split; [done|].
  rewrite length_app in Hl, H256. cbn in Hl, H256.
  assert (forall v, v <> w -> forall k, (l1 ++ w :: l2) !! k = Some v ->
    <[w := 0]> ((fun y => if y <? Z.of_nat (length l1) then u8 (y + 1) else y) <$> bits) !! v
    = Some (if decide (k < length l1)%nat then Z.of_nat k + 1 else Z.of_nat k)) as Hlook.
  { intros v Hne k Hk. rewrite list_lookup_insert_ne by done. rewrite list_lookup_fmap.
    rewrite (Hr _ _ Hk). cbn. f_equal. apply lookup_lt_Some in Hk. rewrite length_app in Hk. cbn in Hk.
    case_decide; zcase; try lia. apply wrap_small. lia. }
  apply NoDup_app in Hnd as (Hn1 & Hd & [Hw2 Hn2]%NoDup_cons).
  split; [|by rewrite length_insert, length_fmap].
  split_and!; [rewrite length_insert, length_fmap; cbn; rewrite length_app; lia
              | cbn; rewrite length_app; lia |].
  intros [|k] v Hk; cbn in Hk.
  { simplify_eq. apply list_lookup_insert_eq. by rewrite length_fmap. }
  apply lookup_app_Some in Hk as [Hk | [Hge Hk]].
  - assert (v <> w) by (intros ->; apply (Hd w); [apply list_elem_of_lookup; eauto | apply list_elem_of_here]).
    rewrite (Hlook v ltac:(done) k) by by apply lookup_app_l_Some. f_equal.
    apply lookup_lt_Some in Hk. case_decide; lia.
  - assert (v <> w) by (intros ->; apply Hw2, list_elem_of_lookup; eauto).
    rewrite (Hlook v ltac:(done) (S k)).
    + f_equal. case_decide; lia.
    + rewrite lookup_app_r by lia. replace (S k - length l1)%nat with (S (k - length l1)) by lia. done.
Qed.
