(* ===== verification/CacheSetLRU.v ===== *)
(** * LRU replacement with query-based selection

    Models src/common/core/memory_subsystem/cache/cache_set_lru.{h,cc}: the
    statistics object [CacheSetInfoLRU] shared by the sets of a cache, and the
    policy [CacheSetLRU].  The refinement theorem relates the [m_lru_bits]
    implementation to a recency stack. *)

From S2P Require Import Prelude CacheBlockInfo CacheSet LruBits.

(** ** class CacheSetInfoLRU *)

Record CacheSetInfoLRU := mkInfoLRU {
  lru_info_associativity : nat;
  m_access : list Z;                 (* UInt64[m_associativity] *)
  m_attempts : option (list Z)       (* UInt64[num_attempts], only with QBS *)
}.

Definition CacheSetInfoLRU_new (assoc : nat) (num_attempts : Z) : CacheSetInfoLRU :=
  mkInfoLRU assoc (replicate assoc 0)
    (if 1 <? num_attempts then Some (replicate (Z.to_nat num_attempts) 0) else None).

Definition increment (info : CacheSetInfoLRU) (index : Z) : res CacheSetInfoLRU :=
  _ ← assert_ (index <? Z.of_nat (lru_info_associativity info));
  x ← aget (m_access info) (Z.to_nat index);
  a ← aset (m_access info) (Z.to_nat index) (u64 (x + 1));
  Ok (mkInfoLRU (lru_info_associativity info) a (m_attempts info)).

Definition incrementAttempt (info : CacheSetInfoLRU) (attempt : Z) : res CacheSetInfoLRU :=
  match m_attempts info with
  | Some l =>
      x ← aget l (Z.to_nat attempt);
      l ← aset l (Z.to_nat attempt) (u64 (x + 1));
      Ok (mkInfoLRU (lru_info_associativity info) (m_access info) (Some l))
  | None => _ ← assert_ (attempt =? 0); Ok info
  end.

(** ** class CacheSetLRU *)

Record CacheSetLRU := mkLRU { m_num_attempts : Z; m_lru_bits : list Z }.

Definition CacheSetLRU_new (assoc : nat) (num_attempts : Z) : CacheSetLRU :=
  mkLRU num_attempts (lru_bits_init assoc).

(** The inner loop of [getReplacementIndex]: the way with the highest [m_lru_bits] among
    the replaceable ones; [index] and [max_bits] start at 0. *)
Definition lru_scan (blocks : list CacheBlockInfo) (bits : list Z) : res (nat * Z) :=
  for_res (length blocks) (fun i '(index, max_bits) =>
    b ← aget bits i;
    if max_bits <? b then
      v ← isValidReplacement blocks i;
      Ok (if v : bool then (i, b) else (index, max_bits))
    else Ok (index, max_bits)) (0%nat, 0).

(** The outer loop; [k] is the number of attempts left, [m_num_attempts - attempt]. *)
Fixpoint lru_attempts (k : nat) (attempt : Z) (blocks : list CacheBlockInfo)
    (cntlr : option CacheCntlr) (info : CacheSetInfoLRU) (num_attempts : Z) (bits : list Z)
    (lookups : nat) : res (Victim CacheSetLRU CacheSetInfoLRU) :=
  match k with
  | O => Err LogError
  | S k =>
      '(index, _) ← lru_scan blocks bits;
      _ ← assert_ (bool_decide (index < length blocks)%nat);
      qbs_reject ← (if attempt <? num_attempts - 1 then
                      match cntlr with
                      | Some c => b ← aget blocks index; Ok (isInLowerLevelCache c b)
                      | None => Err AssertFailed
                      end
                    else Ok false);
      bits ← moveToMRU bits index;
      if qbs_reject : bool then
        lru_attempts k (attempt + 1) blocks cntlr info num_attempts bits (S lookups)
      else
        info ← incrementAttempt info attempt;
        Ok (mkVictim index lookups info (mkLRU num_attempts bits))
  end.

Definition LRU_getReplacementIndex (blocks : list CacheBlockInfo) (cntlr : option CacheCntlr)
    (info : CacheSetInfoLRU) (p : CacheSetLRU) : res (Victim CacheSetLRU CacheSetInfoLRU) :=
  match first_invalid blocks with
  | Some i =>
      bits ← moveToMRU (m_lru_bits p) i;
      Ok (mkVictim i 0 info (mkLRU (m_num_attempts p) bits))
  | None =>
      lru_attempts (Z.to_nat (m_num_attempts p)) 0 blocks cntlr info (m_num_attempts p)
        (m_lru_bits p) 0
  end.

Definition LRU_updateReplacementIndex (accessed_index : nat) (info : CacheSetInfoLRU)
    (p : CacheSetLRU) : res (CacheSetInfoLRU * CacheSetLRU) :=
  b ← aget (m_lru_bits p) accessed_index;
  info ← increment info b;
  bits ← moveToMRU (m_lru_bits p) accessed_index;
  Ok (info, mkLRU (m_num_attempts p) bits).

#[global] Instance LRU_policy : ReplacementPolicy CacheSetLRU CacheSetInfoLRU := {
  getReplacementIndex := LRU_getReplacementIndex;
  updateReplacementIndex := LRU_updateReplacementIndex
}.

(** ** Abstract specification on the recency stack *)

Definition replaceable (blocks : list CacheBlockInfo) (w : nat) : bool :=
  match blocks !! w with
  | Some b => negb (bool_decide (m_cstate b = SHARED_UPGRADING))
  | None => false
  end.

(** The least recently used replaceable way that is not at the front; way 0 if none. *)
Definition lru_victim (blocks : list CacheBlockInfo) (order : list nat) : nat :=
  default 0%nat (last (filter (fun w => replaceable blocks w = true) (tail order))).

(** [n] more rejections are allowed; each rejected way moves to the front. *)
Fixpoint qbs_victim (n : nat) (blocks : list CacheBlockInfo) (lower : CacheBlockInfo -> bool)
    (order : list nat) : nat * nat * list nat :=
  let w := lru_victim blocks order in
  match n, blocks !! w with
  | S n, Some b =>
      if lower b then
        let '(v, k, o) := qbs_victim n blocks lower (touch w order) in (v, S k, o)
      else (w, 0%nat, touch w order)
  | _, _ => (w, 0%nat, touch w order)
  end.

(** ** Refinement *)

Lemma isValidReplacement_ok blocks i :
  (i < length blocks)%nat -> isValidReplacement blocks i = Ok (replaceable blocks i).
Proof.
  intros Hi. unfold isValidReplacement, replaceable.
  destruct (aget_lt blocks i Hi) as (b & -> & ->). done.
Qed.

(** After the ways below [n] were scanned, the pair is the deepest replaceable one. *)
Definition scan_inv (blocks : list CacheBlockInfo) (bits : list Z) (n : nat) (r : nat * Z) : Prop :=
  (r = (0%nat, 0) \/ ((r.1 < n)%nat /\ bits !! r.1 = Some r.2 /\ replaceable blocks r.1 = true /\ 0 < r.2)) /\
  (forall w b, (w < n)%nat -> bits !! w = Some b -> replaceable blocks w = true -> b <= r.2).

Lemma lru_scan_spec blocks bits :
  length bits = length blocks -> Forall (fun b => 0 <= b) bits ->
  exists r, lru_scan blocks bits = Ok r /\ scan_inv blocks bits (length blocks) r.
Proof.
  intros Hlen Hpos. unfold lru_scan. apply for_res_inv.
  - split; [by left|]. intros; lia.
  - intros i [idx mx] Hi [Hr Hmax]. destruct (aget_lt bits i ltac:(lia)) as (b & -> & Hb).
    cbn [mbind res_bind]. rewrite isValidReplacement_ok by done.
    assert (0 <= mx) by (destruct Hr as [[= -> ->]|(_ & _ & _ & ?)]; cbn in *; lia).
    assert (forall w c, (w < S i)%nat -> bits !! w = Some c -> replaceable blocks w = true ->
              (w = i /\ c = b) \/ c <= mx) as Hcase.
    { intros w c Hw Hc Hrep. destruct (decide (w = i)) as [->|]; [left; naive_solver|].
      right. eapply Hmax; [|done..]. lia. }
    zcase; [destruct (replaceable blocks i) eqn:Er|]; eexists; (split; [done|]); split; cbn in *.
    + right. split_and!; [lia|done|done|lia].
    + intros w c Hw Hc Hrep. destruct (Hcase w c Hw Hc Hrep) as [[-> ->]|]; lia.
    + destruct Hr as [|(? & ? & ? & ?)]; [by left|right]. split_and!; [lia|done..].
    + intros w c Hw Hc Hrep. destruct (Hcase w c Hw Hc Hrep) as [[-> ->]|]; [congruence|lia].
    + destruct Hr as [|(? & ? & ? & ?)]; [by left|right]. split_and!; [lia|done..].
    + intros w c Hw Hc Hrep. destruct (Hcase w c Hw Hc Hrep) as [[-> ->]|]; lia.
Qed.

(** The last element of a filtered list is the last one of the list that satisfies it. *)
Lemma last_filter_split (f : nat -> bool) (l : list nat) :
  match last (filter (fun w => f w = true) l) with
  | Some w => exists l1 l2, l = l1 ++ w :: l2 /\ f w = true /\ Forall (fun v => f v = false) l2
  | None => Forall (fun v => f v = false) l
  end.
Proof.
  induction l as [|a l IH] using rev_ind; [constructor|].
  rewrite filter_app. destruct (f a) eqn:Ea.
  - rewrite (filter_cons_True _ a []) by done. cbn. rewrite last_snoc.
    exists l, []. done.
  - rewrite (filter_cons_False _ a []) by congruence. cbn. rewrite app_nil_r.
    destruct (last _) as [w|].
    + destruct IH as (l1 & l2 & -> & Hw & HF). exists l1, (l2 ++ [a]).
      rewrite <- app_assoc. split_and!; [done..|]. apply Forall_app. auto.
    + apply Forall_app. auto.
Qed.

Lemma lru_repr_pos bits order : lru_repr bits order -> Forall (fun b => 0 <= b) bits.
Proof.
  intros Hr. apply Forall_lookup_2. intros w b Hb. apply lookup_lt_Some in Hb as Hw.
  destruct (lru_repr_split _ _ _ Hr Hw) as (l1 & l2 & _ & _ & Hbw). simplify_eq. lia.
Qed.

Lemma lru_scan_victim blocks bits order :
  lru_repr bits order -> length bits = length blocks -> (0 < length blocks)%nat ->
  exists b, lru_scan blocks bits = Ok (lru_victim blocks order, b).
Proof.
  intros Hr Hlen H0. destruct (lru_scan_spec blocks bits Hlen (lru_repr_pos _ _ Hr)) as ([idx mx] & -> & Hs & Hmax).
  exists mx. do 2 f_equal. cbn in *. unfold lru_victim.
  pose proof (last_filter_split (replaceable blocks) (tail order)) as Hsp.
  destruct order as [|w0 order]; [destruct Hr as [E _]; cbn in E; lia|]. cbn [tail] in *.
  assert (idx = 0%nat /\ mx = 0 \/ exists k, order !! k = Some idx /\ mx = Z.of_nat (S k) /\
            replaceable blocks idx = true) as Hidx.
  { destruct Hs as [[= -> ->]|(Hlt & Hbi & Hrep & Hpos)]; [by left|right].
    destruct (lru_repr_position _ _ _ _ Hr Hbi) as ([|k] & Hk & ->); [lia|]. by exists k. }
  destruct (last _) as [w|]; cbn.
  - destruct Hsp as (l1 & l2 & -> & Hw & HF).
    assert (bits !! w = Some (Z.of_nat (S (length l1)))) as Hbw.
    { apply Hr. by apply (list_lookup_middle l1). }
    specialize (Hmax w _ ltac:(apply lookup_lt_Some in Hbw; lia) Hbw Hw).
    destruct Hidx as [[-> ->]|(k & Hk & -> & Hrep)]; [lia|].
    apply lookup_app_Some in Hk as [Hk%lookup_lt_Some|[_ Hk]]; [lia|].
    destruct (k - length l1)%nat as [|j] eqn:Ej; cbn in Hk; [congruence|].
    eapply Forall_lookup_1 in HF; [|exact Hk]. congruence.
  - destruct Hidx as [[-> _]|(k & Hk & _ & Hrep)]; [done|].
    eapply Forall_lookup_1 in Hsp; [|exact Hk]. congruence.
Qed.

(** The victim is a way of the set. *)
Lemma lru_victim_lt blocks order bits :
  lru_repr bits order -> length bits = length blocks -> (0 < length blocks)%nat ->
  (lru_victim blocks order < length blocks)%nat.
Proof.
  intros Hr Hlen H0. unfold lru_victim.
  pose proof (last_filter_split (replaceable blocks) (tail order)) as Hsp.
  destruct (last _) as [w|]; cbn; [|done].
  destruct Hsp as (l1 & l2 & E & _ & _). rewrite <- Hlen.
  eapply (lru_repr_lt bits order (S (length l1))); [done|].
  destruct order; cbn in E; [by destruct l1|]. subst. by apply (list_lookup_middle l1).
Qed.

Lemma incrementAttempt_None info : m_attempts info = None -> incrementAttempt info 0 = Ok info.
Proof. unfold incrementAttempt. by intros ->. Qed.

(** Enough room in the statistics for every attempt. *)
Definition attempts_fit (n : Z) (info : CacheSetInfoLRU) : Prop :=
  match m_attempts info with Some l => n <= Z.of_nat (length l) | None => n <= 1 end.

Lemma incrementAttempt_ok info n a :
  attempts_fit n info -> 0 <= a < n ->
  exists info', incrementAttempt info a = Ok info' /\
    lru_info_associativity info' = lru_info_associativity info /\
    m_access info' = m_access info /\ attempts_fit n info'.
Proof.
  unfold attempts_fit, incrementAttempt. intros Hf Ha. destruct (m_attempts info) as [l|] eqn:E.
  - destruct (aget_lt l (Z.to_nat a)) as (x & -> & _); [lia|]. cbn [mbind res_bind].
    rewrite aset_lt by lia. eexists; split; [done|]. cbn. by rewrite length_insert.
  - destruct (Z.eqb_spec a 0); [|lia]. cbn. eexists. rewrite E. done.
Qed.

(** The attempt loop computes [qbs_victim] on the represented stack. *)
Lemma lru_attempts_refines k attempt blocks cntlr info num bits order lookups :
  lru_repr bits order -> length bits = length blocks -> (0 < length blocks)%nat ->
  num = attempt + Z.of_nat (S k) -> 0 <= attempt ->
  attempts_fit num info -> (is_Some cntlr \/ k = 0%nat) ->
  exists v, lru_attempts (S k) attempt blocks cntlr info num bits lookups = Ok v /\
    let lower := match cntlr with Some c => isInLowerLevelCache c | None => fun _ => false end in
    let '(w, n, order') := qbs_victim k blocks lower order in
    v_index v = w /\ v_qbs_lookups v = (lookups + n)%nat /\
    lru_repr (m_lru_bits (v_policy v)) order' /\ m_num_attempts (v_policy v) = num /\
    length (m_lru_bits (v_policy v)) = length bits /\
    lru_info_associativity (v_info v) = lru_info_associativity info /\
    m_access (v_info v) = m_access info /\ attempts_fit num (v_info v).
Proof.
  revert attempt bits order lookups. induction k as [|k IH];
    intros attempt bits order lookups Hr Hlen H0 Hnum Ha Hfit Hc.
  all: destruct (lru_scan_victim blocks bits order Hr Hlen H0) as [mx Hscan].
  all: pose proof (lru_victim_lt blocks order bits Hr Hlen H0) as Hlt.
  all: destruct (aget_lt blocks _ Hlt) as (b & Hget & Hb).
  all: destruct (moveToMRU_touch bits order (lru_victim blocks order) Hr ltac:(lia)) as (bits' & Hm & Hr' & Hlen').
  all: remember (S k) as k1 eqn:Ek1 || idtac.
  all: cbn [lru_attempts qbs_victim]; rewrite Hscan; cbn [mbind res_bind].
  all: rewrite bool_decide_eq_true_2 by done; cbn [assert_ mbind res_bind].
  - destruct (Z.ltb_spec attempt (num - 1)); [lia|]. cbn [mbind res_bind]. rewrite Hm. cbn [mbind res_bind].
    destruct (incrementAttempt_ok info num attempt Hfit) as (info' & -> & ? & ? & ?); [lia|].
    cbn [mbind res_bind]. eexists. split; [done|]. cbn. rewrite Nat.add_0_r. done.
  - destruct (Z.ltb_spec attempt (num - 1)); [|lia].
    destruct Hc as [[c ->]|]; [|lia]. rewrite Hget. cbn [mbind res_bind]. rewrite Hm. cbn [mbind res_bind].
    subst k1. cbn [qbs_victim]. cbv zeta. rewrite Hb. destruct (isInLowerLevelCache c b) eqn:El.
    + destruct (IH (attempt + 1) bits' (touch (lru_victim blocks order) order) (S lookups))
        as (v & Hv & Hspec); [done|lia|done|lia|lia|done|left; eauto|].
      rewrite Hv. exists v. split; [done|]. cbv zeta in *.
      destruct (qbs_victim k blocks _ _) as [[w n] o].
      destruct Hspec as (-> & -> & ? & ? & ? & ? & ? & ?).
      split_and!; try done; lia.
    + destruct (incrementAttempt_ok info num attempt Hfit) as (info' & -> & ? & ? & ?); [lia|].
      cbn [mbind res_bind]. eexists. split; [done|]. cbn. rewrite Nat.add_0_r. done.
Qed.

(** ** The policy meets the interface *)

Definition lru_policy_wf (assoc : nat) (p : CacheSetLRU) : Prop :=
  length (m_lru_bits p) = assoc /\ exists order, lru_repr (m_lru_bits p) order.
Definition lru_info_wf (assoc : nat) (info : CacheSetInfoLRU) : Prop :=
  lru_info_associativity info = assoc /\ length (m_access info) = assoc.

Lemma incrementAttempt_wf assoc info a info' :
  lru_info_wf assoc info -> incrementAttempt info a = Ok info' -> lru_info_wf assoc info'.
Proof.
  unfold incrementAttempt. intros Hw H. destruct (m_attempts info); res_inv H; by simplify_eq.
Qed.

Lemma moveToMRU_wf num bits i :
  (i < length bits)%nat -> lru_policy_wf (length bits) (mkLRU num bits) ->
  exists bits', moveToMRU bits i = Ok bits' /\ lru_policy_wf (length bits) (mkLRU num bits').
Proof.
  intros Hi (_ & order & Hr). destruct (moveToMRU_touch bits order i Hr Hi) as (bits' & -> & Hr' & Hl).
  eexists. split; [done|]. split; [done|eauto].
Qed.

Lemma lru_attempts_wf k attempt blocks cntlr info num bits lookups v :
  lru_policy_wf (length blocks) (mkLRU num bits) -> lru_info_wf (length blocks) info ->
  lru_attempts k attempt blocks cntlr info num bits lookups = Ok v ->
  (v_index v < length blocks)%nat /\ lru_policy_wf (length blocks) (v_policy v) /\
  lru_info_wf (length blocks) (v_info v).
Proof.
  revert attempt bits lookups. induction k as [|k IH]; intros attempt bits lookups Hp Hi; [done|].
  cbn [lru_attempts]. intros H. res_inv H. destruct a as [idx mx]. res_inv H.
  assert (idx < length blocks)%nat as Hlt.
  { unfold assert_ in E0. by case_bool_decide. }
  pose proof Hp as [Hlb _]. cbn in Hlb.
  destruct (moveToMRU_wf num bits idx) as (bits' & E' & Hp'); [lia|by rewrite Hlb|].
  rewrite Hlb in Hp'. rewrite E' in E2. simplify_eq. destruct a0.
  - by eapply IH.
  - res_inv H. simplify_eq. cbn. split; [done|]. split; [done|]. by eapply incrementAttempt_wf.
Qed.

Lemma increment_ok assoc info z :
  lru_info_wf assoc info -> 0 <= z < Z.of_nat assoc ->
  exists x info', increment info z = Ok info' /\ m_access info !! Z.to_nat z = Some x /\
    m_access info' = <[Z.to_nat z := u64 (x + 1)]> (m_access info) /\ lru_info_wf assoc info'.
Proof.
  intros [Ha Hl] Hz. unfold increment. rewrite Ha.
  destruct (Z.ltb_spec z (Z.of_nat assoc)); [|lia]. cbn [assert_ mbind res_bind].
  destruct (aget_lt (m_access info) (Z.to_nat z)) as (x & -> & Hx); [lia|]. cbn [mbind res_bind].
  rewrite aset_lt by lia. cbn [mbind res_bind]. eexists _, _. split; [done|].
  unfold lru_info_wf. cbn. by rewrite length_insert.
Qed.

Lemma LRU_get_ok blocks cntlr info p v :
  lru_policy_wf (length blocks) p -> lru_info_wf (length blocks) info ->
  LRU_getReplacementIndex blocks cntlr info p = Ok v ->
  (v_index v < length blocks)%nat /\
  lru_policy_wf (length blocks) (v_policy v) /\ lru_info_wf (length blocks) (v_info v).
Proof.
  intros Hp Hi H. unfold LRU_getReplacementIndex in H. pose proof Hp as [Hlb _].
  destruct p as [num bits]. destruct (first_invalid blocks) as [i|] eqn:Ei.
  - apply first_invalid_lt in Ei. cbn in *.
    destruct (moveToMRU_wf num bits i) as (bits' & E' & Hp'); [lia|by rewrite Hlb|].
    rewrite E' in H. cbn in H. simplify_eq. cbn. by rewrite Hlb in Hp'.
  - by eapply lru_attempts_wf.
Qed.

Lemma LRU_update_ok assoc i info p :
  lru_policy_wf assoc p -> lru_info_wf assoc info -> (i < assoc)%nat ->
  exists info' p', LRU_updateReplacementIndex i info p = Ok (info', p') /\
    lru_policy_wf assoc p' /\ lru_info_wf assoc info'.
Proof.
  intros Hp Hi Hlt. unfold LRU_updateReplacementIndex.
  pose proof Hp as [Hlb [order Hr]]. destruct p as [num bits]. cbn in *.
  destruct (aget_lt bits i) as (b & -> & Hb); [lia|]. cbn [mbind res_bind].
  destruct (lru_repr_position _ _ _ _ Hr Hb) as (k & Hk & ->).
  apply lookup_lt_Some in Hk. destruct Hr as (Hlo & Hr).
  destruct (increment_ok assoc info (Z.of_nat k) Hi) as (x & info' & -> & _ & _ & Hi'); [lia|].
  cbn [mbind res_bind].
  destruct (moveToMRU_wf num bits i) as (bits' & -> & Hp'); [lia|by rewrite Hlb|].
  rewrite Hlb in Hp'. eauto.
Qed.

#[global] Instance LRU_policy_ok : ReplacementPolicyOk CacheSetLRU CacheSetInfoLRU := {
  policy_wf := lru_policy_wf;
  info_wf := lru_info_wf;
  getReplacementIndex_ok := LRU_get_ok;
  updateReplacementIndex_ok := LRU_update_ok
}.

(** ** Traces of accesses *)

Fixpoint run_accesses (ws : list nat) (info : CacheSetInfoLRU) (p : CacheSetLRU)
  : res (CacheSetInfoLRU * CacheSetLRU) :=
  match ws with
  | [] => Ok (info, p)
  | w :: ws => '(info, p) ← LRU_updateReplacementIndex w info p; run_accesses ws info p
  end.

Definition touch_all (order ws : list nat) : list nat := foldl (fun o w => touch w o) order ws.

Lemma run_accesses_refines ws info p order :
  lru_repr (m_lru_bits p) order -> lru_info_wf (length order) info ->
  Forall (fun w => (w < length order)%nat) ws ->
  exists info' p', run_accesses ws info p = Ok (info', p') /\
    m_num_attempts p' = m_num_attempts p /\ m_attempts info' = m_attempts info /\
    lru_repr (m_lru_bits p') (touch_all order ws) /\ lru_info_wf (length order) info' /\
    length (touch_all order ws) = length order.
Proof.
  revert info p order. induction ws as [|w ws IH]; intros info p order Hr Hi HF.
  { eexists _, _. done. }
  apply Forall_cons in HF as [Hw HF]. pose proof Hr as (Hlb & _).
  cbn [run_accesses]. unfold LRU_updateReplacementIndex.
  destruct (aget_lt (m_lru_bits p) w) as (b & -> & Hb); [lia|]. cbn [mbind res_bind].
  destruct (lru_repr_position _ _ _ _ Hr Hb) as (k & Hk & ->). apply lookup_lt_Some in Hk.
  destruct (increment_ok (length order) info (Z.of_nat k) Hi) as (x & info' & E & _ & _ & Hi'); [lia|].
  rewrite E. cbn [mbind res_bind].
  destruct (moveToMRU_touch (m_lru_bits p) order w Hr) as (bits' & -> & Hr' & Hl'); [lia|].
  cbn [mbind res_bind]. pose proof Hr' as (Hlb' & _).
  assert (length (touch w order) = length order) as Hlt by lia.
  destruct (IH info' (mkLRU (m_num_attempts p) bits') (touch w order)) as (i2 & p2 & -> & ? & ? & ? & ? & ?).
  - done.
  - by rewrite Hlt.
  - by rewrite Hlt.
  - assert (m_attempts info' = m_attempts info).
    { unfold increment in E. res_inv E. by simplify_eq. }
    eexists _, _. split; [done|]. cbn in *. rewrite Hlt in *. split_and!; (done || congruence).
Qed.

(** [v] is more recent than [u]. *)
Definition before (order : list nat) (v u : nat) : Prop :=
  exists l1 l2 l3, order = l1 ++ v :: l2 ++ u :: l3.

Lemma before_touch_self order v u : u ∈ order -> u <> v -> before (touch v order) v u.
Proof.
  intros Hu Hne. assert (u ∈ filter (fun x => x <> v) order) as Hf by (apply list_elem_of_filter; done).
  apply list_elem_of_split in Hf as (l1 & l2 & E). exists [], l1, l2. unfold touch. by rewrite E.
Qed.

Lemma before_touch_other order v u w : before order v u -> v <> u -> w <> u -> before (touch w order) v u.
Proof.
  intros (l1 & l2 & l3 & ->) Hvu Hwu. destruct (decide (w = v)) as [->|Hwv].
  - apply before_touch_self; [|done]. apply elem_of_app. right. apply list_elem_of_further.
    apply elem_of_app. right. apply list_elem_of_here.
  - unfold touch, before. exists (w :: filter (fun x => x <> w) l1), (filter (fun x => x <> w) l2),
      (filter (fun x => x <> w) l3).
    rewrite filter_app, filter_cons_True by done. by rewrite filter_app, filter_cons_True by done.
Qed.

Lemma before_touch_all order v u ws :
  before order v u -> v <> u -> u ∉ ws -> before (touch_all order ws) v u.
Proof.
  revert order. induction ws as [|w ws IH]; intros order Hb Hne Hni; [done|].
  apply not_elem_of_cons in Hni as [? ?]. apply IH; [|done..]. by apply before_touch_other.
Qed.

Lemma before_not_last order v u : NoDup order -> before order v u -> last order <> Some v.
Proof.
  intros Hnd (l1 & l2 & l3 & ->) Hl. apply NoDup_app in Hnd as (_ & _ & [Hv _]%NoDup_cons).
  rewrite last_app in Hl. apply Hv.
  assert (last (v :: l2 ++ u :: l3) = Some v) as Hl' by by rewrite last_cons in *; destruct (last _).
  rewrite last_cons in Hl'. rewrite last_app in Hl'. rewrite last_cons in Hl'.
  apply elem_of_app. right. destruct (last l3) as [x|] eqn:E3; cbn in Hl'.
  - simplify_eq. apply list_elem_of_further. apply last_Some in E3 as [l'' ->].
    apply elem_of_app. right. apply list_elem_of_here.
  - simplify_eq. apply list_elem_of_here.
Qed.

Lemma touch_all_elem order ws u : u ∈ order -> u ∈ touch_all order ws.
Proof.
  revert order. induction ws as [|w ws IH]; intros order Hu; [done|]. apply IH. unfold touch.
  destruct (decide (u = w)) as [->|]; [apply list_elem_of_here|].
  apply list_elem_of_further, list_elem_of_filter. done.
Qed.

Lemma lru_all_replaceable blocks (l : list nat) :
  (forall w, w ∈ l -> replaceable blocks w = true) ->
  filter (fun w => replaceable blocks w = true) l = l.
Proof.
  induction l as [|w l IH]; intros H; [done|].
  rewrite filter_cons_True by (apply H, list_elem_of_here). f_equal. apply IH.
  intros v Hv. apply H. by apply list_elem_of_further.
Qed.

(** ** Properties *)

(** [getReplacementIndex] on the stack: the first invalid way, or what [qbs_victim] picks. *)
Definition stack_replace (n : Z) (blocks : list CacheBlockInfo) (cntlr : option CacheCntlr)
    (order : list nat) : nat * nat * list nat :=
  match first_invalid blocks with
  | Some i => (i, 0%nat, touch i order)
  | None =>
      qbs_victim (Z.to_nat n - 1) blocks
        (match cntlr with Some c => isInLowerLevelCache c | None => fun _ => false end) order
  end.

(** The set with its statistics implements the stack [order] and the histogram [counts]. *)
Definition lru_rel (n : Z) (st : list nat * list Z) (info : CacheSetInfoLRU) (p : CacheSetLRU) : Prop :=
  lru_repr (m_lru_bits p) st.1 /\ m_num_attempts p = n /\ attempts_fit n info /\
  lru_info_associativity info = length st.1 /\ m_access info = st.2 /\ length st.2 = length st.1.

Lemma LRU_get_refines n blocks cntlr info p order counts :
  lru_rel n (order, counts) info p -> length blocks = length order -> (0 < length blocks)%nat ->
  1 <= n -> (is_Some cntlr \/ n = 1) ->
  exists v, LRU_getReplacementIndex blocks cntlr info p = Ok v /\
    let '(w, k, order') := stack_replace n blocks cntlr order in
    v_index v = w /\ v_qbs_lookups v = k /\ lru_rel n (order', counts) (v_info v) (v_policy v) /\
    length order' = length order.
Proof.
  intros (Hr & <- & Hfit & Ha & Hc & Hlc) Hlen H0 Hn Hcn. cbn in *. pose proof Hr as (Hlb & _).
  unfold LRU_getReplacementIndex, stack_replace. destruct (first_invalid blocks) as [i|] eqn:Ei.
  - apply first_invalid_lt in Ei.
    destruct (moveToMRU_touch (m_lru_bits p) order i Hr) as (bits' & -> & Hr' & Hl'); [lia|].
    pose proof Hr' as (Hlb' & _). assert (length (touch i order) = length order) as Ht by lia.
    eexists. split; [done|]. unfold lru_rel, fst, snd. rewrite Ht. by split_and!.
  - destruct (Z.to_nat (m_num_attempts p)) as [|k] eqn:Ek; [lia|].
    destruct (lru_attempts_refines k 0 blocks cntlr info (m_num_attempts p) (m_lru_bits p) order 0)
      as (v & Hv & Hs); [done|lia|done|lia|lia|done|destruct Hcn; [by left|right; lia]|].
    exists v. split; [done|]. cbv zeta in *. replace (S k - 1)%nat with k by lia.
    destruct (qbs_victim k blocks _ order) as [[w m] o].
    destruct Hs as (-> & -> & Hr' & En & El & Ea & Em & Hf). pose proof Hr' as (Hlb' & _).
    unfold lru_rel. cbn. split_and!; (done || congruence).
Qed.

(** The depth of a way in the stack, 0 for the most recent one. *)
Definition depth (w : nat) (order : list nat) : nat :=
  match list_find (w =.) order with Some (k, _) => k | None => 0%nat end.

Lemma depth_repr bits order w :
  lru_repr bits order -> (w < length bits)%nat -> bits !! w = Some (Z.of_nat (depth w order)).
Proof.
  intros Hr Hw. unfold depth. destruct (list_find (w =.) order) as [[k v]|] eqn:E.
  - apply list_find_Some in E as (Hk & -> & _). by apply Hr.
  - apply list_find_None in E. pose proof (lru_repr_elem _ _ _ Hr Hw) as Hin.
    by destruct (proj1 (Forall_forall _ _) E _ Hin).
Qed.

Lemma LRU_update_refines n w info p order counts :
  lru_rel n (order, counts) info p -> (w < length order)%nat ->
  exists info' p', LRU_updateReplacementIndex w info p = Ok (info', p') /\
    lru_rel n (touch w order, alter (fun x => u64 (x + 1)) (depth w order) counts) info' p' /\
    length (touch w order) = length order.
Proof.
  intros (Hr & <- & Hfit & Ha & Hc & Hlc) Hw. cbn in *. pose proof Hr as (Hlb & _).
  unfold LRU_updateReplacementIndex. pose proof (depth_repr _ _ w Hr ltac:(lia)) as Hb.
  destruct (aget_lt (m_lru_bits p) w) as (b & -> & Hb'); [lia|]. cbn [mbind res_bind]. simplify_eq.
  destruct (lru_repr_position _ _ _ _ Hr Hb) as (k & Hk & ->%Nat2Z.inj). apply lookup_lt_Some in Hk.
  unfold increment. rewrite Ha. destruct (Z.ltb_spec (Z.of_nat k) (Z.of_nat (length order))); [|lia].
  cbn [assert_ mbind res_bind]. rewrite Nat2Z.id.
  destruct (aget_lt (m_access info) k) as (x & -> & Hx); [lia|]. cbn [mbind res_bind].
  rewrite aset_lt by lia. cbn [mbind res_bind].
  destruct (moveToMRU_touch (m_lru_bits p) order w Hr) as (bits' & -> & Hr' & Hl'); [lia|].
  cbn [mbind res_bind]. pose proof Hr' as (Hlb' & _).
  assert (length (touch w order) = length order) as Ht by lia.
  eexists _, _. split; [done|]. split; [|done]. unfold lru_rel, fst, snd. rewrite Ht.
  split_and!; try done; [|by rewrite length_alter].
  rewrite list_insert_alter. apply list_alter_ext; [|done]. intros y Hy. simplify_eq. reflexivity.
Qed.

(** *** Sequences of hits and misses *)

(** A hit on a way calls [updateReplacementIndex], a miss [getReplacementIndex] on the blocks
    that the set holds then. *)
Inductive lru_op := LruHit (w : nat) | LruMiss (blocks : list CacheBlockInfo) (cntlr : option CacheCntlr).

(** The victims are returned with the number of ways that were rejected first. *)
Fixpoint lru_run (ops : list lru_op) (info : CacheSetInfoLRU) (p : CacheSetLRU)
  : res (list (nat * nat) * CacheSetInfoLRU * CacheSetLRU) :=
  match ops with
  | [] => Ok ([], info, p)
  | LruHit w :: ops => '(info, p) ← LRU_updateReplacementIndex w info p; lru_run ops info p
  | LruMiss blocks cntlr :: ops =>
      v ← LRU_getReplacementIndex blocks cntlr info p;
      '(vs, info, p) ← lru_run ops (v_info v) (v_policy v);
      Ok ((v_index v, v_qbs_lookups v) :: vs, info, p)
  end.

(** The specification: the stack, and how many hits there were at each depth. *)
Fixpoint stack_run (n : Z) (ops : list lru_op) (st : list nat * list Z)
  : list (nat * nat) * (list nat * list Z) :=
  match ops with
  | [] => ([], st)
  | LruHit w :: ops =>
      stack_run n ops (touch w st.1, alter (fun x => u64 (x + 1)) (depth w st.1) st.2)
  | LruMiss blocks cntlr :: ops =>
      let '(w, k, order) := stack_replace n blocks cntlr st.1 in
      let '(vs, st) := stack_run n ops (order, st.2) in ((w, k) :: vs, st)
  end.

(** Ways and blocks are those of the set, and query-based selection has a controller. *)
Definition lru_op_ok (assoc : nat) (n : Z) (op : lru_op) : Prop :=
  match op with
  | LruHit w => (w < assoc)%nat
  | LruMiss blocks cntlr => length blocks = assoc /\ (is_Some cntlr \/ n = 1)
  end.

Lemma lru_run_refines n ops st info p :
  lru_rel n st info p -> (0 < length st.1)%nat -> 1 <= n -> Forall (lru_op_ok (length st.1) n) ops ->
  exists vs info' p', lru_run ops info p = Ok (vs, info', p') /\
    (stack_run n ops st).1 = vs /\ lru_rel n (stack_run n ops st).2 info' p'.
Proof.
  intros Hrel H0 Hn. revert st info p Hrel H0.
  induction ops as [|[w|blocks cntlr] ops IH]; intros [order counts] info p Hrel H0 HF; cbn in *.
  - by eexists _, _, _.
  - apply Forall_cons in HF as [Hw HF]. cbn in Hw.
    destruct (LRU_update_refines n w info p order counts Hrel Hw) as (info1 & p1 & -> & Hrel1 & Hl).
    apply (IH _ _ _ Hrel1); unfold fst; rewrite Hl; done.
  - apply Forall_cons in HF as [[Hlen Hc] HF].
    destruct (LRU_get_refines n blocks cntlr info p order counts Hrel) as (v & -> & Hs); [done|lia|done..|].
    destruct (stack_replace n blocks cntlr order) as [[w k] order']. destruct Hs as (Ew & Ek & Hrel1 & Hl).
    cbn [mbind res_bind].
    destruct (IH (order', counts) _ _ Hrel1) as (vs & info2 & p2 & -> & Ev & Hrel2); [cbn; rewrite Hl; done..|].
    cbn [mbind res_bind]. destruct (stack_run n ops (order', counts)) as [vs' st']. cbn in *. subst.
    by eexists _, _, _.
Qed.

(** C33: The LRU policy, with or without query-based selection, refines a recency stack.  In a
    new set of 1 to 256 ways with [n] attempts, run any sequence of hits and misses (a hit is
    on a way of the set; a miss is given the blocks of all ways and, when [n] is above 1, the
    controller to ask): every call succeeds; a miss picks the first invalid way if there is
    one, else what [qbs_victim] picks on the stack; every way that was hit, rejected or picked
    has moved to the front of the stack, which [m_lru_bits] represents; and [m_access] counts
    the hits at each depth of the stack. *)
Theorem lru_refinement (assoc : nat) (n : Z) (ops : list lru_op) :
  (0 < assoc <= 256)%nat -> 1 <= n < 256 -> Forall (lru_op_ok assoc n) ops ->
  exists vs info p,
    lru_run ops (CacheSetInfoLRU_new assoc n) (CacheSetLRU_new assoc n) = Ok (vs, info, p) /\
    let '(vs', (order, counts)) := stack_run n ops (seq 0 assoc, replicate assoc 0) in
    vs = vs' /\ lru_repr (m_lru_bits p) order /\ m_access info = counts.
Proof.
  intros Ha Hn Hops.
  destruct (lru_run_refines n ops (seq 0 assoc, replicate assoc 0) (CacheSetInfoLRU_new assoc n)
              (CacheSetLRU_new assoc n)) as (vs & info & p & E & Ev & Hrel).
  - unfold lru_rel, attempts_fit. cbn. rewrite length_seq, length_replicate.
    split_and!; try done; [apply lru_bits_init_repr; lia|]. zcase; cbn; [rewrite length_replicate|]; lia.
  - cbn. rewrite length_seq. lia.
  - lia.
  - cbn. by rewrite length_seq.
  - exists vs, info, p. split; [done|]. destruct (stack_run n ops _) as [vs' [order counts]].
    cbn in *. by destruct Hrel as (? & _ & _ & _ & ? & _).
Qed.

Definition example_block (tag : Z) (c : cstate_t) : CacheBlockInfo :=
  mkBlock tag c 0 0 0 PrL1CacheBlockInfo.
Definition example_blocks : list CacheBlockInfo :=
  [example_block 10 SHARED; example_block 11 MODIFIED; example_block 12 SHARED].

(** After the hits the stack is 2, 0, 1; the controller of the first miss still holds the line with
    tag 11, so that the first miss rejects way 1 and picks way 0. *)
Definition example_lru_ops : list lru_op :=
  [LruHit 2; LruHit 0; LruHit 2; LruMiss example_blocks (Some {| isInLowerLevelCache := fun b => m_tag b =? 11 |});
   LruHit 2; LruMiss example_blocks (Some {| isInLowerLevelCache := fun _ => false |})].

Lemma lru_refinement_witness :
  exists vs info p,
    lru_run example_lru_ops (CacheSetInfoLRU_new 3 2) (CacheSetLRU_new 3 2) = Ok (vs, info, p) /\
    vs = [(0, 1); (1, 0)]%nat /\ lru_repr (m_lru_bits p) [1; 2; 0]%nat /\ m_access info = [0; 2; 2].
Proof.
  apply (lru_refinement 3 2 example_lru_ops).
  - lia.
  - lia.
  - repeat constructor; eexists; reflexivity.
Defined.

(** True LRU: start from a fresh set, access ways in the order [ws], then miss with every
    way valid and replaceable.  The victim [v] is the least recently used way: after any
    access to [v] in the trace, every other way has been accessed. *)
Theorem lru_evicts_least_recent (assoc : nat) (ws : list nat) (blocks : list CacheBlockInfo)
    (cntlr : option CacheCntlr) :
  (2 <= assoc <= 256)%nat -> Forall (fun w => (w < assoc)%nat) ws -> length blocks = assoc ->
  Forall (fun b => isValid b = true /\ m_cstate b <> SHARED_UPGRADING) blocks ->
  exists info p v,
    run_accesses ws (CacheSetInfoLRU_new assoc 1) (CacheSetLRU_new assoc 1) = Ok (info, p) /\
    LRU_getReplacementIndex blocks cntlr info p = Ok v /\ (v_index v < assoc)%nat /\
    forall ws1 ws2, ws = ws1 ++ v_index v :: ws2 ->
      forall u, (u < assoc)%nat -> u <> v_index v -> u ∈ ws2.
Proof.
  intros Ha Hws Hlen Hblk.
  destruct (run_accesses_refines ws (CacheSetInfoLRU_new assoc 1) (CacheSetLRU_new assoc 1) (seq 0 assoc))
    as (info & p & Hrun & Hna & Hat & Hr & Hi & Hlo).
  { apply lru_bits_init_repr. lia. }
  { unfold lru_info_wf. cbn. rewrite length_seq, length_replicate. done. }
  { by rewrite length_seq. }
  rewrite length_seq in Hi, Hlo. remember (touch_all (seq 0 assoc) ws) as order eqn:Hord.
  assert (first_invalid blocks = None) as Hfi.
  { apply first_invalid_none. eapply Forall_impl; [exact Hblk|]. naive_solver. }
  destruct (lru_attempts_refines 0 0 blocks cntlr info 1 (m_lru_bits p) order 0)
    as (v & Hv & Hs); [done|destruct Hr; lia|lia|lia|lia| |by right|].
  { unfold attempts_fit. rewrite Hat. cbn. lia. }
  assert (last order = Some (v_index v)) as Hlast.
  { cbn in Hs. destruct Hs as (-> & _). unfold lru_victim.
    rewrite (lru_all_replaceable blocks (tail order)).
    - destruct order as [|x [|y l]]; cbn in Hlo; [lia..|]. cbn [tail]. rewrite !last_cons_cons.
      destruct (last_is_Some (y :: l)) as [_ []]; [done|]. by rewrite H.
    - intros w Hw. pose proof Hr as (Hlb & _).
      assert (w < length blocks)%nat as Hwl.
      { assert (w ∈ order) as [k Hk]%list_elem_of_lookup by (destruct order; [done|by apply list_elem_of_further]).
        pose proof (lru_repr_lt _ _ _ _ Hr Hk). lia. }
      destruct (lookup_lt_is_Some_2 _ _ Hwl) as [b Hb]. unfold replaceable. rewrite Hb.
      eapply Forall_lookup_1 in Hblk; [|exact Hb].
      rewrite bool_decide_eq_false_2 by naive_solver. done. }
  exists info, p, v. split; [done|]. split.
  { unfold LRU_getReplacementIndex. by rewrite Hfi, Hna. }
  split.
  { assert (v_index v ∈ order) as [k Hk]%list_elem_of_lookup.
    { apply last_Some in Hlast as [l ->]. apply elem_of_app. right. apply list_elem_of_here. }
    pose proof (lru_repr_lt _ _ _ _ Hr Hk). destruct Hr; lia. }
  intros ws1 ws2 Ews u Hu Hne. destruct (decide (u ∈ ws2)) as [|Hni]; [done|]. exfalso.
  apply (before_not_last order (v_index v) u); [by eapply lru_repr_NoDup| |done].
  rewrite Hord, Ews. unfold touch_all. rewrite foldl_app. cbn.
  apply before_touch_all; [|done..]. apply before_touch_self; [|done].
  apply touch_all_elem. apply elem_of_seq. lia.
Qed.

Lemma lru_evicts_least_recent_witness :
  exists info p v,
    run_accesses [0; 1; 2; 0]%nat (CacheSetInfoLRU_new 3 1) (CacheSetLRU_new 3 1) = Ok (info, p) /\
    LRU_getReplacementIndex example_blocks None info p = Ok v /\ (v_index v < 3)%nat /\
    forall ws1 ws2, [0; 1; 2; 0]%nat = ws1 ++ v_index v :: ws2 ->
      forall u, (u < 3)%nat -> u <> v_index v -> u ∈ ws2.
Proof.
  apply (lru_evicts_least_recent 3 [0; 1; 2; 0]%nat example_blocks None).
  - lia.
  - repeat constructor.
  - reflexivity.
  - repeat constructor; cbn; congruence.
Defined.

(** When every way but the most recent one is waiting for an upgrade, the scan falls back to
    way 0 without testing it: the policy hands out a [SHARED_UPGRADING] block. *)
Theorem lru_may_pick_upgrading :
  exists blocks v,
    LRU_getReplacementIndex blocks None (CacheSetInfoLRU_new 2 1) (CacheSetLRU_new 2 1) = Ok v /\
    isValidReplacement blocks (v_index v) = Ok false.
Proof.
  exists [example_block 10 SHARED_UPGRADING; example_block 11 SHARED_UPGRADING].
  eexists. split; [vm_compute; reflexivity|]. reflexivity.
Qed.
