(* ===== verification/CacheSetMRU.v ===== *)
(** * MRU, NMRU and NRU replacement

    Models src/common/core/memory_subsystem/cache/cache_set_mru.cc,
    cache_set_nmru.cc and cache_set_nru.cc.  NMRU and NRU share a scan that
    starts from a replacement pointer and goes once around the set
    ([pointer_scan]).  These policies have no statistics object. *)

From S2P Require Import Prelude CacheBlockInfo CacheSet LruBits CacheSetLRU.

(** ** MRU: evict the most recently used replaceable way *)

Record CacheSetMRU := mkMRU { mru_bits : list Z }.

Definition CacheSetMRU_new (assoc : nat) : CacheSetMRU := mkMRU (lru_bits_init assoc).

Definition MRU_updateReplacementIndex (accessed_index : nat) (info : unit) (p : CacheSetMRU)
  : res (unit * CacheSetMRU) :=
  bits ← moveToMRU (mru_bits p) accessed_index; Ok (info, mkMRU bits).

(** [for (i ...) if (m_lru_bits[i] == target && isValidReplacement(i))], [k] ways left. *)
Fixpoint mru_find (k i : nat) (target : Z) (blocks : list CacheBlockInfo) (bits : list Z)
  : res (option nat) :=
  match k with
  | O => Ok None
  | S k =>
      b ← aget bits i;
      v ← (if b =? target then isValidReplacement blocks i else Ok false);
      if v : bool then Ok (Some i) else mru_find k (S i) target blocks bits
  end.

(** [while (target < m_associativity)], [k] targets left. *)
Fixpoint mru_targets (k : nat) (target : Z) (blocks : list CacheBlockInfo) (bits : list Z)
  : res nat :=
  match k with
  | O => Err LogError
  | S k =>
      o ← mru_find (length blocks) 0 target blocks bits;
      match o with
      | Some i => Ok i
      | None => mru_targets k (target + 1) blocks bits
      end
  end.

Definition MRU_getReplacementIndex (blocks : list CacheBlockInfo) (cntlr : option CacheCntlr)
    (info : unit) (p : CacheSetMRU) : res (Victim CacheSetMRU unit) :=
  i ← match first_invalid blocks with
      | Some i => Ok i
      | None => mru_targets (length blocks) 0 blocks (mru_bits p)
      end;
  '(info, p) ← MRU_updateReplacementIndex i info p;
  Ok (mkVictim i 0 info p).

#[global] Instance MRU_policy : ReplacementPolicy CacheSetMRU unit := {
  getReplacementIndex := MRU_getReplacementIndex;
  updateReplacementIndex := MRU_updateReplacementIndex
}.

(** ** The scan from a replacement pointer *)

Definition next_pointer (assoc : nat) (ptr : Z) : Z := u8 ((ptr + 1) mod Z.of_nat assoc).

(** [k] ways left; returns the way found and the pointer afterwards. *)
Fixpoint pointer_scan (k assoc : nat) (test : nat -> res bool) (ptr : Z) : res (option nat * Z) :=
  match k with
  | O => Ok (None, ptr)
  | S k =>
      t ← test (Z.to_nat ptr);
      if t : bool then Ok (Some (Z.to_nat ptr), next_pointer assoc ptr)
      else pointer_scan k assoc test (next_pointer assoc ptr)
  end.

(** ** NMRU: the first way from the pointer that is not the most recently used *)

Record CacheSetNMRU := mkNMRU { nmru_bits : list Z; nmru_pointer : Z }.

Definition CacheSetNMRU_new (assoc : nat) : CacheSetNMRU := mkNMRU (lru_bits_init assoc) 0.

Definition NMRU_updateReplacementIndex (accessed_index : nat) (info : unit) (p : CacheSetNMRU)
  : res (unit * CacheSetNMRU) :=
  bits ← moveToMRU (nmru_bits p) accessed_index; Ok (info, mkNMRU bits (nmru_pointer p)).

Definition nmru_test (blocks : list CacheBlockInfo) (bits : list Z) (w : nat) : res bool :=
  b ← aget bits w;
  if b =? 0 then Ok false else isValidReplacement blocks w.

Definition NMRU_getReplacementIndex (blocks : list CacheBlockInfo) (cntlr : option CacheCntlr)
    (info : unit) (p : CacheSetNMRU) : res (Victim CacheSetNMRU unit) :=
  '(i, ptr) ←
    match first_invalid blocks with
    | Some i => Ok (i, nmru_pointer p)
    | None =>
        '(o, ptr) ← pointer_scan (length blocks) (length blocks)
                      (nmru_test blocks (nmru_bits p)) (nmru_pointer p);
        match o with Some i => Ok (i, ptr) | None => Err LogError end
    end;
  '(info, p) ← NMRU_updateReplacementIndex i info (mkNMRU (nmru_bits p) ptr);
  Ok (mkVictim i 0 info p).

#[global] Instance NMRU_policy : ReplacementPolicy CacheSetNMRU unit := {
  getReplacementIndex := NMRU_getReplacementIndex;
  updateReplacementIndex := NMRU_updateReplacementIndex
}.

(** ** NRU: one reference bit per way *)

Record CacheSetNRU := mkNRU { nru_bits : list Z; m_num_bits_set : Z; nru_pointer : Z }.

Definition CacheSetNRU_new (assoc : nat) : CacheSetNRU := mkNRU (replicate assoc 0) 0 0.

Definition NRU_updateReplacementIndex (accessed_index : nat) (info : unit) (p : CacheSetNRU)
  : res (unit * CacheSetNRU) :=
  bits ← aset (nru_bits p) accessed_index 1;
  let n := u8 (m_num_bits_set p + 1) in
  Ok (info,
      if n =? Z.of_nat (length bits) then mkNRU (replicate (length bits) 0) 0 (nru_pointer p)
      else mkNRU bits n (nru_pointer p)).

(** The first loop: the first invalid way, or whether a replaceable way has a zero bit. *)
Fixpoint nru_first_loop (i : nat) (all blocks : list CacheBlockInfo) (bits : list Z)
    (have_zero_bit : bool) : res (nat + bool) :=
  match blocks with
  | [] => Ok (inr have_zero_bit)
  | b :: blocks =>
      if isValid b then
        x ← aget bits i;
        z ← (if x =? 0 then isValidReplacement all i else Ok false);
        nru_first_loop (S i) all blocks bits (if z : bool then true else have_zero_bit)
      else Ok (inl i)
  end.

Definition nru_test (blocks : list CacheBlockInfo) (bits : list Z) (have_zero_bit : bool) (w : nat)
  : res bool :=
  b ← aget bits w;
  if (b =? 0) || negb have_zero_bit then isValidReplacement blocks w else Ok false.

Definition NRU_getReplacementIndex (blocks : list CacheBlockInfo) (cntlr : option CacheCntlr)
    (info : unit) (p : CacheSetNRU) : res (Victim CacheSetNRU unit) :=
  r ← nru_first_loop 0 blocks blocks (nru_bits p) false;
  '(i, ptr) ←
    match r with
    | inl i => Ok (i, nru_pointer p)
    | inr have_zero_bit =>
        '(o, ptr) ← pointer_scan (length blocks) (length blocks)
                      (nru_test blocks (nru_bits p) have_zero_bit) (nru_pointer p);
        match o with Some i => Ok (i, ptr) | None => Err LogError end
    end;
  '(info, p) ← NRU_updateReplacementIndex i info (mkNRU (nru_bits p) (m_num_bits_set p) ptr);
  Ok (mkVictim i 0 info p).

#[global] Instance NRU_policy : ReplacementPolicy CacheSetNRU unit := {
  getReplacementIndex := NRU_getReplacementIndex;
  updateReplacementIndex := NRU_updateReplacementIndex
}.

(** ** Lemmas: the MRU search *)

Lemma mru_find_spec k i target blocks bits :
  (i + k <= length blocks)%nat -> length bits = length blocks ->
  exists o, mru_find k i target blocks bits = Ok o /\
    match o with
    | Some w => (i <= w < i + k)%nat /\ bits !! w = Some target /\ replaceable blocks w = true
    | None => forall w, (i <= w < i + k)%nat -> bits !! w = Some target -> replaceable blocks w = false
    end.
Proof.
  revert i. induction k as [|k IH]; intros i Hk Hlen.
  { exists None. split; [done|]. intros; lia. }
  cbn [mru_find]. destruct (aget_lt bits i) as (b & -> & Hb); [lia|]. cbn [mbind res_bind].
  rewrite isValidReplacement_ok by lia.
  destruct (IH (S i)) as (o & Ho & Hs); [lia|done|].
  destruct (Z.eqb_spec b target) as [->|Hne]; cbn [mbind res_bind];
    [destruct (replaceable blocks i) eqn:Er|].
  - exists (Some i). split; [done|]. split; [lia|done].
  - exists o. split; [done|]. destruct o as [w|]; [destruct Hs as (? & ? & ?); split; [lia|done]|].
    intros w Hw Hbw. destruct (decide (w = i)) as [->|]; [done|]. apply Hs; [lia|done].
  - exists o. split; [done|]. destruct o as [w|]; [destruct Hs as (? & ? & ?); split; [lia|done]|].
    intros w Hw Hbw. destruct (decide (w = i)) as [->|]; [congruence|]. apply Hs; [lia|done].
Qed.

(** The head of a filtered list, as the first element that satisfies the test. *)
Lemma mru_targets_spec k target blocks bits order :
  lru_repr bits order -> length bits = length blocks -> (Z.to_nat target + k = length blocks)%nat ->
  0 <= target ->
  mru_targets k target blocks bits
  = match head (filter (fun w => replaceable blocks w = true) (drop (Z.to_nat target) order)) with
    | Some w => Ok w
    | None => Err LogError
    end.
Proof.
  revert target. induction k as [|k IH]; intros target Hr Hlen Hk Ht.
  { rewrite drop_ge by (destruct Hr; lia). done. }
  cbn [mru_targets].
  destruct (mru_find_spec (length blocks) 0 target blocks bits) as (o & -> & Hs); [lia|done|].
  cbn [mbind res_bind]. pose proof Hr as (Hl & _ & Hord).
  destruct (lookup_lt_is_Some_2 order (Z.to_nat target)) as [w Hw]; [lia|].
  rewrite (drop_S order w) by done. pose proof (Hord _ _ Hw) as Hbw. rewrite Z2Nat.id in Hbw by lia.
  destruct o as [v|].
  - destruct Hs as (Hv & Hbv & Hrep).
    destruct (lru_repr_position _ _ _ _ Hr Hbv) as (j & Hj & ->).
    rewrite Nat2Z.id in Hw. assert (v = w) as -> by congruence. by rewrite filter_cons_True.
  - assert (w < length bits)%nat by (by eapply lookup_lt_Some).
    rewrite filter_cons_False by (rewrite (Hs w); [done|lia|done]).
    rewrite IH by (done || lia). by replace (Z.to_nat (target + 1)) with (S (Z.to_nat target)) by lia.
Qed.

(** MRU replacement evicts the most recently used way that may be replaced, and fails
    exactly when no way may be replaced. *)
Theorem mru_refinement (blocks : list CacheBlockInfo) (cntlr : option CacheCntlr)
    (p : CacheSetMRU) (order : list nat) :
  lru_repr (mru_bits p) order -> length order = length blocks -> first_invalid blocks = None ->
  match head (filter (fun w => replaceable blocks w = true) order) with
  | Some w => exists v, MRU_getReplacementIndex blocks cntlr tt p = Ok v /\ v_index v = w /\
                lru_repr (mru_bits (v_policy v)) (touch w order)
  | None => MRU_getReplacementIndex blocks cntlr tt p = Err LogError
  end.
Proof.
  intros Hr Hlen Hfi. pose proof Hr as (Hlb & _). unfold MRU_getReplacementIndex. rewrite Hfi.
  rewrite (mru_targets_spec _ _ _ _ order) by (done || lia). rewrite drop_0.
  destruct (head _) as [w|] eqn:Eh; [|done]. cbn [mbind res_bind].
  assert (w ∈ order) as [k Hk]%list_elem_of_lookup.
  { apply head_Some in Eh as [l El]. assert (w ∈ filter (fun w => replaceable blocks w = true) order) as Hin
      by (rewrite El; apply list_elem_of_here). by apply list_elem_of_filter in Hin as [_ ?]. }
  unfold MRU_updateReplacementIndex.
  destruct (moveToMRU_touch (mru_bits p) order w Hr) as (bits' & -> & Hr' & _);
    [by eapply lru_repr_lt|].
  eexists. done.
Qed.

Lemma mru_refinement_witness :
  exists v, MRU_getReplacementIndex example_blocks None tt (CacheSetMRU_new 3) = Ok v /\
    v_index v = 0%nat /\ lru_repr (mru_bits (v_policy v)) [0; 1; 2]%nat.
Proof.
  apply (mru_refinement example_blocks None (CacheSetMRU_new 3) (seq 0 3)); [|reflexivity..].
  apply (lru_bits_init_repr 3). lia.
Defined.

(** ** Lemmas: the pointer scan *)

Lemma next_pointer_range assoc ptr :
  (0 < assoc <= 256)%nat -> 0 <= ptr < Z.of_nat assoc ->
  next_pointer assoc ptr = (ptr + 1) mod Z.of_nat assoc /\
  0 <= next_pointer assoc ptr < Z.of_nat assoc.
Proof.
  intros Ha Hp. pose proof (Z.mod_pos_bound (ptr + 1) (Z.of_nat assoc) ltac:(lia)).
  unfold next_pointer. rewrite wrap_small by lia. done.
Qed.

(** [k] steps test the ways [ptr], [ptr + 1], ... modulo the associativity. *)
Lemma pointer_scan_steps k assoc test (f : nat -> bool) ptr :
  (0 < assoc <= 256)%nat -> 0 <= ptr < Z.of_nat assoc ->
  (forall w, (w < assoc)%nat -> test w = Ok (f w)) ->
  exists o ptr', pointer_scan k assoc test ptr = Ok (o, ptr') /\ 0 <= ptr' < Z.of_nat assoc /\
    match o with
    | Some w => (w < assoc)%nat /\ f w = true
    | None => forall j, 0 <= j < Z.of_nat k -> f (Z.to_nat ((ptr + j) mod Z.of_nat assoc)) = false
    end.
Proof.
  intros Ha. revert ptr. induction k as [|k IH]; intros ptr Hp Ht.
  { eexists None, ptr. split; [done|]. split; [done|]. intros; lia. }
  cbn [pointer_scan]. rewrite Ht by lia. cbn [mbind res_bind].
  destruct (next_pointer_range assoc ptr Ha Hp) as [Enp Hnp].
  destruct (f (Z.to_nat ptr)) eqn:Ef.
  { eexists (Some _), _. split; [done|]. split; [done|]. split; [lia|done]. }
  destruct (IH (next_pointer assoc ptr) Hnp Ht) as (o & ptr' & -> & Hp' & Hs).
  eexists o, ptr'. split; [done|]. split; [done|]. destruct o as [w|]; [done|].
  intros j Hj. destruct (decide (j = 0)) as [->|].
  - by rewrite Z.add_0_r, Z.mod_small by lia.
  - specialize (Hs (j - 1) ltac:(lia)). rewrite Enp, Zplus_mod_idemp_l in Hs.
    by replace (ptr + 1 + (j - 1)) with (ptr + j) in Hs by lia.
Qed.

(** A full turn finds a way that passes the test, unless no way does. *)
Lemma pointer_scan_full assoc test (f : nat -> bool) ptr :
  (0 < assoc <= 256)%nat -> 0 <= ptr < Z.of_nat assoc ->
  (forall w, (w < assoc)%nat -> test w = Ok (f w)) ->
  exists o ptr', pointer_scan assoc assoc test ptr = Ok (o, ptr') /\ 0 <= ptr' < Z.of_nat assoc /\
    match o with
    | Some w => (w < assoc)%nat /\ f w = true
    | None => forall w, (w < assoc)%nat -> f w = false
    end.
Proof.
  intros Ha Hp Ht. destruct (pointer_scan_steps assoc assoc test f ptr Ha Hp Ht) as (o & ptr' & E & Hp' & Hs).
  exists o, ptr'. split; [done|]. split; [done|]. destruct o as [w|]; [done|].
  intros w Hw. specialize (Hs ((Z.of_nat w - ptr) mod Z.of_nat assoc)
    ltac:(apply Z.mod_pos_bound; lia)).
  rewrite Zplus_mod_idemp_r in Hs. replace (ptr + (Z.of_nat w - ptr)) with (Z.of_nat w) in Hs by lia.
  by rewrite Z.mod_small, Nat2Z.id in Hs by lia.
Qed.

(** ** NMRU *)

Definition nmru_wf (assoc : nat) (p : CacheSetNMRU) : Prop :=
  length (nmru_bits p) = assoc /\ (exists order, lru_repr (nmru_bits p) order) /\
  (0 < assoc)%nat /\ 0 <= nmru_pointer p < Z.of_nat assoc.

Lemma nmru_test_ok blocks bits w :
  length bits = length blocks -> (w < length blocks)%nat ->
  nmru_test blocks bits w = Ok (negb (bits !!! w =? 0) && replaceable blocks w).
Proof.
  intros Hl Hw. unfold nmru_test. destruct (aget_lt bits w) as (b & -> & Hb); [lia|].
  cbn [mbind res_bind]. rewrite (list_lookup_total_Some _ _ _ Hb), isValidReplacement_ok by lia.
  by destruct (b =? 0).
Qed.

(** With every way valid, NMRU never evicts the most recently used way nor one that is
    waiting for an upgrade, and it finds a victim whenever such a way exists. *)
Theorem nmru_victim_not_mru (blocks : list CacheBlockInfo) (cntlr : option CacheCntlr)
    (p : CacheSetNMRU) (order : list nat) :
  nmru_wf (length blocks) p -> lru_repr (nmru_bits p) order -> first_invalid blocks = None ->
  match NMRU_getReplacementIndex blocks cntlr tt p with
  | Ok v => head order <> Some (v_index v) /\ replaceable blocks (v_index v) = true /\
            lru_repr (nmru_bits (v_policy v)) (touch (v_index v) order)
  | Err e => e = LogError /\
            forall w, (w < length blocks)%nat -> head order <> Some w -> replaceable blocks w = false
  end.
Proof.
  intros (Hl & _ & Ha & Hp) Hr Hfi. unfold NMRU_getReplacementIndex. rewrite Hfi.
  assert (length blocks <= 256)%nat by (destruct Hr as (? & ? & _); lia).
  destruct (pointer_scan_full (length blocks) (nmru_test blocks (nmru_bits p))
    (fun w => negb (nmru_bits p !!! w =? 0) && replaceable blocks w) (nmru_pointer p))
    as (o & ptr' & -> & Hp' & Hs); [lia|done|by intros; apply nmru_test_ok|].
  cbn [mbind res_bind]. destruct o as [w|]; cbn [mbind res_bind].
  - destruct Hs as [Hw [Hnz Hrep]%andb_true_iff]. unfold NMRU_updateReplacementIndex.
    destruct (moveToMRU_touch (nmru_bits p) order w Hr) as (bits' & E & Hr' & _); [lia|].
    cbn [nmru_bits nmru_pointer]. rewrite E. cbn. split_and!; try done.
    intros Hh. destruct order as [|x order]; cbn in Hh; simplify_eq.
    destruct Hr as (_ & _ & Hr). rewrite (list_lookup_total_Some _ _ _ (Hr 0%nat w eq_refl)) in Hnz. done.
  - split; [done|]. intros w Hw Hh. specialize (Hs w Hw). apply andb_false_iff in Hs as [Hz|]; [|done].
    apply negb_false_iff, Z.eqb_eq in Hz. 
    destruct (lookup_lt_is_Some_2 (nmru_bits p) w) as [b Hb]; [lia|].
    rewrite (list_lookup_total_Some _ _ _ Hb) in Hz. subst b.
    destruct (lru_repr_position _ _ _ _ Hr Hb) as ([|k] & Hk & ?); [|lia].
    destruct order; cbn in *; congruence.
Qed.

Lemma nmru_victim_not_mru_witness :
  Some 0%nat <> Some 1%nat /\ replaceable example_blocks 1 = true /\
  lru_repr [1; 0; 2] [1; 0; 2]%nat.
Proof.
  apply (nmru_victim_not_mru example_blocks None (CacheSetNMRU_new 3) (seq 0 3)).
  - split; [reflexivity|]. split; [exists (seq 0 3); apply (lru_bits_init_repr 3); lia|].
    cbn. lia.
  - apply (lru_bits_init_repr 3). lia.
  - reflexivity.
Defined.

(** ** NRU *)

Definition nru_wf (assoc : nat) (p : CacheSetNRU) : Prop :=
  length (nru_bits p) = assoc /\ (0 < assoc <= 256)%nat /\
  0 <= nru_pointer p < Z.of_nat assoc.

Lemma nru_first_loop_spec i all blocks bits hz :
  (i + length blocks = length all)%nat -> length bits = length all ->
  exists r, nru_first_loop i all blocks bits hz = Ok r /\
    match r with
    | inl w => first_invalid_from i blocks = Some w
    | inr z => first_invalid_from i blocks = None /\
        (z = true <-> hz = true \/ exists w, (i <= w < length all)%nat /\ bits !! w = Some 0 /\
                                  replaceable all w = true)
    end.
Proof.
  revert i hz. induction blocks as [|b blocks IH]; intros i hz Hi Hl; cbn [nru_first_loop first_invalid_from].
  { exists (inr hz). split; [done|]. split; [done|]. split; [auto|]. cbn in Hi.
    intros [?|(w & ? & _)]; [done|lia]. }
  cbn in Hi. destruct (isValid b); [|by exists (inl i)].
  destruct (aget_lt bits i) as (x & -> & Hx); [lia|]. cbn [mbind res_bind].
  rewrite isValidReplacement_ok by lia.
  set (z := if x =? 0 then _ else _). assert (z = Ok ((x =? 0) && replaceable all i)) as ->.
  { unfold z. by destruct (x =? 0). }
  cbn [mbind res_bind].
  destruct (IH (S i) (if (x =? 0) && replaceable all i then true else hz)) as (r & -> & Hr); [lia|done|].
  exists r. split; [done|]. destruct r as [w|r]; [done|]. destruct Hr as [-> Hr]. split; [done|].
  rewrite Hr. clear Hr IH. split.
  - intros [Hc|(w & Hw & Hb & Hrep)]; [|right; exists w; split; [lia|done]].
    destruct (andb _ _) eqn:E; [|auto]. apply andb_true_iff in E as [->%Z.eqb_eq ?].
    right. exists i. split; [lia|done].
  - intros [->|(w & Hw & Hb & Hrep)]; [left; by destruct (andb _ _)|].
    destruct (decide (w = i)) as [->|]; [|right; exists w; split; [lia|done]].
    left. assert (x = 0) as -> by congruence. by rewrite Hrep.
Qed.

Lemma nru_test_ok blocks bits hz w :
  length bits = length blocks -> (w < length blocks)%nat ->
  nru_test blocks bits hz w = Ok (((bits !!! w =? 0) || negb hz) && replaceable blocks w).
Proof.
  intros Hl Hw. unfold nru_test. destruct (aget_lt bits w) as (b & -> & Hb); [lia|].
  cbn [mbind res_bind]. rewrite (list_lookup_total_Some _ _ _ Hb), isValidReplacement_ok by lia.
  by destruct (_ || _).
Qed.

Lemma NRU_update_ok assoc i p :
  nru_wf assoc p -> (i < assoc)%nat ->
  exists p', NRU_updateReplacementIndex i tt p = Ok (tt, p') /\ nru_wf assoc p'.
Proof.
  intros (Hl & Ha & Hp) Hi. unfold NRU_updateReplacementIndex. rewrite aset_lt by lia.
  cbn [mbind res_bind]. eexists. split; [done|]. unfold nru_wf.
  destruct (_ =? _); cbn; rewrite ?length_replicate, ?length_insert; done.
Qed.

(** NRU picks the first invalid way; with every way valid it picks a replaceable way, one
    whose reference bit is clear if any replaceable way has its bit clear, and it fails
    only when no way may be replaced. *)
Theorem nru_victim_spec (blocks : list CacheBlockInfo) (cntlr : option CacheCntlr) (p : CacheSetNRU) :
  nru_wf (length blocks) p ->
  match NRU_getReplacementIndex blocks cntlr tt p with
  | Ok v => nru_wf (length blocks) (v_policy v) /\
      match first_invalid blocks with
      | Some i => v_index v = i
      | None => (v_index v < length blocks)%nat /\ replaceable blocks (v_index v) = true /\
          ((exists w, (w < length blocks)%nat /\ nru_bits p !! w = Some 0 /\ replaceable blocks w = true) ->
           nru_bits p !! v_index v = Some 0)
      end
  | Err e => e = LogError /\ forall w, (w < length blocks)%nat -> replaceable blocks w = false
  end.
Proof.
  intros Hwf. pose proof Hwf as (Hl & Ha & Hp). unfold NRU_getReplacementIndex.
  destruct (nru_first_loop_spec 0 blocks blocks (nru_bits p) false) as (r & -> & Hr); [lia|done|].
  cbn [mbind res_bind]. destruct r as [i|hz]; cbn [mbind res_bind].
  - rewrite Hr. apply first_invalid_lt in Hr as Hi.
    destruct (NRU_update_ok (length blocks) i (mkNRU (nru_bits p) (m_num_bits_set p) (nru_pointer p)))
      as (p' & -> & Hp'); [done..|]. cbn. done.
  - destruct Hr as [-> Hhz].
    destruct (pointer_scan_full (length blocks) (nru_test blocks (nru_bits p) hz)
      (fun w => ((nru_bits p !!! w =? 0) || negb hz) && replaceable blocks w) (nru_pointer p))
      as (o & ptr' & -> & Hp' & Hs); [lia|done|by intros; apply nru_test_ok|].
    cbn [mbind res_bind]. destruct o as [w|]; cbn [mbind res_bind].
    + destruct Hs as [Hw [Hz Hrep]%andb_true_iff].
      destruct (NRU_update_ok (length blocks) w (mkNRU (nru_bits p) (m_num_bits_set p) ptr'))
        as (p' & -> & Hwf'); [done..|]. cbn. split; [done|]. split_and!; [done..|].
      intros (u & Hu & Hbu & Hru). assert (hz = true) as -> by (apply Hhz; right; exists u; split; [lia|done]).
      rewrite orb_false_r in Hz. apply Z.eqb_eq in Hz.
      destruct (lookup_lt_is_Some_2 (nru_bits p) w) as [b Hb]; [lia|].
      rewrite (list_lookup_total_Some _ _ _ Hb) in Hz. congruence.
    + split; [done|]. intros w Hw. destruct (replaceable blocks w) eqn:Er; [|done].
      specialize (Hs w Hw) as Hsw. rewrite Er, andb_true_r in Hsw. apply orb_false_iff in Hsw as [_ Hnz].
      apply negb_false_iff in Hnz. subst hz. destruct (proj1 Hhz eq_refl) as [?|(u & Hu & Hbu & Hru)]; [done|].
      specialize (Hs u ltac:(lia)). rewrite (list_lookup_total_Some _ _ _ Hbu), Hru in Hs. done.
Qed.

Lemma nru_victim_spec_witness :
  nru_wf 3 (mkNRU [1; 1; 0] 2 2) /\ (1 < 3)%nat /\ replaceable example_blocks 1 = true /\
  ((exists w, (w < 3)%nat /\ [1; 0; 0] !! w = Some 0 /\ replaceable example_blocks w = true) ->
   [1; 0; 0] !! 1%nat = Some 0).
Proof.
  apply (nru_victim_spec example_blocks None (mkNRU [1; 0; 0] 1 1)).
  unfold nru_wf; cbn; lia.
Defined.

(** The counter [m_num_bits_set] counts accesses, not set bits: two accesses to the same way
    of a two-way set already clear all bits ("If all lru bits are set to 1 in the set, we
    make all of them 0" is what the comment says). *)
Theorem nru_counter_counts_accesses :
  exists p1 p2, NRU_updateReplacementIndex 0 tt (CacheSetNRU_new 2) = Ok (tt, p1) /\
    nru_bits p1 = [1; 0] /\
    NRU_updateReplacementIndex 0 tt p1 = Ok (tt, p2) /\ nru_bits p2 = [0; 0].
Proof. eexists _, _. split_and!; reflexivity. Qed.

(** ** The three policies meet the interface *)

Definition unit_info_wf (assoc : nat) (info : unit) : Prop := True.

Definition mru_wf (assoc : nat) (p : CacheSetMRU) : Prop :=
  length (mru_bits p) = assoc /\ exists order, lru_repr (mru_bits p) order.

Lemma MRU_update_ok assoc i info p :
  mru_wf assoc p -> unit_info_wf assoc info -> (i < assoc)%nat ->
  exists info' p', MRU_updateReplacementIndex i info p = Ok (info', p') /\
    mru_wf assoc p' /\ unit_info_wf assoc info'.
Proof.
  intros (Hl & order & Hr) _ Hi. unfold MRU_updateReplacementIndex.
  destruct (moveToMRU_touch (mru_bits p) order i Hr) as (bits' & -> & Hr' & Hl'); [lia|].
  eexists _, _. split; [done|]. split; [|done]. split; [cbn; lia|eauto].
Qed.

Lemma MRU_get_ok blocks cntlr info p v :
  mru_wf (length blocks) p -> unit_info_wf (length blocks) info ->
  MRU_getReplacementIndex blocks cntlr info p = Ok v ->
  (v_index v < length blocks)%nat /\
  mru_wf (length blocks) (v_policy v) /\ unit_info_wf (length blocks) (v_info v).
Proof.
  intros Hwf Hi H. pose proof Hwf as (Hl & order & Hr). unfold MRU_getReplacementIndex in H. res_inv H.
  assert (a < length blocks)%nat as Ha.
  { destruct (first_invalid blocks) as [i|] eqn:Ef; [simplify_eq; by apply first_invalid_lt|].
    rewrite (mru_targets_spec _ _ _ _ order) in E by (done || lia). rewrite drop_0 in E.
    destruct (head _) eqn:Eh; [|done]. simplify_eq. apply head_Some in Eh as [l El].
    assert (a ∈ filter (fun w => replaceable blocks w = true) order) as [_ Hin]%list_elem_of_filter
      by (rewrite El; apply list_elem_of_here).
    apply list_elem_of_lookup in Hin as [k Hk]. rewrite <- Hl. by eapply lru_repr_lt. }
  destruct (MRU_update_ok (length blocks) a info p Hwf Hi Ha) as (i' & p' & E' & Hp' & Hi').
  rewrite E' in E0. injection E0 as <-. cbn in H. by simplify_eq.
Qed.

#[global] Instance MRU_policy_ok : ReplacementPolicyOk CacheSetMRU unit := {
  policy_wf := mru_wf;
  info_wf := unit_info_wf;
  getReplacementIndex_ok := MRU_get_ok;
  updateReplacementIndex_ok := MRU_update_ok
}.

Lemma NMRU_update_ok assoc i info p :
  nmru_wf assoc p -> unit_info_wf assoc info -> (i < assoc)%nat ->
  exists info' p', NMRU_updateReplacementIndex i info p = Ok (info', p') /\
    nmru_wf assoc p' /\ unit_info_wf assoc info'.
Proof.
  intros (Hl & (order & Hr) & Ha & Hp) _ Hi. unfold NMRU_updateReplacementIndex.
  destruct (moveToMRU_touch (nmru_bits p) order i Hr) as (bits' & -> & Hr' & Hl'); [lia|].
  eexists _, _. split; [done|]. split; [|done]. split; [cbn; lia|]. split; [eauto|done].
Qed.

Lemma NMRU_get_ok blocks cntlr info p v :
  nmru_wf (length blocks) p -> unit_info_wf (length blocks) info ->
  NMRU_getReplacementIndex blocks cntlr info p = Ok v ->
  (v_index v < length blocks)%nat /\
  nmru_wf (length blocks) (v_policy v) /\ unit_info_wf (length blocks) (v_info v).
Proof.
  intros Hwf Hi H. pose proof Hwf as (Hl & (order & Hr) & Ha & Hp).
  unfold NMRU_getReplacementIndex in H. res_inv H. destruct a as [i ptr].
  assert ((i < length blocks)%nat /\ 0 <= ptr < Z.of_nat (length blocks)) as [Hlt Hptr].
  { destruct (first_invalid blocks) as [j|] eqn:Ef; [simplify_eq; split; [by apply first_invalid_lt|done]|].
    destruct (pointer_scan_full (length blocks) (nmru_test blocks (nmru_bits p))
      (fun w => negb (nmru_bits p !!! w =? 0) && replaceable blocks w) (nmru_pointer p))
      as (o & ptr' & E' & Hp' & Hs); [destruct Hr as (? & ? & _); lia|done|by intros; apply nmru_test_ok|].
    rewrite E' in E. cbn in E. destruct o; [|done]. simplify_eq. naive_solver. }
  destruct (NMRU_update_ok (length blocks) i info (mkNMRU (nmru_bits p) ptr)) as (i' & p' & E' & Hp' & Hi');
    [split; eauto|done..|].
  rewrite E' in H. cbn in H. by simplify_eq.
Qed.

#[global] Instance NMRU_policy_ok : ReplacementPolicyOk CacheSetNMRU unit := {
  policy_wf := nmru_wf;
  info_wf := unit_info_wf;
  getReplacementIndex_ok := NMRU_get_ok;
  updateReplacementIndex_ok := NMRU_update_ok
}.

Lemma NRU_update_ok' assoc i info p :
  nru_wf assoc p -> unit_info_wf assoc info -> (i < assoc)%nat ->
  exists info' p', NRU_updateReplacementIndex i info p = Ok (info', p') /\
    nru_wf assoc p' /\ unit_info_wf assoc info'.
Proof.
  intros Hwf _ Hi. destruct info. destruct (NRU_update_ok assoc i p Hwf Hi) as (p' & E & Hp').
  by exists tt, p'.
Qed.

Lemma NRU_get_ok blocks cntlr info p v :
  nru_wf (length blocks) p -> unit_info_wf (length blocks) info ->
  NRU_getReplacementIndex blocks cntlr info p = Ok v ->
  (v_index v < length blocks)%nat /\
  nru_wf (length blocks) (v_policy v) /\ unit_info_wf (length blocks) (v_info v).
Proof.
  intros Hwf Hi H. destruct info. pose proof Hwf as (Hl & Ha & Hp).
  unfold NRU_getReplacementIndex in H. res_inv H.
  destruct (nru_first_loop_spec 0 blocks blocks (nru_bits p) false) as (r & E' & Hr); [lia|done|].
  rewrite E' in E. injection E as <-. destruct a0 as [i ptr].
  assert ((i < length blocks)%nat /\ 0 <= ptr < Z.of_nat (length blocks)) as [Hlt Hptr].
  { destruct r as [j|hz]; [simplify_eq; split; [by apply first_invalid_lt|done]|].
    destruct (pointer_scan_full (length blocks) (nru_test blocks (nru_bits p) hz)
      (fun w => ((nru_bits p !!! w =? 0) || negb hz) && replaceable blocks w) (nru_pointer p))
      as (o & ptr' & E2 & Hp' & Hs); [lia|done|by intros; apply nru_test_ok|].
    rewrite E2 in E0. cbn in E0. destruct o; [|done]. simplify_eq. naive_solver. }
  destruct (NRU_update_ok (length blocks) i (mkNRU (nru_bits p) (m_num_bits_set p) ptr)) as (p' & E2 & Hp'); [done..|].
  rewrite E2 in H. cbn in H. by simplify_eq.
Qed.

#[global] Instance NRU_policy_ok : ReplacementPolicyOk CacheSetNRU unit := {
  policy_wf := nru_wf;
  info_wf := unit_info_wf;
  getReplacementIndex_ok := NRU_get_ok;
  updateReplacementIndex_ok := NRU_update_ok'
}.
