(* ===== verification/CacheSetPLRU.v ===== *)
(** * Tree pseudo-LRU, round-robin and random replacement

    Models src/common/core/memory_subsystem/cache/cache_set_plru.cc,
    cache_set_round_robin.cc and cache_set_random.cc. *)

From S2P Require Import Prelude Utils CacheBlockInfo CacheSet LruBits CacheSetLRU CacheSetMRU.

(** ** PLRU: seven tree bits (of the eight allocated), for 4 or 8 ways *)

Record CacheSetPLRU := mkPLRU { plru_assoc : nat; plru_b : list Z (* UInt8[8] *) }.

Definition CacheSetPLRU_new (assoc : nat) : res CacheSetPLRU :=
  _ ← assert_ ((assoc =? 4)%nat || (assoc =? 8)%nat);
  Ok (mkPLRU assoc (replicate 8 0)).

(** The assignments [b[k] = x] of one branch of [updateReplacementIndex]. *)
Definition set_bits (l : list (Z * Z)) (b : list Z) : list Z :=
  foldl (fun b '(k, x) => <[Z.to_nat k := x]> b) b l.

Definition plru_update (assoc : nat) (accessed_index : nat) (b : list Z) : res (list Z) :=
  match assoc with
  | 4%nat => Ok (match accessed_index with
      | 0%nat => set_bits [(0, 1); (1, 1)] b
      | 1%nat => set_bits [(0, 1); (1, 0)] b
      | 2%nat => set_bits [(0, 0); (2, 1)] b
      | 3%nat => set_bits [(0, 0); (2, 0)] b
      | _ => b
      end)
  | 8%nat => Ok (match accessed_index with
      | 0%nat => set_bits [(0, 1); (1, 1); (2, 1)] b
      | 1%nat => set_bits [(0, 1); (1, 1); (2, 0)] b
      | 2%nat => set_bits [(0, 1); (1, 0); (3, 1)] b
      | 3%nat => set_bits [(0, 1); (1, 0); (3, 0)] b
      | 4%nat => set_bits [(0, 0); (4, 1); (5, 1)] b
      | 5%nat => set_bits [(0, 0); (4, 1); (5, 0)] b
      | 6%nat => set_bits [(0, 0); (4, 0); (6, 1)] b
      | 7%nat => set_bits [(0, 0); (4, 0); (6, 0)] b
      | _ => b
      end)
  | _ => Err LogError
  end.

Definition plru_victim (assoc : nat) (b : list Z) : res nat :=
  let z k := b !!! k =? 0 in
  match assoc with
  | 4%nat => Ok (if z 0%nat then (if z 1%nat then 0 else 1) else (if z 2%nat then 2 else 3))%nat
  | 8%nat => Ok (if z 0%nat
      then (if z 1%nat then (if z 2%nat then 0 else 1) else (if z 3%nat then 2 else 3))
      else (if z 4%nat then (if z 5%nat then 4 else 5) else (if z 6%nat then 6 else 7)))%nat
  | _ => Err LogError
  end.

Definition PLRU_updateReplacementIndex (accessed_index : nat) (info : unit) (p : CacheSetPLRU)
  : res (unit * CacheSetPLRU) :=
  b ← plru_update (plru_assoc p) accessed_index (plru_b p);
  Ok (info, mkPLRU (plru_assoc p) b).

Definition PLRU_getReplacementIndex (blocks : list CacheBlockInfo) (cntlr : option CacheCntlr)
    (info : unit) (p : CacheSetPLRU) : res (Victim CacheSetPLRU unit) :=
  i ← match first_invalid blocks with
      | Some i => Ok i
      | None =>
          retValue ← plru_victim (plru_assoc p) (plru_b p);
          v ← isValidReplacement blocks retValue;
          _ ← assert_ v;
          Ok retValue
      end;
  '(info, p) ← PLRU_updateReplacementIndex i info p;
  Ok (mkVictim i 0 info p).

#[global] Instance PLRU_policy : ReplacementPolicy CacheSetPLRU unit := {
  getReplacementIndex := PLRU_getReplacementIndex;
  updateReplacementIndex := PLRU_updateReplacementIndex
}.

(** ** Round robin *)

Record CacheSetRoundRobin := mkRR { m_replacement_index : Z }.

Definition CacheSetRoundRobin_new (assoc : nat) : CacheSetRoundRobin := mkRR (u32 (Z.of_nat assoc - 1)).

(** The method calls itself until the *next* index is replaceable; [fuel] bounds the calls. *)
Fixpoint rr_get (fuel : nat) (blocks : list CacheBlockInfo) (m : Z) : res (nat * Z) :=
  match fuel with
  | O => Err OutOfFuel
  | S fuel =>
      let curr_replacement_index := m in
      let m := if m =? 0 then u32 (Z.of_nat (length blocks) - 1) else m - 1 in
      v ← isValidReplacement blocks (Z.to_nat m);
      if v : bool then Ok (Z.to_nat curr_replacement_index, m) else rr_get fuel blocks m
  end.

(** One turn around the set is enough fuel: [rr_get_total]. *)
Definition RR_getReplacementIndex (blocks : list CacheBlockInfo) (cntlr : option CacheCntlr)
    (info : unit) (p : CacheSetRoundRobin) : res (Victim CacheSetRoundRobin unit) :=
  '(i, m) ← rr_get (length blocks) blocks (m_replacement_index p);
  Ok (mkVictim i 0 info (mkRR m)).

Definition RR_updateReplacementIndex (accessed_index : nat) (info : unit) (p : CacheSetRoundRobin)
  : res (unit * CacheSetRoundRobin) := Ok (info, p).

#[global] Instance RR_policy : ReplacementPolicy CacheSetRoundRobin unit := {
  getReplacementIndex := RR_getReplacementIndex;
  updateReplacementIndex := RR_updateReplacementIndex
}.

(** ** Random: the state is the generator's seed; [fuel] bounds the retries *)

Record CacheSetRandom := mkRandom { rand_fuel : nat; m_rand : Z }.

Fixpoint random_get (fuel : nat) (blocks : list CacheBlockInfo) (seed : Z) : res (nat * Z) :=
  match fuel with
  | O => Err OutOfFuel
  | S fuel =>
      if (length blocks =? 0)%nat then Err DivByZero else
      let '(r, seed) := random_next seed 32768 in
      let index := Z.to_nat (r mod Z.of_nat (length blocks)) in
      v ← isValidReplacement blocks index;
      if v : bool then Ok (index, seed) else random_get fuel blocks seed
  end.

Definition Random_getReplacementIndex (blocks : list CacheBlockInfo) (cntlr : option CacheCntlr)
    (info : unit) (p : CacheSetRandom) : res (Victim CacheSetRandom unit) :=
  match first_invalid blocks with
  | Some i => Ok (mkVictim i 0 info p)
  | None =>
      '(i, seed) ← random_get (rand_fuel p) blocks (m_rand p);
      Ok (mkVictim i 0 info (mkRandom (rand_fuel p) seed))
  end.

Definition Random_updateReplacementIndex (accessed_index : nat) (info : unit) (p : CacheSetRandom)
  : res (unit * CacheSetRandom) := Ok (info, p).

#[global] Instance Random_policy : ReplacementPolicy CacheSetRandom unit := {
  getReplacementIndex := Random_getReplacementIndex;
  updateReplacementIndex := Random_updateReplacementIndex
}.

(** ** PLRU properties by exhaustive evaluation over the tree bits *)

Definition plru_wf (assoc : nat) (p : CacheSetPLRU) : Prop :=
  plru_assoc p = assoc /\ (assoc = 4 \/ assoc = 8)%nat /\
  length (plru_b p) = 8%nat /\ Forall (fun x => x = 0 \/ x = 1) (plru_b p).

Fixpoint all_bits (n : nat) : list (list Z) :=
  match n with
  | O => [[]]
  | S n => (cons 0 <$> all_bits n) ++ (cons 1 <$> all_bits n)
  end.

Lemma all_bits_complete b : Forall (fun x => x = 0 \/ x = 1) b -> b ∈ all_bits (length b).
Proof.
  induction 1 as [|x b Hx Hb IH]; [apply list_elem_of_here|]. cbn [all_bits length].
  apply elem_of_app. destruct Hx as [-> | ->]; [left|right]; by apply list_elem_of_fmap_2.
Qed.

(** A decidable statement that holds of all bit vectors and all ways holds in general. *)
Lemma plru_exhaust (f : list Z -> nat -> bool) n b w :
  forallb (fun b => forallb (f b) (seq 0 n)) (all_bits 8) = true ->
  length b = 8%nat -> Forall (fun x => x = 0 \/ x = 1) b -> (w < n)%nat -> f b w = true.
Proof.
  intros Hall Hl HF Hw. apply all_bits_complete in HF. rewrite Hl in HF.
  rewrite forallb_forall in Hall. apply list_elem_of_In, Hall in HF.
  rewrite forallb_forall in HF. apply HF, in_seq. lia.
Qed.

(** The accesses [ws] in turn, on the tree bits. *)
Fixpoint plru_accesses (assoc : nat) (ws : list nat) (b : list Z) : res (list Z) :=
  match ws with
  | [] => Ok b
  | w :: ws => b ← plru_update assoc w b; plru_accesses assoc ws b
  end.

(** [n] misses in a row with every way valid and replaceable: the victims in order. *)
Fixpoint plru_misses (n assoc : nat) (b : list Z) : res (list nat) :=
  match n with
  | O => Ok []
  | S n =>
      v ← plru_victim assoc b;
      b ← plru_update assoc v b;
      vs ← plru_misses n assoc b;
      Ok (v :: vs)
  end.

Definition res_eqb (r : res (list nat)) (test : list nat -> bool) : bool :=
  match r with Ok l => test l | Err _ => false end.

Definition misses_check (assoc : nat) (b : list Z) (w : nat) : bool :=
  match plru_update assoc w b with
  | Ok b => res_eqb (plru_misses assoc assoc b)
      (fun vs => bool_decide (NoDup vs) && bool_decide (last vs = Some w))
  | Err _ => false
  end.

(** After an access to way [w], the next [assoc] misses evict every way exactly once, and [w]
    itself last. *)
Theorem plru_misses_cycle (assoc : nat) (p : CacheSetPLRU) (w : nat) :
  plru_wf assoc p -> (w < assoc)%nat ->
  exists b vs, plru_update assoc w (plru_b p) = Ok b /\
    plru_misses assoc assoc b = Ok vs /\ length vs = assoc /\ NoDup vs /\ last vs = Some w.
Proof.
  intros (Ea & Ha & Hl & HF) Hw.
  assert (misses_check assoc (plru_b p) w = true) as Hc.
  { eapply (plru_exhaust (misses_check assoc) assoc); [|done..].
    destruct Ha as [-> | ->]; vm_compute; reflexivity. }
  unfold misses_check in Hc. destruct (plru_update _ _ _) as [b|]; [|done].
  assert (forall n b vs, plru_misses n assoc b = Ok vs -> length vs = n) as Hlen.
  { clear. intros n. induction n as [|n IH]; intros b vs H; cbn in H; [by simplify_eq|].
    res_inv H. simplify_eq. cbn. f_equal. by eapply IH. }
  destruct (plru_misses assoc assoc b) as [vs|] eqn:Ev; [|done]. cbn in Hc.
  apply andb_true_iff in Hc as [Hn%bool_decide_eq_true Hlast%bool_decide_eq_true].
  eauto 10.
Qed.

Lemma plru_misses_cycle_witness :
  exists b vs, plru_update 8 5 (replicate 8 0) = Ok b /\
    plru_misses 8 8 b = Ok vs /\ length vs = 8%nat /\ NoDup vs /\ last vs = Some 5%nat.
Proof.
  apply (plru_misses_cycle 8 (mkPLRU 8 (replicate 8 0))); [|lia].
  split; [reflexivity|]. split; [auto|]. split; [reflexivity|].
  repeat constructor; auto.
Defined.

Definition protect_check (assoc : nat) (ws : list nat) (b : list Z) (w : nat) : bool :=
  match (b ← plru_update assoc w b; b ← plru_accesses assoc ws b; plru_victim assoc b) with
  | Ok v => negb (v =? w)%nat
  | Err _ => false
  end.

(** An accessed way survives: after an access to way [w] and fewer than log2(assoc) further
    accesses to any ways, the victim that PLRU selects is another way. *)
Theorem plru_protects_recent (assoc : nat) (p : CacheSetPLRU) (w : nat) (ws : list nat) :
  plru_wf assoc p -> (w < assoc)%nat -> Forall (fun x => (x < assoc)%nat) ws ->
  Z.of_nat (length ws) < Z.log2 (Z.of_nat assoc) ->
  exists b v, plru_accesses assoc (w :: ws) (plru_b p) = Ok b /\
    plru_victim assoc b = Ok v /\ v <> w.
Proof.
  intros (Ea & Ha & Hl & HF) Hw Hws Hlen.
  assert (protect_check assoc ws (plru_b p) w = true) as Hc.
  { eapply (plru_exhaust (protect_check assoc ws) assoc); [|done..].
    destruct Ha as [-> | ->].
    - change (Z.log2 (Z.of_nat 4)) with 2 in Hlen.
      destruct ws as [|x [|y ws]]; [vm_compute; reflexivity| |cbn in Hlen; lia].
      apply Forall_cons in Hws as [Hx _].
      do 4 (destruct x as [|x]; [vm_compute; reflexivity|]). lia.
    - change (Z.log2 (Z.of_nat 8)) with 3 in Hlen.
      destruct ws as [|x [|y [|z ws]]]; [vm_compute; reflexivity| | |cbn in Hlen; lia].
      + apply Forall_cons in Hws as [Hx _].
        do 8 (destruct x as [|x]; [vm_compute; reflexivity|]). lia.
      + apply Forall_cons in Hws as [Hx [Hy _]%Forall_cons].
        do 8 (destruct x as [|x];
          [do 8 (destruct y as [|y]; [vm_compute; reflexivity|]); lia|]). lia. }
  unfold protect_check in Hc. cbn [plru_accesses].
  destruct (plru_update assoc w (plru_b p)) as [b|]; [|done]. cbn [mbind res_bind] in *.
  destruct (plru_accesses assoc ws b) as [b'|] eqn:Eb; [|done]. cbn [mbind res_bind] in *.
  destruct (plru_victim assoc b') as [v|] eqn:Ev; [|done].
  exists b', v. split; [done|]. split; [done|]. apply negb_true_iff, Nat.eqb_neq in Hc. done.
Qed.

Lemma plru_protects_recent_witness :
  exists b v, plru_accesses 8 [3; 0; 6]%nat (replicate 8 0) = Ok b /\
    plru_victim 8 b = Ok v /\ v <> 3%nat.
Proof.
  apply (plru_protects_recent 8 (mkPLRU 8 (replicate 8 0)) 3 [0; 6]%nat); [|lia| |reflexivity].
  - split; [reflexivity|]. split; [auto|]. split; [reflexivity|]. repeat constructor; auto.
  - repeat constructor.
Defined.

(** ** Round robin: the recursion ends within one turn *)

Definition rr_wf (assoc : nat) (p : CacheSetRoundRobin) : Prop :=
  (0 < assoc)%nat /\ Z.of_nat assoc < 2 ^ 32 /\ 0 <= m_replacement_index p < Z.of_nat assoc.

Definition rr_prev (assoc : nat) (m : Z) : Z := (m - 1) mod Z.of_nat assoc.

Lemma rr_prev_step assoc m :
  (0 < assoc)%nat -> Z.of_nat assoc < 2 ^ 32 -> 0 <= m < Z.of_nat assoc ->
  (if m =? 0 then u32 (Z.of_nat assoc - 1) else m - 1) = rr_prev assoc m.
Proof.
  intros Ha Hb Hm. unfold rr_prev. destruct (Z.eqb_spec m 0) as [->|].
  - rewrite wrap_small by lia. apply (Z.mod_unique _ _ (-1)); lia.
  - by rewrite Z.mod_small by lia.
Qed.

Lemma rr_get_spec fuel blocks m :
  (0 < length blocks)%nat -> Z.of_nat (length blocks) < 2 ^ 32 -> 0 <= m < Z.of_nat (length blocks) ->
  match rr_get fuel blocks m with
  | Ok (i, m') => (i < length blocks)%nat /\ m' = rr_prev (length blocks) (Z.of_nat i) /\ replaceable blocks (Z.to_nat m') = true /\ 0 <= m' < Z.of_nat (length blocks)
  | Err e => e = OutOfFuel /\ forall j, 1 <= j <= Z.of_nat fuel ->
      replaceable blocks (Z.to_nat ((m - j) mod Z.of_nat (length blocks))) = false
  end.
Proof.
  intros H0 Hb. revert m. induction fuel as [|fuel IH]; intros m Hm; cbn [rr_get].
  { split; [done|]. intros; lia. }
  rewrite rr_prev_step by done.
  assert (0 <= rr_prev (length blocks) m < Z.of_nat (length blocks)) as Hr
    by (apply Z.mod_pos_bound; lia).
  rewrite isValidReplacement_ok by lia. cbn [mbind res_bind].
  destruct (replaceable blocks _) eqn:Er.
  { rewrite Z2Nat.id by lia. split_and!; try done; lia. }
  specialize (IH _ Hr). destruct (rr_get fuel blocks _) as [[i m']|e]; [done|].
  destruct IH as [-> IH]. split; [done|]. intros j Hj. destruct (decide (j = 1)) as [->|]; [done|].
  specialize (IH (j - 1) ltac:(lia)). unfold rr_prev in IH. rewrite Zminus_mod_idemp_l in IH.
  by replace (m - 1 - (j - 1)) with (m - j) in IH by lia.
Qed.

(** Round-robin replacement terminates within one turn around the set whenever some way may be
    replaced, and then stops with the pointer on a replaceable way; with none it never
    returns, whatever the number of calls. *)
Theorem rr_terminates (blocks : list CacheBlockInfo) (cntlr : option CacheCntlr) (p : CacheSetRoundRobin) :
  rr_wf (length blocks) p ->
  ((exists w, (w < length blocks)%nat /\ replaceable blocks w = true) ->
   exists v, RR_getReplacementIndex blocks cntlr tt p = Ok v /\ (v_index v < length blocks)%nat /\
     replaceable blocks (Z.to_nat (m_replacement_index (v_policy v))) = true) /\
  ((forall w, (w < length blocks)%nat -> replaceable blocks w = false) ->
   forall fuel, rr_get fuel blocks (m_replacement_index p) = Err OutOfFuel).
Proof.
  intros (Ha & Hb & Hm). split.
  - intros (w & Hw & Hr). unfold RR_getReplacementIndex.
    pose proof (rr_get_spec (length blocks) blocks (m_replacement_index p) Ha Hb Hm) as Hs.
    destruct (rr_get _ _ _) as [[i m']|e]; [eexists; split; [done|]; naive_solver|].
    destruct Hs as [_ Hs]. exfalso.
    set (n := Z.of_nat (length blocks)) in *. set (m := m_replacement_index p) in *.
    pose proof (Z.mod_pos_bound (m - 1 - Z.of_nat w) n ltac:(lia)) as Hmb.
    specialize (Hs ((m - 1 - Z.of_nat w) mod n + 1) ltac:(lia)).
    replace (m - ((m - 1 - Z.of_nat w) mod n + 1)) with (m - 1 - (m - 1 - Z.of_nat w) mod n) in Hs by lia.
    rewrite Zminus_mod_idemp_r in Hs. replace (m - 1 - (m - 1 - Z.of_nat w)) with (Z.of_nat w) in Hs by lia.
    rewrite Z.mod_small, Nat2Z.id in Hs by lia. congruence.
  - intros Hall fuel. pose proof (rr_get_spec fuel blocks (m_replacement_index p) Ha Hb Hm) as Hs.
    destruct (rr_get _ _ _) as [[i m']|e]; [|by destruct Hs as [-> _]].
    destruct Hs as (_ & _ & Hr & Hm'). rewrite Hall in Hr by lia. done.
Qed.

Lemma rr_terminates_witness :
  ((exists w, (w < 3)%nat /\ replaceable example_blocks w = true) ->
   exists v, RR_getReplacementIndex example_blocks None tt (CacheSetRoundRobin_new 3) = Ok v /\
     (v_index v < 3)%nat /\
     replaceable example_blocks (Z.to_nat (m_replacement_index (v_policy v))) = true) /\
  ((forall w, (w < 3)%nat -> replaceable example_blocks w = false) ->
   forall fuel, rr_get fuel example_blocks 2 = Err OutOfFuel).
Proof.
  apply (rr_terminates example_blocks None (CacheSetRoundRobin_new 3)).
  unfold rr_wf. cbn. split; [lia|]. vm_compute. intuition congruence.
Defined.

(** The method tests the way that the pointer moves to, but returns the way it moved from: the
    victim may be waiting for an upgrade. *)
Theorem rr_may_pick_upgrading :
  exists blocks v,
    RR_getReplacementIndex blocks None tt (CacheSetRoundRobin_new 2) = Ok v /\
    isValidReplacement blocks (v_index v) = Ok false.
Proof.
  exists [example_block 10 SHARED; example_block 11 SHARED_UPGRADING].
  eexists. split; [vm_compute; reflexivity|]. reflexivity.
Qed.

(** ** Random *)

Definition random_wf (assoc : nat) (p : CacheSetRandom) : Prop := True.

Lemma random_get_spec fuel blocks seed i seed' :
  random_get fuel blocks seed = Ok (i, seed') ->
  (i < length blocks)%nat /\ replaceable blocks i = true.
Proof.
  revert seed. induction fuel as [|fuel IH]; intros seed H; [done|]. cbn [random_get] in H.
  destruct (Nat.eqb_spec (length blocks) 0); [done|].
  destruct (random_next seed 32768) as [r s].
  pose proof (Z.mod_pos_bound r (Z.of_nat (length blocks)) ltac:(lia)).
  rewrite isValidReplacement_ok in H by lia. cbn [mbind res_bind] in H.
  destruct (replaceable blocks (Z.to_nat _)) eqn:Er; [|by apply (IH s)].
  simplify_eq. split; [lia|done].
Qed.

(** ** The policies meet the interface *)

Lemma plru_update_ok assoc w b :
  (assoc = 4 \/ assoc = 8)%nat -> length b = 8%nat -> Forall (fun x => x = 0 \/ x = 1) b ->
  exists b', plru_update assoc w b = Ok b' /\ length b' = 8%nat /\ Forall (fun x => x = 0 \/ x = 1) b'.
Proof.
  intros Ha Hl HF.
  assert (forall l, Forall (fun kx : Z * Z => kx.2 = 0 \/ kx.2 = 1) l ->
    length (set_bits l b) = 8%nat /\ Forall (fun x => x = 0 \/ x = 1) (set_bits l b)) as Hset.
  { intros l Hl'. revert b Hl HF. induction Hl' as [|[k x] l Hx Hl' IH]; intros b Hl HF; [done|].
    cbn. apply IH; [by rewrite length_insert|]. by apply Forall_insert. }
  destruct Ha as [-> | ->]; cbn [plru_update]; eexists; (split; [reflexivity|]).
  - do 4 (destruct w as [|w]; [apply Hset; repeat constructor; auto|]). done.
  - do 8 (destruct w as [|w]; [apply Hset; repeat constructor; auto|]). done.
Qed.

Lemma PLRU_update_ok assoc i info p :
  plru_wf assoc p -> unit_info_wf assoc info -> (i < assoc)%nat ->
  exists info' p', PLRU_updateReplacementIndex i info p = Ok (info', p') /\
    plru_wf assoc p' /\ unit_info_wf assoc info'.
Proof.
  intros (Ea & Ha & Hl & HF) _ Hi. unfold PLRU_updateReplacementIndex. rewrite Ea.
  destruct (plru_update_ok assoc i (plru_b p) Ha Hl HF) as (b & -> & Hl' & HF').
  eexists _, _. done.
Qed.

Lemma PLRU_get_ok blocks cntlr info p v :
  plru_wf (length blocks) p -> unit_info_wf (length blocks) info ->
  PLRU_getReplacementIndex blocks cntlr info p = Ok v ->
  (v_index v < length blocks)%nat /\
  plru_wf (length blocks) (v_policy v) /\ unit_info_wf (length blocks) (v_info v).
Proof.
  intros Hwf Hi H. unfold PLRU_getReplacementIndex in H. res_inv H.
  assert (a < length blocks)%nat as Ha.
  { destruct (first_invalid blocks) as [j|] eqn:Ef; [simplify_eq; by apply first_invalid_lt|].
    res_inv E. simplify_eq. unfold isValidReplacement in E2. res_inv E2.
    apply aget_ok, lookup_lt_Some in E. done. }
  destruct (PLRU_update_ok (length blocks) a info p Hwf Hi Ha) as (i' & p' & E' & Hp' & Hi').
  rewrite E' in E0. injection E0 as <-. cbn in H. by simplify_eq.
Qed.

#[global] Instance PLRU_policy_ok : ReplacementPolicyOk CacheSetPLRU unit := {
  policy_wf := plru_wf;
  info_wf := unit_info_wf;
  getReplacementIndex_ok := PLRU_get_ok;
  updateReplacementIndex_ok := PLRU_update_ok
}.

Lemma RR_update_ok assoc i info p :
  rr_wf assoc p -> unit_info_wf assoc info -> (i < assoc)%nat ->
  exists info' p', RR_updateReplacementIndex i info p = Ok (info', p') /\
    rr_wf assoc p' /\ unit_info_wf assoc info'.
Proof. intros. by eexists _, _. Qed.

Lemma RR_get_ok blocks cntlr info p v :
  rr_wf (length blocks) p -> unit_info_wf (length blocks) info ->
  RR_getReplacementIndex blocks cntlr info p = Ok v ->
  (v_index v < length blocks)%nat /\
  rr_wf (length blocks) (v_policy v) /\ unit_info_wf (length blocks) (v_info v).
Proof.
  intros (Ha & Hb & Hm) Hi H. unfold RR_getReplacementIndex in H.
  pose proof (rr_get_spec (length blocks) blocks (m_replacement_index p) Ha Hb Hm) as Hs.
  destruct (rr_get _ _ _) as [[i m']|e]; [|done]. cbn in H. simplify_eq. cbn.
  unfold rr_wf. cbn. naive_solver.
Qed.

#[global] Instance RR_policy_ok : ReplacementPolicyOk CacheSetRoundRobin unit := {
  policy_wf := rr_wf;
  info_wf := unit_info_wf;
  getReplacementIndex_ok := RR_get_ok;
  updateReplacementIndex_ok := RR_update_ok
}.

Lemma Random_update_ok assoc i info p :
  random_wf assoc p -> unit_info_wf assoc info -> (i < assoc)%nat ->
  exists info' p', Random_updateReplacementIndex i info p = Ok (info', p') /\
    random_wf assoc p' /\ unit_info_wf assoc info'.
Proof. intros. by eexists _, _. Qed.

Lemma Random_get_ok blocks cntlr info p v :
  random_wf (length blocks) p -> unit_info_wf (length blocks) info ->
  Random_getReplacementIndex blocks cntlr info p = Ok v ->
  (v_index v < length blocks)%nat /\
  random_wf (length blocks) (v_policy v) /\ unit_info_wf (length blocks) (v_info v).
Proof.
  intros _ _ H. unfold Random_getReplacementIndex in H.
  destruct (first_invalid blocks) as [j|] eqn:Ef; [simplify_eq; cbn; by apply first_invalid_lt in Ef|].
  res_inv H. destruct a as [i s]. simplify_eq. cbn. by apply random_get_spec in E as [? _].
Qed.

#[global] Instance Random_policy_ok : ReplacementPolicyOk CacheSetRandom unit := {
  policy_wf := random_wf;
  info_wf := unit_info_wf;
  getReplacementIndex_ok := Random_get_ok;
  updateReplacementIndex_ok := Random_update_ok
}.
