(* ===== verification/CacheSetSRRIP.v ===== *)
(** * Static re-reference interval prediction (SRRIP)

    Models src/common/core/memory_subsystem/cache/cache_set_srrip.{h,cc}, with
    query-based selection.  Without it the policy is shown to evict the way
    with the highest prediction value, first from the replacement pointer, and
    to age all other ways by the same amount. *)

From S2P Require Import Prelude CacheBlockInfo CacheSet LruBits CacheSetLRU CacheSetMRU.

Record CacheSetSRRIP := mkSRRIP {
  m_rrip_max : Z;
  m_rrip_insert : Z;
  srrip_num_attempts : Z;
  m_rrip_bits : list Z;
  srrip_pointer : Z
}.

(** [numbits] is read from the configuration ([srrip/bits]). *)
Definition CacheSetSRRIP_new (numbits : Z) (assoc : nat) (num_attempts : Z) : CacheSetSRRIP :=
  let max := u8 (Z.shiftl 1 numbits - 1) in
  let ins := u8 (max - 1) in
  mkSRRIP max ins num_attempts (replicate assoc ins) 0.

Definition srrip_with (p : CacheSetSRRIP) (bits : list Z) (ptr : Z) : CacheSetSRRIP :=
  mkSRRIP (m_rrip_max p) (m_rrip_insert p) (srrip_num_attempts p) bits ptr.

(** The loop variables of [getReplacementIndex] that survive a turn. *)
Record srrip_state := mkSt { st_attempt : Z; st_bits : list Z; st_ptr : Z; st_lookups : nat }.

(** One turn of the inner loop, [k] iterations left: [inl] is the victim that the method
    returns, [inr] the state when the turn ends without one. *)
Fixpoint srrip_turn (k : nat) (blocks : list CacheBlockInfo) (cntlr : option CacheCntlr)
    (info : CacheSetInfoLRU) (p : CacheSetSRRIP) (s : srrip_state)
  : res (Victim CacheSetSRRIP CacheSetInfoLRU + srrip_state) :=
  match k with
  | O => Ok (inr s)
  | S k =>
      b ← aget (st_bits s) (Z.to_nat (st_ptr s));
      let next := next_pointer (length blocks) (st_ptr s) in
      if m_rrip_max p <=? b then
        let index := Z.to_nat (st_ptr s) in
        qbs_reject ← (if st_attempt s <? srrip_num_attempts p - 1 then
                        match cntlr with
                        | Some c => blk ← aget blocks index; Ok (isInLowerLevelCache c blk)
                        | None => Err AssertFailed
                        end
                      else Ok false);
        if qbs_reject : bool then
          bits ← aset (st_bits s) index 0;
          srrip_turn k blocks cntlr info p
            (mkSt (u8 (st_attempt s + 1)) bits (st_ptr s) (S (st_lookups s)))
        else
          bits ← aset (st_bits s) index (m_rrip_insert p);
          info ← incrementAttempt info (st_attempt s);
          v ← isValidReplacement blocks index;
          _ ← assert_ v;
          Ok (inl (mkVictim index (st_lookups s) info (srrip_with p bits next)))
      else
        srrip_turn k blocks cntlr info p (mkSt (st_attempt s) (st_bits s) next (st_lookups s))
  end.

(** [if (m_rrip_bits[i] < m_rrip_max) m_rrip_bits[i]++] for every way. *)
Definition srrip_age (max : Z) (bits : list Z) : list Z :=
  (fun b => if b <? max then u8 (b + 1) else b) <$> bits.

(** [for (j = 0; j <= m_rrip_max; ++j)], [k] rounds left. *)
Fixpoint srrip_rounds (k : nat) (blocks : list CacheBlockInfo) (cntlr : option CacheCntlr)
    (info : CacheSetInfoLRU) (p : CacheSetSRRIP) (s : srrip_state)
  : res (Victim CacheSetSRRIP CacheSetInfoLRU) :=
  match k with
  | O => Err LogError
  | S k =>
      r ← srrip_turn (length blocks) blocks cntlr info p s;
      match r with
      | inl v => Ok v
      | inr s =>
          srrip_rounds k blocks cntlr info p
            (mkSt (st_attempt s) (srrip_age (m_rrip_max p) (st_bits s)) (st_ptr s) (st_lookups s))
      end
  end.

Definition SRRIP_getReplacementIndex (blocks : list CacheBlockInfo) (cntlr : option CacheCntlr)
    (info : CacheSetInfoLRU) (p : CacheSetSRRIP) : res (Victim CacheSetSRRIP CacheSetInfoLRU) :=
  match first_invalid blocks with
  | Some i =>
      bits ← aset (m_rrip_bits p) i (m_rrip_insert p);
      Ok (mkVictim i 0 info (srrip_with p bits (srrip_pointer p)))
  | None =>
      srrip_rounds (Z.to_nat (m_rrip_max p + 1)) blocks cntlr info p
        (mkSt 0 (m_rrip_bits p) (srrip_pointer p) 0)
  end.

Definition SRRIP_updateReplacementIndex (accessed_index : nat) (info : CacheSetInfoLRU)
    (p : CacheSetSRRIP) : res (CacheSetInfoLRU * CacheSetSRRIP) :=
  b ← aget (m_rrip_bits p) accessed_index;
  info ← increment info b;
  if 0 <? b then
    bits ← aset (m_rrip_bits p) accessed_index (b - 1);
    Ok (info, srrip_with p bits (srrip_pointer p))
  else Ok (info, p).

#[global] Instance SRRIP_policy : ReplacementPolicy CacheSetSRRIP CacheSetInfoLRU := {
  getReplacementIndex := SRRIP_getReplacementIndex;
  updateReplacementIndex := SRRIP_updateReplacementIndex
}.

(** ** Invariant: predictions stay between 0 and the maximum

    [increment] indexes the per-associativity statistics with a prediction value,
    so the maximum must be a way number. *)

Definition bits_ok (max : Z) (bits : list Z) : Prop := Forall (fun b => 0 <= b <= max) bits.

Definition srrip_wf (assoc : nat) (p : CacheSetSRRIP) : Prop :=
  (0 < assoc <= 256)%nat /\ 1 <= m_rrip_max p < Z.of_nat assoc /\
  m_rrip_insert p = m_rrip_max p - 1 /\
  length (m_rrip_bits p) = assoc /\ bits_ok (m_rrip_max p) (m_rrip_bits p) /\
  0 <= srrip_pointer p < Z.of_nat assoc.

Definition state_ok (assoc : nat) (max : Z) (s : srrip_state) : Prop :=
  length (st_bits s) = assoc /\ bits_ok max (st_bits s) /\ 0 <= st_ptr s < Z.of_nat assoc.

Lemma aset_bits_ok max bits i x bits' :
  bits_ok max bits -> 0 <= x <= max -> aset bits i x = Ok bits' ->
  length bits' = length bits /\ bits_ok max bits'.
Proof.
  intros Hb Hx H. apply aset_ok in H as [Hi ->]. rewrite length_insert. split; [done|].
  by apply Forall_insert.
Qed.

Lemma srrip_age_ok max bits :
  max < 256 -> bits_ok max bits -> length (srrip_age max bits) = length bits /\ bits_ok max (srrip_age max bits).
Proof.
  intros Hm Hb. unfold srrip_age. rewrite length_fmap. split; [done|].
  apply Forall_fmap. eapply Forall_impl; [exact Hb|]. intros b Hbb. cbn in *.
  zcase; [rewrite wrap_small|]; lia.
Qed.

Lemma srrip_turn_wf k blocks cntlr info p s r :
  srrip_wf (length blocks) p -> lru_info_wf (length blocks) info ->
  state_ok (length blocks) (m_rrip_max p) s ->
  srrip_turn k blocks cntlr info p s = Ok r ->
  match r with
  | inl v => (v_index v < length blocks)%nat /\ srrip_wf (length blocks) (v_policy v) /\
             lru_info_wf (length blocks) (v_info v)
  | inr s => state_ok (length blocks) (m_rrip_max p) s
  end.
Proof.
  intros Hwf Hi. pose proof Hwf as (Ha & Hm & Hins & _).
  revert s. induction k as [|k IH]; intros s (Hl & Hb & Hp) H; [by injection H as <-|].
  cbn [srrip_turn] in H. res_inv H.
  destruct (next_pointer_range (length blocks) (st_ptr s)) as [_ Hnp]; [lia|done|].
  destruct (m_rrip_max p <=? a); [|by eapply IH; [|exact H]]. res_inv H.
  destruct a0; res_inv H.
  - apply (aset_bits_ok (m_rrip_max p)) in E1 as [Hl' Hb']; [|done|lia].
    eapply IH; [|exact H]. split; [cbn; lia|done].
  - injection H as <-. cbn.
    apply (aset_bits_ok (m_rrip_max p)) in E1 as [Hl' Hb']; [|done|lia].
    split; [lia|]. split; [|by eapply incrementAttempt_wf].
    split_and!; cbn; try done; lia.
Qed.

Lemma srrip_rounds_wf k blocks cntlr info p s v :
  srrip_wf (length blocks) p -> lru_info_wf (length blocks) info ->
  state_ok (length blocks) (m_rrip_max p) s ->
  srrip_rounds k blocks cntlr info p s = Ok v ->
  (v_index v < length blocks)%nat /\ srrip_wf (length blocks) (v_policy v) /\
  lru_info_wf (length blocks) (v_info v).
Proof.
  intros Hwf Hi. revert s. induction k as [|k IH]; intros s Hs H; [done|].
  cbn [srrip_rounds] in H. res_inv H. eapply srrip_turn_wf in E; [|done..].
  destruct a as [v'|s']; [by injection H as <-|].
  destruct E as (Hl & Hb & Hp). pose proof Hwf as (? & ? & _).
  apply srrip_age_ok in Hb as [Hl' Hb']; [|lia].
  eapply IH; [|exact H]. split; [cbn; lia|done].
Qed.

Lemma SRRIP_get_ok blocks cntlr info p v :
  srrip_wf (length blocks) p -> lru_info_wf (length blocks) info ->
  SRRIP_getReplacementIndex blocks cntlr info p = Ok v ->
  (v_index v < length blocks)%nat /\
  srrip_wf (length blocks) (v_policy v) /\ lru_info_wf (length blocks) (v_info v).
Proof.
  intros Hwf Hi H. pose proof Hwf as (Ha & Hm & Hins & Hl & Hb & Hp).
  unfold SRRIP_getReplacementIndex in H. destruct (first_invalid blocks) as [i|] eqn:Ef.
  - apply first_invalid_lt in Ef. res_inv H. injection H as <-. cbn.
    apply (aset_bits_ok (m_rrip_max p)) in E as [Hl' Hb']; [|done|lia].
    split; [done|]. split; [|done]. split_and!; cbn; try done; lia.
  - eapply srrip_rounds_wf; [done..| |exact H]. done.
Qed.

Lemma SRRIP_update_ok assoc i info p :
  srrip_wf assoc p -> lru_info_wf assoc info -> (i < assoc)%nat ->
  exists info' p', SRRIP_updateReplacementIndex i info p = Ok (info', p') /\
    srrip_wf assoc p' /\ lru_info_wf assoc info'.
Proof.
  intros Hwf Hi Hlt. pose proof Hwf as (Ha & Hm & Hins & Hl & Hb & Hp).
  unfold SRRIP_updateReplacementIndex.
  destruct (aget_lt (m_rrip_bits p) i) as (b & -> & Hbi); [lia|]. cbn [mbind res_bind].
  eapply Forall_lookup_1 in Hbi as Hbb; [|exact Hb]. cbn in Hbb.
  destruct (increment_ok assoc info b Hi) as (x & info' & -> & _ & _ & Hi'); [lia|].
  cbn [mbind res_bind]. zcase; [|eauto].
  destruct (aset (m_rrip_bits p) i (b - 1)) as [bits'|] eqn:E.
  - apply (aset_bits_ok (m_rrip_max p)) in E as [Hl' Hb']; [|done|lia].
    eexists _, _. split; [done|]. split; [|done]. split_and!; cbn; try done; lia.
  - rewrite aset_lt in E by lia. done.
Qed.

#[global] Instance SRRIP_policy_ok : ReplacementPolicyOk CacheSetSRRIP CacheSetInfoLRU := {
  policy_wf := srrip_wf;
  info_wf := lru_info_wf;
  getReplacementIndex_ok := SRRIP_get_ok;
  updateReplacementIndex_ok := SRRIP_update_ok
}.

(** ** Functional behaviour without query-based selection *)

Definition way (n : nat) (ptr j : Z) : nat := Z.to_nat ((ptr + j) mod Z.of_nat n).

(** What the method does once it has settled on way [w]. *)
Definition srrip_take (blocks : list CacheBlockInfo) (info : CacheSetInfoLRU) (p : CacheSetSRRIP)
    (bits : list Z) (w : nat) : res (Victim CacheSetSRRIP CacheSetInfoLRU) :=
  if replaceable blocks w
  then Ok (mkVictim w 0 info
             (srrip_with p (<[w := m_rrip_insert p]> bits) (next_pointer (length blocks) (Z.of_nat w))))
  else Err AssertFailed.

Section no_qbs.
Context (blocks : list CacheBlockInfo) (cntlr : option CacheCntlr) (info : CacheSetInfoLRU)
        (p : CacheSetSRRIP).
Hypotheses (Hn : (0 < length blocks <= 256)%nat) (Hnum : srrip_num_attempts p = 1)
           (Hinfo : m_attempts info = None).
Local Abbreviation n := (length blocks).

Lemma way_lt ptr j : (way n ptr j < n)%nat.
Proof. unfold way. pose proof (Z.mod_pos_bound (ptr + j) (Z.of_nat n) ltac:(lia)). lia. Qed.

Lemma way_0 ptr : 0 <= ptr < Z.of_nat n -> way n ptr 0 = Z.to_nat ptr.
Proof. intros. unfold way. by rewrite Z.add_0_r, Z.mod_small. Qed.

Lemma way_next ptr j : 0 <= ptr < Z.of_nat n -> way n (next_pointer n ptr) j = way n ptr (j + 1).
Proof.
  intros Hp. unfold way. destruct (next_pointer_range n ptr Hn Hp) as [-> _].
  rewrite Zplus_mod_idemp_l. do 2 f_equal. lia.
Qed.

(** A turn from [ptr] stops at the first way that holds the maximum. *)
Lemma srrip_turn_no_qbs k bits ptr :
  length bits = n -> 0 <= ptr < Z.of_nat n -> (k <= n)%nat ->
  (exists j, 0 <= j < Z.of_nat k /\ m_rrip_max p <= bits !!! way n ptr j /\
     (forall i, 0 <= i < j -> bits !!! way n ptr i < m_rrip_max p) /\
     srrip_turn k blocks cntlr info p (mkSt 0 bits ptr 0)
       = (v ← srrip_take blocks info p bits (way n ptr j); Ok (inl v))) \/
  ((forall i, 0 <= i < Z.of_nat k -> bits !!! way n ptr i < m_rrip_max p) /\
   srrip_turn k blocks cntlr info p (mkSt 0 bits ptr 0)
     = Ok (inr (mkSt 0 bits (Z.of_nat (way n ptr (Z.of_nat k))) 0))).
Proof.
  intros Hl. revert ptr. induction k as [|k IH]; intros ptr Hp Hk.
  { right. split; [intros; lia|]. cbn. rewrite way_0 by done. by rewrite Z2Nat.id by lia. }
  cbn [srrip_turn st_bits st_ptr st_attempt st_lookups].
  destruct (aget_lt bits (Z.to_nat ptr)) as (b & -> & Hb); [lia|]. cbn [mbind res_bind].
  assert (bits !!! way n ptr 0 = b) as Hb0.
  { rewrite way_0 by done. by apply list_lookup_total_Some. }
  destruct (Z.leb_spec (m_rrip_max p) b) as [Hge|Hlt].
  - left. exists 0. rewrite Hb0. split; [lia|]. split; [done|]. split; [intros; lia|].
    rewrite Hnum. change (0 <? 1 - 1) with false. cbn [mbind res_bind]. rewrite aset_lt by lia. cbn [mbind res_bind].
    rewrite incrementAttempt_None by done. cbn [mbind res_bind].
    rewrite isValidReplacement_ok by lia. unfold srrip_take. rewrite way_0 by done.
    cbn [mbind res_bind]. rewrite Z2Nat.id by lia. by destruct (replaceable blocks (Z.to_nat ptr)).
  - destruct (next_pointer_range n ptr Hn Hp) as [_ Hnp].
    destruct (IH _ Hnp ltac:(lia)) as [(j & Hj & Hge & Hbef & ->) | [Hall ->]].
    + left. exists (j + 1). rewrite way_next in * by done. split; [lia|]. split; [done|]. split; [|done].
      intros i Hi. destruct (decide (i = 0)) as [->|]; [lia|].
      specialize (Hbef (i - 1) ltac:(lia)). rewrite way_next in Hbef by done.
      by replace (i - 1 + 1) with i in Hbef by lia.
    + right. rewrite way_next by done. split; [|do 4 f_equal; f_equal; lia].
      intros i Hi. destruct (decide (i = 0)) as [->|]; [lia|].
      specialize (Hall (i - 1) ltac:(lia)). rewrite way_next in Hall by done.
      by replace (i - 1 + 1) with i in Hall by lia.
Qed.

Lemma way_full ptr : 0 <= ptr < Z.of_nat n -> Z.of_nat (way n ptr (Z.of_nat n)) = ptr.
Proof.
  intros. unfold way. rewrite <- (Z.mul_1_l (Z.of_nat n)) at 1. rewrite Z_mod_plus_full.
  rewrite Z.mod_small by lia. lia.
Qed.

(** Every way is visited in a turn. *)
Lemma way_surj ptr w : (w < n)%nat -> exists j, 0 <= j < Z.of_nat n /\ way n ptr j = w.
Proof.
  intros Hw. exists ((Z.of_nat w - ptr) mod Z.of_nat n). split; [apply Z.mod_pos_bound; lia|].
  unfold way. rewrite Zplus_mod_idemp_r. replace (ptr + (Z.of_nat w - ptr)) with (Z.of_nat w) by lia.
  rewrite Z.mod_small by lia. lia.
Qed.

(** The first way, from the pointer, that holds the largest prediction [M]. *)
Definition first_max (bits : list Z) (ptr M : Z) (w : nat) : Prop :=
  exists j, 0 <= j < Z.of_nat n /\ w = way n ptr j /\ bits !!! w = M /\
    forall i, 0 <= i < j -> bits !!! way n ptr i < M.

Lemma srrip_rounds_no_qbs d k bits ptr M :
  length bits = n -> 0 <= ptr < Z.of_nat n -> m_rrip_max p < 256 ->
  Forall (fun b => 0 <= b <= M) bits -> M ∈ bits -> m_rrip_max p = M + Z.of_nat d -> (d < k)%nat ->
  exists w, first_max bits ptr M w /\
    srrip_rounds k blocks cntlr info p (mkSt 0 bits ptr 0)
    = srrip_take blocks info p ((fun b => b + Z.of_nat d) <$> bits) w.
Proof.
  intros Hl Hp Hmax. revert k bits M Hl. induction d as [|d IH]; intros k bits M Hl HF Hin Hd Hk.
  all: destruct k as [|k]; [lia|]; cbn [srrip_rounds].
  all: destruct (srrip_turn_no_qbs n bits ptr Hl Hp ltac:(lia)) as [(j & Hj & Hge & Hbef & ->) | [Hall ->]].
  all: apply list_elem_of_lookup in Hin as Hin'; destruct Hin' as [u Hu].
  all: assert (forall w, (w < n)%nat -> 0 <= bits !!! w <= M) as Hle by
    (intros w Hw; destruct (lookup_lt_is_Some_2 bits w ltac:(lia)) as [b Hb];
     rewrite (list_lookup_total_Some _ _ _ Hb); by eapply Forall_lookup_1 in HF).
  - exists (way n ptr j). split.
    + exists j. pose proof (Hle _ (way_lt ptr j)). split_and!; [lia|lia|done|lia|].
      intros i Hi. specialize (Hbef i Hi). lia.
    + replace ((fun b => b + Z.of_nat 0) <$> bits) with bits.
      * unfold srrip_take. by destruct (replaceable _ _).
      * rewrite <- (list_fmap_id bits) at 1. apply list_fmap_ext. intros; cbn; lia.
  - exfalso. destruct (way_surj ptr u) as (j & Hj & Ej); [apply lookup_lt_Some in Hu; lia|].
    specialize (Hall j Hj). rewrite Ej, (list_lookup_total_Some _ _ _ Hu) in Hall. lia.
  - exfalso. pose proof (Hle _ (way_lt ptr j)). lia.
  - cbn [mbind res_bind st_attempt st_bits st_ptr st_lookups]. rewrite way_full by done.
    assert (srrip_age (m_rrip_max p) bits = (fun b => b + 1) <$> bits) as ->.
    { unfold srrip_age. apply list_fmap_ext. intros i b Hb. eapply Forall_lookup_1 in HF as Hbb; [|exact Hb].
      cbn in Hbb. zcase; [rewrite wrap_small|]; lia. }
    destruct (IH k ((fun b => b + 1) <$> bits) (M + 1)) as (w & (j & Hj & Hw & Hmx & Hfst) & ->).
    + by rewrite length_fmap.
    + apply Forall_fmap. eapply Forall_impl; [exact HF|]. cbn. lia.
    + by apply (list_elem_of_fmap_2 (fun b => b + 1)).
    + lia.
    + lia.
    + assert (forall w, (w < n)%nat -> ((fun b => b + 1) <$> bits) !!! w = bits !!! w + 1) as Hsh.
      { intros x Hx. apply list_lookup_total_Some. rewrite list_lookup_fmap.
        destruct (lookup_lt_is_Some_2 bits x ltac:(lia)) as [b Hb].
        rewrite Hb, (list_lookup_total_Some _ _ _ Hb). done. }
      exists w. split.
      * exists j. rewrite Hsh in Hmx by (subst w; apply way_lt). split_and!; [lia|lia|done|lia|].
        intros i Hi. specialize (Hfst i Hi). rewrite Hsh in Hfst by apply way_lt. lia.
      * f_equal. rewrite <- list_fmap_compose. apply list_fmap_ext. intros; cbn; lia.
Qed.
End no_qbs.

(** C36: SRRIP without query-based selection, on a set with every way valid: the search always ends
    within its [m_rrip_max + 1] rounds; it settles on the way with the largest prediction value
    [M], the first one from the replacement pointer; every other way is aged by
    [m_rrip_max - M], the victim gets the insertion value and the pointer moves past it.  If that
    way is waiting for an upgrade, the assertion fails. *)
Theorem srrip_victim_spec (blocks : list CacheBlockInfo) (cntlr : option CacheCntlr)
    (info : CacheSetInfoLRU) (p : CacheSetSRRIP) (M : Z) :
  srrip_wf (length blocks) p -> srrip_num_attempts p = 1 -> m_attempts info = None ->
  first_invalid blocks = None -> M ∈ m_rrip_bits p -> Forall (fun b => b <= M) (m_rrip_bits p) ->
  exists w, first_max blocks (m_rrip_bits p) (srrip_pointer p) M w /\
    SRRIP_getReplacementIndex blocks cntlr info p =
      if replaceable blocks w
      then Ok (mkVictim w 0 info
             (srrip_with p
                (<[w := m_rrip_max p - 1]> ((fun b => b + (m_rrip_max p - M)) <$> m_rrip_bits p))
                ((Z.of_nat w + 1) mod Z.of_nat (length blocks))))
      else Err AssertFailed.
Proof.
  intros Hwf Hnum Hinfo Hfi Hin HM. pose proof Hwf as (Ha & Hm & Hins & Hl & Hb & Hp).
  assert (0 <= M <= m_rrip_max p) as HMr by (by eapply (proj1 (Forall_forall _ _) Hb)).
  unfold SRRIP_getReplacementIndex. rewrite Hfi.
  destruct (srrip_rounds_no_qbs blocks cntlr info p Ha Hnum Hinfo (Z.to_nat (m_rrip_max p - M))
    (Z.to_nat (m_rrip_max p + 1)) (m_rrip_bits p) (srrip_pointer p) M) as (w & Hw & ->);
    [done|done|lia| |done|lia|lia|].
  { apply Forall_forall. intros b Hbin. rewrite Forall_forall in HM. 
    specialize (HM b Hbin). apply (proj1 (Forall_forall _ _) Hb) in Hbin. lia. }
  exists w. split; [done|]. unfold srrip_take. rewrite Hins, Z2Nat.id by lia.
  destruct (next_pointer_range (length blocks) (Z.of_nat w)) as [-> _]; [done| |done].
  destruct Hw as (j & _ & -> & _). pose proof (way_lt blocks Ha (srrip_pointer p) j). lia.
Qed.

Definition srrip_example : CacheSetSRRIP := mkSRRIP 2 1 1 [1; 0; 1] 1.

Lemma srrip_victim_spec_witness :
  exists w, first_max example_blocks [1; 0; 1] 1 1 w /\
    SRRIP_getReplacementIndex example_blocks None (CacheSetInfoLRU_new 3 1) srrip_example =
      if replaceable example_blocks w
      then Ok (mkVictim w 0 (CacheSetInfoLRU_new 3 1)
             (srrip_with srrip_example (<[w := 2 - 1]> ((fun b => b + (2 - 1)) <$> [1; 0; 1]))
                ((Z.of_nat w + 1) mod Z.of_nat 3)))
      else Err AssertFailed.
Proof.
  apply (srrip_victim_spec example_blocks None (CacheSetInfoLRU_new 3 1) srrip_example 1);
    try reflexivity.
  - unfold srrip_wf, bits_ok; cbn. split_and!; try lia. repeat constructor; lia.
  - apply list_elem_of_here.
  - cbn. repeat constructor; lia.
Defined.
