(* ===== verification/CachePolicy.v ===== *)
(** * Choice of the replacement policy

    Models the static members of class CacheSet in
    src/common/core/memory_subsystem/cache/cache_set.cc that select a policy by
    its configured name: [parsePolicyType], [getNumQBSAttempts],
    [createCacheSetInfo] and [createCacheSet].  The virtual dispatch of the
    code is a sum of the policies, which again meets the policy interface, so
    that everything proved of a cache against the interface holds for a cache
    with any configured policy. *)

From stdpp Require Import gmap.
From S2P Require Import Prelude Utils CacheBlockInfo CacheSet LruBits CacheSetLRU CacheSetMRU CacheSetPLRU CacheSetSRRIP.

(** ** enum CacheBase::ReplacementPolicy *)

Inductive ReplacementPolicyName :=
  ROUND_ROBIN | LRU | LRU_QBS | NRU | MRU | NMRU | PLRU | SRRIP | SRRIP_QBS | RANDOM.

Definition parsePolicyType (policy : string) : res ReplacementPolicyName :=
  if bool_decide (policy = "round_robin"%string) then Ok ROUND_ROBIN
  else if bool_decide (policy = "lru"%string) then Ok LRU
  else if bool_decide (policy = "lru_qbs"%string) then Ok LRU_QBS
  else if bool_decide (policy = "nru"%string) then Ok NRU
  else if bool_decide (policy = "mru"%string) then Ok MRU
  else if bool_decide (policy = "nmru"%string) then Ok NMRU
  else if bool_decide (policy = "plru"%string) then Ok PLRU
  else if bool_decide (policy = "srrip"%string) then Ok SRRIP
  else if bool_decide (policy = "srrip_qbs"%string) then Ok SRRIP_QBS
  else if bool_decide (policy = "random"%string) then Ok RANDOM
  else Err LogError.

(** What the constructors read from their environment: the keys [qbs/attempts] and
    [srrip/bits] of the configuration, and [time(NULL)] as seed of the random policy. *)
Record PolicyCfg := { cfg_qbs_attempts : Z; cfg_srrip_bits : Z; cfg_time : Z; cfg_retry_fuel : nat }.

Definition getNumQBSAttempts (policy : ReplacementPolicyName) (cfg : PolicyCfg) : Z :=
  match policy with
  | LRU_QBS | SRRIP_QBS => u8 (cfg_qbs_attempts cfg)
  | _ => 1
  end.

(** ** The policy object of a set *)

Inductive AnyPolicy :=
  | PRoundRobin (p : CacheSetRoundRobin)
  | PLru (p : CacheSetLRU)
  | PNru (p : CacheSetNRU)
  | PMru (p : CacheSetMRU)
  | PNmru (p : CacheSetNMRU)
  | PPlru (p : CacheSetPLRU)
  | PSrrip (p : CacheSetSRRIP)
  | PRandom (p : CacheSetRandom).

(** [m_set_info]: [NULL] for the policies without shared statistics. *)
Abbreviation AnyInfo := (option CacheSetInfoLRU).

Definition createCacheSetInfo (cfg : PolicyCfg) (replacement_policy : string) (assoc : nat)
  : res AnyInfo :=
  policy ← parsePolicyType replacement_policy;
  match policy with
  | LRU | LRU_QBS | SRRIP | SRRIP_QBS =>
      Ok (Some (CacheSetInfoLRU_new assoc (getNumQBSAttempts policy cfg)))
  | _ => Ok None
  end.

(** The [new CacheSet...] of each case, without the base class. *)
Definition createPolicy (cfg : PolicyCfg) (policy : ReplacementPolicyName) (assoc : nat) : res AnyPolicy :=
  match policy with
  | ROUND_ROBIN => Ok (PRoundRobin (CacheSetRoundRobin_new assoc))
  | LRU | LRU_QBS => Ok (PLru (CacheSetLRU_new assoc (getNumQBSAttempts policy cfg)))
  | NRU => Ok (PNru (CacheSetNRU_new assoc))
  | MRU => Ok (PMru (CacheSetMRU_new assoc))
  | NMRU => Ok (PNmru (CacheSetNMRU_new assoc))
  | PLRU => p ← CacheSetPLRU_new assoc; Ok (PPlru p)
  | SRRIP | SRRIP_QBS =>
      Ok (PSrrip (CacheSetSRRIP_new (cfg_srrip_bits cfg) assoc (getNumQBSAttempts policy cfg)))
  | RANDOM => Ok (PRandom (mkRandom (cfg_retry_fuel cfg) (u32 (cfg_time cfg))))
  end.

Definition createCacheSet (cfg : PolicyCfg) (replacement_policy : string) (cache_type : cache_t)
    (assoc : nat) (blocksize : Z) (faults : bool) : res (CacheSet AnyPolicy) :=
  policy ← parsePolicyType replacement_policy;
  p ← createPolicy cfg policy assoc;
  CacheSet_new cache_type assoc blocksize faults p.

(** ** Virtual dispatch *)

Definition with_unit {P} (wrap_p : P -> AnyPolicy) (info : AnyInfo) (v : Victim P unit)
  : Victim AnyPolicy AnyInfo :=
  mkVictim (v_index v) (v_qbs_lookups v) info (wrap_p (v_policy v)).
Definition with_lru {P} (wrap_p : P -> AnyPolicy) (v : Victim P CacheSetInfoLRU)
  : Victim AnyPolicy AnyInfo :=
  mkVictim (v_index v) (v_qbs_lookups v) (Some (v_info v)) (wrap_p (v_policy v)).

Definition any_get_unit {P} `{!ReplacementPolicy P unit} (wrap_p : P -> AnyPolicy)
    (blocks : list CacheBlockInfo) (cntlr : option CacheCntlr) (info : AnyInfo) (p : P) :=
  v ← getReplacementIndex blocks cntlr tt p; Ok (with_unit wrap_p info v).
Definition any_get_lru {P} `{!ReplacementPolicy P CacheSetInfoLRU} (wrap_p : P -> AnyPolicy)
    (blocks : list CacheBlockInfo) (cntlr : option CacheCntlr) (info : AnyInfo) (p : P) :=
  match info with
  | Some i => v ← getReplacementIndex blocks cntlr i p; Ok (with_lru wrap_p v)
  | None => Err NullDeref
  end.

Definition Any_getReplacementIndex (blocks : list CacheBlockInfo) (cntlr : option CacheCntlr)
    (info : AnyInfo) (p : AnyPolicy) : res (Victim AnyPolicy AnyInfo) :=
  match p with
  | PRoundRobin p => any_get_unit PRoundRobin blocks cntlr info p
  | PLru p => any_get_lru PLru blocks cntlr info p
  | PNru p => any_get_unit PNru blocks cntlr info p
  | PMru p => any_get_unit PMru blocks cntlr info p
  | PNmru p => any_get_unit PNmru blocks cntlr info p
  | PPlru p => any_get_unit PPlru blocks cntlr info p
  | PSrrip p => any_get_lru PSrrip blocks cntlr info p
  | PRandom p => any_get_unit PRandom blocks cntlr info p
  end.

Definition any_update_unit {P} `{!ReplacementPolicy P unit} (wrap_p : P -> AnyPolicy)
    (i : nat) (info : AnyInfo) (p : P) : res (AnyInfo * AnyPolicy) :=
  '(_, p) ← updateReplacementIndex i tt p; Ok (info, wrap_p p).
Definition any_update_lru {P} `{!ReplacementPolicy P CacheSetInfoLRU} (wrap_p : P -> AnyPolicy)
    (i : nat) (info : AnyInfo) (p : P) : res (AnyInfo * AnyPolicy) :=
  match info with
  | Some inf => '(inf, p) ← updateReplacementIndex i inf p; Ok (Some inf, wrap_p p)
  | None => Err NullDeref
  end.

Definition Any_updateReplacementIndex (accessed_index : nat) (info : AnyInfo) (p : AnyPolicy)
  : res (AnyInfo * AnyPolicy) :=
  match p with
  | PRoundRobin p => any_update_unit PRoundRobin accessed_index info p
  | PLru p => any_update_lru PLru accessed_index info p
  | PNru p => any_update_unit PNru accessed_index info p
  | PMru p => any_update_unit PMru accessed_index info p
  | PNmru p => any_update_unit PNmru accessed_index info p
  | PPlru p => any_update_unit PPlru accessed_index info p
  | PSrrip p => any_update_lru PSrrip accessed_index info p
  | PRandom p => any_update_unit PRandom accessed_index info p
  end.

#[global] Instance Any_policy : ReplacementPolicy AnyPolicy AnyInfo := {
  getReplacementIndex := Any_getReplacementIndex;
  updateReplacementIndex := Any_updateReplacementIndex
}.

(** ** The dispatch meets the interface

    All sets of one cache have a policy object of the configured kind, and the shared
    statistics are allocated exactly for the kinds that use them. *)

Definition is_object (policy : ReplacementPolicyName) (p : AnyPolicy) : bool :=
  match policy, p with
  | ROUND_ROBIN, PRoundRobin _ | LRU, PLru _ | LRU_QBS, PLru _ | NRU, PNru _ | MRU, PMru _
  | NMRU, PNmru _ | PLRU, PPlru _ | SRRIP, PSrrip _ | SRRIP_QBS, PSrrip _ | RANDOM, PRandom _ => true
  | _, _ => false
  end.

Definition has_stats (policy : ReplacementPolicyName) : bool :=
  match policy with LRU | LRU_QBS | SRRIP | SRRIP_QBS => true | _ => false end.

Definition needs_info (p : AnyPolicy) : bool :=
  match p with PLru _ | PSrrip _ => true | _ => false end.

Lemma object_stats policy p : is_object policy p = true -> has_stats policy = needs_info p.
Proof. by destruct policy, p. Qed.

Section with_policy.
Context (policy : ReplacementPolicyName).

Definition any_policy_wf (assoc : nat) (p : AnyPolicy) : Prop :=
  is_object policy p = true /\
  match p with
  | PRoundRobin p => policy_wf assoc p
  | PLru p => policy_wf assoc p
  | PNru p => policy_wf assoc p
  | PMru p => policy_wf assoc p
  | PNmru p => policy_wf assoc p
  | PPlru p => policy_wf assoc p
  | PSrrip p => policy_wf assoc p
  | PRandom p => policy_wf assoc p
  end.
Definition any_info_wf (assoc : nat) (info : AnyInfo) : Prop :=
  match info with
  | Some i => has_stats policy = true /\ lru_info_wf assoc i
  | None => has_stats policy = false
  end.

Lemma any_get_unit_ok {P} `{!ReplacementPolicy P unit} `{!ReplacementPolicyOk P unit}
    (w : P -> AnyPolicy) blocks cntlr info p v :
  policy_wf (length blocks) p -> info_wf (length blocks) tt ->
  any_get_unit w blocks cntlr info p = Ok v ->
  (v_index v < length blocks)%nat /\ v_info v = info /\
  exists p', v_policy v = w p' /\ policy_wf (length blocks) p'.
Proof.
  intros Hp Hi H. unfold any_get_unit in H. res_inv H. simplify_eq. cbn.
  destruct (getReplacementIndex_ok _ _ _ _ _ Hp Hi E) as (? & ? & _). eauto.
Qed.

Lemma any_get_lru_ok {P} `{!ReplacementPolicy P CacheSetInfoLRU}
    `{!ReplacementPolicyOk P CacheSetInfoLRU} (w : P -> AnyPolicy) blocks cntlr info p v :
  policy_wf (length blocks) p ->
  (forall i, info = Some i -> info_wf (length blocks) i) ->
  any_get_lru w blocks cntlr info p = Ok v ->
  (v_index v < length blocks)%nat /\
  (exists i, v_info v = Some i /\ info_wf (length blocks) i) /\
  exists p', v_policy v = w p' /\ policy_wf (length blocks) p'.
Proof.
  intros Hp Hi H. unfold any_get_lru in H. destruct info as [i|]; [|done]. res_inv H. simplify_eq. cbn.
  destruct (getReplacementIndex_ok _ _ _ _ _ Hp (Hi _ eq_refl) E) as (? & ? & ?).
  split; [done|]. split; by eexists.
Qed.

Lemma Any_get_ok blocks cntlr info p v :
  any_policy_wf (length blocks) p -> any_info_wf (length blocks) info ->
  Any_getReplacementIndex blocks cntlr info p = Ok v ->
  (v_index v < length blocks)%nat /\
  any_policy_wf (length blocks) (v_policy v) /\ any_info_wf (length blocks) (v_info v).
Proof.
  intros [Hn Hp] Hi H. unfold any_policy_wf.
  destruct p; cbn [Any_getReplacementIndex] in H;
    (eapply any_get_unit_ok in H as (? & -> & p' & -> & ?) ||
     eapply any_get_lru_ok in H as (? & (i & -> & ?) & p' & -> & ?)); try done.
  all: try (intros i0 ->; by destruct Hi).
  all: split_and!; try done; by apply object_stats in Hn.
Qed.

Lemma Any_update_ok assoc i info p :
  any_policy_wf assoc p -> any_info_wf assoc info -> (i < assoc)%nat ->
  exists info' p', Any_updateReplacementIndex i info p = Ok (info', p') /\
    any_policy_wf assoc p' /\ any_info_wf assoc info'.
Proof.
  intros [Hn Hp] Hi Hlt. pose proof (object_stats _ _ Hn) as Hs.
  destruct p; cbn [Any_updateReplacementIndex needs_info] in *.
  all: unfold any_update_unit, any_update_lru.
  all: try (destruct info as [inf|]; cbn in Hi; [destruct Hi as [Hst Hi]|congruence];
    destruct (updateReplacementIndex_ok assoc i inf p Hp Hi Hlt) as (i' & p' & -> & ? & ?);
    cbn [mbind res_bind]; eexists _, _; done).
  all: destruct (updateReplacementIndex_ok assoc i tt p Hp Logic.I Hlt) as (i' & p' & -> & ? & ?);
    cbn [mbind res_bind]; eexists _, _; done.
Qed.

#[global] Instance Any_policy_ok : ReplacementPolicyOk AnyPolicy AnyInfo := {
  policy_wf := any_policy_wf;
  info_wf := any_info_wf;
  getReplacementIndex_ok := Any_get_ok;
  updateReplacementIndex_ok := Any_update_ok
}.

(** Every policy but round robin and random, which try again until they like what they find. *)
Definition terminating : bool := match policy with ROUND_ROBIN | RANDOM => false | _ => true end.
End with_policy.

(** ** Termination *)

Lemma no_fuel_valid blocks i : no_fuel_error (isValidReplacement blocks i).
Proof. unfold isValidReplacement. nofuel. Qed.
Lemma no_fuel_increment info i : no_fuel_error (increment info i).
Proof. unfold increment. nofuel. Qed.
Lemma no_fuel_attempt info i : no_fuel_error (incrementAttempt info i).
Proof. unfold incrementAttempt. nofuel. Qed.
#[export] Hint Resolve no_fuel_valid no_fuel_increment no_fuel_attempt : fuel.

Lemma no_fuel_moveToMRU bits i : no_fuel_error (moveToMRU bits i).
Proof. unfold moveToMRU. nofuel. Qed.
#[export] Hint Resolve no_fuel_moveToMRU : fuel.

Lemma no_fuel_lru blocks cntlr info p : no_fuel_error (LRU_getReplacementIndex blocks cntlr info p).
Proof.
  assert (forall bits, no_fuel_error (lru_scan blocks bits)) as Hs.
  { intros bits. apply no_fuel_for. intros i [index max]. nofuel. }
  unfold LRU_getReplacementIndex. nofuel. generalize 0, 0%nat, (m_lru_bits p).
  generalize (Z.to_nat (m_num_attempts p)) as k. intros k a l bits. revert a l bits.
  induction k as [|k IH]; intros a l bits; cbn [lru_attempts]; nofuel; auto.
Qed.

Lemma no_fuel_pointer_scan k assoc test ptr :
  (forall i, no_fuel_error (test i)) -> no_fuel_error (pointer_scan k assoc test ptr).
Proof. intros Ht. revert ptr. induction k as [|k IH]; intros ptr; cbn [pointer_scan]; nofuel; auto. Qed.

Lemma no_fuel_mru blocks cntlr info p : no_fuel_error (MRU_getReplacementIndex blocks cntlr info p).
Proof.
  assert (forall k i t bits, no_fuel_error (mru_find k i t blocks bits)) as Hf.
  { intros k. induction k as [|k IH]; intros i t bits; cbn [mru_find]; nofuel; auto. }
  assert (forall k t bits, no_fuel_error (mru_targets k t blocks bits)) as Ht.
  { intros k. induction k as [|k IH]; intros t bits; cbn [mru_targets]; nofuel; auto. }
  unfold MRU_getReplacementIndex, MRU_updateReplacementIndex. nofuel.
Qed.

Lemma no_fuel_nmru blocks cntlr info p : no_fuel_error (NMRU_getReplacementIndex blocks cntlr info p).
Proof.
  unfold NMRU_getReplacementIndex, NMRU_updateReplacementIndex. nofuel.
  apply no_fuel_pointer_scan. intros i. unfold nmru_test. nofuel.
Qed.

Lemma no_fuel_nru blocks cntlr info p : no_fuel_error (NRU_getReplacementIndex blocks cntlr info p).
Proof.
  assert (forall bs i bits z, no_fuel_error (nru_first_loop i blocks bs bits z)) as Hf.
  { intros bs. induction bs as [|b bs IH]; intros i bits z; cbn [nru_first_loop]; nofuel; auto. }
  unfold NRU_getReplacementIndex, NRU_updateReplacementIndex. nofuel; auto.
  all: apply no_fuel_pointer_scan; intros i; unfold nru_test; nofuel.
Qed.

Lemma no_fuel_plru blocks cntlr info p : no_fuel_error (PLRU_getReplacementIndex blocks cntlr info p).
Proof.
  unfold PLRU_getReplacementIndex, PLRU_updateReplacementIndex, plru_victim, plru_update. nofuel.
Qed.

Lemma no_fuel_srrip blocks cntlr info p : no_fuel_error (SRRIP_getReplacementIndex blocks cntlr info p).
Proof.
  assert (forall k s, no_fuel_error (srrip_turn k blocks cntlr info p s)) as Ht.
  { intros k. induction k as [|k IH]; intros s; cbn [srrip_turn]; nofuel; auto. }
  assert (forall k s, no_fuel_error (srrip_rounds k blocks cntlr info p s)) as Hr.
  { intros k. induction k as [|k IH]; intros s; cbn [srrip_rounds]; nofuel; auto. }
  unfold SRRIP_getReplacementIndex. nofuel; auto.
Qed.
#[export] Hint Resolve no_fuel_lru no_fuel_mru no_fuel_nmru no_fuel_nru no_fuel_plru no_fuel_srrip : fuel.

Lemma Any_terminates policy :
  terminating policy = true ->
  PolicyTerminates AnyPolicy AnyInfo (ReplacementPolicyOk0 := Any_policy_ok policy).
Proof.
  intros Ht. split.
  - intros blocks cntlr info p [Ho _]. cbn [getReplacementIndex Any_policy].
    unfold Any_getReplacementIndex, any_get_unit, any_get_lru.
    destruct p; try (by destruct policy); cbn [getReplacementIndex LRU_policy MRU_policy NMRU_policy NRU_policy
      PLRU_policy SRRIP_policy]; nofuel.
  - intros i info p. cbn [updateReplacementIndex Any_policy].
    unfold Any_updateReplacementIndex, any_update_unit, any_update_lru.
    destruct p; cbn [updateReplacementIndex LRU_policy MRU_policy NMRU_policy NRU_policy PLRU_policy
      SRRIP_policy RR_policy Random_policy]; nofuel.
    + unfold RR_updateReplacementIndex; nofuel.
    + unfold LRU_updateReplacementIndex; nofuel.
    + unfold NRU_updateReplacementIndex; nofuel.
    + unfold MRU_updateReplacementIndex; nofuel.
    + unfold NMRU_updateReplacementIndex; nofuel.
    + unfold PLRU_updateReplacementIndex, plru_update; nofuel.
    + unfold SRRIP_updateReplacementIndex; nofuel.
    + unfold Random_updateReplacementIndex; nofuel.
Qed.

(** ** The constructors establish the invariant

    SRRIP indexes the per-way statistics with its prediction values, so it needs
    [2^bits <= associativity]; no other policy has a condition beyond the associativity
    fitting in a byte ([PLRU] checks its own). *)

Definition cfg_ok (cfg : PolicyCfg) (policy : ReplacementPolicyName) (assoc : nat) : Prop :=
  match policy with
  | SRRIP | SRRIP_QBS => 1 <= cfg_srrip_bits cfg <= 8 /\ 2 ^ cfg_srrip_bits cfg <= Z.of_nat assoc
  | _ => True
  end.

Lemma srrip_new_wf bits assoc num :
  (0 < assoc <= 256)%nat -> 1 <= bits <= 8 -> 2 ^ bits <= Z.of_nat assoc ->
  srrip_wf assoc (CacheSetSRRIP_new bits assoc num).
Proof.
  intros Ha Hb Hp. unfold CacheSetSRRIP_new, srrip_wf; cbn.
  assert (2 <= 2 ^ bits) by (change 2 with (2 ^ 1) at 1; apply Z.pow_le_mono_r; lia).
  rewrite Z.shiftl_mul_pow2, Z.mul_1_l by lia.
  rewrite (wrap_small 8 (2 ^ bits - 1)) by lia. rewrite (wrap_small 8) by lia.
  rewrite length_replicate. split_and!; try done; try lia.
  apply Forall_replicate. lia.
Qed.

Lemma lru_new_repr assoc :
  (assoc <= 256)%nat ->
  length (lru_bits_init assoc) = assoc /\ exists order, lru_repr (lru_bits_init assoc) order.
Proof.
  intros Ha. unfold lru_bits_init at 1. rewrite length_fmap, length_seq.
  split; [done|]. eexists. by apply lru_bits_init_repr.
Qed.

Lemma createPolicy_wf cfg policy assoc p :
  (0 < assoc <= 256)%nat -> cfg_ok cfg policy assoc ->
  createPolicy cfg policy assoc = Ok p -> any_policy_wf policy assoc p.
Proof.
  intros Ha Hc H. destruct (lru_new_repr assoc ltac:(lia)) as [Hl Hr].
  destruct policy; cbn [createPolicy] in H; res_inv H; simplify_eq; (split; [done|]); cbn.
  - unfold rr_wf, CacheSetRoundRobin_new; cbn. rewrite wrap_small by (cbn; lia).
    split_and!; lia.
  - done.
  - done.
  - unfold nru_wf, CacheSetNRU_new; cbn. rewrite length_replicate. split_and!; lia.
  - done.
  - unfold nmru_wf, CacheSetNMRU_new; cbn. split_and!; [done|done|lia..].
  - unfold CacheSetPLRU_new in E. res_inv E. simplify_eq. cbn.
    unfold assert_ in E0. destruct (_ || _) eqn:Eo; [|done].
    apply orb_true_iff in Eo as [?%Nat.eqb_eq|?%Nat.eqb_eq]; split_and!; cbn; auto; repeat constructor; auto.
  - apply srrip_new_wf; [done|apply Hc..].
  - apply srrip_new_wf; [done|apply Hc..].
  - done.
Qed.

Lemma createCacheSetInfo_wf cfg name policy assoc info :
  parsePolicyType name = Ok policy -> createCacheSetInfo cfg name assoc = Ok info ->
  any_info_wf policy assoc info.
Proof.
  intros Hp H. unfold createCacheSetInfo in H. rewrite Hp in H. cbn in H.
  destruct policy; simplify_eq; cbn; try done;
    (split; [done|]); unfold lru_info_wf; cbn; by rewrite length_replicate.
Qed.

Lemma CacheSet_new_wf {P I} `{!ReplacementPolicy P I} `{!ReplacementPolicyOk P I}
    cache_type assoc bs faults p s :
  0 <= bs -> policy_wf assoc p -> CacheSet_new cache_type assoc bs faults p = Ok s ->
  set_wf assoc s /\ set_tags s = ∅ /\ m_blocksize s = bs.
Proof.
  intros Hbs Hp H. unfold CacheSet_new in H. res_inv H. simplify_eq.
  assert (m_tag a = TAG_NONE) as Ht by (destruct cache_type; cbn in E; by simplify_eq).
  assert (forall i b, replicate assoc a !! i = Some b -> m_tag b = TAG_NONE) as Hall.
  { intros i b Hb. apply lookup_replicate in Hb as [-> _]. done. }
  unfold set_wf, associativity, set_tags; cbn. rewrite length_replicate.
  split_and!; try done.
  - intros i j bi bj Hi Hj Heq Hne. destruct Hne. by eapply Hall.
  - destruct faults; [|done]. rewrite length_replicate. lia.
  - apply set_eq. intros t. split; [|set_solver].
    intros (Hne & i & b & Hb & <-)%elem_of_tags. destruct Hne. by eapply Hall.
Qed.

Lemma createCacheSet_wf cfg name policy cache_type assoc bs faults s :
  (0 < assoc <= 256)%nat -> 0 <= bs ->
  parsePolicyType name = Ok policy -> cfg_ok cfg policy assoc ->
  createCacheSet cfg name cache_type assoc bs faults = Ok s ->
  set_wf (ReplacementPolicyOk0 := Any_policy_ok policy) assoc s /\ set_tags s = ∅ /\ m_blocksize s = bs.
Proof.
  intros Ha Hbs Hp Hc H. unfold createCacheSet in H. rewrite Hp in H. cbn in H. res_inv H.
  eapply createPolicy_wf in E; [|done..].
  by apply (CacheSet_new_wf (ReplacementPolicyOk0 := Any_policy_ok policy) cache_type assoc bs faults a).
Qed.
