(* ===== verification/FaultInjection.v ===== *)
(** * Fault injection

    Models src/common/fault_injection/fault_injection.{h,cc} and
    fault_injector_random.{h,cc}.  With fault injection on, the data array of a
    cache set holds fault masks, not data: an injector edits the mask of the
    bytes being read, and the manager applies the mask to the data on its way
    to the core. *)

From S2P Require Import Prelude Utils CacheBlockInfo.

Inductive fault_type_t := FAULT_TYPE_TOGGLE | FAULT_TYPE_SET0 | FAULT_TYPE_SET1.
Inductive fault_injector_t := FAULT_INJECTOR_NONE | FAULT_INJECTOR_RANDOM.

Record FaultinjectionManager := mkFIManager {
  fim_type : fault_type_t;
  fim_injector : fault_injector_t
}.

(** The two strings are [fault_injection/type] and [fault_injection/injector] of the
    configuration; [None] is the null pointer of type "none". *)
Definition FaultinjectionManager_create (s_type s_injector : string)
  : res (option FaultinjectionManager) :=
  type ← (if bool_decide (s_type = "toggle"%string) then Ok (Some FAULT_TYPE_TOGGLE)
          else if bool_decide (s_type = "set0"%string) then Ok (Some FAULT_TYPE_SET0)
          else if bool_decide (s_type = "set1"%string) then Ok (Some FAULT_TYPE_SET1)
          else if bool_decide (s_type = "none"%string) then Ok None
          else Err LogError);
  match type with
  | None => Ok None
  | Some type =>
      injector ← (if bool_decide (s_injector = "none"%string) then Ok FAULT_INJECTOR_NONE
                  else if bool_decide (s_injector = "random"%string) then Ok FAULT_INJECTOR_RANDOM
                  else Err LogError);
      Ok (Some (mkFIManager type injector))
  end.

(** ** Injectors: the base class and FaultInjectorRandom *)

Inductive FaultInjector :=
  | FaultInjectorBase (core_id mem_component : Z)
  | FaultInjectorRandom (core_id mem_component : Z) (m_active : bool) (m_rng : Z).

Definition FaultInjectorRandom_new (core_id mem_component : Z) : FaultInjector :=
  FaultInjectorRandom core_id mem_component (mem_component =? L1_DCACHE) (rng_seed 0).

Definition getFaultInjector (m : FaultinjectionManager) (core_id mem_component : Z) : FaultInjector :=
  match fim_injector m with
  | FAULT_INJECTOR_NONE => FaultInjectorBase core_id mem_component
  | FAULT_INJECTOR_RANDOM => FaultInjectorRandom_new core_id mem_component
  end.

(** [preRead]: [mem] is the array and [pos] the index that the pointer [fault] refers to. *)
Definition preRead (f : FaultInjector) (data_size : Z) (mem : list Z) (pos : nat)
  : res (FaultInjector * list Z) :=
  match f with
  | FaultInjectorBase _ _ => Ok (f, mem)
  | FaultInjectorRandom core comp m_active rng =>
      if m_active then
        let '(r, rng) := rng_next rng in
        if r mod 0xffff =? 0 then
          if data_size =? 0 then Err DivByZero else
          let '(r, rng) := rng_next rng in
          let bit_location := u32 (r mod data_size) in
          let at_ := (pos + Z.to_nat (bit_location / 8))%nat in
          x ← aget mem at_;
          mem ← aset mem at_ (u8 (Z.lor x (Z.shiftl 1 (bit_location mod 8))));
          Ok (FaultInjectorRandom core comp m_active rng, mem)
        else Ok (FaultInjectorRandom core comp m_active rng, mem)
      else Ok (f, mem)
  end.

(** [postWrite] does nothing in either class. *)
Definition postWrite (f : FaultInjector) (data_size : Z) (mem : list Z) (pos : nat)
  : res (FaultInjector * list Z) := Ok (f, mem).

(** ** FaultinjectionManager::applyFault *)

Definition apply_byte (t : fault_type_t) (data fault : Z) : Z :=
  match t with
  | FAULT_TYPE_TOGGLE => Z.lxor data fault
  | FAULT_TYPE_SET0 => Z.land data (wnot 8 fault)
  | FAULT_TYPE_SET1 => Z.lor data fault
  end.

Definition applyFault (t : fault_type_t) (data_size : nat) (data fault : list Z) : res (list Z) :=
  for_res data_size (fun i data =>
    d ← aget data i; f ← aget fault i; aset data i (apply_byte t d f)) data.

(** ** Properties *)

Definition is_byte (z : Z) : Prop := 0 <= z < 256.

Lemma applyFault_spec t n data fault :
  (n <= length data)%nat -> (n <= length fault)%nat ->
  applyFault t n data fault = Ok (zip_with (apply_byte t) (take n data) fault ++ drop n data).
Proof.
  intros Hd Hf. unfold applyFault.
  destruct (for_res_inv
    (fun i a => a = zip_with (apply_byte t) (take i data) fault ++ drop i data) n
    (fun i data => d ← aget data i; f ← aget fault i; aset data i (apply_byte t d f)) data)
    as (a' & -> & ->); [done| |done].
  intros i a Hi ->.
  destruct (lookup_lt_is_Some_2 data i ltac:(lia)) as [d Hdi].
  destruct (lookup_lt_is_Some_2 fault i ltac:(lia)) as [f Hfi].
  assert (length (zip_with (apply_byte t) (take i data) fault) = i) as Hlen.
  { rewrite length_zip_with, length_take. lia. }
  assert ((zip_with (apply_byte t) (take i data) fault ++ drop i data) !! i = Some d) as Hlook.
  { rewrite lookup_app_r by lia. rewrite Hlen, Nat.sub_diag, lookup_drop, Nat.add_0_r. done. }
  unfold aget, aset. rewrite Hlook. cbn [mbind res_bind]. rewrite Hfi. cbn [mbind res_bind].
  eexists. split; [done|].
  rewrite (take_S_r _ _ _ Hdi), (drop_S _ _ _ Hdi).
  rewrite insert_app_r_alt by lia. rewrite Hlen, Nat.sub_diag. cbn.
  rewrite (zip_with_app_l (apply_byte t)), length_take, Nat.min_l by lia.
  rewrite <- app_assoc. f_equal.
  - apply list_eq. intros j. rewrite !lookup_zip_with. destruct (decide (j < i)%nat).
    + by rewrite (lookup_take_lt fault) by lia.
    + by rewrite (proj2 (lookup_ge_None (take i data) j)) by (rewrite length_take; lia).
  - by rewrite (drop_S _ _ _ Hfi).
Qed.

Lemma wnot_land_bits x k : 0 <= x < 256 -> 0 <= k < 8 -> Z.testbit (wnot 8 x) k = negb (Z.testbit x k).
Proof.
  intros Hx Hk. unfold wnot. change (2 ^ 8 - 1 - x) with (Z.pred (2 ^ 8) - x).
  replace (Z.pred (2 ^ 8) - x) with (Z.lnot x mod 2 ^ 8).
  - rewrite Z.mod_pow2_bits_low by lia. apply Z.lnot_spec. lia.
  - unfold Z.lnot. symmetry. apply (Z.mod_unique _ _ (-1)); change (2 ^ 8) with 256; lia.
Qed.

(** The fault model, bit by bit: a mask bit toggles, clears or sets the data bit, and a data
    bit without a mask bit is kept. *)
Definition faulty_bit (t : fault_type_t) (d f : bool) : bool :=
  if f then match t with
            | FAULT_TYPE_TOGGLE => negb d
            | FAULT_TYPE_SET0 => false
            | FAULT_TYPE_SET1 => true
            end
  else d.

(** [applyFault] on a buffer and a mask of at least [data_size] bytes: it succeeds, keeps the
    length and the bytes from [data_size] on, and every bit of the first [data_size] bytes is
    the data bit with the fault of the configured type applied where the mask has a one. *)
Theorem applyFault_correct (t : fault_type_t) (n : nat) (data fault : list Z) :
  (n <= length data)%nat -> (n <= length fault)%nat -> Forall is_byte fault ->
  exists out, applyFault t n data fault = Ok out /\ length out = length data /\
    (forall i, (n <= i)%nat -> out !! i = data !! i) /\
    (forall i d f k, (i < n)%nat -> data !! i = Some d -> fault !! i = Some f -> 0 <= k < 8 ->
       exists o, out !! i = Some o /\ Z.testbit o k = faulty_bit t (Z.testbit d k) (Z.testbit f k)).
Proof.
  intros Hd Hf HF. rewrite applyFault_spec by done. eexists. split; [done|].
  assert (length (zip_with (apply_byte t) (take n data) fault) = n) as Hlen.
  { rewrite length_zip_with, length_take. lia. }
  split; [rewrite length_app, Hlen, length_drop; lia|]. split.
  - intros i Hi. rewrite lookup_app_r by lia. rewrite Hlen, lookup_drop. f_equal. lia.
  - intros i d f k Hi Hdi Hfi Hk. rewrite lookup_app_l by lia.
    rewrite lookup_zip_with, lookup_take_lt, Hdi, Hfi by lia. cbn.
    eexists. split; [done|]. eapply Forall_lookup_1 in HF; [|exact Hfi].
    destruct t; unfold apply_byte, faulty_bit.
    + rewrite Z.lxor_spec. by destruct (Z.testbit d k), (Z.testbit f k).
    + rewrite Z.land_spec, wnot_land_bits by done. by destruct (Z.testbit d k), (Z.testbit f k).
    + rewrite Z.lor_spec. by destruct (Z.testbit d k), (Z.testbit f k).
Qed.

Lemma applyFault_correct_witness :
  exists out, applyFault FAULT_TYPE_TOGGLE 1 [5; 6] [3] = Ok out /\ length out = 2%nat /\
    (forall i, (1 <= i)%nat -> out !! i = [5; 6] !! i) /\
    (forall i d f k, (i < 1)%nat -> [5; 6] !! i = Some d -> [3] !! i = Some f -> 0 <= k < 8 ->
       exists o, out !! i = Some o /\
         Z.testbit o k = faulty_bit FAULT_TYPE_TOGGLE (Z.testbit d k) (Z.testbit f k)).
Proof.
  apply (applyFault_correct FAULT_TYPE_TOGGLE 1 [5; 6] [3]); cbn; [lia|lia|].
  repeat constructor; cbn; lia.
Defined.

(** The random injector draws a bit number below [data_size], which counts bytes: whatever
    the generator returns, the mask bytes from offset [ceil(data_size / 8)] of an access on
    are never touched, so seven eighths of the accessed data cannot be hit. *)
Theorem random_fault_reach (f f' : FaultInjector) (data_size : Z) (mem mem' : list Z) (pos i : nat) :
  0 < data_size < 2 ^ 32 -> preRead f data_size mem pos = Ok (f', mem') ->
  (data_size + 7) / 8 <= Z.of_nat i -> mem' !! (pos + i)%nat = mem !! (pos + i)%nat.
Proof.
  intros Hs H Hi. destruct f as [|core comp act rng]; cbn [preRead] in H; [by simplify_eq|].
  destruct act; [|by simplify_eq].
  destruct (rng_next rng) as [r1 s1]. destruct (r1 mod 65535 =? 0); [|by simplify_eq].
  destruct (Z.eqb_spec data_size 0); [done|]. destruct (rng_next s1) as [r2 s2]. res_inv H.
  apply aset_ok in E0 as [_ ->]. simplify_eq.
  pose proof (Z.mod_pos_bound r2 data_size ltac:(lia)).
  rewrite wrap_small by lia. apply list_lookup_insert_ne.
  set (b := r2 mod data_size) in *.
  assert (b / 8 < (data_size + 7) / 8).
  { apply Z.div_lt_upper_bound; [lia|]. pose proof (Z.div_mod (data_size + 7) 8). 
    pose proof (Z.mod_pos_bound (data_size + 7) 8). lia. }
  pose proof (Z.div_pos b 8). lia.
Qed.

(** A generator state that fires at once, and a read of four bytes: bit 1 of byte 0 is set. *)
Definition fault_example_seed : Z := 0.

Lemma random_fault_reach_witness :
  [2; 0; 0; 0] !! (0 + 1)%nat = [0; 0; 0; 0] !! (0 + 1)%nat.
Proof.
  apply (random_fault_reach (FaultInjectorRandom 0 L1_DCACHE true fault_example_seed)
    (FaultInjectorRandom 0 L1_DCACHE true 277363943098) 4 [0; 0; 0; 0] [2; 0; 0; 0] 0 1);
    [lia|vm_compute; reflexivity|vm_compute; discriminate].
Defined.
