(* ===== verification/Cache.v ===== *)
(** * A cache: address hashing and single-line operations

    Models src/common/core/memory_subsystem/cache/cache_base.{h,cc} and
    cache.{h,cc}.  A cache is an array of cache sets that share one statistics
    object; the operations on lines are proved against the policy interface to
    implement a bounded set of line numbers, and [Cache_new] builds a cache with
    any configured policy. *)

From stdpp Require Import gmap.
From S2P Require Import Prelude Utils AddressHomeLookup CacheBlockInfo CacheSet CachePolicy FaultInjection.

(** ** class CacheBase *)

Inductive hash_t := INVALID_HASH_TYPE | HASH_MASK | HASH_MOD | HASH_RNG1_MOD | HASH_RNG2_MOD.
Inductive access_t := INVALID_ACCESS_TYPE | LOAD | STORE.

#[global] Instance hash_t_eq_dec : EqDecision hash_t.
Proof. solve_decision. Defined.

Record CacheBase := mkCacheBase {
  m_cache_size : Z;
  cb_associativity : nat;
  cb_blocksize : Z;
  m_hash : hash_t;
  m_num_sets : Z;
  m_ahl : option AddressHomeLookup;
  m_log_blocksize : Z
}.

Definition CacheBase_new (num_sets : Z) (assoc : nat) (cache_block_size : Z) (hash : hash_t)
    (ahl : option AddressHomeLookup) : res CacheBase :=
  _ ← assert_ ((num_sets =? Z.shiftl 1 (floorLog2 num_sets)) || negb (bool_decide (hash = HASH_MASK)));
  Ok (mkCacheBase (u64 (num_sets * Z.of_nat assoc * cache_block_size)) assoc cache_block_size
        hash num_sets ahl (u32 (floorLog2 cache_block_size))).

Definition parseAddressHash (hash_name : string) : res hash_t :=
  if bool_decide (hash_name = "mask"%string) then Ok HASH_MASK
  else if bool_decide (hash_name = "mod"%string) then Ok HASH_MOD
  else if bool_decide (hash_name = "rng1_mod"%string) then Ok HASH_RNG1_MOD
  else if bool_decide (hash_name = "rng2_mod"%string) then Ok HASH_RNG2_MOD
  else Err LogError.

(** [x % m_num_sets] *)
Definition mod_sets (b : CacheBase) (x : Z) : res Z :=
  if m_num_sets b =? 0 then Err DivByZero else Ok (u32 (x mod m_num_sets b)).

(** The switch of [splitAddress]. *)
Definition hash_block (b : CacheBase) (block_num : Z) : res Z :=
  match m_hash b with
  | HASH_MASK => Ok (u32 (Z.land block_num (u32 (m_num_sets b - 1))))
  | HASH_MOD => mod_sets b block_num
  | HASH_RNG1_MOD =>
      let state := rng_seed block_num in
      mod_sets b (rng_next state).1
  | HASH_RNG2_MOD =>
      let state := rng_seed block_num in
      let '(_, state) := rng_next state in
      mod_sets b (rng_next state).1
  | INVALID_HASH_TYPE => Err LogError
  end.

(** [splitAddress(addr, tag, set_index)] *)
Definition splitAddress (b : CacheBase) (addr : Z) : res (Z * Z) :=
  let tag := Z.shiftr addr (m_log_blocksize b) in
  linearAddress ← match m_ahl b with
                  | Some ahl => getLinearAddress ahl addr
                  | None => Ok addr
                  end;
  let block_num := Z.shiftr linearAddress (m_log_blocksize b) in
  set_index ← hash_block b block_num;
  Ok (tag, set_index).

(** [splitAddress(addr, tag, set_index, block_offset)] *)
Definition splitAddress_offset (b : CacheBase) (addr : Z) : res (Z * Z * Z) :=
  let block_offset := Z.land addr (u32 (cb_blocksize b - 1)) in
  '(tag, set_index) ← splitAddress b addr;
  Ok (tag, set_index, block_offset).

Definition tagToAddress (b : CacheBase) (tag : Z) : Z := u64 (Z.shiftl tag (m_log_blocksize b)).

(** ** class Cache *)

Record Cache (P I : Type) := mkCache {
  c_base : CacheBase;
  m_enabled : bool;
  m_num_accesses : Z;
  m_num_hits : Z;
  m_cache_type : cache_t;
  m_sets : list (CacheSet P);
  m_set_info : I;
  m_fault_injector : option FaultInjector
}.
Arguments mkCache {P I} _ _ _ _ _ _ _ _.
Arguments c_base {P I} _.
Arguments m_enabled {P I} _.
Arguments m_num_accesses {P I} _.
Arguments m_num_hits {P I} _.
Arguments m_cache_type {P I} _.
Arguments m_sets {P I} _.
Arguments m_set_info {P I} _.
Arguments m_fault_injector {P I} _.

(** The loop of the constructor that creates the sets. *)
Fixpoint create_sets (n : nat) (mk : res (CacheSet AnyPolicy)) : res (list (CacheSet AnyPolicy)) :=
  match n with
  | O => Ok []
  | S n => s ← mk; l ← create_sets n mk; Ok (s :: l)
  end.

Definition Cache_new (cfg : PolicyCfg) (num_sets : Z) (assoc : nat) (cache_block_size : Z)
    (replacement_policy : string) (cache_type : cache_t) (hash : hash_t)
    (fault_injector : option FaultInjector) (faults : bool) (ahl : option AddressHomeLookup)
  : res (Cache AnyPolicy AnyInfo) :=
  b ← CacheBase_new num_sets assoc cache_block_size hash ahl;
  info ← createCacheSetInfo cfg replacement_policy assoc;
  sets ← create_sets (Z.to_nat num_sets)
           (createCacheSet cfg replacement_policy cache_type assoc cache_block_size faults);
  Ok (mkCache b false 0 0 cache_type sets info fault_injector).

Section Cache.
Context {P I : Type} `{!ReplacementPolicy P I}.
Implicit Types (c : Cache P I).

Definition c_with c (sets : list (CacheSet P)) (info : I) (f : option FaultInjector) : Cache P I :=
  mkCache (c_base c) (m_enabled c) (m_num_accesses c) (m_num_hits c) (m_cache_type c) sets info f.

Definition invalidateSingleLine c (addr : Z) : res (bool * Cache P I) :=
  '(tag, set_index) ← splitAddress (c_base c) addr;
  _ ← assert_ (set_index <? m_num_sets (c_base c));
  s ← aget (m_sets c) (Z.to_nat set_index);
  let '(hit, s) := invalidate s tag in
  Ok (hit, c_with c (<[Z.to_nat set_index := s]> (m_sets c)) (m_set_info c) (m_fault_injector c)).

(** A call of the injector on the data pointer of a line. *)
Definition inject (op : FaultInjector -> Z -> list Z -> nat -> res (FaultInjector * list Z))
    (f : option FaultInjector) (s : CacheSet P) (line_index : nat) (offset bytes : Z)
  : res (option FaultInjector * CacheSet P) :=
  match f with
  | None => Ok (None, s)
  | Some f =>
      '(f, mem) ← op f bytes (default [] (m_blocks s)) (Z.to_nat (data_pos s line_index offset));
      Ok (Some f, set_blocks s ((fun _ => mem) <$> m_blocks s))
  end.

(** The result is the pointer returned (set and way, or [NULL]) and the bytes copied to
    [buff] by a load. *)
Definition accessSingleLine c (addr : Z) (access_type : access_t) (buff : option (list Z))
    (bytes : Z) (update_replacement : bool)
  : res (option (nat * nat) * option (list Z) * Cache P I) :=
  '(tag, set_index, block_offset) ← splitAddress_offset (c_base c) addr;
  let set_index := Z.to_nat set_index in
  s ← aget (m_sets c) set_index;
  match find s tag with
  | None => Ok (None, None, c)
  | Some line_index =>
      match access_type with
      | LOAD =>
          '(f, s) ← inject preRead (m_fault_injector c) s line_index block_offset bytes;
          '(out, info, s) ← read_line s (m_set_info c) line_index block_offset
                              (bool_decide (is_Some buff)) bytes update_replacement;
          Ok (Some (set_index, line_index), out,
              c_with c (<[set_index := s]> (m_sets c)) info f)
      | _ =>
          '(info, s) ← write_line s (m_set_info c) line_index block_offset buff bytes
                         update_replacement;
          '(f, s) ← inject postWrite (m_fault_injector c) s line_index block_offset bytes;
          Ok (Some (set_index, line_index), None,
              c_with c (<[set_index := s]> (m_sets c)) info f)
      end
  end.

Record LineInserted := mkLineInserted {
  li_eviction : bool;
  li_evict_addr : Z;
  li_evict_info : CacheBlockInfo;
  li_evict_buff : option (list Z);
  li_qbs_lookups : nat;
  li_cache : Cache P I
}.

Definition insertSingleLine c (addr : Z) (fill_buff : option (list Z))
    (evict_block_info : CacheBlockInfo) (want_evict : bool) (cntlr : option CacheCntlr)
  : res LineInserted :=
  '(tag, set_index) ← splitAddress (c_base c) addr;
  let set_index := Z.to_nat set_index in
  block ← create (m_cache_type c);
  let cache_block_info := setTag block tag in
  s ← aget (m_sets c) set_index;
  r ← insert s (m_set_info c) cntlr cache_block_info fill_buff evict_block_info want_evict;
  let evict_addr := tagToAddress (c_base c) (m_tag (ins_evict_info r)) in
  '(f, s) ← match m_fault_injector c with
            | None => Ok (None, ins_set r)
            | Some f =>
                match find (ins_set r) tag with
                | None => Err AssertFailed
                | Some line_index =>
                    inject postWrite (Some f) (ins_set r) line_index 0 (m_blocksize (ins_set r))
                end
            end;
  Ok (mkLineInserted (ins_eviction r) evict_addr (ins_evict_info r) (ins_evict_buff r)
        (ins_qbs_lookups r) (c_with c (<[set_index := s]> (m_sets c)) (ins_info r) f)).

Definition peekSingleLine c (addr : Z) : res (option (nat * nat)) :=
  '(tag, set_index) ← splitAddress (c_base c) addr;
  s ← aget (m_sets c) (Z.to_nat set_index);
  Ok ((fun way => (Z.to_nat set_index, way)) <$> find s tag).

Definition cache_peekBlock c (set_index way : nat) : res CacheBlockInfo :=
  s ← aget (m_sets c) set_index; peekBlock s way.

(** A method call on a block through the pointer that [peekSingleLine] returned. *)
Definition update_block c (set_index way : nat) (f : CacheBlockInfo -> CacheBlockInfo) : Cache P I :=
  c_with c (alter (fun cs => set_array cs (alter f way (m_cache_block_info_array cs))) set_index (m_sets c))
    (m_set_info c) (m_fault_injector c).

Definition updateCounters c (cache_hit : bool) : Cache P I :=
  if m_enabled c then
    mkCache (c_base c) (m_enabled c) (u64 (m_num_accesses c + 1))
      (if cache_hit then u64 (m_num_hits c + 1) else m_num_hits c)
      (m_cache_type c) (m_sets c) (m_set_info c) (m_fault_injector c)
  else c.

Definition updateHits c (hits : Z) : Cache P I :=
  if m_enabled c then
    mkCache (c_base c) (m_enabled c) (u64 (m_num_accesses c + hits)) (u64 (m_num_hits c + hits))
      (m_cache_type c) (m_sets c) (m_set_info c) (m_fault_injector c)
  else c.

Definition set_enabled c (b : bool) : Cache P I :=
  mkCache (c_base c) b (m_num_accesses c) (m_num_hits c) (m_cache_type c) (m_sets c)
    (m_set_info c) (m_fault_injector c).
End Cache.
Arguments LineInserted P I : clear implicits.

(** ** Address splitting *)

Definition base_wf (b : CacheBase) : Prop :=
  1 <= m_log_blocksize b <= 31 /\ cb_blocksize b = 2 ^ m_log_blocksize b /\
  0 < m_num_sets b < 2 ^ 32 /\ m_hash b <> INVALID_HASH_TYPE /\
  (m_hash b = HASH_MASK -> exists k, 0 <= k /\ m_num_sets b = 2 ^ k) /\
  match m_ahl b with
  | Some a => ahl_wf a /\ m_log_blocksize b <= m_ahl_param a
  | None => True
  end.

(** The constructor establishes it for block sizes that are powers of two; the last condition
    is the assertion of AddressHomeLookup's constructor. *)
Lemma CacheBase_new_wf num_sets assoc l hash ahl b :
  1 <= l <= 31 -> 0 < num_sets < 2 ^ 32 -> hash <> INVALID_HASH_TYPE ->
  match ahl with Some a => ahl_wf a /\ l <= m_ahl_param a | None => True end ->
  CacheBase_new num_sets assoc (2 ^ l) hash ahl = Ok b ->
  base_wf b /\ m_log_blocksize b = l /\ cb_associativity b = assoc /\ m_num_sets b = num_sets.
Proof.
  intros Hl Hn Hh Hahl H. unfold CacheBase_new in H. res_inv H. simplify_eq. unfold base_wf; cbn.
  rewrite floorLog2_pow2 by lia. rewrite wrap_small by lia.
  split; [|done]. split_and!; try done; try lia.
  intros ->. exists (floorLog2 num_sets). unfold assert_ in E. rewrite bool_decide_true in E by done.
  rewrite orb_false_r in E. destruct (Z.eqb_spec num_sets (Z.shiftl 1 (floorLog2 num_sets))) as [En|]; [|done].
  rewrite floorLog2_correct in * by lia. split; [apply Z.log2_nonneg|].
  by rewrite Z.shiftl_mul_pow2, Z.mul_1_l in En by apply Z.log2_nonneg.
Qed.

Lemma hash_block_ok b n :
  base_wf b -> exists s, hash_block b n = Ok s /\ 0 <= s < m_num_sets b.
Proof.
  intros (_ & _ & Hn & Hh & Hm & _). unfold hash_block, mod_sets.
  destruct (Z.eqb_spec (m_num_sets b) 0); [lia|].
  assert (forall x, u32 (x mod m_num_sets b) = x mod m_num_sets b /\
                    0 <= x mod m_num_sets b < m_num_sets b) as Hmod.
  { intros x. pose proof (Z.mod_pos_bound x (m_num_sets b)). rewrite wrap_small; lia. }
  destruct (m_hash b); [done| | | |].
  - destruct Hm as (k & Hk & Ek); [done|]. eexists; split; [done|].
    rewrite (wrap_small 32 (_ - 1)) by lia.
    replace (m_num_sets b - 1) with (Z.ones k) by (rewrite Z.ones_equiv; lia).
    rewrite Z.land_ones, <- Ek by lia. destruct (Hmod n) as [-> ?]. done.
  - eexists; split; [done|]. by destruct (Hmod n) as [-> ?].
  - eexists; split; [done|]. by destruct (Hmod (rng_next (rng_seed n)).1) as [-> ?].
  - destruct (rng_next (rng_seed n)) as [x st]. eexists; split; [done|].
    by destruct (Hmod (rng_next st).1) as [-> ?].
Qed.

(** The block number that is hashed is a function of the line: a home node interleaves at
    least whole lines. *)
Definition line_block (b : CacheBase) (t : Z) : Z :=
  match m_ahl b with
  | Some a =>
      let d := 2 ^ (m_ahl_param a - m_log_blocksize b) in
      t / d / m_total_modules a * d + t mod d
  | None => t
  end.

Lemma linear_line b a addr la :
  base_wf b -> m_ahl b = Some a -> in_width 64 addr -> getLinearAddress a addr = Ok la ->
  Z.shiftr la (m_log_blocksize b) = line_block b (addr / 2 ^ m_log_blocksize b).
Proof.
  intros (Hl & _ & _ & _ & _ & Ha) Ea Hw H. unfold line_block. rewrite Ea in *.
  destruct Ha as [Hwf Hk]. rewrite (linear_address_arith a addr Hwf Hw) in H. simplify_eq.
  destruct Hwf as (Hp & _ & _ & HN).
  set (l := m_log_blocksize b) in *. set (k := m_ahl_param a) in *. set (N := m_total_modules a) in *.
  assert (2 ^ k = 2 ^ l * 2 ^ (k - l)) as Ek by (rewrite <- Z.pow_add_r by lia; f_equal; lia).
  assert (0 < 2 ^ l) by (apply Z.pow_pos_nonneg; lia).
  assert (0 < 2 ^ (k - l)) by (apply Z.pow_pos_nonneg; lia).
  rewrite Z.shiftr_div_pow2 by lia. rewrite Ek at 2.
  rewrite (Z.mul_comm (2 ^ l) (2 ^ (k - l))), Z.mul_assoc, Z.div_add_l by lia.
  f_equal.
  - rewrite Ek, <- Z.div_div by lia. done.
  - rewrite Ek, Z.rem_mul_r by lia. rewrite Z.mul_comm, Z.div_add by lia.
    rewrite Z.div_small; [lia|]. apply Z.mod_pos_bound. lia.
Qed.

Lemma splitAddress_ok b addr :
  base_wf b -> in_width 64 addr ->
  exists s, splitAddress b addr = Ok (addr / 2 ^ m_log_blocksize b, s) /\
    hash_block b (line_block b (addr / 2 ^ m_log_blocksize b)) = Ok s /\ 0 <= s < m_num_sets b.
Proof.
  intros Hwf Hw.
  destruct (hash_block_ok b (line_block b (addr / 2 ^ m_log_blocksize b)) Hwf) as (s & Hs & Hr).
  exists s. split; [|done]. unfold splitAddress.
  rewrite (Z.shiftr_div_pow2 addr) by (destruct Hwf; lia).
  destruct (m_ahl b) as [a|] eqn:Ea; cbn [mbind res_bind].
  - pose proof Hwf as (_ & _ & _ & _ & _ & Ha). rewrite Ea in Ha. destruct Ha as [Ha _].
    rewrite (linear_address_arith a addr Ha Hw). cbn [mbind res_bind].
    rewrite (linear_line b a addr _ Hwf Ea Hw (linear_address_arith a addr Ha Hw)). by rewrite Hs.
  - unfold line_block in Hs. rewrite Ea in Hs. rewrite Z.shiftr_div_pow2 by (destruct Hwf; lia).
    by rewrite Hs.
Qed.

(** C34: Splitting an address loses nothing and is uniform over a line: it succeeds with a set
    inside the cache, [tagToAddress] of the tag plus the block offset is the address again,
    and every address of the same line gets the same tag and set, for each hash function and
    with home-node interleaving. *)
Theorem splitAddress_roundtrip (b : CacheBase) (addr : Z) :
  base_wf b -> in_width 64 addr ->
  exists tag set_index offset,
    splitAddress_offset b addr = Ok (tag, set_index, offset) /\
    0 <= set_index < m_num_sets b /\ 0 <= offset < cb_blocksize b /\
    tagToAddress b tag + offset = addr /\
    forall addr', tagToAddress b tag <= addr' < tagToAddress b tag + cb_blocksize b ->
      splitAddress b addr' = Ok (tag, set_index).
Proof.
  intros Hwf Hw. pose proof Hwf as (Hl & Hbs & _). pose proof Hw as [Hw0 Hw1].
  destruct (splitAddress_ok b addr Hwf Hw) as (s & Hs & Hh & Hr).
  set (l := m_log_blocksize b) in *. assert (0 < 2 ^ l <= 2 ^ 31) as Hp.
  { split; [apply Z.pow_pos_nonneg; lia|apply Z.pow_le_mono_r; lia]. }
  pose proof (Z.div_mod addr (2 ^ l) ltac:(lia)). pose proof (Z.mod_pos_bound addr (2 ^ l) ltac:(lia)).
  pose proof (Z.div_pos addr (2 ^ l)).
  assert (tagToAddress b (addr / 2 ^ l) = addr / 2 ^ l * 2 ^ l) as Ht.
  { unfold tagToAddress. fold l. rewrite Z.shiftl_mul_pow2 by lia. apply wrap_small. lia. }
  exists (addr / 2 ^ l), s, (addr mod 2 ^ l). unfold splitAddress_offset. rewrite Hs. cbn [mbind res_bind].
  rewrite Hbs, (wrap_small 32 (2 ^ l - 1)) by lia.
  replace (2 ^ l - 1) with (Z.ones l) by (rewrite Z.ones_equiv; lia).
  rewrite Z.land_ones by lia. split; [done|]. split; [done|]. split; [done|].
  rewrite Ht. split; [lia|]. intros addr' Ha'.
  assert (addr' / 2 ^ l = addr / 2 ^ l) as Ed by (symmetry; apply (Z.div_unique _ _ _ (addr' - addr / 2 ^ l * 2 ^ l)); lia).
  assert (in_width 64 addr') as Hw'.
  { assert (2 ^ 64 = 2 ^ (64 - l) * 2 ^ l) as E64 by (rewrite <- Z.pow_add_r by lia; f_equal; lia).
    assert (addr / 2 ^ l < 2 ^ (64 - l)) by (apply Z.div_lt_upper_bound; lia).
    unfold in_width. nia. }
  destruct (splitAddress_ok b addr' Hwf Hw') as (s' & Hs' & Hh' & _). fold l in Hs', Hh'.
  rewrite Ed in *. rewrite Hh in Hh'. by simplify_eq.
Qed.

Definition base_example : CacheBase := mkCacheBase 4096 4 64 HASH_RNG2_MOD 16 (Some ahl_example) 6.

Lemma base_example_wf : base_wf base_example.
Proof. unfold base_wf, ahl_wf; cbn. split_and!; try done; try lia. Qed.

Lemma splitAddress_roundtrip_witness :
  exists tag set_index offset,
    splitAddress_offset base_example 123456 = Ok (tag, set_index, offset) /\
    0 <= set_index < m_num_sets base_example /\ 0 <= offset < cb_blocksize base_example /\
    tagToAddress base_example tag + offset = 123456 /\
    forall addr', tagToAddress base_example tag <= addr' < tagToAddress base_example tag + 64 ->
      splitAddress base_example addr' = Ok (tag, set_index).
Proof.
  apply (splitAddress_roundtrip base_example 123456); [apply base_example_wf|].
  unfold in_width; lia.
Defined.

(** Sets that contain a part [X], of which one element is removed or replaced. *)
Lemma part_remove (X L : gset Z) t :
  X ⊆ L -> (t ∈ L -> t ∈ X) -> (X ∖ {[t]}) ∪ (L ∖ X) = L ∖ {[t]}.
Proof.
  intros HX Ht. apply set_eq. intros x.
  rewrite elem_of_union, !elem_of_difference, elem_of_singleton.
  destruct (decide (x ∈ X)) as [Hx|Hx]; [specialize (HX x Hx)|]; naive_solver.
Qed.

Lemma part_replace (X L E : gset Z) t :
  E ⊆ X -> X ⊆ L -> ({[t]} ∪ (X ∖ E)) ∪ (L ∖ X) = {[t]} ∪ (L ∖ E).
Proof.
  intros HE HX. apply set_eq. intros x.
  rewrite !elem_of_union, !elem_of_difference, elem_of_singleton.
  destruct (decide (x ∈ X)) as [Hx|Hx].
  - specialize (HX x Hx). naive_solver.
  - assert (x ∉ E) by (intros ?; by apply Hx, HE). naive_solver.
Qed.

Lemma size_union_le (X Y : gset Z) : (size (X ∪ Y) <= size X + size Y)%nat.
Proof.
  rewrite size_union_alt. assert (size (Y ∖ X) <= size Y)%nat; [|lia].
  apply subseteq_size. set_solver.
Qed.

Lemma size_list_to_set_le (l : list Z) : (size (list_to_set l : gset Z) <= length l)%nat.
Proof.
  induction l as [|x l IH]; cbn; [rewrite size_empty; lia|].
  etrans; [apply size_union_le|]. rewrite size_singleton. lia.
Qed.

(** ** The cache as a set of lines *)

Definition line_of (b : CacheBase) (addr : Z) : Z := addr / 2 ^ m_log_blocksize b.

Section cache_facts.
Context {P I : Type} `{!ReplacementPolicy P I, !ReplacementPolicyOk P I}.
Implicit Types (c : Cache P I).

(** The lines a cache holds. *)
Definition lines c : gset Z := ⋃ (set_tags <$> m_sets c).

(** Every set is well formed, and every line is in the set its address hashes to. *)
Definition sets_wf (b : CacheBase) (sets : list (CacheSet P)) : Prop :=
  Z.of_nat (length sets) = m_num_sets b /\
  forall i s, sets !! i = Some s ->
    set_wf (cb_associativity b) s /\ m_blocksize s = cb_blocksize b /\
    forall t, t ∈ set_tags s ->
      hash_block b (line_block b t) = Ok (Z.of_nat i) /\ 0 <= t < 2 ^ (64 - m_log_blocksize b).

Definition cache_wf c : Prop :=
  base_wf (c_base c) /\ sets_wf (c_base c) (m_sets c) /\
  info_wf (cb_associativity (c_base c)) (m_set_info c).

Lemma elem_of_lines c t : t ∈ lines c <-> exists i s, m_sets c !! i = Some s /\ t ∈ set_tags s.
Proof.
  unfold lines. rewrite elem_of_union_list. split.
  - intros (X & HX & Ht). apply list_elem_of_fmap in HX as (s & -> & Hs).
    apply list_elem_of_lookup in Hs as [i Hi]. eauto.
  - intros (i & s & Hs & Ht). exists (set_tags s). split; [|done].
    apply (list_elem_of_fmap_2 set_tags). apply list_elem_of_lookup. eauto.
Qed.

Lemma set_in_lines c i s : m_sets c !! i = Some s -> set_tags s ⊆ lines c.
Proof. intros Hs t Ht. apply elem_of_lines. eauto. Qed.

(** The set that an address selects, and its tag. *)
Lemma cache_select c addr :
  cache_wf c -> in_width 64 addr ->
  exists i s, splitAddress (c_base c) addr = Ok (line_of (c_base c) addr, Z.of_nat i) /\
    Z.of_nat i < m_num_sets (c_base c) /\
    hash_block (c_base c) (line_block (c_base c) (line_of (c_base c) addr)) = Ok (Z.of_nat i) /\
    m_sets c !! i = Some s /\ 0 <= line_of (c_base c) addr < 2 ^ (64 - m_log_blocksize (c_base c)).
Proof.
  intros (Hb & (Hlen & Hs) & Hi) Hw.
  destruct (splitAddress_ok (c_base c) addr Hb Hw) as (n & Hsp & Hh & Hr).
  destruct (lookup_lt_is_Some_2 (m_sets c) (Z.to_nat n) ltac:(lia)) as [s Hsn].
  exists (Z.to_nat n), s. rewrite Z2Nat.id by lia. split_and!; try done; try lia.
  - unfold line_of. destruct Hw, Hb as (Hl & _). apply Z.div_pos; [lia|apply Z.pow_pos_nonneg; lia].
  - unfold line_of. destruct Hb as (Hl & _), Hw as [Hw0 Hw1].
    apply Z.div_lt_upper_bound; [apply Z.pow_pos_nonneg; lia|].
    rewrite <- Z.pow_add_r by lia. by replace (_ + _) with 64 by lia.
Qed.

Lemma line_not_none b t : base_wf b -> 0 <= t < 2 ^ (64 - m_log_blocksize b) -> t <> TAG_NONE.
Proof.
  intros (Hl & _) [_ Ht]. unfold TAG_NONE.
  assert (2 ^ (64 - m_log_blocksize b) <= 2 ^ 63) by (apply Z.pow_le_mono_r; lia). lia.
Qed.

Lemma tagToAddress_ok b t :
  base_wf b -> 0 <= t < 2 ^ (64 - m_log_blocksize b) ->
  in_width 64 (tagToAddress b t) /\ line_of b (tagToAddress b t) = t.
Proof.
  intros (Hl & _) Ht. unfold tagToAddress, line_of.
  set (l := m_log_blocksize b) in *. assert (0 < 2 ^ l) by (apply Z.pow_pos_nonneg; lia).
  assert (2 ^ 64 = 2 ^ (64 - l) * 2 ^ l) as E64 by (rewrite <- Z.pow_add_r by lia; f_equal; lia).
  assert (0 <= t * 2 ^ l < 2 ^ 64).
  { split; [nia|]. rewrite E64. apply Z.mul_lt_mono_pos_r; lia. }
  rewrite Z.shiftl_mul_pow2, wrap_small by lia. split; [done|].
  apply Z.div_mul. lia.
Qed.

(** A line is cached exactly if the set it hashes to holds it. *)
Lemma line_in_set c i s t :
  cache_wf c -> hash_block (c_base c) (line_block (c_base c) t) = Ok (Z.of_nat i) ->
  m_sets c !! i = Some s -> t ∈ lines c <-> t ∈ set_tags s.
Proof.
  intros (_ & (_ & Hs) & _) Hh Hi. rewrite elem_of_lines. split; [|eauto].
  intros (j & s' & Hj & Ht). destruct (Hs j s' Hj) as (_ & _ & Hhash).
  destruct (Hhash _ Ht) as [Hh' _]. rewrite Hh in Hh'. by simplify_eq.
Qed.

(** Replacing one set: the invariant and the lines of the new cache. *)
Lemma replace_set c i s s' info f :
  cache_wf c -> m_sets c !! i = Some s ->
  set_wf (cb_associativity (c_base c)) s' -> m_blocksize s' = m_blocksize s ->
  (forall t, t ∈ set_tags s' ->
     t ∈ set_tags s \/
     hash_block (c_base c) (line_block (c_base c) t) = Ok (Z.of_nat i) /\
     0 <= t < 2 ^ (64 - m_log_blocksize (c_base c))) ->
  info_wf (cb_associativity (c_base c)) info ->
  let c' := c_with c (<[i := s']> (m_sets c)) info f in
  cache_wf c' /\ lines c' = set_tags s' ∪ (lines c ∖ set_tags s).
Proof.
  intros (Hb & (Hlen & Hs) & Hi) Hsi Hwf' Hbs Hnew Hinfo c'.
  pose proof (lookup_lt_Some _ _ _ Hsi) as Hlt.
  assert (forall j x, <[i := s']> (m_sets c) !! j = Some x <->
            (j = i /\ x = s') \/ (j <> i /\ m_sets c !! j = Some x)) as Hlk.
  { intros j x. destruct (decide (j = i)) as [->|].
    - rewrite list_lookup_insert_eq by done. intuition congruence.
    - rewrite list_lookup_insert_ne by done. intuition congruence. }
  destruct (Hs i s Hsi) as (_ & Hbi & Hhi). split.
  - split; [done|]. split; [|done]. split; cbn; [by rewrite length_insert|].
    intros j x Hx. apply Hlk in Hx as [[-> ->] | [Hne Hx]]; [|by apply Hs].
    split; [done|]. split; [congruence|]. intros t [Ht|Ht]%Hnew; [by apply Hhi|done].
  - apply set_eq. intros t. rewrite elem_of_union, elem_of_difference, !elem_of_lines. cbn.
    setoid_rewrite Hlk. split.
    + intros (j & x & [[-> ->] | [Hne Hx]] & Ht); [by left|].
      right. split; [eauto|]. intros Hts. apply Hhi in Hts as [Hts _]. destruct (Hs j x Hx) as (_ & _ & Hj).
      apply Hj in Ht as [Ht _]. rewrite Hts in Ht. by simplify_eq.
    + intros [Ht | [(j & x & Hx & Ht) Hn]]; [eauto 6|].
      exists j, x. split; [|done]. right. split; [|done]. intros ->. by simplify_eq.
Qed.

Lemma invalidate_line_spec c addr :
  cache_wf c -> in_width 64 addr ->
  exists hit c', invalidateSingleLine c addr = Ok (hit, c') /\ cache_wf c' /\
    lines c' = lines c ∖ {[line_of (c_base c) addr]} /\
    (hit = true <-> line_of (c_base c) addr ∈ lines c) /\ c_base c' = c_base c.
Proof.
  intros Hwf Hw. destruct (cache_select c addr Hwf Hw) as (i & s & Hsp & Hi & Hh & Hs & Ht).
  pose proof (line_in_set c i s _ Hwf Hh Hs) as Hline.
  pose proof Hwf as (Hb & (Hlen & Hsets) & Hinfo). destruct (Hsets i s Hs) as (Hswf & _ & _).
  unfold invalidateSingleLine. rewrite Hsp. cbn [mbind res_bind].
  rewrite (proj2 (Z.ltb_lt _ _) Hi), Nat2Z.id. cbn [assert_ mbind res_bind].
  unfold aget. rewrite Hs. cbn [mbind res_bind].
  pose proof (invalidate_spec _ s (line_of (c_base c) addr) Hswf (line_not_none _ _ Hb Ht)) as Hspec.
  destruct (invalidate s (line_of (c_base c) addr)) as [hit s'].
  destruct Hspec as (Hswf' & Htags & Hhit & Hbs). eexists _, _. split; [done|].
  destruct (replace_set c i s s' (m_set_info c) (m_fault_injector c) Hwf Hs Hswf' Hbs) as [Hwf' Hl];
    [intros t; rewrite Htags, elem_of_difference; tauto|done|].
  split; [done|]. split; [|by rewrite Hline].
  rewrite Hl, Htags. apply part_remove; [by eapply set_in_lines|apply Hline].
Qed.

Lemma tags_alter f (blocks : list CacheBlockInfo) (way : nat) :
  (forall b, m_tag (f b) = m_tag b) -> m_tag <$> alter f way blocks = m_tag <$> blocks.
Proof.
  intros Hf. revert way. induction blocks as [|b blocks IH]; intros [|way]; cbn; [done|done|by rewrite Hf|].
  f_equal. apply IH.
Qed.

Lemma unique_tags_ext (bs bs' : list CacheBlockInfo) :
  m_tag <$> bs' = m_tag <$> bs -> unique_tags bs -> unique_tags bs'.
Proof.
  intros E H i j bi bj Hi Hj.
  assert (forall k (b : CacheBlockInfo), bs' !! k = Some b -> exists b', bs !! k = Some b' /\ m_tag b' = m_tag b) as Hl.
  { intros k b Hk. assert ((m_tag <$> bs) !! k = Some (m_tag b)) as Hm by (by rewrite <- E, list_lookup_fmap, Hk).
    rewrite list_lookup_fmap in Hm. destruct (bs !! k) as [b'|]; [|done]. exists b'. cbn in Hm. split; congruence. }
  destruct (Hl i bi Hi) as (ci & Hci & <-), (Hl j bj Hj) as (cj & Hcj & <-). by eapply H.
Qed.

(** An update of a block that keeps its tag keeps the cache well formed and its lines. *)
Lemma update_block_ok c i way f :
  (forall b, m_tag (f b) = m_tag b) -> cache_wf c ->
  cache_wf (update_block c i way f) /\ lines (update_block c i way f) = lines c.
Proof.
  intros Hf Hc. destruct (m_sets c !! i) as [cs|] eqn:Hi.
  - set (cs' := set_array cs (alter f way (m_cache_block_info_array cs))).
    assert (update_block c i way f = c_with c (<[i := cs']> (m_sets c)) (m_set_info c) (m_fault_injector c)) as ->.
    { unfold update_block. f_equal. by rewrite (alter_insert _ _ _ _ Hi). }
    pose proof Hc as (_ & (_ & Hs) & Hinfo). destruct (Hs i cs Hi) as ((H1 & H2 & H3) & _).
    assert (set_tags cs' = set_tags cs) as Ht by (unfold set_tags, tags; cbn; by rewrite tags_alter).
    destruct (replace_set c i cs cs' (m_set_info c) (m_fault_injector c)) as [Hwf Hl]; try done.
    + split; [unfold associativity; cbn; by rewrite length_alter|]. split; [|done].
      eapply unique_tags_ext; [|exact H2]. by apply tags_alter.
    + intros t. rewrite Ht. auto.
    + split; [done|]. rewrite Hl, Ht. symmetry. apply union_difference_L, (set_in_lines c i cs Hi).
  - unfold update_block. rewrite alter_none by done. by destruct c.
Qed.

Lemma peek_line_spec c addr :
  cache_wf c -> in_width 64 addr ->
  exists r, peekSingleLine c addr = Ok r /\ (is_Some r <-> line_of (c_base c) addr ∈ lines c).
Proof.
  intros Hwf Hw. destruct (cache_select c addr Hwf Hw) as (i & s & Hsp & Hi & Hh & Hs & Ht).
  pose proof Hwf as (Hb & _). unfold peekSingleLine. rewrite Hsp. cbn [mbind res_bind].
  rewrite Nat2Z.id. unfold aget. rewrite Hs. cbn [mbind res_bind]. eexists. split; [done|].
  rewrite fmap_is_Some, (line_in_set c i s _ Hwf Hh Hs).
  pose proof (find_none s _ (line_not_none _ _ Hb Ht)) as Hf.
  destruct (find s (line_of (c_base c) addr)) as [w|].
  - split; [|done]. intros _. destruct (decide (line_of (c_base c) addr ∈ set_tags s)); [done|].
    apply Hf in n. done.
  - split; [by intros []|]. intros. by destruct (proj1 Hf eq_refl).
Qed.

(** An injector only edits bytes of the data array. *)
Definition keeps_length
    (op : FaultInjector -> Z -> list Z -> nat -> res (FaultInjector * list Z)) : Prop :=
  forall f n mem pos f' mem', op f n mem pos = Ok (f', mem') -> length mem' = length mem.

Lemma preRead_length : keeps_length preRead.
Proof.
  intros f n mem pos f' mem' H. destruct f as [|core comp act rng]; cbn [preRead] in H; [by simplify_eq|].
  destruct act; [|by simplify_eq]. destruct (rng_next rng) as [r1 s1].
  destruct (r1 mod 65535 =? 0); [|by simplify_eq].
  destruct (n =? 0); [done|]. destruct (rng_next s1) as [r2 s2]. res_inv H.
  apply aset_ok in E0 as [_ ->]. simplify_eq. by rewrite length_insert.
Qed.

Lemma postWrite_length : keeps_length postWrite.
Proof. intros f n mem pos f' mem' H. by injection H as <- <-. Qed.

Lemma inject_spec op assoc f (s : CacheSet P) i off n f' s' :
  keeps_length op -> set_wf assoc s -> inject op f s i off n = Ok (f', s') ->
  set_wf assoc s' /\ m_cache_block_info_array s' = m_cache_block_info_array s /\
  m_blocksize s' = m_blocksize s.
Proof.
  intros Hop (Ha & Hu & Hp & Hbs & Hm) H. unfold inject in H.
  destruct f as [f|]; [|by simplify_eq]. res_inv H. destruct a as [f1 mem]. simplify_eq.
  apply Hop in E. split_and!; try done. destruct (m_blocks s) as [m|]; [|done].
  unfold set_wf; cbn in *. rewrite E. done.
Qed.

Lemma find_lt (s : CacheSet P) assoc tag i :
  set_wf assoc s -> find s tag = Some i -> (i < assoc)%nat.
Proof.
  intros (Ha & _) Hf. apply find_some in Hf as (b & Hb & _). apply lookup_lt_Some in Hb.
  unfold associativity in Ha. lia.
Qed.

(** The offset part of a split address. *)
Lemma split_offset c addr i :
  splitAddress (c_base c) addr = Ok (line_of (c_base c) addr, Z.of_nat i) -> in_width 64 addr ->
  exists off, splitAddress_offset (c_base c) addr = Ok (line_of (c_base c) addr, Z.of_nat i, off) /\
    0 <= off.
Proof.
  intros H Hw. unfold splitAddress_offset. rewrite H. cbn [mbind res_bind]. eexists. split; [done|].
  apply Z.land_nonneg. left. apply Hw.
Qed.

Lemma write_then_inject assoc (s : CacheSet P) info i off buff n upd f info1 s1 f2 s2 :
  set_wf assoc s -> info_wf assoc info -> (i < assoc)%nat -> 0 <= off -> 0 <= n ->
  write_line s info i off buff n upd = Ok (info1, s1) ->
  inject postWrite f s1 i off n = Ok (f2, s2) ->
  set_wf assoc s2 /\ info_wf assoc info1 /\
  m_cache_block_info_array s2 = m_cache_block_info_array s /\ m_blocksize s2 = m_blocksize s.
Proof.
  intros Hs Hi Hlt Ho Hn Hwr Hinj.
  eapply write_line_spec in Hwr as (Hswf1 & Hinf1 & Harr1 & Hbs1); [|done..].
  eapply inject_spec in Hinj as (? & ? & ?); [|apply postWrite_length|done].
  split_and!; congruence || done.
Qed.

(** What an access changes: nothing, or the set of a line that is found, but not its tags and states. *)
Lemma access_line_inv c addr ty buff n upd r out c' :
  cache_wf c -> in_width 64 addr -> 0 <= n ->
  accessSingleLine c addr ty buff n upd = Ok (r, out, c') ->
  (c' = c /\ r = None /\ line_of (c_base c) addr ∉ lines c) \/
  exists i w s s' info f, m_sets c !! i = Some s /\ line_of (c_base c) addr ∈ set_tags s /\
    c' = c_with c (<[i := s']> (m_sets c)) info f /\ r = Some (i, w) /\
    set_wf (cb_associativity (c_base c)) s' /\ info_wf (cb_associativity (c_base c)) info /\
    m_cache_block_info_array s' = m_cache_block_info_array s /\ m_blocksize s' = m_blocksize s.
Proof.
  intros Hwf Hw Hn H. destruct (cache_select c addr Hwf Hw) as (i & s & Hsp & Hi & Hh & Hs & Ht).
  pose proof (line_in_set c i s _ Hwf Hh Hs) as Hline.
  pose proof Hwf as (Hb & (Hlen & Hsets) & Hinfo). destruct (Hsets i s Hs) as (Hswf & _ & _).
  destruct (split_offset c addr i Hsp Hw) as (off & Hso & Hoff).
  unfold accessSingleLine in H. rewrite Hso in H. cbn [mbind res_bind] in H.
  unfold aget in H. rewrite Nat2Z.id, Hs in H. cbn [mbind res_bind] in H.
  pose proof (find_none s _ (line_not_none _ _ Hb Ht)) as Hf.
  destruct (find s (line_of (c_base c) addr)) as [w|] eqn:Ef.
  2:{ simplify_eq. left. split_and!; try done. rewrite Hline. by apply Hf. }
  pose proof (find_lt s _ _ _ Hswf Ef) as Hlt. right. exists i, w, s.
  assert (line_of (c_base c) addr ∈ set_tags s) as Hin.
  { destruct (decide (line_of (c_base c) addr ∈ set_tags s)) as [?|n0]; [done|]. by apply Hf in n0. }
  destruct ty; res_inv H; destruct a as [x y]; res_inv H.
  - destruct a as [f s2]. simplify_eq. do 3 eexists. do 4 (split; [done|]).
    eapply write_then_inject; [..|exact E|exact E0]; done.
  - destruct a as [[o inf] s2]. simplify_eq. do 3 eexists. do 4 (split; [done|]).
    eapply inject_spec in E as (Hswf1 & Harr1 & Hbs1); [|apply preRead_length|done].
    eapply read_line_spec in E0 as (? & ? & ? & ?); [|done..]. split_and!; congruence || done.
  - destruct a as [f s2]. simplify_eq. do 3 eexists. do 4 (split; [done|]).
    eapply write_then_inject; [..|exact E|exact E0]; done.
Qed.

Lemma access_line_spec c addr ty buff n upd r out c' :
  cache_wf c -> in_width 64 addr -> 0 <= n ->
  accessSingleLine c addr ty buff n upd = Ok (r, out, c') ->
  cache_wf c' /\ lines c' = lines c /\ (is_Some r <-> line_of (c_base c) addr ∈ lines c) /\
  c_base c' = c_base c.
Proof.
  intros Hwf Hw Hn H. destruct (access_line_inv _ _ _ _ _ _ _ _ _ Hwf Hw Hn H) as [(-> & -> & Hnin)|
    (i & w & s & s' & info & f & Hs & Hin & -> & -> & Hswf' & Hinfo' & Harr & Hbs)].
  { split_and!; done. }
  destruct (replace_set c i s s' info f Hwf Hs Hswf' Hbs) as [Hwf' Hl]; [|done|].
  { unfold set_tags. rewrite Harr. by left. }
  split; [done|]. split; [|split; [|done]].
  - rewrite Hl. unfold set_tags. rewrite Harr. symmetry. apply union_difference_L. by eapply set_in_lines.
  - split; [|done]. intros _. by eapply set_in_lines.
Qed.

Lemma insert_line_spec c addr fill ev want cntlr r :
  cache_wf c -> in_width 64 addr -> line_of (c_base c) addr ∉ lines c ->
  insertSingleLine c addr fill ev want cntlr = Ok r ->
  cache_wf (li_cache r) /\ c_base (li_cache r) = c_base c /\
  lines (li_cache r) = {[line_of (c_base c) addr]} ∪
    (lines c ∖ (if li_eviction r then {[line_of (c_base c) (li_evict_addr r)]} else ∅)) /\
  (li_eviction r = true -> line_of (c_base c) (li_evict_addr r) ∈ lines c /\
                           in_width 64 (li_evict_addr r)).
Proof.
  intros Hwf Hw Hnin H. destruct (cache_select c addr Hwf Hw) as (i & s & Hsp & Hi & Hh & Hs & Ht).
  pose proof (line_in_set c i s _ Hwf Hh Hs) as Hline.
  pose proof Hwf as (Hb & (Hlen & Hsets) & Hinfo). destruct (Hsets i s Hs) as (Hswf & _ & Hst).
  unfold insertSingleLine in H. rewrite Hsp in H. cbn [mbind res_bind] in H. res_inv H.
  rewrite Nat2Z.id in *. destruct a2 as [f s']. simplify_eq.
  cbn [li_cache li_eviction li_evict_addr].
  unfold aget in E0. rewrite Hs in E0. simplify_eq.
  eapply insert_spec in E1 as (Hswf1 & Hinf1 & Htags & Hev & Hfind & Hbs); [|done..| |].
  2: by apply (line_not_none _ _ Hb). 2: by rewrite <- Hline.
  cbn [m_tag setTag] in Htags.
  assert (set_wf (cb_associativity (c_base c)) s' /\
    m_cache_block_info_array s' = m_cache_block_info_array (ins_set a1) /\
    m_blocksize s' = m_blocksize a0) as (Hswf' & Harr & Hbs').
  { destruct (m_fault_injector c) as [f0|]; [|by simplify_eq].
    destruct (find (ins_set a1) _); [|done].
    eapply inject_spec in E2 as (? & ? & ?); [|apply postWrite_length|done].
    split_and!; congruence || done. }
  assert (set_tags s' = set_tags (ins_set a1)) as Hst' by (unfold set_tags; by rewrite Harr).
  assert (ins_eviction a1 = true ->
    line_of (c_base c) (tagToAddress (c_base c) (m_tag (ins_evict_info a1))) = m_tag (ins_evict_info a1) /\
    in_width 64 (tagToAddress (c_base c) (m_tag (ins_evict_info a1)))) as Hta.
  { intros He%Hev. destruct (Hst _ He) as [_ Hr]. by destruct (tagToAddress_ok (c_base c) _ Hb Hr). }
  destruct (replace_set c i a0 s' (ins_info a1) f Hwf Hs Hswf' Hbs') as [Hwf' Hl]; [|done|].
  { intros t. rewrite Hst', Htags, elem_of_union, elem_of_singleton, elem_of_difference.
    intros [->|[? _]]; [by right|by left]. }
  split; [done|]. split; [done|]. split.
  - rewrite Hl, Hst', Htags. destruct (ins_eviction a1).
    + destruct (Hta eq_refl) as [-> _]. apply part_replace; [|by eapply set_in_lines].
      apply singleton_subseteq_l, Hev. done.
    + apply part_replace; [set_solver|by eapply set_in_lines].
  - intros He. destruct (Hta He) as [-> ?]. split; [|done].
    eapply set_in_lines; [exact Hs|]. by apply Hev.
Qed.

(** *** Sequences of operations

    The operations of a cache.  [OpFill] is [insertSingleLine], which does not look whether
    the line is there already; [fills_absent] below says of a sequence that it never is, as
    [insertCacheBlock] of the cache controller asserts before it inserts. *)
Inductive cache_op :=
  | OpAccess (addr : Z) (ty : access_t) (buff : option (list Z)) (bytes : Z) (upd : bool)
  | OpFill (addr : Z) (fill : option (list Z)) (evict_info : CacheBlockInfo) (cntlr : option CacheCntlr)
  | OpInvalidate (addr : Z)
  | OpCount (hit : bool).

(** What the caller sees: hit or miss, or the line that was evicted. *)
Inductive cache_obs := ObsHit (hit : bool) | ObsEvict (v : option Z) | ObsNone.

Definition cache_step c (op : cache_op) : res (cache_obs * Cache P I) :=
  match op with
  | OpAccess addr ty buff n upd =>
      '(r, _, c) ← accessSingleLine c addr ty buff n upd; Ok (ObsHit (bool_decide (is_Some r)), c)
  | OpFill addr fill ev cntlr =>
      r ← insertSingleLine c addr fill ev false cntlr;
      Ok (ObsEvict (if li_eviction r then Some (line_of (c_base c) (li_evict_addr r)) else None),
          li_cache r)
  | OpInvalidate addr =>
      '(hit, c) ← invalidateSingleLine c addr; Ok (ObsHit hit, c)
  | OpCount hit => Ok (ObsNone, updateCounters c hit)
  end.

Fixpoint cache_run c (ops : list cache_op) : res (list cache_obs * Cache P I) :=
  match ops with
  | [] => Ok ([], c)
  | op :: ops => '(o, c) ← cache_step c op; '(os, c) ← cache_run c ops; Ok (o :: os, c)
  end.

(** Every line that [ops] inserts is absent when it is inserted. *)
Fixpoint fills_absent c (ops : list cache_op) : bool :=
  match ops with
  | [] => true
  | op :: ops =>
      match op with
      | OpFill addr _ _ _ => match peekSingleLine c addr with Ok None => true | _ => false end
      | _ => true
      end &&
      match cache_step c op with Ok (_, c) => fills_absent c ops | Err _ => true end
  end.

(** The specification: a set of line numbers.  A fill adds its line and removes at most one
    other, which was there; nothing else changes the set except an invalidation. *)
Inductive spec_step (line : Z -> Z) : gset Z -> cache_op -> cache_obs -> gset Z -> Prop :=
  | spec_access L addr ty buff n upd :
      spec_step line L (OpAccess addr ty buff n upd) (ObsHit (bool_decide (line addr ∈ L))) L
  | spec_fill L addr fill ev cntlr :
      line addr ∉ L ->
      spec_step line L (OpFill addr fill ev cntlr) (ObsEvict None) ({[line addr]} ∪ L)
  | spec_fill_evict L addr fill ev cntlr v :
      line addr ∉ L -> v ∈ L ->
      spec_step line L (OpFill addr fill ev cntlr) (ObsEvict (Some v)) ({[line addr]} ∪ (L ∖ {[v]}))
  | spec_invalidate L addr :
      spec_step line L (OpInvalidate addr) (ObsHit (bool_decide (line addr ∈ L))) (L ∖ {[line addr]})
  | spec_count L hit : spec_step line L (OpCount hit) ObsNone L.

Inductive spec_run (line : Z -> Z) : gset Z -> list cache_op -> list cache_obs -> gset Z -> Prop :=
  | spec_done L : spec_run line L [] [] L
  | spec_more L op o L' ops os L'' :
      spec_step line L op o L' -> spec_run line L' ops os L'' ->
      spec_run line L (op :: ops) (o :: os) L''.

Definition op_wf (op : cache_op) : Prop :=
  match op with
  | OpAccess addr _ _ n _ => in_width 64 addr /\ 0 <= n
  | OpFill addr _ _ _ | OpInvalidate addr => in_width 64 addr
  | OpCount _ => True
  end.

Lemma bool_decide_is_Some {A} (r : option A) (Q : Prop) `{!Decision Q} :
  (is_Some r <-> Q) -> bool_decide (is_Some r) = bool_decide Q.
Proof. intros H. by apply bool_decide_ext. Qed.

Lemma cache_step_sim c op o c' :
  cache_wf c -> op_wf op -> fills_absent c [op] -> cache_step c op = Ok (o, c') ->
  cache_wf c' /\ c_base c' = c_base c /\ spec_step (line_of (c_base c)) (lines c) op o (lines c').
Proof.
  intros Hwf Hop Hab H.
  destruct op as [addr ty buff n upd|addr fill ev cntlr|addr|hit]; cbn in Hop, H.
  - destruct Hop. res_inv H. destruct a as [[r out] c1]. simplify_eq.
    eapply access_line_spec in E as (? & -> & Hhit & ?); [|done..].
    rewrite (bool_decide_is_Some _ _ Hhit). split_and!; try done. constructor.
  - destruct (peek_line_spec c addr Hwf Hop) as (r & Er & Hr). cbn in Hab. rewrite Er in Hab.
    destruct r; [done|]. res_inv H. simplify_eq.
    assert (line_of (c_base c) addr ∉ lines c) as Hn by (intros Hin; by apply Hr in Hin as []).
    eapply insert_line_spec in E as (? & ? & -> & Hev); [|done..]. split_and!; try done.
    destruct (li_eviction a).
    + constructor; [done|]. by apply Hev.
    + rewrite difference_empty_L. by constructor.
  - destruct (invalidate_line_spec c addr Hwf Hop) as (hit & c1 & E & ? & Hl & Hhit & ?).
    rewrite E in H. cbn in H. simplify_eq. rewrite Hl. split_and!; try done.
    replace hit with (bool_decide (line_of (c_base c) addr ∈ lines c)); [constructor|].
    destruct hit; [by apply bool_decide_eq_true, Hhit|].
    apply bool_decide_eq_false. intros ?%Hhit. done.
  - simplify_eq. unfold updateCounters. destruct (m_enabled c); split_and!; try done; constructor.
Qed.

Lemma fills_absent_cons c op ops :
  fills_absent c (op :: ops) ->
  fills_absent c [op] /\ forall o c', cache_step c op = Ok (o, c') -> fills_absent c' ops.
Proof.
  cbn [fills_absent]. intros [H1 H2]%andb_prop_elim. split.
  - apply andb_prop_intro. split; [done|]. by destruct (cache_step c op) as [[]|].
  - intros o c' E. by rewrite E in H2.
Qed.

Lemma cache_run_sim c ops os c' :
  cache_wf c -> Forall op_wf ops -> fills_absent c ops -> cache_run c ops = Ok (os, c') ->
  cache_wf c' /\ c_base c' = c_base c /\ spec_run (line_of (c_base c)) (lines c) ops os (lines c').
Proof.
  intros Hwf HF. revert c os Hwf. induction HF as [|op ops Hop HF IH]; intros c os Hwf Hab H; cbn in H.
  - simplify_eq. split_and!; try done. constructor.
  - res_inv H. destruct a as [o c1]. res_inv H. destruct a as [os' c2]. simplify_eq.
    apply fills_absent_cons in Hab as [Hab1 Hab]. specialize (Hab _ _ E).
    eapply cache_step_sim in E as (Hwf1 & Hb & Hs); [|done..].
    apply IH in E0 as (? & ? & Hr); [|done..]. rewrite Hb in *. split_and!; try done.
    by econstructor.
Qed.

(** A cache never holds more lines than it has ways. *)
Lemma size_set_tags assoc (s : CacheSet P) : set_wf assoc s -> (size (set_tags s) <= assoc)%nat.
Proof.
  intros (Ha & _). unfold set_tags, tags. etrans; [apply size_list_to_set_le|].
  etrans; [apply length_filter|]. rewrite length_fmap. unfold associativity in Ha. lia.
Qed.

Lemma size_lines c :
  cache_wf c -> (size (lines c) <= Z.to_nat (m_num_sets (c_base c)) * cb_associativity (c_base c))%nat.
Proof.
  intros (_ & (Hlen & Hs) & _). unfold lines. rewrite <- Hlen, Nat2Z.id.
  assert (Forall (fun s => (size (set_tags s) <= cb_associativity (c_base c))%nat) (m_sets c)) as HF.
  { apply Forall_lookup. intros i s Hi. by apply size_set_tags, (Hs i s). }
  clear Hlen Hs. induction HF as [|s l Hx HF IH]; [cbn; rewrite size_empty; lia|].
  rewrite fmap_cons, union_list_cons. etrans; [apply size_union_le|]. cbn [length]. lia.
Qed.
End cache_facts.

Arguments cache_op : clear implicits.

(** ** The configured cache *)

Lemma create_sets_ok n mk sets :
  create_sets n mk = Ok sets -> length sets = n /\ forall i s, sets !! i = Some s -> mk = Ok s.
Proof.
  revert sets. induction n as [|n IH]; intros sets H; cbn in H; [by simplify_eq|].
  res_inv H. simplify_eq. destruct (IH _ eq_refl) as [Hl Hs]. split; [cbn; by rewrite Hl|].
  intros [|i] s Hi; cbn in Hi; [by simplify_eq|by eapply Hs].
Qed.

Lemma Cache_new_wf cfg num_sets assoc l name policy ty hash f faults ahl c :
  1 <= l <= 31 -> 0 < num_sets < 2 ^ 32 -> (0 < assoc <= 256)%nat -> hash <> INVALID_HASH_TYPE ->
  match ahl with Some a => ahl_wf a /\ l <= m_ahl_param a | None => True end ->
  parsePolicyType name = Ok policy -> cfg_ok cfg policy assoc ->
  Cache_new cfg num_sets assoc (2 ^ l) name ty hash f faults ahl = Ok c ->
  cache_wf (ReplacementPolicyOk0 := Any_policy_ok policy) c /\ lines c = ∅ /\
  m_num_sets (c_base c) = num_sets /\ cb_associativity (c_base c) = assoc /\ m_log_blocksize (c_base c) = l.
Proof.
  intros Hl Hn Ha Hh Hahl Hp Hc H. unfold Cache_new in H. res_inv H. simplify_eq. cbn [c_base].
  apply CacheBase_new_wf in E as (Hb & El & Ea & En); try done. 
  eapply createCacheSetInfo_wf in E0; [|done]. apply create_sets_ok in E1 as [Hlen Hs].
  assert (cb_blocksize a = 2 ^ l) as Hbs by (destruct Hb as (_ & -> & _); by rewrite El).
  assert (forall i s, a1 !! i = Some s ->
    set_wf (ReplacementPolicyOk0 := Any_policy_ok policy) assoc s /\ set_tags s = ∅ /\
    m_blocksize s = 2 ^ l) as Hset.
  { intros i s Hi. eapply createCacheSet_wf; [done| |done..|by eapply Hs]. lia. }
  split; [|split; [|done]].
  - split; [done|]. cbn. split; [|by rewrite Ea]. split; cbn; [rewrite En; lia|].
    intros i s Hi. rewrite Ea, Hbs. destruct (Hset i s Hi) as (? & -> & ->). set_solver.
  - apply set_eq. intros t. rewrite elem_of_lines. cbn [m_sets]. split; [|set_solver].
    intros (i & s & Hi & Ht). destruct (Hset i s Hi) as (_ & E & _). set_solver.
Qed.

(** C8: A cache with any configured replacement policy, hash function, fault injector and
    home-node lookup implements a set of lines, as long as a line is inserted only when it is
    absent ([fills_absent]; [insertCacheBlock] asserts this, [insertSingleLine] itself does not
    look): for such a sequence of accesses, insertions, invalidations and counter updates that
    a new cache carries out, the observations (hits, misses and evicted lines) are those of
    the specification started from the empty set, and the cache holds at most
    [num_sets * associativity] lines. *)
Theorem cache_refines_lineset (cfg : PolicyCfg) (num_sets : Z) (assoc : nat) (l : Z) (name : string)
    (policy : ReplacementPolicyName) (ty : cache_t) (hash : hash_t) (f : option FaultInjector)
    (faults : bool) (ahl : option AddressHomeLookup) (c c' : Cache AnyPolicy AnyInfo)
    (ops : list cache_op) (os : list cache_obs) :
  1 <= l <= 31 -> 0 < num_sets < 2 ^ 32 -> (0 < assoc <= 256)%nat -> hash <> INVALID_HASH_TYPE ->
  match ahl with Some a => ahl_wf a /\ l <= m_ahl_param a | None => True end ->
  parsePolicyType name = Ok policy -> cfg_ok cfg policy assoc ->
  Cache_new cfg num_sets assoc (2 ^ l) name ty hash f faults ahl = Ok c ->
  Forall op_wf ops -> fills_absent c ops -> cache_run c ops = Ok (os, c') ->
  spec_run (fun addr => addr / 2 ^ l) ∅ ops os (lines c') /\
  (size (lines c') <= Z.to_nat num_sets * assoc)%nat.
Proof.
  intros Hl Hn Ha Hh Hahl Hp Hc Hnew Hops Habs Hrun.
  destruct (Cache_new_wf cfg num_sets assoc l name policy ty hash f faults ahl c)
    as (Hwf & Hempty & En & Ea & El); [done..|].
  eapply cache_run_sim in Hrun as (Hwf' & Hb & Hsim); [|done..].
  rewrite Hempty in Hsim. split.
  - unfold line_of in Hsim. by rewrite El in Hsim.
  - apply size_lines in Hwf'. by rewrite Hb, En, Ea in Hwf'.
Qed.

(** ** Termination *)

Lemma no_fuel_split b a : no_fuel_error (splitAddress b a).
Proof. unfold splitAddress, getLinearAddress, getLinearBlock, hash_block, mod_sets. nofuel. Qed.
Lemma no_fuel_clone b b' : no_fuel_error (clone b b').
Proof. unfold clone. nofuel. Qed.
Lemma no_fuel_mem_read m p k : no_fuel_error (mem_read m p k).
Proof. unfold mem_read. nofuel. Qed.
Lemma no_fuel_mem_write m p k d : no_fuel_error (mem_write m p k d).
Proof. unfold mem_write. nofuel. Qed.
Lemma no_fuel_create t : no_fuel_error (create t).
Proof. unfold create. nofuel. Qed.
#[export] Hint Resolve no_fuel_split no_fuel_clone no_fuel_mem_read no_fuel_mem_write no_fuel_create : fuel.

Section termination.
Context {P I : Type} `{!ReplacementPolicy P I, !ReplacementPolicyOk P I, !PolicyTerminates P I}.
Implicit Types (c : Cache P I).


Lemma no_fuel_inject op f (s : CacheSet P) i o k :
  (forall f d m p, no_fuel_error (op f d m p)) -> no_fuel_error (inject op f s i o k).
Proof. intros Hop. unfold inject. nofuel. Qed.

Lemma no_fuel_peek c a : no_fuel_error (peekSingleLine c a).
Proof. unfold peekSingleLine. nofuel. Qed.

Lemma no_fuel_access c a ty buf k u : no_fuel_error (accessSingleLine c a ty buf k u).
Proof.
  assert (forall i info (p : P), no_fuel_error (updateReplacementIndex i info p)) as Hu by apply updateReplacementIndex_fuel.
  unfold accessSingleLine, splitAddress_offset, read_line, write_line. nofuel.
  all: apply no_fuel_inject; intros; unfold preRead, postWrite; nofuel.
Qed.

Lemma no_fuel_insert c a buf ev want cntlr : cache_wf c -> no_fuel_error (insertSingleLine c a buf ev want cntlr).
Proof.
  intros (_ & (_ & Hs) & _). unfold insertSingleLine. nofuel.
  - match goal with H : aget (m_sets c) _ = Ok ?s |- _ => rename H into Es end.
    unfold aget in Es. destruct (m_sets c !! _) as [s|] eqn:E; [|done]. injection Es as <-.
    destruct (Hs _ _ E) as ((Ha & _ & Hp & _) & _).
    unfold insert. apply no_fuel_bind; [apply getReplacementIndex_fuel; by rewrite <- Ha in Hp|]. intros v _. nofuel.
  - apply no_fuel_inject. intros. unfold postWrite. nofuel.
Qed.
End termination.

(** Example: a direct-mapped-like L1 of two sets and two ways with LRU. *)
Definition cache_example_cfg : PolicyCfg :=
  {| cfg_qbs_attempts := 1; cfg_srrip_bits := 2; cfg_time := 0; cfg_retry_fuel := 0 |}.
Definition cache_example : res (Cache AnyPolicy AnyInfo) :=
  Cache_new cache_example_cfg 2 2 (2 ^ 6) "lru" PR_L1_CACHE HASH_MASK None false None.
Definition example_evict : CacheBlockInfo := CacheBlockInfo_new PrL1CacheBlockInfo.
Definition example_ops : list cache_op :=
  [OpFill 0 None example_evict None; OpFill 128 None example_evict None;
   OpAccess 5 LOAD None 4 true; OpFill 256 None example_evict None;
   OpAccess 130 LOAD None 4 true; OpInvalidate 0; OpAccess 0 STORE None 4 true].

Lemma cache_refines_lineset_witness :
  exists c c' os, cache_example = Ok c /\ cache_run c example_ops = Ok (os, c') /\
    os = [ObsEvict None; ObsEvict None; ObsHit true; ObsEvict (Some 2); ObsHit false; ObsHit true;
          ObsHit false] /\
    spec_run (fun addr => addr / 2 ^ 6) ∅ example_ops os (lines c') /\
    (size (lines c') <= Z.to_nat 2 * 2)%nat.
Proof.
  destruct cache_example as [c|] eqn:E; [|vm_compute in E; discriminate E].
  destruct (cache_run c example_ops) as [[os c']|] eqn:E';
    [|vm_compute in E; injection E as <-; vm_compute in E'; discriminate E'].
  exists c, c', os. split; [reflexivity|]. split; [exact E'|]. split.
  - vm_compute in E. injection E as <-. vm_compute in E'. by injection E' as <- _.
  - apply (cache_refines_lineset cache_example_cfg 2 2 6 "lru" LRU PR_L1_CACHE HASH_MASK None false None
             c c' example_ops os); try done; try lia.
    + repeat constructor; unfold op_wf, in_width; lia.
    + vm_compute in E. injection E as <-. by vm_compute.
Defined.
