(* ===== verification/TLB.v ===== *)
(** * Translation look-aside buffers

    Models src/common/core/memory_subsystem/parametric_dram_directory_msi/
    tlb.{h,cc}: a TLB is a cache of page numbers with a pointer to the next
    level, which serves as its victim cache.  A TLB together with the levels
    behind it is a list, first level first. *)

From stdpp Require Import gmap.
From S2P Require Import Prelude Utils AddressHomeLookup CacheBlockInfo CacheSet CachePolicy Cache.

Definition SIM_PAGE_SHIFT : Z := 12.
Definition SIM_PAGE_SIZE : Z := Z.shiftl 1 SIM_PAGE_SHIFT.

Record TLB (P I : Type) := mkTLB {
  m_size : Z;
  tlb_associativity : Z;
  tlb_cache : Cache P I;
  m_access_count : Z;
  m_miss : Z
}.
Arguments mkTLB {P I} _ _ _ _ _.
Arguments m_size {P I} _.
Arguments tlb_associativity {P I} _.
Arguments tlb_cache {P I} _.
Arguments m_access_count {P I} _.
Arguments m_miss {P I} _.

(** The cache uses LRU and the default hash function. *)
Definition TLB_new (cfg : PolicyCfg) (num_entries associativity : Z) (faults : bool) : res (TLB AnyPolicy AnyInfo) :=
  if associativity =? 0 then Err DivByZero else
  let num_sets := num_entries / associativity in
  c ← Cache_new cfg num_sets (Z.to_nat associativity) SIM_PAGE_SIZE "lru" PR_L1_CACHE HASH_MASK None faults None;
  _ ← assert_ (u32 (num_sets * associativity) =? num_entries);
  Ok (mkTLB num_entries associativity c 0 0).

Section TLB.
Context {P I : Type} `{!ReplacementPolicy P I}.
Implicit Types (t : TLB P I).

Definition tlb_set_cache t (c : Cache P I) : TLB P I :=
  mkTLB (m_size t) (tlb_associativity t) c (m_access_count t) (m_miss t).

Fixpoint allocate (levels : list (TLB P I)) (address : Z) : res (list (TLB P I)) :=
  match levels with
  | [] => Ok []
  | t :: next =>
      r ← insertSingleLine (tlb_cache t) address None (CacheBlockInfo_new PrL1CacheBlockInfo) false None;
      next ← (if li_eviction r then allocate next (li_evict_addr r) else Ok next);
      Ok (tlb_set_cache t (li_cache r) :: next)
  end.

Fixpoint lookup_tlb (levels : list (TLB P I)) (address : Z) (allocate_on_miss : bool)
  : res (bool * list (TLB P I)) :=
  match levels with
  | [] => Ok (false, [])
  | t :: next =>
      '(block, _, c) ← accessSingleLine (tlb_cache t) address LOAD None 0 true;
      let accesses := u64 (m_access_count t + 1) in
      match block with
      | Some _ => Ok (true, mkTLB (m_size t) (tlb_associativity t) c accesses (m_miss t) :: next)
      | None =>
          let t := mkTLB (m_size t) (tlb_associativity t) c accesses (u64 (m_miss t + 1)) in
          '(hit, next) ← lookup_tlb next address false;
          levels ← (if allocate_on_miss then allocate (t :: next) address else Ok (t :: next));
          Ok (hit, levels)
      end
  end.
End TLB.

(** ** The first level *)

Section first_level.
Context {P I : Type} `{!ReplacementPolicy P I, !ReplacementPolicyOk P I}.
Implicit Types (t : TLB P I).

Definition page t (a : Z) : Z := line_of (c_base (tlb_cache t)) a.
Definition pages t : gset Z := lines (tlb_cache t).

(** The specification of a lookup: if the first level holds the page, it is a hit, which neither
    changes what is held nor reaches the levels behind; otherwise it counts a miss, asks the
    next level, and afterwards the first level holds the page, having given up at most one other
    page, which goes to the next level. *)
Record lookup_spec t (next : list (TLB P I)) (a : Z) (hit : bool) t' (next' : list (TLB P I)) : Prop := {
  ls_wf : cache_wf (tlb_cache t');
  ls_base : c_base (tlb_cache t') = c_base (tlb_cache t);
  ls_held : page t a ∈ pages t';
  ls_hit : page t a ∈ pages t -> hit = true /\ next' = next /\ pages t' = pages t /\ m_miss t' = m_miss t;
  ls_miss : page t a ∉ pages t ->
    m_miss t' = u64 (m_miss t + 1) /\
    exists next1, lookup_tlb next a false = Ok (hit, next1) /\
    (pages t' = {[page t a]} ∪ pages t /\ next' = next1 \/
     exists evict, page t evict ∈ pages t /\ pages t' = {[page t a]} ∪ (pages t ∖ {[page t evict]}) /\
       allocate next1 evict = Ok next')
}.

(** A TLB lookup with allocation meets its specification, in front of any further levels: what
    the first level holds after it includes the page, so that the next access to the page hits,
    and its victims go to the next level. *)
Theorem tlb_lookup_correct t next a hit levels :
  cache_wf (tlb_cache t) -> in_width 64 a -> lookup_tlb (t :: next) a true = Ok (hit, levels) ->
  exists t' next', levels = t' :: next' /\ lookup_spec t next a hit t' next'.
Proof.
  intros Hc Ha H. cbn [lookup_tlb] in H. res_inv H. destruct a0 as [[block out] c].
  eapply access_line_spec in E as (Hwf & Hl & Hb & Hbase); [|done..|lia].
  destruct block as [b|].
  - simplify_eq. assert (page t a ∈ pages t) as Hin by (apply Hb; by eexists).
    eexists _, _. split; [done|]. split; unfold page, pages in *; cbn [tlb_cache m_miss]; try done; by rewrite Hl.
  - assert (page t a ∉ pages t) as Hnin by (intros Hin%Hb; by destruct Hin).
    res_inv H. destruct a0 as [hit1 next1]. res_inv H. simplify_eq. cbn [allocate tlb_cache] in E0. res_inv E0.
    simplify_eq. eapply insert_line_spec in E1 as (Hwf' & Hbase' & Hl' & Hev); [|done|done|by rewrite Hl, Hbase].
    eexists _, _. split; [done|]. unfold page, pages in *. rewrite Hbase in *. rewrite Hl in *.
    split; unfold page, pages; cbn [tlb_cache tlb_set_cache m_miss]; try done; try congruence; [rewrite Hl'; set_solver|].
    intros _. split; [done|].
    exists next1. split; [done|]. destruct (li_eviction _).
    + right. eexists. split; [by apply Hev|]. split; [exact Hl'|done].
    + left. rewrite Hl'. split; [set_solver|by simplify_eq].
Qed.
End first_level.

Lemma TLB_new_wf cfg n assoc faults t :
  0 < n < 2 ^ 32 -> 0 < assoc <= 256 -> TLB_new cfg n assoc faults = Ok t ->
  cache_wf (ReplacementPolicyOk0 := Any_policy_ok LRU) (tlb_cache t).
Proof.
  intros Hn Ha H. unfold TLB_new in H. destruct (Z.eqb_spec assoc 0); [lia|]. res_inv H. simplify_eq. cbn [tlb_cache].
  assert (n / assoc <= n) by (apply Z.div_le_upper_bound; nia).
  assert (0 <= n / assoc) by (apply Z.div_pos; lia).
  assert (n / assoc <> 0) as Hnz.
  { intros Ez. unfold assert_ in E0. rewrite Ez, Z.mul_0_l, (wrap_small 32 0) in E0 by lia.
    destruct (Z.eqb_spec 0 n); [lia|done]. }
  by eapply (Cache_new_wf cfg (n / assoc) (Z.to_nat assoc) 12 "lru" LRU) in E as (Hwf & _); try lia.
Qed.

Definition example_tlb (n : Z) : res (TLB AnyPolicy AnyInfo) := TLB_new cache_example_cfg n n false.

Lemma tlb_lookup_correct_witness :
  exists t1 t2 levels t' next', example_tlb 2 = Ok t1 /\ example_tlb 4 = Ok t2 /\
    lookup_tlb [t1; t2] 5000 true = Ok (false, levels) /\ levels = t' :: next' /\
    lookup_spec (ReplacementPolicyOk0 := Any_policy_ok LRU) t1 [t2] 5000 false t' next'.
Proof.
  destruct (example_tlb 2) as [t1|] eqn:E1; [|vm_compute in E1; discriminate E1].
  destruct (example_tlb 4) as [t2|] eqn:E2; [|vm_compute in E2; discriminate E2].
  destruct (lookup_tlb [t1; t2] 5000 true) as [[hit levels]|] eqn:E.
  - destruct (tlb_lookup_correct (ReplacementPolicyOk0 := Any_policy_ok LRU) t1 [t2] 5000 hit levels)
      as (t' & next' & El & Hs); [eapply TLB_new_wf; [| |exact E1]; lia|unfold in_width; lia|exact E|].
    assert (hit = false) as ->.
    { vm_compute in E1. injection E1 as <-. vm_compute in E2. injection E2 as <-. vm_compute in E. by injection E as <- _. }
    exists t1, t2, levels, t', next'. split_and!; done.
  - vm_compute in E1. injection E1 as <-. vm_compute in E2. injection E2 as <-. vm_compute in E. discriminate E.
Defined.

(** ** The victim cache *)

(** Lookups at the given pages, and the tags held in the end by each level, way by way. *)
Fixpoint lookups (levels : list (TLB AnyPolicy AnyInfo)) (l : list Z) : res (list (TLB AnyPolicy AnyInfo)) :=
  match l with
  | [] => Ok levels
  | a :: l => '(_, levels) ← lookup_tlb levels (a * SIM_PAGE_SIZE) true; lookups levels l
  end.

Definition tags_held (t : TLB AnyPolicy AnyInfo) : list Z :=
  m_sets (tlb_cache t) ≫= (fun s => m_tag <$> m_cache_block_info_array s).

(** A page that is found in the second level stays there when it moves to the first, and is
    inserted again when the first level gives it up: after lookups of pages 1, 2, 3, 1, 2 and
    3, behind a first level of two entries, a second level of four entries holds page 1
    twice. *)
Theorem tlb_victims_duplicated :
  (t1 ← example_tlb 2; t2 ← example_tlb 4; levels ← lookups [t1; t2] [1; 2; 3; 1; 2; 3]; Ok (map tags_held levels))
    = Ok [[2; 3]; [1; 2; 3; 1]].
Proof. vm_compute. reflexivity. Qed.
