(* ===== verification/CachePerfModel.v ===== *)
(** * Cache latencies and the clocks of a core

    Models src/common/performance_model/cache_perf_model.{h,cc} with its two
    classes cache_perf_model_{parallel,sequential}.h, and shmem_perf_model.{h,cc}:
    the time that the user thread and the simulation thread of a core have
    reached. *)

From S2P Require Import Prelude SubsecondTime.

Inductive CacheAccess_t := ACCESS_CACHE_DATA_AND_TAGS | ACCESS_CACHE_DATA | ACCESS_CACHE_TAGS.
Inductive PerfModel_t := CACHE_PERF_MODEL_PARALLEL | CACHE_PERF_MODEL_SEQUENTIAL.

Record CachePerfModel := mkCachePerf {
  pm_type : PerfModel_t;
  pm_enabled : bool;
  m_cache_data_access_time : ComponentLatency;
  m_cache_tags_access_time : ComponentLatency
}.

Definition parseModelType (model_type : string) : res PerfModel_t :=
  if bool_decide (model_type = "parallel"%string) then Ok CACHE_PERF_MODEL_PARALLEL
  else if bool_decide (model_type = "sequential"%string) then Ok CACHE_PERF_MODEL_SEQUENTIAL
  else Err LogError.

Definition CachePerfModel_create (type : string) (data tags : ComponentLatency) : res CachePerfModel :=
  t ← parseModelType type; Ok (mkCachePerf t false data tags).

Definition pm_set_enabled (b : bool) (m : CachePerfModel) : CachePerfModel :=
  mkCachePerf (pm_type m) b (m_cache_data_access_time m) (m_cache_tags_access_time m).

Definition getLatency (st : periods) (m : CachePerfModel) (access : CacheAccess_t) : Z :=
  if negb (pm_enabled m) then Zero
  else
    let data := cl_getLatency st (m_cache_data_access_time m) in
    let tags := cl_getLatency st (m_cache_tags_access_time m) in
    match pm_type m, access with
    | _, ACCESS_CACHE_TAGS => tags
    | _, ACCESS_CACHE_DATA => data
    | CACHE_PERF_MODEL_PARALLEL, ACCESS_CACHE_DATA_AND_TAGS => data
    | CACHE_PERF_MODEL_SEQUENTIAL, ACCESS_CACHE_DATA_AND_TAGS => st_add data tags
    end.

(** ** ShmemPerfModel *)

Inductive Thread_t := USER_THREAD | SIM_THREAD.

Record ShmemPerfModel := mkShmemPerf {
  t_user : Z;
  t_sim : Z;
  spm_enabled : bool;
  m_num_memory_accesses : Z;
  m_total_memory_access_latency : Z
}.
Definition ShmemPerfModel_new : ShmemPerfModel := mkShmemPerf Zero Zero false 0 Zero.

Definition getElapsedTime (m : ShmemPerfModel) (thread_num : Thread_t) : Z :=
  match thread_num with USER_THREAD => t_user m | SIM_THREAD => t_sim m end.
Definition spm_setElapsedTime (thread_num : Thread_t) (time : Z) (m : ShmemPerfModel) : ShmemPerfModel :=
  match thread_num with
  | USER_THREAD => mkShmemPerf time (t_sim m) (spm_enabled m) (m_num_memory_accesses m) (m_total_memory_access_latency m)
  | SIM_THREAD => mkShmemPerf (t_user m) time (spm_enabled m) (m_num_memory_accesses m) (m_total_memory_access_latency m)
  end.
Definition spm_updateElapsedTime (time : Z) (thread_num : Thread_t) (m : ShmemPerfModel) : ShmemPerfModel :=
  if st_ltb (getElapsedTime m thread_num) time then spm_setElapsedTime thread_num time m else m.
Definition spm_incrElapsedTime (time : Z) (thread_num : Thread_t) (m : ShmemPerfModel) : res ShmemPerfModel :=
  let i_elapsed_time := getElapsedTime m thread_num in
  let t_elapsed_time := st_add i_elapsed_time time in
  _ ← assert_ (st_geb t_elapsed_time i_elapsed_time);
  Ok (spm_setElapsedTime thread_num t_elapsed_time m).
Definition incrTotalMemoryAccessLatency (shmem_time : Z) (m : ShmemPerfModel) : ShmemPerfModel :=
  if spm_enabled m then
    mkShmemPerf (t_user m) (t_sim m) (spm_enabled m) (u64 (m_num_memory_accesses m + 1))
      (st_add (m_total_memory_access_latency m) shmem_time)
  else m.

Lemma getElapsedTime_set th th' t m :
  getElapsedTime (spm_setElapsedTime th t m) th' = match th, th' with USER_THREAD, USER_THREAD | SIM_THREAD, SIM_THREAD => t | _, _ => getElapsedTime m th' end.
Proof. by destruct th, th'. Qed.

(** A clock only moves forward: an increment that would wrap around is caught by the assertion. *)
Lemma incrElapsedTime_forward t th m m' :
  in_width 64 t -> in_width 64 (getElapsedTime m th) -> spm_incrElapsedTime t th m = Ok m' ->
  getElapsedTime m' th = getElapsedTime m th + t /\ in_width 64 (getElapsedTime m' th).
Proof.
  unfold in_width. intros Ht Hm H. unfold spm_incrElapsedTime in H. res_inv H. simplify_eq. rewrite getElapsedTime_set.
  unfold st_geb, st_ltb, st_add, assert_ in *. destruct (Z.ltb_spec (u64 (getElapsedTime m th + t)) (getElapsedTime m th)) as [|Hge]; [done|].
  assert (u64 (getElapsedTime m th + t) = getElapsedTime m th + t /\ getElapsedTime m th + t < 2 ^ 64) as [-> ?].
  { unfold wrap in *. destruct (decide (getElapsedTime m th + t < 2 ^ 64)); [rewrite Z.mod_small by lia; lia|].
    rewrite <- (Z_mod_plus_full (getElapsedTime m th + t) (-1) (2 ^ 64)), Z.mod_small in Hge by lia. lia. }
  destruct th; cbn [getElapsedTime] in *; lia.
Qed.
