(* ===== verification/ATD.v ===== *)
(** * Auxiliary tag directories

    Models parametric_dram_directory_msi/cache_atd.{h,cc}: per core of a shared
    cache, the tags of some sets of a cache of its own, to tell the misses that
    sharing causes from those it saves. *)

From stdpp Require Import gmap.
From S2P Require Import Prelude Utils CacheBlockInfo CacheSet CachePolicy Cache.

Record ATD (P I : Type) := mkATD {
  m_cache_base : CacheBase;
  atd_sets : gmap Z (CacheSet P);
  atd_set_info : I;
  atd_loads : Z; atd_stores : Z;
  atd_load_misses : Z; atd_store_misses : Z;
  loads_constructive : Z; stores_constructive : Z;
  loads_destructive : Z; stores_destructive : Z
}.
Arguments mkATD {P I} _ _ _ _ _ _ _ _ _ _ _.
Arguments m_cache_base {P I} _.
Arguments atd_sets {P I} _.
Arguments atd_set_info {P I} _.
Arguments atd_loads {P I} _.
Arguments atd_stores {P I} _.
Arguments atd_load_misses {P I} _.
Arguments atd_store_misses {P I} _.
Arguments loads_constructive {P I} _.
Arguments stores_constructive {P I} _.
Arguments loads_destructive {P I} _.
Arguments stores_destructive {P I} _.

(** ** Sampling *)

(** [for(set_index = 1; set_index < num_sets - 1; set_index <<= 1)], with [num_sets] of type UInt32 *)
Fixpoint pow2_sets (k : nat) (set_index num_sets : Z) : res (list Z) :=
  if set_index <? u32 (num_sets - 1) then
    match k with
    | O => Err OutOfFuel
    | S k => l ← pow2_sets k (u64 (Z.shiftl set_index 1)) num_sets; Ok (u32 (set_index + 1) :: l)
    end
  else Ok [].

(** The loop that draws sets at random; an attempt that finds a set taken is repeated. *)
Fixpoint random_sets (k : nat) (state num_atds num_attempts num_sets : Z) (l : list Z) : res (list Z) :=
  if num_atds =? 0 then Ok l
  else
    match k with
    | O => Err OutOfFuel
    | S k =>
        let '(r, state) := rng_next state in
        if num_sets =? 0 then Err DivByZero else
        let set_index := r mod num_sets in
        let taken := bool_decide (set_index ∈ l) in
        _ ← assert_ (num_attempts + 1 <? u32 (10 * num_sets));
        random_sets k state (if taken then num_atds else num_atds - 1) (num_attempts + 1) num_sets (if taken then l else l ++ [set_index])
    end.

Record ATDCfg := mkATDCfg { atd_sampling : string; atd_seed : Z; atd_count : Z }.

Definition sampled_sets (cfg : ATDCfg) (num_sets : Z) : res (list Z) :=
  if bool_decide (atd_sampling cfg = "full"%string) then Ok (Z.of_nat <$> seq 0 (Z.to_nat num_sets))
  else if bool_decide (atd_sampling cfg = "2^n+1"%string) then pow2_sets 64 1 num_sets
  else if bool_decide (atd_sampling cfg = "random"%string) then
    _ ← assert_ (atd_count cfg <=? num_sets);
    random_sets (10 * Z.to_nat num_sets) (rng_seed (atd_seed cfg)) (atd_count cfg) 0 num_sets []
  else Err LogError.

Definition ATD_new (pcfg : PolicyCfg) (cfg : ATDCfg) (num_sets : Z) (assoc : nat) (cache_block_size : Z)
    (replacement_policy : string) (hash_function : hash_t) (faults : bool) : res (ATD AnyPolicy AnyInfo) :=
  b ← CacheBase_new num_sets assoc cache_block_size hash_function None;
  info ← createCacheSetInfo pcfg replacement_policy assoc;
  l ← sampled_sets cfg num_sets;
  s ← createCacheSet pcfg replacement_policy PR_L1_CACHE assoc 0 faults;
  Ok (mkATD b (list_to_map ((fun i => (i, s)) <$> l)) info 0 0 0 0 0 0 0 0).

Section ATD.
Context {P I : Type} `{!ReplacementPolicy P I}.
Implicit Types (a : ATD P I).

Definition isSampledSet a (set_index : Z) : bool := bool_decide (is_Some (atd_sets a !! set_index)).

(** The counters after an access: [write] is [mem_op_type == Core::WRITE]. *)
Definition atd_count_access a (s : gmap Z (CacheSet P)) (info : I) (write cache_hit atd_hit : bool) : ATD P I :=
  let inc (b : bool) (x : Z) := if b then u64 (x + 1) else x in
  let constructive := cache_hit && negb atd_hit in
  let destructive := negb cache_hit && atd_hit in
  mkATD (m_cache_base a) s info
    (inc (negb write) (atd_loads a)) (inc write (atd_stores a))
    (inc (negb write && negb atd_hit) (atd_load_misses a)) (inc (write && negb atd_hit) (atd_store_misses a))
    (inc (constructive && negb write) (loads_constructive a)) (inc (constructive && write) (stores_constructive a))
    (inc (destructive && negb write) (loads_destructive a)) (inc (destructive && write) (stores_destructive a)).

Definition atd_access a (write cache_hit : bool) (address : Z) : res (ATD P I) :=
  '(tag, set_index) ← splitAddress (m_cache_base a) address;
  match atd_sets a !! set_index with
  | None => Ok a
  | Some s =>
      match find s tag with
      | Some line_index =>
          '(info, p) ← updateReplacementIndex line_index (atd_set_info a) (m_policy s);
          Ok (atd_count_access a (<[set_index := set_policy s p]> (atd_sets a)) info write cache_hit true)
      | None =>
          let block := setCState (setTag (CacheBlockInfo_new PrL1CacheBlockInfo) tag) MODIFIED in
          r ← insert s (atd_set_info a) None block None (CacheBlockInfo_new PrL1CacheBlockInfo) false;
          Ok (atd_count_access a (<[set_index := ins_set r]> (atd_sets a)) (ins_info r) write cache_hit false)
      end
  end.
End ATD.
