(* ===== verification/DirectoryEntry.v ===== *)
(** * Directory entries

    Models src/common/core/memory_subsystem/directory_schemes:
    directory_state.h, directory_block_info.h, directory_entry.h and the two
    entry classes, directory_entry_limited_no_broadcast.h and
    directory_entry_limitless.h.  An entry records the state of one line and a
    bit per core that shares it. *)

From S2P Require Import Prelude Utils.

(** [core_id_t] is SInt32; [IntPtr] is 64-bit. *)
Definition INVALID_CORE_ID : Z := -1.
Definition INVALID_ADDRESS : Z := 2 ^ 64 - 1.

Inductive dstate_t := UNCACHED | DSHARED | DOWNED | DMODIFIED | DEXCLUSIVE.

#[global] Instance dstate_eq_dec : EqDecision dstate_t.
Proof. solve_decision. Defined.

(** The virtual part: DirectoryEntryLimitedNoBroadcast has a random generator,
    DirectoryEntryLimitless its software trap. *)
Inductive entry_class :=
  | LimitedNoBroadcast (m_rand_num : Z)
  | Limitless (m_software_trap_enabled : bool) (m_software_trap_penalty : Z).

Record DirectoryEntry := mkEntry {
  e_address : Z;
  m_dstate : dstate_t;
  m_owner_id : Z;
  m_forwarder_id : Z;
  m_sharers : list bool;
  e_class : entry_class
}.

Definition setDState (e : DirectoryEntry) (d : dstate_t) : DirectoryEntry :=
  mkEntry (e_address e) d (m_owner_id e) (m_forwarder_id e) (m_sharers e) (e_class e).
Definition setForwarder (e : DirectoryEntry) (f : Z) : DirectoryEntry :=
  mkEntry (e_address e) (m_dstate e) (m_owner_id e) f (m_sharers e) (e_class e).
Definition setAddress (e : DirectoryEntry) (a : Z) : DirectoryEntry :=
  mkEntry a (m_dstate e) (m_owner_id e) (m_forwarder_id e) (m_sharers e) (e_class e).
Definition set_owner_id (e : DirectoryEntry) (o : Z) : DirectoryEntry :=
  mkEntry (e_address e) (m_dstate e) o (m_forwarder_id e) (m_sharers e) (e_class e).
Definition set_sharers (e : DirectoryEntry) (l : list bool) : DirectoryEntry :=
  mkEntry (e_address e) (m_dstate e) (m_owner_id e) (m_forwarder_id e) l (e_class e).
Definition set_class (e : DirectoryEntry) (c : entry_class) : DirectoryEntry :=
  mkEntry (e_address e) (m_dstate e) (m_owner_id e) (m_forwarder_id e) (m_sharers e) c.

(** [m_sharers[id]]: a core number outside the bit set is undefined behaviour. *)
Definition sharer_bit (l : list bool) (id : Z) : res bool :=
  if id <? 0 then Err OutOfBounds else aget l (Z.to_nat id).

Definition hasSharer (e : DirectoryEntry) (sharer_id : Z) : res bool := sharer_bit (m_sharers e) sharer_id.

(** [count()]: the loop of DirectorySharersVector, and what std::bitset computes. *)
Fixpoint count_sharers (l : list bool) : Z :=
  match l with [] => 0 | b :: l => (if b then 1 else 0) + count_sharers l end.
Definition getNumSharers (e : DirectoryEntry) : Z := count_sharers (m_sharers e).

(** The positions of the set bits, from position [j]. *)
Fixpoint sharers_from (j : nat) (l : list bool) : list Z :=
  match l with
  | [] => []
  | b :: l => if b then Z.of_nat j :: sharers_from (S j) l else sharers_from (S j) l
  end.

(** [getSharersList]: never a broadcast. *)
Definition getSharersList (e : DirectoryEntry) : bool * list Z := (false, sharers_from 0 (m_sharers e)).

(** The result says whether the sharer was added. *)
Definition addSharer (e : DirectoryEntry) (sharer_id max_hw_sharers : Z) : res (bool * DirectoryEntry) :=
  b ← sharer_bit (m_sharers e) sharer_id;
  _ ← assert_ (negb b);
  match e_class e with
  | LimitedNoBroadcast _ =>
      if max_hw_sharers <=? getNumSharers e then Ok (false, e)
      else Ok (true, set_sharers e (<[Z.to_nat sharer_id := true]> (m_sharers e)))
  | Limitless trap penalty =>
      (* m_sharers.size() is the size of the bit set, not the number of sharers *)
      let trap := if Z.of_nat (length (m_sharers e)) =? max_hw_sharers then true else trap in
      Ok (true, set_class (set_sharers e (<[Z.to_nat sharer_id := true]> (m_sharers e)))
                  (Limitless trap penalty))
  end.

(** Every caller passes [reply_expected = false], the default. *)
Definition removeSharer (e : DirectoryEntry) (sharer_id : Z) : res DirectoryEntry :=
  b ← sharer_bit (m_sharers e) sharer_id;
  _ ← assert_ b;
  Ok (set_sharers e (<[Z.to_nat sharer_id := false]> (m_sharers e))).

Definition entry_setOwner (e : DirectoryEntry) (owner_id : Z) : res DirectoryEntry :=
  _ ← (if negb (owner_id =? INVALID_CORE_ID)
       then b ← sharer_bit (m_sharers e) owner_id; assert_ b else Ok tt);
  Ok (set_owner_id e owner_id).

Definition getOneSharer (e : DirectoryEntry) : res (Z * DirectoryEntry) :=
  match e_class e with
  | LimitedNoBroadcast rand =>
      let '(broadcast, sharers_list) := getSharersList e in
      _ ← assert_ (negb broadcast);
      _ ← assert_ (0 <? Z.of_nat (length sharers_list));
      let '(index, rand) := random_next rand (Z.of_nat (length sharers_list)) in
      sharer ← aget sharers_list (Z.to_nat index);
      Ok (sharer, set_class e (LimitedNoBroadcast rand))
  | Limitless _ _ =>
      match sharers_from 0 (m_sharers e) with
      | sharer :: _ => Ok (sharer, e)
      | [] => Err AssertFailed
      end
  end.

Definition entry_getLatency (e : DirectoryEntry) : Z :=
  match e_class e with
  | LimitedNoBroadcast _ => 0
  | Limitless trap penalty => if trap then penalty else 0
  end.

(** ** Lemmas on the bit set *)

Lemma count_sharers_length j l : count_sharers l = Z.of_nat (length (sharers_from j l)).
Proof.
  revert j. induction l as [|b l IH]; intros j; [done|]. cbn [count_sharers sharers_from].
  rewrite (IH (S j)). destruct b; cbn [length]; lia.
Qed.

Lemma sharers_from_elem j l c :
  c ∈ sharers_from j l <-> exists i, l !! i = Some true /\ c = Z.of_nat (j + i).
Proof.
  revert j. induction l as [|b l IH]; intros j; cbn [sharers_from].
  - split; [by intros ?%elem_of_nil|by intros (i & ? & _)].
  - assert (c ∈ sharers_from (S j) l <-> exists i, (b :: l) !! S i = Some true /\ c = Z.of_nat (j + S i)) as IH'.
    { rewrite IH. split; intros (i & Hi & ->); exists i; (split; [done|]); f_equal; lia. }
    destruct b; [rewrite elem_of_cons|]; rewrite IH'; split.
    + intros [->|(i & Hi & ->)]; [exists 0%nat; split; [done|f_equal; lia]|eauto].
    + intros ([|i] & Hi & ->); [left; f_equal; lia|eauto].
    + intros (i & Hi & ->). eauto.
    + intros ([|i] & Hi & ->); [done|eauto].
Qed.

(** Setting and clearing a bit adds and removes one position. *)
Lemma sharers_from_flip j l i b :
  l !! i = Some b ->
  exists l1 l2, sharers_from j (<[i := true]> l) = l1 ++ Z.of_nat (j + i) :: l2 /\
                sharers_from j (<[i := false]> l) = l1 ++ l2.
Proof.
  revert j i. induction l as [|c l IH]; intros j [|i] Hi; try done.
  - exists [], (sharers_from (S j) l). cbn. by rewrite Nat.add_0_r.
  - change (<[S i := true]> (c :: l)) with (c :: <[i := true]> l).
    change (<[S i := false]> (c :: l)) with (c :: <[i := false]> l). cbn [sharers_from].
    destruct (IH (S j) i Hi) as (l1 & l2 & E1 & E2). rewrite E1, E2.
    replace (S j + i)%nat with (j + S i)%nat by lia.
    destruct c; [exists (Z.of_nat j :: l1), l2|exists l1, l2]; done.
Qed.

Definition sharers (e : DirectoryEntry) : list Z := sharers_from 0 (m_sharers e).

Lemma getNumSharers_length e : getNumSharers e = Z.of_nat (length (sharers e)).
Proof. apply count_sharers_length. Qed.

Lemma sharer_bit_ok l id b : sharer_bit l id = Ok b <-> 0 <= id /\ l !! Z.to_nat id = Some b.
Proof.
  unfold sharer_bit. destruct (Z.ltb_spec id 0); [split; [done|lia]|].
  rewrite aget_ok. split; [done|by intros [_ ?]].
Qed.

Lemma hasSharer_ok e id b : hasSharer e id = Ok b -> (b = true <-> id ∈ sharers e).
Proof.
  intros [Hid Hb]%sharer_bit_ok. unfold sharers. rewrite sharers_from_elem. split.
  - intros ->. exists (Z.to_nat id). split; [done|lia].
  - intros (i & Hi & ->). rewrite Nat2Z.id in Hb. cbn in Hb. congruence.
Qed.

Lemma addSharer_ok e id hw r e' :
  addSharer e id hw = Ok (r, e') ->
  e_address e' = e_address e /\ m_dstate e' = m_dstate e /\ m_owner_id e' = m_owner_id e /\
  (if r then exists l1 l2, sharers e = l1 ++ l2 /\ sharers e' = l1 ++ id :: l2 else e' = e).
Proof.
  unfold addSharer. intros H. res_inv H. apply sharer_bit_ok in E as [Hid Hb].
  unfold assert_ in E0. destruct a; [done|].
  destruct (sharers_from_flip 0 (m_sharers e) (Z.to_nat id) false Hb) as (l1 & l2 & E1 & E2).
  rewrite list_insert_id in E2 by done. cbn in E1. rewrite Z2Nat.id in E1 by done.
  destruct (e_class e) as [rand|trap pen].
  - destruct (hw <=? getNumSharers e); simplify_eq; [done|]. cbn. split_and!; eauto.
  - simplify_eq. cbn. split_and!; eauto.
Qed.

Lemma removeSharer_ok e id e' :
  removeSharer e id = Ok e' ->
  e_address e' = e_address e /\ m_dstate e' = m_dstate e /\ m_owner_id e' = m_owner_id e /\
  exists l1 l2, sharers e = l1 ++ id :: l2 /\ sharers e' = l1 ++ l2.
Proof.
  unfold removeSharer. intros H. res_inv H. apply sharer_bit_ok in E as [Hid Hb].
  unfold assert_ in E0. destruct a; [|done]. simplify_eq. cbn. split_and!; try done.
  destruct (sharers_from_flip 0 (m_sharers e) (Z.to_nat id) true Hb) as (l1 & l2 & E1 & E2).
  rewrite list_insert_id in E1 by done. cbn in E1. rewrite Z2Nat.id in E1 by done. eauto.
Qed.

Lemma entry_setOwner_ok e o e' :
  entry_setOwner e o = Ok e' ->
  e' = set_owner_id e o /\ (o <> INVALID_CORE_ID -> o ∈ sharers e).
Proof.
  unfold entry_setOwner. intros H. res_inv H. simplify_eq. split; [done|]. intros Ho.
  destruct (Z.eqb_spec o INVALID_CORE_ID) as [|_]; [done|]. cbn in E. res_inv E.
  apply (proj1 (hasSharer_ok e o a0 E0)). unfold assert_ in E. by destruct a0.
Qed.

Lemma getOneSharer_ok e c e' :
  getOneSharer e = Ok (c, e') ->
  c ∈ sharers e /\ e_address e' = e_address e /\ m_dstate e' = m_dstate e /\
  m_owner_id e' = m_owner_id e /\ sharers e' = sharers e.
Proof.
  unfold getOneSharer. destruct (e_class e) as [rand|trap pen].
  - cbn. intros H. res_inv H. simplify_eq.
    apply aget_ok in E0. split_and!; try done. unfold sharers. apply list_elem_of_lookup. eauto.
  - unfold sharers. destruct (sharers_from 0 (m_sharers e)) eqn:Es; [done|].
    intros [= -> ->]. rewrite Es. split_and!; try done. apply list_elem_of_here.
Qed.

(** ** What the entry operations do to the set of sharers *)

(** Adding a core that is not a sharer: a full-map or limited entry takes it exactly if it has
    fewer than [max_hw_sharers], a LimitLESS entry always does; the number of sharers then is
    one more and the new core is one of them.  Removing it again restores the sharers. *)
Theorem addSharer_removeSharer (e : DirectoryEntry) (id hw : Z) :
  hasSharer e id = Ok false ->
  exists r e', addSharer e id hw = Ok (r, e') /\
    (r = true <-> match e_class e with
                 | LimitedNoBroadcast _ => getNumSharers e < hw
                 | Limitless _ _ => True
                 end) /\
    (r = false -> e' = e) /\
    (r = true -> getNumSharers e' = getNumSharers e + 1 /\ hasSharer e' id = Ok true /\
       exists e'', removeSharer e' id = Ok e'' /\ getSharersList e'' = getSharersList e).
Proof.
  intros Hs. pose proof Hs as [Hid Hb]%sharer_bit_ok.
  assert (exists r e', addSharer e id hw = Ok (r, e') /\
    (r = true <-> match e_class e with LimitedNoBroadcast _ => getNumSharers e < hw | Limitless _ _ => True end) /\
    (r = true -> m_sharers e' = <[Z.to_nat id := true]> (m_sharers e))) as (r & e' & E & Hr & Hm).
  { unfold addSharer. unfold hasSharer in Hs. rewrite Hs. cbn [mbind res_bind assert_ negb].
    destruct (e_class e); [destruct (Z.leb_spec hw (getNumSharers e))|]; eexists _, _;
      (split; [done|]); (split; [split; [done || lia|done || lia]|done]). }
  exists r, e'. split; [done|]. split; [done|].
  apply addSharer_ok in E as (_ & _ & _ & E). destruct r; [|done]. split; [done|].
  intros _. specialize (Hm eq_refl). destruct E as (l1 & l2 & E1 & E2).
  assert (sharer_bit (m_sharers e') id = Ok true) as Hin.
  { apply sharer_bit_ok. split; [done|]. rewrite Hm. apply list_lookup_insert_eq. by eapply lookup_lt_Some. }
  split; [rewrite !getNumSharers_length, E1, E2, !length_app; cbn; lia|]. split; [done|].
  unfold removeSharer. rewrite Hin. cbn [mbind res_bind assert_]. eexists. split; [done|].
  unfold getSharersList; cbn. rewrite Hm, list_insert_insert_eq, list_insert_id by done. done.
Qed.

Definition entry_example : DirectoryEntry :=
  mkEntry 4096 DSHARED INVALID_CORE_ID INVALID_CORE_ID [false; true; false; true] (LimitedNoBroadcast 1).

Lemma addSharer_removeSharer_witness :
  exists r e', addSharer entry_example 2 3 = Ok (r, e') /\
    (r = true <-> getNumSharers entry_example < 3) /\
    (r = false -> e' = entry_example) /\
    (r = true -> getNumSharers e' = getNumSharers entry_example + 1 /\ hasSharer e' 2 = Ok true /\
       exists e'', removeSharer e' 2 = Ok e'' /\ getSharersList e'' = getSharersList entry_example).
Proof. apply (addSharer_removeSharer entry_example 2 3). reflexivity. Defined.

(** The software trap of a LimitLESS entry: [addSharer] compares the size of the bit set, not
    the number of sharers, with [max_hw_sharers].  So on an entry with a bit set larger than
    [max_hw_sharers] no number of added sharers ever enables the trap, and its latency
    penalty is never charged. *)
Theorem limitless_trap_never_enabled (e : DirectoryEntry) (penalty hw : Z) (ids : list Z) (e' : DirectoryEntry) :
  e_class e = Limitless false penalty -> hw < Z.of_nat (length (m_sharers e)) ->
  foldl (fun r id => e ← r; '(_, e) ← addSharer e id hw; Ok e) (Ok e) ids = Ok e' ->
  entry_getLatency e' = 0.
Proof.
  revert e. induction ids as [|id ids IH]; intros e Hc Hw H.
  - injection H as <-. unfold entry_getLatency. by rewrite Hc.
  - cbn [foldl] in H. cbn [mbind res_bind] in H.
    destruct (addSharer e id hw) as [[r e1]|] eqn:E; cbn [mbind res_bind] in H.
    + unfold addSharer in E. res_inv E. rewrite Hc in E.
      destruct (Z.eqb_spec (Z.of_nat (length (m_sharers e))) hw); [lia|]. simplify_eq.
      eapply IH; [| |exact H]; cbn; [done|]. by rewrite length_insert.
    + exfalso. clear -H. induction ids as [|x l IH]; cbn in H; [done|]. by apply IH.
Qed.

Lemma limitless_trap_never_enabled_witness :
  entry_getLatency (mkEntry 4096 DSHARED 0 0 (replicate 8 true) (Limitless false 100)) = 0.
Proof.
  apply (limitless_trap_never_enabled
    (mkEntry 4096 DSHARED 0 0 (replicate 8 false) (Limitless false 100)) 100 4 [0; 1; 2; 3; 4; 5; 6; 7]);
    reflexivity.
Defined.

(** ** Coherence of an entry

    An uncached line has no sharers; a shared one has some; a line held for writing, or
    exclusively, has exactly one sharer, its owner.  The state OWNED is never used. *)
Definition entry_ok (e : DirectoryEntry) : Prop :=
  match m_dstate e with
  | UNCACHED => sharers e = []
  | DSHARED => sharers e <> []
  | DMODIFIED | DEXCLUSIVE => sharers e = [m_owner_id e]
  | DOWNED => False
  end.

(** Whether an entry is coherent depends on state, owner and sharers only. *)
Lemma entry_ok_ext e e' :
  m_dstate e' = m_dstate e -> m_owner_id e' = m_owner_id e -> sharers e' = sharers e ->
  entry_ok e -> entry_ok e'.
Proof. unfold entry_ok. by intros -> -> ->. Qed.

Lemma entry_ok_setForwarder e f : entry_ok e -> entry_ok (setForwarder e f).
Proof. by apply entry_ok_ext. Qed.

Lemma entry_ok_setAddress e a : entry_ok e -> entry_ok (setAddress e a).
Proof. by apply entry_ok_ext. Qed.

(** A new sharer of a line that is shared. *)
Lemma entry_ok_addSharer e id hw r e' :
  entry_ok e -> m_dstate e = DSHARED -> addSharer e id hw = Ok (r, e') -> entry_ok e'.
Proof.
  intros He Hd (_ & Hd' & _ & H)%addSharer_ok. destruct r; [|by subst].
  destruct H as (l1 & l2 & _ & E). unfold entry_ok. rewrite Hd', Hd, E. by destruct l1.
Qed.

(** The first sharer of an uncached line, made its owner. *)
Lemma entry_ok_take e id hw e1 e2 d :
  entry_ok e -> m_dstate e = UNCACHED -> d <> DOWNED -> d <> UNCACHED -> 
  addSharer e id hw = Ok (true, e1) -> entry_setOwner e1 id = Ok e2 -> entry_ok (setDState e2 d).
Proof.
  intros He Hd Hd1 Hd2 (_ & _ & _ & l1 & l2 & E & E')%addSharer_ok [-> _]%entry_setOwner_ok.
  unfold entry_ok in He. rewrite Hd in He. rewrite He in E. symmetry in E. apply app_nil in E as [-> ->].
  unfold entry_ok; cbn [m_dstate setDState m_owner_id set_owner_id].
  destruct d; try done.
  all: match goal with |- context [sharers ?x] => change (sharers x) with (sharers e1) end; by rewrite E'.
Qed.

(** A sharer leaves: the line becomes uncached with the last one. *)
Lemma entry_ok_removeSharer e id e1 :
  entry_ok e -> removeSharer e id = Ok e1 ->
  (getNumSharers e1 = 0 -> sharers e1 = []) /\
  (getNumSharers e1 <> 0 -> m_dstate e = DSHARED -> sharers e1 <> []) /\
  (m_dstate e <> DSHARED -> getNumSharers e1 = 0).
Proof.
  intros He (_ & Hd & _ & l1 & l2 & E & E')%removeSharer_ok. rewrite getNumSharers_length.
  split_and!.
  - destruct (sharers e1); [done|]. cbn. lia.
  - intros Hn _ Hnil. by rewrite Hnil in Hn.
  - intros Hs. unfold entry_ok in He. rewrite E in He.
    destruct (m_dstate e); try done; [by destruct l1| |].
    all: destruct l1 as [|x [|y l1]]; cbn in He; simplify_eq; by rewrite E'.
Qed.

Lemma entry_ok_uncached e : sharers e = [] -> entry_ok (setDState e UNCACHED).
Proof. done. Qed.

(** The only sharer of a shared line becomes its owner. *)
Lemma entry_ok_upgrade e c : sharers e = [c] -> entry_ok (setDState (set_owner_id e c) DMODIFIED).
Proof. done. Qed.

Lemma no_fuel_hasSharer e c : hasSharer e c <> Err OutOfFuel.
Proof. unfold hasSharer, sharer_bit, aget. destruct (_ <? _); [done|]. by destruct (_ !! _). Qed.

Lemma no_fuel_addSharer e c hw : addSharer e c hw <> Err OutOfFuel.
Proof.
  unfold addSharer. pose proof (no_fuel_hasSharer e c) as H. unfold hasSharer in H.
  destruct (sharer_bit (m_sharers e) c) as [[]|]; cbn; [done| |congruence].
  destruct (e_class e); [|done]. by destruct (_ <=? _).
Qed.

Lemma no_fuel_removeSharer e c : removeSharer e c <> Err OutOfFuel.
Proof.
  unfold removeSharer. pose proof (no_fuel_hasSharer e c) as H. unfold hasSharer in H.
  destruct (sharer_bit (m_sharers e) c) as [[]|]; cbn; [done|done|congruence].
Qed.

Lemma no_fuel_setOwner e c : entry_setOwner e c <> Err OutOfFuel.
Proof.
  unfold entry_setOwner. pose proof (no_fuel_hasSharer e c) as H. unfold hasSharer in H.
  destruct (negb _); [|done]. destruct (sharer_bit (m_sharers e) c) as [[]|]; cbn; [done|done|congruence].
Qed.

Lemma no_fuel_getOneSharer e : getOneSharer e <> Err OutOfFuel.
Proof.
  unfold getOneSharer. destruct (e_class e); [|by destruct (sharers_from _ _)].
  cbn. destruct (0 <? _); cbn; [|done]. unfold aget. by destruct (_ !! _).
Qed.

#[export] Hint Resolve no_fuel_hasSharer no_fuel_addSharer no_fuel_removeSharer no_fuel_setOwner
  no_fuel_getOneSharer : fuel.
