(* ===== verification/DramDirectoryCache.v ===== *)
(** * The tag directory's entry store

    Models src/common/core/memory_subsystem/directory_schemes/directory.{h,cc}
    and pr_l1_pr_l2_dram_directory_msi/dram_directory_cache.{h,cc}.

    Entries are heap objects: [dc_heap] maps pointers to entries, the directory
    proper is an array of pointers that are allocated on first use, and entries
    replaced while their line is still cached live on in
    [m_replaced_directory_entry_list] until they are nullified.  Two fields are
    not initialised by the constructors, [m_forwarder_id] of an entry and the
    array [m_replacement_ptrs]; their initial values are parameters. *)

From stdpp Require Import gmap.
From S2P Require Import Prelude StateMonad Utils SubsecondTime DirectoryEntry.

Inductive DirectoryType := FULL_MAP | LIMITED_NO_BROADCAST | LIMITLESS.

Definition parseDirectoryType (directory_type_str : string) : res DirectoryType :=
  if bool_decide (directory_type_str = "full_map"%string) then Ok FULL_MAP
  else if bool_decide (directory_type_str = "limited_no_broadcast"%string) then Ok LIMITED_NO_BROADCAST
  else if bool_decide (directory_type_str = "limitless"%string) then Ok LIMITLESS
  else Err LogError.

(** The object graph of a DramDirectoryCache: its own fields, those of its Directory, and the
    entries. *)
Record DramDirectoryCache := mkDDC {
  m_directory_type : DirectoryType;
  m_num_entries_allocated : Z;
  m_max_hw_sharers : Z;
  m_use_max_hw_sharers : Z;
  m_max_num_sharers : Z;
  m_limitless_software_trap_penalty : Z;
  m_directory_entry_list : list (option nat);   (* pointers, NULL at first *)
  m_replacement_ptrs : list Z;
  m_replaced_directory_entry_list : list nat;
  dc_associativity : Z;
  dc_num_sets : Z;
  m_log_num_sets : Z;
  m_log_cache_block_size : Z;
  m_dram_directory_cache_access_time : Z;
  dc_heap : gmap nat DirectoryEntry;
  dc_next : nat;                                (* next free pointer *)
  dc_uninit_forwarder : Z                       (* what an uninitialised core_id_t holds *)
}.

Definition Directory_new (directory_type_str : string) (num_entries max_hw_sharers max_num_sharers
    trap_penalty_ns : Z) (d : DramDirectoryCache) : res DramDirectoryCache :=
  t ← parseDirectoryType directory_type_str;
  Ok (mkDDC t 0 max_hw_sharers max_hw_sharers max_num_sharers
        (match t with LIMITLESS => st_mul (NS 1) trap_penalty_ns | _ => 0 end)
        (replicate (Z.to_nat num_entries) None) (m_replacement_ptrs d)
        (m_replaced_directory_entry_list d) (dc_associativity d) (dc_num_sets d) (m_log_num_sets d)
        (m_log_cache_block_size d) (m_dram_directory_cache_access_time d) (dc_heap d) (dc_next d)
        (dc_uninit_forwarder d)).

(** [ptrs] and [fwd] are the values of the uninitialised memory. *)
Definition DramDirectoryCache_new (directory_type_str : string) (total_entries associativity
    cache_block_size max_hw_sharers max_num_sharers access_time trap_penalty_ns : Z)
    (ptrs : list Z) (fwd : Z) : res DramDirectoryCache :=
  if associativity =? 0 then Err DivByZero else
  let num_sets := total_entries / associativity in
  Directory_new directory_type_str total_entries max_hw_sharers max_num_sharers trap_penalty_ns
    (mkDDC FULL_MAP 0 0 0 0 0 [] (take (Z.to_nat num_sets) ptrs) [] associativity num_sets
       (u32 (floorLog2 num_sets)) (u32 (floorLog2 cache_block_size)) access_time ∅ 0 fwd).

(** ** Field updates *)

Definition dc_set_alloc (p : nat) (e : DirectoryEntry) (hw : Z) (d : DramDirectoryCache) :=
  mkDDC (m_directory_type d) (m_num_entries_allocated d) (m_max_hw_sharers d) hw (m_max_num_sharers d)
    (m_limitless_software_trap_penalty d) (m_directory_entry_list d) (m_replacement_ptrs d)
    (m_replaced_directory_entry_list d) (dc_associativity d) (dc_num_sets d) (m_log_num_sets d)
    (m_log_cache_block_size d) (m_dram_directory_cache_access_time d) (<[p := e]> (dc_heap d))
    (S p) (dc_uninit_forwarder d).
Definition dc_set_heap (h : gmap nat DirectoryEntry) (d : DramDirectoryCache) :=
  mkDDC (m_directory_type d) (m_num_entries_allocated d) (m_max_hw_sharers d) (m_use_max_hw_sharers d)
    (m_max_num_sharers d) (m_limitless_software_trap_penalty d) (m_directory_entry_list d)
    (m_replacement_ptrs d) (m_replaced_directory_entry_list d) (dc_associativity d) (dc_num_sets d)
    (m_log_num_sets d) (m_log_cache_block_size d) (m_dram_directory_cache_access_time d) h
    (dc_next d) (dc_uninit_forwarder d).
Definition dc_set_list (n : Z) (l : list (option nat)) (d : DramDirectoryCache) :=
  mkDDC (m_directory_type d) n (m_max_hw_sharers d) (m_use_max_hw_sharers d)
    (m_max_num_sharers d) (m_limitless_software_trap_penalty d) l
    (m_replacement_ptrs d) (m_replaced_directory_entry_list d) (dc_associativity d) (dc_num_sets d)
    (m_log_num_sets d) (m_log_cache_block_size d) (m_dram_directory_cache_access_time d) (dc_heap d)
    (dc_next d) (dc_uninit_forwarder d).
Definition dc_set_replaced (l : list nat) (d : DramDirectoryCache) :=
  mkDDC (m_directory_type d) (m_num_entries_allocated d) (m_max_hw_sharers d) (m_use_max_hw_sharers d)
    (m_max_num_sharers d) (m_limitless_software_trap_penalty d) (m_directory_entry_list d)
    (m_replacement_ptrs d) l (dc_associativity d) (dc_num_sets d)
    (m_log_num_sets d) (m_log_cache_block_size d) (m_dram_directory_cache_access_time d) (dc_heap d)
    (dc_next d) (dc_uninit_forwarder d).
Definition dc_set_ptrs (l : list Z) (d : DramDirectoryCache) :=
  mkDDC (m_directory_type d) (m_num_entries_allocated d) (m_max_hw_sharers d) (m_use_max_hw_sharers d)
    (m_max_num_sharers d) (m_limitless_software_trap_penalty d) (m_directory_entry_list d)
    l (m_replaced_directory_entry_list d) (dc_associativity d) (dc_num_sets d)
    (m_log_num_sets d) (m_log_cache_block_size d) (m_dram_directory_cache_access_time d) (dc_heap d)
    (dc_next d) (dc_uninit_forwarder d).

Abbreviation DM := (ST DramDirectoryCache).

Definition deref (p : nat) : DM DirectoryEntry := fun d =>
  match dc_heap d !! p with Some e => Ok (e, d) | None => Err NullDeref end.
Definition store (p : nat) (e : DirectoryEntry) : DM unit :=
  _ ← deref p; modify (fun d => dc_set_heap (<[p := e]> (dc_heap d)) d).

(** ** class Directory *)

(** The storage class chosen by [createDirectoryEntry]. *)
Definition sharers_size (max_num_sharers : Z) : Z :=
  if max_num_sharers <=? 64 then 64
  else if max_num_sharers <=? 128 then 128
  else if max_num_sharers <=? 256 then 256
  else if max_num_sharers <=? 1024 then 1024
  else max_num_sharers.

Definition new_entry (d : DramDirectoryCache) (c : entry_class) : DirectoryEntry :=
  mkEntry INVALID_ADDRESS UNCACHED INVALID_CORE_ID (dc_uninit_forwarder d)
    (replicate (Z.to_nat (sharers_size (m_max_num_sharers d))) false) c.

Definition createDirectoryEntry : DM nat := fun d =>
  let p := dc_next d in
  match m_directory_type d with
  | FULL_MAP => Ok (p, dc_set_alloc p (new_entry d (LimitedNoBroadcast 1)) (m_max_num_sharers d) d)
  | LIMITED_NO_BROADCAST =>
      Ok (p, dc_set_alloc p (new_entry d (LimitedNoBroadcast 1)) (m_use_max_hw_sharers d) d)
  | LIMITLESS =>
      Ok (p, dc_set_alloc p (new_entry d (Limitless false (m_limitless_software_trap_penalty d)))
               (m_use_max_hw_sharers d) d)
  end.

Definition Directory_getDirectoryEntry (entry_num : Z) : DM nat :=
  l ← gets m_directory_entry_list;
  _ ← assertM (entry_num <? Z.of_nat (length l));
  slot ← lift_res (aget l (Z.to_nat entry_num));
  match slot with
  | Some p => mret p
  | None =>
      p ← createDirectoryEntry;
      _ ← modify (fun d => dc_set_list (u64 (m_num_entries_allocated d + 1))
                             (<[Z.to_nat entry_num := Some p]> (m_directory_entry_list d)) d);
      mret p
  end.

Definition setDirectoryEntry (entry_num : Z) (p : nat) : DM unit :=
  l ← gets m_directory_entry_list;
  l ← lift_res (aset l (Z.to_nat entry_num) (Some p));
  modify (fun d => dc_set_list (m_num_entries_allocated d) l d).

(** ** class DramDirectoryCache *)

(** [splitAddress]; the tag is not used. *)
Definition dc_set_index (d : DramDirectoryCache) (address : Z) : Z :=
  let cache_block_address := Z.shiftr address (m_log_cache_block_size d) in
  Z.land (u32 cache_block_address) (u32 (dc_num_sets d - 1)).

Definition entry_num (d : DramDirectoryCache) (set_index : Z) (i : nat) : Z :=
  u32 (set_index * dc_associativity d + Z.of_nat i).

(** The loops [for (i = 0; i < m_associativity; i++)] over the entries of a set, [n]
    iterations left, that stop at the first entry with a given address. *)
Fixpoint find_in_set (n i : nat) (set_index address : Z) : DM (option nat) :=
  match n with
  | O => mret None
  | S n =>
      num ← gets (fun d => entry_num d set_index i);
      p ← Directory_getDirectoryEntry num;
      e ← deref p;
      if e_address e =? address then mret (Some p) else find_in_set n (S i) set_index address
  end.

Fixpoint find_in_list (l : list nat) (address : Z) : DM (option nat) :=
  match l with
  | [] => mret None
  | p :: l =>
      e ← deref p;
      if e_address e =? address then mret (Some p) else find_in_list l address
  end.

(** [getDirectoryEntry]: a pointer or NULL, and the latency it adds when [modeled]. *)
Definition getDirectoryEntry (address : Z) (modeled : bool) : DM (option nat * Z) :=
  lat ← gets (fun d => if modeled then m_dram_directory_cache_access_time d else 0);
  set_index ← gets (fun d => dc_set_index d address);
  n ← gets (fun d => Z.to_nat (dc_associativity d));
  r ← find_in_set n 0 set_index address;
  match r with
  | Some p =>
      e ← deref p;
      mret (Some p, st_add lat (if modeled then entry_getLatency e else 0))
  | None =>
      r ← find_in_set n 0 set_index INVALID_ADDRESS;
      match r with
      | Some p =>
          e ← deref p;
          _ ← store p (setAddress e address);
          mret (Some p, lat)
      | None =>
          l ← gets m_replaced_directory_entry_list;
          r ← find_in_list l address;
          mret (r, lat)
      end
  end.

(** The loop that collects the candidates, starting at the replacement pointer of the set. *)
Fixpoint collect_candidates (n i : nat) (set_index ptr : Z) : DM (list nat) :=
  match n with
  | O => mret []
  | S n =>
      num ← gets (fun d => u32 (set_index * dc_associativity d
                                + u32 (Z.of_nat i + ptr) mod dc_associativity d));
      p ← Directory_getDirectoryEntry num;
      l ← collect_candidates n (S i) set_index ptr;
      mret (p :: l)
  end.

Definition getReplacementCandidates (address : Z) : DM (list nat) :=
  '(r, _) ← getDirectoryEntry address false;
  _ ← assertM (bool_decide (r = None));
  set_index ← gets (fun d => dc_set_index d address);
  n ← gets (fun d => Z.to_nat (dc_associativity d));
  ptrs ← gets m_replacement_ptrs;
  ptr ← lift_res (aget ptrs (Z.to_nat set_index));
  l ← collect_candidates n 0 set_index ptr;
  ptrs ← lift_res (aset ptrs (Z.to_nat set_index) (u32 (ptr + 1)));
  _ ← modify (dc_set_ptrs ptrs);
  mret l.

(** The loop of [replaceDirectoryEntry], [n] iterations left. *)
Fixpoint replace_in_set (n i : nat) (set_index replaced_address address : Z) : DM nat :=
  match n with
  | O => fail LogError
  | S n =>
      num ← gets (fun d => entry_num d set_index i);
      replaced ← Directory_getDirectoryEntry num;
      e ← deref replaced;
      if e_address e =? replaced_address then
        _ ← modify (fun d => dc_set_replaced (m_replaced_directory_entry_list d ++ [replaced]) d);
        p ← createDirectoryEntry;
        e ← deref p;
        _ ← store p (setAddress e address);
        _ ← setDirectoryEntry num p;
        mret p
      else replace_in_set n (S i) set_index replaced_address address
  end.

Definition replaceDirectoryEntry (replaced_address address : Z) (modeled : bool) : DM (nat * Z) :=
  lat ← gets (fun d => if modeled then m_dram_directory_cache_access_time d else 0);
  set_index ← gets (fun d => dc_set_index d replaced_address);
  n ← gets (fun d => Z.to_nat (dc_associativity d));
  p ← replace_in_set n 0 set_index replaced_address address;
  mret (p, lat).

(** The erased entry is deleted; [before] are the entries already passed. *)
Fixpoint invalidate_in_list (before l : list nat) (address : Z) : DM unit :=
  match l with
  | [] => fail LogError
  | p :: l =>
      e ← deref p;
      if e_address e =? address then
        _ ← modify (fun d => dc_set_heap (delete p (dc_heap d)) d);
        modify (dc_set_replaced (rev before ++ l))
      else invalidate_in_list (p :: before) l address
  end.

Definition invalidateDirectoryEntry (address : Z) : DM unit :=
  l ← gets m_replaced_directory_entry_list;
  invalidate_in_list [] l address.
