(* ===== verification/ReqQueueList.v ===== *)
(** * Request queues, one per address

    Models the class template of
    src/common/core/memory_subsystem/cache/req_queue_list_template.h (the
    std::map of std::queue that is compiled in): a map from addresses to
    queues, in which an address is present only while its queue is not empty. *)

From stdpp Require Import gmap.
From S2P Require Import Prelude.

(** [std::map<IntPtr, std::queue<T_Req*>* >] *)
Abbreviation ReqQueueList T := (gmap Z (list T)).

Section ReqQueueList.
Context {T : Type}.
Implicit Types (q : ReqQueueList T) (a : Z).

Definition enqueue q a (shmem_req : T) : ReqQueueList T :=
  <[a := default [] (q !! a) ++ [shmem_req]]> q.

(** [front] of an empty std::queue is undefined. *)
Definition dequeue q a : res (T * ReqQueueList T) :=
  match q !! a with
  | None => Err AssertFailed
  | Some [] => Err OutOfBounds
  | Some (x :: l) => Ok (x, match l with [] => delete a q | _ => <[a := l]> q end)
  end.

Definition front q a : res T :=
  match q !! a with
  | None => Err AssertFailed
  | Some [] => Err OutOfBounds
  | Some (x :: _) => Ok x
  end.

Definition back q a : res T :=
  match q !! a with
  | None => Err AssertFailed
  | Some l => match last l with Some x => Ok x | None => Err OutOfBounds end
  end.

Definition size q a : Z := match q !! a with None => 0 | Some l => Z.of_nat (length l) end.
Definition empty q a : bool := match q !! a with None => true | Some _ => false end.

(** Assignment through the pointer that [front] returns. *)
Definition set_front q a (x : T) : ReqQueueList T :=
  match q !! a with
  | Some (_ :: l) => <[a := x :: l]> q
  | _ => q
  end.

(** ** The abstract queues *)

Definition pending q a : list T := default [] (q !! a).

Definition queues_wf q : Prop := map_Forall (fun _ l => l <> []) q.

Lemma pending_enqueue q a b x :
  pending (enqueue q a x) b = if decide (a = b) then pending q a ++ [x] else pending q b.
Proof.
  unfold pending, enqueue. destruct (decide (a = b)) as [->|].
  - by rewrite lookup_insert_eq.
  - by rewrite lookup_insert_ne.
Qed.

Lemma dequeue_inv q a x q' :
  dequeue q a = Ok (x, q') ->
  pending q a = x :: pending q' a /\ (forall b, b <> a -> pending q' b = pending q b) /\
  (queues_wf q -> queues_wf q').
Proof.
  unfold dequeue, pending. intros H. destruct (q !! a) as [[|y l]|] eqn:E; simplify_eq.
  destruct l as [|z l].
  - rewrite lookup_delete_eq. split; [done|]. split; [|by apply map_Forall_delete].
    intros b Hb. by rewrite lookup_delete_ne by done.
  - rewrite lookup_insert_eq. split; [done|]. split.
    + intros b Hb. by rewrite lookup_insert_ne by done.
    + intros Hq. by apply map_Forall_insert_2.
Qed.

Lemma front_inv q a x : front q a = Ok x -> exists l, pending q a = x :: l.
Proof.
  unfold front, pending. destruct (q !! a) as [[|y l]|]; intros; simplify_eq; cbn; eauto.
Qed.

Lemma size_pending q a : size q a = Z.of_nat (length (pending q a)).
Proof. unfold size, pending. by destruct (q !! a). Qed.

Lemma empty_pending q a : queues_wf q -> empty q a = true <-> pending q a = [].
Proof.
  intros Hq. unfold empty, pending. destruct (q !! a) as [l|] eqn:E; [|done].
  split; [done|]. cbn. intros ->. by specialize (Hq a [] E).
Qed.

Lemma queues_wf_enqueue q a x : queues_wf q -> queues_wf (enqueue q a x).
Proof. intros Hq. apply map_Forall_insert_2; [|done]. by destruct (default [] (q !! a)). Qed.

Lemma pending_set_front q a x b :
  pending (set_front q a x) b =
    if decide (a = b) then match pending q a with [] => [] | _ :: l => x :: l end else pending q b.
Proof.
  unfold pending, set_front. destruct (decide (a = b)) as [->|].
  - destruct (q !! b) as [[|y l]|] eqn:E; cbn; rewrite ?E; [done| |done].
    by rewrite lookup_insert_eq.
  - destruct (q !! a) as [[|y l]|]; try done. by rewrite lookup_insert_ne.
Qed.

Lemma queues_wf_set_front q a x : queues_wf q -> queues_wf (set_front q a x).
Proof.
  intros Hq. unfold set_front. destruct (q !! a) as [[|y l]|]; try done.
  by apply map_Forall_insert_2.
Qed.

(** ** Operation sequences *)

Inductive queue_op := Enqueue (a : Z) (x : T) | Dequeue (a : Z) | Front (a : Z) | Size (a : Z) | Empty (a : Z).
Inductive queue_obs := ONone | OElem (x : T) | OSize (n : Z) | OEmpty (b : bool).

Definition queue_step q (op : queue_op) : res (queue_obs * ReqQueueList T) :=
  match op with
  | Enqueue a x => Ok (ONone, enqueue q a x)
  | Dequeue a => '(x, q) ← dequeue q a; Ok (OElem x, q)
  | Front a => x ← front q a; Ok (OElem x, q)
  | Size a => Ok (OSize (size q a), q)
  | Empty a => Ok (OEmpty (empty q a), q)
  end.

(** The specification: an unbounded FIFO queue for each address. *)
Definition fifo_step (f : Z -> list T) (op : queue_op) : res (queue_obs * (Z -> list T)) :=
  match op with
  | Enqueue a x => Ok (ONone, fun b => if decide (a = b) then f a ++ [x] else f b)
  | Dequeue a =>
      match f a with
      | [] => Err AssertFailed
      | x :: l => Ok (OElem x, fun b => if decide (a = b) then l else f b)
      end
  | Front a => match f a with [] => Err AssertFailed | x :: _ => Ok (OElem x, f) end
  | Size a => Ok (OSize (Z.of_nat (length (f a))), f)
  | Empty a => Ok (OEmpty (match f a with [] => true | _ => false end), f)
  end.

Lemma queue_step_refines q op :
  queues_wf q ->
  match queue_step q op with
  | Ok (o, q') => queues_wf q' /\
      exists f', fifo_step (pending q) op = Ok (o, f') /\ forall b, f' b = pending q' b
  | Err e => fifo_step (pending q) op = Err e
  end.
Proof.
  intros Hq. destruct op as [a x|a|a|a|a]; cbn [queue_step fifo_step].
  - split; [by apply queues_wf_enqueue|]. eexists. split; [done|]. intros b. by rewrite pending_enqueue.
  - destruct (dequeue q a) as [[x q']|e] eqn:E; cbn [mbind res_bind].
    + apply dequeue_inv in E as (E & Eb & Hwf). split; [by apply Hwf|]. rewrite E.
      eexists. split; [done|]. intros b. cbn. destruct (decide (a = b)) as [->|]; [done|]. by rewrite Eb.
    + unfold dequeue in E. unfold pending. destruct (q !! a) as [[|y l]|] eqn:El; simplify_eq; [|done].
      by specialize (Hq a [] El).
  - destruct (front q a) as [x|e] eqn:E; cbn [mbind res_bind].
    + split; [done|]. apply front_inv in E as [l ->]. eauto.
    + unfold front in E. unfold pending. destruct (q !! a) as [[|y l]|] eqn:El; simplify_eq; [|done].
      by specialize (Hq a [] El).
  - split; [done|]. rewrite size_pending. eauto.
  - split; [done|]. eexists. split; [|done]. do 3 f_equal.
    destruct (empty q a) eqn:E; [apply empty_pending in E; [by rewrite E|done]|].
    destruct (pending q a) eqn:El; [|done].
    by rewrite (proj2 (empty_pending q a Hq) El) in E.
Qed.
End ReqQueueList.
Arguments queue_op : clear implicits.
Arguments queue_obs : clear implicits.

(** Run a sequence of operations from a state, for either machine. *)
Fixpoint run_ops {S Op Obs} (step : S -> Op -> res (Obs * S)) (s : S) (ops : list Op) : res (list Obs) :=
  match ops with
  | [] => Ok []
  | op :: ops => '(o, s) ← step s op; os ← run_ops step s ops; Ok (o :: os)
  end.

Lemma run_refines {T} (ops : list (queue_op T)) q f :
  queues_wf q -> (forall b, f b = pending q b) -> run_ops queue_step q ops = run_ops fifo_step f ops.
Proof.
  revert q f. induction ops as [|op ops IH]; intros q f Hq Hf; [done|]. cbn [run_ops].
  pose proof (queue_step_refines q op Hq) as H.
  assert (forall g h : Z -> list T, (forall b, g b = h b) ->
    match fifo_step g op, fifo_step h op with
    | Ok (o, g'), Ok (o', h') => o = o' /\ forall b, g' b = h' b
    | Err e, Err e' => e = e'
    | _, _ => False
    end) as Hext.
  { intros g h Hgh. destruct op as [a x|a|a|a|a]; cbn [fifo_step]; rewrite ?Hgh; try done.
    - split; [done|]. intros b. by rewrite !Hgh.
    - destruct (h a); [done|]. split; [done|]. intros b. by rewrite !Hgh.
    - by destruct (h a). }
  specialize (Hext f (pending q) Hf).
  destruct (queue_step q op) as [[o q']|e]; cbn [mbind res_bind].
  - destruct H as (Hq' & f' & E & Ef). rewrite E in Hext.
    destruct (fifo_step f op) as [[o' f'']|]; [|done]. destruct Hext as [-> Hf'']. cbn [mbind res_bind].
    rewrite (IH q' f''); [done|done|]. intros b. by rewrite Hf'', Ef.
  - rewrite H in Hext. by destruct (fifo_step f op) as [[]|]; simplify_eq.
Qed.

(** C35: The map of queues behaves as one unbounded FIFO queue per address: any sequence of
    operations on a new list gives the same results, and fails at the same point with the
    same assertion, as on the specification. *)
Theorem req_queue_list_refines_fifo (T : Type) (ops : list (queue_op T)) :
  run_ops queue_step (∅ : ReqQueueList T) ops = run_ops fifo_step (fun _ => []) ops.
Proof. apply run_refines; [apply map_Forall_empty|]. intros b. unfold pending. by rewrite lookup_empty. Qed.
