(* ===== verification/ShmemPerf.v ===== *)
(** * Latency breakdown of a memory request

    Models src/common/core/memory_subsystem/pr_l1_pr_l2_dram_directory_msi/
    shmem_perf.{h,cc}: an object that follows a request through the memory
    hierarchy and splits the time it takes into components.  Calls on a null
    pointer, which the code allows, are the callers' business here. *)

From S2P Require Import Prelude SubsecondTime.

Inductive shmem_times_type_t :=
  | NOC_BASE | NOC_QUEUE | TD_ACCESS | INV_IMBALANCE | REMOTE_CACHE_INV | REMOTE_CACHE_FWD
  | REMOTE_CACHE_WB | PENDING_HIT | NUCA_TAGS | NUCA_QUEUE | NUCA_BUS | NUCA_DATA | DRAM_CACHE
  | DRAM_CACHE_TAGS | DRAM_CACHE_QUEUE | DRAM_CACHE_BUS | DRAM_CACHE_DATA | DRAM | DRAM_QUEUE
  | DRAM_BUS | DRAM_DEVICE | UNKNOWN.

#[global] Instance shmem_times_type_eq_dec : EqDecision shmem_times_type_t.
Proof. solve_decision. Defined.

(** The enumerators in order; the position is the value. *)
Definition all_reasons : list shmem_times_type_t :=
  [ NOC_BASE; NOC_QUEUE; TD_ACCESS; INV_IMBALANCE; REMOTE_CACHE_INV; REMOTE_CACHE_FWD;
    REMOTE_CACHE_WB; PENDING_HIT; NUCA_TAGS; NUCA_QUEUE; NUCA_BUS; NUCA_DATA; DRAM_CACHE;
    DRAM_CACHE_TAGS; DRAM_CACHE_QUEUE; DRAM_CACHE_BUS; DRAM_CACHE_DATA; DRAM; DRAM_QUEUE;
    DRAM_BUS; DRAM_DEVICE; UNKNOWN ].

Definition NUM_SHMEM_TIMES : nat := length all_reasons.

Fixpoint index_of (r : shmem_times_type_t) (l : list shmem_times_type_t) : nat :=
  match l with
  | [] => 0
  | x :: l => if decide (x = r) then 0 else S (index_of r l)
  end.
Definition reason_index (r : shmem_times_type_t) : nat := index_of r all_reasons.

(** [shmem_reason_names] *)
Definition shmem_reason_names : list string :=
  [ "noc-base"; "noc-queue"; "td-access"; "inv-imbalance"; "remote-cache-inv"; "remote-cache-fwd";
    "remote-cache-wb"; "pending-hit"; "nuca-tags"; "nuca-bus"; "nuca-queue"; "nuca-data"; "dram-cache";
    "dram-cache-tags"; "dram-cache-queue"; "dram-cache-bus"; "dram-cache-data"; "dram"; "dram-queue";
    "dram-bus"; "dram-device"; "unknown" ]%string.

Definition ShmemReasonString (r : shmem_times_type_t) : res string :=
  aget shmem_reason_names (reason_index r).

Record ShmemPerf := mkPerf {
  sp_core_id : Z;
  m_time_begin : Z;
  m_time_last : Z;
  m_times : list Z
}.

Definition ShmemPerf_new : ShmemPerf := mkPerf (-1) 0 0 (replicate NUM_SHMEM_TIMES 0).

(** No counter changes any more: no time is later than the last one. *)
Definition disable (p : ShmemPerf) : ShmemPerf :=
  mkPerf (sp_core_id p) (m_time_begin p) MaxTime (m_times p).

Definition reset (time core_id : Z) (p : ShmemPerf) : ShmemPerf :=
  mkPerf core_id time time (replicate NUM_SHMEM_TIMES 0).

Definition getComponent (p : ShmemPerf) (reason : shmem_times_type_t) : Z :=
  default 0 (m_times p !! reason_index reason).

(** [m_times[reason] += t] *)
Definition add_time (reason : shmem_times_type_t) (t : Z) (l : list Z) : list Z :=
  alter (fun x => st_add x t) (reason_index reason) l.

Definition updateTime (p : ShmemPerf) (time : Z) (reason : shmem_times_type_t) : ShmemPerf :=
  if st_gtb time (m_time_last p) then
    mkPerf (sp_core_id p) (m_time_begin p) time
      (add_time reason (st_sub time (m_time_last p)) (m_times p))
  else p.

Definition updatePacket (p : ShmemPerf) (packet_time queue_delay : Z) : ShmemPerf :=
  if st_gtb packet_time (m_time_last p) then
    updateTime (mkPerf (sp_core_id p) (m_time_begin p) (st_add (m_time_last p) queue_delay)
                  (add_time NOC_QUEUE queue_delay (m_times p))) packet_time NOC_BASE
  else p.

Definition add (p perf : ShmemPerf) : ShmemPerf :=
  mkPerf (sp_core_id p) (m_time_begin p) (m_time_last p)
    (foldr (fun r l => add_time r (getComponent perf r) l) (m_times p) all_reasons).

(** ** The components account for all the time *)

(** The calls that a request makes on its way. *)
Inductive perf_op :=
  | UpdateTime (time : Z) (reason : shmem_times_type_t)
  | UpdatePacket (packet_time queue_delay : Z).

Definition perf_step (p : ShmemPerf) (op : perf_op) : ShmemPerf :=
  match op with
  | UpdateTime t r => updateTime p t r
  | UpdatePacket t d => updatePacket p t d
  end.

Definition accounted (p : ShmemPerf) : Prop :=
  length (m_times p) = NUM_SHMEM_TIMES /\ u64 (total (m_times p)) = st_sub (m_time_last p) (m_time_begin p).

Lemma reason_index_bound r : (reason_index r < NUM_SHMEM_TIMES)%nat.
Proof. destruct r; cbv; lia. Qed.

Lemma total_alter (i : nat) t (l : list Z) :
  (i < length l)%nat -> u64 (total (alter (fun x => st_add x t) i l)) = u64 (total l + t).
Proof.
  unfold wrap. revert i. induction l as [|x l IH]; intros [|i] Hi; cbn in Hi; [lia..| |].
  - cbn. unfold st_add, wrap. rewrite Zplus_mod_idemp_l. f_equal. lia.
  - change (total (alter (fun y => st_add y t) (S i) (x :: l))) with (x + total (alter (fun y => st_add y t) i l)).
    rewrite <- Zplus_mod_idemp_r, IH by lia. rewrite Zplus_mod_idemp_r. change (total (x :: l)) with (x + total l). f_equal. lia.
Qed.

(** Adding [t] to a component while the last time moves by [t] keeps the account. *)
Lemma accounted_add p r t last :
  accounted p -> last = st_add (m_time_last p) t ->
  accounted (mkPerf (sp_core_id p) (m_time_begin p) last (add_time r t (m_times p))).
Proof.
  intros [Hl Ht] ->. unfold accounted, add_time; cbn. rewrite length_alter. split; [done|].
  rewrite total_alter by (rewrite Hl; apply reason_index_bound).
  unfold st_sub, st_add, wrap in *. rewrite <- Zplus_mod_idemp_l, Ht, Zplus_mod_idemp_l, Zminus_mod_idemp_l.
  f_equal. lia.
Qed.

Lemma accounted_updateTime p t r :
  accounted p -> 0 <= t < 2 ^ 64 -> accounted (updateTime p t r).
Proof.
  intros Hp Ht. unfold updateTime. destruct (st_gtb _ _); [|done]. apply accounted_add; [done|].
  unfold st_sub, st_add, wrap. rewrite Zplus_mod_idemp_r.
  replace (m_time_last p + (t - m_time_last p)) with t by lia. by rewrite Z.mod_small.
Qed.

Definition op_time (op : perf_op) : Z := match op with UpdateTime t _ => t | UpdatePacket t _ => t end.

(** A request's latency is split without loss: from [reset], after any sequence of updates with
    64-bit times, the components of the breakdown add up (in 64-bit arithmetic) to the time
    between the reset and the last update. *)
Theorem perf_accounts_all_time (p : ShmemPerf) (time core_id : Z) (ops : list perf_op) :
  Forall (fun op => 0 <= op_time op < 2 ^ 64) ops ->
  let p' := foldl perf_step (reset time core_id p) ops in
  u64 (total (m_times p')) = st_sub (m_time_last p') time.
Proof.
  intros Hops.
  assert (accounted (reset time core_id p) /\ m_time_begin (reset time core_id p) = time) as Hinit.
  { split; [|done]. split; [done|]. cbn. unfold st_sub, wrap. by rewrite Z.sub_diag. }
  revert Hinit. generalize (reset time core_id p). clear p core_id. intros p Hp.
  assert (accounted (foldl perf_step p ops) /\ m_time_begin (foldl perf_step p ops) = time) as [[_ H] <-]; [|done].
  revert p Hp.
  induction Hops as [|op ops Hop _ IH]; intros p [Hp Hb]; [done|]. apply IH. split.
  - destruct op as [t r|t d]; cbn [perf_step op_time] in *; [by apply accounted_updateTime|].
    unfold updatePacket. destruct (st_gtb _ _); [|done]. apply accounted_updateTime; [|done].
    by apply accounted_add.
  - destruct op as [t r|t d]; cbn; unfold updatePacket, updateTime; repeat (destruct (st_gtb _ _); try done).
Qed.

Lemma perf_accounts_all_time_witness :
  let p' := foldl perf_step (reset 100 0 ShmemPerf_new)
              [UpdateTime 150 TD_ACCESS; UpdatePacket 210 20; UpdateTime 180 DRAM; UpdateTime 300 DRAM_DEVICE] in
  getComponent p' TD_ACCESS = 50 /\ getComponent p' NOC_QUEUE = 20 /\ getComponent p' NOC_BASE = 40 /\
  u64 (total (m_times p')) = st_sub (m_time_last p') 100.
Proof.
  split_and!; [reflexivity..|]. apply (perf_accounts_all_time ShmemPerf_new 100 0).
  repeat (constructor; [cbn; lia|]). constructor.
Defined.

(** Two names of the table of component names are in the wrong order: queueing in the NUCA cache
    is reported as bus time and bus time as queueing. *)
Theorem nuca_reason_names_swapped :
  ShmemReasonString NUCA_QUEUE = Ok "nuca-bus"%string /\
  ShmemReasonString NUCA_BUS = Ok "nuca-queue"%string.
Proof. split; reflexivity. Qed.
