(* ===== verification/MovingAverage.v ===== *)
(** * Moving averages over a circular window

    Models src/common/misc/modulo_num.{h,cc} and src/common/misc/moving_average.h
    at SubsecondTime: a window of the last [m_max_window_size] values in a ring
    of one slot more.  The geometric mean goes through [pow] of the C library,
    which is a parameter. *)

From S2P Require Import Prelude SubsecondTime.

(** ** class ModuloNum *)

Record ModuloNum := mkModulo { m_value : Z; m_max_value : Z }.

Definition modulo_eqb (a b : ModuloNum) : bool :=
  (m_value a =? m_value b) && (m_max_value a =? m_max_value b).

(** [operator+(const ModuloNum&)] and [operator-(const ModuloNum&)] on 32-bit values *)
Definition modulo_add (a b : ModuloNum) : res ModuloNum :=
  _ ← assert_ (m_max_value a =? m_max_value b);
  if m_max_value a =? 0 then Err DivByZero
  else Ok (mkModulo (u32 (m_value a + m_value b) mod m_max_value a) (m_max_value a)).

Definition modulo_sub (a b : ModuloNum) : res ModuloNum :=
  _ ← assert_ (m_max_value a =? m_max_value b);
  Ok (mkModulo (if m_value b <=? m_value a then m_value a - m_value b
                else u32 (m_max_value a - m_value b + m_value a)) (m_max_value a)).

(** [operator+(UInt32)] and [operator-(UInt32)] *)
Definition modulo_plus (a : ModuloNum) (value : Z) : res ModuloNum :=
  if m_max_value a =? 0 then Err DivByZero
  else modulo_add a (mkModulo (value mod m_max_value a) (m_max_value a)).

Definition modulo_minus (a : ModuloNum) (value : Z) : res ModuloNum :=
  if m_max_value a =? 0 then Err DivByZero
  else modulo_sub a (mkModulo (value mod m_max_value a) (m_max_value a)).

(** ** class MovingAverage *)

Inductive AvgType_t := ARITHMETIC_MEAN | GEOMETRIC_MEAN | MEDIAN.

Definition parseAvgType (avg_type : string) : res AvgType_t :=
  if bool_decide (avg_type = "arithmetic_mean"%string) then Ok ARITHMETIC_MEAN
  else if bool_decide (avg_type = "geometric_mean"%string) then Ok GEOMETRIC_MEAN
  else if bool_decide (avg_type = "median"%string) then Ok MEDIAN
  else Err LogError.

(** The object; [ma_sum] is the field of the arithmetic mean. *)
Record MovingAverage := mkMA {
  ma_type : AvgType_t;
  m_num_list : list Z;
  m_max_window_size : Z;
  m_curr_window_front : ModuloNum;
  m_curr_window_back : ModuloNum;
  ma_sum : Z
}.

(** [createAvgType] and the constructors *)
Definition createAvgType (t : AvgType_t) (max_window_size : Z) : MovingAverage :=
  let size := u32 (max_window_size + 1) in
  mkMA t (replicate (Z.to_nat size) 0) max_window_size (mkModulo 0 size) (mkModulo 0 size) 0.

Definition addToWindow (a : MovingAverage) (next_num : Z) : res MovingAverage :=
  l ← aset (m_num_list a) (Z.to_nat (m_value (m_curr_window_back a))) next_num;
  back ← modulo_plus (m_curr_window_back a) 1;
  front ← (if modulo_eqb back (m_curr_window_front a) then modulo_plus (m_curr_window_front a) 1
           else Ok (m_curr_window_front a));
  Ok (mkMA (ma_type a) l (m_max_window_size a) front back (ma_sum a)).

Definition window_size (a : MovingAverage) : res Z :=
  d ← modulo_sub (m_curr_window_back a) (m_curr_window_front a); Ok (m_value d).

Definition ma_set_sum (s : Z) (a : MovingAverage) : MovingAverage :=
  mkMA (ma_type a) (m_num_list a) (m_max_window_size a) (m_curr_window_front a)
    (m_curr_window_back a) s.

Definition ma_update (a : MovingAverage) (next_num : Z) : res MovingAverage :=
  match ma_type a with
  | ARITHMETIC_MEAN =>
      curr_window_size ← window_size a;
      sum ← (if curr_window_size =? m_max_window_size a then
               x ← aget (m_num_list a) (Z.to_nat (m_value (m_curr_window_front a)));
               Ok (st_sub (ma_sum a) x)
             else Ok (ma_sum a));
      addToWindow (ma_set_sum (st_add sum next_num) a) next_num
  | GEOMETRIC_MEAN | MEDIAN => addToWindow a next_num
  end.

Section compute.
(** [pow((double) x, 1.0 / n)], as an internal time value *)
Context (pow_root : Z -> Z -> Z).

(** The product over the window, from front to back; the ring bounds the iterations. *)
Fixpoint window_product (n : nat) (curr back : ModuloNum) (l : list Z) (acc : Z) : res Z :=
  match n with
  | O => Err OutOfFuel
  | S n =>
      if modulo_eqb curr back then Ok acc
      else
        x ← aget l (Z.to_nat (m_value curr));
        curr ← modulo_plus curr 1;
        window_product n curr back l (u64 (acc * x))
  end.

Definition ma_compute (a : MovingAverage) : res Z :=
  curr_window_size ← window_size a;
  match ma_type a with
  | ARITHMETIC_MEAN => st_div (ma_sum a) curr_window_size
  | GEOMETRIC_MEAN =>
      p ← window_product (S (length (m_num_list a))) (m_curr_window_front a) (m_curr_window_back a)
            (m_num_list a) 1;
      Ok (pow_root p curr_window_size)
  | MEDIAN =>
      i ← modulo_plus (m_curr_window_front a) (curr_window_size / 2);
      aget (m_num_list a) (Z.to_nat (m_value i))
  end.

(** [compute(T next_num)] *)
Definition ma_compute_next (a : MovingAverage) (next_num : Z) : res (Z * MovingAverage) :=
  a ← ma_update a next_num;
  r ← ma_compute a;
  Ok (r, a).
End compute.

(** ** The window *)

(** [w] is the content of the ring, oldest value first. *)
Definition ring (a : MovingAverage) (w : list Z) : Prop :=
  let size := m_max_window_size a + 1 in
  let f := m_value (m_curr_window_front a) in
  1 <= m_max_window_size a < 2 ^ 31 /\ length (m_num_list a) = Z.to_nat size /\
  m_max_value (m_curr_window_front a) = size /\ m_max_value (m_curr_window_back a) = size /\
  0 <= f < size /\
  m_value (m_curr_window_back a) = (f + Z.of_nat (length w)) mod size /\
  (length w <= Z.to_nat (m_max_window_size a))%nat /\
  forall j x, w !! j = Some x -> m_num_list a !! Z.to_nat ((f + Z.of_nat j) mod size) = Some x.

Lemma ring_new t n : 1 <= n < 2 ^ 31 -> ring (createAvgType t n) [].
Proof.
  intros Hn. unfold ring, createAvgType; cbn [m_max_window_size m_curr_window_front m_curr_window_back m_value
    m_max_value m_num_list length]. rewrite wrap_small by lia. rewrite length_replicate.
  split_and!; try done; try lia.
Qed.

Lemma modulo_plus_1 v m : 0 <= v < m -> m < 2 ^ 32 -> modulo_plus (mkModulo v m) 1 = Ok (mkModulo ((v + 1) mod m) m).
Proof.
  intros Hv Hm. unfold modulo_plus, modulo_add; cbn [m_value m_max_value].
  destruct (Z.eqb_spec m 0); [lia|]. rewrite Z.eqb_refl. cbn [assert_ mbind res_bind]. do 2 f_equal.
  destruct (decide (m = 1)) as [->|]; [by rewrite !Z.mod_1_r|].
  rewrite (Z.mod_small 1 m) by lia. by rewrite wrap_small by lia.
Qed.

(** Distance between two positions of the ring. *)
Lemma ring_dist f n size : 0 <= f < size -> 0 <= n < size ->
  (if f <=? (f + n) mod size then (f + n) mod size - f else size - f + (f + n) mod size) = n.
Proof.
  intros Hf Hn. destruct (decide (f + n < size)).
  - rewrite Z.mod_small by lia. zcase; lia.
  - replace ((f + n) mod size) with (f + n - size).
    + zcase; lia.
    + symmetry. rewrite <- (Z.mod_small (f + n - size) size) by lia.
      replace (f + n - size) with (f + n + (-1) * size) by lia. by rewrite Z.mod_add by lia.
Qed.

Lemma ring_window_size a w : ring a w -> window_size a = Ok (Z.of_nat (length w)).
Proof.
  intros (Hn & _ & Hf & Hb & Hr & Hv & Hl & _). unfold window_size, modulo_sub. rewrite Hf, Hb, Z.eqb_refl.
  cbn [assert_ mbind res_bind m_value]. rewrite Hv. f_equal.
  set (size := m_max_window_size a + 1) in *. set (f := m_value _) in *.
  pose proof (ring_dist f (Z.of_nat (length w)) size ltac:(lia) ltac:(lia)) as Hd.
  destruct (f <=? _); [done|]. rewrite wrap_small; lia.
Qed.

Lemma ring_inj f i j size : 0 < size -> 0 <= i < size -> 0 <= j < size ->
  (f + i) mod size = (f + j) mod size -> i = j.
Proof.
  intros Hs Hi Hj E. assert ((f + i - (f + j)) mod size = 0) as E0.
  { rewrite Zminus_mod, E, Z.sub_diag. apply Z.mod_0_l. lia. }
  replace (f + i - (f + j)) with (i - j) in E0 by lia.
  apply Z.mod_divide in E0 as [k Hk]; [|lia].
  assert (k = 0) as -> by (destruct (Z.lt_trichotomy k 0) as [|[|]]; nia). lia.
Qed.

(** A value enters the window, and the oldest leaves it when it is full. *)
Definition push (max : nat) (w : list Z) (x : Z) : list Z :=
  if decide (length w < max)%nat then w ++ [x] else tail w ++ [x].

Lemma push_drop max xs x : (0 < max)%nat ->
  push max (drop (length xs - max) xs) x = drop (length (xs ++ [x]) - max) (xs ++ [x]).
Proof.
  intros Hm. unfold push. rewrite length_drop, length_app. cbn [length]. case_decide.
  - replace (length xs - max)%nat with 0%nat by lia. replace (length xs + 1 - max)%nat with 0%nat by lia. done.
  - rewrite drop_app_le by lia. f_equal.
    replace (length xs + 1 - max)%nat with ((length xs - max) + 1)%nat by lia.
    rewrite <- drop_drop. by destruct (drop (length xs - max) xs).
Qed.

Lemma ring_push a w x :
  ring a w ->
  exists a', addToWindow a x = Ok a' /\ ring a' (push (Z.to_nat (m_max_window_size a)) w x) /\
    ma_type a' = ma_type a /\ m_max_window_size a' = m_max_window_size a /\ ma_sum a' = ma_sum a.
Proof.
  intros (Hn & Hlen & Hf & Hb & Hr & Hv & Hl & Hw). unfold addToWindow.
  set (size := m_max_window_size a + 1) in *. set (f := m_value (m_curr_window_front a)) in *.
  destruct (m_curr_window_back a) as [vb mb]; cbn [m_value m_max_value] in *. subst mb vb.
  destruct (m_curr_window_front a) as [vf mf]; cbn [m_value m_max_value] in *. subst mf. subst f. rename vf into f.
  set (b := (f + Z.of_nat (length w)) mod size).
  assert (0 <= b < size) as Hbr by (apply Z.mod_pos_bound; lia).
  rewrite aset_lt by lia. cbn [mbind res_bind]. rewrite (modulo_plus_1 b) by lia. cbn [mbind res_bind].
  assert ((b + 1) mod size = (f + Z.of_nat (S (length w))) mod size) as Eb.
  { unfold b. rewrite Zplus_mod_idemp_l. f_equal. lia. }
  rewrite Eb. unfold modulo_eqb; cbn [m_value m_max_value]. rewrite Z.eqb_refl, andb_true_r.
  assert (forall j y, w !! j = Some y -> <[Z.to_nat b := x]> (m_num_list a) !! Z.to_nat ((f + Z.of_nat j) mod size) = Some y) as Hold.
  { intros j y Hj. pose proof (lookup_lt_Some _ _ _ Hj). rewrite list_lookup_insert_ne; [by apply Hw|].
    pose proof (Z.mod_pos_bound (f + Z.of_nat j) size). intros E.
    apply Z2Nat.inj in E; [|lia..]. apply ring_inj in E; lia. }
  assert (<[Z.to_nat b := x]> (m_num_list a) !! Z.to_nat b = Some x) as Hnew by (apply list_lookup_insert_eq; lia).
  unfold push. destruct (decide (length w < Z.to_nat (m_max_window_size a))%nat) as [Hlt|Hge].
  - destruct (Z.eqb_spec ((f + Z.of_nat (S (length w))) mod size) f) as [E|_].
    { exfalso. rewrite <- (Z.add_0_r f) in E at 2. rewrite <- (Z.mod_small (f + 0) size) in E by lia.
      apply ring_inj in E; lia. }
    eexists. split; [done|]. split; [|done].
    unfold ring; cbn [m_max_window_size m_curr_window_front m_curr_window_back m_value m_max_value m_num_list].
    rewrite length_app, length_insert. cbn [length]. fold size. split_and!; try done; try lia.
    intros j y [Hj|[Hj Hy]]%lookup_app_Some; [by apply Hold|].
    destruct (j - length w)%nat as [|k] eqn:Ek; [|by destruct k]. cbn in Hy. simplify_eq.
    replace j with (length w) by lia. exact Hnew.
  - assert (Z.of_nat (S (length w)) = size) as Es by lia.
    assert ((f + Z.of_nat (S (length w))) mod size = f) as E.
    { rewrite Es. replace (f + size) with (f + 1 * size) by lia. rewrite Z.mod_add, Z.mod_small; lia. }
    rewrite E, Z.eqb_refl. rewrite modulo_plus_1 by lia. cbn [mbind res_bind]. eexists. split; [done|]. split; [|done].
    destruct w as [|w0 w]; [cbn in *; lia|]. cbn [tail].
    unfold ring; cbn [m_max_window_size m_curr_window_front m_curr_window_back m_value m_max_value m_num_list].
    rewrite length_app, length_insert. cbn [length] in *. fold size. 
    split_and!; try done; try lia; [apply Z.mod_pos_bound; lia..| |].
    + rewrite Zplus_mod_idemp_l. rewrite <- E at 1. f_equal. lia.
    + intros j y [Hj|[Hj Hy]]%lookup_app_Some; rewrite Zplus_mod_idemp_l.
      * replace (f + 1 + Z.of_nat j) with (f + Z.of_nat (S j)) by lia. by apply Hold.
      * destruct (j - length w)%nat as [|k] eqn:Ek; [|by destruct k]. cbn in Hy. simplify_eq.
        replace (f + 1 + Z.of_nat j) with (f + Z.of_nat (S (length w))) by lia. exact Hnew.
Qed.

(** ** The loop of the geometric mean ends *)

Definition avg_ok (a : MovingAverage) : Prop := ma_type a = GEOMETRIC_MEAN -> exists w, ring a w.

Lemma no_fuel_modulo_plus m v : no_fuel_error (modulo_plus m v).
Proof. unfold modulo_plus, modulo_add. nofuel. Qed.
Lemma no_fuel_window_size a : no_fuel_error (window_size a).
Proof. unfold window_size, modulo_sub. nofuel. Qed.
Lemma no_fuel_st_div a b : no_fuel_error (st_div a b).
Proof. unfold st_div. nofuel. Qed.
#[export] Hint Resolve no_fuel_modulo_plus no_fuel_window_size no_fuel_st_div : fuel.

Lemma no_fuel_addToWindow a x : no_fuel_error (addToWindow a x).
Proof. unfold addToWindow. nofuel. Qed.
#[export] Hint Resolve no_fuel_addToWindow : fuel.

Lemma window_product_ends a w n j acc :
  ring a w -> (j <= length w)%nat -> (length w - j < n)%nat ->
  let size := m_max_window_size a + 1 in
  no_fuel_error (window_product n (mkModulo ((m_value (m_curr_window_front a) + Z.of_nat j) mod size) size)
    (m_curr_window_back a) (m_num_list a) acc).
Proof.
  intros Hr Hj Hn size. pose proof Hr as (Hm & _ & _ & Hb & Hf & Hv & Hl & _). revert j acc Hj Hn.
  induction n as [|n IH]; intros j acc Hj Hn; [lia|]. cbn [window_product].
  destruct (decide (j = length w)) as [->|].
  - unfold modulo_eqb; cbn [m_value m_max_value]. rewrite Hb, Hv, !Z.eqb_refl. discriminate.
  - destruct (modulo_eqb _ _); [discriminate|]. apply no_fuel_bind; [auto with fuel|]. intros x _.
    rewrite modulo_plus_1; [|apply Z.mod_pos_bound; unfold size; lia|unfold size; lia]. cbn [mbind res_bind].
    rewrite Zplus_mod_idemp_l, <- Z.add_assoc.
    replace (Z.of_nat j + 1) with (Z.of_nat (S j)) by lia. apply IH; lia.
Qed.

Lemma ma_compute_next_ok pow_root a x :
  avg_ok a -> no_fuel_error (ma_compute_next pow_root a x) /\
  forall r a', ma_compute_next pow_root a x = Ok (r, a') -> avg_ok a'.
Proof.
  intros Ha. unfold ma_compute_next.
  assert (forall a', ma_update a x = Ok a' -> avg_ok a') as Hu.
  { intros a' H Ht. unfold ma_update in H. destruct (ma_type a) eqn:E.
    - res_inv H. unfold addToWindow in H. res_inv H. simplify_eq. cbn in Ht. congruence.
    - destruct (Ha E) as [w Hw]. destruct (ring_push a w x Hw) as (a1 & E1 & Hr & _).
      rewrite E1 in H. injection H as <-. by eexists.
    - unfold addToWindow in H. res_inv H. simplify_eq. cbn in Ht. congruence. }
  split; [|intros r a' H; res_inv H; simplify_eq; by apply Hu].
  apply no_fuel_bind; [unfold ma_update; nofuel|]. intros a1 H1%Hu. nofuel. unfold ma_compute.
  apply no_fuel_bind; [auto with fuel|]. intros s _. destruct (ma_type a1) eqn:E; nofuel.
  destruct (H1 E) as [w Hw]. pose proof Hw as (Hm & Hlen & Hf & _ & Hr & _ & Hl & _).
  pose proof (window_product_ends a1 w (S (length (m_num_list a1))) 0 1 Hw ltac:(lia) ltac:(lia)) as H.
  destruct (m_curr_window_front a1) as [f m]; cbn [m_value m_max_value] in *. subst m.
  by rewrite Z.add_0_r, Z.mod_small in H by lia.
Qed.

(** ** The mean *)

Fixpoint ma_updates (a : MovingAverage) (xs : list Z) : res MovingAverage :=
  match xs with
  | [] => Ok a
  | x :: xs => a ← ma_update a x; ma_updates a xs
  end.

(** The sum of the arithmetic mean is that of its window. *)
Definition mean_of (a : MovingAverage) (w : list Z) : Prop :=
  ring a w /\ ma_type a = ARITHMETIC_MEAN /\ ma_sum a = u64 (total w).

Lemma mean_update a w x :
  mean_of a w ->
  exists a', ma_update a x = Ok a' /\ mean_of a' (push (Z.to_nat (m_max_window_size a)) w x) /\
    m_max_window_size a' = m_max_window_size a.
Proof.
  intros (Hr & Ht & Hs). unfold ma_update. rewrite Ht, (ring_window_size a w Hr). cbn [mbind res_bind].
  pose proof Hr as (Hn & Hlen & _ & _ & Hf & _ & Hl & Hw).
  set (sum := if decide (length w < Z.to_nat (m_max_window_size a))%nat then u64 (total w) else u64 (total (tail w))).
  assert ((if Z.of_nat (length w) =? m_max_window_size a
           then x0 ← aget (m_num_list a) (Z.to_nat (m_value (m_curr_window_front a))); Ok (st_sub (ma_sum a) x0)
           else Ok (ma_sum a)) = Ok sum) as ->.
  { unfold sum. case_decide; (destruct (Z.eqb_spec (Z.of_nat (length w)) (m_max_window_size a)); [|lia || congruence]); [lia|].
    destruct w as [|w0 w]; [cbn in *; lia|]. pose proof (Hw 0%nat w0 eq_refl) as H0.
    rewrite Z.add_0_r, Z.mod_small in H0 by lia. apply aget_ok in H0. rewrite H0. cbn [mbind res_bind].
    rewrite Hs, total_cons. unfold st_sub. rewrite wrap_sub_l by lia. do 2 f_equal. cbn [tail]. lia. }
  cbn [mbind res_bind].
  destruct (ring_push (ma_set_sum (st_add sum x) a) w x Hr) as (a' & E & Hr' & Ht' & Hn' & Hs').
  exists a'. split; [done|]. split; [|done]. split; [done|]. rewrite Ht', Hs'. split; [done|]. cbn.
  unfold sum, push, st_add. case_decide; rewrite total_app, wrap_add_l, total_cons, Z.add_0_r by lia; done.
Qed.

Lemma mean_updates xs a pre :
  mean_of a (drop (length pre - Z.to_nat (m_max_window_size a)) pre) ->
  exists a', ma_updates a xs = Ok a' /\ m_max_window_size a' = m_max_window_size a /\
    mean_of a' (drop (length (pre ++ xs) - Z.to_nat (m_max_window_size a)) (pre ++ xs)).
Proof.
  revert a pre. induction xs as [|x xs IH]; intros a pre Ha; [exists a; by rewrite app_nil_r|].
  destruct (mean_update a _ x Ha) as (a1 & E1 & H1 & Hn1). cbn [ma_updates]. rewrite E1. cbn [mbind res_bind].
  assert (0 < Z.to_nat (m_max_window_size a))%nat as Hpos by (destruct Ha as [(? & _) _]; lia).
  rewrite push_drop in H1 by done. rewrite <- Hn1 in H1.
  destruct (IH a1 (pre ++ [x]) H1) as (a' & E & Hn & Hm). exists a'. split; [done|]. split; [congruence|].
  rewrite <- app_assoc in Hm. cbn in Hm. by rewrite Hn1 in Hm.
Qed.

(** The arithmetic moving average is the mean of the most recent [n] values (of all values,
    before there are [n] of them), the sum taken in 64 bits; on any sequence of updates the
    ring buffer is accessed inside its bounds. *)
Theorem moving_mean_correct (pow_root : Z -> Z -> Z) (n : Z) (xs : list Z) :
  1 <= n < 2 ^ 31 -> xs <> [] ->
  let recent := drop (length xs - Z.to_nat n) xs in
  exists a, ma_updates (createAvgType ARITHMETIC_MEAN n) xs = Ok a /\
    ma_compute pow_root a = Ok (u64 (total recent) / Z.of_nat (length recent)).
Proof.
  intros Hn Hxs recent.
  destruct (mean_updates xs (createAvgType ARITHMETIC_MEAN n) []) as (a & E & _ & Hr & Ht & Hs).
  { split; [by apply ring_new|done]. }
  exists a. split; [done|]. unfold ma_compute. rewrite (ring_window_size _ _ Hr), Ht, Hs. cbn [mbind res_bind].
  change ([] ++ xs) with xs. change (m_max_window_size _) with n. fold recent. unfold st_div.
  destruct (Z.eqb_spec (Z.of_nat (length recent)) 0) as [Hz|]; [|done].
  exfalso. unfold recent in Hz. rewrite length_drop in Hz. destruct xs; [done|]. cbn in Hz. lia.
Qed.

Lemma moving_mean_correct_witness :
  exists a, ma_updates (createAvgType ARITHMETIC_MEAN 3) [10; 20; 30; 40] = Ok a /\
    ma_compute (fun x _ => x) a = Ok 30.
Proof. apply (moving_mean_correct (fun x _ => x) 3 [10; 20; 30; 40]); [lia|done]. Defined.

(** The moving "median" is the value in the middle of the window by arrival, not by size. *)
Theorem moving_median_not_median (pow_root : Z -> Z -> Z) :
  (a ← ma_updates (createAvgType MEDIAN 3) [1; 100; 2]; ma_compute pow_root a) = Ok 100.
Proof. reflexivity. Qed.
