(* ===== verification/ContentionModel.v ===== *)
(** * Contention for a number of identical units

    Models src/common/performance_model/contention_model.{h,cc}: a resource
    with [m_num_outstanding] units; for each unit the time at which it becomes
    free and the tag of its last request are kept. *)

From S2P Require Import Prelude SubsecondTime.

Record ContentionModel := mkContention {
  m_num_outstanding : nat;
  m_time : list (Z * Z);         (* (time the unit becomes free, tag) *)
  m_t_last : Z;
  m_proc_period : option pref;   (* const ComponentPeriod* *)
  m_n_requests : Z;
  m_n_barriers : Z;
  m_n_outoforder : Z;
  m_n_simultaneous : Z;
  m_n_hasfreefail : Z;
  m_total_delay : Z;
  m_total_barrier_delay : Z
}.

Definition ContentionModel_new (period : option pref) (num_outstanding : nat) : ContentionModel :=
  mkContention num_outstanding (replicate num_outstanding (0, 0)) 0 period 0 0 0 0 0 0 0.

Implicit Types (c : ContentionModel).

(** ** Queries *)

Definition getNumUsed c (t_start : Z) : Z :=
  Z.of_nat (length (filter (fun u => st_gtb u.1 t_start = true) (m_time c))).

Fixpoint find_tag (l : list (Z * Z)) (tag : Z) : option Z :=
  match l with
  | [] => None
  | (t, g) :: l => if g =? tag then Some t else find_tag l tag
  end.

Definition getTagCompletionTime c (tag : Z) : Z := default MaxTime (find_tag (m_time c) tag).
Definition hasTag c (tag : Z) : bool := bool_decide (is_Some (find_tag (m_time c) tag)).

Definition hasFreeSlot c (t_start tag : Z) : bool * ContentionModel :=
  if existsb (fun u => st_leb u.1 t_start || (u.2 =? tag)) (m_time c) then (true, c)
  else (false, mkContention (m_num_outstanding c) (m_time c) (m_t_last c) (m_proc_period c)
                 (m_n_requests c) (m_n_barriers c) (m_n_outoforder c) (m_n_simultaneous c)
                 (u64 (m_n_hasfreefail c + 1)) (m_total_delay c) (m_total_barrier_delay c)).

(** ** Requests *)

Definition getBarrierCompletionTime c (t_start t_delay tag : Z) : Z * ContentionModel :=
  if (m_num_outstanding c =? 0)%nat then (st_add t_start t_delay, c)
  else
    let max_time := foldl (fun m u => if st_gtb u.1 m then u.1 else m) t_start (m_time c) in
    let t_end := st_add max_time t_delay in
    (t_end,
     mkContention (m_num_outstanding c) ((fun _ => (t_end, tag)) <$> m_time c) (m_t_last c)
       (m_proc_period c) (m_n_requests c) (u64 (m_n_barriers c + 1)) (m_n_outoforder c)
       (m_n_simultaneous c) (m_n_hasfreefail c) (m_total_delay c)
       (st_add (m_total_barrier_delay c) (st_sub max_time t_start))).

(** The search for a unit: the first free one, else the one that becomes free first. *)
Fixpoint find_unit (n i unit : nat) (l : list (Z * Z)) (t_start : Z) : res nat :=
  match n with
  | O => Ok unit
  | S n =>
      u ← aget l i;
      if st_leb u.1 t_start then Ok i
      else
        v ← aget l unit;
        find_unit n (S i) (if st_ltb u.1 v.1 then i else unit) l t_start
  end.

Definition getCompletionTime c (t_start t_delay tag : Z) : res (Z * ContentionModel) :=
  if (m_num_outstanding c =? 0)%nat then Ok (st_add t_start t_delay, c)
  else if st_eqb t_start 0 then
    Ok (t_delay, mkContention (m_num_outstanding c) (m_time c) (m_t_last c) (m_proc_period c)
          (u64 (m_n_requests c + 1)) (m_n_barriers c) (m_n_outoforder c) (m_n_simultaneous c)
          (m_n_hasfreefail c) (m_total_delay c) (m_total_barrier_delay c))
  else if st_ltb t_start (m_t_last c) then
    Ok (st_add t_start t_delay,
        mkContention (m_num_outstanding c) (m_time c) (m_t_last c) (m_proc_period c)
          (u64 (m_n_requests c + 1)) (m_n_barriers c) (u64 (m_n_outoforder c + 1)) (m_n_simultaneous c)
          (m_n_hasfreefail c) (m_total_delay c) (m_total_barrier_delay c))
  else
    let simultaneous := if st_eqb t_start (m_t_last c) then u64 (m_n_simultaneous c + 1)
                        else m_n_simultaneous c in
    unit ← find_unit (m_num_outstanding c) 0 0 (m_time c) t_start;
    u ← aget (m_time c) unit;
    let t_begin := if st_ltb t_start u.1 then u.1 else t_start in
    let t_end := st_add t_begin t_delay in
    times ← aset (m_time c) unit (t_end, tag);
    Ok (t_end,
        mkContention (m_num_outstanding c) times t_start (m_proc_period c)
          (u64 (m_n_requests c + 1)) (m_n_barriers c) (m_n_outoforder c) simultaneous
          (m_n_hasfreefail c) (st_add (m_total_delay c) (st_sub t_begin t_start))
          (m_total_barrier_delay c)).

(** The search of [getStartTime], which returns from inside the loop. *)
Fixpoint peek_unit (n i unit : nat) (l : list (Z * Z)) (t_start : Z) : res Z :=
  match n with
  | O => u ← aget l unit; Ok (if st_ltb t_start u.1 then u.1 else t_start)
  | S n =>
      u ← aget l i;
      if st_leb u.1 t_start then Ok t_start
      else
        v ← aget l unit;
        peek_unit n (S i) (if st_ltb u.1 v.1 then i else unit) l t_start
  end.

Definition getStartTime c (t_start : Z) : res Z :=
  if (m_num_outstanding c =? 0)%nat then Ok t_start
  else if st_ltb t_start (m_t_last c) then Ok t_start
  else peek_unit (m_num_outstanding c) 0 0 (m_time c) t_start.

(** ** The overloads in cycles *)

Section cycles.
Context (st : periods).

Definition with_period {A} c (f : pref -> res A) : res A :=
  match m_proc_period c with Some p => f p | None => Err NullDeref end.

Definition getNumUsed_cycles c (t_start : Z) : res Z :=
  with_period c (fun p => Ok (getNumUsed c (cyclesToSubsecondTime st p t_start))).

Definition hasFreeSlot_cycles c (t_start tag : Z) : res (bool * ContentionModel) :=
  with_period c (fun p => Ok (hasFreeSlot c (cyclesToSubsecondTime st p t_start) tag)).

Definition getBarrierCompletionTime_cycles c (t_start t_delay tag : Z) : res (Z * ContentionModel) :=
  with_period c (fun p =>
    let '(r, c) := getBarrierCompletionTime c (cyclesToSubsecondTime st p t_start)
                     (cyclesToSubsecondTime st p t_delay) tag in
    t ← subsecondTimeToCycles st p r; Ok (t, c)).

Definition getCompletionTime_cycles c (t_start t_delay tag : Z) : res (Z * ContentionModel) :=
  with_period c (fun p =>
    '(r, c) ← getCompletionTime c (cyclesToSubsecondTime st p t_start) (cyclesToSubsecondTime st p t_delay) tag;
    t ← subsecondTimeToCycles st p r; Ok (t, c)).

Definition getStartTime_cycles c (t_start : Z) : res Z :=
  with_period c (fun p =>
    r ← getStartTime c (cyclesToSubsecondTime st p t_start);
    subsecondTimeToCycles st p r).
End cycles.

(** ** Correctness *)

Lemma find_unit_spec l t n i unit :
  (i + n)%nat = length l ->
  (exists v, l !! unit = Some v /\ forall j x, (j < i)%nat -> l !! j = Some x -> v.1 <= x.1) ->
  exists u v, find_unit n i unit l t = Ok u /\ l !! u = Some v /\
    (v.1 <= t \/ forall j x, l !! j = Some x -> v.1 <= x.1).
Proof.
  revert i unit. induction n as [|n IH]; intros i unit Hi (v & Hv & Hmin); cbn [find_unit].
  - exists unit, v. split_and!; try done. right. intros j x Hj. apply (Hmin j); [|done].
    apply lookup_lt_Some in Hj. lia.
  - destruct (aget_lt l i) as (x & Ex & Hx); [lia|]. rewrite Ex. cbn [mbind res_bind].
    unfold st_leb, st_gtb, st_ltb. destruct (Z.ltb_spec t x.1) as [Hlt|Hle]; cbn [negb]; [|eauto 10].
    rewrite (proj2 (aget_ok l unit v) Hv). cbn [mbind res_bind]. apply IH; [lia|].
    destruct (Z.ltb_spec x.1 v.1).
    + exists x. split; [done|]. intros j y Hj Hy. destruct (decide (j = i)) as [->|]; [by simplify_eq|].
      assert (v.1 <= y.1) by (apply (Hmin j); [lia|done]). lia.
    + exists v. split; [done|]. intros j y Hj Hy. destruct (decide (j = i)) as [->|]; [by simplify_eq|].
      apply (Hmin j); [lia|done].
Qed.

(** [getStartTime] peeks at what [getCompletionTime] will do. *)
Lemma peek_unit_find l t n i unit u v :
  find_unit n i unit l t = Ok u -> l !! u = Some v ->
  peek_unit n i unit l t = Ok (if st_ltb t v.1 then v.1 else t).
Proof.
  revert i unit. induction n as [|n IH]; intros i unit Hf Hu; cbn [find_unit peek_unit] in *.
  - simplify_eq. rewrite (proj2 (aget_ok l u v) Hu). done.
  - res_inv Hf. cbn [mbind res_bind]. unfold st_leb, st_gtb, st_ltb in *.
    destruct (Z.ltb_spec t a.1); cbn [negb] in *.
    + res_inv Hf. cbn [mbind res_bind]. by apply IH.
    + simplify_eq. apply aget_ok in E. simplify_eq. zcase; [lia|done].
Qed.

(** Times that stay in range while a request of length [d] is served. *)
Definition fits (c : ContentionModel) (t d : Z) : Prop :=
  length (m_time c) = m_num_outstanding c /\ (0 < m_num_outstanding c)%nat /\
  0 < t /\ m_t_last c <= t /\ 0 <= d /\ t + d < 2 ^ 64 /\
  forall i x, m_time c !! i = Some x -> 0 <= x.1 /\ x.1 + d < 2 ^ 64.

Lemma serve_one c t d tag :
  fits c t d ->
  exists u v c', m_time c !! u = Some v /\
    (v.1 <= t \/ forall j x, m_time c !! j = Some x -> v.1 <= x.1) /\
    getStartTime c t = Ok (Z.max t v.1) /\
    getCompletionTime c t d tag = Ok (Z.max t v.1 + d, c') /\
    m_time c' = <[u := (Z.max t v.1 + d, tag)]> (m_time c) /\
    m_num_outstanding c' = m_num_outstanding c /\ m_t_last c' = t.
Proof.
  intros (Hlen & Hn & Ht & Hlast & Hd & Htd & Hx).
  destruct (find_unit_spec (m_time c) t (m_num_outstanding c) 0 0) as (u & v & Ef & Hu & Hv).
  { by rewrite Hlen. }
  { destruct (aget_lt (m_time c) 0) as (v & _ & Hv); [lia|]. exists v. split; [done|]. lia. }
  assert ((if st_ltb t v.1 then v.1 else t) = Z.max t v.1) as Hbegin by (unfold st_ltb; zcase; lia).
  pose proof (Hx u v Hu) as [Hv0 Hvd].
  unfold getStartTime, getCompletionTime. destruct (Nat.eqb_spec (m_num_outstanding c) 0); [lia|].
  assert (st_ltb t (m_t_last c) = false) as -> by (apply Z.ltb_ge; lia).
  assert (st_eqb t 0 = false) as -> by (apply Z.eqb_neq; lia).
  rewrite Ef, (peek_unit_find _ _ _ _ _ _ _ Ef Hu). cbn [mbind res_bind].
  rewrite (proj2 (aget_ok _ _ _) Hu). cbn [mbind res_bind]. rewrite Hbegin.
  assert (st_add (Z.max t v.1) d = Z.max t v.1 + d) as -> by (unfold st_add; rewrite wrap_small; lia).
  rewrite aset_lt by (by eapply lookup_lt_Some). cbn [mbind res_bind].
  eexists u, v, _. split_and!; done.
Qed.

(** An arrival in order is served as soon as possible: it starts when it arrives if a unit is
    free then, otherwise at the moment the first unit becomes free; it completes [t_delay]
    later, and [getStartTime] predicts its start. *)
Theorem contention_earliest_start (c : ContentionModel) (t d tag : Z) :
  fits c t d ->
  exists t_begin c',
    getStartTime c t = Ok t_begin /\ getCompletionTime c t d tag = Ok (t_begin + d, c') /\
    t <= t_begin /\
    (t_begin = t \/ exists i x, m_time c !! i = Some x /\ t_begin = x.1) /\
    forall i x, m_time c !! i = Some x -> t_begin <= Z.max t x.1.
Proof.
  intros Hc. destruct (serve_one c t d tag Hc) as (u & v & c' & Hu & Hv & Es & Ec & _).
  exists (Z.max t v.1), c'. split_and!; try done; [lia| |].
  - destruct (decide (v.1 <= t)); [left; lia|]. right. exists u, v. split; [done|]. lia.
  - intros i x Hi. destruct Hv as [Hv|Hv]; [lia|]. specialize (Hv i x Hi). lia.
Qed.

Lemma contention_earliest_start_witness :
  let c := mkContention 2 [(50, 1); (40, 2)] 10 None 0 0 0 0 0 0 0 in
  exists t_begin c',
    getStartTime c 30 = Ok t_begin /\ getCompletionTime c 30 7 3 = Ok (t_begin + 7, c') /\
    30 <= t_begin /\
    (t_begin = 30 \/ exists i x, m_time c !! i = Some x /\ t_begin = x.1) /\
    forall i x, m_time c !! i = Some x -> t_begin <= Z.max 30 x.1.
Proof.
  apply (contention_earliest_start (mkContention 2 [(50, 1); (40, 2)] 10 None 0 0 0 0 0 0 0) 30 7 3).
  split_and!; cbn; try lia. intros [|[|i]] x; cbn; intros; simplify_eq; cbn; lia.
Defined.

(** ** No unit serves two requests at once *)

(** Requests (time, length) one after another; the completion times. *)
Fixpoint serve c (reqs : list (Z * Z)) : res (list Z) :=
  match reqs with
  | [] => Ok []
  | (t, d) :: reqs =>
      '(e, c) ← getCompletionTime c t d 0;
      es ← serve c reqs;
      Ok (e :: es)
  end.

(** Request [j] with completion time [e] starts at [e - d]. *)
Definition starts (reqs : list (Z * Z)) (es : list Z) : list Z := zip_with (fun r e => e - r.2) reqs es.

Inductive in_order : Z -> list (Z * Z) -> Prop :=
  | in_order_nil t : in_order t []
  | in_order_cons t0 t d l : t0 <= t -> 0 < t -> 0 <= d -> in_order t l -> in_order t0 ((t, d) :: l).

Lemma in_order_total t0 l : in_order t0 l -> 0 <= total l.*2.
Proof. induction 1 as [|t0 t d l _ _ Hd _ IH]; [done|]. change (total ((t, d) :: l).*2) with (d + total l.*2). lia. Qed.

Definition busy_before (times : list (Z * Z)) (u : nat) (b : Z) : Prop :=
  forall x, times !! u = Some x -> x.1 <= b.

Lemma serve_exclusive reqs c B :
  length (m_time c) = m_num_outstanding c -> (0 < m_num_outstanding c)%nat ->
  in_order (m_t_last c) reqs -> Forall (fun r => r.1 <= B) reqs ->
  (forall i x, m_time c !! i = Some x -> 0 <= x.1 <= B) -> B + total reqs.*2 < 2 ^ 64 ->
  exists es units, serve c reqs = Ok es /\ length es = length reqs /\ length units = length reqs /\
    Forall (fun u => (u < m_num_outstanding c)%nat) units /\
    Forall2 (fun r b => r.1 <= b) reqs (starts reqs es) /\
    Forall2 (busy_before (m_time c)) units (starts reqs es) /\
    forall i j u b e, (i < j)%nat -> units !! i = Some u -> units !! j = Some u ->
      es !! i = Some e -> starts reqs es !! j = Some b -> e <= b.
Proof.
  intros Hlen Hn. revert c B Hlen Hn. induction reqs as [|[t d] reqs IH]; intros c B Hlen Hn Ho HB Hx Htot.
  { exists [], []. split_and!; done. }
  inversion Ho as [|? ? ? ? Ht0 Ht Hd Ho']; subst. inversion HB as [|? ? HtB HB']; subst. cbn in HtB.
  change (total ((t, d) :: reqs).*2) with (d + total reqs.*2) in Htot.
  pose proof (in_order_total _ _ Ho') as Hpos.
  destruct (serve_one c t d 0) as (u & v & c' & Hu & Hv & _ & Ec & Hm & Hn' & Hl').
  { split_and!; try done; try lia. intros i x Hi. specialize (Hx i x Hi). lia. }
  pose proof (Hx u v Hu). set (e0 := Z.max t v.1 + d) in *.
  destruct (IH c' (B + d)) as (es & units & Es & Le & Lu & Hun & Hst & Hbz & Hex).
  - rewrite Hm, length_insert, Hn'. done.
  - by rewrite Hn'.
  - by rewrite Hl'.
  - eapply Forall_impl; [exact HB'|]. cbn. intros r Hr. lia.
  - intros i x. rewrite Hm. intros [(<- & <- & _)|[_ Hi]]%list_lookup_insert_Some; [cbn; lia|].
    specialize (Hx i x Hi). lia.
  - lia.
  - exists (e0 :: es), (u :: units). cbn [serve]. rewrite Ec. cbn [mbind res_bind]. rewrite Es. cbn [mbind res_bind].
    unfold starts; cbn [zip_with]. fold (starts reqs es). rewrite Hn' in Hun.
    split_and!; cbn; try congruence.
    + constructor; [|done]. rewrite <- Hlen. by eapply lookup_lt_Some.
    + constructor; [cbn; lia|done].
    + constructor; [intros x Hx'; simplify_eq; lia|].
      eapply Forall2_impl; [exact Hbz|]. intros u' b Hb x Hx'. destruct (decide (u' = u)) as [->|].
      * simplify_eq. assert (e0 <= b); [|lia]. apply (Hb (e0, 0)). rewrite Hm. by eapply list_lookup_insert_eq, lookup_lt_Some.
      * apply Hb. rewrite Hm. by rewrite list_lookup_insert_ne.
    + intros i j u' b e Hij Hi Hj He Hb. destruct j as [|j]; [lia|]. destruct i as [|i]; cbn in *.
      * injection Hi as <-. injection He as <-.
        apply (Forall2_lookup_lr _ _ _ _ _ _ Hbz Hj Hb (e0, 0)).
        rewrite Hm. by eapply list_lookup_insert_eq, lookup_lt_Some.
      * eapply (Hex i j); eauto with lia.
Qed.


