(* ===== verification/QueueModelHistoryList.v ===== *)
(** * The history-list queue model

    Models src/common/performance_model/queue_model_history_list.{h,cc}: the
    queue keeps the list of its free time intervals and reserves room for each
    request in it.  Requests older than the list may be given the average of
    the delays so far instead. *)

From S2P Require Import Prelude SubsecondTime MovingAverage.

Record QueueModelHistoryList := mkHistory {
  m_min_processing_time : Z;
  m_max_free_interval_list_size : Z;
  m_free_interval_list : list (Z * Z);
  m_utilized_time : Z;
  m_total_queue_delay : Z;
  m_average_delay : MovingAverage;
  m_analytical_model_enabled : bool;
  m_total_requests : Z;
  m_total_requests_using_analytical_model : Z
}.

Definition QueueModelHistoryList_new (min_processing_time : Z) (analytical_model_enabled : bool)
    (max_list_size : Z) : QueueModelHistoryList :=
  mkHistory min_processing_time max_list_size [(0, st_shl (FS 1) 63)] 0 0
    (createAvgType ARITHMETIC_MEAN max_list_size) analytical_model_enabled 0 0.

(** The loop over the free intervals: the delay and the list with the request's room removed.
    A piece that is left over is kept if it is at least [m_min_processing_time] long. *)
Definition piece (min a b : Z) : list (Z * Z) := if st_geb (st_sub b a) min then [(a, b)] else [].

Fixpoint reserve (min pkt_time processing_time : Z) (l : list (Z * Z)) : option (Z * list (Z * Z)) :=
  match l with
  | [] => None
  | (first, second) :: l =>
      if st_geb pkt_time first && st_leb (st_add pkt_time processing_time) second then
        Some (0, piece min first pkt_time ++ piece min (st_add pkt_time processing_time) second ++ l)
      else if st_ltb pkt_time first then
        Some (st_sub first pkt_time, piece min (st_add first processing_time) second ++ l)
      else
        '(d, l) ← reserve min pkt_time processing_time l; Some (d, (first, second) :: l)
  end.

Definition hl_set_list (l : list (Z * Z)) (q : QueueModelHistoryList) : QueueModelHistoryList :=
  mkHistory (m_min_processing_time q) (m_max_free_interval_list_size q) l (m_utilized_time q)
    (m_total_queue_delay q) (m_average_delay q) (m_analytical_model_enabled q) (m_total_requests q)
    (m_total_requests_using_analytical_model q).

Definition computeUsingHistoryList (q : QueueModelHistoryList) (pkt_time processing_time : Z)
  : res (Z * QueueModelHistoryList) :=
  _ ← assert_ (Z.of_nat (length (m_free_interval_list q)) <=? m_max_free_interval_list_size q);
  let '(queue_delay, l) :=
    default (MaxTime, m_free_interval_list q)
      (reserve (m_min_processing_time q) pkt_time processing_time (m_free_interval_list q)) in
  _ ← assert_ (st_neb queue_delay MaxTime);
  let l := if m_max_free_interval_list_size q <? Z.of_nat (length l) then tail l else l in
  Ok (queue_delay, hl_set_list l q).

(** [computeUsingAnalyticalModel], [updateAverageDelay] *)
Definition computeUsingAnalyticalModel (q : QueueModelHistoryList) : res Z :=
  ma_compute (fun x _ => x) (m_average_delay q).

Definition updateAverageDelay (q : QueueModelHistoryList) (queue_delay : Z) : res QueueModelHistoryList :=
  a ← ma_update (m_average_delay q) queue_delay;
  Ok (mkHistory (m_min_processing_time q) (m_max_free_interval_list_size q) (m_free_interval_list q)
        (m_utilized_time q) (m_total_queue_delay q) a (m_analytical_model_enabled q)
        (m_total_requests q) (m_total_requests_using_analytical_model q)).

(** The counters at the end of [computeQueueDelay]; [updateQueueUtilization] is the first. *)
Definition hl_count (q : QueueModelHistoryList) (processing_time queue_delay analytical : Z)
  : QueueModelHistoryList :=
  mkHistory (m_min_processing_time q) (m_max_free_interval_list_size q) (m_free_interval_list q)
    (st_add (m_utilized_time q) processing_time) (st_add (m_total_queue_delay q) queue_delay)
    (m_average_delay q) (m_analytical_model_enabled q) (u64 (m_total_requests q + 1))
    (u64 (m_total_requests_using_analytical_model q + analytical)).

Definition history_computeQueueDelay (q : QueueModelHistoryList) (pkt_time processing_time : Z)
  : res (Z * QueueModelHistoryList) :=
  match m_free_interval_list q with
  | [] => Err AssertFailed
  | oldest :: _ =>
      if m_analytical_model_enabled q && st_leb (st_add pkt_time processing_time) oldest.1 then
        queue_delay ← computeUsingAnalyticalModel q;
        Ok (queue_delay, hl_count q processing_time queue_delay 1)
      else
        '(queue_delay, q) ← computeUsingHistoryList q pkt_time processing_time;
        q ← updateAverageDelay q queue_delay;
        Ok (queue_delay, hl_count q processing_time queue_delay 0)
  end.

(** ** The free intervals *)

(** Free intervals are in order, do not overlap, and are each at least [min] long. *)
Fixpoint free_chain (min lo : Z) (l : list (Z * Z)) : Prop :=
  match l with
  | [] => True
  | (a, b) :: l => lo <= a /\ a + min <= b /\ b <= 2 ^ 63 /\ free_chain min b l
  end.

(** A slot does not overlap an interval. *)
Definition apart (s e : Z) (i : Z * Z) : Prop := e <= i.1 \/ i.2 <= s.

Lemma free_chain_weaken min lo lo' l : lo' <= lo -> free_chain min lo l -> free_chain min lo' l.
Proof. destruct l as [|[a b] l]; [done|]. cbn. intros H (? & ? & ? & ?). split_and!; try done. lia. Qed.

Lemma free_chain_bound min lo l i : 0 <= min -> free_chain min lo l -> i ∈ l -> lo <= i.1 /\ i.1 + min <= i.2 /\ i.2 <= 2 ^ 63.
Proof.
  intros Hmin. revert lo. induction l as [|[a b] l IH]; intros lo H Hi; [by apply not_elem_of_nil in Hi|].
  destruct H as (H1 & H2 & H3 & H4). apply elem_of_cons in Hi as [->|Hi]; [done|].
  destruct (IH b H4 Hi) as (? & ? & ?). cbn in *. lia.
Qed.

(** [piece] with 64-bit times in order *)
Lemma piece_spec min a b :
  0 <= a <= b -> b <= 2 ^ 63 -> piece min a b = if decide (a + min <= b) then [(a, b)] else [].
Proof.
  intros Ha Hb. unfold piece, st_geb, st_ltb, st_sub. rewrite wrap_small by lia.
  case_decide; destruct (Z.ltb_spec (b - a) min); cbn; try done; lia.
Qed.

Lemma free_chain_piece min lo a b l :
  lo <= a -> a <= b -> b <= 2 ^ 63 -> free_chain min b l ->
  free_chain min lo ((if decide (a + min <= b) then [(a, b)] else []) ++ l).
Proof.
  intros Hlo Hab Hb Hl. case_decide; [done|]. cbn. eapply free_chain_weaken; [|exact Hl]. lia.
Qed.

(** What a reservation does: the request gets a slot inside a free interval, not before it
    arrives, and what stays free was free and is apart from the slot. *)
Record reserved (min lo t pt aL d : Z) (l l' : list (Z * Z)) : Prop := {
  res_delay : 0 <= d <= 2 ^ 63;
  res_start : lo <= t + d;
  res_chain : free_chain min lo l';
  res_apart : forall i, i ∈ l' -> apart (t + d) (t + d + pt) i;
  res_inside : exists i, i ∈ l /\ i.1 <= t + d /\ t + d + pt <= i.2;
  res_subset : forall i, i ∈ l' -> exists j, j ∈ l /\ j.1 <= i.1 /\ i.2 <= j.2;
  res_length : (length l' <= S (length l))%nat;
  res_last : exists a, last l' = Some (a, 2 ^ 63) /\ a <= Z.max aL t + pt
}.

Lemma elem_piece min a b l i :
  i ∈ (if decide (a + min <= b) then [(a, b)] else []) ++ l -> i = (a, b) \/ i ∈ l.
Proof. case_decide; cbn; [by intros [->|]%elem_of_cons; auto|auto]. Qed.

Lemma length_piece (min a b : Z) : (length (if decide (a + min <= b)%Z then [(a, b)] else []) <= 1)%nat.
Proof. case_decide; cbn; lia. Qed.

(** The last piece of a list that ends with the last free interval. *)
Lemma last_piece (min x b aL : Z) l :
  (l = [] -> b = 2 ^ 63 /\ x + min <= b) -> (l <> [] -> last l = Some (aL, 2 ^ 63)) ->
  exists y, last ((if decide (x + min <= b) then [(x, b)] else []) ++ l) = Some (y, 2 ^ 63) /\ (y = x \/ y = aL).
Proof.
  intros H Hl. destruct l as [|i l].
  - destruct H as [-> Hx]; [done|]. rewrite decide_True by done. exists x. auto.
  - exists aL. split; [|auto]. rewrite last_app, Hl by done. done.
Qed.

(** The three outcomes at the first free interval [(a, b)], whose successors start after [b]. *)
Section first_interval.
Context (min lo t pt aL a b : Z) (l : list (Z * Z)).
Context (Hlo : 0 <= lo <= a) (Ht : 0 <= t) (Hpt : 0 <= pt <= min) (Hab : a + min <= b) (Hb : b <= 2 ^ 63)
  (Hchain : free_chain min b l) (Hlast : last ((a, b) :: l) = Some (aL, 2 ^ 63))
  (Hmax : Z.max aL t + pt + min <= 2 ^ 63).

Lemma successors_after i : i ∈ l -> b <= i.1.
Proof. intros Hi. apply (free_chain_bound min b l i) in Hi as (? & _); [done|lia|done]. Qed.

Lemma only_interval : l = [] -> a = aL /\ b = 2 ^ 63.
Proof. intros ->. cbn in Hlast. by simplify_eq. Qed.

Lemma first_before_last : a <= aL.
Proof.
  apply last_Some_elem_of, elem_of_cons in Hlast as [Ha|Ha]; [simplify_eq; lia|].
  apply successors_after in Ha. cbn in Ha. lia.
Qed.

Lemma last_rest x :
  x <= Z.max a t + pt ->
  exists y, last ((if decide (x + min <= b) then [(x, b)] else []) ++ l) = Some (y, 2 ^ 63) /\ (y = x \/ y = aL).
Proof.
  intros Hx. pose proof first_before_last. apply last_piece.
  - intros E. destruct (only_interval E). lia.
  - intros E. destruct l; [done|exact Hlast].
Qed.

(** Before the interval: the slot is at its start. *)
Lemma reserved_before :
  t < a ->
  reserved min lo t pt aL (a - t) ((a, b) :: l) ((if decide (a + pt + min <= b) then [(a + pt, b)] else []) ++ l).
Proof.
  intros Hta. pose proof first_before_last. destruct (last_rest (a + pt)) as (y & Hy & Hy'); [lia|]. split.
  - lia.
  - lia.
  - apply free_chain_piece; try lia. done.
  - intros i [->|Hi]%elem_piece; left; cbn; [lia|]. apply successors_after in Hi. lia.
  - exists (a, b). split; [by left|]. cbn. lia.
  - intros i [->|Hi]%elem_piece; [exists (a, b); split; [by left|cbn; lia]|]. exists i. split; [by right|lia].
  - rewrite length_app. pose proof (length_piece min (a + pt) b). cbn. lia.
  - exists y. split; [done|]. lia.
Qed.

(** Inside the interval. *)
Lemma reserved_inside :
  a <= t -> t + pt <= b ->
  reserved min lo t pt aL 0 ((a, b) :: l)
    ((if decide (a + min <= t) then [(a, t)] else []) ++
     (if decide (t + pt + min <= b) then [(t + pt, b)] else []) ++ l).
Proof.
  intros Hta Htb. pose proof first_before_last. destruct (last_rest (t + pt)) as (y & Hy & Hy'); [lia|].
  split; rewrite ?Z.add_0_r.
  - lia.
  - lia.
  - apply free_chain_piece; try lia. apply free_chain_piece; try lia. done.
  - intros j [->|[->|Hj]%elem_piece]%elem_piece; [right; cbn; lia|left; cbn; lia|].
    left. apply successors_after in Hj. lia.
  - exists (a, b). split; [by left|]. cbn. lia.
  - intros j [->|[->|Hj]%elem_piece]%elem_piece; [exists (a, b); split; [by left|cbn; lia]..|].
    exists j. split; [by right|lia].
  - rewrite !length_app. pose proof (length_piece min (t + pt) b). pose proof (length_piece min a t). cbn. lia.
  - exists y. rewrite last_app, Hy. split; [done|]. lia.
Qed.

(** After the interval: the slot is found in the rest. *)
Lemma reserved_after d l' :
  a <= t -> b < t + pt -> reserved min b t pt aL d l l' -> reserved min lo t pt aL d ((a, b) :: l) ((a, b) :: l').
Proof.
  intros Hta Htb [R1 R2 R3 R4 R5 R6 R7 R8]. split; try lia; try done.
  - cbn. split_and!; lia || done.
  - intros j [->|Hj]%elem_of_cons; [right; cbn; lia|by apply R4].
  - destruct R5 as (j & Hj & Hj'). exists j. split; [by right|done].
  - intros j [->|Hj]%elem_of_cons; [exists (a, b); split; [by left|done]|].
    destruct (R6 j Hj) as (k & Hk & Hk'). exists k. split; [by right|done].
  - cbn in *. lia.
  - destruct R8 as (y & Hy & Hy'). exists y. split; [|done]. by destruct l'.
Qed.
End first_interval.

Lemma reserve_spec min t pt aL l lo :
  0 <= lo -> 0 <= t -> 0 <= pt <= min -> free_chain min lo l -> last l = Some (aL, 2 ^ 63) ->
  Z.max aL t + pt + min <= 2 ^ 63 ->
  exists d l', reserve min t pt l = Some (d, l') /\ reserved min lo t pt aL d l l'.
Proof.
  intros Hlo Ht Hpt. revert lo Hlo. induction l as [|[a b] l IH]; intros lo Hlo Hl Hlast Hmax; [done|].
  destruct Hl as (H1 & H2 & H3 & H4). cbn [reserve].
  assert (a <= aL) as HaL by (by eapply first_before_last).
  assert (forall x, 0 <= x -> x <= Z.max aL t -> st_add x pt = x + pt) as Hadd.
  { intros x Hx Hx'. unfold st_add. rewrite wrap_small; lia. }
  unfold st_geb, st_leb, st_gtb, st_ltb. destruct (Z.ltb_spec t a) as [Hta|Hta]; cbn [negb andb].
  - exists (a - t). rewrite Hadd by lia. unfold st_sub at 1. rewrite wrap_small by lia.
    eexists. split; [done|]. rewrite piece_spec by lia. by apply reserved_before.
  - rewrite Hadd by lia. destruct (Z.ltb_spec b (t + pt)) as [Hb|Hb]; cbn [negb].
    + destruct l as [|i l]; [cbn in Hlast; simplify_eq; lia|].
      destruct (IH b) as (d & l' & E & HR); [lia|done|exact Hlast|done|].
      rewrite E. cbn [mbind option_bind]. exists d, ((a, b) :: l'). split; [done|]. by apply reserved_after.
    + exists 0. eexists. split; [done|]. rewrite !piece_spec by lia. by apply reserved_inside.
Qed.

(** ** Requests never overlap *)

(** Requests (arrival, length) one after another; the slots (start, end) they are served in. *)
Fixpoint hl_serve (q : QueueModelHistoryList) (reqs : list (Z * Z)) : res (list (Z * Z)) :=
  match reqs with
  | [] => Ok []
  | (t, pt) :: reqs =>
      '(d, q) ← history_computeQueueDelay q t pt;
      l ← hl_serve q reqs;
      Ok ((t + d, t + d + pt) :: l)
  end.

(** The model without the analytical fallback; [B] bounds the start of the last free interval,
    [R] are the slots given away. *)
Record hl_ok (min max B : Z) (R : list (Z * Z)) (q : QueueModelHistoryList) : Prop := {
  hl_min : m_min_processing_time q = min;
  hl_max : m_max_free_interval_list_size q = max;
  hl_analytical : m_analytical_model_enabled q = false;
  hl_average : exists w, mean_of (m_average_delay q) w;
  hl_chain : free_chain min 0 (m_free_interval_list q);
  hl_length : (length (m_free_interval_list q) <= Z.to_nat max)%nat;
  hl_last : exists a, last (m_free_interval_list q) = Some (a, 2 ^ 63) /\ a <= B;
  hl_apart : forall s i, s ∈ R -> i ∈ m_free_interval_list q -> apart s.1 s.2 i
}.

Definition slots_apart (s s' : Z * Z) : Prop := s.2 <= s'.1 \/ s'.2 <= s.1.

Lemma hl_step min max B R q t pt :
  hl_ok min max B R q -> 1 <= max -> 0 <= t <= B -> 0 <= pt <= min -> B + pt + min <= 2 ^ 63 ->
  exists d q', history_computeQueueDelay q t pt = Ok (d, q') /\ 0 <= d /\
    hl_ok min max (B + pt) ((t + d, t + d + pt) :: R) q' /\
    Forall (slots_apart (t + d, t + d + pt)) R.
Proof.
  intros [H1 H2 H3 (w & H4) H5 H6 (aL & H7 & HaL) H8] Hmax Ht Hpt HB.
  destruct (reserve_spec min t pt aL (m_free_interval_list q) 0) as (d & l' & E & [R1 R2 R3 R4 R5 R6 R7 R8]);
    try done; try lia.
  unfold history_computeQueueDelay. destruct (m_free_interval_list q) as [|o l0] eqn:El; [done|]. rewrite <- El in *.
  rewrite H3. cbn [andb]. unfold computeUsingHistoryList. rewrite H1, H2, E.
  assert (Z.of_nat (length (m_free_interval_list q)) <=? max = true) as -> by (apply Z.leb_le; lia).
  cbn [assert_ mbind res_bind]. change (default _ (Some (d, l'))) with (d, l'). cbv iota beta.
  assert (st_neb d MaxTime = true) as -> by (unfold st_neb, st_eqb, MaxTime; destruct (Z.eqb_spec d 0xffffffffffffffff); [lia|done]).
  cbn [assert_ mbind res_bind]. unfold updateAverageDelay. cbn [m_average_delay hl_set_list].
  destruct (mean_update _ w d H4) as (a' & Ea & Hm & _). rewrite Ea. cbn [mbind res_bind].
  eexists d, _. split; [done|]. split; [lia|].
  set (l := if max <? Z.of_nat (length l') then tail l' else l').
  assert (forall i, i ∈ l -> i ∈ l') as Hsub.
  { intros i. unfold l. destruct (_ <? _); [|done]. destruct l'; [done|]. by right. }
  split.
  - split; cbn; try done.
    + by eexists.
    + unfold l. destruct (_ <? _); [|done]. destruct l' as [|[a b] l']; [done|]. cbn in R3 |- *.
      eapply free_chain_weaken; [|apply R3]. lia.
    + unfold l. destruct (Z.ltb_spec max (Z.of_nat (length l'))); [|lia]. destruct l'; cbn in *; lia.
    + destruct R8 as (y & Hy & Hy'). exists y. split; [|lia]. unfold l.
      destruct (Z.ltb_spec max (Z.of_nat (length l'))); [|done]. destruct l' as [|x [|x' l']]; [done|cbn in *; lia|done].
    + intros s i [->|Hs]%elem_of_cons Hi%Hsub; [by apply R4|]. destruct (R6 i Hi) as (j & Hj & Hj1 & Hj2).
      destruct (H8 s j Hs Hj) as [Ha|Ha]; [left; lia|right; lia].
  - apply Forall_forall. intros s Hs. destruct R5 as (j & Hj & Hj1 & Hj2). unfold slots_apart; cbn.
    destruct (H8 s j Hs Hj); lia.
Qed.

Lemma lengths_total B min (l : list (Z * Z)) :
  Forall (fun r => 0 <= r.1 <= B /\ 0 <= r.2 <= min) l -> 0 <= total l.*2.
Proof.
  induction 1 as [|[t p] l [_ Hp] _ IH]; [done|]. change (total ((t, p) :: l).*2) with (p + total l.*2).
  cbn in Hp. lia.
Qed.

Lemma hl_run min max reqs B R q :
  hl_ok min max B R q -> 1 <= max -> Forall (fun r => 0 <= r.1 <= B /\ 0 <= r.2 <= min) reqs ->
  B + total reqs.*2 + min <= 2 ^ 63 ->
  exists slots, hl_serve q reqs = Ok slots /\
    Forall2 (fun r s => r.1 <= s.1 /\ s.2 = s.1 + r.2) reqs slots /\
    Forall (fun s => Forall (slots_apart s) R) slots /\
    forall i j s s', (i < j)%nat -> slots !! i = Some s -> slots !! j = Some s' -> slots_apart s' s.
Proof.
  revert B R q. induction reqs as [|[t pt] reqs IH]; intros B R q Hq Hmax Hreqs HB.
  { exists []. split_and!; done. }
  inversion Hreqs as [|? ? [Ht Hpt] Hreqs']; subst. cbn in Ht, Hpt.
  change (total ((t, pt) :: reqs).*2) with (pt + total reqs.*2) in HB.
  pose proof (lengths_total _ _ _ Hreqs') as Hpos.
  destruct (hl_step min max B R q t pt) as (d & q' & E & Hd & Hq' & Hap); try done; try lia.
  destruct (IH (B + pt) ((t + d, t + d + pt) :: R) q') as (slots & Es & Hs & HR & Hp); try done; [|lia|].
  { eapply Forall_impl; [exact Hreqs'|]. cbn. intros r Hr. lia. }
  eexists. cbn [hl_serve]. rewrite E. cbn [mbind res_bind]. rewrite Es. cbn [mbind res_bind]. split; [done|]. split_and!.
  - constructor; [cbn; lia|done].
  - constructor; [done|]. eapply Forall_impl; [exact HR|]. intros s Hs'. by inversion Hs'.
  - intros [|i] [|j] s s' Hij Hi Hj; cbn in *; try lia.
    + simplify_eq. apply (Forall_lookup_1 _ _ _ _ HR) in Hj. by inversion Hj.
    + eapply (Hp i j); eauto with lia.
Qed.

(** C31: The history list without the analytical model schedules without conflict: requests no longer than the minimal
    processing time, in any order of arrival, are all served, none before it arrives, each for its full
    length, and no two of them at the same time.  Times must stay below the end of the
    simulation (2^63 fs). *)
Theorem history_list_no_overlap (min max T : Z) (reqs : list (Z * Z)) :
  0 <= T -> 1 <= max < 2 ^ 31 -> Forall (fun r => 0 <= r.1 <= T /\ 0 <= r.2 <= min) reqs ->
  0 <= min -> T + total reqs.*2 + min <= 2 ^ 63 ->
  exists slots, hl_serve (QueueModelHistoryList_new min false max) reqs = Ok slots /\
    Forall2 (fun r s => r.1 <= s.1 /\ s.2 = s.1 + r.2) reqs slots /\
    forall i j s s', (i < j)%nat -> slots !! i = Some s -> slots !! j = Some s' -> s.2 <= s'.1 \/ s'.2 <= s.1.
Proof.
  intros HT Hmax Hreqs Hmin Htot.
  pose proof (lengths_total _ _ _ Hreqs) as Hpos.
  destruct (hl_run min max reqs T [] (QueueModelHistoryList_new min false max)) as (slots & E & Hs & _ & Hp); try done; [|lia|].
  - assert (st_shl (FS 1) 63 = 2 ^ 63) as E by reflexivity.
    split; unfold QueueModelHistoryList_new; rewrite E;
      cbn [m_min_processing_time m_max_free_interval_list_size m_analytical_model_enabled m_average_delay
           m_free_interval_list]; try done.
    + exists []. split; [by apply ring_new|done].
    + cbn. lia.
    + cbn. lia.
    + exists 0. done.
    + by intros s i ?%not_elem_of_nil.
  - exists slots. split_and!; try done. intros i j s s' Hij Hi Hj.
    destruct (Hp i j s s' Hij Hi Hj); [by right|by left].
Qed.

Lemma history_list_no_overlap_witness :
  exists slots, hl_serve (QueueModelHistoryList_new 10 false 8) [(15, 10); (12, 10); (100, 4)] = Ok slots /\
    Forall2 (fun r s => r.1 <= s.1 /\ s.2 = s.1 + r.2) [(15, 10); (12, 10); (100, 4)] slots /\
    forall i j s s', (i < j)%nat -> slots !! i = Some s -> slots !! j = Some s' -> s.2 <= s'.1 \/ s'.2 <= s.1.
Proof.
  apply (history_list_no_overlap 10 8 100); try (cbn; lia).
  repeat (constructor; [cbn; lia|]). constructor.
Defined.

(** A request that is longer than the free interval it is put in front of leaves an interval that
    ends before it starts: the length left over is computed as an unsigned difference, which
    wraps around and passes the test against the minimal processing time. *)
Theorem history_list_interval_inverted :
  (q ← foldl (fun r '(t, pt) => q ← r; '(_, q) ← history_computeQueueDelay q t pt; Ok q)
         (Ok (QueueModelHistoryList_new 10 false 8)) [(15, 10); (40, 10); (20, 30)];
   Ok (m_free_interval_list q)) = Ok [(0, 15); (55, 40); (50, 2 ^ 63)].
Proof. reflexivity. Qed.
