(* ===== verification/QueueModel.v ===== *)
(** * Queue models

    Models src/common/performance_model/queue_model.{h,cc} and the models
    queue_model_basic, queue_model_contention and queue_model_windowed_mg1; the
    history-list model is in QueueModelHistoryList.  The M/G/1 estimate is
    computed in [double]: here in the executable IEEE 754 binary64 arithmetic of
    the Standard Library. *)

From Stdlib Require Import SpecFloat.
From S2P Require Import Prelude SubsecondTime MovingAverage ContentionModel QueueModelHistoryList.

(** ** QueueModelBasic *)

Record QueueModelBasic := mkBasic {
  m_queue_time : Z;
  m_moving_average : option MovingAverage
}.

Definition QueueModelBasic_new (moving_avg_enabled : bool) (moving_avg_window_size : Z)
    (moving_avg_type_str : string) : res QueueModelBasic :=
  if moving_avg_enabled then
    t ← parseAvgType moving_avg_type_str;
    Ok (mkBasic 0 (Some (createAvgType t moving_avg_window_size)))
  else Ok (mkBasic 0 None).

Section basic.
Context (pow_root : Z -> Z -> Z).

Definition basic_computeQueueDelay (q : QueueModelBasic) (pkt_time processing_time : Z)
  : res (Z * QueueModelBasic) :=
  '(ref_time, avg) ← match m_moving_average q with
                     | Some a => '(r, a) ← ma_compute_next pow_root a pkt_time; Ok (r, Some a)
                     | None => Ok (pkt_time, None)
                     end;
  let queue_delay := if st_gtb (m_queue_time q) ref_time then st_sub (m_queue_time q) ref_time else 0 in
  let queue_time := if st_gtb (m_queue_time q) ref_time then m_queue_time q else ref_time in
  Ok (queue_delay, mkBasic (st_add queue_time processing_time) avg).
End basic.

(** ** QueueModelContention *)

Definition contention_computeQueueDelay (c : ContentionModel) (pkt_time processing_time : Z)
  : res (Z * ContentionModel) :=
  '(t_complete, c) ← getCompletionTime c pkt_time processing_time 0;
  Ok (st_sub (st_sub t_complete pkt_time) processing_time, c).

(** ** QueueModelWindowedMG1 *)

(** *** double *)

Definition double : Type := spec_float.
Definition to_double (z : Z) : double := binary_normalize 53 1024 z 0 false.
Definition d_add : double -> double -> double := SFadd 53 1024.
Definition d_sub : double -> double -> double := SFsub 53 1024.
Definition d_mul : double -> double -> double := SFmul 53 1024.
Definition d_div : double -> double -> double := SFdiv 53 1024.
(** The literal [.99] *)
Definition d_99 : double := d_div (to_double 99) (to_double 100).

(** Conversion to uint64_t truncates; outside the range it is undefined. *)
Definition d_to_u64 (d : double) : res Z :=
  match d with
  | S754_zero _ => Ok 0
  | S754_finite s m e =>
      let z := match e with
               | Zneg p => Z.pos m / 2 ^ Z.pos p
               | e => Z.pos m * 2 ^ e
               end in
      if s then (if z =? 0 then Ok 0 else Err BadConversion)
      else if z <? 2 ^ 64 then Ok z else Err BadConversion
  | _ => Err BadConversion
  end.

Record QueueModelWindowedMG1 := mkMG1 {
  m_window_size : Z;
  mg1_total_requests : Z;
  m_total_utilized_time : Z;
  mg1_total_queue_delay : Z;
  m_window : list (Z * Z);     (* multimap: sorted by the first component *)
  m_num_arrivals : Z;
  m_service_time_sum : Z;      (* in ps *)
  m_service_time_sum2 : Z      (* in ps^2 *)
}.

Definition QueueModelWindowedMG1_new (window_size_ns : Z) : QueueModelWindowedMG1 :=
  mkMG1 (NS window_size_ns) 0 0 0 [] 0 0 0.

(** [std::multimap::insert] puts an element after those with the same key. *)
Fixpoint window_insert (k v : Z) (l : list (Z * Z)) : list (Z * Z) :=
  match l with
  | [] => [(k, v)]
  | (k', v') :: l => if st_ltb k k' then (k, v) :: (k', v') :: l else (k', v') :: window_insert k v l
  end.

Definition addItem (q : QueueModelWindowedMG1) (pkt_time service_time : Z) : QueueModelWindowedMG1 :=
  let ps := getPS service_time in
  mkMG1 (m_window_size q) (mg1_total_requests q) (m_total_utilized_time q) (mg1_total_queue_delay q)
    (window_insert pkt_time service_time (m_window q)) (u64 (m_num_arrivals q + 1))
    (u64 (m_service_time_sum q + ps)) (u64 (m_service_time_sum2 q + u64 (ps * ps))).

(** The body of the loop: the front, of service time [s], leaves; [l] is the rest. *)
Definition popItem (q : QueueModelWindowedMG1) (s : Z) (l : list (Z * Z)) : QueueModelWindowedMG1 :=
  let ps := getPS s in
  mkMG1 (m_window_size q) (mg1_total_requests q) (m_total_utilized_time q) (mg1_total_queue_delay q)
    l (u64 (m_num_arrivals q - 1)) (u64 (m_service_time_sum q - ps))
    (u64 (m_service_time_sum2 q - u64 (ps * ps))).

Fixpoint remove_loop (earliest_time : Z) (l : list (Z * Z)) (q : QueueModelWindowedMG1) : QueueModelWindowedMG1 :=
  match l with
  | [] => q
  | (t, s) :: l => if st_ltb t earliest_time then remove_loop earliest_time l (popItem q s l) else q
  end.
Definition removeItems (q : QueueModelWindowedMG1) (earliest_time : Z) : QueueModelWindowedMG1 :=
  remove_loop earliest_time (m_window q) q.

(** The estimate, when there have been at least two arrivals in the window. *)
Definition mg1_estimate (q : QueueModelWindowedMG1) : res Z :=
  let window_ps := to_double (getPS (m_window_size q)) in
  let utilization := d_div (to_double (m_service_time_sum q)) window_ps in
  let arrival_rate := d_div (to_double (m_num_arrivals q)) window_ps in
  let service_time_Es2 := to_double (m_service_time_sum2 q / m_num_arrivals q) in
  let utilization := if SFltb d_99 utilization then d_99 else utilization in
  ps ← d_to_u64 (d_div (d_mul arrival_rate service_time_Es2)
                   (d_mul (to_double 2) (d_sub (to_double 1) utilization)));
  let t_queue := PS ps in
  Ok (if st_gtb t_queue (m_window_size q) then m_window_size q else t_queue).

(** [global_time] is that of the clock skew minimisation server. *)
Definition mg1_computeQueueDelay (global_time : Z) (q : QueueModelWindowedMG1) (pkt_time processing_time : Z)
  : res (Z * QueueModelWindowedMG1) :=
  let a := st_sub global_time (m_window_size q) in
  let b := st_sub pkt_time (st_mul 10 (m_window_size q)) in
  let q := removeItems q (if st_ltb a b then b else a) in
  t_queue ← (if 1 <? m_num_arrivals q then mg1_estimate q else Ok 0);
  let q := addItem q pkt_time processing_time in
  Ok (t_queue, mkMG1 (m_window_size q) (u64 (mg1_total_requests q + 1))
                 (st_add (m_total_utilized_time q) processing_time)
                 (st_add (mg1_total_queue_delay q) t_queue) (m_window q) (m_num_arrivals q)
                 (m_service_time_sum q) (m_service_time_sum2 q)).

(** ** QueueModel: creation and dispatch *)

Inductive QueueModel :=
  | QBasic (q : QueueModelBasic)
  | QHistoryList (q : QueueModelHistoryList)
  | QContention (c : ContentionModel)
  | QWindowedMG1 (q : QueueModelWindowedMG1).

(** The entries of the configuration that [create] and the constructors read. *)
Record QueueCfg := mkQueueCfg {
  qc_moving_avg_enabled : bool;
  qc_moving_avg_window_size : Z;
  qc_moving_avg_type : string;
  qc_analytical_model_enabled : bool;
  qc_max_list_size : Z;
  qc_mg1_window_size : Z;
  qc_core_domain : pref          (* the core's DVFS domain *)
}.

Definition QueueModel_create (cfg : QueueCfg) (model_type : string) (min_processing_time : Z) : res QueueModel :=
  if bool_decide (model_type = "basic"%string) then
    q ← QueueModelBasic_new (qc_moving_avg_enabled cfg) (qc_moving_avg_window_size cfg) (qc_moving_avg_type cfg);
    Ok (QBasic q)
  else if bool_decide (model_type = "history_list"%string) then
    Ok (QHistoryList (QueueModelHistoryList_new min_processing_time (qc_analytical_model_enabled cfg)
                        (qc_max_list_size cfg)))
  else if bool_decide (model_type = "contention"%string) then
    Ok (QContention (ContentionModel_new (Some (qc_core_domain cfg)) 1))
  else if bool_decide (model_type = "windowed_mg1"%string) then
    Ok (QWindowedMG1 (QueueModelWindowedMG1_new (qc_mg1_window_size cfg)))
  else Err LogError.

Definition computeQueueDelay (pow_root : Z -> Z -> Z) (global_time : Z) (q : QueueModel)
    (pkt_time processing_time : Z) : res (Z * QueueModel) :=
  match q with
  | QBasic q => '(d, q) ← basic_computeQueueDelay pow_root q pkt_time processing_time; Ok (d, QBasic q)
  | QHistoryList q => '(d, q) ← history_computeQueueDelay q pkt_time processing_time; Ok (d, QHistoryList q)
  | QContention c => '(d, c) ← contention_computeQueueDelay c pkt_time processing_time; Ok (d, QContention c)
  | QWindowedMG1 q =>
      '(d, q) ← mg1_computeQueueDelay global_time q pkt_time processing_time; Ok (d, QWindowedMG1 q)
  end.

(** ** Basic and contention models agree *)

Fixpoint delays {Q} (compute : Q -> Z -> Z -> res (Z * Q)) (q : Q) (reqs : list (Z * Z)) : res (list Z) :=
  match reqs with
  | [] => Ok []
  | (t, d) :: reqs => '(x, q) ← compute q t d; xs ← delays compute q reqs; Ok (x :: xs)
  end.

Lemma delays_agree pow_root reqs c qt B :
  m_num_outstanding c = 1%nat -> (exists tag, m_time c = [(qt, tag)]) -> 0 <= qt <= B ->
  in_order (m_t_last c) reqs -> Forall (fun r => r.1 <= B) reqs -> B + total reqs.*2 < 2 ^ 64 ->
  delays (basic_computeQueueDelay pow_root) (mkBasic qt None) reqs = delays contention_computeQueueDelay c reqs.
Proof.
  revert c qt B. induction reqs as [|[t d] reqs IH]; intros c qt B Hn (tag & Hm) Hqt Ho HB Htot; [done|].
  inversion Ho as [|? ? ? ? Ht0 Ht Hd Ho']; subst. inversion HB as [|? ? HtB HB']; subst. cbn in HtB.
  change (total ((t, d) :: reqs).*2) with (d + total reqs.*2) in Htot.
  pose proof (in_order_total _ _ Ho') as Hpos.
  destruct (serve_one c t d 0) as (u & v & c' & Hu & _ & _ & Ec & Hm' & Hn' & Hl').
  { split_and!; try done; try lia; [by rewrite Hm, Hn|]. intros i x. rewrite Hm. intros Hi.
    destruct i as [|i]; [|by destruct i]. cbn in Hi. simplify_eq. cbn. lia. }
  rewrite Hm in Hu. destruct u as [|u]; [|by destruct u]. cbn in Hu. injection Hu as <-. cbn [fst] in *.
  assert (contention_computeQueueDelay c t d = Ok (Z.max t qt - t, c')) as E1.
  { unfold contention_computeQueueDelay. rewrite Ec. cbn [mbind res_bind]. unfold st_sub. do 2 f_equal.
    rewrite !wrap_small by (rewrite ?wrap_small; lia). lia. }
  assert (basic_computeQueueDelay pow_root (mkBasic qt None) t d
          = Ok (Z.max t qt - t, mkBasic (Z.max t qt + d) None)) as E2.
  { unfold basic_computeQueueDelay, st_gtb, st_ltb, st_sub, st_add. cbn [m_moving_average m_queue_time mbind res_bind].
    do 2 f_equal; [|f_equal]; zcase; rewrite ?wrap_small; lia. }
  cbn [delays]. rewrite E1, E2. cbn [mbind res_bind].
  rewrite (IH c' (Z.max t qt + d) (B + d)); [done|congruence| |lia|by rewrite Hl'| |lia].
  - exists 0. by rewrite Hm', Hm.
  - eapply Forall_impl; [exact HB'|]. cbn. intros r Hr. lia.
Qed.

(** The basic model (without moving average) and the contention model with one unit are the same
    first-come-first-served queue: for requests that arrive in order they compute the same
    delays, as long as times stay below 2^64. *)
Theorem basic_contention_agree (pow_root : Z -> Z -> Z) (period : option pref) (reqs : list (Z * Z)) (B : Z) :
  0 <= B -> in_order 0 reqs -> Forall (fun r => r.1 <= B) reqs -> B + total reqs.*2 < 2 ^ 64 ->
  delays (basic_computeQueueDelay pow_root) (mkBasic 0 None) reqs
    = delays contention_computeQueueDelay (ContentionModel_new period 1) reqs.
Proof. intros HB0 Ho HB Htot. apply (delays_agree pow_root reqs _ 0 B); try done. by eexists. Qed.

Lemma basic_contention_agree_witness :
  delays contention_computeQueueDelay (ContentionModel_new None 1) [(10, 20); (12, 20); (100, 4)] = Ok [0; 18; 0].
Proof.
  rewrite <- (basic_contention_agree (fun x _ => x) None [(10, 20); (12, 20); (100, 4)] 100); [reflexivity|lia| | |reflexivity].
  - repeat (constructor; try lia).
  - repeat (constructor; [cbn; lia|]). constructor.
Defined.

(** ** Termination *)

Definition queue_ok (q : QueueModel) : Prop :=
  match q with
  | QBasic q => match m_moving_average q with Some a => avg_ok a | None => True end
  | QHistoryList q => ma_type (m_average_delay q) = ARITHMETIC_MEAN
  | QContention _ | QWindowedMG1 _ => True
  end.

Lemma QueueModel_create_ok cfg type t q :
  1 <= qc_moving_avg_window_size cfg < 2 ^ 31 -> QueueModel_create cfg type t = Ok q -> queue_ok q.
Proof.
  intros Hw H. unfold QueueModel_create in H.
  repeat (case_bool_decide; [res_inv H; simplify_eq; try done|]); [|done].
  unfold QueueModelBasic_new in E. destruct (qc_moving_avg_enabled cfg); [|by simplify_eq].
  res_inv E. simplify_eq. intros _. eexists. by apply ring_new.
Qed.

Lemma mean_type a x a' : ma_update a x = Ok a' -> ma_type a' = ma_type a.
Proof.
  intros H. unfold ma_update in H. destruct (ma_type a) eqn:Et; res_inv H; unfold addToWindow in H; res_inv H;
    simplify_eq; cbn; congruence.
Qed.

Lemma history_queue_ok q t p :
  ma_type (m_average_delay q) = ARITHMETIC_MEAN ->
  no_fuel_error (history_computeQueueDelay q t p) /\
  forall d q', history_computeQueueDelay q t p = Ok (d, q') -> ma_type (m_average_delay q') = ARITHMETIC_MEAN.
Proof.
  intros Hq. unfold history_computeQueueDelay. destruct (m_free_interval_list q) as [|oldest l]; [done|].
  destruct (_ && _).
  - split; [|intros d q' H; res_inv H; by simplify_eq].
    unfold computeUsingAnalyticalModel, ma_compute. rewrite Hq. nofuel.
  - split.
    + unfold computeUsingHistoryList, updateAverageDelay, ma_update. nofuel.
    + intros d q' H. res_inv H. destruct a as [d1 q1]. res_inv H. simplify_eq.
      unfold updateAverageDelay in E0. res_inv E0. simplify_eq. cbn. erewrite mean_type by done.
      unfold computeUsingHistoryList in E. res_inv E. destruct (default _ _). res_inv E. by simplify_eq.
Qed.

Lemma no_fuel_find_unit n i u l t : no_fuel_error (find_unit n i u l t).
Proof. revert i u. induction n as [|n IH]; intros i u; cbn [find_unit]; nofuel. Qed.
#[local] Hint Resolve no_fuel_find_unit : fuel.

Lemma computeQueueDelay_ok pow_root g q t p :
  queue_ok q -> no_fuel_error (computeQueueDelay pow_root g q t p) /\
  forall d q', computeQueueDelay pow_root g q t p = Ok (d, q') -> queue_ok q'.
Proof.
  intros Hq. destruct q as [q|q|c|q]; cbn [computeQueueDelay].
  - unfold basic_computeQueueDelay. cbn in Hq. destruct (m_moving_average q) as [a|].
    + destruct (ma_compute_next_ok pow_root a t Hq) as [Hf Ha]. split; [nofuel|].
      intros d q' H. res_inv H. destruct a0 as [d1 q1]. res_inv E. destruct a0 as [d2 q2]. res_inv E0.
      destruct a0 as [d3 a']. simplify_eq. cbn. by eapply Ha.
    + split; [nofuel|]. intros d q' H. cbn in H. by simplify_eq.
  - destruct (history_queue_ok q t p Hq) as [Hf Ha]. split; [nofuel|].
    intros d q' H. res_inv H. destruct a as [d1 q1]. simplify_eq. by eapply Ha.
  - split; [unfold contention_computeQueueDelay, getCompletionTime; nofuel|].
    intros d q' H. res_inv H. destruct a as [d1 q1]. by simplify_eq.
  - split; [unfold mg1_computeQueueDelay, mg1_estimate, d_to_u64; nofuel|].
    intros d q' H. res_inv H. destruct a as [d1 q1]. by simplify_eq.
Qed.

(** ** The M/G/1 window *)

Definition sum_ps (l : list (Z * Z)) : Z := total ((fun x => getPS x.2) <$> l).
Definition sum_ps2 (l : list (Z * Z)) : Z := total ((fun x => getPS x.2 * getPS x.2) <$> l).

(** The counters describe the window. *)
Definition mg1_ok (q : QueueModelWindowedMG1) : Prop :=
  m_num_arrivals q = u64 (Z.of_nat (length (m_window q))) /\
  m_service_time_sum q = u64 (sum_ps (m_window q)) /\
  m_service_time_sum2 q = u64 (sum_ps2 (m_window q)).

Lemma sum_cons {A} (f : A -> Z) x l : total (f <$> x :: l) = f x + total (f <$> l).
Proof. done. Qed.

Lemma total_insert (f : Z * Z -> Z) k v l : total (f <$> window_insert k v l) = f (k, v) + total (f <$> l).
Proof.
  induction l as [|[k' v'] l IH]; [done|]. cbn [window_insert]. destruct (st_ltb k k'); [done|].
  rewrite !sum_cons, IH. lia.
Qed.

Lemma window_insert_length k v l : length (window_insert k v l) = S (length l).
Proof. induction l as [|[k' v'] l IH]; [done|]. cbn. destruct (st_ltb k k'); cbn; [done|]. by rewrite IH. Qed.

Lemma addItem_ok q t s : mg1_ok q -> mg1_ok (addItem q t s).
Proof.
  intros (H1 & H2 & H3). unfold mg1_ok, addItem; cbn [m_num_arrivals m_service_time_sum m_service_time_sum2 m_window].
  rewrite window_insert_length. unfold sum_ps, sum_ps2 in *. rewrite !total_insert. cbn [snd].
  rewrite H1, H2, H3, !wrap_add_l, wrap_add_r by lia. split_and!; f_equal; lia.
Qed.

Lemma popItem_ok q t s l : m_window q = (t, s) :: l -> mg1_ok q -> mg1_ok (popItem q s l).
Proof.
  intros El (H1 & H2 & H3). rewrite El in *. unfold mg1_ok, sum_ps, sum_ps2, popItem in *.
  cbn [m_num_arrivals m_service_time_sum m_service_time_sum2 m_window]. rewrite H1, H2, H3, !sum_cons.
  cbn [length snd]. unfold wrap. rewrite !Zminus_mod_idemp_l, Zminus_mod_idemp_r. split_and!; f_equal; lia.
Qed.

Lemma removeItems_ok q e : mg1_ok q -> mg1_ok (removeItems q e) /\ m_window_size (removeItems q e) = m_window_size q.
Proof.
  unfold removeItems. intros Hq. remember (m_window q) as l eqn:El. revert q El Hq.
  induction l as [|[t s] l IH]; intros q El Hq; [done|]. cbn [remove_loop]. destruct (st_ltb t e); [|done].
  destruct (IH (popItem q s l)) as [H1 H2]; [done|by eapply popItem_ok|]. split; [done|by rewrite H2].
Qed.

Fixpoint mg1_run (q : QueueModelWindowedMG1) (reqs : list (Z * Z * Z)) : res (list Z * QueueModelWindowedMG1) :=
  match reqs with
  | [] => Ok ([], q)
  | (g, t, s) :: reqs =>
      '(d, q) ← mg1_computeQueueDelay g q t s;
      '(ds, q) ← mg1_run q reqs;
      Ok (d :: ds, q)
  end.

Lemma mg1_estimate_bound q d : 0 <= m_window_size q -> mg1_estimate q = Ok d -> d <= m_window_size q.
Proof.
  intros Hw H. unfold mg1_estimate in H. res_inv H. simplify_eq. unfold st_gtb, st_ltb. zcase; lia.
Qed.

Lemma mg1_step g q t s d q' :
  mg1_ok q -> 0 <= m_window_size q -> mg1_computeQueueDelay g q t s = Ok (d, q') ->
  mg1_ok q' /\ m_window_size q' = m_window_size q /\ d <= m_window_size q.
Proof.
  intros Hq Hw H. unfold mg1_computeQueueDelay in H.
  match type of H with context [removeItems q ?e] => destruct (removeItems_ok q e Hq) as [Hr Ew]; set (q1 := removeItems q e) in * end.
  res_inv H. simplify_eq. pose proof (addItem_ok q1 t s Hr) as Ha. split; [exact Ha|]. cbn. split; [done|].
  destruct (1 <? _); simplify_eq; [|lia]. apply mg1_estimate_bound in E; lia.
Qed.

(** After any sequence of requests (each with the global time at which it is made) the counters
    of the windowed M/G/1 model are those of the requests in its window, and no delay is
    larger than the window. *)
Theorem mg1_window_consistent (window_ns : Z) (reqs : list (Z * Z * Z)) (ds : list Z) (q : QueueModelWindowedMG1) :
  mg1_run (QueueModelWindowedMG1_new window_ns) reqs = Ok (ds, q) ->
  m_num_arrivals q = u64 (Z.of_nat (length (m_window q))) /\
  m_service_time_sum q = u64 (sum_ps (m_window q)) /\
  m_service_time_sum2 q = u64 (sum_ps2 (m_window q)) /\
  Forall (fun d => d <= NS window_ns) ds.
Proof.
  assert (0 <= NS window_ns) as Hw by (apply (wrap_range 64); lia).
  assert (mg1_ok (QueueModelWindowedMG1_new window_ns)) as H0 by done.
  assert (m_window_size (QueueModelWindowedMG1_new window_ns) = NS window_ns) as HW by done.
  revert H0 HW. generalize (QueueModelWindowedMG1_new window_ns) as q0. revert ds.
  induction reqs as [|[[g t] s] reqs IH]; intros ds q0 H0 HW H; cbn [mg1_run] in H.
  - simplify_eq. destruct H0 as (? & ? & ?). by split_and!.
  - res_inv H. destruct a as [d q1]. res_inv H. destruct a as [ds1 q2]. simplify_eq.
    apply mg1_step in E as (H1 & W1 & Hd); [|done|lia].
    destruct (IH ds1 q1 H1 ltac:(congruence) E0) as (? & ? & ? & ?). split_and!; try done.
    constructor; [lia|done].
Qed.

Lemma mg1_window_consistent_witness :
  exists ds q, mg1_run (QueueModelWindowedMG1_new 1000) [(0, 2 * 10^10, 10^6); (0, 2 * 10^10, 10^6)] = Ok (ds, q) /\
    Forall (fun d => d <= NS 1000) ds.
Proof.
  eexists _, _. split; [vm_compute; reflexivity|].
  apply (mg1_window_consistent 1000 [(0, 2 * 10^10, 10^6); (0, 2 * 10^10, 10^6)] _
    (mkMG1 1000000000 2 2000000 0 [(20000000000, 1000000)] 1 1000 1000000)).
  vm_compute. reflexivity.
Defined.

Lemma remove_all e l q :
  Forall (fun x => x.1 < e) l -> m_window q = l -> mg1_ok q -> m_window (remove_loop e l q) = [].
Proof.
  intros H. revert q. induction H as [|[t s] l Ht _ IH]; intros q El Hq; [done|]. cbn [remove_loop]. cbn in Ht.
  unfold st_ltb. destruct (Z.ltb_spec t e); [|lia]. apply IH; [done|]. by eapply popItem_ok.
Qed.

(** At the start of a simulation the M/G/1 model reports no queueing: while the global time is
    below one window, or the request's own time below ten windows, one of the two differences
    that bound the window wraps around, and every earlier request is dropped before the delay
    is computed. *)
Theorem mg1_no_delay_at_start (q : QueueModelWindowedMG1) (global_time pkt_time processing_time : Z) :
  mg1_ok q -> 0 <= global_time < 2 ^ 63 -> 0 <= pkt_time < 2 ^ 63 ->
  0 <= m_window_size q -> 10 * m_window_size q < 2 ^ 63 ->
  global_time < m_window_size q \/ pkt_time < 10 * m_window_size q ->
  Forall (fun x => 0 <= x.1 < 2 ^ 63) (m_window q) ->
  exists q', mg1_computeQueueDelay global_time q pkt_time processing_time = Ok (0, q') /\
    m_window q' = [(pkt_time, processing_time)].
Proof.
  intros Hq Hg Ht Hw0 Hw Hearly Hwin. unfold mg1_computeQueueDelay.
  set (e := if st_ltb _ _ then _ else _).
  assert (2 ^ 63 <= e) as He.
  { assert (forall x y, 0 <= x < y -> y < 2 ^ 63 -> 2 ^ 63 <= st_sub x y) as Hwrap.
    { intros x y Hx Hy. unfold st_sub, wrap. rewrite <- (Z.mod_add _ 1) by lia. rewrite Z.mod_small; lia. }
    assert (st_mul 10 (m_window_size q) = 10 * m_window_size q) as Em by (unfold st_mul; rewrite wrap_small; lia).
    unfold e, st_ltb. rewrite Em. destruct Hearly as [H|H].
    - pose proof (Hwrap global_time (m_window_size q)). zcase; lia.
    - pose proof (Hwrap pkt_time (10 * m_window_size q)). zcase; lia. }
  destruct (removeItems_ok q e Hq) as [Hr _].
  assert (m_window (removeItems q e) = []) as Hnil.
  { apply remove_all; try done. eapply Forall_impl; [exact Hwin|]. cbn. lia. }
  destruct Hr as (Hn & _). rewrite Hnil in Hn. rewrite Hn. cbn [length]. veval (1 <? u64 (Z.of_nat 0)).
  cbn [mbind res_bind]. eexists. split; [done|]. cbn. by rewrite Hnil.
Qed.

Lemma mg1_no_delay_at_start_witness :
  let q := mkMG1 1000000000 2 2000000 0 [(100, 1000000); (200, 1000000)] 2 2000 2000000 in
  exists q', mg1_computeQueueDelay 0 q 300 1000000 = Ok (0, q') /\ m_window q' = [(300, 1000000)].
Proof.
  apply (mg1_no_delay_at_start (mkMG1 1000000000 2 2000000 0 [(100, 1000000); (200, 1000000)] 2 2000 2000000)); cbn;
    try lia; [done|].
  repeat (constructor; [cbn; lia|]). constructor.
Defined.
