(* ===== verification/Prefetcher.v ===== *)
(** * Hardware prefetchers

    Models src/common/core/memory_subsystem/parametric_dram_directory_msi:
    prefetcher.{h,cc}, simple_prefetcher.{h,cc} (streams of constant stride) and
    ghb_prefetcher.{h,cc} (a global history buffer of address deltas).  The
    prefetchers only see addresses, and propose addresses to fetch. *)

From S2P Require Import Prelude DirectoryEntry.

(** ** SimplePrefetcher *)

Definition PAGE_SIZE : Z := 4096.
Definition PAGE_MASK : Z := wnot 64 (PAGE_SIZE - 1).

Record SimplePrefetcher := mkSimple {
  sp_core_id : Z;
  shared_cores : Z;
  n_flows : Z;
  flows_per_core : bool;
  num_prefetches : Z;
  stop_at_page : bool;
  n_flow_next : Z;
  m_prev_address : list (list Z)
}.

Definition SimplePrefetcher_new (core_id shared_cores n_flows : Z) (flows_per_core : bool)
    (num_prefetches : Z) (stop_at_page : bool) : SimplePrefetcher :=
  mkSimple core_id shared_cores n_flows flows_per_core num_prefetches stop_at_page 0
    (replicate (if flows_per_core then Z.to_nat shared_cores else 1) (replicate (Z.to_nat n_flows) 0)).

Section simple.
(** [abs] applied to the difference of two IntPtr, as the compiler resolves it, and converted
    back to IntPtr. *)
Context (abs : Z -> Z).

(** The search for the nearest previous address. *)
Fixpoint nearest (current_address : Z) (i : nat) (prev : list Z) (n_flow : nat) (min_dist : Z) : nat :=
  match prev with
  | [] => n_flow
  | a :: prev =>
      let dist := abs (u64 (current_address - a)) in
      if dist <? min_dist then nearest current_address (S i) prev i dist
      else nearest current_address (S i) prev n_flow min_dist
  end.

(** The loop that makes the prefetch addresses, from [i] on, [k] left. *)
Fixpoint stride_addresses (k : nat) (i current_address stride : Z) (stop : bool) : list Z :=
  match k with
  | O => []
  | S k =>
      let prefetch_address := u64 (current_address + u64 (i * stride)) in
      (if negb stop || (Z.land prefetch_address PAGE_MASK =? Z.land current_address PAGE_MASK)
       then [prefetch_address] else []) ++
      stride_addresses k (i + 1) current_address stride stop
  end.

Definition simple_getNextAddress (p : SimplePrefetcher) (current_address core_id : Z)
  : res (list Z * SimplePrefetcher) :=
  let at_ := if flows_per_core p then core_id - sp_core_id p else 0 in
  (* vector::at *)
  prev_address ← (if 0 <=? at_ then aget (m_prev_address p) (Z.to_nat at_) else Err OutOfBounds);
  if n_flows p =? 0 then Err DivByZero else
  let next := u32 (n_flow_next p + 1) mod n_flows p in
  let n_flow := nearest current_address 0 prev_address (Z.to_nat (n_flow_next p)) PAGE_SIZE in
  a ← aget prev_address n_flow;
  let stride := u64 (current_address - a) in
  prev_address ← aset prev_address n_flow current_address;
  let addresses := if stride =? 0 then []
                   else stride_addresses (Z.to_nat (num_prefetches p)) 0 current_address stride (stop_at_page p) in
  Ok (addresses,
      mkSimple (sp_core_id p) (shared_cores p) (n_flows p) (flows_per_core p) (num_prefetches p)
        (stop_at_page p) next (<[Z.to_nat at_ := prev_address]> (m_prev_address p))).
End simple.

(** ** GhbPrefetcher *)

Definition INVALID_DELTA : Z := 2 ^ 63 - 1.
Definition INVALID_INDEX : Z := 2 ^ 32 - 1.

Record GHBEntry := mkGHB { nextIndex : Z; g_delta : Z; g_generation : Z }.
Record TableEntry := mkTable { ghbIndex : Z; t_delta : Z; t_generation : Z }.

Record GhbPrefetcher := mkGhb {
  m_prefetchWidth : Z;
  m_prefetchDepth : Z;
  m_lastAddress : Z;
  m_ghbSize : Z;
  m_ghbHead : Z;
  m_generation : Z;
  m_ghb : list GHBEntry;
  m_tableSize : Z;
  m_tableHead : Z;
  m_ghbTable : list TableEntry
}.

Definition GhbPrefetcher_new (width depth ghb_size table_size : Z) : GhbPrefetcher :=
  mkGhb width depth INVALID_ADDRESS ghb_size 0 0
    (replicate (Z.to_nat ghb_size) (mkGHB INVALID_INDEX INVALID_DELTA 0))
    table_size 0 (replicate (Z.to_nat table_size) (mkTable INVALID_INDEX INVALID_DELTA 0)).

(** The [while] that looks for a delta in the table: the entry, if the loop stops before the
    end of the table. *)
Fixpoint table_find (i : nat) (l : list TableEntry) (delta : Z) : option (nat * TableEntry) :=
  match l with
  | [] => None
  | e :: l =>
      if (t_delta e =? INVALID_DELTA) || (t_delta e =? delta) then Some (i, e)
      else table_find (S i) l delta
  end.

(** Does the entry found still refer to the current generation of the buffer? *)
Definition entry_live (ghb : list GHBEntry) (e : TableEntry) : res bool :=
  g ← aget ghb (Z.to_nat (ghbIndex e)); Ok (t_generation e =? g_generation g).

Definition push_new (l : list Z) (a : Z) : list Z := if decide (a ∈ l) then l else l ++ [a].

(** The inner loop: follow the deltas after [index], [k] left. *)
Fixpoint ghb_depth (k : nat) (depth : Z) (ghb : list GHBEntry) (size index address : Z) (l : list Z)
  : res (list Z) :=
  match k with
  | O => Ok l
  | S k =>
      if size =? 0 then Err DivByZero else
      g ← aget ghb (Z.to_nat (u32 (index + depth) mod size));
      if g_delta g =? INVALID_DELTA then Ok l
      else
        let address := u64 (address + g_delta g) in
        ghb_depth k (depth + 1) ghb size index address (push_new l address)
  end.

(** The outer loop: follow the chain of entries with the same preceding delta. *)
Fixpoint ghb_width (k : nat) (p : GhbPrefetcher) (index address : Z) (l : list Z) : res (list Z) :=
  match k with
  | O => Ok l
  | S k =>
      if index =? INVALID_INDEX then Ok l
      else
        l ← ghb_depth (Z.to_nat (m_prefetchDepth p)) 0 (m_ghb p) (m_ghbSize p) index address l;
        g ← aget (m_ghb p) (Z.to_nat index);
        let next := nextIndex g in
        let index := if ((index <? next) || (m_ghbHead p <? index)) && (next <? m_ghbHead p)
                     then INVALID_INDEX else next in
        ghb_width k p index address l
  end.

(** The list of prefetches for a delta. *)
Definition ghb_prefetches (p : GhbPrefetcher) (delta address : Z) : res (list Z) :=
  match table_find 0 (m_ghbTable p) delta with
  | Some (_, e) =>
      if t_delta e =? delta then
        live ← entry_live (m_ghb p) e;
        if live : bool then ghb_width (Z.to_nat (m_prefetchWidth p)) p (ghbIndex e) address []
        else Ok []
      else Ok []
  | None => Ok []
  end.

(** The second half: the new delta enters the buffer, and the table at the previous delta
    points to it.  The result is the buffer, the table and its head. *)
Definition ghb_record (p : GhbPrefetcher) (delta : Z) : res (list GHBEntry * list TableEntry * Z) :=
  let head := Z.to_nat (m_ghbHead p) in
  ghb ← aset (m_ghb p) head (mkGHB INVALID_INDEX delta (m_generation p));
  let prevHead := if 0 <? m_ghbHead p then m_ghbHead p - 1 else u32 (m_ghbSize p - 1) in
  prev ← aget ghb (Z.to_nat prevHead);
  let prevDelta := g_delta prev in
  if prevDelta =? INVALID_DELTA then Ok (ghb, m_ghbTable p, m_tableHead p)
  else
    let add :=
      table ← aset (m_ghbTable p) (Z.to_nat (m_tableHead p)) (mkTable (m_ghbHead p) prevDelta (m_generation p));
      if m_tableSize p =? 0 then Err DivByZero
      else Ok (ghb, table, u32 (m_tableHead p + 1) mod m_tableSize p) in
    match table_find 0 (m_ghbTable p) prevDelta with
    | Some (i, e) =>
        if t_delta e =? prevDelta then
          live ← entry_live ghb e;
          ghb ← aset ghb head (mkGHB (if live : bool then ghbIndex e else INVALID_INDEX) delta (m_generation p));
          table ← aset (m_ghbTable p) i (mkTable (m_ghbHead p) (t_delta e) (m_generation p));
          Ok (ghb, table, m_tableHead p)
        else add
    | None => add
    end.

Definition ghb_getNextAddress (p : GhbPrefetcher) (currentAddress : Z) : res (list Z * GhbPrefetcher) :=
  if m_lastAddress p =? INVALID_ADDRESS then
    Ok ([], mkGhb (m_prefetchWidth p) (m_prefetchDepth p) currentAddress (m_ghbSize p) (m_ghbHead p)
              (m_generation p) (m_ghb p) (m_tableSize p) (m_tableHead p) (m_ghbTable p))
  else
    let delta := s64 (currentAddress - m_lastAddress p) in
    prefetchList ← ghb_prefetches p delta currentAddress;
    '(ghb, table, tableHead) ← ghb_record p delta;
    let head := u32 (m_ghbHead p + 1) in
    let wrapped := head =? m_ghbSize p in
    Ok (prefetchList,
        mkGhb (m_prefetchWidth p) (m_prefetchDepth p) currentAddress (m_ghbSize p)
          (if wrapped then 0 else head)
          (if wrapped then u32 (m_generation p + 1) mod 4 else m_generation p)
          ghb (m_tableSize p) tableHead table).

(** ** Prefetcher: creation and dispatch *)

Inductive Prefetcher := PSimple (p : SimplePrefetcher) | PGhb (p : GhbPrefetcher).

(** The configuration of the prefetchers of a cache. *)
Record PrefetchCfg := mkPrefetchCfg {
  pf_flows : Z;
  pf_flows_per_core : bool;
  pf_num_prefetches : Z;
  pf_stop_at_page : bool;
  pf_width : Z;
  pf_depth : Z;
  pf_ghb_size : Z;
  pf_table_size : Z
}.

Definition createPrefetcher (cfg : PrefetchCfg) (type : string) (core_id shared_cores : Z)
  : res (option Prefetcher) :=
  if bool_decide (type = "none"%string) then Ok None
  else if bool_decide (type = "simple"%string) then
    Ok (Some (PSimple (SimplePrefetcher_new core_id shared_cores (pf_flows cfg) (pf_flows_per_core cfg)
                         (pf_num_prefetches cfg) (pf_stop_at_page cfg))))
  else if bool_decide (type = "ghb"%string) then
    Ok (Some (PGhb (GhbPrefetcher_new (pf_width cfg) (pf_depth cfg) (pf_ghb_size cfg) (pf_table_size cfg))))
  else Err LogError.

Definition getNextAddress (abs : Z -> Z) (p : Prefetcher) (address core_id : Z) : res (list Z * Prefetcher) :=
  match p with
  | PSimple p => '(l, p) ← simple_getNextAddress abs p address core_id; Ok (l, PSimple p)
  | PGhb p => '(l, p) ← ghb_getNextAddress p address; Ok (l, PGhb p)
  end.

(** ** The stride prefetcher *)

Definition simple_wf (p : SimplePrefetcher) : Prop :=
  0 < n_flows p < 2 ^ 32 /\ 0 <= n_flow_next p < n_flows p /\ 0 <= num_prefetches p /\
  Forall (fun prev => length prev = Z.to_nat (n_flows p)) (m_prev_address p).

Lemma nearest_bound abs c i prev n d : (n < i + length prev)%nat -> (nearest abs c i prev n d < i + length prev)%nat.
Proof.
  revert i n d. induction prev as [|a prev IH]; intros i n d Hn; cbn [nearest]; [done|]. cbn [length] in *.
  destruct (_ <? d); (eapply Nat.lt_le_trans; [apply IH; lia|lia]).
Qed.

Lemma elem_stride k i c s stop a :
  a ∈ stride_addresses k i c s stop ->
  exists j, i <= j < i + Z.of_nat k /\ a = u64 (c + u64 (j * s)) /\
    (stop = true -> Z.land a PAGE_MASK = Z.land c PAGE_MASK).
Proof.
  revert i. induction k as [|k IH]; intros i Ha; cbn [stride_addresses] in Ha; [by apply elem_of_nil in Ha|].
  apply elem_of_app in Ha as [Ha|Ha].
  - exists i. destruct (negb stop || _) eqn:E; [|by apply elem_of_nil in Ha].
    apply list_elem_of_singleton in Ha as ->. split_and!; [lia..|done|]. intros ->. by apply Z.eqb_eq.
  - apply IH in Ha as (j & Hj & ?). exists j. split; [lia|done].
Qed.

Lemma length_stride k i c s stop : (length (stride_addresses k i c s stop) <= k)%nat.
Proof.
  revert i. induction k as [|k IH]; intros i; cbn [stride_addresses]; [done|]. rewrite length_app.
  specialize (IH (i + 1)). destruct (negb stop || _); cbn [length]; lia.
Qed.

(** The addresses that are proposed fit in 64 bits. *)
Lemma ghb_depth_width k depth ghb size index a l l' :
  Forall (in_width 64) l -> ghb_depth k depth ghb size index a l = Ok l' -> Forall (in_width 64) l'.
Proof.
  revert depth a l. induction k as [|k IH]; intros depth a l Hl H; cbn [ghb_depth] in H; [by simplify_eq|].
  destruct (size =? 0); [done|]. res_inv H. destruct (_ =? INVALID_DELTA); [by simplify_eq|]. eapply IH; [|exact H].
  unfold push_new. destruct (decide _); [done|]. apply Forall_app. split; [done|]. constructor; [apply wrap_range; lia|constructor].
Qed.
Lemma ghb_width_width k p index a l l' :
  Forall (in_width 64) l -> ghb_width k p index a l = Ok l' -> Forall (in_width 64) l'.
Proof.
  revert index l. induction k as [|k IH]; intros index l Hl H; cbn [ghb_width] in H; [by simplify_eq|].
  destruct (index =? INVALID_INDEX); [by simplify_eq|]. res_inv H. eapply IH; [|exact H]. by eapply ghb_depth_width.
Qed.
Lemma getNextAddress_width abs p a core l p' : getNextAddress abs p a core = Ok (l, p') -> Forall (in_width 64) l.
Proof.
  destruct p as [p|p]; cbn [getNextAddress]; intros H; res_inv H; destruct a0 as [l0 q]; simplify_eq.
  - unfold simple_getNextAddress in E. cbv zeta in E. res_inv E. destruct (n_flows p =? 0); [done|]. res_inv E. simplify_eq.
    destruct (_ =? 0); [constructor|]. apply Forall_forall. intros x (j & _ & -> & _)%elem_stride. apply wrap_range; lia.
  - unfold ghb_getNextAddress in E. destruct (_ =? INVALID_ADDRESS); [simplify_eq; constructor|]. cbv zeta in E. res_inv E.
    destruct a1 as [[g t] th]. simplify_eq. unfold ghb_prefetches in E0. destruct (table_find _ _ _) as [[i e]|]; [|by simplify_eq].
    destruct (_ =? _); [|by simplify_eq]. res_inv E0. destruct a0; [|by simplify_eq]. by eapply ghb_width_width; [|exact E0].
Qed.

Lemma simple_step abs p c core :
  simple_wf p -> (flows_per_core p = true -> 0 <= core - sp_core_id p < Z.of_nat (length (m_prev_address p))) ->
  (flows_per_core p = false -> m_prev_address p <> []) ->
  exists stride p',
    simple_getNextAddress abs p c core =
      Ok (if stride =? 0 then [] else stride_addresses (Z.to_nat (num_prefetches p)) 0 c stride (stop_at_page p), p') /\
    simple_wf p' /\ length (m_prev_address p') = length (m_prev_address p).
Proof.
  intros (Hn & Hnext & Hp & Hall) Hat Hat'. unfold simple_getNextAddress. cbv zeta.
  set (at_ := if flows_per_core p then core - sp_core_id p else 0).
  assert (0 <= at_ /\ (Z.to_nat at_ < length (m_prev_address p))%nat) as [Hat0 Hat1].
  { unfold at_. destruct (flows_per_core p); [specialize (Hat eq_refl); lia|].
    specialize (Hat' eq_refl). destruct (m_prev_address p); [done|]. cbn. lia. }
  destruct (Z.leb_spec 0 at_); [|lia]. destruct (lookup_lt_is_Some_2 _ _ Hat1) as [prev Hprev].
  assert (aget (m_prev_address p) (Z.to_nat at_) = Ok prev) as -> by (unfold aget; by rewrite Hprev).
  cbn [mbind res_bind]. destruct (Z.eqb_spec (n_flows p) 0); [lia|].
  rewrite Forall_lookup in Hall. pose proof (Hall _ _ Hprev) as Hlen.
  set (f := nearest _ _ _ _ _ _). assert (f < length prev)%nat as Hf by (apply (nearest_bound abs c 0 prev); lia).
  destruct (lookup_lt_is_Some_2 _ _ Hf) as [a Ha]. unfold aget, aset. rewrite Ha. cbn [mbind res_bind].
  exists (u64 (c - a)). eexists. split; [done|]. split; [|cbn; by rewrite length_insert].
  split_and!; cbn; try lia.
  - apply Z.mod_pos_bound. lia.
  - apply Z.mod_pos_bound. lia.
  - apply Forall_insert; [by rewrite Forall_lookup|by rewrite length_insert].
Qed.

(** What the stride prefetcher proposes: at most [num_prefetches] addresses, all on the line
    through the current address with one non-zero stride, and inside the page of the current
    address if [stop_at_page] is set. *)
Theorem simple_prefetch_spec (abs : Z -> Z) (p : SimplePrefetcher) (c core : Z) :
  simple_wf p -> (flows_per_core p = true -> 0 <= core - sp_core_id p < Z.of_nat (length (m_prev_address p))) ->
  (flows_per_core p = false -> m_prev_address p <> []) ->
  exists l p' stride, simple_getNextAddress abs p c core = Ok (l, p') /\ simple_wf p' /\
    Z.of_nat (length l) <= num_prefetches p /\
    forall a, a ∈ l -> stride <> 0 /\ exists j, 0 <= j < num_prefetches p /\ a = u64 (c + u64 (j * stride)) /\
      (stop_at_page p = true -> Z.land a PAGE_MASK = Z.land c PAGE_MASK).
Proof.
  intros Hwf H1 H2. destruct (simple_step abs p c core Hwf H1 H2) as (stride & p' & -> & Hwf' & _).
  destruct Hwf as (_ & _ & Hp & _). eexists _, p', stride. split; [done|]. split; [done|].
  destruct (Z.eqb_spec stride 0); [split; [done|by intros a ?%elem_of_nil]|]. split.
  - pose proof (length_stride (Z.to_nat (num_prefetches p)) 0 c stride (stop_at_page p)). lia.
  - intros a Ha. split; [done|]. apply elem_stride in Ha as (j & Hj & ?). exists j. split; [lia|done].
Qed.

(** The first address proposed is the current address itself: with [num_prefetches] set to 1
    the prefetcher never fetches anything new. *)
Theorem simple_prefetches_current (abs : Z -> Z) (p p' : SimplePrefetcher) (c core : Z) (l : list Z) :
  in_width 64 c -> simple_getNextAddress abs p c core = Ok (l, p') ->
  l = [] \/ head l = Some c.
Proof.
  intros Hc H. unfold simple_getNextAddress in H. res_inv H. destruct (n_flows p =? 0); [done|]. res_inv H.
  simplify_eq. destruct (_ =? 0); [by left|]. destruct (Z.to_nat (num_prefetches p)) as [|k]; [by left|].
  right. cbn [stride_addresses]. rewrite Z.mul_0_l, (wrap_small 64 0), Z.add_0_r, (wrap_small 64 c) by (unfold in_width in Hc; lia).
  by rewrite Z.eqb_refl, orb_true_r.
Qed.

Definition simple_example : SimplePrefetcher := SimplePrefetcher_new 0 1 4 false 3 true.

Lemma simple_prefetch_spec_witness :
  exists l p' stride, simple_getNextAddress Z.abs simple_example 320 0 = Ok (l, p') /\ l = [320; 640; 960] /\
    forall a, a ∈ l -> stride <> 0 /\ exists j, 0 <= j < 3 /\ a = u64 (320 + u64 (j * stride)) /\
      (stop_at_page simple_example = true -> Z.land a PAGE_MASK = Z.land 320 PAGE_MASK).
Proof.
  destruct (simple_prefetch_spec Z.abs simple_example 320 0) as (l & p' & stride & H & _ & _ & Hl).
  - unfold simple_wf; cbn. split_and!; try lia. repeat constructor.
  - done.
  - done.
  - exists l, p', stride. split; [exact H|]. split; [|exact Hl].
    vm_compute in H. by injection H as <- _.
Defined.

Lemma simple_prefetches_current_witness :
  match simple_getNextAddress Z.abs simple_example 320 0 with
  | Ok (l, _) => l <> [] /\ (l = [] \/ head l = Some 320)
  | Err _ => False
  end.
Proof.
  destruct (simple_getNextAddress Z.abs simple_example 320 0) as [[l p']|] eqn:E; [|vm_compute in E; discriminate E].
  split; [|refine (simple_prefetches_current Z.abs simple_example p' 320 0 l _ E); unfold in_width; lia].
  intros ->. vm_compute in E. discriminate E.
Defined.

(** ** The global history buffer *)

(** Links and table entries stay inside the buffer. *)
Record ghb_wf (p : GhbPrefetcher) : Prop := {
  gw_size : 0 < m_ghbSize p < 2 ^ 32;
  gw_table_size : 0 < m_tableSize p < 2 ^ 32;
  gw_ghb : length (m_ghb p) = Z.to_nat (m_ghbSize p);
  gw_table : length (m_ghbTable p) = Z.to_nat (m_tableSize p);
  gw_head : 0 <= m_ghbHead p < m_ghbSize p;
  gw_table_head : 0 <= m_tableHead p < m_tableSize p;
  gw_next : Forall (fun g => nextIndex g = INVALID_INDEX \/ 0 <= nextIndex g < m_ghbSize p) (m_ghb p);
  gw_index : Forall (fun e => t_delta e = INVALID_DELTA \/ 0 <= ghbIndex e < m_ghbSize p) (m_ghbTable p)
}.

Lemma ghb_new_wf width depth size tsize :
  0 < size < 2 ^ 32 -> 0 < tsize < 2 ^ 32 -> ghb_wf (GhbPrefetcher_new width depth size tsize).
Proof.
  intros Hs Ht. split; cbn; try lia; rewrite ?length_replicate; try done; apply Forall_replicate; by left.
Qed.

Lemma table_find_elem i l d j e : table_find i l d = Some (j, e) -> (i <= j)%nat /\ l !! (j - i)%nat = Some e.
Proof.
  revert i. induction l as [|x l IH]; intros i H; cbn [table_find] in H; [done|].
  destruct (_ || _); [simplify_eq; by rewrite Nat.sub_diag|].
  apply IH in H as [Hi Hl]. split; [lia|]. by replace (j - i)%nat with (S (j - S i)) by lia.
Qed.

(** An entry found with a valid delta refers to a position of the buffer. *)
Lemma table_find_index p d j e :
  ghb_wf p -> table_find 0 (m_ghbTable p) d = Some (j, e) -> t_delta e = d -> d <> INVALID_DELTA ->
  (j < length (m_ghbTable p))%nat /\ 0 <= ghbIndex e < m_ghbSize p.
Proof.
  intros Hp H Hd Hv. apply table_find_elem in H as [_ H]. rewrite Nat.sub_0_r in H.
  split; [by eapply lookup_lt_Some|]. pose proof (gw_index p Hp) as Hi. rewrite Forall_lookup in Hi.
  destruct (Hi _ _ H); [congruence|done].
Qed.

(** A list without repetitions, of bounded length. *)
Definition plist (n : nat) (l : list Z) : Prop := NoDup l /\ (length l <= n)%nat.

Lemma plist_push n l a : plist n l -> plist (S n) (push_new l a).
Proof.
  intros [Hl Hn]. unfold push_new. case_decide; [split; [done|lia]|]. split.
  - apply NoDup_app. split; [done|]. split; [|by apply NoDup_singleton]. intros x Hx ->%list_elem_of_singleton. done.
  - rewrite length_app. cbn. lia.
Qed.

Lemma ghb_depth_ok k depth p index a l n :
  ghb_wf p -> plist n l ->
  exists l', ghb_depth k depth (m_ghb p) (m_ghbSize p) index a l = Ok l' /\ plist (n + k) l'.
Proof.
  intros Hp. revert depth a l n. induction k as [|k IH]; intros depth a l n Hl; cbn [ghb_depth].
  { exists l. rewrite Nat.add_0_r. done. }
  pose proof (gw_size p Hp). destruct (Z.eqb_spec (m_ghbSize p) 0); [lia|].
  destruct (aget_lt (m_ghb p) (Z.to_nat (u32 (index + depth) mod m_ghbSize p))) as (g & -> & _).
  { rewrite (gw_ghb p Hp). pose proof (Z.mod_pos_bound (u32 (index + depth)) (m_ghbSize p)). lia. }
  cbn [mbind res_bind]. destruct (_ =? INVALID_DELTA).
  - exists l. split; [done|]. destruct Hl. split; [done|lia].
  - destruct (IH (depth + 1) (u64 (a + g_delta g)) (push_new l (u64 (a + g_delta g))) (S n)) as (l' & -> & Hl');
      [by apply plist_push|]. exists l'. split; [done|]. by replace (n + S k)%nat with (S n + k)%nat by lia.
Qed.

Lemma ghb_width_ok k p index a l n :
  ghb_wf p -> plist n l -> index = INVALID_INDEX \/ 0 <= index < m_ghbSize p ->
  exists l', ghb_width k p index a l = Ok l' /\ plist (n + k * Z.to_nat (m_prefetchDepth p)) l'.
Proof.
  intros Hp. revert index l n. induction k as [|k IH]; intros index l n Hl Hi; cbn [ghb_width].
  { exists l. by rewrite Nat.add_0_r. }
  destruct (Z.eqb_spec index INVALID_INDEX).
  { exists l. split; [done|]. destruct Hl. split; [done|lia]. }
  destruct Hi as [|Hi]; [done|].
  destruct (ghb_depth_ok (Z.to_nat (m_prefetchDepth p)) 0 p index a l n Hp Hl) as (l1 & -> & Hl1).
  cbn [mbind res_bind]. destruct (aget_lt (m_ghb p) (Z.to_nat index)) as (g & -> & Hg); [rewrite (gw_ghb p Hp); lia|].
  cbn [mbind res_bind]. pose proof (gw_next p Hp) as Hn. rewrite Forall_lookup in Hn. specialize (Hn _ _ Hg).
  destruct (IH (if ((index <? nextIndex g) || (m_ghbHead p <? index)) && (nextIndex g <? m_ghbHead p)
                then INVALID_INDEX else nextIndex g) l1 _ Hl1) as (l' & -> & Hl').
  { destruct (_ && _); [by left|done]. }
  exists l'. split; [done|]. by replace (n + S k * _)%nat with (n + Z.to_nat (m_prefetchDepth p) + k * Z.to_nat (m_prefetchDepth p))%nat by lia.
Qed.

Lemma entry_live_ok p ghb e :
  ghb_wf p -> length ghb = length (m_ghb p) -> 0 <= ghbIndex e < m_ghbSize p -> exists b, entry_live ghb e = Ok b.
Proof.
  intros Hp Hl He. unfold entry_live. destruct (aget_lt ghb (Z.to_nat (ghbIndex e))) as (g & -> & _).
  - rewrite Hl, (gw_ghb p Hp). lia.
  - by eexists.
Qed.

Lemma ghb_prefetches_ok p d a :
  ghb_wf p -> d <> INVALID_DELTA ->
  exists l, ghb_prefetches p d a = Ok l /\ plist (Z.to_nat (m_prefetchWidth p) * Z.to_nat (m_prefetchDepth p)) l.
Proof.
  intros Hp Hd. assert (forall n, plist n []) as Hnil by (intros n; split; [apply NoDup_nil_2|cbn; lia]).
  unfold ghb_prefetches. destruct (table_find 0 (m_ghbTable p) d) as [[j e]|] eqn:E; [|by eexists].
  destruct (Z.eqb_spec (t_delta e) d) as [Ed|]; [|by eexists].
  destruct (table_find_index p d j e Hp E Ed Hd) as [_ Hi].
  destruct (entry_live_ok p (m_ghb p) e Hp eq_refl Hi) as [b ->]. cbn [mbind res_bind]. destruct b; [|by eexists].
  by apply (ghb_width_ok _ p _ a [] 0 Hp (Hnil 0%nat)); right.
Qed.

Lemma ghb_record_ok p d :
  ghb_wf p ->
  exists ghb table th, ghb_record p d = Ok (ghb, table, th) /\
    length ghb = length (m_ghb p) /\ length table = length (m_ghbTable p) /\ 0 <= th < m_tableSize p /\
    Forall (fun g => nextIndex g = INVALID_INDEX \/ 0 <= nextIndex g < m_ghbSize p) ghb /\
    Forall (fun e => t_delta e = INVALID_DELTA \/ 0 <= ghbIndex e < m_ghbSize p) table.
Proof.
  intros Hp. pose proof Hp as [Hs Hts Hg Ht Hh Hth Hn Hi]. unfold ghb_record. cbv zeta.
  rewrite aset_lt by lia. cbn [mbind res_bind].
  set (ghb := <[Z.to_nat (m_ghbHead p) := _]> (m_ghb p)).
  assert (length ghb = length (m_ghb p)) as Hlen by apply length_insert.
  assert (Forall (fun g => nextIndex g = INVALID_INDEX \/ 0 <= nextIndex g < m_ghbSize p) ghb) as Hghb.
  { apply Forall_insert; [done|]. by left. }
  destruct (aget_lt ghb (Z.to_nat (if 0 <? m_ghbHead p then m_ghbHead p - 1 else u32 (m_ghbSize p - 1))))
    as (prev & -> & _); [rewrite Hlen, Hg; zcase; [lia|rewrite wrap_small; lia]|].
  cbn [mbind res_bind]. destruct (Z.eqb_spec (g_delta prev) INVALID_DELTA) as [|Hv]; [by eexists _, _, _|].
  assert (exists table th,
    (table ← aset (m_ghbTable p) (Z.to_nat (m_tableHead p)) (mkTable (m_ghbHead p) (g_delta prev) (m_generation p));
     if m_tableSize p =? 0 then Err DivByZero else Ok (ghb, table, u32 (m_tableHead p + 1) mod m_tableSize p))
      = Ok (ghb, table, th) /\ length table = length (m_ghbTable p) /\ 0 <= th < m_tableSize p /\
      Forall (fun e => t_delta e = INVALID_DELTA \/ 0 <= ghbIndex e < m_ghbSize p) table) as (table & th & Eadd & Ha1 & Ha2 & Ha3).
  { rewrite aset_lt by lia. cbn [mbind res_bind]. destruct (Z.eqb_spec (m_tableSize p) 0); [lia|].
    eexists _, _. split; [done|]. rewrite length_insert. split_and!; try done; try (apply Z.mod_pos_bound; lia).
    apply Forall_insert; [done|]. by right. }
  destruct (table_find 0 (m_ghbTable p) (g_delta prev)) as [[j e]|] eqn:E; [|exists ghb, table, th; split; [exact Eadd|split_and!; done || lia]].
  destruct (Z.eqb_spec (t_delta e) (g_delta prev)) as [Ed|]; [|exists ghb, table, th; split; [exact Eadd|split_and!; done || lia]].
  destruct (table_find_index p _ j e Hp E Ed Hv) as [Hj He].
  destruct (entry_live_ok p ghb e Hp Hlen He) as [b ->]. cbn [mbind res_bind].
  rewrite !aset_lt by lia. cbn [mbind res_bind]. eexists _, _, _. split; [done|]. rewrite !length_insert.
  split_and!; try done; try lia; apply Forall_insert; try done; cbn; [destruct b; auto|by right].
Qed.

Lemma ghb_step p a :
  ghb_wf p -> s64 (a - m_lastAddress p) <> INVALID_DELTA \/ m_lastAddress p = INVALID_ADDRESS ->
  exists l p', ghb_getNextAddress p a = Ok (l, p') /\ ghb_wf p' /\ m_lastAddress p' = a /\
    m_prefetchWidth p' = m_prefetchWidth p /\ m_prefetchDepth p' = m_prefetchDepth p /\
    plist (Z.to_nat (m_prefetchWidth p) * Z.to_nat (m_prefetchDepth p)) l.
Proof.
  intros Hp Hd. unfold ghb_getNextAddress. destruct (Z.eqb_spec (m_lastAddress p) INVALID_ADDRESS).
  { eexists _, _. split; [done|]. destruct Hp. split_and!; try done. split; [apply NoDup_nil_2|cbn; lia]. }
  destruct Hd as [Hd|]; [|done]. destruct (ghb_prefetches_ok p _ a Hp Hd) as (l & -> & Hl). cbn [mbind res_bind].
  destruct (ghb_record_ok p (s64 (a - m_lastAddress p)) Hp) as (ghb & table & th & -> & H1 & H2 & H3 & H4 & H5).
  cbn [mbind res_bind]. eexists _, _. split; [done|]. split; [|done].
  pose proof Hp as [Hs Hts Hg Ht Hh Hth Hn Hi].
  split; cbn; try done; try congruence. rewrite wrap_small by lia. zcase; lia.
Qed.

(** Prefetches for the addresses of a run. *)
Fixpoint ghb_run (p : GhbPrefetcher) (l : list Z) : res (list (list Z) * GhbPrefetcher) :=
  match l with
  | [] => Ok ([], p)
  | a :: l => '(r, p) ← ghb_getNextAddress p a; '(rs, p) ← ghb_run p l; Ok (r :: rs, p)
  end.

(** No two consecutive addresses are 2^63-1 apart, the value that stands for no delta. *)
Fixpoint deltas_ok (last : Z) (l : list Z) : Prop :=
  match l with
  | [] => True
  | a :: l => (s64 (a - last) <> INVALID_DELTA \/ last = INVALID_ADDRESS) /\ deltas_ok a l
  end.

Lemma ghb_run_ok p l :
  ghb_wf p -> deltas_ok (m_lastAddress p) l ->
  exists rs p', ghb_run p l = Ok (rs, p') /\
    Forall (plist (Z.to_nat (m_prefetchWidth p) * Z.to_nat (m_prefetchDepth p))) rs.
Proof.
  revert p. induction l as [|a l IH]; intros p Hp Hl; cbn [ghb_run]; [by eexists _, _|].
  destruct Hl as [Hd Hl]. destruct (ghb_step p a Hp Hd) as (r & p1 & -> & Hp1 & E & Ew & Ed & Hr).
  cbn [mbind res_bind]. destruct (IH p1 Hp1) as (rs & p2 & -> & Hrs); [by rewrite E|]. cbn [mbind res_bind].
  eexists _, _. split; [done|]. rewrite Ew, Ed in Hrs. by constructor.
Qed.

(** The history-buffer prefetcher is safe: on every sequence of addresses without the delta
    that stands for an invalid one, it never accesses its tables outside their bounds, and it
    proposes at most width times depth addresses for each, without repetitions. *)
Theorem ghb_prefetch_safe (width depth size tsize : Z) (l : list Z) :
  0 < size < 2 ^ 32 -> 0 < tsize < 2 ^ 32 -> deltas_ok INVALID_ADDRESS l ->
  exists rs p', ghb_run (GhbPrefetcher_new width depth size tsize) l = Ok (rs, p') /\
    Forall (fun r => NoDup r /\ (length r <= Z.to_nat width * Z.to_nat depth)%nat) rs.
Proof. intros Hs Ht Hl. by apply (ghb_run_ok (GhbPrefetcher_new width depth size tsize)); [apply ghb_new_wf|]. Qed.

Lemma ghb_prefetch_safe_witness :
  exists rs p', ghb_run (GhbPrefetcher_new 2 2 8 8) [0; 64; 128; 320; 384; 448; 640; 704] = Ok (rs, p') /\
    rs = [[]; []; []; []; [576; 448; 640]; [640; 704; 512]; [704; 768]; [896; 768; 960]] /\
    Forall (fun r => NoDup r /\ (length r <= Z.to_nat 2 * Z.to_nat 2)%nat) rs.
Proof.
  destruct (ghb_prefetch_safe 2 2 8 8 [0; 64; 128; 320; 384; 448; 640; 704]) as (rs & p' & H & Hrs); [lia..| |].
  - cbn [deltas_ok]. split_and!; first [exact Logic.I | by right | left; vm_compute; discriminate].
  - exists rs, p'. split; [exact H|]. split; [|exact Hrs]. vm_compute in H. by injection H as <- _.
Defined.

Lemma ghb_prefetches_invalid p g l a :
  m_ghbTable p = mkTable INVALID_INDEX INVALID_DELTA g :: l -> (length (m_ghb p) <= Z.to_nat INVALID_INDEX)%nat ->
  ghb_prefetches p INVALID_DELTA a = Err OutOfBounds.
Proof.
  intros Ht Hl. unfold ghb_prefetches. rewrite Ht. cbn [table_find t_delta]. rewrite Z.eqb_refl. cbn [orb t_delta].
  rewrite Z.eqb_refl. unfold entry_live. cbn [ghbIndex]. by rewrite aget_ge.
Qed.

(** With the delta that stands for none, the lookup finds an empty entry of the table and
    follows its index, outside the buffer. *)
Theorem ghb_invalid_delta_out_of_bounds (width depth size tsize : Z) :
  0 < size < 2 ^ 32 -> 0 < tsize < 2 ^ 32 ->
  ghb_run (GhbPrefetcher_new width depth size tsize) [0; INVALID_DELTA] = Err OutOfBounds.
Proof.
  intros Hs Ht. cbn [ghb_run].
  assert (ghb_getNextAddress (GhbPrefetcher_new width depth size tsize) 0 = Ok ([], _)) as -> by reflexivity.
  cbn [mbind res_bind]. unfold ghb_getNextAddress. cbn [m_lastAddress].
  destruct (Z.eqb_spec 0 INVALID_ADDRESS); [done|]. change (s64 (INVALID_DELTA - 0)) with INVALID_DELTA.
  destruct (Z.to_nat tsize) as [|k] eqn:Ek; [lia|].
  erewrite ghb_prefetches_invalid; [done|cbn; by rewrite Ek|].
  cbn. rewrite length_replicate. unfold INVALID_INDEX. lia.
Qed.

Lemma ghb_invalid_delta_out_of_bounds_witness :
  ghb_run (GhbPrefetcher_new 2 2 8 8) [0; INVALID_DELTA] = Err OutOfBounds.
Proof. apply (ghb_invalid_delta_out_of_bounds 2 2 8 8); lia. Defined.
