(* ===== verification/DramPerfModel.v ===== *)
(** * DRAM performance models

    Models src/common/performance_model/dram_perf_model.{h,cc} and the models
    dram_perf_model_constant, dram_perf_model_readwrite and
    dram_perf_model_normal: the latency of a DRAM access is its queueing delay,
    the transfer time of the block and the access cost of the device.  The
    normal distribution of the last model comes from the C++ library; drawing
    from it is a parameter. *)

From S2P Require Import Prelude SubsecondTime ShmemPerf MovingAverage ContentionModel QueueModelHistoryList QueueModel.

(** DramCntlrInterface::access_t *)
Inductive dram_access_t := READ | WRITE.

#[global] Instance dram_access_t_eq_dec : EqDecision dram_access_t.
Proof. solve_decision. Defined.

(** What the models read from outside: the number of application cores, the global time (for the
    M/G/1 queue), [pow] (for the geometric mean), and the next value of the random
    distribution. *)
Record DramEnv (G : Type) := mkDramEnv {
  de_application_cores : Z;
  de_global_time : Z;
  de_pow_root : Z -> Z -> Z;
  de_next : G -> Z * G
}.
Arguments mkDramEnv {G} _ _ _ _.
Arguments de_application_cores {G} _.
Arguments de_global_time {G} _.
Arguments de_pow_root {G} _.
Arguments de_next {G} _.

(** The configuration; the latencies are the configured ones, converted to femtoseconds. *)
Record DramPerfCfg := mkDramPerfCfg {
  dpc_type : string;
  dpc_bandwidth : ComponentBandwidth;
  dpc_latency : Z;
  dpc_queue_enabled : bool;
  dpc_queue_type : string;
  dpc_queue_cfg : QueueCfg;
  dpc_shared_readwrite : bool
}.

(** The fields common to the models; [m_dram_access_cost] is unused in the normal model. *)
Record DramBase := mkDramBase {
  db_enabled : bool;
  db_num_accesses : Z;
  m_dram_access_cost : Z;
  m_dram_bandwidth : ComponentBandwidth;
  m_total_access_latency : Z
}.

Inductive DramPerfModel (G : Type) :=
  | DramConstant (b : DramBase) (queue : option QueueModel) (total_queueing_delay : Z)
  | DramReadWrite (b : DramBase) (queue_read queue_write : option QueueModel) (shared : bool)
      (total_read_queueing_delay total_write_queueing_delay : Z)
  | DramNormal (b : DramBase) (queue : option QueueModel) (dist : G) (total_queueing_delay : Z).
Arguments DramConstant {G} _ _ _.
Arguments DramReadWrite {G} _ _ _ _ _ _.
Arguments DramNormal {G} _ _ _ _.

(** One queue model of a constructor. *)
Definition dram_queue (cfg : DramPerfCfg) (cache_block_size : Z) : res (option QueueModel) :=
  if dpc_queue_enabled cfg then
    t ← bw_getRoundedLatency (dpc_bandwidth cfg) (u32 (8 * cache_block_size));
    q ← QueueModel_create (dpc_queue_cfg cfg) (dpc_queue_type cfg) t;
    Ok (Some q)
  else Ok None.

(** [dist] is the distribution object that the normal model creates. *)
Definition createDramPerfModel {G} (cfg : DramPerfCfg) (cache_block_size : Z) (dist : G) : res (DramPerfModel G) :=
  let b := mkDramBase false 0 (dpc_latency cfg) (dpc_bandwidth cfg) 0 in
  if bool_decide (dpc_type cfg = "constant"%string) then
    q ← dram_queue cfg cache_block_size; Ok (DramConstant b q 0)
  else if bool_decide (dpc_type cfg = "readwrite"%string) then
    qr ← dram_queue cfg cache_block_size;
    qw ← dram_queue cfg cache_block_size;
    Ok (DramReadWrite b qr qw (dpc_shared_readwrite cfg) 0 0)
  else if bool_decide (dpc_type cfg = "normal"%string) then
    q ← dram_queue cfg cache_block_size; Ok (DramNormal b q dist 0)
  else Err LogError.

Section models.
Context {G : Type} (env : DramEnv G).
Implicit Types (m : DramPerfModel G).

Definition dram_base m : DramBase :=
  match m with DramConstant b _ _ => b | DramReadWrite b _ _ _ _ _ => b | DramNormal b _ _ _ => b end.
Definition set_base (b : DramBase) m : DramPerfModel G :=
  match m with
  | DramConstant _ q t => DramConstant b q t
  | DramReadWrite _ qr qw s tr tw => DramReadWrite b qr qw s tr tw
  | DramNormal _ q d t => DramNormal b q d t
  end.
(** [enable], [disable] *)
Definition dram_set_enabled (e : bool) m : DramPerfModel G :=
  let b := dram_base m in
  set_base (mkDramBase e (db_num_accesses b) (m_dram_access_cost b) (m_dram_bandwidth b)
              (m_total_access_latency b)) m.

(** [queue ? queue->computeQueueDelay(...) : 0] *)
Definition queue_delay_of (q : option QueueModel) (pkt_time processing_time : Z) : res (Z * option QueueModel) :=
  match q with
  | Some q =>
      '(d, q) ← computeQueueDelay (de_pow_root env) (de_global_time env) q pkt_time processing_time;
      Ok (d, Some q)
  | None => Ok (0, None)
  end.

(** The queue delay of an access, the access cost, and the model with its queues and queueing
    statistics updated. *)
Definition dram_delay m (pkt_time processing_time : Z) (access_type : dram_access_t)
  : res (Z * Z * DramPerfModel G) :=
  match m with
  | DramConstant b q t =>
      '(d, q) ← queue_delay_of q pkt_time processing_time;
      Ok (d, m_dram_access_cost b, DramConstant b q (st_add t d))
  | DramReadWrite b None qw shared tr tw =>
      Ok (0, m_dram_access_cost b, m)
  | DramReadWrite b (Some qr) qw shared tr tw =>
      match access_type with
      | READ =>
          '(d, qr) ← queue_delay_of (Some qr) pkt_time processing_time;
          '(_, qw) ← (if shared then
                        match qw with
                        | Some _ => queue_delay_of qw pkt_time processing_time
                        | None => Err NullDeref
                        end
                      else Ok (0, qw));
          Ok (d, m_dram_access_cost b, DramReadWrite b qr qw shared (st_add tr d) tw)
      | WRITE =>
          match qw with
          | Some _ =>
              '(d, qw) ← queue_delay_of qw pkt_time processing_time;
              Ok (d, m_dram_access_cost b, DramReadWrite b (Some qr) qw shared tr (st_add tw d))
          | None => Err NullDeref
          end
      end
  | DramNormal b q dist t =>
      '(d, q) ← queue_delay_of q pkt_time processing_time;
      let '(cost, dist) := de_next env dist in
      Ok (d, cost, DramNormal b q dist (st_add t d))
  end.

(** The latency, the calls of [perf->updateTime], and the model. *)
Definition getAccessLatency m (pkt_time pkt_size requester : Z) (access_type : dram_access_t)
  : res (Z * list (Z * shmem_times_type_t) * DramPerfModel G) :=
  if negb (db_enabled (dram_base m)) || (s32 (de_application_cores env) <=? requester) then Ok (0, [], m)
  else
    processing_time ← bw_getRoundedLatency (m_dram_bandwidth (dram_base m)) (u64 (8 * pkt_size));
    '(queue_delay, cost, m) ← dram_delay m pkt_time processing_time access_type;
    let access_latency := st_add (st_add queue_delay processing_time) cost in
    let t1 := st_add pkt_time queue_delay in
    let t2 := st_add t1 processing_time in
    let b := dram_base m in
    Ok (access_latency,
        [(pkt_time, UNKNOWN); (t1, DRAM_QUEUE); (t2, DRAM_BUS); (st_add t2 cost, DRAM_DEVICE)],
        set_base (mkDramBase (db_enabled b) (u64 (db_num_accesses b + 1)) (m_dram_access_cost b)
                    (m_dram_bandwidth b) (st_add (m_total_access_latency b) access_latency)) m).
End models.

(** ** Termination *)

Definition opt_queue_ok (q : option QueueModel) : Prop := match q with Some q => queue_ok q | None => True end.
Definition dram_queues_ok {G} (m : DramPerfModel G) : Prop :=
  match m with
  | DramConstant _ q _ | DramNormal _ q _ _ => opt_queue_ok q
  | DramReadWrite _ qr qw _ _ _ => opt_queue_ok qr /\ opt_queue_ok qw
  end.

Section termination.
Context {G : Type} (env : DramEnv G).

Lemma queue_delay_of_ok q t p :
  opt_queue_ok q -> no_fuel_error (queue_delay_of env q t p) /\
  forall d q', queue_delay_of env q t p = Ok (d, q') -> opt_queue_ok q'.
Proof.
  intros Hq. destruct q as [q|]; cbn [queue_delay_of]; [|split; [done|]; by intros ? ? [= <- <-]].
  destruct (computeQueueDelay_ok (de_pow_root env) (de_global_time env) q t p Hq) as [Hf Hok].
  split; [nofuel; done|]. intros d q' H. res_inv H. destruct a as [d1 q1]. simplify_eq. by eapply Hok.
Qed.

Lemma dram_delay_ok m t p ty :
  dram_queues_ok m -> no_fuel_error (dram_delay env m t p ty) /\
  forall d c m', dram_delay env m t p ty = Ok (d, c, m') -> dram_queues_ok m'.
Proof.
  intros Hm. assert (forall q, opt_queue_ok q -> no_fuel_error (queue_delay_of env q t p)) as Hf by (intros; by apply queue_delay_of_ok).
  assert (forall q d q', queue_delay_of env q t p = Ok (d, q') -> opt_queue_ok q -> opt_queue_ok q') as Hq.
  { intros q d q' H Ho. by eapply queue_delay_of_ok. }
  destruct m as [b q x|b [qr|] qw sh tr tw|b q di x]; cbn [dram_delay dram_queues_ok] in *.
  - split; [nofuel; auto|]. intros d c m' H. res_inv H. destruct a. simplify_eq. by eapply Hq.
  - destruct Hm as [Hr Hw]. split.
    + destruct ty, sh, qw; nofuel; auto.
    + intros d c m' H. destruct ty; [|destruct qw as [qw|]; [|done]]; res_inv H; destruct a as [d1 q1].
      * res_inv H. destruct a as [d2 q2]. simplify_eq. split; [by eapply (Hq (Some qr))|].
        destruct sh; [destruct qw; [|done]; by eapply Hq|by simplify_eq].
      * simplify_eq. split; [done|by eapply Hq].
  - split; [done|]. by intros d c m' [= <- <- <-].
  - split; [nofuel; auto|]. intros d c m' H. res_inv H. destruct a. destruct (de_next env di). simplify_eq. by eapply Hq.
Qed.

Lemma getAccessLatency_ok m t n r ty :
  dram_queues_ok m -> no_fuel_error (getAccessLatency env m t n r ty) /\
  forall l u m', getAccessLatency env m t n r ty = Ok (l, u, m') -> dram_queues_ok m'.
Proof.
  intros Hm. unfold getAccessLatency, bw_getRoundedLatency, st_div. split.
  - nofuel. by apply dram_delay_ok.
  - intros l u m' H. destruct (_ || _); [by simplify_eq|]. res_inv H. destruct a0 as [[d c] m1]. simplify_eq.
    eapply dram_delay_ok in E0; [|done]. by destruct m1.
Qed.

Lemma createDramPerfModel_ok cfg bs (dist : G) m :
  1 <= qc_moving_avg_window_size (dpc_queue_cfg cfg) < 2 ^ 31 -> createDramPerfModel cfg bs dist = Ok m -> dram_queues_ok m.
Proof.
  intros Hw H. assert (forall q, dram_queue cfg bs = Ok q -> opt_queue_ok q) as Hq.
  { intros q Eq. unfold dram_queue in Eq. destruct (dpc_queue_enabled cfg); [|by simplify_eq]. res_inv Eq. simplify_eq.
    by eapply QueueModel_create_ok. }
  unfold createDramPerfModel in H. repeat (case_bool_decide; [res_inv H; simplify_eq; cbn; auto|]). done.
Qed.
End termination.

(** ** Reads before writes *)

Record dram_request := mkDramReq { dr_type : dram_access_t; dr_time : Z; dr_size : Z; dr_requester : Z }.

(** The latencies of the accesses of a run. *)
Fixpoint dram_run {G} (env : DramEnv G) (m : DramPerfModel G) (l : list dram_request)
  : res (list Z * DramPerfModel G) :=
  match l with
  | [] => Ok ([], m)
  | r :: l =>
      '(lat, _, m) ← getAccessLatency env m (dr_time r) (dr_size r) (dr_requester r) (dr_type r);
      '(lats, m) ← dram_run env m l; Ok (lat :: lats, m)
  end.

(** The requests of a type, and the latencies that belong to them. *)
Definition of_type (ty : dram_access_t) (l : list dram_request) : list dram_request :=
  filter (fun r => dr_type r = ty) l.
Definition lats_of (ty : dram_access_t) (l : list dram_request) (lats : list Z) : list Z :=
  (filter (fun x => dr_type x.1 = ty) (zip l lats)).*2.

Lemma of_type_cons ty r l :
  of_type ty (r :: l) = if decide (dr_type r = ty) then r :: of_type ty l else of_type ty l.
Proof. done. Qed.
Lemma lats_of_cons ty r l x lats :
  lats_of ty (r :: l) (x :: lats) = if decide (dr_type r = ty) then x :: lats_of ty l lats else lats_of ty l lats.
Proof. unfold lats_of. cbn [zip zip_with]. rewrite filter_cons. cbn [fst]. by case_decide. Qed.

Section readwrite.
Context {G : Type} (env : DramEnv G).

(** Two models that compute the same latencies, given equal queue delays. *)
Definition same_base (b b' : DramBase) : Prop :=
  db_enabled b = db_enabled b' /\ m_dram_access_cost b = m_dram_access_cost b' /\ m_dram_bandwidth b = m_dram_bandwidth b'.

Local Abbreviation delay := (computeQueueDelay (de_pow_root env) (de_global_time env)).

(** The model does not answer: it is disabled, or the requester is not an application core. *)
Definition inactive (b : DramBase) (r : dram_request) : bool :=
  negb (db_enabled b) || (s32 (de_application_cores env) <=? dr_requester r).

Local Abbreviation latency m r := (getAccessLatency env m (dr_time r) (dr_size r) (dr_requester r) (dr_type r)).

(** What the queue [q] says of request [r]: [lat] is the latency and [q'] the queue afterwards. *)
Definition asks (b : DramBase) (r : dram_request) (q : QueueModel) (lat : Z) (q' : QueueModel) : Prop :=
  if inactive b r then lat = 0 /\ q' = q
  else exists pt d, bw_getRoundedLatency (m_dram_bandwidth b) (u64 (8 * dr_size r)) = Ok pt /\
    delay q (dr_time r) pt = Ok (d, q') /\ lat = st_add (st_add d pt) (m_dram_access_cost b).

Lemma asks_base b b' r q lat q' : same_base b b' -> asks b r q lat q' -> asks b' r q lat q'.
Proof. intros (He & Hc & Hb). unfold asks, inactive. by rewrite He, Hc, Hb. Qed.

Lemma constant_step b q t r lat q' :
  asks b r q lat q' ->
  exists ups b' t', latency (DramConstant b (Some q) t) r = Ok (lat, ups, DramConstant b' (Some q') t') /\ same_base b b'.
Proof.
  unfold asks, inactive, getAccessLatency. cbn [dram_base].
  destruct (negb (db_enabled b) || _); [intros [-> ->]; by eexists _, _, _|].
  intros (pt & d & -> & Hd & ->). cbn [mbind res_bind dram_delay queue_delay_of]. rewrite Hd. by eexists _, _, _.
Qed.

(** A step of the read-write model: a read asks the read queue, a write the write queue, and
    with shared bandwidth a read also passes through the write queue. *)
Lemma readwrite_step b qr qw shared tr tw r lat ups m' :
  latency (DramReadWrite b (Some qr) (Some qw) shared tr tw) r = Ok (lat, ups, m') ->
  exists b' qr' qw' tr' tw', m' = DramReadWrite b' (Some qr') (Some qw') shared tr' tw' /\ same_base b b' /\
    match dr_type r with
    | READ => asks b r qr lat qr' /\ (shared = true -> exists lat', asks b r qw lat' qw')
    | WRITE => asks b r qw lat qw' /\ qr' = qr
    end.
Proof.
  unfold asks, inactive, getAccessLatency. cbn [dram_base]. destruct (negb (db_enabled b) || _).
  { intros H. simplify_eq. exists b, qr, qw, tr, tw. split; [done|]. split; [done|].
    destruct (dr_type r); split; try done. by exists 0. }
  intros H. res_inv H. rename a into pt. destruct a0 as [[d cost] m1]. simplify_eq. cbn [dram_delay queue_delay_of] in E0.
  destruct (dr_type r); res_inv E0; destruct a as [d0 q0]; res_inv E1; destruct a as [d1 q1]; simplify_eq.
  - res_inv E0. destruct a as [dw qw']. simplify_eq. destruct shared.
    + res_inv E1. destruct a as [dw2 q2]. simplify_eq. eexists _, _, _, _, _. split; [done|]. split; [done|].
      split; [by eexists _, _|]. intros _. by eexists _, _, _.
    + simplify_eq. eexists _, _, _, _, _. split; [done|]. split; [done|]. split; [by eexists _, _|done].
  - eexists _, _, _, _, _. split; [done|]. split; [done|]. split; [by eexists _, _|done].
Qed.

Lemma readwrite_run l b qr qw shared tr tw lats m' :
  dram_run env (DramReadWrite b (Some qr) (Some qw) shared tr tw) l = Ok (lats, m') ->
  forall b0 t0, same_base b b0 ->
  (exists m1, dram_run env (DramConstant b0 (Some qr) t0) (of_type READ l) = Ok (lats_of READ l lats, m1)) /\
  (shared = true -> exists lats2 m2, dram_run env (DramConstant b0 (Some qw) t0) l = Ok (lats2, m2) /\
     lats_of WRITE l lats2 = lats_of WRITE l lats).
Proof.
  revert b qr qw tr tw lats. induction l as [|r l IH]; intros b qr qw tr tw lats H b0 t0 Hb0; cbn [dram_run] in H.
  { simplify_eq. split; [by eexists|]. intros _. by eexists _, _. }
  res_inv H. destruct a as [[lat ups] m1]. res_inv H. destruct a as [lats1 m2]. simplify_eq.
  apply readwrite_step in E as (b' & qr' & qw' & tr' & tw' & -> & Hb' & Hr).
  assert (forall b1, same_base b0 b1 -> same_base b' b1) as Htrans.
  { intros b1 (?&?&?). destruct Hb0 as (?&?&?), Hb' as (?&?&?). unfold same_base. split_and!; congruence. }
  rewrite of_type_cons, !lats_of_cons. destruct (dr_type r) eqn:Ety; cbn beta iota delta [decide dram_access_t_eq_dec].
  - destruct Hr as [Hr Hw]. split.
    + destruct (constant_step b0 qr t0 r lat qr' (asks_base _ _ _ _ _ _ Hb0 Hr)) as (ups1 & b1 & t1 & E & Hb1).
      destruct (IH _ _ _ _ _ _ E0 b1 t1 (Htrans b1 Hb1)) as [(m1 & Hm1) _].
      exists m1. rewrite !decide_True by done. cbn [dram_run]. rewrite E. cbn [mbind res_bind]. by rewrite Hm1.
    + intros Hs. destruct (Hw Hs) as [lat' Hw'].
      destruct (constant_step b0 qw t0 r lat' qw' (asks_base _ _ _ _ _ _ Hb0 Hw')) as (ups1 & b1 & t1 & E & Hb1).
      destruct (IH _ _ _ _ _ _ E0 b1 t1 (Htrans b1 Hb1)) as [_ Hm]. destruct (Hm Hs) as (lats2 & m2 & Hm2 & Hl).
      exists (lat' :: lats2), m2. cbn [dram_run]. rewrite E. cbn [mbind res_bind]. rewrite Hm2. split; [done|].
      rewrite !lats_of_cons, Ety, !decide_False by done. done.
  - destruct Hr as [Hw ->]. split.
    + rewrite !decide_False by done. by apply (IH _ _ _ _ _ _ E0 b0 t0), Htrans.
    + intros Hs. destruct (constant_step b0 qw t0 r lat qw' (asks_base _ _ _ _ _ _ Hb0 Hw)) as (ups1 & b1 & t1 & E & Hb1).
      destruct (IH _ _ _ _ _ _ E0 b1 t1 (Htrans b1 Hb1)) as [_ Hm]. destruct (Hm Hs) as (lats2 & m2 & Hm2 & Hl).
      exists (lat :: lats2), m2. cbn [dram_run]. rewrite E. cbn [mbind res_bind]. rewrite Hm2. split; [done|].
      rewrite !lats_of_cons, Ety, !decide_True by done. by f_equal.
Qed.
End readwrite.

(** C39: The read-write model gives reads priority, as its comment says: on every sequence of
    accesses, the reads have the latencies of a memory that only serves the reads, with the
    read queue; if reads and writes share the bandwidth, the writes have the latencies of a
    memory that serves all accesses from one queue, the write queue. *)
Theorem readwrite_prioritises_reads {G : Type} (env : DramEnv G) (b : DramBase) (qr qw : QueueModel)
    (shared : bool) (tr tw : Z) (l : list dram_request) (lats : list Z) (m' : DramPerfModel G) :
  dram_run env (DramReadWrite b (Some qr) (Some qw) shared tr tw) l = Ok (lats, m') ->
  (exists m1, dram_run env (DramConstant b (Some qr) tr) (of_type READ l) = Ok (lats_of READ l lats, m1)) /\
  (shared = true -> exists lats2 m2, dram_run env (DramConstant b (Some qw) tw) l = Ok (lats2, m2) /\
     lats_of WRITE l lats2 = lats_of WRITE l lats).
Proof.
  intros H. split.
  - by apply (readwrite_run env l b qr qw shared tr tw lats m' H b tr).
  - by apply (readwrite_run env l b qr qw shared tr tw lats m' H b tw).
Qed.

Definition example_dram_env : DramEnv unit := mkDramEnv 4 0 (fun x _ => x) (fun _ => (0, tt)).
Definition example_dram_base : DramBase := mkDramBase true 0 100 {| m_bw_in_bits_per_us := 8000000000 |} 0.
Definition example_queue : QueueModel := QContention (ContentionModel_new None 1).
Definition example_requests : list dram_request :=
  [mkDramReq READ 1000 64 0; mkDramReq WRITE 1001 64 1; mkDramReq READ 1002 64 2; mkDramReq WRITE 1003 64 0].

Lemma readwrite_prioritises_reads_witness :
  exists lats m', dram_run example_dram_env
      (DramReadWrite example_dram_base (Some example_queue) (Some example_queue) true 0 0) example_requests = Ok (lats, m') /\
    lats = [164; 227; 226; 353] /\
    (exists m1, dram_run example_dram_env (DramConstant example_dram_base (Some example_queue) 0)
       (of_type READ example_requests) = Ok (lats_of READ example_requests lats, m1)) /\
    (true = true -> exists lats2 m2, dram_run example_dram_env (DramConstant example_dram_base (Some example_queue) 0)
       example_requests = Ok (lats2, m2) /\ lats_of WRITE example_requests lats2 = lats_of WRITE example_requests lats).
Proof.
  destruct (dram_run example_dram_env (DramReadWrite example_dram_base (Some example_queue) (Some example_queue) true 0 0)
    example_requests) as [[lats m']|] eqn:E; [|vm_compute in E; discriminate E].
  exists lats, m'. split; [reflexivity|]. split; [vm_compute in E; by injection E as <- _|].
  exact (readwrite_prioritises_reads example_dram_env _ _ _ true 0 0 _ _ _ E).
Defined.
