(* ===== verification/DramDirectoryCntlr.v ===== *)
(** * The tag directory controller

    Models pr_l1_pr_l2_dram_directory_msi of src/common/core/memory_subsystem:
    the messages and requests of shmem_msg.h and shmem_req.{h,cc}, and every
    handler of dram_directory_cntlr.{h,cc}, for the MSI, MESI and MESIF
    variants of the protocol.

    The controller's state is the entry store, a queue of requests per address,
    the NUCA cache if there is one, and the clock of the simulation thread.
    Messages sent and updates of the latency statistics (ShmemPerf) are the
    events of [c_out], in program order; sending is asynchronous, so no handler
    runs inside another one.  Data buffers are pointers; their contents do not
    matter to the controller.

    The handlers call each other only through [processNextReqFromL2Cache], so
    each takes it as parameter [next] and the recursion is tied once, on fuel
    that bounds the requests served in one run. *)

From stdpp Require Import gmap.
From S2P Require Import Prelude StateMonad SubsecondTime AddressHomeLookup DirectoryEntry DramDirectoryCache ReqQueueList ShmemPerf.

(** ** Messages *)

Inductive msg_t :=
  | INVALID_MSG_TYPE
  | EX_REQ | SH_REQ | UPGRADE_REQ | INV_REQ | FLUSH_REQ | WB_REQ
  | EX_REP | SH_REP | UPGRADE_REP | INV_REP | FLUSH_REP | WB_REP | NULLIFY_REQ
  | DRAM_READ_REQ | DRAM_WRITE_REQ | DRAM_READ_REP.

#[global] Instance msg_t_eq_dec : EqDecision msg_t.
Proof. solve_decision. Defined.

(** The receivers the controller addresses. *)
Inductive component := L2_CACHE | DRAM_COMP | TAG_DIR.

(** HitWhere::where_t, the values that the directory and DRAM report. *)
Inductive where_t :=
  W_UNKNOWN | W_MISS | W_NUCA_CACHE | W_DRAM_CACHE | W_DRAM | W_DRAM_LOCAL | W_DRAM_REMOTE | W_CACHE_REMOTE.

#[global] Instance where_t_eq_dec : EqDecision where_t.
Proof. solve_decision. Defined.

Record ShmemMsg := mkMsg {
  msg_type : msg_t;
  msg_requester : Z;
  msg_address : Z;
  msg_data_buf : option nat;     (* Byte*, None is NULL *)
  msg_where : where_t;
  msg_perf : option nat          (* ShmemPerf* *)
}.

(** [getModeledLength] *)
Definition getModeledLength (t : msg_t) (data_length : Z) : res Z :=
  match t with
  | EX_REQ | SH_REQ | INV_REQ | FLUSH_REQ | WB_REQ | UPGRADE_REP | UPGRADE_REQ | INV_REP
  | DRAM_READ_REQ => Ok 9
  | EX_REP | SH_REP | FLUSH_REP | WB_REP | DRAM_WRITE_REQ | DRAM_READ_REP => Ok (u32 (9 + data_length))
  | INVALID_MSG_TYPE | NULLIFY_REQ => Err LogError
  end.

Record ShmemReq := mkReq {
  r_msg : ShmemMsg;
  r_time : Z;
  m_wait_for_data : bool;
  m_forwarding_from : Z
}.

(** The constructor copies the message ([m_where] stays uninitialised and is never read). *)
Definition ShmemReq_new (m : ShmemMsg) (time : Z) : res ShmemReq :=
  _ ← assert_ (bool_decide (msg_data_buf m = None));
  Ok (mkReq m time false INVALID_CORE_ID).

Definition r_updateTime (r : ShmemReq) (time : Z) : ShmemReq :=
  if st_gtb time (r_time r) then mkReq (r_msg r) time (m_wait_for_data r) (m_forwarding_from r) else r.
Definition setWaitForData (r : ShmemReq) (b : bool) : ShmemReq :=
  mkReq (r_msg r) (r_time r) b (m_forwarding_from r).
Definition setForwardingFrom (r : ShmemReq) (c : Z) : ShmemReq :=
  mkReq (r_msg r) (r_time r) (m_wait_for_data r) c.
Definition isForwarding (r : ShmemReq) : bool := negb (m_forwarding_from r =? INVALID_CORE_ID).
Definition r_setDataBuf (r : ShmemReq) (d : option nat) : ShmemReq :=
  mkReq (mkMsg (msg_type (r_msg r)) (msg_requester (r_msg r)) (msg_address (r_msg r)) d
           (msg_where (r_msg r)) (msg_perf (r_msg r)))
        (r_time r) (m_wait_for_data r) (m_forwarding_from r).

(** ** Events *)

Inductive event :=
  | Send (t : msg_t) (to_ : component) (requester receiver address : Z) (data : option nat)
         (data_length : Z) (where_ : where_t) (perf : option nat) (time : Z)
  | Broadcast (t : msg_t) (to_ : component) (requester address : Z) (data : option nat)
         (data_length : Z) (perf : option nat) (time : Z)
  | PerfUpdate (perf : nat) (time : Z) (reason : shmem_times_type_t)
  | PerfPacket (perf : nat) (packet_time : Z).

(** ** The NUCA cache, as the controller uses it

    [read] gives the latency, whether it hit, the buffer filled and its calls of
    [perf->updateTime]; [write] takes the incoming values of the out-parameters [eviction] and
    [evict_address]. *)

Class NucaCache (N : Type) := {
  nuca_read : N -> Z -> Z -> res (Z * where_t * option nat * list (Z * shmem_times_type_t) * N);
  nuca_write : N -> Z -> option nat -> bool -> Z -> Z -> bool -> res (bool * Z * option nat * N)
}.

Inductive protocol_t := MSI | MESI | MESIF.
#[global] Instance protocol_t_eq_dec : EqDecision protocol_t.
Proof. solve_decision. Defined.

(** The fields of a controller that do not change; the last two are the values of the
    uninitialised locals [eviction] and [evict_address] of [sendDataToNUCA]. *)
Class CntlrCfg := mkCfg {
  m_protocol : protocol_t;
  m_core_id : Z;
  m_cache_block_size : Z;
  m_dram_controller_home_lookup : AddressHomeLookup;
  uninit_eviction : bool;
  uninit_evict_address : Z
}.

(** [caching_protocol/variant] of the configuration *)
Definition parseProtocol (protocol : string) : res protocol_t :=
  if bool_decide (protocol = "msi"%string) then Ok MSI
  else if bool_decide (protocol = "mesi"%string) then Ok MESI
  else if bool_decide (protocol = "mesif"%string) then Ok MESIF
  else Err LogError.

Section Cntlr.
Context {N : Type} `{!NucaCache N, !CntlrCfg}.

Record DramDirectoryCntlr := mkCntlr {
  c_dir : DramDirectoryCache;
  c_queue : ReqQueueList ShmemReq;
  m_nuca_cache : option N;
  c_elapsed : Z;                (* getElapsedTime(_SIM_THREAD) *)
  c_evict : dstate_t -> Z;
  c_forward : Z;
  c_forward_failed : Z;
  c_out : list event
}.

Definition set_dir d c := mkCntlr d (c_queue c) (m_nuca_cache c) (c_elapsed c) (c_evict c)
  (c_forward c) (c_forward_failed c) (c_out c).
Definition set_queue q c := mkCntlr (c_dir c) q (m_nuca_cache c) (c_elapsed c) (c_evict c)
  (c_forward c) (c_forward_failed c) (c_out c).
Definition set_nuca n c := mkCntlr (c_dir c) (c_queue c) n (c_elapsed c) (c_evict c)
  (c_forward c) (c_forward_failed c) (c_out c).
Definition set_elapsed t c := mkCntlr (c_dir c) (c_queue c) (m_nuca_cache c) t (c_evict c)
  (c_forward c) (c_forward_failed c) (c_out c).
Definition set_evict e c := mkCntlr (c_dir c) (c_queue c) (m_nuca_cache c) (c_elapsed c) e
  (c_forward c) (c_forward_failed c) (c_out c).
Definition set_forward f ff c := mkCntlr (c_dir c) (c_queue c) (m_nuca_cache c) (c_elapsed c)
  (c_evict c) f ff (c_out c).
Definition set_out o c := mkCntlr (c_dir c) (c_queue c) (m_nuca_cache c) (c_elapsed c) (c_evict c)
  (c_forward c) (c_forward_failed c) o.

Local Abbreviation CM := (ST DramDirectoryCntlr).

(** Entry store operations, and accesses through an entry pointer. *)
Definition dir {A} (m : DM A) : CM A := zoom c_dir set_dir m.
Definition entry (p : nat) : CM DirectoryEntry := dir (deref p).
Definition set_entry (p : nat) (e : DirectoryEntry) : CM unit := dir (store p e).

Definition emit (e : event) : CM unit := modify (fun c => set_out (c_out c ++ [e]) c).

(** [incrElapsedTime], with its overflow check, and [updateElapsedTime] of ShmemPerfModel. *)
Definition incrElapsedTime (t : Z) : CM unit :=
  old ← gets c_elapsed;
  _ ← assertM (st_geb (st_add old t) old);
  modify (set_elapsed (st_add old t)).
Definition updateElapsedTime (t : Z) : CM unit :=
  modify (fun c => if st_ltb (c_elapsed c) t then set_elapsed t c else c).

(** [perf->updateTime(t, reason)]: a null pointer is ignored by the callee. *)
Definition perf_update (perf : option nat) (t : Z) (reason : shmem_times_type_t) : CM unit :=
  match perf with Some p => emit (PerfUpdate p t reason) | None => mret tt end.
Fixpoint perf_updates (perf : option nat) (l : list (Z * shmem_times_type_t)) : CM unit :=
  match l with
  | [] => mret tt
  | (t, reason) :: l => _ ← perf_update perf t reason; perf_updates perf l
  end.
Definition updateShmemPerf (m : ShmemMsg) (reason : shmem_times_type_t) : CM unit :=
  t ← gets c_elapsed; perf_update (msg_perf m) t reason.

(** [MemoryManager::sendMsg] and [broadcastMsg]: the network takes the packet from here. *)
Definition sendMsg (t : msg_t) (to_ : component) (requester receiver address : Z)
    (data : option nat) (len : Z) (w : where_t) (perf : option nat) : CM unit :=
  _ ← assertM (Bool.eqb (bool_decide (data = None)) (len =? 0));
  time ← gets c_elapsed;
  _ ← perf_update perf time UNKNOWN;
  emit (Send t to_ requester receiver address data len w perf time).
Definition broadcastMsg (t : msg_t) (to_ : component) (requester address : Z)
    (data : option nat) (len : Z) (perf : option nat) : CM unit :=
  _ ← assertM (Bool.eqb (bool_decide (data = None)) (len =? 0));
  time ← gets c_elapsed;
  _ ← perf_update perf time UNKNOWN;
  emit (Broadcast t to_ requester address data len perf time).

(** [getDirectoryEntry(address, modeled)] with its effect on the clock. *)
Definition getEntry (address : Z) (modeled : bool) : CM (option nat) :=
  '(r, lat) ← dir (getDirectoryEntry address modeled);
  _ ← (if modeled then incrElapsedTime lat else mret tt);
  mret r.

(** [assert(directory_entry)] *)
Definition some_entry (r : option nat) : CM nat :=
  match r with Some p => mret p | None => fail AssertFailed end.

Definition q_size (address : Z) : CM Z := gets (fun c => size (c_queue c) address).
Definition q_front (address : Z) : CM ShmemReq := fun c =>
  r ← front (c_queue c) address; Ok (r, c).
Definition q_set_front (address : Z) (r : ShmemReq) : CM unit :=
  modify (fun c => set_queue (set_front (c_queue c) address r) c).
Definition q_enqueue (address : Z) (r : ShmemReq) : CM unit :=
  modify (fun c => set_queue (enqueue (c_queue c) address r) c).
Definition q_dequeue (address : Z) : CM ShmemReq := fun c =>
  '(r, q) ← dequeue (c_queue c) address; Ok (r, set_queue q c).

Definition home (address : Z) : CM Z := lift_res (getHome m_dram_controller_home_lookup address).

(** *** sendDataToNUCA, sendDataToDram *)

Definition sendDataToNUCA (address requester : Z) (data_buf : option nat) (count : bool) : CM unit :=
  n ← gets m_nuca_cache;
  match n with
  | None => mret tt
  | Some n =>
      now ← gets c_elapsed;
      '(eviction, evict_address, evict_buf, n) ←
        lift_res (nuca_write n address data_buf uninit_eviction uninit_evict_address now count);
      _ ← modify (set_nuca (Some n));
      if eviction : bool then
        dram_node ← home evict_address;
        sendMsg DRAM_WRITE_REQ DRAM_COMP m_core_id dram_node evict_address evict_buf
          m_cache_block_size W_UNKNOWN None
      else mret tt
  end.

Definition sendDataToDram (address requester : Z) (data_buf : option nat) : CM unit :=
  n ← gets m_nuca_cache;
  match n with
  | Some _ => sendDataToNUCA address requester data_buf true
  | None =>
      dram_node ← home address;
      sendMsg DRAM_WRITE_REQ DRAM_COMP requester dram_node address data_buf m_cache_block_size
        W_UNKNOWN None
  end.

Section handlers.
(** [processNextReqFromL2Cache] *)
Context (next : Z -> CM unit).

(** *** retrieveDataAndSendToL2Cache *)

(** The reply from data at hand, then the next request. *)
Definition reply_and_next (reply_msg_type : msg_t) (receiver address : Z) (data : option nat)
    (w : where_t) (perf : option nat) : CM unit :=
  _ ← sendMsg reply_msg_type L2_CACHE receiver receiver address data m_cache_block_size w perf;
  next address.

(** The part after a NUCA miss: forward from a sharing cache (MESIF), or read DRAM. *)
Definition retrieve_from_memory (receiver address : Z) (p : nat) (orig_perf : option nat) : CM unit :=
  n ← q_size address;
  _ ← assertM (0 <? n);
  shmem_req ← q_front address;
  e ← entry p;
  if bool_decide (m_protocol = MESIF) && (m_forwarding_from shmem_req =? INVALID_CORE_ID)
     && bool_decide (m_dstate e = DSHARED) && negb (m_forwarder_id e =? INVALID_CORE_ID) then
    let forwarder := m_forwarder_id e in
    _ ← q_set_front address (setForwardingFrom shmem_req forwarder);
    sendMsg WB_REQ L2_CACHE receiver forwarder address None 0 W_UNKNOWN (msg_perf (r_msg shmem_req))
  else
    _ ← q_set_front address (setWaitForData shmem_req true);
    dram_node ← home address;
    sendMsg DRAM_READ_REQ DRAM_COMP receiver dram_node address None 0 W_UNKNOWN orig_perf.

Definition retrieveDataAndSendToL2Cache (reply_msg_type : msg_t) (receiver address : Z)
    (cached_data_buf : option nat) (orig_perf : option nat) : CM unit :=
  r ← getEntry address false;
  p ← some_entry r;
  match cached_data_buf with
  | Some _ =>
      e ← entry p;
      _ ← set_entry p (setForwarder e receiver);
      reply_and_next reply_msg_type receiver address cached_data_buf W_CACHE_REMOTE orig_perf
  | None =>
      n ← gets m_nuca_cache;
      match n with
      | Some n =>
          now ← gets c_elapsed;
          '(nuca_latency, hit_where, buf, updates, n) ← lift_res (nuca_read n address now);
          _ ← modify (set_nuca (Some n));
          _ ← perf_updates orig_perf updates;
          _ ← incrElapsedTime nuca_latency;
          if negb (bool_decide (hit_where = W_MISS))
          then reply_and_next reply_msg_type receiver address buf W_NUCA_CACHE orig_perf
          else retrieve_from_memory receiver address p orig_perf
      | None => retrieve_from_memory receiver address p orig_perf
      end
  end.

(** *** Invalidation of all sharers *)

(** The [else] branch of the broadcast test: [skip] is the requester of an upgrade, [first]
    the type of the first message, [perf] what the first message carries. *)
Fixpoint send_to_sharers (i : nat) (l : list Z) (mk : nat -> Z -> option (msg_t * option nat))
    (requester address : Z) : CM unit :=
  match l with
  | [] => mret tt
  | c :: l =>
      _ ← match mk i c with
          | Some (t, perf) => sendMsg t L2_CACHE requester c address None 0 W_UNKNOWN perf
          | None => mret tt
          end;
      send_to_sharers (S i) l mk requester address
  end.

(** *** processNullifyReq *)

Definition processNullifyReq (shmem_req : ShmemReq) : CM unit :=
  let address := msg_address (r_msg shmem_req) in
  let requester := msg_requester (r_msg shmem_req) in
  r ← getEntry address false;
  p ← some_entry r;
  e ← entry p;
  match m_dstate e with
  | DEXCLUSIVE | DMODIFIED =>
      sendMsg FLUSH_REQ L2_CACHE requester (m_owner_id e) address None 0 W_UNKNOWN None
  | DSHARED =>
      let '(broadcast, l) := getSharersList e in
      if broadcast then broadcastMsg INV_REQ L2_CACHE requester address None 0 None
      else send_to_sharers 0 l (fun _ _ => Some (INV_REQ, None)) requester address
  | UNCACHED =>
      _ ← dir (invalidateDirectoryEntry address);
      next address
  | DOWNED => fail LogError
  end.

(** *** processDirectoryEntryAllocationReq *)

(** The loop that picks the candidate with the fewest sharers among those without
    outstanding requests; [best] is [replacement_candidate]. *)
Fixpoint pick_candidate (best : option nat) (l : list nat) : CM (option nat) :=
  match l with
  | [] => mret best
  | p :: l =>
      e ← entry p;
      better ← match best with
               | None => mret true
               | Some b => eb ← entry b; mret (getNumSharers e <? getNumSharers eb)
               end;
      n ← q_size (e_address e);
      pick_candidate (if better && (n =? 0) then Some p else best) l
  end.

Definition processDirectoryEntryAllocationReq (shmem_req : ShmemReq) : CM nat :=
  let address := msg_address (r_msg shmem_req) in
  let requester := msg_requester (r_msg shmem_req) in
  msg_time ← gets c_elapsed;
  l ← dir (getReplacementCandidates address);
  best ← pick_candidate None l;
  candidate ← some_entry best;
  e ← entry candidate;
  _ ← modify (fun c => set_evict (fun d => if decide (d = m_dstate e) then u64 (c_evict c d + 1)
                                           else c_evict c d) c);
  let replaced_address := e_address e in
  '(p, lat) ← dir (replaceDirectoryEntry replaced_address address true);
  _ ← incrElapsedTime lat;
  let nullify_msg := mkMsg NULLIFY_REQ requester replaced_address None W_UNKNOWN None in
  nullify_req ← lift_res (ShmemReq_new nullify_msg msg_time);
  _ ← q_enqueue replaced_address nullify_req;
  n ← q_size replaced_address;
  _ ← assertM (n =? 1);
  _ ← processNullifyReq nullify_req;
  mret p.

(** The lookup at the start of the request handlers. *)
Definition find_or_allocate (shmem_req : ShmemReq) : CM nat :=
  r ← getEntry (msg_address (r_msg shmem_req)) false;
  match r with
  | Some p => mret p
  | None => processDirectoryEntryAllocationReq shmem_req
  end.

(** [addSharer], [assert(add_result == true)], [setOwner], [setDState] on the entry [e] that
    [p] points to. *)
Definition take_ownership (p : nat) (e : DirectoryEntry) (requester : Z) (d : dstate_t) : CM unit :=
  hw ← gets (fun c => m_use_max_hw_sharers (c_dir c));
  '(add_result, e) ← lift_res (addSharer e requester hw);
  _ ← assertM add_result;
  e ← lift_res (entry_setOwner e requester);
  set_entry p (setDState e d).

(** *** processExReqFromL2Cache *)

Definition processExReqFromL2Cache (shmem_req : ShmemReq) (cached_data_buf : option nat) : CM unit :=
  let address := msg_address (r_msg shmem_req) in
  let requester := msg_requester (r_msg shmem_req) in
  let perf := msg_perf (r_msg shmem_req) in
  _ ← updateShmemPerf (r_msg shmem_req) UNKNOWN;
  p ← find_or_allocate shmem_req;
  e ← entry p;
  _ ← updateShmemPerf (r_msg shmem_req) TD_ACCESS;
  match m_dstate e with
  | DEXCLUSIVE | DMODIFIED =>
      _ ← assertM (bool_decide (cached_data_buf = None));
      sendMsg FLUSH_REQ L2_CACHE requester (m_owner_id e) address None 0 W_UNKNOWN perf
  | DSHARED =>
      _ ← assertM (bool_decide (cached_data_buf = None));
      let '(broadcast, l) := getSharersList e in
      if broadcast then broadcastMsg INV_REQ L2_CACHE requester address None 0 None
      else send_to_sharers 0 l
             (fun i _ => Some (INV_REQ, if (i =? 0)%nat then perf else None)) requester address
  | UNCACHED =>
      _ ← take_ownership p e requester DMODIFIED;
      retrieveDataAndSendToL2Cache EX_REP requester address cached_data_buf perf
  | DOWNED => fail LogError
  end.

(** *** processShReqFromL2Cache *)

Definition processShReqFromL2Cache (shmem_req : ShmemReq) (cached_data_buf : option nat) : CM unit :=
  let address := msg_address (r_msg shmem_req) in
  let requester := msg_requester (r_msg shmem_req) in
  let perf := msg_perf (r_msg shmem_req) in
  _ ← updateShmemPerf (r_msg shmem_req) UNKNOWN;
  p ← find_or_allocate shmem_req;
  e ← entry p;
  _ ← updateShmemPerf (r_msg shmem_req) TD_ACCESS;
  match m_dstate e with
  | DEXCLUSIVE =>
      _ ← assertM (negb (requester =? m_owner_id e));
      _ ← assertM (bool_decide (cached_data_buf = None));
      sendMsg WB_REQ L2_CACHE requester (m_owner_id e) address None 0 W_UNKNOWN perf
  | DMODIFIED =>
      _ ← assertM (bool_decide (cached_data_buf = None));
      sendMsg WB_REQ L2_CACHE requester (m_owner_id e) address None 0 W_UNKNOWN perf
  | DSHARED =>
      has ← lift_res (hasSharer e requester);
      if has : bool then
        _ ← modify (fun c => set_forward (u64 (c_forward c + 1))
               (if bool_decide (cached_data_buf = None) then u64 (c_forward_failed c + 1)
                else c_forward_failed c) c);
        retrieveDataAndSendToL2Cache SH_REP requester address cached_data_buf perf
      else
        hw ← gets (fun c => m_use_max_hw_sharers (c_dir c));
        '(add_result, e) ← lift_res (addSharer e requester hw);
        _ ← set_entry p e;
        if add_result : bool then
          retrieveDataAndSendToL2Cache SH_REP requester address cached_data_buf perf
        else
          '(sharer_id, e) ← lift_res (getOneSharer e);
          _ ← set_entry p e;
          sendMsg INV_REQ L2_CACHE requester sharer_id address None 0 W_UNKNOWN perf
  | UNCACHED =>
      if bool_decide (m_protocol = MSI) then
        _ ← take_ownership p e requester DSHARED;
        retrieveDataAndSendToL2Cache SH_REP requester address cached_data_buf perf
      else
        _ ← take_ownership p e requester DEXCLUSIVE;
        retrieveDataAndSendToL2Cache EX_REP requester address cached_data_buf perf
  | DOWNED => fail LogError
  end.

(** *** processUpgradeReqFromL2Cache *)

Definition processUpgradeReqFromL2Cache (shmem_req : ShmemReq) (cached_data_buf : option nat) : CM unit :=
  let shmem_msg := r_msg shmem_req in
  let address := msg_address shmem_msg in
  let requester := msg_requester shmem_msg in
  let perf := msg_perf shmem_msg in
  _ ← updateShmemPerf shmem_msg UNKNOWN;
  p ← find_or_allocate shmem_req;
  e ← entry p;
  let '(broadcast, l) := getSharersList e in
  _ ← updateShmemPerf shmem_msg TD_ACCESS;
  match m_dstate e with
  | DEXCLUSIVE | DMODIFIED =>
      c0 ← lift_res (aget l 0);
      if c0 =? requester then
        _ ← assertM (m_owner_id e =? requester);
        _ ← sendMsg UPGRADE_REP L2_CACHE requester requester address None 0 W_UNKNOWN perf;
        _ ← set_entry p (setDState e DMODIFIED);
        next address
      else sendMsg FLUSH_REQ L2_CACHE requester (m_owner_id e) address None 0 W_UNKNOWN perf
  | DSHARED =>
      if bool_decide (l = [requester]) then
        e ← lift_res (entry_setOwner e requester);
        _ ← set_entry p (setDState e DMODIFIED);
        _ ← sendMsg UPGRADE_REP L2_CACHE requester requester address None 0 W_UNKNOWN perf;
        next address
      else
        requesterHasCopy ← lift_res (hasSharer e requester);
        if broadcast then broadcastMsg INV_REQ L2_CACHE requester address None 0 None
        else
          (* the first message sent carries the ShmemPerf *)
          let first := match l with c :: _ => if c =? requester then 1%nat else 0%nat | [] => 0%nat end in
          send_to_sharers 0 l
            (fun i c =>
               if c =? requester then None
               else Some (if negb requesterHasCopy && (i =? 0)%nat then FLUSH_REQ else INV_REQ,
                          if (i =? first)%nat then perf else None)) requester address
  | UNCACHED =>
      _ ← assertM (bool_decide (l = []));
      _ ← take_ownership p e requester DMODIFIED;
      let cached_data_buf := match cached_data_buf with
                             | Some d => Some d
                             | None => msg_data_buf shmem_msg
                             end in
      retrieveDataAndSendToL2Cache EX_REP requester address cached_data_buf perf
  | DOWNED => fail LogError
  end.
End handlers.

(** ** processNextReqFromL2Cache *)

(** The dispatch on the new front of the queue. *)
Definition process_front (next : Z -> CM unit) (shmem_req : ShmemReq) : CM unit :=
  match msg_type (r_msg shmem_req) with
  | EX_REQ => processExReqFromL2Cache next shmem_req None
  | SH_REQ => processShReqFromL2Cache next shmem_req None
  | UPGRADE_REQ => processUpgradeReqFromL2Cache next shmem_req None
  | _ => fail LogError
  end.

Fixpoint processNextReqFromL2Cache (fuel : nat) (address : Z) : CM unit :=
  match fuel with
  | O => fail OutOfFuel
  | S fuel =>
      n ← q_size address;
      _ ← assertM (1 <=? n);
      _ ← q_dequeue address;
      q ← gets c_queue;
      if negb (empty q address) then
        shmem_req ← q_front address;
        _ ← modify (set_elapsed (r_time shmem_req));
        process_front (processNextReqFromL2Cache fuel) shmem_req
      else mret tt
  end.

(** Fuel for one message: each call serves one queued request of the address, and an
    allocation adds one nullify request. *)
Definition msg_fuel (address : Z) : CM nat :=
  gets (fun c => S (length (pending (c_queue c) address))).

(** ** Replies *)

(** Common to the three replies: the request at the front learns the current time. *)
Definition update_front_time (address now : Z) : CM ShmemReq :=
  shmem_req ← q_front address;
  let shmem_req := r_updateTime shmem_req now in
  _ ← q_set_front address shmem_req;
  _ ← updateElapsedTime (r_time shmem_req);
  mret shmem_req.

Definition processInvRepFromL2Cache (next : Z -> CM unit) (sender : Z) (shmem_msg : ShmemMsg) : CM unit :=
  let address := msg_address shmem_msg in
  r ← getEntry address false;
  p ← some_entry r;
  e ← entry p;
  _ ← assertM (bool_decide (m_dstate e = DSHARED) || bool_decide (m_dstate e = DEXCLUSIVE));
  e ← lift_res (removeSharer e sender);
  let e := if m_forwarder_id e =? sender then setForwarder e INVALID_CORE_ID else e in
  let e := if getNumSharers e =? 0 then setDState e UNCACHED else e in
  _ ← set_entry p e;
  n ← q_size address;
  if 0 <? n then
    now ← gets c_elapsed;
    shmem_req ← update_front_time address now;
    match msg_type (r_msg shmem_req) with
    | EX_REQ =>
        if bool_decide (m_dstate e = UNCACHED) then
          _ ← updateShmemPerf (r_msg shmem_req) INV_IMBALANCE;
          processExReqFromL2Cache next shmem_req None
        else mret tt
    | UPGRADE_REQ =>
        if getNumSharers e =? 1 then
          has ← lift_res (hasSharer e (msg_requester (r_msg shmem_req)));
          if has : bool then
            _ ← updateShmemPerf (r_msg shmem_req) INV_IMBALANCE;
            processUpgradeReqFromL2Cache next shmem_req None
          else mret tt
        else if getNumSharers e =? 0 then
          _ ← set_entry p (setDState e UNCACHED);
          _ ← updateShmemPerf (r_msg shmem_req) INV_IMBALANCE;
          processUpgradeReqFromL2Cache next shmem_req None
        else mret tt
    | SH_REQ =>
        if m_wait_for_data shmem_req then mret tt
        else if isForwarding shmem_req && negb (sender =? m_forwarding_from shmem_req) then mret tt
        else
          _ ← updateShmemPerf (r_msg shmem_req) INV_IMBALANCE;
          processShReqFromL2Cache next shmem_req None
    | _ =>
        if bool_decide (m_dstate e = UNCACHED) then
          _ ← updateShmemPerf (r_msg shmem_req) INV_IMBALANCE;
          processNullifyReq next shmem_req
        else mret tt
    end
  else mret tt.

Definition processFlushRepFromL2Cache (next : Z -> CM unit) (sender : Z) (shmem_msg : ShmemMsg) : CM unit :=
  let address := msg_address shmem_msg in
  let data := msg_data_buf shmem_msg in
  now ← gets c_elapsed;
  r ← getEntry address false;
  p ← some_entry r;
  e ← entry p;
  has ← lift_res (hasSharer e sender);
  _ ← assertM has;
  e ← lift_res (removeSharer e sender);
  let e := setForwarder e INVALID_CORE_ID in
  e ← lift_res (entry_setOwner e INVALID_CORE_ID);
  let last := getNumSharers e =? 0 in
  let e := if last then setDState e UNCACHED else e in
  _ ← assertM (last || bool_decide (m_dstate e = DSHARED));
  _ ← set_entry p e;
  n ← q_size address;
  if negb (n =? 0) then
    shmem_req ← update_front_time address now;
    _ ← perf_update (msg_perf (r_msg shmem_req)) now UNKNOWN;
    _ ← updateShmemPerf (r_msg shmem_req) TD_ACCESS;
    match msg_type (r_msg shmem_req) with
    | EX_REQ => processExReqFromL2Cache next shmem_req data
    | SH_REQ =>
        _ ← sendDataToDram address (msg_requester shmem_msg) data;
        processShReqFromL2Cache next shmem_req data
    | UPGRADE_REQ =>
        if getNumSharers e =? 0 then
          _ ← set_entry p (setDState e UNCACHED);
          processUpgradeReqFromL2Cache next shmem_req data
        else q_set_front address (r_setDataBuf shmem_req data)
    | _ =>
        _ ← sendDataToDram address (msg_requester shmem_msg) data;
        processNullifyReq next shmem_req
    end
  else sendDataToDram address (msg_requester shmem_msg) data.

Definition processWbRepFromL2Cache (next : Z -> CM unit) (sender : Z) (shmem_msg : ShmemMsg) : CM unit :=
  let address := msg_address shmem_msg in
  now ← gets c_elapsed;
  r ← getEntry address false;
  p ← some_entry r;
  e ← entry p;
  has ← lift_res (hasSharer e sender);
  _ ← assertM has;
  e ← lift_res (entry_setOwner e INVALID_CORE_ID);
  _ ← set_entry p (setDState e DSHARED);
  n ← q_size address;
  if negb (n =? 0) then
    shmem_req ← update_front_time address now;
    _ ← perf_update (msg_perf (r_msg shmem_req)) now UNKNOWN;
    _ ← updateShmemPerf (r_msg shmem_req) TD_ACCESS;
    _ ← assertM (bool_decide (msg_type (r_msg shmem_req) = SH_REQ));
    processShReqFromL2Cache next shmem_req (msg_data_buf shmem_msg)
  else fail LogError.

(** The reply type for data from DRAM. *)
Definition dram_reply_type (t : msg_t) (d : dstate_t) : CM msg_t :=
  match t with
  | SH_REQ =>
      _ ← assertM (bool_decide (d = DSHARED) || bool_decide (d = DEXCLUSIVE));
      mret (if bool_decide (d = DEXCLUSIVE) then EX_REP else SH_REP)
  | EX_REQ => _ ← assertM (bool_decide (d = DMODIFIED)); mret EX_REP
  | UPGRADE_REQ => mret EX_REP
  | _ => fail LogError
  end.

Definition processDRAMReply (next : Z -> CM unit) (sender : Z) (shmem_msg : ShmemMsg) : CM unit :=
  let address := msg_address shmem_msg in
  n ← q_size address;
  _ ← assertM (1 <=? n);
  shmem_req ← q_front address;
  _ ← updateShmemPerf (r_msg shmem_req) UNKNOWN;
  r ← getEntry address false;
  p ← some_entry r;
  e ← entry p;
  _ ← updateShmemPerf (r_msg shmem_req) TD_ACCESS;
  reply_msg_type ← dram_reply_type (msg_type (r_msg shmem_req)) (m_dstate e);
  let hit_where := if bool_decide (msg_where shmem_msg = W_DRAM)
                   then (if sender =? msg_requester shmem_msg then W_DRAM_LOCAL else W_DRAM_REMOTE)
                   else msg_where shmem_msg in
  let requester := msg_requester (r_msg shmem_req) in
  _ ← sendMsg reply_msg_type L2_CACHE requester requester address (msg_data_buf shmem_msg)
        m_cache_block_size hit_where (msg_perf (r_msg shmem_req));
  _ ← sendDataToNUCA address requester (msg_data_buf shmem_msg) false;
  next address.

(** ** The entry points *)

(** The three request cases: enqueue, and process if it is alone in its queue. *)
Definition receive_request (shmem_msg : ShmemMsg) (msg_time : Z)
    (process : ShmemReq -> option nat -> CM unit) : CM unit :=
  let address := msg_address shmem_msg in
  shmem_req ← lift_res (ShmemReq_new shmem_msg msg_time);
  _ ← q_enqueue address shmem_req;
  n ← q_size address;
  if n =? 1 then process shmem_req None else mret tt.

Definition handleMsgFromL2Cache (sender : Z) (shmem_msg : ShmemMsg) : CM unit :=
  let address := msg_address shmem_msg in
  msg_time ← gets c_elapsed;
  fuel ← msg_fuel address;
  let next := processNextReqFromL2Cache (S fuel) in
  _ ← getEntry address true;
  _ ← updateShmemPerf shmem_msg TD_ACCESS;
  match msg_type shmem_msg with
  | EX_REQ => receive_request shmem_msg msg_time (processExReqFromL2Cache next)
  | SH_REQ => receive_request shmem_msg msg_time (processShReqFromL2Cache next)
  | INV_REP => processInvRepFromL2Cache next sender shmem_msg
  | FLUSH_REP => processFlushRepFromL2Cache next sender shmem_msg
  | WB_REP => processWbRepFromL2Cache next sender shmem_msg
  | UPGRADE_REQ => receive_request shmem_msg msg_time (processUpgradeReqFromL2Cache next)
  | _ => fail LogError
  end.

Definition handleMsgFromDRAM (sender : Z) (shmem_msg : ShmemMsg) : CM unit :=
  fuel ← msg_fuel (msg_address shmem_msg);
  match msg_type shmem_msg with
  | DRAM_READ_REP => processDRAMReply (processNextReqFromL2Cache (S fuel)) sender shmem_msg
  | _ => fail LogError
  end.

(** A packet for the tag directory: [MemoryManager::handleMsgFromNetwork] sets the clock to
    the packet's time and dispatches on the sending component ([L2_CACHE] stands for
    LAST_LEVEL_CACHE here). *)
Record packet := mkPacket {
  p_time : Z;
  p_sender : Z;
  p_from : component;
  p_msg : ShmemMsg
}.

Definition handleMsgFromNetwork (p : packet) : CM unit :=
  _ ← modify (set_elapsed (p_time p));
  _ ← match msg_perf (p_msg p) with
      | Some perf => emit (PerfPacket perf (p_time p))
      | None => mret tt
      end;
  match p_from p with
  | L2_CACHE => handleMsgFromL2Cache (p_sender p) (p_msg p)
  | DRAM_COMP => handleMsgFromDRAM (p_sender p) (p_msg p)
  | TAG_DIR => fail LogError
  end.

(** The packets of a run, in the order in which they are delivered. *)
Fixpoint deliver (ps : list packet) : CM unit :=
  match ps with
  | [] => mret tt
  | p :: ps => _ ← handleMsgFromNetwork p; deliver ps
  end.
End Cntlr.
Arguments DramDirectoryCntlr : clear implicits.
Arguments mkCntlr {N} _ _ _ _ _ _ _ _.

(** The constructor; [evict[UNCACHED]] is not initialised, its value is [junk]. *)
Definition DramDirectoryCntlr_new {N} (d : DramDirectoryCache) (nuca : option N) (junk : Z)
  : DramDirectoryCntlr N :=
  mkCntlr d ∅ nuca 0 (fun s => if decide (s = UNCACHED) then junk else 0) 0 0 [].
