(* ===== verification/DirectoryCoherence.v ===== *)
(** * Coherence, liveness and termination of the tag directory

    Proofs about the controller of DramDirectoryCntlr.  One pass over the
    handlers shows three things at once, for every message in every state:
    each directory entry stays coherent ([entry_ok]); the requests of an
    address are answered in order, each exactly once and to its requester; and
    the recursion of the handlers ends within the fuel they are given. *)

From stdpp Require Import gmap.
From S2P Require Import Prelude StateMonad SubsecondTime AddressHomeLookup DirectoryEntry DramDirectoryCache ReqQueueList ShmemPerf DramDirectoryCntlr.

(** ** The entry store *)

Definition dcoh (d : DramDirectoryCache) : Prop := map_Forall (fun _ => entry_ok) (dc_heap d).
Definition anyrel {S : Type} : relation S := fun _ _ => True.

#[local] Instance anyrel_preorder {S} : PreOrder (anyrel (S := S)).
Proof. by split. Qed.

Abbreviation dkeeps := (keeps dcoh anyrel).

Create HintDb keepdb.
(** One step through a sequence: the first operation by a lemma of [keepdb], the result named. *)
Ltac kprim :=
  first [ apply keeps_gets; apply _
        | apply keeps_assert; apply _
        | apply keeps_lift; [apply _|solve [eauto with keepdb sim fuel]]
        | solve [eauto with keepdb sim fuel] ].
Ltac kbind := eapply keeps_bind; [apply _|kprim|]; cbn beta.
Ltac kret := apply keeps_ret; [apply _|].
Ltac kfail := apply keeps_fail; done.

#[local] Hint Unfold no_fuel_error : keepdb.

Lemma dk_modify f : (forall d, dcoh d -> dcoh (f d)) -> dkeeps (modify f) (fun _ => True).
Proof. intros Hf. apply keeps_modify. intros d Hd. split; [by apply Hf|done]. Qed.

Lemma dk_deref p : dkeeps (deref p) entry_ok.
Proof.
  intros d Hd. unfold wp, deref. destruct (dc_heap d !! p) as [e|] eqn:E; [|done].
  split_and!; try done. by eapply Hd.
Qed.
#[local] Hint Resolve dk_deref : keepdb.

Lemma dk_store p e : entry_ok e -> dkeeps (store p e) (fun _ => True).
Proof.
  intros He. unfold store. kbind. intros _ _. apply dk_modify. intros d Hd.
  by apply map_Forall_insert_2.
Qed.

Lemma new_entry_ok d c : entry_ok (new_entry d c).
Proof.
  unfold entry_ok, new_entry, sharers; cbn. generalize 0%nat.
  induction (Z.to_nat (sharers_size (m_max_num_sharers d))) as [|n IH]; intros j; [done|]. cbn. apply IH.
Qed.

Lemma dk_create : dkeeps createDirectoryEntry (fun _ => True).
Proof.
  intros d Hd. unfold wp, createDirectoryEntry. destruct (m_directory_type d); cbn;
    (split; [|done]); apply map_Forall_insert_2; try done; apply new_entry_ok.
Qed.
#[local] Hint Resolve dk_create : keepdb.

Lemma dk_slot n : dkeeps (Directory_getDirectoryEntry n) (fun _ => True).
Proof.
  unfold Directory_getDirectoryEntry. kbind. intros l _. kbind. intros _ _. kbind. intros [p|] _; [by kret|].
  kbind. intros p _. eapply keeps_bind; [apply _|by apply dk_modify|]. intros _ _. by kret.
Qed.
#[local] Hint Resolve dk_slot : keepdb.

Lemma dk_find_in_set n i si a : dkeeps (find_in_set n i si a) (fun _ => True).
Proof.
  revert i. induction n as [|n IH]; intros i; cbn [find_in_set]; [by kret|].
  kbind. intros num _. kbind. intros p _. kbind. intros e He.
  destruct (_ =? _); [by kret|apply IH].
Qed.

Lemma dk_find_in_list l a : dkeeps (find_in_list l a) (fun _ => True).
Proof.
  induction l as [|p l IH]; cbn [find_in_list]; [by kret|].
  kbind. intros e He. destruct (_ =? _); [by kret|apply IH].
Qed.
#[local] Hint Resolve dk_find_in_set dk_find_in_list : keepdb.

Lemma dk_getDirectoryEntry a m : dkeeps (getDirectoryEntry a m) (fun _ => True).
Proof.
  unfold getDirectoryEntry. do 3 (kbind; intros ? _). kbind. intros [p|] _.
  - kbind. intros e He. by kret.
  - kbind. intros [p|] _.
    + kbind. intros e He. eapply keeps_bind; [apply _|by apply dk_store, entry_ok_setAddress|].
      intros _ _. by kret.
    + kbind. intros l _. kbind. intros r _. by kret.
Qed.
#[local] Hint Resolve dk_getDirectoryEntry : keepdb.

Lemma dk_collect n i si ptr : dkeeps (collect_candidates n i si ptr) (fun _ => True).
Proof.
  revert i. induction n as [|n IH]; intros i; cbn [collect_candidates]; [by kret|].
  kbind. intros num _. kbind. intros p _. eapply keeps_bind; [apply _|apply IH|]. intros l _. by kret.
Qed.
#[local] Hint Resolve dk_collect : keepdb.

Lemma dk_candidates a : dkeeps (getReplacementCandidates a) (fun _ => True).
Proof.
  unfold getReplacementCandidates. kbind. intros [r lat] _. do 5 (kbind; intros ? _). kbind. intros l _.
  kbind. intros ptrs _. eapply keeps_bind; [apply _|by apply dk_modify|]. intros _ _. by kret.
Qed.

Lemma dk_setDirectoryEntry n p : dkeeps (setDirectoryEntry n p) (fun _ => True).
Proof. unfold setDirectoryEntry. kbind. intros l _. kbind. intros l' _. by apply dk_modify. Qed.
#[local] Hint Resolve dk_setDirectoryEntry : keepdb.

Lemma dk_replace_in_set n i si ra a : dkeeps (replace_in_set n i si ra a) (fun _ => True).
Proof.
  revert i. induction n as [|n IH]; intros i; cbn [replace_in_set]; [kfail|].
  kbind. intros num _. kbind. intros r _. kbind. intros e He. destruct (_ =? _); [|apply IH].
  eapply keeps_bind; [apply _|by apply dk_modify|]. intros _ _. kbind. intros p _. kbind. intros e' He'.
  eapply keeps_bind; [apply _|by apply dk_store, entry_ok_setAddress|]. intros _ _. kbind. intros _ _. by kret.
Qed.
#[local] Hint Resolve dk_replace_in_set : keepdb.

Lemma dk_replaceDirectoryEntry ra a m : dkeeps (replaceDirectoryEntry ra a m) (fun _ => True).
Proof. unfold replaceDirectoryEntry. do 3 (kbind; intros ? _). kbind. intros p _. by kret. Qed.

Lemma dk_invalidate_in_list b l a : dkeeps (invalidate_in_list b l a) (fun _ => True).
Proof.
  revert b. induction l as [|p l IH]; intros b; cbn [invalidate_in_list]; [kfail|].
  kbind. intros e He. destruct (_ =? _); [|apply IH].
  eapply keeps_bind; [apply _| |intros _ _; by apply dk_modify].
  apply dk_modify. intros d Hd. by apply map_Forall_delete.
Qed.

Lemma dk_invalidate a : dkeeps (invalidateDirectoryEntry a) (fun _ => True).
Proof. unfold invalidateDirectoryEntry. kbind. intros l _. apply dk_invalidate_in_list. Qed.
#[local] Hint Resolve dk_candidates dk_replaceDirectoryEntry dk_invalidate : keepdb.

(** ** What the NUCA cache promises to the controller: its operations terminate and keep it
    well formed *)

Class NucaCacheOk (N : Type) `{!NucaCache N} := {
  nuca_wf : N -> Prop;
  nuca_read_ok : forall n a t, nuca_wf n -> no_fuel_error (nuca_read n a t) /\
    forall l w b u n', nuca_read n a t = Ok (l, w, b, u, n') -> nuca_wf n';
  nuca_write_ok : forall n a d ev ea t c, nuca_wf n -> no_fuel_error (nuca_write n a d ev ea t c) /\
    forall ev' ea' b n', nuca_write n a d ev ea t c = Ok (ev', ea', b, n') -> nuca_wf n'
}.

(** ** Requests and replies of an address *)

(** The core that waits for an answer to a queued request; nullify requests have none. *)
Definition core_req (r : ShmemReq) : option Z :=
  match msg_type (r_msg r) with
  | EX_REQ | SH_REQ | UPGRADE_REQ => Some (msg_requester (r_msg r))
  | _ => None
  end.

Definition is_reply (t : msg_t) : bool :=
  match t with EX_REP | SH_REP | UPGRADE_REP => true | _ => false end.

(** The core that an event answers, for address [a]. *)
Definition reply_to (a : Z) (ev : event) : option Z :=
  match ev with
  | Send t L2_CACHE _ receiver address _ _ _ _ _ =>
      if is_reply t && (address =? a) then Some receiver else None
  | _ => None
  end.

Section cntlr_proofs.
Context {N : Type} `{!NucaCache N, !NucaCacheOk N, !CntlrCfg}.
Implicit Types (c : DramDirectoryCntlr N).
Local Abbreviation CM := (ST (DramDirectoryCntlr N)).

Definition cores c (a : Z) : list (option Z) := core_req <$> pending (c_queue c) a.
Definition replies c (a : Z) : list Z := omap (reply_to a) (c_out c).

Definition nuca_ok (n : option N) : Prop := match n with Some n => nuca_wf n | None => True end.

(** Entries are coherent, requests are queued under their own address, the NUCA cache is well
    formed. *)
Definition coh c : Prop :=
  dcoh (c_dir c) /\ (forall a r, r ∈ pending (c_queue c) a -> msg_address (r_msg r) = a) /\
  nuca_ok (m_nuca_cache c).
Definition same_view : relation (DramDirectoryCntlr N) := fun c c' =>
  forall a, cores c' a = cores c a /\ replies c' a = replies c a.

#[local] Instance same_view_preorder : PreOrder same_view.
Proof.
  split; [by intros c a|]. intros c1 c2 c3 H1 H2 a. destruct (H1 a), (H2 a). split; congruence.
Qed.

Local Abbreviation ckeeps := (keeps coh same_view).

Lemma ck_modify (f : DramDirectoryCntlr N -> DramDirectoryCntlr N) :
  (forall c, c_dir (f c) = c_dir c /\ c_queue (f c) = c_queue c /\ c_out (f c) = c_out c /\
     (m_nuca_cache (f c) = m_nuca_cache c \/ nuca_ok (m_nuca_cache (f c)))) ->
  ckeeps (modify f) (fun _ => True).
Proof.
  intros Hf. apply keeps_modify. intros c (H1 & H2 & H3). destruct (Hf c) as (Hd & Hq & Ho & Hn).
  unfold coh. rewrite Hd, Hq. split; [split_and!; try done; by destruct Hn as [->|]|]. intros a. unfold cores, replies. by rewrite Hq, Ho.
Qed.

Lemma ck_dir {A} (m : DM A) (Q : A -> Prop) : dkeeps m Q -> ckeeps (dir m) Q.
Proof.
  intros Hm c Hc. apply wp_zoom. eapply wp_mono; [by apply Hm, Hc|]. intros a d (Hd & _ & HQ).
  split_and!; try done. split; [done|apply Hc].
Qed.

Lemma ck_emit ev : (forall a, reply_to a ev = None) -> ckeeps (emit ev) (fun _ => True).
Proof.
  intros Hev. apply keeps_modify. intros c Hc. split; [done|]. intros a. split; [done|].
  unfold replies; cbn. rewrite omap_app. cbn. by rewrite Hev, app_nil_r.
Qed.

Lemma ck_entry p : ckeeps (entry p) entry_ok.
Proof. apply ck_dir, dk_deref. Qed.

Lemma ck_set_entry p e : entry_ok e -> ckeeps (set_entry p e) (fun _ => True).
Proof. intros He. by apply ck_dir, dk_store. Qed.

Hint Resolve ck_entry : keepdb.

Lemma ck_incr t : ckeeps (incrElapsedTime t) (fun _ => True).
Proof. unfold incrElapsedTime. kbind. intros o _. kbind. intros _ _. apply ck_modify; auto. Qed.

Lemma ck_updateElapsed t : ckeeps (updateElapsedTime t) (fun _ => True).
Proof. apply ck_modify. intros c. cbn beta. destruct (st_ltb (c_elapsed c) t); auto. Qed.

Lemma ck_perf_update p t r : ckeeps (perf_update p t r) (fun _ => True).
Proof. destruct p; [by apply ck_emit|by kret]. Qed.
Hint Resolve ck_incr ck_updateElapsed ck_perf_update : keepdb.

Lemma ck_updateShmemPerf m r : ckeeps (updateShmemPerf m r) (fun _ => True).
Proof. unfold updateShmemPerf. kbind. intros t _. apply ck_perf_update. Qed.

Lemma ck_send t to_ rq rv a d len w pf :
  is_reply t = false -> ckeeps (sendMsg t to_ rq rv a d len w pf) (fun _ => True).
Proof.
  intros Ht. unfold sendMsg. kbind. intros _ _. kbind. intros tm _. kbind. intros _ _.
  apply ck_emit. intros b. cbn. rewrite Ht. by destruct to_.
Qed.

Lemma ck_broadcast t to_ rq a d len pf : ckeeps (broadcastMsg t to_ rq a d len pf) (fun _ => True).
Proof. unfold broadcastMsg. kbind. intros _ _. kbind. intros tm _. kbind. intros _ _. by apply ck_emit. Qed.

Lemma ck_getEntry a m : ckeeps (getEntry a m) (fun _ => True).
Proof.
  unfold getEntry. eapply keeps_bind; [apply _|apply ck_dir, dk_getDirectoryEntry|]. intros [r lat] _.
  eapply keeps_bind; [apply _| |intros _ _; by kret]. destruct m; [apply ck_incr|by kret].
Qed.

Lemma ck_some_entry r : ckeeps (some_entry r) (fun _ => True).
Proof. destruct r; [by kret|kfail]. Qed.
Hint Resolve ck_updateShmemPerf ck_broadcast ck_getEntry ck_some_entry : keepdb.

Lemma ck_front a : ckeeps (q_front a) (fun _ => True).
Proof.
  intros c Hc. unfold wp, q_front, front. destruct (c_queue c !! a) as [[|]|]; cbn; [done| |done].
  by split_and!.
Qed.
Hint Resolve ck_front : keepdb.

Lemma no_fuel_home h a : no_fuel_error (getHome h a).
Proof.
  unfold no_fuel_error, getHome, module_num. destruct (_ =? _); cbn; [done|].
  destruct (_ && _); cbn; [|done]. apply no_fuel_aget.
Qed.

Lemma ck_home a : ckeeps (home a) (fun _ => True).
Proof. eapply keeps_mono; [apply keeps_lift; [apply _|apply no_fuel_home]|done]. Qed.
Hint Resolve ck_home : keepdb.

Lemma ck_nuca : ckeeps (gets m_nuca_cache) nuca_ok.
Proof. intros c Hc. split_and!; try done. apply Hc. Qed.

Lemma ck_perf_updates p l : ckeeps (perf_updates p l) (fun _ => True).
Proof. induction l as [|[t r] l IH]; cbn [perf_updates]; [by kret|]. kbind. intros _ _. apply IH. Qed.
Hint Resolve ck_perf_updates : keepdb.

Lemma ck_sendDataToNUCA a rq d ct : ckeeps (sendDataToNUCA a rq d ct) (fun _ => True).
Proof.
  unfold sendDataToNUCA. eapply keeps_bind; [apply _|apply ck_nuca|]. intros [n|] Hn; [|by kret]. kbind. intros now _.
  eapply keeps_bind; [apply _|apply keeps_lift; [apply _|by apply nuca_write_ok]|].
  intros [[[ev ea] eb] n'] Hw. eapply keeps_bind; [apply _|apply ck_modify|].
  { intros c. split_and!; try done. right. by eapply nuca_write_ok. }
  intros _ _.
  destruct ev; [|by kret]. kbind. intros h _. by apply ck_send.
Qed.

Lemma ck_sendDataToDram a rq d : ckeeps (sendDataToDram a rq d) (fun _ => True).
Proof.
  unfold sendDataToDram. kbind. intros [n|] _; [apply ck_sendDataToNUCA|].
  kbind. intros h _. by apply ck_send.
Qed.
Hint Resolve ck_sendDataToNUCA ck_sendDataToDram : keepdb.

Lemma ck_send_to_sharers i l mk rq a :
  (forall i x t pf, mk i x = Some (t, pf) -> is_reply t = false) ->
  ckeeps (send_to_sharers i l mk rq a) (fun _ => True).
Proof.
  intros Hmk. revert i. induction l as [|x l IH]; intros i; cbn [send_to_sharers]; [by kret|].
  eapply (keeps_bind _ _ _ _ (fun _ => True)); [|intros _ _; apply IH].
  destruct (mk i x) as [[t pf]|] eqn:E; [|by kret]. apply ck_send. by eapply Hmk.
Qed.

Lemma ck_take_ownership p e rq d :
  entry_ok e -> m_dstate e = UNCACHED -> d <> DOWNED -> d <> UNCACHED ->
  ckeeps (take_ownership p e rq d) (fun _ => True).
Proof.
  intros He Hd H1 H2. unfold take_ownership. kbind. intros hw _. kbind. intros [r e1] E1.
  kbind. intros _ Hr. kbind. intros e2 E2. apply ck_set_entry. subst r.
  by eapply entry_ok_take.
Qed.

(** ** The state of a request being served *)

(** [K] is, for every address, the cores answered so far followed by those still waiting. *)
Definition Base (K : Z -> list Z) c : Prop :=
  coh c /\ forall a, replies c a ++ omap id (cores c a) = K a.

(** The request at the front of the queue of [addr] waits for core [x] (None: a nullify
    request); fewer than [n] requests are queued behind it. *)
Definition Ready (K : Z -> list Z) (addr : Z) (x : option Z) (n : nat) c : Prop :=
  Base K c /\ exists rest, cores c addr = x :: rest /\ (length rest < n)%nat.

(** The front of the queue has been answered, but not dequeued yet. *)
Definition Answered (K : Z -> list Z) (addr : Z) (n : nat) c : Prop :=
  coh c /\ exists x rest, cores c addr = x :: rest /\ (length rest < n)%nat /\
    forall a, replies c a ++ omap id (if decide (a = addr) then rest else cores c a) = K a.

(** What a handler may assume of [processNextReqFromL2Cache] with fuel [n]. *)
Definition next_ok (n : nat) (next : Z -> CM unit) : Prop :=
  (forall K addr c, Answered K addr n c -> wp (next addr) (fun _ => Base K) c) /\
  (forall addr c, coh c -> length (cores c addr) = 1%nat -> (0 < n)%nat ->
     wp (next addr) (fun _ c' => coh c' /\ cores c' addr = [] /\
       (forall b, b <> addr -> cores c' b = cores c b) /\ forall b, replies c' b = replies c b) c).

Lemma omap_cores c a : omap core_req (pending (c_queue c) a) = omap id (cores c a).
Proof.
  unfold cores. induction (pending (c_queue c) a) as [|r l IH]; [done|]. cbn. rewrite IH. by destruct (core_req r).
Qed.

Lemma base_view K c c' : coh c' -> same_view c c' -> Base K c -> Base K c'.
Proof. intros Hc Hv [_ HK]. split; [done|]. intros a. destruct (Hv a) as [-> ->]. apply HK. Qed.

Lemma ready_view K addr x n c c' : coh c' -> same_view c c' -> Ready K addr x n c -> Ready K addr x n c'.
Proof.
  intros Hc Hv (HB & rest & Hr & Hn). split; [by eapply base_view|]. exists rest.
  destruct (Hv addr) as [-> _]. done.
Qed.

Lemma answered_view K addr n c c' : coh c' -> same_view c c' -> Answered K addr n c -> Answered K addr n c'.
Proof.
  intros Hc Hv (_ & x & rest & Hr & Hn & HK). split; [done|]. exists x, rest.
  rewrite (proj1 (Hv _)). split_and!; try done. intros b. rewrite <- HK, (proj2 (Hv b)). by rewrite (proj1 (Hv b)).
Qed.

(** Stepping over an operation that keeps the view. *)
Lemma wp_ready {A B} (m : CM A) (f : A -> CM B) Q R K addr x n c :
  ckeeps m Q -> Ready K addr x n c ->
  (forall a c', Ready K addr x n c' -> Q a -> wp (f a) R c') -> wp (mbind f m) R c.
Proof.
  intros Hm Hc Hf. apply wp_bind. eapply wp_mono; [apply Hm, Hc|]. intros a c' (Hco & Hv & HQ).
  apply Hf; [by eapply ready_view|done].
Qed.

Lemma wp_ready_last {A} (m : CM A) Q K addr x n c :
  ckeeps m Q -> Ready K addr x n c -> wp m (fun _ => Base K) c.
Proof.
  intros Hm Hc. eapply wp_mono; [apply Hm, Hc|]. intros a c' (Hco & Hv & HQ).
  eapply base_view; [done..|apply Hc].
Qed.

Lemma wp_base {A B} (m : CM A) (f : A -> CM B) Q R K c :
  ckeeps m Q -> Base K c -> (forall a c', Base K c' -> Q a -> wp (f a) R c') -> wp (mbind f m) R c.
Proof.
  intros Hm Hc Hf. apply wp_bind. eapply wp_mono; [apply Hm, Hc|]. intros a c' (Hco & Hv & HQ).
  apply Hf; [by eapply base_view|done].
Qed.

Lemma ready_nullified K addr n c : Ready K addr None n c -> Answered K addr n c.
Proof.
  intros ([Hc HK] & rest & Hr & Hn). split; [done|]. exists None, rest. split_and!; try done.
  intros a. rewrite <- HK. destruct (decide (a = addr)) as [->|]; [by rewrite Hr|done].
Qed.

(** Answering the core at the front. *)
Lemma wp_reply K addr x n c t d len w pf :
  is_reply t = true -> Ready K addr (Some x) n c ->
  wp (sendMsg t L2_CACHE x x addr d len w pf) (fun _ => Answered K addr n) c.
Proof.
  intros Ht Hc0. unfold sendMsg. do 3 (eapply wp_ready; [kprim|exact Hc0|]; clear Hc0; intros ? c0 Hc0 _; clear c; rename c0 into c).
  destruct Hc0 as ([Hc HK] & rest & Hr & Hn). unfold emit. apply wp_modify.
  split; [done|]. exists (Some x), rest. split_and!; try done.
  intros b. rewrite <- HK. unfold replies; cbn. rewrite omap_app; cbn. rewrite Ht; cbn.
  destruct (decide (b = addr)) as [->|].
  - rewrite Z.eqb_refl, Hr. cbn. by rewrite <- app_assoc.
  - destruct (Z.eqb_spec addr b); [congruence|]. by rewrite app_nil_r.
Qed.

Section with_next.
Context (n : nat) (next : Z -> CM unit) (Hnext : next_ok n next).

Lemma wp_reply_and_next K addr x c t d w pf :
  is_reply t = true -> Ready K addr (Some x) n c ->
  wp (reply_and_next next t x addr d w pf) (fun _ => Base K) c.
Proof.
  intros Ht Hc. apply wp_bind. eapply wp_mono; [by apply wp_reply|]. intros u c' Ha.
  by apply Hnext.
Qed.

Lemma wp_front K addr x c :
  Ready K addr x n c -> wp (q_front addr) (fun r c' => c' = c /\ core_req r = x /\ msg_address (r_msg r) = addr) c.
Proof.
  intros ([(_ & Hq & _) _] & rest & Hr & _). unfold wp, q_front. specialize (Hq addr).
  unfold cores, pending in Hr, Hq. unfold front.
  destruct (c_queue c !! addr) as [[|r l]|]; cbn in *; [done| |done]. simplify_eq.
  split_and!; [done..|]. apply Hq. by left.
Qed.

Lemma wp_set_front K addr x c r :
  Ready K addr x n c -> core_req r = x -> msg_address (r_msg r) = addr ->
  wp (q_set_front addr r) (fun _ => Ready K addr x n) c.
Proof.
  intros ([(Hd & Hq & Hnu) HK] & rest & Hr & Hn) Hx Ha. apply wp_modify.
  assert (forall a, cores (set_queue (set_front (c_queue c) addr r) c) a = cores c a) as Hcores.
  { intros a. unfold cores; cbn. rewrite pending_set_front. destruct (decide (addr = a)) as [<-|]; [|done].
    unfold cores in Hr. destruct (pending (c_queue c) addr) as [|r0 l]; [done|].
    injection Hr as Hr0 Hr1. rewrite !fmap_cons. f_equal. congruence. }
  split.
  - split; [|intros a; rewrite Hcores; apply HK]. split_and!; [done| |done]. intros a r0. cbn.
    rewrite pending_set_front. destruct (decide (addr = a)) as [<-|]; [|apply Hq].
    specialize (Hq addr). destruct (pending (c_queue c) addr) as [|r1 l]; [apply Hq|].
    intros [->|Hin]%elem_of_cons; [done|]. apply Hq. by right.
  - exists rest. by rewrite Hcores.
Qed.

(** Step over one operation of a handler; [Hc] is the [Ready] hypothesis. *)
Ltac rstep Hc :=
  eapply wp_ready; [kprim|exact Hc|]; clear Hc;
  let c' := fresh "c" in intros ? c' Hc ?; cbn beta.
Ltac rlast Hc := eapply wp_ready_last; [|exact Hc].

Lemma wp_retrieve_memory K addr x c p pf :
  Ready K addr (Some x) n c -> wp (retrieve_from_memory x addr p pf) (fun _ => Base K) c.
Proof.
  intros Hc. unfold retrieve_from_memory. rstep Hc. rstep Hc.
  apply wp_bind. eapply wp_mono; [by eapply wp_front|]. intros r c' (-> & Hr & Hra). cbn beta.
  rstep Hc. destruct (_ && _ && _ && _).
  - apply wp_bind. eapply wp_mono; [by eapply wp_set_front|]. intros u c' Hc'. clear Hc.
    rlast Hc'. by apply ck_send.
  - apply wp_bind. eapply wp_mono; [by eapply wp_set_front|]. intros u c' Hc'. clear Hc.
    rstep Hc'. rlast Hc'. by apply ck_send.
Qed.

Lemma wp_retrieve K addr x c t d pf :
  is_reply t = true -> Ready K addr (Some x) n c ->
  wp (retrieveDataAndSendToL2Cache next t x addr d pf) (fun _ => Base K) c.
Proof.
  intros Ht Hc. unfold retrieveDataAndSendToL2Cache. rstep Hc. rstep Hc. destruct d as [d|].
  - rstep Hc. eapply wp_ready; [by apply ck_set_entry, entry_ok_setForwarder|exact Hc|].
    intros u c' Hc' _. by apply wp_reply_and_next.
  - eapply wp_ready; [apply ck_nuca|exact Hc|]. clear Hc. intros [nu|] d1 Hc Hnu; [|by apply wp_retrieve_memory].
    rstep Hc. eapply wp_ready; [apply keeps_lift; [apply _|by apply nuca_read_ok]|exact Hc|]. clear Hc.
    intros [[[[lat hw] buf] ups] nu'] c' Hc Hr. cbn beta iota.
    eapply wp_ready; [apply ck_modify|exact Hc|].
    { intros cc. split_and!; try done. right. by eapply nuca_read_ok. }
    clear Hc. intros u cx Hc _. rstep Hc.
    rstep Hc. destruct (negb _); [by apply wp_reply_and_next|by apply wp_retrieve_memory].
Qed.

Lemma ck_pick best l : ckeeps (pick_candidate best l) (fun _ => True).
Proof.
  revert best. induction l as [|p l IH]; intros best; cbn [pick_candidate]; [by kret|].
  kbind. intros e He. eapply (keeps_bind _ _ _ _ (fun _ => True)).
  { destruct best as [b|]; [|by kret]. kbind. intros eb Heb. by kret. }
  intros better _. kbind. intros m _. apply IH.
Qed.

(** A nullify request alone in its queue leaves the other queues alone. *)
Lemma wp_nullify_single r c :
  coh c -> cores c (msg_address (r_msg r)) = [None] -> (0 < n)%nat ->
  wp (processNullifyReq next r) (fun _ c' => coh c' /\
    (forall b, omap id (cores c' b) = omap id (cores c b)) /\
    (forall b, b <> msg_address (r_msg r) -> cores c' b = cores c b) /\
    forall b, replies c' b = replies c b) c.
Proof.
  intros Hc Hq Hn. set (addr := msg_address (r_msg r)) in *.
  (* every branch but UNCACHED keeps the view *)
  assert (forall (m : CM unit) Q c0, ckeeps m Q -> coh c0 -> same_view c c0 ->
    wp m (fun _ c' => coh c' /\ (forall b, omap id (cores c' b) = omap id (cores c b)) /\
      (forall b, b <> addr -> cores c' b = cores c b) /\ forall b, replies c' b = replies c b) c0) as Hkeep.
  { intros m Q c0 Hm Hc0 Hv. eapply wp_mono; [by apply Hm|]. intros a c' (Hco & Hv' & _).
    split; [done|]. assert (same_view c c') as Hcc by (by etrans).
    split_and!; intros b; destruct (Hcc b) as [Hb1 Hb2]; by rewrite ?Hb1, ?Hb2. }
  unfold processNullifyReq. fold addr.
  apply wp_bind. eapply wp_mono; [by apply ck_getEntry|]. intros o c1 (Hc1 & Hv1 & _).
  apply wp_bind. eapply wp_mono; [by apply ck_some_entry|]. intros p c2 (Hc2 & Hv2 & _).
  apply wp_bind. eapply wp_mono; [by apply ck_entry|]. intros e c3 (Hc3 & Hv3 & He).
  assert (same_view c c3) as Hv by (etrans; [exact Hv1|]; by etrans).
  destruct (m_dstate e).
  - apply wp_bind. eapply wp_mono; [by apply (ck_dir _ _ (dk_invalidate addr))|]. intros u c4 (Hc4 & Hv4 & _).
    assert (same_view c c4) as Hv' by (by etrans).
    eapply wp_mono; [apply Hnext; [done|by rewrite (proj1 (Hv' addr)), Hq|done]|].
    intros u' c' (Hco & H1 & H2 & H3). split; [done|]. split_and!.
    + intros b. destruct (decide (b = addr)) as [->|Hb]; [by rewrite H1, Hq|].
      rewrite H2 by done. by rewrite (proj1 (Hv' b)).
    + intros b Hb. rewrite H2 by done. apply Hv'.
    + intros b. rewrite H3. apply Hv'.
  - cbn. eapply Hkeep; [apply ck_send_to_sharers; intros; by simplify_eq|done..].
  - by eapply wp_fail.
  - eapply Hkeep; [by apply ck_send|done..].
  - eapply Hkeep; [by apply ck_send|done..].
Qed.

Lemma wp_nullify K r c :
  Ready K (msg_address (r_msg r)) None n c ->
  wp (processNullifyReq next r) (fun _ => Base K) c.
Proof.
  intros Hc. unfold processNullifyReq. rstep Hc. rstep Hc. rstep Hc.
  match goal with |- context [m_dstate ?e] => destruct (m_dstate e) end.
  - eapply wp_ready; [apply (ck_dir _ _ (dk_invalidate _))|exact Hc|]. intros u c' Hc' _.
    by apply Hnext, ready_nullified.
  - cbn. rlast Hc. apply ck_send_to_sharers. intros; by simplify_eq.
  - by apply wp_fail.
  - rlast Hc. by apply ck_send.
  - rlast Hc. by apply ck_send.
Qed.

(** Enqueuing a nullify request on a queue that then has one element. *)
Lemma enqueue_nullify K addr x c r a :
  Ready K addr x n c -> core_req r = None -> msg_address (r_msg r) = a ->
  let c' := set_queue (enqueue (c_queue c) a r) c in
  size (c_queue c') a = 1 ->
  a <> addr /\ Ready K addr x n c' /\ cores c' a = [None].
Proof.
  intros ([(Hd & Hq & Hnu) HK] & rest & Hr & Hn) Hcr Ha0 c' Hsz. subst c'.
  rewrite size_pending in Hsz. cbn in Hsz. rewrite pending_enqueue, decide_True, length_app in Hsz by done.
  cbn in Hsz. assert (pending (c_queue c) a = []) as Ha by (destruct (pending (c_queue c) a); [done|cbn in Hsz; lia]).
  assert (a <> addr) as Hne. { intros ->. unfold cores in Hr. by rewrite Ha in Hr. }
  assert (forall b, cores (set_queue (enqueue (c_queue c) a r) c) b
            = if decide (a = b) then [None] else cores c b) as Hcores.
  { intros b. unfold cores; cbn. rewrite pending_enqueue. destruct (decide (a = b)); [|done].
    rewrite Ha. cbn. by rewrite Hcr. }
  split; [done|]. rewrite Hcores, decide_True by done. split; [|done]. split.
  - split.
    { split_and!; [done| |done]. intros b r0. cbn. rewrite pending_enqueue. destruct (decide (a = b)) as [<-|]; [|apply Hq].
      rewrite Ha. by intros ->%list_elem_of_singleton. }
    intros b. rewrite Hcores. destruct (decide (a = b)) as [<-|]; [|apply HK].
    rewrite <- HK. unfold cores. rewrite Ha. done.
  - exists rest. rewrite Hcores, decide_False by done. done.
Qed.

Lemma wp_allocate K r x c :
  Ready K (msg_address (r_msg r)) x n c ->
  wp (processDirectoryEntryAllocationReq next r) (fun _ => Ready K (msg_address (r_msg r)) x n) c.
Proof.
  intros Hc. unfold processDirectoryEntryAllocationReq. rstep Hc.
  eapply wp_ready; [apply (ck_dir _ _ (dk_candidates _))|exact Hc|]. clear Hc. intros l d1 Hc _.
  eapply wp_ready; [apply ck_pick|exact Hc|]. clear Hc. intros best d2 Hc _.
  rstep Hc. rstep Hc. eapply wp_ready; [apply ck_modify; auto|exact Hc|]. clear Hc. intros u d4 Hc _.
  eapply wp_ready; [apply (ck_dir _ _ (dk_replaceDirectoryEntry _ _ _))|exact Hc|]. clear Hc.
  intros [p lat] d5 Hc _. cbn beta iota. rstep Hc.
  eapply wp_ready; [apply keeps_lift; [apply _|done]|exact Hc|]. clear Hc. intros nr d6 Hc Hnr.
  cbn in Hnr. simplify_eq. unfold q_enqueue. apply wp_bind, wp_modify. unfold q_size. apply wp_bind, wp_gets.
  apply wp_bind, wp_assert. intros Hsz%Z.eqb_eq.
  edestruct enqueue_nullify as (Hne & Hc' & Hq); [exact Hc| | |exact Hsz|]; [done|done|]. clear Hc.
  apply wp_bind. pose proof Hc' as ([Hco HK] & rest & Hr & Hn).
  eapply wp_mono; [apply wp_nullify_single; [done|done|lia]|].
  intros u' c' (Hco' & Hs1 & Hs2 & Hs3). apply wp_ret. split.
  - split; [done|]. intros b. rewrite Hs1, Hs3. apply HK.
  - exists rest. rewrite Hs2 by (cbn; congruence). done.
Qed.

Lemma wp_find_or_allocate {B} K r x c (f : nat -> CM B) R :
  Ready K (msg_address (r_msg r)) x n c ->
  (forall p c', Ready K (msg_address (r_msg r)) x n c' -> wp (f p) R c') ->
  wp (mbind f (find_or_allocate next r)) R c.
Proof.
  intros Hc Hf. apply wp_bind. unfold find_or_allocate. rstep Hc.
  match goal with |- context [match ?o with _ => _ end] => destruct o as [p|] end.
  - by apply wp_ret, Hf.
  - eapply wp_mono; [by apply wp_allocate|]. auto.
Qed.

Lemma wp_Ex K r c d :
  Ready K (msg_address (r_msg r)) (Some (msg_requester (r_msg r))) n c ->
  wp (processExReqFromL2Cache next r d) (fun _ => Base K) c.
Proof.
  intros Hc. unfold processExReqFromL2Cache. rstep Hc.
  eapply wp_find_or_allocate; [exact Hc|]. clear Hc. intros p d1 Hc.
  eapply wp_ready; [kprim|exact Hc|]. clear Hc. intros e d2 Hc He. cbn beta. rstep Hc.
  destruct (m_dstate e) eqn:Ed.
  - eapply wp_ready; [by apply ck_take_ownership|exact Hc|]. intros u d4 Hc4 _. by apply wp_retrieve.
  - rstep Hc. cbn. rlast Hc. apply ck_send_to_sharers. intros; by simplify_eq.
  - by apply wp_fail.
  - rstep Hc. rlast Hc. by apply ck_send.
  - rstep Hc. rlast Hc. by apply ck_send.
Qed.

Lemma wp_Sh K r c d :
  Ready K (msg_address (r_msg r)) (Some (msg_requester (r_msg r))) n c ->
  wp (processShReqFromL2Cache next r d) (fun _ => Base K) c.
Proof.
  intros Hc. unfold processShReqFromL2Cache. rstep Hc.
  eapply wp_find_or_allocate; [exact Hc|]. clear Hc. intros p d1 Hc.
  eapply wp_ready; [kprim|exact Hc|]. clear Hc. intros e d2 Hc He. cbn beta. rstep Hc.
  destruct (m_dstate e) eqn:Ed.
  - destruct (bool_decide _).
    + eapply wp_ready; [by apply ck_take_ownership|exact Hc|]. intros u d4 Hc4 _. by apply wp_retrieve.
    + eapply wp_ready; [by apply ck_take_ownership|exact Hc|]. intros u d4 Hc4 _. by apply wp_retrieve.
  - eapply wp_ready; [kprim|exact Hc|]. clear Hc. intros has d3 Hc _. destruct has.
    + eapply wp_ready; [apply ck_modify; auto|exact Hc|]. intros u d4 Hc4 _. by apply wp_retrieve.
    + rstep Hc. eapply wp_ready; [kprim|exact Hc|]. clear Hc. intros [add e1] d4 Hc Ha. cbn beta iota.
      assert (entry_ok e1) as He1 by (by eapply entry_ok_addSharer).
      eapply wp_ready; [by apply ck_set_entry|exact Hc|]. clear Hc. intros u d5 Hc _.
      destruct add; [by apply wp_retrieve|].
      eapply wp_ready; [kprim|exact Hc|]. clear Hc. intros [sh e2] d6 Hc Hg. cbn beta iota.
      apply getOneSharer_ok in Hg as (_ & _ & G1 & G2 & G3).
      eapply wp_ready; [apply ck_set_entry; by eapply entry_ok_ext|exact Hc|]. clear Hc. intros u' d7 Hc _.
      rlast Hc. by apply ck_send.
  - by apply wp_fail.
  - rstep Hc. rlast Hc. by apply ck_send.
  - rstep Hc. rstep Hc. rlast Hc. by apply ck_send.
Qed.

Lemma wp_Upgrade K r c d :
  Ready K (msg_address (r_msg r)) (Some (msg_requester (r_msg r))) n c ->
  wp (processUpgradeReqFromL2Cache next r d) (fun _ => Base K) c.
Proof.
  intros Hc. unfold processUpgradeReqFromL2Cache. rstep Hc.
  eapply wp_find_or_allocate; [exact Hc|]. clear Hc. intros p d1 Hc.
  eapply wp_ready; [kprim|exact Hc|]. clear Hc. intros e d2 Hc He. cbn beta.
  unfold getSharersList. cbv iota. fold (sharers e). rstep Hc.
  assert (forall e', entry_ok e' -> forall c', Ready K (msg_address (r_msg r)) (Some (msg_requester (r_msg r))) n c' ->
    wp (_ ← sendMsg UPGRADE_REP L2_CACHE (msg_requester (r_msg r)) (msg_requester (r_msg r))
          (msg_address (r_msg r)) None 0 W_UNKNOWN (msg_perf (r_msg r));
        _ ← set_entry p e'; next (msg_address (r_msg r))) (fun _ => Base K) c') as Hsend.
  { intros e' He' c' Hc'. apply wp_bind. eapply wp_mono; [by apply wp_reply|]. intros u c'' Ha.
    apply wp_bind. eapply wp_mono; [apply (ck_set_entry p e' He'); apply Ha|].
    intros u' c3 (Hco & Hv & _). by eapply Hnext, answered_view. }
  assert ((m_dstate e = DMODIFIED \/ m_dstate e = DEXCLUSIVE) ->
    forall c', Ready K (msg_address (r_msg r)) (Some (msg_requester (r_msg r))) n c' ->
    wp (s0 ← lift_res (aget (sharers e) 0);
        if s0 =? msg_requester (r_msg r) then
          _ ← assertM (m_owner_id e =? msg_requester (r_msg r));
          _ ← sendMsg UPGRADE_REP L2_CACHE (msg_requester (r_msg r)) (msg_requester (r_msg r))
            (msg_address (r_msg r)) None 0 W_UNKNOWN (msg_perf (r_msg r));
          _ ← set_entry p (setDState e DMODIFIED); next (msg_address (r_msg r))
        else sendMsg FLUSH_REQ L2_CACHE (msg_requester (r_msg r)) (m_owner_id e)
               (msg_address (r_msg r)) None 0 W_UNKNOWN (msg_perf (r_msg r)))
      (fun _ => Base K) c') as Howned.
  { intros Hd c' Hc'. clear Hc. rename Hc' into Hc. rstep Hc. destruct (_ =? _).
    - rstep Hc. apply Hsend; [|done]. unfold entry_ok in *. destruct Hd as [Hd|Hd]; by rewrite Hd in He.
    - rlast Hc. by apply ck_send. }
  destruct (m_dstate e) eqn:Ed.
  - rstep Hc. eapply wp_ready; [by apply ck_take_ownership|exact Hc|]. intros u d4 Hc4 _. by apply wp_retrieve.
  - case_bool_decide as Hl.
    + eapply wp_ready; [kprim|exact Hc|]. clear Hc. intros e1 d3 Hc [-> _]%entry_setOwner_ok.
      eapply wp_ready; [by apply ck_set_entry, entry_ok_upgrade|exact Hc|]. clear Hc. intros u d4 Hc _.
      apply wp_bind. eapply wp_mono; [by apply wp_reply|]. intros u' c' Ha. by apply Hnext.
    + eapply wp_ready; [kprim|exact Hc|]. clear Hc. intros has d3 Hc _.
      rlast Hc. apply ck_send_to_sharers. intros i x t pf. destruct (x =? _); [done|].
      intros. simplify_eq. by destruct (_ && _).
  - by apply wp_fail.
  - apply Howned; [by left|done].
  - apply Howned; [by right|done].
Qed.

Lemma core_req_some r x : core_req r = Some x -> x = msg_requester (r_msg r).
Proof. unfold core_req. destruct (msg_type (r_msg r)); naive_solver. Qed.

Lemma wp_process_front K addr r c :
  Ready K addr (core_req r) n c -> msg_address (r_msg r) = addr ->
  wp (process_front next r) (fun _ => Base K) c.
Proof.
  intros Hc <-. unfold process_front, core_req in *.
  destruct (msg_type (r_msg r)); try (by apply wp_fail); [by apply wp_Ex|by apply wp_Sh|by apply wp_Upgrade].
Qed.

Lemma core_req_update r t : core_req (r_updateTime r t) = core_req r.
Proof. unfold r_updateTime. by destruct (st_gtb _ _). Qed.
Lemma address_update r t : msg_address (r_msg (r_updateTime r t)) = msg_address (r_msg r).
Proof. unfold r_updateTime. by destruct (st_gtb _ _). Qed.

(** The request at the front, with its time updated. *)
Lemma wp_update_front {B} K addr x c t (f : ShmemReq -> CM B) R :
  Ready K addr x n c ->
  (forall r c', Ready K (msg_address (r_msg r)) (core_req r) n c' -> core_req r = x ->
     msg_address (r_msg r) = addr -> wp (f r) R c') ->
  wp (mbind f (update_front_time addr t)) R c.
Proof.
  intros Hc Hf. apply wp_bind. unfold update_front_time.
  apply wp_bind. eapply wp_mono; [by eapply wp_front|]. intros r c' (-> & Hr & Ha). cbn beta.
  apply wp_bind. eapply wp_mono; [apply wp_set_front; [exact Hc|by rewrite core_req_update|by rewrite address_update]|].
  intros u d1 Hd1. rstep Hd1. apply wp_ret. apply Hf; rewrite ?core_req_update, ?address_update; try done.
  by rewrite Hr, Ha.
Qed.

(** The handlers of requests on the front of the queue. *)
Lemma wp_Ex_front K r c d :
  Ready K (msg_address (r_msg r)) (core_req r) n c -> msg_type (r_msg r) = EX_REQ ->
  wp (processExReqFromL2Cache next r d) (fun _ => Base K) c.
Proof. unfold core_req. intros Hc Ht. rewrite Ht in Hc. by apply wp_Ex. Qed.
Lemma wp_Sh_front K r c d :
  Ready K (msg_address (r_msg r)) (core_req r) n c -> msg_type (r_msg r) = SH_REQ ->
  wp (processShReqFromL2Cache next r d) (fun _ => Base K) c.
Proof. unfold core_req. intros Hc Ht. rewrite Ht in Hc. by apply wp_Sh. Qed.
Lemma wp_Upgrade_front K r c d :
  Ready K (msg_address (r_msg r)) (core_req r) n c -> msg_type (r_msg r) = UPGRADE_REQ ->
  wp (processUpgradeReqFromL2Cache next r d) (fun _ => Base K) c.
Proof. unfold core_req. intros Hc Ht. rewrite Ht in Hc. by apply wp_Upgrade. Qed.

(** ** Replies *)

Lemma no_sharers e : getNumSharers e = 0 -> sharers e = [].
Proof. rewrite getNumSharers_length. destruct (sharers e); [done|cbn; lia]. Qed.

(** Between two messages: at most [n] requests wait for [addr]. *)
Definition Waiting (K : Z -> list Z) (addr : Z) c : Prop :=
  Base K c /\ (length (cores c addr) <= n)%nat.

Lemma wp_waiting {A B} (m : CM A) (f : A -> CM B) Q R K addr c :
  ckeeps m Q -> Waiting K addr c ->
  (forall a c', Waiting K addr c' -> Q a -> wp (f a) R c') -> wp (mbind f m) R c.
Proof.
  intros Hm [Hc Hl] Hf. apply wp_bind. eapply wp_mono; [apply Hm, Hc|]. intros a c' (Hco & Hv & HQ).
  apply Hf; [|done]. split; [by eapply base_view|]. by rewrite (proj1 (Hv addr)).
Qed.

Ltac wif := match goal with |- wp (if ?b then _ else _) _ _ => destruct b end.
Ltac wstep Hc :=
  eapply wp_waiting; [kprim|exact Hc|]; clear Hc;
  let c' := fresh "c" in intros ? c' Hc ?; cbn beta.

(** The test of the queue size at the end of a reply handler. *)
Lemma wp_if_requests {A} K addr c (t : Z -> bool) (m1 m2 : CM A) R :
  Waiting K addr c ->
  (forall z, 0 < z -> t z = true) -> t 0 = false ->
  (forall x c', Ready K addr x n c' -> wp m1 R c') -> (Base K c -> wp m2 R c) ->
  wp (z ← q_size addr; if t z then m1 else m2) R c.
Proof.
  intros [HB Hl] Ht Ht0 H1 H2. apply wp_bind, wp_gets. rewrite size_pending. unfold cores in Hl.
  rewrite length_fmap in Hl. destruct (pending (c_queue c) addr) as [|r l] eqn:E.
  - change (Z.of_nat (length [])) with 0. rewrite Ht0. by apply H2.
  - rewrite Ht by (cbn; lia). apply (H1 (core_req r)). split; [done|].
    exists (core_req <$> l). unfold cores. rewrite E. split; [done|]. rewrite length_fmap. cbn in Hl. lia.
Qed.

(** A sharer has left the line. *)
Lemma entry_ok_left e id e1 e2 :
  entry_ok e -> removeSharer e id = Ok e1 -> sharers e2 = sharers e1 -> m_dstate e2 = m_dstate e ->
  entry_ok (if getNumSharers e2 =? 0 then setDState e2 UNCACHED else e2).
Proof.
  intros He Hrm Hs Hd. destruct (entry_ok_removeSharer e id e1 He Hrm) as (H1 & H2 & H3).
  assert (getNumSharers e2 = getNumSharers e1) as Hn by (rewrite !getNumSharers_length; by rewrite Hs).
  rewrite Hn. destruct (Z.eqb_spec (getNumSharers e1) 0) as [Hz|Hz].
  - apply entry_ok_uncached. rewrite Hs. by apply H1.
  - unfold entry_ok. rewrite Hd, Hs. destruct (decide (m_dstate e = DSHARED)) as [E|E]; [|by apply H3 in E].
    rewrite E. by apply H2.
Qed.

Lemma wp_InvRep K addr sender m c :
  Waiting K addr c -> msg_address m = addr ->
  wp (processInvRepFromL2Cache next sender m) (fun _ => Base K) c.
Proof.
  intros Hc Ha. unfold processInvRepFromL2Cache. rewrite Ha. wstep Hc. wstep Hc.
  eapply wp_waiting; [kprim|exact Hc|]. clear Hc. intros e d1 Hc He. cbn beta. wstep Hc.
  eapply wp_waiting; [kprim|exact Hc|]. clear Hc. intros e1 d2 Hc He1. cbn beta zeta.
  set (e2 := if m_forwarder_id e1 =? sender then setForwarder e1 INVALID_CORE_ID else e1).
  set (e3 := if getNumSharers e2 =? 0 then setDState e2 UNCACHED else e2).
  assert (entry_ok e3) as He3.
  { apply (entry_ok_left e sender e1); [done|done| |]; subst e2;
      destruct (m_forwarder_id e1 =? sender); try done; by apply removeSharer_ok in He1 as (_ & ? & _). }
  eapply wp_waiting; [by apply ck_set_entry|exact Hc|]. clear Hc. intros u d3 Hc _.
  eapply wp_if_requests; [exact Hc|intros; by apply Z.ltb_lt|done| |by intros; apply wp_ret]. clear Hc.
  intros x d4 Hc. rstep Hc. eapply wp_update_front; [exact Hc|]. clear Hc. intros r d5 Hc Hx Hra.
  destruct (msg_type (r_msg r)) eqn:Et.
  2: wif; [rstep Hc; by apply wp_Ex_front|apply wp_ret, Hc].
  2: wif; [apply wp_ret, Hc|]; wif; [apply wp_ret, Hc|]; rstep Hc; by apply wp_Sh_front.
  2: { wif.
       - rstep Hc. wif; [rstep Hc; by apply wp_Upgrade_front|apply wp_ret, Hc].
       - destruct (getNumSharers e3 =? 0) eqn:Ez; [|apply wp_ret, Hc].
         eapply wp_ready; [apply ck_set_entry, entry_ok_uncached, no_sharers; by apply Z.eqb_eq|exact Hc|].
         clear Hc. intros u' d6 Hc _. rstep Hc. by apply wp_Upgrade_front. }
  all: wif; [rstep Hc; apply wp_nullify; unfold core_req in Hc; by rewrite Et in Hc|apply wp_ret, Hc].
Qed.

Lemma wp_FlushRep K addr sender m c :
  Waiting K addr c -> msg_address m = addr ->
  wp (processFlushRepFromL2Cache next sender m) (fun _ => Base K) c.
Proof.
  intros Hc Ha. unfold processFlushRepFromL2Cache. rewrite Ha. wstep Hc. wstep Hc. wstep Hc.
  eapply wp_waiting; [kprim|exact Hc|]. clear Hc. intros e d1 Hc He. cbn beta. wstep Hc. wstep Hc.
  eapply wp_waiting; [kprim|exact Hc|]. clear Hc. intros e1 d2 Hc He1. cbn beta zeta.
  eapply wp_waiting; [apply keeps_lift; [apply _|apply no_fuel_setOwner]|exact Hc|]. clear Hc. intros e2 d3 Hc [-> _]%entry_setOwner_ok. cbn beta.
  set (e2 := set_owner_id (setForwarder e1 INVALID_CORE_ID) INVALID_CORE_ID). 
  set (e3 := if getNumSharers e2 =? 0 then setDState e2 UNCACHED else e2).
  assert (entry_ok e3) as He3.
  { apply (entry_ok_left e sender e1); try done. by apply removeSharer_ok in He1 as (_ & ? & _). }
  wstep Hc. eapply wp_waiting; [by apply ck_set_entry|exact Hc|]. clear Hc. intros u d4 Hc _.
  eapply (wp_if_requests _ _ _ (fun z => negb (z =? 0))); [exact Hc| |done| |].
  { intros z Hz. by destruct (Z.eqb_spec z 0); [lia|]. }
  2: { intros HB. eapply wp_mono; [apply ck_sendDataToDram, HB|]. intros u' c' (? & ? & _). by eapply base_view. }
  clear Hc. intros x d5 Hc. eapply wp_update_front; [exact Hc|]. clear Hc. intros r d6 Hc Hx Hra.
  rstep Hc. rstep Hc. destruct (msg_type (r_msg r)) eqn:Et.
  2: by apply wp_Ex_front.
  2: rstep Hc; by apply wp_Sh_front.
  2: { destruct (getNumSharers e3 =? 0) eqn:Ez.
       - eapply wp_ready; [apply ck_set_entry, entry_ok_uncached, no_sharers; by apply Z.eqb_eq|exact Hc|].
         clear Hc. intros u' d7 Hc _. by apply wp_Upgrade_front.
       - eapply wp_mono; [eapply wp_set_front; [rewrite Hra in Hc; exact Hc|done|done]|]. by intros u' c' [? _]. }
  all: rstep Hc; apply wp_nullify; unfold core_req in Hc; by rewrite Et in Hc.
Qed.

Lemma wp_WbRep K addr sender m c :
  Waiting K addr c -> msg_address m = addr ->
  wp (processWbRepFromL2Cache next sender m) (fun _ => Base K) c.
Proof.
  intros Hc Ha. unfold processWbRepFromL2Cache. rewrite Ha. wstep Hc. wstep Hc. wstep Hc.
  eapply wp_waiting; [kprim|exact Hc|]. clear Hc. intros e d1 Hc He. cbn beta.
  eapply wp_waiting; [kprim|exact Hc|]. clear Hc. intros has d2 Hc Hhas.
  eapply wp_waiting; [kprim|exact Hc|]. clear Hc. intros u d3 Hc ->.
  eapply wp_waiting; [apply keeps_lift; [apply _|apply no_fuel_setOwner]|exact Hc|]. clear Hc. intros e2 d4 Hc [-> _]%entry_setOwner_ok. cbn beta.
  eapply wp_waiting; [apply ck_set_entry|exact Hc|].
  { apply hasSharer_ok in Hhas as [Hin _]. specialize (Hin eq_refl). unfold entry_ok. cbn [setDState set_owner_id m_dstate].
    intros Hnil. change (sharers e = []) in Hnil. rewrite Hnil in Hin. by apply not_elem_of_nil in Hin. }
  clear Hc. intros u' d5 Hc _.
  eapply (wp_if_requests _ _ _ (fun z => negb (z =? 0))); [exact Hc| |done| |intros; by apply wp_fail].
  { intros z Hz. by destruct (Z.eqb_spec z 0); [lia|]. }
  clear Hc. intros x d6 Hc. eapply wp_update_front; [exact Hc|]. clear Hc. intros r d7 Hc Hx Hra.
  rstep Hc. rstep Hc. eapply wp_ready; [kprim|exact Hc|]. clear Hc. intros u'' d8 Hc Ht%bool_decide_eq_true.
  by apply wp_Sh_front.
Qed.

Lemma ck_dram_reply_type t d : ckeeps (dram_reply_type t d)
  (fun r => is_reply r = true /\ (t = EX_REQ \/ t = SH_REQ \/ t = UPGRADE_REQ)).
Proof.
  unfold dram_reply_type. destruct t; try kfail.
  - kbind. intros _ _. kret. auto.
  - kbind. intros _ _. kret. split; [by destruct (bool_decide _)|auto].
  - kret. auto.
Qed.

Lemma wp_DRAMReply K addr sender m c :
  Waiting K addr c -> msg_address m = addr ->
  wp (processDRAMReply next sender m) (fun _ => Base K) c.
Proof.
  intros Hc Ha. unfold processDRAMReply. rewrite Ha.
  assert (forall (m1 : CM unit) c0, wp (z ← q_size addr; if 1 <=? z then m1 else fail AssertFailed) (fun _ => Base K) c0 ->
    wp (z ← q_size addr; _ ← assertM (1 <=? z); m1) (fun _ => Base K) c0) as Hif.
  { intros m1 c0. unfold wp, q_size, gets, mbind, st_bind. by destruct (1 <=? _). }
  apply Hif. eapply (wp_if_requests _ _ _ (fun z => 1 <=? z)); [exact Hc| |done| |intros; by apply wp_fail].
  { intros z Hz. apply Z.leb_le. lia. }
  clear Hc. intros x d1 Hc. apply wp_bind. eapply wp_mono; [by eapply wp_front|]. intros r c' (-> & Hx & Hra).
  rstep Hc. rstep Hc. rstep Hc. rstep Hc. rstep Hc.
  eapply wp_ready; [apply ck_dram_reply_type|exact Hc|]. clear Hc. intros t d2 Hc (Ht & Htype). cbn beta zeta.
  apply wp_bind. eapply wp_mono; [apply (wp_reply K addr); [done|]|].
  { unfold core_req in Hx. destruct Htype as [E|[E|E]]; rewrite E in Hx; by subst x. }
  intros u d3 Hd3. apply wp_bind. eapply wp_mono; [apply ck_sendDataToNUCA, Hd3|]. intros u' d4 (Hco & Hv & _).
  by eapply Hnext, answered_view.
Qed.
End with_next.

(** ** The recursion *)

Lemma wp_dequeue addr c x rest :
  coh c -> cores c addr = x :: rest ->
  wp (q_dequeue addr) (fun _ c' => coh c' /\ cores c' addr = rest /\
    (forall b, b <> addr -> cores c' b = cores c b) /\ forall b, replies c' b = replies c b) c.
Proof.
  intros (Hd & Hq & Hnu) Hr. unfold wp, q_dequeue. destruct (dequeue (c_queue c) addr) as [[r q]|e] eqn:E; cbn.
  - apply dequeue_inv in E as (E & Eb & _). unfold cores, replies in *; cbn. rewrite E in Hr. cbn in Hr. simplify_eq.
    split_and!; try done.
    + split_and!; [done| |done]. intros b r0 Hb. apply Hq. destruct (decide (b = addr)) as [->|]; [rewrite E; by right|].
      by rewrite <- Eb.
    + intros b Hb. by rewrite Eb.
  - unfold dequeue in E. by destruct (c_queue c !! addr) as [[|]|]; simplify_eq.
Qed.

Lemma processNext_ok fuel : next_ok fuel (processNextReqFromL2Cache fuel).
Proof.
  induction fuel as [|fuel IH]; (split; [intros K addr c Hc|intros addr c Hc Hl Hn]).
  - destruct Hc as (_ & x & rest & _ & Hn & _). lia.
  - lia.
  - destruct Hc as (Hc & x & rest & Hr & Hn & HK). cbn [processNextReqFromL2Cache].
    apply wp_bind, wp_gets, wp_bind, wp_assert. intros _.
    apply wp_bind. eapply wp_mono; [by eapply wp_dequeue|]. intros r0 c1 (Hc1 & Hr1 & Hb & Ho).
    apply wp_bind, wp_gets.
    assert (Base K c1) as HB.
    { split; [done|]. intros a. rewrite <- HK, Ho. destruct (decide (a = addr)) as [->|]; [by rewrite Hr1|by rewrite Hb]. }
    destruct (empty (c_queue c1) addr) eqn:Ee; [by apply wp_ret|]. cbn [negb].
    destruct rest as [|x1 rest].
    { apply wp_bind. unfold wp, q_front, front. unfold cores, pending in Hr1.
      destruct (c_queue c1 !! addr) as [[|]|]; done. }
    assert (Ready K addr x1 fuel c1) as HR by (split; [done|]; exists rest; cbn in Hn; split; [done|lia]).
    apply wp_bind. eapply wp_mono; [by eapply wp_front|]. intros r c2 (-> & Hx & Ha).
    eapply wp_ready; [apply ck_modify; auto|exact HR|]. intros u c3 HR3 _. rewrite <- Hx in HR3.
    by eapply wp_process_front.
  - cbn [processNextReqFromL2Cache]. apply wp_bind, wp_gets, wp_bind, wp_assert. intros _.
    destruct (cores c addr) as [|x [|y l]] eqn:Hr; try done.
    apply wp_bind. eapply wp_mono; [by eapply wp_dequeue|]. intros r0 c1 (Hc1 & Hr1 & Hb & Ho).
    apply wp_bind, wp_gets. destruct (empty (c_queue c1) addr) eqn:Ee; [by apply wp_ret|]. cbn [negb].
    apply wp_bind. unfold wp, q_front, front. unfold cores, pending in Hr1.
    destruct (c_queue c1 !! addr) as [[|]|]; done.
Qed.

(** ** Packets *)

(** The request for [a] that a packet carries, as the core to be answered. *)
Definition request_of (a : Z) (p : packet) : list Z :=
  match p_from p, msg_type (p_msg p) with
  | L2_CACHE, (EX_REQ | SH_REQ | UPGRADE_REQ) =>
      if msg_address (p_msg p) =? a then [msg_requester (p_msg p)] else []
  | _, _ => []
  end.

Lemma enqueue_base K c a r x :
  Base K c -> core_req r = Some x -> msg_address (r_msg r) = a ->
  Base (fun b => K b ++ if a =? b then [x] else []) (set_queue (enqueue (c_queue c) a r) c).
Proof.
  intros [(Hd & Hq & Hnu) HK] Hr Ha. split.
  - split_and!; [done| |done]. intros b r0. cbn. rewrite pending_enqueue. destruct (decide (a = b)) as [<-|]; [|apply Hq].
    intros [Hin| ->%list_elem_of_singleton]%elem_of_app; [by apply Hq|done].
  - intros b. rewrite <- HK. unfold cores, replies; cbn. rewrite pending_enqueue.
    destruct (decide (a = b)) as [<-|Hne].
    + rewrite Z.eqb_refl, fmap_app, omap_app. cbn. rewrite Hr. cbn. by rewrite app_assoc.
    + destruct (Z.eqb_spec a b); [done|]. by rewrite app_nil_r.
Qed.

Lemma wp_receive K n m t process x c :
  let a := msg_address m in
  let K' := fun b => K b ++ (if a =? b then [x] else []) in
  Base K c -> (length (pending (c_queue c) a) < n)%nat ->
  (forall r, r_msg r = m -> core_req r = Some x) ->
  (forall r c', r_msg r = m -> Ready K' a (Some x) n c' -> wp (process r None) (fun _ => Base K') c') ->
  wp (receive_request m t process) (fun _ => Base K') c.
Proof.
  intros a K' HB Hl Hr Hp. unfold receive_request. fold a.
  apply wp_bind, wp_lift; [unfold ShmemReq_new; by destruct (bool_decide _)|].
  intros r Hnew. assert (r_msg r = m) as Hrm.
  { unfold ShmemReq_new in Hnew. res_inv Hnew. by simplify_eq. }
  assert (Base K' (set_queue (enqueue (c_queue c) a r) c)) as HB' by (apply enqueue_base; [done|auto|by rewrite Hrm]).
  unfold q_enqueue. apply wp_bind, wp_modify. unfold q_size. apply wp_bind, wp_gets.
  rewrite size_pending. cbn [set_queue c_queue]. rewrite pending_enqueue, decide_True, length_app by done.
  destruct (Z.eqb_spec (Z.of_nat (length (pending (c_queue c) a) + length [r])) 1) as [H1|]; [|by apply wp_ret].
  apply Hp; [done|]. split; [done|]. exists []. split; [|cbn; lia]. unfold cores; cbn.
  rewrite pending_enqueue, decide_True by done. destruct (pending (c_queue c) a); [|cbn in H1; lia].
  cbn. by rewrite Hr.
Qed.

Lemma wp_handleMsgFromL2Cache K sender m t c :
  Base K c ->
  wp (handleMsgFromL2Cache sender m)
    (fun _ => Base (fun a => K a ++ request_of a (mkPacket t sender L2_CACHE m))) c.
Proof.
  intros HB. unfold handleMsgFromL2Cache. apply wp_bind, wp_gets. apply wp_bind, wp_gets. cbv zeta.
  set (a := msg_address m). set (len := length (pending (c_queue c) a)).
  set (next := processNextReqFromL2Cache (S (S len))).
  assert (next_ok (S (S len)) next) as Hnext by apply processNext_ok.
  assert (Waiting (S len) K a c) as Hc by (split; [done|]; unfold cores; rewrite length_fmap; lia).
  eapply wp_waiting; [kprim|exact Hc|]. clear Hc. intros o d1 Hc _. cbn beta.
  eapply wp_waiting; [kprim|exact Hc|]. clear Hc. intros o' d2 [HB2 Hl] _. cbn beta.
  assert (Waiting (S (S len)) K a d2) as Hw by (split; [done|lia]).
  assert (length (pending (c_queue d2) a) < S (S len))%nat as Hlt by (unfold cores in Hl; rewrite length_fmap in Hl; lia).
  unfold request_of; cbn [p_from p_msg]. clearbody next len. clear HB o o' d1 Hl.
  destruct (msg_type m) eqn:Et; try (by apply wp_fail).
  1, 2, 3: eapply wp_receive; [done|exact Hlt|by intros r <-; unfold core_req; rewrite Et|];
    intros r c' <- Hr; by eauto using wp_Ex, wp_Sh, wp_Upgrade.
  all: eapply wp_mono; [eauto using wp_InvRep, wp_FlushRep, wp_WbRep|]; intros u c' [Hc' HK];
    split; [done|]; intros b; by rewrite app_nil_r.
Qed.

Lemma wp_handleMsgFromDRAM K sender m t c :
  Base K c ->
  wp (handleMsgFromDRAM sender m)
    (fun _ => Base (fun a => K a ++ request_of a (mkPacket t sender DRAM_COMP m))) c.
Proof.
  intros HB. unfold handleMsgFromDRAM. apply wp_bind, wp_gets. destruct (msg_type m) eqn:Et; try (by apply wp_fail).
  eapply wp_mono.
  - eapply wp_DRAMReply; [apply processNext_ok| |done]. split; [done|]. unfold cores. rewrite length_fmap. lia.
  - intros u c' [Hc' HK]. split; [done|]. intros b. by rewrite app_nil_r.
Qed.

Lemma wp_handleMsg K p c :
  Base K c -> wp (handleMsgFromNetwork p) (fun _ => Base (fun a => K a ++ request_of a p)) c.
Proof.
  intros HB. unfold handleMsgFromNetwork.
  eapply wp_base; [apply ck_modify; auto|exact HB|]. clear HB. intros u c1 HB _.
  destruct p as [t s from m]; cbn [p_from p_msg p_sender p_time].
  eapply (wp_base _ _ (fun _ => True)); [destruct (msg_perf m); [by apply ck_emit|by kret]|exact HB|].
  clear HB. intros u' c2 HB _.
  destruct from; [by apply wp_handleMsgFromL2Cache|by apply wp_handleMsgFromDRAM|by apply wp_fail].
Qed.

Lemma wp_deliver ps K c :
  Base K c -> wp (deliver ps) (fun _ => Base (fun a => K a ++ (ps ≫= request_of a))) c.
Proof.
  revert K c. induction ps as [|p ps IH]; intros K c HB; cbn [deliver].
  - apply wp_ret. destruct HB as [Hc HK]. split; [done|]. intros a. by rewrite app_nil_r.
  - apply wp_bind. eapply wp_mono; [by apply wp_handleMsg|]. intros u c' HB'.
    eapply wp_mono; [apply IH, HB'|]. intros u' c'' [Hc HK]. split; [done|]. intros a. rewrite HK.
    cbn. by rewrite <- app_assoc.
Qed.

(** ** From a new controller *)

Context (directory_type : string) (total_entries associativity block_size max_hw max_sharers
  access_time penalty : Z) (ptrs : list Z) (fwd : Z).

(** A controller as the memory manager makes it. *)
Definition new_cntlr (nuca : option N) (junk : Z) : res (DramDirectoryCntlr N) :=
  d ← DramDirectoryCache_new directory_type total_entries associativity block_size max_hw
        max_sharers access_time penalty ptrs fwd;
  Ok (DramDirectoryCntlr_new d nuca junk).

Lemma new_cntlr_base nuca junk c : nuca_ok nuca -> new_cntlr nuca junk = Ok c -> Base (fun _ => []) c.
Proof.
  unfold new_cntlr, DramDirectoryCache_new, Directory_new. intros Hnu Hn. res_inv Hn. simplify_eq.
  destruct (associativity =? 0); [done|]. res_inv E. simplify_eq. split; [|done].
  split_and!; [apply map_Forall_empty| |done]. intros a r. unfold pending. cbn. rewrite lookup_empty.
  by intros ?%not_elem_of_nil.
Qed.

(** C1: Coherence: after any sequence of packets that the controller handles, every entry of the
    directory (those being evicted included) is coherent: an uncached line has no sharers,
    a line in the exclusive or modified state has exactly one, its owner. *)
Theorem dir_coherent nuca junk ps c c' :
  nuca_ok nuca -> new_cntlr nuca junk = Ok c -> deliver ps c = Ok (tt, c') ->
  forall p e, dc_heap (c_dir c') !! p = Some e -> entry_ok e.
Proof.
  intros Hn Hc%new_cntlr_base Hd; [|done]. intros p e Hp. pose proof (wp_ok _ _ _ _ _ (wp_deliver ps _ c Hc) Hd) as [(HC & _) _].
  by apply (HC p e Hp).
Qed.

(** C2: Requests are served in order and exactly once: for every address, the answers sent to the
    caches followed by the requests still queued are the requests received, in the order of
    their arrival. *)
Theorem dir_requests_answered_in_order nuca junk ps c c' :
  nuca_ok nuca -> new_cntlr nuca junk = Ok c -> deliver ps c = Ok (tt, c') ->
  forall a, replies c' a ++ omap core_req (pending (c_queue c') a) = ps ≫= request_of a.
Proof.
  intros Hn Hc%new_cntlr_base Hd; [|done]. intros a. pose proof (wp_ok _ _ _ _ _ (wp_deliver ps _ c Hc) Hd) as [_ HK].
  change (ps ≫= request_of a) with ([] ++ (ps ≫= request_of a)). rewrite <- (HK a). f_equal. apply omap_cores.
Qed.

(** C3: Termination: the handlers never run out of the fuel given to each packet, the number of
    requests queued for its address plus two.  A run stops only at an assertion or an error
    of the source. *)
Theorem dir_terminates nuca junk ps c :
  nuca_ok nuca -> new_cntlr nuca junk = Ok c -> deliver ps c <> Err OutOfFuel.
Proof. intros Hn Hc%new_cntlr_base; [|done]. exact (wp_no_fuel _ _ _ (wp_deliver ps _ c Hc)). Qed.
End cntlr_proofs.

(** ** A run *)

(** A NUCA cache that always misses and never evicts. *)
#[local] Instance nuca_miss : NucaCache unit := {
  nuca_read _ _ _ := Ok (0, W_MISS, None, [], tt);
  nuca_write _ _ _ _ _ _ _ := Ok (false, 0, None, tt)
}.
#[local] Program Instance nuca_miss_ok : NucaCacheOk unit := { nuca_wf _ := True }.
Solve Obligations with done.

#[local] Instance run_cfg : CntlrCfg :=
  mkCfg MSI 0 64 {| m_ahl_param := 6; m_ahl_mask := 63; m_core_list := [0]; m_total_modules := 1;
                    ahl_cache_block_size := 64 |} false 0.

Definition run_line : Z := 4096.
Definition l2 (t sender requester : Z) (ty : msg_t) (buf : option nat) : packet :=
  mkPacket t sender L2_CACHE (mkMsg ty requester run_line buf W_UNKNOWN None).
Definition from_dram (t requester : Z) (buf : nat) : packet :=
  mkPacket t 0 DRAM_COMP (mkMsg DRAM_READ_REP requester run_line (Some buf) W_DRAM None).

(** Cores 0 and 1 share the line; core 2 writes and core 3 reads it while core 0, whose copy
    core 2 invalidates, asks for an upgrade. *)
Definition run_packets : list packet :=
  [ l2 10 0 0 SH_REQ None; from_dram 20 0 1; l2 30 1 1 SH_REQ None; from_dram 40 1 2;
    l2 50 2 2 EX_REQ None; l2 51 3 3 SH_REQ None; l2 52 0 0 UPGRADE_REQ None;
    l2 60 0 2 INV_REP None; l2 61 1 2 INV_REP None; from_dram 70 2 3;
    l2 80 2 3 WB_REP (Some 5%nat) ].
Definition flush_packet : packet := l2 90 2 0 FLUSH_REP (Some 7%nat).
Definition last_inv_packet : packet := l2 100 3 0 INV_REP None.

Definition run_new : res (DramDirectoryCntlr unit) :=
  new_cntlr "full_map" 16 4 64 4 4 1000 0 [0; 0; 0; 0] 0 None 0.

(** The controller after the packets [ps]. *)
Definition run (ps : list packet) : res (DramDirectoryCntlr unit) :=
  c ← run_new; '(_, c) ← deliver ps c; Ok c.

Lemma dir_coherent_witness :
  match run run_packets with
  | Ok c => forall p e, dc_heap (c_dir c) !! p = Some e -> entry_ok e
  | Err _ => False
  end.
Proof.
  destruct run_new as [c|] eqn:Hc; [|vm_compute in Hc; discriminate Hc].
  unfold run. rewrite Hc. cbn [mbind res_bind]. destruct (deliver run_packets c) as [[[] c']|] eqn:Hd.
  - exact (dir_coherent _ _ _ _ _ _ _ _ _ _ None _ _ _ _ I Hc Hd).
  - vm_compute in Hc. injection Hc as <-. vm_compute in Hd. discriminate Hd.
Defined.

Lemma dir_requests_answered_in_order_witness :
  match run run_packets with
  | Ok c => replies c run_line ++ omap core_req (pending (c_queue c) run_line) = [0; 1; 2; 3; 0]
  | Err _ => False
  end.
Proof.
  destruct run_new as [c|] eqn:Hc; [|vm_compute in Hc; discriminate Hc].
  unfold run. rewrite Hc. cbn [mbind res_bind]. destruct (deliver run_packets c) as [[[] c']|] eqn:Hd.
  - exact (dir_requests_answered_in_order _ _ _ _ _ _ _ _ _ _ None _ _ _ _ I Hc Hd run_line).
  - vm_compute in Hc. injection Hc as <-. vm_compute in Hd. discriminate Hd.
Defined.

Lemma dir_terminates_witness : run run_packets <> Err OutOfFuel.
Proof.
  destruct run_new as [c|] eqn:Hc; [|vm_compute in Hc; discriminate Hc].
  unfold run. rewrite Hc. cbn [mbind res_bind].
  pose proof (dir_terminates _ _ _ _ _ _ _ _ _ _ None _ run_packets _ I Hc) as Ht.
  destruct (deliver run_packets c) as [[? ?]|e]; [done|]. cbn. congruence.
Defined.

(** The data of a FLUSH_REP outlives its message: when core 2's flush (buffer 7) arrives for the
    upgrade of core 0 while core 3 still shares the line, the queued request keeps the buffer
    of the message, which the memory manager frees when the handler returns; the reply to core
    0, sent while the next message is handled, is made from that buffer. *)
Theorem flush_buffer_used_after_free :
  let buf := msg_data_buf (p_msg flush_packet) in
  (c ← run (run_packets ++ [flush_packet]);
     Ok ((fun r => (core_req r, msg_data_buf (r_msg r))) <$> pending (c_queue c) run_line))
    = Ok [(Some 0, buf)] /\
  (c ← run (run_packets ++ [flush_packet]);
   c' ← run (run_packets ++ [flush_packet; last_inv_packet]);
     Ok (drop (length (c_out c)) (c_out c')))
    = Ok [Send EX_REP L2_CACHE 0 0 run_line buf 64 W_CACHE_REMOTE None 1100].
Proof. split; vm_compute; reflexivity. Qed.
