(* ===== verification/DramCntlr.v ===== *)
(** * The DRAM controller and the DRAM cache

    Models src/common/core/memory_subsystem/dram/dram_cntlr_interface.{h,cc} and
    dram_cache.{h,cc}, and pr_l1_pr_l2_dram_directory_msi/dram_cntlr.{h,cc}.  The
    virtual interface of the code is the class [DramCntlrInterface]; the
    controller implements it, and so does the cache in front of another
    implementation.  Contents of data buffers are lists of bytes. *)

From stdpp Require Import gmap.
From S2P Require Import Prelude StateMonad SubsecondTime AddressHomeLookup CacheBlockInfo CacheSet CachePolicy Cache FaultInjection ShmemPerf ContentionModel QueueModel Prefetcher DramPerfModel DirectoryEntry DramDirectoryCntlr.

(** [getDataFromDram]: the latency, where the data was, what was written to [data_buf] (if
    anything), the calls of [perf->updateTime]; [putDataToDram]: the latency and where the data
    went. *)
Class DramCntlrInterface (D : Type) := {
  getDataFromDram : D -> Z -> Z -> Z -> res (Z * where_t * option (list Z) * list (Z * shmem_times_type_t) * D);
  putDataToDram : D -> Z -> Z -> list Z -> Z -> res (Z * where_t * D)
}.

(** ** class DramCntlr *)

(** MemComponent::DRAM *)
Definition MEM_DRAM : Z := 24.

Record DramCntlr (G : Type) := mkDram {
  m_data_map : gmap Z (list Z);
  m_dram_perf_model : DramPerfModel G;
  dram_fault_injector : option FaultInjector;
  dram_reads : Z;
  dram_writes : Z
}.
Arguments mkDram {G} _ _ _ _ _.
Arguments m_data_map {G} _.
Arguments m_dram_perf_model {G} _.
Arguments dram_fault_injector {G} _.
Arguments dram_reads {G} _.
Arguments dram_writes {G} _.

(** [manager] is that of the simulator, [None] without fault injection. *)
Definition DramCntlr_new {G} (cfg : DramPerfCfg) (cache_block_size core_id : Z) (manager : option FaultinjectionManager)
    (dist : G) : res (DramCntlr G) :=
  m ← createDramPerfModel cfg cache_block_size dist;
  Ok (mkDram ∅ m ((fun f => getFaultInjector f core_id MEM_DRAM) <$> manager) 0 0).

Section DramCntlr.
Context {G : Type} (env : DramEnv G) (manager : option FaultinjectionManager) (cache_block_size : Z).
Implicit Types (d : DramCntlr G).

(** The part with fault injection: the block of the address, allocated on the first read. *)
Definition read_block d (address : Z) : res (list Z * option FaultInjector) :=
  let block := default (replicate (Z.to_nat cache_block_size) 0) (m_data_map d !! address) in
  match dram_fault_injector d with
  | Some f => '(f, block) ← preRead f cache_block_size block 0; Ok (block, Some f)
  | None => Ok (block, None)
  end.

Definition dram_get d (address requester now : Z)
  : res (Z * where_t * option (list Z) * list (Z * shmem_times_type_t) * DramCntlr G) :=
  '(data, map, inj) ←
    match manager with
    | Some _ => '(block, inj) ← read_block d address; Ok (Some block, <[address := block]> (m_data_map d), inj)
    | None => Ok (None, m_data_map d, dram_fault_injector d)
    end;
  '(lat, ups, m) ← getAccessLatency env (m_dram_perf_model d) now cache_block_size requester READ;
  Ok (lat, W_DRAM, data, ups, mkDram map m inj (u64 (dram_reads d + 1)) (dram_writes d)).

Definition dram_put d (address requester : Z) (data_buf : list Z) (now : Z) : res (Z * where_t * DramCntlr G) :=
  '(map, inj) ←
    match manager with
    | Some _ =>
        match m_data_map d !! address with
        | None => Err LogError
        | Some _ =>
            if Z.of_nat (length data_buf) <? cache_block_size then Err OutOfBounds
            else
              let block := take (Z.to_nat cache_block_size) data_buf in
              '(inj, block) ← match dram_fault_injector d with
                              | Some f => '(f, block) ← postWrite f cache_block_size block 0; Ok (Some f, block)
                              | None => Ok (None, block)
                              end;
              Ok (<[address := block]> (m_data_map d), inj)
        end
    | None => Ok (m_data_map d, dram_fault_injector d)
    end;
  '(lat, _, m) ← getAccessLatency env (m_dram_perf_model d) now cache_block_size requester WRITE;
  Ok (lat, W_DRAM, mkDram map m inj (dram_reads d) (u64 (dram_writes d + 1))).

#[global] Instance DramCntlr_dram : DramCntlrInterface (DramCntlr G) := {
  getDataFromDram := dram_get;
  putDataToDram := dram_put
}.
End DramCntlr.

(** ** class DramCache *)

Record DramCacheCfg := mkDramCacheCfg {
  dcc_core_id : Z;
  dcc_block_size : Z;
  dcc_data_access_time : Z;
  dcc_tags_access_time : Z;
  dcc_bandwidth : ComponentBandwidth;
  m_prefetch_on_prefetch_hit : bool;
  dcc_abs : Z -> Z;               (* see Prefetcher *)
  dcc_pow_root : Z -> Z -> Z;
  dcc_global_time : Z;
  dcc_stack_buf : list Z          (* what an uninitialised local array holds *)
}.

Record DramCache (P I D : Type) := mkDramCache {
  dc_cache : Cache P I;
  dc_dram_cntlr : D;
  dc_queue_model : option QueueModel;
  m_prefetcher : option Prefetcher;
  m_prefetch_mshr : ContentionModel;
  dc_reads : Z;
  dc_writes : Z;
  dc_read_misses : Z;
  dc_write_misses : Z;
  m_hits_prefetch : Z;
  m_prefetches : Z;
  m_prefetch_mshr_delay : Z
}.
Arguments mkDramCache {P I D} _ _ _ _ _ _ _ _ _ _ _ _.
Arguments dc_cache {P I D} _.
Arguments dc_dram_cntlr {P I D} _.
Arguments dc_queue_model {P I D} _.
Arguments m_prefetcher {P I D} _.
Arguments m_prefetch_mshr {P I D} _.
Arguments dc_reads {P I D} _.
Arguments dc_writes {P I D} _.
Arguments dc_read_misses {P I D} _.
Arguments dc_write_misses {P I D} _.
Arguments m_hits_prefetch {P I D} _.
Arguments m_prefetches {P I D} _.
Arguments m_prefetch_mshr_delay {P I D} _.

(** The constructor; [cache_size] is in kilobytes, [queue_model] is the type of the queue if it
    is enabled, [core_domain] the core's DVFS domain. *)
Definition DramCache_new {D} (pcfg : PolicyCfg) (cfg : DramCacheCfg) (cache_size associativity : Z)
    (replacement_policy address_hash : string) (faults : bool) (home_lookup : option AddressHomeLookup)
    (qcfg : QueueCfg) (queue_model : option string) (fcfg : PrefetchCfg) (prefetcher : string) (core_domain : pref)
    (dram_cntlr : D) : res (DramCache AnyPolicy AnyInfo D) :=
  let way_size := u32 (associativity * dcc_block_size cfg) in
  if way_size =? 0 then Err DivByZero else
  let num_sets := u32 (1024 * cache_size) / way_size in
  _ ← assert_ (u32 (1024 * cache_size) =? u32 (num_sets * associativity * dcc_block_size cfg));
  h ← parseAddressHash address_hash;
  c ← Cache_new pcfg num_sets (Z.to_nat associativity) (dcc_block_size cfg) replacement_policy PR_L1_CACHE h None
        faults home_lookup;
  q ← match queue_model with
      | Some type =>
          t ← bw_getRoundedLatency (dcc_bandwidth cfg) (u32 (8 * dcc_block_size cfg));
          q ← QueueModel_create qcfg type t; Ok (Some q)
      | None => Ok None
      end;
  p ← createPrefetcher fcfg prefetcher (dcc_core_id cfg) 1;
  Ok (mkDramCache c dram_cntlr q p (ContentionModel_new (Some core_domain) 16) 0 0 0 0 0 0 0).

Section DramCache.
Context {P I D : Type} `{!ReplacementPolicy P I, !DramCntlrInterface D} (cfg : DramCacheCfg).
Implicit Types (s : DramCache P I D).
Local Abbreviation M := (ST (DramCache P I D)).

Definition with_cache (c : Cache P I) s : DramCache P I D :=
  mkDramCache c (dc_dram_cntlr s) (dc_queue_model s) (m_prefetcher s) (m_prefetch_mshr s) (dc_reads s) (dc_writes s)
    (dc_read_misses s) (dc_write_misses s) (m_hits_prefetch s) (m_prefetches s) (m_prefetch_mshr_delay s).
Definition with_dram (d : D) s : DramCache P I D :=
  mkDramCache (dc_cache s) d (dc_queue_model s) (m_prefetcher s) (m_prefetch_mshr s) (dc_reads s) (dc_writes s)
    (dc_read_misses s) (dc_write_misses s) (m_hits_prefetch s) (m_prefetches s) (m_prefetch_mshr_delay s).
Definition with_queue (q : option QueueModel) s : DramCache P I D :=
  mkDramCache (dc_cache s) (dc_dram_cntlr s) q (m_prefetcher s) (m_prefetch_mshr s) (dc_reads s) (dc_writes s)
    (dc_read_misses s) (dc_write_misses s) (m_hits_prefetch s) (m_prefetches s) (m_prefetch_mshr_delay s).
Definition with_prefetcher (p : option Prefetcher) s : DramCache P I D :=
  mkDramCache (dc_cache s) (dc_dram_cntlr s) (dc_queue_model s) p (m_prefetch_mshr s) (dc_reads s) (dc_writes s)
    (dc_read_misses s) (dc_write_misses s) (m_hits_prefetch s) (m_prefetches s) (m_prefetch_mshr_delay s).
(** [++m_prefetches] with the completion time of the prefetch recorded *)
Definition with_prefetch (mshr : ContentionModel) s : DramCache P I D :=
  mkDramCache (dc_cache s) (dc_dram_cntlr s) (dc_queue_model s) (m_prefetcher s) mshr (dc_reads s) (dc_writes s)
    (dc_read_misses s) (dc_write_misses s) (m_hits_prefetch s) (u64 (m_prefetches s + 1)) (m_prefetch_mshr_delay s).
(** [m_hits_prefetch++] and the delay until the prefetch completes *)
Definition with_prefetch_hit (delay : Z) s : DramCache P I D :=
  mkDramCache (dc_cache s) (dc_dram_cntlr s) (dc_queue_model s) (m_prefetcher s) (m_prefetch_mshr s) (dc_reads s)
    (dc_writes s) (dc_read_misses s) (dc_write_misses s) (u64 (m_hits_prefetch s + 1)) (m_prefetches s)
    (st_add (m_prefetch_mshr_delay s) delay).
Definition count_read (miss : bool) s : DramCache P I D :=
  mkDramCache (dc_cache s) (dc_dram_cntlr s) (dc_queue_model s) (m_prefetcher s) (m_prefetch_mshr s)
    (u64 (dc_reads s + 1)) (dc_writes s) (if miss then u64 (dc_read_misses s + 1) else dc_read_misses s)
    (dc_write_misses s) (m_hits_prefetch s) (m_prefetches s) (m_prefetch_mshr_delay s).
Definition count_write (miss : bool) s : DramCache P I D :=
  mkDramCache (dc_cache s) (dc_dram_cntlr s) (dc_queue_model s) (m_prefetcher s) (m_prefetch_mshr s)
    (dc_reads s) (u64 (dc_writes s + 1)) (dc_read_misses s)
    (if miss then u64 (dc_write_misses s + 1) else dc_write_misses s) (m_hits_prefetch s) (m_prefetches s)
    (m_prefetch_mshr_delay s).

(** [m_cache->peekSingleLine(address)] *)
Definition peek (address : Z) : M (option (nat * nat)) :=
  c ← gets dc_cache; lift_res (peekSingleLine c address).
(** A method call on the block that [p] points to. *)
Definition on_block (p : option (nat * nat)) (f : CacheBlockInfo -> CacheBlockInfo) : M unit :=
  match p with
  | Some (i, way) => modify (fun s => with_cache (update_block (dc_cache s) i way f) s)
  | None => fail NullDeref
  end.

(** The delay and the calls of [perf->updateTime]. *)
Definition dc_accessDataArray (t_start : Z) : M (Z * list (Z * shmem_times_type_t)) :=
  processing_time ← lift_res (bw_getRoundedLatency (dcc_bandwidth cfg) (u32 (8 * dcc_block_size cfg)));
  q ← gets dc_queue_model;
  queue_delay ← match q with
                | Some q =>
                    '(d, q) ← lift_res (computeQueueDelay (dcc_pow_root cfg) (dcc_global_time cfg) q t_start processing_time);
                    _ ← modify (with_queue (Some q)); mret d
                | None => mret 0
                end;
  let t1 := st_add t_start queue_delay in
  let t2 := st_add t1 processing_time in
  mret (st_add (st_add queue_delay processing_time) (dcc_data_access_time cfg),
        [(t_start, UNKNOWN); (t1, DRAM_CACHE_QUEUE); (t2, DRAM_CACHE_BUS);
         (st_add t2 (dcc_data_access_time cfg), DRAM_CACHE_DATA)]).

Definition insertLine (access : access_t) (address requester : Z) (data_buf : list Z) (now : Z) : M unit :=
  c ← gets dc_cache;
  r ← lift_res (insertSingleLine c address (Some data_buf) (CacheBlockInfo_new PrL1CacheBlockInfo) true None);
  _ ← modify (with_cache (li_cache r));
  p ← peek address;
  _ ← on_block p (fun b => setCState b (match access with STORE => MODIFIED | _ => SHARED end));
  _ ← dc_accessDataArray now;
  if li_eviction r && bool_decide (m_cstate (li_evict_info r) = MODIFIED) then
    d ← gets dc_dram_cntlr;
    (* the data written back is that of the line inserted *)
    '(_, _, d) ← lift_res (putDataToDram d (li_evict_addr r) requester data_buf now);
    modify (with_dram d)
  else mret tt.

(** One turn of the loop over the addresses to prefetch. *)
Definition prefetch_line (t_issue prefetch_address : Z) : M unit :=
  p ← peek prefetch_address;
  match p with
  | Some _ => mret tt
  | None =>
      d ← gets dc_dram_cntlr;
      '(dram_latency, _, data, _, d) ← lift_res (getDataFromDram d prefetch_address (dcc_core_id cfg) t_issue);
      _ ← modify (with_dram d);
      _ ← insertLine LOAD prefetch_address (dcc_core_id cfg) (default (dcc_stack_buf cfg) data)
            (st_add t_issue dram_latency);
      p ← peek prefetch_address;
      _ ← on_block p (fun b => setOption b PREFETCH);
      mshr ← gets m_prefetch_mshr;
      '(_, mshr) ← lift_res (getCompletionTime mshr t_issue dram_latency prefetch_address);
      modify (with_prefetch mshr)
  end.

Fixpoint prefetch_lines (t_issue : Z) (l : list Z) : M unit :=
  match l with
  | [] => mret tt
  | a :: l => _ ← prefetch_line t_issue a; prefetch_lines t_issue l
  end.

Definition callPrefetcher (p : Prefetcher) (train_address : Z) (cache_hit prefetch_hit : bool) (t_issue : Z) : M unit :=
  '(prefetchList, p) ← lift_res (getNextAddress (dcc_abs cfg) p train_address INVALID_CORE_ID);
  _ ← modify (with_prefetcher (Some p));
  if negb cache_hit || (m_prefetch_on_prefetch_hit cfg && prefetch_hit)
  then prefetch_lines t_issue prefetchList else mret tt.

(** A hit on a line that the prefetcher brought in: the latency until its data is there. *)
Definition prefetch_hit_latency (p : nat * nat) (address now latency : Z) : M Z :=
  mshr ← gets m_prefetch_mshr;
  let t_completed := getTagCompletionTime mshr address in
  let late := st_neb t_completed MaxTime && st_gtb t_completed (st_add now latency) in
  _ ← modify (with_prefetch_hit (if late then st_sub t_completed (st_add now latency) else 0));
  _ ← on_block (Some p) (fun b => clearOption b PREFETCH);
  mret (if late then st_sub t_completed now else latency).

(** Whether it hit, the latency, what [data_buf] holds afterwards, and the calls of
    [perf->updateTime]. *)
Definition doAccess (access : access_t) (address requester : Z) (data_buf : list Z) (now : Z)
  : M (bool * Z * list Z * list (Z * shmem_times_type_t)) :=
  block_info ← peek address;
  let latency := dcc_tags_access_time cfg in
  let ups := [(now, UNKNOWN); (st_add now latency, DRAM_CACHE_TAGS)] in
  '(prefetch_hit, latency, data_buf, ups) ←
    match block_info with
    | Some (i, way) =>
        c ← gets dc_cache;
        b ← lift_res (cache_peekBlock c i way);
        let prefetch_hit := hasOption b PREFETCH in
        latency ← (if prefetch_hit then prefetch_hit_latency (i, way) address now latency else mret latency);
        c ← gets dc_cache;
        '(_, out, c) ← lift_res (accessSingleLine c address access (Some data_buf) (dcc_block_size cfg) true);
        _ ← modify (with_cache c);
        '(d, ups') ← dc_accessDataArray (st_add now latency);
        _ ← match access with STORE => on_block block_info (fun b => setCState b MODIFIED) | _ => mret tt end;
        mret (prefetch_hit, st_add latency d, default data_buf out, ups ++ ups')
    | None =>
        '(latency, data_buf, ups) ←
          match access with
          | LOAD =>
              d ← gets dc_dram_cntlr;
              '(dram_latency, _, data, ups', d) ←
                lift_res (getDataFromDram d address requester (st_add now latency));
              _ ← modify (with_dram d);
              mret (st_add latency dram_latency, default data_buf data, ups ++ ups')
          | _ => mret (latency, data_buf, ups)
          end;
        _ ← insertLine access address requester data_buf (st_add now latency);
        mret (false, latency, data_buf, ups)
    end;
  p ← gets m_prefetcher;
  let cache_hit := bool_decide (is_Some block_info) in
  _ ← match p with
      | Some p => callPrefetcher p address cache_hit prefetch_hit (st_add now latency)
      | None => mret tt
      end;
  mret (cache_hit, latency, data_buf, ups).

Definition dc_get s (address requester now : Z)
  : res (Z * where_t * option (list Z) * list (Z * shmem_times_type_t) * DramCache P I D) :=
  '(hit, latency, data, ups, s) ← doAccess LOAD address requester (dcc_stack_buf cfg) now s;
  Ok (latency, if hit : bool then W_DRAM_CACHE else W_DRAM, Some data, ups, count_read (negb hit) s).

Definition dc_put s (address requester : Z) (data_buf : list Z) (now : Z) : res (Z * where_t * DramCache P I D) :=
  '(hit, latency, _, _, s) ← doAccess STORE address requester data_buf now s;
  Ok (latency, if hit : bool then W_DRAM_CACHE else W_DRAM, count_write (negb hit) s).

#[global] Instance DramCache_dram : DramCntlrInterface (DramCache P I D) := {
  getDataFromDram := dc_get;
  putDataToDram := dc_put
}.
End DramCache.

(** ** Messages from the tag directory *)

Section messages.
Context {D : Type} `{!DramCntlrInterface D} (cache_block_size : Z).
(** The array [data_buf] that a read fills, and the contents of data buffers. *)
Context (data_buf : nat) (mem : nat -> list Z).

Definition perf_events (perf : option nat) (l : list (Z * shmem_times_type_t)) : list event :=
  match perf with Some p => (fun x => PerfUpdate p x.1 x.2) <$> l | None => [] end.

(** [elapsed] is the clock of the simulation thread; the result is the events, the clock and
    the controller. *)
Definition handleMsgFromTagDirectory (d : D) (elapsed sender : Z) (shmem_msg : ShmemMsg)
  : res (list event * Z * D) :=
  let perf := msg_perf shmem_msg in
  let address := msg_address shmem_msg in
  let requester := msg_requester shmem_msg in
  let start := perf_events perf [(elapsed, UNKNOWN)] in
  match msg_type shmem_msg with
  | DRAM_READ_REQ =>
      '(dram_latency, hit_where, _, ups, d) ← getDataFromDram d address requester elapsed;
      let now := st_add elapsed dram_latency in
      _ ← assert_ (st_geb now elapsed);
      let reason := if bool_decide (hit_where = W_DRAM_CACHE) then DRAM_CACHE else DRAM in
      (* sendMsg *)
      _ ← assert_ (negb (cache_block_size =? 0));
      Ok (start ++ perf_events perf ups ++ perf_events perf [(now, reason); (now, UNKNOWN)] ++
          [Send DRAM_READ_REP TAG_DIR requester sender address (Some data_buf) cache_block_size hit_where perf now],
          now, d)
  | DRAM_WRITE_REQ =>
      match msg_data_buf shmem_msg with
      | Some p =>
          '(_, _, d) ← putDataToDram d address requester (mem p) elapsed;
          Ok (start, elapsed, d)
      | None => Err NullDeref
      end
  | _ => Err LogError
  end.
End messages.

(** ** The controller is a memory *)

Inductive dram_op := DGet (address : Z) | DPut (address : Z) (data : list Z).

Section memory.
Context {D : Type} `{!DramCntlrInterface D}.

(** Accesses by [requester] at successive times, one apart; what the reads returned. *)
Fixpoint dram_ops (d : D) (requester now : Z) (ops : list dram_op) : res (list (option (list Z)) * D) :=
  match ops with
  | [] => Ok ([], d)
  | DGet a :: ops =>
      '(_, _, data, _, d) ← getDataFromDram d a requester now;
      '(l, d) ← dram_ops d requester (now + 1) ops; Ok (data :: l, d)
  | DPut a data :: ops =>
      '(_, _, d) ← putDataToDram d a requester data now;
      dram_ops d requester (now + 1) ops
  end.
End memory.

(** The specification: a total map from addresses to blocks. *)
Fixpoint mem_ops (block_size : nat) (m : Z -> list Z) (ops : list dram_op) : list (option (list Z)) :=
  match ops with
  | [] => []
  | DGet a :: ops => Some (m a) :: mem_ops block_size m ops
  | DPut a data :: ops =>
      mem_ops block_size (fun x => if decide (x = a) then take block_size data else m x) ops
  end.

Section memory_proofs.
Context {G : Type} (env : DramEnv G) (f : FaultinjectionManager) (n : Z).
#[local] Existing Instance DramCntlr_dram.
Local Abbreviation dram := (DramCntlr_dram env (Some f) n).

(** The injectors of the DRAM component do nothing. *)
Definition quiet (i : option FaultInjector) : Prop :=
  match i with Some (FaultInjectorRandom _ _ true _) => False | _ => True end.

Definition contents (d : DramCntlr G) (a : Z) : list Z := default (replicate (Z.to_nat n) 0) (m_data_map d !! a).

Lemma dram_get_contents d a r now lat w data ups d' :
  quiet (dram_fault_injector d) -> dram_get env (Some f) n d a r now = Ok (lat, w, data, ups, d') ->
  data = Some (contents d a) /\ quiet (dram_fault_injector d') /\ forall x, contents d' x = contents d x.
Proof.
  intros Hq H. unfold dram_get, read_block in H.
  assert (forall i b, quiet i -> match i with Some g => '(g, b) ← preRead g n b 0; Ok (b, Some g) | None => Ok (b, None) end = Ok (b, i)) as Hp.
  { intros [[|? ? [] ?]|] b Hi; done. }
  rewrite (Hp _ _ Hq) in H. cbn [mbind res_bind] in H. res_inv H. destruct a0 as [[lat1 ups1] m]. simplify_eq.
  split; [done|]. split; [done|]. intros x. unfold contents. cbn [m_data_map]. destruct (decide (x = a)) as [->|].
  - by rewrite lookup_insert_eq.
  - by rewrite lookup_insert_ne.
Qed.

Lemma dram_put_contents d a r data now lat w d' :
  dram_put env (Some f) n d a r data now = Ok (lat, w, d') ->
  (quiet (dram_fault_injector d) -> quiet (dram_fault_injector d')) /\
  forall x, contents d' x = if decide (x = a) then take (Z.to_nat n) data else contents d x.
Proof.
  intros H. unfold dram_put, postWrite in H. destruct (m_data_map d !! a); [|done].
  destruct (_ <? n); [done|]. assert (exists i, (match dram_fault_injector d with Some g => '(g, b) ← Ok (g, take (Z.to_nat n) data); Ok (Some g, b)
     | None => Ok (None, take (Z.to_nat n) data) end) = Ok (i, take (Z.to_nat n) data) /\ (quiet (dram_fault_injector d) -> quiet i)) as (i & Ei & Hi).
  { destruct (dram_fault_injector d); by eexists. }
  rewrite Ei in H. cbn [mbind res_bind] in H. res_inv H. destruct a0 as [[lat1 ups1] m]. simplify_eq.
  split; [done|]. intros x. unfold contents. cbn [m_data_map]. case_decide as Ex; [subst; by rewrite lookup_insert_eq|].
  by rewrite lookup_insert_ne.
Qed.

Lemma dram_ops_memory ops d r now obs d' m :
  quiet (dram_fault_injector d) -> (forall x, contents d x = m x) ->
  dram_ops (DramCntlrInterface0 := dram) d r now ops = Ok (obs, d') -> obs = mem_ops (Z.to_nat n) m ops.
Proof.
  revert d now obs m. induction ops as [|op ops IH]; intros d now obs m Hq Hm H; cbn [dram_ops] in H.
  { by simplify_eq. }
  destruct op as [a|a data]; res_inv H.
  - destruct a0 as [[[[lat w] data] ups] d1]. res_inv H. destruct a0 as [l d2]. simplify_eq.
    eapply dram_get_contents in E as (-> & Hq1 & Hc); [|done]. cbn [mem_ops]. rewrite Hm. f_equal.
    eapply IH; [exact Hq1| |exact E0]. intros x. by rewrite Hc.
  - destruct a0 as [[lat w] d1]. eapply dram_put_contents in E as [Hq1 Hc]. cbn [mem_ops].
    eapply IH; [by apply Hq1| |exact H]. intros x. rewrite Hc. case_decide; [done|apply Hm].
Qed.
End memory_proofs.

(** C37: With fault injection on, the DRAM controller is a memory of blocks that are initially zero:
    every read returns the block last written to the address.  No injector disturbs it, the
    random one being active in the L1 data cache only. *)
Theorem dram_is_memory {G : Type} (env : DramEnv G) (cfg : DramPerfCfg) (f : FaultinjectionManager) (n core : Z) (dist : G)
    (d d' : DramCntlr G) (r now : Z) (ops : list dram_op) (obs : list (option (list Z))) :
  DramCntlr_new cfg n core (Some f) dist = Ok d ->
  dram_ops (DramCntlrInterface0 := DramCntlr_dram env (Some f) n) d r now ops = Ok (obs, d') ->
  obs = mem_ops (Z.to_nat n) (fun _ => replicate (Z.to_nat n) 0) ops.
Proof.
  intros Hd H. unfold DramCntlr_new in Hd. res_inv Hd. simplify_eq. eapply dram_ops_memory; [| |exact H].
  - cbn. unfold getFaultInjector. by destruct (fim_injector f).
  - intros x. unfold contents. cbn. by rewrite lookup_empty.
Qed.

(** ** Examples *)

Definition example_dram_cfg : DramPerfCfg :=
  mkDramPerfCfg "constant" {| m_bw_in_bits_per_us := 8000000000 |} 100 false "" (mkQueueCfg false 1 "" false 1 1 0%nat) false.
Definition example_manager : FaultinjectionManager := mkFIManager FAULT_TYPE_TOGGLE FAULT_INJECTOR_RANDOM.
Definition example_dram : res (DramCntlr unit) := DramCntlr_new example_dram_cfg 64 0 (Some example_manager) tt.

Definition ones : list Z := replicate 64 1.
Definition zeros : list Z := replicate 64 0.
Definition example_dram_ops : list dram_op := [DGet 0; DPut 0 ones; DGet 1024; DGet 0].

Lemma dram_is_memory_witness :
  exists d obs d', example_dram = Ok d /\
    dram_ops (DramCntlrInterface0 := DramCntlr_dram example_dram_env (Some example_manager) 64) d 0 10 example_dram_ops
      = Ok (obs, d') /\
    obs = [Some zeros; Some zeros; Some ones].
Proof.
  destruct example_dram as [d|] eqn:Ed; [|vm_compute in Ed; discriminate Ed].
  destruct (dram_ops (DramCntlrInterface0 := DramCntlr_dram example_dram_env (Some example_manager) 64) d 0 10 example_dram_ops)
    as [[obs d']|] eqn:E.
  - exists d, obs, d'. split; [reflexivity|]. split; [exact E|].
    exact (dram_is_memory example_dram_env example_dram_cfg example_manager 64 0 tt d d' 0 10 example_dram_ops obs Ed E).
  - vm_compute in Ed. injection Ed as <-. vm_compute in E. discriminate E.
Defined.

(** A direct-mapped cache of 1 KB with blocks of 64 bytes, which holds fault masks, without
    queue and prefetcher. *)
Definition example_dcc : DramCacheCfg :=
  mkDramCacheCfg 0 64 10 5 {| m_bw_in_bits_per_us := 8000000000 |} false Z.abs (fun x _ => x) 0 zeros.
Definition example_dram_cache : res (DramCache AnyPolicy AnyInfo (DramCntlr unit)) :=
  d ← example_dram;
  DramCache_new cache_example_cfg example_dcc 1 1 "lru" "mask" true None (mkQueueCfg false 1 "" false 1 1 0%nat) None
    (mkPrefetchCfg 1 false 1 false 1 1 1 1) "none" 0%nat d.

Definition example_backend : DramCntlrInterface (DramCntlr unit) :=
  DramCntlr_dram example_dram_env (Some example_manager) 64.

(** When a dirty line is evicted, [insertLine] writes the data of the line that takes its place
    to the address of the evicted one: behind the cache, the block of ones written to address 0
    is lost as soon as address 1024, of the same set, is read; the memory alone returns it. *)
Theorem dram_cache_writes_back_wrong_data :
  (c ← example_dram_cache;
   '(obs, _) ← dram_ops (DramCntlrInterface0 := DramCache_dram (DramCntlrInterface0 := example_backend) example_dcc)
                 c 0 10 example_dram_ops; Ok obs)
    = Ok [Some zeros; Some zeros; Some zeros] /\
  (d ← example_dram; '(obs, _) ← dram_ops (DramCntlrInterface0 := example_backend) d 0 10 example_dram_ops; Ok obs)
    = Ok [Some zeros; Some zeros; Some ones].
Proof. split; vm_compute; reflexivity. Qed.

(** ** The DRAM cache: hits and traffic *)

(** What an implementation promises: its operations terminate, and it counts the reads. *)
Class DramCntlrOk (D : Type) `{!DramCntlrInterface D} := {
  dram_wf : D -> Prop;
  read_count : D -> Z;
  dram_get_ok : forall d a r t, dram_wf d -> no_fuel_error (getDataFromDram d a r t) /\
    forall l w b u d', getDataFromDram d a r t = Ok (l, w, b, u, d') -> dram_wf d' /\ read_count d' = u64 (read_count d + 1);
  dram_put_ok : forall d a r b t, dram_wf d -> no_fuel_error (putDataToDram d a r b t) /\
    forall l w d', putDataToDram d a r b t = Ok (l, w, d') -> dram_wf d' /\ read_count d' = read_count d
}.

(** Prefetch addresses are 64-bit. *)
Lemma prefetch_width abs p a core l p' :
  getNextAddress abs p a core = Ok (l, p') -> Forall (in_width 64) l.
Proof.
  assert (forall k i c s stop, Forall (in_width 64) (stride_addresses k i c s stop)) as Hs.
  { intros k i c s stop. apply Forall_forall. intros x (j & _ & -> & _)%elem_stride. by apply wrap_range. }
  assert (forall k depth ghb size index x l l', Forall (in_width 64) l -> ghb_depth k depth ghb size index x l = Ok l' ->
    Forall (in_width 64) l') as Hd.
  { intros k. induction k as [|k IH]; intros depth ghb size index x l0 l' Hl H; cbn [ghb_depth] in H; [by simplify_eq|].
    destruct (size =? 0); [done|]. res_inv H. destruct (_ =? INVALID_DELTA); [by simplify_eq|].
    eapply IH; [|exact H]. unfold push_new. case_decide; [done|]. apply Forall_app. split; [done|].
    constructor; [by apply wrap_range|constructor]. }
  assert (forall k p index x l l', Forall (in_width 64) l -> ghb_width k p index x l = Ok l' -> Forall (in_width 64) l') as Hw.
  { intros k. induction k as [|k IH]; intros q index x l0 l' Hl H; cbn [ghb_width] in H; [by simplify_eq|].
    destruct (_ =? INVALID_INDEX); [by simplify_eq|]. res_inv H. eapply IH; [|exact H]. by eapply Hd. }
  intros H. destruct p as [p|p]; cbn [getNextAddress] in H; res_inv H; destruct a0 as [l1 p1]; simplify_eq.
  - unfold simple_getNextAddress in E. res_inv E. destruct (n_flows p =? 0); [done|]. res_inv E. simplify_eq.
    destruct (_ =? 0); [constructor|apply Hs].
  - unfold ghb_getNextAddress in E. destruct (_ =? INVALID_ADDRESS); [simplify_eq; constructor|]. res_inv E.
    destruct a1 as [[ghb table] th]. simplify_eq. unfold ghb_prefetches in E0.
    destruct (table_find _ _ _) as [[j e]|]; [|simplify_eq; constructor].
    destruct (_ =? _); [|simplify_eq; constructor]. res_inv E0. destruct a0; [|simplify_eq; constructor].
    eapply Hw; [|exact E0]. constructor.
Qed.

Lemma no_fuel_prefetch abs p a core : no_fuel_error (getNextAddress abs p a core).
Proof.
  assert (forall k depth ghb size index x l, no_fuel_error (ghb_depth k depth ghb size index x l)) as Hd.
  { intros k. induction k as [|k IH]; intros; cbn [ghb_depth]; nofuel; auto. }
  assert (forall k p index x l, no_fuel_error (ghb_width k p index x l)) as Hw.
  { intros k. induction k as [|k IH]; intros; cbn [ghb_width]; nofuel; auto. }
  destruct p as [p|p]; cbn [getNextAddress].
  - unfold simple_getNextAddress. nofuel.
  - unfold ghb_getNextAddress, ghb_prefetches, ghb_record, entry_live. nofuel; auto.
Qed.

Section traffic.
Context {P I D : Type} `{!ReplacementPolicy P I, !ReplacementPolicyOk P I, !PolicyTerminates P I}
  `{!DramCntlrInterface D, !DramCntlrOk D} (cfg : DramCacheCfg) (b : CacheBase).
Context (Hbs : 0 <= dcc_block_size cfg).
Implicit Types (s : DramCache P I D).
Local Abbreviation cache_lines s := (lines (dc_cache s)).

(** The cache is well formed; [t] reads of the memory were not for prefetches, [r] of the
    reads missed. *)
Record St (t r : Z) s : Prop := {
  st_wf : cache_wf (dc_cache s);
  st_base : c_base (dc_cache s) = b;
  st_queue : match dc_queue_model s with Some q => queue_ok q | None => True end;
  st_dram : dram_wf (dc_dram_cntlr s);
  st_traffic : u64 (read_count (dc_dram_cntlr s) - m_prefetches s) = u64 t;
  st_misses : dc_read_misses s = r
}.

Lemma St_cache t r c s : cache_wf c -> c_base c = b -> St t r s -> St t r (with_cache c s).
Proof. by intros ? ? []. Qed.

Lemma St_get t r a req now l w data u d s :
  St t r s -> getDataFromDram (dc_dram_cntlr s) a req now = Ok (l, w, data, u, d) -> St (t + 1) r (with_dram d s).
Proof.
  intros [H1 H2 H3 H4 H5 H6] E. destruct (proj2 (dram_get_ok _ a req now H4) _ _ _ _ _ E) as [Hd Hc].
  split; try done. cbn. rewrite Hc, wrap_sub_l by lia.
  replace (read_count (dc_dram_cntlr s) + 1 - m_prefetches s) with (read_count (dc_dram_cntlr s) - m_prefetches s + 1) by lia.
  by rewrite <- wrap_add_l, H5, wrap_add_l by lia.
Qed.

Lemma St_put t r a req data now l w d s :
  St t r s -> putDataToDram (dc_dram_cntlr s) a req data now = Ok (l, w, d) -> St t r (with_dram d s).
Proof.
  intros [H1 H2 H3 H4 H5 H6] E. destruct (proj2 (dram_put_ok _ a req data now H4) _ _ _ E) as [Hd Hc].
  split; try done. cbn. by rewrite Hc.
Qed.

Lemma St_prefetch t r mshr s : St (t + 1) r s -> St t r (with_prefetch mshr s).
Proof.
  intros [H1 H2 H3 H4 H5 H6]. split; try done. cbn. unfold wrap in *.
  rewrite Zminus_mod_idemp_r. replace (read_count (dc_dram_cntlr s) - (m_prefetches s + 1))
    with (read_count (dc_dram_cntlr s) - m_prefetches s - 1) by lia.
  rewrite <- Zminus_mod_idemp_l, H5, Zminus_mod_idemp_l. f_equal. lia.
Qed.

(** *** Operations *)

Lemma wp_peek a s (Q : option (nat * nat) -> DramCache P I D -> Prop) :
  cache_wf (dc_cache s) -> in_width 64 a ->
  (forall p, (is_Some p <-> line_of (c_base (dc_cache s)) a ∈ cache_lines s) -> Q p s) -> wp (peek a) Q s.
Proof.
  intros Hc Ha HQ. destruct (peek_line_spec (dc_cache s) a Hc Ha) as (p & Ep & Hp).
  unfold peek. apply wp_bind, wp_gets. apply wp_lift; [rewrite Ep; done|]. rewrite Ep. intros p' [= <-]. by apply HQ.
Qed.

Lemma wp_on_block t r p f s (Q : unit -> DramCache P I D -> Prop) :
  St t r s -> (forall x, m_tag (f x) = m_tag x) ->
  (forall s', St t r s' -> cache_lines s' = cache_lines s -> m_prefetcher s' = m_prefetcher s -> Q tt s') ->
  wp (on_block p f) Q s.
Proof.
  intros Hs Hf HQ. destruct p as [[i w]|]; [|by apply wp_fail]. apply wp_modify.
  destruct (update_block_ok (dc_cache s) i w f Hf (st_wf _ _ _ Hs)) as [Hwf Hl].
  apply HQ; [|exact Hl|done]. apply St_cache; [done|apply (st_base _ _ _ Hs)|done].
Qed.

Lemma wp_accessDataArray t r now s (Q : Z * list (Z * shmem_times_type_t) -> DramCache P I D -> Prop) :
  St t r s -> (forall x s', St t r s' -> dc_cache s' = dc_cache s -> m_prefetcher s' = m_prefetcher s -> Q x s') ->
  wp (dc_accessDataArray cfg now) Q s.
Proof.
  intros Hs HQ. unfold dc_accessDataArray. apply wp_bind, wp_lift; [unfold bw_getRoundedLatency, st_div; nofuel|].
  intros pt _. apply wp_bind, wp_gets. pose proof (st_queue _ _ _ Hs) as Hq. destruct (dc_queue_model s) as [q|] eqn:Eq.
  - destruct (computeQueueDelay_ok (dcc_pow_root cfg) (dcc_global_time cfg) q now pt Hq) as [Hf Hok].
    apply wp_bind, wp_bind, wp_lift; [done|]. intros [d q'] E. apply wp_bind, wp_modify, wp_ret, wp_ret.
    apply HQ; [|done|done]. destruct Hs. split; try done. by eapply Hok.
  - apply wp_bind, wp_ret, wp_ret. by apply HQ.
Qed.

Lemma wp_insertLine t r ac a req data now s (Q : unit -> DramCache P I D -> Prop) :
  St t r s -> in_width 64 a -> line_of b a ∉ cache_lines s ->
  (forall s', St t r s' -> m_prefetcher s' = m_prefetcher s -> Q tt s') -> wp (insertLine cfg ac a req data now) Q s.
Proof.
  intros Hs Ha Hnin HQ. unfold insertLine. apply wp_bind, wp_gets, wp_bind, wp_lift.
  { apply no_fuel_insert, (st_wf _ _ _ Hs). }
  intros i Ei. eapply insert_line_spec in Ei as (Hwf & Hb & _); [|apply (st_wf _ _ _ Hs)|done|by rewrite (st_base _ _ _ Hs)].
  apply wp_bind, wp_modify. assert (St t r (with_cache (li_cache i) s)) as Hs1.
  { apply St_cache; [done|by rewrite Hb, (st_base _ _ _ Hs)|done]. }
  apply wp_bind, wp_peek; [exact Hwf|done|]. intros p _. apply wp_bind.
  eapply wp_on_block; [exact Hs1|done|]. intros s2 Hs2 _ Hp2. apply wp_bind.
  eapply wp_accessDataArray; [exact Hs2|]. intros x s3 Hs3 _ Hp3. destruct (_ && _).
  - apply wp_bind, wp_gets, wp_bind, wp_lift; [apply dram_put_ok, (st_dram _ _ _ Hs3)|]. intros [[l w] d] E.
    apply wp_modify, HQ; [by eapply St_put|]. cbn. by rewrite Hp3, Hp2.
  - apply wp_ret, HQ; [done|]. by rewrite Hp3, Hp2.
Qed.

Lemma wp_prefetch_line t r now a s (Q : unit -> DramCache P I D -> Prop) :
  St t r s -> in_width 64 a -> (forall s', St t r s' -> Q tt s') -> wp (prefetch_line cfg now a) Q s.
Proof.
  intros Hs Ha HQ. unfold prefetch_line. apply wp_bind, wp_peek; [apply (st_wf _ _ _ Hs)|done|]. intros p Hp.
  destruct p as [p|]; [by apply wp_ret, HQ|].
  apply wp_bind, wp_gets, wp_bind, wp_lift; [apply dram_get_ok, (st_dram _ _ _ Hs)|]. intros [[[[l w] data] u] d] E.
  apply wp_bind, wp_modify, wp_bind. eapply wp_insertLine; [by eapply St_get|done| |].
  { cbn. rewrite (st_base _ _ _ Hs) in Hp. intros Hin%Hp. by destruct Hin. }
  intros s1 Hs1 _. apply wp_bind, wp_peek; [apply (st_wf _ _ _ Hs1)|done|]. intros p' _. apply wp_bind.
  eapply wp_on_block; [exact Hs1|done|]. intros s2 Hs2 _ _. apply wp_bind, wp_gets, wp_bind, wp_lift.
  { unfold getCompletionTime. nofuel. apply no_fuel_find_unit. }
  intros [tc mshr] _. apply wp_modify, HQ. by apply St_prefetch.
Qed.

Lemma wp_prefetch_lines t r now l s (Q : unit -> DramCache P I D -> Prop) :
  St t r s -> Forall (in_width 64) l -> (forall s', St t r s' -> Q tt s') -> wp (prefetch_lines cfg now l) Q s.
Proof.
  intros Hs Hl HQ. revert s Hs. induction Hl as [|a l Ha _ IH]; intros s Hs; cbn [prefetch_lines]; [by apply wp_ret, HQ|].
  apply wp_bind. eapply wp_prefetch_line; [exact Hs|done|]. intros s' Hs'. by apply IH.
Qed.

Lemma wp_callPrefetcher t r p a hit phit now s (Q : unit -> DramCache P I D -> Prop) :
  St t r s -> (forall s', St t r s' -> Q tt s') -> wp (callPrefetcher cfg p a hit phit now) Q s.
Proof.
  intros Hs HQ. unfold callPrefetcher. apply wp_bind, wp_lift; [apply no_fuel_prefetch|]. intros [l p'] E.
  apply wp_bind, wp_modify. assert (St t r (with_prefetcher (Some p') s)) as Hs1 by (by destruct Hs).
  destruct (_ || _); [|by apply wp_ret, HQ].
  eapply wp_prefetch_lines; [exact Hs1|by eapply prefetch_width|done].
Qed.

Lemma wp_prefetch_hit_latency t r p a now lat s (Q : Z -> DramCache P I D -> Prop) :
  St t r s -> (forall x s', St t r s' -> cache_lines s' = cache_lines s -> Q x s') ->
  wp (prefetch_hit_latency p a now lat) Q s.
Proof.
  intros Hs HQ. unfold prefetch_hit_latency. apply wp_bind, wp_gets, wp_bind, wp_modify, wp_bind.
  eapply wp_on_block; [|done|].
  - instantiate (1 := r). instantiate (1 := t). by destruct Hs.
  - intros s' Hs' Hl _. apply wp_ret, HQ; [done|]. by rewrite Hl.
Qed.

Lemma wp_hit t r ac a data now lat p s (Q : bool * Z * list Z * list (Z * shmem_times_type_t) -> DramCache P I D -> Prop) ups :
  St t r s -> in_width 64 a -> (forall x s', St t r s' -> Q x s') ->
  wp (let '(i, way) := p in
      c ← gets dc_cache;
      b ← lift_res (cache_peekBlock c i way);
      let prefetch_hit := hasOption b PREFETCH in
      latency ← (if prefetch_hit then prefetch_hit_latency (i, way) a now lat else mret lat);
      c ← gets dc_cache;
      '(_, out, c) ← lift_res (accessSingleLine c a ac (Some data) (dcc_block_size cfg) true);
      _ ← modify (with_cache c);
      '(d, ups') ← dc_accessDataArray cfg (st_add now latency);
      _ ← match ac with STORE => on_block (Some (i, way)) (fun b => setCState b MODIFIED) | _ => mret tt end;
      mret (prefetch_hit, st_add latency d, default data out, ups ++ ups')) Q s.
Proof.
  intros Hs Ha HQ. destruct p as [i way]. apply wp_bind, wp_gets, wp_bind, wp_lift; [unfold cache_peekBlock, peekBlock; nofuel|].
  intros bl _. cbn zeta. apply wp_bind. apply (wp_mono _ (fun _ => St t r)).
  { destruct (hasOption bl PREFETCH); [|by apply wp_ret]. eapply wp_prefetch_hit_latency; [exact Hs|auto]. }
  intros lat' s1 Hs1. apply wp_bind, wp_gets, wp_bind, wp_lift; [apply no_fuel_access|]. intros [[hit out] c] E.
  eapply access_line_spec in E as (Hwf & _ & _ & Hb); [|apply (st_wf _ _ _ Hs1)|done..].
  apply wp_bind, wp_modify. apply wp_bind. eapply wp_accessDataArray.
  { apply St_cache; [exact Hwf| |exact Hs1]. by rewrite Hb, (st_base _ _ _ Hs1). }
  intros [d u] s2 Hs2 _ _. apply wp_bind. apply (wp_mono _ (fun _ => St t r)).
  { destruct ac; try by apply wp_ret. by eapply wp_on_block; [exact Hs2|done|]. }
  intros _ s3 Hs3. apply wp_ret, HQ, Hs3.
Qed.

(** An access hits exactly when its line is held; only a read miss reads the memory. *)
Lemma wp_doAccess t r ac a req data now s :
  St t r s -> in_width 64 a ->
  wp (doAccess cfg ac a req data now) (fun '(hit, _, _, _) s' =>
    hit = bool_decide (line_of b a ∈ cache_lines s) /\
    St (if hit : bool then t else match ac with LOAD => t + 1 | _ => t end) r s') s.
Proof.
  intros Hs Ha. unfold doAccess. apply wp_bind, wp_peek; [apply (st_wf _ _ _ Hs)|done|]. intros p Hp.
  rewrite (st_base _ _ _ Hs) in Hp. cbn zeta. apply wp_bind.
  set (t' := if bool_decide (is_Some p) then t else match ac with LOAD => t + 1 | _ => t end).
  apply (wp_mono _ (fun _ => St t' r)).
  - subst t'. destruct p as [p|]; cbn [bool_decide].
    + pose proof (fun Q => wp_hit t r ac a data now (dcc_tags_access_time cfg) p s Q) as Hh.
      destruct p as [i way]. by apply Hh.
    + apply wp_bind. apply (wp_mono _ (fun _ s' => St (match ac with LOAD => t + 1 | _ => t end) r s' /\ dc_cache s' = dc_cache s)).
      * destruct ac; try by apply wp_ret. apply wp_bind, wp_gets, wp_bind, wp_lift; [apply dram_get_ok, (st_dram _ _ _ Hs)|].
        intros [[[[l w] dt] u] d] E. apply wp_bind, wp_modify, wp_ret. split; [by eapply St_get|done].
      * intros [[l dt] u] s1 [Hs1 Ec]. apply wp_bind. eapply wp_insertLine; [exact Hs1|done| |].
        { rewrite Ec. intros Hin%Hp. by destruct Hin. }
        intros s2 Hs2 _. by apply wp_ret.
  - intros [[[ph l] dt] u] s1 Hs1. apply wp_bind, wp_gets, wp_bind. apply (wp_mono _ (fun _ => St t' r)).
    { destruct (m_prefetcher s1); [|by apply wp_ret]. by eapply wp_callPrefetcher. }
    intros _ s2 Hs2. apply wp_ret. cbn. split; [|done]. by apply bool_decide_ext.
Qed.
End traffic.

(** The controller is such an implementation. *)
Section controller_ok.
Context {G : Type} (env : DramEnv G) (manager : option FaultinjectionManager) (n : Z).
#[local] Existing Instance DramCntlr_dram.

Lemma dram_get_terminates (d : DramCntlr G) a r t :
  dram_queues_ok (m_dram_perf_model d) ->
  no_fuel_error (dram_get env manager n d a r t) /\
  forall l w b u d', dram_get env manager n d a r t = Ok (l, w, b, u, d') ->
    dram_queues_ok (m_dram_perf_model d') /\ dram_reads d' = u64 (dram_reads d + 1).
Proof.
  intros Hq. unfold dram_get, read_block, preRead. split.
  - nofuel; by apply getAccessLatency_ok.
  - intros l w b u d' H. res_inv H. destruct a0 as [[data map] inj]. res_inv H. destruct a0 as [[lat ups] m].
    simplify_eq. split; [|done]. by eapply getAccessLatency_ok.
Qed.

Lemma dram_put_terminates (d : DramCntlr G) a r b t :
  dram_queues_ok (m_dram_perf_model d) ->
  no_fuel_error (dram_put env manager n d a r b t) /\
  forall l w d', dram_put env manager n d a r b t = Ok (l, w, d') ->
    dram_queues_ok (m_dram_perf_model d') /\ dram_reads d' = dram_reads d.
Proof.
  intros Hq. unfold dram_put, postWrite. split.
  - nofuel; by apply getAccessLatency_ok.
  - intros l w d' H. res_inv H. destruct a0 as [map inj]. res_inv H. destruct a0 as [[lat ups] m].
    simplify_eq. split; [|done]. by eapply getAccessLatency_ok.
Qed.

Definition DramCntlr_ok : DramCntlrOk (DramCntlr G) (DramCntlrInterface0 := DramCntlr_dram env manager n) :=
  Build_DramCntlrOk (DramCntlr G) (DramCntlr_dram env manager n) (fun d => dram_queues_ok (m_dram_perf_model d)) dram_reads
    dram_get_terminates dram_put_terminates.
End controller_ok.

Definition dram_op_addr (op : dram_op) : Z := match op with DGet a => a | DPut a _ => a end.

Section run.
Context {P I D : Type} `{!ReplacementPolicy P I, !ReplacementPolicyOk P I, !PolicyTerminates P I}
  `{!DramCntlrInterface D, !DramCntlrOk D} (cfg : DramCacheCfg) (b : CacheBase).
Context (Hbs : 0 <= dcc_block_size cfg).
Implicit Types (s : DramCache P I D).
#[local] Existing Instance DramCache_dram | 0.
Local Abbreviation ops_of := (dram_ops (DramCntlrInterface0 := DramCache_dram cfg)).

(** Since there were [r0] reads of the memory, there was one for each read miss and each
    prefetch. *)
Definition traffic_inv (r0 : Z) s : Prop := St b (r0 + dc_read_misses s) (dc_read_misses s) s.

Lemma dc_get_inv r0 s a req now :
  traffic_inv r0 s -> in_width 64 a -> no_fuel_error (dc_get cfg s a req now) /\
  forall l w data u s', dc_get cfg s a req now = Ok (l, w, data, u, s') -> traffic_inv r0 s'.
Proof.
  intros Hs Ha. pose proof (wp_doAccess cfg b Hbs _ _ LOAD a req (dcc_stack_buf cfg) now s Hs Ha) as H.
  unfold dc_get. split.
  - apply no_fuel_bind; [by eapply wp_no_fuel|]. intros [[[[hit l] dt] u] s'] _. done.
  - intros l w data u s' E. res_inv E. destruct a0 as [[[[hit l1] dt] u1] s1]. simplify_eq.
    eapply wp_ok in H; [|exact E0]. destruct H as [_ H]. unfold traffic_inv. pose proof (st_misses _ _ _ _ H) as Hm.
    destruct hit; cbn [negb count_read dc_read_misses]; rewrite Hm; destruct H as [H1 H2 H3 H4 H5 H6]; (split; try done); cbn.
    2: by rewrite H6.
    rewrite H5. unfold wrap. rewrite Zplus_mod_idemp_r. f_equal. lia.
Qed.

Lemma dc_put_inv r0 s a req data now :
  traffic_inv r0 s -> in_width 64 a -> no_fuel_error (dc_put cfg s a req data now) /\
  forall l w s', dc_put cfg s a req data now = Ok (l, w, s') -> traffic_inv r0 s'.
Proof.
  intros Hs Ha. pose proof (wp_doAccess cfg b Hbs _ _ STORE a req data now s Hs Ha) as H. unfold dc_put. split.
  - apply no_fuel_bind; [by eapply wp_no_fuel|]. intros [[[[hit l] dt] u] s'] _. done.
  - intros l w s' E. res_inv E. destruct a0 as [[[[hit l1] dt] u1] s1]. simplify_eq.
    eapply wp_ok in H; [|exact E0]. destruct H as [_ H]. unfold traffic_inv. cbn [count_write dc_read_misses].
    rewrite (st_misses _ _ _ _ H). by destruct hit; destruct H.
Qed.

Lemma dc_ops_inv r0 req ops now s :
  traffic_inv r0 s -> Forall (fun op => in_width 64 (dram_op_addr op)) ops ->
  no_fuel_error (ops_of s req now ops) /\ forall obs s', ops_of s req now ops = Ok (obs, s') -> traffic_inv r0 s'.
Proof.
  intros Hs Hops. revert now s Hs. induction Hops as [|op ops Hop _ IH]; intros now s Hs; cbn [dram_ops].
  { split; [done|]. by intros obs s' [= <- <-]. }
  destruct op as [a|a data]; cbn [getDataFromDram putDataToDram DramCache_dram].
  - destruct (dc_get_inv r0 s a req now Hs Hop) as [Hf Hok]. split.
    + apply no_fuel_bind; [done|]. intros [[[[l w] dt] u] s1] E%Hok. nofuel. by apply IH.
    + intros obs s' H. res_inv H. destruct a0 as [[[[l w] dt] u] s1]. specialize (Hok _ _ _ _ _ eq_refl). res_inv H.
      destruct a0 as [obs1 s2]. simplify_eq. by eapply IH.
  - destruct (dc_put_inv r0 s a req data now Hs Hop) as [Hf Hok]. split.
    + apply no_fuel_bind; [done|]. intros [[l w] s1] E%Hok. by apply IH.
    + intros obs s' H. res_inv H. destruct a0 as [[l w] s1]. specialize (Hok _ _ _ eq_refl). by eapply IH.
Qed.
End run.

Section new_cache.
Context (pcfg : PolicyCfg) (cfg : DramCacheCfg) (cache_size associativity l : Z) (name hash : string)
  (policy : ReplacementPolicyName) (faults : bool) (ahl : option AddressHomeLookup) (qcfg : QueueCfg)
  (qm : option string) (fcfg : PrefetchCfg) (prefetcher : string) (domain : pref).

Record dram_cache_config_ok : Prop := {
  dco_block : 1 <= l <= 31;
  dco_block_size : dcc_block_size cfg = 2 ^ l;
  dco_size : 0 < 1024 * cache_size < 2 ^ 32;
  dco_ways : 0 < associativity <= 256;
  dco_way_size : associativity * 2 ^ l < 2 ^ 32;
  dco_home : match ahl with Some a => ahl_wf a /\ l <= m_ahl_param a | None => True end;
  dco_policy : parsePolicyType name = Ok policy;
  dco_policy_cfg : cfg_ok pcfg policy (Z.to_nat associativity);
  dco_terminating : terminating policy = true;
  dco_window : 1 <= qc_moving_avg_window_size qcfg < 2 ^ 31
}.

Lemma DramCache_new_inv {D} `{!DramCntlrInterface D, !DramCntlrOk D} (d : D) s :
  dram_cache_config_ok -> dram_wf d ->
  DramCache_new pcfg cfg cache_size associativity name hash faults ahl qcfg qm fcfg prefetcher domain d = Ok s ->
  exists b, traffic_inv (ReplacementPolicyOk0 := Any_policy_ok policy) b (read_count d) s /\
    m_num_sets b * Z.of_nat (cb_associativity b) * 2 ^ l = 1024 * cache_size /\ 0 <= m_num_sets b.
Proof.
  intros [Hl Hbs Hsz Ha Hway Hahl Hp Hcfg _ Hw] Hd H. unfold DramCache_new in H. rewrite Hbs in H.
  assert (0 < 2 ^ l) by lia. assert (0 < associativity * 2 ^ l) by lia.
  rewrite (wrap_small 32 (associativity * 2 ^ l)), (wrap_small 32 (1024 * cache_size)) in H by lia.
  destruct (Z.eqb_spec (associativity * 2 ^ l) 0); [lia|]. set (num_sets := 1024 * cache_size / (associativity * 2 ^ l)) in H.
  pose proof (Z.mul_div_le (1024 * cache_size) (associativity * 2 ^ l) ltac:(lia)) as Hdiv. fold num_sets in Hdiv.
  assert (0 <= num_sets) by (apply Z.div_pos; lia). assert (num_sets <= num_sets * (associativity * 2 ^ l)) by nia.
  res_inv H. unfold assert_ in E. rewrite wrap_small in E by lia. 
  destruct (Z.eqb_spec (1024 * cache_size) (num_sets * associativity * 2 ^ l)); [|done].
  clearbody num_sets. assert (num_sets <> 0) by (intros ->; lia). assert (0 < num_sets < 2 ^ 32) as Hn by lia.
  assert (0 < Z.to_nat associativity <= 256)%nat as Haw by lia. assert (a0 <> INVALID_HASH_TYPE) as Hh.
  { unfold parseAddressHash in E0. repeat (case_bool_decide; [by simplify_eq|]). done. }
  destruct (Cache_new_wf _ _ _ _ _ _ _ _ _ _ _ _ Hl Hn Haw Hh Hahl Hp Hcfg E1) as (Hwf & _ & Hns & Has & _).
  simplify_eq. exists (c_base a1). rewrite Has, Z2Nat.id by lia. split; [|lia]. split; cbn; try done.
  - destruct qm; [|by simplify_eq]. res_inv E2. simplify_eq. by eapply QueueModel_create_ok.
Qed.

(** C38: A DRAM cache of any configuration whose replacement policy terminates, in front of any
    implementation of the DRAM interface that terminates and counts its reads: on every
    sequence of accesses the operations end; the memory is read once for each read that misses
    and once for each prefetch, and never for a write; the lines held never exceed the size of
    the cache. *)
Theorem dram_cache_traffic {D} `{!DramCntlrInterface D, !DramCntlrOk D} (d : D) (req now : Z) (ops : list dram_op)
    (s : DramCache AnyPolicy AnyInfo D) :
  dram_cache_config_ok -> dram_wf d -> Forall (fun op => in_width 64 (dram_op_addr op)) ops ->
  DramCache_new pcfg cfg cache_size associativity name hash faults ahl qcfg qm fcfg prefetcher domain d = Ok s ->
  no_fuel_error (dram_ops (DramCntlrInterface0 := DramCache_dram cfg) s req now ops) /\
  forall obs s', dram_ops (DramCntlrInterface0 := DramCache_dram cfg) s req now ops = Ok (obs, s') ->
    u64 (read_count (dc_dram_cntlr s') - m_prefetches s') = u64 (read_count d + dc_read_misses s') /\
    Z.of_nat (base.size (lines (dc_cache s'))) * 2 ^ l <= 1024 * cache_size.
Proof.
  intros Hcfg Hd Hops H. pose proof Hcfg as [Hl Hbs _ _ _ _ _ _ Ht _].
  destruct (DramCache_new_inv d s Hcfg Hd H) as (b & Hs & Hcap & Hb).
  pose proof (Any_terminates policy Ht) as Hterm.
  destruct (dc_ops_inv (ReplacementPolicyOk0 := Any_policy_ok policy) cfg b ltac:(lia) _ req ops now s Hs Hops) as [Hf Hok].
  split; [exact Hf|]. intros obs s' [H1 H2 _ _ H5 _]%Hok. split; [exact H5|].
  pose proof (size_lines (ReplacementPolicyOk0 := Any_policy_ok policy) _ H1) as Hsize. rewrite H2 in Hsize.
  assert (0 < 2 ^ l) by lia. nia.
Qed.
End new_cache.

(** A cache of 1 KB, 2-way, with a simple prefetcher of one flow, in front of the controller. *)
Definition traffic_pf : PrefetchCfg := mkPrefetchCfg 1 false 3 false 1 1 1 1.
Definition traffic_queue : QueueCfg := mkQueueCfg false 1 "" false 1 1 0%nat.
Definition traffic_cache (d : DramCntlr unit) : res (DramCache AnyPolicy AnyInfo (DramCntlr unit)) :=
  DramCache_new cache_example_cfg example_dcc 1 2 "lru" "mask" true None traffic_queue (Some "contention"%string)
    traffic_pf "simple" 0%nat d.
Definition traffic_ops : list dram_op := [DGet 0; DGet 64; DPut 64 ones; DGet 128; DGet 1024].

Lemma dram_cache_traffic_witness :
  exists d s obs s', example_dram = Ok d /\ traffic_cache d = Ok s /\
    dram_ops (DramCntlrInterface0 := DramCache_dram (DramCntlrInterface0 := example_backend) example_dcc) s 0 10
      traffic_ops = Ok (obs, s') /\
    (dram_reads (dc_dram_cntlr s'), dc_read_misses s', m_prefetches s') = (7, 3, 4) /\
    u64 (dram_reads (dc_dram_cntlr s') - m_prefetches s') = u64 (dram_reads d + dc_read_misses s') /\
    Z.of_nat (base.size (lines (dc_cache s'))) * 2 ^ 6 <= 1024 * 1.
Proof.
  destruct example_dram as [d|] eqn:Ed; [|vm_compute in Ed; discriminate Ed].
  destruct (traffic_cache d) as [s|] eqn:Es; [|vm_compute in Ed; injection Ed as <-; vm_compute in Es; discriminate Es].
  assert (dram_cache_config_ok cache_example_cfg example_dcc 1 2 6 "lru" LRU None traffic_queue) as Hcfg.
  { split; try done; lia. }
  destruct (dram_cache_traffic (DramCntlrOk0 := DramCntlr_ok example_dram_env (Some example_manager) 64)
    cache_example_cfg example_dcc 1 2 6 "lru" "mask" LRU true None traffic_queue (Some "contention"%string) traffic_pf
    "simple" 0%nat d 0 10 traffic_ops s Hcfg) as [_ H]; [|repeat (constructor; [done|]); constructor|exact Es|].
  { vm_compute in Ed. injection Ed as <-. exact Logic.I. }
  change (DramCntlr_dram example_dram_env (Some example_manager) 64) with example_backend in H.
  destruct (dram_ops (DramCntlrInterface0 := DramCache_dram (DramCntlrInterface0 := example_backend) example_dcc) s 0 10
    traffic_ops) as [[obs s']|] eqn:E.
  - destruct (H obs s' eq_refl) as [H1 H2]. exists d, s, obs, s'. split_and!; try done.
    vm_compute in Ed. injection Ed as <-. vm_compute in Es. injection Es as <-. vm_compute in E. injection E as _ <-. done.
  - vm_compute in Ed. injection Ed as <-. vm_compute in Es. injection Es as <-. vm_compute in E. discriminate E.
Defined.
