(* ===== verification/NucaCache.v ===== *)
(** * The NUCA cache

    Models src/common/core/memory_subsystem/parametric_dram_directory_msi/
    nuca_cache.{h,cc}: the slice of last-level cache next to a tag directory, as
    a Cache with a queue model for its data array, and makes it an instance of
    the interface that the directory controller uses.  The contents of buffers
    are given by a parameter, since the controller only handles pointers. *)

From stdpp Require Import gmap.
From S2P Require Import Prelude StateMonad SubsecondTime AddressHomeLookup CacheBlockInfo CacheSet CachePolicy Cache CacheSetLRU FaultInjection ShmemPerf MovingAverage ContentionModel QueueModelHistoryList QueueModel DirectoryEntry DramDirectoryCache ReqQueueList DramDirectoryCntlr DirectoryCoherence.

Record NucaSlice (P I : Type) := mkNuca {
  m_cache : Cache P I;
  m_queue_model : option QueueModel;
  m_reads : Z;
  m_writes : Z;
  m_read_misses : Z;
  m_write_misses : Z
}.
Arguments mkNuca {P I} _ _ _ _ _ _.
Arguments m_cache {P I} _.
Arguments m_queue_model {P I} _.
Arguments m_reads {P I} _.
Arguments m_writes {P I} _.
Arguments m_read_misses {P I} _.
Arguments m_write_misses {P I} _.

(** The fields that do not change, the global time that the M/G/1 queue model asks for, and the
    [pow] of the C library. *)
Record NucaCfg := mkNucaCfg {
  nc_cache_block_size : Z;
  m_data_access_time : Z;
  m_tags_access_time : Z;
  m_data_array_bandwidth : ComponentBandwidth;
  nc_global_time : Z;
  nc_pow_root : Z -> Z -> Z
}.

(** The constructor: the cache has no fault injector, and a queue model if it is configured. *)
Definition NucaCache_new (pcfg : PolicyCfg) (cfg : NucaCfg) (num_sets : Z) (assoc : nat)
    (replacement_policy hash_function : string) (faults : bool) (home_lookup : option AddressHomeLookup)
    (qcfg : QueueCfg) (queue_model : option string) : res (NucaSlice AnyPolicy AnyInfo) :=
  h ← parseAddressHash hash_function;
  c ← Cache_new pcfg num_sets assoc (nc_cache_block_size cfg) replacement_policy PR_L1_CACHE h None
        faults home_lookup;
  q ← match queue_model with
      | Some type =>
          t ← bw_getRoundedLatency (m_data_array_bandwidth cfg) (u32 (8 * nc_cache_block_size cfg));
          q ← QueueModel_create qcfg type t; Ok (Some q)
      | None => Ok None
      end;
  Ok (mkNuca c q 0 0 0 0).

Section nuca.
Context {P I : Type} `{!ReplacementPolicy P I} (cfg : NucaCfg).
Implicit Types (n : NucaSlice P I).

(** The delay, the queue model, and the calls of [perf->updateTime]. *)
Definition accessDataArray (q : option QueueModel) (t_start : Z)
  : res (Z * option QueueModel * list (Z * shmem_times_type_t)) :=
  '(queue_delay, q, updates) ←
    match q with
    | Some q =>
        processing_time ← bw_getRoundedLatency (m_data_array_bandwidth cfg) (u32 (8 * nc_cache_block_size cfg));
        '(d, q) ← computeQueueDelay (nc_pow_root cfg) (nc_global_time cfg) q t_start processing_time;
        let queue_delay := st_add processing_time d in
        Ok (queue_delay, Some q,
            [(st_add t_start processing_time, NUCA_BUS); (st_add t_start queue_delay, NUCA_QUEUE)])
    | None => Ok (0, None, [])
    end;
  Ok (st_add queue_delay (m_data_access_time cfg), q,
      (t_start, UNKNOWN) :: updates ++
      [(st_add (st_add t_start queue_delay) (m_data_access_time cfg), NUCA_DATA)]).

Definition count_if (count : bool) (x : Z) : Z := if count then u64 (x + 1) else x.

(** [data_buf] is where a hit copies the line to; the bytes copied are the last result. *)
Definition NucaCache_read n (address : Z) (data_buf : option (list Z)) (now : Z) (count : bool)
  : res (Z * where_t * list (Z * shmem_times_type_t) * NucaSlice P I * option (list Z)) :=
  block_info ← peekSingleLine (m_cache n) address;
  let latency := m_tags_access_time cfg in
  let updates := [(now, UNKNOWN); (st_add now latency, NUCA_TAGS)] in
  match block_info with
  | Some _ =>
      '(_, out, c) ← accessSingleLine (m_cache n) address LOAD data_buf (nc_cache_block_size cfg) true;
      '(d, q, updates') ← accessDataArray (m_queue_model n) (st_add now latency);
      Ok (st_add latency d, W_NUCA_CACHE, updates ++ updates',
          mkNuca c q (count_if count (m_reads n)) (m_writes n) (m_read_misses n) (m_write_misses n), out)
  | None =>
      Ok (latency, W_MISS, updates,
          mkNuca (m_cache n) (m_queue_model n) (count_if count (m_reads n)) (m_writes n)
            (count_if count (m_read_misses n)) (m_write_misses n), None)
  end.

(** [block_info->setCState(s)] *)
Definition set_cstate (c : Cache P I) (set_index way : nat) (s : cstate_t) : Cache P I :=
  update_block c set_index way (fun b => setCState b s).

(** [eviction] and [evict_address] are the values that the caller's variables hold; the last
    result is what was copied to [evict_buf]. *)
Definition NucaCache_write n (address : Z) (data_buf : option (list Z)) (eviction : bool)
    (evict_address now : Z) (count : bool)
  : res (Z * where_t * bool * Z * NucaSlice P I * option (list Z)) :=
  block_info ← peekSingleLine (m_cache n) address;
  let latency := m_tags_access_time cfg in
  match block_info with
  | Some (set_index, way) =>
      let c := set_cstate (m_cache n) set_index way MODIFIED in
      '(_, _, c) ← accessSingleLine c address STORE data_buf (nc_cache_block_size cfg) true;
      '(d, q, _) ← accessDataArray (m_queue_model n) (st_add now latency);
      Ok (st_add latency d, W_NUCA_CACHE, eviction, evict_address,
          mkNuca c q (m_reads n) (count_if count (m_writes n)) (m_read_misses n) (m_write_misses n), None)
  | None =>
      evict_block_info ← create PR_L1_CACHE;
      r ← insertSingleLine (m_cache n) address data_buf evict_block_info true None;
      (* unless the data is dirty, the caller does not write it back *)
      let eviction := li_eviction r && bool_decide (m_cstate (li_evict_info r) = MODIFIED) in
      Ok (latency, W_MISS, eviction, li_evict_addr r,
          mkNuca (li_cache r) (m_queue_model n) (m_reads n) (count_if count (m_writes n))
            (m_read_misses n) (count_if count (m_write_misses n)), li_evict_buff r)
  end.
End nuca.

(** ** Lines held by the NUCA cache *)

Section nuca_lines.
Context {P I : Type} `{!ReplacementPolicy P I, !ReplacementPolicyOk P I} (cfg : NucaCfg).
Implicit Types (n : NucaSlice P I).

(** Changing the state of a block keeps the cache well formed and its lines. *)
Lemma set_cstate_ok (c : Cache P I) i way s :
  cache_wf c -> cache_wf (set_cstate c i way s) /\ lines (set_cstate c i way s) = lines c.
Proof. intros Hc. by apply update_block_ok. Qed.

Lemma nuca_read_spec n a buf now count lat w ups n' out :
  cache_wf (m_cache n) -> in_width 64 a -> 0 <= nc_cache_block_size cfg ->
  NucaCache_read cfg n a buf now count = Ok (lat, w, ups, n', out) ->
  cache_wf (m_cache n') /\ lines (m_cache n') = lines (m_cache n) /\ c_base (m_cache n') = c_base (m_cache n) /\
  w = (if decide (line_of (c_base (m_cache n)) a ∈ lines (m_cache n)) then W_NUCA_CACHE else W_MISS).
Proof.
  intros Hc Ha Hbs H. unfold NucaCache_read in H.
  destruct (peek_line_spec (m_cache n) a Hc Ha) as (r & Er & Hr). rewrite Er in H. cbn [mbind res_bind] in H.
  destruct r as [r|].
  - res_inv H. destruct a0 as [[? ?] c]. res_inv H. destruct a0 as [[d q] ups']. simplify_eq. cbn [m_cache].
    eapply access_line_spec in E as (Hwf & Hl & _ & Hb); try done.
    split_and!; try done. rewrite decide_True; [done|]. by apply Hr.
  - simplify_eq. cbn [m_cache]. split_and!; try done. rewrite decide_False; [done|]. intros Hin%Hr. by destruct Hin.
Qed.

Lemma nuca_write_lines n a buf ev ea now count lat w ev' ea' n' out :
  cache_wf (m_cache n) -> in_width 64 a -> 0 <= nc_cache_block_size cfg ->
  NucaCache_write cfg n a buf ev ea now count = Ok (lat, w, ev', ea', n', out) ->
  cache_wf (m_cache n') /\ c_base (m_cache n') = c_base (m_cache n) /\
  let line := line_of (c_base (m_cache n)) in
  if decide (line a ∈ lines (m_cache n)) then
    w = W_NUCA_CACHE /\ lines (m_cache n') = lines (m_cache n) /\ ev' = ev /\ ea' = ea
  else
    w = W_MISS /\ exists evicted : option Z,
      lines (m_cache n') = {[line a]} ∪ (lines (m_cache n) ∖ (if evicted is Some e then {[e]} else ∅)) /\
      (ev' = true -> evicted = Some (line ea') /\ line ea' ∈ lines (m_cache n)).
Proof.
  intros Hc Ha Hbs H. unfold NucaCache_write in H.
  destruct (peek_line_spec (m_cache n) a Hc Ha) as (r & Er & Hr). rewrite Er in H. cbn [mbind res_bind] in H.
  destruct r as [[i way]|].
  - res_inv H. destruct a0 as [[? ?] c]. res_inv H. destruct a0 as [[d q] ups']. simplify_eq. cbn [m_cache].
    destruct (set_cstate_ok (m_cache n) i way MODIFIED Hc) as [Hwf0 Hl0].
    eapply access_line_spec in E as (Hwf & Hl & _ & Hb); try done.
    rewrite decide_True by (by apply Hr). split_and!; try done. by rewrite Hl.
  - assert (line_of (c_base (m_cache n)) a ∉ lines (m_cache n)) as Hnin by (intros Hin%Hr; by destruct Hin).
    res_inv H. simplify_eq. cbn [m_cache].
    eapply insert_line_spec in E0 as (Hwf & Hb & Hl & Hev); try done.
    rewrite decide_False by done. split_and!; try done.
    exists (if li_eviction a1 then Some (line_of (c_base (m_cache n)) (li_evict_addr a1)) else None).
    destruct (li_eviction a1); cbn [andb]; (split; [done|]); [|done]. intros _. split; [done|]. by apply Hev.
Qed.
End nuca_lines.

(** ** The NUCA cache as the directory controller sees it *)

Section termination.
Context {P I : Type} `{!ReplacementPolicy P I, !ReplacementPolicyOk P I, !PolicyTerminates P I} (cfg : NucaCfg).
Implicit Types (n : NucaSlice P I) (c : Cache P I).

(** A slice of geometry [b] whose cache is well formed and whose queue model terminates. *)
Context (b : CacheBase).
Definition slice_wf n : Prop :=
  cache_wf (m_cache n) /\ c_base (m_cache n) = b /\ 0 <= nc_cache_block_size cfg /\
  match m_queue_model n with Some q => queue_ok q | None => True end.

Lemma accessDataArray_ok q t :
  match q with Some q => queue_ok q | None => True end ->
  no_fuel_error (accessDataArray cfg q t) /\
  forall d q' ups, accessDataArray cfg q t = Ok (d, q', ups) ->
    match q' with Some q => queue_ok q | None => True end.
Proof.
  intros Hq. unfold accessDataArray. destruct q as [q|].
  - pose proof (fun pt => computeQueueDelay_ok (nc_pow_root cfg) (nc_global_time cfg) q t pt Hq) as Hd. split.
    + unfold bw_getRoundedLatency. nofuel. by apply Hd.
    + intros d q' ups H. res_inv H. destruct a as [[d1 q1] ups1]. simplify_eq. res_inv E.
      destruct a0 as [d2 q2]. simplify_eq. by eapply Hd.
  - split; [nofuel|]. intros d q' ups H. cbn in H. by simplify_eq.
Qed.

Lemma nuca_read_slice n a buf now count :
  slice_wf n -> in_width 64 a -> no_fuel_error (NucaCache_read cfg n a buf now count) /\
  forall lat w ups n' out, NucaCache_read cfg n a buf now count = Ok (lat, w, ups, n', out) -> slice_wf n'.
Proof.
  intros (Hc & Hb & Hbs & Hq) Ha. pose proof (fun t => accessDataArray_ok (m_queue_model n) t Hq) as Hd. split.
  - unfold NucaCache_read. nofuel; [apply no_fuel_peek|apply no_fuel_access|apply Hd].
  - intros lat w ups n' out H. pose proof H as Hr. eapply nuca_read_spec in Hr as (Hwf & _ & Hb' & _); [|done..].
    split_and!; [done|congruence|done|]. unfold NucaCache_read in H. res_inv H.
    match type of H with context [match ?o with Some _ => _ | None => _ end] => destruct o as [?|] end;
      [|by simplify_eq].
    res_inv H. destruct a0 as [[? ?] c']. res_inv H. destruct a0 as [[d q'] ups']. simplify_eq. by eapply Hd.
Qed.

Lemma nuca_write_slice n a buf ev ea now count :
  slice_wf n -> in_width 64 a -> no_fuel_error (NucaCache_write cfg n a buf ev ea now count) /\
  forall lat w ev' ea' n' out,
    NucaCache_write cfg n a buf ev ea now count = Ok (lat, w, ev', ea', n', out) -> slice_wf n'.
Proof.
  intros (Hc & Hb & Hbs & Hq) Ha. pose proof (fun t => accessDataArray_ok (m_queue_model n) t Hq) as Hd. split.
  - unfold NucaCache_write. nofuel; [apply no_fuel_peek|apply no_fuel_access|apply Hd|by apply no_fuel_insert].
  - intros lat w ev' ea' n' out H. pose proof H as Hr. eapply nuca_write_lines in Hr as (Hwf & Hb' & _); [|done..].
    split_and!; [done|congruence|done|]. unfold NucaCache_write in H. res_inv H.
    match type of H with context [match ?o with Some _ => _ | None => _ end] => destruct o as [[i way]|] end.
    + res_inv H. destruct a0 as [[? ?] c']. res_inv H. destruct a0 as [[d q'] ups']. simplify_eq. by eapply Hd.
    + res_inv H. by simplify_eq.
Qed.

(** [mem] is what the data buffers hold, [read_buf] and [evict_buf] are the arrays that the
    controller passes for the data read and evicted; addresses are 64-bit. *)
Context (mem : nat -> list Z) (read_buf evict_buf : nat).

#[local] Instance slice_nuca : NucaCache (NucaSlice P I) := {
  nuca_read n a now :=
    '(lat, w, ups, n, _) ← NucaCache_read cfg n (u64 a) (Some (mem read_buf)) now true;
    Ok (lat, w, Some read_buf, ups, n);
  nuca_write n a data ev ea now count :=
    '(_, _, ev, ea, n, _) ← NucaCache_write cfg n (u64 a) (mem <$> data) ev ea now count;
    Ok (ev, ea, Some evict_buf, n)
}.

(** The slice keeps the promise that the directory theorems rely on. *)
#[local] Instance slice_nuca_ok : NucaCacheOk (NucaSlice P I).
Proof.
  refine {| nuca_wf := slice_wf |}.
  - intros n a t Hn. destruct (nuca_read_slice n (u64 a) (Some (mem read_buf)) t true Hn (wrap_range 64 a ltac:(lia))) as [Hf Hw].
    cbn [nuca_read slice_nuca]. split; [nofuel|]. intros l w bf u n' H. res_inv H.
    destruct a0 as [[[[? ?] ?] ?] ?]. simplify_eq. by eapply Hw.
  - intros n a d ev ea t c Hn.
    destruct (nuca_write_slice n (u64 a) (mem <$> d) ev ea t c Hn (wrap_range 64 a ltac:(lia))) as [Hf Hw].
    cbn [nuca_write slice_nuca]. split; [nofuel|]. intros ev' ea' bf n' H. res_inv H.
    destruct a0 as [[[[[? ?] ?] ?] ?] ?]. simplify_eq. by eapply Hw.
Defined.
End termination.

(** ** Refinement: a bounded set of lines *)

Inductive nuca_op := NRead (address : Z) | NWrite (address : Z) (data : option (list Z)).

Section nuca_run.
Context {P I : Type} `{!ReplacementPolicy P I} (cfg : NucaCfg).

(** Operations at times [nows]; where each was served. *)
Fixpoint nuca_run (n : NucaSlice P I) (ops : list (nuca_op * Z)) : res (list where_t * NucaSlice P I) :=
  match ops with
  | [] => Ok ([], n)
  | (NRead a, now) :: ops =>
      '(_, w, _, n, _) ← NucaCache_read cfg n a (Some []) now true;
      '(ws, n) ← nuca_run n ops; Ok (w :: ws, n)
  | (NWrite a data, now) :: ops =>
      '(_, w, _, _, n, _) ← NucaCache_write cfg n a data false 0 now true;
      '(ws, n) ← nuca_run n ops; Ok (w :: ws, n)
  end.
End nuca_run.

(** The specification: [S] is the set of lines held.  A read or a write hits exactly the lines
    held; a write of a line not held adds it and removes at most one other line. *)
Fixpoint nuca_spec (line : Z -> Z) (S : gset Z) (ops : list (nuca_op * Z)) (ws : list where_t) (S' : gset Z) : Prop :=
  match ops, ws with
  | [], [] => S' = S
  | (NRead a, _) :: ops, w :: ws =>
      w = (if decide (line a ∈ S) then W_NUCA_CACHE else W_MISS) /\ nuca_spec line S ops ws S'
  | (NWrite a _, _) :: ops, w :: ws =>
      if decide (line a ∈ S) then w = W_NUCA_CACHE /\ nuca_spec line S ops ws S'
      else w = W_MISS /\ exists evicted : option Z,
        nuca_spec line ({[line a]} ∪ (S ∖ (if evicted is Some e then {[e]} else ∅))) ops ws S'
  | _, _ => False
  end.

Definition nuca_op_addr (op : nuca_op * Z) : Z := match op.1 with NRead a => a | NWrite a _ => a end.

Lemma nuca_run_sim {P I} `{!ReplacementPolicy P I, !ReplacementPolicyOk P I} (cfg : NucaCfg)
    (ops : list (nuca_op * Z)) (n n' : NucaSlice P I) ws :
  cache_wf (m_cache n) -> 0 <= nc_cache_block_size cfg -> Forall (fun op => in_width 64 (nuca_op_addr op)) ops ->
  nuca_run cfg n ops = Ok (ws, n') ->
  nuca_spec (line_of (c_base (m_cache n))) (lines (m_cache n)) ops ws (lines (m_cache n')) /\
  cache_wf (m_cache n') /\ c_base (m_cache n') = c_base (m_cache n).
Proof.
  intros Hc Hbs Hops. revert n ws Hc. induction Hops as [|[op now] ops Ha _ IH]; intros n ws Hc H; cbn [nuca_run] in H.
  { by simplify_eq. }
  destruct op as [a|a data].
  - res_inv H. destruct a0 as [[[[lat w] ups] n1] out]. res_inv H. destruct a0 as [ws' n2]. simplify_eq.
    eapply nuca_read_spec in E as (Hwf & Hl & Hb & ->); try done.
    destruct (IH n1 ws' Hwf E0) as (Hs & Hwf' & Hb'). rewrite Hl, Hb in Hs. split; [done|]. split; [done|congruence].
  - res_inv H. destruct a0 as [[[[[lat w] ev] ea] n1] out]. res_inv H. destruct a0 as [ws' n2]. simplify_eq.
    eapply nuca_write_lines in E as (Hwf & Hb & Hw); try done.
    destruct (IH n1 ws' Hwf E0) as (Hs & Hwf' & Hb'). rewrite Hb in Hs. split; [|split; [done|congruence]].
    cbn [nuca_spec]. cbn zeta in Hw. case_decide.
    + destruct Hw as (-> & Hl & _). rewrite Hl in Hs. done.
    + destruct Hw as (-> & evicted & Hl & _). split; [done|]. exists evicted. by rewrite Hl in Hs.
Qed.

(** A new NUCA cache, with any replacement policy, hash function and queue model, implements a set
    of lines of at most sets times associativity elements: an access hits exactly when its
    line is held, and only a write of a line that is not held changes the set, by adding the
    line and removing at most one. *)
Theorem nuca_refines_lineset (pcfg : PolicyCfg) (cfg : NucaCfg) (num_sets : Z) (assoc : nat) (l : Z)
    (name hash_function : string) (policy : ReplacementPolicyName) (faults : bool)
    (ahl : option AddressHomeLookup) (qcfg : QueueCfg) (qm : option string)
    (ops : list (nuca_op * Z)) (ws : list where_t) (n n' : NucaSlice AnyPolicy AnyInfo) :
  1 <= l <= 31 -> nc_cache_block_size cfg = 2 ^ l -> 0 < num_sets < 2 ^ 32 -> (0 < assoc <= 256)%nat ->
  match ahl with Some a => ahl_wf a /\ l <= m_ahl_param a | None => True end ->
  parsePolicyType name = Ok policy -> cfg_ok pcfg policy assoc ->
  NucaCache_new pcfg cfg num_sets assoc name hash_function faults ahl qcfg qm = Ok n ->
  Forall (fun op => in_width 64 (nuca_op_addr op)) ops -> nuca_run cfg n ops = Ok (ws, n') ->
  nuca_spec (fun a => a / 2 ^ l) ∅ ops ws (lines (m_cache n')) /\
  (base.size (lines (m_cache n')) <= Z.to_nat num_sets * assoc)%nat.
Proof.
  intros Hl Hbs Hn Ha Hahl Hp Hcfg Hnew Hops Hrun. unfold NucaCache_new in Hnew. res_inv Hnew. simplify_eq.
  assert (a <> INVALID_HASH_TYPE) as Hh.
  { unfold parseAddressHash in E. repeat (case_bool_decide; [by simplify_eq|]). done. }
  rewrite Hbs in E0.
  destruct (Cache_new_wf _ _ _ _ _ _ _ _ _ _ _ _ Hl Hn Ha Hh Hahl Hp Hcfg E0) as (Hwf & Hempty & En & Ea & El).
  eapply (nuca_run_sim (ReplacementPolicyOk0 := Any_policy_ok policy)) in Hrun as (Hs & Hwf' & Hb); [|done|lia|done].
  cbn [m_cache] in *. rewrite Hempty in Hs. unfold line_of in Hs. rewrite El in Hs. split; [exact Hs|].
  eapply Nat.le_trans; [by apply (size_lines (ReplacementPolicyOk0 := Any_policy_ok policy))|].
  rewrite Hb, Ea, En. done.
Qed.

(** The example: one set of two ways, blocks of 64 bytes, LRU, no queue model. *)
Definition example_nuca_cfg : NucaCfg := mkNucaCfg 64 100 10 (Build_ComponentBandwidth 8000000) 0 (fun x _ => x).
Definition example_queue_cfg : QueueCfg := mkQueueCfg false 16 "" false 100 1000 0%nat.
Definition example_nuca : res (NucaSlice AnyPolicy AnyInfo) :=
  NucaCache_new cache_example_cfg example_nuca_cfg 1 2 "lru" "mask" false None example_queue_cfg
    (Some "contention"%string).
Definition example_nuca_ops : list (nuca_op * Z) :=
  [(NRead 0, 1000); (NWrite 0 None, 2000); (NWrite 64 None, 3000); (NRead 0, 4000);
   (NWrite 128 None, 5000); (NRead 64, 6000); (NRead 0, 7000)].

Lemma nuca_refines_lineset_witness :
  exists n n' ws, example_nuca = Ok n /\ nuca_run example_nuca_cfg n example_nuca_ops = Ok (ws, n') /\
    ws = [W_MISS; W_MISS; W_MISS; W_NUCA_CACHE; W_MISS; W_MISS; W_NUCA_CACHE] /\
    nuca_spec (fun a => a / 2 ^ 6) ∅ example_nuca_ops ws (lines (m_cache n')) /\
    (base.size (lines (m_cache n')) <= Z.to_nat 1 * 2)%nat.
Proof.
  destruct example_nuca as [n|] eqn:E; [|vm_compute in E; discriminate E].
  destruct (nuca_run example_nuca_cfg n example_nuca_ops) as [[ws n']|] eqn:E';
    [|vm_compute in E; injection E as <-; vm_compute in E'; discriminate E'].
  exists n, n', ws. split; [reflexivity|]. split; [exact E'|]. split.
  - vm_compute in E. injection E as <-. vm_compute in E'. by injection E' as <- _.
  - apply (nuca_refines_lineset cache_example_cfg example_nuca_cfg 1 2 6 "lru" "mask" LRU false None
             example_queue_cfg (Some "contention"%string) example_nuca_ops ws n n'); try done; try lia.
    repeat constructor; unfold nuca_op_addr, in_width; cbn; lia.
Defined.

(** ** The directory with this NUCA cache *)

Section directory.
Context (pcfg : PolicyCfg) (cfg : NucaCfg) (num_sets : Z) (assoc : nat) (l : Z) (name hash_function : string)
  (policy : ReplacementPolicyName) (faults : bool) (ahl : option AddressHomeLookup) (qcfg : QueueCfg)
  (qm : option string).

(** The conditions on the configuration of the slice. *)
Record nuca_config_ok : Prop := {
  nco_line : 1 <= l <= 31;
  nco_block : nc_cache_block_size cfg = 2 ^ l;
  nco_sets : 0 < num_sets < 2 ^ 32;
  nco_ways : (0 < assoc <= 256)%nat;
  nco_home : match ahl with Some a => ahl_wf a /\ l <= m_ahl_param a | None => True end;
  nco_policy : parsePolicyType name = Ok policy;
  nco_policy_cfg : cfg_ok pcfg policy assoc;
  nco_terminating : terminating policy = true;
  nco_window : 1 <= qc_moving_avg_window_size qcfg < 2 ^ 31
}.

Lemma NucaCache_new_wf n :
  nuca_config_ok ->
  NucaCache_new pcfg cfg num_sets assoc name hash_function faults ahl qcfg qm = Ok n ->
  exists b, slice_wf (ReplacementPolicyOk0 := Any_policy_ok policy) cfg b n /\
    m_num_sets b = num_sets /\ cb_associativity b = assoc.
Proof.
  intros [Hl Hbs Hn Ha Hahl Hp Hcfg _ Hw] Hnew. unfold NucaCache_new in Hnew. res_inv Hnew. simplify_eq.
  assert (a <> INVALID_HASH_TYPE) as Hh.
  { unfold parseAddressHash in E. repeat (case_bool_decide; [by simplify_eq|]). done. }
  rewrite Hbs in E0. unfold slice_wf. cbn [m_cache m_queue_model].
  destruct (Cache_new_wf _ _ _ _ _ _ _ _ _ _ _ _ Hl Hn Ha Hh Hahl Hp Hcfg E0) as (Hwf & _ & Hns & Has & _).
  exists (c_base a0). split_and!; [done|done|rewrite Hbs; lia| |done|done]. destruct qm as [type|]; [|by simplify_eq].
  res_inv E1. simplify_eq. by eapply QueueModel_create_ok.
Qed.

Context (mem : nat -> list Z) (read_buf evict_buf : nat) `{!CntlrCfg} (directory_type : string)
  (total_entries associativity block_size max_hw max_sharers access_time penalty : Z) (ptrs : list Z) (fwd : Z).
#[local] Existing Instance slice_nuca.

(** C9: The directory controller with a NUCA cache of any configuration whose replacement policy
    terminates: on every sequence of packets the handlers end within their fuel; if no
    assertion of the source fails, all directory entries are coherent, every request has been
    answered in order or is queued, and the NUCA cache still holds at most sets times
    associativity lines. *)
Theorem dir_with_nuca_correct n junk ps c :
  let N := slice_nuca cfg mem read_buf evict_buf in
  nuca_config_ok ->
  NucaCache_new pcfg cfg num_sets assoc name hash_function faults ahl qcfg qm = Ok n ->
  new_cntlr directory_type total_entries associativity block_size max_hw max_sharers access_time penalty
    ptrs fwd (Some n) junk = Ok c ->
  deliver (NucaCache0 := N) ps c <> Err OutOfFuel /\
  forall c', deliver (NucaCache0 := N) ps c = Ok (tt, c') ->
    (forall p e, dc_heap (c_dir c') !! p = Some e -> entry_ok e) /\
    (forall a, replies c' a ++ omap core_req (pending (c_queue c') a) = ps ≫= request_of a) /\
    (forall n', m_nuca_cache c' = Some n' -> (base.size (lines (m_cache n')) <= Z.to_nat num_sets * assoc)%nat).
Proof.
  intros N Hcfg Hn Hc. pose proof (Any_terminates policy (nco_terminating Hcfg)) as HT.
  destruct (NucaCache_new_wf n Hcfg Hn) as (b & Hwf & Hns & Has).
  pose (HN := slice_nuca_ok (ReplacementPolicyOk0 := Any_policy_ok policy) cfg b mem read_buf evict_buf).
  assert (nuca_ok (NucaCache0 := N) (Some n)) as Hok by exact Hwf.
  pose proof (new_cntlr_base _ _ _ _ _ _ _ _ _ _ _ _ _ Hok Hc) as HB.
  pose proof (wp_deliver ps _ c HB) as Hw. split; [exact (wp_no_fuel _ _ _ Hw)|].
  intros c' Hd. destruct (wp_ok _ _ _ _ _ Hw Hd) as [(HC & _ & Hnu) HK]. split_and!.
  - intros p e Hp. by apply (HC p e Hp).
  - intros a. change (ps ≫= request_of a) with ([] ++ (ps ≫= request_of a)). rewrite <- (HK a). f_equal. apply omap_cores.
  - intros n' En. rewrite En in Hnu. destruct Hnu as (Hwf' & Hb & _).
    rewrite <- Hns, <- Has, <- Hb. by apply (size_lines (ReplacementPolicyOk0 := Any_policy_ok policy)).
Qed.
End directory.

(** Core 0 reads a line from memory, core 1 then reads it from the NUCA cache, and core 2 asks
    for it in order to write. *)
Definition nuca_packets : list packet :=
  [ l2 10 0 0 SH_REQ None; from_dram 20 0 1; l2 30 1 1 SH_REQ None; l2 50 2 2 EX_REQ None ].

Definition example_new (n : NucaSlice AnyPolicy AnyInfo) : res (DramDirectoryCntlr (NucaSlice AnyPolicy AnyInfo)) :=
  new_cntlr "full_map" 16 4 64 4 4 1000 0 [0; 0; 0; 0] 0 (Some n) 0.

Definition example_slice : NucaCache (NucaSlice AnyPolicy AnyInfo) :=
  slice_nuca example_nuca_cfg (fun _ => []) 100 101.

Definition example_deliver (c : CntlrCfg) (ps : list packet)
  : res (DramDirectoryCntlr (NucaSlice AnyPolicy AnyInfo)) :=
  n ← example_nuca; s ← example_new n;
  '(_, s) ← deliver (NucaCache0 := example_slice) (H := c) ps s; Ok s.

Lemma dir_with_nuca_correct_witness :
  exists n c c', example_nuca = Ok n /\ example_new n = Ok c /\
    deliver (NucaCache0 := example_slice) (H := run_cfg) nuca_packets c = Ok (tt, c') /\
    replies c' run_line ++ omap core_req (pending (c_queue c') run_line) = [0; 1; 2] /\
    forall p e, dc_heap (c_dir c') !! p = Some e -> entry_ok e.
Proof.
  destruct example_nuca as [n|] eqn:En; [|vm_compute in En; discriminate En].
  destruct (example_new n) as [c|] eqn:Ec; [|vm_compute in En; injection En as <-; vm_compute in Ec; discriminate Ec].
  assert (nuca_config_ok cache_example_cfg example_nuca_cfg 1 2 6 "lru" LRU None example_queue_cfg) as Hcfg.
  { split; try done; try lia. }
  destruct (dir_with_nuca_correct cache_example_cfg example_nuca_cfg 1 2 6 "lru" "mask" LRU false None
    example_queue_cfg (Some "contention"%string) (fun _ => []) 100 101 (H := run_cfg) "full_map" 16 4 64 4 4 1000 0
    [0; 0; 0; 0] 0 n 0 nuca_packets c Hcfg En Ec) as [_ H].
  change (slice_nuca example_nuca_cfg (fun _ => []) 100 101) with example_slice in H.
  destruct (deliver (NucaCache0 := example_slice) (H := run_cfg) nuca_packets c) as [[[] c']|] eqn:Hd.
  - destruct (H c' eq_refl) as (H1 & H2 & _). exists n, c, c'. split_and!; try done.
  - vm_compute in En. injection En as <-. vm_compute in Ec. injection Ec as <-. vm_compute in Hd. discriminate Hd.
Defined.

(** ** Evictions *)

Definition dram_writes (out : list event) : list (Z * option nat) :=
  omap (fun e => match e with
                 | Send DRAM_WRITE_REQ DRAM_COMP _ _ address data _ _ _ _ => Some (address, data)
                 | _ => None
                 end) out.

(** [run_cfg] with other values in the uninitialised variables of [sendDataToNUCA] *)
Definition garbage_cfg (eviction : bool) (evict_address : Z) : CntlrCfg :=
  mkCfg MSI 0 64 (@m_dram_controller_home_lookup run_cfg) eviction evict_address.

(** Core 0 reads the line, core 2 takes it over to write, then evicts it. *)
Definition writeback_packets : list packet :=
  [ l2 10 0 0 SH_REQ None; from_dram 20 0 1; l2 30 2 2 EX_REQ None; l2 40 0 2 INV_REP None;
    l2 50 2 2 FLUSH_REP (Some 5%nat) ].

(** A write that hits the NUCA cache does not set [eviction]: what the directory does next
    depends on an uninitialised variable.  In the same run, where the NUCA cache evicts
    nothing, it sends nothing to DRAM if the variable happens to be false, and otherwise writes
    its own stack array (buffer 101) to the address that the other uninitialised variable
    holds. *)
Theorem nuca_hit_writes_garbage :
  (c ← example_deliver (garbage_cfg false 7340032) writeback_packets; Ok (dram_writes (c_out c))) = Ok [] /\
  (c ← example_deliver (garbage_cfg true 7340032) writeback_packets; Ok (dram_writes (c_out c)))
    = Ok [(7340032, Some 101%nat)].
Proof. split; vm_compute; reflexivity. Qed.

(** The results [hit_where], [eviction] and [evict_address] of successive writes. *)
Fixpoint nuca_writes (n : NucaSlice AnyPolicy AnyInfo) (l : list Z) : res (list (where_t * bool * Z)) :=
  match l with
  | [] => Ok []
  | a :: l =>
      '(_, w, ev, ea, n, _) ← NucaCache_write example_nuca_cfg n a None false 0 0 true;
      r ← nuca_writes n l; Ok ((w, ev, ea) :: r)
  end.

(** A write that misses inserts the line in the state INVALID, so that its data does not count
    as dirty: when line 0, written once, is replaced by line 128, [eviction] is false and the
    directory does not write it to DRAM; after a second write, which hits, it is written
    back. *)
Theorem nuca_write_miss_not_dirty :
  (n ← example_nuca; nuca_writes n [0; 64; 128])
    = Ok [(W_MISS, false, 2 ^ 64 - 64); (W_MISS, false, 2 ^ 64 - 64); (W_MISS, false, 0)] /\
  (n ← example_nuca; nuca_writes n [0; 0; 64; 128])
    = Ok [(W_MISS, false, 2 ^ 64 - 64); (W_NUCA_CACHE, false, 0); (W_MISS, false, 2 ^ 64 - 64); (W_MISS, true, 0)].
Proof. split; vm_compute; reflexivity. Qed.
