(* ===== verification/CacheStates.v ===== *)
(** * The coherence states of the lines of a cache

    What the operations of Cache do to the states of lines: [holds c t s] says that
    the cache has line [t] in state [s].  A line is in one place only, so the
    replacement of one block changes the state of one line. *)

From stdpp Require Import gmap.
From S2P Require Import Prelude Utils AddressHomeLookup CacheBlockInfo CacheSet CachePolicy FaultInjection Cache.

Section states.
Context {P I : Type} `{!ReplacementPolicy P I, !ReplacementPolicyOk P I}.
Implicit Types (c : Cache P I).

Definition block_at c (i w : nat) : option CacheBlockInfo := s ← m_sets c !! i; m_cache_block_info_array s !! w.

Definition holds c (t : Z) (s : cstate_t) : Prop :=
  t <> TAG_NONE /\ exists i w b, block_at c i w = Some b /\ m_tag b = t /\ m_cstate b = s.

Lemma block_at_spec c i w b : block_at c i w = Some b <-> exists s, m_sets c !! i = Some s /\ m_cache_block_info_array s !! w = Some b.
Proof.
  unfold block_at. destruct (m_sets c !! i) as [s|]; cbn; [|naive_solver].
  split; [eauto|]. intros (s' & [= <-] & ?). done.
Qed.

Lemma holds_lines c t : t ∈ lines c <-> exists s, holds c t s.
Proof.
  rewrite elem_of_lines. split.
  - intros (i & s & Hs & (Ht & w & b & Hb & Eb)%elem_of_tags). exists (m_cstate b). split; [done|].
    exists i, w, b. split_and!; [|done..]. apply block_at_spec. eauto.
  - intros (r & Ht & i & w & b & (s & Hs & Hb)%block_at_spec & Eb & _). exists i, s. split; [done|].
    apply elem_of_tags. eauto.
Qed.

(** A line is in one place. *)
Lemma block_at_unique c i w b j v b' :
  cache_wf c -> block_at c i w = Some b -> block_at c j v = Some b' -> m_tag b = m_tag b' -> m_tag b <> TAG_NONE ->
  i = j /\ w = v.
Proof.
  intros (_ & (_ & Hs) & _) (s & Hi & Hb)%block_at_spec (s' & Hj & Hb')%block_at_spec E Ht.
  destruct (Hs _ _ Hi) as ((_ & Hu & _) & _ & Hh), (Hs _ _ Hj) as (_ & _ & Hh').
  assert (i = j) as <-.
  { destruct (Hh (m_tag b)) as [H1 _]; [apply elem_of_tags; eauto|].
    destruct (Hh' (m_tag b)) as [H2 _]; [rewrite E in *; apply elem_of_tags; eauto|]. rewrite H1 in H2. by simplify_eq. }
  split; [done|]. simplify_eq. by eapply (Hu w v b b').
Qed.

Lemma holds_functional c t s s' : cache_wf c -> holds c t s -> holds c t s' -> s = s'.
Proof.
  intros Hc (Ht & i & w & b & Hb & Eb & <-) (_ & j & v & b' & Hb' & Eb' & <-).
  destruct (block_at_unique c i w b j v b') as [<- <-]; congruence.
Qed.

(** One block is replaced. *)
Lemma holds_replace c c' i w old b :
  cache_wf c -> block_at c i w = Some old ->
  (forall j v, block_at c' j v = if decide (j = i /\ v = w) then Some b else block_at c j v) ->
  forall t s, holds c' t s <->
    (t <> TAG_NONE /\ t = m_tag b /\ s = m_cstate b) \/ (t <> m_tag old /\ holds c t s).
Proof.
  intros Hc Hold Hc' t s. split.
  - intros (Ht & j & v & x & Hx & <- & <-). rewrite Hc' in Hx. destruct (decide _) as [[-> ->]|Hne]; [left; naive_solver|].
    right. split; [|split; [done|eauto 6]]. intros E.
    destruct (block_at_unique _ _ _ _ _ _ _ Hc Hx Hold E Ht) as [-> ->]. by apply Hne.
  - intros [(Ht & -> & ->)|(Hne & Ht & j & v & x & Hx & <- & <-)].
    + split; [done|]. exists i, w, b. by rewrite Hc', decide_True.
    + split; [done|]. exists j, v, x. rewrite Hc', decide_False; [done|]. intros [-> ->]. congruence.
Qed.

Lemma block_at_with c i s s' info f j v :
  m_sets c !! i = Some s ->
  block_at (c_with c (<[i := s']> (m_sets c)) info f) j v =
    if decide (j = i) then m_cache_block_info_array s' !! v else block_at c j v.
Proof.
  intros Hs. apply lookup_lt_Some in Hs as Hlt. unfold block_at. cbn. destruct (decide (j = i)) as [->|].
  - by rewrite list_lookup_insert_eq.
  - by rewrite list_lookup_insert_ne.
Qed.

(** ** The operations *)

Lemma access_holds c addr ty buff n upd r out c' :
  cache_wf c -> in_width 64 addr -> 0 <= n -> accessSingleLine c addr ty buff n upd = Ok (r, out, c') ->
  forall i w, block_at c' i w = block_at c i w.
Proof.
  intros Hwf Hw Hn H j v. destruct (access_line_inv _ _ _ _ _ _ _ _ _ Hwf Hw Hn H) as [(-> & _)|
    (i & w & s & s' & info & f & Hs & _ & -> & _ & _ & _ & Harr & _)]; [done|].
  rewrite (block_at_with _ _ _ _ _ _ _ _ Hs). destruct (decide (j = i)) as [->|]; [|done].
  unfold block_at. rewrite Hs, Harr. done.
Qed.

(** The pointer that [peekSingleLine] returns. *)
Lemma peek_block c addr :
  cache_wf c -> in_width 64 addr ->
  exists p, peekSingleLine c addr = Ok p /\
    match p with
    | Some (i, w) => exists b, block_at c i w = Some b /\ m_tag b = line_of (c_base c) addr
    | None => forall s, ~ holds c (line_of (c_base c) addr) s
    end.
Proof.
  intros Hwf Hw. destruct (peek_line_spec c addr Hwf Hw) as (p & Hp & Hin). exists p. split; [done|].
  destruct p as [[i w]|].
  - unfold peekSingleLine in Hp. destruct (splitAddress_ok (c_base c) addr) as (n & Hsp & _ & _); [apply Hwf|done|].
    rewrite Hsp in Hp. cbn [mbind res_bind] in Hp. unfold aget in Hp. destruct (m_sets c !! Z.to_nat n) as [s|] eqn:Es; [|done].
    cbn [mbind res_bind] in Hp. destruct (find s _) as [v|] eqn:Ef; [|done]. cbn in Hp. simplify_eq.
    apply find_some in Ef as (b & Hb & Eb). exists b. split; [|done]. apply block_at_spec. eauto.
  - intros s Hs. assert (is_Some (None : option (nat * nat))) as []; [|done]. apply Hin, holds_lines. eauto.
Qed.

Lemma line_of_not_none c addr : cache_wf c -> in_width 64 addr -> line_of (c_base c) addr <> TAG_NONE.
Proof.
  intros Hwf Hw. destruct (cache_select c addr Hwf Hw) as (i & s & _ & _ & _ & _ & Hr). by apply (line_not_none (c_base c)); [apply Hwf|].
Qed.

Lemma block_at_update c i w f j v :
  block_at (update_block c i w f) j v = if decide (j = i /\ v = w) then f <$> block_at c i w else block_at c j v.
Proof.
  unfold block_at, update_block; cbn. destruct (decide (j = i)) as [->|Hne].
  - rewrite list_lookup_alter_eq. destruct (m_sets c !! i) as [cs|]; cbn; [|by destruct (decide _)].
    destruct (decide (v = w)) as [->|].
    + rewrite decide_True by done. by rewrite list_lookup_alter_eq.
    + rewrite decide_False by naive_solver. by rewrite list_lookup_alter_ne.
  - rewrite list_lookup_alter_ne by done. by rewrite decide_False by naive_solver.
Qed.

Lemma update_block_holds c i w old f :
  cache_wf c -> block_at c i w = Some old ->
  forall t s, holds (update_block c i w f) t s <->
    (t <> TAG_NONE /\ t = m_tag (f old) /\ s = m_cstate (f old)) \/ (t <> m_tag old /\ holds c t s).
Proof.
  intros Hc Hb. eapply holds_replace; [done|done|]. intros j v. rewrite block_at_update, Hb. done.
Qed.

(** A new state through any pointer: every line keeps its state or has the new one. *)
Lemma set_state_holds c i w s :
  let c' := update_block c i w (fun b => setCState b s) in
  (forall t r, holds c' t r -> exists r0, holds c t r0 /\ (r = r0 \/ r = s)) /\
  (forall t r, holds c t r -> exists r', holds c' t r' /\ (r' = r \/ r' = s)).
Proof.
  cbv zeta. split; intros t r (Ht & j & v & b & Hb & Et & Es).
  - rewrite block_at_update in Hb. destruct (decide _) as [[-> ->]|].
    + destruct (block_at c i w) as [b0|] eqn:Eb; [|done]. cbn in Hb. simplify_eq.
      exists (m_cstate b0). split; [|by right]. split; [done|]. eauto 6.
    + exists r. split; [|by left]. split; [done|]. eauto 6.
  - destruct (decide (j = i /\ v = w)) as [[-> ->]|Hd].
    + exists s. split; [|by right]. split; [done|]. exists i, w, (setCState b s). rewrite block_at_update, decide_True, Hb by done. done.
    + exists r. split; [|by left]. split; [done|]. exists j, v, b. by rewrite block_at_update, decide_False.
Qed.

Lemma invalidate_holds c addr hit c' :
  cache_wf c -> in_width 64 addr -> invalidateSingleLine c addr = Ok (hit, c') ->
  forall t s, holds c' t s <-> t <> line_of (c_base c) addr /\ holds c t s.
Proof.
  intros Hwf Hw H. pose proof (line_of_not_none c addr Hwf Hw) as Hnn. set (l := line_of (c_base c) addr) in *.
  destruct (cache_select c addr Hwf Hw) as (i & s & Hsp & Hi & Hh & Hs & _).
  unfold invalidateSingleLine in H. rewrite Hsp in H. cbn [mbind res_bind] in H.
  rewrite (proj2 (Z.ltb_lt _ _) Hi), Nat2Z.id in H. cbn [assert_ mbind res_bind] in H.
  unfold aget in H. rewrite Hs in H. cbn [mbind res_bind] in H. fold l in H. unfold invalidate in H.
  change (find_down _ _ _) with (find s l) in H. destruct (find s l) as [w|] eqn:Ef.
  - apply find_some in Ef as (b & Hb & Eb). simplify_eq. intros t r.
    assert (block_at c i w = Some b) as Hbw by (apply block_at_spec; eauto).
    rewrite (holds_replace c _ i w b (block_invalidate b) Hwf Hbw).
    + rewrite <- Eb. split; [|by right]. intros [(Ht & -> & _)|?]; [done|done].
    + intros j v. rewrite (block_at_with _ _ _ _ _ _ _ _ Hs). destruct (decide (j = i)) as [->|].
      * cbn. destruct (decide (v = w)) as [->|].
        { rewrite decide_True by done. by rewrite list_lookup_alter_eq, Hb. }
        rewrite decide_False by naive_solver. rewrite list_lookup_alter_ne by done. unfold block_at. by rewrite Hs.
      * by rewrite decide_False by naive_solver.
  - simplify_eq. intros t r. rewrite list_insert_id by done. split.
    + intros Ht. split; [|done]. intros ->. apply find_none in Ef; [|done]. apply Ef.
      rewrite <- (line_in_set c i s l Hwf Hh Hs). apply holds_lines. eauto.
    + by intros [_ ?].
Qed.

(** The line inserted has the state of a new block; the block that is evicted is copied to the caller. *)
Lemma insert_holds c addr fill ev want cntlr r :
  cache_wf c -> in_width 64 addr -> line_of (c_base c) addr ∉ lines c ->
  insertSingleLine c addr fill ev want cntlr = Ok r ->
  (forall t s, holds (li_cache r) t s <->
     (t = line_of (c_base c) addr /\ s = INVALID) \/
     (holds c t s /\ (li_eviction r = true -> t <> line_of (c_base c) (li_evict_addr r)))) /\
  (li_eviction r = true -> holds c (line_of (c_base c) (li_evict_addr r)) (m_cstate (li_evict_info r))).
Proof.
  intros Hwf Hw Hnin H. pose proof (line_of_not_none c addr Hwf Hw) as Hnn. set (l := line_of (c_base c) addr) in *.
  destruct (cache_select c addr Hwf Hw) as (i & s & Hsp & Hi & Hh & Hs & _). fold l in Hsp.
  pose proof Hwf as (Hb & (_ & Hsets) & _). destruct (Hsets i s Hs) as ((_ & _ & _ & Hbs & _) & _ & Hst).
  unfold insertSingleLine in H. rewrite Hsp in H. cbn [mbind res_bind] in H. res_inv H. rewrite Nat2Z.id in *.
  destruct a2 as [f s']. simplify_eq. cbn [li_cache li_eviction li_evict_addr li_evict_info].
  unfold aget in E0. rewrite Hs in E0. simplify_eq. rename a0 into s0.
  destruct (insert_inv _ _ _ _ _ _ _ _ Hbs E1) as (v & old & b & _ & _ & _ & Hold & Hcl & Harr & _ & _ & Hev & Hevt & _).
  apply clone_tag in Hcl as [Hbt Hbst]. cbn in Hbt, Hbst.
  assert (m_cstate a = INVALID) as Ea by (unfold create in E; destruct (m_cache_type c); simplify_eq; done).
  assert (m_cache_block_info_array s' = m_cache_block_info_array (ins_set a1)) as Harr'.
  { destruct (m_fault_injector c) as [f0|]; [|by simplify_eq]. destruct (find (ins_set a1) _); [|done].
    unfold inject in E2. res_inv E2. destruct a0. by simplify_eq. }
  assert (block_at c i (v_index v) = Some old) as Hbo by (apply block_at_spec; eauto).
  pose proof (holds_replace c (c_with c (<[i := s']> (m_sets c)) (ins_info a1) f) i (v_index v) old b Hwf Hbo) as Hrep.
  assert (ins_eviction a1 = true -> line_of (c_base c) (tagToAddress (c_base c) (m_tag (ins_evict_info a1))) = m_tag old /\
            m_tag old <> TAG_NONE) as Hta.
  { rewrite Hev. intros Eo. rewrite (proj1 (Hevt Eo)). apply isValid_true in Eo. split; [|done].
    apply tagToAddress_ok; [done|]. apply (Hst (m_tag old)). apply elem_of_tags. eauto. }
  split.
  - intros t r. rewrite Hrep; clear Hrep.
    + rewrite Hbt, Hbst, Ea. split.
      * intros [(_ & -> & ->)|[Ht Hr]]; [by left|]. right. split; [done|]. intros He. by destruct (Hta He) as [-> _].
      * intros [[-> ->]|[Hr He]]; [by left|]. right. split; [|done]. intros ->. pose proof Hr as [Hv _].
        destruct (isValid old) eqn:Eo; [|by apply isValid_false in Eo]. rewrite Hev in *. by destruct (Hta eq_refl) as [E' _], (He eq_refl).
    + intros j w. rewrite (block_at_with _ _ _ _ _ _ _ _ Hs), Harr', Harr. destruct (decide (j = i)) as [->|].
      * destruct (decide (w = v_index v)) as [->|].
        { rewrite decide_True by done. apply list_lookup_insert_eq. by eapply lookup_lt_Some. }
        rewrite decide_False by naive_solver. rewrite list_lookup_insert_ne by done. unfold block_at. by rewrite Hs.
      * by rewrite decide_False by naive_solver.
  - intros He. destruct (Hta He) as [-> Hvo]. rewrite Hev in He. destruct (Hevt He) as [_ ->]. split; [done|]. eauto 6.
Qed.
End states.
