(* ===== verification/CacheCntlr.v ===== *)
(** * The cache controllers

    Models parametric_dram_directory_msi/cache_cntlr.{h,cc}: the private and
    shared cache levels of all cores, from the access of a core to the messages
    exchanged with the tag directory.

    A machine is a heap of controllers, one per core and level, and of masters,
    one per physical cache; the controllers of the cores that share a cache point
    to the same master.  Previous and next levels are pointers (indices).

    Concurrency.  In the code a memory operation holds the lock of its cache set,
    for the whole hierarchy on a miss, until it is done or waits for the
    directory; the network thread passes its lock on to the thread it wakes.
    Here an operation runs until it waits; what is left of it is then kept in
    [h_pending] for its core and runs inside [handleMsgFromDramDirectory] where the
    code wakes the thread up.

    The trackers of ENABLE_TRANSITIONS, TRACK_LATENCY_BY_HITWHERE and
    ENABLE_TRACK_SHARING_PREVCACHES, compiled out in the code, are left out, and so
    are the notifications of the cache efficiency tracker. *)

From stdpp Require Import gmap.
From S2P Require Import Prelude StateMonad Utils SubsecondTime AddressHomeLookup DirectoryEntry ReqQueueList ShmemPerf ContentionModel Prefetcher DramDirectoryCntlr DramCntlr CacheBlockInfo CacheSet CachePolicy FaultInjection Cache ATD CachePerfModel.

(** ** Data *)

(** Core::mem_op_t and Core::lock_signal_t *)
Inductive mem_op_t := Op_READ | Op_READ_EX | Op_WRITE.
Inductive lock_signal_t := Lk_NONE | Lk_LOCK | Lk_UNLOCK.
Inductive prefetch_type_t := Pf_NONE | Pf_OWN | Pf_OTHER.
Inductive reason_t := CORE_RD | CORE_WR | CORE_RDEX | UPGRADE | EVICT | BACK_INVAL | COHERENCY.

#[global] Instance mem_op_t_eq_dec : EqDecision mem_op_t.
Proof. solve_decision. Defined.
#[global] Instance lock_signal_t_eq_dec : EqDecision lock_signal_t.
Proof. solve_decision. Defined.
#[global] Instance prefetch_type_t_eq_dec : EqDecision prefetch_type_t.
Proof. solve_decision. Defined.
#[global] Instance reason_t_eq_dec : EqDecision reason_t.
Proof. solve_decision. Defined.

(** HitWhere::where_t as numbers: a hit in a cache is reported as its component, plus
    [HW_SIBLING] when a previous level had the line. *)
Definition HW_MISS : Z := 7.
Definition HW_SIBLING : Z := 14.
Definition HW_UNKNOWN : Z := 21.
Definition where_num (w : where_t) : Z :=
  match w with
  | W_MISS => HW_MISS | W_NUCA_CACHE => 8 | W_DRAM_CACHE => 9 | W_DRAM => 10 | W_DRAM_LOCAL => 11
  | W_DRAM_REMOTE => 12 | W_CACHE_REMOTE => 13 | W_UNKNOWN => HW_UNKNOWN
  end.

Definition PREFETCH_MAX_QUEUE_LENGTH : nat := 32.
Definition PREFETCH_INTERVAL : Z := NS 1.
Definition INVALID_ADDRESS : Z := 2 ^ 64 - 1.

Record MshrEntry := make_mshr { mshr_t_issue : Z; mshr_t_complete : Z }.
Record CacheDirectoryWaiter := mkDirWaiter { dw_exclusive : bool; dw_isPrefetch : bool; dw_cache_cntlr : nat; dw_t_issue : Z }.

(** The counters of [stats]. *)
Inductive stat :=
  | loads | stores | load_misses | store_misses | load_overlapping_misses | store_overlapping_misses
  | loads_state (c : cstate_t) | stores_state (c : cstate_t) | loads_where (w : Z) | stores_where (w : Z)
  | load_misses_state (c : cstate_t) | store_misses_state (c : cstate_t)
  | loads_prefetch | stores_prefetch | hits_prefetch | evict_prefetch | invalidate_prefetch
  | evict_st (c : cstate_t) | backinval (c : cstate_t) | hits_warmup | evict_warmup | invalidate_warmup
  | total_latency | snoop_latency | qbs_query_latency | mshr_latency | prefetches
  | coherency_downgrades | coherency_upgrades | coherency_invalidates | coherency_writebacks.
#[global] Instance stat_eq_dec : EqDecision stat.
Proof. solve_decision. Defined.

(** The fields of a controller that do not change after construction; [p_master] and [p_next] are
    the pointers to its master and to the controller of the next level. *)
Record CntlrParams := mkParams {
  m_mem_component : Z;
  p_core_id : Z;
  p_core_id_master : Z;
  p_master : nat;
  p_next : option nat;
  m_perfect : bool;
  m_passthrough : bool;
  m_coherent : bool;
  p_prefetch_on_prefetch_hit : bool;
  m_l1_mshr : bool;
  m_cache_writethrough : bool;
  m_writeback_time : ComponentLatency;
  m_next_level_read_bandwidth : ComponentBandwidthPerCycle;
  m_shared_cores : Z
}.

(** A message to the directory: its sender is the master core of the last-level cache, and [perf]
    the controller whose ShmemPerf it carries. *)
Record SentMsg := mkSent {
  sm_type : msg_t; sm_sender : Z; sm_requester : Z; sm_receiver : Z; sm_address : Z;
  sm_data : option (list Z); sm_perf : option nat; sm_time : Z
}.
(** A message from the directory. *)
Record DirMsg := mkDirMsg {
  dm_type : msg_t; dm_requester : Z; dm_address : Z; dm_data : option (list Z); dm_where : where_t; dm_perf : option nat
}.

(** What a core did with a line: messages to the directory and finished accesses, with the data of a load. *)
Inductive hevent :=
  | Sent (m : SentMsg)
  | Completed (core : Z) (address : Z) (hit_where : Z) (data : option (list Z)).

(** An access of a core: the parameters and locals of processMemOpFromCore. *)
Record MemOp := mkMemOp {
  mo_cntlr : nat; mo_lock : lock_signal_t; mo_type : mem_op_t; mo_address : Z; mo_offset : Z;
  mo_data : option (list Z); mo_length : Z; mo_modeled : bool; mo_count : bool;
  mo_t_start : Z; mo_t_miss_begin : Z; mo_t_mshr_avail : Z
}.
(** A prefetch: the locals of doPrefetch and the time passed to Prefetch. *)
Record PrefetchOp := mkPrefetchOp { po_cntlr : nat; po_address : Z; po_t_start : Z; po_t_before : Z; po_t_now : Z }.

(** What a core waits for the network thread with. *)
Inductive pending_t := PendingMemOp (o : MemOp) | PendingPrefetch (o : PrefetchOp).

(** What the controllers use of the rest of the simulator: clock periods, the home nodes, the block
    size, [abs] (see Prefetcher), what a local array holds before it is written, the iteration order
    of the MSHR table, whether only caches are simulated (warm-up), the owner that the cache
    efficiency tracker reports if it is on, and the number of cache levels, the bound of the
    recursion between levels. *)
Record CacheEnv := mkCacheEnv {
  e_periods : nat -> Z;
  e_home : AddressHomeLookup;
  e_block_size : Z;
  e_abs : Z -> Z;
  e_stack_buf : list Z;
  e_mshr_order : gmap Z MshrEntry -> list (Z * MshrEntry);
  e_cache_only : bool;
  e_get_owner : option (Z -> Z -> Z);
  e_levels : nat
}.

Section CacheCntlr.
Context {P I D : Type} `{!ReplacementPolicy P I, !DramCntlrInterface D} (env : CacheEnv).

Record Master := mkMaster {
  ms_cache : Cache P I;
  ms_prev : list nat;
  ms_prefetcher : option Prefetcher;
  ms_dram : option D;
  ms_writebacks : option ContentionModel;
  ms_mshr : gmap Z MshrEntry;
  ms_l1_mshr : ContentionModel;
  ms_next_read : ContentionModel;
  ms_waiters : ReqQueueList CacheDirectoryWaiter;
  ms_evicting_address : Z;
  ms_evicting_buf : option (list Z);
  ms_atds : list (ATD P I);
  ms_prefetch_list : list Z;
  ms_prefetch_next : Z
}.
Record Cntlr := mkCntlrObj {
  cc_cfg : CntlrParams;
  cc_stats : stat -> Z;
  cc_perf_model : CachePerfModel;
  m_last_remote_hit_where : Z;
  cc_shmem_perf : ShmemPerf;
  cc_shmem_perf_global : option ShmemPerf;
  cc_shmem_perf_totaltime : Z;
  cc_shmem_perf_numrequests : Z
}.
Record Hier := mkHier {
  h_masters : list Master;
  h_cntlrs : list Cntlr;
  h_clocks : list ShmemPerfModel;
  h_pending : gmap Z pending_t;
  h_events : list hevent
}.
Definition with_ms_cache (x : Cache P I) (m : Master) : Master :=
  mkMaster x (ms_prev m) (ms_prefetcher m) (ms_dram m) (ms_writebacks m) (ms_mshr m) (ms_l1_mshr m) (ms_next_read m) (ms_waiters m) (ms_evicting_address m) (ms_evicting_buf m) (ms_atds m) (ms_prefetch_list m) (ms_prefetch_next m).
Definition with_ms_prev (x : list nat) (m : Master) : Master :=
  mkMaster (ms_cache m) x (ms_prefetcher m) (ms_dram m) (ms_writebacks m) (ms_mshr m) (ms_l1_mshr m) (ms_next_read m) (ms_waiters m) (ms_evicting_address m) (ms_evicting_buf m) (ms_atds m) (ms_prefetch_list m) (ms_prefetch_next m).
Definition with_ms_prefetcher (x : option Prefetcher) (m : Master) : Master :=
  mkMaster (ms_cache m) (ms_prev m) x (ms_dram m) (ms_writebacks m) (ms_mshr m) (ms_l1_mshr m) (ms_next_read m) (ms_waiters m) (ms_evicting_address m) (ms_evicting_buf m) (ms_atds m) (ms_prefetch_list m) (ms_prefetch_next m).
Definition with_ms_dram (x : option D) (m : Master) : Master :=
  mkMaster (ms_cache m) (ms_prev m) (ms_prefetcher m) x (ms_writebacks m) (ms_mshr m) (ms_l1_mshr m) (ms_next_read m) (ms_waiters m) (ms_evicting_address m) (ms_evicting_buf m) (ms_atds m) (ms_prefetch_list m) (ms_prefetch_next m).
Definition with_ms_writebacks (x : option ContentionModel) (m : Master) : Master :=
  mkMaster (ms_cache m) (ms_prev m) (ms_prefetcher m) (ms_dram m) x (ms_mshr m) (ms_l1_mshr m) (ms_next_read m) (ms_waiters m) (ms_evicting_address m) (ms_evicting_buf m) (ms_atds m) (ms_prefetch_list m) (ms_prefetch_next m).
Definition with_ms_mshr (x : gmap Z MshrEntry) (m : Master) : Master :=
  mkMaster (ms_cache m) (ms_prev m) (ms_prefetcher m) (ms_dram m) (ms_writebacks m) x (ms_l1_mshr m) (ms_next_read m) (ms_waiters m) (ms_evicting_address m) (ms_evicting_buf m) (ms_atds m) (ms_prefetch_list m) (ms_prefetch_next m).
Definition with_ms_l1_mshr (x : ContentionModel) (m : Master) : Master :=
  mkMaster (ms_cache m) (ms_prev m) (ms_prefetcher m) (ms_dram m) (ms_writebacks m) (ms_mshr m) x (ms_next_read m) (ms_waiters m) (ms_evicting_address m) (ms_evicting_buf m) (ms_atds m) (ms_prefetch_list m) (ms_prefetch_next m).
Definition with_ms_next_read (x : ContentionModel) (m : Master) : Master :=
  mkMaster (ms_cache m) (ms_prev m) (ms_prefetcher m) (ms_dram m) (ms_writebacks m) (ms_mshr m) (ms_l1_mshr m) x (ms_waiters m) (ms_evicting_address m) (ms_evicting_buf m) (ms_atds m) (ms_prefetch_list m) (ms_prefetch_next m).
Definition with_ms_waiters (x : ReqQueueList CacheDirectoryWaiter) (m : Master) : Master :=
  mkMaster (ms_cache m) (ms_prev m) (ms_prefetcher m) (ms_dram m) (ms_writebacks m) (ms_mshr m) (ms_l1_mshr m) (ms_next_read m) x (ms_evicting_address m) (ms_evicting_buf m) (ms_atds m) (ms_prefetch_list m) (ms_prefetch_next m).
Definition with_ms_evicting_address (x : Z) (m : Master) : Master :=
  mkMaster (ms_cache m) (ms_prev m) (ms_prefetcher m) (ms_dram m) (ms_writebacks m) (ms_mshr m) (ms_l1_mshr m) (ms_next_read m) (ms_waiters m) x (ms_evicting_buf m) (ms_atds m) (ms_prefetch_list m) (ms_prefetch_next m).
Definition with_ms_evicting_buf (x : option (list Z)) (m : Master) : Master :=
  mkMaster (ms_cache m) (ms_prev m) (ms_prefetcher m) (ms_dram m) (ms_writebacks m) (ms_mshr m) (ms_l1_mshr m) (ms_next_read m) (ms_waiters m) (ms_evicting_address m) x (ms_atds m) (ms_prefetch_list m) (ms_prefetch_next m).
Definition with_ms_atds (x : list (ATD P I)) (m : Master) : Master :=
  mkMaster (ms_cache m) (ms_prev m) (ms_prefetcher m) (ms_dram m) (ms_writebacks m) (ms_mshr m) (ms_l1_mshr m) (ms_next_read m) (ms_waiters m) (ms_evicting_address m) (ms_evicting_buf m) x (ms_prefetch_list m) (ms_prefetch_next m).
Definition with_ms_prefetch_list (x : list Z) (m : Master) : Master :=
  mkMaster (ms_cache m) (ms_prev m) (ms_prefetcher m) (ms_dram m) (ms_writebacks m) (ms_mshr m) (ms_l1_mshr m) (ms_next_read m) (ms_waiters m) (ms_evicting_address m) (ms_evicting_buf m) (ms_atds m) x (ms_prefetch_next m).
Definition with_ms_prefetch_next (x : Z) (m : Master) : Master :=
  mkMaster (ms_cache m) (ms_prev m) (ms_prefetcher m) (ms_dram m) (ms_writebacks m) (ms_mshr m) (ms_l1_mshr m) (ms_next_read m) (ms_waiters m) (ms_evicting_address m) (ms_evicting_buf m) (ms_atds m) (ms_prefetch_list m) x.
Definition with_cc_cfg (x : CntlrParams) (c : Cntlr) : Cntlr :=
  mkCntlrObj x (cc_stats c) (cc_perf_model c) (m_last_remote_hit_where c) (cc_shmem_perf c) (cc_shmem_perf_global c) (cc_shmem_perf_totaltime c) (cc_shmem_perf_numrequests c).
Definition with_cc_stats (x : stat -> Z) (c : Cntlr) : Cntlr :=
  mkCntlrObj (cc_cfg c) x (cc_perf_model c) (m_last_remote_hit_where c) (cc_shmem_perf c) (cc_shmem_perf_global c) (cc_shmem_perf_totaltime c) (cc_shmem_perf_numrequests c).
Definition with_cc_perf_model (x : CachePerfModel) (c : Cntlr) : Cntlr :=
  mkCntlrObj (cc_cfg c) (cc_stats c) x (m_last_remote_hit_where c) (cc_shmem_perf c) (cc_shmem_perf_global c) (cc_shmem_perf_totaltime c) (cc_shmem_perf_numrequests c).
Definition with_m_last_remote_hit_where (x : Z) (c : Cntlr) : Cntlr :=
  mkCntlrObj (cc_cfg c) (cc_stats c) (cc_perf_model c) x (cc_shmem_perf c) (cc_shmem_perf_global c) (cc_shmem_perf_totaltime c) (cc_shmem_perf_numrequests c).
Definition with_cc_shmem_perf (x : ShmemPerf) (c : Cntlr) : Cntlr :=
  mkCntlrObj (cc_cfg c) (cc_stats c) (cc_perf_model c) (m_last_remote_hit_where c) x (cc_shmem_perf_global c) (cc_shmem_perf_totaltime c) (cc_shmem_perf_numrequests c).
Definition with_cc_shmem_perf_global (x : option ShmemPerf) (c : Cntlr) : Cntlr :=
  mkCntlrObj (cc_cfg c) (cc_stats c) (cc_perf_model c) (m_last_remote_hit_where c) (cc_shmem_perf c) x (cc_shmem_perf_totaltime c) (cc_shmem_perf_numrequests c).
Definition with_cc_shmem_perf_totaltime (x : Z) (c : Cntlr) : Cntlr :=
  mkCntlrObj (cc_cfg c) (cc_stats c) (cc_perf_model c) (m_last_remote_hit_where c) (cc_shmem_perf c) (cc_shmem_perf_global c) x (cc_shmem_perf_numrequests c).
Definition with_cc_shmem_perf_numrequests (x : Z) (c : Cntlr) : Cntlr :=
  mkCntlrObj (cc_cfg c) (cc_stats c) (cc_perf_model c) (m_last_remote_hit_where c) (cc_shmem_perf c) (cc_shmem_perf_global c) (cc_shmem_perf_totaltime c) x.
Definition with_h_masters (x : list Master) (h : Hier) : Hier :=
  mkHier x (h_cntlrs h) (h_clocks h) (h_pending h) (h_events h).
Definition with_h_cntlrs (x : list Cntlr) (h : Hier) : Hier :=
  mkHier (h_masters h) x (h_clocks h) (h_pending h) (h_events h).
Definition with_h_clocks (x : list ShmemPerfModel) (h : Hier) : Hier :=
  mkHier (h_masters h) (h_cntlrs h) x (h_pending h) (h_events h).
Definition with_h_pending (x : gmap Z pending_t) (h : Hier) : Hier :=
  mkHier (h_masters h) (h_cntlrs h) (h_clocks h) x (h_events h).
Definition with_h_events (x : list hevent) (h : Hier) : Hier :=
  mkHier (h_masters h) (h_cntlrs h) (h_clocks h) (h_pending h) x.

Local Abbreviation M := (ST Hier).

(** ** Access to the heap *)

Definition cntlr (c : nat) : M Cntlr := l ← gets h_cntlrs; lift_res (aget l c).
Definition params (c : nat) : M CntlrParams := k ← cntlr c; mret (cc_cfg k).
Definition master (c : nat) : M Master :=
  k ← params c; l ← gets h_masters; lift_res (aget l (p_master k)).
Definition upd_cntlr (c : nat) (f : Cntlr -> Cntlr) : M unit :=
  k ← cntlr c; modify (fun h => with_h_cntlrs (<[c := f k]> (h_cntlrs h)) h).
Definition upd_master (c : nat) (f : Master -> Master) : M unit :=
  k ← params c; m ← master c; modify (fun h => with_h_masters (<[p_master k := f m]> (h_masters h)) h).
Definition emit (e : hevent) : M unit := modify (fun h => with_h_events (h_events h ++ [e]) h).

Definition count_by (s : stat) (n : Z) (c : nat) : M unit :=
  upd_cntlr c (fun k => with_cc_stats (fun s' => if decide (s' = s) then u64 (cc_stats k s + n) else cc_stats k s') k).
Definition count1 (s : stat) (c : nat) : M unit := count_by s 1 c.

(** ** Time *)

Definition clock (core : Z) : M ShmemPerfModel := l ← gets h_clocks; lift_res (aget l (Z.to_nat core)).
Definition set_clock (core : Z) (m : ShmemPerfModel) : M unit :=
  modify (fun h => with_h_clocks (<[Z.to_nat core := m]> (h_clocks h)) h).
(** [getShmemPerfModel()->getElapsedTime(th)], [setElapsedTime] and [incrElapsedTime] *)
Definition elapsed (c : nat) (th : Thread_t) : M Z := k ← params c; m ← clock (p_core_id k); mret (getElapsedTime m th).
Definition set_time (c : nat) (th : Thread_t) (t : Z) : M unit :=
  k ← params c; m ← clock (p_core_id k); set_clock (p_core_id k) (spm_setElapsedTime th t m).
Definition incr_time (c : nat) (t : Z) (th : Thread_t) : M unit :=
  k ← params c; m ← clock (p_core_id k); m ← lift_res (spm_incrElapsedTime t th m); set_clock (p_core_id k) m.
(** [incrElapsedTime(m_mem_component, access, th)] of the memory manager *)
Definition incr_cost (c : nat) (access : CacheAccess_t) (th : Thread_t) : M unit :=
  k ← cntlr c; incr_time c (getLatency (e_periods env) (cc_perf_model k) access) th.

(** [perf->updateTime(t, reason)] through a pointer to the ShmemPerf of a controller *)
Definition perf_time (perf : option nat) (t : Z) (reason : shmem_times_type_t) : M unit :=
  match perf with
  | Some c => upd_cntlr c (fun k => with_cc_shmem_perf (updateTime (cc_shmem_perf k) t reason) k)
  | None => mret tt
  end.
Fixpoint perf_times (perf : option nat) (l : list (Z * shmem_times_type_t)) : M unit :=
  match l with
  | [] => mret tt
  | (t, reason) :: l => _ ← perf_time perf t reason; perf_times perf l
  end.

(** [MemoryManager::sendMsg] from the last-level cache to the tag directory *)
Definition send (c : nat) (type : msg_t) (requester receiver address : Z) (data : option (list Z)) (perf : option nat)
    (th : Thread_t) : M unit :=
  _ ← assertM (Bool.eqb (bool_decide (data = None)) ((if bool_decide (data = None) then 0 else e_block_size env) =? 0));
  k ← params c;
  t ← elapsed c th;
  _ ← perf_time perf t UNKNOWN;
  emit (Sent (mkSent type (p_core_id_master k) requester receiver address data perf t)).

(** ** Operations on one cache *)

Definition set_cache (c : nat) (x : Cache P I) : M unit := upd_master c (with_ms_cache x).
Definition getCacheBlockInfo (c : nat) (address : Z) : M (option (nat * nat)) :=
  m ← master c; lift_res (peekSingleLine (ms_cache m) address).
(** The block that a pointer points to, and a method call on it. *)
Definition block (c : nat) (p : option (nat * nat)) : M CacheBlockInfo :=
  match p with
  | Some (i, way) => m ← master c; lift_res (cache_peekBlock (ms_cache m) i way)
  | None => fail NullDeref
  end.
Definition on_block (c : nat) (p : option (nat * nat)) (f : CacheBlockInfo -> CacheBlockInfo) : M unit :=
  match p with
  | Some (i, way) => m ← master c; set_cache c (update_block (ms_cache m) i way f)
  | None => fail NullDeref
  end.
(** [getCacheState] of a block pointer and of an address *)
Definition block_state (c : nat) (p : option (nat * nat)) : M cstate_t :=
  match p with None => mret INVALID | Some _ => b ← block c p; mret (m_cstate b) end.
Definition getCacheState (c : nat) (address : Z) : M cstate_t := p ← getCacheBlockInfo c address; block_state c p.
Definition setCacheState (c : nat) (address : Z) (s : cstate_t) : M (option (nat * nat)) :=
  p ← getCacheBlockInfo c address; _ ← on_block c p (fun b => setCState b s); mret p.

Definition operationPermissibleinCache (c : nat) (address : Z) (op : mem_op_t) : M bool :=
  s ← getCacheState c address;
  mret (match op with Op_READ => readable s | Op_READ_EX | Op_WRITE => writable s end).

Definition invalidateCacheBlock (c : nat) (address : Z) : M unit :=
  old ← getCacheState c address;
  _ ← assertM (negb (bool_decide (old = MODIFIED)));
  _ ← assertM (negb (bool_decide (old = INVALID)));
  m ← master c;
  '(_, x) ← lift_res (invalidateSingleLine (ms_cache m) address);
  set_cache c x.

(** The data that [retrieveCacheBlock] leaves in its buffer. *)
Definition retrieveCacheBlock (c : nat) (address : Z) (th : Thread_t) (update_replacement : bool) : M (list Z) :=
  m ← master c;
  '(p, out, x) ← lift_res (accessSingleLine (ms_cache m) address LOAD (Some []) (e_block_size env) update_replacement);
  _ ← set_cache c x;
  _ ← assertM (bool_decide (is_Some p));
  mret (default (e_stack_buf env) out).

(** A store through [accessSingleLine] *)
Definition store_line (c : nat) (address : Z) (data_buf : option (list Z)) (data_length : Z) (update_replacement : bool)
  : M (option (nat * nat)) :=
  m ← master c;
  '(p, _, x) ← lift_res (accessSingleLine (ms_cache m) address STORE data_buf data_length update_replacement);
  _ ← set_cache c x;
  mret p.

(** ** Writes that go to the next level *)

Definition write_here (c : nat) (address offset : Z) (data_buf : option (list Z)) (data_length : Z) : M unit :=
  m ← master c;
  match ms_evicting_buf m with
  | Some buf =>
      if address =? ms_evicting_address m then
        _ ← assertM (offset =? 0);
        _ ← assertM (data_length =? e_block_size env);
        match data_buf with
        | Some d => buf ← lift_res (mem_write buf offset data_length d); upd_master c (with_ms_evicting_buf (Some buf))
        | None => mret tt
        end
      else
        p ← store_line c (u64 (address + offset)) data_buf data_length false;
        _ ← assertM (bool_decide (is_Some p));
        b ← block c p;
        assertM (bool_decide (m_cstate b = MODIFIED))
  | None =>
      p ← store_line c (u64 (address + offset)) data_buf data_length false;
      _ ← assertM (bool_decide (is_Some p));
      b ← block c p;
      assertM (bool_decide (m_cstate b = MODIFIED))
  end.

Fixpoint writeCacheBlock (n c : nat) (address offset : Z) (data_buf : option (list Z)) (data_length : Z) : M unit :=
  _ ← write_here c address offset data_buf data_length;
  k ← params c;
  if m_cache_writethrough k then
    match n, p_next k with
    | S n, Some next => writeCacheBlock n next address offset data_buf data_length
    | O, Some _ => fail OutOfFuel
    | _, None => fail NullDeref
    end
  else mret tt.

(** ** Updates that come from the next level *)

(** A loop over previous levels: the largest latency and whether some level had the line. *)
Fixpoint for_prevs (f : nat -> M (Z * bool)) (skip : option nat) (l : list nat) (latency : Z) (sibling_hit : bool) : M (Z * bool) :=
  match l with
  | [] => mret (latency, sibling_hit)
  | p :: l =>
      if bool_decide (skip = Some p) then for_prevs f skip l latency sibling_hit
      else
        '(t, hit) ← f p;
        for_prevs f skip l (if st_ltb latency t then t else latency) (sibling_hit || hit)
  end.

(** The statistics of a change of state. *)
Definition count_update (c : nat) (b : CacheBlockInfo) (new_cstate : cstate_t) (reason : reason_t) : M unit :=
  _ ← match reason with
      | COHERENCY =>
          _ ← count1 (if bool_decide (new_cstate = SHARED) then coherency_downgrades
                      else if bool_decide (m_cstate b = MODIFIED) then coherency_writebacks else coherency_invalidates) c;
          _ ← (if hasOption b PREFETCH && bool_decide (new_cstate = INVALID) then count1 invalidate_prefetch c else mret tt);
          if hasOption b WARMUP && bool_decide (new_cstate = INVALID) then count1 invalidate_warmup c else mret tt
      | _ => mret tt
      end;
  match reason with
  | UPGRADE => count1 coherency_upgrades c
  | BACK_INVAL => count1 (backinval (m_cstate b)) c
  | _ => mret tt
  end.

(** A state of the enumeration before NUM_CSTATE_STATES *)
Definition proper_state (s : cstate_t) : bool :=
  match s with INVALID | SHARED | SHARED_UPGRADING | EXCLUSIVE | OWNED | MODIFIED => true | _ => false end.

(** The data of a MODIFIED line goes to the next level or to [out_buf]; the result is what was
    written to [out_buf] and whether this was a write-back. *)
Definition write_back (c : nat) (p : option (nat * nat)) (address : Z) (want : bool) (th : Thread_t) : M (option (list Z) * bool) :=
  k ← params c;
  r ← (if m_cache_writethrough k then mret (None, false)
       else match p_next k with
            | Some next =>
                d ← retrieveCacheBlock c address th false;
                _ ← writeCacheBlock (e_levels env) next address 0 (Some d) (e_block_size env);
                mret (None, true)
            | None =>
                if want then d ← retrieveCacheBlock c address th false; mret (Some d, true)
                else fail AssertFailed
            end);
  _ ← on_block c p (fun b => setCState b SHARED);
  mret r.

(** The line leaves its state: what is written to [out_buf], and whether data was written back. *)
Definition change_state (c : nat) (p : option (nat * nat)) (address : Z) (new_cstate : cstate_t) (reason : reason_t) (want : bool)
    (th : Thread_t) : M (option (list Z) * bool) :=
  k ← params c;
  b ← block c p;
  _ ← count_update c b new_cstate reason;
  '(buf, wb) ← (if bool_decide (m_cstate b = MODIFIED) then write_back c p address want th else mret (None, false));
  let out := if want then d ← retrieveCacheBlock c address th false; mret (Some d, true) else mret (buf, wb) in
  match new_cstate with
  | INVALID =>
      r ← out;
      _ ← (if m_coherent k then invalidateCacheBlock c address else mret tt);
      mret r
  | SHARED => r ← out; _ ← on_block c p (fun b => setCState b SHARED); mret r
  | MODIFIED => _ ← on_block c p (fun b => setCState b MODIFIED); mret (buf, wb)
  | _ => fail AssertFailed
  end.

(** The part of updateCacheBlock after the previous levels: the latency, whether a cache had the line, and what
    was written to [out_buf]; [want] is [out_buf != NULL]. *)
Definition update_here (c : nat) (address : Z) (new_cstate : cstate_t) (reason : reason_t) (want : bool) (th : Thread_t)
    (sibling_hit : bool) : M (Z * bool * option (list Z)) :=
  k ← params c;
  p ← getCacheBlockInfo c address;
  s ← block_state c p;
  '(buf, wb) ←
    match p with
    | None => mret (None, false)
    | Some _ =>
        if bool_decide (new_cstate = s) && want
        then d ← retrieveCacheBlock c address th false; mret (Some d, true)
        else change_state c p address new_cstate reason want th
    end;
  s ← getCacheState c address;
  _ ← assertM (bool_decide (s = INVALID) || bool_decide (s = new_cstate) || negb (m_coherent k));
  s ← block_state c p;
  _ ← assertM (bool_decide (s = INVALID) || bool_decide (s = new_cstate) || negb (m_coherent k));
  _ ← assertM (negb want || bool_decide (is_Some buf));
  mret (if wb : bool then st_add Zero (cl_getLatency (e_periods env) (m_writeback_time k)) else Zero, sibling_hit || wb, buf).

Fixpoint updateCacheBlock (n c : nat) (address : Z) (new_cstate : cstate_t) (reason : reason_t) (want : bool) (th : Thread_t)
  : M (Z * bool * option (list Z)) :=
  _ ← assertM (proper_state new_cstate);
  m ← master c;
  '(_, sibling_hit) ←
    match n with
    | S n =>
        for_prevs (fun p => '(t, hit, _) ← updateCacheBlock n p address new_cstate
                              (if bool_decide (reason = EVICT) then BACK_INVAL else reason) false th; mret (t, hit))
          None (ms_prev m) Zero false
    | O => match ms_prev m with [] => mret (Zero, false) | _ => fail OutOfFuel end
    end;
  update_here c address new_cstate reason want th sibling_hit.

(** The updates of previous levels other than the requester, with their latency. *)
Definition snoop_prevs (c : nat) (requester : option nat) (address : Z) (new_cstate : cstate_t) (reason : reason_t) (th : Thread_t)
  : M bool :=
  m ← master c;
  '(latency, hit) ← for_prevs (fun p => '(t, hit, _) ← updateCacheBlock (e_levels env) p address new_cstate reason false th; mret (t, hit))
                      requester (ms_prev m) Zero false;
  _ ← incr_time c latency th;
  _ ← count_by snoop_latency latency c;
  mret hit.

(** ** Insertion *)

(** [isInLowerLevelCache]: whether a previous level has the line; the caches are inclusive. *)
Definition in_lower (h : Hier) (c : nat) (b : CacheBlockInfo) : bool :=
  match (m ← master c; mret m) h with
  | Ok (m, _) =>
      let address := tagToAddress (c_base (ms_cache m)) (m_tag b) in
      existsb (fun p => match getCacheBlockInfo p address h with Ok (Some _, _) => true | _ => false end) (ms_prev m)
  | Err _ => false
  end.

Definition incrementQBSLookupCost (c : nat) : M unit :=
  k ← params c;
  let latency := cl_getLatency (e_periods env) (m_writeback_time k) in
  _ ← incr_time c latency USER_THREAD;
  count_by qbs_query_latency latency c.
Fixpoint qbs_lookups (n c : nat) : M unit :=
  match n with O => mret tt | S n => _ ← incrementQBSLookupCost c; qbs_lookups n c end.

(** [accessDRAM]: where the access was served, its latency, and the data read. *)
Definition accessDRAM (c : nat) (op : mem_op_t) (address : Z) (data_buf : list Z) : M (Z * Z * list Z) :=
  k ← params c;
  t_issue ← elapsed c USER_THREAD;
  m ← master c;
  match ms_dram m with
  | None => fail NullDeref
  | Some d =>
      match op with
      | Op_READ =>
          '(latency, w, data, updates, d) ← lift_res (getDataFromDram d address (p_core_id_master k) t_issue);
          _ ← upd_master c (with_ms_dram (Some d));
          _ ← perf_times (Some c) updates;
          mret (where_num w, latency, default data_buf data)
      | Op_READ_EX | Op_WRITE =>
          '(latency, w, d) ← lift_res (putDataToDram d address (p_core_id_master k) data_buf t_issue);
          _ ← upd_master c (with_ms_dram (Some d));
          mret (where_num w, latency, data_buf)
      end
  end.

(** An evicted MODIFIED line goes to DRAM, delayed while all eviction buffers are in use. *)
Definition evict_to_dram (c : nat) (evict_address : Z) (evict_buf : list Z) : M unit :=
  t_now ← elapsed c USER_THREAD;
  m ← master c;
  _ ← match ms_writebacks m with
      | Some w => t_issue ← lift_res (getStartTime w t_now); incr_time c (st_sub t_issue t_now) USER_THREAD
      | None => mret tt
      end;
  '(_, dram_latency, _) ← accessDRAM c Op_WRITE evict_address evict_buf;
  m ← master c;
  match ms_writebacks m with
  | Some w => '(_, w) ← lift_res (getCompletionTime w t_now dram_latency 0); upd_master c (with_ms_writebacks (Some w))
  | None => mret tt
  end.

(** The evicted line leaves the previous levels, which write their data to the eviction buffer. *)
Definition back_invalidate (c : nat) (evict_address : Z) (evict_buf : list Z) (th : Thread_t) : M (list Z) :=
  m ← master c;
  match ms_prev m with
  | [] => mret evict_buf
  | _ =>
      _ ← upd_master c (fun m => with_ms_evicting_buf (Some evict_buf) (with_ms_evicting_address evict_address m));
      _ ← snoop_prevs c None evict_address INVALID BACK_INVAL th;
      m ← master c;
      _ ← upd_master c (fun m => with_ms_evicting_buf None (with_ms_evicting_address 0 m));
      mret (default evict_buf (ms_evicting_buf m))
  end.

(** "now properly get rid of the evicted line" *)
Definition dispose (c : nat) (evict_address : Z) (state : cstate_t) (evict_buf : list Z) (th : Thread_t) : M unit :=
  k ← params c;
  m ← master c;
  let dirty := bool_decide (state = MODIFIED) in
  if m_perfect k then mret tt
  else if negb (m_coherent k) then assertM (m_cache_writethrough k || negb dirty)
  else match p_next k with
  | Some next =>
      if negb (m_cache_writethrough k) && dirty
      then writeCacheBlock (e_levels env) next evict_address 0 (Some evict_buf) (e_block_size env) else mret tt
  | None =>
      match ms_dram m with
      | Some _ => if dirty then evict_to_dram c evict_address evict_buf else mret tt
      | None =>
          home ← lift_res (getHome (e_home env) evict_address);
          if dirty then send c FLUSH_REP (p_core_id k) home evict_address (Some evict_buf) None th
          else
            _ ← assertM (bool_decide (state = SHARED) || bool_decide (state = EXCLUSIVE));
            send c INV_REP (p_core_id k) home evict_address None None th
      end
  end.

Definition count_evict (c : nat) (b : CacheBlockInfo) : M unit :=
  _ ← count1 (evict_st (m_cstate b)) c;
  _ ← (if hasOption b PREFETCH then count1 evict_prefetch c else mret tt);
  if hasOption b WARMUP then count1 evict_warmup c else mret tt.

Definition insertCacheBlock (c : nat) (address : Z) (cstate : cstate_t) (data_buf : option (list Z)) (requester : Z) (th : Thread_t)
  : M (option (nat * nat)) :=
  s ← getCacheState c address;
  _ ← assertM (bool_decide (s = INVALID));
  m ← master c;
  lower ← gets in_lower;
  r ← lift_res (insertSingleLine (ms_cache m) address data_buf (CacheBlockInfo_new SharedCacheBlockInfo) true
                  (Some {| isInLowerLevelCache := lower c |}));
  _ ← set_cache c (li_cache r);
  _ ← qbs_lookups (li_qbs_lookups r) c;
  p ← setCacheState c address cstate;
  _ ← (if e_cache_only env then on_block c p (fun b => setOption b WARMUP) else mret tt);
  _ ← match e_get_owner env with
      | Some f => on_block c p (fun b => setOwner b (f requester address))
      | None => mret tt
      end;
  _ ← (if li_eviction r then
         let evict_address := li_evict_addr r in
         let state := m_cstate (li_evict_info r) in
         _ ← count_evict c (li_evict_info r);
         evict_buf ← back_invalidate c evict_address (default (e_stack_buf env) (li_evict_buff r)) th;
         _ ← dispose c evict_address state evict_buf th;
         s ← getCacheState c evict_address;
         assertM (bool_decide (s = INVALID))
       else mret tt);
  mret p.

(** ** Filling from the next level *)

Definition copyDataFromNextLevel (c : nat) (op : mem_op_t) (address : Z) (modeled : bool) (t_now : Z) : M unit :=
  k ← params c;
  match p_next k with
  | None => fail NullDeref
  | Some next =>
      ok ← operationPermissibleinCache next address op;
      _ ← assertM ok;
      data_buf ← retrieveCacheBlock next address USER_THREAD false;
      cstate ← getCacheState next address;
      _ ← (if modeled && negb (isInfinite (m_next_level_read_bandwidth k)) then
             delay ← lift_res (bpc_getRoundedLatency (e_periods env) (m_next_level_read_bandwidth k) (u32 (e_block_size env * 8)));
             m ← master c;
             '(t_done, b) ← lift_res (getCompletionTime (ms_next_read m) t_now delay 0);
             _ ← upd_master c (with_ms_next_read b);
             _ ← assertM (st_geb t_done (st_add t_now delay));
             incr_time c (st_sub (st_sub t_done t_now) delay) USER_THREAD
           else mret tt);
      p ← getCacheBlockInfo c address;
      match p with
      | Some _ => _ ← updateCacheBlock (e_levels env) c address cstate UPGRADE false SIM_THREAD; mret tt
      | None => _ ← insertCacheBlock c address cstate (Some data_buf) (p_core_id k) USER_THREAD; mret tt
      end
  end.

(** ** Statistics and MSHRs *)

(** The entry that completes first, in the order of iteration. *)
Definition mshr_first (l : list (Z * MshrEntry)) : Z * Z :=
  foldl (fun '(address_min, time_min) '(a, e) =>
           if st_ltb (mshr_t_complete e) time_min then (a, mshr_t_complete e) else (address_min, time_min)) (0, MaxTime) l.
Fixpoint mshr_cleanup (n : nat) (mshr : gmap Z MshrEntry) : res (gmap Z MshrEntry) :=
  if (base.size mshr <=? 8)%nat then Ok mshr
  else match n with
       | O => Err OutOfFuel
       | S n => mshr_cleanup n (delete (mshr_first (e_mshr_order env mshr)).1 mshr)
       end.
Definition cleanupMshr (c : nat) : M unit :=
  m ← master c;
  mshr ← lift_res (mshr_cleanup (base.size (ms_mshr m)) (ms_mshr m));
  upd_master c (with_ms_mshr mshr).
Definition set_mshr (c : nat) (address t_issue t_complete : Z) : M unit :=
  upd_master c (fun m => with_ms_mshr (<[address := make_mshr t_issue t_complete]> (ms_mshr m)) m).

(** Whether a miss of the address is still in progress, and when it completes. *)
Definition overlapping_miss (m : Master) (address t_now : Z) : option Z :=
  match ms_mshr m !! address with
  | Some e => if st_ltb (mshr_t_issue e) t_now && st_gtb (mshr_t_complete e) t_now then Some (mshr_t_complete e) else None
  | None => None
  end.

Definition accessATDs (c : nat) (op : mem_op_t) (hit : bool) (address core_num : Z) : M unit :=
  m ← master c;
  match ms_atds m with
  | [] => mret tt
  | l =>
      a ← lift_res (aget l (Z.to_nat core_num));
      a ← lift_res (atd_access a (bool_decide (op = Op_WRITE)) hit address);
      upd_master c (with_ms_atds (<[Z.to_nat core_num := a]> l))
  end.

Definition updateCounters (c : nat) (op : mem_op_t) (address : Z) (cache_hit : bool) (state : cstate_t) (isPrefetch : prefetch_type_t)
  : M unit :=
  k ← params c;
  t_now ← elapsed c USER_THREAD;
  m ← master c;
  let overlapping := bool_decide (is_Some (overlapping_miss m address t_now)) in
  _ ← accessATDs c op (negb (bool_decide (state = INVALID))) address (p_core_id k - p_core_id_master k);
  _ ← match op with
      | Op_WRITE =>
          _ ← (if bool_decide (isPrefetch = Pf_NONE) then mret tt else count1 stores_prefetch c);
          if bool_decide (isPrefetch = Pf_OWN) then mret tt
          else
            _ ← count1 stores c;
            _ ← count1 (stores_state state) c;
            if negb cache_hit || overlapping then
              _ ← count1 store_misses c;
              _ ← count1 (store_misses_state state) c;
              if overlapping then count1 store_overlapping_misses c else mret tt
            else mret tt
      | _ =>
          _ ← (if bool_decide (isPrefetch = Pf_NONE) then mret tt else count1 loads_prefetch c);
          if bool_decide (isPrefetch = Pf_OWN) then mret tt
          else
            _ ← count1 loads c;
            _ ← count1 (loads_state state) c;
            if negb cache_hit then
              _ ← count1 load_misses c;
              _ ← count1 (load_misses_state state) c;
              if overlapping then count1 load_overlapping_misses c else mret tt
            else mret tt
      end;
  cleanupMshr c.

Definition count_cache (c : nat) (cache_hit : bool) : M unit :=
  upd_master c (fun m => with_ms_cache (Cache.updateCounters (ms_cache m) cache_hit) m).

(** [updateHits] *)
Fixpoint updateHits (hits : nat) (c : nat) (op : mem_op_t) : M unit :=
  match hits with
  | O => mret tt
  | S hits =>
      _ ← count_cache c true;
      _ ← updateCounters c op 0 true (match op with Op_READ => SHARED | _ => MODIFIED end) Pf_NONE;
      updateHits hits c op
  end.

Definition updateUncoreStatistics (c : nat) (hit_where now : Z) : M unit :=
  k ← cntlr c;
  _ ← upd_cntlr c (with_m_last_remote_hit_where hit_where);
  let perf := cc_shmem_perf k in
  if st_gtb (m_time_begin perf) Zero then
    match cc_shmem_perf_global k with
    | None => fail NullDeref
    | Some g =>
        upd_cntlr c (fun k =>
          with_cc_shmem_perf (reset Zero INVALID_CORE_ID (disable perf))
            (with_cc_shmem_perf_global (Some (add g (disable perf)))
              (with_cc_shmem_perf_totaltime (st_add (cc_shmem_perf_totaltime k) (st_sub now (m_time_begin perf)))
                (with_cc_shmem_perf_numrequests (u64 (cc_shmem_perf_numrequests k + 1)) k))))
    end
  else mret tt.

(** [updateUsageBits] *)
Fixpoint updateUsageBits (n c : nat) (address used : Z) : M unit :=
  p ← getCacheBlockInfo c address;
  b ← block c p;
  let '(new_bits, b) := updateUsage_mask b used in
  _ ← on_block c p (fun _ => b);
  k ← params c;
  match p_next k with
  | Some next =>
      if new_bits && negb (m_perfect k)
      then match n with S n => updateUsageBits n next address used | O => fail OutOfFuel end else mret tt
  | None => mret tt
  end.

(** ** Requests to the directory *)

Definition getHomeOf (address : Z) : M Z := lift_res (getHome (e_home env) address).

Definition processExReqToDirectory (c : nat) (address : Z) : M unit :=
  s ← getCacheState c address;
  _ ← assertM (negb (bool_decide (s = SHARED)));
  _ ← assertM (bool_decide (s = INVALID));
  k ← params c; home ← getHomeOf address;
  send c EX_REQ (p_core_id_master k) home address None (Some c) USER_THREAD.

Definition processUpgradeReqToDirectory (c : nat) (address : Z) (perf : nat) (th : Thread_t) : M unit :=
  s ← getCacheState c address;
  _ ← assertM (bool_decide (s = SHARED));
  _ ← setCacheState c address SHARED_UPGRADING;
  k ← params c; home ← getHomeOf address;
  send c UPGRADE_REQ (p_core_id_master k) home address None (Some perf) th.

Definition processShReqToDirectory (c : nat) (address : Z) : M unit :=
  k ← params c; home ← getHomeOf address;
  send c SH_REQ (p_core_id_master k) home address None (Some c) USER_THREAD.

Definition initiateDirectoryAccess (c : nat) (op : mem_op_t) (address : Z) (isPrefetch : bool) (t_issue : Z) : M unit :=
  let exclusive := match op with Op_READ => false | _ => true end in
  k ← params c;
  _ ← upd_master c (fun m => with_ms_waiters (enqueue (ms_waiters m) address (mkDirWaiter exclusive isPrefetch c t_issue)) m);
  m ← master c;
  if size (ms_waiters m) address =? 1 then
    t ← elapsed c USER_THREAD;
    _ ← upd_cntlr c (fun x => with_cc_shmem_perf (reset t (p_core_id k) (cc_shmem_perf x)) x);
    if exclusive then
      p ← getCacheBlockInfo c address;
      s ← block_state c p;
      if bool_decide (is_Some p) && bool_decide (s = SHARED)
      then processUpgradeReqToDirectory c address c USER_THREAD
      else processExReqToDirectory c address
    else processShReqToDirectory c address
  else mret tt.

(** ** Prefetching *)

Fixpoint enqueue_prefetches (c : nat) (l : list Z) : M unit :=
  match l with
  | [] => mret tt
  | a :: l =>
      m ← master c;
      if (PREFETCH_MAX_QUEUE_LENGTH <? length (ms_prefetch_list m))%nat then mret tt
      else
        ok ← operationPermissibleinCache c a Op_READ;
        _ ← (if ok : bool then mret tt else upd_master c (fun m => with_ms_prefetch_list (ms_prefetch_list m ++ [a]) m));
        enqueue_prefetches c l
  end.

Definition trainPrefetcher (c : nat) (address : Z) (cache_hit prefetch_hit : bool) (t_issue : Z) : M unit :=
  k ← params c;
  m ← master c;
  match ms_prefetcher m with
  | None => fail NullDeref
  | Some f =>
      '(l, f) ← lift_res (getNextAddress (e_abs env) f address (p_core_id k));
      _ ← upd_master c (with_ms_prefetcher (Some f));
      if negb cache_hit || (p_prefetch_on_prefetch_hit k && prefetch_hit) then
        _ ← upd_master c (fun m => with_ms_prefetch_list [] (with_ms_prefetch_next (st_add t_issue PREFETCH_INTERVAL) m));
        enqueue_prefetches c l
      else mret tt
  end.

Definition train_if (c : nat) (modeled : bool) (address : Z) (cache_hit prefetch_hit : bool) (t_issue : Z) : M unit :=
  m ← master c;
  if modeled && bool_decide (is_Some (ms_prefetcher m)) then trainPrefetcher c address cache_hit prefetch_hit t_issue else mret tt.

(** ** Requests from the previous level *)

(** The two options of a block that has been used. *)
Definition use_warmup (c : nat) (p : option (nat * nat)) : M unit :=
  b ← block c p;
  if hasOption b WARMUP && negb (e_cache_only env)
  then _ ← count1 hits_warmup c; on_block c p (fun b => clearOption b WARMUP) else mret tt.
Definition use_prefetch (c : nat) (p : option (nat * nat)) : M bool :=
  b ← block c p;
  if hasOption b PREFETCH
  then _ ← count1 hits_prefetch c; _ ← on_block c p (fun b => clearOption b PREFETCH); mret true else mret false.

(** A hit on a line that is still under way completes with it. *)
Definition mshr_delay (c : nat) (address : Z) : M bool :=
  t_now ← elapsed c USER_THREAD;
  m ← master c;
  match overlapping_miss m address t_now with
  | Some t =>
      let latency := st_sub t t_now in
      _ ← count_by mshr_latency latency c;
      _ ← incr_time c latency USER_THREAD;
      mret true
  | None => mret false
  end.

Definition shmem_hit (c requester : nat) (p : option (nat * nat)) (op : mem_op_t) (address : Z) (modeled : bool)
    (isPrefetch : prefetch_type_t) : M (Z * bool) :=
  prefetch_hit ← (if bool_decide (isPrefetch = Pf_NONE) then use_prefetch c p else mret false);
  _ ← use_warmup c p;
  _ ← (if modeled then
         delayed ← mshr_delay c address;
         if delayed : bool then mret tt else incr_cost c ACCESS_CACHE_DATA_AND_TAGS USER_THREAD
       else mret tt);
  b ← block c p;
  sibling_hit ←
    match op with
    | Op_READ_EX | Op_WRITE => snoop_prevs c (Some requester) address INVALID COHERENCY USER_THREAD
    | Op_READ =>
        if bool_decide (m_cstate b = MODIFIED) || bool_decide (m_cstate b = EXCLUSIVE)
        then snoop_prevs c (Some requester) address SHARED COHERENCY USER_THREAD else mret false
    end;
  k ← cntlr c;
  if negb (m_last_remote_hit_where k =? HW_UNKNOWN) then
    _ ← upd_cntlr c (with_m_last_remote_hit_where HW_UNKNOWN);
    mret (m_last_remote_hit_where k, prefetch_hit)
  else mret (m_mem_component (cc_cfg k) + (if sibling_hit : bool then HW_SIBLING else 0), prefetch_hit).

(** The line is read from DRAM by a last-level cache that accesses it directly. *)
Definition fill_from_dram (c : nat) (op : mem_op_t) (address : Z) (isPrefetch : prefetch_type_t) : M Z :=
  k ← params c;
  t ← elapsed c USER_THREAD;
  _ ← upd_cntlr c (fun x => with_cc_shmem_perf (reset t (p_core_id k) (cc_shmem_perf x)) x);
  '(hit_where, latency, data_buf) ← accessDRAM c Op_READ address (e_stack_buf env);
  _ ← incr_time c latency USER_THREAD;
  _ ← insertCacheBlock c address (match op with Op_READ => SHARED | _ => MODIFIED end) (Some data_buf) (p_core_id k) USER_THREAD;
  p ← getCacheBlockInfo c address;
  _ ← (if bool_decide (isPrefetch = Pf_NONE) then mret tt else on_block c p (fun b => setOption b PREFETCH));
  t ← elapsed c USER_THREAD;
  _ ← updateUncoreStatistics c hit_where t;
  mret hit_where.

(** The last level does not have the line, or not in a writable state. *)
Definition last_level_miss (c requester : nat) (p : option (nat * nat)) (op : mem_op_t) (address : Z) (isPrefetch : prefetch_type_t)
    (t_issue : Z) : M (Z * bool) :=
  k ← params c;
  m ← master c;
  s ← block_state c p;
  if bool_decide (is_Some p) && bool_decide (s = EXCLUSIVE) then
    _ ← snoop_prevs c (Some requester) address INVALID UPGRADE USER_THREAD;
    _ ← on_block c p (fun b => setCState b MODIFIED);
    mret (m_mem_component k, true)
  else match ms_dram m with
  | Some _ =>
      match p with
      | Some _ => _ ← on_block c p (fun b => setCState b MODIFIED); mret (m_mem_component k, true)
      | None => w ← fill_from_dram c op address isPrefetch; mret (w, true)
      end
  | None =>
      _ ← initiateDirectoryAccess c op address (negb (bool_decide (isPrefetch = Pf_NONE))) t_issue;
      mret (HW_MISS, false)
  end.

(** [ask] is the request to the next level. *)
Definition shmem_miss (ask : nat -> M Z) (c requester : nat) (p : option (nat * nat)) (op : mem_op_t) (address : Z) (modeled : bool)
    (isPrefetch : prefetch_type_t) (t_issue : Z) : M (Z * bool) :=
  k ← params c;
  _ ← (if modeled then incr_cost c ACCESS_CACHE_TAGS USER_THREAD else mret tt);
  s ← block_state c p;
  _ ← (if bool_decide (is_Some p) && bool_decide (s = SHARED)
       then _ ← snoop_prevs c (Some requester) address INVALID UPGRADE USER_THREAD; mret tt else mret tt);
  match p_next k with
  | Some next =>
      _ ← match p with Some _ => invalidateCacheBlock c address | None => mret tt end;
      hit_where ← ask next;
      if hit_where =? HW_MISS then mret (hit_where, false)
      else
        t_now ← elapsed c USER_THREAD;
        _ ← copyDataFromNextLevel c op address modeled t_now;
        _ ← (if bool_decide (isPrefetch = Pf_NONE) then mret tt
             else p ← getCacheBlockInfo c address; on_block c p (fun b => setOption b PREFETCH));
        mret (hit_where, true)
  | None => last_level_miss c requester p op address isPrefetch t_issue
  end.

(** Perfect caches always hit, and pass-through caches never do except to return the data of a fill. *)
Definition shmem_lookup (c : nat) (op : mem_op_t) (address : Z) (count : bool) : M (bool * bool * option (nat * nat)) :=
  k ← params c;
  ok ← operationPermissibleinCache c address op;
  p ← getCacheBlockInfo c address;
  if negb ok && m_perfect k then
    p ← match p with
        | Some _ => _ ← on_block c p (fun b => setCState b MODIFIED); mret p
        | None => insertCacheBlock c address (match op with Op_READ => SHARED | _ => MODIFIED end) None (p_core_id k) USER_THREAD
        end;
    mret (true, ok, p)
  else if ok && m_passthrough k && count then
    _ ← on_block c p block_invalidate;
    _ ← assertM (bool_decide (is_Some (p_next k)));
    mret (false, false, None)
  else mret (ok, ok, p).

Fixpoint processShmemReqFromPrevCache (n c requester : nat) (op : mem_op_t) (address : Z) (modeled count : bool)
    (isPrefetch : prefetch_type_t) (t_issue : Z) : M Z :=
  k ← params c;
  '(cache_hit, first_hit, p) ← shmem_lookup c op address count;
  _ ← (if count then
         _ ← (if bool_decide (isPrefetch = Pf_NONE) then count_cache c cache_hit else mret tt);
         s ← getCacheState c address;
         updateCounters c op address cache_hit s isPrefetch
       else mret tt);
  let ask next :=
    match n with
    | S n => processShmemReqFromPrevCache n next c op address modeled count
               (if bool_decide (isPrefetch = Pf_NONE) then Pf_NONE else Pf_OTHER) t_issue
    | O => fail OutOfFuel
    end in
  '(hit_where, cache_hit, prefetch_hit) ←
    (if cache_hit : bool then '(w, f) ← shmem_hit c requester p op address modeled isPrefetch; mret (w, true, f)
     else '(w, h) ← shmem_miss ask c requester p op address modeled isPrefetch t_issue; mret (w, h, false));
  _ ← (if cache_hit : bool then
         _ ← retrieveCacheBlock c address USER_THREAD (first_hit && count);
         if modeled && negb first_hit && negb (m_passthrough k) then
           t ← elapsed c USER_THREAD;
           _ ← set_mshr c address t_issue t;
           cleanupMshr c
         else mret tt
       else mret tt);
  _ ← train_if c modeled address cache_hit prefetch_hit t_issue;
  mret hit_where.

(** ** Issuing prefetches *)

(** The first address of the list that is not in the cache. *)
Fixpoint next_prefetch (c : nat) (l : list Z) : M Z :=
  match l with
  | [] => mret INVALID_ADDRESS
  | a :: l =>
      _ ← upd_master c (with_ms_prefetch_list l);
      ok ← operationPermissibleinCache c a Op_READ;
      if ok : bool then next_prefetch c l else mret a
  end.

Definition wait (c : nat) (w : pending_t) : M unit :=
  k ← params c; modify (fun h => with_h_pending (<[p_core_id k := w]> (h_pending h)) h).

(** The end of doPrefetch and the statement after its call. *)
Definition end_prefetch (c : nat) (t_before : Z) : M unit :=
  _ ← set_time c USER_THREAD t_before;
  upd_master c (fun m => with_ms_prefetch_next (st_add (ms_prefetch_next m) PREFETCH_INTERVAL) m).

(** [doPrefetch] until it waits, [false], or to its end, [true]. *)
Definition doPrefetch (c : nat) (prefetch_address t_start t_now : Z) : M bool :=
  _ ← count1 prefetches c;
  t_before ← elapsed c USER_THREAD;
  _ ← set_time c USER_THREAD t_start;
  hit_where ← processShmemReqFromPrevCache (e_levels env) c c Op_READ prefetch_address true true Pf_OWN t_start;
  if hit_where =? HW_MISS
  then _ ← wait c (PendingPrefetch (mkPrefetchOp c prefetch_address t_start t_before t_now)); mret false
  else _ ← end_prefetch c t_before; mret true.

Fixpoint Prefetch (n c : nat) (t_now : Z) : M unit :=
  m ← master c;
  address ← (if st_leb (ms_prefetch_next m) t_now then next_prefetch c (ms_prefetch_list m) else mret INVALID_ADDRESS);
  m ← master c;
  go ← (if address =? INVALID_ADDRESS then mret true else doPrefetch c address (ms_prefetch_next m) t_now);
  k ← params c;
  match p_next k with
  | Some next =>
      if go : bool then match n with S n => Prefetch n next t_now | O => fail OutOfFuel end else mret tt
  | None => mret tt
  end.

(** The prefetch goes on when the line has arrived. *)
Definition resume_prefetch (o : PrefetchOp) : M unit :=
  let c := po_cntlr o in
  hit_where ← processShmemReqFromPrevCache (e_levels env) c c Op_READ (po_address o) false false Pf_OWN (po_t_start o);
  _ ← assertM (negb (hit_where =? HW_MISS));
  _ ← end_prefetch c (po_t_before o);
  k ← params c;
  match p_next k with Some next => Prefetch (e_levels env) next (po_t_now o) | None => mret tt end.

(** ** Accesses of the core *)

(** The bytes that a load leaves in [data_buf]. *)
Definition accessCache (c : nat) (op : mem_op_t) (ca_address offset : Z) (data_buf : option (list Z)) (data_length : Z)
    (update_replacement : bool) : M (option (list Z)) :=
  match op with
  | Op_READ | Op_READ_EX =>
      m ← master c;
      '(_, out, x) ← lift_res (accessSingleLine (ms_cache m) (u64 (ca_address + offset)) LOAD data_buf data_length update_replacement);
      _ ← set_cache c x;
      mret out
  | Op_WRITE =>
      _ ← store_line c (u64 (ca_address + offset)) data_buf data_length update_replacement;
      k ← params c;
      _ ← (if m_cache_writethrough k then
             match p_next k with
             | None => fail AssertFailed
             | Some next => writeCacheBlock (e_levels env) next ca_address offset data_buf data_length
             end
           else mret tt);
      mret None
  end.

(** From the usage bits to the end. *)
Definition finish_memop (o : MemOp) (cache_hit prefetch_hit : bool) (hit_where : Z) (p : option (nat * nat)) : M unit :=
  let c := mo_cntlr o in
  k ← params c;
  _ ← match p_next k, e_get_owner env with
      | Some next, Some _ =>
          if mo_modeled o && negb (m_perfect k) then
            b ← block c p;
            let '(new_bits, b) := updateUsage b (mo_offset o) (mo_length o) in
            _ ← on_block c p (fun _ => b);
            if new_bits then updateUsageBits (e_levels env) next (mo_address o) (m_used b) else mret tt
          else mret tt
      | _, _ => mret tt
      end;
  data ← accessCache c (mo_type o) (mo_address o) (mo_offset o) (mo_data o) (mo_length o)
           ((hit_where =? m_mem_component k) && mo_count o);
  t_now ← elapsed c USER_THREAD;
  _ ← (if negb cache_hit && mo_count o then count_by total_latency (st_sub t_now (mo_t_start o)) c else mret tt);
  _ ← count1 (if bool_decide (mo_type o = Op_WRITE) then stores_where hit_where else loads_where hit_where) c;
  _ ← emit (Completed (p_core_id k) (mo_address o) hit_where data);
  _ ← train_if c (mo_modeled o) (mo_address o) cache_hit prefetch_hit (mo_t_start o);
  if negb (bool_decide (mo_lock o = Lk_LOCK)) && mo_modeled o then Prefetch (e_levels env) c (mo_t_start o) else mret tt.

(** "data should now be in next-level cache, go get it" *)
Definition fill_memop (o : MemOp) (hit_where : Z) : M unit :=
  let c := mo_cntlr o in
  k ← params c;
  t_now ← elapsed c USER_THREAD;
  _ ← copyDataFromNextLevel c (mo_type o) (mo_address o) (mo_modeled o) t_now;
  p ← getCacheBlockInfo c (mo_address o);
  ok ← operationPermissibleinCache c (mo_address o) (mo_type o);
  _ ← assertM ok;
  _ ← (if mo_modeled o && m_l1_mshr k && negb (m_passthrough k) then
         t_miss_end ← elapsed c USER_THREAD;
         m ← master c;
         '(_, q) ← lift_res (getCompletionTime (ms_l1_mshr m) (mo_t_miss_begin o) (st_sub t_miss_end (mo_t_mshr_avail o)) (mo_address o));
         upd_master c (with_ms_l1_mshr q)
       else mret tt);
  finish_memop o false false hit_where p.

(** The access goes on when the line has arrived at the last level. *)
Definition resume_memop (o : MemOp) : M unit :=
  k ← params (mo_cntlr o);
  match p_next k with
  | None => fail NullDeref
  | Some next =>
      hit_where ← processShmemReqFromPrevCache (e_levels env) next (mo_cntlr o) (mo_type o) (mo_address o) false false Pf_NONE (mo_t_start o);
      _ ← assertM (negb (hit_where =? HW_MISS));
      fill_memop o hit_where
  end.

Definition memop_hit (o : MemOp) (p : option (nat * nat)) : M unit :=
  let c := mo_cntlr o in
  k ← params c;
  _ ← incr_cost c ACCESS_CACHE_DATA_AND_TAGS USER_THREAD;
  _ ← use_warmup c p;
  prefetch_hit ← use_prefetch c p;
  _ ← (if mo_modeled o && m_l1_mshr k then
         t_now ← elapsed c USER_THREAD;
         m ← master c;
         let t_completed := getTagCompletionTime (ms_l1_mshr m) (mo_address o) in
         if st_neb t_completed MaxTime && st_gtb t_completed t_now then
           _ ← count1 (if bool_decide (mo_type o = Op_WRITE) then store_overlapping_misses else load_overlapping_misses) c;
           incr_time c (st_sub t_completed t_now) USER_THREAD
         else mret tt
       else mret tt);
  _ ← (if mo_modeled o then mshr_delay c (mo_address o) else mret false);
  finish_memop o true prefetch_hit (m_mem_component k) p.

Definition memop_miss (o : MemOp) : M unit :=
  let c := mo_cntlr o in
  k ← params c;
  _ ← (if m_passthrough k then mret tt else incr_cost c ACCESS_CACHE_TAGS USER_THREAD);
  t_miss_begin ← elapsed c USER_THREAD;
  t_mshr_avail ← (if mo_modeled o && m_l1_mshr k && negb (m_passthrough k) then
                    m ← master c;
                    t ← lift_res (getStartTime (ms_l1_mshr m) t_miss_begin);
                    _ ← assertM (st_geb t t_miss_begin);
                    _ ← incr_time c (st_sub t t_miss_begin) USER_THREAD;
                    _ ← count_by mshr_latency (st_sub t t_miss_begin) c;
                    mret t
                  else mret t_miss_begin);
  let o := mkMemOp c (mo_lock o) (mo_type o) (mo_address o) (mo_offset o) (mo_data o) (mo_length o) (mo_modeled o) (mo_count o)
             (mo_t_start o) t_miss_begin t_mshr_avail in
  _ ← (if bool_decide (mo_lock o = Lk_UNLOCK) then fail LogError else mret tt);
  s ← getCacheState c (mo_address o);
  _ ← (if bool_decide (s = INVALID) then mret tt else invalidateCacheBlock c (mo_address o));
  match p_next k with
  | None => fail NullDeref
  | Some next =>
      hit_where ← processShmemReqFromPrevCache (e_levels env) next c (mo_type o) (mo_address o) (mo_modeled o) (mo_count o) Pf_NONE (mo_t_start o);
      if hit_where =? HW_MISS then wait c (PendingMemOp o) else fill_memop o hit_where
  end.

(** [processMemOpFromCore] until it waits or to its end *)
Definition processMemOpFromCore (c : nat) (lock_signal : lock_signal_t) (op : mem_op_t) (ca_address offset : Z)
    (data_buf : option (list Z)) (data_length : Z) (modeled count : bool) : M unit :=
  _ ← assertM (Z.land ca_address (u32 (e_block_size env - 1)) =? 0);
  _ ← assertM (u32 (offset + data_length) <=? e_block_size env);
  k ← params c;
  t_start ← elapsed c USER_THREAD;
  let o := mkMemOp c lock_signal op ca_address offset data_buf data_length modeled count t_start 0 0 in
  ok ← operationPermissibleinCache c ca_address op;
  p ← getCacheBlockInfo c ca_address;
  '(cache_hit, p) ←
    (if negb ok && m_perfect k then
       p ← match p with
           | Some _ => _ ← on_block c p (fun b => setCState b MODIFIED); mret p
           | None =>
               _ ← insertCacheBlock c ca_address (match op with Op_READ => SHARED | _ => MODIFIED end) None (p_core_id k) USER_THREAD;
               getCacheBlockInfo c ca_address
           end;
       mret (true, p)
     else if ok && m_passthrough k then _ ← on_block c p block_invalidate; mret (false, None)
     else mret (ok, p));
  _ ← (if count then
         _ ← count_cache c cache_hit;
         s ← block_state c p;
         updateCounters c op ca_address cache_hit s Pf_NONE
       else mret tt);
  if cache_hit : bool then memop_hit o p else memop_miss o.

(** ** Messages from the directory *)

Definition processExRepFromDramDirectory (c : nat) (requester : Z) (msg : DirMsg) : M unit :=
  _ ← insertCacheBlock c (dm_address msg) EXCLUSIVE (dm_data msg) requester SIM_THREAD; mret tt.

Definition processShRepFromDramDirectory (c : nat) (requester : Z) (msg : DirMsg) : M unit :=
  _ ← insertCacheBlock c (dm_address msg) SHARED (dm_data msg) requester SIM_THREAD; mret tt.

Definition processUpgradeRepFromDramDirectory (c : nat) (msg : DirMsg) : M unit :=
  s ← getCacheState c (dm_address msg);
  match s with
  | INVALID =>
      _ ← assertM (bool_decide (is_Some (dm_data msg)));
      _ ← updateCacheBlock (e_levels env) c (dm_address msg) MODIFIED UPGRADE true SIM_THREAD; mret tt
  | SHARED_UPGRADING => _ ← updateCacheBlock (e_levels env) c (dm_address msg) MODIFIED UPGRADE false SIM_THREAD; mret tt
  | _ => fail LogError
  end.

(** [shmem_msg->getPerf()->updateTime(getElapsedTime(_SIM_THREAD), reason)] *)
Definition msg_time (c : nat) (msg : DirMsg) (reason : shmem_times_type_t) : M unit :=
  t ← elapsed c SIM_THREAD; perf_time (dm_perf msg) t reason.

Definition processInvReqFromDramDirectory (c : nat) (sender : Z) (msg : DirMsg) : M unit :=
  let address := dm_address msg in
  s ← getCacheState c address;
  if bool_decide (s = INVALID) then incr_cost c ACCESS_CACHE_TAGS SIM_THREAD
  else
    _ ← msg_time c msg UNKNOWN;
    _ ← incr_cost c ACCESS_CACHE_TAGS SIM_THREAD;
    _ ← updateCacheBlock (e_levels env) c address INVALID COHERENCY false SIM_THREAD;
    _ ← msg_time c msg REMOTE_CACHE_INV;
    send c INV_REP (dm_requester msg) sender address None (dm_perf msg) SIM_THREAD.

Definition processFlushReqFromDramDirectory (c : nat) (sender : Z) (msg : DirMsg) : M unit :=
  let address := dm_address msg in
  s ← getCacheState c address;
  if bool_decide (s = INVALID) then incr_cost c ACCESS_CACHE_TAGS SIM_THREAD
  else
    _ ← msg_time c msg UNKNOWN;
    _ ← incr_cost c ACCESS_CACHE_DATA_AND_TAGS SIM_THREAD;
    '(_, _, buf) ← updateCacheBlock (e_levels env) c address INVALID COHERENCY true SIM_THREAD;
    _ ← msg_time c msg REMOTE_CACHE_WB;
    send c FLUSH_REP (dm_requester msg) sender address (Some (default (e_stack_buf env) buf)) (dm_perf msg) SIM_THREAD.

(** The line of a pending upgrade keeps its state; what is sent then is an array that was never written. *)
Definition processWbReqFromDramDirectory (c : nat) (sender : Z) (msg : DirMsg) : M unit :=
  let address := dm_address msg in
  s ← getCacheState c address;
  if bool_decide (s = INVALID) then
    _ ← incr_cost c ACCESS_CACHE_TAGS SIM_THREAD;
    msg_time c msg REMOTE_CACHE_WB
  else
    _ ← msg_time c msg UNKNOWN;
    _ ← incr_cost c ACCESS_CACHE_DATA_AND_TAGS SIM_THREAD;
    buf ← (if bool_decide (s = SHARED_UPGRADING) then mret None
           else '(_, _, buf) ← updateCacheBlock (e_levels env) c address SHARED COHERENCY true SIM_THREAD; mret buf);
    _ ← msg_time c msg REMOTE_CACHE_FWD;
    send c WB_REP (dm_requester msg) sender address (Some (default (e_stack_buf env) buf)) (dm_perf msg) SIM_THREAD.

(** The thread of a core that waits is woken up and runs until it waits again or is done. *)
Definition wakeUpUserThread (core : Z) : M unit :=
  l ← gets h_pending;
  match l !! core with
  | None => fail AssertFailed
  | Some w =>
      _ ← modify (fun h => with_h_pending (delete core (h_pending h)) h);
      match w with PendingMemOp o => resume_memop o | PendingPrefetch o => resume_prefetch o end
  end.

(** One turn of the loop over the waiters of the address; [false] when an upgrade has been sent instead. *)
Definition serve_waiter (c : nat) (address : Z) (w : where_t) (request : CacheDirectoryWaiter) : M bool :=
  let r := dw_cache_cntlr request in
  t_here ← elapsed c SIM_THREAD;
  _ ← perf_time (Some r) t_here PENDING_HIT;
  s ← getCacheState c address;
  if dw_exclusive request && bool_decide (s = SHARED) then
    _ ← processUpgradeReqToDirectory c address r SIM_THREAD; mret false
  else
    _ ← (if dw_isPrefetch request then p ← getCacheBlockInfo c address; on_block c p (fun b => setOption b PREFETCH) else mret tt);
    t_core ← elapsed r USER_THREAD;
    _ ← (if st_gtb t_here t_core then set_time r USER_THREAD t_here else mret tt);
    _ ← updateUncoreStatistics r (where_num w) t_here;
    k ← params r;
    _ ← wakeUpUserThread (p_core_id k);
    t ← elapsed c SIM_THREAD;
    _ ← set_mshr r address (dw_t_issue request) t;
    _ ← cleanupMshr c;
    m ← master c;
    '(_, q) ← lift_res (dequeue (ms_waiters m) address);
    _ ← upd_master c (with_ms_waiters q);
    mret true.

Fixpoint serve_waiters (n c : nat) (address : Z) (w : where_t) : M unit :=
  m ← master c;
  if empty (ms_waiters m) address then mret tt
  else match n with
       | O => fail OutOfFuel
       | S n =>
           request ← lift_res (front (ms_waiters m) address);
           go ← serve_waiter c address w request;
           if go : bool then serve_waiters n c address w else mret tt
       end.

(** [fuel] bounds the waiters served; each turn dequeues one, but the threads woken up may wait again. *)
Definition handleMsgFromDramDirectory (fuel c : nat) (sender : Z) (msg : DirMsg) : M unit :=
  let address := dm_address msg in
  m ← master c;
  match dm_type msg with
  | EX_REP | SH_REP | UPGRADE_REP =>
      request ← lift_res (front (ms_waiters m) address);
      k ← params (dw_cache_cntlr request);
      let requester := p_core_id k in
      _ ← match dm_type msg with
          | EX_REP => processExRepFromDramDirectory c requester msg
          | SH_REP => processShRepFromDramDirectory c requester msg
          | _ => processUpgradeRepFromDramDirectory c msg
          end;
      serve_waiters fuel c address (dm_where msg)
  | INV_REQ => processInvReqFromDramDirectory c sender msg
  | FLUSH_REQ => processFlushReqFromDramDirectory c sender msg
  | WB_REQ => processWbReqFromDramDirectory c sender msg
  | _ => fail LogError
  end.

End CacheCntlr.
