(* ===== verification/MSHR.v ===== *)
(** * Miss status holding registers

    What [cleanupMshr] of the cache controllers leaves of the table of misses: the
    eight that complete last, if every miss has a completion time; a table of
    misses without one is never cleaned up. *)

From stdpp Require Import gmap.
From S2P Require Import Prelude SubsecondTime CacheCntlr.

(** The iteration order of the table: any, as long as it visits every entry once. *)
Definition order_ok (order : gmap Z MshrEntry -> list (Z * MshrEntry)) : Prop := forall m, order m ≡ₚ map_to_list m.

(** One comparison of the search *)
Definition earlier (best : Z * Z) (x : Z * MshrEntry) : Z * Z :=
  if mshr_t_complete x.2 <? best.2 then (x.1, mshr_t_complete x.2) else best.

Lemma mshr_first_eq l : mshr_first l = foldl earlier (0, MaxTime) l.
Proof.
  unfold mshr_first. generalize (0, MaxTime). induction l as [|[a e] l IH]; intros [b t]; [done|]. cbn [foldl]. rewrite IH. done.
Qed.

Lemma foldl_earlier l best :
  (foldl earlier best l).2 <= best.2 /\ (forall x, x ∈ l -> (foldl earlier best l).2 <= mshr_t_complete x.2) /\
  (foldl earlier best l = best \/ exists x, x ∈ l /\ foldl earlier best l = (x.1, mshr_t_complete x.2)).
Proof.
  revert best. induction l as [|y l IH]; intros best; cbn [foldl]; [split_and!; [done|by intros x ?%elem_of_nil|by left]|].
  destruct (IH (earlier best y)) as (H1 & H2 & H3).
  assert ((earlier best y).2 <= best.2 /\ (earlier best y).2 <= mshr_t_complete y.2 /\
    (earlier best y = best \/ earlier best y = (y.1, mshr_t_complete y.2))) as (E1 & E2 & E3).
  { unfold earlier. destruct (Z.ltb_spec (mshr_t_complete y.2) best.2); cbn; split_and!; try lia; auto. }
  split_and!; [lia| |].
  - intros x [->|Hx]%elem_of_cons; [lia|by apply H2].
  - destruct H3 as [->|(x & Hx & ->)]; [|right; exists x; split; [by right|done]].
    destruct E3 as [->| ->]; [by left|]. right. exists y. split; [by left|done].
Qed.

(** The entry found completes first. *)
Lemma mshr_first_spec env (m : gmap Z MshrEntry) :
  order_ok (e_mshr_order env) -> map_Forall (fun _ e => mshr_t_complete e < MaxTime) m -> m <> ∅ ->
  exists e, m !! (mshr_first (e_mshr_order env m)).1 = Some e /\ forall a x, m !! a = Some x -> mshr_t_complete e <= mshr_t_complete x.
Proof.
  intros Ho Hm Hne. rewrite mshr_first_eq. destruct (foldl_earlier (e_mshr_order env m) (0, MaxTime)) as (_ & H2 & H3).
  assert (forall a x, (a, x) ∈ e_mshr_order env m <-> m !! a = Some x) as Hin by (intros; rewrite (Ho m); apply elem_of_map_to_list).
  destruct (map_choose m Hne) as (a0 & x0 & Hx0). pose proof (Hm a0 x0 Hx0) as Hlt. pose proof (H2 (a0, x0) (proj2 (Hin _ _) Hx0)) as Hle. cbn in Hle, Hlt.
  destruct H3 as [E|([a e] & Ha & E)]; rewrite E in *; cbn in *; [lia|]. exists e. split; [by apply Hin|].
  intros b x Hb%Hin. by apply (H2 (b, x)).
Qed.

(** [cleanupMshr] ends with at most eight misses, and it drops those that complete first: if every miss in the table
    has a completion time, the loop needs no more turns than there are entries, and the entries it keeps complete no
    earlier than the ones it removes. *)
Theorem mshr_cleanup_keeps_latest (env : CacheEnv) (n : nat) (m : gmap Z MshrEntry) :
  order_ok (e_mshr_order env) -> map_Forall (fun _ e => mshr_t_complete e < MaxTime) m -> (base.size m <= n)%nat ->
  exists m', mshr_cleanup env n m = Ok m' /\ m' ⊆ m /\ base.size m' = Nat.min 8 (base.size m) /\
    forall a b x y, m !! a = Some x -> m' !! a = None -> m' !! b = Some y -> mshr_t_complete x <= mshr_t_complete y.
Proof.
  intros Ho. revert m. induction n as [|n IH]; intros m Hm Hn; cbn [mshr_cleanup].
  - assert (base.size m = 0)%nat as E by lia. rewrite E. exists m. split_and!; [done|done|by rewrite E|congruence].
  - destruct (Nat.leb_spec (base.size m) 8) as [Hs|Hs].
    + exists m. split_and!; [done|done|lia|congruence].
    + assert (m <> ∅) as Hne by (intros ->; rewrite map_size_empty in Hs; lia).
      destruct (mshr_first_spec env m Ho Hm Hne) as (e & He & Hmin). set (a0 := (mshr_first _).1) in *.
      assert (base.size (delete a0 m) = pred (base.size m)) as Hd by (apply map_size_delete_Some; eauto).
      destruct (IH (delete a0 m)) as (m' & Em & Hsub & Hsz & Hrest); [by apply map_Forall_delete|lia|].
      exists m'. split_and!; [done|etrans; [done|apply delete_subseteq]|lia|].
      intros a b x y Hx Ha Hy. assert (m !! b = Some y) as Hb by (eapply lookup_weaken; [|etrans; [exact Hsub|apply delete_subseteq]]; done).
      destruct (decide (a = a0)) as [->|Hne']; [simplify_eq; by eapply Hmin|].
      eapply (Hrest a b x y); [by rewrite lookup_delete_ne|done|done].
Qed.

(** The loop of [cleanupMshr] can be endless: with more than eight misses that have no completion time (MaxTime), none
    of them at address 0, no entry is ever erased, whatever the number of turns. *)
Theorem mshr_cleanup_endless (env : CacheEnv) (n : nat) (m : gmap Z MshrEntry) :
  order_ok (e_mshr_order env) -> map_Forall (fun _ e => mshr_t_complete e = MaxTime) m -> m !! 0 = None -> (8 < base.size m)%nat ->
  mshr_cleanup env n m = Err OutOfFuel.
Proof.
  intros Ho Hm H0 Hs. assert ((mshr_first (e_mshr_order env m)).1 = 0) as E.
  { rewrite mshr_first_eq. destruct (foldl_earlier (e_mshr_order env m) (0, MaxTime)) as (_ & _ & [->|([a e] & Ha & E)]); [done|].
    assert (forall l, Forall (fun x : Z * MshrEntry => mshr_t_complete x.2 = MaxTime) l -> foldl earlier (0, MaxTime) l = (0, MaxTime)) as Hf.
    { induction 1 as [|x l Hx _ IH]; [done|]. cbn [foldl]. unfold earlier at 2. rewrite Hx, Z.ltb_irrefl. done. }
    rewrite Hf; [done|]. apply Forall_forall. intros [b x] Hb. rewrite (Ho m) in Hb. apply elem_of_map_to_list in Hb. by apply (Hm b x). }
  induction n as [|n IH]; cbn [mshr_cleanup]; destruct (Nat.leb_spec (base.size m) 8); try lia; [done|].
  by rewrite E, delete_id.
Qed.

(** Witnesses: nine misses. *)
Definition ex_misses (t : Z -> Z) : gmap Z MshrEntry := list_to_map ((fun i => (64 * i, make_mshr 0 (t i))) <$> [1; 2; 3; 4; 5; 6; 7; 8; 9]).
Definition ex_mshr_env : CacheEnv :=
  mkCacheEnv (fun _ => 1000000) (AddressHomeLookup.Build_AddressHomeLookup 6 0 [0] 1 64) 64 (fun x => x) [] map_to_list false None 2.

Lemma mshr_cleanup_keeps_latest_witness :
  exists m', mshr_cleanup ex_mshr_env 9 (ex_misses (fun i => i)) = Ok m' /\ m' ⊆ ex_misses (fun i => i) /\
    base.size m' = Nat.min 8 (base.size (ex_misses (fun i => i))) /\
    forall a b x y, ex_misses (fun i => i) !! a = Some x -> m' !! a = None -> m' !! b = Some y -> mshr_t_complete x <= mshr_t_complete y.
Proof.
  apply (mshr_cleanup_keeps_latest ex_mshr_env 9 (ex_misses (fun i => i))).
  - intros m. reflexivity.
  - refine (bool_decide_eq_true_1 (map_Forall _ _) _). vm_compute. reflexivity.
  - vm_compute. lia.
Defined.

Lemma mshr_cleanup_endless_witness : mshr_cleanup ex_mshr_env 20 (ex_misses (fun _ => MaxTime)) = Err OutOfFuel.
Proof.
  apply (mshr_cleanup_endless ex_mshr_env 20 (ex_misses (fun _ => MaxTime))).
  - intros m. reflexivity.
  - refine (bool_decide_eq_true_1 (map_Forall _ _) _). vm_compute. reflexivity.
  - vm_compute. reflexivity.
  - vm_compute. lia.
Defined.
