(* ===== verification/CacheInclusion.v ===== *)
(** * Inclusion of the cache hierarchy

    The caches are inclusive: a line of a cache is also in the cache of the next
    level.  The first part proves that what the controllers do to a line keeps the
    caches well formed and touches only the lines it must; the second that an
    invalidation reaches every cache below, and that the insertion of a line with
    its eviction keeps the hierarchy inclusive; the third that a machine of private
    first-level caches above a shared last-level cache is inclusive whenever no
    operation is running. *)

From stdpp Require Import gmap.
From S2P Require Import Prelude StateMonad Utils SubsecondTime AddressHomeLookup DirectoryEntry ReqQueueList ShmemPerf ContentionModel Prefetcher DramDirectoryCntlr DramCntlr CacheBlockInfo CacheSet CachePolicy FaultInjection Cache CacheStates ATD CachePerfModel CacheCntlr.

(** The structure of a hierarchy: the parameters of the controllers and the previous levels of the masters. *)
Record Topology := mkTopology { t_params : list CntlrParams; t_prevs : list (list nat) }.

(** The master of a controller, and the controllers of its previous levels. *)
Definition t_master (T : Topology) (c : nat) : option nat := p_master <$> t_params T !! c.
Definition t_prev (T : Topology) (c : nat) : list nat := default [] (m ← t_master T c; t_prevs T !! m).

(** [d] is [c] or a cache below it. *)
Inductive below (T : Topology) : nat -> nat -> Prop :=
  | below_refl c : below T c c
  | below_prev c p d : p ∈ t_prev T c -> below T d p -> below T d c.

(** The levels of a hierarchy of [n] levels: the next level is one up, previous levels are one down. *)
Record levels_ok (T : Topology) (n : nat) (level : nat -> nat) : Prop := {
  level_lt c k : t_params T !! c = Some k -> (level c < n)%nat;
  level_next c k next : t_params T !! c = Some k -> p_next k = Some next -> level next = S (level c);
  level_prev c p : p ∈ t_prev T c -> level c = S (level p);
  level_master c d m : t_master T c = Some m -> t_master T d = Some m -> level c = level d
}.

Section inclusion.
Context {P I D : Type} `{!ReplacementPolicy P I, !ReplacementPolicyOk P I, !PolicyTerminates P I, !DramCntlrInterface D}.
Context (env : CacheEnv) (T : Topology) (L : Z) (level : nat -> nat).
Context (E : error -> Prop) (HE : forall e, e <> OutOfFuel -> E e).
Context (Hlevels : levels_ok T (e_levels env) level) (Hsize : 0 <= e_block_size env).
Local Abbreviation HS := (Hier (P := P) (I := I) (D := D)).
Local Abbreviation M := (ST HS).
Implicit Types (h : HS) (c : nat).

(** Tag and state of a block, and the state of a line in the cache of a master. *)
Definition hview h (m i w : nat) : option (Z * cstate_t) :=
  x ← h_masters h !! m; b ← block_at (ms_cache x) i w; Some (m_tag b, m_cstate b).
Definition hstate h (m : nat) (t : Z) (s : cstate_t) : Prop := t <> TAG_NONE /\ exists i w, hview h m i w = Some (t, s).

Definition line (address : Z) : Z := address / 2 ^ L.

(** What a core may wait for: an access through a first-level cache, or a prefetch. *)
Definition pending_ok (w : pending_t) : Prop :=
  match w with
  | PendingMemOp o => in_width 64 (mo_address o) /\ 0 <= mo_length o /\
                      exists k next, t_params T !! mo_cntlr o = Some k /\ p_next k = Some next
  | PendingPrefetch o => in_width 64 (po_address o)
  end.

(** Well-formed hierarchies with the structure [T]. *)
Definition hier_ok h : Prop :=
  cc_cfg <$> h_cntlrs h = t_params T /\ ms_prev <$> h_masters h = t_prevs T /\
  (forall m x, h_masters h !! m = Some x ->
     cache_wf (ms_cache x) /\ m_log_blocksize (c_base (ms_cache x)) = L /\ Forall (in_width 64) (ms_prefetch_list x)) /\
  map_Forall (fun _ => pending_ok) (h_pending h).

(** ** Operations that change no tag and no state *)

Definition same_view : relation HS := fun h h' => forall m i w, hview h' m i w = hview h m i w.
#[local] Instance same_view_pre : PreOrder same_view.
Proof. split; [by intros h m|]. intros h1 h2 h3 H1 H2 m i w. by rewrite H2, H1. Qed.
Lemma same_view_state h h' m t s : same_view h h' -> hstate h' m t s <-> hstate h m t s.
Proof. unfold same_view, hstate. intros HV. by setoid_rewrite HV. Qed.

(** [m] keeps the hierarchy well formed, relates its states by [V], and fails only as [E] allows. *)
Definition keepsE {A} (V : relation HS) (m : M A) (Q : A -> Prop) : Prop :=
  forall h, hier_ok h -> wpe E m (fun a h' => hier_ok h' /\ V h h' /\ Q a) h.
Abbreviation neutral := (keepsE same_view).

Lemma keepsE_use {A B} (V : relation HS) (m : M A) (f : A -> M B) Q R h :
  hier_ok h -> keepsE V m Q -> (forall a h', hier_ok h' -> V h h' -> Q a -> wpe E (f a) R h') -> wpe E (mbind f m) R h.
Proof.
  intros Hh Hm Hf. apply wpe_bind. eapply wpe_mono; [by apply Hm|done|]. intros a h' (? & ? & ?). by apply Hf.
Qed.
Lemma keepsE_bind {A B} (V : relation HS) `{!PreOrder V} (m : M A) (f : A -> M B) Q R :
  keepsE V m Q -> (forall a, Q a -> keepsE V (f a) R) -> keepsE V (mbind f m) R.
Proof.
  intros Hm Hf h Hh. eapply keepsE_use; [done..|]. intros a h' Hh' HV HQ.
  eapply wpe_mono; [by apply Hf|done|]. intros b h'' (? & ? & ?). split_and!; [done|by etrans|done].
Qed.
Lemma keepsE_mono {A} (V V' : relation HS) (m : M A) (Q R : A -> Prop) :
  keepsE V m Q -> (forall h h', V h h' -> V' h h') -> (forall a, Q a -> R a) -> keepsE V' m R.
Proof.
  intros Hm HV HQ h Hh. eapply wpe_mono; [by apply Hm|done|]. intros a h' (? & ? & ?). auto.
Qed.
Lemma keepsE_ret {A} (V : relation HS) `{!PreOrder V} (a : A) : keepsE V (mret a) (fun _ => True).
Proof. intros h Hh. by split_and!. Qed.
Lemma keepsE_fail {A} (V : relation HS) e (Q : A -> Prop) : e <> OutOfFuel -> keepsE V (fail e) Q.
Proof. intros He h Hh. by apply HE. Qed.
Lemma neutral_gets {A} (f : HS -> A) : neutral (gets f) (fun _ => True).
Proof. by intros h Hh. Qed.
Lemma neutral_lift {A} (r : res A) : no_fuel_error r -> neutral (lift_res r) (fun a => r = Ok a).
Proof.
  intros Hr h Hh. destruct r as [a|e]; [by split_and!|]. apply HE. intros ->. by apply Hr.
Qed.
Lemma neutral_assert b : neutral (assertM b) (fun _ => b = true).
Proof.
  destruct b; intros h Hh; [by apply (wpe_lift E _ _ h tt)|]. by apply (HE AssertFailed).
Qed.
Lemma neutral_modify (f : HS -> HS) :
  (forall h, h_cntlrs (f h) = h_cntlrs h /\ h_masters (f h) = h_masters h /\ h_pending (f h) = h_pending h) ->
  neutral (modify f) (fun _ => True).
Proof.
  intros Hf h Hh. destruct (Hf h) as (Ec & Em & Ep). apply wpe_modify. unfold hier_ok, same_view, hview.
  rewrite Ec, Em, Ep. by split.
Qed.
Lemma neutral_True {A} (m : M A) Q : neutral m Q -> neutral m (fun _ => True).
Proof. intros Hm. by eapply keepsE_mono. Qed.

(** ** The heap *)

Lemma reads_cntlr c : keepsE eq (cntlr c) (fun k => t_params T !! c = Some (cc_cfg k)).
Proof.
  intros h Hh. unfold cntlr. apply wpe_bind, wpe_gets. unfold aget. destruct (h_cntlrs h !! c) as [k|] eqn:Ek; [|by apply (HE OutOfBounds)].
  eapply wpe_lift; [done|]. split_and!; try done. destruct Hh as (<- & _). by rewrite list_lookup_fmap, Ek.
Qed.
Lemma reads_params c : keepsE eq (params c) (fun k => t_params T !! c = Some k).
Proof.
  unfold params. intros h Hh. eapply keepsE_use; [done|apply reads_cntlr|]. intros k h' Hh' <- Hk. by apply wpe_ret.
Qed.
Lemma eq_same_view h h' : h = h' -> same_view h h'.
Proof. by intros <-. Qed.
Lemma neutral_cntlr c : neutral (cntlr c) (fun k => t_params T !! c = Some (cc_cfg k)).
Proof. eapply keepsE_mono; [apply reads_cntlr|apply eq_same_view|done]. Qed.
Lemma neutral_params c : neutral (params c) (fun k => t_params T !! c = Some k).
Proof. eapply keepsE_mono; [apply reads_params|apply eq_same_view|done]. Qed.

(** The master of a controller. *)
Definition master_is h c x : Prop := exists k, t_params T !! c = Some k /\ h_masters h !! p_master k = Some x.

Lemma master_ok h c x :
  hier_ok h -> master_is h c x ->
  cache_wf (ms_cache x) /\ m_log_blocksize (c_base (ms_cache x)) = L /\ t_prev T c = ms_prev x.
Proof.
  intros (_ & Hp & Hm & _) (k & Hk & Hx). destruct (Hm _ _ Hx) as (Hwf & Hl & _). split_and!; [done..|].
  unfold t_prev, t_master. rewrite Hk. cbn. by rewrite <- Hp, list_lookup_fmap, Hx.
Qed.

Lemma wpe_master c (Q : _ -> HS -> Prop) h :
  hier_ok h -> (forall x, master_is h c x -> Q x h) -> wpe E (master c) Q h.
Proof.
  intros Hh HQ. unfold master. eapply keepsE_use; [done|apply reads_params|]. intros k h' _ <- Hk.
  apply wpe_bind, wpe_gets. unfold aget. destruct (h_masters h !! p_master k) as [x|] eqn:Ex; [|by apply (HE OutOfBounds)].
  eapply wpe_lift; [done|]. apply HQ. by exists k.
Qed.
Lemma neutral_master c :
  neutral (master c) (fun x => cache_wf (ms_cache x) /\ m_log_blocksize (c_base (ms_cache x)) = L /\ t_prev T c = ms_prev x).
Proof. intros h Hh. apply wpe_master; [done|]. intros x Hx. split_and!; try done; by eapply master_ok. Qed.

Lemma neutral_upd_cntlr c f : (forall k, cc_cfg (f k) = cc_cfg k) -> neutral (upd_cntlr c f) (fun _ => True).
Proof.
  intros Hf h Hh. unfold upd_cntlr, cntlr. apply wpe_bind, wpe_bind, wpe_gets. unfold aget.
  destruct (h_cntlrs h !! c) as [k|] eqn:Ek; [|by apply (HE OutOfBounds)]. eapply wpe_lift; [done|]. apply wpe_modify.
  destruct Hh as (Hc & Hp & Hm & Hpe). split; [split; [|done]|done].
  change (cc_cfg <$> <[c := f k]> (h_cntlrs h) = t_params T).
  rewrite list_fmap_insert, Hf, list_insert_id; [done|]. by rewrite list_lookup_fmap, Ek.
Qed.

(** Updates of the master of a controller, in the state. *)
Definition put_master h c x : HS :=
  match t_master T c with Some m => with_h_masters (<[m := x]> (h_masters h)) h | None => h end.

Lemma wpe_upd_master c f (Q : _ -> HS -> Prop) h :
  hier_ok h -> (forall x, master_is h c x -> Q tt (put_master h c (f x))) -> wpe E (upd_master c f) Q h.
Proof.
  intros Hh HQ. unfold upd_master. eapply keepsE_use; [done|apply reads_params|]. intros k h' _ <- Hk.
  apply wpe_bind, wpe_master; [done|]. intros x Hx. apply wpe_modify. specialize (HQ x Hx).
  unfold put_master, t_master in HQ. by rewrite Hk in HQ.
Qed.

Lemma masters_put h c k y :
  t_params T !! c = Some k -> h_masters (put_master h c y) = <[p_master k := y]> (h_masters h).
Proof. intros Hk. unfold put_master, t_master. by rewrite Hk. Qed.
Lemma t_master_params c k : t_params T !! c = Some k -> t_master T c = Some (p_master k).
Proof. unfold t_master. by intros ->. Qed.

Lemma lookup_put_master h c x y m z :
  master_is h c x -> h_masters (put_master h c y) !! m = Some z ->
  (t_master T c = Some m /\ z = y) \/ (t_master T c <> Some m /\ h_masters h !! m = Some z).
Proof.
  intros (k & Hk & Hx). rewrite (masters_put _ _ _ _ Hk), (t_master_params _ _ Hk). intros Hz.
  destruct (decide (p_master k = m)) as [<-|Hne].
  - rewrite list_lookup_insert_eq in Hz by (by eapply lookup_lt_Some). left. split; congruence.
  - rewrite list_lookup_insert_ne in Hz by done. right. split; [congruence|done].
Qed.

Lemma put_master_ok h c x y :
  hier_ok h -> master_is h c x -> ms_prev y = ms_prev x -> cache_wf (ms_cache y) ->
  c_base (ms_cache y) = c_base (ms_cache x) -> ms_prefetch_list y = ms_prefetch_list x -> hier_ok (put_master h c y).
Proof.
  intros Hh Hx Hp Hwf Hb Hpf. pose proof (master_ok _ _ _ Hh Hx) as (_ & Hl & _).
  pose proof Hh as (H1 & H2 & H3 & H4). pose proof Hx as (k & Hk & Hm). split_and!.
  - unfold put_master. by destruct (t_master T c).
  - rewrite (masters_put _ _ _ _ Hk), list_fmap_insert, Hp, list_insert_id; [done|].
    by rewrite list_lookup_fmap, Hm.
  - intros m z Hz. eapply lookup_put_master in Hz as [[_ ->]|[_ Hz]]; [|by apply (H3 m)|done].
    rewrite Hb, Hpf. destruct (H3 _ _ Hm) as (_ & _ & ?). done.
  - unfold put_master. by destruct (t_master T c).
Qed.

Lemma hview_master h c x m i w :
  master_is h c x -> t_master T c = Some m ->
  hview h m i w = (b ← block_at (ms_cache x) i w; Some (m_tag b, m_cstate b)).
Proof. intros (k & Hk & Hx). rewrite (t_master_params _ _ Hk). intros [= <-]. unfold hview. by rewrite Hx. Qed.
Lemma hstate_master h c x m t s : master_is h c x -> t_master T c = Some m -> hstate h m t s <-> holds (ms_cache x) t s.
Proof.
  intros Hx Hm. unfold hstate, holds. setoid_rewrite (hview_master _ _ _ _ _ _ Hx Hm). split; intros [Ht Hv]; (split; [done|]).
  - destruct Hv as (i & w & Hv). destruct (block_at (ms_cache x) i w) as [b|] eqn:Eb; [|done]. cbn in Hv. simplify_eq. eauto 6.
  - destruct Hv as (i & w & b & Hb & <- & <-). exists i, w. by rewrite Hb.
Qed.

Lemma hview_put h c x y m i w :
  master_is h c x ->
  hview (put_master h c y) m i w =
    if decide (t_master T c = Some m) then b ← block_at (ms_cache y) i w; Some (m_tag b, m_cstate b) else hview h m i w.
Proof.
  intros (k & Hk & Hx). unfold hview. rewrite (masters_put _ _ _ _ Hk), (t_master_params _ _ Hk).
  destruct (decide (Some (p_master k) = Some m)) as [[= <-]|Hne].
  - by rewrite list_lookup_insert_eq by (by eapply lookup_lt_Some).
  - by rewrite list_lookup_insert_ne by congruence.
Qed.
Lemma put_is h c x y : master_is h c x -> master_is (put_master h c y) c y.
Proof.
  intros (k & Hk & Hx). exists k. split; [done|]. rewrite (masters_put _ _ _ _ Hk).
  apply list_lookup_insert_eq. by eapply lookup_lt_Some.
Qed.
Lemma hstate_put h c x y m t s :
  master_is h c x ->
  hstate (put_master h c y) m t s <-> if decide (t_master T c = Some m) then holds (ms_cache y) t s else hstate h m t s.
Proof.
  intros Hx. destruct (decide _) as [Hm|Hm]; [by eapply hstate_master; [eapply put_is|]|].
  assert (forall i w, hview (put_master h c y) m i w = hview h m i w) as HV
    by (intros; by rewrite (hview_put _ _ _ _ _ _ _ Hx), decide_False).
  unfold hstate. by setoid_rewrite HV.
Qed.

(** Two blocks with the same tag and state in every place. *)
Definition same_blocks (x y : Cache P I) : Prop :=
  forall i w, (b ← block_at y i w; Some (m_tag b, m_cstate b)) = (b ← block_at x i w; Some (m_tag b, m_cstate b)).

Lemma put_same_view h c x y : master_is h c x -> same_blocks (ms_cache x) (ms_cache y) -> same_view h (put_master h c y).
Proof.
  intros Hx Hy m i w. rewrite (hview_put _ _ _ _ _ _ _ Hx). destruct (decide _) as [Em|]; [|done].
  by rewrite Hy, (hview_master _ _ _ _ _ _ Hx Em).
Qed.

Lemma neutral_upd_master c f :
  (forall x, ms_prev (f x) = ms_prev x /\ ms_cache (f x) = ms_cache x /\ ms_prefetch_list (f x) = ms_prefetch_list x) ->
  neutral (upd_master c f) (fun _ => True).
Proof.
  intros Hf h Hh. apply wpe_upd_master; [done|]. intros x Hx. destruct (Hf x) as (Hp & Hc & Hpf).
  pose proof (master_ok _ _ _ Hh Hx) as (Hwf & _). split_and!; [|eapply put_same_view; [done|by rewrite Hc; intros ??]|done].
  eapply put_master_ok; try done; by rewrite Hc.
Qed.

(** A new cache with the same tags and states. *)
Lemma set_cache_ok c x h y :
  hier_ok h -> master_is h c x -> cache_wf y -> same_blocks (ms_cache x) y -> c_base y = c_base (ms_cache x) ->
  wpe E (set_cache c y) (fun _ h' => hier_ok h' /\ same_view h h' /\ True) h.
Proof.
  intros Hh Hx Hwf Hl Hb. apply wpe_upd_master; [done|]. intros x' (k' & Hk' & Hx').
  assert (x' = x) as -> by (destruct Hx as (k & Hk & Hx); congruence).
  split_and!; [by eapply put_master_ok|by eapply put_same_view|done].
Qed.

#[local] Hint Resolve no_fuel_peek : fuel.
Create HintDb neut.
#[local] Hint Resolve neutral_gets neutral_assert neutral_cntlr neutral_params neutral_master neutral_lift : neut.

(** Follow the binds and branches of an operation that touches no line. *)
Ltac neut_leaf :=
  first [ apply (keepsE_fail _ _ (fun _ => True)); discriminate | solve [eauto with neut] | solve [eapply neutral_True; eauto with neut]
        | apply keepsE_ret; apply _ | apply keepsE_fail; discriminate
        | apply neutral_lift; solve [nofuel] | eapply neutral_True, neutral_lift; solve [nofuel]
        | apply neutral_upd_cntlr; by intros | apply neutral_upd_master; by intros | apply neutral_modify; by intros ].
Ltac neut :=
  repeat match goal with
  | |- keepsE _ (mbind _ (match ?x with _ => _ end)) _ => destruct x eqn:?
  | |- keepsE _ (mbind _ (mbind _ _)) _ => eapply keepsE_bind with (Q := fun _ => True); [apply _| |intros ? ?]
  | |- keepsE _ (mbind _ _) _ => eapply keepsE_bind; [apply _|neut_leaf|intros ? ?]
  | |- keepsE _ (match ?x with _ => _ end) _ => destruct x eqn:?
  | |- keepsE _ _ _ => neut_leaf
  end.

Lemma neutral_count_by s n c : neutral (count_by s n c) (fun _ => True).
Proof. unfold count_by. neut. Qed.
#[local] Hint Resolve neutral_count_by : neut.
Lemma neutral_count1 s c : neutral (count1 s c) (fun _ => True).
Proof. unfold count1. neut. Qed.
Lemma neutral_emit e : neutral (emit e) (fun _ => True).
Proof. unfold emit. neut. Qed.
Lemma neutral_clock x : neutral (clock x) (fun _ => True).
Proof. unfold clock. neut. Qed.
Lemma neutral_set_clock x m : neutral (set_clock x m) (fun _ => True).
Proof. unfold set_clock. neut. Qed.
#[local] Hint Resolve neutral_count1 neutral_emit neutral_clock neutral_set_clock : neut.
Lemma neutral_elapsed c th : neutral (elapsed c th) (fun _ => True).
Proof. unfold elapsed. neut. Qed.
Lemma neutral_set_time c th t : neutral (set_time c th t) (fun _ => True).
Proof. unfold set_time. neut. Qed.
Lemma neutral_incr_time c t th : neutral (incr_time c t th) (fun _ => True).
Proof. unfold incr_time, spm_incrElapsedTime. neut. Qed.
#[local] Hint Resolve neutral_elapsed neutral_set_time neutral_incr_time : neut.
Lemma neutral_incr_cost c a th : neutral (incr_cost env c a th) (fun _ => True).
Proof. unfold incr_cost. neut. Qed.
Lemma neutral_perf_time p t r : neutral (perf_time p t r) (fun _ => True).
Proof. unfold perf_time. neut. Qed.
#[local] Hint Resolve neutral_incr_cost neutral_perf_time : neut.
Lemma neutral_perf_times p l : neutral (perf_times p l) (fun _ => True).
Proof. induction l as [|[t r] l IH]; cbn [perf_times]; neut. Qed.
Lemma neutral_send c ty rq rc a d p th : neutral (send env c ty rq rc a d p th) (fun _ => True).
Proof. unfold send. neut. Qed.
#[local] Hint Resolve neutral_perf_times neutral_send : neut.

(** ** Operations on one cache *)

(** The state of the line of an address in the cache of a controller. *)
Definition cached h c (address : Z) (s : cstate_t) : Prop := exists m, t_master T c = Some m /\ hstate h m (line address) s.

Lemma cached_master h c x a s :
  hier_ok h -> master_is h c x -> cached h c a s <-> holds (ms_cache x) (line_of (c_base (ms_cache x)) a) s.
Proof.
  intros Hh Hx. pose proof (master_ok _ _ _ Hh Hx) as (_ & Hl & _). pose proof Hx as (k & Hk & _).
  assert (line_of (c_base (ms_cache x)) a = line a) as -> by (unfold line, line_of; by rewrite Hl). split.
  - intros (m & Hm & Hin). by apply (hstate_master _ _ _ _ _ _ Hx Hm).
  - intros Hin. exists (p_master k). rewrite (t_master_params _ _ Hk). split; [done|]. eapply hstate_master; [done|by apply t_master_params|done].
Qed.

(** A pointer to the block of an address *)
Definition points h c (p : option (nat * nat)) (address : Z) : Prop :=
  exists i w m s, p = Some (i, w) /\ t_master T c = Some m /\ hview h m i w = Some (line address, s).

Lemma wpe_getCacheBlockInfo c a (Q : _ -> HS -> Prop) h :
  hier_ok h -> in_width 64 a ->
  (forall p, (points h c p a \/ (p = None /\ forall s, ~ cached h c a s)) -> Q p h) -> wpe E (getCacheBlockInfo c a) Q h.
Proof.
  intros Hh Ha HQ. unfold getCacheBlockInfo. apply wpe_bind, wpe_master; [done|]. intros x Hx.
  pose proof (master_ok _ _ _ Hh Hx) as (Hwf & Hl & _). destruct (peek_block _ _ Hwf Ha) as (p & Hp & Hpt).
  eapply wpe_lift; [done|]. apply HQ. destruct p as [[i w]|].
  - destruct Hpt as (b & Hb & Eb). left. pose proof Hx as (k & Hk & _). exists i, w, (p_master k), (m_cstate b).
    split_and!; [done|by apply t_master_params|]. rewrite (hview_master _ _ _ _ _ _ Hx (t_master_params _ _ Hk)), Hb.
    cbn. rewrite Eb. unfold line, line_of. by rewrite Hl.
  - right. split; [done|]. intros s. by rewrite (cached_master _ _ _ _ _ Hh Hx).
Qed.
Lemma neutral_getCacheBlockInfo c a : neutral (getCacheBlockInfo c a) (fun _ => True).
Proof. unfold getCacheBlockInfo. neut. Qed.
Lemma neutral_block c p : neutral (block c p) (fun _ => True).
Proof. unfold block, cache_peekBlock, peekBlock. neut. Qed.
#[local] Hint Resolve neutral_getCacheBlockInfo neutral_block : neut.

Lemma update_block_base (x : Cache P I) i w f : c_base (update_block x i w f) = c_base x.
Proof. done. Qed.

Lemma update_same_blocks (x : Cache P I) i w f :
  (forall b, block_at x i w = Some b -> m_tag (f b) = m_tag b /\ m_cstate (f b) = m_cstate b) ->
  same_blocks x (update_block x i w f).
Proof.
  intros Hf j v. rewrite block_at_update. destruct (decide _) as [[-> ->]|]; [|done].
  destruct (block_at x i w) as [b|]; [|done]. cbn. by destruct (Hf b eq_refl) as [-> ->].
Qed.

Lemma neutral_on_block c p f :
  (forall b, m_tag (f b) = m_tag b) -> (forall b, m_cstate (f b) = m_cstate b) -> neutral (on_block c p f) (fun _ => True).
Proof.
  intros Hf Hs. unfold on_block. destruct p as [[i w]|]; [|neut]. intros h Hh. apply wpe_bind, wpe_master; [done|].
  intros x Hx. pose proof (master_ok _ _ _ Hh Hx) as (Hwf & _).
  destruct (update_block_ok _ i w _ Hf Hwf) as [Hwf' _]. eapply set_cache_ok; try done. apply update_same_blocks. auto.
Qed.
Lemma neutral_block_state c p : neutral (block_state c p) (fun _ => True).
Proof. unfold block_state. neut. Qed.
#[local] Hint Resolve neutral_block_state : neut.
#[local] Hint Extern 1 (keepsE _ (on_block _ _ _) _) => apply neutral_on_block; intros; reflexivity : neut.
Lemma neutral_getCacheState c a : neutral (getCacheState c a) (fun _ => True).
Proof. unfold getCacheState. neut. Qed.
#[local] Hint Resolve neutral_getCacheState : neut.
Lemma neutral_operationPermissible c a op : neutral (operationPermissibleinCache c a op) (fun _ => True).
Proof. unfold operationPermissibleinCache. neut. Qed.
#[local] Hint Resolve neutral_operationPermissible : neut.

(** A cache access followed by an operation that touches no line *)
Lemma neutral_access {A} c a ty buf n u (f : _ -> _ -> M A) Q :
  in_width 64 a -> 0 <= n -> (forall p o, neutral (f p o) Q) ->
  neutral (m ← master c;
           '(p, o, x) ← lift_res (accessSingleLine (ms_cache m) a ty buf n u);
           _ ← set_cache c x; f p o) Q.
Proof.
  intros Ha Hn Hf h Hh. apply wpe_bind, wpe_master; [done|]. intros x Hx.
  pose proof (master_ok _ _ _ Hh Hx) as (Hwf & _). apply wpe_bind.
  destruct (accessSingleLine (ms_cache x) a ty buf n u) as [[[p o] y]|e] eqn:Ey.
  - eapply wpe_lift; [done|]. destruct (access_line_spec _ _ _ _ _ _ _ _ _ Hwf Ha Hn Ey) as (Hwf' & Hl & _ & Hb).
    pose proof (access_holds _ _ _ _ _ _ _ _ _ Hwf Ha Hn Ey) as Hbl.
    eapply wpe_bind, wpe_mono; [eapply set_cache_ok; try done; intros i w; by rewrite Hbl|done|]. intros _ h' (Hh' & HV & _).
    eapply wpe_mono; [by apply Hf|done|]. intros b h'' (? & ? & ?). split_and!; [done|by etrans|done].
  - apply (HE e). intros ->. by eapply no_fuel_access.
Qed.

Lemma neutral_retrieve c a th u : in_width 64 a -> neutral (retrieveCacheBlock env c a th u) (fun _ => True).
Proof.
  intros Ha. unfold retrieveCacheBlock. apply neutral_access; [done..|]. intros p o. neut.
Qed.
Lemma neutral_store_line c a buf n u : in_width 64 a -> 0 <= n -> neutral (store_line c a buf n u) (fun _ => True).
Proof. intros Ha Hn. unfold store_line. apply neutral_access; [done..|]. intros p o. neut. Qed.
#[local] Hint Resolve neutral_retrieve neutral_store_line : neut.

Lemma neutral_write_here c a off buf n : 0 <= n -> neutral (write_here env c a off buf n) (fun _ => True).
Proof. intros Hn. assert (in_width 64 (u64 (a + off))) as Ha by (apply wrap_range; lia). unfold write_here. neut. Qed.
#[local] Hint Resolve neutral_write_here : neut.

Lemma neutral_writeCacheBlock n c a off buf len :
  0 <= len -> (e_levels env <= level c + n)%nat -> neutral (writeCacheBlock env n c a off buf len) (fun _ => True).
Proof.
  intros Hlen. revert c. induction n as [|n IH]; intros c Hn; cbn [writeCacheBlock];
    (eapply keepsE_bind; [apply _|neut_leaf|intros _ _]); (eapply keepsE_bind; [apply _|apply neutral_params|intros k Hk]);
    (destruct (m_cache_writethrough k); [|neut]); destruct (p_next k) as [next|] eqn:En; try (apply keepsE_fail; discriminate).
  - pose proof (level_lt _ _ _ Hlevels c k Hk). lia.
  - apply IH. rewrite (level_next _ _ _ Hlevels c k next Hk En). lia.
Qed.
Lemma neutral_write_next c a buf : neutral (writeCacheBlock env (e_levels env) c a 0 buf (e_block_size env)) (fun _ => True).
Proof. apply neutral_writeCacheBlock; [done|lia]. Qed.
#[local] Hint Resolve neutral_write_next : neut.

Lemma neutral_count_update c b s r : neutral (count_update c b s r) (fun _ => True).
Proof. unfold count_update. neut. Qed.
#[local] Hint Resolve neutral_count_update : neut.

(** ** Changes of one line in one cache *)

(** Nothing but the state of line [t] in the cache of [c] changes. *)
Definition only (c : nat) (t : Z) : relation HS := fun h h' =>
  forall m u s, (t_master T c <> Some m \/ u <> t) -> hstate h' m u s <-> hstate h m u s.
#[local] Instance only_pre c t : PreOrder (only c t).
Proof. split; [done|]. intros h1 h2 h3 H1 H2 m u s Hd. rewrite (H2 m u s Hd). by apply H1. Qed.
Lemma same_only c t h h' : same_view h h' -> only c t h h'.
Proof. intros HV m u s _. by apply same_view_state. Qed.

(** ... and the line ends in the state [r], absent if [None]. *)
Definition sets (c : nat) (t : Z) (r : option cstate_t) h h' : Prop :=
  only c t h h' /\ forall m s, t_master T c = Some m -> hstate h' m t s <-> r = Some s.

Lemma points_same h h' c p a : same_view h h' -> points h c p a -> points h' c p a.
Proof. intros HV (i & w & m & s & -> & Hm & Hv). exists i, w, m, s. by rewrite HV. Qed.

Lemma line_not_none_at h c x a : hier_ok h -> master_is h c x -> in_width 64 a -> line a <> TAG_NONE.
Proof.
  intros Hh Hx Ha. pose proof (master_ok _ _ _ Hh Hx) as (Hwf & Hl & _).
  pose proof (line_of_not_none _ _ Hwf Ha) as Hn. unfold line_of in Hn. by rewrite Hl in Hn.
Qed.
Lemma points_cached h c p a : hier_ok h -> in_width 64 a -> points h c p a -> exists s, cached h c a s.
Proof.
  intros Hh Ha (i & w & m & s & -> & Hm & Hv). exists s, m. split; [done|]. split; [|eauto].
  assert (exists x, master_is h c x) as [x Hx].
  { unfold t_master in Hm. destruct (t_params T !! c) as [k|] eqn:Ek; [|done]. cbn in Hm. simplify_eq.
    unfold hview in Hv. destruct (h_masters h !! p_master k) as [x|] eqn:Ex; [|done]. exists x, k. done. }
  by eapply line_not_none_at.
Qed.

Lemma wpe_set_state c p a s h :
  hier_ok h -> in_width 64 a -> points h c p a ->
  wpe E (on_block c p (fun b => setCState b s)) (fun _ h' => hier_ok h' /\ points h' c p a /\ sets c (line a) (Some s) h h') h.
Proof.
  intros Hh Ha (i & w & m & s0 & -> & Hm & Hv). cbn [on_block]. apply wpe_bind, wpe_master; [done|]. intros x Hx.
  pose proof (master_ok _ _ _ Hh Hx) as (Hwf & _). pose proof (line_not_none_at _ _ _ _ Hh Hx Ha) as Hnn.
  rewrite (hview_master _ _ _ _ _ _ Hx Hm) in Hv. destruct (block_at (ms_cache x) i w) as [b|] eqn:Eb; [|done].
  injection Hv as Et Es. set (f := fun b => setCState b s).
  destruct (update_block_ok (ms_cache x) i w f) as [Hwf' _]; [done|done|].
  pose proof (update_block_holds _ i w _ f Hwf Eb) as Hst. cbn in Hst. rewrite Et in Hst.
  apply wpe_upd_master; [done|]. intros x' Hx'.
  assert (x' = x) as -> by (destruct Hx as (k & Hk & Hx), Hx' as (k' & Hk' & Hx'); congruence). clear Hx'.
  split; [by eapply put_master_ok|]. split; [|split].
  - exists i, w, m, s. split_and!; [done..|]. rewrite (hview_put _ _ _ _ _ _ _ Hx), decide_True by done.
    cbn [ms_cache with_ms_cache]. rewrite block_at_update, decide_True, Eb by done. cbn. by rewrite Et.
  - intros m' u r Hd. rewrite (hstate_put _ _ _ _ _ _ _ Hx). destruct (decide _) as [Hm'|]; [|done].
    cbn [ms_cache with_ms_cache]. rewrite Hst, (hstate_master _ _ _ _ _ _ Hx Hm'). naive_solver.
  - intros m' r Hm'. rewrite (hstate_put _ _ _ _ _ _ _ Hx), decide_True by done. cbn [ms_cache with_ms_cache]. rewrite Hst. naive_solver.
Qed.

Lemma wpe_invalidateCacheBlock c a h :
  hier_ok h -> in_width 64 a ->
  wpe E (invalidateCacheBlock c a) (fun _ h' => hier_ok h' /\ sets c (line a) None h h') h.
Proof.
  intros Hh Ha. unfold invalidateCacheBlock.
  eapply keepsE_use; [done|neut_leaf|]. intros s h1 Hh1 V1 _. eapply keepsE_use; [done|neut_leaf|]. intros _ h2 Hh2 V2 _.
  eapply keepsE_use; [done|neut_leaf|]. intros _ h3 Hh3 V3 _.
  apply wpe_bind, wpe_master; [done|]. intros x Hx. pose proof (master_ok _ _ _ Hh3 Hx) as (Hwf & Hl & _).
  destruct (invalidate_line_spec _ _ Hwf Ha) as (hit & y & Hy & Hwf' & _ & _ & Hb). apply wpe_bind. eapply wpe_lift; [done|].
  pose proof (invalidate_holds _ _ _ _ Hwf Ha Hy) as Hst.
  assert (line_of (c_base (ms_cache x)) a = line a) as El by (unfold line_of, line; by rewrite Hl). rewrite El in Hst.
  apply wpe_upd_master; [done|]. intros x' Hx'.
  assert (x' = x) as -> by (destruct Hx as (k & Hk & Hx), Hx' as (k' & Hk' & Hx'); congruence). clear Hx'.
  assert (same_view h h3) as V by (etrans; [done|]; by etrans). split; [by eapply put_master_ok|]. split.
  - intros m u r Hd. rewrite (hstate_put _ _ _ _ _ _ _ Hx), <- (same_view_state _ _ _ _ _ V).
    destruct (decide _) as [Hm|]; [|done]. cbn [ms_cache with_ms_cache]. rewrite Hst, (hstate_master _ _ _ _ _ _ Hx Hm). naive_solver.
  - intros m r Hm. rewrite (hstate_put _ _ _ _ _ _ _ Hx), decide_True by done. cbn [ms_cache with_ms_cache]. rewrite Hst. naive_solver.
Qed.

(** ** updateCacheBlock *)

(** Operations that change at most the state of the line, and keep the pointer to it *)
Definition keepsP {A} c p a (m : M A) : Prop :=
  forall h, hier_ok h -> points h c p a -> wpe E m (fun _ h' => hier_ok h' /\ points h' c p a /\ only c (line a) h h') h.
Lemma keepsP_bind {A B} c p a (m : M A) (f : A -> M B) :
  keepsP c p a m -> (forall x, keepsP c p a (f x)) -> keepsP c p a (mbind f m).
Proof.
  intros Hm Hf h Hh Hp. eapply wpe_bind, wpe_mono; [by apply Hm|done|]. intros x h' (Hh' & Hp' & V).
  eapply wpe_mono; [by apply Hf|done|]. intros y h'' (? & ? & ?). split_and!; [done..|by etrans].
Qed.
Lemma neutral_keepsP {A} c p a (m : M A) Q : neutral m Q -> keepsP c p a m.
Proof.
  intros Hm h Hh Hp. eapply wpe_mono; [by apply Hm|done|]. intros x h' (? & V & _).
  split_and!; [done|by eapply points_same|by apply same_only].
Qed.
Lemma keepsP_set_state c p a s : in_width 64 a -> keepsP c p a (on_block c p (fun b => setCState b s)).
Proof.
  intros Ha h Hh Hp. eapply wpe_mono; [by apply wpe_set_state|done|]. intros _ h' (? & ? & V & _). done.
Qed.
Ltac keepP :=
  repeat match goal with
  | |- keepsP _ _ _ (mbind _ (match ?x with _ => _ end)) => destruct x eqn:?
  | |- keepsP _ _ _ (mbind _ _) => apply keepsP_bind; [|intros ?]
  | |- keepsP _ _ _ (match ?x with _ => _ end) => destruct x eqn:?
  | |- keepsP _ _ _ _ => first [by apply keepsP_set_state|eapply neutral_keepsP; neut_leaf]
  end.
Lemma keepsP_write_back c p a want th : in_width 64 a -> keepsP c p a (write_back env c p a want th).
Proof. intros Ha. unfold write_back. keepP. Qed.
Lemma keepsP_use {A B} c p a (m : M A) (f : A -> M B) R h :
  hier_ok h -> points h c p a -> keepsP c p a m ->
  (forall x h', hier_ok h' -> points h' c p a -> only c (line a) h h' -> wpe E (f x) R h') -> wpe E (mbind f m) R h.
Proof.
  intros Hh Hp Hm Hf. eapply wpe_bind, wpe_mono; [by apply Hm|done|]. intros x h' (? & ? & ?). by apply Hf.
Qed.

Context (Hcoh : forall c k, t_params T !! c = Some k -> m_coherent k = true).

Lemma only_sets c t r h h1 h' : only c t h h1 -> sets c t r h1 h' -> sets c t r h h'.
Proof. intros V [V' Hr]. split; [by etrans|done]. Qed.
Lemma sets_same c t r h h1 h' : sets c t r h h1 -> same_view h1 h' -> sets c t r h h'.
Proof.
  intros [V Hr] V'. split; [etrans; [done|by apply same_only]|]. intros m s Hm. by rewrite (same_view_state _ _ _ _ _ V'), Hr.
Qed.

Lemma wpe_change_state c p a new r want th h :
  hier_ok h -> in_width 64 a -> points h c p a ->
  wpe E (change_state env c p a new r want th)
    (fun _ h' => hier_ok h' /\ sets c (line a) (if decide (new = INVALID) then None else Some new) h h') h.
Proof.
  intros Hh Ha Hp. unfold change_state. eapply keepsE_use; [done|apply reads_params|]. intros k h' _ <- Hk.
  rewrite (Hcoh _ _ Hk).
  eapply keepsP_use; [done|done|eapply neutral_keepsP; neut_leaf|]. intros b h1 Hh1 Hp1 V1.
  eapply keepsP_use; [done|done|eapply neutral_keepsP; neut_leaf|]. intros _ h2 Hh2 Hp2 V2.
  eapply keepsP_use; [done|done| |].
  { destruct (bool_decide _); [by apply keepsP_write_back|eapply neutral_keepsP; neut_leaf]. }
  intros [buf wb] h3 Hh3 Hp3 V3.
  assert (only c (line a) h h3) as V by (etrans; [exact V1|]; by etrans). clear dependent h1 h2.
  assert (keepsP c p a (if want then d ← retrieveCacheBlock env c a th false; mret (Some d, true) else mret (buf, wb))) as Hout
    by (destruct want; keepP).
  destruct new; try (by apply (HE AssertFailed)).
  - rewrite decide_True by done. eapply keepsP_use; [done|done|apply Hout|]. intros o h4 Hh4 Hp4 V4.
    eapply wpe_bind, wpe_mono; [by apply wpe_invalidateCacheBlock|done|]. intros _ h5 [Hh5 V5]. apply wpe_ret.
    split; [done|]. eapply only_sets; [etrans; [exact V|done]|done].
  - rewrite decide_False by done. eapply keepsP_use; [done|done|apply Hout|]. intros o h4 Hh4 Hp4 V4.
    eapply wpe_bind, wpe_mono; [by apply wpe_set_state|done|]. intros _ h5 (Hh5 & _ & V5). apply wpe_ret.
    split; [done|]. eapply only_sets; [etrans; [exact V|done]|done].
  - rewrite decide_False by done. eapply wpe_bind, wpe_mono; [by apply wpe_set_state|done|]. intros _ h5 (Hh5 & _ & V5).
    apply wpe_ret. split; [done|]. by eapply only_sets.
Qed.

(** *** All caches below *)

Definition mbelow (c m : nat) : Prop := exists d, below T d c /\ t_master T d = Some m.
Definition live h : Prop := forall m t, ~ hstate h m t INVALID.

(** The line [t] has moved to the state [new] in some of the caches of [B], or left them if [new] is INVALID. *)
Definition moves (B : nat -> Prop) (t : Z) (new : cstate_t) : relation HS := fun h h' =>
  (forall m u s, (u <> t \/ ~ B m) -> hstate h' m u s <-> hstate h m u s) /\
  (forall m s, hstate h' m t s -> hstate h m t s \/ (B m /\ s = new /\ new <> INVALID /\ exists s', hstate h m t s')) /\
  (new <> INVALID -> forall m s, hstate h m t s -> exists s', hstate h' m t s').
#[local] Instance moves_pre B t new : PreOrder (moves B t new).
Proof.
  split; [intros h; split_and!; eauto|]. intros h1 h2 h3 (A1 & A2 & A3) (B1 & B2 & B3). split_and!.
  - intros m u s Hd. rewrite (B1 m u s Hd). by apply A1.
  - intros m s Hs. apply B2 in Hs as [Hs|(Hb & -> & Hn & s' & Hs)]; [by apply A2|]. right. split_and!; [done..|].
    apply A2 in Hs as [?|(_ & _ & _ & ?)]; eauto.
  - intros Hn m s Hs. destruct (A3 Hn m s Hs) as [s' Hs']. eauto.
Qed.
Lemma same_moves B t new h h' : same_view h h' -> moves B t new h h'.
Proof.
  intros V. split_and!; intros; [by apply same_view_state|left; by apply (same_view_state _ _ _ _ _ V)|].
  eexists. by apply (same_view_state _ _ _ _ _ V).
Qed.
Lemma moves_mono (B B' : nat -> Prop) t new h h' : (forall m, B m -> B' m) -> moves B t new h h' -> moves B' t new h h'.
Proof. intros HB (A1 & A2 & A3). split_and!; [|naive_solver|done]. intros m u s [?|Hm]; apply A1; auto. Qed.
Lemma moves_live B t new h h' : moves B t new h h' -> live h -> live h'.
Proof.
  intros (A1 & A2 & A3) Hl m u Hs. destruct (decide (u = t)) as [->|Hne].
  - apply A2 in Hs as [?%Hl|(_ & ? & ? & _)]; congruence.
  - apply A1 in Hs; [|by left]. by apply Hl in Hs.
Qed.
Lemma sets_moves c t new h h' :
  (exists m s, t_master T c = Some m /\ hstate h m t s) ->
  sets c t (if decide (new = INVALID) then None else Some new) h h' -> moves (mbelow c) t new h h'.
Proof.
  intros (m0 & s0 & Hm0 & Hs0) [V Hr]. split_and!.
  - intros m u s Hd. apply V. destruct Hd as [?|Hb]; [by right|]. left. intros Hm. apply Hb. exists c. split; [constructor|done].
  - intros m s Hs. destruct (decide (t_master T c = Some m)) as [Hm|Hm]; [|left; apply V; [by left|done]].
    right. apply Hr in Hs; [|done]. destruct (decide (new = INVALID)); simplify_eq. split; [|eauto].
    exists c. split; [constructor|done].
  - intros Hn m s Hs. destruct (decide (t_master T c = Some m)) as [Hm|Hm]; [|exists s; by apply V; [left|]].
    exists new. apply Hr; [done|]. by rewrite decide_False.
Qed.

(** The caches below [c] have the line in the state [new], if at all. *)
Definition settled h c (t : Z) (new : cstate_t) : Prop := forall m s, mbelow c m -> hstate h m t s -> s = new.
Lemma moves_settled B c t new h h' : moves B t new h h' -> settled h c t new -> settled h' c t new.
Proof. intros (_ & A2 & _) Hs m s Hm [H1|(_ & -> & _)]%A2; [by eapply Hs|done]. Qed.

Lemma mbelow_prev c p m : p ∈ t_prev T c -> mbelow p m -> mbelow c m.
Proof. intros Hp (d & Hd & Hm). exists d. split; [by econstructor|done]. Qed.
Lemma mbelow_inv c m : mbelow c m -> t_master T c = Some m \/ exists p, p ∈ t_prev T c /\ mbelow p m.
Proof. intros (d & Hd & Hm). destruct Hd as [c|c p d Hp Hd]; [by left|]. right. exists p. split; [done|]. by exists d. Qed.

(** The loop over the previous levels settles all of them but the one that is skipped. *)
Lemma wpe_for_prevs B t new f skip l lat hit h :
  hier_ok h -> live h -> (forall p m, p ∈ l -> mbelow p m -> B m) ->
  (forall p h, p ∈ l -> hier_ok h -> live h ->
     wpe E (f p) (fun _ h' => hier_ok h' /\ moves (mbelow p) t new h h' /\ settled h' p t new) h) ->
  wpe E (for_prevs f skip l lat hit)
    (fun _ h' => hier_ok h' /\ moves B t new h h' /\ forall p, p ∈ l -> skip <> Some p -> settled h' p t new) h.
Proof.
  revert lat hit h. induction l as [|p l IH]; intros lat hit h Hh Hl HB Hf; cbn [for_prevs].
  - apply wpe_ret. split_and!; [done|done|set_solver].
  - case_bool_decide as Hs.
    + eapply wpe_mono; [apply IH; [done..| |]|done|]; [set_solver|intros; apply Hf; set_solver|].
      intros _ h' (? & ? & Hp). split_and!; [done..|]. intros q [->|Hq]%elem_of_cons; [done|auto].
    + eapply wpe_bind, wpe_mono; [apply Hf; [set_solver|done|done]|done|]. intros [t' b] h1 (Hh1 & V1 & Hp1).
      assert (moves B t new h h1) as V1' by (eapply moves_mono; [|done]; intros; eapply HB; [|done]; set_solver).
      eapply wpe_mono; [apply IH; [done|by eapply moves_live|..]|done|]; [set_solver|intros; apply Hf; set_solver|].
      intros _ h2 (Hh2 & V2 & Hp2). split_and!; [done|by etrans|]. intros q [->|Hq]%elem_of_cons Hne; [|auto].
      by eapply moves_settled.
Qed.

Lemma hstate_holds h m x t s : h_masters h !! m = Some x -> hstate h m t s -> holds (ms_cache x) t s.
Proof.
  intros Hx (Ht & i & w & Hv). unfold hview in Hv. rewrite Hx in Hv. cbn in Hv.
  destruct (block_at (ms_cache x) i w) as [b|] eqn:Eb; [|done]. cbn in Hv. simplify_eq. split; [done|]. eauto 6.
Qed.
Lemma hstate_fun h m t s s' : hier_ok h -> hstate h m t s -> hstate h m t s' -> s = s'.
Proof.
  intros (_ & _ & Hm & _) Hs Hs'. destruct (h_masters h !! m) as [x|] eqn:Ex.
  - eapply holds_functional; [by apply (Hm m x)|by eapply hstate_holds..].
  - destruct Hs as (_ & i & w & Hv). unfold hview in Hv. by rewrite Ex in Hv.
Qed.

Lemma wpe_block_state c p a (Q : _ -> HS -> Prop) h :
  hier_ok h -> in_width 64 a -> points h c p a -> (forall s, cached h c a s -> Q s h) -> wpe E (block_state c p) Q h.
Proof.
  intros Hh Ha (i & w & m & s & -> & Hm & Hv) HQ. unfold block_state. apply wpe_bind. cbn [block].
  apply wpe_bind, wpe_master; [done|]. intros x Hx. rewrite (hview_master _ _ _ _ _ _ Hx Hm) in Hv.
  destruct (block_at (ms_cache x) i w) as [b|] eqn:Eb; [|done]. injection Hv as Et Es.
  apply block_at_spec in Eb as (cs & Hcs & Hb). eapply wpe_lift.
  { unfold cache_peekBlock, peekBlock, aget. rewrite Hcs. cbn [mbind res_bind]. by rewrite Hb. }
  apply wpe_ret, HQ. exists m. split; [done|]. apply (hstate_master _ _ _ _ _ _ Hx Hm). split; [by eapply line_not_none_at|].
  exists i, w, b. split_and!; [|done..]. apply block_at_spec. eauto.
Qed.

(** An operation that changes no state, at the end *)
Lemma wpe_tail {A} (m : M A) Q (R : HS -> Prop) h :
  hier_ok h -> neutral m Q -> (forall h', same_view h h' -> hier_ok h' -> R h') -> wpe E m (fun _ h' => R h') h.
Proof. intros Hh Hm HR. eapply wpe_mono; [by apply Hm|done|]. intros a h' (? & ? & _). by apply HR. Qed.

Lemma settled_same h h' c t new : same_view h h' -> settled h c t new -> settled h' c t new.
Proof. intros V Hs m s Hm Hst. eapply Hs; [done|]. by apply (same_view_state _ _ _ _ _ V). Qed.

Lemma wpe_update_here c a new r want th hit h :
  hier_ok h -> live h -> in_width 64 a -> (forall p, p ∈ t_prev T c -> settled h p (line a) new) ->
  wpe E (update_here env c a new r want th hit)
    (fun _ h' => hier_ok h' /\ moves (mbelow c) (line a) new h h' /\ settled h' c (line a) new) h.
Proof.
  intros Hh Hl Ha Hprev. unfold update_here. eapply keepsE_use; [done|apply reads_params|]. intros k h' _ <- Hk.
  apply wpe_bind, wpe_getCacheBlockInfo; [done..|]. intros p Hp.
  assert (forall h', moves (mbelow c) (line a) new h h' -> (forall s, cached h' c a s -> s = new) -> settled h' c (line a) new) as Hset.
  { intros h' V Hc m s [Hm|(q & Hq & Hm)]%mbelow_inv Hs; [apply Hc; by exists m|].
    by eapply (moves_settled _ q _ _ _ _ V (Hprev q Hq)). }
  assert (forall h', hier_ok h' -> moves (mbelow c) (line a) new h h' -> (forall s, cached h' c a s -> s = new) ->
            forall A (m : M A) Q, neutral m Q ->
            wpe E m (fun _ h' => hier_ok h' /\ moves (mbelow c) (line a) new h h' /\ settled h' c (line a) new) h') as Htail.
  { intros h' Hh' V Hc A m Q Hm. eapply wpe_tail; [done..|]. intros h2 V2 Hh2.
    split_and!; [done|etrans; [done|by apply same_moves]|]. eapply settled_same; [done|by apply Hset]. }
  destruct Hp as [Hp|[-> Hno]].
  - apply wpe_bind. eapply wpe_block_state; [done..|]. intros s Hs. pose proof Hp as (i & w & _ & _ & Ep & _). rewrite Ep at 1.
    destruct (bool_decide (new = s) && want) eqn:Eb.
    + apply andb_true_iff in Eb as [->%bool_decide_eq_true _].
      apply wpe_bind. eapply wpe_mono with (E' := E) (Q := fun _ h' => hier_ok h' /\ same_view h h'); [|done|].
      { eapply wpe_tail; [done| |by auto]. neut. }
      intros [buf wb] h1 [Hh1 V1]. eapply Htail; [done|by apply same_moves| |neut].
      intros s' (m' & Hm' & Hs'). destruct Hs as (m & Hm & Hs). simplify_eq.
      apply (hstate_fun h1 m (line a)); [done|done|by apply (same_view_state _ _ _ _ _ V1)].
    + apply wpe_bind. eapply wpe_mono; [by apply wpe_change_state|done|]. intros [buf wb] h1 [Hh1 V1].
      assert (exists m s, t_master T c = Some m /\ hstate h m (line a) s) as Hex by (destruct Hs as (m & ? & ?); eauto).
      eapply Htail; [done|by eapply sets_moves| |neut]. intros s' (m & Hm & Hs'). apply V1 in Hs'; [|done].
      destruct (decide (new = INVALID)); by simplify_eq.
  - eapply keepsE_use; [done|neut_leaf|]. intros s h1 Hh1 V1 _. apply wpe_bind, wpe_ret.
    eapply Htail; [done|by apply same_moves| |neut]. intros s' (m & Hm & Hs'). destruct (Hno s'). exists m. split; [done|].
    by apply (same_view_state _ _ _ _ _ V1).
Qed.

Lemma wpe_updateCacheBlock n c a new r want th h :
  hier_ok h -> live h -> in_width 64 a -> (level c <= n)%nat ->
  wpe E (updateCacheBlock env n c a new r want th)
    (fun _ h' => hier_ok h' /\ moves (mbelow c) (line a) new h h' /\ settled h' c (line a) new) h.
Proof.
  intros Hh Hl Ha. revert c r want h Hh Hl. induction n as [|n IH]; intros c r want h Hh Hl Hn; cbn [updateCacheBlock].
  all: eapply keepsE_use; [done|neut_leaf|]; intros _ h0 Hh0 V0 _; apply (same_moves (mbelow c) (line a) new) in V0.
  all: eapply keepsE_use; [done|apply neutral_master|]; intros x h1 Hh1 V1 (_ & _ & Hp); apply (same_moves (mbelow c) (line a) new) in V1.
  all: assert (moves (mbelow c) (line a) new h h1) as V by (by etrans); clear dependent h0.
  all: assert (live h1) as Hl1 by (by eapply moves_live).
  all: eapply wpe_bind, wpe_mono with (E' := E)
    (Q := fun _ h' => hier_ok h' /\ moves (mbelow c) (line a) new h1 h' /\ forall p, p ∈ t_prev T c -> settled h' p (line a) new);
    [|done|intros [lat hit] h2 (Hh2 & V2 & Hs2); eapply wpe_mono; [apply wpe_update_here; [done|by eapply moves_live|done..]|done|];
      intros _ h3 (? & ? & ?); split_and!; [done|etrans; [exact V|]; by etrans|done]].
  - destruct (ms_prev x) as [|p l]; [apply wpe_ret; split_and!; [done|done|rewrite Hp; set_solver]|].
    pose proof (level_prev _ _ _ Hlevels c p). rewrite Hp in *. set_solver by lia.
  - eapply wpe_mono; [eapply wpe_for_prevs; [done|done|intros p m Hin; apply mbelow_prev; by rewrite Hp|]|done|].
    + intros p h' Hin Hh' Hl'. rewrite <- Hp in Hin. pose proof (level_prev _ _ _ Hlevels c p Hin).
      eapply wpe_bind, wpe_mono; [by apply IH; [..|lia]|done|]. intros [[t ht] o] h2 ?. by apply wpe_ret.
    + intros _ h' (? & ? & Hs). split_and!; [done..|]. intros p Hin. apply Hs; [by rewrite <- Hp|done].
Qed.

(** ** Snoops and insertion *)

Definition pbelow (c m : nat) : Prop := exists p, p ∈ t_prev T c /\ mbelow p m.
Lemma pbelow_mbelow c m : pbelow c m -> mbelow c m.
Proof. intros (p & Hp & Hm). by eapply mbelow_prev. Qed.
Lemma below_level d c : below T d c -> (level d <= level c)%nat.
Proof. induction 1 as [|c p d Hp _ IH]; [done|]. rewrite (level_prev _ _ _ Hlevels c p Hp). lia. Qed.
Lemma not_pbelow_self c m : t_master T c = Some m -> ~ pbelow c m.
Proof.
  intros Hm (p & Hp & d & Hd%below_level & Hdm). rewrite <- (level_master _ _ _ Hlevels c d m Hm Hdm) in Hd.
  rewrite (level_prev _ _ _ Hlevels c p Hp) in Hd. lia.
Qed.

Lemma wpe_snoop_prevs c req a new r th h :
  hier_ok h -> live h -> in_width 64 a ->
  wpe E (snoop_prevs env c req a new r th)
    (fun _ h' => hier_ok h' /\ moves (pbelow c) (line a) new h h' /\
                 forall p, p ∈ t_prev T c -> req <> Some p -> settled h' p (line a) new) h.
Proof.
  intros Hh Hl Ha. unfold snoop_prevs. apply wpe_bind, wpe_master; [done|]. intros x Hx.
  pose proof (master_ok _ _ _ Hh Hx) as (_ & _ & Hp). pose proof Hx as (k & Hk & _).
  eapply wpe_bind, wpe_mono; [eapply wpe_for_prevs with (B := pbelow c); [done|done|..]|done|].
  - intros p m Hin Hm. exists p. rewrite Hp. done.
  - intros p h' Hin Hh' Hl'. rewrite <- Hp in Hin. pose proof (level_prev _ _ _ Hlevels c p Hin).
    pose proof (level_lt _ _ _ Hlevels c k Hk).
    eapply wpe_bind, wpe_mono; [apply wpe_updateCacheBlock; [done..|lia]|done|]. intros [[t ht] o] h2 ?. by apply wpe_ret.
  - intros [lat hit] h1 (Hh1 & V1 & Hs). eapply wpe_tail; [done|neut|]. intros h2 V2 Hh2.
    split_and!; [done|etrans; [done|by apply same_moves]|]. intros p Hin Hne. eapply settled_same; [done|]. apply Hs; [by rewrite <- Hp|done].
Qed.

Context (Hget : forall (d : D) a x t e, getDataFromDram d a x t = Err e -> E e).
Context (Hput : forall (d : D) a y x t e, putDataToDram d a y x t = Err e -> E e).

Lemma neutral_liftE {A} (r : res A) : (forall e, r = Err e -> E e) -> neutral (lift_res r) (fun a => r = Ok a).
Proof. intros Hr h Hh. destruct r as [a|e]; [by split_and!|]. by apply Hr. Qed.
Lemma neutral_get (d : D) a x t : neutral (lift_res (getDataFromDram d a x t)) (fun _ => True).
Proof. eapply neutral_True, neutral_liftE, Hget. Qed.
Lemma neutral_put (d : D) a y x t : neutral (lift_res (putDataToDram d a y x t)) (fun _ => True).
Proof. eapply neutral_True, neutral_liftE. intros e He. by eapply Hput. Qed.
#[local] Hint Resolve neutral_get neutral_put : neut.

Lemma no_fuel_find_free n i u l t : no_fuel_error (find_unit n i u l t).
Proof. revert i u. induction n; intros i u; cbn [find_unit]; nofuel; auto. Qed.
Lemma no_fuel_peek_unit n i u l t : no_fuel_error (peek_unit n i u l t).
Proof. revert i u. induction n; intros i u; cbn [peek_unit]; nofuel; auto. Qed.
#[local] Hint Resolve no_fuel_find_free no_fuel_peek_unit : fuel.
Lemma no_fuel_getCompletionTime q t d a : no_fuel_error (getCompletionTime q t d a).
Proof. unfold getCompletionTime. nofuel. Qed.
Lemma no_fuel_getStartTime q t : no_fuel_error (getStartTime q t).
Proof. unfold getStartTime. nofuel. Qed.
Lemma no_fuel_getHome b a : no_fuel_error (getHome b a).
Proof. unfold getHome, module_num. nofuel. Qed.
#[local] Hint Resolve no_fuel_getCompletionTime no_fuel_getStartTime no_fuel_getHome : fuel.

Lemma neutral_accessDRAM c op a buf : neutral (accessDRAM c op a buf) (fun _ => True).
Proof. unfold accessDRAM. neut. Qed.
#[local] Hint Resolve neutral_accessDRAM : neut.
Lemma neutral_evict_to_dram c a buf : neutral (evict_to_dram c a buf) (fun _ => True).
Proof. unfold evict_to_dram. neut. Qed.
#[local] Hint Resolve neutral_evict_to_dram : neut.
Lemma neutral_dispose c a s buf th : neutral (dispose env c a s buf th) (fun _ => True).
Proof. unfold dispose. neut. Qed.
Lemma neutral_count_evict c b : neutral (count_evict c b) (fun _ => True).
Proof. unfold count_evict. neut. Qed.
Lemma neutral_qbs n c : neutral (qbs_lookups env n c) (fun _ => True).
Proof. induction n; cbn [qbs_lookups]; unfold incrementQBSLookupCost; neut. Qed.
#[local] Hint Resolve neutral_dispose neutral_count_evict neutral_qbs : neut.

Lemma wpe_getCacheState c a (Q : _ -> HS -> Prop) h :
  hier_ok h -> in_width 64 a ->
  (forall s, (cached h c a s \/ (s = INVALID /\ forall s', ~ cached h c a s')) -> Q s h) -> wpe E (getCacheState c a) Q h.
Proof.
  intros Hh Ha HQ. unfold getCacheState. apply wpe_bind, wpe_getCacheBlockInfo; [done..|]. intros p [Hp|[-> Hno]].
  - eapply wpe_block_state; [done..|]. intros s Hs. apply HQ. by left.
  - apply wpe_ret, HQ. by right.
Qed.

(** The evicted line leaves all previous levels. *)
Lemma wpe_back_invalidate c a buf th h :
  hier_ok h -> live h -> in_width 64 a ->
  wpe E (back_invalidate env c a buf th)
    (fun _ h' => hier_ok h' /\ moves (pbelow c) (line a) INVALID h h' /\ forall m s, pbelow c m -> ~ hstate h' m (line a) s) h.
Proof.
  intros Hh Hl Ha. unfold back_invalidate. apply wpe_bind, wpe_master; [done|]. intros x Hx.
  pose proof (master_ok _ _ _ Hh Hx) as (_ & _ & Hp). destruct (ms_prev x) as [|p0 l] eqn:Eprev.
  { apply wpe_ret. split_and!; [done|done|]. intros m s (p & Hin & _). rewrite Hp in Hin. by apply elem_of_nil in Hin. }
  eapply keepsE_use; [done|neut_leaf|]. intros _ h1 Hh1 V1 _. apply (same_moves (pbelow c) (line a) INVALID) in V1.
  eapply wpe_bind, wpe_mono; [apply wpe_snoop_prevs; [done|by eapply moves_live|done]|done|]. intros _ h2 (Hh2 & V2 & Hs).
  assert (moves (pbelow c) (line a) INVALID h h2) as V by (by etrans). eapply wpe_tail; [done|neut|]. intros h3 V3 Hh3.
  assert (moves (pbelow c) (line a) INVALID h h3) as V' by (etrans; [done|by apply same_moves]).
  split_and!; [done..|]. intros m s (p & Hin & Hm) Hst. apply (same_view_state _ _ _ _ _ V3) in Hst.
  pose proof (Hs p Hin ltac:(done) m s Hm Hst) as ->. by eapply (moves_live _ _ _ _ _ V).
Qed.

(** The line of [a] is now in the cache of [c] in the state [new]; the line [e], if any, has left it and all caches below. *)
Definition inserts (c : nat) (a : Z) (new : cstate_t) (e : option Z) : relation HS := fun h h' =>
  (e <> Some (line a) /\ forall m s, t_master T c = Some m -> ~ hstate h m (line a) s) /\
  (forall m u s, (t_master T c = Some m -> u <> line a) -> hstate h' m u s -> hstate h m u s) /\
  (forall m u s, (t_master T c = Some m -> u <> line a) -> Some u <> e \/ ~ mbelow c m -> hstate h m u s -> hstate h' m u s) /\
  (forall m s, t_master T c = Some m -> hstate h' m (line a) s <-> s = new) /\
  (forall m t s, e = Some t -> mbelow c m -> ~ hstate h' m t s).

(** The insertion into the cache itself, and the state of the new line *)
Definition filled (c : nat) (a : Z) (new : cstate_t) (e : option Z) : relation HS := fun h h' =>
  (e <> Some (line a) /\ forall m s, t_master T c = Some m -> ~ hstate h m (line a) s) /\
  (forall m u s, t_master T c <> Some m -> hstate h' m u s <-> hstate h m u s) /\
  (forall m u s, t_master T c = Some m -> u <> line a -> hstate h' m u s <-> hstate h m u s /\ Some u <> e) /\
  (forall m s, t_master T c = Some m -> hstate h' m (line a) s <-> s = new).

Lemma filled_live c a new e h h' : new <> INVALID -> filled c a new e h h' -> live h -> live h'.
Proof.
  intros Hn (_ & A1 & A2 & A3) Hl m u Hs. destruct (decide (t_master T c = Some m)) as [Hm|Hm].
  - destruct (decide (u = line a)) as [->|Hu]; [by apply A3 in Hs|]. apply A2 in Hs as [Hs _]; [|done..]. by apply Hl in Hs.
  - apply A1 in Hs; [|done]. by apply Hl in Hs.
Qed.
Lemma filled_same c a new e h h1 h' : filled c a new e h h1 -> same_view h1 h' -> filled c a new e h h'.
Proof.
  intros (A0 & A1 & A2 & A3) V. split; [done|]. split_and!.
  - intros m u s Hm. rewrite (same_view_state _ _ _ _ _ V). auto.
  - intros m u s Hm Hu. rewrite (same_view_state _ _ _ _ _ V). auto.
  - intros m s Hm. rewrite (same_view_state _ _ _ _ _ V). auto.
Qed.

Lemma filled_inserts c a new h h' : filled c a new None h h' -> inserts c a new None h h'.
Proof.
  intros (A0 & A1 & A2 & A3). split; [done|]. split_and!; [| |done|done].
  - intros m u s Hd Hs. destruct (decide (t_master T c = Some m)) as [Hm|Hm]; [apply A2 in Hs; naive_solver|by apply A1].
  - intros m u s Hd _ Hs. destruct (decide (t_master T c = Some m)) as [Hm|Hm]; [apply A2; naive_solver|by apply A1].
Qed.

Lemma filled_evicted c a new t h h1 h' :
  filled c a new (Some t) h h1 -> moves (pbelow c) t INVALID h1 h' -> (forall m s, pbelow c m -> ~ hstate h' m t s) ->
  inserts c a new (Some t) h h'.
Proof.
  intros (A0 & A1 & A2 & A3) (V1 & V2 & _) Hno.
  assert (forall m s, hstate h' m t s -> hstate h1 m t s) as V2' by (intros m s Hs; apply V2 in Hs; naive_solver).
  split; [done|]. destruct A0 as [A0 _]. split_and!.
  - intros m u s Hd Hs. assert (hstate h1 m u s) as Hs1 by (destruct (decide (u = t)) as [->|]; [auto|apply V1; auto]).
    destruct (decide (t_master T c = Some m)) as [Hm|Hm]; [apply A2 in Hs1; naive_solver|by apply A1].
  - intros m u s Hd Hu Hs. apply V1.
    { destruct Hu as [Hu|Hu]; [left; congruence|right; intros Hb; by apply Hu, pbelow_mbelow]. }
    destruct (decide (t_master T c = Some m)) as [Hm|Hm]; [|by apply A1]. apply A2; [done|auto|]. split; [done|].
    destruct Hu as [Hu|Hu]; [done|]. destruct Hu. exists c. split; [constructor|done].
  - intros m s Hm. rewrite <- (A3 m s Hm). apply V1. left. congruence.
  - intros m t' s [= <-] [Hm|Hm]%mbelow_inv Hs; [|by eapply Hno]. apply V2' in Hs. apply A2 in Hs; [|done|congruence]. naive_solver.
Qed.

Lemma wpe_setCacheState c a new h :
  hier_ok h -> in_width 64 a -> (exists s, cached h c a s) ->
  wpe E (setCacheState c a new) (fun p h' => hier_ok h' /\ points h' c p a /\ sets c (line a) (Some new) h h') h.
Proof.
  intros Hh Ha [s0 Hs0]. unfold setCacheState. apply wpe_bind, wpe_getCacheBlockInfo; [done..|].
  intros p [Hp|[_ Hno]]; [|by destruct (Hno s0)].
  eapply wpe_bind, wpe_mono; [by apply wpe_set_state|done|]. intros [] h' ?. by apply wpe_ret.
Qed.

Lemma filled_sets c a new e h h1 h' :
  filled c a INVALID e h h1 -> sets c (line a) (Some new) h1 h' -> filled c a new e h h'.
Proof.
  intros (A0 & A1 & A2 & A3) [V Hr]. split; [done|]. split_and!.
  - intros m u s Hm. rewrite (V m u s) by (by left). auto.
  - intros m u s Hm Hu. rewrite (V m u s) by (by right). auto.
  - intros m s Hm. rewrite (Hr m s Hm). naive_solver.
Qed.

(** The line that [insertSingleLine] evicted *)
Definition evicted_line (r : LineInserted P I) : option Z := if li_eviction r then Some (line (li_evict_addr r)) else None.

Lemma wpe_insert_line c a x fill ev want cntlr r h :
  hier_ok h -> in_width 64 a -> master_is h c x -> (forall s, ~ cached h c a s) ->
  insertSingleLine (ms_cache x) a fill ev want cntlr = Ok r ->
  (li_eviction r = true -> in_width 64 (li_evict_addr r)) /\
  wpe E (set_cache c (li_cache r)) (fun _ h' => hier_ok h' /\ filled c a INVALID (evicted_line r) h h') h.
Proof.
  intros Hh Ha Hx Hno Hr. pose proof (master_ok _ _ _ Hh Hx) as (Hwf & Hl & _).
  assert (forall b, line_of (c_base (ms_cache x)) b = line b) as El by (intros; unfold line_of, line; by rewrite Hl).
  assert (line_of (c_base (ms_cache x)) a ∉ lines (ms_cache x)) as Hnin.
  { rewrite holds_lines. intros [s Hs]. apply (Hno s). by apply (cached_master _ _ _ _ _ Hh Hx). }
  destruct (insert_line_spec _ _ _ _ _ _ _ Hwf Ha Hnin Hr) as (Hwf' & Hb & _ & Hev).
  destruct (insert_holds _ _ _ _ _ _ _ Hwf Ha Hnin Hr) as [Hst _]. rewrite El in *. rewrite El in Hst.
  split; [intros He; by apply Hev|]. apply wpe_upd_master; [done|]. intros x' Hx'.
  assert (x' = x) as -> by (destruct Hx as (k & Hk & Hx), Hx' as (k' & Hk' & Hx'); congruence). clear Hx'.
  split; [by eapply put_master_ok|]. unfold evicted_line. split_and!.
  - destruct (li_eviction r); [|done]. destruct (Hev eq_refl) as [Hin _]. intros [= He]. by rewrite He in Hin.
  - intros m s Hm Hs. apply (Hno s). by exists m.
  - intros m u s Hm. rewrite (hstate_put _ _ _ _ _ _ _ Hx), decide_False by done. done.
  - intros m u s Hm Hu. rewrite (hstate_put _ _ _ _ _ _ _ Hx), decide_True by done. cbn [ms_cache with_ms_cache].
    rewrite Hst, (hstate_master _ _ _ _ _ _ Hx Hm). destruct (li_eviction r); rewrite ?El; naive_solver.
  - intros m s Hm. rewrite (hstate_put _ _ _ _ _ _ _ Hx), decide_True by done. cbn [ms_cache with_ms_cache]. rewrite Hst.
    split; [|naive_solver]. intros [[_ ->]|[Hs _]]; [done|]. destruct (Hno s). apply (cached_master _ _ _ _ _ Hh Hx). by rewrite El.
Qed.

Lemma inserts_live c a new e h h' : new <> INVALID -> inserts c a new e h h' -> live h -> live h'.
Proof.
  intros Hn (_ & A1 & _ & A3 & _) Hl m u Hs. destruct (decide (t_master T c = Some m /\ u = line a)) as [[Hm ->]|Hd].
  - by apply A3 in Hs.
  - apply A1 in Hs; [|naive_solver]. by apply Hl in Hs.
Qed.
Lemma inserts_same c a new e h h1 h' : inserts c a new e h h1 -> same_view h1 h' -> inserts c a new e h h'.
Proof.
  intros (A0 & A1 & A2 & A3 & A4) V. split; [done|]. split_and!.
  - intros m u s Hd. rewrite (same_view_state _ _ _ _ _ V). auto.
  - intros m u s Hd Hu Hs. rewrite (same_view_state _ _ _ _ _ V). auto.
  - intros m s Hm. rewrite (same_view_state _ _ _ _ _ V). auto.
  - intros m t s He Hm. rewrite (same_view_state _ _ _ _ _ V). eauto.
Qed.

Lemma wpe_insertCacheBlock c a new buf rq th h :
  hier_ok h -> live h -> in_width 64 a -> new <> INVALID ->
  wpe E (insertCacheBlock env c a new buf rq th)
    (fun _ h' => hier_ok h' /\ exists e, inserts c a new e h h') h.
Proof.
  intros Hh Hl Ha Hn. unfold insertCacheBlock. apply wpe_bind, wpe_getCacheState; [done..|]. intros s Hs.
  apply wpe_bind. destruct (bool_decide (s = INVALID)) eqn:Es; [|by apply (HE AssertFailed)].
  apply bool_decide_eq_true in Es as ->. apply wpe_ret.
  assert (forall s, ~ cached h c a s) as Hno by (destruct Hs as [(m & Hm & Hs)|[_ Hs]]; [by apply Hl in Hs|done]).
  apply wpe_bind, wpe_master; [done|]. intros x Hx. apply wpe_bind, wpe_gets, wpe_bind.
  pose proof (master_ok _ _ _ Hh Hx) as (Hwf & _).
  destruct (insertSingleLine _ _ _ _ _ _) as [r|e] eqn:Er; [|apply (HE e); intros ->; by eapply no_fuel_insert].
  eapply wpe_lift; [done|]. destruct (wpe_insert_line _ _ _ _ _ _ _ _ _ Hh Ha Hx Hno Er) as [Hw Hset].
  eapply wpe_bind, wpe_mono; [apply Hset|done|]. intros _ h1 [Hh1 F1].
  eapply keepsE_use; [done|neut_leaf|]. intros _ h2 Hh2 V2 _. eapply filled_same in F1; [|done]. clear dependent h1.
  pose proof Hx as (k & Hk & _). pose proof (t_master_params _ _ Hk) as Hm.
  eapply wpe_bind, wpe_mono; [apply wpe_setCacheState; [done|done|]|done|].
  { exists INVALID, (p_master k). split; [done|]. by apply F1. }
  intros p h3 (Hh3 & _ & S3). eapply filled_sets in F1; [|done]. clear dependent h2.
  eapply keepsE_use; [done|by destruct (e_cache_only env); neut|]. intros _ h4 Hh4 V4 _. eapply filled_same in F1; [|done]. clear dependent h3.
  eapply keepsE_use; [done|by destruct (e_get_owner env); neut|]. intros _ h5 Hh5 V5 _. eapply filled_same in F1; [|done]. clear dependent h4.
  assert (live h5) as Hl5 by (by eapply filled_live). unfold evicted_line in F1.
  destruct (li_eviction r); [|apply wpe_bind, wpe_ret, wpe_ret; split; [done|]; eexists; by apply filled_inserts].
  apply wpe_bind. eapply keepsE_use; [done|neut_leaf|]. intros _ h6 Hh6 V6 _. eapply filled_same in F1; [|done].
  assert (live h6) as Hl6 by (by eapply filled_live). clear dependent h5.
  eapply wpe_bind, wpe_mono; [apply wpe_back_invalidate; [done|done|by apply Hw]|done|]. intros b h7 (Hh7 & M7 & No7).
  pose proof (filled_evicted _ _ _ _ _ _ _ F1 M7 No7) as F7. clear dependent h6.
  eapply wpe_tail; [done|neut|]. intros h8 V8 Hh8. apply wpe_ret. split; [done|]. eexists. by eapply inserts_same.
Qed.

(** ** Machines of two levels *)

(** First-level caches have no previous level, and are previous levels of the one cache they have next. *)
Record two_level : Prop := {
  tl_flat c k next : t_params T !! c = Some k -> p_next k = Some next -> t_prev T c = [];
  tl_covers c k next m :
    t_params T !! c = Some k -> p_next k = Some next -> t_master T c = Some m ->
    is_Some (t_master T next) /\ exists p, p ∈ t_prev T next /\ t_master T p = Some m;
  tl_prev c p : p ∈ t_prev T c -> exists k next, t_params T !! p = Some k /\ p_next k = Some next /\ t_master T next = t_master T c;
  tl_next c d k k' next next' m :
    t_params T !! c = Some k -> t_params T !! d = Some k' -> p_next k = Some next -> p_next k' = Some next' ->
    t_master T c = Some m -> t_master T d = Some m -> t_master T next = t_master T next';
  tl_last c d k k' m :
    t_params T !! c = Some k -> t_params T !! d = Some k' -> t_master T c = Some m -> t_master T d = Some m ->
    p_next k = None -> p_next k' = None;
  tl_plain c k : t_params T !! c = Some k -> m_perfect k = false /\ m_passthrough k = false
}.
Context (Htwo : two_level).

(** The cache of [mn] is the next level of the cache of [m]. *)
Definition edge (m mn : nat) : Prop :=
  exists c k next, t_params T !! c = Some k /\ p_next k = Some next /\ t_master T c = Some m /\ t_master T next = Some mn.

Lemma t_prev_master c d : t_master T c = t_master T d -> t_prev T c = t_prev T d.
Proof. unfold t_prev. by intros ->. Qed.
Lemma edge_pbelow m mn c : edge m mn -> t_master T c = Some mn -> pbelow c m.
Proof.
  intros (d & k & next & Hk & Hn & Hm & Hmn) Hc. destruct (tl_covers Htwo d k next m Hk Hn Hm) as (_ & p & Hp & Hpm).
  exists p. rewrite (t_prev_master c next) by congruence. split; [done|]. exists p. split; [constructor|done].
Qed.
Lemma pbelow_edge c m mc : pbelow c m -> t_master T c = Some mc -> edge m mc.
Proof.
  intros (p & Hp & Hm) Hc. destruct (tl_prev Htwo c p Hp) as (k & next & Hk & Hn & Hnm).
  apply mbelow_inv in Hm as [Hm|(q & Hq & _)].
  - exists p, k, next. split_and!; try done. congruence.
  - rewrite (tl_flat Htwo p k next Hk Hn) in Hq. by apply elem_of_nil in Hq.
Qed.
Lemma pbelow_some c m : pbelow c m -> exists mc, t_master T c = Some mc /\ edge m mc.
Proof.
  intros Hb. assert (exists mc, t_master T c = Some mc) as [mc Hmc].
  { destruct Hb as (p & Hp & _). unfold t_prev in Hp. destruct (t_master T c) as [mc|]; [eauto|]. by apply elem_of_nil in Hp. }
  exists mc. split; [done|]. by eapply pbelow_edge.
Qed.
Lemma edge_no_in m mn m' : edge m mn -> ~ edge m' m.
Proof.
  intros (c & k & next & Hk & Hn & Hm & _) He. destruct (edge_pbelow _ _ c He Hm) as (p & Hp & _).
  rewrite (tl_flat Htwo c k next Hk Hn) in Hp. by apply elem_of_nil in Hp.
Qed.
Lemma edge_fun m mn mn' : edge m mn -> edge m mn' -> mn = mn'.
Proof.
  intros (c & k & n & Hk & Hn & Hm & Hmn) (c' & k' & n' & Hk' & Hn' & Hm' & Hmn').
  pose proof (tl_next Htwo c c' k k' n n' m Hk Hk' Hn Hn' Hm Hm'). congruence.
Qed.
Lemma edge_of c k next : t_params T !! c = Some k -> p_next k = Some next -> exists mn, t_master T next = Some mn /\ edge (p_master k) mn.
Proof.
  intros Hk Hn. pose proof (t_master_params _ _ Hk) as Hm. destruct (tl_covers Htwo c k next _ Hk Hn Hm) as [[mn Hmn] _].
  exists mn. split; [done|]. exists c, k, next. done.
Qed.

(** How much a state allows *)
Definition rank (s : cstate_t) : nat :=
  match s with INVALID => 0 | MODIFIED => 3 | EXCLUSIVE => 2 | _ => 1 end.
Lemma rank_live s : s <> INVALID -> (1 <= rank s)%nat.
Proof. destruct s; cbn; try lia; done. Qed.
Lemma rank_max s : (rank s <= rank MODIFIED)%nat.
Proof. destruct s; cbn; lia. Qed.

(** A line of a cache is in the next level too, in a state that allows at least as much. *)
Definition ordered h : Prop := forall m mn t s, edge m mn -> hstate h m t s -> exists s', hstate h mn t s' /\ (rank s <= rank s')%nat.

Lemma ordered_same h h' : same_view h h' -> ordered h -> ordered h'.
Proof.
  intros V Ho m mn t s He Hs. apply (same_view_state _ _ _ _ _ V) in Hs. destruct (Ho m mn t s He Hs) as (s' & Hs' & ?).
  exists s'. by rewrite (same_view_state _ _ _ _ _ V).
Qed.

Lemma ordered_moves (B : nat -> Prop) t new h h' :
  moves B t new h h' -> live h -> ordered h -> (forall m m', B m -> ~ edge m' m) ->
  (forall m mn s s', B m -> edge m mn -> new <> INVALID -> hstate h m t s -> hstate h mn t s' -> (rank s <= rank s')%nat -> (rank new <= rank s')%nat) ->
  ordered h'.
Proof.
  intros (A1 & A2 & A3) Hl Ho HB Hr m mn u s He Hs.
  assert (forall s', hstate h' mn u s' <-> hstate h mn u s') as Hmn by (intros; apply A1; right; intros ?; by eapply HB).
  assert (hstate h m u s \/ (B m /\ u = t /\ s = new /\ new <> INVALID /\ exists s', hstate h m u s')) as Hd.
  { destruct (decide (u = t)) as [->|]; [apply A2 in Hs; naive_solver|]. left. apply A1; auto. }
  destruct Hd as [Hd|(Hb & -> & -> & Hn & s0 & Hs0)].
  - destruct (Ho m mn u s He Hd) as (s' & Hs' & ?). exists s'. by rewrite Hmn.
  - destruct (Ho m mn t s0 He Hs0) as (s' & Hs' & ?). exists s'. rewrite Hmn. split; [done|]. by eapply Hr.
Qed.

(** A cache without next level takes the line to a new state with all its previous levels. *)
Lemma ordered_settled c t new h h' :
  (forall mc mn, t_master T c = Some mc -> ~ edge mc mn) ->
  moves (mbelow c) t new h h' -> settled h' c t new -> live h -> ordered h -> ordered h'.
Proof.
  intros Htop V Hset Hl Ho m mn u s He Hs. pose proof (moves_live _ _ _ _ _ V Hl) as Hl'. pose proof V as (A1 & A2 & A3).
  assert (forall x, mbelow c x -> t_master T c = Some x \/ pbelow c x) as Hb by (intros x [?|?]%mbelow_inv; auto).
  destruct (decide (t_master T c = Some mn)) as [Hc|Hc].
  - destruct (decide (u = t)) as [->|Hu].
    + assert (mbelow c m) as Hm by (by eapply pbelow_mbelow, edge_pbelow). pose proof (Hset m s Hm Hs) as ->.
      assert (exists s0, hstate h m t s0) as [s0 Hs0] by (apply A2 in Hs; naive_solver).
      destruct (Ho m mn t s0 He Hs0) as (s1 & Hs1 & _). assert (new <> INVALID) as Hn by (intros ->; by apply Hl' in Hs).
      destruct (A3 Hn mn s1 Hs1) as [s2 Hs2]. exists s2. split; [done|].
      rewrite (Hset mn s2) by (done || (exists c; split; [constructor|done])). done.
    + apply A1 in Hs; [|by left]. destruct (Ho m mn u s He Hs) as (s' & Hs' & ?). exists s'. split; [|done]. apply A1; auto.
  - assert (forall x, (x = m \/ x = mn) -> ~ mbelow c x) as Hno.
    { intros x Hx [Hx'|(mc & Hmc & He')%pbelow_some]%Hb; destruct Hx as [-> | ->]; [by eapply Htop|done| |by eapply edge_no_in].
      rewrite (edge_fun _ _ _ He He') in Hc. done. }
    apply A1 in Hs; [|right; auto]. destruct (Ho m mn u s He Hs) as (s' & Hs' & ?). exists s'. split; [|done]. apply A1; auto.
Qed.

Lemma edge_irrefl m : ~ edge m m.
Proof. intros He. by eapply edge_no_in. Qed.

Lemma ordered_inserts c a new e h h' :
  (forall m mn, t_master T c = Some m -> edge m mn -> exists s, hstate h mn (line a) s /\ (rank new <= rank s)%nat) ->
  inserts c a new e h h' -> ordered h -> ordered h'.
Proof.
  intros Hnext ((A0 & Hno) & A1 & A2 & A3 & A4) Ho m mn u s He Hs.
  destruct (decide (t_master T c = Some m /\ u = line a)) as [[Hm ->]|Hd].
  - apply A3 in Hs as ->; [|done]. destruct (Hnext m mn Hm He) as (s' & Hs' & ?). exists s'. split; [|done].
    apply A2; [|left; congruence|done]. intros Hmn. assert (m = mn) as <- by congruence. by apply edge_irrefl in He.
  - assert (hstate h m u s) as Hs0 by (apply A1; naive_solver). destruct (Ho m mn u s He Hs0) as (s' & Hs' & ?).
    exists s'. split; [|done]. apply A2; [|..|done].
    + intros Hmn ->. by eapply Hno.
    + destruct (decide (Some u = e)) as [Hu|]; [|by left]. right. intros [Hmn|Hmn]%mbelow_inv.
      * apply (A4 m u s); [done| |done]. by eapply pbelow_mbelow, edge_pbelow.
      * apply (pbelow_some c mn) in Hmn as (mc & _ & He'). by eapply edge_no_in.
Qed.

(** Caches without a next level *)
Definition top c : Prop := forall m mn, t_master T c = Some m -> ~ edge m mn.

Lemma top_next c k : t_params T !! c = Some k -> p_next k = None -> top c.
Proof.
  intros Hk Hn m mn Hm (d & kd & nd & Hkd & Hnd & Hmd & _). pose proof (tl_last Htwo c d k kd m Hk Hkd Hm Hmd Hn). congruence.
Qed.

(** A state that changes through any pointer into a cache without next level *)
Lemma wpe_on_block_up c p s h :
  hier_ok h -> live h -> ordered h -> top c -> (forall r, (rank r <= rank s)%nat) ->
  wpe E (on_block c p (fun b => setCState b s)) (fun _ h' => hier_ok h' /\ live h' /\ ordered h') h.
Proof.
  intros Hh Hl Ho Htop Hmax. unfold on_block. destruct p as [[i w]|]; [|by apply (HE NullDeref)].
  apply wpe_bind, wpe_master; [done|]. intros x Hx. pose proof (master_ok _ _ _ Hh Hx) as (Hwf & _).
  set (f := fun b => setCState b s). destruct (update_block_ok (ms_cache x) i w f) as [Hwf' _]; [done|done|].
  assert (s <> INVALID) as Hs by (intros ->; specialize (Hmax MODIFIED); cbn in Hmax; lia).
  destruct (set_state_holds (ms_cache x) i w s) as [H1 H2]. fold f in H1, H2.
  apply wpe_upd_master; [done|]. intros x' Hx'.
  assert (x' = x) as -> by (destruct Hx as (k & Hk & Hx), Hx' as (k' & Hk' & Hx'); congruence). clear Hx'.
  split; [by eapply put_master_ok|]. split.
  - intros m t. rewrite (hstate_put _ _ _ _ _ _ _ Hx). destruct (decide _) as [Hm|]; [|by apply Hl].
    intros (r0 & Hr0 & [<-|?])%H1; [|congruence]. by apply (Hl m t), (hstate_master _ _ _ _ _ _ Hx Hm).
  - intros m mn t r He Hr. rewrite (hstate_put _ _ _ _ _ _ _ Hx) in Hr. destruct (decide _) as [Hm|_]; [by apply Htop in He|].
    destruct (Ho m mn t r He Hr) as (r' & Hr' & Hle). setoid_rewrite (hstate_put _ _ _ _ _ _ _ Hx).
    destruct (decide _) as [Hmn|_]; [|by exists r'].
    apply (hstate_master _ _ _ _ _ _ Hx Hmn), H2 in Hr' as (r2 & Hr2 & [->| ->]); eauto.
Qed.

(** ** Operations of a machine of two levels *)

Context (Hfuel : E OutOfFuel).
Lemma any_error e : E e.
Proof. destruct e; first [exact Hfuel|by apply HE]. Qed.

Definition ok h : Prop := hier_ok h /\ live h /\ ordered h.
Definition kord {A} (m : M A) (Q : A -> Prop) : Prop := forall h, ok h -> wpe E m (fun a h' => ok h' /\ Q a) h.

Lemma kord_bind {A B} (m : M A) (f : A -> M B) Q R : kord m Q -> (forall a, Q a -> kord (f a) R) -> kord (mbind f m) R.
Proof.
  intros Hm Hf h Hh. eapply wpe_bind, wpe_mono; [by apply Hm|done|]. intros a h' [? ?]. by apply Hf.
Qed.
Lemma kord_mono {A} (m : M A) (Q R : A -> Prop) : kord m Q -> (forall a, Q a -> R a) -> kord m R.
Proof. intros Hm HR h Hh. eapply wpe_mono; [by apply Hm|done|]. naive_solver. Qed.
Lemma live_same h h' : same_view h h' -> live h -> live h'.
Proof. intros V Hl m t Hs. by apply (same_view_state _ _ _ _ _ V), Hl in Hs. Qed.
Lemma neutral_kord {A} (m : M A) Q : neutral m Q -> kord m Q.
Proof.
  intros Hm h (Hh & Hl & Ho). eapply wpe_mono; [by apply Hm|done|]. intros a h' (? & V & ?). split; [|done].
  split_and!; [done|by eapply live_same|by eapply ordered_same].
Qed.
Lemma kord_lift {A} (r : res A) : kord (lift_res r) (fun a => r = Ok a).
Proof. apply neutral_kord, neutral_liftE. intros e _. apply any_error. Qed.
Lemma kord_fail {A} e (Q : A -> Prop) : kord (fail e) Q.
Proof. intros h _. apply any_error. Qed.

Lemma kord_snoop c req a new r th : in_width 64 a -> new = INVALID \/ new = SHARED -> kord (snoop_prevs env c req a new r th) (fun _ => True).
Proof.
  intros Ha Hn h (Hh & Hl & Ho). eapply wpe_mono; [by apply wpe_snoop_prevs|done|]. intros b h' (Hh' & V & _). split; [|done].
  split_and!; [done|by eapply moves_live|]. eapply ordered_moves; [done..| |].
  - intros m m' (mc & _ & He)%pbelow_some. by eapply edge_no_in.
  - intros m mn s s' _ He Hni Hs _ Hle. destruct Hn as [->| ->]; [done|]. assert (s <> INVALID) as Hsl%rank_live by (intros ->; by apply Hl in Hs). cbn. lia.
Qed.

(** The update of a first-level cache to a state its next level has *)
Lemma kord_update_low c k next a new r want th h :
  t_params T !! c = Some k -> p_next k = Some next -> in_width 64 a -> ok h -> cached h next a new ->
  wpe E (updateCacheBlock env (e_levels env) c a new r want th) (fun _ h' => ok h') h.
Proof.
  intros Hk Hn Ha (Hh & Hl & Ho) (mn & Hmn & Hs). destruct (edge_of c k next Hk Hn) as (mn' & Hmn' & He). simplify_eq.
  pose proof (level_lt _ _ _ Hlevels c k Hk). eapply wpe_mono; [apply wpe_updateCacheBlock; [done..|lia]|done|].
  intros b h' (Hh' & V & _). split_and!; [done|by eapply moves_live|].
  assert (forall m, mbelow c m -> m = p_master k) as Hb.
  { intros m [Hm|(p & Hp & _)]%mbelow_inv; [rewrite (t_master_params _ _ Hk) in Hm; congruence|].
    rewrite (tl_flat Htwo c k next Hk Hn) in Hp. by apply elem_of_nil in Hp. }
  eapply ordered_moves; [done..| |].
  - intros m m' ->%Hb. by eapply edge_no_in.
  - intros m mn' s s' ->%Hb He' _ _ Hs' _. rewrite (edge_fun _ _ _ He' He) in Hs'.
    by rewrite (hstate_fun _ _ _ _ _ Hh Hs Hs').
Qed.

(** ... and of a cache without next level *)
Lemma kord_update_top c a new r want th :
  top c -> in_width 64 a -> (level c <= e_levels env)%nat -> kord (updateCacheBlock env (e_levels env) c a new r want th) (fun _ => True).
Proof.
  intros Htop Ha Hlev h (Hh & Hl & Ho). eapply wpe_mono; [by apply wpe_updateCacheBlock|done|]. intros b h' (Hh' & V & Hs).
  split; [|done]. split_and!; [done|by eapply moves_live|]. by eapply ordered_settled.
Qed.

Lemma kord_insert_top c a new buf rq th : top c -> in_width 64 a -> new <> INVALID -> kord (insertCacheBlock env c a new buf rq th) (fun _ => True).
Proof.
  intros Htop Ha Hn h (Hh & Hl & Ho). eapply wpe_mono; [by apply wpe_insertCacheBlock|done|]. intros b h' (Hh' & e & Hi).
  split; [|done]. split_and!; [done|by eapply inserts_live|]. eapply ordered_inserts; [|done..]. intros m mn Hm He. by apply Htop in He.
Qed.

Lemma kord_insert_low c k next a new buf rq th h :
  t_params T !! c = Some k -> p_next k = Some next -> in_width 64 a -> new <> INVALID -> ok h -> cached h next a new ->
  wpe E (insertCacheBlock env c a new buf rq th) (fun _ h' => ok h') h.
Proof.
  intros Hk Hn Ha Hni (Hh & Hl & Ho) (mn & Hmn & Hs). destruct (edge_of c k next Hk Hn) as (mn' & Hmn' & He). simplify_eq.
  eapply wpe_mono; [by apply wpe_insertCacheBlock|done|]. intros b h' (Hh' & e & Hi).
  split_and!; [done|by eapply inserts_live|]. eapply ordered_inserts; [|done..]. intros m mn' Hm He'.
  rewrite (t_master_params _ _ Hk) in Hm. simplify_eq. rewrite (edge_fun _ _ _ He' He). eauto.
Qed.

Lemma kord_invalidate_low c k next a :
  t_params T !! c = Some k -> p_next k = Some next -> in_width 64 a -> kord (invalidateCacheBlock c a) (fun _ => True).
Proof.
  intros Hk Hn Ha h (Hh & Hl & Ho). destruct (edge_of c k next Hk Hn) as (mn & Hmn & He).
  eapply wpe_mono; [by apply wpe_invalidateCacheBlock|done|]. intros b h' (Hh' & V & Hr). split; [|done].
  assert (forall m u s, hstate h' m u s -> hstate h m u s) as Hsub.
  { intros m u s Hs. destruct (decide (t_master T c = Some m /\ u = line a)) as [[Hm ->]|Hd].
    - by apply Hr in Hs.
    - apply V in Hs; [done|]. destruct (decide (t_master T c = Some m)); [right; naive_solver|by left]. }
  split_and!; [done|by intros m t Hs%Hsub%Hl|]. intros m mn' t s He' Hs%Hsub. destruct (Ho m mn' t s He' Hs) as (s' & Hs' & ?).
  exists s'. split; [|done]. apply V; [|done]. left. rewrite (t_master_params _ _ Hk). intros [= <-]. exact (edge_no_in _ _ _ He He').
Qed.

Lemma kord_upgrading c a perf th : top c -> in_width 64 a -> kord (processUpgradeReqToDirectory env c a perf th) (fun _ => True).
Proof.
  intros Htop Ha h (Hh & Hl & Ho). unfold processUpgradeReqToDirectory. apply wpe_bind, wpe_getCacheState; [done..|]. intros s Hs.
  apply wpe_bind. destruct (bool_decide (s = SHARED)) eqn:Es; [|apply any_error]. apply bool_decide_eq_true in Es as ->. apply wpe_ret.
  destruct Hs as [Hs|[? _]]; [|done]. eapply wpe_bind, wpe_mono; [apply wpe_setCacheState; [done|done|eauto]|done|].
  intros p h1 (Hh1 & _ & V & Hr). assert (ok h1) as Hok.
  { destruct Hs as (mc & Hmc & Hs).
    assert (forall m u r, hstate h1 m u r -> (u = line a /\ m = mc /\ r = SHARED_UPGRADING) \/ hstate h m u r) as H1.
    { intros m u r Hst. destruct (decide (m = mc /\ u = line a)) as [[-> ->]|Hd].
      - apply Hr in Hst; [|done]. simplify_eq. by left.
      - right. apply V; [|done]. rewrite Hmc. destruct (decide (m = mc)); [right; naive_solver|left; congruence]. }
    split_and!; [done|intros m t [(_ & _ & ?)|?%Hl]%H1; done|]. intros m mn t r He [(-> & -> & ->)|Hst]%H1; [by apply (Htop mc mn) in He|].
    destruct (Ho m mn t r He Hst) as (r' & Hr' & Hle). destruct (decide (mn = mc /\ t = line a)) as [[-> ->]|Hd].
    - exists SHARED_UPGRADING. split; [by apply Hr|]. by rewrite (hstate_fun _ _ _ _ _ Hh Hr' Hs) in Hle.
    - exists r'. split; [|done]. apply V; [|done]. rewrite Hmc. destruct (decide (mn = mc)); [right; naive_solver|left; congruence]. }
  revert h1 Hh1 V Hr Hok. intros h1 _ _ _ Hok. eapply wpe_mono with (E' := E) (Q := fun _ h' => ok h' /\ True); [|done|done].
  apply (neutral_kord _ (fun _ => True)); [|done]. neut.
Qed.

(** *** Operations that change no state *)

Lemma neutral_any {A} (r : res A) : neutral (lift_res r) (fun a => r = Ok a).
Proof. apply neutral_liftE. intros e _. apply any_error. Qed.
Lemma neutral_fuel {A} e (Q : A -> Prop) : neutral (fail e) Q.
Proof. intros h _. apply any_error. Qed.
Ltac neut_leaf ::=
  first [ apply (neutral_fuel _ (fun _ => True)) | apply neutral_any | eapply neutral_True, neutral_any
        | solve [eauto with neut] | solve [eapply neutral_True; eauto with neut] | apply keepsE_ret; apply _
        | apply neutral_upd_cntlr; by intros | apply neutral_upd_master; by intros | apply neutral_modify; by intros ].

Lemma neutral_write_any c a off buf len : 0 <= len -> neutral (writeCacheBlock env (e_levels env) c a off buf len) (fun _ => True).
Proof. intros Hlen. apply neutral_writeCacheBlock; [done|lia]. Qed.
#[local] Hint Resolve neutral_write_any : neut.

Lemma neutral_set_mshr c a t t' : neutral (set_mshr c a t t') (fun _ => True).
Proof. unfold set_mshr. neut. Qed.
Lemma neutral_cleanupMshr c : neutral (cleanupMshr env c) (fun _ => True).
Proof. unfold cleanupMshr. neut. Qed.
Lemma neutral_accessATDs c op hit a n : neutral (accessATDs c op hit a n) (fun _ => True).
Proof. unfold accessATDs. neut. Qed.
#[local] Hint Resolve neutral_set_mshr neutral_cleanupMshr neutral_accessATDs : neut.
Lemma neutral_updateCounters c op a hit s pf : neutral (updateCounters env c op a hit s pf) (fun _ => True).
Proof. unfold updateCounters. neut. Qed.
Lemma neutral_count_cache c hit : neutral (count_cache c hit) (fun _ => True).
Proof.
  intros h Hh. apply wpe_upd_master; [done|]. intros x Hx. pose proof (master_ok _ _ _ Hh Hx) as (Hwf & _).
  assert (same_blocks (ms_cache x) (Cache.updateCounters (ms_cache x) hit) /\ cache_wf (Cache.updateCounters (ms_cache x) hit) /\
    c_base (Cache.updateCounters (ms_cache x) hit) = c_base (ms_cache x)) as (Hsb & Hwf' & Hb)
    by (unfold Cache.updateCounters; by destruct (m_enabled (ms_cache x))).
  split_and!; [by eapply put_master_ok|by eapply put_same_view|done].
Qed.
Lemma neutral_updateUncore c w t : neutral (updateUncoreStatistics c w t) (fun _ => True).
Proof. unfold updateUncoreStatistics. neut. Qed.
Lemma neutral_getHomeOf a : neutral (getHomeOf env a) (fun _ => True).
Proof. unfold getHomeOf. neut. Qed.
#[local] Hint Resolve neutral_updateCounters neutral_count_cache neutral_updateUncore neutral_getHomeOf : neut.
Lemma neutral_exreq c a : neutral (processExReqToDirectory env c a) (fun _ => True).
Proof. unfold processExReqToDirectory. neut. Qed.
Lemma neutral_shreq c a : neutral (processShReqToDirectory env c a) (fun _ => True).
Proof. unfold processShReqToDirectory. neut. Qed.
Lemma neutral_use_warmup c p : neutral (use_warmup env c p) (fun _ => True).
Proof. unfold use_warmup. neut. Qed.
Lemma neutral_use_prefetch c p : neutral (use_prefetch c p) (fun _ => True).
Proof. unfold use_prefetch. neut. Qed.
Lemma neutral_mshr_delay c a : neutral (mshr_delay c a) (fun _ => True).
Proof. unfold mshr_delay. neut. Qed.
#[local] Hint Resolve neutral_exreq neutral_shreq neutral_use_warmup neutral_use_prefetch neutral_mshr_delay : neut.

(** Prefetch lists and waiting threads *)
Lemma neutral_upd_prefetch c f :
  (forall x, ms_prev (f x) = ms_prev x /\ ms_cache (f x) = ms_cache x) ->
  (forall x, Forall (in_width 64) (ms_prefetch_list x) -> Forall (in_width 64) (ms_prefetch_list (f x))) ->
  neutral (upd_master c f) (fun _ => True).
Proof.
  intros Hf Hpf h Hh. apply wpe_upd_master; [done|]. intros x Hx. destruct (Hf x) as (Hp & Hc).
  split_and!; [|eapply put_same_view; [done|by rewrite Hc; intros ??]|done].
  pose proof Hx as (k & Hk & Hm). destruct Hh as (H1 & H2 & H3 & H4). split_and!.
  - unfold put_master. by destruct (t_master T c).
  - rewrite (masters_put _ _ _ _ Hk), list_fmap_insert, Hp, list_insert_id; [done|]. by rewrite list_lookup_fmap, Hm.
  - intros m z Hz. eapply lookup_put_master in Hz as [[_ ->]|[_ Hz]]; [|by apply (H3 m)|done].
    destruct (H3 _ _ Hm) as (? & ? & ?). rewrite Hc. auto.
  - unfold put_master. by destruct (t_master T c).
Qed.
Lemma neutral_master_prefetch c : neutral (master c) (fun x => Forall (in_width 64) (ms_prefetch_list x)).
Proof.
  intros h Hh. apply wpe_master; [done|]. intros x (k & Hk & Hx). split_and!; try done. by apply Hh in Hx as (_ & _ & ?).
Qed.
Lemma neutral_enqueue c l : Forall (in_width 64) l -> neutral (enqueue_prefetches c l) (fun _ => True).
Proof.
  induction 1 as [|a l Ha _ IH]; cbn [enqueue_prefetches]; [neut|]. eapply keepsE_bind; [apply _|neut_leaf|intros x _].
  destruct (_ <? _)%nat; [neut|]. eapply keepsE_bind; [apply _|neut_leaf|intros b _].
  eapply keepsE_bind; [apply _| |intros _ _; apply IH]. destruct b; [neut|]. apply neutral_upd_prefetch; [done|].
  intros y Hy. cbn. apply Forall_app. split; [done|]. by constructor.
Qed.
Lemma neutral_train c a hit ph t : neutral (trainPrefetcher env c a hit ph t) (fun _ => True).
Proof.
  unfold trainPrefetcher. eapply keepsE_bind; [apply _|neut_leaf|intros k _]. eapply keepsE_bind; [apply _|neut_leaf|intros x _].
  destruct (ms_prefetcher x); [|neut]. eapply keepsE_bind; [apply _|apply neutral_any|intros [l f] Hl%getNextAddress_width].
  eapply keepsE_bind; [apply _|neut_leaf|intros _ _]. destruct (negb hit || _); [|neut].
  eapply keepsE_bind; [apply _| |intros _ _; by apply neutral_enqueue]. apply neutral_upd_prefetch; [done|]. intros; constructor.
Qed.
#[local] Hint Resolve neutral_train : neut.
Lemma neutral_train_if c m a hit ph t : neutral (train_if env c m a hit ph t) (fun _ => True).
Proof. unfold train_if. neut. Qed.
#[local] Hint Resolve neutral_train_if : neut.
Lemma neutral_next_prefetch c l : Forall (in_width 64) l -> neutral (next_prefetch c l) (in_width 64).
Proof.
  induction 1 as [|a l Ha Hl IH]; cbn [next_prefetch].
  - intros h Hh. apply wpe_ret. split_and!; [done|done|..]; unfold in_width, INVALID_ADDRESS; lia.
  - eapply keepsE_bind; [apply _|apply neutral_upd_prefetch; [done|by intros]|intros _ _].
    eapply keepsE_bind; [apply _|neut_leaf|intros b _]. destruct b; [done|]. intros h Hh. by split_and!.
Qed.
Lemma neutral_wait c w : pending_ok w -> neutral (wait c w) (fun _ => True).
Proof.
  intros Hw. unfold wait. eapply keepsE_bind; [apply _|neut_leaf|intros k _]. intros h (H1 & H2 & H3 & H4). apply wpe_modify.
  split; [|done]. do 3 (split; [done|]). by apply map_Forall_insert_2.
Qed.

(** Usage bits: a block is read, changed and written back. *)
Lemma update_block_ext (x : Cache P I) i w f g :
  (forall b, block_at x i w = Some b -> f b = g b) -> update_block x i w f = update_block x i w g.
Proof.
  intros Hfg. unfold update_block. f_equal. apply list_eq. intros j. destruct (decide (j = i)) as [->|]; [|by rewrite !list_lookup_alter_ne].
  rewrite !list_lookup_alter_eq. unfold block_at in Hfg. destruct (m_sets x !! i) as [cs|]; [|done]. cbn in *. f_equal. f_equal.
  apply list_eq. intros v. destruct (decide (v = w)) as [->|]; [|by rewrite !list_lookup_alter_ne].
  rewrite !list_lookup_alter_eq. destruct (m_cache_block_info_array cs !! w); [|done]. cbn. f_equal. auto.
Qed.
Lemma neutral_usage {A} c p (g : CacheBlockInfo -> bool * CacheBlockInfo) (f : bool -> CacheBlockInfo -> M A) Q :
  (forall b, m_tag (g b).2 = m_tag b) -> (forall b, m_cstate (g b).2 = m_cstate b) -> (forall nb b, neutral (f nb b) Q) ->
  neutral (b ← block c p; let '(nb, b) := g b in _ ← on_block c p (fun _ => b); f nb b) Q.
Proof.
  intros Ht Hs Hf h Hh. destruct p as [[i w]|]; cbn [block on_block]; [|apply any_error].
  apply wpe_bind, wpe_bind, wpe_master; [done|]. intros x Hx. pose proof (master_ok _ _ _ Hh Hx) as (Hwf & _).
  destruct (cache_peekBlock (ms_cache x) i w) as [b|e] eqn:Eb; [|apply any_error]. eapply wpe_lift; [done|].
  assert (block_at (ms_cache x) i w = Some b) as Hb.
  { unfold cache_peekBlock, peekBlock, aget in Eb. unfold block_at. destruct (m_sets (ms_cache x) !! i) as [cs|]; [|done].
    cbn in *. by destruct (_ !! w); simplify_eq. }
  destruct (g b) as [nb b'] eqn:Eg. apply wpe_bind, wpe_bind, wpe_master; [done|]. intros x' Hx'.
  assert (x' = x) as -> by (destruct Hx as (k & Hk & Hx), Hx' as (k' & Hk' & Hx'); congruence). clear Hx'.
  rewrite (update_block_ext _ _ _ (fun _ => b') (fun b => (g b).2)) by (intros b0 Hb0; simplify_eq; by rewrite Eg).
  destruct (update_block_ok (ms_cache x) i w (fun b => (g b).2)) as [Hwf' _]; [done|done|].
  eapply wpe_mono; [eapply set_cache_ok; [done|done|done|by apply update_same_blocks|done]|done|]. intros _ h' (Hh' & V & _).
  eapply wpe_mono; [by apply Hf|done|]. intros r h'' (? & ? & ?). split_and!; [done|by etrans|done].
Qed.
Lemma neutral_updateUsageBits n c a u : neutral (updateUsageBits n c a u) (fun _ => True).
Proof.
  revert c. induction n as [|n IH]; intros c; cbn [updateUsageBits]; (eapply keepsE_bind; [apply _|neut_leaf|intros p _]);
    apply neutral_usage; try (intros b; unfold updateUsage_mask; reflexivity); intros nb b; neut.
Qed.
#[local] Hint Resolve neutral_updateUsageBits : neut.

(** *** The data path *)

Ltac kord_leaf :=
  first [ apply (kord_fail _ (fun _ => True)) | solve [eauto with kord] | apply kord_fail | apply neutral_kord; neut_leaf | eapply kord_mono; [solve [eauto with kord]|done] ].
Ltac kords :=
  repeat match goal with
  | |- kord (mbind _ (match ?x with _ => _ end)) _ => destruct x eqn:?
  | |- kord (mbind _ (mbind _ _)) _ => eapply kord_bind with (Q := fun _ => True); [|intros ? ?]
  | |- kord (mbind _ _) _ => eapply kord_bind; [kord_leaf|intros ? ?; cbn beta in *]
  | |- kord (match ?x with _ => _ end) _ => destruct x eqn:?
  | |- kord _ _ => kord_leaf
  end.
Create HintDb kord.
#[local] Hint Resolve kord_snoop kord_invalidate_low kord_upgrading kord_insert_top : kord.

Lemma wpe_permissible c a op (Q : _ -> HS -> Prop) h :
  hier_ok h -> in_width 64 a -> (forall b, (b = true -> exists s, cached h c a s) -> Q b h) -> wpe E (operationPermissibleinCache c a op) Q h.
Proof.
  intros Hh Ha HQ. unfold operationPermissibleinCache. apply wpe_bind, wpe_getCacheState; [done..|]. intros s Hs. apply wpe_ret, HQ.
  intros Hb. destruct Hs as [Hs|[-> _]]; [eauto|]. by destruct op.
Qed.

Lemma kord_copy c k next op a modeled t :
  t_params T !! c = Some k -> p_next k = Some next -> in_width 64 a -> kord (copyDataFromNextLevel env c op a modeled t) (fun _ => True).
Proof.
  intros Hk Hn Ha h (Hh & Hl & Ho). unfold copyDataFromNextLevel. eapply keepsE_use; [done|apply reads_params|].
  intros k' h' _ <- Hk'. simplify_eq. rewrite Hn. apply wpe_bind, wpe_permissible; [done..|]. intros b Hb.
  apply wpe_bind. destruct b; [|apply any_error]. apply wpe_ret. destruct (Hb eq_refl) as [s0 Hs0].
  eapply keepsE_use; [done|neut_leaf|]. intros buf h1 Hh1 V1 _.
  assert (cached h1 next a s0) as Hs1 by (destruct Hs0 as (m & ? & ?); exists m; split; [done|]; by apply (same_view_state _ _ _ _ _ V1)).
  apply wpe_bind, wpe_getCacheState; [done..|]. intros s Hs. assert (cached h1 next a s) as Hs' by (destruct Hs as [?|[_ Hno]]; [done|by destruct (Hno s0)]).
  eapply keepsE_use; [done| |].
  { instantiate (1 := fun _ => True). destruct (modeled && _); [|neut]. neut. }
  intros _ h2 Hh2 V2 _. eapply (live_same h h1) in Hl as Hl1; [|done]. eapply (live_same h1 h2) in Hl1 as Hl2; [|done].
  assert (ok h2) as Hok by (split_and!; [done|done|]; eapply ordered_same; [done|]; by eapply ordered_same).
  assert (cached h2 next a s) as Hs2 by (destruct Hs' as (m & ? & ?); exists m; split; [done|]; by apply (same_view_state _ _ _ _ _ V2)).
  assert (s <> INVALID) as Hni by (intros ->; destruct Hs2 as (m & _ & Hs2); by apply Hl2 in Hs2).
  apply wpe_bind, wpe_getCacheBlockInfo; [done..|]. intros p _. destruct p.
  - eapply wpe_bind, wpe_mono; [by eapply kord_update_low|done|]. intros x h3 Hok3. by apply wpe_ret.
  - eapply wpe_bind, wpe_mono; [by eapply kord_insert_low|done|]. intros x h3 Hok3. by apply wpe_ret.
Qed.
#[local] Hint Resolve kord_copy : kord.

Lemma kord_set_modified c p : top c -> kord (on_block c p (fun b => setCState b MODIFIED)) (fun _ => True).
Proof.
  intros Htop h (Hh & Hl & Ho). eapply wpe_mono; [apply wpe_on_block_up; [done..|apply rank_max]|done|]. intros [] h' (? & ? & ?). done.
Qed.
#[local] Hint Resolve kord_set_modified : kord.

Lemma kord_initiate c op a pf t : top c -> in_width 64 a -> kord (initiateDirectoryAccess env c op a pf t) (fun _ => True).
Proof. intros Htop Ha. unfold initiateDirectoryAccess. kords. Qed.
Lemma kord_fill_dram c op a pf : top c -> in_width 64 a -> kord (fill_from_dram env c op a pf) (fun _ => True).
Proof.
  intros Htop Ha. unfold fill_from_dram.
  assert (match op with Op_READ => SHARED | _ => MODIFIED end <> INVALID) as Hn by (by destruct op). kords.
Qed.
#[local] Hint Resolve kord_initiate kord_fill_dram : kord.
Lemma kord_last_level c rq p op a pf t : top c -> in_width 64 a -> kord (last_level_miss env c rq p op a pf t) (fun _ => True).
Proof. intros Htop Ha. unfold last_level_miss. kords. Qed.
Lemma kord_shmem_hit c rq p op a md pf : in_width 64 a -> kord (shmem_hit env c rq p op a md pf) (fun _ => True).
Proof. intros Ha. unfold shmem_hit. kords. Qed.
#[local] Hint Resolve kord_last_level kord_shmem_hit : kord.

Lemma kord_shmem_miss ask c rq p op a md pf t :
  in_width 64 a -> (forall next, kord (ask next) (fun _ => True)) -> kord (shmem_miss env ask c rq p op a md pf t) (fun _ => True).
Proof.
  intros Ha Hask. unfold shmem_miss. eapply kord_bind; [apply neutral_kord, neutral_params|cbn beta; intros k Hk].
  eapply kord_bind with (Q := fun _ => True); [kords|intros _ _]. eapply kord_bind with (Q := fun _ => True); [kords|intros s _].
  eapply kord_bind with (Q := fun _ => True); [kords|intros _ _].
  destruct (p_next k) as [next|] eqn:En; [|pose proof (top_next c k Hk En); kords].
  eapply kord_bind with (Q := fun _ => True); [kords|intros _ _]. eapply kord_bind; [apply Hask|intros w _]. kords.
Qed.
#[local] Hint Resolve kord_shmem_miss : kord.

Lemma kord_lookup c op a cnt : kord (shmem_lookup env c op a cnt) (fun _ => True).
Proof.
  unfold shmem_lookup. eapply kord_bind; [apply neutral_kord, neutral_params|cbn beta; intros k Hk].
  destruct (tl_plain Htwo c k Hk) as [-> ->]. kords; rewrite ?andb_false_r in *; try done.
  all: repeat match goal with H : _ && false = true |- _ => rewrite andb_false_r in H; done | H : _ && false && _ = true |- _ => rewrite andb_false_r in H; done end.
Qed.
#[local] Hint Resolve kord_lookup : kord.

Lemma kord_shmem n c rq op a md cnt pf t : in_width 64 a -> kord (processShmemReqFromPrevCache env n c rq op a md cnt pf t) (fun _ => True).
Proof.
  intros Ha. revert c rq pf. induction n as [|n IH]; intros c rq pf; cbn [processShmemReqFromPrevCache].
  all: eapply kord_bind; [apply neutral_kord, neutral_params|intros k Hk].
  all: eapply kord_bind with (Q := fun _ => True); [apply kord_lookup|intros [[hit first] p] _].
  all: eapply kord_bind with (Q := fun _ => True); [kords|intros _ _].
  all: eapply kord_bind with (Q := fun _ => True); [|intros [[w h] f] _; kords].
  all: destruct hit; [kords|]; eapply kord_bind with (Q := fun _ => True); [|intros [? ?] _; kords].
  all: apply kord_shmem_miss; [done|]. all: intros next; first [apply kord_fail|apply IH].
Qed.
#[local] Hint Resolve kord_shmem : kord.

(** *** Prefetches and accesses of the cores *)

Lemma neutral_end_prefetch c t : neutral (end_prefetch c t) (fun _ => True).
Proof. unfold end_prefetch. neut. Qed.
#[local] Hint Resolve neutral_end_prefetch : neut.
#[local] Hint Extern 1 (keepsE _ (wait _ _) _) => apply neutral_wait; cbn; by eauto : neut.
Lemma kord_doPrefetch c a t t' : in_width 64 a -> kord (doPrefetch env c a t t') (fun _ => True).
Proof. intros Ha. unfold doPrefetch. kords. Qed.
#[local] Hint Resolve kord_doPrefetch : kord.
Lemma kord_Prefetch n c t : kord (Prefetch env n c t) (fun _ => True).
Proof.
  revert c. induction n as [|n IH]; intros c; cbn [Prefetch].
  all: eapply kord_bind; [apply neutral_kord, neutral_master_prefetch|cbn beta; intros x Hx].
  all: eapply kord_bind with (Q := in_width 64).
  1,3: destruct (st_leb _ _); apply neutral_kord; [by apply neutral_next_prefetch|].
  1,2: intros h Hh; apply wpe_ret; split_and!; [done|done|..]; unfold in_width, INVALID_ADDRESS; lia.
  all: intros a Ha; kords.
Qed.
#[local] Hint Resolve kord_Prefetch : kord.
Lemma kord_resume_prefetch o : in_width 64 (po_address o) -> kord (resume_prefetch env o) (fun _ => True).
Proof. intros Ha. unfold resume_prefetch. kords. Qed.

Lemma neutral_accessCache c op a off buf n u : 0 <= n -> neutral (accessCache env c op a off buf n u) (fun _ => True).
Proof.
  intros Hn. assert (in_width 64 (u64 (a + off))) as Ha by (apply wrap_range; lia). unfold accessCache.
  destruct op; [by apply neutral_access; [..|intros; neut]|by apply neutral_access; [..|intros; neut]|neut].
Qed.
#[local] Hint Resolve neutral_accessCache : neut.

Lemma kord_finish o hit ph w p : 0 <= mo_length o -> kord (finish_memop env o hit ph w p) (fun _ => True).
Proof.
  intros Hn. unfold finish_memop. eapply kord_bind; [apply neutral_kord, neutral_params|intros k _].
  eapply kord_bind with (Q := fun _ => True).
  - destruct (p_next k) as [next|]; [|kords]. destruct (e_get_owner env); [|kords]. destruct (_ && _); [|kords].
    apply neutral_kord. apply neutral_usage; try (intros b; unfold updateUsage, updateUsage_mask; reflexivity). intros nb b. neut.
  - intros _ _. kords.
Qed.
#[local] Hint Resolve kord_finish : kord.

(** An access of a core through a first-level cache *)
Definition memop_ok (o : MemOp) : Prop := pending_ok (PendingMemOp o).

Lemma kord_fill_memop o w : memop_ok o -> kord (fill_memop env o w) (fun _ => True).
Proof. intros (Ha & Hn & k & next & Hk & Hnx). unfold fill_memop. kords. Qed.
#[local] Hint Resolve kord_fill_memop : kord.
Lemma kord_resume_memop o : memop_ok o -> kord (resume_memop env o) (fun _ => True).
Proof. intros Ho. pose proof Ho as (Ha & _). unfold resume_memop. kords. Qed.
Lemma kord_memop_hit o p : memop_ok o -> kord (memop_hit env o p) (fun _ => True).
Proof. intros (Ha & Hn & k & next & Hk & Hnx). unfold memop_hit. kords. Qed.
Lemma kord_memop_miss o : memop_ok o -> kord (memop_miss env o) (fun _ => True).
Proof.
  intros (Ha & Hn & k & next & Hk & Hnx). unfold memop_miss. eapply kord_bind; [apply neutral_kord, neutral_params|].
  cbn beta. intros k' Hk'. simplify_eq. rewrite Hnx.
  assert (forall t t', memop_ok (mkMemOp (mo_cntlr o) (mo_lock o) (mo_type o) (mo_address o) (mo_offset o) (mo_data o) (mo_length o)
            (mo_modeled o) (mo_count o) (mo_t_start o) t t')) as Ho by (intros; split_and!; cbn; eauto; apply Ha).
  kords; first [by apply kord_fill_memop|apply neutral_kord, neutral_wait, Ho].
Qed.
#[local] Hint Resolve kord_resume_memop kord_memop_hit kord_memop_miss kord_resume_prefetch : kord.

Lemma kord_processMemOp c k next lk op a off buf n md cnt :
  t_params T !! c = Some k -> p_next k = Some next -> in_width 64 a -> 0 <= n ->
  kord (processMemOpFromCore env c lk op a off buf n md cnt) (fun _ => True).
Proof.
  intros Hk Hnx Ha Hn. unfold processMemOpFromCore. do 2 (eapply kord_bind; [kord_leaf|intros _ _]).
  eapply kord_bind; [apply neutral_kord, neutral_params|]. cbn beta. intros k' Hk'. simplify_eq.
  destruct (tl_plain Htwo c k Hk) as [-> ->]. eapply kord_bind; [kord_leaf|intros t _].
  assert (memop_ok (mkMemOp c lk op a off buf n md cnt t 0 0)) as Ho by (split_and!; cbn; eauto; apply Ha).
  eapply kord_bind; [kord_leaf|intros b _]. eapply kord_bind; [kord_leaf|intros p _]. rewrite !andb_false_r.
  eapply kord_bind with (Q := fun _ => True); [kords|intros [hit q] _]. eapply kord_bind with (Q := fun _ => True); [kords|intros _ _].
  destruct hit; [by apply kord_memop_hit|by apply kord_memop_miss].
Qed.

(** *** Messages from the directory *)

Lemma kord_wakeUp core : kord (wakeUpUserThread env core) (fun _ => True).
Proof.
  intros h (Hh & Hl & Ho). unfold wakeUpUserThread. apply wpe_bind, wpe_gets. destruct (h_pending h !! core) as [w|] eqn:Ew; [|apply any_error].
  assert (pending_ok w) as Hw by (destruct Hh as (_ & _ & _ & Hp); by eapply Hp). apply wpe_bind, wpe_modify.
  set (h' := with_h_pending _ h). assert (ok h') as Hok.
  { split; [|done]. destruct Hh as (H1 & H2 & H3 & H4). do 3 (split; [done|]). cbn. by apply map_Forall_delete. }
  destruct w as [o|o]; [by apply kord_resume_memop|by apply kord_resume_prefetch].
Qed.
#[local] Hint Resolve kord_wakeUp : kord.

Lemma kord_serve_waiter c a w r : top c -> in_width 64 a -> kord (serve_waiter env c a w r) (fun _ => True).
Proof. intros Htop Ha. unfold serve_waiter. kords. Qed.
#[local] Hint Resolve kord_serve_waiter : kord.
Lemma kord_serve_waiters n c a w : top c -> in_width 64 a -> kord (serve_waiters env n c a w) (fun _ => True).
Proof. intros Htop Ha. induction n as [|n IH]; cbn [serve_waiters]; kords. Qed.
#[local] Hint Resolve kord_serve_waiters : kord.

Lemma neutral_msg_time c m r : neutral (msg_time c m r) (fun _ => True).
Proof. unfold msg_time. neut. Qed.
#[local] Hint Resolve neutral_msg_time : neut.
#[local] Hint Resolve kord_update_top : kord.

Lemma kord_handleMsg n c k sender msg :
  t_params T !! c = Some k -> p_next k = None -> in_width 64 (dm_address msg) ->
  kord (handleMsgFromDramDirectory env n c sender msg) (fun _ => True).
Proof.
  intros Hk Hn Ha. pose proof (top_next c k Hk Hn) as Htop. pose proof (level_lt _ _ _ Hlevels c k Hk).
  assert (level c <= e_levels env)%nat as Hlev by lia.
  assert (forall a new r want th, in_width 64 a -> kord (updateCacheBlock env (e_levels env) c a new r want th) (fun _ => True)) as Hupd
    by (intros; by apply kord_update_top).
  unfold handleMsgFromDramDirectory. eapply kord_bind; [kord_leaf|intros x _].
  destruct (dm_type msg); try apply kord_fail.
  all: try (unfold processInvReqFromDramDirectory, processFlushReqFromDramDirectory, processWbReqFromDramDirectory; kords; done).
  all: eapply kord_bind; [kord_leaf|intros rq _]; eapply kord_bind; [kord_leaf|intros kr _].
  all: eapply kord_bind with (Q := fun _ => True); [|intros _ _; by apply kord_serve_waiters].
  all: unfold processExRepFromDramDirectory, processShRepFromDramDirectory, processUpgradeRepFromDramDirectory; kords.
Qed.

(** What the directory asks for: the line leaves all caches, or is left readable in all of them. *)
Definition requested (t : msg_t) : option cstate_t :=
  match t with INV_REQ | FLUSH_REQ => Some INVALID | WB_REQ => Some SHARED | _ => None end.

Lemma wpe_directory_request n c k sender msg new h :
  hier_ok h -> live h -> t_params T !! c = Some k -> in_width 64 (dm_address msg) -> requested (dm_type msg) = Some new ->
  wpe E (handleMsgFromDramDirectory env n c sender msg)
    (fun _ h' => hier_ok h' /\ ((same_view h h' /\ forall s, ~ cached h c (dm_address msg) s) \/
                                (same_view h h' /\ new = SHARED /\ cached h c (dm_address msg) SHARED_UPGRADING) \/
                                (live h' /\ settled h' c (line (dm_address msg)) new))) h.
Proof.
  intros Hh Hl Hk Ha Hreq. pose proof (level_lt _ _ _ Hlevels c k Hk) as Hlt.
  unfold handleMsgFromDramDirectory. eapply keepsE_use; [done|neut_leaf|]. intros x h0 Hh0 V0 _.
  assert (forall s, cached h0 c (dm_address msg) s <-> cached h c (dm_address msg) s) as Hc0
    by (intros s; unfold cached; by setoid_rewrite (same_view_state _ _ _ _ _ V0)).
  pose proof (live_same _ _ V0 Hl) as Hl0.
  assert (forall th r want (A : Type) (f : Z * bool * option (list Z) -> M A) h1, hier_ok h1 -> live h1 ->
    (forall y, neutral (f y) (fun _ => True)) ->
    wpe E (y ← updateCacheBlock env (e_levels env) c (dm_address msg) new r want th; f y)
      (fun _ h' => hier_ok h' /\ live h' /\ settled h' c (line (dm_address msg)) new) h1) as Hupd.
  { intros th r want A f h1 Hh1 Hl1 Hf. eapply wpe_bind, wpe_mono; [apply wpe_updateCacheBlock; [done..|lia]|done|].
    intros y h2 (Hh2 & V2 & Hs2). eapply wpe_tail; [done|apply Hf|]. intros h3 V3 Hh3.
    split_and!; [done|eapply live_same; [done|by eapply moves_live]|by eapply settled_same]. }
  destruct (dm_type msg) eqn:Et; try done; injection Hreq as <-;
    unfold processInvReqFromDramDirectory, processFlushReqFromDramDirectory, processWbReqFromDramDirectory;
    apply wpe_bind, wpe_getCacheState; try done; intros s Hs.
  all: case_bool_decide as Es; [subst s; assert (forall s, ~ cached h c (dm_address msg) s) as Hno
    by (intros s Hs'; apply Hc0 in Hs'; destruct Hs as [(m & _ & Hs)|[_ Hs]]; [by apply Hl0 in Hs|by apply (Hs s)]);
    eapply wpe_tail; [done|neut|]; intros h1 V1 Hh1; split; [done|]; left; split; [by etrans|done]|].
  all: eapply keepsE_use; [done|neut_leaf|]; intros _ h1 Hh1 V1 _; eapply keepsE_use; [done|neut_leaf|]; intros _ h2 Hh2 V2 _.
  all: pose proof (live_same _ _ V2 (live_same _ _ V1 Hl0)) as Hl2.
  1,2: eapply wpe_mono; [apply Hupd; [done|done|intros [[? ?] ?]; neut]|done|]; naive_solver.
  case_bool_decide as Eu.
  - apply wpe_bind, wpe_ret. eapply wpe_tail; [done|neut|]. intros h3 V3 Hh3. split; [done|]. right. left. split_and!; [by repeat (etrans; [eassumption|])|done|].
    subst s. destruct Hs as [Hs|[? _]]; [by apply Hc0|done].
  - eapply wpe_bind, wpe_mono; [apply Hupd; [done|done|intros [[? ?] ?]; neut]|done|]. intros buf h3 (Hh3 & Hl3 & Hs3).
    eapply wpe_tail; [done|neut|]. intros h4 V4 Hh4. split; [done|]. right. right. split; [by eapply live_same|by eapply settled_same].
Qed.

(** The update of a line that the cache does not have, with [out_buf], cannot succeed: the buffer is never written. *)
Lemma wpe_update_absent n c a new r th h :
  hier_ok h -> live h -> in_width 64 a -> (level c <= n)%nat -> (forall s, ~ cached h c a s) ->
  wpe E (updateCacheBlock env n c a new r true th) (fun _ _ => False) h.
Proof.
  intros Hh Hl Ha Hn Hno.
  assert (forall hit h1, hier_ok h1 -> (forall s, ~ cached h1 c a s) -> wpe E (update_here env c a new r true th hit) (fun _ _ => False) h1) as Hhere.
  { intros hit h1 Hh1 Hno1. unfold update_here. eapply keepsE_use; [done|apply reads_params|]. intros k h' _ <- Hk.
    apply wpe_bind, wpe_getCacheBlockInfo; [done..|]. intros p [Hp|[-> _]].
    { destruct (points_cached _ _ _ _ Hh1 Ha Hp) as [s Hs]. by apply Hno1 in Hs. }
    eapply keepsE_use; [done|neut_leaf|]. intros s h2 Hh2 _ _. apply wpe_bind, wpe_ret.
    eapply keepsE_use; [done|neut_leaf|]. intros s1 h3 Hh3 _ _. eapply keepsE_use; [done|neut_leaf|]. intros _ h4 Hh4 _ _.
    eapply keepsE_use; [done|neut_leaf|]. intros s2 h5 Hh5 _ _. eapply keepsE_use; [done|neut_leaf|]. intros _ h6 Hh6 _ _.
    by apply (HE AssertFailed). }
  destruct n as [|n]; cbn [updateCacheBlock].
  all: eapply keepsE_use; [done|neut_leaf|]; intros _ h0 Hh0 V0 _.
  all: eapply keepsE_use; [done|apply neutral_master|]; intros x h1 Hh1 V1 (_ & _ & Hp).
  all: assert (same_view h h1) as V by (by etrans).
  all: assert (live h1) as Hl1 by (by eapply live_same).
  all: assert (forall s, ~ cached h1 c a s) as Hno1 by (intros s (m & Hm & Hs); apply (Hno s); exists m; split; [done|]; by apply (same_view_state _ _ _ _ _ V)).
  - destruct (ms_prev x) as [|p l]; [apply wpe_bind, wpe_ret; by apply Hhere|].
    pose proof (level_prev _ _ _ Hlevels c p). rewrite Hp in *. set_solver by lia.
  - eapply wpe_bind, wpe_mono; [eapply (wpe_for_prevs (pbelow c) (line a) new); [done|done|intros p m Hin; rewrite <- Hp in Hin; by exists p|]|done|].
    + intros p h' Hin Hh' Hl'. rewrite <- Hp in Hin. pose proof (level_prev _ _ _ Hlevels c p Hin).
      eapply wpe_bind, wpe_mono; [apply wpe_updateCacheBlock; [done..|lia]|done|]. intros [[t ht] o] h2 ?. by apply wpe_ret.
    + intros [lat hit] h2 (Hh2 & (V2 & _) & _). apply Hhere; [done|]. intros s (m & Hm & Hs). apply V2 in Hs; [|right; by apply not_pbelow_self].
      apply (Hno1 s). by exists m.
Qed.

Lemma wpe_upgrade_absent n c k sender msg h :
  hier_ok h -> live h -> t_params T !! c = Some k -> in_width 64 (dm_address msg) -> dm_type msg = UPGRADE_REP ->
  (forall s, ~ cached h c (dm_address msg) s) ->
  wpe E (handleMsgFromDramDirectory env n c sender msg) (fun _ _ => False) h.
Proof.
  intros Hh Hl Hk Ha Ht Hno. pose proof (level_lt _ _ _ Hlevels c k Hk) as Hlt. unfold handleMsgFromDramDirectory. rewrite Ht.
  eapply keepsE_use; [done|neut_leaf|]. intros x h0 Hh0 V0 _. eapply keepsE_use; [done|neut_leaf|]. intros rq h1 Hh1 V1 _.
  eapply keepsE_use; [done|neut_leaf|]. intros kr h2 Hh2 V2 _. assert (same_view h h2) as V by (etrans; [done|]; by etrans).
  apply wpe_bind. unfold processUpgradeRepFromDramDirectory. apply wpe_bind, wpe_getCacheState; [done..|]. intros s Hs.
  assert (forall s, ~ cached h2 c (dm_address msg) s) as Hno2
    by (intros s' (m & Hm & Hs'); apply (Hno s'); exists m; split; [done|]; by apply (same_view_state _ _ _ _ _ V)).
  destruct Hs as [Hs|[-> _]]; [by apply Hno2 in Hs|]. eapply keepsE_use; [done|neut_leaf|]. intros _ h3 Hh3 V3 _.
  eapply wpe_bind, wpe_mono; [apply wpe_update_absent; [done|by eapply live_same, live_same|done|lia|]|done|done].
  intros s' (m & Hm & Hs'). apply (Hno2 s'). exists m. split; [done|]. by apply (same_view_state _ _ _ _ _ V3).
Qed.
End inclusion.

(** A null pointer from [getCacheBlockInfo] *)
Lemma peek_none_absent {P I D} `{!ReplacementPolicy P I, !ReplacementPolicyOk P I} T L c a (h h' : Hier (P := P) (I := I) (D := D)) :
  hier_ok T L h -> in_width 64 a -> getCacheBlockInfo c a h = Ok (None, h') -> forall s, ~ cached T L h c a s.
Proof.
  intros Hh Ha H. assert (wpe (fun _ => True) (getCacheBlockInfo c a) (fun p _ => p = None -> forall s, ~ cached T L h c a s) h) as Hw.
  { apply (wpe_getCacheBlockInfo T L); [done..|]. intros p [(i & w & m & s & -> & _)|[_ Hno]] Hp; [done|]. by apply Hno. }
  by apply (wpe_ok _ _ _ _ _ _ Hw H).
Qed.
