(* ===== verification/MemoryManager.v ===== *)
(** * The memory manager of the cores' side

    Models parametric_dram_directory_msi/memory_manager.{h,cc} as far as it
    concerns caches and TLBs: the construction of the hierarchy of every core with
    the constructor of CacheCntlr, the access of a core through its TLB, and the
    delivery of messages from the directory.  The directory and DRAM sides are
    modelled with their controllers (DramDirectoryCntlr, DramCntlr). *)

From stdpp Require Import gmap.
From S2P Require Import Prelude StateMonad Utils SubsecondTime AddressHomeLookup DirectoryEntry ReqQueueList ShmemPerf ContentionModel Prefetcher DramDirectoryCntlr DramCntlr CacheBlockInfo CacheSet CachePolicy FaultInjection Cache TLB ATD CachePerfModel CacheCntlr.

(** ** CacheParameters *)

(** The parameters of one level, with the settings that the controller reads itself under the same
    configuration name. *)
Record CacheParameters := mkCacheParams {
  cp_size : Z;                     (* KB *)
  cp_num_sets : Z;
  cp_associativity : Z;
  cp_hash_function : string;
  cp_replacement_policy : string;
  cp_perfect : bool;
  cp_coherent : bool;
  cp_data_access_time : ComponentLatency;
  cp_tags_access_time : ComponentLatency;
  cp_writeback_time : ComponentLatency;
  cp_next_level_read_bandwidth : ComponentBandwidthPerCycle;
  cp_perf_model_type : string;
  cp_writethrough : bool;
  cp_shared_cores : Z;
  cp_prefetcher : string;
  cp_outstanding_misses : Z;
  cp_passthrough : bool;
  cp_prefetch_on_prefetch_hit : bool;
  cp_prefetch_cfg : PrefetchCfg;
  cp_atd : option ATDCfg
}.

(** [num_sets] and the check of the constructor *)
Definition cache_num_sets (size assoc block_size : Z) : res Z :=
  let way := u32 (assoc * block_size) in
  if way =? 0 then Err DivByZero else
  let num_sets := u32 (1024 * size) / way in
  _ ← assert_ (u32 (1024 * size) =? u32 (num_sets * assoc * block_size));
  Ok num_sets.

Definition with_num_sets (n : Z) (p : CacheParameters) : CacheParameters :=
  mkCacheParams (cp_size p) n (cp_associativity p) (cp_hash_function p) (cp_replacement_policy p) (cp_perfect p) (cp_coherent p)
    (cp_data_access_time p) (cp_tags_access_time p) (cp_writeback_time p) (cp_next_level_read_bandwidth p) (cp_perf_model_type p)
    (cp_writethrough p) (cp_shared_cores p) (cp_prefetcher p) (cp_outstanding_misses p) (cp_passthrough p)
    (cp_prefetch_on_prefetch_hit p) (cp_prefetch_cfg p) (cp_atd p).

(** ** Construction *)

Section MemoryManager.
Context {D : Type} `{!DramCntlrInterface D} (env : CacheEnv) (pcfg : PolicyCfg) (manager : option FaultinjectionManager).
Local Abbreviation M := (ST (Hier (P := AnyPolicy) (I := AnyInfo) (D := D))).

(** The caches of a core, L1_ICACHE to the last level, in order of construction; every core has as many. *)
Definition FIRST_LEVEL_CACHE : Z := 2.
Definition cntlr_at (last : Z) (core component : Z) : nat :=
  Z.to_nat (core * (last - FIRST_LEVEL_CACHE + 1) + (component - FIRST_LEVEL_CACHE)).

Fixpoint createATDs (n : nat) (cfg : ATDCfg) (p : CacheParameters) (hash : hash_t) : res (list (ATD AnyPolicy AnyInfo)) :=
  match n with
  | O => Ok []
  | S n =>
      a ← ATD_new pcfg cfg (cp_num_sets p) (Z.to_nat (cp_associativity p)) (e_block_size env) (cp_replacement_policy p) hash
            (bool_decide (is_Some manager));
      l ← createATDs n cfg p hash; Ok (a :: l)
  end.

(** CacheMasterCntlr *)
Definition Master_new (core_id component : Z) (p : CacheParameters) : res (Master (P := AnyPolicy) (I := AnyInfo) (D := D)) :=
  hash ← parseAddressHash (cp_hash_function p);
  cache ← Cache_new pcfg (cp_num_sets p) (Z.to_nat (cp_associativity p)) (e_block_size env) (cp_replacement_policy p) SHARED_CACHE hash
            ((fun f => getFaultInjector f core_id component) <$> manager) (bool_decide (is_Some manager)) None;
  prefetcher ← createPrefetcher (cp_prefetch_cfg p) (cp_prefetcher p) core_id (cp_shared_cores p);
  atds ← match cp_atd p with Some cfg => createATDs (Z.to_nat (cp_shared_cores p)) cfg p hash | None => Ok [] end;
  Ok (mkMaster cache [] prefetcher None None ∅ (ContentionModel_new None (Z.to_nat (cp_outstanding_misses p))) (ContentionModel_new None 1)
        ∅ 0 None atds [] Zero).

(** The constructor of a controller; the performance model is created by the memory manager. *)
Definition CacheCntlr_new (last core_id component : Z) (p : CacheParameters) : M unit :=
  if cp_shared_cores p =? 0 then fail DivByZero else
  let core_id_master := core_id - core_id mod cp_shared_cores p in
  _ ← (if component =? last then assertM (negb (cp_passthrough p)) else mret tt);
  index ← (if core_id =? core_id_master then
             m ← lift_res (Master_new core_id component p);
             l ← gets h_masters;
             _ ← modify (fun h => with_h_masters (l ++ [m]) h);
             mret (length l)
           else k ← params (cntlr_at last core_id_master component); mret (p_master k));
  l ← gets h_masters;
  m ← lift_res (aget l index);
  perf ← lift_res (CachePerfModel_create (cp_perf_model_type p) (cp_data_access_time p) (cp_tags_access_time p));
  let params := mkParams component core_id core_id_master index None (cp_perfect p) (cp_passthrough p) (cp_coherent p)
                  (bool_decide (is_Some (ms_prefetcher m)) && cp_prefetch_on_prefetch_hit p) (0 <? cp_outstanding_misses p)
                  (cp_writethrough p) (cp_writeback_time p) (cp_next_level_read_bandwidth p) (cp_shared_cores p) in
  let c := mkCntlrObj params (fun _ => 0) perf HW_UNKNOWN ShmemPerf_new
             (if component =? last then Some ShmemPerf_new else None) Zero 0 in
  modify (fun h => with_h_cntlrs (h_cntlrs h ++ [c]) h).

Definition set_next (next : option nat) (k : CntlrParams) : CntlrParams :=
  mkParams (m_mem_component k) (p_core_id k) (p_core_id_master k) (p_master k) next (m_perfect k) (m_passthrough k) (m_coherent k)
    (p_prefetch_on_prefetch_hit k) (m_l1_mshr k) (m_cache_writethrough k) (m_writeback_time k) (m_next_level_read_bandwidth k)
    (m_shared_cores k).
Definition setNextCacheCntlr (c next : nat) : M unit := upd_cntlr c (fun k => with_cc_cfg (set_next (Some next) (cc_cfg k)) k).

(** Only controllers that are masters are previous levels. *)
Fixpoint setPrevCacheCntlrs (c : nat) (prevs : list nat) : M unit :=
  match prevs with
  | [] => mret tt
  | p :: prevs =>
      k ← params p;
      _ ← (if p_core_id k =? p_core_id_master k then upd_master c (fun m => with_ms_prev (ms_prev m ++ [p]) m) else mret tt);
      setPrevCacheCntlrs c prevs
  end.

Definition setDRAMDirectAccess (c : nat) (dram : D) (num_outstanding : nat) : M unit :=
  upd_master c (fun m => with_ms_writebacks (Some (ContentionModel_new None num_outstanding)) (with_ms_dram (Some dram) m)).

(** The loops of the constructor over the components of one core. *)
Fixpoint create_levels (last core_id component : Z) (levels : list CacheParameters) : M unit :=
  match levels with
  | [] => mret tt
  | p :: levels =>
      n ← lift_res (cache_num_sets (cp_size p) (cp_associativity p) (e_block_size env));
      _ ← CacheCntlr_new last core_id component (with_num_sets n p);
      create_levels last core_id (component + 1) levels
  end.
Fixpoint link_levels (n : nat) (last core_id component : Z) : M unit :=
  match n with
  | O => mret tt
  | S n =>
      let c := cntlr_at last core_id component in
      let next := cntlr_at last core_id (component + 1) in
      _ ← setNextCacheCntlr c next;
      _ ← setPrevCacheCntlrs next [c];
      link_levels n last core_id (component + 1)
  end.

Definition MemoryManager_new (last core_id : Z) (levels : list CacheParameters) : M unit :=
  _ ← create_levels last core_id FIRST_LEVEL_CACHE levels;
  let l2 := cntlr_at last core_id L2_CACHE in
  let icache := cntlr_at last core_id L1_ICACHE in
  let dcache := cntlr_at last core_id L1_DCACHE in
  _ ← setNextCacheCntlr icache l2;
  _ ← setNextCacheCntlr dcache l2;
  _ ← setPrevCacheCntlrs l2 [icache; dcache];
  _ ← link_levels (Z.to_nat (last - L2_CACHE)) last core_id L2_CACHE;
  modify (fun h => with_h_clocks (h_clocks h ++ [ShmemPerfModel_new]) h).

(** All cores, in order; with [dram], the last-level cache of core 0 accesses DRAM directly. *)
Fixpoint create_cores (n : nat) (last core_id : Z) (levels : list CacheParameters) : M unit :=
  match n with
  | O => mret tt
  | S n => _ ← MemoryManager_new last core_id levels; create_cores n last (core_id + 1) levels
  end.
Definition Hier_new (cores : nat) (levels : list CacheParameters) (dram : option (D * nat)) : res (Hier (P := AnyPolicy) (I := AnyInfo) (D := D)) :=
  let last := FIRST_LEVEL_CACHE + Z.of_nat (length levels) - 1 in
  '(_, h) ← (_ ← create_cores cores last 0 levels;
             match dram with
             | Some (d, n) => setDRAMDirectAccess (cntlr_at last 0 last) d n
             | None => mret tt
             end) (mkHier [] [] [] ∅ []);
  Ok h.

(** ** enableModels and disableModels of one core *)

Fixpoint set_models (b : bool) (n c : nat) : M unit :=
  match n with
  | O => mret tt
  | S n =>
      _ ← upd_master c (fun m => with_ms_cache (set_enabled (ms_cache m) b) m);
      _ ← upd_cntlr c (fun k => with_cc_perf_model (pm_set_enabled b (cc_perf_model k)) k);
      set_models b n (S c)
  end.

(** ** Accesses and messages *)

(** Core::MemModeled *)
Inductive MemModeled :=
  MEM_MODELED_NONE | MEM_MODELED_COUNT | MEM_MODELED_COUNT_TLBTIME | MEM_MODELED_TIME | MEM_MODELED_FENCED | MEM_MODELED_RETURN.

(** The TLBs of a core; the second level is shared by both. *)
Record Tlbs := mkTlbs {
  m_itlb : option (TLB AnyPolicy AnyInfo);
  m_dtlb : option (TLB AnyPolicy AnyInfo);
  m_stlb : option (TLB AnyPolicy AnyInfo)
}.
Definition tlb_list (t : TLB AnyPolicy AnyInfo) (s : option (TLB AnyPolicy AnyInfo)) : list (TLB AnyPolicy AnyInfo) :=
  t :: match s with Some s => [s] | None => [] end.

(** The lookup of the TLB of an access: whether it missed, and the TLBs afterwards. *)
Definition lookup_tlbs (t : Tlbs) (component address : Z) : res (bool * Tlbs) :=
  if (component =? L1_ICACHE) && bool_decide (is_Some (m_itlb t)) then
    match m_itlb t with
    | Some i =>
        '(hit, l) ← lookup_tlb (tlb_list i (m_stlb t)) address true;
        Ok (negb hit, mkTlbs (l !! 0%nat) (m_dtlb t) (l !! 1%nat))
    | None => Ok (false, t)
    end
  else if component =? L1_DCACHE then
    match m_dtlb t with
    | Some d =>
        '(hit, l) ← lookup_tlb (tlb_list d (m_stlb t)) address true;
        Ok (negb hit, mkTlbs (m_itlb t) (l !! 0%nat) (l !! 1%nat))
    | None => Ok (false, t)
    end
  else Ok (false, t).

Definition is_timed (modeled : MemModeled) : bool :=
  match modeled with MEM_MODELED_NONE | MEM_MODELED_COUNT => false | _ => true end.

(** coreInitiateMemoryAccess; the result is the latency of the TLBMissInstruction that is queued. *)
Definition coreInitiateMemoryAccess (last : Z) (penalty : Z) (parallel : bool) (core component : Z) (lock_signal : lock_signal_t)
    (op : mem_op_t) (address offset : Z) (data_buf : option (list Z)) (data_length : Z) (modeled : MemModeled) (t : Tlbs)
  : M (option Z * Tlbs) :=
  _ ← assertM (component <=? last);
  let c := cntlr_at last core component in
  '(miss, t) ← lift_res (lookup_tlbs t component address);
  queued ← (if miss && is_timed modeled && st_neb penalty Zero then
              if parallel then _ ← incr_time c penalty USER_THREAD; mret None else mret (Some penalty)
            else mret None);
  _ ← processMemOpFromCore env c lock_signal op address offset data_buf data_length (is_timed modeled)
        (match modeled with MEM_MODELED_NONE => false | _ => true end);
  mret (queued, t).

(** A packet for the last-level cache of a core: [queue_delay] is what the network reports of it. *)
Definition receive (fuel : nat) (last core : Z) (packet_time queue_delay sender : Z) (msg : DirMsg) : M unit :=
  let c := cntlr_at last core last in
  _ ← set_time c SIM_THREAD packet_time;
  _ ← match dm_perf msg with
      | Some p => upd_cntlr p (fun k => with_cc_shmem_perf (updatePacket (cc_shmem_perf k) packet_time queue_delay) k)
      | None => mret tt
      end;
  handleMsgFromDramDirectory env fuel c sender msg.
End MemoryManager.
