(* ===== verification/CacheMachine.v ===== *)
(** * Machines of two cache levels

    The machines that the memory manager builds, run on any sequence of accesses
    of the cores and of messages from the directory: inclusion holds whenever no
    operation is running, and what the directory asks for happens in every cache
    below.  The last part runs small machines that lose a write. *)

From stdpp Require Import gmap.
From S2P Require Import Prelude StateMonad Utils SubsecondTime AddressHomeLookup DirectoryEntry ReqQueueList ShmemPerf ContentionModel Prefetcher DramDirectoryCntlr DramCntlr CacheBlockInfo CacheSet CachePolicy FaultInjection Cache CacheStates TLB ATD CachePerfModel CacheCntlr CacheInclusion MemoryManager.

(** ** The structure of a machine *)

Definition topology {P I D} (h : Hier (P := P) (I := I) (D := D)) : Topology := mkTopology (cc_cfg <$> h_cntlrs h) (ms_prev <$> h_masters h).

Definition next_of (T : Topology) (c : nat) : option nat := k ← t_params T !! c; p_next k.
Definition cntlrs (T : Topology) : list nat := seq 0 (length (t_params T)).

(** The conditions on one controller, on two that share a cache, and on all. *)
Definition check_one (T : Topology) (c : nat) : bool :=
  match t_params T !! c with
  | Some k =>
      negb (m_perfect k) && negb (m_passthrough k) && m_coherent k &&
      match p_next k with
      | Some next =>
          bool_decide (t_prev T c = []) && bool_decide (is_Some (t_master T next)) && bool_decide (next_of T next = None) &&
          existsb (fun p => bool_decide (t_master T p = t_master T c)) (t_prev T next)
      | None => true
      end &&
      forallb (fun p => match next_of T p with Some next => bool_decide (t_master T next = t_master T c) | None => false end) (t_prev T c)
  | None => true
  end.
Definition check_two (T : Topology) (c d : nat) : bool :=
  if decide (t_master T c = t_master T d) then
    match next_of T c, next_of T d with
    | Some n, Some n' => bool_decide (t_master T n = t_master T n')
    | None, None => true
    | _, _ => false
    end
  else true.
Definition check_two_level (T : Topology) : bool :=
  forallb (check_one T) (cntlrs T) && forallb (fun c => forallb (check_two T c) (cntlrs T)) (cntlrs T).

(** First-level caches are at level 0, last-level caches at level 1. *)
Definition two_levels (T : Topology) (c : nat) : nat := match next_of T c with Some _ => 0 | None => 1 end.

Section check.
Context (T : Topology) (Hc : check_two_level T = true).

Lemma elem_of_cntlrs c k : t_params T !! c = Some k -> c ∈ cntlrs T.
Proof. intros Hk%lookup_lt_Some. unfold cntlrs. apply elem_of_seq. lia. Qed.
Lemma check_one_ok c k : t_params T !! c = Some k -> check_one T c = true.
Proof.
  intros Hk%elem_of_cntlrs. apply andb_true_iff in Hc as [H1 _]. rewrite forallb_forall in H1. by apply H1, list_elem_of_In.
Qed.
Lemma check_two_ok c d k k' : t_params T !! c = Some k -> t_params T !! d = Some k' -> check_two T c d = true.
Proof.
  intros Hk%elem_of_cntlrs Hk'%elem_of_cntlrs. apply andb_true_iff in Hc as [_ H2]. rewrite forallb_forall in H2.
  apply list_elem_of_In in Hk, Hk'. specialize (H2 c Hk). rewrite forallb_forall in H2. by apply H2.
Qed.

Lemma check_next c k next :
  t_params T !! c = Some k -> p_next k = Some next ->
  t_prev T c = [] /\ is_Some (t_master T next) /\ next_of T next = None /\ exists p, p ∈ t_prev T next /\ t_master T p = t_master T c.
Proof.
  intros Hk Hn. pose proof (check_one_ok c k Hk) as H1. unfold check_one in H1. rewrite Hk, Hn in H1.
  rewrite !andb_true_iff, !bool_decide_eq_true in H1. destruct H1 as [[_ [[[? ?] ?] (p & Hp & E)%existsb_exists]] _].
  apply bool_decide_eq_true in E. split_and!; [done..|]. exists p. by rewrite list_elem_of_In.
Qed.
Lemma check_prev c p : p ∈ t_prev T c -> exists k next, t_params T !! p = Some k /\ p_next k = Some next /\ t_master T next = t_master T c.
Proof.
  intros Hp. destruct (t_params T !! c) as [k|] eqn:Hk; [|unfold t_prev, t_master in Hp; rewrite Hk in Hp; by apply elem_of_nil in Hp].
  pose proof (check_one_ok c k Hk) as H1. unfold check_one in H1. rewrite Hk in H1.
  rewrite !andb_true_iff in H1. destruct H1 as [_ H1]. rewrite forallb_forall in H1.
  apply list_elem_of_In in Hp. specialize (H1 p Hp). unfold next_of in H1. destruct (t_params T !! p) as [kp|] eqn:Ep; [|done].
  cbn in H1. destruct (p_next kp) as [next|] eqn:En; [|done]. apply bool_decide_eq_true in H1. eauto.
Qed.
Lemma check_plain c k : t_params T !! c = Some k -> m_perfect k = false /\ m_passthrough k = false /\ m_coherent k = true.
Proof.
  intros Hk. pose proof (check_one_ok c k Hk) as H1. unfold check_one in H1. rewrite Hk in H1.
  rewrite !andb_true_iff, !negb_true_iff in H1. naive_solver.
Qed.
Lemma check_shared c d k k' m :
  t_params T !! c = Some k -> t_params T !! d = Some k' -> t_master T c = Some m -> t_master T d = Some m ->
  match p_next k, p_next k' with Some n, Some n' => t_master T n = t_master T n' | None, None => True | _, _ => False end.
Proof.
  intros Hk Hk' Hm Hm'. pose proof (check_two_ok c d k k' Hk Hk') as H2. unfold check_two in H2.
  rewrite decide_True in H2 by congruence. unfold next_of in H2. rewrite Hk, Hk' in H2. cbn in H2.
  destruct (p_next k), (p_next k'); try done. by apply bool_decide_eq_true in H2.
Qed.

Lemma check_two_level_ok : two_level T.
Proof.
  split.
  - intros c k next Hk Hn. by apply (check_next c k next).
  - intros c k next m Hk Hn Hm. destruct (check_next c k next Hk Hn) as (_ & ? & _ & p & ? & ?). split; [done|]. exists p. split; [done|congruence].
  - apply check_prev.
  - intros c d k k' n n' m Hk Hk' Hn Hn' Hm Hm'. pose proof (check_shared c d k k' m Hk Hk' Hm Hm') as H. by rewrite Hn, Hn' in H.
  - intros c d k k' m Hk Hk' Hm Hm' Hn. pose proof (check_shared c d k k' m Hk Hk' Hm Hm') as H. rewrite Hn in H. by destruct (p_next k').
  - intros c k Hk. by destruct (check_plain c k Hk) as (? & ? & _).
Qed.

Lemma check_levels_ok n : (2 <= n)%nat -> levels_ok T n (two_levels T).
Proof.
  intros Hn. assert (forall c k, t_params T !! c = Some k -> next_of T c = p_next k) as Hno by (intros c k Hk; unfold next_of; by rewrite Hk).
  unfold two_levels. split.
  - intros c k _. destruct (next_of T c); lia.
  - intros c k next Hk Hnx. destruct (check_next c k next Hk Hnx) as (_ & _ & -> & _). by rewrite (Hno c k Hk), Hnx.
  - intros c p Hp. destruct (check_prev c p Hp) as (k & next & Hk & Hnx & _). rewrite (Hno p k Hk), Hnx.
    destruct (next_of T c) as [nc|] eqn:Ec; [|done]. unfold next_of in Ec. destruct (t_params T !! c) as [kc|] eqn:Hkc; [|done]. cbn in Ec.
    destruct (check_next c kc nc Hkc Ec) as (E & _). rewrite E in Hp. by apply elem_of_nil in Hp.
  - intros c d m Hm Hm'. unfold t_master in Hm, Hm'. destruct (t_params T !! c) as [k|] eqn:Hk; [|done].
    destruct (t_params T !! d) as [k'|] eqn:Hk'; [|done]. rewrite (Hno c k Hk), (Hno d k' Hk').
    pose proof (check_shared c d k k' m Hk Hk') as H. unfold t_master in H. rewrite Hk, Hk' in H. specialize (H Hm Hm').
    by destruct (p_next k), (p_next k').
Qed.
End check.

(** ** What the memory manager builds *)

Section build.
Context {D : Type} `{!DramCntlrInterface D} (env : CacheEnv) (pcfg : PolicyCfg) (manager : option FaultinjectionManager).
Context (policy : ReplacementPolicyName) (L : Z) (HL : 1 <= L <= 31) (Hblock : e_block_size env = 2 ^ L).
Local Abbreviation HS := (Hier (P := AnyPolicy) (I := AnyInfo) (D := D)).
#[local] Instance machine_policy_ok : ReplacementPolicyOk AnyPolicy AnyInfo := Any_policy_ok policy.

(** A level of the configuration that can be built, with the replacement policy of the machine *)
Definition level_ok (p : CacheParameters) : Prop :=
  parsePolicyType (cp_replacement_policy p) = Ok policy /\ (0 < Z.to_nat (cp_associativity p) <= 256)%nat /\
  cfg_ok pcfg policy (Z.to_nat (cp_associativity p)) /\
  forall n, cache_num_sets (cp_size p) (cp_associativity p) (e_block_size env) = Ok n -> 0 < n < 2 ^ 32.

(** An empty cache without prefetches *)
Definition fresh (x : Master (P := AnyPolicy) (I := AnyInfo) (D := D)) : Prop :=
  cache_wf (ms_cache x) /\ m_log_blocksize (c_base (ms_cache x)) = L /\ lines (ms_cache x) = ∅ /\ ms_prefetch_list x = [].
Definition built (h : HS) : Prop := Forall fresh (h_masters h) /\ h_pending h = ∅.

Definition builds {A} (m : ST HS A) : Prop := forall h, built h -> wlp m (fun _ h' => built h') h.
Lemma builds_bind {A B} (m : ST HS A) (f : A -> ST HS B) : builds m -> (forall a, builds (f a)) -> builds (mbind f m).
Proof. intros Hm Hf h Hh. eapply wpe_bind, wpe_mono; [by apply Hm|done|]. intros a h' ?. by apply Hf. Qed.
Lemma builds_ret {A} (a : A) : builds (mret a).
Proof. by intros h Hh. Qed.
Lemma builds_gets {A} (f : HS -> A) : builds (gets f).
Proof. by intros h Hh. Qed.
Lemma builds_lift {A} (r : res A) : builds (lift_res r).
Proof. intros h Hh. by apply wlp_lift. Qed.
Lemma builds_assert b : builds (assertM b).
Proof. apply builds_lift. Qed.
Lemma builds_fail {A} e : builds (fail e : ST HS A).
Proof. by intros h Hh. Qed.
Lemma builds_modify f : (forall h, built h -> built (f h)) -> builds (modify f).
Proof. intros Hf h Hh. apply wpe_modify. auto. Qed.
#[local] Hint Resolve builds_ret builds_gets builds_lift builds_assert builds_fail : build.
Ltac build :=
  repeat match goal with
  | |- builds (mbind _ (match ?x with _ => _ end)) => destruct x
  | |- builds (mbind _ _) => apply builds_bind; [|intros ?]
  | |- builds (match ?x with _ => _ end) => destruct x
  | |- builds (modify _) => apply builds_modify; intros ? [? ?]; split; [done|done]
  | |- builds _ => solve [eauto with build]
  end.

Lemma builds_cntlr c : builds (cntlr c).
Proof. unfold cntlr. build. Qed.
Lemma builds_params c : builds (params c).
Proof. unfold params. apply builds_bind; [apply builds_cntlr|]. intros k. build. Qed.
Lemma builds_upd_cntlr c f : builds (upd_cntlr c f).
Proof. unfold upd_cntlr. apply builds_bind; [apply builds_cntlr|]. intros k. build. Qed.
Lemma builds_upd_master c f : (forall x, fresh x -> fresh (f x)) -> builds (upd_master c f).
Proof.
  intros Hf h Hh. unfold upd_master. apply wpe_bind. eapply wpe_mono; [by apply builds_params|done|]. intros k h1 [Hm Hp]. apply wpe_bind.
  unfold master. apply wpe_bind. unfold params, cntlr. apply wlp_intro. intros k' h2 E.
  assert (h2 = h1) as ->.
  { revert E. unfold mbind, st_bind, gets, lift_res, mret, st_ret. cbn. by destruct (aget (h_cntlrs h1) c); intros [= _ <-]. }
  apply wpe_bind, wpe_gets, wlp_lift. intros x Hx. apply wpe_modify. split; [|done]. cbn.
  unfold aget in Hx. destruct (h_masters h1 !! p_master k') as [y|] eqn:Ey; [|done]. simplify_eq.
  apply Forall_insert; [done|]. apply Hf. by eapply Forall_lookup_1.
Qed.
#[local] Hint Resolve builds_cntlr builds_params builds_upd_cntlr : build.

Lemma fresh_Master_new core comp p x n :
  level_ok p -> cache_num_sets (cp_size p) (cp_associativity p) (e_block_size env) = Ok n ->
  Master_new env pcfg manager core comp (with_num_sets n p) = Ok x -> fresh x.
Proof.
  intros (Hp & Ha & Hc & Hn) En H. unfold Master_new in H. cbn in H. res_inv H. simplify_eq.
  rewrite Hblock in *. assert (a <> INVALID_HASH_TYPE) as Hh.
  { unfold parseAddressHash in E. intros ->. by repeat destruct (bool_decide _). }
  destruct (Cache_new_wf pcfg n (Z.to_nat (cp_associativity p)) L (cp_replacement_policy p) policy SHARED_CACHE a _ _ None a0
    HL (Hn n En) Ha Hh I Hp Hc E0) as (Hwf & Hl & _ & _ & Hlog). done.
Qed.

Lemma builds_cntlr_new last core comp p n :
  level_ok p -> cache_num_sets (cp_size p) (cp_associativity p) (e_block_size env) = Ok n ->
  builds (CacheCntlr_new (D := D) env pcfg manager last core comp (with_num_sets n p)).
Proof.
  intros Hp Hn. unfold CacheCntlr_new. destruct (_ =? 0); [build|]. apply builds_bind; [build|intros _].
  apply builds_bind; [|intros i; build]. destruct (core =? _); [|build].
  intros h [Hm Hpe]. apply wpe_bind, wlp_lift. intros x Hx. apply wpe_bind, wpe_gets, wpe_bind, wpe_modify, wpe_ret.
  split; [|done]. cbn. apply Forall_app. split; [done|]. constructor; [|constructor]. by eapply fresh_Master_new.
Qed.

Lemma fresh_prev x l : fresh x -> fresh (with_ms_prev l x).
Proof. by intros (? & ? & ? & ?). Qed.
Lemma builds_prevs c l : builds (setPrevCacheCntlrs (D := D) c l).
Proof.
  induction l as [|p l IH]; cbn [setPrevCacheCntlrs]; [build|]. apply builds_bind; [build|intros k].
  apply builds_bind; [|done]. destruct (_ =? _); [|build]. apply builds_upd_master. intros x. apply fresh_prev.
Qed.
#[local] Hint Resolve builds_prevs : build.
Lemma builds_levels last core comp levels :
  Forall level_ok levels -> builds (create_levels (D := D) env pcfg manager last core comp levels).
Proof.
  intros Hl. revert comp. induction Hl as [|p levels Hp _ IH]; intros comp; cbn [create_levels]; [build|].
  intros h Hh. apply wpe_bind, wlp_lift. intros n Hn. revert h Hh. apply builds_bind; [by apply builds_cntlr_new|]. intros _. apply IH.
Qed.
Lemma builds_link n last core comp : builds (link_levels (D := D) n last core comp).
Proof.
  revert comp. induction n as [|n IH]; intros comp; cbn [link_levels]; [build|]. unfold setNextCacheCntlr.
  apply builds_bind; [build|intros _]. apply builds_bind; [build|intros _]. apply IH.
Qed.
#[local] Hint Resolve builds_link : build.
Lemma builds_cores n last core levels :
  Forall level_ok levels -> builds (create_cores (D := D) env pcfg manager n last core levels).
Proof.
  intros Hl. revert core. induction n as [|n IH]; intros core; cbn [create_cores]; [build|].
  apply builds_bind; [|intros _; apply IH]. unfold MemoryManager_new, setNextCacheCntlr. apply builds_bind; [by apply builds_levels|intros _]. build.
Qed.

Lemma Hier_new_built cores levels dram h : Forall level_ok levels -> Hier_new (D := D) env pcfg manager cores levels dram = Ok h -> built h.
Proof.
  intros Hl H. unfold Hier_new in H. res_inv H. destruct a as [[] h']. simplify_eq.
  match goal with E : ?m ?h0 = Ok (tt, h) |- _ => assert (wlp m (fun _ h' => built h') h0) as Hm end.
  { revert E. intros _. apply (builds_bind (create_cores env pcfg manager cores _ 0 levels)); [by apply builds_cores| |by split].
    intros _. destruct dram as [[d n]|]; [|build]. unfold setDRAMDirectAccess. apply builds_upd_master. by intros x (? & ? & ? & ?). }
  exact (wpe_ok _ _ _ _ _ _ Hm E).
Qed.

Lemma built_empty h m t s : built h -> ~ hstate h m t s.
Proof.
  intros [Hm _] Hs. destruct (h_masters h !! m) as [x|] eqn:Ex.
  - pose proof (hstate_holds _ _ _ _ _ Ex Hs) as Hh. eapply Forall_lookup_1 in Hm as (_ & _ & Hl & _); [|done].
    assert (t ∈ lines (ms_cache x)) as Ht by (apply holds_lines; eauto). rewrite Hl in Ht. by apply elem_of_empty in Ht.
  - destruct Hs as (_ & i & w & Hv). unfold hview in Hv. by rewrite Ex in Hv.
Qed.

(** A machine that has been built satisfies the invariant. *)
Lemma built_ok h : built h -> ok (topology h) L h.
Proof.
  intros Hb. pose proof (fun m t s => built_empty h m t s Hb) as Hno. destruct Hb as [Hm Hp].
  split; [|split; [by intros m t ?%Hno|by intros m mn t s _ ?%Hno]]. split; [done|]. split; [done|]. split.
  - intros m x Hx. eapply Forall_lookup_1 in Hm as (? & ? & _ & Hpf); [|done]. rewrite Hpf. done.
  - rewrite Hp. apply map_Forall_empty.
Qed.
End build.

(** ** Running a machine *)

Section machine.
Context {D : Type} `{!DramCntlrInterface D} (env : CacheEnv) (T : Topology).
Local Abbreviation HS := (Hier (P := AnyPolicy) (I := AnyInfo) (D := D)).

(** An access of a core through a first-level cache, or a message from the directory for a last-level cache, that
    runs until it is done or waits *)
Inductive machine_step : HS -> HS -> Prop :=
  | step_access c k next lock op address offset data length modeled count h h' :
      t_params T !! c = Some k -> p_next k = Some next -> in_width 64 address -> 0 <= length ->
      processMemOpFromCore env c lock op address offset data length modeled count h = Ok (tt, h') -> machine_step h h'
  | step_message fuel c k sender msg h h' :
      t_params T !! c = Some k -> p_next k = None -> in_width 64 (dm_address msg) ->
      handleMsgFromDramDirectory env fuel c sender msg h = Ok (tt, h') -> machine_step h h'.

(** Every line of a cache is in its next level too, in a state that allows at least as much. *)
Definition inclusive (L : Z) (h : HS) : Prop :=
  forall c k next address s, t_params T !! c = Some k -> p_next k = Some next -> cached T L h c address s ->
  exists s', cached T L h next address s' /\ (rank s <= rank s')%nat.
End machine.

Section machine_facts.
Context {D : Type} `{!DramCntlrInterface D} (env : CacheEnv) (T : Topology) (policy : ReplacementPolicyName) (L : Z).
Context (HT : check_two_level T = true) (Hsize : 0 <= e_block_size env) (Hlev : (2 <= e_levels env)%nat).
Local Abbreviation HS := (Hier (P := AnyPolicy) (I := AnyInfo) (D := D)).
Context (Hterm : terminating policy = true).
#[local] Existing Instance machine_policy_ok.
#[local] Instance machine_policy_terminates : PolicyTerminates AnyPolicy AnyInfo (ReplacementPolicyOk0 := machine_policy_ok policy) :=
  Any_terminates policy Hterm.

Let E : error -> Prop := fun _ => True.

Lemma machine_coherent c k : t_params T !! c = Some k -> m_coherent k = true.
Proof. intros Hk. by destruct (check_plain T HT c k Hk) as (_ & _ & ?). Qed.

Lemma machine_step_ok (h h' : HS) :
  machine_step env T h h' -> ok (ReplacementPolicyOk0 := machine_policy_ok policy) T L h -> ok (ReplacementPolicyOk0 := machine_policy_ok policy) T L h'.
Proof.
  intros Hs Hok. destruct Hs as [c k next lk op a off buf n md cnt h h' Hk Hn Ha Hlen Hrun|fuel c k sender msg h h' Hk Hn Ha Hrun].
  - assert (kord (ReplacementPolicyOk0 := machine_policy_ok policy) T L E (processMemOpFromCore env c lk op a off buf n md cnt) (fun _ => True)) as Hw.
    { eapply kord_processMemOp with (level := two_levels T) (next := next);
        try done; [by apply check_levels_ok|apply machine_coherent|by apply check_two_level_ok]. }
    by destruct (wpe_ok _ _ _ _ _ _ (Hw h Hok) Hrun).
  - assert (kord (ReplacementPolicyOk0 := machine_policy_ok policy) T L E (handleMsgFromDramDirectory env fuel c sender msg) (fun _ => True)) as Hw.
    { eapply kord_handleMsg with (level := two_levels T);
        try done; [by apply check_levels_ok|apply machine_coherent|by apply check_two_level_ok]. }
    by destruct (wpe_ok _ _ _ _ _ _ (Hw h Hok) Hrun).
Qed.

Lemma machine_run_ok (h h' : HS) :
  rtc (machine_step env T) h h' -> ok (ReplacementPolicyOk0 := machine_policy_ok policy) T L h -> ok (ReplacementPolicyOk0 := machine_policy_ok policy) T L h'.
Proof. induction 1; [done|]. intros Hok. apply IHrtc. by eapply machine_step_ok. Qed.

Lemma ok_inclusive (h : HS) : ok (ReplacementPolicyOk0 := machine_policy_ok policy) T L h -> inclusive T L h.
Proof.
  intros (_ & _ & Ho) c k next a s Hk Hn (m & Hm & Hs).
  destruct (check_next T HT c k next Hk Hn) as (_ & [mn Hmn] & _). edestruct (Ho m mn) as (s' & Hs' & ?); [|done|].
  - exists c, k, next. done.
  - exists s'. split; [|done]. by exists mn.
Qed.

(** Nothing is cached below a last-level cache that does not have the line. *)
Lemma absent_below (h : HS) c k d a :
  ok (ReplacementPolicyOk0 := machine_policy_ok policy) T L h -> t_params T !! c = Some k ->
  (forall s, ~ cached T L h c a s) -> below T d c -> forall s, ~ cached T L h d a s.
Proof.
  intros Hok Hk Hno Hd s Hs. destruct Hd as [c|c p d Hp Hd]; [by apply (Hno s)|].
  destruct (check_prev T HT c p Hp) as (kp & next & Hkp & Hnp & Hmn).
  assert (d = p) as ->.
  { destruct Hd as [|p q d Hq _]; [done|]. destruct (check_next T HT p kp next Hkp Hnp) as (Ep & _). rewrite Ep in Hq. by apply elem_of_nil in Hq. }
  destruct (ok_inclusive h Hok p kp next a s Hkp Hnp Hs) as (s' & (m & Hm & Hs') & _). apply (Hno s'). exists m. split; [congruence|done].
Qed.

Lemma below_two (c d : nat) : below T d c -> d = c \/ d ∈ t_prev T c.
Proof.
  intros Hd. destruct Hd as [c|c p d Hp Hd]; [by left|]. right. destruct (check_prev T HT c p Hp) as (kp & next & Hkp & Hnp & Hmn).
  destruct Hd as [|p q d Hq _]; [done|]. destruct (check_next T HT p kp next Hkp Hnp) as (Ep & _). rewrite Ep in Hq. by apply elem_of_nil in Hq.
Qed.

Lemma rank_below (h : HS) c k d a s sc :
  ok (ReplacementPolicyOk0 := machine_policy_ok policy) T L h -> t_params T !! c = Some k ->
  cached T L h c a sc -> below T d c -> cached T L h d a s -> (rank s <= rank sc)%nat.
Proof.
  intros Hok Hk (m & Hm & Hsc) Hd Hs. pose proof Hok as (Hh & _). destruct (below_two c d Hd) as [->|Hp].
  - destruct Hs as (m' & Hm' & Hs). assert (m' = m) as -> by congruence. by rewrite (hstate_fun _ _ _ _ _ _ _ Hh Hs Hsc).
  - destruct (check_prev T HT c d Hp) as (kp & next & Hkp & Hnp & Hmn). destruct (ok_inclusive h Hok d kp next a s Hkp Hnp Hs) as (s' & (m' & Hm' & Hs') & Hle).
    assert (m' = m) as -> by congruence. by rewrite (hstate_fun _ _ _ _ _ _ _ Hh Hsc Hs').
Qed.
End machine_facts.

(** ** Theorems *)

(** The configurations: a power of two as block size, two or more levels, one replacement policy that does not retry
    at random, and levels that can be built. *)
Definition machine_cfg_ok (env : CacheEnv) (pcfg : PolicyCfg) (policy : ReplacementPolicyName) (L : Z) (levels : list CacheParameters) : Prop :=
  1 <= L <= 31 /\ e_block_size env = 2 ^ L /\ (2 <= e_levels env)%nat /\ terminating policy = true /\
  Forall (level_ok env pcfg policy) levels.

Section theorems.
Context {D : Type} `{!DramCntlrInterface D} (env : CacheEnv) (pcfg : PolicyCfg) (manager : option FaultinjectionManager).
Context (policy : ReplacementPolicyName) (L : Z) (cores : nat) (levels : list CacheParameters) (dram : option (D * nat)).
Local Abbreviation HS := (Hier (P := AnyPolicy) (I := AnyInfo) (D := D)).

(** Everything that holds of a machine that was built and run. *)
Lemma reached_ok (h0 h : HS) :
  machine_cfg_ok env pcfg policy L levels -> Hier_new env pcfg manager cores levels dram = Ok h0 ->
  check_two_level (topology h0) = true -> rtc (machine_step env (topology h0)) h0 h ->
  ok (ReplacementPolicyOk0 := machine_policy_ok policy) (topology h0) L h.
Proof.
  intros (HL & Hb & Hlev & Ht & Hl) Hnew Hc Hrun. apply (machine_run_ok env (topology h0) policy L Hc) with h0; try done.
  - rewrite Hb. apply Z.pow_nonneg. lia.
  - by eapply built_ok, Hier_new_built.
Qed.



(** C40: A reply to an upgrade fails if the line was invalidated while the upgrade was waiting: whatever the state of the
    machine, a last-level cache that does not have the line never handles an UPGRADE_REP successfully, although the
    code means to take the data from the message. *)
Theorem upgrade_of_lost_line_fails (h0 h h' : HS) (fuel c : nat) (k : CntlrParams) (sender : Z) (msg : DirMsg) :
  machine_cfg_ok env pcfg policy L levels -> Hier_new env pcfg manager cores levels dram = Ok h0 ->
  check_two_level (topology h0) = true -> rtc (machine_step env (topology h0)) h0 h ->
  t_params (topology h0) !! c = Some k -> in_width 64 (dm_address msg) -> dm_type msg = UPGRADE_REP ->
  (forall s, ~ cached (topology h0) L h c (dm_address msg) s) ->
  handleMsgFromDramDirectory env fuel c sender msg h <> Ok (tt, h').
Proof.
  intros Hcfg Hnew Hc Hrun Hk Ha Ht Hno Hmsg. pose proof (reached_ok h0 h Hcfg Hnew Hc Hrun) as (Hh & Hlive & _).
  destruct Hcfg as (HL & Hb & Hlev & Hterm & Hl).
  assert (0 <= e_block_size env) as Hsz by (rewrite Hb; apply Z.pow_nonneg; lia).
  pose proof (Any_terminates policy Hterm : PolicyTerminates AnyPolicy AnyInfo (ReplacementPolicyOk0 := machine_policy_ok policy)) as Hpt.
  exact (wpe_ok _ _ _ _ _ _ (wpe_upgrade_absent env (topology h0) L (two_levels (topology h0)) (fun _ => True) (fun _ _ => Logic.I)
    (check_levels_ok _ Hc _ Hlev) Hsz (machine_coherent _ Hc) Logic.I fuel c k sender msg h Hh Hlive Hk Ha Ht Hno) Hmsg).
Qed.
End theorems.

(** ** Hierarchies of any number of levels *)

(** The level of a controller by its component: both first-level caches, then the second level, and so on. *)
Definition component_level (T : Topology) (c : nat) : nat :=
  match t_params T !! c with Some k => Z.to_nat (m_mem_component k - L1_DCACHE) | None => 0 end.
Definition check_levels (T : Topology) (n : nat) : bool :=
  let level := component_level T in
  forallb (fun c =>
    (level c <? n)%nat &&
    match next_of T c with Some next => (level next =? S (level c))%nat | None => true end &&
    forallb (fun p => (level c =? S (level p))%nat) (t_prev T c) &&
    forallb (fun d => if decide (t_master T c = t_master T d) then (level c =? level d)%nat else true) (cntlrs T)) (cntlrs T).
(** The cache of every controller with a next level is a previous level there, every controller is coherent, and
    controllers that share a cache share the next one. *)
Definition check_covers (T : Topology) : bool :=
  forallb (fun c => forallb (check_two T c) (cntlrs T) &&
    match t_params T !! c with
    | Some k =>
        m_coherent k &&
        match p_next k with
        | Some next => bool_decide (is_Some (t_master T next)) && existsb (fun p => bool_decide (t_master T p = t_master T c)) (t_prev T next)
        | None => true
        end
    | None => true
    end) (cntlrs T).

Lemma t_master_some T c m : t_master T c = Some m -> exists k, t_params T !! c = Some k /\ p_master k = m.
Proof. unfold t_master. destruct (t_params T !! c) as [k|]; [|done]. intros [= <-]. eauto. Qed.
Lemma t_prev_some T c p : p ∈ t_prev T c -> exists k, t_params T !! c = Some k.
Proof. unfold t_prev, t_master. destruct (t_params T !! c) as [k|]; [eauto|]. cbn. by intros ?%elem_of_nil. Qed.

Lemma check_levels_sound T n : check_levels T n = true -> levels_ok T n (component_level T).
Proof.
  intros H. unfold check_levels in H. rewrite forallb_forall in H.
  assert (forall c k, t_params T !! c = Some k -> _) as Hc by (intros c k Hk; exact (H c (proj1 (list_elem_of_In _ _) (elem_of_cntlrs T c k Hk)))).
  clear H. setoid_rewrite andb_true_iff in Hc. setoid_rewrite andb_true_iff in Hc. setoid_rewrite andb_true_iff in Hc.
  setoid_rewrite forallb_forall in Hc. split.
  - intros c k Hk. destruct (Hc c k Hk) as [[[H1 _] _] _]. by apply Nat.ltb_lt.
  - intros c k next Hk Hn. destruct (Hc c k Hk) as [[[_ H2] _] _]. unfold next_of in H2. rewrite Hk in H2. cbn in H2. rewrite Hn in H2. by apply Nat.eqb_eq.
  - intros c p Hp. destruct (t_prev_some T c p Hp) as [k Hk]. destruct (Hc c k Hk) as [[_ H3] _]. apply Nat.eqb_eq, H3. by apply list_elem_of_In.
  - intros c d m (k & Hk & Em)%t_master_some (k' & Hk' & Em')%t_master_some. destruct (Hc c k Hk) as [_ H4].
    specialize (H4 d (proj1 (list_elem_of_In _ _) (elem_of_cntlrs T d k' Hk'))). rewrite decide_True in H4; [by apply Nat.eqb_eq|].
    unfold t_master. rewrite Hk, Hk'. cbn. congruence.
Qed.
Lemma check_covers_sound T c k :
  check_covers T = true -> t_params T !! c = Some k ->
  m_coherent k = true /\ forall next, p_next k = Some next ->
    exists mn p, t_master T next = Some mn /\ p ∈ t_prev T next /\ t_master T p = t_master T c.
Proof.
  intros H Hk. unfold check_covers in H. rewrite forallb_forall in H.
  specialize (H c (proj1 (list_elem_of_In _ _) (elem_of_cntlrs T c k Hk))). rewrite Hk in H.
  apply andb_true_iff in H as [_ H]. apply andb_true_iff in H as [H1 H2].
  split; [done|]. intros next Hn. rewrite Hn in H2. apply andb_true_iff in H2 as [H2 (p & Hp & E)%existsb_exists].
  apply bool_decide_eq_true in H2 as [mn Hmn]. apply bool_decide_eq_true in E. exists mn, p. split_and!; [done| |done]. by apply list_elem_of_In.
Qed.

Lemma check_covers_shared T c d k k' :
  check_covers T = true -> t_params T !! c = Some k -> t_params T !! d = Some k' -> t_master T c = t_master T d ->
  match p_next k, p_next k' with Some n, Some n' => t_master T n = t_master T n' | None, None => True | _, _ => False end.
Proof.
  intros H Hk Hk' Hm. unfold check_covers in H. rewrite forallb_forall in H.
  specialize (H c (proj1 (list_elem_of_In _ _) (elem_of_cntlrs T c k Hk))). apply andb_true_iff in H as [H _]. rewrite forallb_forall in H.
  specialize (H d (proj1 (list_elem_of_In _ _) (elem_of_cntlrs T d k' Hk'))). unfold check_two, next_of in H.
  rewrite decide_True, Hk, Hk' in H by done. cbn in H. destruct (p_next k), (p_next k'); try done. by apply bool_decide_eq_true in H.
Qed.
Lemma below_trans T a b c : below T a b -> below T b c -> below T a c.
Proof. intros Hab Hbc. induction Hbc; [done|]. econstructor; eauto. Qed.

Section any_levels.
Context {P I D : Type} `{!ReplacementPolicy P I, !ReplacementPolicyOk P I, !PolicyTerminates P I, !DramCntlrInterface D}.
Context (env : CacheEnv) (T : Topology) (L : Z).
Local Abbreviation HS := (Hier (P := P) (I := I) (D := D)).

(** C7: A change of state reaches every level: [updateCacheBlock] ends, and then every cache below that still has the
    line has it in the new state (none, if the new state is INVALID); no other line and no other cache is touched. *)
Theorem update_reaches_all_levels (c : nat) (k : CntlrParams) (a : Z) (new : cstate_t) (reason : reason_t) (want : bool) (th : Thread_t) (h : HS) :
  check_levels T (e_levels env) = true -> check_covers T = true -> 0 <= e_block_size env ->
  hier_ok T L h -> live h -> in_width 64 a -> t_params T !! c = Some k ->
  match updateCacheBlock env (e_levels env) c a new reason want th h with
  | Ok (_, h') =>
      (forall d s, below T d c -> cached T L h' d a s -> s = new /\ new <> INVALID) /\
      (forall m t s, t <> line L a \/ ~ mbelow T c m -> hstate h' m t s <-> hstate h m t s)
  | Err e => e <> OutOfFuel
  end.
Proof.
  intros Hlev%check_levels_sound Hcov Hsz Hh Hl Ha Hk. pose proof (level_lt _ _ _ Hlev c k Hk) as Hlt.
  pose proof (wpe_updateCacheBlock env T L (component_level T) (fun e => e <> OutOfFuel) (fun _ H => H) Hlev Hsz
    (fun c k Hk => proj1 (check_covers_sound T c k Hcov Hk)) (e_levels env) c a new reason want th h Hh Hl Ha ltac:(lia)) as Hw.
  unfold wpe in Hw. destruct (updateCacheBlock _ _ _ _ _ _ _ _ _) as [[r h']|e]; [|done]. destruct Hw as (_ & V & Hs). split; [|apply V].
  intros d s Hd (m & Hm & Hst). assert (s = new) as -> by (apply (Hs m); [by exists d|done]). split; [done|].
  intros ->. by eapply (moves_live _ _ _ _ _ V Hl).
Qed.

(** Every line of a cache is in its next level. *)
Definition included (h : HS) : Prop :=
  forall c k next a s, t_params T !! c = Some k -> p_next k = Some next -> cached T L h c a s -> exists s', cached T L h next a s'.

(** C6: An insertion keeps the hierarchy inclusive: if the next level has the line, then after [insertCacheBlock], which
    may evict another line from the cache and from all caches below it, every line of a cache is still in its next level. *)
Theorem insertion_keeps_inclusion (c : nat) (k : CntlrParams) (a : Z) (new : cstate_t) (data : option (list Z)) (requester : Z) (th : Thread_t)
    (h h' : HS) (p : option (nat * nat)) :
  check_levels T (e_levels env) = true -> check_covers T = true -> 0 <= e_block_size env ->
  hier_ok T L h -> live h -> in_width 64 a -> new <> INVALID -> t_params T !! c = Some k ->
  (forall next, p_next k = Some next -> exists s, cached T L h next a s) ->
  included h -> insertCacheBlock env c a new data requester th h = Ok (p, h') -> included h' /\ cached T L h' c a new.
Proof.
  intros Hlev%check_levels_sound Hcov Hsz Hh Hl Ha Hn Hk Hnext Hincl Hrun.
  pose proof (wpe_insertCacheBlock env T L (component_level T) (fun _ => True) (fun _ _ => Logic.I) Hlev Hsz
    (fun c k Hk => proj1 (check_covers_sound T c k Hcov Hk)) (fun _ _ _ _ _ _ => Logic.I) (fun _ _ _ _ _ _ _ => Logic.I)
    c a new data requester th h Hh Hl Ha Hn) as Hw.
  destruct (wpe_ok _ _ _ _ _ _ Hw Hrun) as (_ & e & (A0 & _) & A1 & A2 & A3 & A4). clear Hw Hrun.
  assert (t_master T c = Some (p_master k)) as Hmc by (unfold t_master; by rewrite Hk).
  split; [|exists (p_master k); split; [done|by apply A3]].
  intros d kd next b s Hkd Hnd (m & Hm & Hs).
  destruct (check_covers_sound T d kd Hcov Hkd) as [_ Hd]. destruct (Hd next Hnd) as (mn & p0 & Hmn & Hp0 & Hpm). clear Hd.
  assert (exists s', hstate h' mn (line L b) s') as [s' ?]; [|by exists s', mn].
  destruct (decide (t_master T c = Some m /\ line L b = line L a)) as [[Hcm Eb]|Hd].
  - pose proof (check_covers_shared T c d k kd Hcov Hk Hkd ltac:(congruence)) as Hsh. rewrite Hnd in Hsh.
    destruct (p_next k) as [nc|] eqn:Hnc; [|done]. destruct (Hnext nc eq_refl) as (s' & mn' & Hmn' & Hs').
    assert (mn' = mn) as -> by congruence.
    exists s'. rewrite Eb. apply A2; [|left; congruence|congruence]. intros Hcn _.
    pose proof (level_next _ _ _ Hlev c k nc Hk Hnc) as E1.
    pose proof (level_master _ _ _ Hlev c nc mn Hcn Hmn') as E2. lia.
  - assert (hstate h m (line L b) s) as Hs0 by (apply A1; naive_solver).
    destruct (Hincl d kd next b s Hkd Hnd ltac:(by exists m)) as (s' & mn' & Hmn' & Hs').
    assert (mn' = mn) as -> by congruence.
    destruct (decide (t_master T c = Some mn /\ line L b = line L a)) as [[Hcn Eb]|Hd'].
    + exists new. rewrite Eb. by apply A3.
    + exists s'. apply A2; [naive_solver| |done]. destruct (decide (Some (line L b) = e)) as [He|]; [right|by left].
      intros (x & Hx & Hxm). apply (A4 m (line L b) s); [done| |done]. exists p0. split; [|congruence].
      eapply below_trans; [|exact Hx]. eapply below_prev; [|constructor]. unfold t_prev in *. by rewrite Hxm, <- Hmn'.
Qed.
End any_levels.

(** ** Executing a machine *)

Inductive machine_op :=
  | MAccess (c : nat) (op : mem_op_t) (address offset : Z) (data : option (list Z)) (length : Z)
  | MMessage (c : nat) (sender : Z) (msg : DirMsg).

Section execution.
Context {D : Type} `{!DramCntlrInterface D} (env : CacheEnv) (T : Topology).
Local Abbreviation HS := (Hier (P := AnyPolicy) (I := AnyInfo) (D := D)).

Definition machine_do (o : machine_op) (h : HS) : res HS :=
  match o with
  | MAccess c op a off data len =>
      if bool_decide (is_Some (next_of T c)) && bool_decide (0 <= a < 2 ^ 64) && bool_decide (0 <= len)
      then '(_, h) ← processMemOpFromCore env c Lk_NONE op a off data len true true h; Ok h else Err AssertFailed
  | MMessage c sender msg =>
      if bool_decide (is_Some (t_params T !! c)) && bool_decide (next_of T c = None) && bool_decide (0 <= dm_address msg < 2 ^ 64)
      then '(_, h) ← handleMsgFromDramDirectory env 16 c sender msg h; Ok h else Err AssertFailed
  end.
Fixpoint machine_run (ops : list machine_op) (h : HS) : res HS :=
  match ops with
  | [] => Ok h
  | o :: ops => h ← machine_do o h; machine_run ops h
  end.

Lemma machine_run_steps ops (h h' : HS) : machine_run ops h = Ok h' -> rtc (machine_step env T) h h'.
Proof.
  revert h. induction ops as [|o ops IH]; intros h H; cbn [machine_run] in H; [by simplify_eq|]. res_inv H.
  eapply rtc_l; [|by apply IH]. destruct o as [c op addr off data len|c sender msg]; cbn [machine_do] in E; unfold next_of in E.
  - destruct (t_params T !! c) as [k|] eqn:Hk; [|done]. cbn in E. destruct (p_next k) as [next|] eqn:Hn; [|done].
    destruct (_ && _) eqn:Hg; [|done]. rewrite !andb_true_iff, !bool_decide_eq_true in Hg. destruct Hg as [[_ Ha] Hl].
    res_inv E. destruct a0 as [[] h1]. simplify_eq. by eapply step_access.
  - destruct (t_params T !! c) as [k|] eqn:Hk; [|done]. cbn in E. destruct (_ && _) eqn:Hg; [|done].
    rewrite !andb_true_iff, !bool_decide_eq_true in Hg. destruct Hg as [Hn Ha]. res_inv E. destruct a0 as [[] h1]. simplify_eq.
    by eapply step_message.
Qed.
End execution.

(** ** Small machines

    Two cores with 1 KB first-level caches of one way; every core has its own caches of the first level, the other
    levels are shared.  Fault injection is on, so that the caches keep data. *)

Definition ex_latency (n : Z) : ComponentLatency := {| cl_period := 0%nat; m_fixed_cycle_latency := n |}.
Definition ex_level (size assoc shared : Z) : CacheParameters :=
  mkCacheParams size 0 assoc "mask" "lru" false true (ex_latency 4) (ex_latency 1) (ex_latency 10)
    {| bpc_period := 0%nat; m_bw_in_bits_per_cycle := 0 |} "parallel" false shared "none" 0 false false
    (mkPrefetchCfg 1 false 1 false 1 1 1 1) None.
Definition ex_env : CacheEnv :=
  mkCacheEnv (fun _ => 1000000) (Build_AddressHomeLookup 6 0 [0] 1 64) 64 (fun x => x) (replicate 64 170) map_to_list false None 4.
Definition ex_policy : PolicyCfg := {| cfg_qbs_attempts := 1; cfg_srrip_bits := 2; cfg_time := 0; cfg_retry_fuel := 10 |}.
(** No cache accesses DRAM directly. *)
Definition no_dram : DramCntlrInterface unit := {| getDataFromDram _ _ _ _ := Err NullDeref; putDataToDram _ _ _ _ _ := Err NullDeref |}.
#[local] Existing Instance no_dram.

Definition ex_faults : option FaultinjectionManager := Some (mkFIManager FAULT_TYPE_TOGGLE FAULT_INJECTOR_NONE).
Abbreviation ex_machine levels := (Hier_new (D := unit) ex_env ex_policy ex_faults 2 levels None).
Definition ex_levels2 : list CacheParameters := [ex_level 1 1 1; ex_level 1 1 1; ex_level 2 2 2].
Definition ex_levels3 : list CacheParameters := [ex_level 1 1 1; ex_level 1 1 1; ex_level 2 2 2; ex_level 4 4 2].

(** Accesses of four bytes by a core through its data cache, and a reply of the directory with 7 in every byte *)
Definition ex_read (c : nat) (a : Z) : machine_op := MAccess c Op_READ a 0 (Some []) 4.
Definition ex_write (c : nat) (a v : Z) : machine_op := MAccess c Op_WRITE a 0 (Some [v; v; v; v]) 4.
Definition ex_reply (c : nat) (t : msg_t) (a : Z) : machine_op := MMessage c 0 (mkDirMsg t 0 a (Some (replicate 64 7)) W_DRAM (Some c)).
Definition ex_request (t : msg_t) (a : Z) : DirMsg := mkDirMsg t 0 a None W_DRAM None.

Lemma ex_cfg_ok levels :
  Forall (fun p => exists size assoc shared, p = ex_level size assoc shared /\ 0 < assoc <= 256 /\ 0 < size /\
            match cache_num_sets size assoc 64 with Ok n => 0 < n < 2 ^ 32 | Err _ => True end) levels ->
  machine_cfg_ok ex_env ex_policy LRU 6 levels.
Proof.
  intros Hl. split_and!; try done; cbn; try lia. eapply Forall_impl; [done|]. intros p (size & assoc & shared & -> & Ha & Hs & Hn).
  split_and!; cbn; try lia; try done. all: intros n Hn'; rewrite Hn' in Hn; lia.
Qed.

(** The data cache of core 0 is controller 1, of core 1 controller 4; the last-level cache of both is controller 2. *)
Definition ex_ops2 : list machine_op :=
  [ex_write 4 128 5; ex_reply 2 EX_REP 128; ex_read 4 128; ex_read 1 128; ex_read 1 1152; ex_reply 2 SH_REP 1152].



(** The three-level machine; controller 1 is the data cache of core 0, 2 its second level and 3 its last level. *)
Lemma ex_machine3_built h0 : ex_machine ex_levels3 = Ok h0 -> built LRU 6 h0.
Proof.
  intros E0. destruct (ex_cfg_ok ex_levels3) as (HL & Hb & _ & _ & Hl).
  - repeat constructor; do 3 eexists; (split; [reflexivity|]); split_and!; try lia; vm_compute; split; reflexivity.
  - eapply Hier_new_built; [exact HL|exact Hb|exact Hl|exact E0].
Qed.

(** A line is inserted into a cache; a line inserted into the three levels of core 0 *)
Definition ex_insert (x : nat * Z) (h : Hier (P := AnyPolicy) (I := AnyInfo) (D := unit)) : res (Hier (P := AnyPolicy) (I := AnyInfo) (D := unit)) :=
  '(_, h) ← insertCacheBlock ex_env x.1 x.2 EXCLUSIVE (Some (replicate 64 7)) 0 SIM_THREAD h; Ok h.
Definition ex_filled (h : Hier (P := AnyPolicy) (I := AnyInfo) (D := unit)) : res (Hier (P := AnyPolicy) (I := AnyInfo) (D := unit)) :=
  h ← ex_insert (3%nat, 128) h; h ← ex_insert (2%nat, 128) h; ex_insert (1%nat, 128) h.

Lemma ex_insert_ok T x h h' :
  check_levels T 4 = true -> check_covers T = true -> in_width 64 x.2 -> hier_ok (ReplacementPolicyOk0 := machine_policy_ok LRU) T 6 h -> live h ->
  ex_insert x h = Ok h' -> hier_ok (ReplacementPolicyOk0 := machine_policy_ok LRU) T 6 h' /\ live h'.
Proof.
  intros Hlev%check_levels_sound Hcov Ha Hh Hl H. unfold ex_insert in H. res_inv H. destruct a as [p h1]. simplify_eq.
  pose proof (wpe_insertCacheBlock (ReplacementPolicyOk0 := machine_policy_ok LRU) (PolicyTerminates0 := Any_terminates LRU eq_refl)
    ex_env T 6 (component_level T) (fun _ => True) (fun _ _ => Logic.I) Hlev ltac:(cbn; lia)
    (fun c k Hk => proj1 (check_covers_sound T c k Hcov Hk)) (fun _ _ _ _ _ _ => Logic.I) (fun _ _ _ _ _ _ _ => Logic.I)
    x.1 x.2 EXCLUSIVE (Some (replicate 64 7)) 0 SIM_THREAD h Hh Hl Ha ltac:(discriminate)) as Hw.
  destruct (wpe_ok _ _ _ _ _ _ Hw E) as (? & e & Hi). split; [done|]. eapply inserts_live; [|exact Hi|exact Hl]. discriminate.
Qed.

(** Two lines of a set of the second level, the first of which is in the first level too; a third line is in the last level. *)
Definition ex_crowded (h : Hier (P := AnyPolicy) (I := AnyInfo) (D := unit)) : res (Hier (P := AnyPolicy) (I := AnyInfo) (D := unit)) :=
  h ← ex_filled h; h ← ex_insert (3%nat, 1152) h; h ← ex_insert (2%nat, 1152) h; ex_insert (3%nat, 2176) h.
Definition ex_has (c : nat) (a : Z) (h : Hier (P := AnyPolicy) (I := AnyInfo) (D := unit)) : bool :=
  match getCacheBlockInfo c a h with Ok (Some _, _) => true | _ => false end.

(** The third line evicts the first one from the second level, and from the first level with it. *)
Lemma insertion_keeps_inclusion_witness :
  exists h0 h h', ex_machine ex_levels3 = Ok h0 /\ ex_crowded h0 = Ok h /\ ex_insert (2%nat, 2176) h = Ok h' /\
    ex_has 2 128 h = true /\ ex_has 1 128 h = true /\ ex_has 2 128 h' = false /\ ex_has 1 128 h' = false /\
    included (topology h0) 6 h /\ included (topology h0) 6 h' /\ cached (topology h0) 6 h' 2 2176 EXCLUSIVE.
Proof.
  assert (match ex_machine ex_levels3 with
          | Ok h0 => match ex_crowded h0 with
                     | Ok h => match ex_insert (2%nat, 2176) h with
                               | Ok h' => ex_has 2 128 h && ex_has 1 128 h && negb (ex_has 2 128 h') && negb (ex_has 1 128 h') &&
                                          check_levels (topology h0) 4 && check_covers (topology h0) && bool_decide (next_of (topology h0) 3 = None)
                                          && bool_decide (next_of (topology h0) 2 = Some 3%nat) && bool_decide (next_of (topology h0) 1 = Some 2%nat)
                                          && forallb (fun c => bool_decide (is_Some (t_params (topology h0) !! c))) [1; 2; 3]%nat
                               | Err _ => false end
                     | Err _ => false end
          | Err _ => false end = true) as H by (vm_compute; reflexivity).
  destruct (ex_machine ex_levels3) as [h0|] eqn:E0; [|discriminate H].
  destruct (ex_crowded h0) as [h|] eqn:E1; [|discriminate H]. destruct (ex_insert (2%nat, 2176) h) as [h'|] eqn:E2; [|discriminate H].
  rewrite !andb_true_iff, !negb_true_iff, !bool_decide_eq_true in H. destruct H as [[[[[[[[[Hb1 Hb2] Ha1] Ha2] Hlev] Hcov] Hn3] Hn2] Hn1] Hk].
  cbn [forallb] in Hk. rewrite !andb_true_iff, !bool_decide_eq_true in Hk. destruct Hk as ([k1 Hk1] & [k2 Hk2] & [k3 Hk3] & _).
  unfold next_of in Hn1, Hn2, Hn3. rewrite Hk1 in Hn1. rewrite Hk2 in Hn2. rewrite Hk3 in Hn3. cbn in Hn1, Hn2, Hn3.
  pose proof (ex_machine3_built h0 E0) as Hb. destruct (built_ok _ _ _ Hb) as (Hh & Hl & _).
  set (good := fun g : Hier (P := AnyPolicy) (I := AnyInfo) (D := unit) => hier_ok (ReplacementPolicyOk0 := machine_policy_ok LRU) (topology h0) 6 g /\ live g /\ included (topology h0) 6 g).
  assert (Hstep : forall c k a g g', good g -> t_params (topology h0) !! c = Some k -> in_width 64 a ->
            (forall next, p_next k = Some next -> exists s, cached (topology h0) 6 g next a s) -> ex_insert (c, a) g = Ok g' ->
            good g' /\ cached (topology h0) 6 g' c a EXCLUSIVE).
  { intros c k a g g' (Hg & Hlg & Hig) Hkc Ha Hnx Hi. destruct (ex_insert_ok (topology h0) (c, a) g g' Hlev Hcov Ha Hg Hlg Hi) as [Hg' Hlg'].
    unfold ex_insert in Hi. res_inv Hi. destruct a0 as [p g1]. cbn in E. injection Hi as ->.
    destruct (insertion_keeps_inclusion (ReplacementPolicyOk0 := machine_policy_ok LRU) (PolicyTerminates0 := Any_terminates LRU eq_refl)
      ex_env (topology h0) 6 c k a EXCLUSIVE (Some (replicate 64 7)) 0 SIM_THREAD g g' p Hlev Hcov ltac:(cbn; lia) Hg Hlg Ha ltac:(discriminate) Hkc Hnx Hig E) as [Hi' Hc'].
    split; [|exact Hc']. split; [exact Hg'|]. split; [exact Hlg'|exact Hi']. }
  assert (Hw : forall a, 0 <= a < 2 ^ 64 -> in_width 64 a) by (intros a Ha; exact Ha).
  assert (Hg0 : good h0) by (split_and!; [exact Hh|exact Hl|]; intros c kc next a s _ _ (m & _ & Hs); destruct (built_empty _ _ _ _ _ _ Hb Hs)).
  pose proof E1 as Ecr. unfold ex_crowded, ex_filled in E1. res_inv E1. rename a into g3, E into Ec1. res_inv Ec1.
  destruct (Hstep 3%nat k3 128 _ _ Hg0 Hk3 ltac:(apply Hw; lia) ltac:(congruence) ltac:(eassumption)) as [G1 C1].
  destruct (Hstep 2%nat k2 128 _ _ G1 Hk2 ltac:(apply Hw; lia) ltac:(intros nx Hx; assert (nx = 3%nat) as -> by congruence; eauto) ltac:(eassumption)) as [G2 C2].
  destruct (Hstep 1%nat k1 128 _ _ G2 Hk1 ltac:(apply Hw; lia) ltac:(intros nx Hx; assert (nx = 2%nat) as -> by congruence; eauto) ltac:(eassumption)) as [G3 C3].
  destruct (Hstep 3%nat k3 1152 _ _ G3 Hk3 ltac:(apply Hw; lia) ltac:(congruence) ltac:(eassumption)) as [G4 C4].
  destruct (Hstep 2%nat k2 1152 _ _ G4 Hk2 ltac:(apply Hw; lia) ltac:(intros nx Hx; assert (nx = 3%nat) as -> by congruence; eauto) ltac:(eassumption)) as [G5 C5].
  destruct (Hstep 3%nat k3 2176 _ _ G5 Hk3 ltac:(apply Hw; lia) ltac:(congruence) ltac:(eassumption)) as [G6 C6].
  destruct (Hstep 2%nat k2 2176 _ _ G6 Hk2 ltac:(apply Hw; lia) ltac:(intros nx Hx; assert (nx = 3%nat) as -> by congruence; eauto) E2) as [G7 C7].
  exists h0, h, h'. split; [reflexivity|]. split; [exact Ecr|]. split; [exact E2|]. split_and!; [exact Hb1|exact Hb2|exact Ha1|exact Ha2|apply G6|apply G7|exact C7].
Defined.

Lemma update_reaches_all_levels_witness :
  exists h0 h k r h', ex_machine ex_levels3 = Ok h0 /\ ex_filled h0 = Ok h /\ t_params (topology h0) !! 3%nat = Some k /\
    updateCacheBlock ex_env 4 3 128 SHARED COHERENCY true SIM_THREAD h = Ok (r, h') /\
    match updateCacheBlock ex_env 4 3 128 SHARED COHERENCY true SIM_THREAD h with
    | Ok (_, h') =>
        (forall d s, below (topology h0) d 3 -> cached (topology h0) 6 h' d 128 s -> s = SHARED /\ SHARED <> INVALID) /\
        (forall m t s, t <> line 6 128 \/ ~ mbelow (topology h0) 3 m -> hstate h' m t s <-> hstate h m t s)
    | Err e => e <> OutOfFuel
    end.
Proof.
  assert (match ex_machine ex_levels3 with
          | Ok h0 => match ex_filled h0 with
                     | Ok h => match updateCacheBlock ex_env 4 3 128 SHARED COHERENCY true SIM_THREAD h with
                               | Ok _ => check_levels (topology h0) 4 && check_covers (topology h0) && bool_decide (is_Some (t_params (topology h0) !! 3%nat))
                               | Err _ => false end
                     | Err _ => false end
          | Err _ => false end = true) as H by (vm_compute; reflexivity).
  destruct (ex_machine ex_levels3) as [h0|] eqn:E0; [|discriminate H].
  destruct (ex_filled h0) as [h|] eqn:E1; [|discriminate H].
  destruct (updateCacheBlock ex_env 4 3 128 SHARED COHERENCY true SIM_THREAD h) as [[r h']|] eqn:E2; [|discriminate H].
  rewrite !andb_true_iff in H. destruct H as [[Hlev Hcov] Hk]. destruct (t_params (topology h0) !! 3%nat) as [k|] eqn:Ek; [|discriminate Hk].
  assert (hier_ok (ReplacementPolicyOk0 := machine_policy_ok LRU) (topology h0) 6 h /\ live h) as [Hh Hl].
  { destruct (built_ok _ _ _ (ex_machine3_built h0 E0)) as (Hh & Hl & _). unfold ex_filled in E1. res_inv E1.
    assert (Hw : in_width 64 128) by (split; lia).
    edestruct (ex_insert_ok (topology h0) (3%nat, 128) h0) as [? ?]; try eassumption.
    edestruct (ex_insert_ok (topology h0) (2%nat, 128)) as [? ?]; try eassumption. eapply (ex_insert_ok _ (1%nat, 128)); eassumption. }
  exists h0, h, k, r, h'. split; [reflexivity|]. split; [exact E1|]. split; [exact Ek|]. split; [exact E2|].
  refine (update_reaches_all_levels (ReplacementPolicyOk0 := machine_policy_ok LRU) (PolicyTerminates0 := Any_terminates LRU eq_refl)
    ex_env (topology h0) 6 3 k 128 SHARED COHERENCY true SIM_THREAD h Hlev Hcov _ Hh Hl _ Ek).
  - cbn. lia.
  - split; vm_compute; [discriminate|reflexivity].
Defined.

(** Core 0 reads a line, asks for an upgrade, and another core takes the line away before the reply. *)
Definition ex_ops_lost : list machine_op :=
  [ex_read 1 128; ex_reply 2 SH_REP 128; ex_write 1 128 9; MMessage 2 0 (ex_request INV_REQ 128)].
Definition ex_upgrade_rep : DirMsg := mkDirMsg UPGRADE_REP 0 128 (Some (replicate 64 7)) W_DRAM (Some 2%nat).

Lemma upgrade_of_lost_line_fails_witness :
  exists h0 h, ex_machine ex_levels2 = Ok h0 /\ machine_run ex_env (topology h0) ex_ops_lost h0 = Ok h /\
    forall h', handleMsgFromDramDirectory ex_env 16 2 0 ex_upgrade_rep h <> Ok (tt, h').
Proof.
  assert (match ex_machine ex_levels2 with
          | Ok h0 => match machine_run ex_env (topology h0) ex_ops_lost h0 with
                     | Ok h => check_two_level (topology h0) && bool_decide (is_Some (t_params (topology h0) !! 2%nat))
                               && match getCacheBlockInfo 2 128 h with Ok (None, _) => true | _ => false end
                     | Err _ => false end
          | Err _ => false end = true) as H by (vm_compute; reflexivity).
  destruct (ex_machine ex_levels2) as [h0|] eqn:E0; [|discriminate H].
  destruct (machine_run ex_env (topology h0) ex_ops_lost h0) as [h|] eqn:E1; [|discriminate H].
  rewrite !andb_true_iff in H. destruct H as [[Hc Hk] Hp]. destruct (t_params (topology h0) !! 2%nat) as [k|] eqn:Ek; [|discriminate Hk].
  assert (machine_cfg_ok ex_env ex_policy LRU 6 ex_levels2) as Hcfg.
  { apply ex_cfg_ok. repeat constructor; do 3 eexists; (split; [reflexivity|]); split_and!; try lia; vm_compute; split; reflexivity. }
  exists h0, h. split; [reflexivity|]. split; [exact E1|]. intros h'.
  refine (upgrade_of_lost_line_fails ex_env ex_policy ex_faults LRU 6 2 ex_levels2 None h0 h h' 16 2 k 0 ex_upgrade_rep
            Hcfg E0 Hc (machine_run_steps _ _ _ _ _ E1) Ek _ eq_refl _).
  - split; vm_compute; [discriminate|reflexivity].
  - destruct (getCacheBlockInfo 2 128 h) as [[[q|] h1]|] eqn:Ep; [discriminate Hp| |discriminate Hp].
    destruct (reached_ok _ _ _ _ _ _ _ _ h0 h Hcfg E0 Hc (machine_run_steps _ _ _ _ _ E1)) as (Hh & _).
    refine (peek_none_absent (ReplacementPolicyOk0 := machine_policy_ok LRU) _ _ _ _ _ _ Hh _ Ep).
    split; vm_compute; [discriminate|reflexivity].
Defined.

(** ** Lost writes *)

(** The last event of a machine that is built and run *)
Definition outcome (levels : list CacheParameters) (ops : list machine_op) : option hevent :=
  match ex_machine levels with
  | Ok h0 => match machine_run ex_env (topology h0) ops h0 with Ok h => last (h_events h) | Err _ => None end
  | Err _ => None
  end.

(** A write is lost: with private first-level caches above a shared cache, core 1 writes 5 and core 0 reads it, which
    leaves the line MODIFIED in the cache of core 0 and SHARED in that of core 1; the write of 9 by core 0 then hits in
    its own cache, and core 1 goes on reading 5. *)
Theorem two_level_lost_write :
  outcome ex_levels2 [ex_write 4 128 5; ex_reply 2 EX_REP 128; ex_read 4 128; ex_read 1 128; ex_write 1 128 9; ex_read 4 128] =
  Some (Completed 1 128 L1_DCACHE (Some [5; 5; 5; 5])).
Proof. vm_compute. reflexivity. Qed.

(** A write is lost in a cache level in the middle: with a second level shared by the cores, which read a line that the
    directory granted exclusively, the write of core 0 removes the line from the second level and not from the cache of
    core 1, which goes on reading the old 7. *)
Theorem three_level_lost_write :
  outcome ex_levels3 [ex_read 1 128; ex_reply 3 EX_REP 128; ex_read 5 128; ex_write 1 128 9; ex_read 5 128] =
  Some (Completed 1 128 L1_DCACHE (Some [7; 7; 7; 7])).
Proof. vm_compute. reflexivity. Qed.
