(* ===== verification/NetworkMesh.v ===== *)
(** * Packets and the mesh network model

    Models network/packet_type.h, the packets of network/network.{h,cc} and
    network/network_model_emesh_hop_by_hop.{h,cc}: a line, ring, mesh or torus of
    nodes with dimension-order routing, a queue per link, and one core of every
    concentrated node that stands for the node.  Coordinates and core numbers are
    SInt32 and stay below the number of cores, so they are plain [Z]. *)

From Stdlib Require Import SpecFloat.
From Stdlib Require Import Ascii.
From S2P Require Import Prelude StateMonad Utils SubsecondTime QueueModel DramDirectoryCntlr.

(** ** Packets *)

Inductive PacketType := INVALID_PACKET_TYPE | SHARED_MEM_1 | SIM_THREAD_TERMINATE_THREADS | CORE_THREAD_TERMINATE_THREADS.
#[global] Instance PacketType_eq_dec : EqDecision PacketType.
Proof. solve_decision. Defined.

Inductive EStaticNetwork := STATIC_NETWORK_MEMORY_1 | STATIC_NETWORK_SYSTEM.
Definition g_type_to_static_network_map (t : PacketType) : EStaticNetwork :=
  match t with SHARED_MEM_1 => STATIC_NETWORK_MEMORY_1 | _ => STATIC_NETWORK_SYSTEM end.

(** The data of a packet of type SHARED_MEM_1: a message and the length of the block that follows it. *)
Record MsgBuf := mkMsgBuf { mb_msg : ShmemMsg; mb_data_length : Z }.

Record NetPacket := mkPacket {
  pkt_start_time : Z;
  pkt_time : Z;
  pkt_queue_delay : Z;
  pkt_type : PacketType;
  pkt_sender : Z;
  pkt_receiver : Z;
  pkt_length : Z;
  pkt_data : option MsgBuf
}.
Definition with_pkt_start_time (t : Z) (p : NetPacket) : NetPacket :=
  mkPacket t (pkt_time p) (pkt_queue_delay p) (pkt_type p) (pkt_sender p) (pkt_receiver p) (pkt_length p) (pkt_data p).
Definition with_pkt_time (t : Z) (p : NetPacket) : NetPacket :=
  mkPacket (pkt_start_time p) t (pkt_queue_delay p) (pkt_type p) (pkt_sender p) (pkt_receiver p) (pkt_length p) (pkt_data p).
Definition with_pkt_queue_delay (t : Z) (p : NetPacket) : NetPacket :=
  mkPacket (pkt_start_time p) (pkt_time p) t (pkt_type p) (pkt_sender p) (pkt_receiver p) (pkt_length p) (pkt_data p).
Definition with_pkt_receiver (r : Z) (p : NetPacket) : NetPacket :=
  mkPacket (pkt_start_time p) (pkt_time p) (pkt_queue_delay p) (pkt_type p) (pkt_sender p) r (pkt_length p) (pkt_data p).

Definition NetPacket_new (t : Z) (ty : PacketType) (s r l : Z) (d : option MsgBuf) : NetPacket := mkPacket Zero t Zero ty s r l d.
(** 0xDEADBABE as SInt32 *)
Definition BROADCAST : Z := swrap 32 0xDEADBABE.
Definition INVALID_CORE_ID : Z := -1.
(** sizeof(NetPacket): three times, type, sender, receiver and length, and a pointer *)
Definition sizeof_NetPacket : Z := 48.
Definition bufferSize (p : NetPacket) : Z := u32 (sizeof_NetPacket + pkt_length p).

(** What the network reads of the configuration and of the rest of the simulator: the clock periods,
    [pow] of the queue models (see MovingAverage) and the global time. *)
Record NetCfg := mkNetCfg {
  n_total_cores : Z;
  n_application_cores : Z;
  n_periods : nat -> Z;
  n_pow_root : Z -> Z -> Z;
  n_global_time : Z
}.

Definition computeCoreIDLength (core_count : Z) : Z :=
  let num_bits := ceilLog2 core_count in
  if num_bits mod 8 =? 0 then num_bits / 8 else num_bits / 8 + 1.

(** [getShmemRequester] of the data *)
Definition getShmemRequester (d : option MsgBuf) : res Z :=
  match d with Some b => Ok (msg_requester (mb_msg b)) | None => Err NullDeref end.

Definition net_getModeledLength (cfg : NetCfg) (p : NetPacket) : res Z :=
  if bool_decide (pkt_type p = SHARED_MEM_1) then
    let metadata_size := u32 (1 + 2 * computeCoreIDLength (n_total_cores cfg) + 2) in
    match pkt_data p with
    | Some b => data_size ← getModeledLength (msg_type (mb_msg b)) (mb_data_length b); Ok (u32 (metadata_size + data_size))
    | None => Err NullDeref
    end
  else Ok (bufferSize p).

(** The core on whose behalf a packet travels, with the check that every model makes. *)
Definition packet_requester (cfg : NetCfg) (p : NetPacket) : res Z :=
  requester ← (if bool_decide (pkt_type p = SHARED_MEM_1) then getShmemRequester (pkt_data p) else Ok (pkt_sender p));
  _ ← assert_ ((0 <=? requester) && (requester <? n_total_cores cfg));
  Ok requester.

Record Hop := mkHop { final_dest : Z; next_dest : Z; hop_time : Z }.

(** ** The mesh *)

Inductive OutputDirection := UP | DOWN | LEFT | RIGHT | SELF | PEER | DESTINATION.

(** Below NUM_OUTPUT_DIRECTIONS: the number of the queue of the link. *)
Definition link_index (d : OutputDirection) : option nat :=
  match d with UP => Some 0%nat | DOWN => Some 1%nat | LEFT => Some 2%nat | RIGHT => Some 3%nat | _ => None end.

Record MeshParams := mkMesh {
  m_mesh_width : Z;
  m_mesh_height : Z;
  m_concentration : Z;
  m_wrap_around : bool;
  m_broadcast_tree_enabled : bool;
  m_queue_model_enabled : bool
}.

(** A node's model; a fake node has no queues. *)
Record MeshNode := mkMeshNode {
  mn_mesh : MeshParams;
  mn_core_id : Z;
  m_fake_node : bool;
  m_link_bandwidth : ComponentBandwidthPerCycle;
  m_hop_latency : ComponentLatency;
  m_queue_models : list QueueModel;
  m_injection_port : option QueueModel;
  m_ejection_port : option QueueModel;
  mn_enabled : bool;
  m_total_bytes_sent : Z; m_total_packets_sent : Z;
  m_total_bytes_received : Z; m_total_packets_received : Z;
  m_total_contention_delay : Z; m_total_packet_latency : Z
}.
Definition with_queues (q : list QueueModel) (i e : option QueueModel) (n : MeshNode) : MeshNode :=
  mkMeshNode (mn_mesh n) (mn_core_id n) (m_fake_node n) (m_link_bandwidth n) (m_hop_latency n) q i e (mn_enabled n)
    (m_total_bytes_sent n) (m_total_packets_sent n) (m_total_bytes_received n) (m_total_packets_received n)
    (m_total_contention_delay n) (m_total_packet_latency n).
Definition with_mesh_stats (enabled : bool) (bs ps br pr cd pl : Z) (n : MeshNode) : MeshNode :=
  mkMeshNode (mn_mesh n) (mn_core_id n) (m_fake_node n) (m_link_bandwidth n) (m_hop_latency n) (m_queue_models n)
    (m_injection_port n) (m_ejection_port n) enabled bs ps br pr cd pl.
Definition mesh_set_enabled (b : bool) (n : MeshNode) : MeshNode :=
  with_mesh_stats b (m_total_bytes_sent n) (m_total_packets_sent n) (m_total_bytes_received n) (m_total_packets_received n)
    (m_total_contention_delay n) (m_total_packet_latency n) n.

(** Integer division of C, which truncates. *)
Definition c_div (a b : Z) : res Z := if b =? 0 then Err DivByZero else Ok (Z.quot a b).
Definition c_mod (a b : Z) : res Z := if b =? 0 then Err DivByZero else Ok (Z.rem a b).

Definition computePosition (p : MeshParams) (core_id : Z) : res (Z * Z) :=
  node ← c_div core_id (m_concentration p);
  x ← c_mod node (m_mesh_width p);
  y ← c_div node (m_mesh_width p);
  Ok (x, y).

Definition computeCoreId (p : MeshParams) (x y : Z) : res Z :=
  x ← c_mod (x + m_mesh_width p) (m_mesh_width p);
  y ← c_mod (y + m_mesh_height p) (m_mesh_height p);
  Ok ((y * m_mesh_width p + x) * m_concentration p).

Definition computeDistance (p : MeshParams) (sender receiver : Z) : res Z :=
  '(sx, sy) ← computePosition p sender;
  '(dx, dy) ← computePosition p receiver;
  if m_wrap_around p
  then Ok (Z.min (Z.abs (sx - dx)) (m_mesh_width p - Z.abs (sx - dx)) + Z.min (Z.abs (sy - dy)) (m_mesh_height p - Z.abs (sy - dy)))
  else Ok (Z.abs (sx - dx) + Z.abs (sy - dy)).

(** The direction that gets from [s] to [d], on a line or ring of [n] nodes: [Some true] is down or left. *)
Definition dimension_step (wrap : bool) (n s d : Z) : option bool :=
  if xorb (d <? s) (wrap && (Z.quot (n + 1) 2 <? Z.abs (s - d))) then Some true
  else if negb (s =? d) then Some false
  else None.

Definition getNextDest (cfg : NetCfg) (n : MeshNode) (final_dest : Z) : res (OutputDirection * Z) :=
  let p := mn_mesh n in
  if n_application_cores cfg <=? final_dest then Ok (DESTINATION, final_dest)
  else
    here ← c_div (mn_core_id n) (m_concentration p);
    there ← c_div final_dest (m_concentration p);
    if here =? there then Ok (DESTINATION, final_dest)
    else if m_fake_node n then Ok (PEER, mn_core_id n - Z.rem (mn_core_id n) (m_concentration p))
    else
      '(sx, sy) ← computePosition p (mn_core_id n);
      '(dx, dy) ← computePosition p final_dest;
      match dimension_step (m_wrap_around p) (m_mesh_width p) sx dx with
      | Some true => next ← computeCoreId p (sx - 1) sy; Ok (LEFT, next)
      | Some false => next ← computeCoreId p (sx + 1) sy; Ok (RIGHT, next)
      | None =>
          match dimension_step (m_wrap_around p) (m_mesh_height p) sy dy with
          | Some true => next ← computeCoreId p sx (sy - 1); Ok (DOWN, next)
          | Some false => next ← computeCoreId p sx (sy + 1); Ok (UP, next)
          | None => Ok (SELF, mn_core_id n)
          end
      end.

(** ** Time *)

Section node.
Context (cfg : NetCfg).
Local Abbreviation M := (ST MeshNode).

Definition computeProcessingTime (pkt_length : Z) : M Z :=
  n ← gets id;
  _ ← assertM (negb (m_fake_node n));
  lift_res (bpc_getRoundedLatency (n_periods cfg) (m_link_bandwidth n) (u32 (pkt_length * 8))).

(** [computeQueueDelay] on the queue of a link, and on the ports *)
Definition link_delay (i : nat) (time processing_time : Z) : M Z :=
  n ← gets id;
  q ← lift_res (aget (m_queue_models n) i);
  '(d, q) ← lift_res (computeQueueDelay (n_pow_root cfg) (n_global_time cfg) q time processing_time);
  _ ← modify (fun n => with_queues (<[i := q]> (m_queue_models n)) (m_injection_port n) (m_ejection_port n) n);
  mret d.

(** The latency of a hop and the queue delay in it. *)
Definition computeLatency (direction : OutputDirection) (time pkt_length requester : Z) : M (Z * Z) :=
  n ← gets id;
  _ ← assertM (negb (m_fake_node n));
  match link_index direction with
  | None => fail AssertFailed
  | Some i =>
      if negb (mn_enabled n) || (n_application_cores cfg <=? requester) then mret (Zero, Zero)
      else
        processing_time ← computeProcessingTime pkt_length;
        queue_delay ← (if m_queue_model_enabled (mn_mesh n) then link_delay i time processing_time else mret Zero);
        mret (st_add (cl_getLatency (n_periods cfg) (m_hop_latency n)) queue_delay, queue_delay)
  end.

Definition computeInjectionPortQueueDelay (pkt_receiver time pkt_length : Z) : M Z :=
  n ← gets id;
  _ ← assertM (negb (m_fake_node n));
  if negb (m_queue_model_enabled (mn_mesh n)) then mret Zero
  else if pkt_receiver =? mn_core_id n then mret Zero
  else
    processing_time ← computeProcessingTime pkt_length;
    match m_injection_port n with
    | None => fail NullDeref
    | Some q =>
        '(d, q) ← lift_res (computeQueueDelay (n_pow_root cfg) (n_global_time cfg) q time processing_time);
        _ ← modify (fun n => with_queues (m_queue_models n) (Some q) (m_ejection_port n) n);
        mret d
    end.

Definition computeEjectionPortQueueDelay (time pkt_length : Z) : M Z :=
  n ← gets id;
  _ ← assertM (negb (m_fake_node n));
  if negb (m_queue_model_enabled (mn_mesh n)) then mret Zero
  else
    processing_time ← computeProcessingTime pkt_length;
    match m_ejection_port n with
    | None => fail NullDeref
    | Some q =>
        '(d, q) ← lift_res (computeQueueDelay (n_pow_root cfg) (n_global_time cfg) q time processing_time);
        _ ← modify (fun n => with_queues (m_queue_models n) (m_injection_port n) (Some q) n);
        mret d
    end.

(** A hop and the queue delay that is added to the packet when [queue_delay_stats] is given. *)
Definition addHop (direction : OutputDirection) (final_dest next_dest time pkt_length requester : Z) : M (Hop * Z) :=
  match link_index direction with
  | None => mret (mkHop final_dest next_dest time, Zero)
  | Some _ =>
      '(latency, queue_delay) ← computeLatency direction time pkt_length requester;
      mret (mkHop final_dest next_dest (st_add time latency), queue_delay)
  end.

(** ** Routing *)

(** The hop of a packet to each core in turn, from a fake node or as a collection of unicast messages. *)
Fixpoint warp_hops (k : nat) (i : Z) (time pkt_length requester : Z) : M (list Hop) :=
  match k with
  | O => mret []
  | S k =>
      '(h, _) ← addHop DESTINATION i i time pkt_length requester;
      l ← warp_hops k (i + 1) time pkt_length requester;
      mret (h :: l)
  end.
Fixpoint unicast_hops (k : nat) (i : Z) (time pkt_length requester : Z) : M (list Hop) :=
  match k with
  | O => mret []
  | S k =>
      injection_port_queue_delay ← computeInjectionPortQueueDelay i time pkt_length;
      n ← gets id;
      '(direction, next_dest) ← lift_res (getNextDest cfg n i);
      '(h, _) ← addHop direction i next_dest (st_add time injection_port_queue_delay) pkt_length requester;
      l ← unicast_hops k (i + 1) time pkt_length requester;
      mret (h :: l)
  end.

(** A branch of the broadcast tree that is taken if [b] holds. *)
Definition tree_hop (b : bool) (direction : OutputDirection) (x y time pkt_length requester : Z) : M (list Hop) :=
  if b then
    n ← gets id;
    next_dest ← lift_res (computeCoreId (mn_mesh n) x y);
    '(h, _) ← addHop direction BROADCAST next_dest time pkt_length requester;
    mret [h]
  else mret [].
Definition tree_hops (pkt : NetPacket) (pkt_length requester : Z) : M (list Hop) :=
  n ← gets id;
  injection_port_queue_delay ← (if pkt_sender pkt =? mn_core_id n
                                then computeInjectionPortQueueDelay (pkt_receiver pkt) (pkt_time pkt) pkt_length else mret Zero);
  let curr_time := st_add (pkt_time pkt) injection_port_queue_delay in
  '(sx, sy) ← lift_res (computePosition (mn_mesh n) (pkt_sender pkt));
  '(cx, cy) ← lift_res (computePosition (mn_mesh n) (mn_core_id n));
  up ← tree_hop (sy <=? cy) UP cx (cy + 1) curr_time pkt_length requester;
  down ← tree_hop (cy <=? sy) DOWN cx (cy - 1) curr_time pkt_length requester;
  right ← tree_hop ((cy =? sy) && (sx <=? cx)) RIGHT (cx + 1) cy curr_time pkt_length requester;
  left ← tree_hop ((cy =? sy) && (cx <=? sx)) LEFT (cx - 1) cy curr_time pkt_length requester;
  self ← (if (cy =? sy) && (cx =? sx)
          then '(h, _) ← addHop SELF (mn_core_id n) (mn_core_id n) curr_time pkt_length requester; mret [h] else mret []);
  mret (up ++ down ++ right ++ left ++ self).

Definition count_sent (pkt : NetPacket) (pkt_length : Z) (n : MeshNode) : MeshNode :=
  if pkt_sender pkt =? mn_core_id n
  then with_mesh_stats (mn_enabled n) (u64 (m_total_bytes_sent n + pkt_length)) (u64 (m_total_packets_sent n + 1))
         (m_total_bytes_received n) (m_total_packets_received n) (m_total_contention_delay n) (m_total_packet_latency n) n
  else n.

(** The next hops, and the packet, whose queue delay a unicast adds to. *)
Definition mesh_routePacket (pkt : NetPacket) : M (list Hop * NetPacket) :=
  requester ← lift_res (packet_requester cfg pkt);
  pkt_length ← lift_res (net_getModeledLength cfg pkt);
  _ ← modify (count_sent pkt pkt_length);
  n ← gets id;
  if pkt_receiver pkt =? BROADCAST then
    hops ← (if m_fake_node n then warp_hops (Z.to_nat (n_total_cores cfg)) 0 (pkt_time pkt) pkt_length requester
            else if m_broadcast_tree_enabled (mn_mesh n) then tree_hops pkt pkt_length requester
            else
              _ ← assertM (pkt_sender pkt =? mn_core_id n);
              unicast_hops (Z.to_nat (n_total_cores cfg)) 0 (pkt_time pkt) pkt_length requester);
    mret (hops, pkt)
  else if m_fake_node n then
    '(h, _) ← addHop DESTINATION (pkt_receiver pkt) (pkt_receiver pkt) (pkt_time pkt) pkt_length requester;
    mret ([h], pkt)
  else
    injection_port_queue_delay ← (if pkt_sender pkt =? mn_core_id n
                                  then computeInjectionPortQueueDelay (pkt_receiver pkt) (pkt_time pkt) pkt_length else mret Zero);
    let curr_time := st_add (pkt_time pkt) injection_port_queue_delay in
    '(direction, next_dest) ← lift_res (getNextDest cfg n (pkt_receiver pkt));
    '(h, queue_delay) ← addHop direction (pkt_receiver pkt) next_dest curr_time pkt_length requester;
    mret ([h], with_pkt_queue_delay (st_add (st_add (pkt_queue_delay pkt) injection_port_queue_delay) queue_delay) pkt).

(** The packet as it is handed to its receiver. *)
Definition mesh_processReceivedPacket (pkt : NetPacket) : M NetPacket :=
  pkt_length ← lift_res (net_getModeledLength cfg pkt);
  requester ← lift_res (packet_requester cfg pkt);
  n ← gets id;
  if negb (mn_enabled n) || (n_application_cores cfg <=? requester) || (n_application_cores cfg <=? mn_core_id n) then mret pkt
  else
    let packet_latency := st_sub (pkt_time pkt) (pkt_start_time pkt) in
    distance ← lift_res (computeDistance (mn_mesh n) (pkt_sender pkt) (mn_core_id n));
    let contention_delay := st_sub packet_latency (st_mul distance (cl_getLatency (n_periods cfg) (m_hop_latency n))) in
    '(packet_latency, contention_delay, pkt) ←
      (if negb (pkt_sender pkt =? mn_core_id n) && negb (m_fake_node n) then
         processing_time ← computeProcessingTime pkt_length;
         ejection_port_queue_delay ← computeEjectionPortQueueDelay (pkt_time pkt) pkt_length;
         let d := st_add ejection_port_queue_delay processing_time in
         mret (st_add packet_latency d, st_add contention_delay ejection_port_queue_delay,
               with_pkt_queue_delay (st_add (pkt_queue_delay pkt) ejection_port_queue_delay) (with_pkt_time (st_add (pkt_time pkt) d) pkt))
       else mret (packet_latency, contention_delay, pkt));
    _ ← modify (fun n => with_mesh_stats (mn_enabled n) (m_total_bytes_sent n) (m_total_packets_sent n)
                           (u64 (m_total_bytes_received n + pkt_length)) (u64 (m_total_packets_received n + 1))
                           (st_add (m_total_contention_delay n) contention_delay) (st_add (m_total_packet_latency n) packet_latency) n);
    mret pkt.
End node.

(** ** Construction *)

(** [sqrt] of an integer and the conversions that [floor] and [ceil] are used with. *)
Definition d_sqrt (z : Z) : double := SFsqrt 53 1024 (to_double z).
Definition d_floor (d : double) : res Z :=
  match d with
  | S754_zero _ => Ok 0
  | S754_finite s m e => let z := (if s then - Z.pos m else Z.pos m) in Ok (if 0 <=? e then z * 2 ^ e else z / 2 ^ (- e))
  | _ => Err BadConversion
  end.
Definition d_ceil (d : double) : res Z := z ← d_floor (SFopp d); Ok (- z).
Definition to_s32 (z : Z) : res Z := if (- 2 ^ 31 <=? z) && (z <? 2 ^ 31) then Ok z else Err BadConversion.

(** [%d] of sscanf: the number at the start of a string, and the rest. *)
Definition digit (c : ascii) : option Z :=
  let n := Z.of_N (N_of_ascii c) in if (48 <=? n) && (n <=? 57) then Some (n - 48) else None.
Definition is_space (c : ascii) : bool :=
  let n := Z.of_N (N_of_ascii c) in (n =? 32) || ((9 <=? n) && (n <=? 13)).
Fixpoint scan_digits (acc : option Z) (s : string) : option (Z * string) :=
  match s with
  | String c s' =>
      match digit c with
      | Some d => scan_digits (Some (10 * default 0 acc + d)) s'
      | None => (fun a => (a, s)) <$> acc
      end
  | EmptyString => (fun a => (a, s)) <$> acc
  end.
Fixpoint scan_d (s : string) : option (Z * string) :=
  match s with
  | String c s' =>
      if is_space c then scan_d s'
      else if Ascii.eqb c "-" then (fun '(z, r) => (- z, r)) <$> scan_digits None s'
      else if Ascii.eqb c "+" then scan_digits None s'
      else scan_digits None s
  | EmptyString => None
  end.
(** [sscanf(size, "%d:%d", &width, &height) == 2] *)
Definition scan_size (s : string) : option (Z * Z) :=
  match scan_d s with
  | Some (w, String c r) => if Ascii.eqb c ":" then (fun '(h, _) => (w, h)) <$> scan_d r else None
  | _ => None
  end.

(** The entries of the configuration under network/emesh_hop_by_hop; [mc_concentration] is already
    multiplied by the number of hardware threads. *)
Record MeshCfg := mkMeshCfg {
  mc_link_bandwidth : Z;
  mc_hop_latency : Z;
  mc_concentration : Z;
  mc_dimensions : Z;
  mc_wrap_around : bool;
  mc_size : string;
  mc_queue_model_enabled : bool;
  mc_queue_model_type : string;
  mc_broadcast_tree_enabled : bool;
  mc_queue : QueueCfg
}.

Definition computeMeshDimensions (cfg : NetCfg) (c : MeshCfg) : res (Z * Z) :=
  let core_count := n_application_cores cfg in
  let concentration := mc_concentration c in
  '(w, h) ←
    (if bool_decide (mc_size c = ""%string) then
       if mc_dimensions c =? 1 then w ← c_div core_count concentration; Ok (w, 1)
       else if mc_dimensions c =? 2 then
         nodes ← c_div core_count concentration;
         w ← (z ← d_floor (d_sqrt nodes); to_s32 z);
         h ← (z ← d_ceil (d_div (d_div (to_double core_count) (to_double concentration)) (to_double w)); to_s32 z);
         Ok (w, h)
       else Err LogError
     else match scan_size (mc_size c) with Some (w, h) => Ok (w, h) | None => Err AssertFailed end);
  _ ← assert_ (core_count =? concentration * h * w);
  Ok (w, h).

Definition MeshNode_new (cfg : NetCfg) (c : MeshCfg) (core_domain : Z -> pref) (core_id : Z) : res MeshNode :=
  '(w, h) ← computeMeshDimensions cfg c;
  let p := mkMesh w h (mc_concentration c) (mc_wrap_around c) (mc_broadcast_tree_enabled c) (mc_queue_model_enabled c) in
  let bandwidth := {| bpc_period := core_domain core_id; m_bw_in_bits_per_cycle := mc_link_bandwidth c |} in
  let latency := {| cl_period := core_domain core_id; m_fixed_cycle_latency := mc_hop_latency c |} in
  r ← c_mod core_id (mc_concentration c);
  if negb (r =? 0) || (mc_concentration c * w * h <=? core_id)
  then Ok (mkMeshNode p core_id true bandwidth latency [] None None false 0 0 0 0 Zero Zero)
  else
    q ← QueueModel_create (mc_queue c) (mc_queue_model_type c) (n_periods cfg (core_domain core_id));
    Ok (mkMeshNode p core_id false bandwidth latency [q; q; q; q] (Some q) (Some q) false 0 0 0 0 Zero Zero).

(** ** Placement of memory controllers *)

(** The cores along the perimeter, clockwise from (0, 0). *)
Definition along_perimeter (dimensions w h : Z) : list Z :=
  let up n := Z.of_nat <$> seq 0 (Z.to_nat n) in
  up w ++
  (if (1 <? dimensions) && (1 <? h) then
     ((fun i => (i + 1) * w + w - 1) <$> up (h - 2)) ++
     ((fun i => (h - 1) * w + (w - 1 - i)) <$> up w) ++
     ((fun i => (h - 2 - i) * w) <$> up (h - 2))
   else []).

Definition mesh_computeMemoryControllerPositions (cfg : NetCfg) (c : MeshCfg) (num_memory_controllers : Z) : res (list Z) :=
  '(w, h) ← computeMeshDimensions cfg c;
  let l := along_perimeter (mc_dimensions c) w h in
  let size := Z.of_nat (length l) in
  _ ← (if (1 <? mc_dimensions c) && (1 <? h) then assert_ (size =? u32 (2 * (w + h - 2))) else Ok tt);
  _ ← assert_ (u32 num_memory_controllers <=? size);
  if num_memory_controllers =? 0 then Err DivByZero else
  let spacing := s32 (size / u64 num_memory_controllers) in
  mapM (fun i => core ← aget l (Z.to_nat (u64 (i * spacing + Z.quot w 2) mod size)); Ok (mc_concentration c * core))
    (Z.of_nat <$> seq 0 (Z.to_nat num_memory_controllers)).

Definition mesh_computeCoreCountConstraints (cfg : NetCfg) (c : MeshCfg) (core_count : Z) : res Z :=
  '(w, h) ← computeMeshDimensions cfg c;
  _ ← assert_ (core_count <=? w * h);
  _ ← assert_ ((w - 1) * h <? core_count);
  _ ← assert_ (w * (h - 1) <? core_count);
  Ok (h * w).
