(* ===== verification/Network.v ===== *)
(** * The network

    Models network/network_model.{h,cc}, the magic, hop-counter and bus models
    (network_model_magic.cc, network_model_emesh_hop_counter.cc,
    network_model_bus.cc), network/network.{h,cc} and the queues of
    transport/smtransport.cc.  The networks of all cores are one state: [netSend]
    reaches into the models of the cores on the way of a packet.  A call of a
    registered callback is an event. *)

From Stdlib Require Import SpecFloat.
From S2P Require Import Prelude StateMonad Utils SubsecondTime QueueModel DramDirectoryCntlr NetworkMesh.

(** ** The other models *)

Record MagicNode := mkMagic { mg_enabled : bool; mg_num_packets : Z; mg_num_bytes : Z; mg_latency : ComponentLatency }.

Record CounterNode := mkCounter {
  hc_mesh_width : Z; hc_mesh_height : Z;
  hc_hop_latency : ComponentLatency; hc_link_bandwidth : ComponentBandwidthPerCycle;
  hc_enabled : bool; hc_num_packets : Z; hc_num_bytes : Z; hc_total_latency : Z
}.

(** NetworkModelBusGlobal, one per static network, and a node on it *)
Record BusGlobal := mkBus {
  bus_bandwidth : ComponentBandwidth; bus_queue : QueueModel;
  bus_num_packets : Z; bus_num_packets_delayed : Z; bus_num_bytes : Z; bus_time_used : Z; bus_total_delay : Z
}.
Record BusNode := mkBusNode { bn_enabled : bool; bn_ignore_local : bool }.

Inductive NetworkModel := Magic (m : MagicNode) | HopCounter (m : CounterNode) | HopByHop (m : MeshNode) | Bus (m : BusNode).

(** A model with the traffic matrix of its base class: packets and bytes per destination, the last entry for broadcasts. *)
Record ModelObj := mkModelObj { mo_model : NetworkModel; mo_matrix : option (list Z * list Z) }.

Definition net_index (s : EStaticNetwork) : nat := match s with STATIC_NETWORK_MEMORY_1 => 0 | STATIC_NETWORK_SYSTEM => 1 end.

(** The Network object of a core: its models by static network, the types with a callback, the queue of
    packets received synchronously, and the queue of its transport node. *)
Record NetNode := mkNetNode {
  nn_models : list ModelObj;
  nn_callback : PacketType -> bool;
  nn_queue : list NetPacket;
  nn_transport : list NetPacket
}.

(** All cores, the buses, and the calls of callbacks so far. *)
Record Net := mkNet { n_nodes : list NetNode; n_bus : list (option BusGlobal); n_calls : list (Z * NetPacket) }.

Definition with_models (l : list ModelObj) (n : NetNode) : NetNode := mkNetNode l (nn_callback n) (nn_queue n) (nn_transport n).
Definition with_nn_callback (f : PacketType -> bool) (n : NetNode) : NetNode := mkNetNode (nn_models n) f (nn_queue n) (nn_transport n).
Definition with_nn_queue (l : list NetPacket) (n : NetNode) : NetNode := mkNetNode (nn_models n) (nn_callback n) l (nn_transport n).
Definition with_nn_transport (l : list NetPacket) (n : NetNode) : NetNode := mkNetNode (nn_models n) (nn_callback n) (nn_queue n) l.
Definition with_n_nodes (l : list NetNode) (n : Net) : Net := mkNet l (n_bus n) (n_calls n).
Definition with_n_bus (l : list (option BusGlobal)) (n : Net) : Net := mkNet (n_nodes n) l (n_calls n).
Definition with_n_calls (l : list (Z * NetPacket)) (n : Net) : Net := mkNet (n_nodes n) (n_bus n) l.

Section network.
Context (cfg : NetCfg).
Local Abbreviation M := (ST Net).

Definition node (core : Z) : M NetNode := l ← gets n_nodes; lift_res (aget l (Z.to_nat core)).
Definition set_node (core : Z) (n : NetNode) : M unit := modify (fun s => with_n_nodes (<[Z.to_nat core := n]> (n_nodes s)) s).
Definition model_obj (core : Z) (s : EStaticNetwork) : M ModelObj := n ← node core; lift_res (aget (nn_models n) (net_index s)).
Definition set_model_obj (core : Z) (s : EStaticNetwork) (m : ModelObj) : M unit :=
  n ← node core; set_node core (with_models (<[net_index s := m]> (nn_models n)) n).
Definition set_model (core : Z) (s : EStaticNetwork) (m : NetworkModel) : M unit :=
  o ← model_obj core s; set_model_obj core s (mkModelObj m (mo_matrix o)).

(** *** Magic *)

Definition all_hops (time : Z) : list Hop :=
  (fun i => mkHop (Z.of_nat i) (Z.of_nat i) time) <$> seq 0 (Z.to_nat (n_total_cores cfg)).

Definition magic_routePacket (m : MagicNode) (pkt : NetPacket) : list Hop :=
  let time := st_add (pkt_time pkt) (cl_getLatency (n_periods cfg) (mg_latency m)) in
  if pkt_receiver pkt =? BROADCAST then all_hops time else [mkHop (pkt_receiver pkt) (pkt_receiver pkt) time].

Definition magic_processReceivedPacket (m : MagicNode) (pkt : NetPacket) : res MagicNode :=
  requester ← packet_requester cfg pkt;
  if negb (mg_enabled m) || (n_application_cores cfg <=? requester) then Ok m
  else
    pkt_length ← net_getModeledLength cfg pkt;
    Ok (mkMagic (mg_enabled m) (u64 (mg_num_packets m + 1)) (u64 (mg_num_bytes m + pkt_length)) (mg_latency m)).

(** *** Hop counter *)

(** The mesh is the smallest that is as square as possible. *)
Definition CounterNode_new (hop_latency : ComponentLatency) (link_bandwidth : ComponentBandwidthPerCycle) : res CounterNode :=
  let total_cores := n_total_cores cfg in
  w ← (z ← d_floor (d_sqrt total_cores); to_s32 z);
  h ← (z ← d_ceil (d_div (to_double total_cores) (to_double w)); to_s32 z);
  _ ← assert_ (total_cores <=? w * h);
  _ ← assert_ ((w - 1) * h <? total_cores);
  _ ← assert_ (w * (h - 1) <? total_cores);
  Ok (mkCounter w h hop_latency link_bandwidth false 0 0 Zero).

Definition counter_computePosition (m : CounterNode) (core : Z) : res (Z * Z) :=
  x ← c_mod core (hc_mesh_width m); y ← c_div core (hc_mesh_width m); Ok (x, y).
Definition counter_computeDistance (x1 y1 x2 y2 : Z) : Z := Z.abs (x1 - x2) + Z.abs (y1 - y2).
Definition computeSerializationLatency (m : CounterNode) (pkt_length : Z) : res Z :=
  bpc_getRoundedLatency (n_periods cfg) (hc_link_bandwidth m) (u32 (pkt_length * 8)).

(** The hop to [dest]: [time] and the latency over the mesh. *)
Definition counter_hop (m : CounterNode) (sender sx sy serialization_latency time dest : Z) : res Hop :=
  '(dx, dy) ← counter_computePosition m dest;
  let latency := st_mul (counter_computeDistance sx sy dx dy) (cl_getLatency (n_periods cfg) (hc_hop_latency m)) in
  let latency := if negb (dest =? sender) then st_add latency serialization_latency else latency in
  Ok (mkHop dest dest (st_add time latency)).
Fixpoint counter_broadcast (m : CounterNode) (sender sx sy serialization_latency : Z) (k : nat) (i curr_time : Z) : res (list Hop) :=
  match k with
  | O => Ok []
  | S k =>
      h ← counter_hop m sender sx sy serialization_latency curr_time i;
      l ← counter_broadcast m sender sx sy serialization_latency k (i + 1) (st_add curr_time serialization_latency);
      Ok (h :: l)
  end.
Definition counter_routePacket (m : CounterNode) (pkt : NetPacket) : res (list Hop) :=
  pkt_length ← net_getModeledLength cfg pkt;
  serialization_latency ← computeSerializationLatency m pkt_length;
  '(sx, sy) ← counter_computePosition m (pkt_sender pkt);
  if pkt_receiver pkt =? BROADCAST
  then counter_broadcast m (pkt_sender pkt) sx sy serialization_latency (Z.to_nat (n_total_cores cfg)) 0 (pkt_time pkt)
  else h ← counter_hop m (pkt_sender pkt) sx sy serialization_latency (pkt_time pkt) (pkt_receiver pkt); Ok [h].

Definition counter_processReceivedPacket (m : CounterNode) (pkt : NetPacket) : res CounterNode :=
  pkt_length ← net_getModeledLength cfg pkt;
  requester ← packet_requester cfg pkt;
  if negb (hc_enabled m) || (n_application_cores cfg <=? requester) then Ok m
  else
    let latency := st_sub (pkt_time pkt) (pkt_start_time pkt) in
    Ok (mkCounter (hc_mesh_width m) (hc_mesh_height m) (hc_hop_latency m) (hc_link_bandwidth m) (hc_enabled m)
          (u64 (hc_num_packets m + 1)) (u64 (hc_num_bytes m + pkt_length)) (st_add (hc_total_latency m) latency)).

(** *** Bus *)

Definition accountPacket (m : BusNode) (pkt : NetPacket) : res bool :=
  requester ← packet_requester cfg pkt;
  Ok (negb (negb (bn_enabled m) || (bn_ignore_local m && (pkt_sender pkt =? pkt_receiver pkt))
            || (n_application_cores cfg <=? requester) || (n_application_cores cfg <=? pkt_sender pkt)
            || (n_application_cores cfg <=? pkt_receiver pkt))).

(** The time at which the packet is off the bus, and the queue delay. *)
Definition useBus (b : BusGlobal) (t_start length : Z) : res (Z * Z * BusGlobal) :=
  t_delay ← bw_getLatency (bus_bandwidth b) (u32 (length * 8));
  '(t_queue, q) ← computeQueueDelay (n_pow_root cfg) (n_global_time cfg) (bus_queue b) t_start t_delay;
  Ok (st_add (st_add t_start t_queue) t_delay, t_queue,
      mkBus (bus_bandwidth b) q (bus_num_packets b)
        (if st_gtb t_queue Zero then u64 (bus_num_packets_delayed b + 1) else bus_num_packets_delayed b)
        (bus_num_bytes b) (st_add (bus_time_used b) t_delay) (st_add (bus_total_delay b) t_queue)).

Definition bus_routePacket (s : EStaticNetwork) (m : BusNode) (pkt : NetPacket) : M (list Hop * NetPacket) :=
  account ← lift_res (accountPacket m pkt);
  '(t_recv, pkt) ←
    (if account : bool then
       l ← gets n_bus;
       b ← lift_res (aget l (net_index s));
       match b with
       | None => fail NullDeref
       | Some b =>
           pkt_length ← lift_res (net_getModeledLength cfg pkt);
           let b := mkBus (bus_bandwidth b) (bus_queue b) (u64 (bus_num_packets b + 1)) (bus_num_packets_delayed b)
                      (u64 (bus_num_bytes b + pkt_length)) (bus_time_used b) (bus_total_delay b) in
           '(t, d, b) ← lift_res (useBus b (pkt_time pkt) (NetworkMesh.pkt_length pkt));
           _ ← modify (with_n_bus (<[net_index s := Some b]> l));
           mret (t, with_pkt_queue_delay (st_add (pkt_queue_delay pkt) d) pkt)
       end
     else mret (pkt_time pkt, pkt));
  mret (if pkt_receiver pkt =? BROADCAST then all_hops t_recv else [mkHop (pkt_receiver pkt) (pkt_receiver pkt) t_recv], pkt).

(** ** Dispatch *)

Definition routePacket (core : Z) (s : EStaticNetwork) (pkt : NetPacket) : M (list Hop * NetPacket) :=
  o ← model_obj core s;
  match mo_model o with
  | Magic m => mret (magic_routePacket m pkt, pkt)
  | HopCounter m => l ← lift_res (counter_routePacket m pkt); mret (l, pkt)
  | HopByHop m => '(r, m) ← lift_res (mesh_routePacket cfg pkt m); _ ← set_model core s (HopByHop m); mret r
  | Bus m => bus_routePacket s m pkt
  end.

Definition processReceivedPacket (core : Z) (s : EStaticNetwork) (pkt : NetPacket) : M NetPacket :=
  o ← model_obj core s;
  match mo_model o with
  | Magic m => m ← lift_res (magic_processReceivedPacket m pkt); _ ← set_model core s (Magic m); mret pkt
  | HopCounter m => m ← lift_res (counter_processReceivedPacket m pkt); _ ← set_model core s (HopCounter m); mret pkt
  | HopByHop m => '(r, m) ← lift_res (mesh_processReceivedPacket cfg pkt m); _ ← set_model core s (HopByHop m); mret r
  | Bus m => mret pkt
  end.

Definition countPacket (core : Z) (s : EStaticNetwork) (pkt : NetPacket) : M unit :=
  o ← model_obj core s;
  match mo_matrix o with
  | None => mret tt
  | Some (packets, bytes) =>
      let dst := if pkt_receiver pkt =? BROADCAST then (length bytes - 1)%nat else Z.to_nat (pkt_receiver pkt) in
      pkt_length ← lift_res (net_getModeledLength cfg pkt);
      packets' ← lift_res (p ← aget packets dst; Ok (<[dst := u64 (p + 1)]> packets));
      bytes' ← lift_res (b ← aget bytes dst; Ok (<[dst := u64 (b + pkt_length)]> bytes));
      set_model_obj core s (mkModelObj (mo_model o) (Some (packets', bytes')))
  end.

(** ** Sending *)

(** [SmNode::send]; a core number is converted to UInt32. *)
Definition transport_send (dest : Z) (pkt : NetPacket) : M unit :=
  _ ← assertM (u32 dest <? n_total_cores cfg);
  n ← node dest;
  set_node dest (with_nn_transport (nn_transport n ++ [pkt]) n).

(** The loop that follows a unicast packet to its destination through the models on the way; the
    packet's time, receiver and queue delay are updated as it goes. *)
Fixpoint follow (fuel : nat) (s : EStaticNetwork) (h : Hop) (pkt : NetPacket) : M (Hop * NetPacket) :=
  if next_dest h =? final_dest h then mret (h, pkt)
  else
    match fuel with
    | O => fail OutOfFuel
    | S fuel =>
        let pkt := with_pkt_receiver (final_dest h) (with_pkt_time (hop_time h) pkt) in
        _ ← assertM (next_dest h <? n_total_cores cfg);
        '(l, pkt) ← routePacket (next_dest h) s pkt;
        match l with
        | [h] => follow fuel s h pkt
        | _ => fail AssertFailed
        end
    end.

(** The loop over the hops: [buff] is the packet in the buffer that is sent. *)
Fixpoint send_hops (core : Z) (s : EStaticNetwork) (start_time : Z) (l : list Hop) (pkt buff : NetPacket) : M NetPacket :=
  match l with
  | [] => mret pkt
  | h :: l =>
      '(h, pkt) ← (if negb (final_dest h =? BROADCAST) then follow (Z.to_nat (n_total_cores cfg)) s h pkt else mret (h, pkt));
      let buff := if core =? pkt_sender buff then with_pkt_start_time start_time buff else buff in
      let buff := with_pkt_receiver (final_dest h) (with_pkt_time (hop_time h) buff) in
      _ ← transport_send (next_dest h) buff;
      send_hops core s start_time l pkt buff
  end.

(** The packet is passed by reference; it is returned as the sender sees it afterwards. *)
Definition netSend (core : Z) (pkt : NetPacket) : M NetPacket :=
  let s := g_type_to_static_network_map (pkt_type pkt) in
  _ ← countPacket core s pkt;
  '(hops, pkt) ← routePacket core s pkt;
  _ ← assertM (sizeof_NetPacket <=? bufferSize pkt);
  send_hops core s (pkt_time pkt) hops pkt pkt.

(** ** Receiving *)

(** One turn of the loop of [netPullFromTransport], on a packet taken from the transport. *)
Definition handle_packet (core : Z) (pkt : NetPacket) : M unit :=
  _ ← assertM ((0 <=? pkt_sender pkt) && (pkt_sender pkt <? n_total_cores cfg));
  pkt' ← (if negb (pkt_receiver pkt =? core) then netSend core pkt else mret pkt);
  if negb (pkt_receiver pkt =? core) && negb (pkt_receiver pkt' =? BROADCAST) then mret tt
  else
    pkt ← processReceivedPacket core (g_type_to_static_network_map (pkt_type pkt')) pkt';
    n ← node core;
    if nn_callback n (pkt_type pkt)
    then modify (fun s => with_n_calls (n_calls s ++ [(core, pkt)]) s)
    else set_node core (with_nn_queue (nn_queue n ++ [pkt]) n).

(** [fuel] bounds the number of packets taken from the transport; the thread waits when there is none at first. *)
Fixpoint netPullFromTransport (fuel : nat) (core : Z) : M unit :=
  n ← node core;
  match nn_transport n with
  | [] => mret tt
  | pkt :: l =>
      match fuel with
      | O => fail OutOfFuel
      | S fuel =>
          _ ← set_node core (with_nn_transport l n);
          _ ← handle_packet core pkt;
          netPullFromTransport fuel core
      end
  end.

Record NetMatch := mkMatch { nm_senders : list Z; nm_types : list PacketType }.
Definition matches (m : NetMatch) (p : NetPacket) : bool :=
  (match nm_senders m with [] => (0 <=? pkt_sender p) && (pkt_sender p <? n_total_cores cfg) | l => bool_decide (pkt_sender p ∈ l) end) &&
  (match nm_types m with [] => true | l => bool_decide (pkt_type p ∈ l) end).

(** The earliest packet that matches, and its position. *)
Fixpoint find_earliest (m : NetMatch) (i : nat) (l : list NetPacket) (best : option (nat * NetPacket)) : option (nat * NetPacket) :=
  match l with
  | [] => best
  | p :: l =>
      find_earliest m (S i) l
        (if matches m p then
           match best with
           | None => Some (i, p)
           | Some (_, b) => if pkt_time p <? pkt_time b then Some (i, p) else best
           end
         else best)
  end.

(** [netRecv] when its thread has the lock: no packet matches, so that it waits, or the packet is taken
    and, on a core that runs no application, a RecvInstruction of that latency is queued. *)
Definition netRecv (core : Z) (m : NetMatch) (start_time : Z) : M (option (NetPacket * option Z)) :=
  n ← node core;
  match find_earliest m 0 (nn_queue n) None with
  | None => mret None
  | Some (i, pkt) =>
      _ ← assertM ((0 <=? pkt_sender pkt) && (pkt_sender pkt <? n_total_cores cfg));
      _ ← assertM ((pkt_receiver pkt =? core) || (pkt_receiver pkt =? BROADCAST));
      _ ← set_node core (with_nn_queue (delete i (nn_queue n)) n);
      if st_gtb (pkt_time pkt) start_time then
        let d := st_sub (pkt_time pkt) start_time in
        if core <? n_application_cores cfg then _ ← assertM (st_ltb d (st_mul 100 (NS 1))); mret (Some (pkt, None))
        else mret (Some (pkt, Some d))
      else mret (Some (pkt, None))
  end.

(** ** Set-up *)

Definition registerCallback (core : Z) (type : PacketType) (b : bool) : M unit :=
  n ← node core; set_node core (with_nn_callback (fun t => if decide (t = type) then b else nn_callback n t) n).

Definition model_set_enabled (b : bool) (m : NetworkModel) : NetworkModel :=
  match m with
  | Magic m => Magic (mkMagic b (mg_num_packets m) (mg_num_bytes m) (mg_latency m))
  | HopCounter m => HopCounter (mkCounter (hc_mesh_width m) (hc_mesh_height m) (hc_hop_latency m) (hc_link_bandwidth m) b
                                  (hc_num_packets m) (hc_num_bytes m) (hc_total_latency m))
  | HopByHop m => HopByHop (mesh_set_enabled b m)
  | Bus m => Bus (mkBusNode b (bn_ignore_local m))
  end.
Definition node_set_models (b : bool) (n : NetNode) : NetNode :=
  with_models ((fun o => mkModelObj (model_set_enabled b (mo_model o)) (mo_matrix o)) <$> nn_models n) n.
Definition net_set_models (b : bool) (core : Z) : M unit := n ← node core; set_node core (node_set_models b n).
End network.

Inductive NetworkType := NETWORK_MAGIC | NETWORK_EMESH_HOP_COUNTER | NETWORK_EMESH_HOP_BY_HOP | NETWORK_BUS.
Definition parseNetworkType (str : string) : option NetworkType :=
  if bool_decide (str = "magic"%string) then Some NETWORK_MAGIC
  else if bool_decide (str = "emesh_hop_counter"%string) then Some NETWORK_EMESH_HOP_COUNTER
  else if bool_decide (str = "emesh_hop_by_hop"%string) then Some NETWORK_EMESH_HOP_BY_HOP
  else if bool_decide (str = "bus"%string) then Some NETWORK_BUS
  else None.

(** What the models read of the configuration; [nt_domain] is the clock of a core. *)
Record NetworkCfg := mkNetworkCfg {
  nt_mesh : MeshCfg;
  nt_counter_latency : Z; nt_counter_bandwidth : Z;
  nt_ignore_local : bool;
  nt_domain : Z -> pref;
  nt_collect_traffic_matrix : bool
}.

Definition createModel (cfg : NetCfg) (c : NetworkCfg) (type : option NetworkType) (core : Z) : res ModelObj :=
  m ← match type with
      | Some NETWORK_MAGIC => Ok (Magic (mkMagic false 0 0 {| cl_period := nt_domain c core; m_fixed_cycle_latency := 1 |}))
      | Some NETWORK_EMESH_HOP_COUNTER =>
          m ← CounterNode_new cfg {| cl_period := nt_domain c core; m_fixed_cycle_latency := nt_counter_latency c |}
                {| bpc_period := nt_domain c core; m_bw_in_bits_per_cycle := nt_counter_bandwidth c |};
          Ok (HopCounter m)
      | Some NETWORK_EMESH_HOP_BY_HOP => m ← MeshNode_new cfg (nt_mesh c) (nt_domain c) core; Ok (HopByHop m)
      | Some NETWORK_BUS => Ok (Bus (mkBusNode false (nt_ignore_local c)))
      | None => Err AssertFailed
      end;
  let zeros := replicate (Z.to_nat (n_total_cores cfg) + 1) 0 in
  Ok (mkModelObj m (if nt_collect_traffic_matrix c then Some (zeros, zeros) else None)).

(** The network of every core, with the two static networks of given types; the buses are created with the first node. *)
Fixpoint create_nodes (cfg : NetCfg) (c : NetworkCfg) (memory system : option NetworkType) (k : nat) (core : Z) : res (list NetNode) :=
  match k with
  | O => Ok []
  | S k =>
      m1 ← createModel cfg c memory core;
      m2 ← createModel cfg c system core;
      l ← create_nodes cfg c memory system k (core + 1);
      Ok (mkNetNode [m1; m2] (fun _ => false) [] [] :: l)
  end.
Definition Net_new (cfg : NetCfg) (c : NetworkCfg) (memory system : option NetworkType) (bus : option BusGlobal) : res Net :=
  l ← create_nodes cfg c memory system (Z.to_nat (n_total_cores cfg)) 0;
  Ok (mkNet l [bus; bus] []).

(** Memory controllers of the models without a layout of their own are spread evenly. *)
Definition computeMemoryControllerPositions (cfg : NetCfg) (c : MeshCfg) (type : NetworkType) (num_memory_controllers core_count : Z)
  : res (list Z) :=
  match type with
  | NETWORK_EMESH_HOP_BY_HOP => mesh_computeMemoryControllerPositions cfg c num_memory_controllers
  | _ =>
      spacing ← c_div core_count num_memory_controllers;
      mapM (fun i => _ ← assert_ (i * spacing <? core_count); Ok (i * spacing)) (Z.of_nat <$> seq 0 (Z.to_nat num_memory_controllers))
  end.
Definition computeCoreCountConstraints (cfg : NetCfg) (c : MeshCfg) (type : NetworkType) (core_count : Z) : res (bool * Z) :=
  match type with
  | NETWORK_EMESH_HOP_BY_HOP => n ← mesh_computeCoreCountConstraints cfg c core_count; Ok (true, n)
  | _ => Ok (false, core_count)
  end.
