(* ===== verification/NetworkRouting.v ===== *)
(** * Delivery of packets

    Proofs about Network and NetworkMesh: where and when packets arrive that
    [netSend] routes over a mesh. *)

From stdpp Require Import relations.
From S2P Require Import Prelude StateMonad Utils SubsecondTime QueueModel DramDirectoryCntlr NetworkMesh Network.

(** ** Geometry *)

(** The number of steps that [dimension_step] takes from [s] to [d]. *)
Definition steps (wrap : bool) (n s d : Z) : Z :=
  if wrap && (Z.quot (n + 1) 2 <? Z.abs (s - d)) then n - Z.abs (s - d) else Z.abs (s - d).

Definition around (n x : Z) : Z := Z.rem (x + n) n.

Lemma around_spec n x : 0 < n -> -1 <= x <= n -> around n x = if x =? -1 then n - 1 else if x =? n then 0 else x.
Proof.
  intros Hn Hx. unfold around. rewrite Z.rem_mod_nonneg by lia. zcase; [subst|zcase; [subst|]].
  - rewrite Z.mod_small by lia. lia.
  - replace (n + n) with (2 * n) by lia. apply Z.mod_mul. lia.
  - replace (x + n) with (x + 1 * n) by lia. rewrite Z.mod_add by lia. apply Z.mod_small. lia.
Qed.

Lemma steps_range wrap n s d : 0 <= s < n -> 0 <= d < n -> 0 <= steps wrap n s d < n /\ (steps wrap n s d = 0 <-> s = d).
Proof.
  intros Hs Hd. unfold steps. rewrite Z.quot_div_nonneg by lia. pose proof (Z.div_pos (n + 1) 2).
  destruct wrap; cbn [andb]; [zcase|]; lia.
Qed.

(** A step of the routing gets one step nearer. *)
Lemma dimension_step_spec wrap n s d :
  0 <= s < n -> 0 <= d < n ->
  match dimension_step wrap n s d with
  | None => s = d
  | Some b => let s' := around n (if b then s - 1 else s + 1) in
      s <> d /\ 0 <= s' < n /\ steps wrap n s' d = steps wrap n s d - 1
  end.
Proof.
  intros Hs Hd. unfold dimension_step, steps. rewrite Z.quot_div_nonneg by lia.
  pose proof (Z.div_mod (n + 1) 2 ltac:(lia)). pose proof (Z.mod_pos_bound (n + 1) 2 ltac:(lia)). set (h := (n + 1) / 2) in *.
  destruct (Z.eqb_spec s d) as [->|Hne].
  { rewrite Z.ltb_irrefl, Z.sub_diag. destruct (Z.ltb_spec h (Z.abs 0)); [lia|]. by rewrite andb_false_r. }
  destruct (Z.ltb_spec d s), wrap; cbn [andb xorb negb]; try destruct (Z.ltb_spec h (Z.abs (s - d))); cbn [xorb negb andb];
    (split; [done|]); rewrite around_spec by lia; repeat zcase; try lia.
Qed.

Lemma steps_distance (wrap : bool) n s d :
  0 <= s < n -> 0 <= d < n -> let m := if wrap then Z.min (Z.abs (s - d)) (n - Z.abs (s - d)) else Z.abs (s - d) in
  m <= steps wrap n s d <= m + 1 /\ (wrap = false \/ Z.even n = true -> steps wrap n s d = m).
Proof.
  intros Hs Hd. unfold steps. rewrite Z.quot_div_nonneg by lia.
  pose proof (Z.div_mod (n + 1) 2 ltac:(lia)). pose proof (Z.mod_pos_bound (n + 1) 2 ltac:(lia)). set (h := (n + 1) / 2) in *.
  destruct wrap; cbn [andb]; [|lia]. split; [zcase; lia|]. intros [|He]; [done|]. apply Z.even_spec in He as [k ->]. zcase; lia.
Qed.

Record mesh_ok (cfg : NetCfg) (p : MeshParams) : Prop := {
  mesh_width_pos : 0 < m_mesh_width p;
  mesh_height_pos : 0 < m_mesh_height p;
  mesh_concentration_pos : 0 < m_concentration p;
  mesh_cores : n_application_cores cfg = m_concentration p * (m_mesh_width p * m_mesh_height p);
  mesh_total : n_application_cores cfg <= n_total_cores cfg
}.

(** The node of a core and its coordinates. *)
Definition node_of (p : MeshParams) (c : Z) : Z := c / m_concentration p.
Definition xpos (p : MeshParams) (c : Z) : Z := node_of p c mod m_mesh_width p.
Definition ypos (p : MeshParams) (c : Z) : Z := node_of p c / m_mesh_width p.

(** The length of the route between two cores. *)
Definition route_hops (p : MeshParams) (c d : Z) : Z :=
  steps (m_wrap_around p) (m_mesh_width p) (xpos p c) (xpos p d) + steps (m_wrap_around p) (m_mesh_height p) (ypos p c) (ypos p d).

Section geometry.
Context (cfg : NetCfg) (p : MeshParams) (Hp : mesh_ok cfg p).

Lemma node_range c : 0 <= c < n_application_cores cfg -> 0 <= node_of p c < m_mesh_width p * m_mesh_height p.
Proof.
  destruct Hp as [Hw Hh Hc Hn _]. intros [H0 H1]. unfold node_of. split; [apply Z.div_pos; lia|]. apply Z.div_lt_upper_bound; lia.
Qed.
Lemma xpos_range c : 0 <= xpos p c < m_mesh_width p.
Proof. apply Z.mod_pos_bound, Hp. Qed.
Lemma ypos_range c : 0 <= c < n_application_cores cfg -> 0 <= ypos p c < m_mesh_height p.
Proof.
  intros H. pose proof (node_range c H). destruct Hp. unfold ypos. split; [apply Z.div_pos; lia|]. apply Z.div_lt_upper_bound; lia.
Qed.
Lemma node_of_pos c : node_of p c = ypos p c * m_mesh_width p + xpos p c.
Proof. destruct Hp. unfold xpos, ypos. pose proof (Z.div_mod (node_of p c) (m_mesh_width p) ltac:(lia)). lia. Qed.

Lemma computePosition_spec c : 0 <= c -> computePosition p c = Ok (xpos p c, ypos p c).
Proof.
  intros H. destruct Hp as [Hw Hh Hc _ _]. unfold computePosition, c_div, c_mod, xpos, ypos, node_of.
  destruct (Z.eqb_spec (m_concentration p) 0); [lia|]. cbn. destruct (Z.eqb_spec (m_mesh_width p) 0); [lia|]. cbn.
  pose proof (Z.div_pos c _ H Hc). by rewrite !Z.quot_div_nonneg, !Z.rem_mod_nonneg by lia.
Qed.

(** The core of the node at (x, y). *)
Definition core_at (x y : Z) : Z := (y * m_mesh_width p + x) * m_concentration p.

Lemma computeCoreId_spec x y : computeCoreId p x y = Ok (core_at (around (m_mesh_width p) x) (around (m_mesh_height p) y)).
Proof.
  destruct Hp as [Hw Hh _ _ _]. unfold computeCoreId, c_mod. destruct (Z.eqb_spec (m_mesh_width p) 0); [lia|]. cbn.
  destruct (Z.eqb_spec (m_mesh_height p) 0); [lia|]. done.
Qed.

Lemma around_id n x : 0 <= x < n -> around n x = x.
Proof. intros H. rewrite around_spec by lia. repeat zcase; lia. Qed.

Lemma core_at_spec x y :
  0 <= x < m_mesh_width p -> 0 <= y < m_mesh_height p ->
  0 <= core_at x y < n_application_cores cfg /\ core_at x y mod m_concentration p = 0 /\ xpos p (core_at x y) = x /\ ypos p (core_at x y) = y.
Proof.
  intros Hx Hy. destruct Hp as [Hw Hh Hc Hn _]. unfold xpos, ypos, node_of, core_at.
  rewrite Z.div_mul, Z.mod_mul by lia.
  assert (0 <= y * m_mesh_width p + x < m_mesh_width p * m_mesh_height p) as Hb by nia. split; [rewrite Hn; nia|]. split; [done|].
  rewrite (Z.add_comm (y * _)), Z.mod_add, Z.div_add, Z.mod_small, Z.div_small by lia. lia.
Qed.

Lemma route_hops_nonneg c d :
  0 <= c < n_application_cores cfg -> 0 <= d < n_application_cores cfg ->
  0 <= route_hops p c d <= m_mesh_width p + m_mesh_height p - 2 /\ (route_hops p c d = 0 <-> node_of p c = node_of p d).
Proof.
  intros Hc Hd. unfold route_hops.
  pose proof (steps_range (m_wrap_around p) _ _ _ (xpos_range c) (xpos_range d)) as [Hx Ex].
  pose proof (steps_range (m_wrap_around p) _ _ _ (ypos_range c Hc) (ypos_range d Hd)) as [Hy Ey].
  split; [lia|]. rewrite (node_of_pos c), (node_of_pos d). split; [intros H; rewrite (proj1 Ex), (proj1 Ey) by lia; lia|].
  intros H. pose proof (xpos_range c). pose proof (xpos_range d). assert (ypos p c = ypos p d) as Ey' by nia. rewrite (proj2 Ey Ey').
  rewrite (proj2 Ex) by lia. lia.
Qed.

(** [getNextDest] at a node that is not the destination's: the next node is one hop nearer. *)
Lemma getNextDest_spec n r :
  mn_mesh n = p -> m_fake_node n = false -> 0 <= mn_core_id n < n_application_cores cfg -> 0 <= r < n_application_cores cfg ->
  if decide (node_of p (mn_core_id n) = node_of p r) then getNextDest cfg n r = Ok (DESTINATION, r)
  else exists dir next, getNextDest cfg n r = Ok (dir, next) /\ is_Some (link_index dir) /\
    0 <= next < n_application_cores cfg /\ next mod m_concentration p = 0 /\
    route_hops p next r = route_hops p (mn_core_id n) r - 1.
Proof.
  intros Em Hf Hc Hr. pose proof Hp as [Hw Hh Hconc _ _]. unfold getNextDest. rewrite Em, Hf.
  destruct (Z.leb_spec (n_application_cores cfg) r); [lia|]. unfold c_div. destruct (Z.eqb_spec (m_concentration p) 0); [lia|].
  cbn [mbind res_bind]. rewrite !Z.quot_div_nonneg by lia. fold (node_of p (mn_core_id n)). fold (node_of p r).
  destruct (Z.eqb_spec (node_of p (mn_core_id n)) (node_of p r)) as [E|E]; destruct (decide _); try done.
  rewrite !computePosition_spec by lia. cbn [mbind res_bind]. set (c := mn_core_id n) in *.
  pose proof (xpos_range c) as Hxc. pose proof (xpos_range r) as Hxr. pose proof (ypos_range c Hc) as Hyc. pose proof (ypos_range r Hr) as Hyr.
  pose proof (dimension_step_spec (m_wrap_around p) _ _ _ Hxc Hxr) as Hx. unfold route_hops.
  destruct (dimension_step _ (m_mesh_width p) _ _) as [b|].
  - destruct Hx as (_ & Hr' & Hs). destruct (core_at_spec _ _ Hr' Hyc) as (A & B & C & D).
    destruct b; rewrite computeCoreId_spec; cbn [mbind res_bind]; rewrite (around_id _ (ypos p c)) by done;
      do 2 eexists; (split; [reflexivity|]); cbn [link_index]; rewrite C, D; eauto with lia.
  - pose proof (dimension_step_spec (m_wrap_around p) _ _ _ Hyc Hyr) as Hy.
    destruct (dimension_step _ (m_mesh_height p) _ _) as [b|].
    + destruct Hy as (_ & Hr' & Hs). destruct (core_at_spec _ _ Hxc Hr') as (A & B & C & D).
      destruct b; rewrite computeCoreId_spec; cbn [mbind res_bind]; rewrite (around_id _ (xpos p c)) by done;
        do 2 eexists; (split; [reflexivity|]); cbn [link_index]; rewrite C, D; eauto with lia.
    + exfalso. apply E. by rewrite !node_of_pos, Hx, Hy.
Qed.
End geometry.

(** ** A node *)

Section delivery.
Context (cfg : NetCfg) (p : MeshParams) (Hp : mesh_ok cfg p) (enabled : bool) (L : Z).
Context (bandwidth : ComponentBandwidthPerCycle) (Hbw : m_bw_in_bits_per_cycle bandwidth <> 0).

(** A kind of queue that never fails; queues of every link are of this kind. *)
Context (Q : QueueModel -> Prop)
  (HQ : forall q t pt, Q q -> exists d q', computeQueueDelay (n_pow_root cfg) (n_global_time cfg) q t pt = Ok (d, q') /\ Q q').

(** A node of the mesh: [L] is the hop latency. *)
Record node_ok (c : Z) (n : MeshNode) : Prop := {
  node_mesh : mn_mesh n = p;
  node_core : mn_core_id n = c;
  node_fake : m_fake_node n = negb (c mod m_concentration p =? 0) || (n_application_cores cfg <=? c);
  node_bandwidth : m_link_bandwidth n = bandwidth;
  node_latency : cl_getLatency (n_periods cfg) (m_hop_latency n) = L;
  node_enabled : mn_enabled n = enabled;
  node_links : m_fake_node n = false -> length (m_queue_models n) = 4%nat /\ Forall Q (m_queue_models n);
  node_injection : m_fake_node n = false -> exists q, m_injection_port n = Some q /\ Q q;
  node_ejection : m_fake_node n = false -> exists q, m_ejection_port n = Some q /\ Q q
}.

(** The latency of a hop without queueing. *)
Definition hop_cost (requester : Z) : Z := if negb enabled || (n_application_cores cfg <=? requester) then 0 else L.

Lemma runs_bind {S A B} (m : ST S A) (f : A -> ST S B) R s : runs m (fun a => runs (f a) R) s -> runs (mbind f m) R s.
Proof. apply wpe_bind. Qed.
Lemma runs_mono {S A} (m : ST S A) (R R' : A -> S -> Prop) s : runs m R s -> (forall a s', R a s' -> R' a s') -> runs m R' s.
Proof. intros H HR. by eapply wpe_mono. Qed.
Lemma runs_lift {S A} (r : res A) (R : A -> S -> Prop) s a : r = Ok a -> R a s -> runs (lift_res r) R s.
Proof. apply wpe_lift. Qed.
Lemma runs_assert {S} b (R : unit -> S -> Prop) s : b = true -> R tt s -> runs (assertM b) R s.
Proof. intros ->. done. Qed.

Lemma master_real c n : node_ok c n -> 0 <= c < n_application_cores cfg -> c mod m_concentration p = 0 -> m_fake_node n = false.
Proof. intros Hn Hc Hm. rewrite (node_fake _ _ Hn), Hm. destruct (Z.leb_spec (n_application_cores cfg) c); [lia|done]. Qed.

Lemma processing_runs c n len :
  node_ok c n -> m_fake_node n = false ->
  exists t, bpc_getRoundedLatency (n_periods cfg) bandwidth (u32 (len * 8)) = Ok t /\ computeProcessingTime cfg len n = Ok (t, n).
Proof.
  intros Hn Hf. unfold computeProcessingTime, bpc_getRoundedLatency, st_div, mbind, st_bind. cbn. rewrite Hf. cbn.
  rewrite (node_bandwidth _ _ Hn). destruct (Z.eqb_spec (m_bw_in_bits_per_cycle bandwidth) 0); [done|]. eauto.
Qed.

Lemma link_delay_runs c n i t pt :
  node_ok c n -> m_fake_node n = false -> (i < 4)%nat -> runs (link_delay cfg i t pt) (fun _ n' => node_ok c n') n.
Proof.
  intros Hn Hf Hi. destruct (node_links _ _ Hn Hf) as [Hl HF]. unfold link_delay.
  destruct (aget_lt (m_queue_models n) i) as (q & E & Eq); [lia|].
  destruct (HQ q t pt) as (d & q' & E' & Hq'); [by eapply Forall_lookup_1|].
  apply runs_bind; cbn. apply runs_bind, (runs_lift _ _ _ _ E), runs_bind, (runs_lift _ _ _ _ E'), runs_bind; cbn. destruct Hn. constructor; cbn; try done.
  intros _. rewrite length_insert. split; [done|]. by apply Forall_insert.
Qed.

Lemma injection_runs c n r t len :
  node_ok c n -> m_fake_node n = false -> runs (computeInjectionPortQueueDelay cfg r t len) (fun q n' => node_ok c n' /\ (m_queue_model_enabled p = false -> q = 0)) n.
Proof.
  intros Hn Hf. unfold computeInjectionPortQueueDelay. apply runs_bind; cbn. apply runs_bind, runs_assert; [by rewrite Hf|].
  change (id n) with n. rewrite (node_mesh _ _ Hn). destruct (m_queue_model_enabled p); cbn [negb]; [|done].
  destruct (_ =? _); [done|]. apply runs_bind.
  destruct (processing_runs c n len Hn Hf) as (pt & _ & E). unfold wpe at 1. rewrite E.
  destruct (node_injection _ _ Hn Hf) as (q & Eq & Hq). rewrite Eq.
  destruct (HQ q t pt Hq) as (d & q' & E' & Hq'). apply runs_bind. apply (runs_lift _ _ _ _ E'). apply runs_bind. cbn.
  split; [|done]. destruct Hn. constructor; cbn; eauto.
Qed.

(** [st_add] of times *)
Lemma st_add_u64 a b : st_add (u64 a) b = u64 (a + b).
Proof. unfold st_add. apply wrap_add_l. lia. Qed.

Lemma addHop_runs c n dir f nx t len req :
  node_ok c n -> (is_Some (link_index dir) -> m_fake_node n = false) -> in_width 64 t ->
  runs (addHop cfg dir f nx t len req)
    (fun '(h, d) n' => node_ok c n' /\ (m_queue_model_enabled p = false -> d = 0) /\
       h = mkHop f nx (u64 (t + (if link_index dir then hop_cost req else 0) + d))) n.
Proof.
  intros Hn Hf Ht. unfold addHop. destruct (link_index dir) as [i|] eqn:Ei.
  - specialize (Hf ltac:(eauto)). unfold computeLatency. rewrite Ei. apply runs_bind, runs_bind; cbn. apply runs_bind, runs_assert; [by rewrite Hf|].
    rewrite (node_enabled _ _ Hn). unfold hop_cost. destruct (negb enabled || _).
    + cbn. split_and!; [done|done|]. f_equal. unfold st_add, Zero. f_equal. lia.
    + apply runs_bind. destruct (processing_runs c n len Hn Hf) as (pt & _ & E). unfold wpe at 1. rewrite E.
      apply runs_bind. eapply (runs_mono _ (fun d n' => node_ok c n' /\ (m_queue_model_enabled p = false -> d = 0))).
      { change (id n) with n. rewrite (node_mesh _ _ Hn). destruct (m_queue_model_enabled p); [|done].
        eapply runs_mono; [eapply link_delay_runs; [done|done|]; destruct dir; cbn in Ei; simplify_eq; lia|]. done. }
      intros d n' [Hn' Hd]. cbn. split_and!; [done|done|]. f_equal. change (id n) with n. rewrite (node_latency _ _ Hn). unfold st_add. rewrite wrap_add_r by lia.
      f_equal. lia.
  - cbn. split_and!; [done|done|]. f_equal. unfold Zero. rewrite wrap_small; [lia|]. unfold in_width in Ht. lia.
Qed.

(** What the routing reads of a packet besides its time and receiver. *)
Definition same_message (a b : NetPacket) : Prop :=
  pkt_type a = pkt_type b /\ pkt_sender a = pkt_sender b /\ pkt_length a = pkt_length b /\ pkt_data a = pkt_data b.
#[local] Instance same_message_equiv : Equivalence same_message.
Proof. unfold same_message. split; [done| |]; [intros ?? (?&?&?&?)|intros ??? (?&?&?&?) (?&?&?&?)]; split_and!; congruence. Qed.

Lemma same_message_requester a b : same_message a b -> packet_requester cfg a = packet_requester cfg b.
Proof. intros (E1 & E2 & E3 & E4). unfold packet_requester. by rewrite E1, E2, E4. Qed.
Lemma same_message_length a b : same_message a b -> net_getModeledLength cfg a = net_getModeledLength cfg b.
Proof. intros (E1 & E2 & E3 & E4). unfold net_getModeledLength, bufferSize. by rewrite E1, E3, E4. Qed.

(** A packet that the models accept: it has a requester and a length. *)
Definition packet_ok (pkt : NetPacket) (requester : Z) : Prop :=
  packet_requester cfg pkt = Ok requester /\ (exists len, net_getModeledLength cfg pkt = Ok len) /\ in_width 64 (pkt_time pkt).

Lemma count_sent_ok c n pkt len : node_ok c n -> node_ok c (count_sent pkt len n).
Proof. intros Hn. unfold count_sent. destruct (_ =? _); [|done]. by destruct Hn. Qed.
Lemma count_sent_fake n pkt len : m_fake_node (count_sent pkt len n) = m_fake_node n.
Proof. unfold count_sent. by destruct (_ =? _). Qed.

(** What a node that is not a fake one does with a unicast packet: the packet makes [k] hops, none or one, to [nx],
    and spends the time [q] in queues. *)
Definition unicast_result (c r requester : Z) (pkt : NetPacket) (l : list Hop) (pkt' : NetPacket) : Prop :=
  exists nx k q, (m_queue_model_enabled p = false -> q = 0) /\ pkt' = with_pkt_queue_delay (u64 (pkt_queue_delay pkt + q)) pkt /\
    l = [mkHop r nx (u64 (pkt_time pkt + k * hop_cost requester + q))] /\ k + route_hops p nx r = route_hops p c r /\
    (nx = r \/ (0 <= nx < n_application_cores cfg /\ nx mod m_concentration p = 0 /\ route_hops p nx r < route_hops p c r)).

Lemma route_hops_same c : 0 <= c < n_application_cores cfg -> route_hops p c c = 0.
Proof. intros Hc. by apply (route_hops_nonneg cfg p Hp c c Hc Hc). Qed.

Lemma mesh_unicast_runs c n pkt r requester :
  node_ok c n -> m_fake_node n = false -> 0 <= c < n_application_cores cfg -> 0 <= r < n_application_cores cfg ->
  pkt_receiver pkt = r -> packet_ok pkt requester ->
  runs (mesh_routePacket cfg pkt) (fun '(l, pkt') n' => node_ok c n' /\ unicast_result c r requester pkt l pkt') n.
Proof.
  intros Hn Hf Hc Hr Er (Hreq & (len & Hlen) & Ht). unfold mesh_routePacket.
  apply runs_bind, (runs_lift _ _ _ _ Hreq), runs_bind, (runs_lift _ _ _ _ Hlen), runs_bind; cbn. apply runs_bind; cbn.
  pose proof (count_sent_ok c n pkt len Hn) as Hn1. pose proof (count_sent_fake n pkt len) as Hf1. rewrite Hf in Hf1.
  change (id ?x) with x in *. set (n1 := count_sent pkt len n) in *. rewrite Er.
  destruct (Z.eqb_spec r BROADCAST) as [E|_]; [rewrite E in Hr; by destruct Hr|]. rewrite Hf1. apply runs_bind.
  eapply (runs_mono _ (fun q n' => node_ok c n' /\ (m_queue_model_enabled p = false -> q = 0))).
  { destruct (_ =? _); [by apply injection_runs|done]. }
  intros q1 n2 [Hn2 Hq1]. pose proof (getNextDest_spec cfg p Hp n1 r (node_mesh _ _ Hn1) Hf1) as Hd. rewrite (node_core _ _ Hn1) in Hd.
  specialize (Hd Hc Hr). unfold unicast_result. destruct (decide _) as [Ed|Ed].
  - apply runs_bind, (runs_lift _ _ _ _ Hd). cbn. split; [done|]. exists r, 0, q1. unfold st_add, Zero.
    rewrite Z.add_0_r, wrap_wrap by lia. rewrite (proj2 (proj2 (route_hops_nonneg cfg p Hp c r Hc Hr)) Ed), route_hops_same by done.
    split_and!; [done|done|do 3 f_equal; lia|done|auto].
  - destruct Hd as (dir & nx & Ed' & Hl & Hnx & Hm & Hh). apply runs_bind, (runs_lift _ _ _ _ Ed'), runs_bind.
    eapply runs_mono; [apply (addHop_runs c); [done|..]|].
    + intros _. rewrite (node_fake _ _ Hn2). rewrite <- (node_fake _ _ Hn1). done.
    + by apply in_width_wrap.
    + intros [h d] n3 (Hn3 & Hd & ->). cbn. split; [done|]. exists nx, 1, (q1 + d). destruct (link_index dir); [|by destruct Hl].
      split_and!; [intros Hq; rewrite Hq1, Hd by done; done| |do 2 f_equal|lia|right; auto with lia].
      * f_equal. unfold st_add. rewrite wrap_add_l by lia. f_equal. lia.
      * unfold st_add. rewrite <- Z.add_assoc, wrap_add_l by lia. f_equal. lia.
Qed.

(** ** The network *)

Context (s : EStaticNetwork).

Definition matrix_ok (m : option (list Z * list Z)) : Prop :=
  match m with Some (a, b) => length a = S (Z.to_nat (n_total_cores cfg)) /\ length b = length a | None => True end.
Definition net_node_ok (c : Z) (x : NetNode) : Prop :=
  exists o n, nn_models x !! net_index s = Some o /\ mo_model o = HopByHop n /\ node_ok c n /\ matrix_ok (mo_matrix o).
(** Every core has a node of the mesh. *)
Definition net_ok (net : Net) : Prop :=
  Z.of_nat (length (n_nodes net)) = n_total_cores cfg /\
  forall c x, n_nodes net !! Z.to_nat c = Some x -> 0 <= c -> net_node_ok c x.

(** The state apart from the models: callbacks and queues of every core, buses and calls. *)
Definition net_rest : Type :=
  list ((PacketType -> bool) * list NetPacket * list NetPacket) * list (option BusGlobal) * list (Z * NetPacket).
Definition rest (net : Net) : net_rest :=
  ((fun x => (nn_callback x, nn_queue x, nn_transport x)) <$> n_nodes net, n_bus net, n_calls net).

Lemma net_node net c : net_ok net -> 0 <= c < n_total_cores cfg -> exists x, n_nodes net !! Z.to_nat c = Some x /\ net_node_ok c x.
Proof.
  intros [Hl Hn] Hc. destruct (lookup_lt_is_Some_2 (n_nodes net) (Z.to_nat c)) as [x Hx]; [lia|]. exists x. split; [done|]. apply Hn; [done|lia].
Qed.

Lemma node_runs net c x (R : NetNode -> Net -> Prop) : n_nodes net !! Z.to_nat c = Some x -> R x net -> runs (node c) R net.
Proof. intros E HR. apply runs_bind; cbn. eapply runs_lift; [by apply aget_ok|done]. Qed.

Lemma model_obj_runs net c x o (R : ModelObj -> Net -> Prop) :
  n_nodes net !! Z.to_nat c = Some x -> nn_models x !! net_index s = Some o -> R o net -> runs (model_obj c s) R net.
Proof. intros E Eo HR. apply runs_bind. eapply node_runs; [done|]. eapply runs_lift; [by apply aget_ok|done]. Qed.

Lemma set_model_obj_runs net c x o' n' :
  net_ok net -> 0 <= c < n_total_cores cfg -> n_nodes net !! Z.to_nat c = Some x ->
  mo_model o' = HopByHop n' -> node_ok c n' -> matrix_ok (mo_matrix o') ->
  runs (set_model_obj c s o') (fun _ net' => net_ok net' /\ rest net' = rest net) net.
Proof.
  intros [Hl Hnet] Hc Hx Eo Hn' Hm. apply runs_bind. eapply node_runs; [done|]. cbn. unfold net_ok, rest. cbn. split.
  - rewrite length_insert. split; [done|]. intros d y Hy Hd. destruct (decide (Z.to_nat d = Z.to_nat c)) as [E|E].
    + rewrite E, list_lookup_insert_eq in Hy by lia. simplify_eq. assert (d = c) as -> by lia. exists o', n'.
      destruct (Hnet c x Hx ltac:(lia)) as (o & n & Ho & _). split_and!; try done. cbn.
      apply list_lookup_insert_eq. by eapply lookup_lt_Some.
    + rewrite list_lookup_insert_ne in Hy by done. by apply Hnet.
  - f_equal. f_equal. rewrite list_fmap_insert. cbn. apply list_insert_id. rewrite list_lookup_fmap, Hx. done.
Qed.

Lemma route_model_runs net c pkt (R : list Hop * NetPacket -> Prop) :
  net_ok net -> 0 <= c < n_total_cores cfg ->
  (forall n, node_ok c n -> runs (mesh_routePacket cfg pkt) (fun r n' => node_ok c n' /\ R r) n) ->
  runs (routePacket cfg c s pkt) (fun r net' => net_ok net' /\ rest net' = rest net /\ R r) net.
Proof.
  intros Hnet Hc HR. destruct (net_node net c Hnet Hc) as (x & Hx & o & n & Ho & Eo & Hn & Hmat).
  unfold routePacket. apply runs_bind. eapply model_obj_runs; [done..|]. rewrite Eo. destruct (runs_ok _ _ _ (HR n Hn)) as (r & n' & E & Hn' & Hu).
  apply runs_bind, (runs_lift _ _ _ _ E), runs_bind. unfold set_model. apply runs_bind. eapply model_obj_runs; [done..|].
  eapply runs_mono; [by eapply set_model_obj_runs|]. intros [] net' [A B]. done.
Qed.

Lemma route_runs net c pkt r requester :
  net_ok net -> 0 <= c < n_application_cores cfg -> c mod m_concentration p = 0 -> 0 <= r < n_application_cores cfg ->
  pkt_receiver pkt = r -> packet_ok pkt requester ->
  runs (routePacket cfg c s pkt) (fun '(l, pkt') net' => net_ok net' /\ rest net' = rest net /\ unicast_result c r requester pkt l pkt') net.
Proof.
  intros Hnet Hc Hm Hr Er Hpk. pose proof (mesh_total _ _ Hp).
  eapply runs_mono; [apply (route_model_runs net c pkt (fun x => unicast_result c r requester pkt x.1 x.2)); [done|lia|]|by intros []].
  intros n Hn. eapply runs_mono; [by apply (mesh_unicast_runs c n pkt r requester Hn (master_real c n Hn Hc Hm))|by intros []].
Qed.

Lemma packet_ok_at pkt requester r t : packet_ok pkt requester -> in_width 64 t -> packet_ok (with_pkt_receiver r (with_pkt_time t pkt)) requester.
Proof. by intros (A & B & C) Ht. Qed.
Lemma packet_ok_same pkt pkt' requester : packet_ok pkt requester -> same_message pkt' pkt -> in_width 64 (pkt_time pkt') -> packet_ok pkt' requester.
Proof. intros (A & B & C) E Ht. unfold packet_ok. by rewrite (same_message_requester _ _ E), (same_message_length _ _ E). Qed.

Lemma follow_runs fuel net h pkt requester :
  net_ok net -> 0 <= final_dest h < n_application_cores cfg ->
  next_dest h = final_dest h \/
    (0 <= next_dest h < n_application_cores cfg /\ next_dest h mod m_concentration p = 0 /\
     route_hops p (next_dest h) (final_dest h) < Z.of_nat fuel) ->
  packet_ok pkt requester -> in_width 64 (hop_time h) ->
  runs (follow cfg fuel s h pkt)
    (fun '(h', pkt') net' => net_ok net' /\ rest net' = rest net /\ same_message pkt' pkt /\ packet_ok pkt' requester /\
      exists q, (m_queue_model_enabled p = false -> q = 0) /\ h' = mkHop (final_dest h) (final_dest h) (u64 (hop_time h + route_hops p (next_dest h) (final_dest h) * hop_cost requester + q)) /\
        u64 (pkt_queue_delay pkt') = u64 (pkt_queue_delay pkt + q)) net.
Proof.
  revert net h pkt. induction fuel as [|fuel IH]; intros net [r nx t] pkt Hnet Hr Hnx Hpk Ht;
    cbn [final_dest next_dest hop_time] in *; cbn [follow next_dest final_dest hop_time];
    (destruct (Z.eqb_spec nx r) as [->|Hne];
     [cbn; split_and!; [done..|]; exists 0; split; [done|]; rewrite route_hops_same by done;
      rewrite Z.mul_0_l, !Z.add_0_r, (wrap_small 64 t) by exact Ht; done|]); destruct Hnx as [|(Hnx & Hm & Hfuel)]; try done;
    pose proof (route_hops_nonneg cfg p Hp nx r Hnx Hr) as [Hh0 Heq]; [lia|].
  pose proof (mesh_total _ _ Hp). apply runs_bind, runs_assert; [apply Z.ltb_lt; lia|]. apply runs_bind.
  eapply runs_mono; [apply (route_runs net nx _ r requester); try done; by apply packet_ok_at|].
  intros [l pkt1] net1 (Hnet1 & Hrest1 & nx1 & k & q & Hq0 & -> & -> & Hk & Hn1). cbn [pkt_queue_delay pkt_time with_pkt_receiver with_pkt_time] in *.
  eapply runs_mono; [apply IH; [done|done|cbn; intuition lia|by apply packet_ok_at|by apply in_width_wrap]|].
  intros [h' pkt'] net' (A & B & C & C' & q' & Hq' & -> & D). cbn [final_dest next_dest hop_time] in *.
  split_and!; [done|congruence|by rewrite C|done|].
  exists (q + q'). split_and!; [intros Hq; rewrite Hq0, Hq' by done; done|..].
  - f_equal. rewrite <- Z.add_assoc, wrap_add_l by lia. f_equal. rewrite <- Hk. ring.
  - rewrite D. cbn. rewrite wrap_add_l by lia. f_equal. lia.
Qed.

Lemma count_runs net c pkt requester :
  net_ok net -> 0 <= c < n_total_cores cfg -> packet_ok pkt requester ->
  pkt_receiver pkt = BROADCAST \/ 0 <= pkt_receiver pkt < n_total_cores cfg ->
  runs (countPacket cfg c s pkt) (fun _ net' => net_ok net' /\ rest net' = rest net) net.
Proof.
  intros Hnet Hc (_ & (len & Hlen) & _) Hr. destruct (net_node net c Hnet Hc) as (x & Hx & o & n & Ho & Eo & Hn & Hm).
  unfold countPacket. apply runs_bind. eapply model_obj_runs; [done..|]. destruct (mo_matrix o) as [[a b]|] eqn:Em; [|done].
  destruct Hm as [Ha Hb]. apply runs_bind, (runs_lift _ _ _ _ Hlen). 
  set (dst := if pkt_receiver pkt =? BROADCAST then (length b - 1)%nat else Z.to_nat (pkt_receiver pkt)).
  assert (dst < length a)%nat as Hd by (subst dst; zcase; [lia|]; destruct Hr; [done|lia]).
  destruct (aget_lt a dst) as (u & Eu & _); [done|]. destruct (aget_lt b dst) as (v & Ev & _); [lia|].
  apply runs_bind. eapply runs_lift; [rewrite Eu; reflexivity|]. apply runs_bind. eapply runs_lift; [rewrite Ev; reflexivity|].
  eapply set_model_obj_runs; try done. cbn. by rewrite !length_insert.
Qed.

(** A packet is put into the transport queue of a core. *)
Definition delivered (c : Z) (b : NetPacket) (r : net_rest) : net_rest :=
  (alter (fun x : (PacketType -> bool) * list NetPacket * list NetPacket => (x.1, x.2 ++ [b])) (Z.to_nat c) r.1.1, r.1.2, r.2).

Lemma transport_runs net c b :
  net_ok net -> 0 <= c < n_total_cores cfg -> n_total_cores cfg < 2 ^ 32 ->
  runs (transport_send cfg c b) (fun _ net' => net_ok net' /\ rest net' = delivered c b (rest net)) net.
Proof.
  intros Hnet Hc Ht. destruct (net_node net c Hnet Hc) as (x & Hx & Hn). destruct Hnet as [Hl Hnet]. unfold transport_send.
  apply runs_bind, runs_assert; [apply Z.ltb_lt; rewrite wrap_small; lia|]. apply runs_bind. eapply node_runs; [done|]. cbn.
  unfold net_ok, rest, delivered. cbn. split.
  - rewrite length_insert. split; [done|]. intros d y Hy Hd. destruct (decide (Z.to_nat d = Z.to_nat c)) as [E|E].
    + rewrite E, list_lookup_insert_eq in Hy by lia. simplify_eq. assert (d = c) as -> by lia. done.
    + rewrite list_lookup_insert_ne in Hy by done. by apply Hnet.
  - do 2 f_equal. apply list_eq. intros i. rewrite list_lookup_fmap. destruct (decide (i = Z.to_nat c)) as [->|E].
    + rewrite list_lookup_insert_eq, list_lookup_alter_eq, list_lookup_fmap, Hx by lia. done.
    + by rewrite list_lookup_insert_ne, list_lookup_alter_ne, list_lookup_fmap by done.
Qed.

Lemma route_fuel c r :
  0 <= c < n_application_cores cfg -> 0 <= r < n_application_cores cfg -> route_hops p c r < Z.of_nat (Z.to_nat (n_total_cores cfg)).
Proof.
  intros Hc Hr. destruct (route_hops_nonneg cfg p Hp c r Hc Hr) as [H _]. destruct Hp.
  assert (m_mesh_width p + m_mesh_height p - 1 <= m_mesh_width p * m_mesh_height p) by nia. nia.
Qed.

(** A unicast packet: it is delivered to its receiver and nowhere else, after a hop latency for every hop of the
    route and the time in queues, which the packet that the sender keeps has been charged with. *)
Lemma unicast_delivered net c r pkt requester :
  net_ok net -> g_type_to_static_network_map (pkt_type pkt) = s -> n_total_cores cfg < 2 ^ 32 ->
  0 <= c < n_application_cores cfg -> c mod m_concentration p = 0 -> 0 <= r < n_application_cores cfg ->
  pkt_receiver pkt = r -> packet_ok pkt requester -> sizeof_NetPacket <= bufferSize pkt ->
  runs (netSend cfg c pkt)
    (fun pkt' net' => net_ok net' /\ exists b q, (m_queue_model_enabled p = false -> q = 0) /\ rest net' = delivered r b (rest net) /\
      same_message b pkt /\ pkt_receiver b = r /\
      (c = pkt_sender pkt -> pkt_start_time b = pkt_time pkt) /\
      pkt_time b = u64 (pkt_time pkt + route_hops p c r * hop_cost requester + q) /\
      u64 (pkt_queue_delay pkt') = u64 (pkt_queue_delay pkt + q)) net.
Proof.
  intros Hnet Hs Htot Hc Hm Hr Er Hpk Hsz. pose proof (mesh_total _ _ Hp). unfold netSend. rewrite Hs. apply runs_bind.
  eapply runs_mono; [eapply count_runs; try done; [lia|right; lia]|]. intros [] net1 [Hnet1 Hr1]. apply runs_bind.
  eapply runs_mono; [apply (route_runs net1 c pkt r requester); done|].
  intros [l pkt1] net2 (Hnet2 & Hr2 & nx & k & q1 & Hq1 & -> & -> & Hk & Hn1).
  apply runs_bind, runs_assert; [by apply Z.leb_le|]. cbn [pkt_time with_pkt_queue_delay]. pose proof (route_fuel c r Hc Hr).
  cbn [send_hops final_dest]. destruct (Z.eqb_spec r BROADCAST) as [E|_]; [rewrite E in Hr; by destruct Hr|]. cbn [negb]. apply runs_bind.
  eapply runs_mono; [apply follow_runs; [done|done|cbn; intuition lia|exact Hpk|by apply in_width_wrap]|].
  intros [h' pkt'] net3 (Hnet3 & Hr3 & Hsame & _ & q & Hq0 & -> & Hq). cbn [final_dest next_dest hop_time] in *. apply runs_bind.
  eapply runs_mono; [apply transport_runs; [done|lia|done]|]. intros [] net4 [Hnet4 Hr4]. cbn. split; [done|].
  eexists _, (q1 + q). split_and!; [intros Hd; rewrite Hq0, Hq1 by done; done|by rewrite Hr4, Hr3, Hr2, Hr1|by destruct (_ =? _)|done|..].
  - intros ->. by rewrite Z.eqb_refl.
  - cbn. rewrite <- Z.add_assoc, wrap_add_l by lia. f_equal. rewrite <- Hk. ring.
  - rewrite Hq. cbn. rewrite wrap_add_l by lia. f_equal. lia.
Qed.

(** ** Several hops *)

(** A hop of a broadcast tree, a hop to its destination, and a hop to the next node of a route. *)
Definition hop_ok (h : Hop) : Prop :=
  in_width 64 (hop_time h) /\
  ((final_dest h = BROADCAST /\ 0 <= next_dest h < n_application_cores cfg /\ next_dest h mod m_concentration p = 0) \/
   (0 <= final_dest h < n_total_cores cfg /\ next_dest h = final_dest h) \/
   (0 <= final_dest h < n_application_cores cfg /\ 0 <= next_dest h < n_application_cores cfg /\ next_dest h mod m_concentration p = 0)).

Definition deliver_all (bs : list (Z * NetPacket)) (r : net_rest) : net_rest := foldl (fun r x => delivered x.1 x.2 r) r bs.

Lemma follow_hop_runs net h pkt requester :
  net_ok net -> hop_ok h -> packet_ok pkt requester ->
  runs (if negb (final_dest h =? BROADCAST) then follow cfg (Z.to_nat (n_total_cores cfg)) s h pkt else mret (h, pkt))
    (fun '(h', pkt') net' => net_ok net' /\ rest net' = rest net /\ packet_ok pkt' requester /\
       final_dest h' = final_dest h /\ next_dest h' = (if final_dest h =? BROADCAST then next_dest h else final_dest h) /\
       (next_dest h = final_dest h \/ final_dest h = BROADCAST -> pkt' = pkt /\ h' = h)) net.
Proof.
  intros Hnet [Ht Hh] Hpk. destruct (Z.eqb_spec (final_dest h) BROADCAST) as [E|E]; cbn [negb]; [done|].
  destruct (decide (next_dest h = final_dest h)) as [Hn|Hn].
  - destruct (Z.to_nat _); cbn [follow]; rewrite Hn, Z.eqb_refl; done.
  - assert (0 <= final_dest h < n_application_cores cfg /\ 0 <= next_dest h < n_application_cores cfg /\ next_dest h mod m_concentration p = 0)
      as (Hf & Hx & Hm) by (destruct Hh as [[? _]|[[_ ?]|?]]; done).
    eapply runs_mono; [apply follow_runs; [done|done|right; split_and!; [lia..|done|by apply route_fuel]|done|done]|].
    intros [h' pkt'] net' (A & B & _ & C & q & _ & -> & D). cbn. split_and!; try done. by intros [].
Qed.

Lemma send_hops_runs net c start l pkt buff requester :
  net_ok net -> n_total_cores cfg < 2 ^ 32 -> n_application_cores cfg <= n_total_cores cfg ->
  Forall hop_ok l -> packet_ok pkt requester ->
  runs (send_hops cfg c s start l pkt buff)
    (fun pkt' net' => net_ok net' /\ (Forall (fun h => next_dest h = final_dest h \/ final_dest h = BROADCAST) l -> pkt' = pkt) /\
      exists bs, rest net' = deliver_all bs (rest net) /\
      Forall2 (fun h x => x.1 = (if final_dest h =? BROADCAST then next_dest h else final_dest h) /\
                 pkt_receiver x.2 = final_dest h /\ same_message x.2 buff /\
                 (next_dest h = final_dest h \/ final_dest h = BROADCAST -> in_width 64 (pkt_time x.2))) l bs) net.
Proof.
  intros Hnet Ht Ha Hl. revert net pkt buff Hnet. induction Hl as [|h l Hh Hl IH]; intros net pkt buff Hnet Hpk; cbn [send_hops].
  { split_and!; [done|done|]. by exists []. }
  apply runs_bind. eapply runs_mono; [by eapply follow_hop_runs|]. intros [h' pkt'] net1 (Hnet1 & Hr1 & Hpk1 & Ef & En & Ek). apply runs_bind.
  cbv zeta. set (b := with_pkt_receiver _ _). assert (same_message b buff) as Hb by (subst b; by destruct (c =? pkt_sender buff)).
  eapply runs_mono; [apply transport_runs; [done| |done]|].
  { rewrite En. destruct Hh as [_ Hh]. destruct (Z.eqb_spec (final_dest h) BROADCAST); intuition lia. }
  intros [] net2 [Hnet2 Hr2]. eapply runs_mono; [by apply IH|]. intros pkt2 net3 (Hnet3 & Ek' & bs & Hr3 & Hbs).
  split_and!; [done|inversion 1; subst; rewrite Ek' by done; by apply Ek|].
  exists ((next_dest h', b) :: bs). split; [by rewrite Hr3, Hr2, Hr1|]. constructor.
  { split_and!; try done. intros Hk. destruct (Ek Hk) as [_ ->]. apply Hh. }
  eapply Forall2_impl; [done|]. cbn. intros h1 x (A & B & C & D). split_and!; [done..| |done]. by rewrite C.
Qed.

(** ** Broadcasts *)

Lemma unicast_hops_runs k i c n time len requester :
  node_ok c n -> m_fake_node n = false -> 0 <= c < n_application_cores cfg -> 0 <= i -> i + Z.of_nat k <= n_total_cores cfg ->
  runs (unicast_hops cfg k i time len requester) (fun l n' => node_ok c n' /\ Forall hop_ok l /\ final_dest <$> l = seqZ i (Z.of_nat k)) n.
Proof.
  intros Hn Hf Hc. revert i n Hn Hf. induction k as [|k IH]; intros i n Hn Hf Hi Hk; cbn [unicast_hops].
  { split_and!; [done|done|]. by rewrite seqZ_nil by lia. }
  apply runs_bind. eapply runs_mono; [by apply injection_runs|]. intros q n1 [Hn1 _]. apply runs_bind; cbn. change (id n1) with n1.
  assert (m_fake_node n1 = false) as Hf1 by (by rewrite (node_fake _ _ Hn1), <- (node_fake _ _ Hn)).
  assert (exists dir nx, getNextDest cfg n1 i = Ok (dir, nx) /\
    forall t, in_width 64 t -> hop_ok (mkHop i nx t)) as (dir & nx & E & Hok).
  { destruct (Z.leb_spec (n_application_cores cfg) i).
    - exists DESTINATION, i. unfold getNextDest. rewrite (proj2 (Z.leb_le _ _)) by done. split; [done|]. intros t Ht. split; [done|]. cbn. lia.
    - pose proof (getNextDest_spec cfg p Hp n1 i (node_mesh _ _ Hn1) Hf1) as Hd. rewrite (node_core _ _ Hn1) in Hd.
      specialize (Hd Hc ltac:(lia)). destruct (decide _).
      + exists DESTINATION, i. split; [done|]. intros t Ht. split; [done|]. cbn. lia.
      + destruct Hd as (dir & nx & E & _ & Hnx & Hm & _). exists dir, nx. split; [done|]. intros t Ht. split; [done|]. cbn.
        right. right. split_and!; try done; lia. }
  apply runs_bind, (runs_lift _ _ _ _ E), runs_bind. eapply runs_mono; [apply (addHop_runs c); [done|done|by apply in_width_wrap]|].
  intros [h d] n2 (Hn2 & _ & ->). apply runs_bind.
  eapply runs_mono; [apply IH; [done|by rewrite (node_fake _ _ Hn2), <- (node_fake _ _ Hn)|lia|lia]|].
  intros l n3 (Hn3 & Hl & El). cbn. split_and!; [done| |].
  - constructor; [|done]. apply Hok. by apply in_width_wrap.
  - rewrite El, (seqZ_cons i) by lia. cbn. do 2 f_equal; lia.
Qed.

Lemma broadcast_route_runs net c pkt requester :
  net_ok net -> 0 <= c < n_application_cores cfg -> c mod m_concentration p = 0 -> m_broadcast_tree_enabled p = false ->
  pkt_receiver pkt = BROADCAST -> pkt_sender pkt = c -> packet_ok pkt requester ->
  runs (routePacket cfg c s pkt)
    (fun '(l, pkt') net' => net_ok net' /\ rest net' = rest net /\ pkt' = pkt /\ Forall hop_ok l /\ final_dest <$> l = seqZ 0 (n_total_cores cfg)) net.
Proof.
  intros Hnet Hc Hm Htree Er Es (Hreq & (len & Hlen) & Ht). pose proof (mesh_total _ _ Hp).
  eapply runs_mono; [apply (route_model_runs net c pkt (fun x => x.2 = pkt /\ Forall hop_ok x.1 /\
    final_dest <$> x.1 = seqZ 0 (n_total_cores cfg))); [done|lia|]|by intros []].
  intros n Hn. unfold mesh_routePacket.
  apply runs_bind, (runs_lift _ _ _ _ Hreq), runs_bind, (runs_lift _ _ _ _ Hlen), runs_bind; cbn. apply runs_bind; cbn.
  pose proof (count_sent_ok c n pkt len Hn) as Hn1. change (id ?x) with x in *. set (n1 := count_sent pkt len n) in *.
  pose proof (master_real c n1 Hn1 Hc Hm) as Hf1. rewrite Er, Z.eqb_refl, Hf1, (node_mesh _ _ Hn1), Htree. apply runs_bind, runs_bind, runs_assert.
  { by rewrite (node_core _ _ Hn1), Es, Z.eqb_refl. }
  eapply runs_mono; [by apply (unicast_hops_runs _ 0 c); [..|lia]|]. intros l n2 (A & B & C). cbn. rewrite Z2Nat.id in C by lia. done.
Qed.

(** The branches of the broadcast tree; one of them always leads on. *)
Lemma tree_hop_runs b dir x y t len requester c n :
  node_ok c n -> m_fake_node n = false -> -1 <= x <= m_mesh_width p -> -1 <= y <= m_mesh_height p -> in_width 64 t ->
  runs (tree_hop cfg b dir x y t len requester)
    (fun l n' => node_ok c n' /\ Forall hop_ok l /\ Forall (fun h => final_dest h = BROADCAST) l /\ (b = true -> l <> [])) n.
Proof.
  intros Hn Hf Hx Hy Ht. unfold tree_hop. destruct b; [|done]. apply runs_bind; cbn. change (id n) with n. rewrite (node_mesh _ _ Hn).
  apply runs_bind, (runs_lift _ _ _ _ (computeCoreId_spec cfg p Hp x y)), runs_bind.
  eapply runs_mono; [by apply (addHop_runs c)|]. intros [h d] n' (Hn' & _ & ->). cbn. split_and!; [done| |by repeat constructor|done].
  constructor; [|done]. split; [by apply in_width_wrap|]. left. cbn. split; [done|]. destruct Hp as [Hw Hh _ _ Htot].
  destruct (core_at_spec cfg p Hp (around (m_mesh_width p) x) (around (m_mesh_height p) y)) as (? & ? & _); [..|done];
    rewrite around_spec by lia; repeat zcase; lia.
Qed.

Lemma tree_hops_runs pkt len requester c n :
  node_ok c n -> m_fake_node n = false -> 0 <= c < n_application_cores cfg -> 0 <= pkt_sender pkt < n_application_cores cfg -> packet_ok pkt requester ->
  runs (tree_hops cfg pkt len requester)
    (fun l n' => node_ok c n' /\ Forall hop_ok l /\ Forall (fun h => next_dest h = final_dest h \/ final_dest h = BROADCAST) l /\
       Exists (fun h => final_dest h = BROADCAST) l) n.
Proof.
  intros Hn Hf Hc Hs Hpk. unfold tree_hops. apply runs_bind; cbn. change (id n) with n. apply runs_bind.
  eapply (runs_mono _ (fun _ n' => node_ok c n'));
    [destruct (_ =? _); [eapply runs_mono; [by apply injection_runs|]; by intros ?? []|done]|].
  intros q n1 Hn1. assert (forall n, node_ok c n -> m_fake_node n = false) as Hreal.
  { intros n' Hn'. by rewrite (node_fake _ _ Hn'), <- (node_fake _ _ Hn). }
  rewrite (node_mesh _ _ Hn), (node_core _ _ Hn).
  apply runs_bind, (runs_lift _ _ _ _ (computePosition_spec cfg p Hp (pkt_sender pkt) ltac:(lia))).
  apply runs_bind, (runs_lift _ _ _ _ (computePosition_spec cfg p Hp c ltac:(lia))).
  pose proof (xpos_range cfg p Hp c) as Hx. pose proof (ypos_range cfg p Hp c Hc) as Hy. set (t := st_add _ q).
  assert (in_width 64 t) as Ht by by apply in_width_wrap.
  apply runs_bind. eapply runs_mono; [apply (tree_hop_runs _ _ _ _ _ _ _ c); auto; lia|]. intros l1 n2 (Hn2 & A1 & B1 & C1).
  apply runs_bind. eapply runs_mono; [apply (tree_hop_runs _ _ _ _ _ _ _ c); auto; lia|]. intros l2 n3 (Hn3 & A2 & B2 & C2).
  apply runs_bind. eapply runs_mono; [apply (tree_hop_runs _ _ _ _ _ _ _ c); auto; lia|]. intros l3 n4 (Hn4 & A3 & B3 & _).
  apply runs_bind. eapply runs_mono; [apply (tree_hop_runs _ _ _ _ _ _ _ c); auto; lia|]. intros l4 n5 (Hn5 & A4 & B4 & _).
  apply runs_bind. eapply (runs_mono _ (fun l n' => node_ok c n' /\ Forall hop_ok l /\ Forall (fun h => next_dest h = final_dest h) l)).
  { destruct (_ && _); [|done]. cbn. split; [done|]. pose proof (mesh_total _ _ Hp). split; (constructor; [|done]); [|done]. split; [done|]. cbn. lia. }
  intros l5 n6 (Hn6 & A5 & B5). cbn. assert (forall l, Forall (fun h => final_dest h = BROADCAST) l ->
    Forall (fun h => next_dest h = final_dest h \/ final_dest h = BROADCAST) l) as Hor by (intros; eapply Forall_impl; [done|]; auto).
  split_and!; [done|by rewrite !Forall_app|rewrite !Forall_app; split_and!; auto; eapply Forall_impl; [done|]; auto|].
  rewrite !Exists_app. destruct (Z.le_ge_cases (ypos p (pkt_sender pkt)) (ypos p c)).
  - left. destruct l1; [by destruct C1; [apply Z.leb_le|]|]. constructor. by inversion B1.
  - right. left. destruct l2; [by destruct C2; [apply Z.leb_le|]|]. constructor. by inversion B2.
Qed.

(** ** Receiving *)

Lemma ejection_runs c n t len :
  node_ok c n -> m_fake_node n = false -> runs (computeEjectionPortQueueDelay cfg t len) (fun q n' => node_ok c n' /\ (m_queue_model_enabled p = false -> q = 0)) n.
Proof.
  intros Hn Hf. unfold computeEjectionPortQueueDelay. apply runs_bind; cbn. apply runs_bind, runs_assert; [by rewrite Hf|].
  change (id n) with n. rewrite (node_mesh _ _ Hn). destruct (m_queue_model_enabled p); cbn [negb]; [|done].
  apply runs_bind. destruct (processing_runs c n len Hn Hf) as (pt & _ & E). unfold wpe at 1. rewrite E.
  destruct (node_ejection _ _ Hn Hf) as (q & Eq & Hq). rewrite Eq.
  destruct (HQ q t pt Hq) as (d & q' & E' & Hq'). apply runs_bind. apply (runs_lift _ _ _ _ E'). apply runs_bind. cbn.
  split; [|done]. destruct Hn. constructor; cbn; eauto.
Qed.

Lemma computeDistance_spec c d : 0 <= c -> 0 <= d -> exists k, computeDistance p c d = Ok k.
Proof.
  intros Hc Hd. unfold computeDistance. rewrite !computePosition_spec with (cfg := cfg) by done. cbn. destruct (m_wrap_around p); eauto.
Qed.

(** The time at which a packet is handed to its receiver when links have no queues. *)
Definition handed_over (c requester len : Z) (pkt pkt' : NetPacket) : Prop :=
  m_queue_model_enabled p = false -> enabled = true -> requester < n_application_cores cfg ->
  0 <= c < n_application_cores cfg -> c mod m_concentration p = 0 ->
  exists t, bpc_getRoundedLatency (n_periods cfg) bandwidth (u32 (len * 8)) = Ok t /\
    pkt_time pkt' = if pkt_sender pkt =? c then pkt_time pkt else u64 (pkt_time pkt + t).

Lemma mesh_received_runs c n pkt requester len :
  node_ok c n -> 0 <= c -> 0 <= pkt_sender pkt -> packet_ok pkt requester -> net_getModeledLength cfg pkt = Ok len ->
  runs (mesh_processReceivedPacket cfg pkt) (fun pkt' n' => node_ok c n' /\ same_message pkt' pkt /\ handed_over c requester len pkt pkt') n.
Proof.
  intros Hn Hc Hs (Hreq & _ & Ht) Hlen. unfold mesh_processReceivedPacket.
  apply runs_bind, (runs_lift _ _ _ _ Hlen), runs_bind, (runs_lift _ _ _ _ Hreq), runs_bind; cbn. change (id n) with n.
  rewrite (node_enabled _ _ Hn), (node_core _ _ Hn).
  destruct (_ || _ || _) eqn:Eoff.
  { cbn. split_and!; [done|done|]. intros _ -> Hq Hc' _. apply orb_prop in Eoff as [Eoff%orb_prop|Eoff%Z.leb_le]; [|lia].
    destruct Eoff as [|Eoff%Z.leb_le]; [done|lia]. }
  rewrite (node_mesh _ _ Hn). destruct (computeDistance_spec (pkt_sender pkt) c Hs Hc) as [k Ek].
  apply runs_bind, (runs_lift _ _ _ _ Ek), runs_bind.
  eapply (runs_mono _ (fun x n' => node_ok c n' /\ same_message x.2 pkt /\ handed_over c requester len pkt x.2)).
  - destruct (_ && _) eqn:E.
    + apply andb_prop in E as [Es%negb_true_iff Hf%negb_true_iff]. apply runs_bind.
      destruct (processing_runs c n len Hn Hf) as (pt & Ept & E). unfold wpe at 1. rewrite E. apply runs_bind.
      eapply runs_mono; [by apply ejection_runs|]. intros d n' [Hn' Hd]. cbn. split_and!; [done|done|].
      intros Hq _ _ _ _. exists pt. split; [done|]. cbn. rewrite Es, (Hd Hq). unfold st_add. by rewrite Z.add_0_l, wrap_add_r by lia.
    + cbn. split_and!; [done|done|]. intros _ _ _ Hc' Hm. rewrite (master_real c n Hn Hc' Hm), andb_true_r in E. apply negb_false_iff in E. rewrite E.
      destruct (processing_runs c n len Hn (master_real c n Hn Hc' Hm)) as (pt & Ept & _). eauto.
  - intros [[u v] pkt'] n' (Hn' & Hsame & Hh). apply runs_bind. cbn. split; [by destruct Hn'|done].
Qed.

Lemma received_runs net c pkt requester len :
  net_ok net -> 0 <= c < n_total_cores cfg -> 0 <= pkt_sender pkt -> packet_ok pkt requester -> net_getModeledLength cfg pkt = Ok len ->
  runs (processReceivedPacket cfg c s pkt)
    (fun pkt' net' => net_ok net' /\ rest net' = rest net /\ same_message pkt' pkt /\ handed_over c requester len pkt pkt') net.
Proof.
  intros Hnet Hc Hs Hpk Hlen. destruct (net_node net c Hnet Hc) as (x & Hx & o & n & Ho & Eo & Hn & Hmat).
  unfold processReceivedPacket. apply runs_bind. eapply model_obj_runs; [done..|]. rewrite Eo.
  destruct (runs_ok _ _ _ (mesh_received_runs c n pkt requester len Hn ltac:(lia) Hs Hpk Hlen)) as (pkt' & n' & E & Hn' & Hsame).
  apply runs_bind, (runs_lift _ _ _ _ E), runs_bind. unfold set_model. apply runs_bind. eapply model_obj_runs; [done..|].
  eapply runs_mono; [by eapply set_model_obj_runs|]. intros [] net' [A B]. done.
Qed.

(** ** Queues of the transport *)

Definition transports (net : Net) : list (list NetPacket) := nn_transport <$> n_nodes net.

Lemma transports_rest net : transports net = snd <$> (rest net).1.1.
Proof. unfold transports, rest. cbn. rewrite <- list_fmap_compose. done. Qed.

Lemma deliver_all_lookup bs (r : net_rest) i :
  (deliver_all bs r).1.1 !! i = (fun x => (x.1, x.2 ++ (filter (fun y => Z.to_nat y.1 = i) bs).*2)) <$> r.1.1 !! i.
Proof.
  revert r. induction bs as [|[c b] bs IH]; intros r; cbn [deliver_all foldl].
  { destruct (r.1.1 !! i) as [[]|]; cbn; by rewrite ?app_nil_r. }
  unfold deliver_all in IH. rewrite IH, filter_cons. unfold delivered. cbn. case_decide as E.
  - subst i. rewrite list_lookup_alter_eq. destruct (r.1.1 !! _) as [[]|]; cbn; [|done]. by rewrite <- (assoc_L app).
  - by rewrite list_lookup_alter_ne by done.
Qed.

Lemma filter_seqZ (bs : list (Z * NetPacket)) a k i :
  bs.*1 = seqZ a k -> 0 <= a -> 0 <= i ->
  (filter (fun y => Z.to_nat y.1 = Z.to_nat i) bs) = match bs !! Z.to_nat (i - a) with Some y => if decide (a <= i) then [y] else [] | None => [] end.
Proof.
  revert a k. induction bs as [|[c b] bs IH]; intros a k E Ha Hi; [done|]. cbn in E.
  assert (0 < k) as Hk. { destruct (Z.le_gt_cases k 0); [|lia]. by rewrite seqZ_nil in E by lia. }
  rewrite seqZ_cons in E by lia. simplify_eq. rewrite filter_cons. cbn. rewrite (IH _ _ H0) by lia. case_decide as Ei.
  - assert (i = a) as -> by lia. replace (Z.to_nat (a - a)) with 0%nat by lia. cbn [lookup list_lookup]. rewrite (decide_True (P := a <= a)) by lia. f_equal. destruct (bs !! _); [|done].
    by rewrite decide_False by lia.
  - destruct (decide (a <= i)) as [Hle|Hle].
    + replace (Z.to_nat (i - a)) with (S (Z.to_nat (i - Z.succ a))) by lia. cbn [lookup list_lookup]. destruct (bs !! _); [|done]. by rewrite decide_True by lia.
    + replace (Z.to_nat (i - a)) with 0%nat by lia. cbn [lookup list_lookup]. destruct (bs !! _); [|done]. by rewrite decide_False by lia.
Qed.

(** ** Theorems *)


Lemma sent_receivers l (bs : list (Z * NetPacket)) buff :
  Forall (fun h => 0 <= final_dest h) l ->
  Forall2 (fun h x => x.1 = (if final_dest h =? BROADCAST then next_dest h else final_dest h) /\
             pkt_receiver x.2 = final_dest h /\ same_message x.2 buff) l bs ->
  bs.*1 = final_dest <$> l /\ Forall (fun x => pkt_receiver x.2 = x.1 /\ same_message x.2 buff) bs.
Proof.
  intros Hl. induction 1 as [|h x l bs (E & Hr & Hs) _ IH]; [done|]. inversion Hl; subst. destruct IH as [IH1 IH2]; [done|].
  destruct (Z.eqb_spec (final_dest h) BROADCAST) as [Eb|_]; [by rewrite Eb in *|]. cbn. rewrite E, IH1. split; [done|]. constructor; [|done]. by rewrite E.
Qed.


(** A packet of the broadcast waits at a node that has a router, which sends it on. *)
Definition in_flight (net : Net) (pkt : NetPacket) : Prop :=
  exists d l b, 0 <= d < n_application_cores cfg /\ d mod m_concentration p = 0 /\ transports net !! Z.to_nat d = Some l /\ b ∈ l /\ pkt_receiver b = BROADCAST /\ same_message b pkt.

Lemma tree_route_runs net c pkt requester :
  net_ok net -> 0 <= c < n_application_cores cfg -> c mod m_concentration p = 0 -> m_broadcast_tree_enabled p = true ->
  pkt_receiver pkt = BROADCAST -> 0 <= pkt_sender pkt < n_application_cores cfg -> packet_ok pkt requester ->
  runs (routePacket cfg c s pkt)
    (fun '(l, pkt') net' => net_ok net' /\ rest net' = rest net /\ pkt' = pkt /\ Forall hop_ok l /\
       Forall (fun h => next_dest h = final_dest h \/ final_dest h = BROADCAST) l /\ Exists (fun h => final_dest h = BROADCAST) l) net.
Proof.
  intros Hnet Hc Hm Htree Er Hs Hpk. pose proof (mesh_total _ _ Hp). pose proof Hpk as (Hreq & (len & Hlen) & Ht).
  eapply runs_mono; [apply (route_model_runs net c pkt (fun x => x.2 = pkt /\ Forall hop_ok x.1 /\
    Forall (fun h => next_dest h = final_dest h \/ final_dest h = BROADCAST) x.1 /\ Exists (fun h => final_dest h = BROADCAST) x.1)); [done|lia|]|by intros []].
  intros n Hn. unfold mesh_routePacket.
  apply runs_bind, (runs_lift _ _ _ _ Hreq), runs_bind, (runs_lift _ _ _ _ Hlen), runs_bind; cbn. apply runs_bind; cbn.
  pose proof (count_sent_ok c n pkt len Hn) as Hn1. change (id ?x) with x in *. set (n1 := count_sent pkt len n) in *.
  pose proof (master_real c n1 Hn1 Hc Hm) as Hf1. rewrite Er, Z.eqb_refl, Hf1, (node_mesh _ _ Hn1), Htree. apply runs_bind.
  eapply runs_mono; [by apply (tree_hops_runs pkt len requester c)|]. intros l n2 (A & B & C & D). done.
Qed.

(** The packets of a broadcast tree that wait at a core: branches of the tree wait at the node of the core's mesh position. *)
Definition pending (pkt : NetPacket) (i : Z) (b : NetPacket) : Prop :=
  same_message b pkt /\ in_width 64 (pkt_time b) /\
  ((pkt_receiver b = BROADCAST /\ 0 <= i < n_application_cores cfg /\ i mod m_concentration p = 0) \/ pkt_receiver b = i).

(** [net'] is [net] with the packets [bs] added to the transports of their cores. *)
Definition added (bs : list (Z * NetPacket)) (net net' : Net) : Prop :=
  forall i, transports net' !! i = (fun l => l ++ (filter (fun y : Z * NetPacket => Z.to_nat y.1 = i) bs).*2) <$> transports net !! i.

Lemma tree_send_runs net c b pkt requester :
  net_ok net -> g_type_to_static_network_map (pkt_type b) = s -> n_total_cores cfg < 2 ^ 32 ->
  0 <= c < n_application_cores cfg -> c mod m_concentration p = 0 -> m_broadcast_tree_enabled p = true ->
  pkt_receiver b = BROADCAST -> 0 <= pkt_sender b < n_application_cores cfg -> packet_ok b requester -> sizeof_NetPacket <= bufferSize b -> same_message b pkt ->
  runs (netSend cfg c b) (fun b' net' => b' = b /\ net_ok net' /\ exists bs, added bs net net' /\
    Forall (fun x => 0 <= x.1 < n_total_cores cfg /\ pending pkt x.1 x.2) bs /\ Exists (fun x => pkt_receiver x.2 = BROADCAST) bs) net.
Proof.
  intros Hnet Hs Htot Hc Hm Htree Er Hsd Hpk Hsz Hbp. pose proof (mesh_total _ _ Hp) as Hat.
  unfold netSend. rewrite Hs. apply runs_bind. eapply runs_mono; [eapply count_runs; try done; [lia|by left]|]. intros [] net1 [Hnet1 Hr1].
  apply runs_bind. eapply runs_mono; [by eapply (tree_route_runs _ _ _ requester)|]. intros [l pkt1] net2 (Hnet2 & Hr2 & -> & Hl & Hk & Hex).
  apply runs_bind, runs_assert; [by apply Z.leb_le|]. eapply runs_mono; [by eapply send_hops_runs|].
  intros pkt' net3 (Hnet3 & Epk & bs & Hr3 & Hbs). split; [by apply Epk|]. split; [done|]. exists bs. split_and!.
  - intros i. rewrite !transports_rest, !list_lookup_fmap, Hr3, deliver_all_lookup, Hr2, Hr1. by destruct (_ !! i).
  - apply Forall_lookup. intros j x Hx. destruct (Forall2_lookup_r _ _ _ _ _ Hbs Hx) as (h & Hh & E1 & E2 & E3 & E4).
    pose proof (proj1 (Forall_lookup _ _) Hl _ _ Hh) as [_ Hok]. pose proof (proj1 (Forall_lookup _ _) Hk _ _ Hh) as Hor. specialize (E4 Hor).
    assert (same_message x.2 pkt) as E5 by (by rewrite E3). unfold pending. destruct (Z.eqb_spec (final_dest h) BROADCAST) as [Eb|Eb].
    + rewrite E1, E2. destruct Hok as [(_ & ? & ?)|[[? _]|[? _]]]; [|rewrite Eb in *; by change BROADCAST with (-559039810) in *; lia..].
      split; [lia|]. split_and!; try done. by left.
    + rewrite E1, E2. split; [|split_and!; try done; by right]. destruct Hok as [[? _]|[[? _]|[? _]]]; [done|lia..].
  - apply Exists_exists in Hex as (h & Hin & Eh). apply list_elem_of_lookup in Hin as [j Hj].
    destruct (Forall2_lookup_l _ _ _ _ _ Hbs Hj) as (x & Hx & _ & E2 & _). apply Exists_exists. exists x. split; [by eapply list_elem_of_lookup_2|]. by rewrite E2.
Qed.

Lemma added_nil net net' : transports net' = transports net -> added [] net net'.
Proof. intros E i. rewrite E. destruct (transports net !! i); cbn; [by rewrite app_nil_r|done]. Qed.

Lemma same_message_packet a b requester : same_message a b -> in_width 64 (pkt_time a) -> packet_ok b requester -> packet_ok a requester.
Proof. intros H Ht (Hr & Hl & _). split_and!; [by rewrite (same_message_requester _ _ H)|by rewrite (same_message_length _ _ H)|done]. Qed.

(** A node passes a received packet to a callback or to its queue. *)
Lemma hand_over_runs net c b requester pkt :
  net_ok net -> 0 <= c < n_total_cores cfg -> 0 <= pkt_sender b -> packet_ok b requester -> g_type_to_static_network_map (pkt_type b) = s ->
  (forall net', net_ok net' -> transports net' = transports net -> pkt tt net') ->
  runs (b' ← processReceivedPacket cfg c (g_type_to_static_network_map (pkt_type b)) b; n ← node c;
        if nn_callback n (pkt_type b') then modify (fun s => with_n_calls (n_calls s ++ [(c, b')]) s)
        else set_node c (with_nn_queue (nn_queue n ++ [b']) n)) pkt net.
Proof.
  intros Hnet Hc Hs Hpk Et HQ'. pose proof Hpk as (_ & (len & Hlen) & _). rewrite Et. apply runs_bind.
  eapply runs_mono; [by apply (received_runs _ _ _ requester len)|]. intros b' net2 (Hnet2 & Hr2 & _).
  destruct (net_node net2 c Hnet2 Hc) as (x & Hx & Hxok). apply runs_bind. eapply node_runs; [done|].
  assert (transports net2 = transports net) as E by (by rewrite !transports_rest, Hr2).
  destruct (nn_callback x _); [by apply HQ'|]. destruct Hnet2 as [Hl2 Hnet2]. apply HQ'.
  - split; [cbn; by rewrite length_insert|]. cbn. intros d y Hy Hd. destruct (decide (Z.to_nat d = Z.to_nat c)) as [Ed|Ed].
    + rewrite Ed, list_lookup_insert_eq in Hy by (apply lookup_lt_Some in Hx; lia). simplify_eq. assert (d = c) as -> by lia. done.
    + rewrite list_lookup_insert_ne in Hy by done. by apply Hnet2.
  - rewrite <- E. unfold transports. cbn. rewrite list_fmap_insert. cbn. by rewrite list_insert_id by (by rewrite list_lookup_fmap, Hx).
Qed.

Section tree.
Context (pkt : NetPacket) (requester : Z).
Context (Htype : g_type_to_static_network_map (pkt_type pkt) = s) (Htot : n_total_cores cfg < 2 ^ 32) (Htree : m_broadcast_tree_enabled p = true).
Context (Hsender : 0 <= pkt_sender pkt < n_application_cores cfg) (Hpacket : packet_ok pkt requester) (Hsize : sizeof_NetPacket <= bufferSize pkt).

(** What a node does with a packet of the broadcast: a branch of the tree leads on. *)
Lemma tree_handle_runs net i b :
  net_ok net -> 0 <= i < n_total_cores cfg -> pending pkt i b ->
  runs (handle_packet cfg i b) (fun _ net' => net_ok net' /\ exists bs, added bs net net' /\
    Forall (fun x => 0 <= x.1 < n_total_cores cfg /\ pending pkt x.1 x.2) bs /\ (pkt_receiver b = BROADCAST -> Exists (fun x => pkt_receiver x.2 = BROADCAST) bs)) net.
Proof.
  intros Hnet Hi (Hsame & Ht & Hr). pose proof (mesh_total _ _ Hp) as Hat. pose proof Hsame as (Et & Es & El & _).
  pose proof (same_message_packet _ _ _ Hsame Ht Hpacket) as Hpk. assert (Ets : g_type_to_static_network_map (pkt_type b) = s) by (by rewrite Et).
  assert (Hsb : 0 <= pkt_sender b < n_application_cores cfg) by (by rewrite Es).
  unfold handle_packet. apply runs_bind, runs_assert; [apply andb_true_intro; split; [apply Z.leb_le|apply Z.ltb_lt]; lia|].
  destruct (Z.eqb_spec (pkt_receiver b) i) as [Ei|Ei]; cbn [negb andb].
  - apply runs_bind. change (mret b) with (mret b : ST Net NetPacket). cbn. eapply hand_over_runs; try done; [lia|]. intros net' Hnet' Etr. split; [done|].
    exists []. split_and!; [by apply added_nil|done|]. intros Eb. rewrite Eb in Ei. change BROADCAST with (-559039810) in Ei. lia.
  - destruct Hr as [(Eb & Hc & Hm)|?]; [|done]. apply runs_bind. eapply runs_mono; [eapply (tree_send_runs _ _ _ pkt requester); try done; unfold bufferSize in *; by rewrite El|].
    intros b' net1 (-> & Hnet1 & bs & Hadd & Hall & Hex). rewrite Eb, Z.eqb_refl. cbn [negb]. eapply hand_over_runs; try done; [lia|]. intros net' Hnet' Etr. split; [done|].
    exists bs. split_and!; [|done|done]. intros j. by rewrite Etr.
Qed.

(** A core takes the first packet from its transport: a turn of the loop of [netPullFromTransport]. *)
Inductive turn (c : Z) (net net' : Net) : Prop :=
  turn_intro x b l : 0 <= c < n_total_cores cfg -> n_nodes net !! Z.to_nat c = Some x -> nn_transport x = b :: l ->
    (_ ← set_node c (with_nn_transport l x); handle_packet cfg c b) net = Ok (tt, net') -> turn c net net'.

(** All that waits belongs to the broadcast, and a branch of the tree is among it. *)
Definition spreading (net : Net) : Prop :=
  net_ok net /\ (forall i l, 0 <= i -> transports net !! Z.to_nat i = Some l -> Forall (pending pkt i) l) /\ in_flight net pkt.

Lemma in_flight_added bs net net' : net_ok net -> added bs net net' -> Forall (fun x => 0 <= x.1 < n_total_cores cfg /\ pending pkt x.1 x.2) bs ->
  Exists (fun x => pkt_receiver x.2 = BROADCAST) bs -> in_flight net' pkt.
Proof.
  intros Hnet Hadd Hall Hex. apply Exists_exists in Hex as (x & Hin & Eb). destruct (proj1 (Forall_forall _ _) Hall x Hin) as [Hx (Hsame & _ & [(_ & Hxa & Hxm)|Ex])];
    [|rewrite Eb in Ex; change BROADCAST with (-559039810) in Ex; lia].
  destruct (net_node net x.1 Hnet Hx) as (y & Hy & _). exists x.1. eexists _, x.2. split; [done|]. split; [done|]. rewrite Hadd. unfold transports. rewrite list_lookup_fmap, Hy. cbn.
  split; [reflexivity|]. split_and!; [|done|done]. apply elem_of_app. right. apply list_elem_of_fmap. exists x. split; [done|]. by apply list_elem_of_filter.
Qed.

Lemma pending_added bs net net' i l : added bs net net' -> Forall (fun x => 0 <= x.1 < n_total_cores cfg /\ pending pkt x.1 x.2) bs -> 0 <= i ->
  (forall l, transports net !! Z.to_nat i = Some l -> Forall (pending pkt i) l) -> transports net' !! Z.to_nat i = Some l -> Forall (pending pkt i) l.
Proof.
  intros Hadd Hall Hi Hl E. rewrite Hadd in E. destruct (transports net !! Z.to_nat i) as [l0|]; [|done]. cbn in E. injection E as <-. apply Forall_app. split; [by apply Hl|].
  apply Forall_fmap, Forall_forall. intros x [Ex Hx]%list_elem_of_filter. destruct (proj1 (Forall_forall _ _) Hall x Hx) as [? Hpx]. by replace i with x.1 by lia.
Qed.

Lemma transports_take c x b l net : n_nodes net !! Z.to_nat c = Some x -> nn_transport x = b :: l ->
  transports (with_n_nodes (<[Z.to_nat c := with_nn_transport l x]> (n_nodes net)) net) = <[Z.to_nat c := l]> (transports net).
Proof. intros Hx Et. unfold transports. cbn. by rewrite list_fmap_insert. Qed.

(** Every core with a packet can take its turn, after which the broadcast still spreads. *)
Lemma spreading_turn net c x b l : spreading net -> 0 <= c < n_total_cores cfg -> n_nodes net !! Z.to_nat c = Some x -> nn_transport x = b :: l ->
  runs (_ ← set_node c (with_nn_transport l x); handle_packet cfg c b) (fun _ net' => spreading net') net.
Proof.
  intros ([Hlen Hnet] & Hpend & Hfl) Hc Hx Et. apply runs_bind. cbn. set (net1 := with_n_nodes _ net).
  assert (Htr : transports net !! Z.to_nat c = Some (b :: l)) by (unfold transports; rewrite list_lookup_fmap, Hx; cbn; by rewrite Et).
  assert (Et1 : transports net1 = <[Z.to_nat c := l]> (transports net)) by (by apply (transports_take c x b)).
  assert (Hlt : (Z.to_nat c < length (transports net))%nat) by (by eapply lookup_lt_Some).
  assert (Hnet1 : net_ok net1).
  { split; [cbn; by rewrite length_insert|]. cbn. intros d y Hy Hd. destruct (decide (Z.to_nat d = Z.to_nat c)) as [Ed|Ed].
    - rewrite Ed, list_lookup_insert_eq in Hy by (apply lookup_lt_Some in Hx; lia). simplify_eq. assert (d = c) as -> by lia. exact (Hnet c x Hx Hd).
    - rewrite list_lookup_insert_ne in Hy by done. by apply Hnet. }
  pose proof (Hpend c _ ltac:(lia) Htr) as Hq. inversion Hq as [|? ? Hb Hl]; subst.
  assert (Hpend1 : forall i l', 0 <= i -> transports net1 !! Z.to_nat i = Some l' -> Forall (pending pkt i) l').
  { intros i l' Hi E. rewrite Et1 in E. destruct (decide (Z.to_nat i = Z.to_nat c)) as [Ei|Ei].
    - rewrite Ei, list_lookup_insert_eq in E by done. injection E as <-. by replace i with c by lia.
    - rewrite list_lookup_insert_ne in E by done. by apply Hpend. }
  eapply runs_mono; [by apply tree_handle_runs|]. intros [] net' (Hnet' & bs & Hadd & Hall & Hex). split_and!; [done| |].
  - intros i l' Hi. eapply pending_added; eauto.
  - destruct (decide (pkt_receiver b = BROADCAST)) as [Eb|Eb]; [by eapply in_flight_added; [exact Hnet1|..]; eauto|].
    destruct Hfl as (d & ld & bd & Hd & Hdm & Eld & Hin & Er & Hsame). exists d. destruct (decide (Z.to_nat d = Z.to_nat c)) as [Ed|Ed].
    + eexists _, bd. split; [done|]. split; [done|]. rewrite Hadd, Et1. rewrite Ed, list_lookup_insert_eq by done. cbn. split; [reflexivity|]. rewrite Ed, Htr in Eld. injection Eld as <-. split_and!; [|done|done].
      apply elem_of_app. left. apply elem_of_cons in Hin as [->|?]; done.
    + eexists _, bd. split; [done|]. split; [done|]. rewrite Hadd, Et1, list_lookup_insert_ne, Eld by done. cbn. split; [reflexivity|]. split_and!; [|done|done]. apply elem_of_app. by left.
Qed.

End tree.

End delivery.

(** ** Construction *)

(** Basic queues without a moving average never fail. *)
Definition basic_queue (q : QueueModel) : Prop := exists t, q = QBasic (mkBasic t None).
Lemma basic_queue_total f g q t pt : basic_queue q -> exists d q', computeQueueDelay f g q t pt = Ok (d, q') /\ basic_queue q'.
Proof. intros [u ->]. cbn. unfold basic_computeQueueDelay. cbn. do 2 eexists. split; [done|]. by eexists. Qed.

Section construction.
Context (cfg : NetCfg) (c : NetworkCfg) (w h : Z) (Q : QueueModel -> Prop) (d : pref).
Let mc := nt_mesh c.
Context (Hdim : computeMeshDimensions cfg mc = Ok (w, h)) (Hw : 0 < w) (Hc : 0 < mc_concentration mc) (Hpos : 0 < n_application_cores cfg)
  (Htot : n_application_cores cfg <= n_total_cores cfg) (Hd : forall core, nt_domain c core = d)
  (Hcreate : forall q, QueueModel_create (mc_queue mc) (mc_queue_model_type mc) (n_periods cfg d) = Ok q -> Q q).

(** The parameters that all nodes have. *)
Definition mesh_of : MeshParams := mkMesh w h (mc_concentration mc) (mc_wrap_around mc) (mc_broadcast_tree_enabled mc) (mc_queue_model_enabled mc).
Definition bandwidth_of : ComponentBandwidthPerCycle := {| bpc_period := d; m_bw_in_bits_per_cycle := mc_link_bandwidth mc |}.
Definition latency_of : Z := cl_getLatency (n_periods cfg) {| cl_period := d; m_fixed_cycle_latency := mc_hop_latency mc |}.

Lemma mesh_of_ok : mesh_ok cfg mesh_of.
Proof.
  assert (n_application_cores cfg = mc_concentration mc * h * w) as E.
  { clear -Hdim. unfold computeMeshDimensions in Hdim. res_inv Hdim. destruct a as [w' h']. res_inv Hdim. simplify_eq.
    unfold assert_ in E0. destruct (Z.eqb_spec (n_application_cores cfg) (mc_concentration mc * h * w)); done. }
  assert (0 < h) by nia. constructor; cbn; try done. lia.
Qed.

Lemma MeshNode_new_ok core n :
  0 <= core -> MeshNode_new cfg mc (nt_domain c) core = Ok n -> node_ok cfg mesh_of false latency_of bandwidth_of Q core n.
Proof.
  intros H0 H. unfold MeshNode_new in H. rewrite Hdim in H. cbn in H. unfold c_mod in H. destruct (Z.eqb_spec (mc_concentration mc) 0); [lia|].
  cbn in H. rewrite Z.rem_mod_nonneg in H by lia. pose proof mesh_of_ok as Hm. pose proof (mesh_cores _ _ Hm) as Ea. cbn in Ea.
  replace (mc_concentration mc * w * h) with (n_application_cores cfg) in H by lia.
  destruct (negb _ || _) eqn:E; [|res_inv H]; simplify_eq; constructor; cbn; rewrite ?Hd; try done.
  all: intros _; rewrite Hd in *; specialize (Hcreate _ ltac:(eassumption)); try by eauto.
  split; [done|]. by repeat constructor.
Qed.

Lemma create_nodes_ok system k core l :
  0 <= core -> create_nodes cfg c (Some NETWORK_EMESH_HOP_BY_HOP) system k core = Ok l ->
  length l = k /\ forall i x, l !! i = Some x -> net_node_ok cfg mesh_of false latency_of bandwidth_of Q STATIC_NETWORK_MEMORY_1 (core + Z.of_nat i) x.
Proof.
  revert core l. induction k as [|k IH]; intros core l H0 H; cbn [create_nodes] in H; [by simplify_eq|].
  res_inv H. simplify_eq. destruct (IH (core + 1) _ ltac:(lia) E1) as [Hl Hi]. split; [cbn; by rewrite Hl|]. intros [|i] x Hx; cbn in Hx.
  - simplify_eq. unfold createModel in E. res_inv E. res_inv E2. simplify_eq. eexists _, _. cbn. split_and!; [done|done| |].
    + rewrite Z.add_0_r. by apply MeshNode_new_ok.
    + destruct (nt_collect_traffic_matrix c); [|done]. unfold matrix_ok. cbn [mo_matrix]. rewrite length_replicate. lia.
  - replace (core + Z.of_nat (S i)) with (core + 1 + Z.of_nat i) by lia. by apply Hi.
Qed.

Lemma Net_new_ok system bus net :
  0 <= n_total_cores cfg -> Net_new cfg c (Some NETWORK_EMESH_HOP_BY_HOP) system bus = Ok net ->
  net_ok cfg mesh_of false latency_of bandwidth_of Q STATIC_NETWORK_MEMORY_1 net.
Proof.
  intros Ht H. unfold Net_new in H. res_inv H. simplify_eq. destruct (create_nodes_ok system _ 0 _ ltac:(lia) E) as [Hl Hi]. split; cbn; [lia|].
  intros core x Hx H0. specialize (Hi _ _ Hx). by rewrite Z2Nat.id, Z.add_0_l in Hi by done.
Qed.
End construction.

(** All cores enable or disable their models. *)
Definition net_enable (b : bool) (net : Net) : Net := with_n_nodes (node_set_models b <$> n_nodes net) net.
Lemma net_enable_ok cfg p e b L bw Q s net : net_ok cfg p e L bw Q s net -> net_ok cfg p b L bw Q s (net_enable b net).
Proof.
  intros [Hl Hn]. split; cbn; [by rewrite length_fmap|]. intros c x Hx Hc. rewrite list_lookup_fmap in Hx. apply fmap_Some in Hx as (y & Hy & ->).
  destruct (Hn _ _ Hy Hc) as (o & n & Ho & Eo & Hok & Hm). eexists _, _. cbn. rewrite list_lookup_fmap, Ho. cbn. split_and!; [reflexivity| | |done].
  - rewrite Eo. reflexivity.
  - by destruct Hok.
Qed.

(** ** Examples *)

(** A mesh or torus of width [w] and height [h]: links of 8 bits per cycle, cycles of 1000 fs, two cycles per hop. *)
Definition ex_net_cfg (n : Z) : NetCfg := mkNetCfg n n (fun _ => 1000) (fun x _ => x) 0.
Definition ex_network (size : string) (wrap tree queues : bool) : NetworkCfg :=
  mkNetworkCfg (mkMeshCfg 8 2 1 2 wrap size queues "basic" tree (mkQueueCfg false 0 "" false 0 0 0%nat)) 2 8 false (fun _ => 0%nat) false.
Definition ex_net (n : Z) (size : string) (wrap tree queues : bool) : Net :=
  match Net_new (ex_net_cfg n) (ex_network size wrap tree queues) (Some NETWORK_EMESH_HOP_BY_HOP) (Some NETWORK_MAGIC) None with
  | Ok net => net_enable true net
  | Err _ => mkNet [] [] []
  end.
Definition ex_msg : MsgBuf := mkMsgBuf (mkMsg SH_REQ 0 0 None W_UNKNOWN None) 0.
Definition ex_packet (sender receiver : Z) : NetPacket := NetPacket_new 5000 SHARED_MEM_1 sender receiver 64 (Some ex_msg).

Lemma ex_net_ok n size wrap tree queues w h :
  0 < n -> 0 < w -> computeMeshDimensions (ex_net_cfg n) (nt_mesh (ex_network size wrap tree queues)) = Ok (w, h) ->
  match Net_new (ex_net_cfg n) (ex_network size wrap tree queues) (Some NETWORK_EMESH_HOP_BY_HOP) (Some NETWORK_MAGIC) None with Ok _ => true | Err _ => false end = true ->
  mesh_ok (ex_net_cfg n) (mkMesh w h 1 wrap tree queues) /\
  net_ok (ex_net_cfg n) (mkMesh w h 1 wrap tree queues) true 2000 (bandwidth_of (ex_network size wrap tree queues) 0%nat) basic_queue
    STATIC_NETWORK_MEMORY_1 (ex_net n size wrap tree queues).
Proof.
  intros Hn Hw Hdim Hnew. split.
  - by apply (mesh_of_ok (ex_net_cfg n) (ex_network size wrap tree queues) w h); cbn; try lia.
  - unfold ex_net. destruct (Net_new _ _ _ _ _) as [net|] eqn:E; [|done]. apply (net_enable_ok _ _ false).
    apply (Net_new_ok (ex_net_cfg n) (ex_network size wrap tree queues) w h basic_queue 0%nat) in E; cbn; try lia; try done.
    intros q Hq. vm_compute in Hq. injection Hq as <-. by eexists.
Qed.




Definition ex_counter : CounterNode :=
  mkCounter 2 2 {| cl_period := 0%nat; m_fixed_cycle_latency := 2 |} {| bpc_period := 0%nat; m_bw_in_bits_per_cycle := 8 |} true 0 0 0.

(** Packets sent one after the other, and then the latency and queue delay of those that have arrived at a core. *)
Fixpoint send_all (cfg : NetCfg) (l : list NetPacket) (net : Net) : res Net :=
  match l with [] => Ok net | pkt :: l => '(_, net) ← netSend cfg (pkt_sender pkt) pkt net; send_all cfg l net end.
Definition arrivals (core : nat) (r : res Net) : list (Z * Z) :=
  match r with
  | Ok net => (fun b => (pkt_time b - pkt_start_time b, pkt_queue_delay b)) <$> default [] (transports net !! core)
  | Err _ => []
  end.

(** Queue delays after the first hop are not reported: the second packet waits 12062 at the second link of its way
    and arrives that much later, but the copy that arrives has no queue delay. *)
Theorem queue_delay_lost :
  arrivals 2 (send_all (ex_net_cfg 3) [ex_packet 1 2; ex_packet 0 2] (ex_net 3 "3:1" false false true)) = [(2000, 0); (2 * 2000 + 12062, 0)].
Proof. vm_compute. reflexivity. Qed.

(** ** Placement of memory controllers *)

Lemma up_NoDup (f : Z -> Z) n : (forall i j, 0 <= i < n -> 0 <= j < n -> f i = f j -> i = j) -> NoDup (f <$> (Z.of_nat <$> seq 0 (Z.to_nat n))).
Proof.
  intros Hf. rewrite <- list_fmap_compose. apply NoDup_fmap_2_strong; [|apply NoDup_seq].
  intros i j Hi%elem_of_seq Hj%elem_of_seq E. cbn in E. apply Hf in E; lia.
Qed.
Lemma elem_of_up (f : Z -> Z) n x : x ∈ f <$> (Z.of_nat <$> seq 0 (Z.to_nat n)) -> exists i, 0 <= i < n /\ x = f i.
Proof.
  intros (y & -> & (i & -> & Hi%elem_of_seq)%list_elem_of_fmap)%list_elem_of_fmap. exists (Z.of_nat i). split; [lia|done].
Qed.

Lemma along_perimeter_spec dims w h :
  0 < w -> 0 < h -> dims <= 1 \/ h = 1 \/ 1 < w ->
  NoDup (along_perimeter dims w h) /\ Forall (fun x => 0 <= x < w * h) (along_perimeter dims w h).
Proof.
  intros Hw Hh Hc. unfold along_perimeter. cbv zeta.
  rewrite <- (list_fmap_id (Z.of_nat <$> seq 0 (Z.to_nat w))) at 1 3. change (@id Z) with (fun i : Z => i).
  destruct (Z.ltb_spec 1 dims); cbn [andb]; [destruct (Z.ltb_spec 1 h)|].
  2,3: rewrite app_nil_r; split; [by apply up_NoDup|]; apply Forall_forall; intros x (i & Hi & ->)%elem_of_up; nia.
  destruct Hc as [|[|Hc]]; [lia..|]. split.
  - repeat (apply NoDup_app; split_and!); try (apply up_NoDup; intros; nia).
    all: intros x (i & Hi & Ex)%elem_of_up; rewrite ?elem_of_app; intros Hx.
    all: repeat match goal with H : _ \/ _ |- _ => destruct H end; match goal with H : _ ∈ _ |- _ => apply elem_of_up in H as (j & Hj & Ej) end; try nia.
    destruct (Z.lt_trichotomy (i + 2 - (h - 2 - j)) 0) as [?|[?|?]]; nia.
  - apply Forall_forall. intros x. rewrite !elem_of_app. intros [(i & Hi & ->)%elem_of_up|[(i & Hi & ->)%elem_of_up|[(i & Hi & ->)%elem_of_up|(i & Hi & ->)%elem_of_up]]]; nia.
Qed.

Lemma length_along_perimeter dims w h :
  0 < w -> 0 < h -> Z.of_nat (length (along_perimeter dims w h)) = if (1 <? dims) && (1 <? h) then 2 * (w + h - 2) else w.
Proof.
  intros Hw Hh. unfold along_perimeter. cbv zeta. rewrite length_app, length_fmap, length_seq. destruct (Z.ltb_spec 1 dims); cbn [andb].
  2: cbn; lia. destruct (Z.ltb_spec 1 h); [|cbn; lia]. rewrite !length_app, !length_fmap, !length_seq. lia.
Qed.

Lemma mapM_ok {A B} (f : A -> res B) (g : A -> B) l : (forall x, x ∈ l -> f x = Ok (g x)) -> mapM f l = Ok (g <$> l).
Proof.
  induction l as [|x l IH]; intros Hf; [done|]. simpl. rewrite (Hf x) by (by left). rewrite IH; [done|].
  intros y Hy. apply Hf. by right.
Qed.

Lemma spread_injective n sp k a i j :
  0 < sp -> sp * k <= n -> 0 <= a -> 0 <= i < k -> 0 <= j < k -> (i * sp + a) mod n = (j * sp + a) mod n -> i = j.
Proof.
  intros Hsp Hn Ha Hi Hj E. assert (0 < n) by nia.
  pose proof (Z.div_mod (i * sp + a) n ltac:(lia)) as Ei. pose proof (Z.div_mod (j * sp + a) n ltac:(lia)) as Ej. rewrite E in Ei.
  set (u := (i * sp + a) / n) in *. set (v := (j * sp + a) / n) in *.
  destruct (Z.lt_trichotomy i j) as [?|[?|?]]; [|done|]; destruct (Z.lt_trichotomy u v) as [?|[?|?]]; nia.
Qed.

(** The memory controllers of a mesh that is wider than one node are put on as many different nodes along the
    perimeter, whenever there are no more of them than nodes there. *)
Theorem memory_controllers_distinct cfg c k w h :
  computeMeshDimensions cfg c = Ok (w, h) -> 0 < w -> 0 < h -> mc_dimensions c <= 1 \/ h = 1 \/ 1 < w ->
  0 < mc_concentration c -> w * h < 2 ^ 30 -> 0 < k <= Z.of_nat (length (along_perimeter (mc_dimensions c) w h)) ->
  exists l, mesh_computeMemoryControllerPositions cfg c k = Ok l /\ Z.of_nat (length l) = k /\ NoDup l /\
    Forall (fun x => exists y, y ∈ along_perimeter (mc_dimensions c) w h /\ 0 <= y < w * h /\ x = mc_concentration c * y) l.
Proof.
  intros Hdim Hw Hh Hc Hconc Hwh Hk. destruct (along_perimeter_spec (mc_dimensions c) w h Hw Hh Hc) as [Hnd Hall].
  pose proof (length_along_perimeter (mc_dimensions c) w h Hw Hh) as Hlen. unfold mesh_computeMemoryControllerPositions. rewrite Hdim. cbn [mbind res_bind].
  set (per := along_perimeter (mc_dimensions c) w h) in *. set (n := Z.of_nat (length per)) in *. assert (n = Z.of_nat (length per)) as Hnn by done.
  assert (w + h - 2 < 2 ^ 30) as Hwh' by nia. assert (0 < n < 2 ^ 31) as Hn by (rewrite Hlen; destruct (_ && _) in Hlen |- *; nia).
  replace (if (1 <? mc_dimensions c) && (1 <? h) then assert_ (n =? u32 (2 * (w + h - 2))) else Ok tt) with (Ok tt).
  2: { destruct (_ && _); [|done]. rewrite Hlen, wrap_small by lia. by rewrite Z.eqb_refl. }
  cbn [mbind res_bind]. rewrite (wrap_small 32 k), (wrap_small 64 k) by lia. rewrite (proj2 (Z.leb_le k n)) by lia. cbn [assert_ mbind res_bind].
  destruct (Z.eqb_spec k 0); [lia|]. assert (0 < n / k) as Hsp by (apply Z.div_str_pos; lia). pose proof (Z.mul_div_le n k ltac:(lia)) as Hspk.
  assert (n / k < 2 ^ 31) by (apply Z.div_lt_upper_bound; nia). rewrite swrap_small by lia. rewrite (Z.quot_div_nonneg w 2) by lia.
  set (sp := n / k) in *. set (a := w / 2). assert (0 <= a < 2 ^ 30) as Ha by (subst a; split; [apply Z.div_pos; lia|apply Z.div_lt_upper_bound; nia]).
  set (idx i := Z.to_nat ((i * sp + a) mod n)).
  assert (forall i, 0 <= i < k -> exists y, per !! idx i = Some y) as Hidx.
  { intros i Hi. apply lookup_lt_is_Some. unfold idx. pose proof (Z.mod_pos_bound (i * sp + a) n ltac:(lia)). lia. }
  rewrite (mapM_ok _ (fun i => mc_concentration c * default 0 (per !! idx i))).
  2: { intros i (j & -> & Hj%elem_of_seq)%list_elem_of_fmap. destruct (Hidx (Z.of_nat j)) as [y Hy]; [lia|].
       rewrite (wrap_small 64) by nia. fold (idx (Z.of_nat j)). unfold aget. rewrite Hy. done. }
  eexists. split; [done|]. rewrite !length_fmap, length_seq. split_and!; [lia| |].
  - apply up_NoDup. intros i j Hi Hj E. destruct (Hidx i Hi) as [y Hy], (Hidx j Hj) as [z Hz]. rewrite Hy, Hz in E. cbn in E.
    assert (y = z) as -> by nia. pose proof (proj1 (NoDup_alt _) Hnd _ _ _ Hy Hz) as Eij. unfold idx in Eij.
    pose proof (Z.mod_pos_bound (i * sp + a) n ltac:(lia)). pose proof (Z.mod_pos_bound (j * sp + a) n ltac:(lia)).
    apply (spread_injective n sp k a); lia.
  - apply Forall_forall. intros x (i & Hi & ->)%elem_of_up. destruct (Hidx i Hi) as [y Hy]. rewrite Hy. exists y.
    split_and!; [by eapply list_elem_of_lookup_2|by apply (proj1 (Forall_lookup _ _) Hall _ _ Hy)..|done].
Qed.

Lemma memory_controllers_distinct_witness :
  exists l, mesh_computeMemoryControllerPositions (ex_net_cfg 12) (nt_mesh (ex_network "" false false true)) 4 = Ok l /\
    Z.of_nat (length l) = 4 /\ NoDup l.
Proof.
  destruct (memory_controllers_distinct (ex_net_cfg 12) (nt_mesh (ex_network "" false false true)) 4 3 4) as (l & E & Hl & Hn & _);
    [vm_compute; reflexivity|lia|lia|right; right; lia|vm_compute; reflexivity|lia|split; [lia|vm_compute; discriminate]|].
  exists l. split; [exact E|]. split; [exact Hl|exact Hn].
Defined.

(** In a mesh of width one the perimeter lists the inner nodes twice, and two controllers get the same node. *)
Example memory_controllers_collide :
  mesh_computeMemoryControllerPositions (ex_net_cfg 4) (nt_mesh (ex_network "1:4" false false true)) 3 = Ok [0; 2; 2].
Proof. vm_compute. reflexivity. Qed.

(** On a ring of five nodes a packet takes three hops to a node that is two hops away. *)
Example ring_detour :
  route_hops (mkMesh 5 1 1 true false true) 0 3 = 3 /\ computeDistance (mkMesh 5 1 1 true false true) 0 3 = Ok 2.
Proof. split; vm_compute; reflexivity. Qed.
