(* ===== verification/CircularQueue.v ===== *)
(** * Circular queues

    Models src/common/misc/circular_queue.h: a ring of [m_size] slots, one of which stays free,
    with the positions of the next insertion and of the oldest element as 32-bit numbers.  References
    to elements are positions in the ring ([nat]).  The constructor's argument is below 2^32 - 1, so
    that [m_size] is not zero. *)

From S2P Require Import Prelude.

Record CircularQueue (T : Type) := mkCQ { cq_size : Z; cq_first : Z; cq_last : Z; cq_queue : list T }.
Arguments mkCQ {T} _ _ _ _.
Arguments cq_size {T} _.
Arguments cq_first {T} _.
Arguments cq_last {T} _.
Arguments cq_queue {T} _.

Section queue.
Context {T : Type}.
Implicit Types (q : CircularQueue T).

(** [d] is what a new array holds. *)
Definition cq_new (size : Z) (d : T) : CircularQueue T :=
  mkCQ (u32 (size + 1)) 0 0 (replicate (Z.to_nat (u32 (size + 1))) d).

Definition cq_full q : bool := u32 (cq_first q + 1) mod cq_size q =? cq_last q.
Definition cq_empty q : bool := cq_first q =? cq_last q.
Definition cq_length q : Z := u32 (cq_first q + cq_size q - cq_last q) mod cq_size q.

Definition cq_set (i : nat) (t : T) q : CircularQueue T := mkCQ (cq_size q) (cq_first q) (cq_last q) (<[i := t]> (cq_queue q)).
Definition cq_advance_first q : CircularQueue T := mkCQ (cq_size q) (u32 (cq_first q + 1) mod cq_size q) (cq_last q) (cq_queue q).
Definition cq_advance_last q : CircularQueue T := mkCQ (cq_size q) (cq_first q) (u32 (cq_last q + 1) mod cq_size q) (cq_queue q).

(** [next] returns a reference to the slot that it takes. *)
Definition cq_next q : res (nat * CircularQueue T) :=
  _ ← assert_ (negb (cq_full q));
  _ ← aget (cq_queue q) (Z.to_nat (cq_first q));
  Ok (Z.to_nat (cq_first q), cq_advance_first q).

Definition cq_push (t : T) q : res (CircularQueue T) :=
  '(i, q) ← cq_next q;
  Ok (cq_set i t q).

Definition cq_pop q : res (T * CircularQueue T) :=
  _ ← assert_ (negb (cq_empty q));
  t ← aget (cq_queue q) (Z.to_nat (cq_last q));
  Ok (t, cq_advance_last q).

Definition cq_pushCircular (t : T) q : res (CircularQueue T) :=
  q ← (if cq_full q then '(_, q) ← cq_pop q; Ok q else Ok q);
  cq_push t q.

Definition cq_front q : res T := _ ← assert_ (negb (cq_empty q)); aget (cq_queue q) (Z.to_nat (cq_last q)).
Definition cq_back q : res T :=
  _ ← assert_ (negb (cq_empty q));
  aget (cq_queue q) (Z.to_nat (u32 (cq_first q + cq_size q - 1) mod cq_size q)).

(** [operator[]] does not check the index, [at] does. *)
Definition cq_slot q (idx : Z) : nat := Z.to_nat (u32 (cq_last q + idx) mod cq_size q).
Definition cq_get q (idx : Z) : res T := aget (cq_queue q) (cq_slot q idx).
Definition cq_at q (idx : Z) : res T := _ ← assert_ (idx <? cq_length q); cq_get q idx.

(** ** The queue as an interval of an endless array

    Element number [n] (counted from the creation of the queue) is in slot [n mod m_size]; the queue
    has the elements from [lo] up to [hi]. *)

Definition ring q (lo hi : Z) : Prop :=
  1 <= cq_size q < 2 ^ 31 /\ 0 <= lo <= hi /\ hi - lo < cq_size q /\
  cq_first q = hi mod cq_size q /\ cq_last q = lo mod cq_size q /\ length (cq_queue q) = Z.to_nat (cq_size q).

Definition ring_slot q (n : Z) : nat := Z.to_nat (n mod cq_size q).

Lemma cq_ring_new size d : 0 <= size < 2 ^ 31 - 1 -> ring (cq_new size d) 0 0.
Proof.
  intros H. unfold ring, cq_new. cbn -[Z.pow u32]. rewrite (wrap_small 32 (size + 1)) by lia.
  rewrite length_replicate, Z.mod_0_l by lia. lia.
Qed.

Lemma mod_bound a m : 1 <= m -> 0 <= a mod m < m.
Proof. intros. apply Z.mod_pos_bound. lia. Qed.

Lemma mod_eq_near a b m : 1 <= m -> 0 <= a - b < m -> a mod m = b mod m -> a = b.
Proof.
  intros Hm H E. assert ((a - b) mod m = 0) as E' by (by rewrite Zminus_mod, E, Z.sub_diag, Z.mod_0_l by lia).
  rewrite Z.mod_small in E' by lia. lia.
Qed.

Lemma ring_slot_lt q lo hi n : ring q lo hi -> (ring_slot q n < length (cq_queue q))%nat.
Proof. intros (Hs & _ & _ & _ & _ & ->). unfold ring_slot. pose proof (mod_bound n (cq_size q)). lia. Qed.

Lemma ring_slot_inj q lo hi a b : ring q lo hi -> lo <= a < lo + cq_size q -> lo <= b < lo + cq_size q ->
  ring_slot q a = ring_slot q b -> a = b.
Proof.
  intros (Hs & _) Ha Hb E. unfold ring_slot in E.
  pose proof (mod_bound a (cq_size q)). pose proof (mod_bound b (cq_size q)).
  assert (E' : a mod cq_size q = b mod cq_size q) by lia.
  destruct (Z.le_ge_cases a b); [symmetry|]; apply (mod_eq_near _ _ (cq_size q)); lia.
Qed.

Lemma ring_length q lo hi : ring q lo hi -> cq_length q = hi - lo.
Proof.
  intros (Hs & Hle & Hlt & Hf & Hl & _). unfold cq_length. rewrite Hf, Hl.
  pose proof (mod_bound hi (cq_size q)). pose proof (mod_bound lo (cq_size q)).
  rewrite wrap_small by lia. rewrite Zminus_mod, Zplus_mod, Z.mod_same, Z.add_0_r, !Z.mod_mod by lia.
  rewrite <- Zminus_mod. apply Z.mod_small. lia.
Qed.

Lemma ring_full q lo hi : ring q lo hi -> cq_full q = (hi - lo =? cq_size q - 1).
Proof.
  intros (Hs & Hle & Hlt & Hf & Hl & _). unfold cq_full. rewrite Hf, Hl.
  pose proof (mod_bound hi (cq_size q)). rewrite wrap_small by lia. rewrite Z.add_mod_idemp_l by lia.
  destruct (Z.eqb_spec (hi - lo) (cq_size q - 1)) as [E|E].
  - replace (hi + 1) with (lo + 1 * cq_size q) by lia. rewrite Z.mod_add by lia. apply Z.eqb_refl.
  - apply Z.eqb_neq. intros E'.
    apply (mod_eq_near (hi + 1) lo) in E'; lia.
Qed.

Lemma ring_empty q lo hi : ring q lo hi -> cq_empty q = (hi =? lo).
Proof.
  intros (Hs & Hle & Hlt & Hf & Hl & _). unfold cq_empty. rewrite Hf, Hl.
  destruct (Z.eqb_spec hi lo) as [->|E]; [apply Z.eqb_refl|]. apply Z.eqb_neq. intros E'. apply (mod_eq_near hi lo) in E'; lia.
Qed.

Lemma ring_slot_first q lo hi : ring q lo hi -> Z.to_nat (cq_first q) = ring_slot q hi.
Proof. intros (_ & _ & _ & -> & _). done. Qed.

Lemma ring_slot_last q lo hi : ring q lo hi -> Z.to_nat (cq_last q) = ring_slot q lo.
Proof. intros (_ & _ & _ & _ & -> & _). done. Qed.

Lemma ring_cq_slot q lo hi i : ring q lo hi -> 0 <= i < 2 ^ 31 -> cq_slot q i = ring_slot q (lo + i).
Proof.
  intros (Hs & Hle & Hlt & Hf & Hl & _) Hi. unfold cq_slot, ring_slot. rewrite Hl.
  pose proof (mod_bound lo (cq_size q)). rewrite wrap_small by lia. by rewrite Z.add_mod_idemp_l by lia.
Qed.

Lemma ring_set q lo hi i t : ring q lo hi -> ring (cq_set i t q) lo hi.
Proof. intros H. unfold ring, cq_set in *. cbn. rewrite length_insert. done. Qed.

Lemma ring_advance_first q lo hi : ring q lo hi -> hi - lo < cq_size q - 1 -> ring (cq_advance_first q) lo (hi + 1).
Proof.
  intros (Hs & Hle & Hlt & Hf & Hl & Hq) H. unfold ring, cq_advance_first. cbn -[Z.pow u32].
  pose proof (mod_bound hi (cq_size q)). rewrite Hf, wrap_small, Z.add_mod_idemp_l by lia. split_and!; try done; lia.
Qed.

Lemma ring_advance_last q lo hi : ring q lo hi -> lo < hi -> ring (cq_advance_last q) (lo + 1) hi.
Proof.
  intros (Hs & Hle & Hlt & Hf & Hl & Hq) H. unfold ring, cq_advance_last. cbn -[Z.pow u32].
  pose proof (mod_bound lo (cq_size q)). rewrite Hl, wrap_small, Z.add_mod_idemp_l by lia. split_and!; try done; lia.
Qed.

Lemma ring_next q lo hi : ring q lo hi -> hi - lo < cq_size q - 1 -> cq_next q = Ok (ring_slot q hi, cq_advance_first q).
Proof.
  intros H Hc. unfold cq_next. rewrite (ring_full _ _ _ H). rewrite (proj2 (Z.eqb_neq _ _)) by lia. cbn.
  rewrite (ring_slot_first _ _ _ H). destruct (aget_lt (cq_queue q) (ring_slot q hi)) as (x & E & _); [by eapply ring_slot_lt|].
  by rewrite E.
Qed.

Lemma ring_at q lo hi i : ring q lo hi -> 0 <= i < hi - lo -> cq_at q i = aget (cq_queue q) (ring_slot q (lo + i)).
Proof.
  intros H Hi. unfold cq_at. rewrite (ring_length _ _ _ H). rewrite (proj2 (Z.ltb_lt _ _)) by lia. cbn.
  unfold cq_get. rewrite (ring_cq_slot _ _ _ _ H); [done|]. destruct H as (? & ? & ? & _). lia.
Qed.

Lemma ring_front q lo hi : ring q lo hi -> lo < hi -> cq_front q = aget (cq_queue q) (ring_slot q lo).
Proof.
  intros H Hlt. unfold cq_front. rewrite (ring_empty _ _ _ H), (proj2 (Z.eqb_neq _ _)) by lia. cbn.
  by rewrite (ring_slot_last _ _ _ H).
Qed.
End queue.

(** ** Refinement of bounded lists *)

Inductive queue_op (T : Type) := OpPush (t : T) | OpPushCircular (t : T) | OpPop | OpFront | OpBack | OpAt (i : Z) | OpLength.
Arguments OpPush {T} _.
Arguments OpPushCircular {T} _.
Arguments OpPop {T}.
Arguments OpFront {T}.
Arguments OpBack {T}.
Arguments OpAt {T} _.
Arguments OpLength {T}.

Section refinement.
Context {T : Type}.
Implicit Types (q : CircularQueue T) (l : list T).

(** An operation returns an element, a number or nothing. *)
Definition queue_step (o : queue_op T) q : res (option T * Z * CircularQueue T) :=
  match o with
  | OpPush t => q ← cq_push t q; Ok (None, 0, q)
  | OpPushCircular t => q ← cq_pushCircular t q; Ok (None, 0, q)
  | OpPop => '(t, q) ← cq_pop q; Ok (Some t, 0, q)
  | OpFront => t ← cq_front q; Ok (Some t, 0, q)
  | OpBack => t ← cq_back q; Ok (Some t, 0, q)
  | OpAt i => t ← cq_at q i; Ok (Some t, 0, q)
  | OpLength => Ok (None, cq_length q, q)
  end.

(** The same operations on a list of at most [n] elements, oldest first. *)
Definition list_step (n : Z) (o : queue_op T) l : res (option T * Z * list T) :=
  match o with
  | OpPush t => _ ← assert_ (Z.of_nat (length l) <? n); Ok (None, 0, l ++ [t])
  | OpPushCircular t => Ok (None, 0, (if Z.of_nat (length l) <? n then l else tail l) ++ [t])
  | OpPop => match l with [] => Err AssertFailed | t :: l => Ok (Some t, 0, l) end
  | OpFront => match l with [] => Err AssertFailed | t :: _ => Ok (Some t, 0, l) end
  | OpBack => match last l with None => Err AssertFailed | Some t => Ok (Some t, 0, l) end
  | OpAt i => match l !! Z.to_nat i with None => Err AssertFailed | Some t => Ok (Some t, 0, l) end
  | OpLength => Ok (None, Z.of_nat (length l), l)
  end.

Fixpoint run_ops {S} (step : queue_op T -> S -> res (option T * Z * S)) (ops : list (queue_op T)) (s : S) : res (list (option T * Z)) :=
  match ops with
  | [] => Ok []
  | o :: ops => '(t, z, s) ← step o s; rs ← run_ops step ops s; Ok ((t, z) :: rs)
  end.

Definition op_ok (o : queue_op T) : Prop := match o with OpAt i => 0 <= i < 2 ^ 31 | _ => True end.

Definition represents q l : Prop := exists lo, ring q lo (lo + Z.of_nat (length l)) /\
  forall i : nat, (i < length l)%nat -> l !! i = cq_queue q !! ring_slot q (lo + Z.of_nat i).

Lemma represents_push q l t : represents q l -> Z.of_nat (length l) < cq_size q - 1 ->
  exists q', cq_push t q = Ok q' /\ represents q' (l ++ [t]) /\ cq_size q' = cq_size q.
Proof.
  intros (lo & Hr & Hl) Hc. unfold cq_push. erewrite ring_next by (try exact Hr; lia).
  eexists. split; [reflexivity|]. split; [|done]. exists lo.
  assert (Hr' : ring (cq_advance_first q) lo (lo + Z.of_nat (length l) + 1)) by (apply ring_advance_first; [done|lia]).
  rewrite length_app. cbn [length]. split.
  { apply ring_set. replace (lo + Z.of_nat (length l + 1)) with (lo + Z.of_nat (length l) + 1) by lia. done. }
  intros i Hi. cbn [cq_set cq_queue cq_advance_first]. change (ring_slot (cq_set _ _ _) ?n) with (ring_slot q n).
  destruct (decide (i = length l)) as [->|Hne].
  - rewrite list_lookup_insert_eq by (eapply ring_slot_lt, Hr). by rewrite list_lookup_middle.
  - rewrite list_lookup_insert_ne. { rewrite lookup_app_l by lia. apply Hl. lia. }
    intros E. apply (ring_slot_inj q _ _ _ _ Hr) in E; lia.
Qed.

Lemma represents_pop q t l : represents q (t :: l) -> exists q', cq_pop q = Ok (t, q') /\ represents q' l /\ cq_size q' = cq_size q.
Proof.
  intros (lo & Hr & Hl). unfold cq_pop. erewrite ring_empty by exact Hr. rewrite (proj2 (Z.eqb_neq _ _)) by (cbn; lia). cbn [negb assert_ mbind res_bind].
  erewrite ring_slot_last by exact Hr. specialize (Hl 0%nat) as H0. cbn in H0. rewrite Z.add_0_r in H0.
  rewrite (proj2 (aget_ok _ _ t)) by (rewrite <- H0; [done|lia]). eexists. split; [reflexivity|]. split; [|done].
  exists (lo + 1). split.
  { replace (lo + 1 + Z.of_nat (length l)) with (lo + Z.of_nat (length (t :: l))) by (cbn; lia). apply ring_advance_last; [done|cbn; lia]. }
  intros i Hi. specialize (Hl (S i)). change ((t :: l) !! S i) with (l !! i) in Hl. rewrite Hl by (cbn; lia).
  unfold ring_slot. cbn [cq_advance_last cq_queue cq_size]. do 3 f_equal. lia.
Qed.

Lemma represents_get q l (i : nat) t : represents q l -> l !! i = Some t ->
  exists lo, ring q lo (lo + Z.of_nat (length l)) /\ aget (cq_queue q) (ring_slot q (lo + Z.of_nat i)) = Ok t.
Proof.
  intros (lo & Hr & Hl) E. exists lo. split; [done|]. apply aget_ok. rewrite <- Hl; [done|]. by eapply lookup_lt_Some.
Qed.

(** What an operation does on a queue and on the list that it represents. *)
Lemma cq_step_refines q l n o : represents q l -> 1 <= n -> cq_size q = n + 1 -> op_ok o ->
  match list_step n o l with
  | Ok (t, z, l') => exists q', queue_step o q = Ok (t, z, q') /\ represents q' l' /\ cq_size q' = n + 1
  | Err e => queue_step o q = Err e
  end.
Proof.
  intros HR Hpos Hn Ho. assert (Hlen : Z.of_nat (length l) <= n). { destruct HR as (lo & (_ & _ & H & _) & _). lia. }
  pose proof HR as (lo & Hr & Hl).
  assert (Hpush : forall q l t, represents q l -> cq_size q = n + 1 -> Z.of_nat (length l) < n ->
    exists q', cq_push t q = Ok q' /\ represents q' (l ++ [t]) /\ cq_size q' = n + 1).
  { intros q0 l0 t H1 H2 H3. destruct (represents_push q0 l0 t H1) as (q' & E & Hq & Hs); [lia|]. exists q'. split_and!; [done..|lia]. }
  destruct o as [t|t| | | |i|]; cbn [list_step queue_step].
  - destruct (Z.ltb_spec (Z.of_nat (length l)) n); cbn [assert_ mbind res_bind].
    + destruct (Hpush q l t HR Hn) as (q' & E & Hq); [lia|]. rewrite E. by exists q'.
    + unfold cq_push, cq_next. by rewrite (ring_full _ _ _ Hr), (proj2 (Z.eqb_eq _ _)) by lia.
  - unfold cq_pushCircular. rewrite (ring_full _ _ _ Hr).
    destruct (Z.ltb_spec (Z.of_nat (length l)) n).
    + rewrite (proj2 (Z.eqb_neq _ _)) by lia. destruct (Hpush q l t HR Hn) as (q' & E & Hq); [lia|].
      cbn [mbind res_bind]. rewrite E. by exists q'.
    + rewrite (proj2 (Z.eqb_eq _ _)) by lia. destruct l as [|x l].
      { cbn in *. lia. }
      destruct (represents_pop q x l HR) as (q1 & E1 & H1 & S1). rewrite E1. cbn [mbind res_bind tail].
      destruct (Hpush q1 l t H1) as (q' & E & Hq); [lia|cbn in *; lia|]. rewrite E. by exists q'.
  - destruct l as [|x l].
    + unfold cq_pop. rewrite (ring_empty _ _ _ Hr). cbn. by rewrite (proj2 (Z.eqb_eq _ _)) by lia.
    + destruct (represents_pop q x l HR) as (q1 & E1 & H1 & S1). rewrite E1. exists q1. split_and!; [done..|lia].
  - destruct l as [|x l].
    + unfold cq_front. rewrite (ring_empty _ _ _ Hr). cbn. by rewrite (proj2 (Z.eqb_eq _ _)) by lia.
    + rewrite (ring_front _ _ _ Hr) by (cbn; lia). exists q. rewrite (proj2 (aget_ok _ _ x)); [done|].
      specialize (Hl 0%nat). cbn in Hl. rewrite Z.add_0_r in Hl. rewrite <- Hl by lia. done.
  - destruct (last l) as [x|] eqn:E.
    + apply last_Some in E as [l' ->]. exists q. split; [|done]. unfold cq_back. rewrite (ring_empty _ _ _ Hr).
      rewrite length_app in *. cbn [length] in *. rewrite (proj2 (Z.eqb_neq _ _)) by lia. cbn [negb assert_ mbind res_bind].
      pose proof Hr as (Hs & _ & _ & Hf & _). rewrite Hf. pose proof (mod_bound (lo + Z.of_nat (length l' + 1)) (cq_size q)).
      rewrite wrap_small by lia. replace (_ + cq_size q - 1) with (((lo + Z.of_nat (length l' + 1)) mod cq_size q - 1) + 1 * cq_size q) by lia.
      rewrite Z.mod_add, Zminus_mod_idemp_l by lia. specialize (Hl (length l')).
      replace (lo + Z.of_nat (length l' + 1) - 1) with (lo + Z.of_nat (length l')) by lia.
      rewrite (proj2 (aget_ok _ _ x)); [done|]. rewrite list_lookup_middle in Hl by done. symmetry. apply Hl. lia.
    + apply last_None in E as ->. unfold cq_back. rewrite (ring_empty _ _ _ Hr). cbn. by rewrite (proj2 (Z.eqb_eq _ _)) by lia.
  - cbn in Ho. destruct (l !! Z.to_nat i) as [x|] eqn:E.
    + pose proof (lookup_lt_Some _ _ _ E). exists q. split; [|done]. rewrite (ring_at _ _ _ i Hr) by lia.
      rewrite Hl in E by lia. rewrite Z2Nat.id in E by lia. by rewrite (proj2 (aget_ok _ _ x)).
    + apply lookup_ge_None in E. unfold cq_at. rewrite (ring_length _ _ _ Hr), (proj2 (Z.ltb_ge _ _)) by lia. done.
  - exists q. rewrite (ring_length _ _ _ Hr). split_and!; [|done..]. by rewrite Z.add_simpl_l.
Qed.

Lemma run_ops_refines ops q l n : represents q l -> 1 <= n -> cq_size q = n + 1 -> Forall op_ok ops ->
  run_ops queue_step ops q = run_ops (list_step n) ops l.
Proof.
  revert q l. induction ops as [|o ops IH]; intros q l HR Hpos Hn Ho; [done|]. inversion Ho as [|? ? Ho1 Ho2]; subst.
  pose proof (cq_step_refines q l n o HR Hpos Hn Ho1) as H. cbn [run_ops].
  destruct (list_step n o l) as [[[t z] l']|e]; [|by rewrite H].
  destruct H as (q' & E & HR' & Hn'). rewrite E. cbn [mbind res_bind]. by rewrite (IH q' l').
Qed.

(** C22: A circular queue created for [n] elements behaves, on every sequence of operations and including their failures,
    as a list of at most [n] elements: nothing is lost or reordered when the positions wrap around. *)
Theorem circular_queue_refines_list (n : Z) (d : T) (ops : list (queue_op T)) :
  1 <= n < 2 ^ 31 - 1 -> Forall op_ok ops ->
  run_ops queue_step ops (cq_new n d) = run_ops (list_step n) ops [].
Proof.
  intros Hn Ho. apply run_ops_refines; [|lia|cbn; apply wrap_small; lia|done].
  exists 0. split; [apply cq_ring_new; lia|]. intros i Hi. cbn in Hi. lia.
Qed.
End refinement.

Lemma circular_queue_refines_list_witness :
  let ops := [OpPush 7; OpPush 8; OpPop; OpPushCircular 9; OpPushCircular 4; OpAt 1; OpBack; OpLength; OpPop; OpFront] in
  1 <= 2 < 2 ^ 31 - 1 /\ Forall op_ok ops /\
  run_ops queue_step ops (cq_new 2 0) =
    Ok [(None, 0); (None, 0); (Some 7, 0); (None, 0); (None, 0); (Some 4, 0); (Some 4, 0); (None, 2); (Some 9, 0); (Some 4, 0)].
Proof.
  intros ops. assert (H : Forall op_ok ops) by (repeat constructor; cbn; lia). split; [lia|]. split; [exact H|].
  rewrite (circular_queue_refines_list 2 0 ops); [reflexivity|lia|exact H].
Defined.
