(* ===== verification/MicroOp.v ===== *)
(** * Micro-operations and their dependencies

    Models src/common/performance_model/performance_models/micro_op: the micro-operations that
    instructions are decoded into (micro_op.{h,cc}), their dynamic instances with the list of the
    micro-operations they wait for (dynamic_micro_op.{h,cc}), and the tables that find those through
    registers (register_dependencies.cc) and memory (memory_dependencies.cc).

    The enumerations of the XED library appear as follows: an instruction class as the name of its
    enumerator without the prefix XED_ICLASS_, a register as its number. *)

From S2P Require Import Prelude SubsecondTime CircularQueue.

#[local] Open Scope string_scope.
#[local] Open Scope list_scope.
#[local] Open Scope Z_scope.

(** ** Micro-operations *)

Abbreviation xed_iclass_enum_t := string.
Abbreviation xed_reg_enum_t := nat.
Definition iclass_in (l : list string) (c : xed_iclass_enum_t) : bool := bool_decide (c ∈ l).

Inductive uop_type_t := UOP_INVALID | UOP_LOAD | UOP_EXECUTE | UOP_STORE.
#[global] Instance uop_type_eq_dec : EqDecision uop_type_t.
Proof. solve_decision. Defined.

Inductive uop_subtype_t :=
  UOP_SUBTYPE_FP_ADDSUB | UOP_SUBTYPE_FP_MULDIV | UOP_SUBTYPE_LOAD | UOP_SUBTYPE_STORE | UOP_SUBTYPE_GENERIC | UOP_SUBTYPE_BRANCH.
#[global] Instance uop_subtype_eq_dec : EqDecision uop_subtype_t.
Proof. solve_decision. Defined.
Definition subtype_index (t : uop_subtype_t) : nat :=
  match t with
  | UOP_SUBTYPE_FP_ADDSUB => 0 | UOP_SUBTYPE_FP_MULDIV => 1 | UOP_SUBTYPE_LOAD => 2 | UOP_SUBTYPE_STORE => 3
  | UOP_SUBTYPE_GENERIC => 4 | UOP_SUBTYPE_BRANCH => 5
  end.
Definition UOP_SUBTYPE_SIZE : nat := 6.

Definition MAX_SRC_REGS : nat := 3.
Definition MAX_MEM_SRC_REGS : nat := 2.
Definition MAX_DEST_REGS : nat := 3.
Definition MAX_CF_REGS : nat := 11.
Definition MAXIMUM_NUMBER_OF_SOURCE_REGISTERS : nat := MAX_SRC_REGS + MAX_CF_REGS.
Definition MAXIMUM_NUMBER_OF_ADDRESS_REGISTERS : nat := MAX_MEM_SRC_REGS.
Definition MAXIMUM_NUMBER_OF_DESTINATION_REGISTERS : nat := MAX_DEST_REGS + MAX_CF_REGS.
Definition MAXIMUM_NUMBER_OF_DEPENDENCIES : nat := MAXIMUM_NUMBER_OF_SOURCE_REGISTERS.
Definition INVALID_SEQNR : Z := 2 ^ 64 - 1.

(** The instruction is given by its address. *)
Record MicroOp := mkMicroOp {
  uop_type : uop_type_t;
  uop_subtype : uop_subtype_t;
  uo_first : bool;
  uo_last : bool;
  instructionOpcode : xed_iclass_enum_t;
  uo_instruction : option Z;
  uo_microOpTypeOffset : Z;
  uo_intraInstructionDependencies : Z;
  sourceRegisters : list xed_reg_enum_t;
  addressRegisters : list xed_reg_enum_t;
  destinationRegisters : list xed_reg_enum_t;
  instructionPointer : Z;
  serializing : bool;
  uo_branch : bool;
  m_membar : bool;
  is_x87 : bool;
  operand_size : Z;
  memoryAccessSize : Z
}.

(** [memoryAccessSize] is set for loads and stores only, which are the ones that use it; the
    subtype is set by the function that makes a micro-operation. *)
Definition MicroOp_new : MicroOp :=
  mkMicroOp UOP_INVALID UOP_SUBTYPE_GENERIC false false "INVALID" None 0 0 [] [] [] 0 false false false false 0 0.

Definition isLoad (u : MicroOp) : bool := bool_decide (uop_type u = UOP_LOAD).
Definition isStore (u : MicroOp) : bool := bool_decide (uop_type u = UOP_STORE).
Definition isExecute (u : MicroOp) : bool := bool_decide (uop_type u = UOP_EXECUTE).
Definition isPause (u : MicroOp) : bool := bool_decide (instructionOpcode u = "PAUSE").
Definition isDiv (u : MicroOp) : bool := iclass_in ["DIV"; "IDIV"] (instructionOpcode u).

Definition branch_classes : list string :=
  ["CALL_FAR"; "CALL_NEAR"; "JB"; "JBE"; "JL"; "JLE"; "JMP"; "JMP_FAR"; "JNB"; "JNBE"; "JNL"; "JNLE"; "JNO"; "JNP";
    "JNS"; "JNZ"; "JO"; "JP"; "JRCXZ"; "JS"; "JZ"; "RET_FAR"; "RET_NEAR"].
Definition fp_addsub_classes : list string :=
  ["ADDPD"; "ADDPS"; "ADDSD"; "ADDSS"; "ADDSUBPD"; "ADDSUBPS"; "SUBPD"; "SUBPS"; "SUBSD"; "SUBSS"; "VADDPD";
    "VADDPS"; "VADDSD"; "VADDSS"; "VADDSUBPD"; "VADDSUBPS"; "VSUBPD"; "VSUBPS"; "VSUBSD"; "VSUBSS"].
Definition fp_muldiv_classes : list string :=
  ["MULPD"; "MULPS"; "MULSD"; "MULSS"; "DIVPD"; "DIVPS"; "DIVSD"; "DIVSS"; "VMULPD"; "VMULPS"; "VMULSD"; "VMULSS";
    "VDIVPD"; "VDIVPS"; "VDIVSD"; "VDIVSS"].

Definition getSubtype_Exec (c : xed_iclass_enum_t) : uop_subtype_t :=
  if iclass_in branch_classes c then UOP_SUBTYPE_BRANCH
  else if iclass_in fp_addsub_classes c then UOP_SUBTYPE_FP_ADDSUB
  else if iclass_in fp_muldiv_classes c then UOP_SUBTYPE_FP_MULDIV
  else UOP_SUBTYPE_GENERIC.

Definition getSubtype (type : uop_type_t) (branch : bool) (c : xed_iclass_enum_t) : uop_subtype_t :=
  match type with
  | UOP_LOAD => UOP_SUBTYPE_LOAD
  | UOP_STORE => UOP_SUBTYPE_STORE
  | _ => if branch then UOP_SUBTYPE_BRANCH
         else if bool_decide (type = UOP_EXECUTE) then getSubtype_Exec c else UOP_SUBTYPE_GENERIC
  end.

Definition fp_load_store_classes : list string :=
  ["MOVAPS"; "MOVAPD"; "MOVUPS"; "MOVUPD"; "MOVSS"; "MOVSD_XMM"; "MOVHPS"; "MOVHPD"; "MOVLPS"; "MOVLPD"; "SHUFPS";
    "SHUFPD"; "BLENDPS"; "BLENDPD"; "MOVDDUP"; "MOVSHDUP"; "MOVSLDUP"; "UNPCKHPS"; "UNPCKLPS"; "UNPCKHPD"; "UNPCKLPD";
    "EXTRACTPS"; "INSERTPS"; "CVTPD2PS"; "CVTSD2SS"; "CVTPS2PD"; "CVTSS2SD"; "CVTDQ2PS"; "CVTPS2DQ"; "CVTTPS2DQ";
    "CVTDQ2PD"; "CVTPD2DQ"; "CVTTPD2DQ"; "CVTPI2PS"; "CVTPS2PI"; "CVTTPS2PI"; "CVTPI2PD"; "CVTPD2PI"; "CVTTPD2PI";
    "CVTSI2SS"; "CVTSS2SI"; "CVTTSS2SI"; "CVTSI2SD"; "CVTSD2SI"; "CVTTSD2SI"; "COMISS"; "COMISD"; "UCOMISS";
    "UCOMISD"; "MAXSS"; "MAXSD"; "MAXPS"; "MAXPD"; "MINSS"; "MINSD"; "MINPS"; "MINPD"; "ROUNDPS"; "ROUNDPD"; "DPPS";
    "DPPD"; "ANDPS"; "ANDPD"; "ANDNPS"; "ANDNPD"; "ORPS"; "ORPD"; "XORPS"; "XORPD"].

Definition isFpLoadStore (u : MicroOp) : bool :=
  (isLoad u || isStore u) &&
  (bool_decide (getSubtype_Exec (instructionOpcode u) = UOP_SUBTYPE_FP_ADDSUB)
   || bool_decide (getSubtype_Exec (instructionOpcode u) = UOP_SUBTYPE_FP_MULDIV)
   || iclass_in fp_load_store_classes (instructionOpcode u)).

(** [make] sets the type and what depends on it. *)
Definition make (type : uop_type_t) (offset intra : Z) (opcode : xed_iclass_enum_t) (branch : bool) (mem_size : Z) (u : MicroOp) : MicroOp :=
  mkMicroOp type (getSubtype type branch opcode) (uo_first u) (uo_last u) opcode (uo_instruction u) offset intra
    (sourceRegisters u) (addressRegisters u) (destinationRegisters u) (instructionPointer u) (serializing u) branch
    (m_membar u) (is_x87 u) (operand_size u) mem_size.
Definition makeLoad (offset : Z) (opcode : xed_iclass_enum_t) (mem_size : Z) (u : MicroOp) : MicroOp :=
  make UOP_LOAD offset 0 opcode (uo_branch u) mem_size u.
Definition makeExecute (offset num_loads : Z) (opcode : xed_iclass_enum_t) (isBranch : bool) (u : MicroOp) : MicroOp :=
  make UOP_EXECUTE offset num_loads opcode isBranch (memoryAccessSize u) u.
Definition makeStore (offset num_execute : Z) (opcode : xed_iclass_enum_t) (mem_size : Z) (u : MicroOp) : MicroOp :=
  make UOP_STORE offset num_execute opcode (uo_branch u) mem_size u.
Definition makeDynamic (u : MicroOp) : MicroOp := make UOP_EXECUTE 0 0 "INVALID" false (memoryAccessSize u) u.

Definition set_regs (src addr dst : list xed_reg_enum_t) (u : MicroOp) : MicroOp :=
  mkMicroOp (uop_type u) (uop_subtype u) (uo_first u) (uo_last u) (instructionOpcode u) (uo_instruction u)
    (uo_microOpTypeOffset u) (uo_intraInstructionDependencies u) src addr dst (instructionPointer u) (serializing u)
    (uo_branch u) (m_membar u) (is_x87 u) (operand_size u) (memoryAccessSize u).
Definition addSourceRegister (r : xed_reg_enum_t) (u : MicroOp) : res MicroOp :=
  _ ← assert_ (length (sourceRegisters u) <? MAXIMUM_NUMBER_OF_SOURCE_REGISTERS)%nat;
  Ok (set_regs (sourceRegisters u ++ [r]) (addressRegisters u) (destinationRegisters u) u).
Definition addAddressRegister (r : xed_reg_enum_t) (u : MicroOp) : res MicroOp :=
  _ ← assert_ (length (addressRegisters u) <? MAXIMUM_NUMBER_OF_ADDRESS_REGISTERS)%nat;
  Ok (set_regs (sourceRegisters u) (addressRegisters u ++ [r]) (destinationRegisters u) u).
Definition addDestinationRegister (r : xed_reg_enum_t) (u : MicroOp) : res MicroOp :=
  _ ← assert_ (length (destinationRegisters u) <? MAXIMUM_NUMBER_OF_DESTINATION_REGISTERS)%nat;
  Ok (set_regs (sourceRegisters u) (addressRegisters u) (destinationRegisters u ++ [r]) u).

Definition set_flags (first last ser membar x87 : bool) (u : MicroOp) : MicroOp :=
  mkMicroOp (uop_type u) (uop_subtype u) first last (instructionOpcode u) (uo_instruction u)
    (uo_microOpTypeOffset u) (uo_intraInstructionDependencies u) (sourceRegisters u) (addressRegisters u)
    (destinationRegisters u) (instructionPointer u) ser (uo_branch u) membar x87 (operand_size u) (memoryAccessSize u).
Definition setFirst (b : bool) (u : MicroOp) : MicroOp := set_flags b (uo_last u) (serializing u) (m_membar u) (is_x87 u) u.
Definition setLast (b : bool) (u : MicroOp) : MicroOp := set_flags (uo_first u) b (serializing u) (m_membar u) (is_x87 u) u.
Definition setSerializing (b : bool) (u : MicroOp) : MicroOp := set_flags (uo_first u) (uo_last u) b (m_membar u) (is_x87 u) u.
Definition setMemBarrier (b : bool) (u : MicroOp) : MicroOp := set_flags (uo_first u) (uo_last u) (serializing u) b (is_x87 u) u.
Definition setIsX87 (b : bool) (u : MicroOp) : MicroOp := set_flags (uo_first u) (uo_last u) (serializing u) (m_membar u) b u.
Definition set_instruction (ip size : Z) (i : option Z) (u : MicroOp) : MicroOp :=
  mkMicroOp (uop_type u) (uop_subtype u) (uo_first u) (uo_last u) (instructionOpcode u) i
    (uo_microOpTypeOffset u) (uo_intraInstructionDependencies u) (sourceRegisters u) (addressRegisters u)
    (destinationRegisters u) ip (serializing u) (uo_branch u) (m_membar u) (is_x87 u) size (memoryAccessSize u).

(** The three micro-operations of MicroOpPerformanceModel that stand for no instruction. *)
Definition serialize_uop : MicroOp := setLast true (setFirst true (setSerializing true (makeDynamic MicroOp_new))).
Definition mfence_uop : MicroOp := setLast true (setFirst true (setMemBarrier true (makeDynamic MicroOp_new))).
Definition memaccess_uop : MicroOp := setLast true (setFirst true (setMemBarrier true (makeLoad 0 "INVALID" 8 MicroOp_new))).

(** ** Dynamic micro-operations

    The last three fields are those of DynamicMicroOpNehalem.  Of the array of dependencies, the
    part in use is kept. *)

Inductive uop_port_t := UOP_PORT0 | UOP_PORT1 | UOP_PORT2 | UOP_PORT34 | UOP_PORT5 | UOP_PORT05 | UOP_PORT015.
Inductive uop_alu_t := UOP_ALU_NONE | UOP_ALU_TRIG.
Inductive uop_bypass_t := UOP_BYPASS_NONE | UOP_BYPASS_LOAD_FP | UOP_BYPASS_FP_STORE.
#[global] Instance uop_port_eq_dec : EqDecision uop_port_t.
Proof. solve_decision. Defined.

Definition HW_L1I : Z := 2.
Definition HW_L1_OWN : Z := 3.
Definition HitWhere_UNKNOWN : Z := 21.
Definition NUM_HITWHERES : nat := 24.
Definition HitWhereIsValid (h : Z) : bool := ((2 <=? h) && (h <=? 13)) || ((17 <=? h) && (h <=? 23)).

Record DynamicMicroOp := mkDMO {
  m_uop : MicroOp;
  sequenceNumber : Z;
  d_address : Z;
  squashed : bool;
  intraInstructionDependencies : Z;
  microOpTypeOffset : Z;
  squashedCount : Z;
  dependencies : list Z;
  execLatency : Z;
  branchTaken : bool;
  branchMispredicted : bool;
  branchTargetAddress : Z;
  dCacheHitWhere : Z;
  iCacheHitWhere : Z;
  iCacheLatency : Z;
  m_forceLongLatencyLoad : bool;
  d_first : bool;
  d_last : bool;
  uop_port : uop_port_t;
  uop_alu : uop_alu_t;
  uop_bypass : uop_bypass_t
}.

Implicit Types (d : DynamicMicroOp).

(** The address and the branch target are not initialised; they are set before they are used. *)
Definition DynamicMicroOp_new (latency : Z) (port : uop_port_t) (alu : uop_alu_t) (bypass : uop_bypass_t) (u : MicroOp) : DynamicMicroOp :=
  mkDMO u INVALID_SEQNR 0 false (uo_intraInstructionDependencies u) (uo_microOpTypeOffset u) 0 [] latency false false 0
    HitWhere_UNKNOWN HW_L1I 0 false (uo_first u) (uo_last u) port alu bypass.

Definition with_deps (intra : Z) (deps : list Z) d : DynamicMicroOp :=
  mkDMO (m_uop d) (sequenceNumber d) (d_address d) (squashed d) intra (microOpTypeOffset d) (squashedCount d) deps
    (execLatency d) (branchTaken d) (branchMispredicted d) (branchTargetAddress d) (dCacheHitWhere d) (iCacheHitWhere d)
    (iCacheLatency d) (m_forceLongLatencyLoad d) (d_first d) (d_last d) (uop_port d) (uop_alu d) (uop_bypass d).
Definition setSequenceNumber (n : Z) d : DynamicMicroOp :=
  mkDMO (m_uop d) n (d_address d) (squashed d) (intraInstructionDependencies d) (microOpTypeOffset d) (squashedCount d)
    (dependencies d) (execLatency d) (branchTaken d) (branchMispredicted d) (branchTargetAddress d) (dCacheHitWhere d)
    (iCacheHitWhere d) (iCacheLatency d) (m_forceLongLatencyLoad d) (d_first d) (d_last d) (uop_port d) (uop_alu d) (uop_bypass d).
Definition with_memory (addr latency where_ : Z) d : DynamicMicroOp :=
  mkDMO (m_uop d) (sequenceNumber d) addr (squashed d) (intraInstructionDependencies d) (microOpTypeOffset d) (squashedCount d)
    (dependencies d) (u32 latency) (branchTaken d) (branchMispredicted d) (branchTargetAddress d) where_
    (iCacheHitWhere d) (iCacheLatency d) (m_forceLongLatencyLoad d) (d_first d) (d_last d) (uop_port d) (uop_alu d) (uop_bypass d).
Definition with_icache (where_ latency : Z) d : DynamicMicroOp :=
  mkDMO (m_uop d) (sequenceNumber d) (d_address d) (squashed d) (intraInstructionDependencies d) (microOpTypeOffset d) (squashedCount d)
    (dependencies d) (execLatency d) (branchTaken d) (branchMispredicted d) (branchTargetAddress d) (dCacheHitWhere d)
    where_ (u32 latency) (m_forceLongLatencyLoad d) (d_first d) (d_last d) (uop_port d) (uop_alu d) (uop_bypass d).
Definition with_branch (taken mispredicted : bool) (target : Z) d : DynamicMicroOp :=
  mkDMO (m_uop d) (sequenceNumber d) (d_address d) (squashed d) (intraInstructionDependencies d) (microOpTypeOffset d) (squashedCount d)
    (dependencies d) (execLatency d) taken mispredicted target (dCacheHitWhere d)
    (iCacheHitWhere d) (iCacheLatency d) (m_forceLongLatencyLoad d) (d_first d) (d_last d) (uop_port d) (uop_alu d) (uop_bypass d).
Definition with_squash (sq first last : bool) (offset count : Z) d : DynamicMicroOp :=
  mkDMO (m_uop d) (sequenceNumber d) (d_address d) sq (intraInstructionDependencies d) offset count
    (dependencies d) (execLatency d) (branchTaken d) (branchMispredicted d) (branchTargetAddress d) (dCacheHitWhere d)
    (iCacheHitWhere d) (iCacheLatency d) (m_forceLongLatencyLoad d) first last (uop_port d) (uop_alu d) (uop_bypass d).
Definition setForceLongLatencyLoad (b : bool) d : DynamicMicroOp :=
  mkDMO (m_uop d) (sequenceNumber d) (d_address d) (squashed d) (intraInstructionDependencies d) (microOpTypeOffset d) (squashedCount d)
    (dependencies d) (execLatency d) (branchTaken d) (branchMispredicted d) (branchTargetAddress d) (dCacheHitWhere d)
    (iCacheHitWhere d) (iCacheLatency d) b (d_first d) (d_last d) (uop_port d) (uop_alu d) (uop_bypass d).

(** *** Dependencies *)

Definition getDependenciesLength d : Z := u32 (intraInstructionDependencies d + Z.of_nat (length (dependencies d))).

(** The first of the dependencies on micro-operations of the same instruction. *)
Definition first_intra d : Z := u64 (sequenceNumber d - microOpTypeOffset d - intraInstructionDependencies d).

Definition getDependency (index : Z) d : res Z :=
  if index <? intraInstructionDependencies d then Ok (u64 (first_intra d + index))
  else
    _ ← assert_ (index - intraInstructionDependencies d <? Z.of_nat (length (dependencies d)));
    aget (dependencies d) (Z.to_nat (index - intraInstructionDependencies d)).

Definition addDependency (seqnr : Z) d : res DynamicMicroOp :=
  if bool_decide (seqnr ∈ dependencies d) then Ok d
  else
    _ ← assert_ (length (dependencies d) <? MAXIMUM_NUMBER_OF_DEPENDENCIES)%nat;
    Ok (with_deps (intraInstructionDependencies d) (dependencies d ++ [seqnr]) d).

(** The loop of [removeDependency]: intra-instruction dependencies before the one to be removed move to the
    list.  [n] is their number. *)
Fixpoint move_intra (n : nat) (seqnr : Z) d : res DynamicMicroOp :=
  match n with
  | O => Ok d
  | S n =>
      if seqnr =? first_intra d then Ok d
      else
        _ ← (if (length (dependencies d) <? MAXIMUM_NUMBER_OF_DEPENDENCIES)%nat then Ok tt else Err OutOfBounds);
        let deps := dependencies d ++ [first_intra d] in
        _ ← assert_ (length deps <? MAXIMUM_NUMBER_OF_DEPENDENCIES)%nat;
        move_intra n seqnr (with_deps (intraInstructionDependencies d - 1) deps d)
  end.

(** [index] and [swap] of Tools, and the decrement of the length: the last element takes the place of the
    first occurrence of [x]. *)
Fixpoint list_index (x : Z) (l : list Z) : option nat :=
  match l with
  | [] => None
  | y :: l => if y =? x then Some 0%nat else S <$> list_index x l
  end.
Definition swap_remove (x : Z) (l : list Z) : res (list Z) :=
  match last l with
  | None => Err AssertFailed
  | Some y =>
      if y =? x then Ok (removelast l)
      else match list_index x l with
           | None => Err AssertFailed
           | Some i => Ok (removelast (<[i := y]> l))
           end
  end.

Definition removeDependency (seqnr : Z) d : res DynamicMicroOp :=
  if first_intra d <=? seqnr then
    d ← move_intra (Z.to_nat (intraInstructionDependencies d)) seqnr d;
    _ ← assert_ (0 <? intraInstructionDependencies d);
    Ok (with_deps (intraInstructionDependencies d - 1) (dependencies d) d)
  else
    deps ← swap_remove seqnr (dependencies d);
    Ok (with_deps (intraInstructionDependencies d) deps d).

Definition isBranchMispredicted d : res bool := _ ← assert_ (uo_branch (m_uop d)); Ok (branchMispredicted d).
Definition isLongLatencyLoad (cutoff : Z) d : res bool :=
  _ ← assert_ (isLoad (m_uop d));
  Ok (m_forceLongLatencyLoad d || ((0 <? cutoff) && (cutoff <? execLatency d))).

(** *** Squashing

    [squash] on the micro-operation at position [i] of the instruction: the first and the last of those
    that remain are marked as such. *)
Definition mark_first d : DynamicMicroOp := with_squash (squashed d) true (d_last d) (microOpTypeOffset d) (squashedCount d) d.
Definition mark_last d : DynamicMicroOp := with_squash (squashed d) (d_first d) true (microOpTypeOffset d) (squashedCount d) d.
Fixpoint on_first_live (f : DynamicMicroOp -> DynamicMicroOp) (l : list DynamicMicroOp) : list DynamicMicroOp :=
  match l with
  | [] => []
  | d :: l => if squashed d then d :: on_first_live f l else f d :: l
  end.
Definition squash (i : nat) (l : list DynamicMicroOp) : list DynamicMicroOp :=
  let l := alter (fun d => with_squash true (d_first d) (d_last d) (microOpTypeOffset d) (squashedCount d) d) i l in
  rev (on_first_live mark_last (rev (on_first_live mark_first l))).

(** ** Dependencies through registers *)

(** One number per register: the length of the list is XED_REG_LAST. *)
Abbreviation RegisterDependencies := (list Z).
Definition rd_clear (XED_REG_LAST : nat) : RegisterDependencies := replicate XED_REG_LAST INVALID_SEQNR.

Fixpoint rd_sources (lowestValidSequenceNumber : Z) (regs : list xed_reg_enum_t) (producers : RegisterDependencies) d
  : res (RegisterDependencies * DynamicMicroOp) :=
  match regs with
  | [] => Ok (producers, d)
  | r :: regs =>
      _ ← assert_ (r <? length producers)%nat;
      p ← aget producers r;
      if negb (p =? INVALID_SEQNR) then
        if lowestValidSequenceNumber <=? p then
          d ← addDependency p d;
          rd_sources lowestValidSequenceNumber regs producers d
        else rd_sources lowestValidSequenceNumber regs (<[r := INVALID_SEQNR]> producers) d
      else rd_sources lowestValidSequenceNumber regs producers d
  end.
Fixpoint rd_destinations (n : Z) (regs : list xed_reg_enum_t) (producers : RegisterDependencies) : res RegisterDependencies :=
  match regs with
  | [] => Ok producers
  | r :: regs =>
      _ ← assert_ (r <? length producers)%nat;
      rd_destinations n regs (<[r := n]> producers)
  end.
Definition rd_setDependencies (lowestValidSequenceNumber : Z) (producers : RegisterDependencies) d
  : res (RegisterDependencies * DynamicMicroOp) :=
  '(producers, d) ← rd_sources lowestValidSequenceNumber (sourceRegisters (m_uop d)) producers d;
  producers ← rd_destinations (sequenceNumber d) (destinationRegisters (m_uop d)) producers;
  Ok (producers, d).

Definition peekProducer (XED_REG_INVALID : xed_reg_enum_t) (reg : xed_reg_enum_t) (lowestValidSequenceNumber : Z)
    (producers : RegisterDependencies) : res Z :=
  if bool_decide (reg = XED_REG_INVALID) then Ok INVALID_SEQNR
  else
    p ← aget producers reg;
    Ok (if (p =? INVALID_SEQNR) || (p <? lowestValidSequenceNumber) then INVALID_SEQNR else p).

(** ** Dependencies through memory *)

Record Producer := mkProducer { pr_seqnr : Z; pr_address : Z }.
Record MemoryDependencies := mkMemDeps { md_producers : CircularQueue Producer; md_membar : Z }.

(** The slots of a new queue are not initialised and not read. *)
Definition MemoryDependencies_new : MemoryDependencies := mkMemDeps (cq_new 1024 (mkProducer 0 0)) INVALID_SEQNR.

(** [n] bounds the number of entries. *)
Fixpoint md_clean (n : nat) (lowestValidSequenceNumber : Z) (q : CircularQueue Producer) : res (CircularQueue Producer) :=
  match n with
  | O => Ok q
  | S n =>
      if cq_empty q then Ok q
      else
        p ← cq_front q;
        if pr_seqnr p <? lowestValidSequenceNumber then
          '(_, q) ← cq_pop q; md_clean n lowestValidSequenceNumber q
        else Ok q
  end.

(** The search from the youngest entry, [n] - 1, to the oldest. *)
Fixpoint md_find (n : nat) (address : Z) (q : CircularQueue Producer) : res Z :=
  match n with
  | O => Ok INVALID_SEQNR
  | S n =>
      p ← cq_at q (Z.of_nat n);
      if pr_address p =? address then Ok (pr_seqnr p) else md_find n address q
  end.

Definition md_after_membar (lowestValidSequenceNumber : Z) (m : MemoryDependencies) d : res DynamicMicroOp :=
  if negb (md_membar m =? INVALID_SEQNR) && (lowestValidSequenceNumber <? md_membar m) then addDependency (md_membar m) d else Ok d.

Definition md_setDependencies (lowestValidSequenceNumber : Z) (m : MemoryDependencies) d : res (MemoryDependencies * DynamicMicroOp) :=
  q ← md_clean (Z.to_nat (cq_length (md_producers m))) lowestValidSequenceNumber (md_producers m);
  let m := mkMemDeps q (md_membar m) in
  if isLoad (m_uop d) then
    p ← md_find (Z.to_nat (cq_length q)) (d_address d) q;
    d ← (if negb (p =? INVALID_SEQNR) then addDependency p d else Ok d);
    d ← md_after_membar lowestValidSequenceNumber m d;
    Ok (m, d)
  else if isStore (m_uop d) then
    q ← cq_push (mkProducer (sequenceNumber d) (d_address d)) q;
    d ← md_after_membar lowestValidSequenceNumber m d;
    Ok (mkMemDeps q (md_membar m), d)
  else if m_membar (m_uop d) then
    d ← md_after_membar lowestValidSequenceNumber m d;
    Ok (mkMemDeps q (sequenceNumber d), d)
  else Ok (m, d).
