(* ===== verification/MicroOpFacts.v ===== *)
(** * Facts about micro-operations and their dependencies

    The dependencies of a micro-operation as one list, and what the operations of MicroOp do to it. *)

From stdpp Require Import sets.
From S2P Require Import Prelude SubsecondTime CircularQueue MicroOp.
#[local] Open Scope Z_scope.
From Stdlib Require Import Permutation.

#[local] Arguments MAXIMUM_NUMBER_OF_DEPENDENCIES : simpl never.

(** The dependencies in the order of [getDependency]. *)
Definition udeps (d : DynamicMicroOp) : list Z :=
  seqZ (sequenceNumber d - microOpTypeOffset d - intraInstructionDependencies d) (intraInstructionDependencies d) ++ dependencies d.

(** A micro-operation whose dependencies are earlier ones and, when they are in the list, not of its own
    type in the same instruction. *)
Record uop_ok (d : DynamicMicroOp) : Prop := {
  ok_seq : 0 <= sequenceNumber d < 2 ^ 64 - 1;
  ok_intra : 0 <= intraInstructionDependencies d;
  ok_offset : 0 <= microOpTypeOffset d;
  ok_before : microOpTypeOffset d + intraInstructionDependencies d <= sequenceNumber d;
  ok_deps : forall x, x ∈ dependencies d -> 0 <= x < sequenceNumber d - microOpTypeOffset d;
  ok_length : intraInstructionDependencies d + Z.of_nat (length (dependencies d)) < Z.of_nat MAXIMUM_NUMBER_OF_DEPENDENCIES
}.

(** Everything but the dependencies is the same. *)
Definition same_uop (d d' : DynamicMicroOp) : Prop := d' = with_deps (intraInstructionDependencies d') (dependencies d') d.

Lemma same_uop_refl d : same_uop d d.
Proof. by destruct d. Qed.
Lemma same_uop_trans d1 d2 d3 : same_uop d1 d2 -> same_uop d2 d3 -> same_uop d1 d3.
Proof. unfold same_uop. intros H1 H2. rewrite H2, H1. by destruct d1. Qed.
#[global] Instance same_uop_preorder : PreOrder same_uop.
Proof. split; [exact same_uop_refl|exact same_uop_trans]. Qed.
Lemma same_uop_with i l d : same_uop d (with_deps i l d).
Proof. done. Qed.

Section dependencies.
Implicit Types (d : DynamicMicroOp).

Lemma first_intra_ok d : uop_ok d -> first_intra d = sequenceNumber d - microOpTypeOffset d - intraInstructionDependencies d.
Proof. intros H. unfold first_intra. apply wrap_small. destruct H. lia. Qed.

Lemma length_udeps d : uop_ok d -> getDependenciesLength d = Z.of_nat (length (udeps d)).
Proof.
  intros H. unfold getDependenciesLength, udeps. rewrite length_app, length_seqZ.
  assert (MAXIMUM_NUMBER_OF_DEPENDENCIES = 14%nat) by reflexivity. destruct H. rewrite wrap_small by lia. lia.
Qed.

Lemma udeps_bound d x : uop_ok d -> x ∈ udeps d -> 0 <= x < sequenceNumber d.
Proof.
  intros H Hx. apply elem_of_app in Hx as [Hx|Hx]; [apply elem_of_seqZ in Hx; destruct H; lia|].
  pose proof (ok_deps d H x Hx). destruct H. lia.
Qed.

Lemma ok_deps_bound d x : uop_ok d -> x ∈ udeps d -> 0 <= x < sequenceNumber d - microOpTypeOffset d.
Proof.
  intros H Hx. apply elem_of_app in Hx as [Hx|Hx]; [apply elem_of_seqZ in Hx; destruct H; lia|by apply (ok_deps d H)].
Qed.

Lemma getDependency_udeps d (i : nat) x : uop_ok d -> udeps d !! i = Some x -> getDependency (Z.of_nat i) d = Ok x.
Proof.
  intros H E. unfold getDependency, udeps in *. pose proof (ok_intra d H).
  destruct (Z.ltb_spec (Z.of_nat i) (intraInstructionDependencies d)) as [Hi|Hi].
  - rewrite lookup_app_l in E by (rewrite length_seqZ; lia). apply lookup_seqZ in E as [-> _].
    rewrite first_intra_ok by done. f_equal. apply wrap_small. destruct H. lia.
  - rewrite lookup_app_r in E by (rewrite length_seqZ; lia). rewrite length_seqZ in E.
    replace (Z.to_nat (Z.of_nat i - intraInstructionDependencies d)) with (i - Z.to_nat (intraInstructionDependencies d))%nat by lia.
    pose proof (lookup_lt_Some _ _ _ E). rewrite (proj2 (Z.ltb_lt _ _)) by lia. cbn. by apply aget_ok.
Qed.

(** ** Adding *)

Definition deps_room d (k : Z) : Prop :=
  intraInstructionDependencies d + Z.of_nat (length (dependencies d)) + k < Z.of_nat MAXIMUM_NUMBER_OF_DEPENDENCIES.

Lemma addDependency_ok d x : uop_ok d -> 0 <= x < sequenceNumber d - microOpTypeOffset d -> deps_room d 1 ->
  exists d', addDependency x d = Ok d' /\ same_uop d d' /\ uop_ok d' /\
    (forall y, y ∈ udeps d' <-> y ∈ udeps d \/ y = x) /\ x ∈ dependencies d' /\
    (forall k, deps_room d (k + 1) -> deps_room d' k) /\
    intraInstructionDependencies d' = intraInstructionDependencies d /\ (forall y, y ∈ dependencies d -> y ∈ dependencies d').
Proof.
  intros H Hx Hr. unfold addDependency, deps_room in *. case_bool_decide as E.
  - exists d. split_and!; try done; [|intros; lia].
    intros y. split; [auto|]. intros [?| ->]; [done|]. apply elem_of_app. by right.
  - pose proof (ok_intra d H).
    rewrite (proj2 (Nat.ltb_lt _ _)) by lia. cbn [assert_ mbind res_bind]. eexists. split; [reflexivity|].
    split; [done|]. split_and!.
    + destruct H. split; cbn; try done.
      * intros y Hy. apply elem_of_app in Hy as [Hy|Hy]; [by apply ok_deps0|]. apply list_elem_of_singleton in Hy as ->. done.
      * rewrite length_app. cbn. lia.
    + intros y. unfold udeps. cbn. rewrite !elem_of_app, list_elem_of_singleton. naive_solver.
    + cbn. apply elem_of_app. right. by apply list_elem_of_singleton.
    + intros k Hk. cbn. rewrite length_app. cbn. lia.
    + done.
    + intros y Hy. cbn. apply elem_of_app. by left.
Qed.

(** ** Removing *)

Lemma list_index_spec x l : x ∈ l -> exists i, list_index x l = Some i /\ l !! i = Some x.
Proof.
  induction l as [|y l IH]; intros Hx; [by apply elem_of_nil in Hx|]. cbn. destruct (Z.eqb_spec y x) as [->|Hne].
  - by exists 0%nat.
  - apply elem_of_cons in Hx as [->|Hx]; [done|]. destruct (IH Hx) as (i & -> & Hi). by exists (S i).
Qed.

Lemma removelast_app_singleton {A} (l : list A) x : removelast (l ++ [x]) = l.
Proof. rewrite removelast_app by done. by rewrite app_nil_r. Qed.

Lemma swap_remove_ok x l : x ∈ l -> exists l', swap_remove x l = Ok l' /\ l ≡ₚ x :: l'.
Proof.
  intros Hx. unfold swap_remove. destruct l as [|z l0 _] using rev_ind; [by apply elem_of_nil in Hx|].
  rewrite last_snoc. destruct (Z.eqb_spec z x) as [->|Hne].
  - exists l0. rewrite removelast_app_singleton. split; [done|]. by rewrite Permutation_app_comm.
  - assert (x ∈ l0) as Hx0. { apply elem_of_app in Hx as [?|Hx]; [done|]. apply list_elem_of_singleton in Hx. congruence. }
    assert (list_index x (l0 ++ [z]) = list_index x l0) as ->.
    { clear Hx Hne. induction l0 as [|y l0 IH]; [by apply elem_of_nil in Hx0|]. cbn. destruct (Z.eqb_spec y x); [done|].
      rewrite IH; [done|]. apply elem_of_cons in Hx0 as [->|?]; [done|done]. }
    destruct (list_index_spec x l0 Hx0) as (i & -> & Hi). pose proof (lookup_lt_Some _ _ _ Hi).
    rewrite insert_app_l by done. rewrite removelast_app_singleton. eexists. split; [reflexivity|].
    rewrite <- (take_drop_middle l0 i x Hi) at 1. rewrite insert_take_drop by done.
    rewrite <- app_assoc. cbn. rewrite <- !Permutation_middle. apply perm_skip.
    by rewrite app_nil_r.
Qed.

Lemma seqZ_head m n : 0 < n -> seqZ m n = m :: seqZ (m + 1) (n - 1).
Proof. intros. by rewrite seqZ_cons by lia. Qed.

(** The intra-instruction dependencies before [x] move to the list. *)
Lemma move_intra_ok n x d : uop_ok d -> n = Z.to_nat (intraInstructionDependencies d) ->
  sequenceNumber d - microOpTypeOffset d - intraInstructionDependencies d <= x < sequenceNumber d - microOpTypeOffset d ->
  exists d', move_intra n x d = Ok d' /\ same_uop d d' /\ uop_ok d' /\ udeps d ≡ₚ udeps d' /\ first_intra d' = x /\
    0 < intraInstructionDependencies d'.
Proof.
  revert d. induction n as [|n IH]; intros d H Hn Hx; [lia|]. cbn [move_intra]. rewrite first_intra_ok by done.
  destruct (Z.eqb_spec x (sequenceNumber d - microOpTypeOffset d - intraInstructionDependencies d)) as [E|E].
  { exists d. rewrite first_intra_ok by done. split_and!; try done; lia. }
  pose proof (ok_length d H). assert (MAXIMUM_NUMBER_OF_DEPENDENCIES = 14%nat) as EM by reflexivity.
  rewrite (proj2 (Nat.ltb_lt (length (dependencies d)) _)) by lia. cbn [mbind res_bind]. rewrite length_app. cbn [length].
  rewrite (proj2 (Nat.ltb_lt _ _)) by lia. cbn [assert_ mbind res_bind].
  set (d1 := with_deps _ _ d). assert (uop_ok d1) as H1.
  { destruct H. split; cbn; try lia.
    - intros y Hy. apply elem_of_app in Hy as [Hy|Hy]; [by apply ok_deps0|]. apply list_elem_of_singleton in Hy as ->. lia.
    - rewrite length_app. cbn. lia. }
  destruct (IH d1 H1) as (d' & E' & Hs & Hok & Hp & Hf & Hi); [cbn; lia|cbn; lia|]. rewrite E'. exists d'. split_and!; try done.
  rewrite <- Hp. unfold udeps. cbn. rewrite (seqZ_head _ (intraInstructionDependencies d)) by lia.
  rewrite (app_assoc (seqZ _ _) (dependencies d)), (Permutation_app_comm _ [_]). cbn.
  replace (sequenceNumber d - microOpTypeOffset d - (intraInstructionDependencies d - 1))
    with (sequenceNumber d - microOpTypeOffset d - intraInstructionDependencies d + 1) by lia. done.
Qed.

Lemma removeDependency_ok d x : uop_ok d -> x ∈ udeps d ->
  exists d', removeDependency x d = Ok d' /\ same_uop d d' /\ uop_ok d' /\ udeps d ≡ₚ x :: udeps d'.
Proof.
  intros H Hx. unfold removeDependency. rewrite first_intra_ok by done.
  destruct (Z.leb_spec (sequenceNumber d - microOpTypeOffset d - intraInstructionDependencies d) x) as [Hle|Hgt].
  - assert (x < sequenceNumber d - microOpTypeOffset d) as Hlt.
    { apply elem_of_app in Hx as [Hx|Hx]; [apply elem_of_seqZ in Hx; lia|]. by apply (ok_deps d H). }
    destruct (move_intra_ok _ x d H eq_refl) as (d1 & -> & Hs & H1 & Hp & Hf & Hi); [lia|].
    cbn [mbind res_bind]. rewrite (proj2 (Z.ltb_lt _ _)) by done. cbn [assert_ mbind res_bind]. eexists. split; [reflexivity|].
    split; [etrans; [exact Hs|done]|]. split.
    + destruct H1. split; cbn; try done; lia.
    + rewrite Hp. unfold udeps. cbn. rewrite (seqZ_head _ (intraInstructionDependencies d1)) by lia.
      rewrite first_intra_ok in Hf by done. cbn. rewrite Hf. apply perm_skip. f_equiv.
      replace (x + 1) with (sequenceNumber d1 - microOpTypeOffset d1 - (intraInstructionDependencies d1 - 1)) by lia. done.
  - assert (x ∈ dependencies d) as Hd.
    { apply elem_of_app in Hx as [Hx|Hx]; [apply elem_of_seqZ in Hx; lia|done]. }
    destruct (swap_remove_ok x _ Hd) as (l & -> & Hp). cbn [mbind res_bind]. eexists. split; [reflexivity|]. split; [done|]. split.
    + destruct H. split; cbn; try done.
      * intros y Hy. apply ok_deps0. rewrite Hp. by right.
      * apply Permutation_length in Hp. cbn in Hp. lia.
    + unfold udeps. cbn. rewrite Hp. by rewrite Permutation_middle.
Qed.
End dependencies.

(** ** Registers *)

(** The producer of a register, if it is not older than [lo]. *)
Definition producer_of (rd : list Z) (lo : Z) (r : xed_reg_enum_t) : option Z :=
  p ← rd !! r; if (p =? INVALID_SEQNR) || (p <? lo) then None else Some p.

Section registers.
Implicit Types (d : DynamicMicroOp) (rd : list Z).

Lemma producer_of_Some rd lo r p : producer_of rd lo r = Some p <-> rd !! r = Some p /\ p <> INVALID_SEQNR /\ lo <= p.
Proof.
  unfold producer_of. destruct (rd !! r) as [q|] eqn:E; cbn; [|naive_solver].
  destruct (Z.eqb_spec q INVALID_SEQNR), (Z.ltb_spec q lo); cbn; naive_solver lia.
Qed.

Lemma producer_of_forget rd lo lo' r r' p : rd !! r = Some p -> p < lo -> lo <= lo' ->
  producer_of (<[r := INVALID_SEQNR]> rd) lo' r' = producer_of rd lo' r'.
Proof.
  intros Hp Hlt Hle. unfold producer_of. destruct (decide (r' = r)) as [->|Hne].
  - rewrite list_lookup_insert_eq by (by eapply lookup_lt_Some). rewrite Hp. cbn.
    rewrite (proj2 (Z.ltb_lt p lo')) by lia. by destruct (p =? _).
  - by rewrite list_lookup_insert_ne by done.
Qed.

Lemma rd_sources_ok lo regs rd d : uop_ok d -> (forall r, r ∈ regs -> (r < length rd)%nat) ->
  (forall r p, r ∈ regs -> producer_of rd lo r = Some p -> 0 <= p < sequenceNumber d - microOpTypeOffset d) ->
  deps_room d (Z.of_nat (length regs)) ->
  exists rd' d', rd_sources lo regs rd d = Ok (rd', d') /\ length rd' = length rd /\
    (forall r lo', lo <= lo' -> producer_of rd' lo' r = producer_of rd lo' r) /\
    (forall r p, rd' !! r = Some p -> p = INVALID_SEQNR \/ rd !! r = Some p) /\
    same_uop d d' /\ uop_ok d' /\ intraInstructionDependencies d' = intraInstructionDependencies d /\
    (forall y, y ∈ udeps d' <-> y ∈ udeps d \/ exists r, r ∈ regs /\ producer_of rd lo r = Some y) /\
    (forall k, deps_room d (k + Z.of_nat (length regs)) -> deps_room d' k).
Proof.
  revert rd d. induction regs as [|r regs IH]; intros rd d Hd Hr Hp Hroom; cbn [rd_sources].
  { exists rd, d. split_and!; try done; [auto| |].
    - intros y. split; [auto|]. intros [?|(r & Hr' & _)]; [done|]. by apply elem_of_nil in Hr'.
    - intros k. cbn. by rewrite Z.add_0_r. }
  assert (Hlt : (r < length rd)%nat) by (apply Hr; left).
  rewrite (proj2 (Nat.ltb_lt _ _)) by done. cbn [assert_ mbind res_bind].
  destruct (aget_lt rd r Hlt) as (p & -> & Ep). cbn [mbind res_bind].
  assert (Hroom' : deps_room d (Z.of_nat (length regs))) by (unfold deps_room in *; cbn in Hroom; lia).
  destruct (Z.eqb_spec p INVALID_SEQNR) as [->|Hne]; cbn [negb].
  { destruct (IH rd d) as (rd' & d' & E & Hl & Hpo & Hin & Hs & Hok & Hi & Hu & Hk); try done.
    { intros; apply Hr; by right. } { intros r' q Hr'. apply Hp. by right. }
    exists rd', d'. split_and!; try done.
    - intros y. rewrite Hu. split; [naive_solver set_solver|]. intros [?|(r' & Hr' & Hq)]; [auto|].
      apply elem_of_cons in Hr' as [->|Hr']; [|eauto]. apply producer_of_Some in Hq as (? & ? & _). congruence.
    - intros k Hk'. apply Hk. unfold deps_room in *. cbn in Hk'. lia. }
  destruct (Z.leb_spec lo p) as [Hle|Hgt].
  - assert (Hq : producer_of rd lo r = Some p) by (by apply producer_of_Some).
    destruct (addDependency_ok d p Hd) as (d1 & -> & Hs1 & Hok1 & Hu1 & _ & Hk1 & Hi1 & _).
    { apply (Hp r p); [left|done]. } { unfold deps_room in *. cbn in Hroom. lia. }
    cbn [mbind res_bind]. assert (Hsq : sequenceNumber d1 = sequenceNumber d /\ microOpTypeOffset d1 = microOpTypeOffset d) by (by rewrite Hs1).
    destruct (IH rd d1) as (rd' & d' & E & Hl & Hpo & Hin & Hs & Hok & Hi & Hu & Hk); try done.
    { intros; apply Hr; by right. } { intros r' q Hr' Hq'. destruct Hsq as [-> ->]. apply (Hp r' q); [by right|done]. }
    { apply Hk1. unfold deps_room in *. cbn in Hroom. lia. }
    exists rd', d'. split_and!; try done.
    + by etrans.
    + congruence.
    + intros y. rewrite Hu, Hu1. split.
      * intros [[?| ->]|(r' & Hr' & ?)]; [auto| |]; right; [exists r|exists r']; (split; [|done]); [left|by right].
      * intros [?|(r' & Hr' & Hq')]; [auto|]. apply elem_of_cons in Hr' as [->|Hr']; [|eauto]. left. right. congruence.
    + intros k Hk'. apply Hk, Hk1. unfold deps_room in *. cbn in Hk'. lia.
  - destruct (IH (<[r := INVALID_SEQNR]> rd) d) as (rd' & d' & E & Hl & Hpo & Hin & Hs & Hok & Hi & Hu & Hk); try done.
    { intros r' Hr'. rewrite length_insert. apply Hr. by right. }
    { intros r' q Hr'. rewrite (producer_of_forget _ lo lo _ _ p) by (done || lia). apply Hp. by right. }
    exists rd', d'. rewrite length_insert in Hl. split_and!; try done.
    + intros r' lo' Hlo. rewrite Hpo by done. by rewrite (producer_of_forget _ lo lo' _ _ p) by (done || lia).
    + intros r' q Hq. destruct (Hin r' q Hq) as [->|Hq']; [auto|]. destruct (decide (r' = r)) as [->|].
      * rewrite list_lookup_insert_eq in Hq' by done. left. congruence.
      * rewrite list_lookup_insert_ne in Hq' by done. auto.
    + intros y. rewrite Hu. setoid_rewrite (producer_of_forget _ lo lo _ _ p); try (done || lia).
      split; [naive_solver set_solver|]. intros [?|(r' & Hr' & Hq)]; [auto|]. apply elem_of_cons in Hr' as [->|Hr']; [|eauto].
      apply producer_of_Some in Hq as (? & _ & ?). assert (y = p) by congruence. lia.
    + intros k Hk'. apply Hk. unfold deps_room in *. cbn in Hk'. lia.
Qed.

Lemma rd_destinations_ok n regs rd : (forall r, r ∈ regs -> (r < length rd)%nat) ->
  exists rd', rd_destinations n regs rd = Ok rd' /\ length rd' = length rd /\
    (forall r, rd' !! r = if bool_decide (r ∈ regs) then Some n else rd !! r).
Proof.
  revert rd. induction regs as [|r regs IH]; intros rd Hr; cbn [rd_destinations].
  { exists rd. split_and!; try done. }
  assert (Hlt : (r < length rd)%nat) by (apply Hr; left).
  rewrite (proj2 (Nat.ltb_lt _ _)) by done. cbn [assert_ mbind res_bind].
  destruct (IH (<[r := n]> rd)) as (rd' & E & Hl & Hx). { intros r' Hr'. rewrite length_insert. apply Hr. by right. }
  exists rd'. rewrite length_insert in Hl. split_and!; try done. intros r'. rewrite Hx.
  destruct (decide (r' = r)) as [->|Hne].
  - rewrite list_lookup_insert_eq by done. rewrite (bool_decide_true (r ∈ r :: regs)) by left. by case_bool_decide.
  - rewrite list_lookup_insert_ne by done. do 2 case_bool_decide; try done; set_solver.
Qed.

(** What the register table and the new micro-operation are after [rd_setDependencies]. *)
Lemma rd_setDependencies_ok lo rd d : uop_ok d ->
  (forall r, r ∈ sourceRegisters (m_uop d) -> (r < length rd)%nat) ->
  (forall r, r ∈ destinationRegisters (m_uop d) -> (r < length rd)%nat) ->
  (forall r p, r ∈ sourceRegisters (m_uop d) -> producer_of rd lo r = Some p -> 0 <= p < sequenceNumber d - microOpTypeOffset d) ->
  deps_room d (Z.of_nat (length (sourceRegisters (m_uop d)))) -> lo <= sequenceNumber d ->
  exists rd' d', rd_setDependencies lo rd d = Ok (rd', d') /\ length rd' = length rd /\
    (forall r lo', lo <= lo' <= sequenceNumber d -> producer_of rd' lo' r =
       if bool_decide (r ∈ destinationRegisters (m_uop d)) then Some (sequenceNumber d) else producer_of rd lo' r) /\
    (forall r p, rd' !! r = Some p -> p = INVALID_SEQNR \/ p = sequenceNumber d \/ rd !! r = Some p) /\
    same_uop d d' /\ uop_ok d' /\ intraInstructionDependencies d' = intraInstructionDependencies d /\
    (forall y, y ∈ udeps d' <-> y ∈ udeps d \/ exists r, r ∈ sourceRegisters (m_uop d) /\ producer_of rd lo r = Some y) /\
    (forall k, deps_room d (k + Z.of_nat (length (sourceRegisters (m_uop d)))) -> deps_room d' k).
Proof.
  intros Hd Hsrc Hdst Hp Hroom Hlo. unfold rd_setDependencies.
  destruct (rd_sources_ok lo _ rd d Hd Hsrc Hp Hroom) as (rd1 & d1 & -> & Hl & Hpo & Hin & Hs & Hok & Hi & Hu & Hk).
  cbn [mbind res_bind]. assert (Hm : m_uop d1 = m_uop d /\ sequenceNumber d1 = sequenceNumber d) by (by rewrite Hs).
  destruct Hm as [-> Hsq]. rewrite Hsq.
  destruct (rd_destinations_ok (sequenceNumber d) (destinationRegisters (m_uop d)) rd1) as (rd2 & -> & Hl2 & Hx).
  { intros r Hr. rewrite Hl. by apply Hdst. }
  cbn [mbind res_bind]. exists rd2, d1. split_and!; try done.
  - congruence.
  - intros r lo' Hlo'. rewrite <- Hpo by lia. unfold producer_of. rewrite Hx. case_bool_decide; [|done]. cbn.
    destruct (ok_seq d Hd). unfold INVALID_SEQNR. rewrite (proj2 (Z.eqb_neq _ _)), (proj2 (Z.ltb_ge _ _)) by lia. done.
  - intros r p Hq. rewrite Hx in Hq. case_bool_decide; [naive_solver|]. destruct (Hin r p Hq); auto.
Qed.
End registers.

(** ** Memory *)

Section memory.
Implicit Types (q : CircularQueue Producer) (l : list Producer) (d : DynamicMicroOp).

(** The stores that [clean] keeps. *)
Fixpoint md_live (lo : Z) l : list Producer :=
  match l with
  | [] => []
  | p :: l => if pr_seqnr p <? lo then md_live lo l else p :: l
  end.

(** The last store to an address. *)
Definition last_store (a : Z) l : option Z := foldl (fun r p => if pr_address p =? a then Some (pr_seqnr p) else r) None l.

Lemma md_clean_ok lo q l : represents q l ->
  exists q', md_clean (length l) lo q = Ok q' /\ represents q' (md_live lo l) /\ cq_size q' = cq_size q.
Proof.
  revert q. induction l as [|p l IH]; intros q H; cbn [md_clean length md_live]; [by exists q|].
  pose proof H as (b & Hr & Hl). rewrite (ring_empty _ _ _ Hr), (proj2 (Z.eqb_neq _ _)) by (cbn; lia).
  rewrite (ring_front _ _ _ Hr) by (cbn; lia). specialize (Hl 0%nat). cbn in Hl. rewrite Z.add_0_r in Hl.
  rewrite (proj2 (aget_ok _ _ p)) by (rewrite <- Hl; [done|lia]). cbn [mbind res_bind].
  destruct (pr_seqnr p <? lo); [|by exists q].
  destruct (represents_pop q p l H) as (q1 & -> & H1 & S1). cbn [mbind res_bind].
  destruct (IH q1 H1) as (q' & E & H' & S'). exists q'. split_and!; [done..|congruence].
Qed.

Lemma md_find_ok a q l l' : represents q (l ++ l') -> md_find (length l) a q = Ok (default INVALID_SEQNR (last_store a l)).
Proof.
  revert l'. induction l as [|p l IH] using rev_ind; intros l' H; [done|]. rewrite length_app, Nat.add_1_r. cbn [md_find].
  pose proof H as (b & Hr & Hl). assert (Hlen : (length l < length ((l ++ [p]) ++ l'))%nat) by (rewrite !length_app; cbn; lia).
  rewrite (ring_at _ _ _ _ Hr) by lia. rewrite (proj2 (aget_ok _ _ p)).
  2: { rewrite <- Hl by done. by rewrite lookup_app_l, list_lookup_middle by (rewrite ?length_app; cbn; lia). }
  cbn [mbind res_bind]. unfold last_store. rewrite foldl_app. cbn. destruct (pr_address p =? a); [done|].
  apply (IH (p :: l')). by rewrite <- app_assoc in H.
Qed.

Definition is_memop (u : MicroOp) : bool := isLoad u || isStore u || m_membar u.

(** The fence that memory operations wait for. *)
Definition fence_of (lo membar : Z) : option Z := if negb (membar =? INVALID_SEQNR) && (lo <? membar) then Some membar else None.

Lemma md_after_membar_ok lo m d : uop_ok d -> deps_room d 1 ->
  (forall x, fence_of lo (md_membar m) = Some x -> 0 <= x < sequenceNumber d - microOpTypeOffset d) ->
  exists d', md_after_membar lo m d = Ok d' /\ same_uop d d' /\ uop_ok d' /\
    intraInstructionDependencies d' = intraInstructionDependencies d /\
    (forall y, y ∈ udeps d' <-> y ∈ udeps d \/ fence_of lo (md_membar m) = Some y) /\
    (forall k, deps_room d (k + 1) -> deps_room d' k).
Proof.
  intros Hd Hroom Hx. unfold md_after_membar. unfold fence_of in *. destruct (negb _ && _) eqn:E.
  - destruct (addDependency_ok d (md_membar m) Hd) as (d' & E' & Hs & Hok & Hu & _ & Hk & Hi & _); [by apply Hx|done|].
    exists d'. split_and!; try done. intros y. rewrite Hu. naive_solver.
  - exists d. split_and!; try done; [naive_solver|]. unfold deps_room. intros. lia.
Qed.

Lemma md_setDependencies_ok lo m d l : uop_ok d -> represents (md_producers m) l -> deps_room d 2 ->
  (isStore (m_uop d) = true -> Z.of_nat (length (md_live lo l)) < cq_size (md_producers m) - 1) ->
  (isLoad (m_uop d) = true -> forall x, last_store (d_address d) (md_live lo l) = Some x -> 0 <= x < sequenceNumber d - microOpTypeOffset d) ->
  (is_memop (m_uop d) = true -> forall x, fence_of lo (md_membar m) = Some x -> 0 <= x < sequenceNumber d - microOpTypeOffset d) ->
  exists m' d', md_setDependencies lo m d = Ok (m', d') /\ same_uop d d' /\ uop_ok d' /\
    intraInstructionDependencies d' = intraInstructionDependencies d /\
    (forall y, y ∈ udeps d' <-> y ∈ udeps d \/ (isLoad (m_uop d) = true /\ last_store (d_address d) (md_live lo l) = Some y)
               \/ (is_memop (m_uop d) = true /\ fence_of lo (md_membar m) = Some y)) /\
    (forall k, deps_room d (k + 2) -> deps_room d' k) /\
    represents (md_producers m') (md_live lo l ++ if isStore (m_uop d) then [mkProducer (sequenceNumber d) (d_address d)] else []) /\
    cq_size (md_producers m') = cq_size (md_producers m) /\ (md_membar m' = md_membar m \/
     (md_membar m' = sequenceNumber d /\ isLoad (m_uop d) = false /\ isStore (m_uop d) = false /\ m_membar (m_uop d) = true)).
Proof.
  intros Hd Hr Hroom Hst Hld Hf. unfold md_setDependencies.
  assert (Hlen : Z.to_nat (cq_length (md_producers m)) = length l). { destruct Hr as (b & Hr & _). rewrite (ring_length _ _ _ Hr). lia. }
  rewrite Hlen. destruct (md_clean_ok lo _ l Hr) as (q & -> & Hq & Sq). cbn [mbind res_bind].
  assert (Hlq : Z.to_nat (cq_length q) = length (md_live lo l)). { destruct Hq as (b & Hq & _). rewrite (ring_length _ _ _ Hq). lia. }
  assert (Hroom1 : deps_room d 1) by (unfold deps_room in *; lia).
  unfold is_memop in *. destruct (isLoad (m_uop d)) eqn:EL; [|destruct (isStore (m_uop d)) eqn:ES; [|destruct (m_membar (m_uop d)) eqn:EB]].
  - rewrite Hlq. rewrite (md_find_ok _ q _ []) by (by rewrite app_nil_r). cbn [mbind res_bind].
    assert (Hns : isStore (m_uop d) = false). { unfold isLoad, isStore in *. destruct (uop_type (m_uop d)); done. } rewrite Hns, app_nil_r.
    set (x := last_store _ _) in *.
    assert (exists d1, (if negb (default INVALID_SEQNR x =? INVALID_SEQNR) then addDependency (default INVALID_SEQNR x) d else Ok d) = Ok d1 /\
      same_uop d d1 /\ uop_ok d1 /\ intraInstructionDependencies d1 = intraInstructionDependencies d /\
      (forall y, y ∈ udeps d1 <-> y ∈ udeps d \/ x = Some y) /\ (forall k, deps_room d (k + 1) -> deps_room d1 k)) as (d1 & -> & Hs1 & Hok1 & Hi1 & Hu1 & Hk1).
    { clearbody x. destruct x as [y0|].
      - change (default INVALID_SEQNR (Some y0)) with y0. specialize (Hld eq_refl y0 eq_refl). pose proof (ok_seq d Hd). pose proof (ok_offset d Hd).
        rewrite (proj2 (Z.eqb_neq y0 INVALID_SEQNR)) by (unfold INVALID_SEQNR; lia). cbn [negb].
        destruct (addDependency_ok d y0 Hd Hld Hroom1) as (d1 & E & Hs & Hok & Hu & _ & Hk & Hi & _).
        exists d1. split_and!; try done. intros y. rewrite Hu. naive_solver.
      - change (default INVALID_SEQNR None) with INVALID_SEQNR. rewrite Z.eqb_refl. exists d. split_and!; try done; [naive_solver|]. unfold deps_room. intros. lia. }
    cbn [mbind res_bind]. assert (Hm : sequenceNumber d1 = sequenceNumber d /\ microOpTypeOffset d1 = microOpTypeOffset d) by (by rewrite Hs1).
    destruct (md_after_membar_ok lo (mkMemDeps q (md_membar m)) d1 Hok1) as (d2 & -> & Hs2 & Hok2 & Hi2 & Hu2 & Hk2).
    { apply Hk1. unfold deps_room in *. lia. } { destruct Hm as [-> ->]. by apply Hf. }
    cbn [mbind res_bind]. eexists _, d2. split; [reflexivity|]. split_and!; try done.
    + by etrans.
    + congruence.
    + intros y. rewrite Hu2, Hu1. cbn [md_membar]. naive_solver.
    + intros k Hk. apply Hk2, Hk1. unfold deps_room in *. lia.
    + by left.
  - destruct (represents_push q _ (mkProducer (sequenceNumber d) (d_address d)) Hq) as (q' & -> & Hq' & Sq'); [rewrite Sq; by apply Hst|].
    cbn [mbind res_bind]. destruct (md_after_membar_ok lo (mkMemDeps q (md_membar m)) d Hd Hroom1) as (d2 & -> & Hs2 & Hok2 & Hi2 & Hu2 & Hk2).
    { by apply Hf. }
    cbn [mbind res_bind]. eexists _, d2. split; [reflexivity|]. split_and!; try done.
    + intros y. rewrite Hu2. cbn [md_membar]. naive_solver.
    + intros k Hk. apply Hk2. unfold deps_room in *. lia.
    + cbn. congruence.
    + by left.
  - destruct (md_after_membar_ok lo (mkMemDeps q (md_membar m)) d Hd Hroom1) as (d2 & -> & Hs2 & Hok2 & Hi2 & Hu2 & Hk2); [by apply Hf|].
    cbn [mbind res_bind]. eexists _, d2. split; [reflexivity|]. rewrite app_nil_r. split_and!; try done.
    + intros y. rewrite Hu2. cbn [md_membar]. naive_solver.
    + intros k Hk. apply Hk2. unfold deps_room in *. lia.
    + right. cbn. split_and!; try done. by rewrite Hs2.
  - eexists _, d. split; [reflexivity|]. rewrite app_nil_r. split_and!; try done.
    + naive_solver.
    + unfold deps_room. intros. lia.
    + by left.
Qed.
End memory.
