(* ===== verification/CoreModelNehalem.v ===== *)
(** * The Nehalem core model and issue contention

    Models performance_models/core_model (latencies, issue ports and execution units of the
    micro-operations on a Nehalem core) and rob_performance_model/rob_contention_nehalem.{h,cc}, the
    implementation of the interface [RobContention] (rob_contention.h) that tells in every cycle which
    micro-operations find a free port. *)

From S2P Require Import Prelude SubsecondTime CircularQueue MicroOp.

#[local] Open Scope string_scope.
#[local] Open Scope list_scope.
#[local] Open Scope Z_scope.

(** ** Latencies *)

Definition instructionLatencies : list (list string * Z) :=
  [(["MUL"; "IMUL"; "ADDPS"; "ADDSS"; "ADDSUBPS"; "SUBPS"; "SUBSS"; "VADDPS"; "VADDSS"; "VADDSUBPS"; "VSUBPS"; "VSUBSS";
   "ADDPD"; "ADDSD"; "ADDSUBPD"; "SUBPD"; "SUBSD"; "VADDPD"; "VADDSD"; "VADDSUBPD"; "VSUBPD"; "VSUBSD"; "MAXSS";
   "MAXSD"; "MAXPS"; "MAXPD"; "MINSS"; "MINSD"; "MINPS"; "MINPD"; "RSQRTSS"; "RSQRTPS"; "VRSQRTSS"; "VRSQRTPS";
   "COMISS"; "COMISD"; "UCOMISS"; "UCOMISD"],
    3);
   (["DIV"; "IDIV"],
    28);
   (["MULSS"; "MULPS"; "VMULSS"; "VMULPS"; "CVTPD2PS"; "CVTSD2SS"],
    4);
   (["MULSD"; "MULPD"; "VMULSD"; "VMULPD"; "CVTDQ2PS"; "CVTPS2DQ"; "CVTTPS2DQ"; "CVTPI2PS"; "CVTPS2PI"; "CVTTPS2PI";
   "CVTSI2SS"; "CVTSS2SI"; "CVTTSS2SI"; "CVTSD2SI"; "CVTTSD2SI"],
    5);
   (["DIVSS"; "DIVPS"; "VDIVSS"; "VDIVPS"],
    11);
   (["DIVSD"; "DIVPD"; "VDIVSD"; "VDIVPD"],
    17);
   (["SQRTSS"; "SQRTPS"; "VSQRTSS"; "VSQRTPS"],
    18);
   (["SQRTSD"; "SQRTPD"; "VSQRTSD"; "VSQRTPD"],
    32);
   (["FLDENV"],
    110);
   (["FNSTENV"],
    75);
   (["CVTPS2PD"],
    2);
   (["CVTSS2SD"],
    1);
   (["CVTDQ2PD"; "CVTPD2DQ"; "CVTTPD2DQ"; "CVTPI2PD"; "CVTPD2PI"; "CVTTPD2PI"; "CVTSI2SD"],
    6)].

Definition getInstructionLatency (c : xed_iclass_enum_t) : Z :=
  foldr (fun e r => if iclass_in e.1 c then e.2 else r) 1 instructionLatencies.

Definition getAluLatency (u : MicroOp) : Z :=
  if iclass_in ["DIV"; "IDIV"] (instructionOpcode u) then (if 32 <? operand_size u then 28 else 9)
  else getInstructionLatency (instructionOpcode u).

Definition getBypassLatency (b : uop_bypass_t) : Z :=
  match b with UOP_BYPASS_NONE => 0 | UOP_BYPASS_LOAD_FP => 2 | UOP_BYPASS_FP_STORE => 1 end.

(** ** Ports, bypasses and execution units *)

Definition port0_classes : list string :=
  ["CVTPS2PD"; "CVTSS2SD"; "SQRTSS"; "SQRTPS"; "SQRTSD"; "SQRTPD"; "VSQRTSS"; "VSQRTPS"; "VSQRTSD"; "VSQRTPD"].
Definition port1_classes : list string :=
  ["COMISD"; "COMISS"; "UCOMISD"; "UCOMISS"; "MAXSS"; "MAXSD"; "MAXPS"; "MAXPD"; "MINSS"; "MINSD"; "MINPS"; "MINPD";
    "ROUNDPS"; "ROUNDPD"; "CVTPD2PS"; "CVTSD2SS"; "CVTDQ2PS"; "CVTPS2DQ"; "CVTTPS2DQ"; "CVTDQ2PD"; "CVTPD2DQ";
    "CVTTPD2DQ"; "CVTPI2PS"; "CVTPS2PI"; "CVTTPS2PI"; "CVTPI2PD"; "CVTPD2PI"; "CVTTPD2PI"; "CVTSI2SS"; "CVTSS2SI";
    "CVTTSS2SI"; "CVTSI2SD"; "CVTSD2SI"; "CVTTSD2SI"; "RSQRTSS"; "RSQRTPS"; "VRSQRTSS"; "VRSQRTPS"].
Definition port5_classes : list string :=
  ["ANDPS"; "ANDPD"; "ANDNPS"; "ANDNPD"; "ORPS"; "ORPD"; "XORPS"; "XORPD"; "MOVAPD"; "MOVAPS"; "MOVHLPS"; "MOVHPD";
    "MOVHPS"; "MOVLHPS"; "MOVLPD"; "MOVLPS"; "MOVMSKPD"; "MOVMSKPS"; "MOVSD_XMM"; "MOVSHDUP"; "MOVSLDUP"; "MOVSS";
    "VMOVAPD"; "VMOVAPS"; "VMOVHLPS"; "VMOVHPD"; "VMOVHPS"; "VMOVLHPS"; "VMOVLPD"; "VMOVLPS"; "VMOVMSKPD";
    "VMOVMSKPS"; "VMOVSD"; "VMOVSHDUP"; "VMOVSLDUP"; "VMOVSS"; "UNPCKHPD"; "UNPCKHPS"; "UNPCKLPD"; "UNPCKLPS"].

Definition getPort (u : MicroOp) : uop_port_t :=
  match uop_subtype u with
  | UOP_SUBTYPE_FP_ADDSUB => UOP_PORT1
  | UOP_SUBTYPE_FP_MULDIV => UOP_PORT0
  | UOP_SUBTYPE_LOAD => UOP_PORT2
  | UOP_SUBTYPE_STORE => UOP_PORT34
  | UOP_SUBTYPE_GENERIC =>
      let c := instructionOpcode u in
      if bool_decide (c = "IMUL") then (if operand_size u =? 64 then UOP_PORT0 else UOP_PORT1)
      else if bool_decide (c = "LEA") then UOP_PORT1
      else if iclass_in port0_classes c then UOP_PORT0
      else if iclass_in port1_classes c then UOP_PORT1
      else if iclass_in port5_classes c then UOP_PORT5
      else UOP_PORT015
  | UOP_SUBTYPE_BRANCH => UOP_PORT5
  end.

Definition getBypassType (u : MicroOp) : uop_bypass_t :=
  match uop_subtype u with
  | UOP_SUBTYPE_LOAD => if isFpLoadStore u then UOP_BYPASS_LOAD_FP else UOP_BYPASS_NONE
  | UOP_SUBTYPE_STORE => if isFpLoadStore u then UOP_BYPASS_FP_STORE else UOP_BYPASS_NONE
  | _ => UOP_BYPASS_NONE
  end.

Definition alu_classes : list string :=
  ["DIV"; "IDIV"; "FDIV"; "FIDIV"; "FDIVP"; "FDIVR"; "FDIVRP"; "DIVSS"; "DIVPS"; "DIVSD"; "DIVPD"; "VDIVSS";
    "VDIVPS"; "VDIVSD"; "VDIVPD"; "SQRTSS"; "SQRTPS"; "SQRTSD"; "SQRTPD"; "VSQRTSS"; "VSQRTPS"; "VSQRTSD"; "VSQRTPD";
    "RSQRTSS"; "RSQRTPS"; "VRSQRTSS"; "VRSQRTPS"].
Definition getAlu (u : MicroOp) : uop_alu_t :=
  if isExecute u && iclass_in alu_classes (instructionOpcode u) then UOP_ALU_TRIG else UOP_ALU_NONE.

Definition createDynamicMicroOp (u : MicroOp) : DynamicMicroOp :=
  DynamicMicroOp_new (getInstructionLatency (instructionOpcode u)) (getPort u) (getAlu u) (getBypassType u) u.

(** ** The interface of contention models *)

Class RobContention (C : Type) := {
  initCycle : Z -> C -> C;
  tryIssue : DynamicMicroOp -> C -> res (bool * C);
  noMore : C -> bool;
  doIssue : Z -> DynamicMicroOp -> C -> res C     (* with the period of the clock *)
}.

(** ** Contention for the ports of a Nehalem core *)

Record RobContentionNehalem := mkRCN {
  rc_now : Z;
  ports : list bool;
  ports_generic : Z;
  ports_generic05 : Z;
  alu_used_until : list Z
}.
Implicit Types (c : RobContentionNehalem).

Definition port_index (p : uop_port_t) : nat :=
  match p with
  | UOP_PORT0 => 0 | UOP_PORT1 => 1 | UOP_PORT2 => 2 | UOP_PORT34 => 3 | UOP_PORT5 => 4 | UOP_PORT05 => 5 | UOP_PORT015 => 6
  end.
Definition UOP_PORT_SIZE : nat := 7.
Definition alu_index (a : uop_alu_t) : option nat := match a with UOP_ALU_NONE => None | UOP_ALU_TRIG => Some 1%nat end.
Definition UOP_ALU_SIZE : nat := 2.

(** The ports are set by [initCycle] before they are used. *)
Definition RobContentionNehalem_new : RobContentionNehalem :=
  mkRCN 0 (replicate UOP_PORT_SIZE false) 0 0 (replicate UOP_ALU_SIZE 0).

Definition nehalem_initCycle (now : Z) c : RobContentionNehalem := mkRCN now (replicate UOP_PORT_SIZE false) 0 0 (alu_used_until c).

(** The port of a micro-operation is taken, or [None] when it is in use. *)
Definition take_port (port : uop_port_t) c : res (option RobContentionNehalem) :=
  match port with
  | UOP_PORT015 =>
      Ok (if 3 <=? ports_generic c then None
          else Some (mkRCN (rc_now c) (ports c) (ports_generic c + 1) (ports_generic05 c) (alu_used_until c)))
  | UOP_PORT05 =>
      Ok (if 2 <=? ports_generic05 c then None
          else Some (mkRCN (rc_now c) (ports c) (ports_generic c) (ports_generic05 c + 1) (alu_used_until c)))
  | UOP_PORT2 | UOP_PORT34 =>
      b ← aget (ports c) (port_index port);
      Ok (if (b : bool) then None
          else Some (mkRCN (rc_now c) (<[port_index port := true]> (ports c)) (ports_generic c) (ports_generic05 c) (alu_used_until c)))
  | _ =>
      b ← aget (ports c) (port_index port);
      let not1 := negb (bool_decide (port = UOP_PORT1)) in
      Ok (if (b : bool) then None
          else if 3 <=? ports_generic c then None
          else if not1 && (2 <=? ports_generic05 c) then None
          else Some (mkRCN (rc_now c) (<[port_index port := true]> (ports c)) (ports_generic c + 1)
                       (if not1 then ports_generic05 c + 1 else ports_generic05 c) (alu_used_until c)))
  end.

(** A port stays taken when the execution unit is in use. *)
Definition nehalem_tryIssue (d : DynamicMicroOp) c : res (bool * RobContentionNehalem) :=
  r ← take_port (uop_port d) c;
  match r with
  | None => Ok (false, c)
  | Some c =>
      match alu_index (uop_alu d) with
      | None => Ok (true, c)
      | Some i => t ← aget (alu_used_until c) i; Ok (negb (st_gtb t (rc_now c)), c)
      end
  end.

Definition nehalem_doIssue (period : Z) (d : DynamicMicroOp) c : res RobContentionNehalem :=
  match alu_index (uop_alu d) with
  | None => Ok c
  | Some i =>
      l ← aset (alu_used_until c) i (st_add (rc_now c) (st_mul period (getAluLatency (m_uop d))));
      Ok (mkRCN (rc_now c) (ports c) (ports_generic c) (ports_generic05 c) l)
  end.

Definition nehalem_noMore c : bool :=
  default false (ports c !! port_index UOP_PORT2) && default false (ports c !! port_index UOP_PORT34) && (3 <=? ports_generic c).

#[global] Instance nehalem_contention : RobContention RobContentionNehalem := {|
  initCycle := nehalem_initCycle;
  tryIssue := nehalem_tryIssue;
  noMore := nehalem_noMore;
  doIssue := nehalem_doIssue
|}.
