(* ===== verification/RobTimer.v ===== *)
(** * The out-of-order core

    Models rob_performance_model/rob_timer.{h,cc}: a reorder buffer into which micro-operations are
    dispatched in order, from which they are issued when the micro-operations they depend on have been,
    and from which they are committed in order.  [execute] is one cycle, or several when nothing happens
    in between; [simulate] is called with the micro-operations of one instruction.

    Pointers to entries of the reorder buffer are slots of its ring; a slot whose entry has been freed
    is [None], so that a use after that fails.  The contention model and the memory are reached through
    the classes [RobContention] and [CoreMemory]; the clock's period is an argument, since it can change
    between calls. *)

From S2P Require Import Prelude StateMonad SubsecondTime ContentionModel CircularQueue MicroOp CoreModelNehalem.

(** [Core::accessMemory] with MEM_MODELED_RETURN: write, address, size, instruction address and time;
    returns the latency and where the data was found. *)
Class CoreMemory (Mem : Type) := accessMemory : bool -> Z -> Z -> Z -> Z -> Mem -> res (Z * Z * Mem).

(** ** State *)

Record RobEntry := mkEntry {
  dependants : list nat;
  addressProducers : list Z;
  re_uop : DynamicMicroOp;
  dispatched : option Z;          (* not set by [init] *)
  ready : Z;
  readyMax : Z;
  addressReady : Z;
  addressReadyMax : Z;
  issued : Z;
  done : Z
}.

(** Pointers to components of the CPI stack. *)
Inductive cpi_component := CpiBase | CpiBranchPredictor | CpiSerialization | CpiRSFull | CpiInstructionCache
    (h : Z) | CpiDataCache (h : Z).
Record CpiStack := mkCpi {
  m_cpiBase : Z; m_cpiBranchPredictor : Z; m_cpiSerialization : Z; m_cpiRSFull : Z;
  m_cpiInstructionCache : list Z; m_cpiDataCache : list Z
}.

Record RobStats := mkRobStats {
  m_uop_type_count : list Z;
  m_uops_total : Z;
  m_uops_x87 : Z;
  m_uops_pause : Z;
  m_loads_count : Z;
  m_loads_latency : Z;
  m_stores_count : Z;
  m_stores_latency : Z;
  m_totalProducerInsDistance : Z;
  m_totalConsumers : Z;
  m_producerInsDistance : list Z;
  m_outstandingLongLatencyInsns : Z;
  m_outstandingLongLatencyCycles : Z;
  m_lastAccountedMemoryCycle : Z;
  m_outstandingLoads : list (list Z);
  m_outstandingLoadsAll : list Z
}.

Record uop_times_t := mkTimes { t_dispatch : option Z; t_issue : Z; t_done : Z; t_commit : Z }.

Record RobTimer (C Mem : Type) := mkRobTimer {
  rob : CircularQueue (option RobEntry);
  m_num_in_rob : Z;
  m_rs_entries_used : Z;
  m_rob_contention : option C;
  now : Z;
  frontend_stalled_until : Z;
  in_icache_miss : bool;
  last_store_done : Z;
  load_queue : ContentionModel;
  store_queue : ContentionModel;
  nextSequenceNumber : Z;
  will_skip : bool;
  time_skipped : Z;
  registerDependencies : RegisterDependencies;
  memoryDependencies : MemoryDependencies;
  r_cpi : CpiStack;
  m_cpiCurrentFrontEndStall : option cpi_component;
  r_stats : RobStats;
  r_trace : list (DynamicMicroOp * uop_times_t);
  r_memory : Mem
}.
Arguments rob {C Mem} _.
Arguments m_num_in_rob {C Mem} _.
Arguments m_rs_entries_used {C Mem} _.
Arguments m_rob_contention {C Mem} _.
Arguments now {C Mem} _.
Arguments frontend_stalled_until {C Mem} _.
Arguments in_icache_miss {C Mem} _.
Arguments last_store_done {C Mem} _.
Arguments load_queue {C Mem} _.
Arguments store_queue {C Mem} _.
Arguments nextSequenceNumber {C Mem} _.
Arguments will_skip {C Mem} _.
Arguments time_skipped {C Mem} _.
Arguments registerDependencies {C Mem} _.
Arguments memoryDependencies {C Mem} _.
Arguments r_cpi {C Mem} _.
Arguments m_cpiCurrentFrontEndStall {C Mem} _.
Arguments r_stats {C Mem} _.
Arguments r_trace {C Mem} _.
Arguments r_memory {C Mem} _.
Arguments mkRobTimer {C Mem} _ _ _ _ _ _ _ _ _ _ _ _ _ _ _ _ _ _ _ _.

Record RobCfg := mkRobCfg {
  dispatchWidth : Z;
  commitWidth : Z;
  windowSize : Z;
  rsEntries : Z;
  misprediction_penalty : Z;
  m_store_to_load_forwarding : bool;
  m_no_address_disambiguation : bool;
  inorder : bool;
  m_mlp_histogram : bool;
  lll_cutoff : Z;
  outstanding_loads : nat;
  outstanding_stores : nat;
  XED_REG_LAST : nat;
  XED_REG_INVALID : xed_reg_enum_t
}.
Definition MAX_OUTSTANDING : nat := 32.

(** The clock is that of the core, [period]; the vector of [m_outstandingLoads] at a place where nothing
    can hit is empty. *)
Definition RobTimer_new {C Mem} (cfg : RobCfg) (contention : option C) (m : Mem) : RobTimer C Mem :=
  mkRobTimer (cq_new (windowSize cfg + 255) None) 0 0 contention 0 0 false 0
    (ContentionModel_new None (outstanding_loads cfg)) (ContentionModel_new None (outstanding_stores cfg)) 0 false 0
    (rd_clear (XED_REG_LAST cfg)) MemoryDependencies_new
    (mkCpi 0 0 0 0 (replicate NUM_HITWHERES 0) (replicate NUM_HITWHERES 0)) None
    (mkRobStats (replicate UOP_SUBTYPE_SIZE 0) 0 0 0 0 0 0 0 0 0 (replicate (Z.to_nat (windowSize cfg)) 0) 0 0 0
       (if m_mlp_histogram cfg
        then (fun h => if HitWhereIsValid (Z.of_nat h) then replicate MAX_OUTSTANDING 0 else []) <$> seq 0 NUM_HITWHERES
        else [])
       (if m_mlp_histogram cfg then replicate MAX_OUTSTANDING 0 else []))
    [] m.

Section setters.
Context {C Mem : Type}.
Implicit Types (s : RobTimer C Mem).
Definition with_rob (x : CircularQueue (option RobEntry)) s : RobTimer C Mem :=
  mkRobTimer x (m_num_in_rob s) (m_rs_entries_used s) (m_rob_contention s) (now s) (frontend_stalled_until s)
    (in_icache_miss s) (last_store_done s) (load_queue s) (store_queue s) (nextSequenceNumber s) (will_skip s)
    (time_skipped s) (registerDependencies s) (memoryDependencies s) (r_cpi s) (m_cpiCurrentFrontEndStall s)
    (r_stats s) (r_trace s) (r_memory s).
Definition with_num_in_rob (x : Z) s : RobTimer C Mem :=
  mkRobTimer (rob s) x (m_rs_entries_used s) (m_rob_contention s) (now s) (frontend_stalled_until s)
    (in_icache_miss s) (last_store_done s) (load_queue s) (store_queue s) (nextSequenceNumber s) (will_skip s)
    (time_skipped s) (registerDependencies s) (memoryDependencies s) (r_cpi s) (m_cpiCurrentFrontEndStall s)
    (r_stats s) (r_trace s) (r_memory s).
Definition with_rs_entries_used (x : Z) s : RobTimer C Mem :=
  mkRobTimer (rob s) (m_num_in_rob s) x (m_rob_contention s) (now s) (frontend_stalled_until s) (in_icache_miss s)
    (last_store_done s) (load_queue s) (store_queue s) (nextSequenceNumber s) (will_skip s) (time_skipped s)
    (registerDependencies s) (memoryDependencies s) (r_cpi s) (m_cpiCurrentFrontEndStall s) (r_stats s) (r_trace s)
    (r_memory s).
Definition with_rob_contention (x : option C) s : RobTimer C Mem :=
  mkRobTimer (rob s) (m_num_in_rob s) (m_rs_entries_used s) x (now s) (frontend_stalled_until s) (in_icache_miss s)
    (last_store_done s) (load_queue s) (store_queue s) (nextSequenceNumber s) (will_skip s) (time_skipped s)
    (registerDependencies s) (memoryDependencies s) (r_cpi s) (m_cpiCurrentFrontEndStall s) (r_stats s) (r_trace s)
    (r_memory s).
Definition with_now (x : Z) s : RobTimer C Mem :=
  mkRobTimer (rob s) (m_num_in_rob s) (m_rs_entries_used s) (m_rob_contention s) x (frontend_stalled_until s)
    (in_icache_miss s) (last_store_done s) (load_queue s) (store_queue s) (nextSequenceNumber s) (will_skip s)
    (time_skipped s) (registerDependencies s) (memoryDependencies s) (r_cpi s) (m_cpiCurrentFrontEndStall s)
    (r_stats s) (r_trace s) (r_memory s).
Definition with_frontend_stalled_until (x : Z) s : RobTimer C Mem :=
  mkRobTimer (rob s) (m_num_in_rob s) (m_rs_entries_used s) (m_rob_contention s) (now s) x (in_icache_miss s)
    (last_store_done s) (load_queue s) (store_queue s) (nextSequenceNumber s) (will_skip s) (time_skipped s)
    (registerDependencies s) (memoryDependencies s) (r_cpi s) (m_cpiCurrentFrontEndStall s) (r_stats s) (r_trace s)
    (r_memory s).
Definition with_in_icache_miss (x : bool) s : RobTimer C Mem :=
  mkRobTimer (rob s) (m_num_in_rob s) (m_rs_entries_used s) (m_rob_contention s) (now s) (frontend_stalled_until s) x
    (last_store_done s) (load_queue s) (store_queue s) (nextSequenceNumber s) (will_skip s) (time_skipped s)
    (registerDependencies s) (memoryDependencies s) (r_cpi s) (m_cpiCurrentFrontEndStall s) (r_stats s) (r_trace s)
    (r_memory s).
Definition with_last_store_done (x : Z) s : RobTimer C Mem :=
  mkRobTimer (rob s) (m_num_in_rob s) (m_rs_entries_used s) (m_rob_contention s) (now s) (frontend_stalled_until s)
    (in_icache_miss s) x (load_queue s) (store_queue s) (nextSequenceNumber s) (will_skip s) (time_skipped s)
    (registerDependencies s) (memoryDependencies s) (r_cpi s) (m_cpiCurrentFrontEndStall s) (r_stats s) (r_trace s)
    (r_memory s).
Definition with_load_queue (x : ContentionModel) s : RobTimer C Mem :=
  mkRobTimer (rob s) (m_num_in_rob s) (m_rs_entries_used s) (m_rob_contention s) (now s) (frontend_stalled_until s)
    (in_icache_miss s) (last_store_done s) x (store_queue s) (nextSequenceNumber s) (will_skip s) (time_skipped s)
    (registerDependencies s) (memoryDependencies s) (r_cpi s) (m_cpiCurrentFrontEndStall s) (r_stats s) (r_trace s)
    (r_memory s).
Definition with_store_queue (x : ContentionModel) s : RobTimer C Mem :=
  mkRobTimer (rob s) (m_num_in_rob s) (m_rs_entries_used s) (m_rob_contention s) (now s) (frontend_stalled_until s)
    (in_icache_miss s) (last_store_done s) (load_queue s) x (nextSequenceNumber s) (will_skip s) (time_skipped s)
    (registerDependencies s) (memoryDependencies s) (r_cpi s) (m_cpiCurrentFrontEndStall s) (r_stats s) (r_trace s)
    (r_memory s).
Definition with_nextSequenceNumber (x : Z) s : RobTimer C Mem :=
  mkRobTimer (rob s) (m_num_in_rob s) (m_rs_entries_used s) (m_rob_contention s) (now s) (frontend_stalled_until s)
    (in_icache_miss s) (last_store_done s) (load_queue s) (store_queue s) x (will_skip s) (time_skipped s)
    (registerDependencies s) (memoryDependencies s) (r_cpi s) (m_cpiCurrentFrontEndStall s) (r_stats s) (r_trace s)
    (r_memory s).
Definition with_will_skip (x : bool) s : RobTimer C Mem :=
  mkRobTimer (rob s) (m_num_in_rob s) (m_rs_entries_used s) (m_rob_contention s) (now s) (frontend_stalled_until s)
    (in_icache_miss s) (last_store_done s) (load_queue s) (store_queue s) (nextSequenceNumber s) x (time_skipped s)
    (registerDependencies s) (memoryDependencies s) (r_cpi s) (m_cpiCurrentFrontEndStall s) (r_stats s) (r_trace s)
    (r_memory s).
Definition with_time_skipped (x : Z) s : RobTimer C Mem :=
  mkRobTimer (rob s) (m_num_in_rob s) (m_rs_entries_used s) (m_rob_contention s) (now s) (frontend_stalled_until s)
    (in_icache_miss s) (last_store_done s) (load_queue s) (store_queue s) (nextSequenceNumber s) (will_skip s) x
    (registerDependencies s) (memoryDependencies s) (r_cpi s) (m_cpiCurrentFrontEndStall s) (r_stats s) (r_trace s)
    (r_memory s).
Definition with_registerDependencies (x : RegisterDependencies) s : RobTimer C Mem :=
  mkRobTimer (rob s) (m_num_in_rob s) (m_rs_entries_used s) (m_rob_contention s) (now s) (frontend_stalled_until s)
    (in_icache_miss s) (last_store_done s) (load_queue s) (store_queue s) (nextSequenceNumber s) (will_skip s)
    (time_skipped s) x (memoryDependencies s) (r_cpi s) (m_cpiCurrentFrontEndStall s) (r_stats s) (r_trace s) (r_memory s).
Definition with_memoryDependencies (x : MemoryDependencies) s : RobTimer C Mem :=
  mkRobTimer (rob s) (m_num_in_rob s) (m_rs_entries_used s) (m_rob_contention s) (now s) (frontend_stalled_until s)
    (in_icache_miss s) (last_store_done s) (load_queue s) (store_queue s) (nextSequenceNumber s) (will_skip s)
    (time_skipped s) (registerDependencies s) x (r_cpi s) (m_cpiCurrentFrontEndStall s) (r_stats s) (r_trace s)
    (r_memory s).
Definition with_cpi (x : CpiStack) s : RobTimer C Mem :=
  mkRobTimer (rob s) (m_num_in_rob s) (m_rs_entries_used s) (m_rob_contention s) (now s) (frontend_stalled_until s)
    (in_icache_miss s) (last_store_done s) (load_queue s) (store_queue s) (nextSequenceNumber s) (will_skip s)
    (time_skipped s) (registerDependencies s) (memoryDependencies s) x (m_cpiCurrentFrontEndStall s) (r_stats s)
    (r_trace s) (r_memory s).
Definition with_cpiCurrentFrontEndStall (x : option cpi_component) s : RobTimer C Mem :=
  mkRobTimer (rob s) (m_num_in_rob s) (m_rs_entries_used s) (m_rob_contention s) (now s) (frontend_stalled_until s)
    (in_icache_miss s) (last_store_done s) (load_queue s) (store_queue s) (nextSequenceNumber s) (will_skip s)
    (time_skipped s) (registerDependencies s) (memoryDependencies s) (r_cpi s) x (r_stats s) (r_trace s) (r_memory s).
Definition with_stats (x : RobStats) s : RobTimer C Mem :=
  mkRobTimer (rob s) (m_num_in_rob s) (m_rs_entries_used s) (m_rob_contention s) (now s) (frontend_stalled_until s)
    (in_icache_miss s) (last_store_done s) (load_queue s) (store_queue s) (nextSequenceNumber s) (will_skip s)
    (time_skipped s) (registerDependencies s) (memoryDependencies s) (r_cpi s) (m_cpiCurrentFrontEndStall s) x
    (r_trace s) (r_memory s).
Definition with_trace (x : list (DynamicMicroOp * uop_times_t)) s : RobTimer C Mem :=
  mkRobTimer (rob s) (m_num_in_rob s) (m_rs_entries_used s) (m_rob_contention s) (now s) (frontend_stalled_until s)
    (in_icache_miss s) (last_store_done s) (load_queue s) (store_queue s) (nextSequenceNumber s) (will_skip s)
    (time_skipped s) (registerDependencies s) (memoryDependencies s) (r_cpi s) (m_cpiCurrentFrontEndStall s)
    (r_stats s) x (r_memory s).
Definition with_memory (x : Mem) s : RobTimer C Mem :=
  mkRobTimer (rob s) (m_num_in_rob s) (m_rs_entries_used s) (m_rob_contention s) (now s) (frontend_stalled_until s)
    (in_icache_miss s) (last_store_done s) (load_queue s) (store_queue s) (nextSequenceNumber s) (will_skip s)
    (time_skipped s) (registerDependencies s) (memoryDependencies s) (r_cpi s) (m_cpiCurrentFrontEndStall s)
    (r_stats s) (r_trace s) x.
End setters.

(** [init] of an entry *)
Definition RobEntry_init (d : DynamicMicroOp) (n : Z) : RobEntry :=
  mkEntry [] [] (setSequenceNumber n d) None MaxTime Zero MaxTime Zero MaxTime MaxTime.

Definition with_uop (d : DynamicMicroOp) (e : RobEntry) : RobEntry :=
  mkEntry (dependants e) (addressProducers e) d (dispatched e) (ready e) (readyMax e) (addressReady e)
    (addressReadyMax e) (issued e) (done e).
Definition with_ready (r m : Z) (e : RobEntry) : RobEntry :=
  mkEntry (dependants e) (addressProducers e) (re_uop e) (dispatched e) r m (addressReady e) (addressReadyMax e)
    (issued e) (done e).
Definition with_addressReady (r m : Z) (e : RobEntry) : RobEntry :=
  mkEntry (dependants e) (addressProducers e) (re_uop e) (dispatched e) (ready e) (readyMax e) r m (issued e) (done e).
Definition addDependant (p : nat) (e : RobEntry) : RobEntry :=
  mkEntry (dependants e ++ [p]) (addressProducers e) (re_uop e) (dispatched e) (ready e) (readyMax e) (addressReady e)
    (addressReadyMax e)
    (issued e) (done e).
Definition addAddressProducer (n : Z) (e : RobEntry) : RobEntry :=
  mkEntry (dependants e) (addressProducers e ++ [n]) (re_uop e) (dispatched e) (ready e) (readyMax e) (addressReady e)
    (addressReadyMax e)
    (issued e) (done e).
Definition with_dispatched (t r : Z) (e : RobEntry) : RobEntry :=
  mkEntry (dependants e) (addressProducers e) (re_uop e) (Some t) r (readyMax e) (addressReady e) (addressReadyMax e)
    (issued e) (done e).
Definition with_issued (i t : Z) (e : RobEntry) : RobEntry :=
  mkEntry (dependants e) (addressProducers e) (re_uop e) (dispatched e) (ready e) (readyMax e) (addressReady e)
    (addressReadyMax e) i t.

Section rob.
Context {C Mem : Type} `{!RobContention C} `{!CoreMemory Mem}.
Context (cfg : RobCfg) (period : Z).
Abbreviation M := (ST (RobTimer C Mem)).

(** [now] plus a number of cycles. *)
Definition cycles_from (t n : Z) : Z := st_add t (st_mul period n).

(** ** Access to entries *)

Definition entry (p : nat) : M RobEntry :=
  q ← gets rob;
  o ← lift_res (aget (cq_queue q) p);
  match o with Some e => mret e | None => fail NullDeref end.
Definition set_entry (p : nat) (e : RobEntry) : M unit := modify (fun s => with_rob (cq_set p (Some e) (rob s)) s).
Definition upd_entry (p : nat) (f : RobEntry -> RobEntry) : M unit := e ← entry p; set_entry p (f e).
(** [&rob[i]] and [&rob.at(i)] *)
Definition rob_get (i : Z) : M nat := q ← gets rob; mret (cq_slot q i).
Definition rob_at (i : Z) : M nat := q ← gets rob; _ ← assertM (i <? cq_length q); mret (cq_slot q i).
Definition rob_front : M RobEntry := q ← gets rob; _ ← assertM (negb (cq_empty q)); entry (Z.to_nat (cq_last q)).

Definition findEntryBySequenceNumber (n : Z) : M nat :=
  p0 ← rob_get 0;
  e0 ← entry p0;
  let position := u64 (n - sequenceNumber (re_uop e0)) in
  q ← gets rob;
  _ ← assertM (position <? cq_length q);
  p ← rob_get position;
  e ← entry p;
  _ ← assertM (sequenceNumber (re_uop e) =? n);
  mret p.

Definition upd_stats (f : RobStats -> RobStats) : M unit := modify (fun s => with_stats (f (r_stats s)) s).

(** ** A new micro-operation *)

(** The address registers of a store. *)
Fixpoint add_address_producers (p : nat) (lowest : Z) (regs : list xed_reg_enum_t) : M unit :=
  match regs with
  | [] => mret tt
  | reg :: regs =>
      rd ← gets registerDependencies;
      addressProducer ← lift_res (peekProducer (XED_REG_INVALID cfg) reg lowest rd);
      _ ← (if negb (addressProducer =? INVALID_SEQNR) then
             pp ← findEntryBySequenceNumber addressProducer;
             prodEntry ← entry pp;
             if negb (done prodEntry =? MaxTime)
             then upd_entry p (fun e => with_addressReady (addressReady e) (Z.max (addressReadyMax e) (done prodEntry)) e)
             else upd_entry p (addAddressProducer addressProducer)
           else mret tt);
      add_address_producers p lowest regs
  end.

Definition store_address (p : nat) (lowest : Z) : M unit :=
  e ← entry p;
  if isStore (m_uop (re_uop e)) then
    _ ← add_address_producers p lowest (addressRegisters (m_uop (re_uop e)));
    upd_entry p (fun e => if bool_decide (addressProducers e = []) then with_addressReady (addressReadyMax e)
    (addressReadyMax e) e else e)
  else mret tt.

Definition set_dependencies (p : nat) (lowest : Z) : M unit :=
  e ← entry p;
  rd ← gets registerDependencies;
  '(rd, d) ← lift_res (rd_setDependencies lowest rd (re_uop e));
  _ ← modify (with_registerDependencies rd);
  md ← gets memoryDependencies;
  '(md, d) ← lift_res (md_setDependencies lowest md d);
  _ ← modify (with_memoryDependencies md);
  set_entry p (with_uop d e).

Fixpoint add_dependencies (k : nat) (j : Z) (src d : DynamicMicroOp) : res DynamicMicroOp :=
  match k with
  | O => Ok d
  | S k => n ← getDependency j src; d ← addDependency n d; add_dependencies k (j + 1) src d
  end.

(** Store-to-load forwarding, from dependency [i] on; [k] dependencies are left to look at. *)
Fixpoint forward_store (k : nat) (i : Z) (p : nat) : M unit :=
  match k with
  | O => mret tt
  | S k =>
      e ← entry p;
      n ← lift_res (getDependency i (re_uop e));
      pp ← findEntryBySequenceNumber n;
      prodEntry ← entry pp;
      if isStore (m_uop (re_uop prodEntry)) then
        d ← lift_res (removeDependency n (re_uop e));
        d ← lift_res (add_dependencies (Z.to_nat (getDependenciesLength (re_uop prodEntry))) 0 (re_uop prodEntry) d);
        set_entry p (with_uop d e)
      else forward_store k (i + 1) p
  end.

Definition forwarding (p : nat) : M unit :=
  e ← entry p;
  if m_store_to_load_forwarding cfg && isLoad (m_uop (re_uop e))
  then forward_store (Z.to_nat (getDependenciesLength (re_uop e))) 0 p
  else mret tt.

(** The loop over the dependencies: returns the least distance to a producer and the dependencies that are to be
    removed, which go to an array of eight. *)
Fixpoint link_producers (k : nat) (i : Z) (p : nat) (minProducerDistance : Z) (deps_to_remove : list Z) : M (Z * list Z) :=
  match k with
  | O => mret (minProducerDistance, deps_to_remove)
  | S k =>
      e ← entry p;
      n ← lift_res (getDependency i (re_uop e));
      pp ← findEntryBySequenceNumber n;
      prodEntry ← entry pp;
      let dist := Z.min minProducerDistance (u64 (sequenceNumber (re_uop e) - sequenceNumber (re_uop prodEntry))) in
      if negb (done prodEntry =? MaxTime) then
        _ ← (if (length deps_to_remove <? 8)%nat then mret tt else fail OutOfBounds);
        _ ← set_entry p (with_ready (ready e) (Z.max (readyMax e) (done prodEntry)) e);
        link_producers k (i + 1) p dist (deps_to_remove ++ [n])
      else
        _ ← set_entry pp (addDependant p prodEntry);
        link_producers k (i + 1) p dist deps_to_remove
  end.

Definition count_distance (minProducerDistance : Z) : M unit :=
  t ← gets r_stats;
  if negb (minProducerDistance =? 2 ^ 64 - 1) then
    let size := Z.of_nat (length (m_producerInsDistance t)) in
    let i := Z.to_nat (if size <=? minProducerDistance then u64 (size - 1) else minProducerDistance) in
    x ← lift_res (aget (m_producerInsDistance t) i);
    upd_stats (fun t => mkRobStats (m_uop_type_count t) (m_uops_total t) (m_uops_x87 t) (m_uops_pause t)
    (m_loads_count t) (m_loads_latency t) (m_stores_count t) (m_stores_latency t) (u64
    (m_totalProducerInsDistance t + minProducerDistance)) (m_totalConsumers t) (<[i := u64 (x + 1)]>
    (m_producerInsDistance t)) (m_outstandingLongLatencyInsns t) (m_outstandingLongLatencyCycles t)
    (m_lastAccountedMemoryCycle t) (m_outstandingLoads t) (m_outstandingLoadsAll t))
  else
    x ← lift_res (aget (m_producerInsDistance t) 0);
    upd_stats (fun t => mkRobStats (m_uop_type_count t) (m_uops_total t) (m_uops_x87 t) (m_uops_pause t)
    (m_loads_count t) (m_loads_latency t) (m_stores_count t) (m_stores_latency t) (m_totalProducerInsDistance t)
    (m_totalConsumers t) (<[0%nat := u64 (x + 1)]> (m_producerInsDistance t)) (m_outstandingLongLatencyInsns t)
    (m_outstandingLongLatencyCycles t) (m_lastAccountedMemoryCycle t) (m_outstandingLoads t) (m_outstandingLoadsAll t)).

Fixpoint remove_dependencies (l : list Z) (d : DynamicMicroOp) : res DynamicMicroOp :=
  match l with
  | [] => Ok d
  | n :: l => d ← removeDependency n d; remove_dependencies l d
  end.

Definition count_uop (u : MicroOp) : M unit :=
  upd_stats (fun t => mkRobStats (alter (fun x => u64 (x + 1)) (subtype_index (uop_subtype u)) (m_uop_type_count t))
    (u64 (m_uops_total t + 1)) (if is_x87 u then u64 (m_uops_x87 t + 1) else m_uops_x87 t) (if isPause u then u64
    (m_uops_pause t + 1) else m_uops_pause t) (m_loads_count t) (m_loads_latency t) (m_stores_count t)
    (m_stores_latency t) (m_totalProducerInsDistance t) (m_totalConsumers t) (m_producerInsDistance t)
    (m_outstandingLongLatencyInsns t) (m_outstandingLongLatencyCycles t) (m_lastAccountedMemoryCycle t)
    (m_outstandingLoads t) (m_outstandingLoadsAll t)).

(** The body of the loop of [simulate]. *)
Definition enqueue (d : DynamicMicroOp) : M unit :=
  if squashed d then mret tt
  else
    q ← gets rob;
    '(p, q) ← lift_res (cq_next q);
    n ← gets nextSequenceNumber;
    _ ← modify (fun s => with_nextSequenceNumber (u64 (n + 1)) (with_rob (cq_set p (Some (RobEntry_init d n)) q) s));
    lowestValidSequenceNumber ← (if 0 <? cq_length q then f ← rob_front; mret (sequenceNumber (re_uop f)) else mret 0);
    _ ← store_address p lowestValidSequenceNumber;
    _ ← set_dependencies p lowestValidSequenceNumber;
    _ ← forwarding p;
    _ ← upd_stats (fun t => mkRobStats (m_uop_type_count t) (m_uops_total t) (m_uops_x87 t) (m_uops_pause t)
    (m_loads_count t) (m_loads_latency t) (m_stores_count t) (m_stores_latency t) (m_totalProducerInsDistance t) (u64
    (m_totalConsumers t + 1)) (m_producerInsDistance t) (m_outstandingLongLatencyInsns t)
    (m_outstandingLongLatencyCycles t) (m_lastAccountedMemoryCycle t) (m_outstandingLoads t) (m_outstandingLoadsAll t));
    e ← entry p;
    '(minProducerDistance, deps_to_remove) ←
      link_producers (Z.to_nat (getDependenciesLength (re_uop e))) 0 p (2 ^ 64 - 1) [];
    _ ← count_distance minProducerDistance;
    _ ← assertM (length deps_to_remove <? 16)%nat;
    e ← entry p;
    d ← lift_res (remove_dependencies deps_to_remove (re_uop e));
    _ ← set_entry p (if getDependenciesLength d =? 0 then with_ready (readyMax e) (readyMax e)
    (with_uop d e) else with_uop d e);
    count_uop (m_uop d).

(** ** Dispatch *)

(** The component of the first entry from [i] on that is not done; [n] entries are left. *)
Fixpoint findCpiComponent (n : nat) (i : Z) : M (option cpi_component) :=
  match n with
  | O => mret None
  | S n =>
      p ← rob_at i;
      e ← entry p;
      t ← gets now;
      if done e <? t then findCpiComponent n (i + 1)
      else
        let u := m_uop (re_uop e) in
        mret (if serializing u || m_membar u then Some CpiSerialization
              else if isLoad u || isStore u then Some (CpiDataCache (dCacheHitWhere (re_uop e)))
              else None)
  end.

(** The loop of [doDispatch]: [n] entries fit into the window; returns the next event and why the front end stalls. *)
Fixpoint dispatch_loop (n : nat) (uops_dispatched next_event : Z) : M (Z * option cpi_component) :=
  match n with
  | O => mret (next_event, None)
  | S n =>
      s ← gets id;
      _ ← assertM (m_num_in_rob s <? cq_length (rob s));
      p ← rob_at (m_num_in_rob s);
      e ← entry p;
      if uops_dispatched =? dispatchWidth cfg then mret (next_event, None)
      else
        let iCacheMiss := negb (iCacheHitWhere (re_uop e) =? HW_L1I) in
        if iCacheMiss && negb (in_icache_miss s) then
          _ ← modify (fun s => with_in_icache_miss true (with_frontend_stalled_until (cycles_from (now s)
    (iCacheLatency (re_uop e))) s));
          mret (next_event, Some (CpiInstructionCache (iCacheHitWhere (re_uop e))))
        else
          _ ← (if iCacheMiss then modify (with_in_icache_miss false) else mret tt);
          if m_rs_entries_used s =? rsEntries cfg then mret (next_event, Some CpiRSFull)
          else
            let r := Z.max (ready e) (cycles_from (now s) 1) in
            _ ← set_entry p (with_dispatched (now s) r e);
            _ ← modify (fun s => with_rs_entries_used (u64 (m_rs_entries_used s + 1)) (with_num_in_rob (u64
    (m_num_in_rob s + 1)) s));
            let next_event := Z.min next_event r in
            mispredicted ← (if uo_branch (m_uop (re_uop e)) then lift_res (isBranchMispredicted
    (re_uop e)) else mret false);
            if (mispredicted : bool) then
              _ ← modify (with_frontend_stalled_until MaxTime);
              mret (next_event, Some CpiBranchPredictor)
            else dispatch_loop n (u32 (uops_dispatched + 1)) next_event
  end.

Definition doDispatch : M (Z * cpi_component) :=
  s ← gets id;
  '(next_event, cpiFrontEnd) ←
    (if frontend_stalled_until s <=? now s then
       '(next_event, cpi) ← dispatch_loop (Z.to_nat (windowSize cfg - m_num_in_rob s)) 0 MaxTime;
       _ ← modify (with_cpiCurrentFrontEndStall cpi);
       mret (next_event, cpi)
     else mret (MaxTime, m_cpiCurrentFrontEndStall s));
  s ← gets id;
  cpiRobHead ← findCpiComponent (Z.to_nat (m_num_in_rob s)) 0;
  let full := m_num_in_rob s =? windowSize cfg in
  let cpiComponent :=
    match cpiFrontEnd with
    | Some f => default f cpiRobHead
    | None => if full then default CpiBase cpiRobHead else CpiBase
    end in
  mret (if full then next_event else Z.min (frontend_stalled_until s) next_event, cpiComponent).

(** ** Issue *)

(** The address producers of a store that depends on the entry in slot [p]: returns the store's
    [addressReadyMax] and whether all of them have been issued. *)
Fixpoint check_address (p : nat) (cycle_depend : Z) (producers : list Z) (addressReadyMax : Z) (is_ready : bool) : M
    (Z * bool) :=
  match producers with
  | [] => mret (addressReadyMax, is_ready)
  | n :: producers =>
      f ← rob_front;
      if sequenceNumber (re_uop f) <=? n then
        pp ← findEntryBySequenceNumber n;
        prodEntry ← entry pp;
        check_address p cycle_depend producers
          (if bool_decide (pp = p) then Z.max addressReadyMax cycle_depend else addressReadyMax)
          (if done prodEntry =? MaxTime then false else is_ready)
      else check_address p cycle_depend producers addressReadyMax is_ready
  end.

Definition wake_dependant (p : nat) (seqnr cycle_depend : Z) (dep : nat) : M unit :=
  e ← entry dep;
  _ ← assertM (0 <? getDependenciesLength (re_uop e));
  let m := Z.max (readyMax e) cycle_depend in
  d ← lift_res (removeDependency seqnr (re_uop e));
  _ ← set_entry dep (with_ready (if getDependenciesLength d =? 0 then m else ready e) m (with_uop d e));
  if isStore (m_uop d) && (addressReady e =? MaxTime) then
    '(am, is_ready) ← check_address p cycle_depend (addressProducers e) (addressReadyMax e) true;
    upd_entry dep (with_addressReady (if (is_ready : bool) then am else addressReady e) am)
  else mret tt.

Fixpoint wake_dependants (p : nat) (seqnr cycle_depend : Z) (l : list nat) : M unit :=
  match l with
  | [] => mret tt
  | dep :: l => _ ← wake_dependant p seqnr cycle_depend dep; wake_dependants p seqnr cycle_depend l
  end.

Definition access_memory (p : nat) : M unit :=
  e ← entry p;
  let u := m_uop (re_uop e) in
  if (isLoad u || isStore u) && (dCacheHitWhere (re_uop e) =? HitWhere_UNKNOWN) then
    s ← gets id;
    '(latency, hit_where, m) ←
      lift_res (accessMemory (negb (isLoad u)) (d_address (re_uop e)) (memoryAccessSize u) (default 0
    (uo_instruction u)) (now s) (r_memory s));
    cycles ← lift_res (divideRounded latency period);
    _ ← modify (with_memory m);
    set_entry p (with_uop (MicroOp.with_memory (d_address (re_uop e)) (execLatency (re_uop e) + cycles) hit_where
    (re_uop e)) e)
  else mret tt.

Definition use_queues (d : DynamicMicroOp) : M unit :=
  s ← gets id;
  let latency := st_mul (execLatency d) period in
  if isLoad (m_uop d) then
    '(_, c) ← lift_res (getCompletionTime (load_queue s) (now s) latency (d_address d));
    _ ← modify (with_load_queue c);
    upd_stats (fun t => mkRobStats (m_uop_type_count t) (m_uops_total t) (m_uops_x87 t) (m_uops_pause t) (u64
    (m_loads_count t + 1)) (st_add (m_loads_latency t) latency) (m_stores_count t) (m_stores_latency t)
    (m_totalProducerInsDistance t) (m_totalConsumers t) (m_producerInsDistance t) (m_outstandingLongLatencyInsns t)
    (m_outstandingLongLatencyCycles t) (m_lastAccountedMemoryCycle t) (m_outstandingLoads t) (m_outstandingLoadsAll t))
  else if isStore (m_uop d) then
    '(_, c) ← lift_res (getCompletionTime (store_queue s) (now s) latency (d_address d));
    _ ← modify (with_store_queue c);
    upd_stats (fun t => mkRobStats (m_uop_type_count t) (m_uops_total t) (m_uops_x87 t) (m_uops_pause t)
    (m_loads_count t) (m_loads_latency t) (u64 (m_stores_count t + 1)) (st_add (m_stores_latency t) latency)
    (m_totalProducerInsDistance t) (m_totalConsumers t) (m_producerInsDistance t) (m_outstandingLongLatencyInsns t)
    (m_outstandingLongLatencyCycles t) (m_lastAccountedMemoryCycle t) (m_outstandingLoads t) (m_outstandingLoadsAll t))
  else mret tt.

Definition issueInstruction (idx next_event : Z) : M Z :=
  p ← rob_get idx;
  _ ← access_memory p;
  e ← entry p;
  let d := re_uop e in
  let u := m_uop d in
  _ ← use_queues d;
  t ← gets now;
  let cycle_depend := cycles_from t (execLatency d) in
  let cycle_done := cycles_from cycle_depend 1 in
  '(cycle_depend, cycle_done) ←
    (if isStore u then
       _ ← modify (fun s => with_last_store_done (Z.max (last_store_done s) cycle_done) s);
       _ ← assertM (addressReady e <=? ready e);
       mret (cycles_from t 1, cycles_from t 1)
     else mret (cycle_depend, cycle_done));
  c ← gets m_rob_contention;
  _ ← match c with Some c => c ← lift_res (doIssue period d c); modify (with_rob_contention (Some c)) | None => mret tt end;
  _ ← set_entry p (with_issued t cycle_done e);
  _ ← modify (fun s => with_rs_entries_used (u64 (m_rs_entries_used s - 1)) s);
  _ ← wake_dependants p (sequenceNumber d) cycle_depend (dependants e);
  mispredicted ← (if uo_branch u then lift_res (isBranchMispredicted d) else mret false);
  _ ← (if (mispredicted : bool)
       then modify (with_frontend_stalled_until (cycles_from t (u64 (misprediction_penalty cfg - 2))))
       else mret tt);
  mret (Z.min next_event cycle_done).

(** Memory-level parallelism of long loads. *)
Definition account_memory (e : RobEntry) : M unit :=
  if isLoad (m_uop (re_uop e)) then
    long ← lift_res (isLongLatencyLoad (lll_cutoff cfg) (re_uop e));
    if (long : bool) && negb (dCacheHitWhere (re_uop e) =? HW_L1_OWN) then
      t0 ← gets now;
      let dn := Z.max t0 (done e) in
      upd_stats (fun t =>
        let last := Z.max (m_lastAccountedMemoryCycle t) t0 in
        mkRobStats (m_uop_type_count t) (m_uops_total t) (m_uops_x87 t) (m_uops_pause t) (m_loads_count t)
    (m_loads_latency t) (m_stores_count t) (m_stores_latency t) (m_totalProducerInsDistance t) (m_totalConsumers t)
    (m_producerInsDistance t) (st_add (m_outstandingLongLatencyInsns t) (st_sub dn t0)) (if last <? dn then st_add
    (m_outstandingLongLatencyCycles t) (st_sub dn last) else m_outstandingLongLatencyCycles t) (Z.max last dn)
    (m_outstandingLoads t) (m_outstandingLoadsAll t))
    else mret tt
  else mret tt.

Definition load_slot_free : M bool :=
  s ← gets id;
  let '(b, c) := hasFreeSlot (load_queue s) (now s) (2 ^ 64 - 1) in
  _ ← modify (with_load_queue c); mret b.
Definition store_slot_free : M bool :=
  s ← gets id;
  let '(b, c) := hasFreeSlot (store_queue s) (now s) (2 ^ 64 - 1) in
  _ ← modify (with_store_queue c); mret b.

(** What [doIssue] keeps while it walks the reorder buffer. *)
Record IssueState := mkIssue {
  num_issued : Z; head_of_queue : bool; no_more_load : bool; no_more_store : bool; have_unresolved_store : bool; i_next_event : 
   Z
}.

Inductive issue_decision := Issue | Wait | WaitFence | Stop.

(** The chain of conditions, without the ports. *)
Definition can_issue (k : IssueState) (e : RobEntry) : M issue_decision :=
  s ← gets id;
  let u := m_uop (re_uop e) in
  if now s <? ready e then mret Wait
  else if (no_more_load k && isLoad u) || (no_more_store k && isStore u) then mret Wait
  else if serializing u then mret (if head_of_queue k && (last_store_done s <=? now s) then Issue else Stop)
  else if m_membar u then mret (if head_of_queue k && (last_store_done s <=? now s) then Issue else WaitFence)
  else if bool_decide (m_rob_contention s = None) && (num_issued k =? dispatchWidth cfg) then mret Wait
  else
    load_free ← (if isLoad u then load_slot_free else mret true);
    if negb (load_free : bool) then mret Wait
    else if isLoad u && m_no_address_disambiguation cfg && have_unresolved_store k then mret Wait
    else
      store_free ← (if isStore u then (if head_of_queue k then store_slot_free else mret false) else mret true);
      mret (if (store_free : bool) then Issue else Wait).

Definition try_port (d : DynamicMicroOp) (r : issue_decision) : M issue_decision :=
  c ← gets m_rob_contention;
  match r, c with
  | Issue, Some c =>
      '(b, c) ← lift_res (tryIssue d c);
      _ ← modify (with_rob_contention (Some c));
      mret (if (b : bool) then Issue else Wait)
  | _, _ => mret r
  end.

(** The loop of [doIssue] at entry [i], with [n] entries left. *)
Fixpoint issue_loop (n : nat) (i : Z) (k : IssueState) : M Z :=
  match n with
  | O => mret (i_next_event k)
  | S n =>
      p ← rob_at i;
      e ← entry p;
      if negb (done e =? MaxTime) then
        issue_loop n (i + 1) (mkIssue (num_issued k) (head_of_queue k) (no_more_load k) (no_more_store k)
    (have_unresolved_store k)
                                (Z.min (i_next_event k) (done e)))
      else
        let next_event := Z.min (i_next_event k) (ready e) in
        r ← can_issue k e;
        r ← try_port (re_uop e) r;
        match r with
        | Stop => mret next_event
        | Issue =>
            next_event ← issueInstruction i next_event;
            e ← entry p;
            _ ← account_memory e;
            c ← gets m_rob_contention;
            let stop := match c with Some c => noMore c | None => num_issued k + 1 =? dispatchWidth cfg end in
            if stop then mret next_event
            else issue_loop n (i + 1) (mkIssue (num_issued k + 1) (head_of_queue k) (no_more_load k) (no_more_store k)
    (have_unresolved_store k) next_event)
        | _ =>
            let fence := match r with WaitFence => true | _ => false end in
            t ← gets now;
            c ← gets m_rob_contention;
            let stop := match c with Some c => noMore c | None => num_issued k =? dispatchWidth cfg end in
            if inorder cfg || stop then mret next_event
            else issue_loop n (i + 1)
                   (mkIssue (num_issued k) false (no_more_load k || fence) (no_more_store k || fence)
                      (have_unresolved_store k || (isStore (m_uop (re_uop e)) && (t <? addressReady e))) next_event)
        end
  end.

Definition doIssue_rob : M Z :=
  _ ← modify (fun s => match m_rob_contention s with Some c => with_rob_contention (Some (initCycle
    (now s) c)) s | None => s end);
  s ← gets id;
  issue_loop (Z.to_nat (m_num_in_rob s)) 0 (mkIssue 0 true false false false MaxTime).

(** ** Commit *)

(** [n] entries are in the queue; returns the number of instructions completed. *)
Fixpoint commit_loop (n : nat) (num_committed instructionsExecuted : Z) : M Z :=
  match n with
  | O => mret instructionsExecuted
  | S n =>
      e ← rob_front;
      s ← gets id;
      if now s <? done e then mret instructionsExecuted
      else
        '(_, q) ← lift_res (cq_pop (cq_set (Z.to_nat (cq_last (rob s))) None (rob s)));
        _ ← modify (fun s => with_num_in_rob (u64 (m_num_in_rob s - 1)) (with_rob q
                     (with_trace (r_trace s ++ [(re_uop e, mkTimes (dispatched e) (issued e) (done e) (now s))]) s)));
        let instructionsExecuted := if d_last (re_uop e) then u64 (instructionsExecuted + 1) else instructionsExecuted in
        if num_committed + 1 =? commitWidth cfg then mret instructionsExecuted
        else commit_loop n (num_committed + 1) instructionsExecuted
  end.

Definition doCommit : M (Z * Z) :=
  q ← gets rob;
  ins ← commit_loop (Z.to_nat (cq_length q)) 0 0;
  q ← gets rob;
  if cq_empty q then mret (ins, MaxTime) else f ← rob_front; mret (ins, done f).

(** ** Cycles *)

Definition cpi_add (c : cpi_component) (t : Z) (k : CpiStack) : res CpiStack :=
  match c with
  | CpiBase => Ok (mkCpi (st_add (m_cpiBase k) t) (m_cpiBranchPredictor k) (m_cpiSerialization k) (m_cpiRSFull k)
    (m_cpiInstructionCache k) (m_cpiDataCache k))
  | CpiBranchPredictor => Ok (mkCpi (m_cpiBase k) (st_add (m_cpiBranchPredictor k) t) (m_cpiSerialization k)
    (m_cpiRSFull k) (m_cpiInstructionCache k) (m_cpiDataCache k))
  | CpiSerialization => Ok (mkCpi (m_cpiBase k) (m_cpiBranchPredictor k) (st_add (m_cpiSerialization k) t)
    (m_cpiRSFull k) (m_cpiInstructionCache k) (m_cpiDataCache k))
  | CpiRSFull => Ok (mkCpi (m_cpiBase k) (m_cpiBranchPredictor k) (m_cpiSerialization k) (st_add (m_cpiRSFull k) t)
    (m_cpiInstructionCache k) (m_cpiDataCache k))
  | CpiInstructionCache h =>
      x ← aget (m_cpiInstructionCache k) (Z.to_nat h);
      Ok (mkCpi (m_cpiBase k) (m_cpiBranchPredictor k) (m_cpiSerialization k) (m_cpiRSFull k)
    (<[Z.to_nat h := st_add x t]> (m_cpiInstructionCache k)) (m_cpiDataCache k))
  | CpiDataCache h =>
      x ← aget (m_cpiDataCache k) (Z.to_nat h);
      Ok (mkCpi (m_cpiBase k) (m_cpiBranchPredictor k) (m_cpiSerialization k) (m_cpiRSFull k)
    (m_cpiInstructionCache k) (<[Z.to_nat h := st_add x t]> (m_cpiDataCache k)))
  end.

(** The loads in flight, by the place of the hit. *)
Fixpoint count_loads (n : nat) (i : Z) (counts : list Z) (total : Z) : M (list Z * Z) :=
  match n with
  | O => mret (counts, total)
  | S n =>
      p ← rob_at i;
      e ← entry p;
      t ← gets now;
      if negb (done e =? MaxTime) && (t <? done e) && isLoad (m_uop (re_uop e)) then
        let h := Z.to_nat (dCacheHitWhere (re_uop e)) in
        x ← lift_res (aget counts h);
        count_loads n (i + 1) (<[h := x + 1]> counts) (total + 1)
      else count_loads n (i + 1) counts total
  end.

Definition bucket (count : Z) : nat := if Z.of_nat MAX_OUTSTANDING <=? count then
    (MAX_OUTSTANDING - 1)%nat else Z.to_nat count.
Definition add_at (i : nat) (t : Z) (l : list Z) : res (list Z) := x ← aget l i; Ok (<[i := st_add x t]> l).
Fixpoint add_outstanding (h : nat) (counts : list Z) (time : Z) (l : list (list Z)) : res (list (list Z)) :=
  match counts with
  | [] => Ok l
  | c :: counts =>
      l ← (if 0 <? c then v ← aget l h; v ← add_at (bucket c) time v; Ok (<[h := v]> l) else Ok l);
      add_outstanding (S h) counts time l
  end.

Definition countOutstandingMemop (time : Z) : M unit :=
  s ← gets id;
  '(counts, total) ← count_loads (Z.to_nat (m_num_in_rob s)) 0 (replicate NUM_HITWHERES 0) 0;
  t ← gets r_stats;
  l ← lift_res (add_outstanding 0 counts time (m_outstandingLoads t));
  a ← lift_res (if 0 <? total then add_at (bucket total) time (m_outstandingLoadsAll t) else Ok (m_outstandingLoadsAll t));
  upd_stats (fun t => mkRobStats (m_uop_type_count t) (m_uops_total t) (m_uops_x87 t) (m_uops_pause t)
    (m_loads_count t) (m_loads_latency t) (m_stores_count t) (m_stores_latency t) (m_totalProducerInsDistance t)
    (m_totalConsumers t) (m_producerInsDistance t) (m_outstandingLongLatencyInsns t)
    (m_outstandingLongLatencyCycles t) (m_lastAccountedMemoryCycle t) l a).

(** Returns the number of instructions completed and the time that has passed. *)
Definition execute : M (Z * Z) :=
  s ← gets id;
  if (frontend_stalled_until s <=? now s) && (cq_length (rob s) <? u64
    (m_num_in_rob s + 2 * dispatchWidth cfg)) then mret (0, Zero)
  else
    '(next_dispatch, cpiComponent) ← doDispatch;
    next_issue ← doIssue_rob;
    '(instructionsExecuted, next_commit) ← doCommit;
    let next_event := Z.min next_dispatch (Z.min next_issue next_commit) in
    t ← gets now;
    let skipping := negb (next_event =? MaxTime) && (cycles_from t 1 <? next_event) in
    let skip := if skipping then st_sub next_event t else period in
    _ ← modify (fun s => with_time_skipped (if period <? skip then st_add (time_skipped s)
    (st_sub skip period) else time_skipped s)
                           (with_now (st_add (now s) skip) (with_will_skip skipping s)));
    _ ← (if m_mlp_histogram cfg then countOutstandingMemop skip else mret tt);
    k ← gets r_cpi;
    k ← lift_res (cpi_add cpiComponent (st_add Zero skip) k);
    _ ← modify (with_cpi k);
    mret (instructionsExecuted, st_add Zero skip).

Fixpoint enqueue_all (insts : list DynamicMicroOp) : M unit :=
  match insts with
  | [] => mret tt
  | d :: insts => _ ← enqueue d; enqueue_all insts
  end.

(** The loop of [simulate]; [fuel] bounds the number of calls of [execute]. *)
Fixpoint run_cycles (fuel : nat) (totalInsnExec totalLat : Z) : M (Z * Z) :=
  match fuel with
  | O => fail OutOfFuel
  | S fuel =>
      '(n, latency) ← execute;
      let totalInsnExec := u64 (totalInsnExec + n) in
      let totalLat := st_add totalLat latency in
      if latency =? Zero then mret (totalInsnExec, totalLat) else run_cycles fuel totalInsnExec totalLat
  end.

Definition simulate (fuel : nat) (insts : list DynamicMicroOp) : M (Z * Z) :=
  _ ← enqueue_all insts;
  run_cycles fuel 0 Zero.

Definition synchronize (time : Z) : M unit := modify (with_now time).
End rob.
