(* ===== verification/RobInvariant.v ===== *)
(** * The invariant of the reorder buffer

    What holds of the entries of the reorder buffer ([EntInv]), of the whole state ([Inv]), and that
    every operation of RobTimer keeps it and succeeds.  [E] gives the entry of every sequence number;
    those from [lo] on are in the buffer. *)

From stdpp Require Import sets functions.
From S2P Require Import Prelude StateMonad SubsecondTime ContentionModel CircularQueue MicroOp MicroOpFacts CoreModelNehalem RobTimer.
From Stdlib Require Import Permutation.
#[local] Open Scope Z_scope.

Abbreviation occ := (count_occ Z.eq_dec).
Abbreviation occ_nat := (count_occ Nat.eq_dec).
Abbreviation deps_of e := (udeps (re_uop e)).
Abbreviation uop_of e := (m_uop (re_uop e)).

(** ** Entries *)

(** [p] is an entry that is being issued, whose dependants in the slots [l] have not been told yet; [-1] when there is none. *)
Record EntInv (slot : Z -> nat) (lo hi : Z) (E : Z -> RobEntry) (p : Z) (l : list nat) : Prop := {
  ei_uop : forall n, lo <= n < hi -> uop_ok (re_uop (E n)) /\ sequenceNumber (re_uop (E n)) = n;
  ei_deps : forall n d, lo <= n < hi -> d ∈ deps_of (E n) -> lo <= d < n /\ (done (E d) = MaxTime \/ d = p);
  ei_issued : forall n, lo <= n < hi -> done (E n) <> MaxTime -> deps_of (E n) = [];
  ei_dependants : forall q, lo <= q < hi -> done (E q) = MaxTime ->
    (forall n, q < n < hi -> occ_nat (dependants (E q)) (slot n) = occ (deps_of (E n)) q) /\
    (forall x, x ∈ dependants (E q) -> exists n, q < n < hi /\ x = slot n);
  ei_waking : lo <= p -> done (E p) <> MaxTime /\ (forall n, p < n < hi -> occ (deps_of (E n)) p = occ_nat l (slot n)) /\
    (forall x, x ∈ l -> exists n, p < n < hi /\ x = slot n);
  ei_ready : forall n, lo <= n < hi -> done (E n) = MaxTime ->
    0 <= readyMax (E n) < MaxTime /\ (deps_of (E n) = [] -> readyMax (E n) <= ready (E n) < MaxTime) /\
    (deps_of (E n) <> [] -> ready (E n) = MaxTime);
  ei_store : forall n, lo <= n < hi -> done (E n) = MaxTime -> isStore (uop_of (E n)) = true ->
    addressReadyMax (E n) <= readyMax (E n) /\
    (forall a, a ∈ addressProducers (E n) -> 0 <= a < n /\ (lo <= a -> done (E a) = MaxTime -> a ∈ deps_of (E n))) /\
    (addressReady (E n) = addressReadyMax (E n) \/
     (addressReady (E n) = MaxTime /\
      exists a, a ∈ addressProducers (E n) /\ lo <= a /\ (done (E a) = MaxTime \/ (a = p /\ p ∈ deps_of (E n)))))
}.

(** Two entries that have the same state in the pipeline and the same micro-operation up to dependencies. *)
Record stable (e e' : RobEntry) : Prop := {
  st_uop : same_uop (re_uop e) (re_uop e');
  st_done : done e' = done e;
  st_issued : issued e' = issued e;
  st_dispatched : dispatched e' = dispatched e
}.

Section entries.
Context (slot : Z -> nat) (lo hi : Z).
Implicit Types (E : Z -> RobEntry).

Lemma stable_refl e : stable e e.
Proof. split; done. Qed.
Lemma stable_trans e1 e2 e3 : stable e1 e2 -> stable e2 e3 -> stable e1 e3.
Proof. intros [] []. split; [by etrans|congruence..]. Qed.
#[local] Instance stable_preorder : PreOrder stable.
Proof. split; [exact stable_refl|exact stable_trans]. Qed.

Lemma same_uop_m d d' : same_uop d d' -> m_uop d' = m_uop d.
Proof. by intros ->. Qed.

Lemma EntInv_ext E E' p l : (forall n, lo <= n < hi -> E' n = E n) -> EntInv slot lo hi E p l -> (lo <= p -> p < hi) -> EntInv slot lo hi E' p l.
Proof.
  intros H [] Hp. split.
  - intros n Hn. rewrite (H n Hn). auto.
  - intros n d Hn Hd. rewrite (H n Hn) in Hd. destruct (ei_deps0 n d Hn Hd) as [? ?]. rewrite (H d) by lia. auto.
  - intros n Hn. rewrite (H n Hn). auto.
  - intros q Hq. rewrite (H q Hq). intros Hu. destruct (ei_dependants0 q Hq Hu) as [H1 H2]. split; [|done].
    intros n Hn. rewrite (H n) by lia. auto.
  - intros Hle. specialize (Hp Hle). destruct (ei_waking0 Hle) as (? & H1 & ?). rewrite (H p) by lia. split_and!; try done.
    intros n Hn. rewrite (H n) by lia. auto.
  - intros n Hn. rewrite (H n Hn). auto.
  - intros n Hn. rewrite (H n Hn). intros Hu Hs. destruct (ei_store0 n Hn Hu Hs) as (H1 & H2 & H3). split_and!; [done| |].
    + intros a Ha. destruct (H2 a Ha) as [? H4]. split; [done|]. intros Hle. rewrite (H a) by lia. auto.
    + destruct H3 as [?|(? & a & Ha & Hle & H3)]; [by left|]. right. split; [done|]. exists a. split_and!; try done.
      destruct (H2 a Ha). rewrite (H a) by lia. done.
Qed.

(** ** An entry is dispatched *)

Lemma EntInv_dispatch E n t r : lo <= n < hi -> EntInv slot lo hi E (-1) [] -> 0 <= lo -> done (E n) = MaxTime ->
  (deps_of (E n) = [] -> ready (E n) <= r < MaxTime) -> (deps_of (E n) <> [] -> r = MaxTime) ->
  EntInv slot lo hi (<[n := with_dispatched t r (E n)]> E) (-1) [].
Proof.
  intros Hn HE H0 Hu Hr1 Hr2.
  assert (HX : forall m, exists e, (<[n := with_dispatched t r (E n)]> E) m = e /\ done e = done (E m) /\ re_uop e = re_uop (E m) /\
    dependants e = dependants (E m) /\ readyMax e = readyMax (E m) /\ addressProducers e = addressProducers (E m) /\
    addressReady e = addressReady (E m) /\ addressReadyMax e = addressReadyMax (E m) /\ (ready e = ready (E m) \/ (m = n /\ ready e = r))).
  { intros m. exists (<[n := with_dispatched t r (E n)]> E m). split; [done|]. destruct (decide (m = n)) as [->|Hne].
    - rewrite fn_lookup_insert. cbn. split_and!; auto.
    - rewrite fn_lookup_insert_ne by done. split_and!; auto. }
  set (E' := <[n := _]> E) in *. clearbody E'. destruct HE. split.
  - intros m Hm. destruct (HX m) as (? & -> & _ & -> & _). auto.
  - intros m d Hm. destruct (HX m) as (? & -> & _ & -> & _). destruct (HX d) as (? & -> & -> & _). auto.
  - intros m Hm. destruct (HX m) as (? & -> & -> & -> & _). auto.
  - intros q Hq. destruct (HX q) as (? & -> & -> & _ & -> & _). intros Hd. destruct (ei_dependants0 q Hq Hd) as [H1 H2]. split; [|done].
    intros m Hm. destruct (HX m) as (? & -> & _ & -> & _). auto.
  - intros. lia.
  - intros m Hm. destruct (HX m) as (? & -> & -> & -> & _ & -> & _ & _ & _ & Hr). intros Hd. destruct (ei_ready0 m Hm Hd) as (H1 & H2 & H3).
    destruct Hr as [->|[-> ->]]; [done|]. split_and!; try done; try lia.
    intros Hnil. specialize (Hr1 Hnil). specialize (H2 Hnil). lia.
  - intros m Hm. destruct (HX m) as (? & -> & -> & -> & _ & -> & -> & -> & -> & _). intros Hd Hs.
    destruct (ei_store0 m Hm Hd Hs) as (H1 & H2 & H3). split_and!; [done| |].
    + intros a Ha. destruct (H2 a Ha) as [? H4]. split; [done|]. destruct (HX a) as (? & -> & -> & _). done.
    + destruct H3 as [?|(? & a & Ha & Hle & H3)]; [by left|]. right. split; [done|]. exists a. split_and!; try done.
      destruct (HX a) as (? & -> & -> & _). done.
Qed.

(** ** An entry is issued *)

Lemma EntInv_issue E p e' : lo <= p < hi -> 0 <= lo -> EntInv slot lo hi E (-1) [] -> done (E p) = MaxTime -> deps_of (E p) = [] ->
  done e' <> MaxTime -> udeps (re_uop e') = [] -> uop_ok (re_uop e') -> sequenceNumber (re_uop e') = p ->
  EntInv slot lo hi (<[p := e']> E) p (dependants (E p)).
Proof.
  intros Hp H0 HE Hu Hd Hdone' Hd' Hok' Hsq'. destruct HE. split.
  - intros n Hn. destruct (decide (n = p)) as [->|Hnp]; [by rewrite fn_lookup_insert|rewrite fn_lookup_insert_ne by done; auto].
  - intros n d Hn Hx. destruct (decide (n = p)) as [->|Hnp].
    { rewrite fn_lookup_insert, Hd' in Hx. by apply elem_of_nil in Hx. }
    rewrite fn_lookup_insert_ne in Hx by done. destruct (ei_deps0 n d Hn Hx) as [? H1]. split; [done|].
    destruct (decide (d = p)) as [->|Hdp]; [auto|]. rewrite fn_lookup_insert_ne by done. destruct H1; [auto|lia].
  - intros n Hn. destruct (decide (n = p)) as [->|Hnp]; [by rewrite fn_lookup_insert|rewrite fn_lookup_insert_ne by done; auto].
  - intros q Hq Hx. destruct (decide (q = p)) as [->|Hqp]; [by rewrite fn_lookup_insert in Hx|].
    rewrite fn_lookup_insert_ne in Hx |- * by done. destruct (ei_dependants0 q Hq Hx) as [H1 H2]. split; [|done].
    intros n Hn. rewrite (H1 n Hn). destruct (decide (n = p)) as [->|Hnp]; [|by rewrite fn_lookup_insert_ne by done].
    by rewrite fn_lookup_insert, Hd, Hd'.
  - intros _. rewrite fn_lookup_insert. destruct (ei_dependants0 p Hp Hu) as [H1 H2]. split_and!; try done.
    intros n Hn. rewrite fn_lookup_insert_ne by lia. symmetry. apply H1. lia.
  - intros n Hn Hx. destruct (decide (n = p)) as [->|Hnp]; [by rewrite fn_lookup_insert in Hx|].
    rewrite fn_lookup_insert_ne in Hx |- * by done. auto.
  - intros n Hn Hx. destruct (decide (n = p)) as [->|Hnp]; [by rewrite fn_lookup_insert in Hx|].
    rewrite fn_lookup_insert_ne in Hx |- * by done. intros Hs. destruct (ei_store0 n Hn Hx Hs) as (H1 & H2 & H3). split_and!; [done| |].
    + intros a Ha. destruct (H2 a Ha) as [? H4]. split; [done|]. intros Hle Hu'. destruct (decide (a = p)) as [->|Hap]; [by rewrite fn_lookup_insert in Hu'|].
      rewrite fn_lookup_insert_ne in Hu' by done. auto.
    + destruct H3 as [?|(? & a & Ha & Hle & H3)]; [by left|]. right. split; [done|]. exists a. split_and!; try done.
      destruct (H2 a Ha) as [? H4]. destruct (decide (a = p)) as [->|Hap]; [right; auto|]. left. rewrite fn_lookup_insert_ne by done.
      destruct H3; [done|lia].
Qed.

Lemma EntInv_woken_all E p : EntInv slot lo hi E p [] -> lo <= p < hi -> 0 <= lo -> EntInv slot lo hi E (-1) [].
Proof.
  intros [] Hp H0. assert (Hno : forall n, lo <= n < hi -> p ∉ deps_of (E n)).
  { intros n Hn Hx. destruct (ei_deps0 n p Hn Hx) as [? _]. destruct (ei_waking0 (proj1 Hp)) as (_ & H1 & _).
    specialize (H1 n). cbn in H1. apply list_elem_of_In, (count_occ_In Z.eq_dec) in Hx. lia. }
  split; try done.
  - intros n d Hn Hx. destruct (ei_deps0 n d Hn Hx) as [? [?| ->]]; [auto|]. by apply Hno in Hx.
  - intros. lia.
  - intros n Hn Hu Hs. destruct (ei_store0 n Hn Hu Hs) as (H1 & H2 & H3). split_and!; try done.
    destruct H3 as [?|(? & a & Ha & Hle & [?|[-> Hx]])]; [by left| |by apply Hno in Hx]. right. split; [done|]. eauto.
Qed.

(** ** A dependant is told *)

Lemma occ_cons_ne x y l : x <> y -> occ (x :: l) y = occ l y.
Proof. intros. by rewrite count_occ_cons_neq. Qed.

Lemma occ_perm l l' x : l ≡ₚ l' -> occ l x = occ l' x.
Proof. intros H. by apply (proj1 (Permutation_count_occ Z.eq_dec l l')). Qed.

Lemma elem_of_occ x l : x ∈ l <-> (0 < occ l x)%nat.
Proof. rewrite list_elem_of_In. apply count_occ_In. Qed.

Definition woken_address (E : Z -> RobEntry) (lo p cd : Z) (e e' : RobEntry) : Prop :=
  if isStore (uop_of e) && (addressReady e =? MaxTime) then
    addressReadyMax e' = (if bool_decide (p ∈ addressProducers e) then Z.max (addressReadyMax e) cd else addressReadyMax e) /\
    ((addressReady e' = addressReadyMax e' /\ forall a, a ∈ addressProducers e -> lo <= a -> done (E a) <> MaxTime) \/
     (addressReady e' = MaxTime /\ exists a, a ∈ addressProducers e /\ lo <= a /\ done (E a) = MaxTime))
  else addressReady e' = addressReady e /\ addressReadyMax e' = addressReadyMax e.

Record woken (E : Z -> RobEntry) (lo p cd : Z) (e e' : RobEntry) : Prop := {
  wk_stable : stable e e';
  wk_ok : uop_ok (re_uop e');
  wk_deps : deps_of e ≡ₚ p :: deps_of e';
  wk_dependants : dependants e' = dependants e;
  wk_producers : addressProducers e' = addressProducers e;
  wk_readyMax : readyMax e' = Z.max (readyMax e) cd;
  wk_ready : ready e' = if bool_decide (deps_of e' = []) then readyMax e' else ready e;
  wk_address : woken_address E lo p cd e e'
}.

(** What telling the dependants of [p] does to any entry. *)
Record told (p cd : Z) (e e' : RobEntry) : Prop := {
  td_stable : stable e e';
  td_readyMax : readyMax e <= readyMax e' <= Z.max (readyMax e) cd;
  td_ready : ready e' = ready e \/ ready e' <= Z.max (readyMax e) cd;
  td_deps : forall x, x ∈ deps_of e -> x ∈ deps_of e' \/ (x = p /\ cd <= readyMax e');
  td_length : (length (deps_of e') <= length (deps_of e))%nat
}.

Lemma told_refl p cd e : told p cd e e.
Proof. split; auto using stable_refl with lia. Qed.
Lemma told_trans p cd e1 e2 e3 : told p cd e1 e2 -> told p cd e2 e3 -> told p cd e1 e3.
Proof.
  intros [? ? ? H1 ?] [? ? ? H2 ?]. split; [by etrans|lia|lia| |lia]. intros x Hx. destruct (H1 x Hx) as [?|[? ?]]; [auto|]. right. split; [done|lia].
Qed.

Lemma woken_told E p cd e e' : woken E lo p cd e e' -> told p cd e e'.
Proof.
  intros []. split; [done|lia| | |].
  - rewrite wk_ready0. case_bool_decide; [right; lia|by left].
  - intros x Hx. rewrite wk_deps0 in Hx. apply elem_of_cons in Hx as [->|?]; [right; split; [done|lia]|by left].
  - apply Permutation_length in wk_deps0. cbn in wk_deps0. lia.
Qed.

Lemma EntInv_wake E p l n e' cd : EntInv slot lo hi E p (slot n :: l) -> 0 <= lo -> lo <= p < hi -> p < n < hi -> 0 <= cd < MaxTime ->
  (forall a b, lo <= a < hi -> lo <= b < hi -> slot a = slot b -> a = b) ->
  woken E lo p cd (E n) e' -> EntInv slot lo hi (<[n := e']> E) p l.
Proof.
  intros HE H0 Hp Hn Hcd Hinj [[Hs Hdn _ _] Hok Hd Hdep Hpr Hm Hr Ha].
  assert (HnE : lo <= n < hi) by lia.
  assert (Hun : done (E n) = MaxTime).
  { destruct (decide (done (E n) = MaxTime)) as [|Hx]; [done|]. apply (ei_issued _ _ _ _ _ _ HE n HnE) in Hx. rewrite Hx in Hd.
    by apply Permutation_nil in Hd. }
  assert (Hsub : forall x, x ∈ deps_of e' -> x ∈ deps_of (E n)) by (intros x Hx; rewrite Hd; by right).
  assert (Hoth : forall x, x <> p -> x ∈ deps_of (E n) -> x ∈ deps_of e').
  { intros x Hne Hx. rewrite Hd in Hx. apply elem_of_cons in Hx as [->|?]; done. }
  assert (HX : forall m, done (<[n := e']> E m) = done (E m) /\ dependants (<[n := e']> E m) = dependants (E m)).
  { intros m. destruct (decide (m = n)) as [->|]; [rewrite fn_lookup_insert|rewrite fn_lookup_insert_ne by done]; auto. }
  destruct HE. split.
  - intros m Hm'. destruct (decide (m = n)) as [->|]; [|rewrite fn_lookup_insert_ne by done; auto].
    rewrite fn_lookup_insert. split; [done|]. rewrite Hs. by apply ei_uop0.
  - intros m d Hm' Hx. destruct (HX d) as [-> _]. apply (ei_deps0 m d Hm'). destruct (decide (m = n)) as [->|].
    + rewrite fn_lookup_insert in Hx. auto.
    + by rewrite fn_lookup_insert_ne in Hx by done.
  - intros m Hm'. destruct (HX m) as [-> _]. intros Hx. destruct (decide (m = n)) as [->|]; [done|].
    rewrite fn_lookup_insert_ne by done. auto.
  - intros q Hq. destruct (HX q) as [-> ->]. intros Hu. destruct (ei_dependants0 q Hq Hu) as [H1 H2]. split; [|done].
    intros m Hm'. rewrite (H1 m Hm'). destruct (decide (m = n)) as [->|]; [|by rewrite fn_lookup_insert_ne by done].
    rewrite fn_lookup_insert, (occ_perm _ _ q Hd). apply occ_cons_ne. intros ->.
    by destruct (ei_waking0 (proj1 Hp)) as [? _].
  - intros Hle. destruct (HX p) as [-> _]. destruct (ei_waking0 Hle) as (H1 & H2 & H3). split_and!; [done| |].
    + intros m Hm'. specialize (H2 m Hm'). destruct (decide (m = n)) as [->|Hne].
      * rewrite fn_lookup_insert. rewrite (occ_perm _ _ p Hd), !count_occ_cons_eq in H2 by done. lia.
      * rewrite fn_lookup_insert_ne by done. rewrite count_occ_cons_neq in H2; [done|]. intros Hsl. apply Hne. apply Hinj; [lia..|done].
    + intros x Hx. apply H3. by right.
  - intros m Hm'. destruct (HX m) as [-> _]. intros Hu. destruct (decide (m = n)) as [->|]; [|rewrite fn_lookup_insert_ne by done; auto].
    rewrite fn_lookup_insert. destruct (ei_ready0 n HnE Hu) as (H1 & _ & H3). rewrite Hr. split_and!; [lia|lia| |].
    + intros Hnil. rewrite bool_decide_true by done. lia.
    + intros Hnil. rewrite bool_decide_false by done. apply H3. intros Hn'. rewrite Hn' in Hd. by apply Permutation_nil in Hd.
  - intros m Hm'. destruct (HX m) as [-> _]. intros Hu. destruct (decide (m = n)) as [->|Hne].
    2: { rewrite fn_lookup_insert_ne by done. intros Hst. destruct (ei_store0 m Hm' Hu Hst) as (H1 & H2 & H3). split_and!; [done| |].
         - intros a Ha'. destruct (H2 a Ha') as [? H4]. split; [done|]. by destruct (HX a) as [-> _].
         - destruct H3 as [?|(? & a & Ha' & Hle & H3)]; [by left|]. right. split; [done|]. exists a. split_and!; try done.
           by destruct (HX a) as [-> _]. }
    rewrite fn_lookup_insert. rewrite (same_uop_m _ _ Hs). intros Hst. destruct (ei_store0 n HnE Hu Hst) as (H1 & H2 & H3).
    rewrite Hpr. unfold woken_address in Ha. rewrite Hst in Ha. cbn [andb] in Ha.
    assert (Hle : addressReadyMax e' <= readyMax e').
    { rewrite Hm. destruct (addressReady (E n) =? MaxTime); destruct Ha as [Ha Ha']; [|lia]. rewrite Ha. case_bool_decide; lia. }
    split_and!; [done| |].
    + intros a Ha'. destruct (H2 a Ha') as [? H4]. split; [done|]. destruct (HX a) as [-> _]. intros Hlo Hu'. apply Hoth; [|auto].
      intros ->. by destruct (ei_waking0 (proj1 Hp)) as [? _].
    + destruct (Z.eqb_spec (addressReady (E n)) MaxTime) as [Em|Em].
      * destruct Ha as [_ [[? _]|(? & a & ? & ? & ?)]]; [by left|]. right. split; [done|]. exists a. split_and!; try done. left.
        by destruct (HX a) as [-> _].
      * left. destruct Ha as [-> ->]. destruct H3 as [?|[? _]]; [done|congruence].
Qed.

(** ** An entry is committed *)

Lemma EntInv_commit E : EntInv slot lo hi E (-1) [] -> 0 <= lo < hi -> done (E lo) <> MaxTime -> EntInv slot (lo + 1) hi E (-1) [].
Proof.
  intros [] H0 Hd. split; try (intros; lia).
  - intros n Hn. apply ei_uop0. lia.
  - intros n d Hn Hx. destruct (ei_deps0 n d ltac:(lia) Hx) as [? [?|?]]; [|lia]. assert (d <> lo) by (by intros ->). split; [lia|auto].
  - intros n Hn. apply ei_issued0. lia.
  - intros q Hq. apply ei_dependants0. lia.
  - intros n Hn. apply ei_ready0. lia.
  - intros n Hn Hu Hs. destruct (ei_store0 n) as (H1 & H2 & H3); [lia|done..|]. split_and!; [done| |].
    + intros a Ha. destruct (H2 a Ha) as [? H4]. split; [done|]. intros Hle. apply H4. lia.
    + destruct H3 as [?|(? & a & Ha & Hle & [H3|?])]; [by left| |lia]. right. split; [done|]. exists a. split_and!; [done| |by left].
      assert (a <> lo) by (by intros ->). lia.
Qed.

(** ** A new entry *)

(** The entry [e] of a producer after the micro-operation in slot [k] with dependencies [l] has been linked to it. *)
Definition linked (k : nat) (l : list Z) (q : Z) (e : RobEntry) : RobEntry :=
  if done e =? MaxTime
  then mkEntry (dependants e ++ replicate (occ l q) k) (addressProducers e) (re_uop e) (dispatched e) (ready e) (readyMax e)
         (addressReady e) (addressReadyMax e) (issued e) (done e)
  else e.

Lemma linked_frame k l q e : re_uop (linked k l q e) = re_uop e /\ done (linked k l q e) = done e /\ ready (linked k l q e) = ready e /\
  readyMax (linked k l q e) = readyMax e /\ addressProducers (linked k l q e) = addressProducers e /\
  addressReady (linked k l q e) = addressReady e /\ addressReadyMax (linked k l q e) = addressReadyMax e.
Proof. unfold linked. by destruct (done e =? MaxTime). Qed.

Lemma occ_nat_replicate m k x : occ_nat (replicate m k) x = if decide (x = k) then m else 0%nat.
Proof. induction m as [|m IH]; cbn; [by destruct (decide _)|]. rewrite IH. destruct (Nat.eq_dec k x), (decide (x = k)); congruence || lia. Qed.

Lemma EntInv_enqueue E E' l e : EntInv slot lo hi E (-1) [] -> 0 <= lo <= hi ->
  (forall a b, lo <= a <= hi -> lo <= b <= hi -> slot a = slot b -> a = b) ->
  (forall q, lo <= q < hi -> E' q = linked (slot hi) l q (E q)) -> E' hi = e ->
  (forall x, x ∈ l -> lo <= x < hi) -> uop_ok (re_uop e) -> sequenceNumber (re_uop e) = hi -> done e = MaxTime -> dependants e = [] ->
  (forall q, lo <= q < hi -> occ (deps_of e) q = if decide (done (E q) = MaxTime) then occ l q else 0%nat) ->
  (forall x, x ∈ deps_of e -> x ∈ l) -> 0 <= readyMax e < MaxTime ->
  ready e = (if decide (deps_of e = []) then readyMax e else MaxTime) ->
  (isStore (uop_of e) = true -> addressReadyMax e <= readyMax e /\
    (forall a, a ∈ addressProducers e -> lo <= a < hi /\ (done (E a) = MaxTime -> a ∈ deps_of e)) /\
    (addressReady e = addressReadyMax e \/ (addressReady e = MaxTime /\ exists a, a ∈ addressProducers e /\ done (E a) = MaxTime))) ->
  EntInv slot lo (hi + 1) E' (-1) [].
Proof.
  intros HE H0 Hinj Hq He Hl Hok Hsq Hdn Hdp Hocc Hsub Hm Hr Hst. destruct HE.
  assert (HX : forall q, lo <= q < hi -> re_uop (E' q) = re_uop (E q) /\ done (E' q) = done (E q) /\ ready (E' q) = ready (E q) /\
    readyMax (E' q) = readyMax (E q) /\ addressProducers (E' q) = addressProducers (E q) /\ addressReady (E' q) = addressReady (E q) /\
    addressReadyMax (E' q) = addressReadyMax (E q)). { intros q Hlq. rewrite (Hq q Hlq). apply linked_frame. }
  assert (Hun : forall x, x ∈ deps_of e -> lo <= x < hi /\ done (E x) = MaxTime).
  { intros x Hx. assert (lo <= x < hi) by auto. split; [done|]. apply elem_of_occ in Hx. rewrite Hocc in Hx by done.
    destruct (decide (done (E x) = MaxTime)); [done|lia]. }
  assert (Hc : forall n, lo <= n < hi + 1 -> n = hi \/ lo <= n < hi) by (intros; lia). split.
  - intros n Hn. destruct (Hc n Hn) as [->|Hn']; [by rewrite He|]. destruct (HX n Hn') as [-> _]. auto.
  - intros n d Hn Hx. destruct (Hc n Hn) as [->|Hn'].
    + rewrite He in Hx. destruct (Hun d Hx) as [? ?]. destruct (HX d) as (_ & -> & _); [lia|]. split; [lia|auto].
    + destruct (HX n Hn') as [E1 _]. rewrite E1 in Hx. destruct (ei_deps0 n d Hn' Hx) as [? ?]. destruct (HX d) as (_ & -> & _); [lia|]. auto.
  - intros n Hn. destruct (Hc n Hn) as [->|Hn']; [by rewrite He|]. destruct (HX n Hn') as (-> & -> & _). auto.
  - intros q Hq'. destruct (Hc q Hq') as [->|Hlq].
    { rewrite He, Hdp. intros _. split; [intros; lia|]. intros x Hx. by apply elem_of_nil in Hx. }
    destruct (HX q Hlq) as (_ & -> & _). intros Hu. destruct (ei_dependants0 q Hlq Hu) as [H1 H2].
    rewrite (Hq q Hlq). unfold linked. rewrite Hu, Z.eqb_refl. cbn [dependants]. split.
    + intros n Hn. rewrite count_occ_app, occ_nat_replicate. destruct (Hc n) as [->|Hn']; [lia| |].
      * rewrite He, decide_True by done. rewrite (Hocc q Hlq), decide_True by done.
        assert (occ_nat (dependants (E q)) (slot hi) = 0%nat) as ->; [|lia]. apply count_occ_not_In. intros Hx.
        apply list_elem_of_In, H2 in Hx as (m & Hm' & Hsl). apply Hinj in Hsl; lia.
      * rewrite decide_False. { destruct (HX n Hn') as [-> _]. rewrite (H1 n) by lia. lia. }
        intros Hsl. apply Hinj in Hsl; lia.
    + intros x Hx. apply elem_of_app in Hx as [Hx|Hx]; [destruct (H2 x Hx) as (m & ? & ?); exists m; split; [lia|done]|].
      apply elem_of_replicate in Hx as [-> _]. exists hi. split; [lia|done].
  - intros. lia.
  - intros n Hn. destruct (Hc n Hn) as [->|Hn'].
    + rewrite He. intros _. rewrite Hr. destruct (decide (deps_of e = [])); split_and!; (done || lia).
    + destruct (HX n Hn') as (-> & -> & -> & -> & _). auto.
  - intros n Hn. destruct (Hc n Hn) as [->|Hn'].
    + rewrite He. intros _ Hs. destruct (Hst Hs) as (H1 & H2 & H3). split_and!; [done| |].
      * intros a Ha. destruct (H2 a Ha) as [? ?]. split; [lia|]. intros _. destruct (HX a) as (_ & -> & _); [lia|]. done.
      * destruct H3 as [?|(? & a & Ha & ?)]; [by left|]. right. split; [done|]. exists a. destruct (H2 a Ha) as [? ?].
        destruct (HX a) as (_ & -> & _); [lia|]. split_and!; [done|lia|auto].
    + destruct (HX n Hn') as (-> & -> & _ & -> & -> & -> & ->). intros Hu Hs. destruct (ei_store0 n Hn' Hu Hs) as (H1 & H2 & H3).
      split_and!; [done| |].
      * intros a Ha. destruct (H2 a Ha) as [? H4]. split; [done|]. intros Hle. destruct (HX a) as (_ & -> & _); [lia|]. auto.
      * destruct H3 as [?|(? & a & Ha & Hle & H3)]; [by left|]. right. split; [done|]. exists a. destruct (H2 a Ha) as [? ?].
        destruct (HX a) as (_ & -> & _); [lia|]. split_and!; [done..|]. destruct H3; [auto|lia].
Qed.
End entries.
