(* ===== verification/RobAccess.v ===== *)
(** * Access to the entries of the reorder buffer

    The ring of the reorder buffer as a function from sequence numbers to entries ([Rep]), and what
    the operations of RobTimer that read and write entries do to it. *)

From stdpp Require Import sets functions.
From S2P Require Import Prelude StateMonad SubsecondTime ContentionModel CircularQueue MicroOp MicroOpFacts CoreModelNehalem RobTimer RobInvariant.
#[local] Open Scope Z_scope.

(** One step of a computation that is to succeed. *)
Ltac rstep :=
  lazymatch goal with
  | |- wpe _ (mbind _ _) _ _ => apply wpe_bind
  | |- wpe _ (gets _) _ _ => apply wpe_gets
  | |- wpe _ (modify _) _ _ => apply wpe_modify
  | |- wpe _ (mret _) _ _ => apply wpe_ret
  | |- wpe _ (assertM true) _ _ => apply wpe_ret
  end; cbv beta delta [id].
Ltac rsteps := repeat rstep.

Section access.
Context (cfg : RobCfg).
Implicit Types (q : CircularQueue (option RobEntry)) (E : Z -> RobEntry).

Definition slot (n : Z) : nat := Z.to_nat (n mod (windowSize cfg + 256)).

(** The buffer has the entries of the sequence numbers from [lo] up to [hi]. *)
Definition Rep q (lo hi : Z) E : Prop :=
  ring q lo hi /\ cq_size q = windowSize cfg + 256 /\ forall n, lo <= n < hi -> cq_queue q !! slot n = Some (Some (E n)).

Lemma Rep_slot q lo hi E n : Rep q lo hi E -> slot n = ring_slot q n.
Proof. intros (_ & Hs & _). unfold slot, ring_slot. by rewrite Hs. Qed.

Lemma Rep_bounds q lo hi E : Rep q lo hi E -> 0 <= lo <= hi /\ hi - lo < windowSize cfg + 256 < 2 ^ 31.
Proof. intros ((? & ? & ? & _) & ? & _). lia. Qed.

Lemma Rep_slot_inj q lo hi E a b : Rep q lo hi E -> lo <= a <= hi -> lo <= b <= hi -> slot a = slot b -> a = b.
Proof.
  intros HR Ha Hb. rewrite !(Rep_slot _ _ _ _ _ HR). pose proof (Rep_bounds _ _ _ _ HR). destruct HR as (Hr & Hs & _).
  apply (ring_slot_inj q lo hi); [done|lia..].
Qed.

Lemma Rep_ext q lo hi E E' : Rep q lo hi E -> (forall n, lo <= n < hi -> E' n = E n) -> Rep q lo hi E'.
Proof. intros (? & ? & H) HE. split_and!; try done. intros n Hn. rewrite HE by done. auto. Qed.

Lemma Rep_set q lo hi E n e : Rep q lo hi E -> lo <= n < hi -> Rep (cq_set (slot n) (Some e) q) lo hi (<[n := e]> E).
Proof.
  intros HR Hn. pose proof HR as (Hr & Hs & H). split_and!; [by apply ring_set|done|]. intros m Hm. cbn [cq_set cq_queue].
  destruct (decide (m = n)) as [->|Hne].
  - rewrite fn_lookup_insert. apply list_lookup_insert_eq. by eapply lookup_lt_Some, H.
  - rewrite fn_lookup_insert_ne by done. rewrite list_lookup_insert_ne; [auto|]. intros Hsl. apply Hne.
    eapply Rep_slot_inj; [done|lia..|done].
Qed.

Lemma Rep_push q lo hi E e : Rep q lo hi E -> hi - lo < windowSize cfg + 255 ->
  cq_next q = Ok (slot hi, cq_advance_first q) /\ Rep (cq_set (slot hi) (Some e) (cq_advance_first q)) lo (hi + 1) (<[hi := e]> E).
Proof.
  intros HR Hc. pose proof HR as (Hr & Hs & H). pose proof (Rep_bounds _ _ _ _ HR).
  rewrite (Rep_slot _ _ _ _ hi HR). split; [apply (ring_next q lo hi); [done|lia]|].
  assert (Hr' : ring (cq_advance_first q) lo (hi + 1)) by (apply ring_advance_first; [done|lia]).
  split_and!; [by apply ring_set|done|]. intros m Hm. cbn [cq_set cq_queue cq_advance_first]. rewrite <- (Rep_slot _ _ _ _ hi HR).
  destruct (decide (m = hi)) as [->|Hne].
  - rewrite fn_lookup_insert. apply list_lookup_insert_eq. rewrite (Rep_slot _ _ _ _ hi HR). by eapply ring_slot_lt.
  - rewrite fn_lookup_insert_ne by done. rewrite list_lookup_insert_ne; [apply H; lia|]. intros Hsl. apply Hne.
    symmetry. eapply Rep_slot_inj; [done|lia..|done].
Qed.

Lemma Rep_pop q lo hi E : Rep q lo hi E -> lo < hi ->
  exists q', cq_pop (cq_set (Z.to_nat (cq_last q)) None q) = Ok (None, q') /\ Rep q' (lo + 1) hi E.
Proof.
  intros HR Hlt. pose proof HR as (Hr & Hs & H). set (q1 := cq_set _ None q).
  assert (Hr1 : ring q1 lo hi) by (by apply ring_set). unfold cq_pop.
  rewrite (ring_empty _ _ _ Hr1), (proj2 (Z.eqb_neq _ _)) by lia. cbn [negb assert_ mbind res_bind].
  rewrite (ring_slot_last _ _ _ Hr1). rewrite (proj2 (aget_ok _ _ None)).
  2: { subst q1. cbn [cq_set cq_queue]. rewrite (ring_slot_last _ _ _ Hr). change (ring_slot (cq_set _ _ _) lo) with (ring_slot q lo).
       apply list_lookup_insert_eq. by eapply ring_slot_lt. }
  cbn [mbind res_bind]. eexists. split; [reflexivity|]. split_and!; [by apply ring_advance_last|done|].
  intros m Hm. cbn [cq_advance_last cq_queue cq_set q1]. rewrite (ring_slot_last _ _ _ Hr), <- (Rep_slot _ _ _ _ lo HR).
  rewrite list_lookup_insert_ne; [apply H; lia|]. intros Hsl. enough (lo = m) by lia. eapply Rep_slot_inj; [done|lia..|done].
Qed.

Section operations.
Context {C Mem : Type} (lo hi : Z) (E : Z -> RobEntry).
Implicit Types (s : RobTimer C Mem).

Lemma runs_entry n Q s : Rep (rob s) lo hi E -> lo <= n < hi -> Q (E n) s -> runs (entry (slot n)) Q s.
Proof.
  intros (_ & _ & H) Hn HQ. unfold entry. do 2 rstep. rstep. apply (wpe_lift _ _ _ _ (Some (E n))); [|done].
  apply aget_ok. auto.
Qed.

Lemma runs_set_entry n e Q s : Q tt (with_rob (cq_set (slot n) (Some e) (rob s)) s) -> runs (set_entry (slot n) e) Q s.
Proof. done. Qed.

Lemma runs_rob_get i Q s : Rep (rob s) lo hi E -> 0 <= i < 2 ^ 31 -> Q (slot (lo + i)) s -> runs (rob_get i) Q s.
Proof.
  intros HR Hi HQ. unfold rob_get. rsteps. rewrite (ring_cq_slot _ lo hi) by (apply HR || done).
  by rewrite <- (Rep_slot _ _ _ _ _ HR).
Qed.

Lemma runs_rob_at i Q s : Rep (rob s) lo hi E -> 0 <= i < hi - lo -> Q (slot (lo + i)) s -> runs (rob_at i) Q s.
Proof.
  intros HR Hi HQ. pose proof (Rep_bounds _ _ _ _ HR). unfold rob_at. do 2 rstep. rewrite (ring_length _ lo hi) by apply HR.
  rewrite (proj2 (Z.ltb_lt _ _)) by lia. rsteps. rewrite (ring_cq_slot _ lo hi) by (apply HR || lia).
  by rewrite <- (Rep_slot _ _ _ _ _ HR).
Qed.

Lemma runs_rob_front Q s : Rep (rob s) lo hi E -> lo < hi -> Q (E lo) s -> runs rob_front Q s.
Proof.
  intros HR Hi HQ. unfold rob_front. do 2 rstep. rewrite (ring_empty _ lo hi) by apply HR.
  rewrite (proj2 (Z.eqb_neq _ _)) by lia. cbn [negb]. rsteps. rewrite (ring_slot_last _ lo hi) by apply HR.
  rewrite <- (Rep_slot _ _ _ _ _ HR). apply runs_entry; [done|lia|done].
Qed.

Lemma runs_find n Q s : Rep (rob s) lo hi E -> lo <= n < hi -> hi < 2 ^ 64 ->
  sequenceNumber (re_uop (E lo)) = lo -> sequenceNumber (re_uop (E n)) = n -> Q (slot n) s -> runs (findEntryBySequenceNumber n) Q s.
Proof.
  intros HR Hn Hhi Elo En HQ. pose proof (Rep_bounds _ _ _ _ HR). unfold findEntryBySequenceNumber.
  rstep. apply runs_rob_get; [done|lia|]. rewrite Z.add_0_r. rstep. apply runs_entry; [done|lia|]. rewrite Elo, wrap_small by lia.
  do 2 rstep. rewrite (ring_length _ lo hi) by apply HR. rewrite (proj2 (Z.ltb_lt _ _)) by lia. do 2 rstep.
  rstep. apply runs_rob_get; [done|lia|]. replace (lo + (n - lo)) with n by lia. rstep. apply runs_entry; [done|lia|].
  rewrite En, Z.eqb_refl. by rsteps.
Qed.
End operations.
End access.
