(* ===== verification/RobState.v ===== *)
(** * The state of the out-of-order core

    The promises of the contention model and of the memory that the core relies on, the data flow of
    a sequence of micro-operations ([depends]), and the invariant [Inv] of the core's state.  [U] are
    the micro-operations that have entered the core, in program order; [E] gives the entry of each of
    them, those before [lo] as they were when they left the reorder buffer. *)

From stdpp Require Import sets functions.
From S2P Require Import Prelude StateMonad SubsecondTime ContentionModel CircularQueue MicroOp MicroOpFacts CoreModelNehalem RobTimer RobInvariant RobAccess.
#[local] Open Scope Z_scope.

(** ** Interfaces *)

(** What the core needs of a contention model: it does not fail, no unit is busy for more than [c_busy_max] cycles, and
    when no unit is busy the first micro-operation of a cycle can be issued. *)
Class RobContentionOk (C : Type) `{!RobContention C} := {
  c_ok : C -> Prop;
  c_now : C -> Z;
  c_busy : C -> Z;
  c_busy_max : Z;
  c_busy_range : 0 <= c_busy_max;
  initCycle_ok : forall t c, c_ok c -> c_ok (initCycle t c) /\ c_now (initCycle t c) = t /\ c_busy (initCycle t c) = c_busy c;
  tryIssue_ok : forall d c, c_ok c -> exists b c', tryIssue d c = Ok (b, c') /\ c_ok c' /\ c_now c' = c_now c /\ c_busy c' = c_busy c;
  tryIssue_free : forall t d c, c_ok c -> c_busy c <= t -> exists c', tryIssue d (initCycle t c) = Ok (true, c');
  doIssue_ok : forall period d c, c_ok c -> 0 <= period -> 0 <= c_now c -> exists c', doIssue period d c = Ok c' /\ c_ok c' /\
    c_now c' = c_now c /\ c_busy c' <= Z.max (c_busy c) (c_now c + c_busy_max * period)
}.

(** What the core needs of the memory: an access ends after at most [mem_max] and tells where it hit. *)
Class CoreMemoryOk (Mem : Type) `{!CoreMemory Mem} := {
  mem_ok : Mem -> Prop;
  mem_max : Z;
  mem_max_range : 0 <= mem_max < 2 ^ 63;
  accessMemory_ok : forall w a sz ip t m, mem_ok m -> exists lat h m',
    accessMemory w a sz ip t m = Ok (lat, h, m') /\ mem_ok m' /\ 0 <= lat <= mem_max /\ HitWhereIsValid h = true
}.

(** ** Data flow *)

Fixpoint last_index {A} (P : A -> bool) (l : list A) : option nat :=
  match l with
  | [] => None
  | x :: l => match last_index P l with Some i => Some (S i) | None => if P x then Some 0%nat else None end
  end.

Lemma last_index_snoc {A} (P : A -> bool) l x : last_index P (l ++ [x]) = if P x then Some (length l) else last_index P l.
Proof. induction l as [|y l IH]; cbn; [done|]. rewrite IH. by destruct (P x). Qed.

Lemma last_index_Some {A} (P : A -> bool) l i : last_index P l = Some i -> exists x, l !! i = Some x /\ P x = true.
Proof.
  revert i. induction l as [|y l IH]; intros i H; cbn in H; [done|]. destruct (last_index P l) as [j|].
  - injection H as <-. exact (IH j eq_refl).
  - destruct (P y) eqn:E; [|done]. injection H as <-. by exists y.
Qed.

Section dataflow.
Context (cfg : RobCfg).
Implicit Types (d : DynamicMicroOp) (U : list DynamicMicroOp).

Definition writes (r : xed_reg_enum_t) d : bool := bool_decide (r ∈ destinationRegisters (m_uop d)).
Definition stores_to (a : Z) d : bool := isStore (m_uop d) && (d_address d =? a).

(** A load whose data is forwarded does not wait for the store. *)
Definition forwarded U d (p : nat) : Prop :=
  m_store_to_load_forwarding cfg = true /\ isLoad (m_uop d) = true /\ exists d', U !! p = Some d' /\ isStore (m_uop d') = true.

(** Micro-operation number [n] uses a result of number [p]: of the same instruction, the last one to
    write a register that it reads, or the last one to store to the address that it loads from. *)
Definition depends U (n p : nat) : Prop := exists d, U !! n = Some d /\ (p < n)%nat /\ ~ forwarded U d p /\
  (Z.of_nat n - microOpTypeOffset d - intraInstructionDependencies d <= Z.of_nat p < Z.of_nat n - microOpTypeOffset d \/
   (exists r, r ∈ sourceRegisters (m_uop d) /\ last_index (writes r) (take n U) = Some p) \/
   (isLoad (m_uop d) = true /\ last_index (stores_to (d_address d)) (take n U) = Some p)).

(** The dynamic fields that do not change once a micro-operation has its sequence number. *)
Definition same_input d d' : Prop :=
  m_uop d' = m_uop d /\ d_address d' = d_address d /\ microOpTypeOffset d' = microOpTypeOffset d /\ d_last d' = d_last d /\
  branchMispredicted d' = branchMispredicted d /\ iCacheHitWhere d' = iCacheHitWhere d /\ iCacheLatency d' = iCacheLatency d.

(** The stores from [b] on, as the queue of MemoryDependencies has them. *)
Definition store_record (n : nat) d : list Producer := if isStore (m_uop d) then [mkProducer (Z.of_nat n) (d_address d)] else [].
Definition stores_from (b : Z) U : list Producer :=
  filter (fun p => b <= pr_seqnr p) (concat (imap store_record U)).

Definition is_fence d : bool := negb (isLoad (m_uop d)) && negb (isStore (m_uop d)) && m_membar (m_uop d).
End dataflow.

(** ** Parts of the state *)

(** Where the count of the micro-operations that may hold up the queues starts: 0 in the proofs about all reachable states; the
    proof that [simulate] ends starts it anew at the call ([Inv_restart] in RobTermination). *)
Class Slack := slack : Z.

Section parts.
Context (cfg : RobCfg) (period exec_max latency_max : Z).

(** The longest time between the issue of a micro-operation and its completion. *)
Definition span : Z := (latency_max + 1) * period.

(** When the result of an issued micro-operation can be used. *)
Definition result_time (e : RobEntry) : Z := issued e + period * (if isStore (uop_of e) then 1 else execLatency (re_uop e)).

Definition hits_ok (d : DynamicMicroOp) : Prop :=
  HitWhereIsValid (dCacheHitWhere d) = true /\ HitWhereIsValid (iCacheHitWhere d) = true /\ 0 <= iCacheLatency d <= latency_max.

Record EntOk (t : Z) (e : RobEntry) : Prop := {
  eo_hits : hits_ok (re_uop e);
  eo_room : isStore (uop_of e) = true -> (length (deps_of e) <= 5)%nat;
  eo_dispatched : forall x, dispatched e = Some x -> 0 <= x <= t;
  eo_waiting : done e = MaxTime -> 0 <= execLatency (re_uop e) <= exec_max /\ readyMax e <= t + span /\ (ready e = MaxTime \/ ready e <= t + span);
  eo_issued : done e <> MaxTime -> (exists x, dispatched e = Some x /\ x <= issued e <= t) /\ 0 <= execLatency (re_uop e) /\
    result_time e <= done e <= result_time e + period /\ done e <= t + span
}.

Definition DataOk (lo : Z) (E : Z -> RobEntry) (n p : Z) : Prop := 0 <= p < n /\
  if decide (done (E n) = MaxTime)
  then p < lo \/ p ∈ deps_of (E n) \/ (done (E p) <> MaxTime /\ result_time (E p) <= readyMax (E n))
  else done (E p) <> MaxTime /\ result_time (E p) <= issued (E n).

(** The entries of the window that wait to be issued. *)
Definition waiting (E : Z -> RobEntry) (lo num : Z) : Z := Z.of_nat (length (filter (fun n => done (E n) = MaxTime) (seqZ lo num))).

Definition queue_ok (c : ContentionModel) : Prop := length (m_time c) = m_num_outstanding c.

Record stats_ok (t : RobStats) : Prop := {
  so_distance : length (m_producerInsDistance t) = Z.to_nat (windowSize cfg);
  so_loads : m_mlp_histogram cfg = true -> length (m_outstandingLoads t) = NUM_HITWHERES /\
    (forall h v, m_outstandingLoads t !! h = Some v -> HitWhereIsValid (Z.of_nat h) = true -> length v = MAX_OUTSTANDING) /\
    length (m_outstandingLoadsAll t) = MAX_OUTSTANDING
}.

Definition cpi_total (k : CpiStack) : Z :=
  m_cpiBase k + m_cpiBranchPredictor k + m_cpiSerialization k + m_cpiRSFull k + total (m_cpiInstructionCache k) + total (m_cpiDataCache k).
Record cpi_ok (t : Z) (k : CpiStack) : Prop := {
  ko_pos : 0 <= m_cpiBase k /\ 0 <= m_cpiBranchPredictor k /\ 0 <= m_cpiSerialization k /\ 0 <= m_cpiRSFull k /\
    Forall (Z.le 0) (m_cpiInstructionCache k) /\ Forall (Z.le 0) (m_cpiDataCache k);
  ko_length : length (m_cpiInstructionCache k) = NUM_HITWHERES /\ length (m_cpiDataCache k) = NUM_HITWHERES;
  ko_total : cpi_total k <= t
}.
Definition component_ok (c : cpi_component) : Prop :=
  match c with CpiInstructionCache h | CpiDataCache h => HitWhereIsValid h = true | _ => True end.

Context {C Mem : Type} `{!RobContention C} `{!RobContentionOk C} `{!CoreMemory Mem} `{!CoreMemoryOk Mem} {sl : Slack}.
Implicit Types (s : RobTimer C Mem).

Record AuxOk s : Prop := {
  ao_load : queue_ok (load_queue s);
  ao_store : queue_ok (store_queue s);
  ao_contention : forall c, m_rob_contention s = Some c -> c_ok c;
  ao_memory : mem_ok (r_memory s);
  ao_stats : stats_ok (r_stats s);
  ao_cpi : cpi_ok (now s) (r_cpi s);
  ao_stall : forall c, m_cpiCurrentFrontEndStall s = Some c -> component_ok c
}.

(** When what can hold up the oldest micro-operation ends: the stores on their way, the units of the queues and those of
    the contention model, after [k] micro-operations have been issued. *)
Record limits_ok (k t store_done : Z) (lq sq : ContentionModel) (c : option C) : Prop := {
  li_count : 0 <= k;
  li_store_done : store_done <= t + span;
  li_load : m_num_outstanding lq = outstanding_loads cfg /\ Forall (fun u => u.1 <= t + k * span) (m_time lq);
  li_store : m_num_outstanding sq = outstanding_stores cfg /\ Forall (fun u => u.1 <= t + k * span) (m_time sq);
  li_busy : forall x, c = Some x -> 0 <= c_now x <= t /\ c_busy x <= t + c_busy_max * period
}.

Definition from_ (lo : Z) (o : option nat) : option Z := i ← o; if lo <=? Z.of_nat i then Some (Z.of_nat i) else None.

Record DepsOk (U : list DynamicMicroOp) (lo : Z) (rd : RegisterDependencies) (md : MemoryDependencies) : Prop := {
  do_registers : length rd = XED_REG_LAST cfg;
  do_producers : forall r lo', (r < XED_REG_LAST cfg)%nat -> lo <= lo' -> producer_of rd lo' r = from_ lo' (last_index (writes r) U);
  do_stores : exists b, b <= lo /\ represents (md_producers md) (stores_from b U);
  do_size : cq_size (md_producers md) = 1025;
  do_fence : md_membar md = INVALID_SEQNR \/ exists i d, md_membar md = Z.of_nat i /\ U !! i = Some d /\ is_fence d = true
}.

(** What has been committed, in program order. *)
Record TraceOk (lo t : Z) (E : Z -> RobEntry) (l : list (DynamicMicroOp * uop_times_t)) : Prop := {
  tr_length : Z.of_nat (length l) = lo;
  tr_entry : forall i x, l !! i = Some x -> let e := E (Z.of_nat i) in
    x.1 = re_uop e /\ t_dispatch x.2 = dispatched e /\ t_issue x.2 = issued e /\ t_done x.2 = done e /\
    done e <> MaxTime /\ done e <= t_commit x.2 <= t;
  tr_order : forall i j x y, (i <= j)%nat -> l !! i = Some x -> l !! j = Some y -> t_commit x.2 <= t_commit y.2;
  tr_width : forall i x y, 1 <= commitWidth cfg -> l !! i = Some x -> l !! (i + Z.to_nat (commitWidth cfg))%nat = Some y ->
    t_commit x.2 < t_commit y.2
}.

Definition frontend_ok (lo num t f : Z) (E : Z -> RobEntry) : Prop :=
  f <= t + span \/
  (f = MaxTime /\ exists n, lo <= n < lo + num /\ done (E n) = MaxTime /\ uo_branch (uop_of (E n)) = true /\ branchMispredicted (re_uop (E n)) = true).

(** ** The invariant *)

Record Inv (U : list DynamicMicroOp) (lo : Z) (E : Z -> RobEntry) s : Prop := {
  inv_hi : nextSequenceNumber s = Z.of_nat (length U) /\ Z.of_nat (length U) < 2 ^ 64 - 1;
  inv_rep : Rep cfg (rob s) lo (Z.of_nat (length U)) E;
  inv_ent : EntInv (slot cfg) lo (Z.of_nat (length U)) E (-1) [];
  inv_num : 0 <= m_num_in_rob s <= windowSize cfg /\ lo + m_num_in_rob s <= Z.of_nat (length U);
  inv_rs : m_rs_entries_used s = waiting E lo (m_num_in_rob s) /\ m_rs_entries_used s <= rsEntries cfg;
  inv_now : 0 <= now s;
  inv_entry : forall n, 0 <= n < Z.of_nat (length U) -> EntOk (now s) (E n);
  inv_window : forall n, lo + m_num_in_rob s <= n < Z.of_nat (length U) -> done (E n) = MaxTime /\ dispatched (E n) = None;
  inv_dispatched : forall n, 0 <= n < lo + m_num_in_rob s -> dispatched (E n) <> None;
  inv_frontend : frontend_ok lo (m_num_in_rob s) (now s) (frontend_stalled_until s) E;
  inv_uops : forall n d, U !! n = Some d -> same_input d (re_uop (E (Z.of_nat n)));
  inv_data : forall n p, depends cfg U n p -> DataOk lo E (Z.of_nat n) (Z.of_nat p);
  inv_deps : DepsOk U lo (registerDependencies s) (memoryDependencies s);
  inv_trace : TraceOk lo (now s) E (r_trace s);
  inv_limits : limits_ok (slack + (lo + m_num_in_rob s - m_rs_entries_used s)) (now s) (last_store_done s) (load_queue s) (store_queue s) (m_rob_contention s);
  inv_aux : AuxOk s
}.
End parts.

(** ** The configuration *)

Record CfgOk (cfg : RobCfg) (period exec_max latency_max mem_max : Z) : Prop := {
  co_dispatch : 1 <= dispatchWidth cfg < 2 ^ 31;
  co_window : 1 <= windowSize cfg <= 769;
  co_rs : 1 <= rsEntries cfg < 2 ^ 63;
  co_penalty : 2 <= misprediction_penalty cfg <= latency_max;
  co_period : 1 <= period < 2 ^ 62;
  co_exec : 0 <= exec_max;
  co_latency : exec_max + mem_max / period + 2 <= latency_max < 2 ^ 32
}.

(** ** Counting the entries that wait *)

Lemma filter_ext_in {A} (P Q : A -> Prop) `{!forall x, Decision (P x)} `{!forall x, Decision (Q x)} (l : list A) :
  (forall x, x ∈ l -> P x <-> Q x) -> filter P l = filter Q l.
Proof.
  induction l as [|x l IH]; intros Hl; [done|]. rewrite !filter_cons. rewrite IH by (intros; apply Hl; by right).
  assert (Hx : P x <-> Q x) by (apply Hl; left). destruct (decide (P x)), (decide (Q x)); tauto.
Qed.

Section waiting.
Implicit Types (E : Z -> RobEntry).

Lemma waiting_ext E E' lo num : (forall k, lo <= k < lo + num -> done (E' k) = done (E k)) -> waiting E' lo num = waiting E lo num.
Proof.
  intros H. unfold waiting. do 2 f_equal. apply filter_ext_in. intros k Hk. apply elem_of_seqZ in Hk. by rewrite H by lia.
Qed.

Lemma waiting_split E lo a b : 0 <= a -> 0 <= b -> waiting E lo (a + b) = waiting E lo a + waiting E (lo + a) b.
Proof. intros. unfold waiting. rewrite seqZ_app by lia. rewrite filter_app, length_app. lia. Qed.

Lemma waiting_one E n : waiting E n 1 = if decide (done (E n) = MaxTime) then 1 else 0.
Proof. unfold waiting. rewrite seqZ_cons by lia. cbn -[filter]. rewrite filter_cons. by destruct (decide _). Qed.

Lemma waiting_issue E E' lo num n : lo <= n < lo + num -> done (E n) = MaxTime -> done (E' n) <> MaxTime ->
  (forall k, k <> n -> done (E' k) = done (E k)) -> waiting E' lo num = waiting E lo num - 1.
Proof.
  intros Hn H1 H2 H. replace num with ((n - lo) + (1 + (lo + num - n - 1))) by lia.
  rewrite !(waiting_split _ lo (n - lo)) by lia. replace (lo + (n - lo)) with n by lia. rewrite !(waiting_split _ n 1) by lia.
  rewrite !waiting_one, decide_False, decide_True by done.
  rewrite (waiting_ext E E' lo), (waiting_ext E E' (n + 1)) by (intros; apply H; lia). lia.
Qed.

Lemma waiting_one_pos E lo num n : lo <= n < lo + num -> done (E n) = MaxTime -> 0 < waiting E lo num.
Proof.
  intros Hn Hu. unfold waiting. assert (Hin : n ∈ filter (fun n => done (E n) = MaxTime) (seqZ lo num)) by (apply list_elem_of_filter; split; [done|]; apply elem_of_seqZ; lia).
  destruct (filter _ _); [by apply elem_of_nil in Hin|cbn; lia].
Qed.

Lemma waiting_pos E lo num : 0 <= waiting E lo num.
Proof. unfold waiting. lia. Qed.
Lemma waiting_le E lo num : 0 <= num -> waiting E lo num <= num.
Proof. intros. unfold waiting. pose proof (length_filter (fun n => done (E n) = MaxTime) (seqZ lo num)). rewrite length_seqZ in *. lia. Qed.
End waiting.

Lemma same_input_refl d : same_input d d.
Proof. by split_and!. Qed.
Lemma same_input_trans d1 d2 d3 : same_input d1 d2 -> same_input d2 d3 -> same_input d1 d3.
Proof. intros (? & ? & ? & ? & ? & ? & ?) (? & ? & ? & ? & ? & ? & ?). split_and!; congruence. Qed.
