(* ===== verification/RobDeps.v ===== *)
(** * The dependence tables of the core

    The table of register producers and the queue of stores as functions of the micro-operations that
    have entered the core, and what a new micro-operation gets from them. *)

From stdpp Require Import sets functions.
From S2P Require Import Prelude StateMonad SubsecondTime ContentionModel CircularQueue MicroOp MicroOpFacts CoreModelNehalem RobTimer RobInvariant RobAccess RobState.
#[local] Open Scope Z_scope.

(** ** The queue of stores *)

Section stores.
Implicit Types (U : list DynamicMicroOp) (d : DynamicMicroOp) (l : list Producer).

Lemma stores_from_snoc b U d : stores_from b (U ++ [d]) = stores_from b U ++ filter (fun p => b <= pr_seqnr p) (store_record (length U) d).
Proof.
  unfold stores_from. rewrite imap_app. cbn [imap]. rewrite concat_app, filter_app. do 3 f_equal. cbn. by rewrite app_nil_r, Nat.add_0_r.
Qed.

Lemma stores_from_bound b U p : p ∈ stores_from b U -> b <= pr_seqnr p < Z.of_nat (length U).
Proof.
  induction U as [|d U IH] using rev_ind; [by intros ?%elem_of_nil|]. rewrite stores_from_snoc, length_app, elem_of_app. cbn [length]. intros [Hp|Hp].
  - specialize (IH Hp). lia.
  - apply list_elem_of_filter in Hp as [? Hp]. unfold store_record in Hp. destruct (isStore _); [|by apply elem_of_nil in Hp].
    apply list_elem_of_singleton in Hp as ->. cbn in *. lia.
Qed.

Lemma md_live_snoc lo l p : md_live lo (l ++ [p]) = match md_live lo l with [] => if pr_seqnr p <? lo then [] else [p] | _ => md_live lo l ++ [p] end.
Proof. induction l as [|x l IH]; cbn; [by destruct (_ <? _)|]. by destruct (pr_seqnr x <? lo). Qed.

Lemma md_live_stores b lo U : b <= lo -> md_live lo (stores_from b U) = stores_from lo U.
Proof.
  intros Hb. induction U as [|d U IH] using rev_ind; [done|]. rewrite !stores_from_snoc. unfold store_record.
  destruct (isStore (m_uop d)); [|by rewrite !app_nil_r]. rewrite !filter_cons, !filter_nil. cbn [pr_seqnr].
  assert (Hne : forall p, p ∈ stores_from lo U -> lo <= Z.of_nat (length U)) by (intros p Hp; apply stores_from_bound in Hp; lia).
  destruct (decide (b <= Z.of_nat (length U))).
  - rewrite md_live_snoc, IH. cbn [pr_seqnr]. destruct (stores_from lo U) as [|p k] eqn:E.
    + destruct (Z.ltb_spec (Z.of_nat (length U)) lo); [rewrite decide_False by lia|rewrite decide_True by lia]; done.
    + rewrite decide_True; [done|]. apply (Hne p). left.
  - rewrite decide_False by lia. by rewrite !app_nil_r.
Qed.

Lemma stores_from_length lo U : Z.of_nat (length (stores_from lo U)) <= Z.max 0 (Z.of_nat (length U) - lo).
Proof.
  induction U as [|d U IH] using rev_ind; [cbn; lia|]. rewrite stores_from_snoc, !length_app. cbn [length]. unfold store_record.
  destruct (isStore (m_uop d)); [|cbn; lia]. rewrite filter_cons, filter_nil. cbn [pr_seqnr]. destruct (decide _); cbn; lia.
Qed.

Lemma from_bound {A} lo (P : A -> bool) (l : list A) p : from_ lo (last_index P l) = Some p -> lo <= p < Z.of_nat (length l) /\ 0 <= p.
Proof.
  unfold from_. destruct (last_index P l) as [i|] eqn:E; cbn; [|done]. destruct (Z.leb_spec lo (Z.of_nat i)); [|done]. intros [= <-].
  apply last_index_Some in E as (x & Hx & _). apply lookup_lt_Some in Hx. lia.
Qed.

Lemma from_Some lo o p : from_ lo o = Some p <-> exists i, o = Some i /\ p = Z.of_nat i /\ lo <= p.
Proof.
  unfold from_. destruct o as [i|]; cbn; [|split; [done|by intros (? & ? & _)]]. destruct (Z.leb_spec lo (Z.of_nat i)).
  - split; [intros [= <-]; eauto|]. intros (j & [= ->] & -> & _). done.
  - split; [done|]. intros (j & [= ->] & -> & ?). lia.
Qed.

Lemma last_store_from a lo U : last_store a (stores_from lo U) = from_ lo (last_index (stores_to a) U).
Proof.
  induction U as [|d U IH] using rev_ind; [done|]. rewrite stores_from_snoc, last_index_snoc. unfold last_store in *. rewrite foldl_app, IH.
  unfold store_record, stores_to. destruct (isStore (m_uop d)); cbn [andb]; [|done]. rewrite filter_cons, filter_nil. cbn [pr_seqnr].
  destruct (Z.eqb_spec (d_address d) a) as [->|Hne].
  - destruct (decide (lo <= Z.of_nat (length U))); cbn.
    + rewrite Z.eqb_refl. unfold from_. cbn. by rewrite (proj2 (Z.leb_le _ _)) by lia.
    + rewrite (proj2 (Z.leb_gt _ _)) by lia. destruct (from_ lo (last_index _ U)) eqn:E; [|done]. apply from_bound in E. lia.
  - destruct (decide _); cbn; [|done]. by rewrite (proj2 (Z.eqb_neq _ _)) by done.
Qed.
End stores.

(** ** A new micro-operation *)

(** An earlier micro-operation of the same type in the instruction does not produce anything for a later one. *)
Definition independent (d d' : DynamicMicroOp) : Prop :=
  (forall r, r ∈ sourceRegisters (m_uop d) -> writes r d' = false) /\
  (isLoad (m_uop d) = true -> isStore (m_uop d') = false) /\ (is_memop (m_uop d) = true -> is_fence d' = false).

(** A micro-operation that enters the core after those of [U]; those of its instruction start at [base]. *)
Record UopIn (cfg : RobCfg) (exec_max latency_max base : Z) (U : list DynamicMicroOp) (d : DynamicMicroOp) : Prop := {
  ui_deps : dependencies d = [];
  ui_intra : 0 <= microOpTypeOffset d /\ 0 <= intraInstructionDependencies d;
  ui_base : base <= Z.of_nat (length U) - microOpTypeOffset d - intraInstructionDependencies d;
  ui_sources : forall r, r ∈ sourceRegisters (m_uop d) -> (r < XED_REG_LAST cfg)%nat;
  ui_destinations : forall r, r ∈ destinationRegisters (m_uop d) -> (r < XED_REG_LAST cfg)%nat;
  ui_addresses : forall r, r ∈ addressRegisters (m_uop d) -> r ∈ sourceRegisters (m_uop d);
  ui_count : intraInstructionDependencies d + Z.of_nat (length (sourceRegisters (m_uop d))) <= if isLoad (m_uop d) || isStore (m_uop d) then 3 else 6;
  ui_peers : forall i d', Z.of_nat (length U) - microOpTypeOffset d <= Z.of_nat i -> U !! i = Some d' -> independent d d';
  ui_exec : 0 <= execLatency d <= exec_max;
  ui_hits : hits_ok latency_max d
}.

Lemma m_uop_set n d : m_uop (setSequenceNumber n d) = m_uop d.
Proof. done. Qed.

Section new.
Context (cfg : RobCfg) (exec_max latency_max : Z).
Implicit Types (U : list DynamicMicroOp) (d : DynamicMicroOp).

(** What a new micro-operation waits for, before forwarding. *)
Definition wanted (U : list DynamicMicroOp) (lo : Z) (md : MemoryDependencies) (d : DynamicMicroOp) (y : Z) : Prop :=
  let n := Z.of_nat (length U) in
  n - microOpTypeOffset d - intraInstructionDependencies d <= y < n - microOpTypeOffset d \/
  (exists r, r ∈ sourceRegisters (m_uop d) /\ from_ lo (last_index (writes r) U) = Some y) \/
  (isLoad (m_uop d) = true /\ from_ lo (last_index (stores_to (d_address d)) U) = Some y) \/
  (is_memop (m_uop d) = true /\ fence_of lo (md_membar md) = Some y).

Lemma peer_bound base U lo d (P : DynamicMicroOp -> bool) p : UopIn cfg exec_max latency_max base U d ->
  (forall d', independent d d' -> P d' = false) -> from_ lo (last_index P U) = Some p -> 0 <= p < Z.of_nat (length U) - microOpTypeOffset d.
Proof.
  intros Hd Hi Hp. apply from_Some in Hp as (i & Hi' & -> & _). apply last_index_Some in Hi' as (d' & Hd' & HP). split; [lia|].
  destruct (Z.lt_ge_cases (Z.of_nat i) (Z.of_nat (length U) - microOpTypeOffset d)) as [|Hge]; [done|].
  rewrite (Hi d') in HP; [done|]. by apply (ui_peers _ _ _ _ _ _ Hd i).
Qed.

(** The tables after a micro-operation has entered the core. *)
Lemma DepsOk_snoc U lo rd md rd' md' d : DepsOk cfg U lo rd md -> 0 <= lo <= Z.of_nat (length U) -> Z.of_nat (length U) < 2 ^ 64 - 1 ->
  length rd' = length rd -> cq_size (md_producers md') = cq_size (md_producers md) ->
  (forall r lo', lo <= lo' <= Z.of_nat (length U) ->
     producer_of rd' lo' r = if bool_decide (r ∈ destinationRegisters (m_uop d)) then Some (Z.of_nat (length U)) else producer_of rd lo' r) ->
  (forall r p, rd' !! r = Some p -> p = INVALID_SEQNR \/ p = Z.of_nat (length U) \/ rd !! r = Some p) ->
  represents (md_producers md') (stores_from lo U ++ store_record (length U) d) ->
  md_membar md' = md_membar md \/ (md_membar md' = Z.of_nat (length U) /\ is_fence d = true) -> DepsOk cfg (U ++ [d]) lo rd' md'.
Proof.
  intros [Hrl Hrp _ Hsz Hf] Hlo Hmax Erl Esz Hrp' Hin' Hst' Hmb. split.
  - congruence.
  - intros r lo' Hr Hle. rewrite last_index_snoc. destruct (Z.le_gt_cases lo' (Z.of_nat (length U))) as [Hle'|Hgt].
    + rewrite Hrp' by lia. unfold writes at 1. case_bool_decide; [|by apply Hrp]. unfold from_. cbn. by rewrite (proj2 (Z.leb_le _ _)) by lia.
    + transitivity (@None Z).
      * destruct (producer_of rd' lo' r) as [p|] eqn:Ep; [|done]. apply producer_of_Some in Ep as (Ep & Hni & ?).
        destruct (Hin' r p Ep) as [?|[?|Hp]]; [done|lia|]. assert (Hq : producer_of rd lo r = Some p) by (apply producer_of_Some; split_and!; [done..|lia]).
        rewrite Hrp in Hq by (done || lia). apply from_bound in Hq. lia.
      * destruct (from_ lo' _) as [p|] eqn:Ep; [|done]. destruct (writes r d).
        -- apply from_Some in Ep as (i & [= <-] & -> & ?). lia.
        -- apply from_bound in Ep. lia.
  - exists lo. split; [done|]. rewrite stores_from_snoc. unfold store_record in *. destruct (isStore (m_uop d)); [|by rewrite filter_nil].
    rewrite filter_cons, decide_True by (cbn; lia). by rewrite filter_nil.
  - congruence.
  - destruct Hmb as [->|[-> Hfe]].
    + destruct Hf as [->|(i & d' & -> & Hi & ?)]; [by left|]. right. exists i, d'. split_and!; try done. apply lookup_app_l_Some, Hi.
    + right. exists (length U), d. split_and!; try done. by rewrite list_lookup_middle.
Qed.

(** The tables of a core that nothing has entered. *)
Lemma DepsOk_new : DepsOk cfg [] 0 (rd_clear (XED_REG_LAST cfg)) MemoryDependencies_new.
Proof.
  split; [apply length_replicate| |exists 0; split; [done|]|done|by left].
  - intros r lo' Hr _. cbn. destruct (producer_of _ lo' r) as [p|] eqn:Ep; [|done]. apply producer_of_Some in Ep as (Ep & Hn & _).
    apply lookup_replicate in Ep as [-> _]. done.
  - exists 0. split; [|cbn; lia]. cbn [length]. apply (cq_ring_new 1024). lia.
Qed.

Lemma new_dependencies base U lo rd md d : UopIn cfg exec_max latency_max base U d -> 0 <= base -> DepsOk cfg U lo rd md -> 0 <= lo <= Z.of_nat (length U) -> Z.of_nat (length U) < 2 ^ 64 - 1 ->
  Z.of_nat (length U) - lo < 1024 ->
  exists rd' md' d1 d2, rd_setDependencies lo rd (setSequenceNumber (Z.of_nat (length U)) d) = Ok (rd', d1) /\ md_setDependencies lo md d1 = Ok (md', d2) /\
    DepsOk cfg (U ++ [d]) lo rd' md' /\ same_uop (setSequenceNumber (Z.of_nat (length U)) d) d2 /\ uop_ok d2 /\
    (forall y, y ∈ udeps d2 <-> wanted U lo md d y) /\
    Z.of_nat (length (udeps d2)) <= intraInstructionDependencies d + Z.of_nat (length (sourceRegisters (m_uop d))) + 2.
Proof.
  intros Hd Hbase0 [Hrl Hrp (b & Hb & Hst) Hsz Hf] Hlo Hmax Hcap. set (n := Z.of_nat (length U)) in *. set (d0 := setSequenceNumber n d).
  pose proof (ui_count _ _ _ _ _ _ Hd) as Hcount. pose proof (ui_intra _ _ _ _ _ _ Hd) as [Hof Hin]. pose proof (ui_base _ _ _ _ _ _ Hd) as Hbase. fold n in Hbase.
  assert (HM : Z.of_nat MAXIMUM_NUMBER_OF_DEPENDENCIES = 14) by done.
  set (ns := Z.of_nat (length (sourceRegisters (m_uop d)))) in *. assert (Hns : intraInstructionDependencies d + ns <= 6 /\ 0 <= ns) by (subst ns; destruct (_ || _); lia).
  assert (Hok0 : uop_ok d0). { split; cbn -[MAXIMUM_NUMBER_OF_DEPENDENCIES]; try lia; rewrite (ui_deps _ _ _ _ _ _ Hd); [by intros ? ?%elem_of_nil|cbn [length]; lia]. }
  assert (Hroom : forall k, intraInstructionDependencies d + k < 14 -> deps_room d0 k).
  { intros k Hk. unfold deps_room. cbn [intraInstructionDependencies dependencies d0 setSequenceNumber]. rewrite (ui_deps _ _ _ _ _ _ Hd). cbn [length]. lia. }
  assert (Hreg : forall r p, r ∈ sourceRegisters (m_uop d) -> producer_of rd lo r = Some p -> 0 <= p < n - microOpTypeOffset d).
  { intros r p Hr Hp. rewrite Hrp in Hp by (try lia; by apply (ui_sources _ _ _ _ _ _ Hd)).
    eapply peer_bound; [exact Hd| |exact Hp]. intros d' (Hi & _). auto. }
  destruct (rd_setDependencies_ok lo rd d0) as (rd' & d1 & E1 & Hrl' & Hrp' & Hin' & Hs1 & Hok1 & Hi1 & Hu1 & Hk1); try done.
  { intros r Hr. rewrite Hrl. by apply (ui_sources _ _ _ _ _ _ Hd). } { intros r Hr. rewrite Hrl. by apply (ui_destinations _ _ _ _ _ _ Hd). }
  { apply Hroom. cbn. fold ns. lia. } { cbn. lia. }
  change (m_uop d0) with (m_uop d) in *. fold ns in Hk1.
  assert (Hm1 : m_uop d1 = m_uop d /\ d_address d1 = d_address d /\ sequenceNumber d1 = n /\ microOpTypeOffset d1 = microOpTypeOffset d) by (by rewrite Hs1).
  destruct Hm1 as (Em & Ea & Esq & Eof).
  destruct (md_setDependencies_ok lo md d1 (stores_from b U)) as (md' & d2 & E2 & Hs2 & Hok2 & Hi2 & Hu2 & Hk2 & Hst' & Hsz' & Hmb); try done.
  { apply Hk1, Hroom. lia. }
  { intros _. rewrite md_live_stores by done. pose proof (stores_from_length lo U). lia. }
  { rewrite Em, Ea, Esq, Eof. intros Hl x Hx. rewrite md_live_stores, last_store_from in Hx by done. eapply peer_bound; [exact Hd| |exact Hx].
    intros d' (_ & Hi & _). unfold stores_to. by rewrite (Hi Hl). }
  { rewrite Em, Esq, Eof. intros Hl x Hx. unfold fence_of in Hx. destruct (_ && _) eqn:Ex; [|done]. injection Hx as <-. apply andb_true_iff in Ex as [Ex ?].
    destruct Hf as [Hf|(i & d' & Hi & Hd' & Hfe)]; [by rewrite Hf in Ex|]. rewrite Hi. split; [lia|].
    destruct (Z.lt_ge_cases (Z.of_nat i) (n - microOpTypeOffset d)) as [|Hge]; [done|]. destruct (ui_peers _ _ _ _ _ _ Hd i d' Hge Hd') as (_ & _ & Hc).
    rewrite (Hc Hl) in Hfe. done. }
  rewrite md_live_stores in Hst' by done. rewrite md_live_stores, last_store_from, Em, Ea in Hu2 by done. rewrite Em, Ea, Esq in Hst'.
  exists rd', md', d1, d2. split_and!; try done.
  - apply (DepsOk_snoc U lo rd md rd' md' d); try done; [by split; eauto|].
    destruct Hmb as [?|(Hmb & ? & ? & ?)]; [by left|]. right. rewrite Hmb, Esq. split; [done|]. unfold is_fence. rewrite Em in *. by destruct (isLoad _), (isStore _).
  - by etrans.
  - intros y. rewrite Hu2, Hu1. unfold wanted. fold n.
    assert (y ∈ udeps d0 <-> n - microOpTypeOffset d - intraInstructionDependencies d <= y < n - microOpTypeOffset d) as ->.
    { unfold udeps. cbn [sequenceNumber microOpTypeOffset intraInstructionDependencies dependencies d0 setSequenceNumber]. rewrite (ui_deps _ _ _ _ _ _ Hd), app_nil_r, elem_of_seqZ. lia. }
    assert ((exists r, r ∈ sourceRegisters (m_uop d) /\ producer_of rd lo r = Some y) <->
      (exists r, r ∈ sourceRegisters (m_uop d) /\ from_ lo (last_index (writes r) U) = Some y)) as ->; [|tauto].
    split; intros (r & Hr & Hy); exists r; (split; [done|]); [rewrite <- Hrp|rewrite Hrp]; try done; try lia; by apply (ui_sources _ _ _ _ _ _ Hd).
  - assert (Hr2 : deps_room d2 (11 - intraInstructionDependencies d - ns)) by (apply Hk2, Hk1, Hroom; lia).
    rewrite <- length_udeps by done. unfold getDependenciesLength. destruct Hok2. unfold deps_room in Hr2. rewrite wrap_small by lia. lia.
Qed.
End new.
