(* ===== verification/RobIssue.v ===== *)
(** * Issue

    The effect of issuing one micro-operation on the invariant. *)

From stdpp Require Import sets functions.
From S2P Require Import Prelude StateMonad SubsecondTime ContentionModel CircularQueue MicroOp MicroOpFacts CoreModelNehalem RobTimer RobInvariant RobAccess RobState.
#[local] Open Scope Z_scope.

Section wake.
Context {C Mem : Type} (cfg : RobCfg) (lo hi : Z).
Context (Hhi : hi < 2 ^ 64 - 1).
Implicit Types (s : RobTimer C Mem) (E : Z -> RobEntry).
Abbreviation slot := (slot cfg).
Abbreviation Rep := (Rep cfg).

Definition producer_pending E (a : Z) : bool := (lo <=? a) && (done (E a) =? MaxTime).

Lemma runs_check_address E p cd l am rdy s (Q : _ -> RobTimer C Mem -> Prop) : Rep (rob s) lo hi E -> lo <= p < hi ->
  (forall n, lo <= n < hi -> sequenceNumber (re_uop (E n)) = n) -> (forall a, a ∈ l -> a < hi) ->
  Q (if bool_decide (p ∈ l) then Z.max am cd else am, rdy && negb (existsb (producer_pending E) l)) s ->
  runs (check_address (slot p) cd l am rdy) Q s.
Proof.
  intros HR Hp Hsq. revert am rdy. induction l as [|a l IH]; intros am rdy Hl HQ; cbn [check_address].
  { rstep. rewrite bool_decide_false in HQ by (by apply not_elem_of_nil). cbn in HQ. by rewrite andb_true_r in HQ. }
  assert (a < hi) by (apply Hl; left). assert (Hl' : forall b, b ∈ l -> b < hi) by (intros; apply Hl; by right).
  rstep. apply (runs_rob_front cfg lo hi E); [done|lia|]. rewrite Hsq by lia.
  cbn [existsb] in HQ. unfold producer_pending at 1 in HQ.
  destruct (Z.leb_spec lo a) as [Hle|Hlt].
  - rstep. apply (runs_find cfg lo hi E); [done|lia|lia|apply Hsq; lia|apply Hsq; lia|].
    rstep. apply (runs_entry cfg lo hi E); [done|lia|]. apply IH; [done|]. cbn [andb] in HQ.
    rewrite (bool_decide_ext (slot a = slot p) (a = p)).
    2: { split; [|by intros ->]. eapply Rep_slot_inj; [done|lia..]. }
    assert (Hr : (if done (E a) =? MaxTime then false else rdy) && negb (existsb (producer_pending E) l) =
      rdy && negb ((done (E a) =? MaxTime) || existsb (producer_pending E) l)).
    { destruct (done (E a) =? MaxTime), rdy; done. }
    rewrite Hr. destruct (decide (a = p)) as [->|Hne].
    + rewrite (bool_decide_true (p ∈ p :: l)) in HQ by left. rewrite (bool_decide_true (p = p)) by done.
      case_bool_decide; [|done]. by rewrite <- Z.max_assoc, Z.max_id.
    + rewrite (bool_decide_false (a = p)) by done. rewrite (bool_decide_ext (p ∈ a :: l) (p ∈ l)) in HQ; [done|].
      rewrite elem_of_cons. naive_solver.
  - apply IH; [done|]. rewrite (bool_decide_ext (p ∈ a :: l) (p ∈ l)) in HQ; [done|]. rewrite elem_of_cons. split; [|auto].
    intros [->|?]; [lia|done].
Qed.

(** Telling one dependant. *)
Lemma runs_wake_dependant E p cd l n s : Rep (rob s) lo hi E -> EntInv slot lo hi E p (slot n :: l) -> 0 <= lo -> lo <= p < hi -> p < n < hi ->
  0 <= cd < MaxTime ->
  runs (wake_dependant (slot p) p cd (slot n))
    (fun _ s' => exists q e', s' = with_rob q s /\ Rep q lo hi (<[n := e']> E) /\ woken E lo p cd (E n) e') s.
Proof.
  intros HR HE H0 Hp Hn Hcd. assert (HnE : lo <= n < hi) by lia. unfold wake_dependant.
  rstep. apply (runs_entry cfg lo hi E); [done|lia|].
  destruct (ei_uop _ _ _ _ _ _ HE n HnE) as [Hok Hsq].
  assert (Hin : p ∈ deps_of (E n)).
  { apply elem_of_occ. destruct (ei_waking _ _ _ _ _ _ HE (proj1 Hp)) as (_ & -> & _); [|lia]. rewrite count_occ_cons_eq; [lia|done]. }
  assert (Hlen : 0 < getDependenciesLength (re_uop (E n))).
  { rewrite length_udeps by done. destruct (deps_of (E n)); [by apply elem_of_nil in Hin|cbn; lia]. }
  rewrite (proj2 (Z.ltb_lt _ _)) by done. do 2 rstep.
  destruct (removeDependency_ok _ p Hok Hin) as (d & Ed & Hs & Hokd & Hperm).
  rstep. eapply wpe_lift; [exact Ed|]. rewrite (length_udeps d) by done.
  set (e1 := with_ready _ _ _). rstep. apply runs_set_entry.
  assert (HR1 : Rep (cq_set (slot n) (Some e1) (rob s)) lo hi (<[n := e1]> E)) by (by apply Rep_set).
  assert (Hr : ready e1 = if bool_decide (udeps d = []) then readyMax e1 else ready (E n)).
  { cbn. by destruct (udeps d). }
  assert (Hm : m_uop d = uop_of (E n)) by (by rewrite (same_uop_m _ _ Hs)). rewrite Hm.
  assert (Hun : done (E n) = MaxTime).
  { destruct (decide (done (E n) = MaxTime)) as [|Hx]; [done|]. apply (ei_issued _ _ _ _ _ _ HE n HnE) in Hx. by rewrite Hx in Hin; apply elem_of_nil in Hin. }
  destruct (isStore (uop_of (E n)) && _) eqn:Est.
  - apply andb_true_iff in Est as [Est Ear]. apply Z.eqb_eq in Ear.
    destruct (ei_store _ _ _ _ _ _ HE n HnE Hun Est) as (_ & Hap & _).
    rstep. apply (runs_check_address (<[n := e1]> E)); [done|lia| |  |].
    { intros m Hm'. destruct (decide (m = n)) as [->|]; [rewrite fn_lookup_insert; cbn; by rewrite Hs|].
      rewrite fn_lookup_insert_ne by done. by apply (ei_uop _ _ _ _ _ _ HE). }
    { intros a Ha. destruct (Hap a Ha). lia. }
    unfold upd_entry. rstep. apply (runs_entry cfg lo hi (<[n := e1]> E)); [done|lia|]. apply runs_set_entry. rewrite fn_lookup_insert.
    set (e2 := with_addressReady _ _ _). exists (cq_set (slot n) (Some e2) (cq_set (slot n) (Some e1) (rob s))), e2.
    split; [done|]. split. { eapply Rep_ext; [apply Rep_set; [exact HR1|lia]|]. intros m Hm'. destruct (decide (m = n)) as [->|].
      - by rewrite !fn_lookup_insert. - by rewrite !fn_lookup_insert_ne by done. }
    split; try done.
    unfold woken_address. rewrite Est, (proj2 (Z.eqb_eq _ _) Ear). cbn [andb]. split; [done|]. cbn [addressReady addressReadyMax e2 with_addressReady].
    assert (Hpend : forall a, producer_pending (<[n := e1]> E) a = producer_pending E a).
    { intros a. unfold producer_pending. destruct (decide (a = n)) as [->|]; [by rewrite fn_lookup_insert|by rewrite fn_lookup_insert_ne by done]. }
    destruct (existsb _ _) eqn:Ex; cbn [andb negb].
    + right. split; [done|]. apply existsb_exists in Ex as (a & Ha & Hpa). rewrite Hpend in Hpa. exists a. apply list_elem_of_In in Ha.
      apply andb_true_iff in Hpa as [? ?]. split_and!; [done|lia|lia].
    + left. split; [done|]. intros a Ha Hle Hd. assert (existsb (producer_pending (<[n:=e1]> E)) (addressProducers (E n)) = true); [|congruence].
      apply existsb_exists. exists a. rewrite <- list_elem_of_In. split; [done|]. rewrite Hpend. unfold producer_pending. by rewrite (proj2 (Z.leb_le _ _) Hle), Hd.
  - rstep. exists (cq_set (slot n) (Some e1) (rob s)), e1. split; [done|]. split; [done|]. split; try done.
    unfold woken_address. rewrite Est. done.
Qed.

Lemma runs_wake_dependants E p cd l s : Rep (rob s) lo hi E -> EntInv slot lo hi E p l -> 0 <= lo -> lo <= p < hi -> 0 <= cd < MaxTime ->
  runs (wake_dependants (slot p) p cd l)
    (fun _ s' => exists q E', s' = with_rob q s /\ Rep q lo hi E' /\ EntInv slot lo hi E' (-1) [] /\ (forall n, told p cd (E n) (E' n)) /\
       (forall n, ~ p < n < hi -> E' n = E n)) s.
Proof.
  revert E s. induction l as [|x l IH]; intros E s HR HE H0 Hp Hcd; cbn [wake_dependants].
  - rstep. exists (rob s), E. split_and!; [by destruct s|done|by eapply EntInv_woken_all|auto using told_refl|done].
  - destruct (ei_waking _ _ _ _ _ _ HE (proj1 Hp)) as (_ & _ & Hx). destruct (Hx x) as (n & Hn & ->); [left|].
    rstep. eapply wpe_mono; [by apply (runs_wake_dependant E p cd l n)|done|]. cbv beta.
    intros _ s' (q & e' & -> & HR' & Hw). eapply wpe_mono; [apply (IH (<[n := e']> E))|done|].
    + done.
    + eapply EntInv_wake; try done. intros a b Ha Hb. eapply Rep_slot_inj; [done|lia..].
    + done.
    + done.
    + done.
    + intros _ s' (q' & E' & -> & ? & ? & Ht & Hf). exists q', E'. split_and!; try done.
      * intros m. eapply told_trans; [|exact (Ht m)]. destruct (decide (m = n)) as [->|].
        -- rewrite fn_lookup_insert. by eapply woken_told.
        -- rewrite fn_lookup_insert_ne by done. apply told_refl.
      * intros m Hm. rewrite Hf by done. rewrite fn_lookup_insert_ne; [done|]. intros <-. lia.
Qed.
End wake.

(** ** Entries when one of them is issued *)

Section entries.
Context (period exec_max latency_max : Z).
Implicit Types (e : RobEntry) (E : Z -> RobEntry).
Abbreviation EntOk := (EntOk period exec_max latency_max).
Abbreviation result_time := (result_time period).
Abbreviation span := (span period latency_max).

Lemma same_uop_fields d d' : same_uop d d' -> m_uop d' = m_uop d /\ execLatency d' = execLatency d /\ dCacheHitWhere d' = dCacheHitWhere d /\
  iCacheHitWhere d' = iCacheHitWhere d /\ iCacheLatency d' = iCacheLatency d /\ branchMispredicted d' = branchMispredicted d /\ same_input d d'.
Proof. intros ->. by split_and!. Qed.

Lemma stable_result e e' : stable e e' -> result_time e' = result_time e.
Proof. intros [H _ Hi _]. destruct (same_uop_fields _ _ H) as (Hm & Hl & _). unfold RobState.result_time. by rewrite Hi, Hm, Hl. Qed.

Lemma EntOk_told p cd t e e' : told p cd e e' -> cd <= t + span -> EntOk t e -> EntOk t e'.
Proof.
  intros [Hst Hm Hr _ Hlen] Hcd [Ha Hro Hb Hw Hi0]. pose proof (stable_result _ _ Hst) as Hres. destruct Hst as [Hs Hdn Hi Hdi].
  destruct (same_uop_fields _ _ Hs) as (Em & El & Eh & Eih & Eil & _). split.
  - unfold hits_ok. by rewrite Eh, Eih, Eil.
  - rewrite Em. intros H. specialize (Hro H). lia.
  - by rewrite Hdi.
  - rewrite Hdn, El. intros H. destruct (Hw H) as (? & ? & ?). split_and!; [lia..|]. destruct Hr as [->|?]; [done|right; lia].
  - by rewrite Hdn, El, Hdi, Hi, Hres.
Qed.

(** [e] is issued at [t] as [e'] and its result can be used at [cd]. *)
Record issues (t cd : Z) (e e' : RobEntry) : Prop := {
  is_input : same_input (re_uop e) (re_uop e');
  is_deps : udeps (re_uop e') = [] /\ uop_ok (re_uop e') /\ sequenceNumber (re_uop e') = sequenceNumber (re_uop e);
  is_dispatched : dispatched e' = dispatched e;
  is_issued : issued e' = t;
  is_result : result_time e' = cd;
  is_done : done e' <> MaxTime;
  is_ok : EntOk t e'
}.

Lemma DataOk_issue lo E E' n cd t e' m p : DataOk period lo E m p -> 0 <= lo -> lo <= n -> deps_of (E n) = [] -> readyMax (E n) <= t -> done (E n) = MaxTime ->
  (forall k, 0 <= k < lo -> done (E k) <> MaxTime /\ result_time (E k) <= t) ->
  issues t cd (E n) e' -> (forall k, told n cd (<[n := e']> E k) (E' k)) -> DataOk period lo E' m p.
Proof.
  intros [Hp Hd] H0 Hn Hnil Hm Hun Hc [? ? ? Hi Hres Hdone _] Ht. split; [done|].
  assert (Hn' : done (E' n) <> MaxTime /\ issued (E' n) = t /\ result_time (E' n) = cd).
  { destruct (Ht n) as [Hst _ _ _ _]. rewrite fn_lookup_insert in Hst. rewrite (stable_result _ _ Hst), (st_done _ _ Hst), (st_issued _ _ Hst). done. }
  assert (Ho : forall k, k <> n -> told n cd (E k) (E' k)).
  { intros k Hk. specialize (Ht k). by rewrite fn_lookup_insert_ne in Ht by done. }
  assert (Hs : forall k, done (E k) <> MaxTime -> k <> n /\ done (E' k) = done (E k) /\ result_time (E' k) = result_time (E k) /\ issued (E' k) = issued (E k)).
  { intros k Hk. assert (k <> n) by (by intros ->). destruct (Ho k) as [Hst _ _ _ _]; [done|].
    rewrite (stable_result _ _ Hst), (st_done _ _ Hst), (st_issued _ _ Hst). done. }
  destruct (decide (m = n)) as [->|Hne].
  - destruct Hn' as (? & -> & _). rewrite decide_False by done. rewrite decide_True in Hd by done.
    assert (Hp' : done (E p) <> MaxTime /\ result_time (E p) <= t).
    { destruct Hd as [?|[Hd|[? ?]]]; [apply Hc; lia| |split; [done|lia]]. rewrite Hnil in Hd. by apply elem_of_nil in Hd. }
    destruct Hp' as [Hp' ?]. destruct (Hs p Hp') as (_ & -> & -> & _). done.
  - destruct (decide (done (E m) = MaxTime)) as [Hw|Hw].
    + destruct (Ho m Hne) as [Hst ? ? Htd _]. rewrite decide_True by (by rewrite (st_done _ _ Hst)).
      destruct Hd as [?|[Hd|[Hd ?]]]; [by left| |].
      * destruct (Htd p Hd) as [?|[-> ?]]; [by right; left|]. right; right. destruct Hn' as (? & _ & ->). done.
      * destruct (Hs p Hd) as (_ & -> & -> & _). right; right. split; [done|lia].
    + destruct (Hs m Hw) as (_ & -> & _ & ->). rewrite decide_False by done. destruct Hd as [Hd ?]. destruct (Hs p Hd) as (_ & -> & -> & _). done.
Qed.
End entries.

(** ** The steps of [issueInstruction] *)

(** The micro-operation after its memory access. *)
Definition accessed (latency_max : Z) (d d' : DynamicMicroOp) : Prop :=
  exists lat h, d' = MicroOp.with_memory (d_address d) lat h d /\ 0 <= lat < latency_max /\ HitWhereIsValid h = true.

Lemma accessed_fields latency_max d d' : accessed latency_max d d' -> latency_max < 2 ^ 32 -> same_input d d' /\ udeps d' = udeps d /\ (uop_ok d -> uop_ok d') /\
  sequenceNumber d' = sequenceNumber d /\ 0 <= execLatency d' < latency_max /\ HitWhereIsValid (dCacheHitWhere d') = true.
Proof.
  intros (lat & h & -> & Hl & Hh) Hm. split_and!; try done.
  - intros []. by split.
  - cbn. apply wrap_range. lia.
  - cbn. rewrite wrap_small; lia.
Qed.

Lemma wrap_le_self w x : 0 < w -> 0 <= x -> wrap w x <= x.
Proof. intros. unfold wrap. apply Z.mod_le; [done|]. apply Z.pow_pos_nonneg; lia. Qed.

(** A request makes no unit busy for longer than its own time after all others are free. *)
Lemma getCompletionTime_ok c t x tag b : queue_ok c -> 0 <= t <= b -> 0 <= x -> Forall (fun u => u.1 <= b) (m_time c) ->
  exists r c', getCompletionTime c t x tag = Ok (r, c') /\ queue_ok c' /\ m_num_outstanding c' = m_num_outstanding c /\ Forall (fun u => u.1 <= b + x) (m_time c').
Proof.
  unfold queue_ok. intros Hc Ht Hx Hb. assert (Hb' : Forall (fun u => u.1 <= b + x) (m_time c)) by (eapply Forall_impl; [exact Hb|]; cbn; lia).
  unfold getCompletionTime. destruct (Nat.eqb_spec (m_num_outstanding c) 0) as [|Hz]; [by eexists _, _|].
  destruct (st_eqb t 0); [by eexists _, _|]. destruct (st_ltb t _); [by eexists _, _|].
  destruct (find_unit_spec (m_time c) t (m_num_outstanding c) 0 0) as (u & v & -> & Hu & _).
  { by rewrite Hc. } { destruct (aget_lt (m_time c) 0) as (v & _ & Hv); [lia|]. exists v. split; [done|]. lia. }
  cbn [mbind res_bind]. rewrite (proj2 (aget_ok _ _ _) Hu). cbn [mbind res_bind].
  rewrite aset_lt by (by eapply lookup_lt_Some). cbn [mbind res_bind]. eexists _, _. split; [done|]. cbn. rewrite length_insert. split_and!; try done.
  apply Forall_insert; [done|]. cbn. pose proof (Forall_lookup_1 _ _ _ _ Hb Hu) as Hv. cbn in Hv. unfold st_ltb, st_add.
  destruct (Z.ltb_spec t v.1); (etrans; [apply wrap_le_self; lia|lia]).
Qed.

Lemma hasFreeSlot_ok c t tag : queue_ok c -> queue_ok (hasFreeSlot c t tag).2 /\ m_num_outstanding (hasFreeSlot c t tag).2 = m_num_outstanding c /\
  m_time (hasFreeSlot c t tag).2 = m_time c /\ (Forall (fun u => u.1 <= t) (m_time c) -> (1 <= m_num_outstanding c)%nat -> (hasFreeSlot c t tag).1 = true).
Proof.
  unfold hasFreeSlot, queue_ok. intros Hc. destruct (existsb _ _) eqn:Ex; split_and!; try done. intros Hall Hn.
  destruct (m_time c) as [|u l]; [cbn in Hc; lia|]. apply Forall_cons in Hall as [Hu _]. cbn in Ex. apply orb_false_iff in Ex as [Ex _].
  apply orb_false_iff in Ex as [Ex _]. unfold st_leb, st_gtb in Ex. apply negb_false_iff, Z.ltb_lt in Ex. lia.
Qed.

Section steps.
Context {C Mem : Type} `{!RobContention C} `{!RobContentionOk C} `{!CoreMemory Mem} `{!CoreMemoryOk Mem} {sl : Slack}.
Context (cfg : RobCfg) (period exec_max latency_max : Z) (Hcfg : CfgOk cfg period exec_max latency_max mem_max).
Implicit Types (s : RobTimer C Mem) (E : Z -> RobEntry).
Abbreviation span := (span period latency_max).

Lemma cycles_from_ok t n : 0 <= t -> 0 <= n <= latency_max + 1 -> t + span < MaxTime -> cycles_from period t n = t + period * n.
Proof.
  intros Ht Hn Hs. unfold cycles_from, st_add, st_mul. destruct Hcfg. unfold RobState.span, MaxTime in Hs.
  assert (0 <= period * n <= (latency_max + 1) * period) by nia. rewrite (wrap_small 64 (period * n)) by lia. apply wrap_small. lia.
Qed.

Lemma memory_cycles lat : 0 <= lat <= mem_max -> exists c, divideRounded lat period = Ok c /\ 0 <= c <= mem_max / period + 1.
Proof.
  intros Hl. destruct Hcfg. pose proof mem_max_range. unfold divideRounded. rewrite (proj2 (Z.eqb_neq _ _)) by lia. eexists. split; [reflexivity|].
  assert (0 <= period / 2 + 1 <= period). { pose proof (Z.div_pos period 2). pose proof (Z.mul_div_le period 2). lia. }
  rewrite wrap_small by lia. split; [apply Z.div_pos; lia|].
  replace (mem_max / period + 1) with ((mem_max + 1 * period) / period) by (rewrite Z.div_add by lia; done). apply Z.div_le_mono; lia.
Qed.

Lemma runs_access_memory lo hi E n s Q : Rep cfg (rob s) lo hi E -> lo <= n < hi -> mem_ok (r_memory s) -> hits_ok latency_max (re_uop (E n)) ->
  0 <= execLatency (re_uop (E n)) <= exec_max ->
  (forall q m d, mem_ok m -> accessed latency_max (re_uop (E n)) d -> Rep cfg q lo hi (<[n := with_uop d (E n)]> E) ->
     Q tt (with_rob q (with_memory m s))) ->
  runs (access_memory period (slot cfg n)) Q s.
Proof.
  intros HR Hn Hm (Hh & _) He HQ. unfold access_memory. rstep. apply (runs_entry cfg lo hi E); [done|lia|].
  destruct (_ && _).
  - do 2 rstep. destruct (accessMemory_ok (negb (isLoad (uop_of (E n)))) (d_address (re_uop (E n))) (memoryAccessSize (uop_of (E n)))
      (default 0 (uo_instruction (uop_of (E n)))) (now s) (r_memory s) Hm) as (lat & h & m & Ea & Hm' & Hl & Hv).
    rstep. eapply wpe_lift; [exact Ea|]. destruct (memory_cycles lat Hl) as (c & Ec & Hc). rstep. eapply wpe_lift; [exact Ec|].
    do 2 rstep. apply runs_set_entry. eapply HQ; [done| |by apply Rep_set].
    eexists _, _. split; [reflexivity|]. destruct Hcfg. split; [lia|done].
  - rstep. assert (HQ' : Q tt (with_rob (rob s) (with_memory (r_memory s) s))); [|by destruct s]. apply (HQ _ _ (re_uop (E n))); [done| |].
    + exists (execLatency (re_uop (E n))), (dCacheHitWhere (re_uop (E n))). pose proof mem_max_range. pose proof (Z.div_pos mem_max period).
      destruct Hcfg. split_and!; [|lia|lia|done]. unfold MicroOp.with_memory. rewrite wrap_small by lia. by destruct (re_uop (E n)).
    + eapply Rep_ext; [exact HR|]. intros m Hm'. destruct (decide (m = n)) as [->|]; [|by rewrite fn_lookup_insert_ne by done].
      rewrite fn_lookup_insert. by destruct (E n).
Qed.

Abbreviation limits_ok := (limits_ok cfg period latency_max).

Lemma limits_more k k' t sd lq sq (c : option C) : limits_ok k t sd lq sq c -> k <= k' -> limits_ok k' t sd lq sq c.
Proof.
  intros [H0 H1 [H2 H3] [H4 H5] H6] Hk. pose proof Hcfg as [_ _ _ ? ? _ ?]. assert (0 <= span) by (unfold RobState.span; nia). assert (k * span <= k' * span) by (by apply Z.mul_le_mono_nonneg_r).
  split; [lia|done|..|done]; (split; [done|]); (eapply Forall_impl; [eassumption|]); cbn; intros; lia.
Qed.

Lemma runs_use_queues d k s Q : queue_ok (load_queue s) -> queue_ok (store_queue s) -> stats_ok cfg (r_stats s) -> 0 <= execLatency d <= latency_max -> 0 <= now s ->
  limits_ok k (now s) (last_store_done s) (load_queue s) (store_queue s) (m_rob_contention s) ->
  (forall lq sq st, queue_ok lq -> queue_ok sq -> stats_ok cfg st -> limits_ok (k + 1) (now s) (last_store_done s) lq sq (m_rob_contention s) ->
     Q tt (with_stats st (with_load_queue lq (with_store_queue sq s)))) ->
  runs (use_queues period d) Q s.
Proof.
  intros Hl Hs [] He Hnow HL HQ. pose proof (li_count _ _ _ _ _ _ _ _ _ HL) as Hk. unfold use_queues, upd_stats. do 2 rstep. pose proof Hcfg as [_ _ _ ? ? _ ?].
  assert (Hx : 0 <= st_mul (execLatency d) period <= span).
  { unfold st_mul, RobState.span. pose proof (wrap_range 64 (execLatency d * period)). pose proof (wrap_le_self 64 (execLatency d * period) ltac:(lia) ltac:(nia)). nia. }
  pose proof (limits_more _ (k + 1) _ _ _ _ _ HL) as [L0 L1 [L2 L3] [L4 L5] L6]; [lia|]. destruct HL as [_ _ [_ M3] [_ M5] _].
  assert (Hsp : 0 <= k * span) by (apply Z.mul_nonneg_nonneg; [done|unfold RobState.span; nia]).
  assert (Hle : forall u : Z * Z, u.1 <= now s + k * span + st_mul (execLatency d) period -> u.1 <= now s + (k + 1) * span) by (intros; lia).
  destruct (isLoad (m_uop d)); [|destruct (isStore (m_uop d))].
  - destruct (getCompletionTime_ok (load_queue s) (now s) (st_mul (execLatency d) period) (d_address d) (now s + k * span) Hl) as (r & c & Ec & Hc & Hn & Hb); [lia|lia|done|].
    rstep. eapply wpe_lift; [exact Ec|]. rsteps. cbn. eapply (HQ c (store_queue s)); [done|done|by split|]. split; try done. split; [congruence|]. by eapply Forall_impl.
  - destruct (getCompletionTime_ok (store_queue s) (now s) (st_mul (execLatency d) period) (d_address d) (now s + k * span) Hs) as (r & c & Ec & Hc & Hn & Hb); [lia|lia|done|].
    rstep. eapply wpe_lift; [exact Ec|]. rsteps. cbn. eapply (HQ (load_queue s) c); [done|done|by split|]. split; try done. split; [congruence|]. by eapply Forall_impl.
  - rstep. specialize (HQ (load_queue s) (store_queue s) (r_stats s) Hl Hs). destruct s. apply HQ; by split.
Qed.

Abbreviation Inv := (Inv cfg period exec_max latency_max).

Lemma ready_no_deps U lo E s n : Inv U lo E s -> now s + span < MaxTime -> lo <= n < Z.of_nat (length U) -> done (E n) = MaxTime -> ready (E n) <= now s ->
  deps_of (E n) = [] /\ readyMax (E n) <= ready (E n).
Proof.
  intros HI Ht Hn Hu Hr. destruct (ei_ready _ _ _ _ _ _ (inv_ent _ _ _ _ _ _ _ _ HI) n Hn Hu) as (_ & H1 & H2).
  assert (0 < span). { unfold RobState.span. destruct Hcfg. nia. }
  destruct (decide (deps_of (E n) = [])) as [Hnil|Hnil]; [destruct (H1 Hnil); done|]. specialize (H2 Hnil). lia.
Qed.

Lemma store_address_ready U lo E s n : Inv U lo E s -> now s + span < MaxTime -> lo <= n < Z.of_nat (length U) -> done (E n) = MaxTime ->
  ready (E n) <= now s -> isStore (uop_of (E n)) = true -> addressReady (E n) <= ready (E n).
Proof.
  intros HI Ht Hn Hu Hr Hst. destruct (ready_no_deps _ _ _ _ _ HI Ht Hn Hu Hr) as [Hnil Hm].
  destruct (ei_store _ _ _ _ _ _ (inv_ent _ _ _ _ _ _ _ _ HI) n Hn Hu Hst) as (H1 & H2 & [->|(_ & a & Ha & Hle & Hx)]); [lia|].
  exfalso. destruct (H2 a Ha) as [Hlt H3]. destruct Hx as [Hx|[-> Hx]]; [specialize (H3 Hle Hx)|]; rewrite Hnil in *; by eapply elem_of_nil.
Qed.

(** What is left to show of the state after a micro-operation has been issued. *)
Lemma Inv_issue U lo E s n e' cd E' s' : Inv U lo E s -> now s + span < MaxTime -> lo <= n < lo + m_num_in_rob s -> done (E n) = MaxTime -> ready (E n) <= now s ->
  issues period exec_max latency_max (now s) cd (E n) e' -> cd <= now s + span ->
  (forall k, told n cd (<[n := e']> E k) (E' k)) -> (forall k, ~ n < k < Z.of_nat (length U) -> E' k = <[n := e']> E k) ->
  Rep cfg (rob s') lo (Z.of_nat (length U)) E' -> EntInv (slot cfg) lo (Z.of_nat (length U)) E' (-1) [] ->
  nextSequenceNumber s' = nextSequenceNumber s -> m_num_in_rob s' = m_num_in_rob s -> m_rs_entries_used s' = u64 (m_rs_entries_used s - 1) ->
  now s' = now s -> registerDependencies s' = registerDependencies s -> memoryDependencies s' = memoryDependencies s -> r_trace s' = r_trace s ->
  (frontend_stalled_until s' <= now s + span \/
   (frontend_stalled_until s' = frontend_stalled_until s /\ ~ (uo_branch (uop_of (E n)) = true /\ branchMispredicted (re_uop (E n)) = true))) ->
  limits_ok (slack + (lo + m_num_in_rob s - m_rs_entries_used s + 1)) (now s) (last_store_done s') (load_queue s') (store_queue s') (m_rob_contention s') ->
  AuxOk cfg s' -> Inv U lo E' s'.
Proof.
  intros HI Ht Hn Hu Hr His Hcd Htold Hframe HR HE E1 E2 E3 E4 E5 E6 E7 Hf HL HA.
  pose proof (inv_num _ _ _ _ _ _ _ _ HI) as Hnum. pose proof (Rep_bounds _ _ _ _ _ HR) as Hlo.
  destruct (ready_no_deps _ _ _ _ n HI Ht) as [Hnil Hm]; [lia|done..|].
  assert (Ho : forall k, k <> n -> told n cd (E k) (E' k)).
  { intros k Hk. specialize (Htold k). by rewrite fn_lookup_insert_ne in Htold by done. }
  assert (Hn' : E' n = e') by (rewrite Hframe by lia; apply fn_lookup_insert).
  assert (Hlow : forall k, k < lo -> E' k = E k) by (intros k Hk; rewrite Hframe by lia; apply fn_lookup_insert_ne; lia).
  assert (Hw : waiting E' lo (m_num_in_rob s) = waiting E lo (m_num_in_rob s) - 1).
  { apply (waiting_issue E E' lo _ n); [done|done|rewrite Hn'; by apply is_done in His|]. intros k Hk. apply (Ho k Hk). }
  assert (Hrs : u64 (m_rs_entries_used s - 1) = m_rs_entries_used s - 1).
  { pose proof (waiting_pos E' lo (m_num_in_rob s)). pose proof (inv_rs _ _ _ _ _ _ _ _ HI). destruct Hcfg. apply wrap_small. lia. }
  destruct HI. split.
  - by rewrite E1.
  - done.
  - done.
  - by rewrite E2.
  - rewrite E2, E3, Hrs. lia.
  - by rewrite E4.
  - rewrite E4. intros k Hk. destruct (decide (k = n)) as [->|Hne]; [rewrite Hn'; apply His|]. eapply EntOk_told; [by apply Ho|done|]. auto.
  - rewrite E2. intros k Hk. destruct (Ho k) as [[_ -> _ ->] _ _ _ _]; [lia|]. auto.
  - rewrite E2. intros k Hk. destruct (decide (k = n)) as [->|Hne].
    + rewrite Hn', (is_dispatched _ _ _ _ _ _ _ His). auto.
    + destruct (Ho k Hne) as [[_ _ _ ->] _ _ _ _]. auto.
  - rewrite E2, E4. destruct Hf as [Hf|[-> Hnb]]; [by left|]. destruct inv_frontend as [?|(? & k & Hk & Hd & Hb)]; [by left|]. right. split; [done|].
    assert (k <> n) by (by intros ->). exists k. destruct (Ho k) as [[Hs -> _ _] _ _ _ _]; [done|]. destruct (same_uop_fields _ _ Hs) as (-> & _ & _ & _ & _ & -> & _). done.
  - intros k d Hk. eapply same_input_trans; [by apply inv_uops|]. destruct (decide (Z.of_nat k = n)) as [->|Hne].
    + rewrite Hn'. apply His.
    + destruct (Ho _ Hne) as [[Hs _ _ _] _ _ _ _]. by apply same_uop_fields.
  - intros m p Hd. apply (DataOk_issue period exec_max latency_max lo E E' n cd (now s) e'); [by apply inv_data|lia|lia|done|lia|done| |exact His|exact Htold].
    intros k Hk. destruct (lookup_lt_is_Some_2 (r_trace s) (Z.to_nat k)) as [x Hx]; [pose proof (tr_length _ _ _ _ _ inv_trace); lia|].
    destruct (tr_entry _ _ _ _ _ inv_trace _ _ Hx) as (_ & _ & _ & _ & Hd1 & Hd2). rewrite Z2Nat.id in Hd1, Hd2 by lia. split; [done|].
    destruct (inv_entry k ltac:(lia)) as [_ _ _ _ Hi]. destruct (Hi Hd1) as (_ & _ & ? & _). lia.
  - by rewrite E5, E6.
  - rewrite E4, E7. destruct inv_trace. split; try done. intros i x Hx. rewrite Hlow; [by apply tr_entry|]. apply lookup_lt_Some in Hx. lia.
  - rewrite E2, E3, E4, Hrs. by replace (_ - (m_rs_entries_used s - 1)) with (lo + m_num_in_rob s - m_rs_entries_used s + 1) by lia.
  - done.
Qed.

(** The entry of a micro-operation that is issued at [t]. *)
Lemma issues_entry t e d : accessed latency_max (re_uop e) d -> EntOk period exec_max latency_max t e -> uop_ok (re_uop e) -> udeps (re_uop e) = [] ->
  dispatched e <> None -> done e = MaxTime -> 0 <= t -> t + span < MaxTime ->
  let k := if isStore (uop_of e) then 1 else execLatency d in
  let dn := if isStore (uop_of e) then t + period else t + period * (execLatency d + 1) in
  issues period exec_max latency_max t (t + period * k) e (with_issued t dn (with_uop d e)) /\
  t + period * k <= t + span /\ 0 <= t + period * k < MaxTime /\ t + period <= dn /\ dn <= t + span.
Proof.
  intros Ha [Hh _ Hdi Hw _] Hok Hnil Hd Hu Ht Hs k dn. pose proof Hcfg as [_ _ _ ? ? ? ?].
  destruct (accessed_fields _ _ _ Ha) as (Hin & Hud & Hok' & Hsq & Hex & Hhw); [lia|].
  assert (Hk : 0 <= k <= latency_max) by (subst k; destruct (isStore _); lia).
  assert (Hsp : span = (latency_max + 1) * period) by done.
  assert (Hdn : t + period <= dn /\ t + period * k <= dn <= t + period * k + period /\ dn <= t + span).
  { subst dn k. destruct (isStore (uop_of e)); nia. }
  assert (t + period * k <= t + span) by nia.
  split; [|split_and!; try lia; nia].
  pose proof Hin as (Em & _ & _ & _ & _ & Eih & Eil). split; try done; cbn [re_uop with_issued with_uop dispatched issued done].
  - rewrite Hud. auto.
  - unfold result_time. cbn [re_uop with_issued with_uop issued]. by rewrite Em.
  - lia.
  - destruct (dispatched e) as [x|] eqn:Ex; [|done]. destruct (Hdi x eq_refl). destruct Hh as (_ & ? & ?).
    split; cbn [re_uop with_issued with_uop dispatched issued done].
    + unfold hits_ok. rewrite Eih, Eil. done.
    + rewrite Hud, Hnil. cbn. lia.
    + rewrite Ex. intros ? [= <-]. done.
    + lia.
    + intros _. rewrite Ex. unfold result_time. cbn [re_uop with_issued with_uop issued]. rewrite Em. fold k.
      split_and!; [eexists; split; [done|lia]|lia..].
Qed.

(** The times of the result and of the completion. *)
Lemma runs_issue_times (st : bool) lat a r (s : RobTimer C Mem) Q : 0 <= now s -> now s + span < MaxTime -> 0 <= lat < latency_max -> (st = true -> a <= r) ->
  last_store_done s <= now s + span ->
  (forall x, x <= now s + span -> Q (now s + period * (if st then 1 else lat), if st then now s + period else now s + period * (lat + 1)) (with_last_store_done x s)) ->
  let cycle_depend := cycles_from period (now s) lat in
  let cycle_done := cycles_from period cycle_depend 1 in
  runs (if st then
       _ ← modify (fun s => with_last_store_done (Z.max (last_store_done s) cycle_done) s);
       _ ← assertM (a <=? r);
       mret (cycles_from period (now s) 1, cycles_from period (now s) 1)
     else mret (cycle_depend, cycle_done)) Q s.
Proof.
  intros H0 Hs Hl Ha Hd HQ. pose proof Hcfg as [_ _ _ ? ? ? ?]. cbv zeta.
  assert (E1 : cycles_from period (now s) 1 = now s + period) by (rewrite cycles_from_ok by lia; lia). rewrite E1.
  rewrite (cycles_from_ok (now s) lat) by lia.
  assert (E2 : cycles_from period (now s + period * lat) 1 = now s + period * (lat + 1)).
  { unfold cycles_from, st_add, st_mul. unfold RobState.span, MaxTime in Hs. rewrite Z.mul_1_r, (wrap_small 64 period) by lia. rewrite wrap_small by nia. lia. }
  rewrite E2. destruct st.
  - do 2 rstep. rewrite (proj2 (Z.leb_le _ _)) by auto. rsteps. rewrite Z.mul_1_r in HQ. apply HQ. unfold RobState.span in *. nia.
  - rstep. specialize (HQ (last_store_done s) Hd). by destruct s.
Qed.

Lemma runs_contention_issue d s Q : (forall c, m_rob_contention s = Some c -> c_ok c) ->
  (forall c, m_rob_contention s = Some c -> 0 <= c_now c <= now s /\ c_busy c <= now s + c_busy_max * period) ->
  (forall x, (forall c, x = Some c -> c_ok c /\ 0 <= c_now c <= now s /\ c_busy c <= now s + c_busy_max * period) -> Q tt (with_rob_contention x s)) ->
  runs (match m_rob_contention s with Some c => c ← lift_res (doIssue period d c); modify (with_rob_contention (Some c)) | None => mret tt end) Q s.
Proof.
  intros Hc Hl HQ. pose proof Hcfg as [_ _ _ ? ? ? ?]. destruct (m_rob_contention s) as [c|] eqn:Ec.
  - destruct (Hl c eq_refl) as [Hl1 Hl2]. destruct (doIssue_ok period d c (Hc c eq_refl)) as (c' & E' & Hc' & En & Hb); [lia|lia|].
    rstep. eapply wpe_lift; [exact E'|]. rstep. apply HQ. intros ? [= <-]. split_and!; try done; lia.
  - rstep. specialize (HQ None). destruct s. cbn in Ec. subst. by apply HQ.
Qed.

Lemma runs_isMispredicted u d s Q : m_uop d = u -> Q (uo_branch u && branchMispredicted d) s ->
  runs (if uo_branch u then lift_res (isBranchMispredicted d) else mret false : ST (RobTimer C Mem) bool) Q s.
Proof. intros <- HQ. unfold isBranchMispredicted. destruct (uo_branch (m_uop d)); by rsteps. Qed.

Lemma runs_redirect t (b : bool) s Q : 0 <= t -> t + span < MaxTime ->
  (forall f, (f <= t + span \/ (f = frontend_stalled_until s /\ b = false)) -> Q tt (with_frontend_stalled_until f s)) ->
  runs (if b then modify (with_frontend_stalled_until (cycles_from period t (u64 (misprediction_penalty cfg - 2)))) else mret tt) Q s.
Proof.
  intros H0 Hs HQ. pose proof Hcfg as [_ _ _ ? ? ? ?]. destruct b; rstep.
  - apply HQ. left. rewrite wrap_small by lia. rewrite cycles_from_ok by lia. unfold RobState.span. nia.
  - specialize (HQ (frontend_stalled_until s)). destruct s. apply HQ. by right.
Qed.

Lemma runs_issueInstruction U lo E s i ne : Inv U lo E s -> now s + span < MaxTime -> 0 <= i < m_num_in_rob s ->
  done (E (lo + i)) = MaxTime -> ready (E (lo + i)) <= now s ->
  runs (issueInstruction cfg period i ne) (fun r s' => exists E', Inv U lo E' s' /\ now s' = now s /\ m_num_in_rob s' = m_num_in_rob s /\
    (r_trace s', r_cpi s', in_icache_miss s') = (r_trace s, r_cpi s, in_icache_miss s) /\ m_rs_entries_used s' = m_rs_entries_used s - 1 /\
    done (E' (lo + i)) <> MaxTime /\ now s + period <= done (E' (lo + i)) /\ r = Z.min ne (done (E' (lo + i)))) s.
Proof.
  intros HI Ht Hi Hu Hr. set (n := lo + i) in *. pose proof (inv_num _ _ _ _ _ _ _ _ HI) as Hnum. pose proof (inv_rep _ _ _ _ _ _ _ _ HI) as HR.
  pose proof (Rep_bounds _ _ _ _ _ HR) as Hb. assert (Hn : lo <= n < lo + m_num_in_rob s) by lia. assert (HnU : lo <= n < Z.of_nat (length U)) by lia.
  destruct (ready_no_deps _ _ _ _ n HI Ht HnU Hu Hr) as [Hnil Hm]. pose proof (inv_ent _ _ _ _ _ _ _ _ HI) as HE.
  destruct (ei_uop _ _ _ _ _ _ HE n HnU) as [Hok Hsq]. assert (HEn : EntOk period exec_max latency_max (now s) (E n)) by (apply (inv_entry _ _ _ _ _ _ _ _ HI); lia).
  pose proof (inv_now _ _ _ _ _ _ _ _ HI) as H0. pose proof (inv_aux _ _ _ _ _ _ _ _ HI) as HA.
  unfold issueInstruction. rstep. apply (runs_rob_get cfg lo (Z.of_nat (length U)) E); [done|lia|]. fold n.
  destruct (eo_waiting _ _ _ _ _ HEn Hu) as (Hex & _). rstep. apply (runs_access_memory lo (Z.of_nat (length U)) E n); [done|done|apply HA|apply HEn|done|].
  intros q1 m d Hm1 Hacc HR1. rstep. apply (runs_entry cfg lo (Z.of_nat (length U)) (<[n := with_uop d (E n)]> E)); [done|done|]. rewrite fn_lookup_insert.
  destruct (accessed_fields _ _ _ Hacc) as ((Em & _ & _ & _ & Emp & _) & Hud & Hok' & Hsqd & Hexd & Hhw); [destruct Hcfg; lia|].
  pose proof (inv_rs _ _ _ _ _ _ _ _ HI) as [Ers Hrs]. pose proof (waiting_le E lo (m_num_in_rob s) ltac:(lia)) as Hwl. pose proof (waiting_one_pos E lo (m_num_in_rob s) n Hn Hu) as Hwp.
  cbn [re_uop with_uop]. destruct HA. rstep. apply (runs_use_queues d (slack + (lo + m_num_in_rob s - m_rs_entries_used s))); [done..|lia|done|apply HI|].
  rewrite <- Z.add_assoc. intros lq sq st Hlq Hsq' Hst [L0 L1 L2 L3 L4]. do 2 rstep.
  destruct (issues_entry (now s) (E n) d) as (His & Hcd & Hcd' & Hdn & Hdn'); [done..|by apply (inv_dispatched _ _ _ _ _ _ _ _ HI); lia|done|done|done|].
  cbn [addressReady ready with_uop]. rewrite Em.
  rstep. apply runs_issue_times; [done|done|lia|intros; by eapply store_address_ready|done|]. intros x Hx.
  set (dn := if isStore (uop_of (E n)) then now s + period else _) in *. set (cd := now s + period * (if isStore (uop_of (E n)) then 1 else execLatency d)) in *.
  do 2 rstep. rstep. apply runs_contention_issue; [done|done|]. intros c' Hc'. rstep. apply runs_set_entry.
  do 2 rstep. set (e' := with_issued (now s) dn (with_uop d (E n))) in *. rewrite Hsqd, Hsq. rstep.
  assert (HR2 : Rep cfg (cq_set (slot cfg n) (Some e') q1) lo (Z.of_nat (length U)) (<[n := e']> E)).
  { eapply Rep_ext; [by apply (Rep_set _ _ _ _ _ n e' HR1)|]. intros j _. destruct (decide (j = n)) as [->|]; [by rewrite !fn_lookup_insert|by rewrite !fn_lookup_insert_ne by done]. }
  eapply wpe_mono; [apply (runs_wake_dependants cfg lo (Z.of_nat (length U))) with (E := <[n := e']> E)|done|].
  { apply (inv_hi _ _ _ _ _ _ _ _ HI). } { done. }
  { apply (EntInv_issue _ _ _ E); [done|lia|done..| | | | ]; try (by apply His). destruct (is_deps _ _ _ _ _ _ _ His) as (_ & _ & ->). done. }
  { lia. } { lia. } { done. }
  cbv beta. intros _ s' (q2 & E' & -> & HR3 & HE3 & Htold & Hframe). rstep. apply runs_isMispredicted; [done|].
  rstep. apply runs_redirect; [done|done|]. intros f Hf. rstep. exists E'.
  assert (HEn' : E' n = e') by (rewrite Hframe by lia; apply fn_lookup_insert). rewrite HEn'.
  split; [|split_and!; [done|done|done|cbn; destruct Hcfg; apply wrap_small; lia|apply His|exact Hdn|done]].
  apply (Inv_issue U lo E s n e' cd E' _ HI Ht Hn Hu Hr His Hcd Htold Hframe); try done.
  - destruct Hf as [Hf|[-> Hf]]; [by left|]. right. split; [done|]. rewrite Emp in Hf. apply andb_false_iff in Hf. intros [? ?]. destruct Hf; congruence.
  - cbn. split; try done. intros y Hy. by apply Hc'.
  - split; try done. intros y Hy. by apply Hc'.
Qed.
End steps.
