(* ===== verification/RobCycle.v ===== *)
(** * Cycles of the out-of-order core

    Dispatch, issue and commit keep the invariant and do not fail, and so does a whole cycle. *)

From stdpp Require Import sets functions.
From S2P Require Import Prelude StateMonad SubsecondTime ContentionModel CircularQueue MicroOp MicroOpFacts CoreModelNehalem RobTimer RobInvariant RobAccess RobState RobIssue.
#[local] Open Scope Z_scope.

Section cycle.
Context {C Mem : Type} `{!RobContention C} `{!RobContentionOk C} `{!CoreMemory Mem} `{!CoreMemoryOk Mem} {sl : Slack}.
Context (cfg : RobCfg) (period exec_max latency_max : Z) (Hcfg : CfgOk cfg period exec_max latency_max mem_max).
Implicit Types (s : RobTimer C Mem) (E : Z -> RobEntry) (U : list DynamicMicroOp).
Abbreviation span := (span period latency_max).
Abbreviation Inv := (Inv cfg period exec_max latency_max).

(** What holds up the oldest micro-operation, apart from its operands, ends at [limit]. *)
Definition latest (l : list (Z * Z)) : Z := foldr (fun u t => Z.max u.1 t) 0 l.
Definition busy_until (c : option C) : Z := match c with Some c => c_busy c | None => 0 end.
Definition limit s : Z := Z.max (last_store_done s) (Z.max (latest (m_time (load_queue s))) (Z.max (latest (m_time (store_queue s))) (busy_until (m_rob_contention s)))).

Record same_limits s s' : Prop := {
  sl_done : last_store_done s' = last_store_done s;
  sl_load : (m_time (load_queue s'), m_num_outstanding (load_queue s')) = (m_time (load_queue s), m_num_outstanding (load_queue s));
  sl_store : (m_time (store_queue s'), m_num_outstanding (store_queue s')) = (m_time (store_queue s), m_num_outstanding (store_queue s));
  sl_busy : option_map c_now (m_rob_contention s') = option_map c_now (m_rob_contention s) /\ option_map c_busy (m_rob_contention s') = option_map c_busy (m_rob_contention s)
}.

(** Parts of the state that the entries do not depend on. *)
Record same_core s s' : Prop := {
  sc_rob : rob s' = rob s; sc_num : m_num_in_rob s' = m_num_in_rob s; sc_rs : m_rs_entries_used s' = m_rs_entries_used s;
  sc_now : now s' = now s; sc_front : frontend_stalled_until s' = frontend_stalled_until s; sc_seq : nextSequenceNumber s' = nextSequenceNumber s;
  sc_rd : registerDependencies s' = registerDependencies s; sc_md : memoryDependencies s' = memoryDependencies s;
  sc_trace : (r_trace s', r_cpi s', in_icache_miss s') = (r_trace s, r_cpi s, in_icache_miss s); sc_limits : same_limits s s'
}.

Lemma same_limits_refl s : same_limits s s.
Proof. done. Qed.
Lemma same_limits_trans s1 s2 s3 : same_limits s1 s2 -> same_limits s2 s3 -> same_limits s1 s3.
Proof. intros [? ? ? []] [? ? ? []]. split; [congruence..|split; congruence]. Qed.

Lemma limits_same k t s s' : same_limits s s' -> limits_ok cfg period latency_max k t (last_store_done s) (load_queue s) (store_queue s) (m_rob_contention s) ->
  limits_ok cfg period latency_max k t (last_store_done s') (load_queue s') (store_queue s') (m_rob_contention s').
Proof.
  intros [-> El Es [Ec Eb]] [H0 H1 H2 H3 H4]. injection El as El1 El2. injection Es as Es1 Es2. split; [done|done|by rewrite El1, El2|by rewrite Es1, Es2|].
  intros x Hx. rewrite Hx in Ec, Eb. destruct (m_rob_contention s) as [c|]; [|done]. injection Ec as ->. injection Eb as ->. by apply H4.
Qed.

Lemma limit_same s s' : same_limits s s' -> limit s' = limit s.
Proof.
  intros [H1 H2 H3 [_ H4]]. injection H2 as H2 _. injection H3 as H3 _. unfold limit. rewrite H1, H2, H3. do 3 f_equal.
  destruct (m_rob_contention s'), (m_rob_contention s); cbn in *; congruence.
Qed.

Lemma latest_le l t : latest l <= t -> Forall (fun u => u.1 <= t) l.
Proof. induction l as [|u l IH]; cbn; intros H; [done|]. fold (latest l) in H. constructor; [lia|apply IH; lia]. Qed.
Lemma latest_bound l t : 0 <= t -> Forall (fun u => u.1 <= t) l -> latest l <= t.
Proof. intros Ht. induction 1 as [|u l]; cbn in *; [lia|]. fold (latest l) in *. lia. Qed.

Lemma Inv_frame U lo E s s' : Inv U lo E s -> same_core s s' -> AuxOk cfg s' -> Inv U lo E s'.
Proof.
  intros HI [? ? ? ? ? ? ? ? ? Hl] HA. pose proof (limits_same _ _ _ _ Hl (inv_limits _ _ _ _ _ _ _ _ HI)) as HL. clear Hl.
  destruct s, s'. cbn in *. simplify_eq. destruct HI. by split.
Qed.

Lemma same_core_refl s : same_core s s.
Proof. done. Qed.
Lemma same_core_trans s1 s2 s3 : same_core s1 s2 -> same_core s2 s3 -> same_core s1 s3.
Proof. intros [] []. split; try congruence. by eapply same_limits_trans. Qed.

(** ** Issue *)

(** A time that the next cycle can be skipped to. *)
Definition event_ok (t ne : Z) : Prop := ne = MaxTime \/ ne <= t + span.

Lemma event_ok_min t a b : event_ok t a -> event_ok t b -> event_ok t (Z.min a b).
Proof. unfold event_ok. lia. Qed.

(** The loop is at the first entry that has not been issued. *)
Definition at_head (k : IssueState) : Prop :=
  num_issued k = 0 /\ head_of_queue k = true /\ no_more_load k = false /\ no_more_store k = false /\ have_unresolved_store k = false.
Definition slots_ok : Prop := (1 <= outstanding_loads cfg)%nat /\ (1 <= outstanding_stores cfg)%nat.

Lemma runs_slot_free (b : bool) s Q : AuxOk cfg s ->
  (forall r s', same_core s s' -> AuxOk cfg s' -> m_rob_contention s' = m_rob_contention s -> (limit s <= now s -> (1 <= m_num_outstanding (if b then load_queue s else store_queue s))%nat -> r = true) -> Q r s') ->
  runs (if b then load_slot_free else store_slot_free) Q s.
Proof.
  intros HA HQ. assert (Hlim : forall q, latest (m_time q) <= limit s -> limit s <= now s -> Forall (fun u => u.1 <= now s) (m_time q)) by (intros; apply latest_le; lia).
  destruct b.
  - unfold load_slot_free. do 2 rstep. pose proof (hasFreeSlot_ok (load_queue s) (now s) (2 ^ 64 - 1) (ao_load _ _ HA)) as (Hq & En & Et & Hf).
    destruct (hasFreeSlot _ _ _) as [b c]. cbn [fst snd] in *. rsteps. apply HQ; [by split; try split; cbn; rewrite ?En, ?Et|destruct HA; by split|done|].
    intros Hl. apply Hf, Hlim; [unfold limit; lia|done].
  - unfold store_slot_free. do 2 rstep. pose proof (hasFreeSlot_ok (store_queue s) (now s) (2 ^ 64 - 1) (ao_store _ _ HA)) as (Hq & En & Et & Hf).
    destruct (hasFreeSlot _ _ _) as [b c]. cbn [fst snd] in *. rsteps. apply HQ; [by split; try split; cbn; rewrite ?En, ?Et|destruct HA; by split|done|].
    intros Hl. apply Hf, Hlim; [unfold limit; lia|done].
Qed.

Lemma runs_can_issue k e s Q : AuxOk cfg s ->
  (forall r s', same_core s s' -> AuxOk cfg s' -> m_rob_contention s' = m_rob_contention s -> (r = Issue -> ready e <= now s) ->
     (at_head k -> ready e <= now s -> limit s <= now s -> (1 <= m_num_outstanding (load_queue s))%nat -> (1 <= m_num_outstanding (store_queue s))%nat -> r = Issue) -> Q r s') ->
  runs (can_issue cfg k e) Q s.
Proof.
  intros HA HQ. unfold can_issue. do 2 rstep. pose proof Hcfg as [? _ _ _ _ _ _].
  assert (Hret : forall r, (r = Issue -> ready e <= now s) -> (at_head k -> ready e <= now s -> limit s <= now s -> r = Issue) -> Q r s) by auto using same_core_refl.
  destruct (Z.ltb_spec (now s) (ready e)) as [|Hr]; [rstep; apply Hret; [done|lia]|].
  destruct (_ || _) eqn:Ef; [rstep; apply Hret; [done|]; intros (_ & _ & Hl & Hs & _); by rewrite Hl, Hs in Ef|]. clear Ef.
  assert (Hsd : limit s <= now s -> (last_store_done s <=? now s) = true) by (intros Hl; apply Z.leb_le; unfold limit in Hl; lia).
  destruct (serializing _); [rstep; apply Hret; [done|]; intros (_ & -> & _) _ Hl; by rewrite Hsd|].
  destruct (m_membar _); [rstep; apply Hret; [done|]; intros (_ & -> & _) _ Hl; by rewrite Hsd|].
  destruct (_ && _) eqn:Ew; [rstep; apply Hret; [done|]; intros (Hn & _); rewrite Hn in Ew; apply andb_true_iff in Ew as [_ ?]; lia|]. clear Hret Hsd Ew.
  set (u := m_uop (re_uop e)). rstep.
  apply (wpe_mono _ (fun _ => False) _ (fun b s1 => same_core s s1 /\ AuxOk cfg s1 /\ m_rob_contention s1 = m_rob_contention s /\ (limit s <= now s -> (1 <= m_num_outstanding (load_queue s))%nat -> b = true))); [|done|].
  { destruct (isLoad u); [|by rstep]. apply (runs_slot_free true); [done|]. auto. }
  intros b s1 (H1 & HA1 & Hc1 & Hb). destruct b; cbn [negb]; [|rstep; apply HQ; [done..|]; intros; by discriminate Hb].
  destruct (_ && _) eqn:Ea; [rstep; apply HQ; [done..|]; intros (_ & _ & _ & _ & Hh); rewrite Hh, andb_false_r in Ea; done|].
  assert (Hl1 : limit s1 = limit s) by apply limit_same, H1. assert (En1 : now s1 = now s) by apply H1. pose proof (sl_store _ _ (sc_limits _ _ H1)) as Eo. injection Eo as _ Eo.
  rstep. apply (wpe_mono _ (fun _ => False) _ (fun b s2 => same_core s s2 /\ AuxOk cfg s2 /\ m_rob_contention s2 = m_rob_contention s /\
    (head_of_queue k = true -> limit s <= now s -> (1 <= m_num_outstanding (store_queue s))%nat -> b = true))); [|done|].
  { destruct (isStore u); [|by rstep]. destruct (head_of_queue k); [|by rstep]. apply (runs_slot_free false); [done|].
    intros r s2 H2 HA2 Hc2 Hr2. split; [by eapply same_core_trans|]. split; [done|]. split; [congruence|]. intros _ ? ?. apply Hr2; [lia|by rewrite Eo]. }
  intros b s2 (H2 & HA2 & Hc2 & Hb2). rstep. apply HQ; [done..|]. intros (_ & Hh & _) _ Hl _ Hso. by rewrite Hb2.
Qed.

Definition starts_cycle s : Prop := forall c, m_rob_contention s = Some c -> exists c0, c_ok c0 /\ c = initCycle (now s) c0.

Lemma runs_try_port d r s Q : AuxOk cfg s ->
  (forall r' s', same_core s s' -> AuxOk cfg s' -> (r' = Issue -> r = Issue) -> (starts_cycle s -> limit s <= now s -> r = Issue -> r' = Issue) -> Q r' s') -> runs (try_port d r) Q s.
Proof.
  intros HA HQ. unfold try_port. do 2 rstep. assert (Q r s) as Hr by (by apply HQ). destruct r; try (rstep; exact Hr).
  destruct (m_rob_contention s) as [c|] eqn:Ec; [|by rstep]. destruct (tryIssue_ok d c (ao_contention _ _ HA c Ec)) as (b & c' & E' & Hc' & En & Eb).
  rstep. eapply wpe_lift; [exact E'|]. rsteps. apply HQ; [|destruct HA; split; try done; by intros ? [= <-]|done|].
  - split; try done. split; try done. cbn. rewrite Ec. cbn. by rewrite En, Eb.
  - intros Hst Hl _. destruct (Hst c Ec) as (c0 & Hc0 & ->). destruct (initCycle_ok (now s) c0 Hc0) as (_ & _ & Eb0).
    destruct (tryIssue_free (now s) d c0 Hc0) as (c1 & E1); [unfold limit in Hl; rewrite Ec in Hl; cbn in Hl; lia|]. rewrite E' in E1. by injection E1 as -> _.
Qed.

Lemma runs_account_memory e s Q : AuxOk cfg s -> (forall s', same_core s s' -> AuxOk cfg s' -> Q tt s') -> runs (account_memory cfg e) Q s.
Proof.
  intros HA HQ. unfold account_memory, isLongLatencyLoad. destruct (isLoad _) eqn:El; [|rstep; by apply HQ].
  rstep. eapply wpe_lift; [reflexivity|]. destruct (_ && _); [|rstep; by apply HQ]. do 2 rstep. unfold upd_stats. rstep. apply HQ; [done|].
  destruct HA as [? ? ? ? [] ? ?]. by split.
Qed.

(** What issuing leaves alone, and that it leaves everything alone when nothing is issued. *)
Record issue_keeps U lo E s E' s' : Prop := {
  ik_inv : Inv U lo E' s';
  ik_now : now s' = now s;
  ik_num : m_num_in_rob s' = m_num_in_rob s;
  ik_trace : (r_trace s', r_cpi s', in_icache_miss s') = (r_trace s, r_cpi s, in_icache_miss s);
  ik_rs : m_rs_entries_used s' <= m_rs_entries_used s;
  ik_quiet : m_rs_entries_used s' = m_rs_entries_used s -> E' = E /\ frontend_stalled_until s' = frontend_stalled_until s /\ limit s' = limit s
}.

Lemma issue_keeps_same U lo E s s' : Inv U lo E s' -> same_core s s' -> issue_keeps U lo E s E s'.
Proof. intros HI []. split; try done; [lia|]. intros _. split_and!; [done|done|by apply limit_same]. Qed.

Lemma issue_keeps_trans U lo E1 s1 E2 s2 E3 s3 : issue_keeps U lo E1 s1 E2 s2 -> issue_keeps U lo E2 s2 E3 s3 -> issue_keeps U lo E1 s1 E3 s3.
Proof.
  intros [_ ? ? ? ? H1] [? ? ? ? ? H2]. split; [done|congruence|congruence|congruence|lia|]. intros Heq.
  destruct H1 as (-> & Ef1 & Hs1); [lia|]. destruct H2 as (-> & Ef2 & Hs2); [lia|]. split_and!; [done|congruence|congruence].
Qed.

(** The oldest micro-operation that has not been issued can be. *)
Definition head_clear (lo : Z) E s : Prop := slots_ok /\ starts_cycle s /\ done (E lo) = MaxTime /\ ready (E lo) <= now s /\ limit s <= now s.

Lemma runs_issue_loop n i k U lo E s : Inv U lo E s -> now s + span < MaxTime -> 0 <= i -> i + Z.of_nat n <= m_num_in_rob s -> event_ok (now s) (i_next_event k) ->
  runs (issue_loop cfg period n i k) (fun ne s' => event_ok (now s) ne /\ (exists E', issue_keeps U lo E s E' s') /\
    ((0 < n)%nat -> at_head k -> head_clear (lo + i) E s -> m_rs_entries_used s' < m_rs_entries_used s)) s.
Proof.
  revert i k E s. induction n as [|n IH]; intros i k E s HI Ht Hi Hn Hk; cbn [issue_loop].
  { rstep. split; [done|]. split; [|lia]. exists E. by apply issue_keeps_same. }
  pose proof (inv_num _ _ _ _ _ _ _ _ HI) as Hnum. pose proof (inv_rep _ _ _ _ _ _ _ _ HI) as HR. pose proof (Rep_bounds _ _ _ _ _ HR) as Hb.
  rstep. apply (runs_rob_at cfg lo (Z.of_nat (length U)) E); [done|lia|]. rstep. apply (runs_entry cfg lo (Z.of_nat (length U)) E); [done|lia|].
  assert (HEn : EntOk period exec_max latency_max (now s) (E (lo + i))) by (apply (inv_entry _ _ _ _ _ _ _ _ HI); lia).
  destruct (Z.eqb_spec (done (E (lo + i))) MaxTime) as [Hu|Hd]; cbn [negb].
  2: { eapply wpe_mono; [apply (IH (i + 1) _ E); [done|done|lia|lia|]|done|].
    - apply event_ok_min; [done|]. right. apply (eo_issued _ _ _ _ _ HEn Hd).
    - cbv beta. intros ne s' (? & ? & _). split_and!; try done. intros _ _ (_ & _ & ? & _). done. }
  assert (Hne : event_ok (now s) (Z.min (i_next_event k) (ready (E (lo + i))))).
  { apply event_ok_min; [done|]. apply (eo_waiting _ _ _ _ _ HEn Hu). }
  rstep. apply runs_can_issue; [apply HI|]. intros r1 s1 H1 HA1 Hc1 Hr1 Hp1. rstep. apply runs_try_port; [done|]. intros r s2 H2 HA2 Hr2 Hp2.
  assert (Hs2 : same_core s s2) by (by eapply same_core_trans). pose proof (Inv_frame _ _ _ _ _ HI Hs2 HA2) as HI2. pose proof (issue_keeps_same _ _ _ _ _ HI2 Hs2) as K2.
  assert (Hhead : at_head k -> head_clear (lo + i) E s -> r = Issue).
  { intros Hat ([Hs1 Hs2'] & Hst & _ & Hrd & Hl). destruct (inv_limits _ _ _ _ _ _ _ _ HI) as [_ _ [El _] [Es _] _]. apply Hp2; [|rewrite (limit_same _ _ (sc_limits _ _ H1)), (sc_now _ _ H1); done|apply Hp1; try done; lia].
    intros c. rewrite Hc1, (sc_now _ _ H1). apply Hst. }
  assert (Hret : forall ne s', event_ok (now s) ne -> (exists E', issue_keeps U lo E s E' s') -> r <> Issue -> event_ok (now s) ne /\ (exists E', issue_keeps U lo E s E' s') /\
    ((0 < S n)%nat -> at_head k -> head_clear (lo + i) E s -> m_rs_entries_used s' < m_rs_entries_used s)) by (intros; split_and!; try done; intros; naive_solver).
  assert (Hwait : forall fence b, r <> Issue -> runs (t ← gets now; c ← gets m_rob_contention;
      if inorder cfg || (match c with Some c => noMore c | None => num_issued k =? dispatchWidth cfg end) then mret (Z.min (i_next_event k) (ready (E (lo + i))))
      else issue_loop cfg period n (i + 1) (mkIssue (num_issued k) false (no_more_load k || fence) (no_more_store k || fence)
         (have_unresolved_store k || (b && (t <? addressReady (E (lo + i))))) (Z.min (i_next_event k) (ready (E (lo + i))))))
      (fun ne s' => event_ok (now s) ne /\ (exists E', issue_keeps U lo E s E' s') /\
        ((0 < S n)%nat -> at_head k -> head_clear (lo + i) E s -> m_rs_entries_used s' < m_rs_entries_used s)) s2).
  { intros fence b Hr. pose proof K2 as [_ Enow En _ _ _]. do 4 rstep. destruct (_ || _); [rstep; eauto|]. eapply wpe_mono; [apply (IH (i + 1) _ E)|done|]; try (rewrite ?Enow; done || lia).
    cbv beta. intros ne s' (? & (E' & K') & _). rewrite Enow in *. apply Hret; [done| |done]. exists E'. by eapply issue_keeps_trans. }
  destruct r; [|by apply Hwait|by apply Hwait|rstep; eauto].
  pose proof K2 as [_ Enow En Etr Ers _]. rstep. eapply wpe_mono; [apply (runs_issueInstruction cfg period exec_max latency_max Hcfg U lo E)|done|]; try (rewrite ?Enow; done || lia).
  { rewrite Enow. auto. }
  cbv beta. intros ne s3 (E3 & HI3 & Enow3 & En3 & Etr3 & Ers3 & Hd3 & _ & ->).
  assert (K3 : issue_keeps U lo E s E3 s3). { eapply issue_keeps_trans; [exact K2|]. split; try done; lia. }
  assert (HEn3 : EntOk period exec_max latency_max (now s3) (E3 (lo + i))) by (apply (inv_entry _ _ _ _ _ _ _ _ HI3); lia).
  assert (Hne3 : event_ok (now s) (Z.min (Z.min (i_next_event k) (ready (E (lo + i)))) (done (E3 (lo + i))))).
  { apply event_ok_min; [done|]. right. rewrite <- (ik_now _ _ _ _ _ _ K3). apply (eo_issued _ _ _ _ _ HEn3 Hd3). }
  rstep. apply (runs_entry cfg lo (Z.of_nat (length U)) E3); [apply HI3|lia|]. rstep. apply runs_account_memory; [apply HI3|]. intros s4 H4 HA4.
  pose proof (Inv_frame _ _ _ _ _ HI3 H4 HA4) as HI4. assert (K4 : issue_keeps U lo E s E3 s4) by (eapply issue_keeps_trans; [exact K3|by apply issue_keeps_same]). do 2 rstep.
  pose proof (sc_rs _ _ H4) as Ers4. pose proof K4 as [_ Enow4 En4 _ _ _].
  destruct (match m_rob_contention s4 with Some c => noMore c | None => _ end); [rstep; split; [done|]; split; [by exists E3|lia]|].
  eapply wpe_mono; [apply (IH (i + 1) _ E3)|done|]; try (rewrite ?Enow4; done || lia).
  cbv beta. intros ne s' (? & (E' & K') & _). rewrite Enow4 in *. split; [done|]. pose proof (ik_rs _ _ _ _ _ _ K'). split; [|lia]. exists E'. by eapply issue_keeps_trans.
Qed.

Lemma runs_doIssue U lo E s : Inv U lo E s -> now s + span < MaxTime ->
  runs (doIssue_rob cfg period) (fun ne s' => event_ok (now s) ne /\ (exists E', issue_keeps U lo E s E' s') /\
    (slots_ok -> 0 < m_num_in_rob s -> done (E lo) = MaxTime -> ready (E lo) <= now s -> limit s <= now s -> m_rs_entries_used s' < m_rs_entries_used s)) s.
Proof.
  intros HI Ht. unfold doIssue_rob. do 2 rstep. set (s1 := match m_rob_contention s with Some c => _ | None => s end).
  assert (Hs1 : issue_keeps U lo E s E s1 /\ starts_cycle s1).
  { pose proof (inv_aux _ _ _ _ _ _ _ _ HI) as [? ? Hok ? ? ? ?]. pose proof (inv_limits _ _ _ _ _ _ _ _ HI) as [? ? ? ? Hb]. pose proof (inv_now _ _ _ _ _ _ _ _ HI).
    unfold starts_cycle. subst s1. destruct (m_rob_contention s) as [c|] eqn:Ec; [|by split; [apply issue_keeps_same|intros ? ?; congruence]].
    destruct (Hb c eq_refl) as [Hn Hb']. destruct (initCycle_ok (now s) c (Hok c eq_refl)) as (Hi & En & Eb). split; [|intros ? [= <-]; eauto]. split; cbn; try done.
    - destruct HI. split; try done; split; try done; intros ? [= <-]; [rewrite En, Eb; cbn; split; [lia|done]|done].
    - intros _. split_and!; try done. unfold limit. cbn. by rewrite Ec, Eb. }
  destruct Hs1 as [K1 Hst]. pose proof K1 as [HI1 En Enum _ Ers Hq]. do 2 rstep. pose proof (inv_num _ _ _ _ _ _ _ _ HI1).
  eapply wpe_mono; [apply (runs_issue_loop _ _ _ U lo E s1 HI1); [by rewrite En|done|lia|by left]|done|].
  cbv beta. intros ne s' (? & (E' & K') & Hp). rewrite En in *. split; [done|]. split; [exists E'; by eapply issue_keeps_trans|].
  intros Hsl Hpos Hu Hr Hl. assert (El : limit s1 = limit s) by (subst s1; destruct Hq as (_ & _ & ?); [by destruct (m_rob_contention s)|done]).
  specialize (Hp ltac:(lia) ltac:(done)). rewrite Z.add_0_r in Hp. eapply Z.lt_le_trans; [apply Hp|done]. unfold head_clear. rewrite En, El. done.
Qed.

Lemma period_le_span : 1 <= period <= span.
Proof. pose proof Hcfg as [_ _ _ ? ? _ _]. unfold RobState.span. nia. Qed.

(** ** Dispatch *)

Lemma DataOk_same lo E E' n p : (forall k, done (E' k) = done (E k) /\ issued (E' k) = issued (E k) /\ re_uop (E' k) = re_uop (E k) /\ readyMax (E' k) = readyMax (E k)) ->
  DataOk period lo E n p -> DataOk period lo E' n p.
Proof.
  intros H [Hp Hd]. split; [done|]. destruct (H n) as (-> & -> & -> & ->). unfold result_time in *. destruct (H p) as (-> & -> & -> & _). done.
Qed.

Lemma Inv_dispatch U lo E s r q x y : Inv U lo E s -> now s + span < MaxTime -> let n := lo + m_num_in_rob s in
  n < Z.of_nat (length U) -> m_num_in_rob s < windowSize cfg -> m_rs_entries_used s < rsEntries cfg ->
  r = Z.max (ready (E n)) (now s + period) -> frontend_stalled_until s <= now s + span ->
  Rep cfg q lo (Z.of_nat (length U)) (<[n := with_dispatched (now s) r (E n)]> E) -> x = u64 (m_rs_entries_used s + 1) -> y = u64 (m_num_in_rob s + 1) ->
  Inv U lo (<[n := with_dispatched (now s) r (E n)]> E) (with_rs_entries_used x (with_num_in_rob y (with_rob q s))).
Proof.
  intros HI Ht n Hn Hw Hrs Hr Hf HR -> ->. pose proof Hcfg as [_ Hcw Hcrs _ Hper _ Hlat]. pose proof (Rep_bounds _ _ _ _ _ HR) as Hb. destruct HI.
  assert (Hu : done (E n) = MaxTime /\ dispatched (E n) = None) by (apply inv_window; lia). destruct Hu as [Hu _].
  assert (Hnum : u64 (m_num_in_rob s + 1) = m_num_in_rob s + 1) by (apply wrap_small; lia).
  assert (Hrs1 : u64 (m_rs_entries_used s + 1) = m_rs_entries_used s + 1) by (pose proof (waiting_pos E lo (m_num_in_rob s)); apply wrap_small; lia).
  assert (HnU : lo <= n < Z.of_nat (length U)) by lia. pose proof period_le_span.
  destruct (ei_ready _ _ _ _ _ _ inv_ent n HnU Hu) as (Hm & H1 & H2). pose proof (inv_entry n ltac:(lia)) as [Ha Hro Hb0 Hc _]. destruct (Hc Hu) as (Hx & Hm' & Hr').
  assert (Hsame : forall k, done (<[n := with_dispatched (now s) r (E n)]> E k) = done (E k) /\ issued (<[n := with_dispatched (now s) r (E n)]> E k) = issued (E k) /\
    re_uop (<[n := with_dispatched (now s) r (E n)]> E k) = re_uop (E k) /\ readyMax (<[n := with_dispatched (now s) r (E n)]> E k) = readyMax (E k)).
  { intros k. destruct (decide (k = n)) as [->|]; [by rewrite fn_lookup_insert|by rewrite fn_lookup_insert_ne by done]. }
  assert (Hlow : forall k, k <> n -> <[n := with_dispatched (now s) r (E n)]> E k = E k) by (intros; by rewrite fn_lookup_insert_ne by done).
  assert (HEI : EntInv (slot cfg) lo (Z.of_nat (length U)) (<[n := with_dispatched (now s) r (E n)]> E) (-1) []).
  { apply EntInv_dispatch; try done; try lia; [intros Hnil; destruct (H1 Hnil); lia|intros Hnil; specialize (H2 Hnil); lia]. }
  assert (Hn' : <[n := with_dispatched (now s) r (E n)]> E n = with_dispatched (now s) r (E n)) by apply fn_lookup_insert.
  set (E' := <[n := _]> E) in *. clearbody E'.
  split; cbn [nextSequenceNumber rob m_num_in_rob m_rs_entries_used now frontend_stalled_until registerDependencies memoryDependencies r_trace
    with_rs_entries_used with_num_in_rob with_rob]; rewrite ?Hnum, ?Hrs1; try done.
  - lia.
  - destruct inv_rs as [Ers Hle]. split; [|lia].
    rewrite waiting_split by lia. fold n. rewrite waiting_one, decide_True by (by rewrite (proj1 (Hsame n))).
    rewrite (waiting_ext E E' lo) by (intros; apply Hsame). lia.
  - intros k Hk. destruct (decide (k = n)) as [->|Hne]; [|rewrite Hlow by done; auto]. rewrite Hn'. split; cbn; try done.
    + intros ? [= <-]. lia.
    + intros _. split_and!; lia.
  - intros k Hk. rewrite Hlow by lia. apply inv_window. lia.
  - intros k Hk. destruct (decide (k = n)) as [->|Hne]; [by rewrite Hn'|]. rewrite Hlow by done. apply inv_dispatched. lia.
  - by left.
  - intros k d Hk. destruct (Hsame (Z.of_nat k)) as (_ & _ & -> & _). auto.
  - intros k p Hd. eapply DataOk_same; [exact Hsame|]. auto.
  - destruct inv_trace. split; try done. intros i x0 Hx0. rewrite Hlow; [by apply tr_entry|]. apply lookup_lt_Some in Hx0. lia.
  - by replace (lo + (m_num_in_rob s + 1) - (m_rs_entries_used s + 1)) with (lo + m_num_in_rob s - m_rs_entries_used s) by lia.
  - by destruct inv_aux.
Qed.

(** ** Commit *)

Lemma TraceOk_commit lo t E l x : TraceOk cfg lo t E l -> 0 <= lo -> x = (re_uop (E lo), mkTimes (dispatched (E lo)) (issued (E lo)) (done (E lo)) t) ->
  done (E lo) <> MaxTime -> done (E lo) <= t ->
  (forall i y, l !! i = Some y -> 1 <= commitWidth cfg -> Z.of_nat i <= lo - commitWidth cfg -> t_commit y.2 < t) -> TraceOk cfg (lo + 1) t E (l ++ [x]).
Proof.
  intros [] H0 -> Hd Hle Hw.
  assert (Hcase : forall i y, (l ++ [(re_uop (E lo), mkTimes (dispatched (E lo)) (issued (E lo)) (done (E lo)) t)]) !! i = Some y ->
    l !! i = Some y \/ (i = length l /\ y = (re_uop (E lo), mkTimes (dispatched (E lo)) (issued (E lo)) (done (E lo)) t))).
  { intros i y Hy. apply lookup_app_Some in Hy as [?|[Hge Hy]]; [by left|]. right. apply list_lookup_singleton_Some in Hy as [? <-]. split; [lia|done]. }
  split.
  - rewrite length_app. cbn. lia.
  - intros i y Hy. destruct (Hcase i y Hy) as [Hy'|[-> ->]]; [by apply tr_entry|]. rewrite tr_length. cbn. split_and!; try done; lia.
  - intros i j y z Hij Hy Hz. destruct (Hcase j z Hz) as [Hz'|[-> ->]].
    + destruct (Hcase i y Hy) as [Hy'|[-> ->]]; [by eapply tr_order|]. apply lookup_lt_Some in Hz'. lia.
    + cbn. destruct (Hcase i y Hy) as [Hy'|[-> ->]]; [|cbn; lia]. destruct (tr_entry i y Hy') as (_ & _ & _ & _ & _ & ?). lia.
  - intros i y z Hc Hy Hz. destruct (Hcase _ z Hz) as [Hz'|[Hi ->]].
    + destruct (Hcase i y Hy) as [Hy'|[-> ->]]; [by eapply tr_width|]. apply lookup_lt_Some in Hz'. lia.
    + cbn. destruct (Hcase i y Hy) as [Hy'|[-> _]]; [|lia]. apply (Hw i y Hy' Hc). lia.
Qed.

Lemma Inv_commit U lo E s q x : Inv U lo E s -> lo < Z.of_nat (length U) -> done (E lo) <= now s < MaxTime -> Rep cfg q (lo + 1) (Z.of_nat (length U)) E ->
  x = (re_uop (E lo), mkTimes (dispatched (E lo)) (issued (E lo)) (done (E lo)) (now s)) ->
  (forall i y, r_trace s !! i = Some y -> 1 <= commitWidth cfg -> Z.of_nat i <= lo - commitWidth cfg -> t_commit y.2 < now s) ->
  0 < m_num_in_rob s /\ Inv U (lo + 1) E (with_num_in_rob (u64 (m_num_in_rob s - 1)) (with_rob q (with_trace (r_trace s ++ [x]) s))).
Proof.
  intros HI Hlt Hd HR Hx Hw. pose proof (Rep_bounds _ _ _ _ _ (inv_rep _ _ _ _ _ _ _ _ HI)) as Hb. pose proof Hcfg as [_ Hcw _ _ _ _ _].
  destruct HI.
  assert (Hnum : 0 < m_num_in_rob s). { destruct (decide (m_num_in_rob s = 0)) as [E0|]; [|lia]. destruct (inv_window lo); lia. }
  split; [done|]. assert (Eu : u64 (m_num_in_rob s - 1) = m_num_in_rob s - 1) by (apply wrap_small; lia).
  split; cbn [nextSequenceNumber rob m_num_in_rob m_rs_entries_used now frontend_stalled_until registerDependencies memoryDependencies r_trace
    with_rs_entries_used with_num_in_rob with_rob with_trace]; rewrite ?Eu; try done.
  - apply EntInv_commit; [done|lia|lia].
  - lia.
  - destruct inv_rs as [Ers ?]. split; [|done]. rewrite Ers. replace (m_num_in_rob s) with (1 + (m_num_in_rob s - 1)) at 1 by lia.
    rewrite waiting_split by lia. rewrite waiting_one, decide_False by lia. lia.
  - intros n Hn. apply inv_window. lia.
  - intros n Hn. apply inv_dispatched. lia.
  - destruct inv_frontend as [?|(? & n & Hn & Hu & Hbr)]; [by left|]. right. split; [done|]. exists n. assert (n <> lo) by (intros ->; lia). split; [lia|done].
  - intros n p Hdep. destruct (inv_data n p Hdep) as [? Hx']. split; [done|]. destruct (decide _); [|done]. destruct Hx' as [?|?]; [left; lia|by right].
  - destruct inv_deps as [? Hp (b & Hbl & ?) ? ?]. split; try done. { intros r lo' ? ?. apply Hp; [done|lia]. } exists b. split; [lia|done].
  - subst x. apply TraceOk_commit; try done; lia.
  - by replace (lo + 1 + (m_num_in_rob s - 1) - m_rs_entries_used s) with (lo + m_num_in_rob s - m_rs_entries_used s) by lia.
  - by destruct inv_aux.
Qed.

(** ** The loops *)

Lemma Inv_stall U lo E s f : Inv U lo E s -> frontend_ok period latency_max lo (m_num_in_rob s) (now s) f E -> Inv U lo E (with_frontend_stalled_until f s).
Proof. intros HI Hf. destruct (inv_aux _ _ _ _ _ _ _ _ HI). destruct HI. by split. Qed.

(** What dispatch leaves alone. *)
Record dispatch_keeps U lo E s E' s' : Prop := {
  dk_inv : Inv U lo E' s';
  dk_now : now s' = now s;
  dk_trace : (r_trace s', r_cpi s') = (r_trace s, r_cpi s);
  dk_num : m_num_in_rob s <= m_num_in_rob s';
  dk_rs : m_num_in_rob s' - m_rs_entries_used s' = m_num_in_rob s - m_rs_entries_used s;
  dk_limit : limit s' = limit s;
  dk_quiet : m_num_in_rob s' = m_num_in_rob s -> E' = E
}.

Lemma dispatch_keeps_trans U lo E1 s1 E2 s2 E3 s3 : dispatch_keeps U lo E1 s1 E2 s2 -> dispatch_keeps U lo E2 s2 E3 s3 -> dispatch_keeps U lo E1 s1 E3 s3.
Proof. intros [_ ? ? ? ? ? H1] [? ? ? ? ? ? H2]. split; try congruence; try lia. intros ?. rewrite H2 by lia. apply H1. lia. Qed.

Lemma runs_dispatch_loop n j ne U lo E s : Inv U lo E s -> now s + span < MaxTime -> frontend_stalled_until s <= now s -> event_ok (now s) ne ->
  m_num_in_rob s + Z.of_nat n <= windowSize cfg -> 0 <= j <= dispatchWidth cfg -> lo + m_num_in_rob s + (dispatchWidth cfg - j) < Z.of_nat (length U) ->
  runs (dispatch_loop cfg period n j ne) (fun r s' => event_ok (now s) r.1 /\ (forall c, r.2 = Some c -> component_ok c) /\ (exists E', dispatch_keeps U lo E s E' s') /\
    (j = 0 -> (0 < n)%nat -> m_num_in_rob s = 0 -> m_num_in_rob s' = 0 -> in_icache_miss s = false /\ in_icache_miss s' = true)) s.
Proof.
  revert j ne E s. induction n as [|n IH]; intros j ne E s HI Ht Hf Hne Hw Hj Hlt; cbn [dispatch_loop].
  { rstep. split_and!; [done|done|by exists E|lia]. }
  pose proof (inv_num _ _ _ _ _ _ _ _ HI) as Hnum. pose proof (inv_rep _ _ _ _ _ _ _ _ HI) as HR. pose proof (Rep_bounds _ _ _ _ _ HR) as Hb.
  pose proof period_le_span. pose proof Hcfg as [Hdw _ Hrsc _ _ _ _].
  do 2 rstep. rewrite (ring_length _ lo (Z.of_nat (length U))) by apply HR. rewrite (proj2 (Z.ltb_lt _ _)) by lia. do 2 rstep.
  rstep. apply (runs_rob_at cfg lo (Z.of_nat (length U)) E); [done|lia|]. rstep. apply (runs_entry cfg lo (Z.of_nat (length U)) E); [done|lia|].
  set (nn := lo + m_num_in_rob s). assert (HnU : lo <= nn < Z.of_nat (length U)) by lia.
  destruct (Z.eqb_spec j (dispatchWidth cfg)); [rstep; split_and!; [done|done|by exists E|lia]|].
  pose proof (inv_entry _ _ _ _ _ _ _ _ HI nn ltac:(lia)) as HEn. destruct (eo_hits _ _ _ _ _ HEn) as (Hh1 & Hh2 & Hlat).
  set (miss := negb (iCacheHitWhere (re_uop (E nn)) =? HW_L1I)). destruct (miss && negb (in_icache_miss s)) eqn:Emiss.
  { do 2 rstep. rstep. apply andb_true_iff in Emiss as [_ Emiss]. apply negb_true_iff in Emiss. split_and!; [done|by intros ? [= <-]| |done]. exists E. split; try done.
    assert (Inv U lo E (with_frontend_stalled_until (cycles_from period (now s) (iCacheLatency (re_uop (E nn)))) s)) as HI'; [|by destruct HI' as [? ? ? ? ? ? ? ? ? ? ? ? ? ? ? []]].
    apply Inv_stall; [done|]. left. rewrite (cycles_from_ok cfg period exec_max latency_max Hcfg) by (lia || apply HI). unfold RobState.span. nia. }
  clear Emiss. rstep. apply (wpe_mono _ (fun _ => False) _ (fun _ s' => exists b, s' = with_in_icache_miss b s)); [|done|].
  { destruct miss; rstep; [by exists false|]. exists (in_icache_miss s). by destruct s. }
  intros _ s1 [b ->]. assert (HI1 : Inv U lo E (with_in_icache_miss b s)) by (by destruct HI as [? ? ? ? ? ? ? ? ? ? ? ? ? ? ? []]).
  pose proof (inv_rs _ _ _ _ _ _ _ _ HI) as [Ers Hrs]. pose proof (waiting_le E lo (m_num_in_rob s) ltac:(lia)) as Hwl. pose proof (waiting_pos E lo (m_num_in_rob s)).
  destruct (Z.eqb_spec (m_rs_entries_used s) (rsEntries cfg)). { rstep. split_and!; [done|by intros ? [= <-]|by exists E|]. cbn. lia. }
  rstep. apply runs_set_entry. do 2 rstep. set (r := Z.max (ready (E nn)) _).
  assert (Hr : r = Z.max (ready (E nn)) (now s + period)). { subst r. rewrite (cycles_from_ok cfg period exec_max latency_max Hcfg) by (lia || apply HI). by rewrite Z.mul_1_r. }
  pose proof (fun q HR' => Inv_dispatch U lo E _ r q _ _ HI1 Ht (proj2 HnU) ltac:(cbn; lia) ltac:(cbn; lia) Hr ltac:(cbn; lia) HR' eq_refl eq_refl) as HI2.
  specialize (HI2 _ (Rep_set _ _ _ _ _ nn (with_dispatched (now s) r (E nn)) HR HnU)). clear HI1.
  set (E' := <[nn := with_dispatched (now s) r (E nn)]> E) in *.
  assert (He : event_ok (now s) (Z.min ne r)).
  { apply event_ok_min; [done|]. destruct (inv_window _ _ _ _ _ _ _ _ HI nn ltac:(lia)) as [Hu _]. destruct (eo_waiting _ _ _ _ _ HEn Hu) as (_ & _ & [?|?]); [left|right]; lia. }
  match type of HI2 with RobState.Inv _ _ _ _ _ _ _ ?x => set (s2 := x) in *; assert (Hn2 : m_num_in_rob s2 = m_num_in_rob s + 1) by (cbn; apply wrap_small; lia);
    assert (Hr2 : m_rs_entries_used s2 = m_rs_entries_used s + 1) by (cbn; apply wrap_small; lia) end.
  assert (K2 : dispatch_keeps U lo E s E' s2) by (split; try done; lia).
  rstep. apply (runs_isMispredicted); [done|]. destruct (_ && _) eqn:Emp.
  - do 2 rstep. rstep. split_and!; [done|by intros ? [= <-]| |intros _ _ _ H1; change (m_num_in_rob s2 = 0) in H1; lia]. exists E'. destruct K2. split; try done. apply Inv_stall; [done|]. right. split; [done|].
    exists nn. change (lo <= nn < lo + m_num_in_rob s2 /\ done (E' nn) = MaxTime /\ uo_branch (uop_of (E' nn)) = true /\ branchMispredicted (re_uop (E' nn)) = true). rewrite Hn2. unfold E'. rewrite fn_lookup_insert. cbn. apply andb_true_iff in Emp as [? ?].
    destruct (inv_window _ _ _ _ _ _ _ _ HI nn ltac:(lia)). split_and!; try done; lia.
  - rewrite (wrap_small 32) by lia. eapply wpe_mono; [apply (IH (j + 1) _ E' s2 HI2); try done; lia|done|].
    cbv beta. intros r' s' (? & ? & (E3 & K3) & _). split_and!; [done|done|exists E3; by eapply dispatch_keeps_trans|]. pose proof (dk_num _ _ _ _ _ _ K3). lia.
Qed.

Lemma runs_findCpiComponent n i U lo E s Q : Inv U lo E s -> 0 <= i -> i + Z.of_nat n <= m_num_in_rob s ->
  (forall c, (forall x, c = Some x -> component_ok x) -> Q c s) -> runs (findCpiComponent n i) Q s.
Proof.
  revert i. induction n as [|n IH]; intros i HI Hi Hn HQ; cbn [findCpiComponent]; [by rstep; apply HQ|].
  pose proof (inv_num _ _ _ _ _ _ _ _ HI) as Hnum. pose proof (inv_rep _ _ _ _ _ _ _ _ HI) as HR. pose proof (Rep_bounds _ _ _ _ _ HR) as Hb.
  rstep. apply (runs_rob_at cfg lo (Z.of_nat (length U)) E); [done|lia|]. rstep. apply (runs_entry cfg lo (Z.of_nat (length U)) E); [done|lia|].
  do 2 rstep. destruct (_ <? _); [apply IH; [done|lia|lia|done]|]. rstep. apply HQ. intros x Hx.
  destruct (eo_hits _ _ _ _ _ (inv_entry _ _ _ _ _ _ _ _ HI (lo + i) ltac:(lia))) as (Hh & _).
  destruct (_ || _); [by injection Hx as <-|]. destruct (_ || _); [by injection Hx as <-|done].
Qed.

(** Nothing is dispatched into an empty window only while the front end is stalled, or because an instruction-cache miss begins. *)
Definition stays_empty s s' : Prop :=
  (now s < frontend_stalled_until s /\ frontend_stalled_until s' = frontend_stalled_until s /\ in_icache_miss s' = in_icache_miss s) \/
  (frontend_stalled_until s <= now s /\ in_icache_miss s = false /\ in_icache_miss s' = true).

Lemma runs_doDispatch U lo E s : Inv U lo E s -> now s + span < MaxTime ->
  (frontend_stalled_until s <= now s -> lo + m_num_in_rob s + dispatchWidth cfg < Z.of_nat (length U)) ->
  runs (doDispatch cfg period) (fun r s' => event_ok (now s) r.1 /\ component_ok r.2 /\ (exists E', dispatch_keeps U lo E s E' s') /\
    (m_num_in_rob s = 0 -> m_num_in_rob s' = 0 -> stays_empty s s')) s.
Proof.
  intros HI Ht Hlt. pose proof (inv_num _ _ _ _ _ _ _ _ HI) as Hnum. pose proof Hcfg as [Hdw Hww _ _ _ _ _]. unfold doDispatch. do 2 rstep. rstep.
  apply (wpe_mono _ (fun _ => False) _ (fun r s' => event_ok (now s) r.1 /\ (forall c, r.2 = Some c -> component_ok c) /\ (exists E', dispatch_keeps U lo E s E' s') /\
    (m_num_in_rob s = 0 -> m_num_in_rob s' = 0 -> stays_empty s s'))); [|done|].
  { destruct (Z.leb_spec (frontend_stalled_until s) (now s)) as [Hf|Hf].
    - specialize (Hlt Hf). rstep. eapply wpe_mono; [apply (runs_dispatch_loop _ _ _ U lo E s HI Ht Hf); [by left|lia..]|done|].
      intros [ne c] s' (? & Hc & (E' & K') & Hp). rsteps. split_and!; [done|done| |].
      + exists E'. destruct K' as [HI' ? ? ? ? ? ?]. split; try done. apply (Inv_frame _ _ _ s'); [done|done|]. by destruct (inv_aux _ _ _ _ _ _ _ _ HI').
      + intros H0 H1. right. split; [done|]. apply Hp; try done. lia.
    - rstep. split_and!; [by left|apply (inv_aux _ _ _ _ _ _ _ _ HI)|by exists E|]. intros. by left. }
  intros [ne cpi] s' (Hne & Hc & (E' & K') & Hp). do 2 rstep. rstep. pose proof K' as [HI' En _ _ _ _ _]. pose proof (inv_num _ _ _ _ _ _ _ _ HI') as Hnum'.
  apply (runs_findCpiComponent _ _ U lo E'); [done|lia|lia|]. intros c Hc'. rstep. split_and!; [| |by exists E'|done].
  - destruct (_ =? _); [done|]. apply event_ok_min; [|done]. destruct (inv_frontend _ _ _ _ _ _ _ _ HI') as [?|[? _]]; [right; lia|by left].
  - cbn [snd] in *. destruct cpi as [x|], c as [y|]; cbn; auto; by destruct (_ =? _); cbn; auto.
Qed.

(** What commit leaves alone. *)
Record commit_keeps U lo E s lo' s' : Prop := {
  ck_lo : lo <= lo';
  ck_inv : Inv U lo' E s';
  ck_now : now s' = now s;
  ck_cpi : r_cpi s' = r_cpi s;
  ck_num : m_num_in_rob s' = m_num_in_rob s - (lo' - lo);
  ck_rest : m_rs_entries_used s' = m_rs_entries_used s /\ limit s' = limit s /\ frontend_stalled_until s' = frontend_stalled_until s /\ in_icache_miss s' = in_icache_miss s
}.

Lemma commit_keeps_refl U lo E s : Inv U lo E s -> commit_keeps U lo E s lo s.
Proof. intros HI. split; try done; lia. Qed.
Lemma commit_keeps_trans U lo1 lo2 lo3 E s1 s2 s3 : commit_keeps U lo1 E s1 lo2 s2 -> commit_keeps U lo2 E s2 lo3 s3 -> commit_keeps U lo1 E s1 lo3 s3.
Proof. intros [? _ ? ? ? (? & ? & ? & ?)] [? ? ? ? ? (? & ? & ? & ?)]. split; try congruence; try lia. split_and!; congruence. Qed.

Lemma runs_commit_loop n c ins U lo E s : Inv U lo E s -> now s < MaxTime -> Z.of_nat n = Z.of_nat (length U) - lo -> 0 <= c -> (1 <= commitWidth cfg -> c < commitWidth cfg) ->
  (forall i y, r_trace s !! i = Some y -> Z.of_nat i < lo - c -> t_commit y.2 < now s) ->
  runs (commit_loop cfg n c ins) (fun _ s' => exists lo', commit_keeps U lo E s lo' s' /\ ((0 < n)%nat -> done (E lo) <= now s -> lo < lo')) s.
Proof.
  revert c ins lo s. induction n as [|n IH]; intros c ins lo s HI Ht Hn Hc Hcw Htr; cbn [commit_loop]; [rstep; exists lo; split; [by apply commit_keeps_refl|lia]|].
  pose proof (inv_rep _ _ _ _ _ _ _ _ HI) as HR. rstep. apply (runs_rob_front cfg lo (Z.of_nat (length U)) E); [done|lia|]. do 2 rstep.
  destruct (Z.ltb_spec (now s) (done (E lo))) as [|Hd]; [rstep; exists lo; split; [by apply commit_keeps_refl|lia]|].
  destruct (Rep_pop _ _ _ _ _ HR) as (q & Eq & HR'); [lia|]. rstep. eapply wpe_lift; [exact Eq|]. cbv iota. do 2 rstep.
  edestruct (Inv_commit U lo E s q) as [Hnum HI']; [done|lia|lia|done|reflexivity| |]. { intros i y Hy ? ?. apply (Htr i y Hy). lia. }
  pose proof (inv_num _ _ _ _ _ _ _ _ HI) as Hn0. pose proof Hcfg as [_ Hww _ _ _ _ _]. set (s' := with_num_in_rob _ _) in *.
  assert (K1 : commit_keeps U lo E s (lo + 1) s'). { split; try done; [lia|]. cbn. rewrite wrap_small by lia. lia. }
  destruct (Z.eqb_spec (c + 1) (commitWidth cfg)); [rstep; exists (lo + 1); split; [done|lia]|].
  eapply wpe_mono; [apply (IH (c + 1) _ (lo + 1) s' HI'); [done|lia|lia|lia|]|done|].
  - intros i y Hy Hi. cbn in Hy. apply lookup_app_Some in Hy as [Hy|[Hge Hy]]; [apply (Htr i y Hy); lia|].
    pose proof (tr_length _ _ _ _ _ (inv_trace _ _ _ _ _ _ _ _ HI)). lia.
  - cbv beta. intros _ s2 (lo' & K2 & _). exists lo'. split; [by eapply commit_keeps_trans|]. pose proof (ck_lo _ _ _ _ _ _ K2). lia.
Qed.

Definition committed_before (s : RobTimer C Mem) : Prop := forall i y, r_trace s !! i = Some y -> t_commit y.2 < now s.

Lemma runs_doCommit U lo E s : Inv U lo E s -> now s < MaxTime -> committed_before s ->
  runs (doCommit cfg) (fun r s' => event_ok (now s) r.2 /\ exists lo', commit_keeps U lo E s lo' s' /\ (lo < Z.of_nat (length U) -> done (E lo) <= now s -> lo < lo')) s.
Proof.
  intros HI Ht Htr. unfold doCommit. do 2 rstep. pose proof (inv_rep _ _ _ _ _ _ _ _ HI) as HR. pose proof (Rep_bounds _ _ _ _ _ HR) as Hb.
  rewrite (ring_length _ lo (Z.of_nat (length U))) by apply HR.
  rstep. eapply wpe_mono; [apply (runs_commit_loop _ 0 0 U lo E s HI Ht); [lia|lia|lia|]|done|]. { intros i y Hy _. by apply (Htr i). }
  cbv beta. intros ins s' (lo' & K' & Hp). pose proof K' as [Hlo HI' En _ _ _]. do 2 rstep. pose proof (inv_rep _ _ _ _ _ _ _ _ HI') as HR'. pose proof (Rep_bounds _ _ _ _ _ HR') as Hb'.
  assert (Hp' : exists lo', commit_keeps U lo E s lo' s' /\ (lo < Z.of_nat (length U) -> done (E lo) <= now s -> lo < lo')).
  { exists lo'. split; [done|]. intros ? ?. apply Hp; [lia|done]. }
  rewrite (ring_empty _ lo' (Z.of_nat (length U))) by apply HR'. destruct (Z.eqb_spec (Z.of_nat (length U)) lo').
  - rstep. split; [by left|done].
  - rstep. apply (runs_rob_front cfg lo' (Z.of_nat (length U)) E); [done|lia|]. rstep. split; [|done]. cbn.
    pose proof (inv_entry _ _ _ _ _ _ _ _ HI' lo' ltac:(lia)) as HE. destruct (decide (done (E lo') = MaxTime)) as [|Hd]; [by left|]. right.
    rewrite <- En. apply (eo_issued _ _ _ _ _ HE Hd).
Qed.
End cycle.
