(* ===== verification/RobExecute.v ===== *)
(** * A call of execute

    One call of [execute] keeps the invariant, does not fail, and adds the time that passes to one
    component of the CPI stack. *)

From stdpp Require Import sets functions.
From S2P Require Import Prelude StateMonad SubsecondTime ContentionModel CircularQueue MicroOp MicroOpFacts CoreModelNehalem RobTimer RobInvariant RobAccess RobState RobIssue RobCycle.
#[local] Open Scope Z_scope.

(** ** The CPI stack *)

Section totals.
Implicit Types (l : list Z).

Lemma total_pos l : Forall (Z.le 0) l -> 0 <= total l.
Proof. induction 1; [done|]. rewrite total_cons. lia. Qed.

Lemma total_lookup_le l i x : Forall (Z.le 0) l -> l !! i = Some x -> 0 <= x <= total l.
Proof.
  intros Hl. revert i. induction Hl as [|y l Hy Hl IH]; intros [|i] Hi; cbn in Hi; [done..|injection Hi as ->|].
  - pose proof (total_pos l Hl). rewrite total_cons. lia.
  - specialize (IH i Hi). rewrite total_cons. lia.
Qed.

Lemma total_replace l i x y : l !! i = Some x -> total (<[i := y]> l) = total l - x + y.
Proof.
  revert i. induction l as [|z l IH]; intros [|i] Hi; cbn in Hi; [done..|injection Hi as ->|].
  - change (<[0%nat := y]> (x :: l)) with (y :: l). rewrite !total_cons. lia.
  - change (<[S i := y]> (z :: l)) with (z :: <[i := y]> l). rewrite !total_cons, (IH i Hi). lia.
Qed.
End totals.

Lemma hit_where_index h : HitWhereIsValid h = true -> (Z.to_nat h < NUM_HITWHERES)%nat.
Proof. unfold HitWhereIsValid, NUM_HITWHERES. lia. Qed.

Lemma hit_where_nat h : HitWhereIsValid h = true -> Z.of_nat (Z.to_nat h) = h.
Proof. unfold HitWhereIsValid. lia. Qed.

Lemma cpi_parts k : (0 <= m_cpiBase k /\ 0 <= m_cpiBranchPredictor k /\ 0 <= m_cpiSerialization k /\ 0 <= m_cpiRSFull k /\
    Forall (Z.le 0) (m_cpiInstructionCache k) /\ Forall (Z.le 0) (m_cpiDataCache k)) ->
  m_cpiBase k <= cpi_total k /\ m_cpiBranchPredictor k <= cpi_total k /\ m_cpiSerialization k <= cpi_total k /\ m_cpiRSFull k <= cpi_total k /\
  total (m_cpiInstructionCache k) <= cpi_total k /\ total (m_cpiDataCache k) <= cpi_total k.
Proof.
  intros (? & ? & ? & ? & Hi & Hd). apply total_pos in Hi, Hd. unfold cpi_total. lia.
Qed.

Lemma cpi_add_ok c x k t : component_ok c -> cpi_ok t k -> 0 <= x -> t + x < 2 ^ 64 ->
  exists k', cpi_add c x k = Ok k' /\ cpi_ok (t + x) k' /\ cpi_total k' = cpi_total k + x.
Proof.
  intros Hc [Hp [Hli Hld] Ht] Hx Hlt. pose proof (cpi_parts k Hp) as (? & ? & ? & ? & ? & ?). pose proof Hp as (? & ? & ? & ? & Hi & Hd).
  destruct c as [| | | |h|h]; cbn [cpi_add].
  1-4: eexists; split; [reflexivity|]; unfold st_add; rewrite wrap_small by lia;
    split; [split; cbn; [split_and!; try done; lia|done|]|]; unfold cpi_total in *; cbn [m_cpiBase m_cpiBranchPredictor m_cpiSerialization m_cpiRSFull m_cpiInstructionCache m_cpiDataCache]; lia.
  - destruct (aget_lt (m_cpiInstructionCache k) (Z.to_nat h)) as (y & -> & Hy); [rewrite Hli; by apply hit_where_index|]. cbn [mbind res_bind].
    pose proof (total_lookup_le _ _ _ Hi Hy). unfold st_add. rewrite wrap_small by lia. eexists. split; [reflexivity|].
    split; [split; cbn|]; [split_and!; try done; apply Forall_insert; [done|lia]|by rewrite length_insert|..];
      unfold cpi_total in *; cbn [m_cpiBase m_cpiBranchPredictor m_cpiSerialization m_cpiRSFull m_cpiInstructionCache m_cpiDataCache];
      rewrite (total_replace _ _ _ _ Hy); lia.
  - destruct (aget_lt (m_cpiDataCache k) (Z.to_nat h)) as (y & -> & Hy); [rewrite Hld; by apply hit_where_index|]. cbn [mbind res_bind].
    pose proof (total_lookup_le _ _ _ Hd Hy). unfold st_add. rewrite wrap_small by lia. eexists. split; [reflexivity|].
    split; [split; cbn|]; [split_and!; try done; apply Forall_insert; [done|lia]|by rewrite length_insert|..];
      unfold cpi_total in *; cbn [m_cpiBase m_cpiBranchPredictor m_cpiSerialization m_cpiRSFull m_cpiInstructionCache m_cpiDataCache];
      rewrite (total_replace _ _ _ _ Hy); lia.
Qed.

(** ** Loads in flight *)

Lemma bucket_lt c : 0 < c -> (bucket c < MAX_OUTSTANDING)%nat.
Proof. unfold bucket. change MAX_OUTSTANDING with 32%nat. destruct (Z.leb_spec (Z.of_nat 32) c); lia. Qed.

Lemma add_at_ok i t l : (i < length l)%nat -> exists l', add_at i t l = Ok l' /\ length l' = length l.
Proof.
  intros Hi. unfold add_at. destruct (aget_lt l i Hi) as (x & -> & _). cbn. eexists. split; [reflexivity|]. by rewrite length_insert.
Qed.

(** The vectors for the places of a hit have the same lengths. *)
Definition same_lengths (l l' : list (list Z)) : Prop := length l' = length l /\ forall k v', l' !! k = Some v' -> exists v, l !! k = Some v /\ length v' = length v.

Lemma add_outstanding_ok h counts time l :
  (forall i c, counts !! i = Some c -> 0 < c -> exists v, l !! (h + i)%nat = Some v /\ length v = MAX_OUTSTANDING) ->
  exists l', add_outstanding h counts time l = Ok l' /\ same_lengths l l'.
Proof.
  revert h l. induction counts as [|c counts IH]; intros h l Hl; cbn [add_outstanding].
  { exists l. split; [done|]. split; [done|]. eauto. }
  assert (exists l1, (if 0 <? c then v ← aget l h; v ← add_at (bucket c) time v; Ok (<[h := v]> l) else Ok l) = Ok l1 /\ same_lengths l l1) as (l1 & -> & Hs1).
  { destruct (Z.ltb_spec 0 c) as [Hc|Hc]; [|exists l; split; [done|]; split; eauto]. destruct (Hl 0%nat c eq_refl Hc) as (v & Hv & Hlen). rewrite Nat.add_0_r in Hv.
    rewrite (proj2 (aget_ok _ _ v) Hv). cbn [mbind res_bind]. destruct (add_at_ok (bucket c) time v) as (v' & -> & Hv'); [rewrite Hlen; by apply bucket_lt|].
    cbn. eexists. split; [reflexivity|]. split; [by rewrite length_insert|]. intros k w Hw. destruct (decide (k = h)) as [->|Hne].
    - rewrite list_lookup_insert_eq in Hw by (by eapply lookup_lt_Some). injection Hw as <-. eauto.
    - rewrite list_lookup_insert_ne in Hw by done. eauto. }
  cbn [mbind res_bind]. destruct (IH (S h) l1) as (l' & E' & Hs').
  { intros i c' Hi Hc'. destruct (Hl (S i) c' Hi Hc') as (v & Hv & Hlen). rewrite Nat.add_succ_r in Hv.
    destruct (lookup_lt_is_Some_2 l1 (S h + i)) as [w Hw]. { rewrite (proj1 Hs1). by eapply lookup_lt_Some. }
    exists w. split; [done|]. destruct (proj2 Hs1 _ _ Hw) as (v0 & Hv0 & ->). cbn in Hv0. congruence. }
  exists l'. split; [done|]. destruct Hs1 as [H1 H2], Hs' as [H3 H4]. split; [congruence|]. intros k w Hw.
  destruct (H4 k w Hw) as (v & Hv & ?). destruct (H2 k v Hv) as (v0 & ? & ?). exists v0. split; [done|congruence].
Qed.

Section execute.
Context {C Mem : Type} `{!RobContention C} `{!RobContentionOk C} `{!CoreMemory Mem} `{!CoreMemoryOk Mem} {sl : Slack}.
Context (cfg : RobCfg) (period exec_max latency_max : Z) (Hcfg : CfgOk cfg period exec_max latency_max mem_max).
Implicit Types (s : RobTimer C Mem) (E : Z -> RobEntry) (U : list DynamicMicroOp).
Abbreviation span := (span period latency_max).
Abbreviation Inv := (Inv cfg period exec_max latency_max).

Definition counts_ok (counts : list Z) : Prop := length counts = NUM_HITWHERES /\
  forall h c, counts !! h = Some c -> 0 < c -> HitWhereIsValid (Z.of_nat h) = true.

Lemma runs_count_loads n i counts total U lo E s Q : Inv U lo E s -> 0 <= i -> i + Z.of_nat n <= m_num_in_rob s -> counts_ok counts ->
  (forall counts' total', counts_ok counts' -> Q (counts', total') s) -> runs (count_loads n i counts total) Q s.
Proof.
  intros HI. revert i counts total. induction n as [|n IH]; intros i counts total Hi Hn Hc HQ; cbn [count_loads]; [rstep; by apply HQ|].
  pose proof (inv_num _ _ _ _ _ _ _ _ HI) as Hnum. pose proof (inv_rep _ _ _ _ _ _ _ _ HI) as HR. pose proof (Rep_bounds _ _ _ _ _ HR) as Hb.
  rstep. apply (runs_rob_at cfg lo (Z.of_nat (length U)) E); [done|lia|]. rstep. apply (runs_entry cfg lo (Z.of_nat (length U)) E); [done|lia|]. do 2 rstep.
  destruct (_ && _); [|apply IH; [lia|lia|done|done]].
  destruct (eo_hits _ _ _ _ _ (inv_entry _ _ _ _ _ _ _ _ HI (lo + i) ltac:(lia))) as (Hh & _). set (h := dCacheHitWhere _) in *.
  destruct Hc as [Hlen Hv]. destruct (aget_lt counts (Z.to_nat h)) as (x & Ex & _); [rewrite Hlen; by apply hit_where_index|].
  rstep. eapply wpe_lift; [exact Ex|]. apply IH; [lia|lia| |done]. split; [by rewrite length_insert|]. intros k c Hk Hpos.
  destruct (decide (k = Z.to_nat h)) as [->|Hne]; [by rewrite hit_where_nat by done|]. rewrite list_lookup_insert_ne in Hk by done. eauto.
Qed.

Lemma runs_countOutstandingMemop time U lo E s Q : Inv U lo E s -> m_mlp_histogram cfg = true ->
  (forall st, stats_ok cfg st -> Q tt (with_stats st s)) -> runs (countOutstandingMemop time) Q s.
Proof.
  intros HI Hm HQ. unfold countOutstandingMemop. pose proof (inv_num _ _ _ _ _ _ _ _ HI) as Hnum. do 2 rstep.
  rstep. apply (runs_count_loads _ _ _ _ U lo E); [done|lia|lia| |].
  { split; [by rewrite length_replicate|]. intros h c Hc ?. apply lookup_replicate in Hc as [-> _]. lia. }
  intros counts total [Hlen Hv]. do 2 rstep. destruct (ao_stats _ _ (inv_aux _ _ _ _ _ _ _ _ HI)) as [Hd Hl]. destruct (Hl Hm) as (Hl1 & Hl2 & Hl3).
  destruct (add_outstanding_ok 0 counts time (m_outstandingLoads (r_stats s))) as (l' & El & Hs).
  { intros i c Hi Hc. destruct (lookup_lt_is_Some_2 (m_outstandingLoads (r_stats s)) i) as [v Hv'].
    { rewrite Hl1, <- Hlen. by eapply lookup_lt_Some. } exists v. split; [done|]. apply (Hl2 i v Hv'). eauto. }
  rstep. eapply wpe_lift; [exact El|].
  assert (exists a, (if 0 <? total then add_at (bucket total) time (m_outstandingLoadsAll (r_stats s)) else Ok (m_outstandingLoadsAll (r_stats s))) = Ok a /\
    length a = MAX_OUTSTANDING) as (a & Ea & Ha).
  { destruct (Z.ltb_spec 0 total); [|eauto]. destruct (add_at_ok (bucket total) time (m_outstandingLoadsAll (r_stats s))) as (a & -> & Ha);
      [rewrite Hl3; by apply bucket_lt|]. exists a. split; [done|congruence]. }
  rstep. eapply wpe_lift; [exact Ea|]. unfold upd_stats. rstep. apply HQ. split; cbn; [done|]. intros _. destruct Hs as [Hs1 Hs2]. split_and!; [congruence| |done].
  intros h v Hv' Hh. destruct (Hs2 h v Hv') as (v0 & Hv0 & ->). by apply (Hl2 h v0).
Qed.

(** ** Time passes *)

Lemma EntOk_later t t' e : t <= t' -> EntOk period exec_max latency_max t e -> EntOk period exec_max latency_max t' e.
Proof.
  intros Ht [Hh Hro Hd Hw Hi]. split; [done|done| | |].
  - intros x Hx. specialize (Hd x Hx). lia.
  - intros Hu. destruct (Hw Hu) as (? & ? & ?). split_and!; lia.
  - intros Hu. destruct (Hi Hu) as ((x & ? & ?) & ? & ? & ?). split_and!; try lia. exists x. split; [done|lia].
Qed.

Lemma limits_later k t t' sd lq sq (c : option C) : t <= t' -> limits_ok cfg period latency_max k t sd lq sq c -> limits_ok cfg period latency_max k t' sd lq sq c.
Proof.
  intros Ht [? ? [? H2] [? H3] H4]. split; [lia|lia|split; [done|]|split; [done|]|]; [eapply Forall_impl; [exact H2|]; cbn; lia|eapply Forall_impl; [exact H3|]; cbn; lia|].
  intros x Hx. destruct (H4 x Hx). lia.
Qed.

Lemma Inv_advance U lo E s t a b : Inv U lo E s -> now s <= t -> Inv U lo E (with_time_skipped a (with_now t (with_will_skip b s))).
Proof.
  intros HI Ht. destruct HI. split; cbn; try done.
  - lia.
  - intros n Hn. eapply EntOk_later; [exact Ht|]. auto.
  - destruct inv_frontend as [?|?]; [left; lia|by right].
  - destruct inv_trace. split; try done. intros i x Hx. destruct (tr_entry i x Hx) as (? & ? & ? & ? & ? & ?). split_and!; try done; lia.
  - by eapply limits_later.
  - destruct inv_aux. split; try done. destruct ao_cpi. split; try done. cbn. lia.
Qed.

(** [execute] has nothing to do: the front end is free and too few micro-operations wait for it. *)
Definition starved (lo : Z) U s : Prop := frontend_stalled_until s <= now s /\ Z.of_nat (length U) - lo < m_num_in_rob s + 2 * dispatchWidth cfg.

(** The stages that the micro-operations in the core still have to go through, dispatch counting twice. *)
Definition work (hi lo : Z) s : Z := (hi - lo) + m_rs_entries_used s + 2 * (hi - lo - m_num_in_rob s).

(** When the oldest micro-operation moves on. *)
Definition deadline (lo : Z) E s : Z := if decide (done (E lo) = MaxTime) then Z.max (ready (E lo)) (limit s) else done (E lo).

(** A call in which no micro-operation moves, before the deadline of the oldest one. *)
Record quiet lo E s lo' E' s' : Prop := {
  qu_same : lo' = lo /\ E' = E /\ m_num_in_rob s' = m_num_in_rob s /\ m_rs_entries_used s' = m_rs_entries_used s /\ limit s' = limit s;
  qu_deadline : slots_ok cfg -> 0 < m_num_in_rob s -> now s < deadline lo E s;
  qu_empty : m_num_in_rob s = 0 -> stays_empty s s'
}.

(** What a call of [execute] that took [lat] has done. *)
Record executed U lo E s (lat : Z) s' : Prop := {
  ex_inv : exists lo' E', lo <= lo' /\ Inv U lo' E' s' /\
    (lat = 0 \/ work (Z.of_nat (length U)) lo' s' < work (Z.of_nat (length U)) lo s \/ (quiet lo E s lo' E' s' /\ work (Z.of_nat (length U)) lo' s' = work (Z.of_nat (length U)) lo s));
  ex_commit : committed_before s';
  ex_now : now s' = now s + lat;
  ex_cpi : cpi_total (r_cpi s') = cpi_total (r_cpi s) + lat;
  ex_lat : (lat = 0 /\ s' = s /\ starved lo U s) \/ (period <= lat <= span /\ ~ starved lo U s)
}.

(** The three stages together. *)
Lemma stages_progress U lo E s E1 s1 E2 s2 lo' s3 :
  Inv U lo E s -> dispatch_keeps cfg period exec_max latency_max U lo E s E1 s1 -> (m_num_in_rob s = 0 -> m_num_in_rob s1 = 0 -> stays_empty s s1) ->
  issue_keeps cfg period exec_max latency_max U lo E1 s1 E2 s2 ->
  (slots_ok cfg -> 0 < m_num_in_rob s1 -> done (E1 lo) = MaxTime -> ready (E1 lo) <= now s1 -> limit s1 <= now s1 -> m_rs_entries_used s2 < m_rs_entries_used s1) ->
  commit_keeps cfg period exec_max latency_max U lo E2 s2 lo' s3 -> (lo < Z.of_nat (length U) -> done (E2 lo) <= now s2 -> lo < lo') ->
  let hi := Z.of_nat (length U) in work hi lo' s3 < work hi lo s \/ (quiet lo E s lo' E2 s3 /\ work hi lo' s3 = work hi lo s).
Proof.
  intros HI [_ En1 _ Hd1 Hd2 Hd3 Hd4] Hempty [_ En2 Hi1 Ht2 Hi2 Hi3] Hissue [Hlo _ _ _ Hc1 (Hc2 & Hc3 & Hc4 & Hc5)] Hcommit hi. unfold work.
  destruct (decide (lo' = lo /\ m_num_in_rob s1 = m_num_in_rob s /\ m_rs_entries_used s2 = m_rs_entries_used s1)) as [(-> & Ea & Eb)|]; [right|left; lia].
  split; [|lia]. specialize (Hd4 Ea). destruct (Hi3 Eb) as (-> & Ef2 & El2). rewrite Hd4 in *. injection Ht2 as _ _ Em2. split.
  - split_and!; try done; lia || congruence.
  - intros Hs Hn. unfold deadline. pose proof (inv_num _ _ _ _ _ _ _ _ HI). rewrite En1 in *. rewrite En2 in *. rewrite Hd3 in *. destruct (decide _) as [Hu|Hu].
    + destruct (Z.lt_ge_cases (now s) (Z.max (ready (E lo)) (limit s))) as [|Hge]; [done|]. specialize (Hissue Hs). lia.
    + destruct (Z.lt_ge_cases (now s) (done (E lo))) as [|Hge]; [done|]. lia.
  - intros H0. assert (H1 : m_num_in_rob s1 = 0) by lia. destruct (Hempty H0 H1) as [(? & ? & ?)|(? & ? & ?)]; [left|right]; split_and!; try done; congruence.
Qed.

Lemma runs_execute U lo E s : Inv U lo E s -> committed_before s -> now s + span < MaxTime -> runs (execute cfg period) (fun r s' => executed U lo E s r.2 s') s.
Proof.
  intros HI Htr Ht. pose proof (inv_num _ _ _ _ _ _ _ _ HI) as Hnum. pose proof (inv_rep _ _ _ _ _ _ _ _ HI) as HR. pose proof (Rep_bounds _ _ _ _ _ HR) as Hb.
  pose proof (period_le_span cfg period exec_max latency_max Hcfg) as Hps. pose proof (inv_now _ _ _ _ _ _ _ _ HI) as H0. pose proof Hcfg as [Hdw _ _ _ _ _ _].
  unfold execute. do 2 rstep. rewrite (ring_length _ lo (Z.of_nat (length U))) by apply HR. rewrite wrap_small by lia.
  destruct ((frontend_stalled_until s <=? now s) && _) eqn:Est.
  { apply andb_true_iff in Est as [? ?]. rstep. split; cbn [snd]; try done; try (unfold Zero; lia); [exists lo, E; split_and!; try done; by left|]. left. split; [done|]. split; [done|]. split; lia. }
  apply andb_false_iff in Est. assert (Hns : ~ starved lo U s) by (unfold starved; lia). unfold starved in Hns.
  rstep. eapply wpe_mono; [apply (runs_doDispatch cfg period exec_max latency_max Hcfg U lo E s HI Ht); lia|done|].
  intros [nd comp] s1 (Hnd & Hcomp & (E1 & K1) & Hempty). pose proof K1 as [HI1 En1 Et1 _ _ _ _]. injection Et1 as Et1 Ek1. cbn [fst snd] in *.
  rstep. eapply wpe_mono; [apply (runs_doIssue cfg period exec_max latency_max Hcfg U lo E1 s1 HI1); lia|done|].
  cbv beta. intros ni s2 (Hni & (E2 & K2) & Hissue). pose proof K2 as [HI2 En2 _ Et2 _ _]. injection Et2 as Et2 Ek2 _.
  rstep. eapply wpe_mono; [apply (runs_doCommit cfg period exec_max latency_max Hcfg U lo E2 s2 HI2)|done|]; [lia|..].
  { intros i y Hy. rewrite Et2, Et1 in Hy. rewrite En2, En1. by apply (Htr i). }
  intros [ins nc] s3 (Hnc & lo' & K3 & Hcommit). pose proof K3 as [Hlo HI3 En3 Ek3 _ _]. cbn [snd] in Hnc. do 2 rstep.
  pose proof (stages_progress _ _ _ _ _ _ _ _ _ _ HI K1 Hempty K2 Hissue K3 Hcommit) as Hprog. clear Hempty Hissue Hcommit K1 K2 K3.
  assert (En : now s3 = now s) by congruence. assert (Ek : r_cpi s3 = r_cpi s) by congruence. rewrite En. rewrite En1 in Hni. rewrite En2, En1 in Hnc.
  set (ne := Z.min nd (Z.min ni nc)). assert (Hne : event_ok period latency_max (now s) ne) by (by repeat apply event_ok_min).
  set (skipping := negb (ne =? MaxTime) && _). set (skip := if skipping then _ else period).
  assert (Hskip : period <= skip <= span).
  { subst skip skipping. rewrite (cycles_from_ok cfg period exec_max latency_max Hcfg) by (lia || (destruct Hcfg; lia)).
    destruct (Z.eqb_spec ne MaxTime) as [|Hm]; cbn [negb andb]; [lia|]. destruct (Z.ltb_spec (now s + period * 1) ne); [|lia].
    destruct Hne as [?|?]; [done|]. unfold st_sub. unfold MaxTime in *. rewrite wrap_small by lia. lia. }
  do 2 rstep. rewrite En. unfold MaxTime in Ht. replace (st_add (now s) skip) with (now s + skip) by (unfold st_add; rewrite wrap_small; lia).
  set (s4 := with_time_skipped _ _). assert (HI4 : Inv U lo' E2 s4) by (apply Inv_advance; [done|lia]).
  rstep. apply (wpe_mono _ (fun _ => False) _ (fun _ s' => exists st, stats_ok cfg st /\ s' = with_stats st s4)); [|done|].
  { destruct (m_mlp_histogram cfg) eqn:Em; [|rstep; exists (r_stats s4); split; [apply HI4|by destruct s4]].
    apply (runs_countOutstandingMemop skip U lo' E2 s4); [done|done|]. intros st Hst. by exists st. }
  intros _ s5 (st & Hst & ->). do 2 rstep. destruct (inv_aux _ _ _ _ _ _ _ _ HI3) as [A1 A2 A3 A4 A5 A6 A7]. rewrite En, Ek in A6.
  destruct (cpi_add_ok comp skip (r_cpi s) (now s) Hcomp A6) as (k' & Ek' & Hk' & Htot); [lia|lia|].
  change (r_cpi (with_stats st s4)) with (r_cpi s3). rewrite Ek. replace (st_add Zero skip) with skip by (unfold st_add, Zero; rewrite wrap_small; lia).
  rstep. eapply wpe_lift; [exact Ek'|]. rsteps. split; cbn [snd].
  - exists lo', E2. split; [done|]. split; [by destruct HI4|]. right. destruct Hprog as [?|[[? ? ?] ?]]; [by left|right]. split; [by split|done].
  - intros i y Hy. change (r_trace s3 !! i = Some y) in Hy. cbn. destruct (tr_entry _ _ _ _ _ (inv_trace _ _ _ _ _ _ _ _ HI3) i y Hy) as (_ & _ & _ & _ & _ & ?). lia.
  - done.
  - exact Htot.
  - right. done.
Qed.
End execute.
