(* ===== verification/RobEnqueue.v ===== *)
(** * A micro-operation enters the core

    The steps of [enqueue] on a new entry, and that it keeps the invariant. *)

From stdpp Require Import sets functions.
From S2P Require Import Prelude StateMonad SubsecondTime ContentionModel CircularQueue MicroOp MicroOpFacts CoreModelNehalem RobTimer RobInvariant RobAccess RobState RobDeps RobIssue RobCycle.
#[local] Open Scope Z_scope.

Section entry.
Context {C Mem : Type} (cfg : RobCfg) (lo hi : Z) (E : Z -> RobEntry).
Context (Hlo : 0 <= lo <= hi) (Hmax : hi + 1 < 2 ^ 64) (Hseq : forall k, lo <= k < hi -> sequenceNumber (re_uop (E k)) = k).
Implicit Types (s : RobTimer C Mem).
Abbreviation slot := (slot cfg).

(** The buffer with the new entry [e]. *)
Abbreviation New q e := (Rep cfg q lo (hi + 1) (<[hi := e]> E)).

Lemma New_set q e e' : New q e -> New (cq_set (slot hi) (Some e') q) e'.
Proof.
  intros HR. eapply Rep_ext; [apply Rep_set; [exact HR|lia]|]. intros k _. destruct (decide (k = hi)) as [->|]; [by rewrite !fn_lookup_insert|by rewrite !fn_lookup_insert_ne by done].
Qed.

Lemma runs_new_entry e s Q : New (rob s) e -> Q e s -> runs (entry (slot hi)) Q s.
Proof. intros HR HQ. apply (runs_entry cfg lo (hi + 1) (<[hi := e]> E)); [done|lia|]. by rewrite fn_lookup_insert. Qed.

Lemma runs_old_entry e n s Q : New (rob s) e -> lo <= n < hi -> Q (E n) s -> runs (entry (slot n)) Q s.
Proof. intros HR Hn HQ. apply (runs_entry cfg lo (hi + 1) (<[hi := e]> E)); [done|lia|]. by rewrite fn_lookup_insert_ne by lia. Qed.

Lemma runs_find_old e n s Q : New (rob s) e -> lo <= n < hi -> Q (slot n) s -> runs (findEntryBySequenceNumber n) Q s.
Proof.
  intros HR Hn HQ. apply (runs_find cfg lo (hi + 1) (<[hi := e]> E)); [done|lia|lia|..]; try rewrite fn_lookup_insert_ne by lia; [apply Hseq; lia..|done].
Qed.

(** ** The address of a store *)

Definition with_address (l : list Z) (m : Z) (e : RobEntry) : RobEntry :=
  mkEntry (dependants e) l (re_uop e) (dispatched e) (ready e) (readyMax e) (addressReady e) m (issued e) (done e).

Section address.
Context (rd : RegisterDependencies).
Context (Hrd : forall r a, producer_of rd lo r = Some a -> lo <= a < hi).

Definition address_producer (regs : list xed_reg_enum_t) (a : Z) : Prop := exists r, r ∈ regs /\ producer_of rd lo r = Some a.

Lemma peekProducer_ok r : (r < length rd)%nat ->
  exists a, peekProducer (XED_REG_INVALID cfg) r lo rd = Ok a /\ (a = INVALID_SEQNR \/ (a <> INVALID_SEQNR /\ producer_of rd lo r = Some a)).
Proof.
  intros Hr. unfold peekProducer. case_bool_decide; [eauto|]. destruct (aget_lt rd r Hr) as (p & -> & Hp). cbn [mbind res_bind]. eexists. split; [reflexivity|].
  unfold producer_of. rewrite Hp. cbn. destruct (Z.eqb_spec p INVALID_SEQNR) as [->|]; cbn; [auto|]. destruct (p <? lo); auto.
Qed.

Lemma runs_add_address_producers regs l m e s : New (rob s) (with_address l m e) -> registerDependencies s = rd -> (forall r, r ∈ regs -> (r < length rd)%nat) ->
  runs (add_address_producers cfg (slot hi) lo regs) (fun _ s' => exists q l' m', s' = with_rob q s /\ New q (with_address (l ++ l') m' e) /\
    (forall a, a ∈ l' -> address_producer regs a /\ done (E a) = MaxTime) /\
    (m' = m \/ exists a, address_producer regs a /\ done (E a) <> MaxTime /\ m' = done (E a))) s.
Proof.
  revert l m s. induction regs as [|r regs IH]; intros l m s HR Hs Hr; cbn [add_address_producers].
  { rstep. exists (rob s), [], m. rewrite app_nil_r. split_and!; [by destruct s|done| |by left]. by intros a ?%elem_of_nil. }
  do 2 rstep. rewrite Hs. destruct (peekProducer_ok r) as (a & Ea & Ha); [apply Hr; left|]. rstep. eapply wpe_lift; [exact Ea|].
  assert (Hregs : forall x, x ∈ regs -> (x < length rd)%nat) by (intros; apply Hr; by right).
  assert (Hweak : forall x, address_producer regs x -> address_producer (r :: regs) x) by (intros x (y & ? & ?); exists y; split; [by right|done]).
  destruct Ha as [->|[Hne Ha]].
  - rewrite Z.eqb_refl. cbn [negb]. do 2 rstep. eapply wpe_mono; [by apply (IH l m)|done|]. cbv beta. intros _ s' (q & l' & m' & -> & HR' & Hl & Hm).
    exists q, l', m'. split_and!; try done. { intros x Hx. destruct (Hl x Hx). auto. } destruct Hm as [?|(x & ? & ? & ?)]; [by left|right; eauto].
  - rewrite (proj2 (Z.eqb_neq _ _)) by done. cbn [negb]. specialize (Hrd r a Ha). assert (Hap : address_producer (r :: regs) a) by (exists r; split; [left|done]).
    do 2 rstep. apply (runs_find_old (with_address l m e)); [done|done|]. rstep. apply (runs_old_entry (with_address l m e)); [done|done|].
    destruct (Z.eqb_spec (done (E a)) MaxTime) as [Hu|Hd]; cbn [negb]; unfold upd_entry.
    + rstep. apply (runs_new_entry (with_address l m e)); [done|]. apply runs_set_entry.
      eapply wpe_mono; [apply (IH (l ++ [a]) m); [apply (New_set _ _ (with_address (l ++ [a]) m e) HR)|done|done]|done|].
      cbv beta. intros _ s' (q & l' & m' & -> & HR' & Hl & Hm). exists q, (a :: l'), m'. rewrite <- app_assoc in HR'. split_and!; try done.
      { intros x Hx. apply elem_of_cons in Hx as [->|Hx]; [done|]. destruct (Hl x Hx). auto. } destruct Hm as [?|(x & ? & ? & ?)]; [by left|right; eauto].
    + rstep. apply (runs_new_entry (with_address l m e)); [done|]. apply runs_set_entry.
      eapply wpe_mono; [apply (IH l (Z.max m (done (E a)))); [apply (New_set _ _ (with_address l (Z.max m (done (E a))) e) HR)|done|done]|done|].
      cbv beta. intros _ s' (q & l' & m' & -> & HR' & Hl & Hm). exists q, l', m'. split_and!; try done. { intros x Hx. destruct (Hl x Hx). auto. }
      destruct Hm as [->|(x & ? & ? & ?)]; [|right; eauto]. destruct (Z.max_spec m (done (E a))) as [[_ ->]|[_ ->]]; [right; eauto|by left].
Qed.
End address.

(** ** Linking to the producers *)

Definition done_of (l : list Z) : list Z := filter (fun x => done (E x) <> MaxTime) l.
Definition max_done (l : list Z) (m : Z) : Z := foldl (fun m x => if decide (done (E x) = MaxTime) then m else Z.max m (done (E x))) m l.

(** The buffer with the new entry, which the producers [l] have been linked to. *)
Definition Linked (q : CircularQueue (option RobEntry)) (l : list Z) (e : RobEntry) : Prop :=
  Rep cfg q lo (hi + 1) (<[hi := e]> (fun k => linked (slot hi) l k (E k))).

Lemma linked_snoc k l x e : linked k (l ++ [x]) x e = if done e =? MaxTime then addDependant k (linked k l x e) else e.
Proof.
  unfold linked. destruct (done e =? MaxTime); [|done]. unfold addDependant. cbn. f_equal. rewrite count_occ_app. cbn. destruct (Z.eq_dec x x); [|done].
  rewrite replicate_add, <- app_assoc. done.
Qed.

Lemma linked_snoc_ne k l x y e : x <> y -> linked k (l ++ [x]) y e = linked k l y e.
Proof.
  intros Hne. unfold linked. destruct (done e =? MaxTime); [|done]. f_equal. rewrite count_occ_app. cbn. destruct (Z.eq_dec x y); [done|]. by rewrite Nat.add_0_r.
Qed.

Lemma linked_issued k l x e : done e <> MaxTime -> linked k l x e = e.
Proof. intros H. unfold linked. by rewrite (proj2 (Z.eqb_neq _ _)) by done. Qed.

Lemma runs_link_producers e l1 l2 mind s : Linked (rob s) l1 (with_ready (ready e) (max_done l1 (readyMax e)) e) ->
  uop_ok (re_uop e) -> udeps (re_uop e) = l1 ++ l2 -> (forall x, x ∈ l1 ++ l2 -> lo <= x < hi) -> (length (done_of (l1 ++ l2)) <= 8)%nat ->
  runs (link_producers (length l2) (Z.of_nat (length l1)) (slot hi) mind (done_of l1)) (fun r s' => exists q, s' = with_rob q s /\
    Linked q (l1 ++ l2) (with_ready (ready e) (max_done (l1 ++ l2) (readyMax e)) e) /\ r.2 = done_of (l1 ++ l2) /\ (0 <= mind -> 0 <= r.1)) s.
Proof.
  intros HR Hok. revert l1 mind s HR. induction l2 as [|x l2 IH]; intros l1 mind s HR Hl Hin H8; cbn [link_producers length].
  { rstep. exists (rob s). rewrite app_nil_r. split_and!; try done. by destruct s. }
  set (e1 := with_ready _ _ e) in *. set (F := fun k => linked (slot hi) l1 k (E k)) in *.
  assert (Hx : lo <= x < hi) by (apply Hin; set_solver). unfold Linked in HR. fold F in HR.
  assert (HF : forall k, re_uop (F k) = re_uop (E k) /\ done (F k) = done (E k)) by (intros k; unfold F; destruct (linked_frame (slot hi) l1 k (E k)) as (-> & -> & _); done).
  rstep. apply (runs_entry cfg lo (hi + 1) (<[hi := e1]> F)); [done|lia|]. rewrite fn_lookup_insert.
  rstep. eapply wpe_lift. { apply (getDependency_udeps (re_uop e) (length l1) x Hok). rewrite Hl. by apply list_lookup_middle. }
  rstep. apply (runs_find cfg lo (hi + 1) (<[hi := e1]> F)); [done|lia|lia|..].
  { rewrite fn_lookup_insert_ne by lia. rewrite (proj1 (HF lo)). apply Hseq. lia. } { rewrite fn_lookup_insert_ne by lia. rewrite (proj1 (HF x)). apply Hseq. lia. }
  rstep. apply (runs_entry cfg lo (hi + 1) (<[hi := e1]> F)); [done|lia|]. rewrite fn_lookup_insert_ne by lia. rewrite (proj2 (HF x)).
  assert (Ha : l1 ++ x :: l2 = (l1 ++ [x]) ++ l2) by (by rewrite <- app_assoc). rewrite Ha in *.
  assert (Hlen : Z.of_nat (length l1) + 1 = Z.of_nat (length (l1 ++ [x]))) by (rewrite length_app; cbn; lia). rewrite Hlen.
  assert (Hu64 : forall a, 0 <= u64 a) by (intros; apply wrap_range; lia).
  destruct (Z.eqb_spec (done (E x)) MaxTime) as [Hu|Hd]; cbn [negb].
  - rstep. apply runs_set_entry. assert (Hd' : done_of (l1 ++ [x]) = done_of l1) by (unfold done_of; rewrite filter_app, filter_cons, decide_False by (by intros ?); by rewrite app_nil_r).
    assert (Hm' : max_done (l1 ++ [x]) (readyMax e) = max_done l1 (readyMax e)) by (unfold max_done; rewrite foldl_app; cbn; by rewrite decide_True).
    rewrite <- Hd'. eapply wpe_mono; [apply (IH (l1 ++ [x])); try done|done|].
    + rewrite Hm'. fold e1. unfold Linked. cbn [rob with_rob]. eapply Rep_ext; [apply Rep_set; [exact HR|lia]|]. intros k Hk.
      destruct (decide (k = hi)) as [->|Hkh]; [by rewrite (fn_lookup_insert_ne _ x) by lia; rewrite !fn_lookup_insert|].
      rewrite fn_lookup_insert_ne by done. destruct (decide (k = x)) as [->|Hkx].
      * rewrite fn_lookup_insert, linked_snoc, Hu, Z.eqb_refl. done.
      * rewrite !fn_lookup_insert_ne by done. by rewrite linked_snoc_ne by done.
    + cbv beta. intros r s' (q & -> & ? & ? & Hr). exists q. split_and!; try done. intros ?. apply Hr. specialize (Hu64 (sequenceNumber (re_uop e1) - sequenceNumber (re_uop (F x)))). lia.
  - assert (Hd' : done_of (l1 ++ [x]) = done_of l1 ++ [x]) by (unfold done_of; by rewrite filter_app, filter_cons, decide_True by done).
    assert (Hm' : max_done (l1 ++ [x]) (readyMax e) = Z.max (max_done l1 (readyMax e)) (done (E x))) by (unfold max_done; rewrite foldl_app; cbn; by rewrite decide_False).
    assert ((length (done_of l1) < 8)%nat). { unfold done_of in H8, Hd'. rewrite filter_app, Hd', !length_app in H8. cbn in H8. unfold done_of. lia. }
    rewrite (proj2 (Nat.ltb_lt _ _)) by done. do 2 rstep. rstep. apply runs_set_entry. rewrite <- Hd'. eapply wpe_mono; [apply (IH (l1 ++ [x])); try done|done|].
    + rewrite Hm'. unfold Linked. cbn [rob with_rob]. eapply Rep_ext; [refine (Rep_set _ _ _ _ _ hi _ HR _); lia|]. intros k Hk.
      destruct (decide (k = hi)) as [->|Hkh]; [by rewrite !fn_lookup_insert|]. rewrite !fn_lookup_insert_ne by done. unfold F. destruct (decide (k = x)) as [->|Hkx].
      * by rewrite !linked_issued by done.
      * by rewrite linked_snoc_ne by done.
    + cbv beta. intros r s' (q & -> & ? & ? & Hr). exists q. split_and!; try done. intros ?. apply Hr. specialize (Hu64 (sequenceNumber (re_uop e1) - sequenceNumber (re_uop (F x)))). lia.
Qed.

(** ** Forwarding *)

Lemma room_of_length d k : uop_ok d -> Z.of_nat (length (udeps d)) + k < 14 -> deps_room d k.
Proof.
  intros Hok Hk. rewrite <- length_udeps in Hk by done. unfold getDependenciesLength in Hk. unfold deps_room. destruct Hok.
  change (Z.of_nat MAXIMUM_NUMBER_OF_DEPENDENCIES) with 14 in *. rewrite wrap_small in Hk by lia. lia.
Qed.

Lemma addDependency_done x d d' : addDependency x d = Ok d' -> done (E x) = MaxTime -> done_of (udeps d') = done_of (udeps d).
Proof.
  intros H Hx. unfold addDependency in H. case_bool_decide; [by injection H as <-|]. destruct (_ <? _)%nat; [|done]. injection H as <-.
  unfold done_of, udeps. cbn. rewrite app_assoc, !filter_app. rewrite (filter_cons _ x), decide_False by (by intros ?). by rewrite app_nil_r.
Qed.

Lemma add_dependencies_ok src l1 l2 d : uop_ok src -> udeps src = l1 ++ l2 -> uop_ok d -> (forall y, y ∈ l2 -> 0 <= y < sequenceNumber d - microOpTypeOffset d) ->
  deps_room d (Z.of_nat (length l2)) -> (forall y, y ∈ l2 -> done (E y) = MaxTime) ->
  exists d', add_dependencies (length l2) (Z.of_nat (length l1)) src d = Ok d' /\ same_uop d d' /\ uop_ok d' /\
    (forall y, y ∈ udeps d' <-> y ∈ udeps d \/ y ∈ l2) /\ done_of (udeps d') = done_of (udeps d).
Proof.
  intros Hsrc. revert l1 d. induction l2 as [|x l2 IH]; intros l1 d Hl Hok Hy Hroom Hu; cbn [add_dependencies length].
  { exists d. split_and!; try done. intros y. rewrite elem_of_nil. tauto. }
  rewrite (getDependency_udeps src (length l1) x Hsrc) by (rewrite Hl; by apply list_lookup_middle). cbn [mbind res_bind].
  destruct (addDependency_ok d x Hok) as (d1 & E1 & Hs1 & Hok1 & Hu1 & _ & Hk1 & _); [apply Hy; left|unfold deps_room in *; cbn [length] in Hroom; lia|].
  rewrite E1. cbn [mbind res_bind]. assert (Hsq : sequenceNumber d1 = sequenceNumber d /\ microOpTypeOffset d1 = microOpTypeOffset d) by (by rewrite Hs1).
  destruct (IH (l1 ++ [x]) d1) as (d' & E' & Hs' & Hok' & Hu' & Hd').
  { by rewrite <- app_assoc. } { done. } { intros y Hy'. destruct Hsq as [-> ->]. apply Hy. by right. }
  { apply Hk1. unfold deps_room in *. cbn [length] in Hroom. lia. } { intros y Hy'. apply Hu. by right. }
  rewrite length_app in E'. cbn [length] in E'. rewrite Nat2Z.inj_add in E'. exists d'. split_and!; [done|by etrans|done| |].
  - intros y. rewrite Hu', Hu1, elem_of_cons. tauto.
  - rewrite Hd'. eapply addDependency_done; [done|]. apply Hu. left.
Qed.

(** The dependencies of the new micro-operation [d] after forwarding. *)
Record forwards (d d' : DynamicMicroOp) : Prop := {
  fw_same : same_uop d d';
  fw_ok : uop_ok d';
  fw_old : forall y, y ∈ udeps d' -> lo <= y < hi;
  fw_keeps : forall y, y ∈ udeps d -> y ∈ udeps d' \/ isStore (uop_of (E y)) = true;
  fw_done : (length (done_of (udeps d')) <= 8)%nat
}.

Lemma runs_forward_store e l1 l2 s : New (rob s) e -> uop_ok (re_uop e) -> sequenceNumber (re_uop e) = hi -> udeps (re_uop e) = l1 ++ l2 -> (length (l1 ++ l2) <= 5)%nat ->
  (forall y, y ∈ l1 ++ l2 -> lo <= y < hi) ->
  (forall x, x ∈ l1 ++ l2 -> isStore (uop_of (E x)) = true -> x < hi - microOpTypeOffset (re_uop e) /\ uop_ok (re_uop (E x)) /\ (length (deps_of (E x)) <= 5)%nat /\
     forall y, y ∈ deps_of (E x) -> lo <= y < x /\ done (E y) = MaxTime) ->
  runs (forward_store (length l2) (Z.of_nat (length l1)) (slot hi)) (fun _ s' => exists q d', s' = with_rob q s /\ New q (with_uop d' e) /\ forwards (re_uop e) d') s.
Proof.
  intros HR Hok Hsq. revert l1. induction l2 as [|x l2 IH]; intros l1 Hl H5 Hin Hst; cbn [forward_store length].
  { rstep. exists (rob s), (re_uop e). split; [by destruct s|]. split; [by destruct e|]. rewrite app_nil_r in *. split; try done; rewrite Hl; [done|auto|].
    unfold done_of. pose proof (length_filter (fun x => done (E x) <> MaxTime) l1). lia. }
  assert (Hx : lo <= x < hi) by (apply Hin; set_solver). rstep. apply (runs_new_entry e); [done|].
  rstep. eapply wpe_lift. { apply (getDependency_udeps (re_uop e) (length l1) x Hok). rewrite Hl. by apply list_lookup_middle. }
  rstep. apply (runs_find_old e); [done|done|]. rstep. apply (runs_old_entry e); [done|done|].
  destruct (isStore (uop_of (E x))) eqn:Es.
  2: { assert (Ha : l1 ++ x :: l2 = (l1 ++ [x]) ++ l2) by (by rewrite <- app_assoc). rewrite Ha in *.
       replace (Z.of_nat (length l1) + 1) with (Z.of_nat (length (l1 ++ [x]))) by (rewrite length_app; cbn; lia). by apply IH. }
  destruct (Hst x) as (Hxo & Hokx & Hlx & Hdx); [set_solver|done|].
  assert (Hxin : x ∈ udeps (re_uop e)) by (rewrite Hl; set_solver). destruct (removeDependency_ok _ x Hok Hxin) as (d1 & E1 & Hs1 & Hok1 & Hp).
  rstep. eapply wpe_lift; [exact E1|]. assert (Hsq1 : sequenceNumber d1 = hi /\ microOpTypeOffset d1 = microOpTypeOffset (re_uop e)) by (by rewrite Hs1).
  assert (Hlen : (length (udeps d1) <= 4)%nat). { apply Permutation_length in Hp. rewrite Hl in Hp. cbn in Hp. lia. }
  destruct (add_dependencies_ok (re_uop (E x)) [] (deps_of (E x)) d1) as (d2 & E2 & Hs2 & Hok2 & Hu2 & Hd2); try done.
  { destruct Hsq1 as [-> ->]. intros y Hy. destruct (Hdx y Hy). lia. } { apply room_of_length; [done|lia]. } { intros y Hy. by destruct (Hdx y Hy). }
  rstep. eapply wpe_lift. { rewrite length_udeps by done. rewrite Nat2Z.id. exact E2. }
  apply runs_set_entry. exists (cq_set (slot hi) (Some (with_uop d2 e)) (rob s)), d2. split; [done|]. split; [by eapply New_set|]. split; [by etrans|done| | |].
  - intros y Hy. apply Hu2 in Hy as [Hy|Hy]; [|destruct (Hdx y Hy); lia]. apply Hin. rewrite <- Hl, Hp. by right.
  - intros y Hy. rewrite Hp in Hy. apply elem_of_cons in Hy as [->|Hy]; [by right|]. left. apply Hu2. by left.
  - rewrite Hd2. unfold done_of. pose proof (length_filter (fun x => done (E x) <> MaxTime) (udeps d1)). lia.
Qed.

(** ** Removing the producers that are done *)

Lemma remove_dependencies_ok l d : uop_ok d -> (forall x, (occ l x <= occ (udeps d) x)%nat) ->
  exists d', remove_dependencies l d = Ok d' /\ same_uop d d' /\ uop_ok d' /\ (length (udeps d') <= length (udeps d))%nat /\
    forall x, occ (udeps d') x = (occ (udeps d) x - occ l x)%nat.
Proof.
  revert d. induction l as [|x l IH]; intros d Hok Hocc; cbn [remove_dependencies].
  { exists d. split_and!; try done. intros x. cbn. lia. }
  assert (Hin : x ∈ udeps d). { apply elem_of_occ. specialize (Hocc x). rewrite count_occ_cons_eq in Hocc by done. lia. }
  destruct (removeDependency_ok d x Hok Hin) as (d1 & -> & Hs & Hok1 & Hp). cbn [mbind res_bind].
  assert (Hx : forall y, occ (udeps d) y = ((if Z.eq_dec x y then 1 else 0) + occ (udeps d1) y)%nat).
  { intros y. rewrite (occ_perm _ _ y Hp). cbn. by destruct (Z.eq_dec x y). }
  destruct (IH d1 Hok1) as (d' & E' & Hs' & Hok' & Hlen & Ho).
  { intros y. specialize (Hocc y). rewrite Hx in Hocc. cbn in Hocc. destruct (Z.eq_dec x y); lia. }
  exists d'. split_and!; [done|by etrans|done|apply Permutation_length in Hp; cbn in Hp; lia|]. intros y. rewrite Ho, Hx. cbn. destruct (Z.eq_dec x y); lia.
Qed.

Lemma occ_done_of l x : occ (done_of l) x = if decide (done (E x) = MaxTime) then 0%nat else occ l x.
Proof.
  unfold done_of. induction l as [|y l IH]; [by destruct (decide _)|]. rewrite filter_cons. destruct (Z.eq_dec y x) as [->|Hne].
  - destruct (decide (done (E x) <> MaxTime)), (decide (done (E x) = MaxTime)); try done; rewrite ?count_occ_cons_eq by done; by rewrite IH.
  - destruct (decide (done (E y) <> MaxTime)); rewrite ?count_occ_cons_neq by done; by rewrite IH.
Qed.

Lemma max_done_spec l m x : m <= max_done l m /\ (x ∈ l -> done (E x) <> MaxTime -> done (E x) <= max_done l m).
Proof.
  unfold max_done. revert m. induction l as [|y l IH]; intros m; cbn; [split; [lia|by intros ?%elem_of_nil]|]. destruct (decide (done (E y) = MaxTime)).
  - destruct (IH m) as [H1 H2]. split; [done|]. intros Hx. apply elem_of_cons in Hx as [->|Hx]; [done|auto].
  - destruct (IH (Z.max m (done (E y)))) as [H1 H2]. split; [lia|]. intros Hx. apply elem_of_cons in Hx as [->|Hx]; [lia|auto].
Qed.

Lemma max_done_bound l m b : m <= b -> (forall x, x ∈ l -> done (E x) <> MaxTime -> done (E x) <= b) -> max_done l m <= b.
Proof.
  unfold max_done. revert m. induction l as [|y l IH]; intros m Hm Hl; cbn; [done|]. apply IH; [|intros; apply Hl; [by right|done]].
  destruct (decide _); [done|]. assert (done (E y) <= b) by (apply Hl; [left|done]). lia.
Qed.

(** ** The new entry *)

(** [e1] is a new entry whose address registers are [regs] and whose producers have been looked up. *)
Record fresh (rd : RegisterDependencies) (regs : list xed_reg_enum_t) (e1 : RobEntry) : Prop := {
  fr_dependants : dependants e1 = [];
  fr_dispatched : dispatched e1 = None;
  fr_ready : ready e1 = MaxTime /\ readyMax e1 = Zero;
  fr_done : done e1 = MaxTime;
  fr_producers : forall a, a ∈ addressProducers e1 -> address_producer rd regs a /\ done (E a) = MaxTime;
  fr_addressReadyMax : addressReadyMax e1 = Zero \/ exists a, address_producer rd regs a /\ done (E a) <> MaxTime /\ addressReadyMax e1 = done (E a);
  fr_addressReady : isStore (uop_of e1) = true -> addressReady e1 = if decide (addressProducers e1 = []) then addressReadyMax e1 else MaxTime
}.

Lemma runs_store_address rd d s : New (rob s) (RobEntry_init d hi) -> registerDependencies s = rd -> (forall r a, producer_of rd lo r = Some a -> lo <= a < hi) ->
  (forall r, r ∈ addressRegisters (m_uop d) -> (r < length rd)%nat) ->
  runs (store_address cfg (slot hi) lo) (fun _ s' => exists q e1, s' = with_rob q s /\ New q e1 /\ re_uop e1 = setSequenceNumber hi d /\ fresh rd (addressRegisters (m_uop d)) e1) s.
Proof.
  intros HR Hs Hrd Hr. unfold store_address. rstep. apply (runs_new_entry (RobEntry_init d hi)); [done|]. cbn [re_uop RobEntry_init]. change (m_uop (setSequenceNumber hi d)) with (m_uop d).
  destruct (isStore (m_uop d)) eqn:Es.
  2: { rstep. exists (rob s), (RobEntry_init d hi). split; [by destruct s|]. split; [done|]. split; [done|]. split; cbn; try done; [by intros a ?%elem_of_nil|by left|congruence]. }
  rstep. eapply wpe_mono; [apply (runs_add_address_producers rd Hrd _ [] Zero (RobEntry_init d hi)); done|done|].
  cbv beta. intros _ s' (q & l & m & -> & HR' & Hl & Hm). unfold upd_entry. cbn [app] in HR'. set (e1 := with_address l m (RobEntry_init d hi)) in *.
  rstep. apply (runs_new_entry e1); [done|]. apply runs_set_entry. set (e2 := if bool_decide _ then _ else e1).
  exists (cq_set (slot hi) (Some e2) q), e2. split; [done|]. split; [by eapply New_set|].
  assert (E2 : e2 = with_addressReady (if decide (l = []) then m else MaxTime) m e1) by (subst e2; cbn [addressProducers e1 with_address]; case_bool_decide; destruct (decide (l = [])); done).
  rewrite E2. split; [done|]. by split.
Qed.

(** What the new entry is in the end: [l] are the dependencies after forwarding. *)
Record NewEntry (d : DynamicMicroOp) (l : list Z) (e : RobEntry) : Prop := {
  ne_uop : same_uop (setSequenceNumber hi d) (re_uop e) /\ uop_ok (re_uop e);
  ne_occ : forall x, occ (deps_of e) x = if decide (done (E x) = MaxTime) then occ l x else 0%nat;
  ne_dependants : dependants e = [];
  ne_dispatched : dispatched e = None;
  ne_done : done e = MaxTime;
  ne_readyMax : readyMax e = max_done l Zero;
  ne_ready : ready e = if decide (deps_of e = []) then readyMax e else MaxTime;
  ne_store : isStore (uop_of e) = true -> addressReadyMax e <= readyMax e /\
    (forall a, a ∈ addressProducers e -> lo <= a < hi /\ (done (E a) = MaxTime -> a ∈ deps_of e)) /\
    (addressReady e = addressReadyMax e \/ (addressReady e = MaxTime /\ exists a, a ∈ addressProducers e /\ done (E a) = MaxTime))
}.

Lemma occ_nil_iff (l : list Z) : (forall x, occ l x = 0%nat) <-> l = [].
Proof. split; [apply count_occ_inv_nil|by intros ->]. Qed.

Lemma NewEntry_intro rd regs d l d3 d4 e1 : fresh rd regs e1 -> re_uop e1 = setSequenceNumber hi d -> same_uop (setSequenceNumber hi d) d3 -> uop_ok d3 -> udeps d3 = l ->
  (forall x, x ∈ l -> lo <= x < hi) ->
  same_uop d3 d4 -> uop_ok d4 -> (forall x, occ (udeps d4) x = (occ l x - occ (done_of l) x)%nat) ->
  (isStore (m_uop d) = true -> forall a, address_producer rd regs a -> a ∈ l) ->
  NewEntry d l (let e := with_ready MaxTime (max_done l Zero) (with_uop d3 e1) in
    if getDependenciesLength d4 =? 0 then with_ready (readyMax e) (readyMax e) (with_uop d4 e) else with_uop d4 e).
Proof.
  intros [] Hre Hs3 Hok3 Hl Hin Hs4 Hok4 Hocc Hap. cbv zeta. set (e0 := with_ready MaxTime (max_done l Zero) (with_uop d3 e1)).
  set (e := if _ =? 0 then _ else _).
  assert (He : e = with_ready (if decide (udeps d4 = []) then max_done l Zero else MaxTime) (max_done l Zero) (with_uop d4 e1)).
  { subst e e0. rewrite length_udeps by done. destruct (udeps d4); [done|]. cbn. done. }
  rewrite He. clear e He. assert (Ho : forall x, occ (udeps d4) x = if decide (done (E x) = MaxTime) then occ l x else 0%nat).
  { intros x. rewrite Hocc, occ_done_of. destruct (decide (done (E x) = MaxTime)); lia. }
  split; try done.
  - split; [by etrans|done].
  - cbn. assert (Em : m_uop d4 = uop_of e1). { rewrite Hre. rewrite (same_uop_m _ _ Hs4), (same_uop_m _ _ Hs3). done. }
    rewrite Em. intros Hst. assert (Hst' : isStore (m_uop d) = true) by (by rewrite Hre in Hst).
    assert (Hpd : forall a, a ∈ addressProducers e1 -> lo <= a < hi /\ (done (E a) = MaxTime -> a ∈ udeps d4)).
    { intros a Ha. destruct (fr_producers0 a Ha) as [Hp Hu]. assert (a ∈ l) by auto. split; [auto|]. intros _. apply elem_of_occ. rewrite Ho, decide_True by done. by apply elem_of_occ. }
    split_and!.
    + destruct fr_addressReadyMax0 as [->|(a & Ha & Hd & ->)]; [apply (max_done_spec l Zero 0)|]. apply max_done_spec; auto.
    + done.
    + rewrite (fr_addressReady0 Hst). destruct (decide (addressProducers e1 = [])) as [|Hne]; [by left|]. right. split; [done|].
      destruct (addressProducers e1) as [|a la] eqn:Ela; [done|]. exists a. split; [left|]. apply fr_producers0. left.
Qed.
End entry.

(** ** The invariant with the new entry *)

Section enqueue.
Context {C Mem : Type} `{!RobContention C} `{!RobContentionOk C} `{!CoreMemory Mem} `{!CoreMemoryOk Mem} {sl : Slack}.
Context (cfg : RobCfg) (period exec_max latency_max : Z) (Hcfg : CfgOk cfg period exec_max latency_max mem_max).
Implicit Types (s : RobTimer C Mem) (E : Z -> RobEntry) (U : list DynamicMicroOp) (d : DynamicMicroOp).
Abbreviation span := (span period latency_max).
Abbreviation Inv := (Inv cfg period exec_max latency_max).

Lemma depends_snoc_old U d n p : (n < length U)%nat -> depends cfg (U ++ [d]) n p -> depends cfg U n p.
Proof.
  intros Hn (x & Hx & Hp & Hf & Hd). exists x. rewrite lookup_app_l in Hx by done. rewrite take_app_le in Hd by lia. split_and!; try done.
  intros (H1 & H2 & d' & Hd' & H3). apply Hf. split_and!; try done. exists d'. split; [|done]. by apply lookup_app_l_Some.
Qed.

(** What the data flow asks of the new micro-operation is what it waits for. *)
Lemma depends_snoc_new U lo md d p : depends cfg (U ++ [d]) (length U) p -> (p < length U)%nat /\ (Z.of_nat p < lo \/
  (wanted U lo md d (Z.of_nat p) /\ ~ forwarded cfg (U ++ [d]) d p)).
Proof.
  intros (x & Hx & Hp & Hf & Hd). split; [done|]. rewrite list_lookup_middle in Hx by done. injection Hx as <-. rewrite take_app_length in Hd.
  destruct (Z.lt_ge_cases (Z.of_nat p) lo); [by left|]. right. split; [|done].
  destruct Hd as [?|[(r & Hr & Hi)|[Hl Hi]]]; [by left|right; left|right; right; left].
  - exists r. split; [done|]. apply from_Some. eauto.
  - split; [done|]. apply from_Some. eauto.
Qed.

Lemma Inv_enqueue U lo E s d base l e s' q : Inv U lo E s -> UopIn cfg exec_max latency_max base U d -> lo <= base -> Z.of_nat (length U) + 1 < 2 ^ 64 - 1 -> now s + span < MaxTime ->
  let n := Z.of_nat (length U) in let E' := <[n := e]> (fun k => linked (slot cfg n) l k (E k)) in
  NewEntry lo n E d l e -> (forall x, x ∈ l -> lo <= x < n) -> (isStore (m_uop d) = true -> (length (deps_of e) <= 5)%nat) ->
  (forall y, wanted U lo (memoryDependencies s) d y -> y ∈ l \/ (0 <= y < n /\ m_store_to_load_forwarding cfg = true /\ isLoad (m_uop d) = true /\ isStore (uop_of (E y)) = true)) ->
  rob s' = q -> Rep cfg q lo (n + 1) E' -> nextSequenceNumber s' = n + 1 -> m_num_in_rob s' = m_num_in_rob s -> m_rs_entries_used s' = m_rs_entries_used s ->
  now s' = now s -> frontend_stalled_until s' = frontend_stalled_until s -> r_trace s' = r_trace s ->
  (last_store_done s', load_queue s', store_queue s', m_rob_contention s') = (last_store_done s, load_queue s, store_queue s, m_rob_contention s) ->
  DepsOk cfg (U ++ [d]) lo (registerDependencies s') (memoryDependencies s') -> AuxOk cfg s' -> Inv (U ++ [d]) lo E' s'.
Proof.
  intros HI Hd Hlob Hmax Ht n E' HN Hl Hroom Hwant Er HR Eseq Enum Ers Enow Efr Etr Eq HD HA. injection Eq as Eq1 Eq2 Eq3 Eq4. pose proof (inv_rep _ _ _ _ _ _ _ _ HI) as HR0. pose proof (Rep_bounds _ _ _ _ _ HR0) as Hb. fold n in Hb.
  assert (HlenU : Z.of_nat (length (U ++ [d])) = n + 1) by (rewrite length_app; cbn; lia).
  assert (Hn : E' n = e) by apply fn_lookup_insert. assert (Ho : forall k, k <> n -> E' k = linked (slot cfg n) l k (E k)) by (intros k Hk; unfold E'; by rewrite fn_lookup_insert_ne by done).
  assert (Hfr : forall k, k <> n -> re_uop (E' k) = re_uop (E k) /\ done (E' k) = done (E k) /\ ready (E' k) = ready (E k) /\ readyMax (E' k) = readyMax (E k) /\
    issued (E' k) = issued (E k) /\ dispatched (E' k) = dispatched (E k)).
  { intros k Hk. rewrite (Ho k Hk). unfold linked. by destruct (done (E k) =? MaxTime). }
  pose proof HN as [[Hsu Hok] Hocc Hdep Hdisp Hdone Hrm Hrd Hst].
  assert (Hsq : sequenceNumber (re_uop e) = n) by (by rewrite Hsu). destruct (same_uop_fields _ _ Hsu) as (Em & Eex & Eh & Eih & Eil & _ & Hsi).
  assert (Hs0 : 0 <= now s) by apply HI. assert (Hsp : 1 <= period <= span) by (apply (period_le_span cfg period exec_max latency_max Hcfg)).
  assert (Hdl : forall x, x ∈ l -> done (E x) <> MaxTime -> result_time period (E x) <= done (E x) <= now s + span).
  { intros x Hx Hd'. destruct (inv_entry _ _ _ _ _ _ _ _ HI x) as [_ _ _ _ Hi]; [specialize (Hl x Hx); fold n; lia|]. destruct (Hi Hd') as (_ & _ & ? & ?). lia. }
  assert (Hrmb : 0 <= readyMax e <= now s + span).
  { rewrite Hrm. split; [apply (max_done_spec E l Zero 0)|]. apply max_done_bound; [unfold Zero; lia|]. intros x Hx Hd'. by apply Hdl. }
  assert (HdataO : forall k p, k <> n -> p <> n -> DataOk period lo E k p -> DataOk period lo E' k p).
  { intros k p Hk Hp [Hlt Hx]. split; [done|]. unfold result_time in *. destruct (Hfr k Hk) as (-> & -> & _ & -> & -> & _). destruct (Hfr p Hp) as (-> & -> & _ & _ & -> & _). done. }
  destruct HI. split; rewrite ?HlenU, ?Enum, ?Ers, ?Enow, ?Efr, ?Etr, ?Eq1, ?Eq2, ?Eq3, ?Eq4; try done.
  - by rewrite Er.
  - eapply (EntInv_enqueue _ _ _ E E' l e); try done; [lia| |..].
    + intros a b Ha Hb'. eapply Rep_slot_inj; [exact HR0|lia..].
    + intros k Hk. apply Ho. lia.
    + intros x Hx. apply elem_of_occ in Hx. rewrite Hocc in Hx. apply elem_of_occ. destruct (decide (done (E x) = MaxTime)); lia.
    + lia.
  - lia.
  - rewrite (waiting_ext E E') by (intros k Hk; apply Hfr; lia). done.
  - intros k Hk. destruct (decide (k = n)) as [->|Hne].
    + rewrite Hn. destruct (ui_hits _ _ _ _ _ _ Hd) as (? & ? & ?). split; unfold hits_ok; rewrite ?Eh, ?Eih, ?Eil, ?Em, ?Eex, ?Hdisp; try done.
      intros _. split_and!; try (apply (ui_exec _ _ _ _ _ _ Hd)); [lia|]. rewrite Hrd. destruct (decide _); [right; lia|by left].
    + destruct (Hfr k Hne) as (H1 & H2 & H3 & H4 & H5 & H6). destruct (inv_entry k) as [? ? ? ? ?]; [lia|].
      split; unfold result_time; rewrite ?H1, ?H2, ?H3, ?H4, ?H5, ?H6; done.
  - intros k Hk. destruct (decide (k = n)) as [->|Hne]; [by rewrite Hn|]. destruct (Hfr k Hne) as (_ & -> & _ & _ & _ & ->). apply inv_window. lia.
  - intros k Hk. destruct (Hfr k) as (_ & _ & _ & _ & _ & ->); [lia|]. auto.
  - destruct inv_frontend as [?|(? & k & Hk & Hk')]; [by left|]. right. split; [done|]. exists k. destruct (Hfr k) as (-> & -> & _); [lia|]. done.
  - intros k x Hx. apply lookup_app_Some in Hx as [Hx|[Hge Hx]].
    + destruct (Hfr (Z.of_nat k)) as (-> & _); [apply lookup_lt_Some in Hx; lia|]. auto.
    + apply list_lookup_singleton_Some in Hx as [? <-]. replace (Z.of_nat k) with n by lia. rewrite Hn. exact Hsi.
  - intros k p Hdp. destruct (decide (k = length U)) as [->|Hne].
    + apply (depends_snoc_new U lo (memoryDependencies s)) in Hdp as [Hlt Hdp]. fold n. split; [lia|]. rewrite Hn, decide_True by done.
      destruct Hdp as [?|[Hw Hnf]]; [by left|]. right. destruct (Hwant _ Hw) as [Hin|(Hp & H1 & H2 & H3)].
      * specialize (Hl _ Hin). destruct (decide (done (E (Z.of_nat p)) = MaxTime)) as [Hu|Hd'].
        -- left. apply elem_of_occ. rewrite Hocc, decide_True by done. by apply elem_of_occ.
        -- right. destruct (Hfr (Z.of_nat p)) as (Er1 & Er2 & _ & _ & Er3 & _); [lia|]. unfold result_time. rewrite Er1, Er2, Er3. split; [done|].
           destruct (Hdl _ Hin Hd') as [? _]. rewrite Hrm. pose proof (proj2 (max_done_spec E l Zero (Z.of_nat p)) Hin Hd'). unfold result_time in *. lia.
      * destruct Hnf. destruct (lookup_lt_is_Some_2 U p) as [d' Hd']; [lia|]. split_and!; try done. exists d'. split; [by apply lookup_app_l_Some|].
        destruct (inv_uops p d' Hd') as [<- _]. done.
    + assert ((k < length U)%nat). { destruct Hdp as (x & Hx & _). apply lookup_lt_Some in Hx. rewrite length_app in Hx. cbn in Hx. lia. }
      apply depends_snoc_old in Hdp; [|done]. pose proof (inv_data k p Hdp) as HD'. apply HdataO; [lia| |done]. destruct HD'. lia.
  - destruct inv_trace. split; try done. intros i x Hx. destruct (tr_entry i x Hx) as (? & ? & ? & ? & ? & ?).
    cbv zeta. destruct (Hfr (Z.of_nat i)) as (-> & -> & _ & _ & -> & ->); [apply lookup_lt_Some in Hx; lia|]. done.
Qed.

(** ** [enqueue] *)

Lemma runs_count_distance m s Q : stats_ok cfg (r_stats s) -> 0 <= m -> (forall st, stats_ok cfg st -> Q tt (with_stats st s)) -> runs (count_distance m) Q s.
Proof.
  intros [Hd Hl] Hm HQ. unfold count_distance, upd_stats. pose proof Hcfg as [_ Hw _ _ _ _ _]. do 2 rstep.
  assert (Hin : forall i, 0 <= i < Z.of_nat (length (m_producerInsDistance (r_stats s))) -> (Z.to_nat i < length (m_producerInsDistance (r_stats s)))%nat) by lia.
  destruct (negb _).
  - set (i := Z.to_nat (if _ <=? m then _ else m)). destruct (aget_lt (m_producerInsDistance (r_stats s)) i) as (x & Ex & _).
    { apply Hin. destruct (Z.leb_spec (Z.of_nat (length (m_producerInsDistance (r_stats s)))) m); [|lia]. rewrite Hd. rewrite wrap_small by lia. lia. }
    rstep. eapply wpe_lift; [exact Ex|]. rstep. apply HQ. split; cbn; [by rewrite length_insert|done].
  - destruct (aget_lt (m_producerInsDistance (r_stats s)) 0) as (x & Ex & _); [lia|].
    rstep. eapply wpe_lift; [exact Ex|]. rstep. apply HQ. split; cbn; [by rewrite length_insert|done].
Qed.

(** The dependencies of the new micro-operation, before and after forwarding. *)
Lemma runs_set_dependencies U lo E s base d e1 : UopIn cfg exec_max latency_max base U d -> DepsOk cfg U lo (registerDependencies s) (memoryDependencies s) ->
  0 <= lo <= base -> Z.of_nat (length U) < 2 ^ 64 - 1 -> Z.of_nat (length U) - lo < 1024 -> let n := Z.of_nat (length U) in
  Rep cfg (rob s) lo (n + 1) (<[n := e1]> E) -> re_uop e1 = setSequenceNumber n d ->
  runs (set_dependencies (slot cfg n) lo) (fun _ s' => exists q rd' md' d2, s' = with_rob q (with_memoryDependencies md' (with_registerDependencies rd' s)) /\
    Rep cfg q lo (n + 1) (<[n := with_uop d2 e1]> E) /\ DepsOk cfg (U ++ [d]) lo rd' md' /\ same_uop (setSequenceNumber n d) d2 /\ uop_ok d2 /\
    (forall y, y ∈ udeps d2 <-> wanted U lo (memoryDependencies s) d y) /\
    Z.of_nat (length (udeps d2)) <= intraInstructionDependencies d + Z.of_nat (length (sourceRegisters (m_uop d))) + 2) s.
Proof.
  intros Hd HD Hlo Hmax Hcap n HR Hre. pose proof (ui_base _ _ _ _ _ _ Hd) as Hbs. pose proof (ui_intra _ _ _ _ _ _ Hd).
  destruct (new_dependencies cfg exec_max latency_max base U lo _ _ d Hd ltac:(lia) HD ltac:(lia) Hmax Hcap) as (rd' & md' & d1 & d2 & E1 & E2 & HD' & Hs2 & Hok2 & Hu2 & Hlen).
  unfold set_dependencies. rstep. apply (runs_new_entry cfg lo n E ltac:(lia) e1); [done|]. rewrite Hre. do 2 rstep. rstep. eapply wpe_lift; [exact E1|]. cbv iota. do 4 rstep.
  rstep. eapply wpe_lift; [exact E2|]. cbv iota. do 2 rstep. apply runs_set_entry. eexists (cq_set (slot cfg n) (Some (with_uop d2 e1)) (rob s)), rd', md', d2.
  split; [done|]. split; [|done]. eapply New_set; [lia|exact HR].
Qed.

Lemma runs_forwarding U lo E s base d d2 e1 : let n := Z.of_nat (length U) in Inv U lo E s -> UopIn cfg exec_max latency_max base U d -> lo <= base ->
  forall s0, Rep cfg (rob s0) lo (n + 1) (<[n := with_uop d2 e1]> E) -> same_uop (setSequenceNumber n d) d2 -> uop_ok d2 ->
  (forall y, y ∈ udeps d2 <-> wanted U lo (memoryDependencies s) d y) -> (forall y, y ∈ udeps d2 -> lo <= y < n) ->
  Z.of_nat (length (udeps d2)) <= intraInstructionDependencies d + Z.of_nat (length (sourceRegisters (m_uop d))) + 2 ->
  runs (forwarding cfg (slot cfg n)) (fun _ s' => exists q d3, s' = with_rob q s0 /\ Rep cfg q lo (n + 1) (<[n := with_uop d3 e1]> E) /\ same_uop d2 d3 /\ uop_ok d3 /\
    (forall y, y ∈ udeps d3 -> lo <= y < n) /\ (length (done_of E (udeps d3)) <= 8)%nat /\
    (forall y, y ∈ udeps d2 -> y ∈ udeps d3 \/ (m_store_to_load_forwarding cfg = true /\ isLoad (m_uop d) = true /\ isStore (uop_of (E y)) = true)) /\
    (isStore (m_uop d) = true -> d3 = d2)) s0.
Proof.
  intros n HI Hd Hlob s0 HR Hs2 Hok2 Hu2 Hin2 Hlen. pose proof (Rep_bounds _ _ _ _ _ (inv_rep _ _ _ _ _ _ _ _ HI)) as Hb. pose proof (inv_hi _ _ _ _ _ _ _ _ HI) as [_ Hhi].
  pose proof (ui_count _ _ _ _ _ _ Hd) as Hcount. assert (Em : m_uop d2 = m_uop d) by (by rewrite (same_uop_m _ _ Hs2)).
  unfold forwarding. rstep. apply (runs_new_entry cfg lo n E ltac:(lia) (with_uop d2 e1)); [done|]. cbn [re_uop with_uop]. rewrite Em.
  destruct (m_store_to_load_forwarding cfg && isLoad (m_uop d)) eqn:Ef.
  - apply andb_true_iff in Ef as [Ef El]. rewrite El in Hcount. cbn [orb] in Hcount. rewrite length_udeps by done. rewrite Nat2Z.id.
    eapply wpe_mono; [apply (runs_forward_store cfg lo n E ltac:(lia) ltac:(lia)) with (e := with_uop d2 e1) (l1 := []) (l2 := udeps d2)|done|]; try done; cbn [app].
    + intros k Hk. apply (ei_uop _ _ _ _ _ _ (inv_ent _ _ _ _ _ _ _ _ HI)). lia.
    + cbn. by rewrite Hs2.
    + lia.
    + intros x Hx Hst. pose proof (Hin2 x Hx) as Hxb. destruct (ei_uop _ _ _ _ _ _ (inv_ent _ _ _ _ _ _ _ _ HI) x Hxb) as [Hokx _]. split_and!; [|done| |].
      * cbn. assert (microOpTypeOffset d2 = microOpTypeOffset d) as -> by (by rewrite Hs2). destruct (ok_deps_bound d2 x Hok2 Hx) as [_ ?].
        assert (sequenceNumber d2 = n /\ microOpTypeOffset d2 = microOpTypeOffset d) as [? ?] by (by rewrite Hs2). lia.
      * by apply (eo_room _ _ _ _ _ (inv_entry _ _ _ _ _ _ _ _ HI x ltac:(lia))).
      * intros y Hy. destruct (ei_deps _ _ _ _ _ _ (inv_ent _ _ _ _ _ _ _ _ HI) x y Hxb Hy) as [? [?|?]]; [done|lia].
    + cbv beta. intros _ s' (q & d3 & -> & HR3 & [? ? ? Hk ?]). exists q, d3. split_and!; try done.
      * intros y Hy. destruct (Hk y Hy) as [?|?]; [by left|by right].
      * intros Hst. exfalso. unfold isLoad, isStore in *. destruct (uop_type (m_uop d)); done.
  - rstep. exists (rob s0), d2. split_and!; try done; [by destruct s0| |auto]. unfold done_of.
    pose proof (length_filter (fun x => done (E x) <> MaxTime) (udeps d2)). destruct (_ || _); lia.
Qed.

(** What [enqueue] leaves alone. *)
Definition same_time s s' : Prop := now s' = now s /\ r_trace s' = r_trace s /\ r_cpi s' = r_cpi s /\ m_num_in_rob s' = m_num_in_rob s /\
  frontend_stalled_until s' = frontend_stalled_until s.

(** The last steps: the entry is linked to its producers. *)
Lemma runs_link U lo E s base d s2 d2 d3 e1 : let n := Z.of_nat (length U) in Inv U lo E s -> UopIn cfg exec_max latency_max base U d -> lo <= base -> Z.of_nat (length U) + 1 < 2 ^ 64 - 1 -> now s + span < MaxTime ->
  Rep cfg (rob s2) lo (n + 1) (<[n := with_uop d3 e1]> E) -> nextSequenceNumber s2 = n + 1 -> m_rs_entries_used s2 = m_rs_entries_used s -> same_time s s2 ->
  (last_store_done s2, load_queue s2, store_queue s2, m_rob_contention s2) = (last_store_done s, load_queue s, store_queue s, m_rob_contention s) ->
  DepsOk cfg (U ++ [d]) lo (registerDependencies s2) (memoryDependencies s2) -> AuxOk cfg s2 ->
  re_uop e1 = setSequenceNumber n d -> fresh lo E (registerDependencies s) (addressRegisters (m_uop d)) e1 ->
  same_uop (setSequenceNumber n d) d2 -> same_uop d2 d3 -> uop_ok d3 -> (forall y, y ∈ udeps d3 -> lo <= y < n) -> (length (done_of E (udeps d3)) <= 8)%nat ->
  (forall y, y ∈ udeps d2 <-> wanted U lo (memoryDependencies s) d y) -> (isStore (m_uop d) = true -> d3 = d2 /\ (length (udeps d3) <= 5)%nat) ->
  (forall y, y ∈ udeps d2 -> y ∈ udeps d3 \/ (m_store_to_load_forwarding cfg = true /\ isLoad (m_uop d) = true /\ isStore (uop_of (E y)) = true)) ->
  (forall y, y ∈ udeps d2 -> lo <= y < n) ->
  runs (e ← entry (slot cfg n);
    '(minProducerDistance, deps_to_remove) ← link_producers (Z.to_nat (getDependenciesLength (re_uop e))) 0 (slot cfg n) (2 ^ 64 - 1) [];
    _ ← count_distance minProducerDistance;
    _ ← assertM (length deps_to_remove <? 16)%nat;
    e ← entry (slot cfg n);
    d ← lift_res (remove_dependencies deps_to_remove (re_uop e));
    _ ← set_entry (slot cfg n) (if getDependenciesLength d =? 0 then with_ready (readyMax e) (readyMax e) (with_uop d e) else with_uop d e);
    count_uop (m_uop d)) (fun _ s' => exists E', Inv (U ++ [d]) lo E' s' /\ same_time s s') s2.
Proof.
  intros n HI Hd Hlob Hmax Ht HR Eseq Ers (Enow & Etr & Ek & Enum & Efr) Eq HD HA Hre Hfr Hs2 Hs3 Hok3 Hin3 H8 Hw Hst Hkeep Hin2.
  pose proof (Rep_bounds _ _ _ _ _ (inv_rep _ _ _ _ _ _ _ _ HI)) as Hb. set (l := udeps d3) in *.
  assert (Hseq : forall k, lo <= k < n -> sequenceNumber (re_uop (E k)) = k) by (intros k Hk; apply (ei_uop _ _ _ _ _ _ (inv_ent _ _ _ _ _ _ _ _ HI)); lia).
  rstep. apply (runs_new_entry cfg lo n E ltac:(lia) (with_uop d3 e1)); [done|]. cbn [re_uop with_uop]. rewrite length_udeps by done. rewrite Nat2Z.id.
  destruct (fr_ready _ _ _ _ _ Hfr) as [Erd Erm].
  rstep. eapply wpe_mono; [apply (runs_link_producers cfg lo n E ltac:(lia) ltac:(lia) Hseq (with_uop d3 e1) [] l)|done|]; try done.
  { unfold Linked. cbn [max_done foldl]. eapply Rep_ext; [exact HR|]. intros k Hk. destruct (decide (k = n)) as [->|]; [by rewrite !fn_lookup_insert; destruct e1|].
    rewrite !fn_lookup_insert_ne by done. unfold linked. destruct (E k); cbn. destruct (_ =? _); [|done]. by rewrite app_nil_r. }
  intros [mind rm] s3 (q3 & -> & HR3 & Hrm & Hmind). cbn [fst snd app] in *. subst rm. specialize (Hmind ltac:(lia)).
  cbn [ready readyMax with_uop] in HR3. rewrite Erd, Erm in HR3. set (e3 := with_ready MaxTime _ (with_uop d3 e1)) in *. unfold Linked in HR3.
  destruct HA as [A1 A2 A3 A4 A5 A6 A7]. rstep. apply runs_count_distance; [done|lia|]. intros st Hst'. rewrite (proj2 (Nat.ltb_lt _ _)) by lia. do 2 rstep.
  rstep. apply (runs_entry cfg lo (n + 1) (<[n := e3]> (fun k => linked (slot cfg n) l k (E k)))); [done|lia|]. rewrite fn_lookup_insert. cbn [re_uop e3 with_ready with_uop].
  destruct (remove_dependencies_ok (done_of E l) d3 Hok3) as (d4 & E4 & Hs4 & Hok4 & Hlen4 & Hocc).
  { intros x. rewrite occ_done_of. destruct (decide (done (E x) = MaxTime)); [lia|done]. }
  rstep. eapply wpe_lift; [exact E4|]. rstep. apply runs_set_entry. set (e := if _ =? 0 then _ else _).
  assert (HN : NewEntry lo n E d l e).
  { eapply NewEntry_intro; try done; [by etrans|..].
    intros Hs a (r & Hr & Hp). destruct (Hst Hs) as [E32 _]. unfold l. rewrite E32. apply Hw. right; left. exists r.
      assert (Hr' : r ∈ sourceRegisters (m_uop d)) by (by apply (ui_addresses _ _ _ _ _ _ Hd)). split; [done|].
      rewrite <- (do_producers _ _ _ _ _ (inv_deps _ _ _ _ _ _ _ _ HI)); [done|by apply (ui_sources _ _ _ _ _ _ Hd)|lia]. }
  unfold count_uop, upd_stats. rstep. eexists. split; [|by split_and!].
  assert (Ede : re_uop e = d4) by (subst e; by destruct (_ =? 0)).
  apply (Inv_enqueue U lo E s d base l e _ (cq_set (slot cfg n) (Some e) q3)); try done.
  - intros Hs. rewrite Ede. destruct (Hst Hs). unfold l in *. lia.
  - intros y Hy. apply Hw in Hy. destruct (Hkeep y Hy) as [?|(? & ? & ?)]; [by left|right]. destruct (Hin2 y Hy). split_and!; try done; lia.
  - eapply Rep_ext; [refine (Rep_set _ _ _ _ _ n e HR3 _); lia|]. intros k Hk. destruct (decide (k = n)) as [->|]; [by rewrite !fn_lookup_insert|by rewrite !fn_lookup_insert_ne by done].
  - destruct Hst'. by split.
Qed.

Lemma runs_enqueue U lo E s base d : Inv U lo E s -> UopIn cfg exec_max latency_max base U d -> squashed d = false -> lo <= base -> Z.of_nat (length U) + 1 < 2 ^ 64 - 1 ->
  Z.of_nat (length U) - lo < windowSize cfg + 255 -> now s + span < MaxTime ->
  runs (enqueue cfg d) (fun _ s' => exists E', Inv (U ++ [d]) lo E' s' /\ same_time s s') s.
Proof.
  intros HI Hd Hsq Hlob Hmax Hcap Ht. set (n := Z.of_nat (length U)) in *. pose proof (inv_rep _ _ _ _ _ _ _ _ HI) as HR. pose proof (Rep_bounds _ _ _ _ _ HR) as Hb.
  pose proof (inv_deps _ _ _ _ _ _ _ _ HI) as HD. pose proof Hcfg as [_ Hw _ _ _ _ _]. pose proof (ui_count _ _ _ _ _ _ Hd) as Hcount.
  assert (Hseq : forall k, lo <= k < n -> sequenceNumber (re_uop (E k)) = k) by (intros k Hk; apply (ei_uop _ _ _ _ _ _ (inv_ent _ _ _ _ _ _ _ _ HI)); lia).
  assert (Hrd : forall r a, producer_of (registerDependencies s) lo r = Some a -> lo <= a < n).
  { intros r a Ha. assert (r < XED_REG_LAST cfg)%nat. { apply producer_of_Some in Ha as (Ha & _). apply lookup_lt_Some in Ha. by rewrite (do_registers _ _ _ _ _ HD) in Ha. }
    rewrite (do_producers _ _ _ _ _ HD) in Ha by (done || lia). apply from_bound in Ha. lia. }
  unfold enqueue. rewrite Hsq. do 2 rstep. destruct (Rep_push cfg (rob s) lo n E (RobEntry_init d n) HR Hcap) as [En HR1].
  rstep. eapply wpe_lift; [exact En|]. cbv iota. do 4 rstep. rewrite (proj1 (inv_hi _ _ _ _ _ _ _ _ HI)). fold n. rewrite (wrap_small 64 (n + 1)) by lia.
  assert (Hlen : cq_length (cq_advance_first (rob s)) = n + 1 - lo). { apply ring_length, (ring_advance_first _ lo n); [apply HR|]. destruct HR as (_ & -> & _). lia. }
  rewrite Hlen, (proj2 (Z.ltb_lt _ _)) by lia. do 2 rstep.
  apply (runs_rob_front cfg lo (n + 1) (<[n := RobEntry_init d n]> E)); [done|lia|]. rstep.
  replace (sequenceNumber (re_uop (<[n:=RobEntry_init d n]> E lo))) with lo.
  2: { destruct (decide (lo = n)) as [->|]; [by rewrite fn_lookup_insert|]. rewrite fn_lookup_insert_ne by done. symmetry. apply Hseq. lia. }
  rstep. eapply wpe_mono; [apply (runs_store_address cfg lo n E ltac:(lia) ltac:(lia) Hseq (registerDependencies s) d); try done|done|].
  { intros r Hr. rewrite (do_registers _ _ _ _ _ HD). by apply (ui_sources _ _ _ _ _ _ Hd), (ui_addresses _ _ _ _ _ _ Hd). }
  cbv beta. intros _ s1 (q1 & e1 & -> & HR2 & Hre & Hfr).
  rstep. eapply wpe_mono; [apply (runs_set_dependencies U lo E _ base d e1); try done; [lia|fold n; lia|fold n; lia]|done|].
  cbv beta. intros _ s2 (q2 & rd' & md' & d2 & -> & HR3 & HD' & Hs2 & Hok2 & Hu2 & Hlen2). fold n in HR3, Hs2.
  assert (Hin2 : forall y, y ∈ udeps d2 -> lo <= y < n).
  { intros y Hy. assert (sequenceNumber d2 = n) by (by rewrite Hs2). pose proof (udeps_bound d2 y Hok2 Hy). split; [|lia]. apply Hu2 in Hy. pose proof (ui_base _ _ _ _ _ _ Hd).
    destruct Hy as [?|[(r & _ & Hp)|[[_ Hp]|[_ Hp]]]]; [lia|apply from_bound in Hp; lia|apply from_bound in Hp; lia|].
    unfold fence_of in Hp. destruct (_ && _) eqn:Ex; [|done]. injection Hp as <-. apply andb_true_iff in Ex as [_ ?]. cbn in *. lia. }
  rstep. eapply wpe_mono; [apply (runs_forwarding U lo E s base d d2 e1); try done|done|].
  cbv beta. intros _ s3 (q3 & d3 & -> & HR4 & Hs3 & Hok3 & Hin3 & H8 & Hkeep & Hst3). unfold upd_stats. do 2 rstep.
  pose proof (inv_aux _ _ _ _ _ _ _ _ HI) as [A1 A2 A3 A4 [] A6 A7].
  eapply (runs_link U lo E s base d _ d2 d3 e1); try done.
  intros Hs. split; [auto|]. rewrite (Hst3 Hs). rewrite Hs, orb_true_r in Hcount. lia.
Qed.
End enqueue.
