(* ===== verification/RobNehalem.v ===== *)
(** * The Nehalem contention model as the core sees it

    The contention model of the ports and units of a Nehalem core keeps the promises of [RobContentionOk]. *)

From stdpp Require Import sets functions.
From S2P Require Import Prelude StateMonad SubsecondTime ContentionModel CircularQueue MicroOp MicroOpFacts CoreModelNehalem RobTimer RobInvariant RobAccess RobState RobIssue.
#[local] Open Scope Z_scope.

Implicit Types (c : RobContentionNehalem).

Definition nehalem_ok c : Prop := length (ports c) = UOP_PORT_SIZE /\ length (alu_used_until c) = UOP_ALU_SIZE.
Definition nehalem_busy c : Z := foldr Z.max 0 (alu_used_until c).

Lemma foldr_max_ge l i x : l !! i = Some x -> x <= foldr Z.max 0 l.
Proof. revert i. induction l as [|y l IH]; intros [|i] H; cbn in *; [done..|injection H as ->; lia|]. specialize (IH i H). lia. Qed.

Lemma foldr_max_insert l i x : foldr Z.max 0 (<[i := x]> l) <= Z.max (foldr Z.max 0 l) x.
Proof.
  revert i. induction l as [|y l IH]; intros i; [change (<[i := x]> []) with (@nil Z); cbn; lia|]. destruct i as [|i].
  - change (<[0%nat := x]> (y :: l)) with (x :: l). cbn. lia.
  - change (<[S i := x]> (y :: l)) with (y :: <[i := x]> l). specialize (IH i). cbn. lia.
Qed.

(** The time for which an instruction keeps a unit busy. *)
Lemma latency_bound (o : xed_iclass_enum_t) : 1 <= getInstructionLatency o <= 110.
Proof.
  unfold getInstructionLatency. assert (H : Forall (fun e => 1 <= e.2 <= 110) instructionLatencies) by (repeat constructor; cbn; lia).
  induction H as [|e l He H IH]; cbn; [lia|]. by destruct (iclass_in e.1 o).
Qed.

Lemma alu_latency_bound u : 1 <= getAluLatency u <= 110.
Proof. unfold getAluLatency. destruct (iclass_in _ _); [destruct (_ <? _); lia|apply latency_bound]. Qed.

Lemma take_port_ok port c : nehalem_ok c -> exists r, take_port port c = Ok r /\
  forall c', r = Some c' -> nehalem_ok c' /\ rc_now c' = rc_now c /\ alu_used_until c' = alu_used_until c.
Proof.
  intros [Hp Ha]. assert (exists b, aget (ports c) (port_index port) = Ok b) as [b Eb].
  { destruct (aget_lt (ports c) (port_index port)) as (b & -> & _); [rewrite Hp; destruct port; cbv; lia|eauto]. }
  unfold take_port, nehalem_ok. destruct port; rewrite ?Eb; cbn [mbind res_bind]; eexists; (split; [reflexivity|]); intros c' Hc';
    repeat match type of Hc' with (if ?x then _ else _) = _ => destruct x; try done end; injection Hc' as <-; cbn; rewrite ?length_insert; done.
Qed.

Lemma take_port_first port t c : exists c', take_port port (nehalem_initCycle t c) = Ok (Some c').
Proof. destruct port; vm_compute; eauto. Qed.

Lemma nehalem_tryIssue_ok d c : nehalem_ok c -> exists b c', nehalem_tryIssue d c = Ok (b, c') /\ nehalem_ok c' /\ rc_now c' = rc_now c /\ nehalem_busy c' = nehalem_busy c.
Proof.
  intros Hc. unfold nehalem_tryIssue, nehalem_busy. destruct (take_port_ok (uop_port d) c Hc) as (r & -> & Hr). cbn [mbind res_bind].
  destruct r as [c'|]; [|by eauto 10]. destruct (Hr c' eq_refl) as (Hc' & En & Ea). destruct (alu_index (uop_alu d)) as [i|] eqn:Ei.
  - destruct (aget_lt (alu_used_until c') i) as (t & -> & _); [|cbn; rewrite <- Ea; by eauto 10].
    destruct Hc' as [_ ->]. destruct (uop_alu d); cbn in Ei; [done|]. injection Ei as <-. cbv; lia.
  - rewrite <- Ea. by eauto 10.
Qed.

Lemma nehalem_tryIssue_free t d c : nehalem_ok c -> nehalem_busy c <= t -> exists c', nehalem_tryIssue d (nehalem_initCycle t c) = Ok (true, c').
Proof.
  intros [Hp Ha] Hb. unfold nehalem_tryIssue. destruct (take_port_first (uop_port d) t c) as (c' & E). rewrite E. cbn [mbind res_bind].
  destruct (take_port_ok (uop_port d) (nehalem_initCycle t c)) as (r & Er & Hr); [by split; [apply length_replicate|]|]. rewrite E in Er. injection Er as <-.
  destruct (Hr c' eq_refl) as ([_ Hl] & En & Ea). destruct (alu_index (uop_alu d)) as [i|] eqn:Ei; [|by eauto].
  destruct (aget_lt (alu_used_until c') i) as (x & -> & Hx).
  { rewrite Hl. destruct (uop_alu d); cbn in Ei; [done|]. injection Ei as <-. cbv; lia. }
  cbn [mbind res_bind]. rewrite Ea in Hx. apply foldr_max_ge in Hx. rewrite En. unfold nehalem_busy in Hb. cbn in Hx |- *. unfold st_gtb.
  rewrite (proj2 (Z.ltb_ge _ _)) by lia. by eauto.
Qed.

Lemma nehalem_doIssue_ok period d c : nehalem_ok c -> 0 <= period -> 0 <= rc_now c -> exists c', nehalem_doIssue period d c = Ok c' /\ nehalem_ok c' /\
  rc_now c' = rc_now c /\ nehalem_busy c' <= Z.max (nehalem_busy c) (rc_now c + 110 * period).
Proof.
  intros [Hp Ha] Hper Hn. unfold nehalem_doIssue. destruct (alu_index (uop_alu d)) as [i|] eqn:Ei; [|exists c; split_and!; try done; lia].
  assert (i < UOP_ALU_SIZE)%nat by (destruct (uop_alu d); cbn in Ei; [done|]; injection Ei as <-; cbv; lia).
  rewrite aset_lt by (by rewrite Ha). cbn [mbind res_bind]. eexists. split; [reflexivity|]. split; [by split; [|cbn; rewrite length_insert]|]. split; [done|].
  etrans; [apply foldr_max_insert|]. fold (nehalem_busy c). apply Z.max_le_compat_l. pose proof (alu_latency_bound (m_uop d)). unfold st_add, st_mul.
  pose proof (wrap_le_self 64 (period * getAluLatency (m_uop d)) ltac:(lia) ltac:(nia)). pose proof (wrap_range 64 (period * getAluLatency (m_uop d)) ltac:(lia)).
  etrans; [apply wrap_le_self; lia|]. nia.
Qed.

#[global] Program Instance nehalem_contention_ok : RobContentionOk RobContentionNehalem :=
  {| c_ok := nehalem_ok; c_now := rc_now; c_busy := nehalem_busy; c_busy_max := 110; tryIssue_ok := nehalem_tryIssue_ok;
     tryIssue_free := nehalem_tryIssue_free; doIssue_ok := nehalem_doIssue_ok |}.
Next Obligation. lia. Qed.
Next Obligation. intros t c [_ Ha]. by split_and!. Qed.
