(* ===== verification/RobCorrect.v ===== *)
(** * Correctness of the out-of-order core

    The states that the core can be in ([reachable]): instructions enter it when it asks for more, [execute]
    is called, and [synchronize] moves its clock forward.  No step fails; micro-operations are issued after
    those whose results they use, and leave the reorder buffer in program order. *)

From stdpp Require Import sets functions.
From S2P Require Import Prelude StateMonad SubsecondTime ContentionModel CircularQueue MicroOp MicroOpFacts CoreModelNehalem RobTimer RobInvariant RobAccess RobState RobDeps RobIssue RobCycle RobExecute RobEnqueue RobNehalem.
#[local] Open Scope Z_scope.

(** ** Reachable states *)

Section reachable.
Context {C Mem : Type} `{!RobContention C} `{!RobContentionOk C} `{!CoreMemory Mem} `{!CoreMemoryOk Mem}.
Context (cfg : RobCfg) (period exec_max latency_max : Z) (contention : option C) (memory : Mem).
Implicit Types (s : RobTimer C Mem) (E : Z -> RobEntry) (U insts : list DynamicMicroOp).
Abbreviation span := (span period latency_max).
Abbreviation Inv := (Inv cfg period exec_max latency_max).

(** The micro-operations of an instruction that have not been squashed. *)
Definition live insts : list DynamicMicroOp := filter (fun d => squashed d = false) insts.

(** The micro-operations of an instruction, those from [base] on having been looked at. *)
Fixpoint uops_ok (base : Z) U insts : Prop :=
  match insts with
  | [] => True
  | d :: insts => if squashed d then uops_ok base U insts else UopIn cfg exec_max latency_max base U d /\ uops_ok base (U ++ [d]) insts
  end.

Record inst_ok U insts : Prop := {
  io_uops : uops_ok (Z.of_nat (length U)) U insts;
  io_length : Z.of_nat (length (live insts)) + 2 * dispatchWidth cfg <= 256;
  io_total : Z.of_nat (length U) + Z.of_nat (length (live insts)) < 2 ^ 64 - 1
}.

(** The state in which [execute] returns without doing anything. *)
Definition wants_more s : Prop := frontend_stalled_until s <= now s /\ cq_length (rob s) < m_num_in_rob s + 2 * dispatchWidth cfg.

(** The clock does not overflow in the next call. *)
Definition time_ok s : Prop := now s + span < MaxTime.

(** [U] are the micro-operations that have entered the core. *)
Inductive reachable : list DynamicMicroOp -> RobTimer C Mem -> Prop :=
  | reach_new : reachable [] (RobTimer_new cfg contention memory)
  | reach_instruction U s insts s' : reachable U s -> time_ok s -> wants_more s -> inst_ok U insts ->
      enqueue_all cfg insts s = Ok (tt, s') -> reachable (U ++ live insts) s'
  | reach_execute U s r s' : reachable U s -> time_ok s -> execute cfg period s = Ok (r, s') -> reachable U s'
  | reach_synchronize U s t s' : reachable U s -> now s <= t -> synchronize t s = Ok (tt, s') -> reachable U s'.

Record StartOk : Prop := {
  st_cfg : CfgOk cfg period exec_max latency_max mem_max;
  st_contention : forall c, contention = Some c -> c_ok c;
  st_free : forall c, contention = Some c -> c_now c = 0 /\ c_busy c = 0;
  st_memory : mem_ok memory
}.
Context (Hstart : StartOk).

Lemma stats_new : stats_ok cfg (r_stats (RobTimer_new cfg contention memory)).
Proof.
  split; cbn [RobTimer_new r_stats m_producerInsDistance m_outstandingLoads m_outstandingLoadsAll]; [by rewrite length_replicate|]. intros ->.
  rewrite length_fmap, length_seq, length_replicate. split_and!; try done. intros h v Hv Hh. apply list_lookup_fmap_Some in Hv as (k & -> & Hk).
  apply lookup_seq in Hk as [-> _]. cbn [Nat.add] in *. rewrite Hh. apply length_replicate.
Qed.

Lemma runs_enqueue_all {sl : Slack} U lo E s base insts : Inv U lo E s -> uops_ok base U insts -> lo <= base -> Z.of_nat (length U) + Z.of_nat (length (live insts)) < 2 ^ 64 - 1 ->
  Z.of_nat (length U) + Z.of_nat (length (live insts)) - lo <= windowSize cfg + 255 -> time_ok s ->
  runs (enqueue_all cfg insts) (fun _ s' => exists E', Inv (U ++ live insts) lo E' s' /\ same_time s s') s.
Proof.
  revert U E s. induction insts as [|d insts IH]; intros U E s HI Hu Hlo Hmax Hcap Ht; cbn [enqueue_all].
  { rstep. exists E. cbn. rewrite app_nil_r. by split. }
  cbn [uops_ok] in Hu. unfold live in *. rewrite filter_cons in *. destruct (squashed d) eqn:Es.
  - rewrite decide_False in * by done. unfold enqueue. rewrite Es. do 2 rstep. by apply IH with E.
  - rewrite decide_True in * by done. destruct Hu as [Hd Hu]. cbn [length] in Hmax, Hcap. rstep.
    eapply wpe_mono; [apply (runs_enqueue cfg period exec_max latency_max (st_cfg Hstart) U lo E s base d HI Hd Es Hlo); [lia|lia|exact Ht]|done|].
    cbv beta. intros _ s1 (E1 & HI1 & Hs1 & Hs2 & Hs3 & Hs4 & Hs5).
    eapply wpe_mono; [apply (IH (U ++ [d]) E1 s1 HI1 Hu Hlo); [rewrite length_app; cbn; lia|rewrite length_app; cbn; lia|unfold time_ok in *; congruence]|done|].
    cbv beta. intros _ s2 (E2 & HI2 & Ha & Hb & Hc & Hd' & He). exists E2. rewrite <- app_assoc in HI2. split; [exact HI2|]. unfold same_time. split_and!; congruence.
Qed.

Lemma starved_wants {sl : Slack} U lo E s : Inv U lo E s -> starved cfg lo U s <-> wants_more s.
Proof. intros HI. unfold starved, wants_more. by rewrite (ring_length _ lo (Z.of_nat (length U))) by apply (inv_rep _ _ _ _ _ _ _ _ HI). Qed.

(** Here the micro-operations are counted from the start of the core. *)
#[local] Instance from_start : Slack := 0.

Lemma Inv_new : Inv [] 0 (fun _ => RobEntry_init (createDynamicMicroOp MicroOp_new) 0) (RobTimer_new cfg contention memory).
Proof.
  pose proof Hstart as [Hc Hco Hfree Hm]. pose proof Hc as [? Hw ? ? ? ? ?]. pose proof (period_le_span cfg period exec_max latency_max Hc) as Hsp. split; cbn [length]; try (intros; lia); try done.
  - split; [|split; [|intros; lia]]; [apply cq_ring_new; lia|]. cbn. rewrite wrap_small; lia.
  - split; intros; lia.
  - cbn. lia.
  - split; [done|]. cbn. lia.
  - cbn. intros; lia.
  - left. cbn. lia.
  - intros n p (d & Hd & _). done.
  - apply DepsOk_new.
  - pose proof c_busy_range. split; cbn [RobTimer_new last_store_done load_queue store_queue m_rob_contention now m_num_in_rob m_rs_entries_used]; [done|lia|split; [done|]..|].
    + by apply Forall_replicate.
    + by apply Forall_replicate.
    + intros c Hc'. destruct (Hfree c Hc'). nia.
  - split; try done; cbn [RobTimer_new load_queue store_queue r_cpi now m_cpiCurrentFrontEndStall]; try apply length_replicate; [apply stats_new|].
    split; cbn [m_cpiBase m_cpiBranchPredictor m_cpiSerialization m_cpiRSFull m_cpiInstructionCache m_cpiDataCache]; [|by rewrite length_replicate|done].
    split_and!; try done; by apply Forall_replicate.
Qed.

(** The invariant at the end of a call. *)
Definition Good U s : Prop := committed_before s /\ exists lo E, Inv U lo E s.

Lemma Good_execute U s : Good U s -> time_ok s -> runs (execute cfg period) (fun r s' => Good U s' /\ exists lo E, Inv U lo E s /\ executed cfg period exec_max latency_max U lo E s r.2 s') s.
Proof.
  intros (Hc & lo & E & HI) Ht. eapply wpe_mono; [by apply (runs_execute cfg period exec_max latency_max (st_cfg Hstart) U lo E)|done|].
  intros r s' Hex. split; [|by exists lo, E]. destruct Hex as [(lo' & E' & _ & HI' & _) Hc' _ _ _]. split; [done|by exists lo', E'].
Qed.

Lemma Good_enqueue_all U s insts : Good U s -> time_ok s -> wants_more s -> inst_ok U insts ->
  runs (enqueue_all cfg insts) (fun _ s' => Good (U ++ live insts) s' /\ same_time s s') s.
Proof.
  intros (Hc & lo & E & HI) Ht [_ Hw] [Hu Hl Htot]. pose proof (inv_rep _ _ _ _ _ _ _ _ HI) as HR. pose proof (Rep_bounds _ _ _ _ _ HR) as Hb. pose proof (inv_num _ _ _ _ _ _ _ _ HI).
  rewrite (ring_length _ lo (Z.of_nat (length U))) in Hw by apply HR.
  eapply wpe_mono; [apply (runs_enqueue_all U lo E s (Z.of_nat (length U)) insts); try done; lia|done|].
  cbv beta. intros _ s' (E' & HI' & Hs). split; [|done]. destruct Hs as (En & Et & _). split; [|by exists lo, E']. intros i y Hy. rewrite Et in Hy. rewrite En. by apply (Hc i).
Qed.

Lemma Good_synchronize U s t : Good U s -> now s <= t -> Good U (with_now t s).
Proof.
  intros (Hc & lo & E & HI) Ht. split. { intros i y Hy. specialize (Hc i y Hy). cbn. lia. } exists lo, E.
  assert (HI' := Inv_advance cfg period exec_max latency_max U lo E s t (time_skipped s) (will_skip s) HI Ht). by destruct s.
Qed.

Lemma reachable_good U s : reachable U s -> Good U s.
Proof.
  induction 1 as [|U s insts s' _ IH Ht Hw Hi E|U s r s' _ IH Ht E|U s t s' _ IH Hle E].
  - split; [by intros i y Hy|]. eexists _, _. apply Inv_new.
  - by destruct (wpe_ok _ _ _ _ _ _ (Good_enqueue_all U s insts IH Ht Hw Hi) E).
  - by destruct (wpe_ok _ _ _ _ _ _ (Good_execute U s IH Ht) E).
  - injection E as <-. by apply Good_synchronize.
Qed.

(** ** No step fails *)

(** C18: in every reachable state whose clock is not about to overflow, a call of [execute] succeeds, returns the time by
    which it moves the clock and adds the same time to the CPI stack, and takes no time exactly when the core
    wants more instructions; and then every well-formed instruction can enter the core: no assertion of
    rob_timer.cc, micro_op or the queues fails, no array is left and no freed entry of the reorder buffer is used. *)
Theorem rob_steps_succeed U s : reachable U s -> time_ok s ->
  (exists n lat s', execute cfg period s = Ok ((n, lat), s') /\ now s' = now s + lat /\ cpi_total (r_cpi s') = cpi_total (r_cpi s) + lat /\
     ((lat = 0 /\ wants_more s) \/ (period <= lat <= span /\ ~ wants_more s))) /\
  (wants_more s -> forall insts, inst_ok U insts -> exists s', enqueue_all cfg insts s = Ok (tt, s')).
Proof.
  intros Hr Ht. pose proof (reachable_good U s Hr) as HG. split.
  - destruct (runs_ok _ _ _ (Good_execute U s HG Ht)) as ([n lat] & s' & E & _ & lo & En & HI & [_ _ Hn Hk Hl]). cbn [snd] in *.
    exists n, lat, s'. split_and!; try done. rewrite (starved_wants _ _ _ _ HI) in Hl. tauto.
  - intros Hw insts Hi. destruct (runs_ok _ _ _ (Good_enqueue_all U s insts HG Ht Hw Hi)) as ([] & s' & E & _). eauto.
Qed.

(** ** Data flow *)

(** C17: out-of-order issue respects the data flow: a micro-operation that has left the core was issued when the results of
    all micro-operations it depends on (of its own instruction, through registers, and through memory) could be used,
    and these have left the core too.  With store-to-load forwarding, which rob.cfg turns on, the dependencies of loads
    on stores are left out ([forwarded]). *)
Theorem rob_respects_data_flow U s n p x : reachable U s -> depends cfg U n p -> r_trace s !! n = Some x ->
  exists y, r_trace s !! p = Some y /\ t_issue y.2 + period * (if isStore (m_uop y.1) then 1 else execLatency y.1) <= t_issue x.2.
Proof.
  intros Hr Hd Hx. destruct (reachable_good U s Hr) as (_ & lo & E & HI). pose proof (inv_trace _ _ _ _ _ _ _ _ HI) as [Hlen Hent _ _].
  destruct (inv_data _ _ _ _ _ _ _ _ HI n p Hd) as [Hp HD]. destruct (Hent n x Hx) as (Ex & _ & Ei & _ & Hdn & _). rewrite decide_False in HD by done.
  pose proof (lookup_lt_Some _ _ _ Hx). destruct (lookup_lt_is_Some_2 (r_trace s) p) as [y Hy]; [lia|]. exists y. split; [done|].
  destruct (Hent p y Hy) as (Ey & _ & Eiy & _). rewrite Ey, Eiy, Ei. apply HD.
Qed.

(** ** Program order *)

(** C20: micro-operations leave the core in program order: the one at position [i] of the trace is the one that entered at
    position [i]; it was dispatched, issued, completed and committed in this order; commits are ordered in time and
    at most [commitWidth] of them share a moment. *)
Theorem rob_commits_in_order U s : reachable U s ->
  (forall i x, r_trace s !! i = Some x -> (exists d, U !! i = Some d /\ same_input d x.1) /\ (exists t, t_dispatch x.2 = Some t /\ 0 <= t <= t_issue x.2) /\
     t_issue x.2 <= t_done x.2 <= t_commit x.2 /\ t_commit x.2 < now s) /\
  (forall i j x y, (i <= j)%nat -> r_trace s !! i = Some x -> r_trace s !! j = Some y -> t_commit x.2 <= t_commit y.2) /\
  (1 <= commitWidth cfg -> forall i x y, r_trace s !! i = Some x -> r_trace s !! (i + Z.to_nat (commitWidth cfg))%nat = Some y -> t_commit x.2 < t_commit y.2).
Proof.
  intros Hr. destruct (reachable_good U s Hr) as (Hc & lo & E & HI). pose proof (inv_trace _ _ _ _ _ _ _ _ HI) as [Hlen Hent Hord Hwid].
  pose proof (Rep_bounds _ _ _ _ _ (inv_rep _ _ _ _ _ _ _ _ HI)) as Hb. destruct (st_cfg Hstart) as [_ _ _ ? ? ? ?].
  split_and!; [|exact Hord|eauto]. intros i x Hx. destruct (Hent i x Hx) as (Ex & Ed & Ei & Edn & Hdn & Hcm). pose proof (lookup_lt_Some _ _ _ Hx).
  destruct (inv_entry _ _ _ _ _ _ _ _ HI (Z.of_nat i)) as [_ _ Hdi _ Hi]; [lia|]. destruct (Hi Hdn) as ((t & Et & Hti) & He & Hres & _). rewrite Ed, Ei, Edn. split_and!.
  - destruct (lookup_lt_is_Some_2 U i) as [d Hd]; [lia|]. exists d. split; [done|]. rewrite Ex. by apply (inv_uops _ _ _ _ _ _ _ _ HI).
  - exists t. split; [done|]. specialize (Hdi t Et). lia.
  - unfold result_time in Hres. destruct (isStore _); nia.
  - lia.
  - by apply (Hc i).
Qed.

(** ** The window *)

(** The entries of the window, oldest first. *)
Definition window s : list RobEntry := omap (fun i => cq_queue (rob s) !! cq_slot (rob s) i ≫= id) (seqZ 0 (m_num_in_rob s)).

Lemma window_lookup U lo E s : Inv U lo E s -> window s = E <$> seqZ lo (m_num_in_rob s).
Proof.
  intros HI. pose proof (inv_num _ _ _ _ _ _ _ _ HI) as Hnum. pose proof (inv_rep _ _ _ _ _ _ _ _ HI) as HR. pose proof (Rep_bounds _ _ _ _ _ HR) as Hb.
  unfold window. replace lo with (lo + 0) at 1 by lia. assert (Hle : forall k, k ∈ seqZ 0 (m_num_in_rob s) -> 0 <= k < m_num_in_rob s) by (intros k Hk; apply elem_of_seqZ in Hk; lia).
  rewrite <- (fmap_add_seqZ lo 0), <- list_fmap_compose. revert Hle. generalize (seqZ 0 (m_num_in_rob s)) as l. induction l as [|k l IH]; intros Hle; [done|].
  cbn. rewrite (ring_cq_slot _ lo (Z.of_nat (length U))) by (apply HR || (specialize (Hle k ltac:(left)); lia)). rewrite <- (Rep_slot _ _ _ _ _ _ HR).
  destruct HR as (_ & _ & HR). rewrite (HR (lo + k)) by (specialize (Hle k ltac:(left)); lia). cbn. f_equal. apply IH. intros; apply Hle. by right.
Qed.

(** C21: the reorder buffer holds at most [windowSize] dispatched micro-operations, and [m_rs_entries_used] is the number of
    those among them that have not been issued, which never exceeds the number of reservation stations. *)
Theorem rob_window_bounded U s : reachable U s ->
  Z.of_nat (length (window s)) = m_num_in_rob s /\ 0 <= m_num_in_rob s <= windowSize cfg /\ m_num_in_rob s <= cq_length (rob s) /\
  m_rs_entries_used s = Z.of_nat (length (filter (fun e => done e = MaxTime) (window s))) /\ m_rs_entries_used s <= rsEntries cfg.
Proof.
  intros Hr. destruct (reachable_good U s Hr) as (_ & lo & E & HI). pose proof (inv_num _ _ _ _ _ _ _ _ HI) as Hnum. pose proof (inv_rs _ _ _ _ _ _ _ _ HI) as [Ers Hle].
  rewrite (window_lookup U lo E s HI), length_fmap, length_seqZ. rewrite (ring_length _ lo (Z.of_nat (length U))) by apply (inv_rep _ _ _ _ _ _ _ _ HI).
  split_and!; try lia. rewrite Ers. unfold waiting. f_equal. generalize (seqZ lo (m_num_in_rob s)) as l. induction l as [|k l IH]; [done|].
  rewrite fmap_cons, !filter_cons. destruct (decide (done (E k) = MaxTime)); cbn; by rewrite IH.
Qed.
End reachable.

(** ** A concrete core

    A narrow core with a Nehalem contention model and a memory where every access takes 50. *)

#[local] Open Scope string_scope.
#[local] Open Scope list_scope.
#[local] Open Scope Z_scope.

#[global] Instance flat_memory : CoreMemory unit := fun _ _ _ _ _ m => Ok (50, HW_L1_OWN, m).
#[global] Program Instance flat_memory_ok : CoreMemoryOk unit := {| mem_ok _ := True; mem_max := 50 |}.
Next Obligation. lia. Qed.
Next Obligation. intros w a sz ip t [] _. exists 50, HW_L1_OWN, tt. split_and!; try done; lia. Qed.

Definition demo_cfg (forwarding : bool) : RobCfg := mkRobCfg 1 2 4 36 8 forwarding false false true 30 10 10 20 0%nat.
Definition demo_new (forwarding : bool) : RobTimer RobContentionNehalem unit := RobTimer_new (demo_cfg forwarding) (Some RobContentionNehalem_new) tt.

Definition demo_exec (src dst : list nat) : DynamicMicroOp :=
  createDynamicMicroOp (setLast true (setFirst true (set_regs src [] dst (makeExecute 0 0 "MUL" false MicroOp_new)))).
Definition demo_load (addr dst : list nat) (a : Z) : DynamicMicroOp :=
  MicroOp.with_memory a 1 HitWhere_UNKNOWN (createDynamicMicroOp (setLast true (setFirst true (set_regs addr addr dst (makeLoad 0 "MOV" 8 MicroOp_new))))).
Definition demo_store (addr src : list nat) (a : Z) : DynamicMicroOp :=
  MicroOp.with_memory a 1 HitWhere_UNKNOWN (createDynamicMicroOp (setLast true (setFirst true (set_regs (addr ++ src) addr [] (makeStore 0 0 "MOV" 8 MicroOp_new))))).

(** A register is computed, stored and loaded again. *)
Definition demo_insts : list DynamicMicroOp :=
  [demo_exec [] [3%nat]; demo_exec [3%nat] [4%nat]; demo_store [5%nat] [4%nat] 64; demo_load [5%nat] [6%nat] 64; demo_exec [6%nat] [7%nat];
   demo_exec [] [8%nat]; demo_exec [] [9%nat]; demo_exec [] [10%nat]].

Lemma demo_start f : StartOk (demo_cfg f) 10 40 60 (Some RobContentionNehalem_new) tt.
Proof. split; [split; vm_compute; try split; done|by intros c [= <-]|by intros c [= <-]|done]. Qed.

Definition demo_uop_ok (d : DynamicMicroOp) : bool :=
  bool_decide (dependencies d = []) && (microOpTypeOffset d =? 0) && (intraInstructionDependencies d =? 0) &&
  forallb (fun r => (r <? 20)%nat) (sourceRegisters (m_uop d)) && forallb (fun r => (r <? 20)%nat) (destinationRegisters (m_uop d)) &&
  forallb (fun r => bool_decide (r ∈ sourceRegisters (m_uop d))) (addressRegisters (m_uop d)) && (length (sourceRegisters (m_uop d)) <=? 3)%nat &&
  (0 <=? execLatency d) && (execLatency d <=? 40) && HitWhereIsValid (dCacheHitWhere d) && HitWhereIsValid (iCacheHitWhere d) &&
  (0 <=? iCacheLatency d) && (iCacheLatency d <=? 60).

Lemma demo_uop_in f base U d : demo_uop_ok d = true -> base <= Z.of_nat (length U) -> UopIn (demo_cfg f) 40 60 base U d.
Proof.
  unfold demo_uop_ok. rewrite !andb_true_iff, !forallb_forall, bool_decide_eq_true. intros ((((((((((((H1 & H2) & H3) & H4) & H5) & H6) & H7) & H8) & H9) & H10) & H11) & H12) & H13) Hb.
  split; try done; try lia.
  - intros r Hr. apply list_elem_of_In in Hr. apply Nat.ltb_lt. exact (H4 r Hr).
  - intros r Hr. apply list_elem_of_In in Hr. apply Nat.ltb_lt. exact (H5 r Hr).
  - intros r Hr. apply list_elem_of_In in Hr. specialize (H6 r Hr). by apply bool_decide_eq_true in H6.
  - apply Nat.leb_le in H7. destruct (isLoad (m_uop d) || isStore (m_uop d)); lia.
  - intros i d' Hi Hd'. apply lookup_lt_Some in Hd'. lia.
  - split_and!; done || lia.
Qed.

Fixpoint demo_uops_ok f base U insts : forallb (fun d => negb (squashed d) && demo_uop_ok d) insts = true -> base <= Z.of_nat (length U) ->
  uops_ok (demo_cfg f) 40 60 base U insts.
Proof.
  destruct insts as [|d insts]; cbn; [done|]. intros H Hb. apply andb_true_iff in H as [H1 H2]. apply andb_true_iff in H1 as [H0 H1].
  apply negb_true_iff in H0. rewrite H0. split; [by apply demo_uop_in|]. apply demo_uops_ok; [done|]. rewrite length_app. cbn. lia.
Qed.

(** The state after [k] calls of [execute], and after the instruction has entered and [k] calls. *)
Fixpoint demo_cycles (f : bool) (k : nat) (s : RobTimer RobContentionNehalem unit) : res (RobTimer RobContentionNehalem unit) :=
  match k with
  | O => Ok s
  | S k => if now s + span 10 60 <? MaxTime then '(_, s) ← execute (demo_cfg f) 10 s; demo_cycles f k s else Err OutOfFuel
  end.
Definition demo_run (f : bool) (k : nat) : res (RobTimer RobContentionNehalem unit) :=
  '(_, s) ← enqueue_all (demo_cfg f) demo_insts (demo_new f); demo_cycles f k s.

Lemma demo_live : live demo_insts = demo_insts.
Proof. by vm_compute. Qed.

Lemma demo_idle f : time_ok 10 60 (demo_new f) /\ wants_more (demo_cfg f) (demo_new f).
Proof. split; [done|]. split; [done|]. unfold demo_new. cbn [RobTimer_new rob]. by destruct f. Qed.

Lemma demo_checked : forallb (fun d => negb (squashed d) && demo_uop_ok d) demo_insts = true.
Proof. by vm_compute. Qed.

Abbreviation demo_reach f := (reachable (demo_cfg f) 10 40 60 (Some RobContentionNehalem_new) tt).

Lemma demo_inst_ok f : inst_ok (demo_cfg f) 40 60 [] demo_insts.
Proof. split; [apply demo_uops_ok; [exact demo_checked|done]|..]; rewrite demo_live; cbn; lia. Qed.

Lemma demo_enters f s : enqueue_all (demo_cfg f) demo_insts (demo_new f) = Ok (tt, s) -> demo_reach f demo_insts s.
Proof.
  intros E0. rewrite <- demo_live. change (live demo_insts) with ([] ++ live demo_insts). destruct (demo_idle f).
  eapply reach_instruction; [apply reach_new|done|done|apply demo_inst_ok|exact E0].
Qed.

Lemma demo_cycles_reachable f U k s s' : demo_reach f U s -> demo_cycles f k s = Ok s' -> demo_reach f U s'.
Proof.
  revert s. induction k as [|k IH]; intros s Hs H; cbn [demo_cycles] in H; [by injection H as <-|].
  destruct (Z.ltb_spec (now s + span 10 60) MaxTime) as [Ht|]; [|done].
  destruct (execute (demo_cfg f) 10 s) as [[r s2]|] eqn:E2; [|done]. apply (IH s2); [|exact H]. by eapply reach_execute.
Qed.

Lemma demo_reachable f k s : demo_run f k = Ok s -> demo_reach f demo_insts s.
Proof.
  unfold demo_run. destruct (enqueue_all (demo_cfg f) demo_insts (demo_new f)) as [[[] s0]|] eqn:E0; [|done].
  intros H. eapply demo_cycles_reachable; [by apply demo_enters|exact H].
Qed.

(** What the state after twelve calls looks like: three micro-operations have left the core, the third, which reads
    the register that the second writes, having been issued at 70. *)
Definition demo_check (s : RobTimer RobContentionNehalem unit) : bool :=
  (now s + span 10 60 <? MaxTime) && (length (r_trace s) =? 3)%nat && (1 <=? m_num_in_rob s) &&
  match r_trace s !! 2%nat with Some x => t_issue x.2 =? 70 | None => false end.

Lemma demo_checks : match demo_run false 12 with Ok s => demo_check s = true | Err _ => False end.
Proof. vm_compute. reflexivity. Qed.

Lemma demo_state : exists s, demo_run false 12 = Ok s /\ demo_reach false demo_insts s /\ now s + span 10 60 < MaxTime /\ length (r_trace s) = 3%nat /\
  1 <= m_num_in_rob s /\ exists x, r_trace s !! 2%nat = Some x /\ t_issue x.2 = 70.
Proof.
  pose proof (fun s => demo_reachable false 12 s) as Hr. generalize demo_checks. revert Hr. generalize (demo_run false 12) as r.
  intros [s|] Hr H; [|destruct H]. exists s. unfold demo_check in H. rewrite !andb_true_iff in H.
  destruct H as [[[H1 H2] H3] H4]. apply Z.ltb_lt in H1. apply Nat.eqb_eq in H2. apply Z.leb_le in H3. split_and!; try done; [by apply Hr|].
  destruct (r_trace s !! 2%nat) as [x|]; [|done]. exists x. split; [done|by apply Z.eqb_eq].
Qed.

Lemma rob_steps_succeed_witness : exists s n lat s', demo_run false 12 = Ok s /\ execute (demo_cfg false) 10 s = Ok ((n, lat), s') /\ now s' = now s + lat.
Proof.
  destruct demo_state as (s & E & Hr & Ht & _).
  destruct (rob_steps_succeed (demo_cfg false) 10 40 60 (Some RobContentionNehalem_new) tt (demo_start false) demo_insts s Hr Ht)
    as [(n & lat & s' & E' & Hn & _) _]. exists s, n, lat, s'. split_and!; assumption.
Defined.

Lemma rob_respects_data_flow_witness : exists s y, demo_run false 12 = Ok s /\ r_trace s !! 1%nat = Some y /\
  t_issue y.2 + 10 * (if isStore (m_uop y.1) then 1 else execLatency y.1) <= 70.
Proof.
  destruct demo_state as (s & E & Hr & _ & _ & _ & x & Hx & Ex). exists s.
  destruct (rob_respects_data_flow (demo_cfg false) 10 40 60 (Some RobContentionNehalem_new) tt (demo_start false) demo_insts s 2 1 x Hr) as (y & Hy & Hi); [|exact Hx|].
  - exists (demo_store [5%nat] [4%nat] 64). split; [done|]. split; [lia|]. split; [by intros [? _]|]. right. left. exists 4%nat.
    split; [by right; left|by vm_compute].
  - exists y. rewrite Ex in Hi. split_and!; assumption.
Defined.

Lemma rob_commits_in_order_witness : exists s, demo_run false 12 = Ok s /\ length (r_trace s) = 3%nat /\
  forall i x, r_trace s !! i = Some x -> exists d, demo_insts !! i = Some d /\ same_input d x.1.
Proof.
  destruct demo_state as (s & E & Hr & _ & Hl & _). exists s. split_and!; [assumption|assumption|]. intros i x Hx.
  by apply (rob_commits_in_order (demo_cfg false) 10 40 60 (Some RobContentionNehalem_new) tt (demo_start false) demo_insts s Hr) in Hx as [? _].
Defined.

Lemma rob_window_bounded_witness : exists s, demo_run false 12 = Ok s /\ 1 <= m_num_in_rob s <= 4 /\ Z.of_nat (length (window s)) = m_num_in_rob s.
Proof.
  destruct demo_state as (s & E & Hr & _ & _ & Hn & _). exists s.
  destruct (rob_window_bounded (demo_cfg false) 10 40 60 (Some RobContentionNehalem_new) tt (demo_start false) demo_insts s Hr)
    as (Hl & [_ Hn'] & _). split_and!; assumption.
Defined.
