(* ===== verification/RobTermination.v ===== *)
(** * Every call of simulate ends

    The loop of [simulate] calls [execute] until the core wants more instructions.  It ends because every call
    lets a micro-operation move on, or brings the clock closer to the time at which the oldest one does: nothing
    in the core can wait for ever. *)

From stdpp Require Import sets functions.
From S2P Require Import Prelude StateMonad SubsecondTime ContentionModel CircularQueue MicroOp MicroOpFacts CoreModelNehalem RobTimer RobInvariant RobAccess RobState RobDeps RobIssue RobCycle RobExecute RobEnqueue RobNehalem RobCorrect.
#[local] Open Scope Z_scope.

Section termination.
Context {C Mem : Type} `{!RobContention C} `{!RobContentionOk C} `{!CoreMemory Mem} `{!CoreMemoryOk Mem}.
Context (cfg : RobCfg) (period exec_max latency_max : Z) (contention : option C) (memory : Mem).
Implicit Types (s : RobTimer C Mem) (E : Z -> RobEntry) (U insts : list DynamicMicroOp).
Abbreviation span := (span period latency_max).
Abbreviation Inv := (Inv cfg period exec_max latency_max).
Abbreviation reachable := (reachable cfg period exec_max latency_max contention memory).

(** ** How long a micro-operation can be held up

    [k] bounds by how many latencies the queues for loads and stores can be behind the clock. *)

Definition hold_up (k : Z) : Z := (k + 1) * span + c_busy_max * period.
Definition ticks (x : Z) : Z := Z.max 0 ((x + period - 1) / period).
Definition quiet_max (k : Z) : Z := ticks (hold_up k) + 1.

(** How many latencies the queues are behind the clock now. *)
Definition ahead s : Z := Z.max 0 ((limit s - now s + span - 1) / span).

(** The calls of [execute] that [simulate] can need with [p] micro-operations in the core, when the queues are behind by [k]. *)
Definition simulate_fuel (p k : Z) : nat := Z.to_nat ((4 * p + 1) * (2 * quiet_max (k + p))).

(** The time at which the oldest micro-operation moves on, or at which the front end does when the window is empty. *)
Definition target (lo : Z) E s : Z := if m_num_in_rob s =? 0 then frontend_stalled_until s else deadline lo E s.
Definition phase s : Z := if (m_num_in_rob s =? 0) && negb (in_icache_miss s) then 1 else 0.

Definition weight (q : Z) U (lo : Z) E s : Z :=
  work (Z.of_nat (length U)) lo s * (2 * q) + phase s * q + ticks (target lo E s - now s).

Context (Hstart : StartOk cfg period exec_max latency_max contention memory) (Hslots : slots_ok cfg).

Lemma period_span : 1 <= period <= span.
Proof. apply (period_le_span cfg period exec_max latency_max (st_cfg _ _ _ _ _ _ Hstart)). Qed.

Lemma ticks_mono x y : x <= y -> ticks x <= ticks y.
Proof. intros H. pose proof period_span. unfold ticks. apply Z.max_le_compat_l, Z.div_le_mono; lia. Qed.

Lemma ticks_step x y : 0 < x -> y + period <= x -> ticks y < ticks x.
Proof.
  intros Hx Hy. pose proof period_span. unfold ticks. assert (1 <= (x + period - 1) / period) by (apply Z.div_le_lower_bound; lia).
  assert ((y + period - 1) / period + 1 <= (x + period - 1) / period); [|lia].
  rewrite <- Z.div_add by lia. apply Z.div_le_mono; lia.
Qed.

Lemma ticks_pos x : 0 <= ticks x.
Proof. unfold ticks. lia. Qed.

(** *** From one call of simulate on

    The queues are behind by [slack] latencies and those of the micro-operations that have been issued. *)

Section run.
Context {sl : Slack}.
Abbreviation behind U := (slack + Z.of_nat (length U)).

Lemma limit_bound U lo E s : Inv U lo E s -> limit s <= now s + hold_up (behind U).
Proof.
  intros HI. destruct (inv_limits _ _ _ _ _ _ _ _ HI) as [Hk0 Hd [_ Hl] [_ Hs] Hb]. pose proof (inv_now _ _ _ _ _ _ _ _ HI). pose proof period_span. pose proof c_busy_range.
  pose proof (inv_num _ _ _ _ _ _ _ _ HI) as Hn. pose proof (Rep_bounds _ _ _ _ _ (inv_rep _ _ _ _ _ _ _ _ HI)) as Hlo. pose proof (inv_rs _ _ _ _ _ _ _ _ HI) as [Hr _].
  pose proof (waiting_pos E lo (m_num_in_rob s)). pose proof (waiting_le E lo (m_num_in_rob s) ltac:(lia)). set (k := slack + (lo + m_num_in_rob s - m_rs_entries_used s)) in *.
  assert (Hk : 0 <= k * span <= behind U * span) by (split; [apply Z.mul_nonneg_nonneg|apply Z.mul_le_mono_nonneg_r]; lia).
  assert (Hc : 0 <= c_busy_max * period) by (apply Z.mul_nonneg_nonneg; lia). unfold hold_up. unfold limit. repeat apply Z.max_lub.
  - lia.
  - etrans; [apply (latest_bound _ (now s + k * span)); [lia|exact Hl]|lia].
  - etrans; [apply (latest_bound _ (now s + k * span)); [lia|exact Hs]|lia].
  - destruct (m_rob_contention s) as [c|]; cbn; [|lia]. destruct (Hb c eq_refl). lia.
Qed.

Lemma target_bound U lo E s : Inv U lo E s -> target lo E s - now s <= hold_up (behind U).
Proof.
  intros HI. pose proof (limit_bound _ _ _ _ HI). pose proof (inv_num _ _ _ _ _ _ _ _ HI) as Hn. pose proof (Rep_bounds _ _ _ _ _ (inv_rep _ _ _ _ _ _ _ _ HI)) as Hlo.
  pose proof period_span. pose proof c_busy_range. assert (Hk0 : 0 <= behind U).
  { pose proof (li_count _ _ _ _ _ _ _ _ _ (inv_limits _ _ _ _ _ _ _ _ HI)). pose proof (inv_rs _ _ _ _ _ _ _ _ HI) as [Hr _]. pose proof (waiting_pos E lo (m_num_in_rob s)). lia. }
  assert (Hsp : span <= hold_up (behind U)) by (unfold hold_up; nia).
  unfold target. destruct (Z.eqb_spec (m_num_in_rob s) 0) as [E0|Hne].
  - destruct (inv_frontend _ _ _ _ _ _ _ _ HI) as [?|(_ & n & ? & _)]; lia.
  - pose proof (inv_entry _ _ _ _ _ _ _ _ HI lo ltac:(lia)) as [_ _ _ Hw Hi]. unfold deadline. destruct (decide _) as [Hu|Hu]; [|destruct (Hi Hu) as (_ & _ & _ & ?); lia].
    destruct (ei_ready _ _ _ _ _ _ (inv_ent _ _ _ _ _ _ _ _ HI) lo ltac:(lia) Hu) as (_ & Hr & _). destruct (Hw Hu) as (_ & _ & Hrd).
    assert (Hnil : deps_of (E lo) = []).
    { destruct (deps_of (E lo)) as [|d l] eqn:Ed; [done|]. destruct (ei_deps _ _ _ _ _ _ (inv_ent _ _ _ _ _ _ _ _ HI) lo d ltac:(lia)) as [? _]; [rewrite Ed; left|lia]. }
    specialize (Hr Hnil). lia.
Qed.

(** ** Every call brings the end closer *)

Lemma phase_bound s : 0 <= phase s <= 1.
Proof. unfold phase. destruct (_ && _); lia. Qed.

Lemma weight_step U lo E s lat s' : Inv U lo E s -> executed cfg period exec_max latency_max U lo E s lat s' -> lat <> 0 ->
  let q := quiet_max (behind U) in exists lo' E', Inv U lo' E' s' /\ weight q U lo' E' s' < weight q U lo E s.
Proof.
  intros HI [(lo' & E' & Hlo & HI' & Hp) _ Hnow _ Hl] Hne q. exists lo', E'. split; [done|]. destruct Hl as [[? _]|[Hlat _]]; [done|]. destruct Hp as [?|Hp]; [done|].
  pose proof (ticks_mono _ _ (target_bound _ _ _ _ HI')) as Ht'. pose proof (ticks_pos (target lo E s - now s)).
  assert (HK : ticks (hold_up (behind U)) = q - 1) by (unfold q, quiet_max; lia). rewrite HK in Ht'. assert (HK0 : 1 <= q) by (unfold q, quiet_max; pose proof (ticks_pos (hold_up (behind U))); lia). clearbody q. clear HK.
  set (hi := Z.of_nat (length U)) in *.
  pose proof (phase_bound s). pose proof (phase_bound s'). unfold weight. fold hi. destruct Hp as [Hw|[[(-> & -> & En & Er & El) Hd He] Hw]].
  - assert (HX : work hi lo' s' * (2 * q) + 2 * q <= work hi lo s * (2 * q)).
    { replace (work hi lo' s' * (2 * q) + 2 * q) with ((work hi lo' s' + 1) * (2 * q)) by ring. apply Z.mul_le_mono_nonneg_r; lia. }
    assert (phase s' * q <= 1 * q) by (apply Z.mul_le_mono_nonneg_r; lia). assert (0 <= phase s * q) by (apply Z.mul_nonneg_nonneg; lia). lia.
  - rewrite Hw. destruct (Z.eqb_spec (m_num_in_rob s) 0) as [E0|Hn0].
    + specialize (He E0). unfold phase, target in *. rewrite En, E0 in *. cbn [Z.eqb andb] in *. destruct He as [(? & -> & ->)|(? & Em & Em')].
      * pose proof (ticks_step (frontend_stalled_until s - now s) (frontend_stalled_until s - now s') ltac:(lia) ltac:(lia)). lia.
      * rewrite Em, Em' in *. cbn [negb] in *. lia.
    + assert (Hph : phase s' = 0 /\ phase s = 0) by (unfold phase; rewrite En, (proj2 (Z.eqb_neq _ _) Hn0); done). destruct Hph as [-> ->].
      pose proof (inv_num _ _ _ _ _ _ _ _ HI). specialize (Hd Hslots ltac:(lia)). unfold target. rewrite En, (proj2 (Z.eqb_neq _ _) Hn0).
      assert (Hde : deadline lo E s' = deadline lo E s) by (unfold deadline; by rewrite El). rewrite Hde.
      assert (Hx : 0 < deadline lo E s - now s) by (clear -Hd; lia). assert (Hy : deadline lo E s - now s' + period <= deadline lo E s - now s) by (clear -Hnow Hlat; lia).
      pose proof (ticks_step _ _ Hx Hy). lia.
Qed.

Lemma weight_bound U lo E s : Inv U lo E s -> let q := quiet_max (behind U) in
  0 <= weight q U lo E s < (4 * (Z.of_nat (length U) - lo) + 1) * (2 * q).
Proof.
  intros HI q. pose proof (inv_num _ _ _ _ _ _ _ _ HI) as Hn. pose proof (Rep_bounds _ _ _ _ _ (inv_rep _ _ _ _ _ _ _ _ HI)) as Hlo. pose proof (inv_rs _ _ _ _ _ _ _ _ HI) as [Hr _].
  pose proof (waiting_pos E lo (m_num_in_rob s)). pose proof (waiting_le E lo (m_num_in_rob s) ltac:(lia)). pose proof (phase_bound s). pose proof (ticks_pos (target lo E s - now s)).
  pose proof (ticks_mono _ _ (target_bound _ _ _ _ HI)) as Ht. 
  assert (HK : ticks (hold_up (behind U)) = q - 1) by (unfold q, quiet_max; lia). rewrite HK in Ht. clearbody q. clear HK. unfold weight. set (hi := Z.of_nat (length U)) in *.
  assert (0 <= work hi lo s <= 4 * (hi - lo)) by (unfold work; lia). nia.
Qed.

(** ** The loop *)

Lemma run_cycles_ends n U lo E s a b : Inv U lo E s -> reachable U s -> weight (quiet_max (behind U)) U lo E s < Z.of_nat n -> now s + (Z.of_nat n + 1) * span < MaxTime -> 0 <= b <= now s ->
  exists k s', run_cycles cfg period n a b s = Ok ((k, b + (now s' - now s)), s') /\ reachable U s' /\ wants_more cfg s'.
Proof.
  revert lo E s a b. induction n as [|n IH]; intros lo E s a b HI Hr Hw Ht Hb; [pose proof (weight_bound U lo E s HI) as Hwb; cbv zeta in Hwb; lia|].
  pose proof period_span. assert (Hok : time_ok period latency_max s) by (unfold time_ok; nia).
  destruct (reachable_good _ _ _ _ _ _ Hstart U s Hr) as (Hc & _).
  destruct (runs_ok _ _ _ (runs_execute cfg period exec_max latency_max (st_cfg _ _ _ _ _ _ Hstart) U lo E s HI Hc Hok)) as ([k lat] & s' & Ex & Hex). cbn [snd] in Hex.
  pose proof (ex_now _ _ _ _ _ _ _ _ _ _ Hex) as Hnow. pose proof (reach_execute _ _ _ _ _ _ _ _ _ _ Hr Hok Ex) as Hr'. cbn [run_cycles]. unfold mbind, st_bind. rewrite Ex. cbv beta iota zeta.
  assert (Hl : 0 <= lat <= span) by (destruct (ex_lat _ _ _ _ _ _ _ _ _ _ Hex) as [[-> _]|[? _]]; lia).
  assert (Hadd : st_add b lat = b + lat) by (unfold st_add, MaxTime in *; apply wrap_small; nia). rewrite Hadd.
  destruct (Z.eqb_spec lat Zero) as [E0|Hne].
  - unfold Zero in E0. subst lat. exists (u64 (a + k)), s'. split; [by replace (now s' - now s) with 0 by lia|]. split; [done|].
    destruct (ex_lat _ _ _ _ _ _ _ _ _ _ Hex) as [(_ & -> & Hst)|[? _]]; [|lia]. by apply (starved_wants cfg period exec_max latency_max U lo E s HI).
  - destruct (weight_step U lo E s lat s' HI Hex Hne) as (lo' & E' & HI' & Hw'). destruct (IH lo' E' s' (u64 (a + k)) (b + lat) HI' Hr') as (k' & s2 & E2 & Hr2 & Hw2); [lia|nia|lia|].
    exists k', s2. split; [|done]. rewrite E2. by replace (b + lat + (now s2 - now s')) with (b + (now s2 - now s)) by lia.
Qed.

End run.

(** The count of what holds up the queues starts anew: at [s] they are behind by [ahead s]. *)
Lemma Inv_restart U lo E s : RobState.Inv (sl := 0) cfg period exec_max latency_max U lo E s ->
  RobState.Inv (sl := ahead s - (lo + m_num_in_rob s - m_rs_entries_used s)) cfg period exec_max latency_max U lo E s.
Proof.
  intros [? ? ? ? ? ? ? ? ? ? ? ? ? ? HL ?]. split; try done. unfold slack in *. rewrite Z.sub_add. pose proof period_span.
  assert (Hb : limit s <= now s + ahead s * span).
  { unfold ahead. pose proof (Z.mul_succ_div_gt (limit s - now s + span - 1) span ltac:(lia)). nia. }
  destruct HL as [_ L1 [L2 _] [L3 _] L4]. split; [unfold ahead; lia|done| | |done]; (split; [done|]); apply latest_le; unfold limit in Hb; lia.
Qed.

Lemma quiet_max_mono x y : x <= y -> quiet_max x <= quiet_max y.
Proof. intros H. pose proof period_span. unfold quiet_max, hold_up. apply Z.add_le_mono_r, ticks_mono. nia. Qed.

(** C19: [simulate] ends: in every reachable state in which the core wants more instructions, an instruction enters it and
    the loop of [simulate] calls [execute] at most [simulate_fuel] times until the core wants more again, provided
    the clock cannot overflow in that many calls and the core has at least one slot for outstanding loads and one for
    stores ([slots_ok]): no micro-operation waits for ever for its operands, a port, a queue, a store, a fence or the
    front end.  The bound depends on the configuration, on the micro-operations in the core, and on how far the queues for
    loads and stores are behind the clock, not on what has left the core before.  The time that is returned is that by
    which the clock has moved. *)
Theorem rob_simulate_ends U s insts : reachable U s -> wants_more cfg s -> inst_ok cfg exec_max latency_max U insts ->
  let n := simulate_fuel (cq_length (rob s) + Z.of_nat (length (live insts))) (ahead s) in now s + (Z.of_nat n + 1) * span < MaxTime ->
  exists k s', simulate cfg period n insts s = Ok ((k, now s' - now s), s') /\ reachable (U ++ live insts) s' /\ wants_more cfg s'.
Proof.
  intros Hr Hw Hi n Ht. pose proof period_span. assert (Hok : time_ok period latency_max s) by (unfold time_ok; nia).
  destruct (reachable_good _ _ _ _ _ _ Hstart U s Hr) as (_ & lo & E & HI%Inv_restart). pose proof (inv_rep _ _ _ _ _ _ _ _ HI) as HR. pose proof (Rep_bounds _ _ _ _ _ HR) as Hb.
  pose proof (inv_num _ _ _ _ _ _ _ _ HI) as Hnum. pose proof (inv_rs _ _ _ _ _ _ _ _ HI) as [Hrs _]. pose proof (waiting_le E lo (m_num_in_rob s) ltac:(lia)) as Hwl.
  pose proof (ring_length _ lo (Z.of_nat (length U)) (proj1 HR)) as Hlen. destruct Hw as [Hf Hw]. pose proof Hi as [Hu Hl Htot]. rewrite Hlen in Hw.
  destruct (runs_ok _ _ _ (runs_enqueue_all _ _ _ _ _ _ Hstart U lo E s (Z.of_nat (length U)) insts HI Hu ltac:(lia) ltac:(lia) ltac:(lia) Hok)) as ([] & s1 & E1 & E' & HI1 & Hn1 & _).
  assert (Hr1 : reachable (U ++ live insts) s1) by (eapply reach_instruction; [done|done|split; [done|by rewrite Hlen]|done|done]).
  pose proof (weight_bound _ _ _ _ HI1) as Hwb. cbv zeta in Hwb. pose proof (inv_now _ _ _ _ _ _ _ _ HI1). rewrite length_app, Nat2Z.inj_add in Hwb.
  set (p := cq_length (rob s) + Z.of_nat (length (live insts))) in *.
  assert (Hq : quiet_max (slack (Slack := ahead s - (lo + m_num_in_rob s - m_rs_entries_used s)) + (Z.of_nat (length U) + Z.of_nat (length (live insts)))) <= quiet_max (ahead s + p)).
  { apply quiet_max_mono. unfold slack. lia. }
  destruct (run_cycles_ends n (U ++ live insts) lo E' s1 0 0 HI1 Hr1) as (k & s' & Er & Hr' & Hw'); [|lia|lia|].
  - rewrite length_app, Nat2Z.inj_add. eapply Z.lt_le_trans; [apply Hwb|]. unfold n, simulate_fuel. rewrite Z2Nat.id by nia. subst p. nia.
  - exists k, s'. split; [|done]. unfold simulate, mbind, st_bind. rewrite E1. rewrite Hn1 in Er. exact Er.
Qed.
End termination.

Lemma rob_simulate_ends_witness : exists k s', simulate (demo_cfg false) 10 (simulate_fuel (C := RobContentionNehalem) 10 60 8 0) demo_insts (demo_new false) = Ok ((k, now s' - now (demo_new false)), s') /\
  wants_more (demo_cfg false) s'.
Proof.
  destruct (rob_simulate_ends (demo_cfg false) 10 40 60 (Some RobContentionNehalem_new) tt (demo_start false)) with (U := @nil DynamicMicroOp) (s := demo_new false) (insts := demo_insts)
    as (k & s' & E & _ & Hw).
  - split; cbn; lia.
  - apply reach_new.
  - apply demo_idle.
  - apply demo_inst_ok.
  - vm_compute. reflexivity.
  - exists k, s'. split; assumption.
Defined.
