(* ===== verification/IntervalContention.v ===== *)
(** * Issue contention in the interval model

    Models interval_performance_model/interval_contention.h, the interface through which the interval
    model learns how long the micro-operations of its window need at least, and
    interval_contention_nehalem.{h,cc}, its implementation for the ports of a Nehalem core.

    [IntervalContentionOk] is what the interval timer relies on; [nehalem_interval_ok] discharges it. *)

From stdpp Require Import sets.
From S2P Require Import Prelude StateMonad SubsecondTime CircularQueue MicroOp CoreModelNehalem.

#[local] Open Scope Z_scope.

(** Arithmetic with divisions by constants. *)
#[local] Ltac divlia := Z.to_euclidean_division_equations; lia.

(** ** The interface *)

Class IntervalContention (C : Type) := {
  ic_clearFunctionalUnitStats : C -> res C;
  ic_addFunctionalUnitStats : DynamicMicroOp -> C -> res C;
  ic_removeFunctionalUnitStats : DynamicMicroOp -> C -> res C;
  ic_getEffectiveCriticalPathLength : Z -> bool -> C -> res (Z * C)
}.

(** ** The ports of a Nehalem core *)

Record IntervalContentionNehalem := mkICN {
  m_count_byport : list Z;
  m_cpContrByPort : list Z
}.
Implicit Types (c : IntervalContentionNehalem).

(** The counts are set by [clearFunctionalUnitStats] before they are used; of the eight there are, the
    last belongs to no port. *)
Definition IntervalContentionNehalem_new : IntervalContentionNehalem :=
  mkICN (replicate UOP_PORT_SIZE 0) (replicate UOP_PORT_SIZE 0).

Definition inehalem_clear c : res IntervalContentionNehalem := Ok (mkICN (replicate UOP_PORT_SIZE 0) (m_cpContrByPort c)).

Definition inehalem_add (d : DynamicMicroOp) c : res IntervalContentionNehalem :=
  n ← aget (m_count_byport c) (port_index (uop_port d));
  l ← aset (m_count_byport c) (port_index (uop_port d)) (u64 (n + 1));
  Ok (mkICN l (m_cpContrByPort c)).

Definition inehalem_remove (d : DynamicMicroOp) c : res IntervalContentionNehalem :=
  n ← aget (m_count_byport c) (port_index (uop_port d));
  l ← aset (m_count_byport c) (port_index (uop_port d)) (u64 (n - 1));
  Ok (mkICN l (m_cpContrByPort c)).

(** The loop over the ports from [i] on, [n] of them: the length and the port that determines it. *)
Fixpoint standard_ports (n i : nat) (counts : list Z) (effective_cp_length : Z) (reason : nat) : res (Z * nat) :=
  match n with
  | O => Ok (effective_cp_length, reason)
  | S n =>
      v ← aget counts i;
      if negb (i =? port_index UOP_PORT015)%nat && negb (i =? port_index UOP_PORT05)%nat && (effective_cp_length <? v)
      then standard_ports n (S i) counts v i
      else standard_ports n (S i) counts effective_cp_length reason
  end.

Definition inehalem_effective (critical_path_length : Z) (update_reason : bool) c : res (Z * IntervalContentionNehalem) :=
  '(effective, reason) ← standard_ports UOP_PORT_SIZE 0 (m_count_byport c) critical_path_length UOP_PORT_SIZE;
  p0 ← aget (m_count_byport c) (port_index UOP_PORT0);
  p1 ← aget (m_count_byport c) (port_index UOP_PORT1);
  p5 ← aget (m_count_byport c) (port_index UOP_PORT5);
  p05 ← aget (m_count_byport c) (port_index UOP_PORT05);
  p015 ← aget (m_count_byport c) (port_index UOP_PORT015);
  let port05_use := u64 (p0 + p5 + p05) in
  let '(effective, reason) :=
    if u64 (2 * effective) <? port05_use then (u64 (port05_use + 1) / 2, port_index UOP_PORT05) else (effective, reason) in
  let port015_use := u64 (p0 + p1 + p5 + p015) in
  let '(effective, reason) :=
    if u64 (3 * effective) <? port015_use then (u64 (port015_use + 2) / 3, port_index UOP_PORT015) else (effective, reason) in
  if update_reason && (critical_path_length <? effective) then
    _ ← assert_ (negb (reason =? UOP_PORT_SIZE)%nat);
    v ← aget (m_cpContrByPort c) reason;
    l ← aset (m_cpContrByPort c) reason (u64 (v + u64 (1000000 * (effective - critical_path_length)) / effective));
    Ok (effective, mkICN (m_count_byport c) l)
  else Ok (effective, c).

#[global] Instance nehalem_interval_contention : IntervalContention IntervalContentionNehalem := {|
  ic_clearFunctionalUnitStats := inehalem_clear;
  ic_addFunctionalUnitStats := inehalem_add;
  ic_removeFunctionalUnitStats := inehalem_remove;
  ic_getEffectiveCriticalPathLength := inehalem_effective
|}.

(** ** What the interval model relies on

    [ic_holds l c]: the micro-operations of [l] are counted. *)
Class IntervalContentionOk (C : Type) `{!IntervalContention C} := {
  ic_holds : list DynamicMicroOp -> C -> Prop;
  ic_clear_ok : forall l (c : C), ic_holds l c -> exists c' : C, ic_clearFunctionalUnitStats c = Ok c' /\ ic_holds [] c';
  ic_add_ok : forall l d (c : C), ic_holds l c -> Z.of_nat (length l) < 2 ^ 32 ->
    exists c' : C, ic_addFunctionalUnitStats d c = Ok c' /\ ic_holds (l ++ [d]) c';
  ic_remove_ok : forall l d (c : C), ic_holds (d :: l) c -> Z.of_nat (length l) < 2 ^ 32 ->
    exists c' : C, ic_removeFunctionalUnitStats d c = Ok c' /\ ic_holds l c';
  ic_effective_ok : forall l cp u (c : C), ic_holds l c -> 0 <= cp < 2 ^ 32 -> Z.of_nat (length l) < 2 ^ 32 ->
    exists r (c' : C), ic_getEffectiveCriticalPathLength cp u c = Ok (r, c') /\ ic_holds l c' /\
      cp <= r <= Z.max cp (Z.of_nat (length l)) /\ (l <> [] -> 1 <= r)
}.

(** ** The counts *)

Definition on_port (i : nat) (l : list DynamicMicroOp) : Z := Z.of_nat (length (filter (fun d => port_index (uop_port d) = i) l)).
Definition counts (l : list DynamicMicroOp) : list Z := (fun i => on_port i l) <$> seq 0 UOP_PORT_SIZE.
Definition inehalem_holds (l : list DynamicMicroOp) c : Prop := m_count_byport c = counts l /\ length (m_cpContrByPort c) = UOP_PORT_SIZE.

Section counts.
Implicit Types (l : list DynamicMicroOp) (d : DynamicMicroOp).

Lemma on_port_app i l l' : on_port i (l ++ l') = on_port i l + on_port i l'.
Proof. unfold on_port. rewrite filter_app, length_app. lia. Qed.

Lemma on_port_one i d : on_port i [d] = if (port_index (uop_port d) =? i)%nat then 1 else 0.
Proof. unfold on_port. rewrite filter_cons, filter_nil. destruct (Nat.eqb_spec (port_index (uop_port d)) i); [by rewrite decide_True|by rewrite decide_False]. Qed.

Lemma on_port_cons i d l : on_port i (d :: l) = (if (port_index (uop_port d) =? i)%nat then 1 else 0) + on_port i l.
Proof. rewrite <- on_port_one. apply (on_port_app i [d] l). Qed.

Lemma on_port_bound i l : 0 <= on_port i l <= Z.of_nat (length l).
Proof. unfold on_port. pose proof (length_filter (fun d => port_index (uop_port d) = i) l). lia. Qed.

Lemma port_index_lt p : (port_index p < UOP_PORT_SIZE)%nat.
Proof. destruct p; unfold UOP_PORT_SIZE; cbn; lia. Qed.

Lemma counts_lookup i l : (i < UOP_PORT_SIZE)%nat -> counts l !! i = Some (on_port i l).
Proof. intros Hi. unfold counts. rewrite list_lookup_fmap, lookup_seq_lt by done. done. Qed.

Lemma counts_get i l : (i < UOP_PORT_SIZE)%nat -> aget (counts l) i = Ok (on_port i l).
Proof. intros Hi. unfold aget. by rewrite counts_lookup. Qed.


Lemma counts_update d l l' v : (forall i, on_port i l' = if (port_index (uop_port d) =? i)%nat then v else on_port i l) ->
  <[port_index (uop_port d) := v]> (counts l) = counts l'.
Proof.
  intros H. apply list_eq. intros i. destruct (decide (i < UOP_PORT_SIZE)%nat) as [Hi|Hi].
  - rewrite (counts_lookup i l') by done. rewrite H. destruct (Nat.eqb_spec (port_index (uop_port d)) i) as [E|E]; subst.
    + apply list_lookup_insert_eq. unfold counts. by rewrite length_fmap, length_seq.
    + rewrite list_lookup_insert_ne by done. by apply counts_lookup.
  - rewrite !lookup_ge_None_2; [done|..]; unfold counts; rewrite ?length_insert, length_fmap, length_seq; lia.
Qed.

(** The combined use of the ports 0 and 5, and 0, 1 and 5. *)
Lemma on_port_sum l : on_port 0 l + on_port 1 l + on_port 2 l + on_port 3 l + on_port 4 l + on_port 5 l + on_port 6 l = Z.of_nat (length l).
Proof.
  induction l as [|d l IH]; [done|]. rewrite !on_port_cons. cbn [length].
  destruct (uop_port d); cbn; lia.
Qed.
End counts.

(** ** The effective length *)

(** In [L] cycles every port can issue [L] micro-operations. *)
Definition ports_suffice (l : list DynamicMicroOp) (L : Z) : Prop :=
  (forall i, (i < 5)%nat -> on_port i l <= L) /\ on_port 0 l + on_port 4 l + on_port 5 l <= 2 * L /\
  on_port 0 l + on_port 1 l + on_port 4 l + on_port 6 l <= 3 * L.

Definition least_length (l : list DynamicMicroOp) (cp : Z) : Z :=
  let r := Z.max cp (Z.max (on_port 0 l) (Z.max (on_port 1 l) (Z.max (on_port 2 l) (Z.max (on_port 3 l) (on_port 4 l))))) in
  Z.max (Z.max r ((on_port 0 l + on_port 4 l + on_port 5 l + 1) / 2)) ((on_port 0 l + on_port 1 l + on_port 4 l + on_port 6 l + 2) / 3).

Lemma standard_ports_ok l cp : 0 <= cp ->
  exists r k, standard_ports UOP_PORT_SIZE 0 (counts l) cp UOP_PORT_SIZE = Ok (r, k) /\
    r = Z.max cp (Z.max (on_port 0 l) (Z.max (on_port 1 l) (Z.max (on_port 2 l) (Z.max (on_port 3 l) (on_port 4 l))))) /\
    (k <= UOP_PORT_SIZE)%nat /\ (cp < r -> (k < UOP_PORT_SIZE)%nat).
Proof.
  intros Hcp. unfold UOP_PORT_SIZE at 1. cbn [standard_ports]. rewrite !counts_get by (unfold UOP_PORT_SIZE; lia). cbn [mbind res_bind port_index].
  cbn [Nat.eqb negb andb]. repeat zcase; eexists _, _; (split; [reflexivity|]); unfold UOP_PORT_SIZE; lia.
Qed.

Lemma inehalem_effective_ok l cp u c : inehalem_holds l c -> 0 <= cp < 2 ^ 32 -> Z.of_nat (length l) < 2 ^ 32 ->
  exists c', inehalem_effective cp u c = Ok (least_length l cp, c') /\ inehalem_holds l c'.
Proof.
  intros [Hc Hk] Hcp Hl. unfold inehalem_effective. rewrite Hc. destruct (standard_ports_ok l cp) as (r & k & -> & Hr & Hk1 & Hk2); [lia|].
  cbn [mbind res_bind]. rewrite !counts_get by (unfold UOP_PORT_SIZE; cbn; lia). cbn [mbind res_bind port_index]. cbv zeta.
  assert (Hsum := on_port_sum l). pose proof (fun i => proj1 (on_port_bound i l)) as Hp.
  pose proof (Hp 0%nat). pose proof (Hp 1%nat). pose proof (Hp 2%nat). pose proof (Hp 3%nat). pose proof (Hp 4%nat). pose proof (Hp 5%nat). pose proof (Hp 6%nat).
  rewrite !(wrap_small 64 (_ + _)) by lia. rewrite (wrap_small 64 (2 * r)) by lia.
  set (a := on_port 0 l + on_port 4 l + on_port 5 l) in *. set (b := on_port 0 l + on_port 1 l + on_port 4 l + on_port 6 l) in *.
  assert (Ha : 0 <= a < 2 ^ 32) by (subst a; lia). assert (Hb : 0 <= b < 2 ^ 32) by (subst b; lia). assert (Hrr : 0 <= r < 2 ^ 32) by lia.
  assert (E2 : exists k', (if 2 * r <? a then ((a + 1) / 2, 5%nat) else (r, k)) = (Z.max r ((a + 1) / 2), k') /\
    (k' <= UOP_PORT_SIZE)%nat /\ (cp < Z.max r ((a + 1) / 2) -> (k' < UOP_PORT_SIZE)%nat)).
  { destruct (Z.ltb_spec (2 * r) a).
    - eexists. split; [f_equal; divlia|]. unfold UOP_PORT_SIZE. cbn. lia.
    - exists k. replace (Z.max r ((a + 1) / 2)) with r by divlia. done. }
  destruct E2 as (k' & -> & Hk1' & Hk2'). assert (Hr' : 0 <= Z.max r ((a + 1) / 2) < 2 ^ 34) by (clear Hr; divlia). set (r' := Z.max r ((a + 1) / 2)) in *. rewrite (wrap_small 64 (3 * r')) by lia.
  assert (E3 : exists k'', (if 3 * r' <? b then ((b + 2) / 3, 6%nat) else (r', k')) = (least_length l cp, k'') /\
    (k'' <= UOP_PORT_SIZE)%nat /\ (cp < least_length l cp -> (k'' < UOP_PORT_SIZE)%nat)).
  { assert (El : least_length l cp = Z.max r' ((b + 2) / 3)) by (unfold least_length; cbv zeta; rewrite <- Hr; done). rewrite El. destruct (Z.ltb_spec (3 * r') b).
    - eexists. split; [f_equal; divlia|]. unfold UOP_PORT_SIZE. cbn. lia.
    - exists k'. replace (Z.max r' ((b + 2) / 3)) with r' by divlia. done. }
  destruct E3 as (k'' & -> & _ & Hk''). destruct (u && (cp <? least_length l cp)) eqn:E; [|by exists c].
  apply andb_true_iff in E as [_ E%Z.ltb_lt]. specialize (Hk'' E). rewrite (proj2 (Nat.eqb_neq _ _)) by lia. cbn [negb assert_ mbind res_bind].
  destruct (lookup_lt_is_Some_2 (m_cpContrByPort c) k'') as [v Hv]; [lia|]. unfold aget, aset. rewrite Hv. cbn [mbind res_bind]. eexists.
  split; [reflexivity|]. split; [done|]. cbn. by rewrite length_insert.
Qed.

Lemma least_length_spec l cp L : least_length l cp <= L <-> cp <= L /\ ports_suffice l L.
Proof.
  unfold least_length, ports_suffice. cbv zeta. split.
  - intros H. split; [lia|]. split_and!; [|divlia..]. intros i Hi. destruct i as [|[|[|[|[|]]]]]; lia.
  - intros (Hcp & Hi & H2 & H3). pose proof (Hi 0%nat). pose proof (Hi 1%nat). pose proof (Hi 2%nat). pose proof (Hi 3%nat). pose proof (Hi 4%nat). divlia.
Qed.

Lemma least_length_bounds l cp : 0 <= cp -> cp <= least_length l cp <= Z.max cp (Z.of_nat (length l)) /\ (l <> [] -> 1 <= least_length l cp).
Proof.
  intros Hcp. pose proof (on_port_sum l) as Hs. pose proof (fun i => proj1 (on_port_bound i l)) as Hp.
  pose proof (Hp 0%nat). pose proof (Hp 1%nat). pose proof (Hp 2%nat). pose proof (Hp 3%nat). pose proof (Hp 4%nat). pose proof (Hp 5%nat). pose proof (Hp 6%nat).
  pose proof (proj1 (least_length_spec l cp _) (Z.le_refl _)) as (Hle & Hi & Hu2 & Hu3). split.
  - split; [done|]. apply least_length_spec. split; [lia|]. split_and!; [|lia..]. intros i Hi'. pose proof (on_port_bound i l). lia.
  - intros Hne. pose proof (Hi 0%nat). pose proof (Hi 1%nat). pose proof (Hi 2%nat). pose proof (Hi 3%nat). pose proof (Hi 4%nat).
    assert (0 < length l)%nat by (destruct l; [done|cbn; lia]). lia.
Qed.

Lemma inehalem_add_ok l d c : inehalem_holds l c -> Z.of_nat (length l) < 2 ^ 32 ->
  exists c', inehalem_add d c = Ok c' /\ inehalem_holds (l ++ [d]) c'.
Proof.
  intros [Hc Hk] Hl. unfold inehalem_add, aget, aset. rewrite Hc, counts_lookup by apply port_index_lt. cbn. eexists. split; [reflexivity|].
  split; [|done]. cbn. apply counts_update. intros i. rewrite on_port_app, on_port_one. pose proof (on_port_bound i l).
  destruct (Nat.eqb_spec (port_index (uop_port d)) i); subst; [rewrite wrap_small; lia|lia].
Qed.

Lemma inehalem_remove_ok l d c : inehalem_holds (d :: l) c -> Z.of_nat (length l) < 2 ^ 32 ->
  exists c', inehalem_remove d c = Ok c' /\ inehalem_holds l c'.
Proof.
  intros [Hc Hk] Hl. unfold inehalem_remove, aget, aset. rewrite Hc, counts_lookup by apply port_index_lt. cbn. eexists. split; [reflexivity|].
  split; [|done]. cbn. apply counts_update. intros i. rewrite !on_port_cons. pose proof (on_port_bound i l).
  rewrite Nat.eqb_refl. destruct (Nat.eqb_spec (port_index (uop_port d)) i); subst; [rewrite wrap_small; lia|lia].
Qed.

#[global] Instance nehalem_interval_ok : IntervalContentionOk IntervalContentionNehalem.
Proof.
  refine {| ic_holds := inehalem_holds; ic_add_ok := inehalem_add_ok; ic_remove_ok := inehalem_remove_ok |}.
  - intros l c [Hc Hk]. eexists. split; [reflexivity|]. by split.
  - intros l cp u c Hc Hcp Hl. destruct (inehalem_effective_ok l cp u c) as (c' & E & Hc'); [done..|]. exists (least_length l cp), c'.
    destruct (least_length_bounds l cp); [lia|]. done.
Defined.

(** ** The effective length is the shortest schedule

    An assignment of micro-operations to the ports that issue one of them per cycle. *)

Inductive issue_unit := Unit0 | Unit1 | Unit2 | Unit34 | Unit5.
#[global] Instance issue_unit_eq_dec : EqDecision issue_unit.
Proof. solve_decision. Defined.
Definition may_use (p : uop_port_t) (u : issue_unit) : bool :=
  match p, u with
  | UOP_PORT0, Unit0 | UOP_PORT1, Unit1 | UOP_PORT2, Unit2 | UOP_PORT34, Unit34 | UOP_PORT5, Unit5
  | UOP_PORT05, (Unit0 | Unit5) | UOP_PORT015, (Unit0 | Unit1 | Unit5) => true
  | _, _ => false
  end.
Definition load (u : issue_unit) (us : list issue_unit) : Z := Z.of_nat (length (filter (eq u) us)).
(** The micro-operations can be issued in [L] cycles. *)
Definition schedulable (l : list DynamicMicroOp) (L : Z) : Prop :=
  exists us, Forall2 (fun d u => may_use (uop_port d) u = true) l us /\ forall u, load u us <= L.

Section schedule.
Implicit Types (l : list DynamicMicroOp) (d : DynamicMicroOp).
Definition never05 l : Prop := Forall (fun d => uop_port d <> UOP_PORT05) l.

Definition same_unit (u v : issue_unit) : bool :=
  match u, v with Unit0, Unit0 | Unit1, Unit1 | Unit2, Unit2 | Unit34, Unit34 | Unit5, Unit5 => true | _, _ => false end.
Lemma load_cons u v us : load u (v :: us) = (if same_unit u v then 1 else 0) + load u us.
Proof.
  unfold load. rewrite filter_cons. destruct (decide (u = v)) as [->|Hne]; [destruct v; cbn [same_unit length]; lia|].
  replace (same_unit u v) with false; [done|]. by destruct u, v.
Qed.

Lemma load_counts l us : never05 l -> Forall2 (fun d u => may_use (uop_port d) u = true) l us ->
  on_port 0 l <= load Unit0 us /\ on_port 1 l <= load Unit1 us /\ on_port 2 l <= load Unit2 us /\ on_port 3 l <= load Unit34 us /\
  on_port 4 l <= load Unit5 us /\ on_port 5 l = 0 /\
  on_port 0 l + on_port 1 l + on_port 4 l + on_port 6 l <= load Unit0 us + load Unit1 us + load Unit5 us.
Proof.
  intros Hn. induction 1 as [|d u l us Hu _ IH]; [by split_and!|]. inversion Hn as [|? ? Hd Hn']; subst. specialize (IH Hn').
  rewrite !on_port_cons, !load_cons. revert Hd Hu. destruct (uop_port d), u; intros Hd Hu; try discriminate; try done; cbn; lia.
Qed.

(** The micro-operations that may use three ports spread over them as wanted. *)
Lemma spread l x0 x1 x5 : never05 l -> 0 <= x0 -> 0 <= x1 -> 0 <= x5 -> x0 + x1 + x5 = on_port 6 l ->
  exists us, Forall2 (fun d u => may_use (uop_port d) u = true) l us /\ load Unit0 us = on_port 0 l + x0 /\ load Unit1 us = on_port 1 l + x1 /\
    load Unit2 us = on_port 2 l /\ load Unit34 us = on_port 3 l /\ load Unit5 us = on_port 4 l + x5.
Proof.
  revert x0 x1 x5. induction l as [|d l IH]; intros x0 x1 x5 Hn H0 H1 H5 Hx.
  - exists []. change (on_port 6 []) with 0 in Hx. assert (x0 = 0 /\ x1 = 0 /\ x5 = 0) as (-> & -> & ->) by lia. by split_and!.
  - inversion Hn as [|? ? Hd Hn']; subst. rewrite !on_port_cons in *.
    assert (Hstep : forall u y0 y1 y5, may_use (uop_port d) u = true -> 0 <= y0 -> 0 <= y1 -> 0 <= y5 -> y0 + y1 + y5 = on_port 6 l ->
      exists us, Forall2 (fun d u => may_use (uop_port d) u = true) (d :: l) (u :: us) /\ load Unit0 us = on_port 0 l + y0 /\ load Unit1 us = on_port 1 l + y1 /\
        load Unit2 us = on_port 2 l /\ load Unit34 us = on_port 3 l /\ load Unit5 us = on_port 4 l + y5).
    { intros u y0 y1 y5 Hu ? ? ? Hy. destruct (IH y0 y1 y5) as (us & Hf & Hus); [done..|]. exists us. split; [by constructor|done]. }
    assert (exists u y0 y1 y5, may_use (uop_port d) u = true /\ 0 <= y0 /\ 0 <= y1 /\ 0 <= y5 /\ y0 + y1 + y5 = on_port 6 l /\
      forall v, (if same_unit v u then 1 else 0) + (match v with Unit0 => y0 | Unit1 => y1 | Unit5 => y5 | _ => 0 end) =
        (if (port_index (uop_port d) =? match v with Unit0 => 0 | Unit1 => 1 | Unit2 => 2 | Unit34 => 3 | Unit5 => 4 end)%nat then 1 else 0) +
        match v with Unit0 => x0 | Unit1 => x1 | Unit5 => x5 | _ => 0 end) as (u & y0 & y1 & y5 & Hu & ? & ? & ? & Hy & Hv).
    { destruct (uop_port d); cbn [port_index] in *; try done.
      - exists Unit0, x0, x1, x5. split_and!; try done. by intros [].
      - exists Unit1, x0, x1, x5. split_and!; try done. by intros [].
      - exists Unit2, x0, x1, x5. split_and!; try done. by intros [].
      - exists Unit34, x0, x1, x5. split_and!; try done. by intros [].
      - exists Unit5, x0, x1, x5. split_and!; try done. by intros [].
      - cbn in Hx. pose proof (on_port_bound 6 l). destruct (decide (0 < x0)); [|destruct (decide (0 < x1))].
        + exists Unit0, (x0 - 1), x1, x5. split_and!; try done; try lia. intros []; cbn; lia.
        + exists Unit1, x0, (x1 - 1), x5. split_and!; try done; try lia. intros []; cbn; lia.
        + exists Unit5, x0, x1, (x5 - 1). split_and!; try done; try lia. intros []; cbn; lia. }
    destruct (Hstep u y0 y1 y5) as (us & Hf & ? & ? & ? & ? & ?); [done..|]. exists (u :: us). rewrite !load_cons.
    pose proof (Hv Unit0). pose proof (Hv Unit1). pose proof (Hv Unit2). pose proof (Hv Unit34). pose proof (Hv Unit5). cbv beta iota in *. split_and!; [done|lia..].
Qed.

Lemma schedulable_iff l L : never05 l -> schedulable l L <-> ports_suffice l L.
Proof.
  intros Hn. split.
  - intros (us & Hf & HL). destruct (load_counts l us Hn Hf) as (? & ? & ? & ? & ? & ? & ?).
    pose proof (HL Unit0). pose proof (HL Unit1). pose proof (HL Unit2). pose proof (HL Unit34). pose proof (HL Unit5).
    split_and!; [|lia..]. intros i Hi. destruct i as [|[|[|[|[|]]]]]; lia.
  - intros (Hi & _ & H3). pose proof (Hi 0%nat). pose proof (Hi 1%nat). pose proof (Hi 2%nat). pose proof (Hi 3%nat). pose proof (Hi 4%nat). pose proof (on_port_bound 6 l).
    set (x0 := Z.min (L - on_port 0 l) (on_port 6 l)). set (x1 := Z.min (L - on_port 1 l) (on_port 6 l - x0)). set (x5 := on_port 6 l - x0 - x1).
    destruct (spread l x0 x1 x5) as (us & Hf & ? & ? & ? & ? & ?); [done|lia..|]. exists us. split; [done|]. intros []; lia.
Qed.

Lemma created_never05 us : never05 (createDynamicMicroOp <$> us).
Proof.
  apply Forall_forall. intros d Hd. apply list_elem_of_fmap in Hd as (u & -> & _). cbn. unfold getPort.
  destruct (uop_subtype u); try done. cbv zeta. repeat (match goal with |- context [if ?b then _ else _] => destruct b end; try done).
Qed.
End schedule.

(** The states that the operations of the model reach, with the micro-operations counted and not removed since the
    last [clearFunctionalUnitStats], oldest first; they are removed in this order. *)
Inductive counting : list MicroOp -> IntervalContentionNehalem -> Prop :=
  | counting_new c' : inehalem_clear IntervalContentionNehalem_new = Ok c' -> counting [] c'
  | counting_clear us c c' : counting us c -> inehalem_clear c = Ok c' -> counting [] c'
  | counting_add us u c c' : counting us c -> Z.of_nat (length us) + 1 < 2 ^ 32 ->
      inehalem_add (createDynamicMicroOp u) c = Ok c' -> counting (us ++ [u]) c'
  | counting_remove us u c c' : counting (u :: us) c -> inehalem_remove (createDynamicMicroOp u) c = Ok c' -> counting us c'
  | counting_query us cp update_reason c r c' : counting us c -> 0 <= cp < 2 ^ 32 ->
      inehalem_effective cp update_reason c = Ok (r, c') -> counting us c'.

Lemma counting_holds us c : counting us c -> inehalem_holds (createDynamicMicroOp <$> us) c /\ Z.of_nat (length us) < 2 ^ 32.
Proof.
  induction 1 as [c' E|us c c' _ [[_ Hk] _] E|us u c c' _ [Hh Hl] Hl' E|us u c c' _ [Hh Hl] E|us cp ur c r c' _ [Hh Hl] Hcp E].
  - injection E as <-. done.
  - injection E as <-. done.
  - destruct (inehalem_add_ok (fmap (M := list) createDynamicMicroOp us) (createDynamicMicroOp u) c Hh) as (? & E' & Hh'); [by rewrite length_fmap|].
    rewrite E in E'. injection E' as <-. rewrite fmap_app, length_app. split; [done|cbn; lia].
  - cbn [length] in Hl. destruct (inehalem_remove_ok (fmap (M := list) createDynamicMicroOp us) (createDynamicMicroOp u) c Hh) as (? & E' & Hh'); [rewrite length_fmap; lia|].
    rewrite E in E'. injection E' as <-. split; [done|lia].
  - destruct (inehalem_effective_ok (fmap (M := list) createDynamicMicroOp us) cp ur c Hh) as (? & E' & Hh'); [done|by rewrite length_fmap|]. rewrite E in E'. by injection E' as _ <-.
Qed.

(** C26: The effective critical path length of the interval model with contention for the ports of a Nehalem core is the
    best possible: whatever micro-operations have been counted and removed since the window was cleared, it is the smallest
    number of cycles, not less than the length of the critical path, in which those that are counted can be issued when every
    port issues one per cycle. *)
Theorem effective_length_optimal (us : list MicroOp) (cp : Z) (update_reason : bool) (c : IntervalContentionNehalem) :
  counting us c -> 0 <= cp < 2 ^ 32 ->
  exists r c', inehalem_effective cp update_reason c = Ok (r, c') /\ cp <= r /\ schedulable (createDynamicMicroOp <$> us) r /\
    forall L, cp <= L -> schedulable (createDynamicMicroOp <$> us) L -> r <= L.
Proof.
  intros [Hc Hl]%counting_holds Hcp. set (l := createDynamicMicroOp <$> us) in *. assert (Hn : never05 l) by apply created_never05.
  destruct (inehalem_effective_ok l cp update_reason c) as (c' & E & Hc'); [done..|by subst l; rewrite length_fmap|].
  exists (least_length l cp), c'. destruct (proj1 (least_length_spec l cp _) (Z.le_refl _)) as [? Hs].
  split_and!; try done; [by apply schedulable_iff|]. intros L HL HsL. apply least_length_spec. split; [done|]. by apply schedulable_iff.
Qed.

(** Two generic micro-operations, a branch and a load; the first is removed and two branches follow. *)
Definition sample_generic : MicroOp := makeExecute 0 0 "ADD" false MicroOp_new.
Definition sample_branch : MicroOp := makeExecute 0 0 "JZ" true MicroOp_new.
Definition sample_load : MicroOp := makeLoad 0 "MOV" 8 MicroOp_new.
Definition sample_counts : IntervalContentionNehalem := mkICN [0; 0; 1; 0; 3; 0; 1] (replicate UOP_PORT_SIZE 0).

Lemma sample_counting : counting [sample_generic; sample_load; sample_branch; sample_branch; sample_branch] sample_counts.
Proof.
  pose (st l := mkICN l (replicate UOP_PORT_SIZE 0)).
  apply (counting_remove _ sample_generic (st [0; 0; 1; 0; 3; 0; 2])); [|reflexivity].
  apply (counting_add [_; _; _; _; _] sample_branch (st [0; 0; 1; 0; 2; 0; 2])); [|cbn; lia|reflexivity].
  apply (counting_add [_; _; _; _] sample_branch (st [0; 0; 1; 0; 1; 0; 2])); [|cbn; lia|reflexivity].
  apply (counting_add [_; _; _] sample_branch (st [0; 0; 1; 0; 0; 0; 2])); [|cbn; lia|reflexivity].
  apply (counting_add [_; _] sample_load (st [0; 0; 0; 0; 0; 0; 2])); [|cbn; lia|reflexivity].
  apply (counting_add [_] sample_generic (st [0; 0; 0; 0; 0; 0; 1])); [|cbn; lia|reflexivity].
  apply (counting_add [] sample_generic (st [0; 0; 0; 0; 0; 0; 0])); [|cbn; lia|reflexivity].
  by apply counting_new.
Qed.

Lemma effective_length_optimal_witness :
  inehalem_effective 1 true sample_counts = Ok (3, mkICN [0; 0; 1; 0; 3; 0; 1] [0; 0; 0; 0; 666666; 0; 0]) /\
  exists r c', inehalem_effective 1 true sample_counts = Ok (r, c') /\ 1 <= r /\
    schedulable (createDynamicMicroOp <$> [sample_generic; sample_load; sample_branch; sample_branch; sample_branch]) r /\
    forall L, 1 <= L -> schedulable (createDynamicMicroOp <$> [sample_generic; sample_load; sample_branch; sample_branch; sample_branch]) L -> r <= L.
Proof. split; [vm_compute; reflexivity|]. apply effective_length_optimal; [exact sample_counting|lia]. Defined.
