(* ===== verification/Windows.v ===== *)
(** * The windows of the interval model

    Models interval_performance_model/windows.{h,cc}: one ring of twice the window size that holds the
    window, the micro-operations that wait to be dispatched, and the old window, those dispatched since the
    last interruption, with the critical path through the latter.

    A reference to an entry is its place in the ring.  A micro-operation keeps the clock period it was made
    with, [w_period].  The contention model is reached through the class [IntervalContention]. *)

From S2P Require Import Prelude StateMonad SubsecondTime CircularQueue MicroOp CoreModelNehalem IntervalContention.

#[local] Open Scope Z_scope.

(** ** Entries *)

Inductive dependent_t := NO_DEP | DATA_DEP | INDEP_MISS.
#[global] Instance dependent_eq_dec : EqDecision dependent_t.
Proof. solve_decision. Defined.
Definition ICACHE_OVERLAP : Z := 1.
Definition BPRED_OVERLAP : Z := 2.
Definition DCACHE_OVERLAP : Z := 4.

Record WindowEntry := mkWE {
  w_index : Z;
  w_uop : option DynamicMicroOp;
  w_period : Z;
  execTime : Z;
  dispatchTime : Z;
  fetchTime : Z;
  cpContr : Z;
  overlapFlags : Z;
  w_dependent : dependent_t;
  cphead : Z;
  cptail : Z;
  maxProducer : Z
}.
Implicit Types (e : WindowEntry).

(** [initialize]: a micro-operation [d] with its period. *)
Definition WindowEntry_initialize (d : DynamicMicroOp) (period : Z) e : WindowEntry :=
  mkWE (w_index e) (Some d) period 0 0 0 0 0 NO_DEP 0 0 0.
Definition set_uop (d : DynamicMicroOp) e : WindowEntry :=
  mkWE (w_index e) (Some d) (w_period e) (execTime e) (dispatchTime e) (fetchTime e) (cpContr e) (overlapFlags e)
    (w_dependent e) (cphead e) (cptail e) (maxProducer e).
Definition setExecTime (t : Z) e : WindowEntry :=
  mkWE (w_index e) (w_uop e) (w_period e) t (dispatchTime e) (fetchTime e) (cpContr e) (overlapFlags e) (w_dependent e)
    (cphead e) (cptail e) (maxProducer e).
Definition setCpContr (x : Z) e : WindowEntry :=
  mkWE (w_index e) (w_uop e) (w_period e) (execTime e) (dispatchTime e) (fetchTime e) x (overlapFlags e) (w_dependent e)
    (cphead e) (cptail e) (maxProducer e).
Definition addOverlapFlag (flag : Z) e : WindowEntry :=
  mkWE (w_index e) (w_uop e) (w_period e) (execTime e) (dispatchTime e) (fetchTime e) (cpContr e)
    (Z.lor (overlapFlags e) flag) (w_dependent e) (cphead e) (cptail e) (maxProducer e).
Definition hasOverlapFlag (flag : Z) e : bool := negb (Z.land (overlapFlags e) flag =? 0).
Definition set_dependent (x : dependent_t) e : WindowEntry :=
  mkWE (w_index e) (w_uop e) (w_period e) (execTime e) (dispatchTime e) (fetchTime e) (cpContr e) (overlapFlags e) x
    (cphead e) (cptail e) (maxProducer e).
Definition clearDependent : WindowEntry -> WindowEntry := set_dependent NO_DEP.
Definition setDataDependent : WindowEntry -> WindowEntry := set_dependent DATA_DEP.
Definition setIndependentMiss : WindowEntry -> WindowEntry := set_dependent INDEP_MISS.
Definition isDependent e : bool := bool_decide (w_dependent e = DATA_DEP).
Definition isIndependent e : bool := bool_decide (w_dependent e = INDEP_MISS).
Definition set_critical_path (head tail producer : Z) e : WindowEntry :=
  mkWE (w_index e) (w_uop e) (w_period e) (execTime e) (dispatchTime e) (fetchTime e) (cpContr e) (overlapFlags e)
    (w_dependent e) head tail producer.

Definition getDynMicroOp e : res DynamicMicroOp := match w_uop e with Some d => Ok d | None => Err NullDeref end.
Definition getSequenceNumber e : res Z := d ← getDynMicroOp e; Ok (sequenceNumber d).
(** [getPeriod] of the micro-operation *)
Definition getPeriod e : res Z := _ ← assert_ (negb (w_period e =? 0)); Ok (w_period e).

(** ** Types of contributions to the critical path *)

Inductive CpContrType :=
  CPCONTR_TYPE_FP_ADDSUB | CPCONTR_TYPE_FP_MULDIV | CPCONTR_TYPE_LOAD_L1 | CPCONTR_TYPE_LOAD_L2 | CPCONTR_TYPE_LOAD_L3
  | CPCONTR_TYPE_LOAD_LX | CPCONTR_TYPE_STORE | CPCONTR_TYPE_GENERIC | CPCONTR_TYPE_BRANCH.
Definition cpcontr_index (t : CpContrType) : nat :=
  match t with
  | CPCONTR_TYPE_FP_ADDSUB => 0 | CPCONTR_TYPE_FP_MULDIV => 1 | CPCONTR_TYPE_LOAD_L1 => 2 | CPCONTR_TYPE_LOAD_L2 => 3
  | CPCONTR_TYPE_LOAD_L3 => 4 | CPCONTR_TYPE_LOAD_LX => 5 | CPCONTR_TYPE_STORE => 6 | CPCONTR_TYPE_GENERIC => 7
  | CPCONTR_TYPE_BRANCH => 8
  end.
Definition CPCONTR_TYPE_SIZE : nat := 9.

(** The places L2_OWN, L1_SIBLING and L2_SIBLING, and L3_OWN and L3_SIBLING *)
Definition getCpContrType (d : DynamicMicroOp) : CpContrType :=
  match uop_subtype (m_uop d) with
  | UOP_SUBTYPE_FP_ADDSUB => CPCONTR_TYPE_FP_ADDSUB
  | UOP_SUBTYPE_FP_MULDIV => CPCONTR_TYPE_FP_MULDIV
  | UOP_SUBTYPE_LOAD =>
      let h := dCacheHitWhere d in
      if h =? HW_L1_OWN then CPCONTR_TYPE_LOAD_L1
      else if bool_decide (h ∈ [4; 17; 18]) then CPCONTR_TYPE_LOAD_L2
      else if bool_decide (h ∈ [5; 19]) then CPCONTR_TYPE_LOAD_L3
      else CPCONTR_TYPE_LOAD_LX
  | UOP_SUBTYPE_STORE => CPCONTR_TYPE_STORE
  | UOP_SUBTYPE_GENERIC => CPCONTR_TYPE_GENERIC
  | UOP_SUBTYPE_BRANCH => CPCONTR_TYPE_BRANCH
  end.

(** ** State *)

Record Windows (C : Type) := mkWindows {
  m_interval_contention : C;
  m_double_window : list WindowEntry;
  m_exec_time_map : list Z;
  m_next_sequence_number : Z;
  m_register_dependencies : RegisterDependencies;
  m_memory_dependencies : MemoryDependencies;
  m_window_head : Z;              (* m_window_head__old_window_tail *)
  m_window_tail : Z;
  m_old_window_head : Z;
  m_window_length : Z;
  m_old_window_length : Z;
  m_critical_path_head : Z;
  m_critical_path_tail : Z;
  m_cpcontr_bytype : list Z;
  m_cpcontr_total : Z
}.
Arguments mkWindows {C} _ _ _ _ _ _ _ _ _ _ _ _ _ _ _.
Arguments m_interval_contention {C} _.
Arguments m_double_window {C} _.
Arguments m_exec_time_map {C} _.
Arguments m_next_sequence_number {C} _.
Arguments m_register_dependencies {C} _.
Arguments m_memory_dependencies {C} _.
Arguments m_window_head {C} _.
Arguments m_window_tail {C} _.
Arguments m_old_window_head {C} _.
Arguments m_window_length {C} _.
Arguments m_old_window_length {C} _.
Arguments m_critical_path_head {C} _.
Arguments m_critical_path_tail {C} _.
Arguments m_cpcontr_bytype {C} _.
Arguments m_cpcontr_total {C} _.

(** [long_latency_cutoff] is [getLongLatencyCutoff] of the core model; [xed_reg_last] the number of registers. *)
Record WindowsCfg := mkWindowsCfg {
  window_size : Z;
  do_functional_unit_contention : bool;
  long_latency_cutoff : Z;
  xed_reg_last : nat
}.

Section setters.
Context {C : Type}.
Implicit Types (s : Windows C).
Definition with_contention (x : C) s : Windows C :=
  mkWindows x (m_double_window s) (m_exec_time_map s) (m_next_sequence_number s) (m_register_dependencies s)
    (m_memory_dependencies s) (m_window_head s) (m_window_tail s) (m_old_window_head s) (m_window_length s)
    (m_old_window_length s) (m_critical_path_head s) (m_critical_path_tail s) (m_cpcontr_bytype s) (m_cpcontr_total s).
Definition with_double_window (x : list WindowEntry) s : Windows C :=
  mkWindows (m_interval_contention s) x (m_exec_time_map s) (m_next_sequence_number s) (m_register_dependencies s)
    (m_memory_dependencies s) (m_window_head s) (m_window_tail s) (m_old_window_head s) (m_window_length s)
    (m_old_window_length s) (m_critical_path_head s) (m_critical_path_tail s) (m_cpcontr_bytype s) (m_cpcontr_total s).
Definition with_exec_time_map (x : list Z) s : Windows C :=
  mkWindows (m_interval_contention s) (m_double_window s) x (m_next_sequence_number s) (m_register_dependencies s)
    (m_memory_dependencies s) (m_window_head s) (m_window_tail s) (m_old_window_head s) (m_window_length s)
    (m_old_window_length s) (m_critical_path_head s) (m_critical_path_tail s) (m_cpcontr_bytype s) (m_cpcontr_total s).
Definition with_next_sequence_number (x : Z) s : Windows C :=
  mkWindows (m_interval_contention s) (m_double_window s) (m_exec_time_map s) x (m_register_dependencies s)
    (m_memory_dependencies s) (m_window_head s) (m_window_tail s) (m_old_window_head s) (m_window_length s)
    (m_old_window_length s) (m_critical_path_head s) (m_critical_path_tail s) (m_cpcontr_bytype s) (m_cpcontr_total s).
Definition with_dependencies (rd : RegisterDependencies) (md : MemoryDependencies) s : Windows C :=
  mkWindows (m_interval_contention s) (m_double_window s) (m_exec_time_map s) (m_next_sequence_number s) rd md
    (m_window_head s) (m_window_tail s) (m_old_window_head s) (m_window_length s) (m_old_window_length s)
    (m_critical_path_head s) (m_critical_path_tail s) (m_cpcontr_bytype s) (m_cpcontr_total s).
Definition with_window (head tail length : Z) s : Windows C :=
  mkWindows (m_interval_contention s) (m_double_window s) (m_exec_time_map s) (m_next_sequence_number s)
    (m_register_dependencies s) (m_memory_dependencies s) head tail (m_old_window_head s) length
    (m_old_window_length s) (m_critical_path_head s) (m_critical_path_tail s) (m_cpcontr_bytype s) (m_cpcontr_total s).
Definition with_old_window (head length : Z) s : Windows C :=
  mkWindows (m_interval_contention s) (m_double_window s) (m_exec_time_map s) (m_next_sequence_number s)
    (m_register_dependencies s) (m_memory_dependencies s) (m_window_head s) (m_window_tail s) head (m_window_length s)
    length (m_critical_path_head s) (m_critical_path_tail s) (m_cpcontr_bytype s) (m_cpcontr_total s).
Definition with_critical_path (head tail : Z) s : Windows C :=
  mkWindows (m_interval_contention s) (m_double_window s) (m_exec_time_map s) (m_next_sequence_number s)
    (m_register_dependencies s) (m_memory_dependencies s) (m_window_head s) (m_window_tail s) (m_old_window_head s)
    (m_window_length s) (m_old_window_length s) head tail (m_cpcontr_bytype s) (m_cpcontr_total s).
Definition with_cpcontr (bytype : list Z) (total : Z) s : Windows C :=
  mkWindows (m_interval_contention s) (m_double_window s) (m_exec_time_map s) (m_next_sequence_number s)
    (m_register_dependencies s) (m_memory_dependencies s) (m_window_head s) (m_window_tail s) (m_old_window_head s)
    (m_window_length s) (m_old_window_length s) (m_critical_path_head s) (m_critical_path_tail s) bytype total.
End setters.

Section windows.
Context {C : Type} `{!IntervalContention C} (cfg : WindowsCfg).
Abbreviation M := (ST (Windows C)).

Definition m_double_window_size : Z := 2 * window_size cfg.

(** ** Indices *)

Definition incrementIndex (index : Z) : Z := Z.rem (index + 1) m_double_window_size.
Definition decrementIndex (index : Z) : Z := Z.rem (index + m_double_window_size - 1) m_double_window_size.
Definition windowIndex (index : Z) : Z := Z.rem (Z.rem index m_double_window_size + m_double_window_size) m_double_window_size.

(** ** Entries of the ring *)

Definition getInstructionByIndex (index : Z) : M WindowEntry :=
  _ ← assertM ((0 <=? index) && (index <? m_double_window_size));
  w ← gets m_double_window;
  lift_res (aget w (Z.to_nat index)).

(** An assignment to fields of the entry that a reference designates. *)
Definition update (index : Z) (f : WindowEntry -> WindowEntry) : M unit :=
  e ← getInstructionByIndex index;
  modify (fun s => with_double_window (<[Z.to_nat index := f e]> (m_double_window s)) s).

(** The micro-operation of an entry. *)
Definition uop_at (index : Z) : M DynamicMicroOp := e ← getInstructionByIndex index; lift_res (getDynMicroOp e).
Definition seqnr_at (index : Z) : M Z := e ← getInstructionByIndex index; lift_res (getSequenceNumber e).

(** The place of a micro-operation.  When it is not in the ring the simulator ends with a message, which is
    modelled as [LogError]. *)
Definition getInstruction (sequenceNumber : Z) : M Z :=
  head ← gets m_window_head;
  windowHead ← getInstructionByIndex head;
  n ← lift_res (getSequenceNumber windowHead);
  let distance := s32 (n - sequenceNumber) in
  let index := windowIndex (s32 (w_index windowHead - distance)) in
  m ← seqnr_at index;
  if m =? sequenceNumber then mret index else fail LogError.

Definition getLastAdded : M Z := t ← gets m_window_tail; mret (decrementIndex t).
Definition getInstructionToDispatch : M Z := gets m_window_head.
Definition getOldestInstruction : M Z := gets m_old_window_head.

(** ** Statistics of the old window *)

Definition clearFunctionalUnitStats : M unit :=
  c ← gets m_interval_contention;
  c ← lift_res (ic_clearFunctionalUnitStats c);
  modify (fun s => with_contention c (with_cpcontr (replicate CPCONTR_TYPE_SIZE 0) 0 s)).

Definition count_contribution (d : DynamicMicroOp) (x : Z) : M unit :=
  l ← gets m_cpcontr_bytype;
  v ← lift_res (aget l (cpcontr_index (getCpContrType d)));
  modify (fun s => with_cpcontr (<[cpcontr_index (getCpContrType d) := u64 (v + x)]> l) (u64 (m_cpcontr_total s + x)) s).

Definition addFunctionalUnitStats (index : Z) : M unit :=
  e ← getInstructionByIndex index;
  d ← lift_res (getDynMicroOp e);
  _ ← count_contribution d (cpContr e);
  c ← gets m_interval_contention;
  c ← lift_res (ic_addFunctionalUnitStats d c);
  modify (with_contention c).

Definition removeFunctionalUnitStats (index : Z) : M unit :=
  e ← getInstructionByIndex index;
  d ← lift_res (getDynMicroOp e);
  _ ← count_contribution d (- cpContr e);
  c ← gets m_interval_contention;
  c ← lift_res (ic_removeFunctionalUnitStats d c);
  modify (with_contention c).

(** ** The windows *)

Definition wIsFull (s : Windows C) : bool := m_window_length s =? window_size cfg.
Definition wIsEmpty (s : Windows C) : bool := m_window_length s =? 0.

Definition clear : M unit :=
  _ ← modify (fun s => with_exec_time_map (replicate (Z.to_nat m_double_window_size) 0) (with_next_sequence_number 0
    (with_dependencies (rd_clear (xed_reg_last cfg)) MemoryDependencies_new
       (with_window 0 0 0 (with_old_window 0 0 (with_critical_path 0 0 s))))));
  clearFunctionalUnitStats.

(** The fields of an entry that the constructor does not set are not read before [initialize]. *)
Definition Windows_new (contention : C) : res (Windows C) :=
  '(_, s) ← clear (mkWindows contention
       ((fun i => mkWE i None 0 0 0 0 0 0 NO_DEP 0 0 0) <$> seqZ 0 m_double_window_size) [] 0 [] MemoryDependencies_new
       0 0 0 0 0 0 0 [] 0);
  '(_, s) ← clearFunctionalUnitStats s;
  Ok s.

(** A micro-operation enters the window and gets its dependencies. *)
Definition add (d : DynamicMicroOp) (period : Z) : M unit :=
  s ← gets id;
  _ ← assertM (negb (wIsFull s));
  let p := m_window_tail s in
  let d := setSequenceNumber (m_next_sequence_number s) d in
  _ ← getInstructionByIndex p;
  _ ← modify (fun s => with_next_sequence_number (u64 (m_next_sequence_number s + 1))
                         (with_window (m_window_head s) (incrementIndex p) (m_window_length s + 1) s));
  _ ← update p (WindowEntry_initialize d period);
  lowestValidSequenceNumber ← seqnr_at (m_old_window_head s);
  '(rd, d) ← lift_res (rd_setDependencies lowestValidSequenceNumber (m_register_dependencies s) d);
  '(md, d) ← lift_res (md_setDependencies lowestValidSequenceNumber (m_memory_dependencies s) d);
  _ ← modify (with_dependencies rd md);
  update p (set_uop d).

Definition dispatchInstruction : M unit :=
  s ← gets id;
  _ ← (if m_old_window_length s =? window_size cfg then
         _ ← removeFunctionalUnitStats (m_old_window_head s);
         e ← getInstructionByIndex (m_old_window_head s);
         _ ← modify (fun s => with_critical_path (Z.max (m_critical_path_head s) (execTime e)) (m_critical_path_tail s) s);
         modify (fun s => with_old_window (incrementIndex (m_old_window_head s)) (m_old_window_length s - 1) s)
       else mret tt);
  _ ← addFunctionalUnitStats (m_window_head s);
  modify (fun s => with_old_window (m_old_window_head s) (m_old_window_length s + 1)
                     (with_window (incrementIndex (m_window_head s)) (m_window_tail s) (m_window_length s - 1) s)).

Definition clearOldWindow (newCpHead : Z) : M unit :=
  _ ← modify (fun s => with_old_window (m_window_head s) 0 (with_critical_path newCpHead newCpHead s));
  clearFunctionalUnitStats.

Definition windowContains (sequenceNumber : Z) : M bool :=
  s ← gets id;
  lowestValid ← seqnr_at (m_window_head s);
  highestValid ← seqnr_at (decrementIndex (m_window_tail s));
  mret ((lowestValid <=? sequenceNumber) && (sequenceNumber <=? highestValid)).

Definition oldWindowContains (sequenceNumber : Z) : M bool :=
  s ← gets id;
  lowestValid ← seqnr_at (m_old_window_head s);
  highestValid ← seqnr_at (decrementIndex (m_window_head s));
  mret ((lowestValid <=? sequenceNumber) && (sequenceNumber <=? highestValid)).

(** ** The critical path *)

Definition getCriticalPathLength (s : Windows C) : Z :=
  if m_critical_path_head s <=? m_critical_path_tail s
  then s32 (m_critical_path_tail s - m_critical_path_head s) else 0.

Definition longLatencyOperationLatency (index : Z) : M Z :=
  e ← getInstructionByIndex index;
  tail ← gets m_critical_path_tail;
  mret (if execTime e <? tail then 0
        else if execTime e - tail <? long_latency_cutoff cfg then 0
        else 1).

(** The warning about long extensions has no other effect. *)
Definition updateCriticalPathTail (index : Z) : M Z :=
  e ← getInstructionByIndex index;
  tail ← gets m_critical_path_tail;
  _ ← (if tail <? execTime e then
         _ ← update index (setCpContr (execTime e - tail));
         modify (fun s => with_critical_path (m_critical_path_head s) (execTime e) s)
       else mret tt);
  gets m_critical_path_tail.

Definition getMinimalFlushLatency (width : Z) (s : Windows C) : res Z :=
  if width =? 0 then Err DivByZero else Ok (Z.quot (m_old_window_length s + (width - 1)) width).

Definition getCpContrFraction (type : nat) (effective_cp_length : Z) (s : Windows C) : res Z :=
  v ← aget (m_cpcontr_bytype s) type;
  _ ← assert_ (v <=? m_cpcontr_total s);
  if 0 <? m_cpcontr_total s then
    if effective_cp_length =? 0 then Err DivByZero else Ok (u64 (1000000 * v) / effective_cp_length)
  else Ok 0.

Definition getEffectiveCriticalPathLength (critical_path_length : Z) (update_reason : bool) : M Z :=
  if negb (do_functional_unit_contention cfg) then mret critical_path_length
  else
    c ← gets m_interval_contention;
    '(r, c) ← lift_res (ic_getEffectiveCriticalPathLength critical_path_length update_reason c);
    _ ← modify (with_contention c);
    mret r.

(** ** Branch resolution *)

Definition set_exec_time (index : Z) (x : Z) : M unit :=
  m ← gets m_exec_time_map;
  m ← lift_res (aset m (Z.to_nat index) x);
  modify (with_exec_time_map m).

(** The first loop: the producers among the dependencies from [i] on, [n] of them, are marked with their
    latencies. *)
Fixpoint mark_producers (n : nat) (i : Z) (d : DynamicMicroOp) : M unit :=
  match n with
  | O => mret tt
  | S n =>
      y ← lift_res (getDependency i d);
      b ← oldWindowContains y;
      _ ← (if (b : bool) then
             p ← getInstruction y;
             producer ← getInstructionByIndex p;
             q ← lift_res (getDynMicroOp producer);
             set_exec_time (w_index producer) (execLatency q)
           else mret tt);
      mark_producers n (i + 1) d
  end.

(** The inner loop: the producers of the micro-operation [d], which is at [index]. *)
Fixpoint mark_through (n : nat) (k : Z) (index : Z) (d : DynamicMicroOp) : M unit :=
  match n with
  | O => mret tt
  | S n =>
      y ← lift_res (getDependency k d);
      b ← oldWindowContains y;
      _ ← (if (b : bool) then
             p ← getInstruction y;
             producer ← getInstructionByIndex p;
             q ← lift_res (getDynMicroOp producer);
             m ← gets m_exec_time_map;
             t ← lift_res (aget m (Z.to_nat index));
             v ← lift_res (aget m (Z.to_nat (w_index producer)));
             set_exec_time (w_index producer) (Z.max (u32 (execLatency q + t)) v)
           else mret tt);
      mark_through n (k + 1) index d
  end.

(** The second loop, from the youngest micro-operation of the old window to the oldest; [n] of them are left. *)
Fixpoint resolve (n : nat) (i : Z) (br_resolution_latency : Z) : M Z :=
  match n with
  | O => mret br_resolution_latency
  | S n =>
      m ← gets m_exec_time_map;
      t ← lift_res (aget m (Z.to_nat i));
      if t =? 0 then resolve n (windowIndex (i - 1)) br_resolution_latency
      else
        d ← uop_at i;
        _ ← mark_through (Z.to_nat (getDependenciesLength d)) 0 i d;
        m ← gets m_exec_time_map;
        t ← lift_res (aget m (Z.to_nat i));
        _ ← set_exec_time i 0;
        resolve n (windowIndex (i - 1)) (Z.max br_resolution_latency t)
  end.

Definition calculateBranchResolutionLatency : M Z :=
  s ← gets id;
  d ← uop_at (m_window_head s);
  _ ← mark_producers (Z.to_nat (getDependenciesLength d)) 0 d;
  r ← resolve (Z.to_nat (m_old_window_length s)) (windowIndex (m_window_head s - 1)) 0;
  mret (s32 r).
End windows.
