(* ===== verification/IntervalTimer.v ===== *)
(** * The interval model of a core

    Models interval_performance_model/interval_timer.{h,cc}: instead of following micro-operations through
    the core cycle by cycle, the timer dispatches them at the rate that the critical path through the old
    window allows, and adds the penalties of the events that interrupt the flow: instruction cache misses,
    mispredicted branches, serialising instructions and long-latency loads.  Also models the fixed-point
    numbers of misc/fixed_point.h, in which the rate is computed.

    The memory is reached through the class [CoreMemory]; [period] is the clock's period at the time of a
    call. *)

From S2P Require Import Prelude StateMonad Utils SubsecondTime ContentionModel CircularQueue MicroOp CoreModelNehalem RobTimer IntervalContention Windows.

#[local] Open Scope Z_scope.

(** ** Fixed-point numbers

    A number is represented by its product with [fp_one]; overflow of the signed representation is
    undefined in the code and not considered. *)

Definition fp_one : Z := 0x4000.
Abbreviation FixedPoint := Z (only parsing).
Definition fp_set_int (value : Z) : res FixedPoint :=
  _ ← assert_ (Z.abs value <? Z.quot (2 ^ 63 - 1) fp_one); Ok (value * fp_one).
Definition fp_add (x y : FixedPoint) : FixedPoint := x + y.
Definition fp_sub_int (x : FixedPoint) (i : Z) : FixedPoint := x - i * fp_one.
Definition fp_div_int (x : FixedPoint) (i : Z) : res FixedPoint := if i =? 0 then Err DivByZero else Ok (Z.quot x i).
Definition fp_floor (x : FixedPoint) : Z := Z.quot x fp_one.

(** ** State *)

Definition STOP_DISPATCH_NO_REASON : Z := 0.
Definition STOP_DISPATCH_WINDOW_EMPTY : Z := 1.
Definition STOP_DISPATCH_DISPATCH_WIDTH : Z := 2.
Definition STOP_DISPATCH_DISPATCH_RATE : Z := 4.
Definition STOP_DISPATCH_ICACHE_MISS : Z := 8.
Definition STOP_DISPATCH_BRANCH_MISPREDICT : Z := 16.
Definition STOP_DISPATCH_SIZE : nat := 32.
Definition ADD_STOP_DISPATCH_REASON (new_reason original_reasons : Z) : Z := Z.lor new_reason original_reasons.

Record UopStats := mkUopStats { is_uop_type_count : list Z; is_uops_total : Z; is_uops_x87 : Z; is_uops_pause : Z }.
Record OverlapStats := mkOverlapStats {
  m_numICacheOverlapped : Z; m_numBPredOverlapped : Z; m_numDCacheOverlapped : Z;
  m_totalHiddenDCacheLatency : Z; m_totalHiddenLongerDCacheLatency : Z; m_numHiddenLongerDCacheLatency : Z
}.
Record LatencyStats := mkLatencyStats {
  m_numLongLatencyLoads : Z; m_numTotalLongLatencyLoadLatency : Z;
  m_numSerializationInsns : Z; m_totalSerializationLatency : Z; m_numMfenceInsns : Z; m_totalMfenceLatency : Z
}.
Record MlpStats := mkMlpStats { is_outstandingLongLatencyInsns : Z; is_outstandingLongLatencyCycles : Z; is_lastAccountedMemoryCycle : Z }.
Record DispatchStats := mkDispatchStats { m_cpiBaseStopDispatch : list Z; m_cpContrByType : list Z }.
Record IntervalStats := mkIntervalStats {
  is_uops : UopStats; is_overlap : OverlapStats; is_latency : LatencyStats; is_mlp : MlpStats; is_dispatch : DispatchStats
}.

(** The components of the CPI stack. *)
Inductive interval_component := IcBase | IcBranchPredictor | IcSerialization | IcLongLatency | IcInstructionCache (h : Z) | IcDataCache (h : Z).
Record IntervalCpi := mkIntervalCpi {
  ic_cpiBase : Z;
  ic_cpiBranchPredictor : Z;
  ic_cpiSerialization : Z;
  ic_cpiLongLatency : Z;
  ic_cpiInstructionCache : list Z;
  ic_cpiDataCache : list Z
}.
Definition interval_cpi_add (c : interval_component) (t : Z) (k : IntervalCpi) : res IntervalCpi :=
  match c with
  | IcBase => Ok (mkIntervalCpi (st_add (ic_cpiBase k) t) (ic_cpiBranchPredictor k) (ic_cpiSerialization k) (ic_cpiLongLatency k) (ic_cpiInstructionCache k) (ic_cpiDataCache k))
  | IcBranchPredictor => Ok (mkIntervalCpi (ic_cpiBase k) (st_add (ic_cpiBranchPredictor k) t) (ic_cpiSerialization k) (ic_cpiLongLatency k) (ic_cpiInstructionCache k) (ic_cpiDataCache k))
  | IcSerialization => Ok (mkIntervalCpi (ic_cpiBase k) (ic_cpiBranchPredictor k) (st_add (ic_cpiSerialization k) t) (ic_cpiLongLatency k) (ic_cpiInstructionCache k) (ic_cpiDataCache k))
  | IcLongLatency => Ok (mkIntervalCpi (ic_cpiBase k) (ic_cpiBranchPredictor k) (ic_cpiSerialization k) (st_add (ic_cpiLongLatency k) t) (ic_cpiInstructionCache k) (ic_cpiDataCache k))
  | IcInstructionCache h =>
      v ← aget (ic_cpiInstructionCache k) (Z.to_nat h);
      Ok (mkIntervalCpi (ic_cpiBase k) (ic_cpiBranchPredictor k) (ic_cpiSerialization k) (ic_cpiLongLatency k) (<[Z.to_nat h := st_add v t]> (ic_cpiInstructionCache k)) (ic_cpiDataCache k))
  | IcDataCache h =>
      v ← aget (ic_cpiDataCache k) (Z.to_nat h);
      Ok (mkIntervalCpi (ic_cpiBase k) (ic_cpiBranchPredictor k) (ic_cpiSerialization k) (ic_cpiLongLatency k) (ic_cpiInstructionCache k) (<[Z.to_nat h := st_add v t]> (ic_cpiDataCache k)))
  end.

(** [it_trace] is what [traceInstruction] has been called with. *)
Record IntervalTimer (C Mem : Type) := mkIntervalTimer {
  m_remaining_dispatch_bandwidth : FixedPoint;
  m_max_store_completion_time : Z;
  m_max_load_completion_time : Z;
  m_loadstore_contention : ContentionModel;
  m_windows : Windows C;
  it_stats : IntervalStats;
  it_cpi : IntervalCpi;
  it_trace : list DynamicMicroOp;
  it_memory : Mem
}.
Arguments mkIntervalTimer {C Mem} _ _ _ _ _ _ _ _ _.
Arguments m_remaining_dispatch_bandwidth {C Mem} _.
Arguments m_max_store_completion_time {C Mem} _.
Arguments m_max_load_completion_time {C Mem} _.
Arguments m_loadstore_contention {C Mem} _.
Arguments m_windows {C Mem} _.
Arguments it_stats {C Mem} _.
Arguments it_cpi {C Mem} _.
Arguments it_trace {C Mem} _.
Arguments it_memory {C Mem} _.

(** [m_mem_dep_mask] and [m_lll_dep_mask] are set by the constructor and constant, as the parameters are. *)
Record IntervalCfg := mkIntervalCfg {
  it_windows : WindowsCfg;
  m_dispatch_width : Z;
  m_branch_misprediction_penalty : Z;
  mem_gran : Z;
  lll_gran : Z;
  num_outstanding_loadstores : nat
}.
Definition m_mem_dep_mask (cfg : IntervalCfg) : Z := wnot 64 (u64 (mem_gran cfg - 1)).
Definition m_lll_dep_mask (cfg : IntervalCfg) : Z := wnot 64 (u64 (lll_gran cfg - 1)).

Definition IntervalStats_new : IntervalStats :=
  mkIntervalStats (mkUopStats (replicate UOP_SUBTYPE_SIZE 0) 0 0 0) (mkOverlapStats 0 0 0 0 0 0) (mkLatencyStats 0 0 0 0 0 0) (mkMlpStats 0 0 0)
    (mkDispatchStats (replicate STOP_DISPATCH_SIZE 0) (replicate CPCONTR_TYPE_SIZE 0)).
Definition IntervalCpi_new : IntervalCpi := mkIntervalCpi 0 0 0 0 (replicate NUM_HITWHERES 0) (replicate NUM_HITWHERES 0).

(** The period of the contention model is that of the core, number 0 of the periods. *)
Definition IntervalTimer_new {C Mem} `{!IntervalContention C} (cfg : IntervalCfg) (contention : C) (m : Mem) : res (IntervalTimer C Mem) :=
  w ← Windows_new (it_windows cfg) contention;
  _ ← assert_ (isPower2 (u32 (mem_gran cfg)));
  _ ← assert_ (isPower2 (u32 (lll_gran cfg)));
  Ok (mkIntervalTimer 0 0 0 (ContentionModel_new (Some 0%nat) (num_outstanding_loadstores cfg)) w IntervalStats_new IntervalCpi_new [] m).

Section setters.
Context {C Mem : Type}.
Implicit Types (s : IntervalTimer C Mem).
Definition it_with_bandwidth (x : FixedPoint) s : IntervalTimer C Mem :=
  mkIntervalTimer x (m_max_store_completion_time s) (m_max_load_completion_time s) (m_loadstore_contention s) (m_windows s) (it_stats s) (it_cpi s) (it_trace s) (it_memory s).
Definition it_with_max_store (x : Z) s : IntervalTimer C Mem :=
  mkIntervalTimer (m_remaining_dispatch_bandwidth s) x (m_max_load_completion_time s) (m_loadstore_contention s) (m_windows s) (it_stats s) (it_cpi s) (it_trace s) (it_memory s).
Definition it_with_max_load (x : Z) s : IntervalTimer C Mem :=
  mkIntervalTimer (m_remaining_dispatch_bandwidth s) (m_max_store_completion_time s) x (m_loadstore_contention s) (m_windows s) (it_stats s) (it_cpi s) (it_trace s) (it_memory s).
Definition it_with_contention (x : ContentionModel) s : IntervalTimer C Mem :=
  mkIntervalTimer (m_remaining_dispatch_bandwidth s) (m_max_store_completion_time s) (m_max_load_completion_time s) x (m_windows s) (it_stats s) (it_cpi s) (it_trace s) (it_memory s).
Definition it_with_windows (x : Windows C) s : IntervalTimer C Mem :=
  mkIntervalTimer (m_remaining_dispatch_bandwidth s) (m_max_store_completion_time s) (m_max_load_completion_time s) (m_loadstore_contention s) x (it_stats s) (it_cpi s) (it_trace s) (it_memory s).
Definition it_with_stats (x : IntervalStats) s : IntervalTimer C Mem :=
  mkIntervalTimer (m_remaining_dispatch_bandwidth s) (m_max_store_completion_time s) (m_max_load_completion_time s) (m_loadstore_contention s) (m_windows s) x (it_cpi s) (it_trace s) (it_memory s).
Definition it_with_cpi (x : IntervalCpi) s : IntervalTimer C Mem :=
  mkIntervalTimer (m_remaining_dispatch_bandwidth s) (m_max_store_completion_time s) (m_max_load_completion_time s) (m_loadstore_contention s) (m_windows s) (it_stats s) x (it_trace s) (it_memory s).
Definition it_with_trace (x : list DynamicMicroOp) s : IntervalTimer C Mem :=
  mkIntervalTimer (m_remaining_dispatch_bandwidth s) (m_max_store_completion_time s) (m_max_load_completion_time s) (m_loadstore_contention s) (m_windows s) (it_stats s) (it_cpi s) x (it_memory s).
Definition it_with_memory (x : Mem) s : IntervalTimer C Mem :=
  mkIntervalTimer (m_remaining_dispatch_bandwidth s) (m_max_store_completion_time s) (m_max_load_completion_time s) (m_loadstore_contention s) (m_windows s) (it_stats s) (it_cpi s) (it_trace s) x.
End setters.

Section timer.
Context {C Mem : Type} `{!IntervalContention C} `{!CoreMemory Mem} (cfg : IntervalCfg) (period : Z).
Abbreviation M := (ST (IntervalTimer C Mem)).
Abbreviation wcfg := (it_windows cfg).

(** An operation of the windows. *)
Definition windows {A} (m : ST (Windows C) A) : M A := zoom m_windows it_with_windows m.
Definition upd_stats (f : IntervalStats -> IntervalStats) : M unit := modify (fun s => it_with_stats (f (it_stats s)) s).
Definition upd_overlap (f : OverlapStats -> OverlapStats) : M unit :=
  upd_stats (fun t => mkIntervalStats (is_uops t) (f (is_overlap t)) (is_latency t) (is_mlp t) (is_dispatch t)).
Definition upd_latency (f : LatencyStats -> LatencyStats) : M unit :=
  upd_stats (fun t => mkIntervalStats (is_uops t) (is_overlap t) (f (is_latency t)) (is_mlp t) (is_dispatch t)).
Definition upd_mlp (f : MlpStats -> MlpStats) : M unit :=
  upd_stats (fun t => mkIntervalStats (is_uops t) (is_overlap t) (is_latency t) (f (is_mlp t)) (is_dispatch t)).

(** [cycles * getPeriod()] of the micro-operation at [p] is added to a component of the CPI stack. *)
Definition charge (p : Z) (c : interval_component) (cycles : Z) : M unit :=
  e ← windows (getInstructionByIndex wcfg p);
  t ← lift_res (getPeriod e);
  k ← gets it_cpi;
  k ← lift_res (interval_cpi_add c (st_mul cycles t) k);
  modify (it_with_cpi k).

(** ** Memory *)

Definition issueMemOp (p : Z) : M unit :=
  d ← windows (uop_at wcfg p);
  let u := m_uop d in
  if (isLoad u || isStore u) && (dCacheHitWhere d =? HitWhere_UNKNOWN) then
    m ← gets it_memory;
    '(latency, hit_where, m) ←
      lift_res (accessMemory (negb (isLoad u)) (d_address d) (memoryAccessSize u) (default 0 (uo_instruction u)) MaxTime m);
    cycles ← lift_res (divideRounded latency period);
    _ ← modify (it_with_memory m);
    windows (update wcfg p (set_uop (MicroOp.with_memory (d_address d) (execLatency d + cycles) hit_where d)))
  else mret tt.

(** The completion time of a load among the outstanding loads and stores. *)
Definition loadstore_completion (barrier : bool) (sched_cycle latency : Z) : M Z :=
  c ← gets m_loadstore_contention;
  '(t, c) ← lift_res (if barrier then getBarrierCompletionTime_cycles (fun _ => period) c sched_cycle latency 0
                      else getCompletionTime_cycles (fun _ => period) c sched_cycle latency 0);
  _ ← modify (it_with_contention c);
  mret t.

(** ** Producers *)

(** The loop of [getMaxProducerExecTime] over the dependencies from [i] on, [n] of them, in signed arithmetic. *)
Fixpoint max_producer (n : nat) (i : Z) (d : DynamicMicroOp) (oldestStartTime relativeFetchTime max_producer_exec_time : Z) : M Z :=
  match n with
  | O => mret max_producer_exec_time
  | S n =>
      y ← lift_res (getDependency i d);
      b ← windows (oldWindowContains wcfg y);
      t ← (if (b : bool) then
             p ← windows (getInstruction wcfg y);
             producer ← windows (getInstructionByIndex wcfg p);
             q ← lift_res (getDynMicroOp producer);
             let producerExecTime := s64 (execTime producer) in
             let relativeStartTime := producerExecTime - execLatency q - oldestStartTime in
             let producerExecTime :=
               if relativeStartTime <? relativeFetchTime
               then producerExecTime + (relativeFetchTime - Z.max 0 relativeStartTime) else producerExecTime in
             mret (Z.max max_producer_exec_time producerExecTime)
           else mret max_producer_exec_time);
      max_producer n (i + 1) d oldestStartTime relativeFetchTime t
  end.

Definition getMaxProducerExecTime (p : Z) : M Z :=
  o ← windows getOldestInstruction;
  oldest ← windows (getInstructionByIndex wcfg o);
  q ← lift_res (getDynMicroOp oldest);
  e ← windows (getInstructionByIndex wcfg p);
  d ← lift_res (getDynMicroOp e);
  let oldestStartTime := s64 (execTime oldest - execLatency q) in
  let relativeFetchTime := s64 (fetchTime e) - s64 (fetchTime oldest) in
  t ← max_producer (Z.to_nat (getDependenciesLength d)) 0 d oldestStartTime relativeFetchTime 0;
  mret (u64 t).

(** ** The critical path *)

(** Returns the latency to add. *)
Definition updateCriticalPath (p : Z) (latency : Z) : M Z :=
  lll ← windows (longLatencyOperationLatency wcfg p);
  if lll =? 0 then
    _ ← windows (updateCriticalPathTail wcfg p);
    mret latency
  else
    _ ← charge p IcLongLatency lll;
    e ← windows (getInstructionByIndex wcfg p);
    _ ← windows (clearOldWindow (execTime e));
    mret (u64 (latency + lll)).

(** ** Overlap under a long-latency load *)

(** The loop over the dependencies from [i] on, [n] of them, of the micro-operation at [p], up to the first that
    makes it depend on a long-latency load. *)
Fixpoint block_dependencies (n : nat) (i : Z) (p : Z) (d : DynamicMicroOp) : M unit :=
  match n with
  | O => mret tt
  | S n =>
      y ← lift_res (getDependency i d);
      b ← windows (windowContains wcfg y);
      if (b : bool) then
        r ← windows (getInstruction wcfg y);
        dependee ← windows (getInstructionByIndex wcfg r);
        if isDependent dependee then windows (update wcfg p setDataDependent)
        else if isIndependent dependee then
          q ← lift_res (getDynMicroOp dependee);
          l ← lift_res (isLongLatencyLoad (long_latency_cutoff wcfg) q);
          if (l : bool) then windows (update wcfg p setDataDependent) else block_dependencies n (i + 1) p d
        else block_dependencies n (i + 1) p d
      else block_dependencies n (i + 1) p d
  end.

(** A load that is overlapped: its latency is hidden by that of the load at [head], and it is issued. *)
Definition overlap_load (head p : Z) : M unit :=
  d ← windows (uop_at wcfg p);
  h ← windows (uop_at wcfg head);
  let overlappedLatency := execLatency d in
  let longLatency := execLatency h in
  _ ← upd_overlap (fun o =>
        mkOverlapStats (m_numICacheOverlapped o) (m_numBPredOverlapped o) (u64 (m_numDCacheOverlapped o + 1))
          (u64 (m_totalHiddenDCacheLatency o + overlappedLatency))
          (if longLatency <? overlappedLatency then u64 (m_totalHiddenLongerDCacheLatency o + (overlappedLatency - longLatency))
           else m_totalHiddenLongerDCacheLatency o)
          (if longLatency <? overlappedLatency then u64 (m_numHiddenLongerDCacheLatency o + 1) else m_numHiddenLongerDCacheLatency o));
  _ ← windows (update wcfg p (addOverlapFlag DCACHE_OVERLAP));
  _ ← issueMemOp p;
  _ ← windows (update wcfg p setIndependentMiss);
  cph ← windows (gets m_critical_path_head);
  windows (update wcfg p (setExecTime cph)).

(** The loop of [blockWindow] from place [index] on; [n] bounds the number of places. *)
Fixpoint block_loop (n : nat) (head head_address index : Z) (mem_barrier_pending : bool) : M unit :=
  stop ← windows (gets m_window_tail);
  if index =? stop then mret tt
  else
    match n with
    | O => fail OutOfFuel
    | S n =>
        _ ← windows (update wcfg index (fun e => addOverlapFlag ICACHE_OVERLAP (clearDependent e)));
        _ ← upd_overlap (fun o => mkOverlapStats (u64 (m_numICacheOverlapped o + 1)) (m_numBPredOverlapped o) (m_numDCacheOverlapped o)
              (m_totalHiddenDCacheLatency o) (m_totalHiddenLongerDCacheLatency o) (m_numHiddenLongerDCacheLatency o));
        d ← windows (uop_at wcfg index);
        let u := m_uop d in
        if serializing u then mret tt
        else
          let mem_barrier_pending := mem_barrier_pending || m_membar u in
          _ ← block_dependencies (Z.to_nat (getDependenciesLength d)) 0 index d;
          _ ← (if isLoad u && (Z.land (d_address d) (m_lll_dep_mask cfg) =? head_address)
               then windows (update wcfg index setDataDependent) else mret tt);
          e ← windows (getInstructionByIndex wcfg index);
          _ ← (if uo_branch u && negb (isDependent e) then
                 _ ← windows (update wcfg index (addOverlapFlag BPRED_OVERLAP));
                 upd_overlap (fun o => mkOverlapStats (m_numICacheOverlapped o) (u64 (m_numBPredOverlapped o + 1)) (m_numDCacheOverlapped o)
                   (m_totalHiddenDCacheLatency o) (m_totalHiddenLongerDCacheLatency o) (m_numHiddenLongerDCacheLatency o))
               else if isLoad u && negb (isDependent e) && negb mem_barrier_pending && negb (hasOverlapFlag DCACHE_OVERLAP e) then
                 overlap_load head index
               else mret tt);
          block_loop n head head_address (incrementIndex wcfg index) mem_barrier_pending
    end.

Definition blockWindow : M unit :=
  head ← windows getInstructionToDispatch;
  _ ← windows (update wcfg head setIndependentMiss);
  d ← windows (uop_at wcfg head);
  let head_address := Z.land (if isLoad (m_uop d) then d_address d else 0) (m_lll_dep_mask cfg) in
  block_loop (Z.to_nat (m_double_window_size wcfg)) head head_address (incrementIndex wcfg head) false.

(** ** Dispatch of a micro-operation *)

(** The cases of [dispatchInstruction], for the micro-operation [d] at place [p]; each returns the latency so far. *)
Definition dispatch_icache (p : Z) (d : DynamicMicroOp) (cptail : Z) : M Z :=
  let icache_latency := iCacheLatency d in
  _ ← windows (clearOldWindow (u64 (cptail + icache_latency)));
  _ ← charge p (IcInstructionCache (iCacheHitWhere d)) icache_latency;
  mret icache_latency.

Definition dispatch_mispredicted (p : Z) (cptail latency : Z) : M Z :=
  r ← windows (calculateBranchResolutionLatency wcfg);
  let bpred_latency := u32 (m_branch_misprediction_penalty cfg + r) in
  _ ← windows (clearOldWindow (u64 (cptail + bpred_latency)));
  _ ← charge p IcBranchPredictor bpred_latency;
  mret (u64 (latency + bpred_latency)).

Definition dispatch_serializing (p : Z) (d : DynamicMicroOp) (latency : Z) : M Z :=
  w ← gets m_windows;
  minimal ← lift_res (getMinimalFlushLatency (m_dispatch_width cfg) w);
  let flushLatency := u64 (Z.max (getCriticalPathLength w) minimal) in
  let serialize_latency := u64 (flushLatency + execLatency d) in
  _ ← upd_latency (fun l => mkLatencyStats (m_numLongLatencyLoads l) (m_numTotalLongLatencyLoadLatency l)
        (u64 (m_numSerializationInsns l + 1)) (u64 (m_totalSerializationLatency l + serialize_latency)) (m_numMfenceInsns l) (m_totalMfenceLatency l));
  _ ← charge p IcSerialization serialize_latency;
  tail ← windows (gets m_critical_path_tail);
  _ ← windows (update wcfg p (setExecTime tail));
  _ ← windows (clearOldWindow tail);
  mret (u64 (latency + serialize_latency)).

Definition dispatch_fence (p : Z) (d : DynamicMicroOp) (max_producer_exec_time latency : Z) : M Z :=
  s ← gets id;
  let cycle_to_wait_until := Z.max max_producer_exec_time (Z.max (m_max_store_completion_time s) (m_max_load_completion_time s)) in
  _ ← upd_latency (fun l => mkLatencyStats (m_numLongLatencyLoads l) (m_numTotalLongLatencyLoadLatency l)
        (m_numSerializationInsns l) (m_totalSerializationLatency l) (u64 (m_numMfenceInsns l + 1)) (m_totalMfenceLatency l));
  _ ← windows (update wcfg p (setExecTime (u64 (cycle_to_wait_until + execLatency d))));
  updateCriticalPath p latency.

Definition dispatch_long_load (p : Z) (d : DynamicMicroOp) (max_producer_exec_time latency : Z) : M Z :=
  cph ← windows (gets m_critical_path_head);
  let dispatch_cycle := Z.max max_producer_exec_time cph in
  contention_exec_cycle ← loadstore_completion (m_membar (m_uop d)) dispatch_cycle (execLatency d);
  let long_latency_load_latency := u64 (contention_exec_cycle - dispatch_cycle) in
  tail ← windows (gets m_critical_path_tail);
  _ ← windows (update wcfg p (setExecTime tail));
  _ ← windows (clearOldWindow (u64 (tail + long_latency_load_latency)));
  _ ← blockWindow;
  _ ← upd_latency (fun l => mkLatencyStats (u64 (m_numLongLatencyLoads l + 1))
        (u64 (m_numTotalLongLatencyLoadLatency l + long_latency_load_latency))
        (m_numSerializationInsns l) (m_totalSerializationLatency l) (m_numMfenceInsns l) (m_totalMfenceLatency l));
  _ ← charge p (IcDataCache (dCacheHitWhere d)) long_latency_load_latency;
  mret (u64 (latency + long_latency_load_latency)).

Definition dispatch_short_load (p : Z) (d : DynamicMicroOp) (max_producer_exec_time latency : Z) : M Z :=
  cph ← windows (gets m_critical_path_head);
  let dispatch_cycle := Z.max max_producer_exec_time cph in
  contentionExecTime ← loadstore_completion (m_membar (m_uop d)) dispatch_cycle (execLatency d);
  _ ← windows (update wcfg p (setExecTime contentionExecTime));
  updateCriticalPath p latency.

(** The memory-level parallelism of the long-latency loads. *)
Definition compute_mlp (exec_latency : Z) : M unit :=
  t ← windows (gets m_critical_path_tail);
  upd_mlp (fun m =>
    let done := u64 (t + exec_latency) in
    let last := if is_lastAccountedMemoryCycle m <? t then t else is_lastAccountedMemoryCycle m in
    mkMlpStats (u64 (is_outstandingLongLatencyInsns m + exec_latency))
      (if last <? done then u64 (is_outstandingLongLatencyCycles m + (done - last)) else is_outstandingLongLatencyCycles m)
      (if last <? done then done else last)).

Definition dispatch_load (p : Z) (d : DynamicMicroOp) (max_producer_exec_time latency : Z) : M Z :=
  e ← windows (getInstructionByIndex wcfg p);
  latency ←
    (if hasOverlapFlag DCACHE_OVERLAP e then mret latency
     else
       l ← lift_res (isLongLatencyLoad (long_latency_cutoff wcfg) d);
       if (l : bool) then dispatch_long_load p d max_producer_exec_time latency
       else dispatch_short_load p d max_producer_exec_time latency);
  e ← windows (getInstructionByIndex wcfg p);
  _ ← modify (fun s => it_with_max_load (Z.max (m_max_load_completion_time s) (execTime e)) s);
  l ← lift_res (isLongLatencyLoad (long_latency_cutoff wcfg) d);
  _ ← (if (l : bool) then compute_mlp (execLatency d) else mret tt);
  mret latency.

Definition dispatch_store (p : Z) (d : DynamicMicroOp) (max_producer_exec_time latency : Z) : M Z :=
  cph ← windows (gets m_critical_path_head);
  let dispatch_cycle := Z.max max_producer_exec_time cph in
  _ ← windows (update wcfg p (setExecTime (u64 (dispatch_cycle + getBypassLatency (uop_bypass d) + 1))));
  latency ← updateCriticalPath p latency;
  _ ← modify (fun s => it_with_max_store (Z.max (m_max_store_completion_time s) (u64 (dispatch_cycle + execLatency d))) s);
  mret latency.

Definition dispatch_other (p : Z) (d : DynamicMicroOp) (max_producer_exec_time latency : Z) : M Z :=
  cph ← windows (gets m_critical_path_head);
  let dispatch_cycle := Z.max max_producer_exec_time cph in
  _ ← windows (update wcfg p (setExecTime (u64 (dispatch_cycle + execLatency d))));
  updateCriticalPath p latency.

(** Returns the latency and the reason why dispatch has to stop.  The decoder marks no micro-operation
    as an interrupt. *)
Definition dispatchInstruction (p : Z) : M (Z * Z) :=
  _ ← issueMemOp p;
  max_producer_exec_time ← getMaxProducerExecTime p;
  w ← gets m_windows;
  let cptail := m_critical_path_tail w in
  _ ← windows (update wcfg p (set_critical_path (m_critical_path_head w) cptail max_producer_exec_time));
  e ← windows (getInstructionByIndex wcfg p);
  d ← lift_res (getDynMicroOp e);
  let u := m_uop d in
  '(latency, stop) ←
    (if negb (iCacheHitWhere d =? HW_L1I) && negb (hasOverlapFlag ICACHE_OVERLAP e)
     then latency ← dispatch_icache p d cptail; mret (latency, STOP_DISPATCH_ICACHE_MISS)
     else mret (0, STOP_DISPATCH_NO_REASON));
  '(latency, stop) ←
    (if uo_branch u then
       b ← lift_res (isBranchMispredicted d);
       if b && negb (hasOverlapFlag BPRED_OVERLAP e)
       then latency ← dispatch_mispredicted p cptail latency; mret (latency, STOP_DISPATCH_BRANCH_MISPREDICT)
       else mret (latency, stop)
     else mret (latency, stop));
  latency ←
    (if serializing u then dispatch_serializing p d latency
     else if isExecute u && m_membar u then dispatch_fence p d max_producer_exec_time latency
     else if isLoad u then dispatch_load p d max_producer_exec_time latency
     else if isStore u then dispatch_store p d max_producer_exec_time latency
     else dispatch_other p d max_producer_exec_time latency);
  mret (latency, stop).

(** ** Dispatch of the window *)

Definition calculateCurrentDispatchRate : M Z :=
  w ← gets m_windows;
  let critical_path_length := getCriticalPathLength w in
  if 0 <? critical_path_length then
    old ← lift_res (fp_set_int (m_old_window_length w));
    effective ← windows (getEffectiveCriticalPathLength wcfg critical_path_length false);
    rate ← lift_res (fp_div_int old (s64 effective));
    remaining ← gets m_remaining_dispatch_bandwidth;
    let ipc := fp_add rate remaining in
    let dispatch_rate := u32 (fp_floor ipc) in
    _ ← modify (it_with_bandwidth (if dispatch_rate <? m_dispatch_width cfg then fp_sub_int ipc dispatch_rate else 0));
    mret dispatch_rate
  else
    _ ← modify (it_with_bandwidth 0);
    mret (m_dispatch_width cfg).

(** What has been dispatched in this cycle. *)
Record progress := mkProgress { pg_latency : Z; pg_instructions : Z; pg_micro_ops : Z; pg_stop : Z; pg_period : Z }.

(** The loop of [dispatchWindow]; [n] bounds the number of micro-operations in the window. *)
Fixpoint dispatch_loop (n : nat) (dispatch_rate : Z) (g : progress) : M progress :=
  w ← gets m_windows;
  if negb (wIsEmpty w) && (pg_instructions g <? m_dispatch_width cfg) && (pg_micro_ops g <? dispatch_rate)
     && (pg_stop g =? STOP_DISPATCH_NO_REASON) then
    match n with
    | O => fail OutOfFuel
    | S n =>
        p ← windows getInstructionToDispatch;
        '(instruction_latency, stop) ← dispatchInstruction p;
        _ ← windows (Windows.dispatchInstruction wcfg);
        e ← windows (getInstructionByIndex wcfg p);
        d ← lift_res (getDynMicroOp e);
        _ ← modify (fun s => it_with_trace (it_trace s ++ [d]) s);
        t ← lift_res (getPeriod e);
        dispatch_loop n dispatch_rate
          (mkProgress (u64 (pg_latency g + instruction_latency))
             (if d_last d then u64 (pg_instructions g + 1) else pg_instructions g) (u64 (pg_micro_ops g + 1)) stop t)
    end
  else mret g.

(** The contributions by type in a cycle that the critical path limits. *)
Fixpoint add_fractions (n : nat) (i : nat) (effective_cp_length : Z) : M unit :=
  match n with
  | O => mret tt
  | S n =>
      w ← gets m_windows;
      x ← lift_res (getCpContrFraction i effective_cp_length w);
      t ← gets it_stats;
      v ← lift_res (aget (m_cpContrByType (is_dispatch t)) i);
      _ ← upd_stats (fun t => mkIntervalStats (is_uops t) (is_overlap t) (is_latency t) (is_mlp t)
            (mkDispatchStats (m_cpiBaseStopDispatch (is_dispatch t)) (<[i := u64 (v + x)]> (m_cpContrByType (is_dispatch t)))));
      add_fractions n (S i) effective_cp_length
  end.

(** A cycle without an interruption: why no more was dispatched. *)
Definition account_base (dispatch_rate : Z) (g : progress) : M unit :=
  w ← gets m_windows;
  let stop := if wIsEmpty w then ADD_STOP_DISPATCH_REASON STOP_DISPATCH_WINDOW_EMPTY (pg_stop g) else pg_stop g in
  let stop := if m_dispatch_width cfg <=? pg_instructions g then ADD_STOP_DISPATCH_REASON STOP_DISPATCH_DISPATCH_WIDTH stop else stop in
  stop ←
    (if dispatch_rate <=? pg_micro_ops g then
       effective ← windows (getEffectiveCriticalPathLength wcfg (u64 (getCriticalPathLength w)) true);
       _ ← add_fractions CPCONTR_TYPE_SIZE 0 (u64 (s32 effective));
       mret (ADD_STOP_DISPATCH_REASON STOP_DISPATCH_DISPATCH_RATE stop)
     else mret stop);
  k ← gets it_cpi;
  k ← lift_res (interval_cpi_add IcBase (st_mul 1 (pg_period g)) k);
  _ ← modify (it_with_cpi k);
  t ← gets it_stats;
  v ← lift_res (aget (m_cpiBaseStopDispatch (is_dispatch t)) (Z.to_nat stop));
  upd_stats (fun t => mkIntervalStats (is_uops t) (is_overlap t) (is_latency t) (is_mlp t)
    (mkDispatchStats (<[Z.to_nat stop := u64 (v + 1)]> (m_cpiBaseStopDispatch (is_dispatch t))) (m_cpContrByType (is_dispatch t)))).

(** Returns the number of instructions executed and the latency. *)
Definition dispatchWindow : M (Z * Z) :=
  dispatch_rate ← calculateCurrentDispatchRate;
  w ← gets m_windows;
  g ← dispatch_loop (Z.to_nat (m_window_length w)) dispatch_rate (mkProgress 0 0 0 STOP_DISPATCH_NO_REASON period);
  if pg_latency g =? 0 then
    _ ← account_base dispatch_rate g;
    mret (pg_instructions g, 1)
  else mret (pg_instructions g, pg_latency g).

(** ** Simulation *)

(** The loop while the window is full; [fuel] bounds the number of calls of [dispatchWindow]. *)
Fixpoint dispatch_full (fuel : nat) (total_instructions_executed total_latency : Z) : M (Z * Z) :=
  w ← gets m_windows;
  if wIsFull wcfg w then
    match fuel with
    | O => fail OutOfFuel
    | S fuel =>
        '(n, latency) ← dispatchWindow;
        dispatch_full fuel (u64 (total_instructions_executed + n)) (u64 (total_latency + latency))
    end
  else mret (total_instructions_executed, total_latency).

(** The warning about x87 instructions has no other effect. *)
Definition count_uop (u : MicroOp) : M unit :=
  t ← gets it_stats;
  v ← lift_res (aget (is_uop_type_count (is_uops t)) (subtype_index (uop_subtype u)));
  upd_stats (fun t =>
    let k := is_uops t in
    mkIntervalStats
      (mkUopStats (<[subtype_index (uop_subtype u) := u64 (v + 1)]> (is_uop_type_count k)) (u64 (is_uops_total k + 1))
         (if is_x87 u then u64 (is_uops_x87 k + 1) else is_uops_x87 k) (if isPause u then u64 (is_uops_pause k + 1) else is_uops_pause k))
      (is_overlap t) (is_latency t) (is_mlp t) (is_dispatch t)).

(** The granularity of memory dependencies. *)
Definition mask_address (d : DynamicMicroOp) : DynamicMicroOp :=
  if isLoad (m_uop d) || isStore (m_uop d)
  then MicroOp.with_memory (Z.land (d_address d) (m_mem_dep_mask cfg)) (execLatency d) (dCacheHitWhere d) d else d.

(** Micro-operations come with the period they were made with. *)
Fixpoint simulate_loop (fuel : nat) (insts : list (DynamicMicroOp * Z)) (total_instructions_executed total_latency : Z) : M (Z * Z) :=
  match insts with
  | [] => mret (total_instructions_executed, total_latency)
  | (d, t) :: insts =>
      if squashed d then simulate_loop fuel insts total_instructions_executed total_latency
      else
        _ ← windows (add wcfg (mask_address d) t);
        _ ← count_uop (m_uop d);
        '(n, latency) ← dispatch_full fuel total_instructions_executed total_latency;
        simulate_loop fuel insts n latency
  end.

Definition simulate (fuel : nat) (insts : list (DynamicMicroOp * Z)) : M (Z * Z) := simulate_loop fuel insts 0 0.
End timer.
