(* ===== verification/WindowsFacts.v ===== *)
(** * The ring of the interval model

    The ring of Windows as a function from sequence numbers to entries, and what the operations that read
    and write entries do to it.  [o], [h] and [n] are the sequence numbers of the oldest micro-operation of the old
    window, the oldest of the window and the next one to enter. *)

From stdpp Require Import sets functions.
From S2P Require Import Prelude StateMonad SubsecondTime ContentionModel CircularQueue MicroOp MicroOpFacts CoreModelNehalem RobTimer RobInvariant RobAccess IntervalContention Windows.
#[local] Open Scope Z_scope.

(** The micro-operation of an entry that has one. *)
Definition the_uop (e : WindowEntry) : DynamicMicroOp := default (createDynamicMicroOp MicroOp_new) (w_uop e).

Record EntryOk (k : Z) (e : WindowEntry) : Prop := {
  en_uop : w_uop e = Some (the_uop e);
  en_seq : sequenceNumber (the_uop e) = k;
  en_ok : uop_ok (the_uop e)
}.

Record WCfgOk (cfg : WindowsCfg) : Prop := {
  wc_size : 1 <= window_size cfg <= 511;
  wc_cutoff : 0 <= long_latency_cutoff cfg < 2 ^ 14
}.

Section ring.
Context (cfg : WindowsCfg).
Abbreviation D := (m_double_window_size cfg).
Implicit Types (E : Z -> WindowEntry) (e : WindowEntry).

Definition place (k : Z) : Z := k mod D.

Record Ring (w : list WindowEntry) (head tail old_head len old_len next o h n : Z) E : Prop := {
  rg_order : 0 <= o <= h /\ h <= n < 2 ^ 62;
  rg_sizes : h - o <= window_size cfg /\ n - h <= window_size cfg;
  rg_fields : head = place h /\ tail = place n /\ old_head = place o /\ len = n - h /\ old_len = h - o /\ next = n;
  rg_length : length w = Z.to_nat D;
  rg_entries : forall k, 0 <= k -> n - D <= k < n -> w !! Z.to_nat (place k) = Some (E k) /\ EntryOk k (E k);
  rg_index : forall i e, w !! i = Some e -> w_index e = Z.of_nat i
}.
Definition WRep {C} (s : Windows C) (o h n : Z) E : Prop :=
  Ring (m_double_window s) (m_window_head s) (m_window_tail s) (m_old_window_head s) (m_window_length s) (m_old_window_length s)
    (m_next_sequence_number s) o h n E.

Hypothesis Hcfg : WCfgOk cfg.

Lemma D_pos : 2 <= D <= 1022.
Proof. pose proof (wc_size cfg Hcfg). unfold m_double_window_size. lia. Qed.

Lemma place_range k : 0 <= place k < D.
Proof. apply Z.mod_pos_bound. pose proof D_pos. lia. Qed.

Lemma place_inj a b : place a = place b -> - D < a - b < D -> a = b.
Proof.
  pose proof D_pos. unfold place. intros E Hab. assert (Hm : (a - b) mod D = 0) by (rewrite Zminus_mod, E, Z.sub_diag; apply Z.mod_0_l; lia).
  apply Z.mod_divide in Hm as [q Hq]; [|lia]. assert (q = 0) by nia. lia.
Qed.

(** ** Indices *)

Lemma increment_place k : incrementIndex cfg (place k) = place (k + 1).
Proof.
  pose proof D_pos. pose proof (place_range k). unfold incrementIndex. rewrite Z.rem_mod_nonneg by lia. unfold place.
  by rewrite Zplus_mod_idemp_l.
Qed.

Lemma decrement_place k : decrementIndex cfg (place k) = place (k - 1).
Proof.
  pose proof D_pos. pose proof (place_range k). unfold decrementIndex. rewrite Z.rem_mod_nonneg by lia. unfold place.
  replace (k mod D + D - 1) with (k mod D + (D - 1)) by lia. rewrite Zplus_mod_idemp_l. replace (k + (D - 1)) with (k - 1 + 1 * D) by lia.
  apply Z_mod_plus_full.
Qed.

Lemma windowIndex_mod x : windowIndex cfg x = x mod D.
Proof.
  pose proof D_pos. unfold windowIndex. pose proof (Z.rem_bound_abs x D) as Hb.
  rewrite Z.rem_mod_nonneg by lia. rewrite <- Zplus_mod_idemp_r, Z_mod_same_full, Z.add_0_r.
  rewrite (Z.quot_rem' x D) at 2. rewrite Z.mul_comm, Z.add_comm. symmetry. apply Z_mod_plus_full.
Qed.

(** ** Access *)

Section access.
Context {C : Type} (o h n : Z) (E : Z -> WindowEntry).
Implicit Types (s : Windows C).

Definition inside (k : Z) : Prop := 0 <= k /\ n - D <= k < n.

Lemma runs_by_index k Q s : WRep s o h n E -> inside k -> Q (E k) s -> runs (getInstructionByIndex cfg (place k)) Q s.
Proof.
  intros HR [Hk Hk'] HQ. pose proof (place_range k). unfold getInstructionByIndex.
  rewrite (proj2 (Z.leb_le _ _)), (proj2 (Z.ltb_lt _ _)) by lia. cbn [andb]. rstep. rstep. rstep. rstep.
  apply (wpe_lift _ _ _ _ (E k)); [|done]. apply aget_ok. by apply (rg_entries _ _ _ _ _ _ _ _ _ _ _ HR).
Qed.

Lemma ent_ok s k : WRep s o h n E -> inside k -> EntryOk k (E k).
Proof. intros HR [Hk Hk']. by apply (rg_entries _ _ _ _ _ _ _ _ _ _ _ HR). Qed.

Lemma ent_index s k : WRep s o h n E -> inside k -> w_index (E k) = place k.
Proof.
  intros HR [Hk Hk']. pose proof (place_range k). destruct (rg_entries _ _ _ _ _ _ _ _ _ _ _ HR k Hk Hk') as [Hl _].
  rewrite (rg_index _ _ _ _ _ _ _ _ _ _ _ HR _ _ Hl). lia.
Qed.

Lemma getDynMicroOp_ok k e : EntryOk k e -> getDynMicroOp e = Ok (the_uop e).
Proof. intros H. unfold getDynMicroOp. by rewrite (en_uop k e H). Qed.

Lemma getSequenceNumber_ok k e : EntryOk k e -> getSequenceNumber e = Ok k.
Proof. intros H. unfold getSequenceNumber. rewrite (getDynMicroOp_ok k e H). cbn. by rewrite (en_seq k e H). Qed.

Lemma runs_uop_at k Q s : WRep s o h n E -> inside k -> Q (the_uop (E k)) s -> runs (uop_at cfg (place k)) Q s.
Proof.
  intros HR Hk HQ. unfold uop_at. rstep. apply runs_by_index; [done..|]. eapply wpe_lift; [|done].
  by apply (getDynMicroOp_ok k), (ent_ok s).
Qed.

Lemma runs_seqnr_at k Q s : WRep s o h n E -> inside k -> Q k s -> runs (seqnr_at cfg (place k)) Q s.
Proof.
  intros HR Hk HQ. unfold seqnr_at. rstep. apply runs_by_index; [done..|]. eapply wpe_lift; [|done].
  by apply getSequenceNumber_ok, (ent_ok s).
Qed.

Lemma runs_old_contains y Q s : WRep s o h n E -> h < n -> 1 <= h -> Q ((o <=? y) && (y <? h)) s -> runs (oldWindowContains cfg y) Q s.
Proof.
  intros HR Hn Hh HQ. pose proof HR as [Ho Hs (Eh & Et & Eo & _) _ _ _]. pose proof (wc_size cfg Hcfg). unfold oldWindowContains.
  assert (D = 2 * window_size cfg) by done. rstep. rstep. rstep. rewrite Eo. apply runs_seqnr_at; [done|split; lia|].
  rstep. rewrite Eh, decrement_place. apply runs_seqnr_at; [done|split; lia|]. rstep.
  replace (y <=? h - 1) with (y <? h); [done|]. destruct (Z.ltb_spec y h), (Z.leb_spec y (h - 1)); lia.
Qed.

Lemma runs_window_contains y Q s : WRep s o h n E -> h < n -> Q ((h <=? y) && (y <? n)) s -> runs (windowContains cfg y) Q s.
Proof.
  intros HR Hn HQ. pose proof HR as [Ho Hs (Eh & Et & Eo & _) _ _ _]. pose proof (wc_size cfg Hcfg). unfold windowContains.
  assert (D = 2 * window_size cfg) by done. rstep. rstep. rstep. rewrite Eh. apply runs_seqnr_at; [done|split; lia|].
  rstep. rewrite Et, decrement_place. apply runs_seqnr_at; [done|split; lia|]. rstep.
  replace (y <=? n - 1) with (y <? n); [done|]. destruct (Z.ltb_spec y n), (Z.leb_spec y (n - 1)); lia.
Qed.

Lemma s32_small z : - 2 ^ 31 <= z < 2 ^ 31 -> s32 z = z.
Proof.
  intros Hz. unfold swrap. destruct (Z.le_gt_cases 0 z).
  - rewrite wrap_small by lia. by rewrite (proj2 (Z.ltb_lt _ _)) by lia.
  - replace (wrap 32 z) with (z + 2 ^ 32).
    + rewrite (proj2 (Z.ltb_ge _ _)) by lia. lia.
    + unfold wrap. apply (Z.mod_unique_pos _ _ (-1)); lia.
Qed.

Lemma runs_getInstruction y Q s : WRep s o h n E -> h < n -> inside y -> Q (place y) s -> runs (getInstruction cfg y) Q s.
Proof.
  intros HR Hn Hy HQ. pose proof HR as [Ho Hs (Eh & Et & Eo & _) _ _ _]. pose proof D_pos. unfold getInstruction.
  assert (D = 2 * window_size cfg) by done. pose proof Hy as [? ?]. assert (Hh : inside h) by (split; lia). rstep. rstep. rstep. rewrite Eh. apply runs_by_index; [done..|]. rstep.
  eapply wpe_lift; [by apply getSequenceNumber_ok, (ent_ok s)|]. rewrite (ent_index s) by done. pose proof (place_range h).
  rewrite !s32_small by (rewrite ?s32_small; lia). rewrite windowIndex_mod.
  assert (Ep : (place h - (h - y)) mod D = place y) by (unfold place; rewrite Zminus_mod_idemp_l; f_equal; lia). rewrite Ep. rstep. apply runs_seqnr_at; [done..|]. rewrite Z.eqb_refl. exact HQ.
Qed.

(** A change of an entry that keeps its place and has a micro-operation of the same number. *)
Lemma Ring_set w hd tl oh l ol nx k e : Ring w hd tl oh l ol nx o h n E -> inside k -> w_index e = place k -> EntryOk k e ->
  Ring (<[Z.to_nat (place k) := e]> w) hd tl oh l ol nx o h n (<[k := e]> E).
Proof.
  intros HR [Hk Hk'] Hi He. pose proof HR as [Ho Hs Hf Hl Hen Hix]. pose proof (place_range k). assert (D = 2 * window_size cfg) by done. split; try done.
  - by rewrite length_insert.
  - intros m Hm Hm'. destruct (decide (m = k)) as [->|Hne].
    + rewrite fn_lookup_insert. split; [|done]. apply list_lookup_insert_eq. lia.
    + rewrite fn_lookup_insert_ne by done. pose proof (place_range m). rewrite list_lookup_insert_ne; [by apply Hen|]. intros Ep.
      apply Hne. apply place_inj; lia.
  - intros i e' Hi'. destruct (decide (i = Z.to_nat (place k))) as [->|Hne].
    + rewrite list_lookup_insert_eq in Hi' by lia. injection Hi' as <-. lia.
    + rewrite list_lookup_insert_ne in Hi' by done. by apply Hix.
Qed.

Lemma runs_update k f Q s : WRep s o h n E -> inside k -> w_index (f (E k)) = w_index (E k) -> EntryOk k (f (E k)) ->
  (WRep (with_double_window (<[Z.to_nat (place k) := f (E k)]> (m_double_window s)) s) o h n (<[k := f (E k)]> E) ->
   Q tt (with_double_window (<[Z.to_nat (place k) := f (E k)]> (m_double_window s)) s)) ->
  runs (update cfg (place k) f) Q s.
Proof.
  intros HR Hk Hf Hok HQ. unfold update. rstep. apply runs_by_index; [done..|]. rstep. apply HQ. unfold WRep. cbn.
  apply Ring_set; try done. by rewrite Hf, (ent_index s).
Qed.
End access.
End ring.
