(* ===== verification/WindowsBranch.v ===== *)
(** * Branch resolution in the interval model

    [calculateBranchResolutionLatency] walks back through the old window and computes the longest chain of
    dependent micro-operations that ends in the branch. *)

From stdpp Require Import sets functions.
From S2P Require Import Prelude StateMonad SubsecondTime ContentionModel CircularQueue MicroOp MicroOpFacts CoreModelNehalem RobTimer RobInvariant RobAccess IntervalContention Windows WindowsFacts.
#[local] Open Scope Z_scope.

Section branch.
Context (cfg : WindowsCfg) (Hcfg : WCfgOk cfg).
Context {C : Type} (o h n : Z) (E : Z -> WindowEntry).
Abbreviation D := (m_double_window_size cfg).
Abbreviation place := (WindowsFacts.place cfg).
Abbreviation WRep := (WindowsFacts.WRep cfg).
Implicit Types (s : Windows C) (T : Z -> Z) (l : list Z) (k j : Z).

(** ** Chains *)

Definition lat k : Z := execLatency (the_uop (E k)).
Definition deps k : list Z := udeps (the_uop (E k)).
Definition old k : bool := (o <=? k) && (k <? h).

(** Micro-operations of the old window, each of which the next one depends on, the last one being a dependency of
    the micro-operation to be dispatched.  That last one has a latency: 0 in the map of times stands for a
    micro-operation that has not been reached, so the walk does not go on from a direct producer that takes no time. *)
Fixpoint chain l : Prop :=
  match l with
  | [] => True
  | k :: l => old k = true /\ k ∈ deps (hd h l) /\ (l = [] -> 1 <= lat k) /\ chain l
  end.
Definition weight l : Z := foldr (fun k x => lat k + x) 0 l.

Lemma old_spec k : old k = true <-> o <= k < h.
Proof. unfold old. rewrite andb_true_iff, Z.leb_le, Z.ltb_lt. done. Qed.

Lemma chain_in k l : chain (k :: l) -> o <= k < h.
Proof. intros (Hk & _). by apply old_spec. Qed.

Hypothesis Hent : forall k, o <= k <= h -> EntryOk k (E k).
Hypothesis Hoh : 0 <= o <= h.

Lemma deps_before k y : o <= k <= h -> y ∈ deps k -> 0 <= y < k.
Proof. intros Hk Hy. pose proof (Hent k Hk) as He. rewrite <- (en_seq k _ He). apply (udeps_bound _ _ (en_ok k _ He)), Hy. Qed.

Lemma chain_before k l : chain (k :: l) -> k < hd h l <= h.
Proof.
  cbn. intros (Hk & Hd & _ & Hl). destruct l as [|j l]; cbn in *.
  - apply deps_before in Hd; lia.
  - destruct Hl as (Hj & _). apply old_spec in Hj. apply deps_before in Hd; lia.
Qed.

Lemma chain_sorted k l : chain (k :: l) -> Forall (fun j => k < j < h) l.
Proof.
  revert k. induction l as [|j l IH]; intros k Hc; [constructor|]. pose proof (chain_before k (j :: l) Hc) as Hb. cbn in Hb. destruct Hc as (_ & _ & _ & Hc).
  constructor.
  - destruct Hc as (Hj & _). apply old_spec in Hj. lia.
  - eapply Forall_impl; [by apply IH|]. intros. cbn in *. lia.
Qed.

Context (L : Z) (Hlat : forall k, o <= k < h -> 0 <= lat k <= L).

Lemma L_nonneg k : o <= k < h -> 0 <= L.
Proof. intros Hk. pose proof (Hlat k Hk). lia. Qed.

Lemma chain_weight_bound k l : chain (k :: l) -> 0 <= weight (k :: l) <= (h - k) * L.
Proof.
  revert k. induction l as [|j l IH]; intros k Hc; pose proof (chain_before k _ Hc) as Hb; destruct Hc as (Hk & _ & _ & Hc); apply old_spec in Hk; pose proof (Hlat k Hk); cbn in *.
  - nia.
  - specialize (IH j Hc). nia.
Qed.

(** ** The map of times *)

Definition MapRep (m : list Z) T : Prop :=
  length m = Z.to_nat D /\ (forall k, h - D <= k < h -> m !! Z.to_nat (place k) = Some (T k)) /\ forall k, ~ (o <= k < h) -> T k = 0.

Lemma MapRep_zero : MapRep (replicate (Z.to_nat D) 0) (fun _ => 0).
Proof.
  split_and!; [by rewrite length_replicate| |done]. intros k _. apply lookup_replicate. pose proof (place_range cfg Hcfg k). lia.
Qed.

Lemma MapRep_all_zero m T : MapRep m T -> (forall k, o <= k < h -> T k = 0) -> m = replicate (Z.to_nat D) 0.
Proof.
  intros (Hl & Hm & Ho) HT. apply list_eq. intros i. pose proof (D_pos cfg Hcfg). destruct (decide (i < Z.to_nat D)%nat) as [Hi|Hi].
  - rewrite (proj2 (lookup_replicate _ _ _ _)) by done. set (k := (Z.of_nat i - h) mod D + h - D). pose proof (Z.mod_pos_bound (Z.of_nat i - h) D ltac:(lia)).
    assert (Hp : place k = Z.of_nat i).
    { unfold WindowsFacts.place, k. replace ((Z.of_nat i - h) mod D + h - D) with ((Z.of_nat i - h) mod D + (h - D)) by lia.
      rewrite Zplus_mod_idemp_l. replace (Z.of_nat i - h + (h - D)) with (Z.of_nat i + (-1) * D) by lia. rewrite Z_mod_plus_full. apply Z.mod_small. lia. }
    rewrite <- (Nat2Z.id i), <- Hp, Hm by lia. f_equal. destruct (decide (o <= k < h)); [by apply HT|by apply Ho].
  - rewrite !lookup_ge_None_2; [done|rewrite length_replicate|]; lia.
Qed.

Hypothesis Hsize : h - o <= window_size cfg.

Lemma MapRep_get m T k : MapRep m T -> o <= k < h -> aget m (Z.to_nat (place k)) = Ok (T k).
Proof.
  intros (_ & Hm & _) Hk. apply aget_ok, Hm. assert (D = 2 * window_size cfg) by done. lia.
Qed.

Lemma MapRep_set m T k v : MapRep m T -> o <= k < h -> exists m', aset m (Z.to_nat (place k)) v = Ok m' /\ MapRep m' (<[k := v]> T).
Proof.
  intros HM Hk. pose proof (MapRep_get m T k HM Hk) as Hg. destruct HM as (Hl & Hm & Ho). apply aget_ok in Hg. unfold aset. rewrite Hg.
  eexists. split; [reflexivity|]. pose proof (place_range cfg Hcfg k). split_and!; [by rewrite length_insert| |].
  - intros j Hj. assert (D = 2 * window_size cfg) by done. destruct (decide (j = k)) as [->|Hne].
    + rewrite fn_lookup_insert. apply list_lookup_insert_eq. lia.
    + rewrite fn_lookup_insert_ne by done. rewrite list_lookup_insert_ne; [by apply Hm|]. intros Ep. pose proof (place_range cfg Hcfg j).
      apply Hne. apply (place_inj cfg Hcfg); [|lia]. apply Z2Nat.inj; lia.
  - intros j Hj. rewrite fn_lookup_insert_ne by (intros ->; done). by apply Ho.
Qed.

Context (s0 : Windows C) (HR : WRep s0 o h n E) (Hn : h < n).
Abbreviation at_ m := (with_exec_time_map m s0).

Lemma WRep_at m : WRep (at_ m) o h n E.
Proof. exact HR. Qed.

Lemma inside_old k : o <= k <= h -> inside cfg n k.
Proof. intros Hk. pose proof (rg_sizes _ _ _ _ _ _ _ _ _ _ _ _ HR). assert (D = 2 * window_size cfg) by done. split; lia. Qed.

Lemma runs_set_exec_time k v m T Q : MapRep m T -> o <= k < h -> (forall m', MapRep m' (<[k := v]> T) -> Q tt (at_ m')) ->
  runs (set_exec_time (place k) v) Q (at_ m).
Proof.
  intros HM Hk HQ. destruct (MapRep_set m T k v HM Hk) as (m' & Em & HM'). unfold set_exec_time. rstep. rstep. rstep.
  eapply wpe_lift; [exact Em|]. rstep. exact (HQ m' HM').
Qed.

(** ** The loops *)

(** One producer. *)
Definition mark1 T y : Z -> Z := if old y then <[y := lat y]> T else T.
Definition through1 j T y : Z -> Z := if old y then <[y := Z.max (u32 (lat y + T j)) (T y)]> T else T.

(** The part of both loops that finds the producer. *)
Lemma runs_producer y m Q (f : WindowEntry -> DynamicMicroOp -> ST (Windows C) unit) (rest : ST (Windows C) unit) : 0 <= y < h ->
  (old y = false -> runs rest Q (at_ m)) -> (old y = true -> runs (f (E y) (the_uop (E y))) (fun _ => runs rest Q) (at_ m)) ->
  runs (b ← oldWindowContains cfg y;
    _ ← (if (b : bool) then p ← getInstruction cfg y; producer ← getInstructionByIndex cfg p; q ← lift_res (getDynMicroOp producer); f producer q
         else mret tt); rest) Q (at_ m).
Proof.
  intros Hy Hno Hyes. rstep. apply (runs_old_contains cfg Hcfg o h n E); [exact HR|done|lia|]. fold (old y). rstep. destruct (old y) eqn:Eo; [|rstep; by apply Hno].
  pose proof (proj1 (old_spec y) Eo) as Hoy. assert (Hin : inside cfg n y) by (apply inside_old; lia).
  rstep. apply (runs_getInstruction cfg Hcfg o h n E); [exact HR|done|done|]. rstep. apply (runs_by_index cfg Hcfg o h n E); [exact HR|done|]. rstep.
  eapply wpe_lift; [apply (getDynMicroOp_ok y), Hent; lia|]. by apply Hyes.
Qed.

Lemma ent_place y : o <= y <= h -> w_index (E y) = place y.
Proof. intros Hy. apply (ent_index cfg Hcfg o h n E s0); [exact HR|by apply inside_old]. Qed.

Lemma getDependency_at d pre y l : uop_ok d -> udeps d = pre ++ y :: l -> getDependency (Z.of_nat (length pre)) d = Ok y.
Proof. intros Hd Eq. apply getDependency_udeps; [done|]. rewrite Eq. by rewrite list_lookup_middle. Qed.

Lemma runs_mark_producers l : forall pre m T Q, deps h = pre ++ l -> MapRep m T ->
  (forall m', MapRep m' (foldl mark1 T l) -> Q tt (at_ m')) ->
  runs (mark_producers cfg (length l) (Z.of_nat (length pre)) (the_uop (E h))) Q (at_ m).
Proof.
  induction l as [|y l IH]; intros pre m T Q Eq HM HQ; cbn [mark_producers length]; [rstep; by apply HQ|].
  assert (Hh : EntryOk h (E h)) by (apply Hent; lia). rstep. eapply wpe_lift; [eapply getDependency_at; [apply (en_ok h), Hh|exact Eq]|].
  assert (Hy : 0 <= y < h) by (apply deps_before; [lia|]; rewrite Eq; apply elem_of_app; right; left).
  assert (Hrest : forall m', MapRep m' (mark1 T y) -> runs (mark_producers cfg (length l) (Z.of_nat (length pre) + 1) (the_uop (E h))) Q (at_ m')).
  { intros m' HM'. replace (Z.of_nat (length pre) + 1) with (Z.of_nat (length (pre ++ [y]))) by (rewrite length_app; cbn; lia).
    apply (IH _ _ (mark1 T y)); [by rewrite <- app_assoc|done..]. }
  apply runs_producer; [done| |]; unfold mark1 in Hrest; intros Eo; rewrite Eo in Hrest; [by apply Hrest|].
  apply old_spec in Eo. rewrite ent_place by lia. by apply (runs_set_exec_time y _ m T).
Qed.

Lemma runs_mark_through j l : o <= j < h -> forall pre m T Q, deps j = pre ++ l -> MapRep m T ->
  (forall m', MapRep m' (foldl (through1 j) T l) -> Q tt (at_ m')) ->
  runs (mark_through cfg (length l) (Z.of_nat (length pre)) (place j) (the_uop (E j))) Q (at_ m).
Proof.
  intros Hj. induction l as [|y l IH]; intros pre m T Q Eq HM HQ; cbn [mark_through length]; [rstep; by apply HQ|].
  assert (Hej : EntryOk j (E j)) by (apply Hent; lia). rstep. eapply wpe_lift; [eapply getDependency_at; [apply (en_ok j), Hej|exact Eq]|].
  assert (Hy : 0 <= y < j) by (apply deps_before; [lia|]; rewrite Eq; apply elem_of_app; right; left).
  assert (Hrest : forall m', MapRep m' (through1 j T y) -> runs (mark_through cfg (length l) (Z.of_nat (length pre) + 1) (place j) (the_uop (E j))) Q (at_ m')).
  { intros m' HM'. replace (Z.of_nat (length pre) + 1) with (Z.of_nat (length (pre ++ [y]))) by (rewrite length_app; cbn; lia).
    apply (IH _ _ (through1 j T y)); [by rewrite <- app_assoc|done..]. }
  apply (runs_producer y m Q (fun producer q => m ← gets m_exec_time_map; t ← lift_res (aget m (Z.to_nat (place j)));
    v ← lift_res (aget m (Z.to_nat (w_index producer))); set_exec_time (w_index producer) (Z.max (u32 (execLatency q + t)) v))); [lia| |];
    unfold through1 in Hrest; intros Eo; rewrite Eo in Hrest; [by apply Hrest|].
  apply old_spec in Eo. rewrite ent_place by lia. rstep. rstep. rstep. eapply wpe_lift; [by apply (MapRep_get m T)|]. rstep.
  eapply wpe_lift; [by apply (MapRep_get m T)|]. by apply (runs_set_exec_time y _ m T).
Qed.

(** ** What the loops compute *)

Lemma foldl_mark1 l T k : foldl mark1 T l k = if bool_decide (k ∈ l) && old k then lat k else T k.
Proof.
  revert T. induction l as [|y l IH]; intros T; cbn [foldl]; [done|]. rewrite IH. unfold mark1.
  destruct (decide (k ∈ l)) as [Hk|Hk].
  - rewrite !bool_decide_eq_true_2 by (done || by right). cbn [andb]. destruct (old k) eqn:Ek; [done|]. destruct (old y) eqn:Ey; [|done].
    by rewrite fn_lookup_insert_ne by congruence.
  - rewrite (bool_decide_eq_false_2 (k ∈ l)) by done. cbn [andb]. destruct (decide (k = y)) as [->|Hne].
    + rewrite bool_decide_eq_true_2 by left. cbn [andb]. destruct (old y); [by rewrite fn_lookup_insert|done].
    + rewrite bool_decide_eq_false_2 by (by rewrite elem_of_cons; intros [|]). cbn [andb]. destruct (old y); [by rewrite fn_lookup_insert_ne|done].
Qed.

Lemma foldl_through1 j l T k : j ∉ l ->
  foldl (through1 j) T l k = if bool_decide (k ∈ l) && old k then Z.max (u32 (lat k + T j)) (T k) else T k.
Proof.
  revert T. induction l as [|y l IH]; intros T Hj; cbn [foldl]; [done|]. rewrite not_elem_of_cons in Hj. destruct Hj as [Hjy Hjl].
  rewrite IH by done. assert (Ej : through1 j T y j = T j) by (unfold through1; destruct (old y); [by rewrite fn_lookup_insert_ne by congruence|done]).
  rewrite Ej. unfold through1. destruct (decide (k = y)) as [->|Hne].
  - rewrite (bool_decide_eq_true_2 (y ∈ y :: l)) by left. cbn [andb]. destruct (old y) eqn:Ey; [|by rewrite andb_false_r].
    rewrite fn_lookup_insert, andb_true_r. case_bool_decide; lia.
  - assert (bool_decide (k ∈ y :: l) = bool_decide (k ∈ l)) as ->.
    { apply bool_decide_ext. rewrite elem_of_cons. naive_solver. }
    destruct (old y); [by rewrite fn_lookup_insert_ne by done|done].
Qed.

Hypothesis Hwide : (h - o) * L < 2 ^ 31.

(** The times when the micro-operations after [j] have been treated: for each of the others a chain that starts there, and the longest of
    those that go on after [j]. *)
Record Resolved j T : Prop := {
  rs_zero : forall k, j < k < h -> T k = 0;
  rs_sound : forall k, o <= k <= j -> T k = 0 \/ exists l, chain (k :: l) /\ weight (k :: l) = T k;
  rs_complete : forall k l, o <= k <= j -> chain (k :: l) -> Forall (Z.lt j) l -> weight (k :: l) <= T k
}.

Lemma resolved_first : Resolved (h - 1) (foldl mark1 (fun _ => 0) (deps h)).
Proof.
  split.
  - intros k Hk. lia.
  - intros k Hk. rewrite foldl_mark1. case_bool_decide as Hd; cbn [andb]; [|by left]. rewrite (proj2 (old_spec k)) by lia.
    destruct (decide (lat k = 0)) as [|Hne]; [by left|]. right. exists []. cbn. rewrite (proj2 (old_spec k)) by lia. pose proof (Hlat k ltac:(lia)). split_and!; try done; lia.
  - intros k l Hk Hc Hl. pose proof (chain_sorted k l Hc) as Hs. assert (l = []) as ->.
    { destruct l as [|j l]; [done|]. inversion Hs. inversion Hl. lia. }
    destruct Hc as (Ho & Hd & _). cbn in Hd. rewrite foldl_mark1, bool_decide_eq_true_2, Ho by done. cbn. lia.
Qed.

Lemma resolved_range j T k : Resolved j T -> o <= j < h -> o <= k <= j -> 0 <= T k < 2 ^ 31.
Proof.
  intros [_ Hs _] Hj Hk. destruct (Hs k Hk) as [->|(l & Hc & <-)]; [lia|]. pose proof (chain_weight_bound k l Hc). pose proof (L_nonneg j Hj). nia.
Qed.

Lemma weight_positive k l : chain (k :: l) -> 1 <= weight (k :: l).
Proof.
  revert k. induction l as [|j l IH]; intros k (Hk & _ & Hp & Hc); apply old_spec in Hk; pose proof (Hlat k Hk); cbn in *; [specialize (Hp eq_refl); lia|].
  specialize (IH j Hc). lia.
Qed.

Lemma resolved_skip j T : Resolved j T -> o <= j < h -> T j = 0 -> Resolved (j - 1) T.
Proof.
  intros [Hz Hs Hc] Hj HT. split.
  - intros k Hk. destruct (decide (k = j)) as [->|]; [done|]. apply Hz. lia.
  - intros k Hk. apply Hs. lia.
  - intros k l Hk Hch Hf. assert (Hnj : hd h l <> j).
    { intros Eh. destruct l as [|j' l]; cbn in Eh; [lia|]. subst j'. destruct Hch as (_ & _ & _ & Hch).
      pose proof (Hc j l ltac:(lia) Hch) as Hw. assert (Hf' : Forall (Z.lt j) l) by (eapply Forall_impl; [by apply chain_sorted|]; cbn; lia).
      specialize (Hw Hf'). pose proof (weight_positive j l Hch). lia. }
    apply Hc; [lia|done|]. destruct l as [|j' l]; [constructor|]. cbn in Hnj. destruct Hch as (_ & _ & _ & Hch). inversion Hf; subst. constructor; [lia|].
    pose proof (chain_sorted j' l Hch) as Hs'. eapply Forall_impl; [exact Hs'|]. cbn. lia.
Qed.

Lemma resolved_step j T : Resolved j T -> o <= j < h -> T j <> 0 -> Resolved (j - 1) (<[j := 0]> (foldl (through1 j) T (deps j))).
Proof.
  intros HRs Hj HT. pose proof HRs as [Hz Hs Hc].
  assert (Hnj : j ∉ deps j) by (intros Hd; apply deps_before in Hd; lia).
  assert (Hv : forall k, o <= k < j -> <[j := 0]> (foldl (through1 j) T (deps j)) k = if bool_decide (k ∈ deps j) then Z.max (lat k + T j) (T k) else T k).
  { intros k Hk. rewrite fn_lookup_insert_ne by lia. rewrite foldl_through1 by done. rewrite (proj2 (old_spec k)), andb_true_r by lia.
    case_bool_decide; [|done]. rewrite wrap_small; [done|]. pose proof (resolved_range j T j HRs Hj ltac:(lia)). pose proof (Hlat k ltac:(lia)). nia. }
  split.
  - intros k Hk. destruct (decide (k = j)) as [->|]; [by rewrite fn_lookup_insert|]. rewrite fn_lookup_insert_ne, foldl_through1 by done.
    rewrite bool_decide_eq_false_2 by (intros Hd; apply deps_before in Hd; lia). apply Hz. lia.
  - intros k Hk. rewrite Hv by lia. case_bool_decide as Hd; [|apply Hs; lia].
    destruct (Z.max_spec (lat k + T j) (T k)) as [[_ ->]|[_ ->]]; [apply Hs; lia|]. right. destruct (Hs j ltac:(lia)) as [?|(l & Hl & Hw)]; [done|].
    exists (j :: l). split; [|by cbn in *; lia]. cbn. split_and!; [apply old_spec; lia|done|done|by apply Hl..].
  - intros k l Hk Hch Hf. rewrite Hv by lia. destruct (decide (hd h l = j)) as [Eh|Eh].
    + destruct l as [|j' l]; cbn in Eh; [lia|]. subst j'. destruct Hch as (_ & Hd & _ & Hch). cbn in Hd. rewrite bool_decide_eq_true_2 by done.
      assert (weight (j :: l) <= T j) as Hw.
      { apply Hc; [lia|done|]. eapply Forall_impl; [by apply chain_sorted|]. cbn. lia. }
      cbn in *. lia.
    + assert (weight (k :: l) <= T k) as Hw; [|case_bool_decide; lia]. apply Hc; [lia|done|]. destruct l as [|j' l]; [constructor|]. cbn in Eh.
      destruct Hch as (_ & _ & _ & Hch). inversion Hf; subst. constructor; [lia|]. eapply Forall_impl; [by apply chain_sorted|]. cbn. lia.
Qed.

(** The longest chain that starts after [j]. *)
Record Longest j (r : Z) : Prop := {
  lg_sound : exists l, chain l /\ weight l = r;
  lg_complete : forall k l, j < k -> chain (k :: l) -> weight (k :: l) <= r
}.

Lemma longest_step j T r : Resolved j T -> o <= j < h -> Longest j r -> Longest (j - 1) (Z.max r (T j)).
Proof.
  intros [_ Hs Hc] Hj [Hls Hlc]. split.
  - destruct (Z.max_spec r (T j)) as [[Hlt ->]|[_ ->]]; [|done]. destruct (Hs j ltac:(lia)) as [Hz|(l & Hl & Hw)]; [|eauto].
    destruct Hls as (l & Hl & Hw). exists []. split; [done|]. destruct l as [|k l]; cbn in *; [lia|]. pose proof (chain_weight_bound k l Hl). cbn in *. lia.
  - intros k l Hk Hch. destruct (decide (k = j)) as [->|].
    + assert (weight (j :: l) <= T j); [|lia]. apply Hc; [lia|done|]. eapply Forall_impl; [by apply chain_sorted|]. cbn. lia.
    + pose proof (Hlc k l ltac:(lia) Hch). lia.
Qed.

Lemma previous_place j : windowIndex cfg (place j - 1) = place (j - 1).
Proof. rewrite windowIndex_mod by done. unfold WindowsFacts.place. by rewrite Zminus_mod_idemp_l. Qed.

Lemma runs_resolve N : forall j m T r Q, N = Z.to_nat (j - o + 1) -> o - 1 <= j < h -> MapRep m T -> Resolved j T -> Longest j r ->
  (forall r', Longest (o - 1) r' -> Q r' (at_ (replicate (Z.to_nat D) 0))) ->
  runs (resolve cfg N (place j) r) Q (at_ m).
Proof.
  induction N as [|N IH]; intros j m T r Q EN Hj HM HRs HL HQ; cbn [resolve].
  - rstep. replace j with (o - 1) in * by lia. rewrite (MapRep_all_zero m T); [by apply HQ|done|]. intros k Hk. apply (rs_zero _ _ HRs). lia.
  - assert (Hoj : o <= j < h) by lia. rstep. rstep. rstep. eapply wpe_lift; [by apply (MapRep_get m T)|]. rewrite previous_place.
    pose proof (longest_step j T r HRs Hoj HL) as HL'. destruct (Z.eqb_spec (T j) 0) as [Ez|Hnz].
    + apply (IH _ _ T); [lia|lia|done|by apply resolved_skip| |done]. destruct HL as [(l & Hl & Hw) _]. rewrite Ez in HL'.
      assert (0 <= r) by (destruct l as [|k l]; cbn in *; [lia|]; pose proof (chain_weight_bound k l Hl); cbn in *; lia). by rewrite Z.max_l in HL'.
    + assert (Hej : EntryOk j (E j)) by (apply Hent; lia).
      rstep. apply (runs_uop_at cfg Hcfg o h n E); [exact HR|apply inside_old; lia|]. rstep. rewrite length_udeps by apply (en_ok j _ Hej). rewrite Nat2Z.id.
      apply (runs_mark_through j (deps j) Hoj [] m T); [done..|]. intros m' HM'. rstep. rstep. rstep. eapply wpe_lift; [by apply (MapRep_get m' _ j HM')|].
      rewrite foldl_through1, bool_decide_eq_false_2 by (intros Hd; apply deps_before in Hd; lia). cbn [andb].
      rstep. apply (runs_set_exec_time j 0 m' _ _ HM' Hoj). intros m'' HM''. eapply IH; [lia|lia|exact HM''|by apply resolved_step|done|done].
Qed.

Lemma runs_branch_resolution Q : m_exec_time_map s0 = replicate (Z.to_nat D) 0 ->
  (forall r, Longest (o - 1) r -> 0 <= r <= (h - o) * L -> Q r s0) -> runs (calculateBranchResolutionLatency cfg) Q s0.
Proof.
  intros Em HQ. assert (Es : s0 = at_ (replicate (Z.to_nat D) 0)) by (rewrite <- Em; by destruct s0). rewrite Es.
  assert (Hh : EntryOk h (E h)) by (apply Hent; lia). pose proof (rg_fields _ _ _ _ _ _ _ _ _ _ _ _ HR) as (Eh & _ & _ & _ & El & _).
  unfold calculateBranchResolutionLatency. rstep. rstep. rstep. change (m_window_head (at_ _)) with (m_window_head s0). rewrite Eh. apply (runs_uop_at cfg Hcfg o h n E); [exact HR|apply inside_old; lia|].
  rstep. rewrite length_udeps by apply (en_ok h _ Hh). rewrite Nat2Z.id. apply (runs_mark_producers (deps h) [] _ (fun _ => 0)); [done|apply MapRep_zero|].
  intros m' HM'. rstep. change (m_old_window_length (at_ _)) with (m_old_window_length s0). rewrite El, previous_place.
  eapply runs_resolve; [|lia|exact HM'|exact resolved_first| |].
  - f_equal. lia.
  - split; [by exists []|]. intros k l Hk Hc. pose proof (chain_before k l Hc). destruct Hc as (Hk' & _). apply old_spec in Hk'. lia.
  - intros r HL. rstep. destruct HL as [(l & Hl & Hw) Hc]. assert (Hr : 0 <= r <= (h - o) * L).
    { destruct l as [|k l]; cbn in Hw.
      - subst r. split; [lia|]. destruct (decide (o < h)) as [Hlt|]; [pose proof (L_nonneg o ltac:(lia)); nia|]. replace (h - o) with 0 by lia. lia.
      - pose proof (chain_weight_bound k l Hl) as Hb. destruct Hl as (Hk & _). apply old_spec in Hk. pose proof (L_nonneg k Hk). cbn in *. nia. }
    rewrite s32_small by lia. rewrite <- Es. apply HQ; [|done]. split; [by exists l|done].
Qed.
End branch.
