(* ===== verification/WindowsInv.v ===== *)
(** * The invariant of the windows

    The critical path of the old window: its length is the sum of what the micro-operations of the old window contribute
    to it.  [U] are the micro-operations that have entered; [E] gives their entries.

    Between the computation of the execution time of the micro-operation that is dispatched and its move to the old
    window the invariant is in transition: [g] is the first micro-operation that the critical path does not account for
    yet, and from [f] on the execution times are not after the tail of the critical path. *)

From stdpp Require Import sets functions.
From S2P Require Import Prelude StateMonad SubsecondTime ContentionModel CircularQueue MicroOp MicroOpFacts CoreModelNehalem RobTimer RobInvariant RobAccess RobState RobDeps IntervalContention Windows WindowsFacts WindowsBranch.
#[local] Open Scope Z_scope.

(** ** The critical path *)

Section path.
Context (cutoff : Z).
Implicit Types (e : WindowEntry) (l : list WindowEntry).

(** From [head], every micro-operation extends the path by its contribution, at the end of which it is executed, or
    has been executed before. *)
Fixpoint path (head : Z) l (tail : Z) : Prop :=
  match l with
  | [] => head = tail
  | e :: l => 0 <= cpContr e < Z.max 1 cutoff /\ execTime e <= head + cpContr e /\ (0 < cpContr e -> execTime e = head + cpContr e) /\
      path (head + cpContr e) l tail
  end.
Fixpoint contributions l : Z := match l with [] => 0 | e :: l => cpContr e + contributions l end.
Definition of_type (i : nat) e : bool := (cpcontr_index (getCpContrType (the_uop e)) =? i)%nat.
Fixpoint contributions_of (i : nat) l : Z := match l with [] => 0 | e :: l => (if of_type i e then cpContr e else 0) + contributions_of i l end.

Lemma path_total head l tail : path head l tail -> tail = head + contributions l.
Proof. revert head. induction l as [|e l IH]; intros head; cbn; [lia|]. intros (_ & _ & _ & Hp%IH). lia. Qed.

Lemma path_nonneg head l tail : path head l tail -> Forall (fun e => 0 <= cpContr e) l.
Proof. revert head. induction l as [|e l IH]; intros head; [constructor|]. intros (? & _ & _ & Hp%IH). constructor; [lia|done]. Qed.

Lemma path_snoc head l tail e tail' : path head l tail -> 0 <= cpContr e < Z.max 1 cutoff -> execTime e <= tail + cpContr e ->
  (0 < cpContr e -> execTime e = tail + cpContr e) -> tail' = tail + cpContr e -> path head (l ++ [e]) tail'.
Proof.
  revert head. induction l as [|e0 l IH]; intros head; cbn.
  - intros -> ? ? ? ->. done.
  - intros (? & ? & ? & Hp) ? ? ? ->. split_and!; try done; try lia. by apply IH.
Qed.

Lemma contributions_bound head l tail : path head l tail -> 0 <= contributions l <= Z.of_nat (length l) * (Z.max 1 cutoff - 1).
Proof. revert head. induction l as [|e l IH]; intros head; cbn; [lia|]. intros (? & _ & _ & Hp%IH). lia. Qed.

Lemma contributions_of_bound i l : Forall (fun e => 0 <= cpContr e) l -> 0 <= contributions_of i l <= contributions l.
Proof. induction 1 as [|e l He _ IH]; cbn; [lia|]. destruct (of_type i e); lia. Qed.

Lemma path_contributions head l tail : path head l tail -> Forall (fun e => 0 <= cpContr e < Z.max 1 cutoff) l.
Proof. revert head. induction l as [|e l IH]; intros head; [constructor|]. intros (? & _ & _ & Hp%IH). by constructor. Qed.

Lemma path_exec head l tail : path head l tail -> Forall (fun e => execTime e <= tail) l.
Proof.
  revert head. induction l as [|e l IH]; intros head; [constructor|]. intros (Hc & He & _ & Hp). pose proof (IH _ Hp). constructor; [|done].
  pose proof (path_total _ _ _ Hp). pose proof (contributions_bound _ _ _ Hp). lia.
Qed.

(** When the oldest micro-operation leaves, the head moves to the maximum of the head and its execution time. *)
Lemma path_leave head e l tail : path head (e :: l) tail -> path (Z.max head (execTime e)) l tail /\ Z.max head (execTime e) = head + cpContr e.
Proof.
  intros (Hc & He & Hx & Hp). assert (Eh : Z.max head (execTime e) = head + cpContr e).
  { destruct (decide (0 < cpContr e)); [rewrite (Hx ltac:(done)); lia|]. lia. }
  by rewrite Eh.
Qed.

Lemma contributions_app l l' : contributions (l ++ l') = contributions l + contributions l'.
Proof. induction l as [|e l IH]; cbn; [done|]. lia. Qed.
Lemma contributions_of_app i l l' : contributions_of i (l ++ l') = contributions_of i l + contributions_of i l'.
Proof. induction l as [|e l IH]; cbn; [done|]. lia. Qed.
End path.

Lemma cpcontr_index_lt t : (cpcontr_index t < CPCONTR_TYPE_SIZE)%nat.
Proof. unfold CPCONTR_TYPE_SIZE. destruct t; cbn; lia. Qed.

(** The entries from [a] up to [b]. *)
Definition entries (E : Z -> WindowEntry) (a b : Z) : list WindowEntry := E <$> seqZ a (b - a).

Lemma entries_nil E a : entries E a a = [].
Proof. unfold entries. by rewrite Z.sub_diag. Qed.
Lemma entries_cons E a b : a < b -> entries E a b = E a :: entries E (a + 1) b.
Proof. intros H. unfold entries. rewrite (seqZ_head a) by lia. cbn. do 3 f_equal. lia. Qed.
Lemma entries_snoc E a b : a <= b -> entries E a (b + 1) = entries E a b ++ [E b].
Proof.
  intros H. unfold entries. replace (b + 1 - a) with ((b - a) + 1) by lia. rewrite seqZ_app, fmap_app by lia. cbn. by replace (a + (b - a)) with b by lia.
Qed.
Lemma entries_ext E E' a b : (forall k, a <= k < b -> E' k = E k) -> entries E' a b = entries E a b.
Proof. intros H. unfold entries. apply list_fmap_ext. intros i k Hk. apply lookup_seqZ in Hk as [-> ?]. apply H. lia. Qed.
Lemma entries_length E a b : a <= b -> Z.of_nat (length (entries E a b)) = b - a.
Proof. intros H. unfold entries. rewrite length_fmap, length_seqZ. lia. Qed.
Lemma entries_Forall E a b (P : WindowEntry -> Prop) : Forall P (entries E a b) <-> forall k, a <= k < b -> P (E k).
Proof.
  unfold entries. rewrite Forall_fmap, Forall_forall. split; intros H k Hk; apply H; rewrite elem_of_seqZ in *; lia.
Qed.

(** ** The invariant *)

(** The dependence tables are those of the out-of-order core; only the number of registers matters for them. *)
Definition tables (cfg : WindowsCfg) : RobCfg := mkRobCfg 0 0 0 0 0 false false false false 0 0 0 (xed_reg_last cfg) 0.

Section invariant.
Context (cfg : WindowsCfg) (period exec_max L : Z).
Context {C : Type} `{!IntervalContention C} `{!IntervalContentionOk C}.
Implicit Types (s : Windows C) (E : Z -> WindowEntry) (U : list DynamicMicroOp).
Abbreviation D := (m_double_window_size cfg).
Abbreviation cutoff := (long_latency_cutoff cfg).

Record UopFine (d : DynamicMicroOp) : Prop := {
  uf_latency : 0 <= execLatency d <= L;
  uf_unissued : dCacheHitWhere d = HitWhere_UNKNOWN -> execLatency d <= exec_max;
  uf_hits : hits_ok L d
}.
Record Fine (e : WindowEntry) : Prop := {
  fi_uop : UopFine (the_uop e);
  fi_period : w_period e = period;
  fi_fetch : fetchTime e = 0;
  fi_exec : 0 <= execTime e;
  fi_miss : w_dependent e = INDEP_MISS -> isLoad (m_uop (the_uop e)) = true
}.

Record WInv U s (o h g f n : Z) E : Prop := {
  wi_rep : WRep cfg s o h n E;
  wi_phase : h <= g <= f /\ f <= h + 1;
  wi_map : m_exec_time_map s = replicate (Z.to_nat D) 0;
  wi_entered : n = Z.of_nat (length U);
  wi_fine : forall k, inside cfg n k -> Fine (E k);
  wi_uops : forall k d, inside cfg n k -> U !! Z.to_nat k = Some d -> same_input d (the_uop (E k));
  wi_deps : exists lo, 0 <= lo <= o /\ DepsOk (tables cfg) U lo (m_register_dependencies s) (m_memory_dependencies s);
  wi_holds : ic_holds (the_uop <$> entries E o h) (m_interval_contention s);
  wi_path : 0 <= m_critical_path_head s /\ path cutoff (m_critical_path_head s) (entries E o g) (m_critical_path_tail s);
  wi_total : m_cpcontr_total s = contributions (entries E o h);
  wi_bytype : m_cpcontr_bytype s = (fun i => contributions_of i (entries E o h)) <$> seq 0 CPCONTR_TYPE_SIZE;
  wi_new : forall k, g <= k < n -> cpContr (E k) = 0;
  wi_times : forall k, f <= k < n -> execTime (E k) <= m_critical_path_tail s
}.

Hypothesis Hcfg : WCfgOk cfg.
Context (U : list DynamicMicroOp) (o h g f n : Z) (E : Z -> WindowEntry).
Abbreviation ring_facts H := (wi_rep _ _ _ _ _ _ _ _ H).

Lemma wi_order s : WInv U s o h g f n E -> 0 <= o <= h /\ h <= n < 2 ^ 62 /\ h - o <= window_size cfg /\ n - h <= window_size cfg.
Proof. intros H. pose proof (wi_rep _ _ _ _ _ _ _ _ H) as HR. pose proof (rg_order _ _ _ _ _ _ _ _ _ _ _ _ HR). pose proof (rg_sizes _ _ _ _ _ _ _ _ _ _ _ _ HR). lia. Qed.

Lemma wi_fields s : WInv U s o h g f n E -> m_window_head s = place cfg h /\ m_window_tail s = place cfg n /\ m_old_window_head s = place cfg o /\
  m_window_length s = n - h /\ m_old_window_length s = h - o /\ m_next_sequence_number s = n.
Proof. intros H. exact (rg_fields _ _ _ _ _ _ _ _ _ _ _ _ (wi_rep _ _ _ _ _ _ _ _ H)). Qed.

Lemma wi_inside s k : WInv U s o h g f n E -> o <= k < n -> inside cfg n k.
Proof. intros H Hk. pose proof (wi_order s H). assert (D = 2 * window_size cfg) by done. split; lia. Qed.

Lemma wi_cp s : WInv U s o h g f n E -> 0 <= m_critical_path_head s <= m_critical_path_tail s /\
  m_critical_path_tail s - m_critical_path_head s = contributions (entries E o g) /\
  0 <= contributions (entries E o g) <= (g - o) * (Z.max 1 cutoff - 1).
Proof.
  intros H. destruct (wi_path _ _ _ _ _ _ _ _ H) as [Hh Hp]. pose proof (path_total _ _ _ _ Hp). pose proof (contributions_bound _ _ _ _ Hp) as Hb.
  pose proof (wi_order s H). pose proof (wi_phase _ _ _ _ _ _ _ _ H). rewrite entries_length in Hb by lia. lia.
Qed.

Lemma wi_old_exec s k : WInv U s o h g f n E -> o <= k < g -> execTime (E k) <= m_critical_path_tail s.
Proof. intros H Hk. destruct (wi_path _ _ _ _ _ _ _ _ H) as [_ Hp%path_exec]. rewrite entries_Forall in Hp. auto. Qed.

(** ** Changes of entries that wait *)

Lemma WInv_set s k e w : WInv U s o h g f n E -> g <= k < n -> WRep cfg (with_double_window w s) o h n (<[k := e]> E) ->
  Fine e -> same_input (the_uop (E k)) (the_uop e) -> cpContr e = 0 -> (f <= k -> execTime e <= m_critical_path_tail s) ->
  WInv U (with_double_window w s) o h g f n (<[k := e]> E).
Proof.
  intros H Hk HR He Hs Hc Ht. pose proof (wi_order s H). pose proof (wi_phase _ _ _ _ _ _ _ _ H).
  assert (Ee : forall b, b <= g -> entries (<[k := e]> E) o b = entries E o b).
  { intros b Hb. apply entries_ext. intros j Hj. apply fn_lookup_insert_ne. lia. }
  destruct H. split; try done; rewrite ?Ee by lia; try done; intros j; (destruct (decide (j = k)) as [->|Hne]; [rewrite fn_lookup_insert|rewrite fn_lookup_insert_ne by done]); auto.
  - intros d Hj Hd. eapply same_input_trans; [by apply wi_uops0|done].
  - intros [? _]. by apply Ht.
Qed.

(** What an assignment to fields other than the execution time and the contribution keeps. *)
Record harmless (fn : WindowEntry -> WindowEntry) (e : WindowEntry) : Prop := {
  hl_index : w_index (fn e) = w_index e;
  hl_uop : w_uop (fn e) = w_uop e;
  hl_period : w_period (fn e) = w_period e;
  hl_fetch : fetchTime (fn e) = fetchTime e;
  hl_contr : cpContr (fn e) = cpContr e;
  hl_miss : w_dependent (fn e) = INDEP_MISS -> w_dependent e = INDEP_MISS \/ isLoad (m_uop (the_uop e)) = true
}.

Lemma harmless_uop fn e : harmless fn e -> the_uop (fn e) = the_uop e.
Proof. intros H. unfold the_uop. by rewrite (hl_uop _ _ H). Qed.

Lemma runs_winv_update fn k Q s : WInv U s o h g f n E -> g <= k < n -> w_index (fn (E k)) = w_index (E k) -> EntryOk k (fn (E k)) -> Fine (fn (E k)) ->
  same_input (the_uop (E k)) (the_uop (fn (E k))) -> cpContr (fn (E k)) = 0 -> (f <= k -> execTime (fn (E k)) <= m_critical_path_tail s) ->
  (forall w, WInv U (with_double_window w s) o h g f n (<[k := fn (E k)]> E) -> Q tt (with_double_window w s)) -> runs (update cfg (place cfg k) fn) Q s.
Proof.
  intros H Hk Hi Hok Hf Hs Hc Ht HQ. pose proof (wi_order s H). pose proof (wi_phase _ _ _ _ _ _ _ _ H). pose proof (ring_facts H) as HR.
  apply (runs_update cfg Hcfg o h n E); [done|eapply wi_inside; [done|lia]|done..|]. intros HR'. apply HQ. by apply WInv_set.
Qed.

Lemma runs_winv_harmless fn k Q s : WInv U s o h g f n E -> g <= k < n -> harmless fn (E k) -> 0 <= execTime (fn (E k)) ->
  (f <= k -> execTime (fn (E k)) <= m_critical_path_tail s) ->
  (forall w, WInv U (with_double_window w s) o h g f n (<[k := fn (E k)]> E) -> Q tt (with_double_window w s)) -> runs (update cfg (place cfg k) fn) Q s.
Proof.
  intros H Hk Hfn H0 Ht HQ. pose proof (wi_order s H). pose proof (wi_phase _ _ _ _ _ _ _ _ H).
  assert (Hin : inside cfg n k) by (eapply wi_inside; [done|lia]). pose proof (harmless_uop _ _ Hfn) as Eu.
  pose proof (ent_ok cfg o h n E s k (ring_facts H) Hin) as [? ? ?]. pose proof (wi_fine _ _ _ _ _ _ _ _ H k Hin) as [? ? ? ? Hm].
  apply runs_winv_update; try done.
  - apply (hl_index _ _ Hfn).
  - split; rewrite ?Eu; try done. by rewrite (hl_uop _ _ Hfn).
  - split; rewrite ?Eu; try done; [by rewrite (hl_period _ _ Hfn)|by rewrite (hl_fetch _ _ Hfn)|]. intros [?|?]%(hl_miss _ _ Hfn); auto.
  - by rewrite Eu.
  - rewrite (hl_contr _ _ Hfn). apply (wi_new _ _ _ _ _ _ _ _ H). lia.
Qed.
End invariant.

Arguments wi_rep {cfg period exec_max L C _ _ U s o h g f n E} _.
Arguments wi_phase {cfg period exec_max L C _ _ U s o h g f n E} _.
Arguments wi_map {cfg period exec_max L C _ _ U s o h g f n E} _.
Arguments wi_entered {cfg period exec_max L C _ _ U s o h g f n E} _.
Arguments wi_deps {cfg period exec_max L C _ _ U s o h g f n E} _.
Arguments wi_holds {cfg period exec_max L C _ _ U s o h g f n E} _.
Arguments wi_path {cfg period exec_max L C _ _ U s o h g f n E} _.
Arguments wi_total {cfg period exec_max L C _ _ U s o h g f n E} _.
Arguments wi_bytype {cfg period exec_max L C _ _ U s o h g f n E} _.
Arguments wi_fine {cfg period exec_max L C _ _ U s o h g f n E} _ _ _.
Arguments wi_new {cfg period exec_max L C _ _ U s o h g f n E} _ _ _.
Arguments wi_times {cfg period exec_max L C _ _ U s o h g f n E} _ _ _.
Arguments wi_uops {cfg period exec_max L C _ _ U s o h g f n E} _ _ _ _ _.
Arguments wi_order {cfg period exec_max L C _ _ U o h g f n E} _ _.
Arguments wi_fields {cfg period exec_max L C _ _ U o h g f n E} _ _.
Arguments wi_cp {cfg period exec_max L C _ _ U o h g f n E} _ _.
Arguments wi_inside {cfg period exec_max L C _ _ U o h g f n E} _ _ _ _.
Arguments wi_old_exec {cfg period exec_max L C _ _ U o h g f n E} _ _ _ _.

Section operations.
Context (cfg : WindowsCfg) (period exec_max L : Z) (Hcfg : WCfgOk cfg).
Context {C : Type} `{!IntervalContention C} `{!IntervalContentionOk C}.
Implicit Types (s : Windows C) (E : Z -> WindowEntry) (U : list DynamicMicroOp).
Abbreviation D := (m_double_window_size cfg).
Abbreviation cutoff := (long_latency_cutoff cfg).
Abbreviation WInv := (WindowsInv.WInv cfg period exec_max L).
Context (U : list DynamicMicroOp) (o h n : Z) (E : Z -> WindowEntry).

(** ** Phases *)

Lemma WInv_relax s : WInv U s o h h h n E -> WInv U s o h h (h + 1) n E.
Proof. intros []. split; try done; [lia|]. intros k Hk. apply wi_times0. lia. Qed.

(** A micro-operation that does not extend the critical path. *)
Lemma WInv_account s : WInv U s o h h h n E -> h < n -> WInv U s o h (h + 1) (h + 1) n E.
Proof.
  intros H Hn. pose proof (wi_order s H). pose proof (wi_times H h ltac:(lia)). pose proof (wi_new H h ltac:(lia)).
  destruct H. split; try done; [lia| |intros k Hk; apply wi_new0; lia|intros k Hk; apply wi_times0; lia].
  destruct wi_path0 as [? Hp]. split; [done|]. rewrite entries_snoc by lia. eapply path_snoc; [exact Hp|lia..].
Qed.

(** ** The statistics of the old window *)

Lemma bytype_zero : (fun i => contributions_of i []) <$> seq 0 CPCONTR_TYPE_SIZE = replicate CPCONTR_TYPE_SIZE 0.
Proof. done. Qed.

Lemma runs_clear_stats l Q s : ic_holds l (m_interval_contention s) ->
  (forall c, ic_holds [] c -> Q tt (with_contention c (with_cpcontr (replicate CPCONTR_TYPE_SIZE 0) 0 s))) -> runs clearFunctionalUnitStats Q s.
Proof.
  intros Hl HQ. unfold clearFunctionalUnitStats. rstep. rstep. destruct (ic_clear_ok l _ Hl) as (c & Ec & Hc). rstep. eapply wpe_lift; [exact Ec|]. rstep. auto.
Qed.

Lemma runs_clearOldWindow g f t Q s : WInv U s o h g f n E -> g = h -> 0 <= t -> (forall k, h <= k < n -> execTime (E k) <= t) ->
  (forall s', WInv U s' h h h h n E -> m_critical_path_head s' = t -> m_critical_path_tail s' = t -> Q tt s') -> runs (clearOldWindow t) Q s.
Proof.
  intros H -> Ht Hx HQ. pose proof (wi_order s H). pose proof (wi_fields s H) as (? & ? & ? & ? & ? & ?).
  unfold clearOldWindow. rstep. rstep. eapply runs_clear_stats; [exact (wi_holds H)|]. intros c Hc. apply HQ; [|done..].
  destruct H. split; try done.
  - destruct wi_rep0. split; cbn; try done; [lia|lia|]. split_and!; try done. lia.
  - lia.
  - destruct wi_deps0 as (lo & ? & ?). exists lo. split; [lia|done].
  - rewrite entries_nil. done.
  - rewrite entries_nil. done.
  - rewrite entries_nil. done.
  - rewrite entries_nil. done.
Qed.

(** ** The critical path *)

Lemma runs_updateCriticalPathTail Q s : WInv U s o h h (h + 1) n E -> h < n -> execTime (E h) - m_critical_path_tail s < Z.max 1 cutoff -> 0 <= execTime (E h) < 2 ^ 64 ->
  (forall s' E', WInv U s' o h (h + 1) (h + 1) n E' -> m_critical_path_tail s' = Z.max (m_critical_path_tail s) (execTime (E h)) ->
     m_critical_path_head s' = m_critical_path_head s -> (forall k, k <> h -> E' k = E k) -> execTime (E' h) = execTime (E h) -> the_uop (E' h) = the_uop (E h) ->
     overlapFlags (E' h) = overlapFlags (E h) -> Q (m_critical_path_tail s') s') ->
  runs (updateCriticalPathTail cfg (place cfg h)) Q s.
Proof.
  intros H Hn Hlt Hpos HQ. pose proof (wi_order s H). pose proof (wi_cp s H) as (Hcp & Hcp2 & Hcp3).
  assert (Hin : inside cfg n h) by (apply (wi_inside s h H); lia). pose proof (wi_rep H) as HR.
  pose proof (wi_new H h ltac:(lia)) as Hc0. unfold updateCriticalPathTail. rstep. apply (runs_by_index cfg Hcfg o h n E); [done..|]. rstep. rstep. rstep.
  destruct (Z.ltb_spec (m_critical_path_tail s) (execTime (E h))) as [Hex|Hex].
  - set (c := execTime (E h) - m_critical_path_tail s) in *. rstep. apply (runs_update cfg Hcfg o h n E); try done.
    { by destruct (ent_ok cfg o h n E s h HR Hin). } intros HR'. rstep. rstep. apply (HQ _ (<[h := setCpContr c (E h)]> E)); try done.
    + set (e' := setCpContr c (E h)) in *. assert (Ee : forall b, b <= h -> entries (<[h := e']> E) o b = entries E o b) by (intros b Hb; apply entries_ext; intros j Hj; apply fn_lookup_insert_ne; lia).
      destruct H. split; try done; rewrite ?Ee by lia; try done.
      * lia.
      * intros k Hk. destruct (decide (k = h)) as [->|]; [rewrite fn_lookup_insert|by rewrite fn_lookup_insert_ne by done; apply wi_fine0]. by destruct (wi_fine0 h Hk).
      * intros k d Hk. destruct (decide (k = h)) as [->|]; [rewrite fn_lookup_insert; by apply wi_uops0|rewrite fn_lookup_insert_ne by done; by apply wi_uops0].
      * cbn. destruct wi_path0 as [? Hp]. split; [done|]. rewrite entries_snoc, Ee, fn_lookup_insert by lia. eapply path_snoc; [exact Hp|cbn; lia..].
      * intros k Hk. rewrite fn_lookup_insert_ne by lia. apply wi_new0. lia.
      * intros k Hk. cbn. rewrite fn_lookup_insert_ne by lia. pose proof (wi_times0 k ltac:(lia)). lia.
    + cbn. lia.
    + intros k Hk. by rewrite fn_lookup_insert_ne.
    + by rewrite fn_lookup_insert.
    + by rewrite fn_lookup_insert.
    + by rewrite fn_lookup_insert.
  - rstep. rstep. apply (HQ _ E); try done; [|lia]. apply WInv_account; [|done]. destruct H. split; try done; [lia|]. intros k Hk.
    destruct (decide (k = h)) as [->|]; [done|]. apply wi_times0. lia.
Qed.

(** ** Dispatch *)

Definition bytypes (l : list WindowEntry) : list Z := (fun i => contributions_of i l) <$> seq 0 CPCONTR_TYPE_SIZE.

Lemma bytypes_lookup i l : (i < CPCONTR_TYPE_SIZE)%nat -> bytypes l !! i = Some (contributions_of i l).
Proof. intros Hi. unfold bytypes. by rewrite list_lookup_fmap, lookup_seq_lt. Qed.

Lemma runs_count d x l l' Q s : m_cpcontr_bytype s = bytypes l -> m_cpcontr_total s = contributions l ->
  (forall i, contributions_of i l' = contributions_of i l + if (cpcontr_index (getCpContrType d) =? i)%nat then x else 0) -> contributions l' = contributions l + x ->
  Forall (fun e => 0 <= cpContr e) l' -> contributions l' < 2 ^ 64 -> Q tt (with_cpcontr (bytypes l') (contributions l') s) -> runs (count_contribution d x) Q s.
Proof.
  intros Eb Et Hi Hx Hp Hlt HQ. set (j := cpcontr_index (getCpContrType d)) in *. pose proof (cpcontr_index_lt (getCpContrType d)) as Hj. fold j in Hj.
  pose proof (contributions_of_bound j l' Hp) as Hb. unfold count_contribution. rstep. rstep. rewrite Eb. rstep. eapply wpe_lift; [apply aget_ok, (bytypes_lookup j); done|]. fold j. rstep.
  rewrite Et, <- Hx. replace (contributions_of j l + x) with (contributions_of j l') by (rewrite Hi, Nat.eqb_refl; lia). rewrite !wrap_small by lia.
  replace (<[j:=contributions_of j l']> (bytypes l)) with (bytypes l'); [done|]. apply list_eq. intros i.
  destruct (decide (i < CPCONTR_TYPE_SIZE)%nat) as [Hlt'|Hge].
  - rewrite bytypes_lookup by done. destruct (decide (i = j)) as [->|Hne].
    + rewrite list_lookup_insert_eq; [done|]. unfold bytypes. by rewrite length_fmap, length_seq.
    + rewrite list_lookup_insert_ne, bytypes_lookup by done. rewrite Hi, (proj2 (Nat.eqb_neq j i)) by done. f_equal. lia.
  - rewrite !lookup_ge_None_2; [done|..]; unfold bytypes; rewrite ?length_insert, length_fmap, length_seq; lia.
Qed.

(** The counts over the entries from [a] to [b], which are counted by the contention model too. *)
Record Counted (a b : Z) (E : Z -> WindowEntry) s : Prop := {
  ct_holds : ic_holds (the_uop <$> entries E a b) (m_interval_contention s);
  ct_total : m_cpcontr_total s = contributions (entries E a b);
  ct_bytype : m_cpcontr_bytype s = bytypes (entries E a b)
}.

Lemma runs_removeStats b Q s : WRep cfg s o h n E -> inside cfg n o -> o < b -> b - o < 2 ^ 31 -> Counted o b E s ->
  Forall (fun e => 0 <= cpContr e) (entries E o b) -> contributions (entries E o b) < 2 ^ 64 ->
  (forall c x y, let s' := with_contention c (with_cpcontr x y s) in Counted (o + 1) b E s' -> Q tt s') ->
  runs (removeFunctionalUnitStats cfg (place cfg o)) Q s.
Proof.
  intros HR Hin Hob Hw [Hh Ht Hb] Hp Hlt HQ. pose proof (ent_ok cfg o h n E s o HR Hin) as He. unfold removeFunctionalUnitStats. rstep. apply (runs_by_index cfg Hcfg o h n E); [done..|]. rstep.
  eapply wpe_lift; [by apply (getDynMicroOp_ok o)|]. rstep. rewrite entries_cons in * by done. inversion Hp; subst.
  pose proof (contributions_of_bound 0 (entries E (o + 1) b) ltac:(done)). cbn [contributions] in Hlt.
  apply (runs_count (the_uop (E o)) (- cpContr (E o)) (E o :: entries E (o + 1) b) (entries E (o + 1) b)); try done; [|cbn; lia|lia|].
  { intros i. cbn. unfold of_type. destruct (_ =? _)%nat; lia. }
  rstep. rstep. destruct (ic_remove_ok (the_uop <$> entries E (o + 1) b) (the_uop (E o)) (m_interval_contention s)) as (c & Ec & Hc); [done| |].
  { rewrite length_fmap, entries_length by lia. lia. }
  rstep. eapply wpe_lift; [exact Ec|]. rstep. apply HQ. by split.
Qed.

Lemma runs_addStats a Q s o' : WRep cfg s o' h n E -> inside cfg n h -> a <= h -> h - a < 2 ^ 31 -> Counted a h E s ->
  Forall (fun e => 0 <= cpContr e) (entries E a (h + 1)) -> contributions (entries E a (h + 1)) < 2 ^ 64 ->
  (forall c x y, let s' := with_contention c (with_cpcontr x y s) in Counted a (h + 1) E s' -> Q tt s') ->
  runs (addFunctionalUnitStats cfg (place cfg h)) Q s.
Proof.
  intros HR Hin Hob Hw [Hh Ht Hb] Hp Hlt HQ. pose proof (ent_ok cfg o' h n E s h HR Hin) as He. unfold addFunctionalUnitStats. rstep. apply (runs_by_index cfg Hcfg o' h n E); [done..|]. rstep.
  eapply wpe_lift; [by apply (getDynMicroOp_ok h)|]. rstep. rewrite entries_snoc in Hp, Hlt by done.
  apply (runs_count (the_uop (E h)) (cpContr (E h)) (entries E a h) (entries E a h ++ [E h])); try done; [|rewrite contributions_app; cbn; lia|].
  { intros i. rewrite contributions_of_app. cbn. unfold of_type. destruct (_ =? _)%nat; lia. }
  rstep. rstep. destruct (ic_add_ok (the_uop <$> entries E a h) (the_uop (E h)) (m_interval_contention s)) as (c & Ec & Hc); [done| |].
  { rewrite length_fmap, entries_length by lia. lia. }
  rstep. eapply wpe_lift; [exact Ec|]. rstep. apply HQ. split; rewrite ?entries_snoc by done; try done. cbn. by rewrite fmap_app.
Qed.

Lemma runs_dispatchInstruction Q s : WInv U s o h (h + 1) (h + 1) n E -> h < n ->
  (forall s' o', WInv U s' o' (h + 1) (h + 1) (h + 1) n E -> o <= o' <= h -> m_critical_path_tail s' = m_critical_path_tail s -> Q tt s') ->
  runs (dispatchInstruction cfg) Q s.
Proof.
  intros H Hn HQ. pose proof (wi_order s H). pose proof (wi_fields s H) as (Eh & Et & Eo & El & Eol & _). pose proof (wc_size cfg Hcfg). pose proof (wc_cutoff cfg Hcfg). pose proof (wi_cp s H) as (_ & _ & Hcb).
  pose proof (wi_rep H) as HR. pose proof (wi_path H) as [Hhd Hp]. pose proof (path_nonneg _ _ _ _ Hp) as Hnn. assert (Hbig : contributions (entries E o (h + 1)) < 2 ^ 64) by nia.
  unfold dispatchInstruction. rstep. rstep. rewrite Eol, Eh, Eo. rstep.
  assert (Hrest : forall s1 o1, WRep cfg s1 o1 h n E -> Counted o1 h E s1 -> o <= o1 <= h -> h - o1 < window_size cfg ->
    m_exec_time_map s1 = m_exec_time_map s -> m_register_dependencies s1 = m_register_dependencies s -> m_memory_dependencies s1 = m_memory_dependencies s ->
    m_critical_path_tail s1 = m_critical_path_tail s -> 0 <= m_critical_path_head s1 -> path cutoff (m_critical_path_head s1) (entries E o1 (h + 1)) (m_critical_path_tail s) ->
    runs (_ ← addFunctionalUnitStats cfg (place cfg h); modify (fun s => with_old_window (m_old_window_head s) (m_old_window_length s + 1)
                     (with_window (incrementIndex cfg (m_window_head s)) (m_window_tail s) (m_window_length s - 1) s))) Q s1).
  { intros s1 o1 HR1 Hc1 Ho1 Hlen Em Erd Emd Etl Hh1 Hp1. rstep. assert (contributions (entries E o1 (h + 1)) < 2 ^ 64).
    { pose proof (contributions_bound _ _ _ _ Hp1) as Hb. rewrite entries_length in Hb by lia. nia. }
    eapply (runs_addStats o1 _ s1 o1); [done|apply (wi_inside s h H); lia|lia|lia|done|by eapply path_nonneg|done|]. intros c x y s' [? ? ?]. rstep.
    apply (HQ _ o1); [|lia|done]. destruct H. split; try done; cbn.
    - unfold WRep. cbn. destruct HR1 as [? ? (-> & ? & ? & ? & ? & ?) ? ? ?]. split; try done; [lia|lia|]. rewrite increment_place by done. split_and!; try done; lia.
    - lia.
    - by rewrite Em.
    - rewrite Erd, Emd. destruct wi_deps0 as (lo & ? & ?). exists lo. split; [lia|done].
    - split; [done|]. rewrite Etl. done.
    - intros k Hk. rewrite Etl. by apply wi_times0. }
  destruct (Z.eqb_spec (h - o) (window_size cfg)) as [Hfull|Hnot].
  - assert (Hin : inside cfg n o) by (apply (wi_inside s o H); lia). rewrite entries_cons in Hp by lia. destruct (path_leave _ _ _ _ _ Hp) as [Hp' Ehd].
    rstep. assert (Hsub : entries E o (h + 1) = entries E o h ++ [E h]) by (apply entries_snoc; lia). rewrite Hsub in Hnn, Hbig. apply Forall_app in Hnn as [Hnn He].
    rewrite contributions_app in Hbig. inversion He; subst. cbn in Hbig.
    eapply (runs_removeStats h); [done|done|lia|lia|split; apply H|done|lia|]. intros c x y s' Hc'.
    rstep. apply (runs_by_index cfg Hcfg o h n E); [exact HR|done|]. rstep. rstep. rstep. cbv beta. eapply (Hrest _ (o + 1)); try done; cbn; [| |lia|lia|lia].
    + unfold WRep. cbn. destruct HR as [? ? (? & ? & -> & ? & ? & ?) ? ? ?]. split; try done; [lia|lia|]. rewrite increment_place by done. split_and!; try done; lia.
    + destruct Hc'. by split.
  - rstep. eapply (Hrest s o); try done; [split; apply H|lia|lia].
Qed.

(** ** A new micro-operation *)

Lemma DepsOk_later cfg' lo lo' rd md : DepsOk cfg' U lo rd md -> lo <= lo' -> DepsOk cfg' U lo' rd md.
Proof.
  intros [Hl Hp (b & Hb & Hs) Hz Hf] Hle. split; try done.
  - intros r lo2 Hr Hlo. apply Hp; [done|lia].
  - exists b. split; [lia|done].
Qed.

Lemma uop_ok_new base d : UopIn (tables cfg) exec_max L base U d -> 0 <= base -> Z.of_nat (length U) < 2 ^ 64 - 1 -> uop_ok (setSequenceNumber (Z.of_nat (length U)) d).
Proof.
  intros Hd Hbase Hmax. pose proof (ui_count _ _ _ _ _ _ Hd) as Hcount. pose proof (ui_intra _ _ _ _ _ _ Hd) as [Hof Hin]. pose proof (ui_base _ _ _ _ _ _ Hd) as Hb.
  assert (HM : Z.of_nat MAXIMUM_NUMBER_OF_DEPENDENCIES = 14) by done. assert (intraInstructionDependencies d <= 6) by (destruct (_ || _); lia).
  split; cbn -[MAXIMUM_NUMBER_OF_DEPENDENCIES]; try lia; rewrite (ui_deps _ _ _ _ _ _ Hd); [by intros ? ?%elem_of_nil|cbn [length]; lia].
Qed.

Lemma Ring_ext w hd tl oh l ol nx a E1 E' : Ring cfg w hd tl oh l ol nx o h a E1 -> (forall k, inside cfg a k -> E' k = E1 k) -> Ring cfg w hd tl oh l ol nx o h a E'.
Proof. intros [Ho Hs Hf Hl He Hi] HE. split; try done. intros k Hk Hk'. rewrite HE by done. auto. Qed.

(** The ring when an entry is written behind the youngest. *)
Lemma Ring_extend w hd tl oh l ol nx e : Ring cfg w hd tl oh l ol nx o h n E -> n - h < window_size cfg -> n + 1 < 2 ^ 62 -> w_index e = place cfg n -> EntryOk n e ->
  Ring cfg (<[Z.to_nat (place cfg n) := e]> w) hd (incrementIndex cfg tl) oh (l + 1) ol (u64 (nx + 1)) o h (n + 1) (<[n := e]> E).
Proof.
  intros [Ho Hs (-> & -> & -> & -> & -> & ->) Hl He Hi] Hw Hn Hix Hok. pose proof (place_range cfg Hcfg n). assert (D = 2 * window_size cfg) by done.
  split; [lia|lia| |by rewrite length_insert| |].
  - rewrite increment_place by done. rewrite wrap_small by lia. split_and!; try done; lia.
  - intros k Hk Hk'. destruct (decide (k = n)) as [->|Hne].
    + rewrite fn_lookup_insert. split; [|done]. apply list_lookup_insert_eq. lia.
    + rewrite fn_lookup_insert_ne by done. pose proof (place_range cfg Hcfg k). rewrite list_lookup_insert_ne; [apply He; lia|]. intros Ep.
      apply Hne. apply (place_inj cfg Hcfg); [apply Z2Nat.inj; lia|lia].
  - intros i e' Hi'. destruct (decide (i = Z.to_nat (place cfg n))) as [->|Hne].
    + rewrite list_lookup_insert_eq in Hi' by lia. injection Hi' as <-. lia.
    + rewrite list_lookup_insert_ne in Hi' by done. by apply Hi.
Qed.

Lemma runs_index_any k Q s : length (m_double_window s) = Z.to_nat D -> (forall i e, m_double_window s !! i = Some e -> w_index e = Z.of_nat i) ->
  (forall e, m_double_window s !! Z.to_nat (place cfg k) = Some e -> w_index e = place cfg k -> Q e s) -> runs (getInstructionByIndex cfg (place cfg k)) Q s.
Proof.
  intros Hl Hi HQ. pose proof (place_range cfg Hcfg k). unfold getInstructionByIndex.
  rewrite (proj2 (Z.leb_le _ _)), (proj2 (Z.ltb_lt _ _)) by lia. cbn [andb]. rstep. rstep. rstep. rstep.
  destruct (lookup_lt_is_Some_2 (m_double_window s) (Z.to_nat (place cfg k))) as [e Ee]; [lia|]. eapply wpe_lift; [by apply aget_ok|].
  apply HQ; [done|]. rewrite (Hi _ _ Ee). lia.
Qed.

Lemma same_uop_input d d' m : same_uop (setSequenceNumber m d) d' -> same_input d d' /\ execLatency d' = execLatency d /\ dCacheHitWhere d' = dCacheHitWhere d /\ sequenceNumber d' = m.
Proof. intros ->. done. Qed.

Lemma runs_add d Q s : WInv U s o h h h n E -> n - h < window_size cfg -> n + 1 < 2 ^ 62 -> UopIn (tables cfg) exec_max L 0 U d -> exec_max <= L ->
  (forall s' E', WInv (U ++ [d]) s' o h h h (n + 1) E' -> m_critical_path_tail s' = m_critical_path_tail s -> (forall k, k < n -> E' k = E k) -> Q tt s') ->
  runs (add cfg d period) Q s.
Proof.
  intros H Hfree Hmax Hd HeL HQ. pose proof (wi_order s H) as (Ho & Hhn & Hs1 & Hs2). pose proof (wi_fields s H) as (Eh & Et & Eo & El & Eol & En). pose proof (wc_size cfg Hcfg).
  pose proof (wi_rep H) as HR. pose proof (wi_entered H) as Elen. assert (D = 2 * window_size cfg) by done.
  pose proof (rg_length _ _ _ _ _ _ _ _ _ _ _ _ HR) as Hlen. pose proof (rg_index _ _ _ _ _ _ _ _ _ _ _ _ HR) as Hix.
  assert (Hok0 : uop_ok (setSequenceNumber n d)) by (rewrite Elen; apply (uop_ok_new 0); [done|lia..]).
  destruct (wi_deps H) as (lo & Hlo & HD). pose proof (DepsOk_later _ lo o _ _ HD ltac:(lia)) as HDo.
  destruct (new_dependencies (tables cfg) exec_max L 0 U o _ _ d Hd ltac:(lia) HDo ltac:(lia) ltac:(lia) ltac:(lia)) as (rd' & md' & d1 & d2 & E1 & E2 & HD' & Hs & Hok2 & _ & _).
  rewrite <- Elen in E1, Hs. unfold add. rstep. rstep. rstep. unfold wIsFull. rewrite El, (proj2 (Z.eqb_neq _ _)) by lia. cbn [negb]. rstep. rewrite Et, En, Eo.
  rstep. apply runs_index_any; [done|done|]. intros e0 He0 Hi0. rstep. rstep. rewrite En, El. rstep. unfold update. rstep. apply runs_index_any; [done|done|].
  intros e0' He0' Hi0'. rstep. set (e1 := WindowEntry_initialize (setSequenceNumber n d) period e0'). set (s1 := with_double_window _ _).
  assert (HR1 : WRep cfg s1 o h (n + 1) (<[n := e1]> E)).
  { pose proof (Ring_extend _ _ _ _ _ _ _ e1 HR ltac:(lia) ltac:(lia) Hi0' ltac:(by split)) as X. rewrite Et, El, En in X. exact X. }
  rstep. apply (runs_seqnr_at cfg Hcfg o h (n + 1) (<[n := e1]> E)); [done|split; lia|]. rstep. eapply wpe_lift; [exact E1|]. cbv iota. rstep. eapply wpe_lift; [exact E2|]. cbv iota. rstep. rstep.
  destruct (same_uop_input d d2 n Hs) as (Hsi & Hl2 & Hdc & Hsq).
  apply (runs_update cfg Hcfg o h (n + 1) (<[n := e1]> E)); [exact HR1|split; lia| |rewrite fn_lookup_insert..|]; [done|by split|].
  rewrite fn_lookup_insert. intros HR2. set (e2 := set_uop d2 e1) in *.
  apply (HQ _ (<[n := e2]> E)); [|done|intros k Hk; apply fn_lookup_insert_ne; lia].
  assert (Ee : forall b, b <= n -> entries (<[n := e2]> E) o b = entries E o b) by (intros b Hb; apply entries_ext; intros j Hj; apply fn_lookup_insert_ne; lia).
  assert (HR3 : WRep cfg (with_double_window (<[Z.to_nat (place cfg n) := e2]> (m_double_window s1)) (with_dependencies rd' md' s1)) o h (n + 1) (<[n := e2]> E)).
  { eapply Ring_ext; [exact HR2|]. intros k _. destruct (decide (k = n)) as [->|]; [by rewrite !fn_lookup_insert|by rewrite !fn_lookup_insert_ne by done]. }
  destruct H. split; try done; rewrite ?Ee by lia; try done.
  - rewrite length_app. cbn. lia.
  - intros k Hk. destruct (decide (k = n)) as [->|Hne]; [rewrite fn_lookup_insert|rewrite fn_lookup_insert_ne by done; apply wi_fine0; destruct Hk; split; lia].
    split; try done. pose proof (ui_exec _ _ _ _ _ _ Hd). pose proof (ui_hits _ _ _ _ _ _ Hd) as (? & ? & ?). destruct Hsi as (? & ? & ? & ? & ? & Ei & El').
    split; cbn; rewrite ?Hl2; [lia|lia|]. unfold hits_ok. by rewrite Hdc, Ei, El'.
  - intros k d' Hk Hd'. destruct (decide (k = n)) as [->|Hne].
    + rewrite fn_lookup_insert. rewrite Elen, Nat2Z.id, list_lookup_middle in Hd' by done. by injection Hd' as <-.
    + rewrite fn_lookup_insert_ne by done. destruct Hk. rewrite lookup_app_l in Hd' by lia. apply wi_uops0; [split; lia|done].
  - exists o. split; [lia|done].
  - intros k Hk. destruct (decide (k = n)) as [->|]; [by rewrite fn_lookup_insert|]. rewrite fn_lookup_insert_ne by done. apply wi_new0. lia.
  - intros k Hk. destruct (decide (k = n)) as [->|]; [rewrite fn_lookup_insert; cbn|rewrite fn_lookup_insert_ne by done; apply wi_times0; lia].
    destruct wi_path0 as [? Hp]. pose proof (path_total _ _ _ _ Hp). pose proof (contributions_bound _ _ _ _ Hp). lia.
Qed.

(** ** The effective length of the critical path *)

Lemma critical_path_length_ok s g f : WInv U s o h g f n E -> getCriticalPathLength s = m_critical_path_tail s - m_critical_path_head s /\ 0 <= getCriticalPathLength s < 2 ^ 24.
Proof.
  intros H. pose proof (wi_cp s H) as (Hc & Hd & Hb). pose proof (wi_order s H). pose proof (wi_phase H). pose proof (wc_size cfg Hcfg). pose proof (wc_cutoff cfg Hcfg).
  assert (Hlt : 0 <= m_critical_path_tail s - m_critical_path_head s < 2 ^ 24) by nia.
  unfold getCriticalPathLength. rewrite (proj2 (Z.leb_le _ _)) by lia. rewrite s32_small by lia. done.
Qed.

(** It is at most the length of the critical path and the number of micro-operations in the old window. *)
Lemma runs_effective g f cp u Q s : WInv U s o h g f n E -> 0 <= cp < 2 ^ 24 ->
  (forall r c, cp <= r <= Z.max cp (h - o) -> (do_functional_unit_contention cfg = true -> o < h -> 1 <= r) -> (do_functional_unit_contention cfg = false -> r = cp) ->
     WInv U (with_contention c s) o h g f n E -> Q r (with_contention c s)) ->
  runs (getEffectiveCriticalPathLength cfg cp u) Q s.
Proof.
  intros H Hcp HQ. pose proof (wi_order s H). pose proof (wc_size cfg Hcfg). unfold getEffectiveCriticalPathLength. destruct (do_functional_unit_contention cfg) eqn:Ef; cbn [negb].
  - destruct (ic_effective_ok (the_uop <$> entries E o h) cp u (m_interval_contention s)) as (r & c & Ec & Hc & Hr & Hne); [apply (wi_holds H)|lia|rewrite length_fmap, entries_length; lia|].
    rewrite length_fmap, entries_length in Hr by lia. rstep. rstep. rstep. eapply wpe_lift; [exact Ec|]. cbv iota. rstep. rstep. rstep. apply HQ; [done| |done|].
    + intros _ Hlt. apply Hne. rewrite entries_cons by lia. done.
    + destruct H. split; try done.
  - rstep. assert (Es : s = with_contention (m_interval_contention s) s) by (by destruct s). rewrite Es. apply HQ; [lia|done|done|by rewrite <- Es].
Qed.
End operations.

(** ** The initial state *)

Section initial.
Context (cfg : WindowsCfg) (period exec_max L : Z) (Hcfg : WCfgOk cfg).
Context {C : Type} `{!IntervalContention C} `{!IntervalContentionOk C}.

Lemma Windows_new_ok (c : C) l E : ic_holds l c ->
  exists s, Windows_new cfg c = Ok s /\ WInv cfg period exec_max L [] s 0 0 0 0 0 E /\ m_critical_path_tail s = 0.
Proof.
  intros Hl. destruct (ic_clear_ok l c Hl) as (c1 & E1 & H1). destruct (ic_clear_ok [] c1 H1) as (c2 & E2 & H2). pose proof (D_pos cfg Hcfg).
  unfold Windows_new, clear, clearFunctionalUnitStats, gets, modify, lift_res, mbind, st_bind, res_bind. cbn [m_interval_contention with_exec_time_map with_next_sequence_number with_dependencies with_window with_old_window with_critical_path].
  rewrite E1. cbn [m_interval_contention with_contention with_cpcontr]. rewrite E2. eexists. split; [reflexivity|]. split; [|done].
  split; cbn; try done.
  - split; cbn; try done; try lia; [pose proof (wc_size cfg Hcfg); lia| |].
    + rewrite length_fmap, length_seqZ. done.
    + intros i e He. apply list_lookup_fmap_Some in He as (k & -> & Hk). apply lookup_seqZ in Hk as [-> _]. cbn. lia.
  - intros k Hk. unfold inside in Hk. lia.
  - exists 0. split; [done|]. apply (DepsOk_new (tables cfg)).
  - intros k Hk. lia.
  - intros k Hk. lia.
Qed.
End initial.
