(* ===== verification/IntervalInv.v ===== *)
(** * The invariant of the interval model

    On top of the invariant of the windows: all times of the model are at most [T], and the CPI stack accounts for [c]
    cycles.  [tr] is what has been traced and [bw] the dispatch bandwidth that remains from the previous cycle. *)

From stdpp Require Import sets functions.
From S2P Require Import Prelude StateMonad SubsecondTime ContentionModel CircularQueue MicroOp MicroOpFacts CoreModelNehalem RobTimer RobInvariant RobAccess RobState RobDeps RobExecute IntervalContention Windows IntervalTimer WindowsFacts WindowsBranch WindowsInv.
#[local] Open Scope Z_scope.

(** A memory says where it found the data. *)
Class CoreMemoryKnown (Mem : Type) `{!CoreMemory Mem} `{!CoreMemoryOk Mem} : Prop :=
  access_known : forall w a sz ip t m lat h m', mem_ok m -> accessMemory w a sz ip t m = Ok (lat, h, m') -> h <> HitWhere_UNKNOWN.

(** The latencies of micro-operations are at most [exec_max] before and [L] after the access to memory. *)
Record TCfgOk (cfg : IntervalCfg) (period exec_max L mem_max : Z) : Prop := {
  tc_windows : WCfgOk (it_windows cfg);
  tc_width : 1 <= m_dispatch_width cfg < 2 ^ 31;
  tc_penalty : 0 <= m_branch_misprediction_penalty cfg;
  tc_period : 1 <= period < 2 ^ 40;
  tc_latency : 0 <= exec_max /\ (exec_max + 2) * period + mem_max <= L * period;
  tc_resolution : m_branch_misprediction_penalty cfg + window_size (it_windows cfg) * L < 2 ^ 31
}.

(** ** The CPI stack *)

Definition interval_cpi_sum (k : IntervalCpi) : Z :=
  ic_cpiBase k + ic_cpiBranchPredictor k + ic_cpiSerialization k + ic_cpiLongLatency k + total (ic_cpiInstructionCache k) + total (ic_cpiDataCache k).
Definition interval_cpi_lengths (k : IntervalCpi) : Prop := length (ic_cpiInstructionCache k) = NUM_HITWHERES /\ length (ic_cpiDataCache k) = NUM_HITWHERES.
Definition interval_component_ok (c : interval_component) : Prop :=
  match c with IcInstructionCache h | IcDataCache h => HitWhereIsValid h = true | _ => True end.

Lemma valid_index h : HitWhereIsValid h = true -> (Z.to_nat h < NUM_HITWHERES)%nat.
Proof. unfold HitWhereIsValid, NUM_HITWHERES. rewrite orb_true_iff, !andb_true_iff, !Z.leb_le. lia. Qed.

Lemma u64_split z : exists q, u64 z = z + q * 2 ^ 64.
Proof. exists (- (z / 2 ^ 64)). unfold wrap. pose proof (Z.div_mod z (2 ^ 64)). lia. Qed.
Lemma u64_shift z z' q : z' = z + q * 2 ^ 64 -> u64 z' = u64 z.
Proof. intros ->. apply Z_mod_plus_full. Qed.

Lemma interval_cpi_add_ok c t k : interval_component_ok c -> interval_cpi_lengths k ->
  exists k', interval_cpi_add c t k = Ok k' /\ interval_cpi_lengths k' /\ u64 (interval_cpi_sum k') = u64 (interval_cpi_sum k + t).
Proof.
  intros Hc [H1 H2]. unfold interval_cpi_sum. destruct c as [| | | |h|h]; cbn [interval_cpi_add interval_component_ok] in *; unfold st_add.
  - eexists. split; [reflexivity|]. split; [done|]. cbn -[total]. destruct (u64_split (ic_cpiBase k + t)) as [q ->]. apply (u64_shift _ _ q). lia.
  - eexists. split; [reflexivity|]. split; [done|]. cbn -[total]. destruct (u64_split (ic_cpiBranchPredictor k + t)) as [q ->]. apply (u64_shift _ _ q). lia.
  - eexists. split; [reflexivity|]. split; [done|]. cbn -[total]. destruct (u64_split (ic_cpiSerialization k + t)) as [q ->]. apply (u64_shift _ _ q). lia.
  - eexists. split; [reflexivity|]. split; [done|]. cbn -[total]. destruct (u64_split (ic_cpiLongLatency k + t)) as [q ->]. apply (u64_shift _ _ q). lia.
  - destruct (lookup_lt_is_Some_2 (ic_cpiInstructionCache k) (Z.to_nat h)) as [v Hv]; [rewrite H1; by apply valid_index|]. unfold aget. rewrite Hv. cbn [mbind res_bind].
    eexists. split; [reflexivity|]. split; [split; cbn; [by rewrite length_insert|done]|]. cbn -[total]. rewrite (total_replace _ _ _ _ Hv).
    destruct (u64_split (v + t)) as [q ->]. apply (u64_shift _ _ q). lia.
  - destruct (lookup_lt_is_Some_2 (ic_cpiDataCache k) (Z.to_nat h)) as [v Hv]; [rewrite H2; by apply valid_index|]. unfold aget. rewrite Hv. cbn [mbind res_bind].
    eexists. split; [reflexivity|]. split; [split; cbn; [done|by rewrite length_insert]|]. cbn -[total]. rewrite (total_replace _ _ _ _ Hv).
    destruct (u64_split (v + t)) as [q ->]. apply (u64_shift _ _ q). lia.
Qed.

Section invariant.
Context (cfg : IntervalCfg) (period exec_max L : Z).
Context {C Mem : Type} `{!IntervalContention C} `{!IntervalContentionOk C} `{!CoreMemory Mem} `{!CoreMemoryOk Mem} `{!CoreMemoryKnown Mem}.
Abbreviation wcfg := (it_windows cfg).
Abbreviation place := (WindowsFacts.place wcfg).
Abbreviation WInv := (WindowsInv.WInv wcfg period exec_max L).
Implicit Types (s : IntervalTimer C Mem) (E : Z -> WindowEntry) (U tr : list DynamicMicroOp).

Definition ContentionOk (T : Z) (k : ContentionModel) : Prop :=
  m_proc_period k = Some 0%nat /\ length (m_time k) = m_num_outstanding k /\ Forall (fun u => 0 <= u.1 <= T * period) (m_time k).
Definition StatsOk (t : IntervalStats) : Prop :=
  length (is_uop_type_count (is_uops t)) = UOP_SUBTYPE_SIZE /\ length (m_cpiBaseStopDispatch (is_dispatch t)) = STOP_DISPATCH_SIZE /\
  length (m_cpContrByType (is_dispatch t)) = CPCONTR_TYPE_SIZE.

(** The parts other than the windows. *)
Record TRest tr (bw T c : Z) s : Prop := {
  tr_store : 0 <= m_max_store_completion_time s <= T;
  tr_load : 0 <= m_max_load_completion_time s <= T;
  tr_contention : ContentionOk T (m_loadstore_contention s);
  tr_memory : mem_ok (it_memory s);
  tr_stats : StatsOk (it_stats s);
  tr_cpi : interval_cpi_lengths (it_cpi s) /\ u64 (interval_cpi_sum (it_cpi s)) = u64 (period * c);
  tr_trace : it_trace s = tr;
  tr_bandwidth : m_remaining_dispatch_bandwidth s = bw
}.
Record TInv tr (bw : Z) U s (o h g f n : Z) E (T c : Z) : Prop := {
  ti_windows : WInv U (m_windows s) o h g f n E;
  ti_tail : m_critical_path_tail (m_windows s) <= T;
  ti_rest : TRest tr bw T c s
}.

Context (Hcfg : TCfgOk cfg period exec_max L mem_max).
Abbreviation Hw := (tc_windows _ _ _ _ _ Hcfg).

Lemma TRest_later tr bw T T' c s : TRest tr bw T c s -> T <= T' -> TRest tr bw T' c s.
Proof.
  intros [] HT. pose proof (tc_period _ _ _ _ _ Hcfg). split; try done; [lia|lia|]. destruct tr_contention0 as (? & ? & Hf). split_and!; try done.
  eapply Forall_impl; [exact Hf|]. cbn. intros u Hu. nia.
Qed.

Lemma TRest_same tr bw T c c' s : TRest tr bw T c s -> u64 c = u64 c' -> TRest tr bw T c' s.
Proof.
  intros [] Hc. split; try done. split; [apply tr_cpi0|]. rewrite (proj2 tr_cpi0). unfold wrap in *. by rewrite Z.mul_mod, Hc, <- Z.mul_mod by lia.
Qed.

(** ** Operations on the windows *)

Lemma runs_windows {A} (m : ST (Windows C) A) Q s : runs m (fun a w => Q a (it_with_windows w s)) (m_windows s) -> runs (windows m) Q s.
Proof. unfold windows, zoom, wpe. destruct (m (m_windows s)) as [[a w]|e]; done. Qed.

Lemma with_same_windows s : it_with_windows (m_windows s) s = s.
Proof. by destruct s. Qed.

Lemma runs_read {A} (m : ST (Windows C) A) Q s : runs m (fun a w => w = m_windows s /\ Q a s) (m_windows s) -> runs (windows m) Q s.
Proof.
  intros H. apply runs_windows. eapply wpe_mono; [exact H|done|]. intros a w [-> HQ]. by rewrite with_same_windows.
Qed.

Section reads.
Context (tr : list DynamicMicroOp) (bw : Z) (U : list DynamicMicroOp) (o h g f n : Z) (E : Z -> WindowEntry) (T c : Z).
Abbreviation Inv s := (TInv tr bw U s o h g f n E T c).

Lemma ti_inside s k : Inv s -> o <= k < n -> inside wcfg n k.
Proof. intros H Hk. exact (wi_inside (m_windows s) k (ti_windows _ _ _ _ _ _ _ _ _ _ _ _ H) Hk). Qed.

Lemma runs_entry_at k Q s : Inv s -> o <= k < n -> Q (E k) s -> runs (windows (getInstructionByIndex wcfg (place k))) Q s.
Proof.
  intros H Hk HQ. apply runs_read. eapply (runs_by_index wcfg Hw o h n E); [exact (wi_rep (ti_windows _ _ _ _ _ _ _ _ _ _ _ _ H))|by eapply ti_inside|done].
Qed.

Lemma runs_the_uop_at k Q s : Inv s -> o <= k < n -> Q (the_uop (E k)) s -> runs (windows (uop_at wcfg (place k))) Q s.
Proof.
  intros H Hk HQ. apply runs_read. eapply (runs_uop_at wcfg Hw o h n E); [exact (wi_rep (ti_windows _ _ _ _ _ _ _ _ _ _ _ _ H))|by eapply ti_inside|done].
Qed.

Lemma ti_entry s k : Inv s -> o <= k < n -> EntryOk k (E k) /\ Fine period exec_max L (E k).
Proof.
  intros H Hk. pose proof (ti_inside s k H Hk) as Hin. pose proof (ti_windows _ _ _ _ _ _ _ _ _ _ _ _ H) as HW.
  split; [exact (ent_ok wcfg o h n E _ k (wi_rep HW) Hin)|exact (wi_fine HW k Hin)].
Qed.

(** A charge to the CPI stack. *)
Lemma runs_charge k comp cycles Q s : Inv s -> o <= k < n -> interval_component_ok comp ->
  (forall s', m_windows s' = m_windows s -> TInv tr bw U s' o h g f n E T (c + cycles) -> Q tt s') -> runs (charge cfg (place k) comp cycles) Q s.
Proof.
  intros H Hk Hcomp HQ. pose proof (tc_period _ _ _ _ _ Hcfg). destruct (ti_entry s k H Hk) as [_ [_ Hp _ _ _]]. unfold charge. rstep. apply runs_entry_at; [done..|]. rstep.
  eapply wpe_lift; [unfold getPeriod; rewrite Hp, (proj2 (Z.eqb_neq _ _)) by lia; reflexivity|]. rstep. rstep. destruct H as [HW Ht Hr]. destruct (tr_cpi _ _ _ _ _ Hr) as [Hl Hs].
  destruct (interval_cpi_add_ok comp (st_mul cycles period) (it_cpi s) Hcomp Hl) as (k' & Ek & Hl' & Hs'). rstep. eapply wpe_lift; [exact Ek|]. rstep. apply HQ; [done|].
  split; [done|done|]. destruct Hr. split; try done. split; [done|]. cbn. rewrite Hs'. unfold st_mul. rewrite wrap_add_r by lia.
  rewrite <- wrap_add_l, Hs, wrap_add_l by lia. f_equal. lia.
Qed.
End reads.
End invariant.
Arguments ti_windows {cfg period exec_max L C Mem _ _ _ _ tr bw U s o h g f n E T c} _.
Arguments ti_tail {cfg period exec_max L C Mem _ _ _ _ tr bw U s o h g f n E T c} _.
Arguments ti_rest {cfg period exec_max L C Mem _ _ _ _ tr bw U s o h g f n E T c} _.

(** ** Memory *)

Section memory.
Context (cfg : IntervalCfg) (period exec_max L : Z).
Context {C Mem : Type} `{!IntervalContention C} `{!IntervalContentionOk C} `{!CoreMemory Mem} `{!CoreMemoryOk Mem} `{!CoreMemoryKnown Mem}.
Abbreviation wcfg := (it_windows cfg).
Abbreviation place := (WindowsFacts.place wcfg).
Abbreviation TInv := (IntervalInv.TInv cfg period exec_max L).
Implicit Types (s : IntervalTimer C Mem) (E : Z -> WindowEntry).
Context (Hcfg : TCfgOk cfg period exec_max L mem_max).
Abbreviation Hw := (tc_windows _ _ _ _ _ Hcfg).
Context (tr : list DynamicMicroOp) (bw : Z) (U : list DynamicMicroOp) (o h g f n : Z) (E : Z -> WindowEntry) (T c : Z).
Abbreviation Inv s := (TInv tr bw U s o h g f n E T c).

Lemma L_range : 0 <= L < 2 ^ 31 /\ exec_max <= L.
Proof. destruct Hcfg. pose proof mem_max_range. pose proof (wc_size _ tc_windows0). split; nia. Qed.

Lemma access_cycles lat : 0 <= lat <= mem_max -> exists x, divideRounded lat period = Ok x /\ 0 <= x /\ exec_max + x <= L.
Proof.
  intros Hl. destruct Hcfg as [_ _ _ Hp [He Hs] _]. pose proof mem_max_range. unfold divideRounded. rewrite (proj2 (Z.eqb_neq _ _)) by lia. eexists. split; [reflexivity|].
  pose proof (Z.div_pos period 2 ltac:(lia) ltac:(lia)). pose proof (Z.div_le_upper_bound period 2 period ltac:(lia) ltac:(lia)). rewrite wrap_small by lia. split; [apply Z.div_pos; lia|].
  enough ((lat + (period / 2 + 1)) / period <= L - exec_max) by lia. apply Z.div_le_upper_bound; [lia|]. nia.
Qed.

Lemma same_entry e k : EntryOk k e -> set_uop (the_uop e) e = e.
Proof. intros [Hu _ _]. destruct e. unfold set_uop, the_uop in *. cbn in *. by rewrite Hu. Qed.

(** The entry [k] has another micro-operation of the same input. *)
Definition reissued k (E E' : Z -> WindowEntry) : Prop := (forall j, j <> k -> E' j = E j) /\ exists d, E' k = set_uop d (E k).

Lemma runs_issueMemOp k Q s : Inv s -> g <= k < n ->
  (forall s' E', TInv tr bw U s' o h g f n E' T c -> m_critical_path_head (m_windows s') = m_critical_path_head (m_windows s) ->
     m_critical_path_tail (m_windows s') = m_critical_path_tail (m_windows s) -> reissued k E E' -> Q tt s') ->
  runs (issueMemOp cfg period (place k)) Q s.
Proof.
  intros H Hk HQ. pose proof (ti_windows H) as HW. pose proof (wi_order _ HW). pose proof (wi_phase HW). assert (Hok : o <= k < n) by lia.
  destruct (ti_entry cfg period exec_max L _ _ _ _ _ _ _ _ _ _ _ s k H Hok) as [He Hf]. unfold issueMemOp. rstep. apply (runs_the_uop_at cfg period exec_max L Hcfg _ _ _ _ _ _ _ _ _ _ _ _ _ _ H Hok).
  destruct ((isLoad _ || _) && _) eqn:Ecase; cycle 1.
  { rstep. apply (HQ s E); try done. split; [done|]. exists (the_uop (E k)). by rewrite (same_entry _ k). }
  apply andb_true_iff in Ecase as [_ Eu%Z.eqb_eq]. pose proof (ti_rest H) as Hr. rstep. rstep. set (d := the_uop (E k)) in *.
  destruct (accessMemory_ok (negb (isLoad (m_uop d))) (d_address d) (memoryAccessSize (m_uop d)) (default 0 (uo_instruction (m_uop d))) MaxTime (it_memory s) (tr_memory _ _ _ _ _ _ Hr))
    as (lat & w & m' & Em & Hm' & Hlat & Hv). pose proof (access_known _ _ _ _ _ _ _ _ _ (tr_memory _ _ _ _ _ _ Hr) Em) as Hkn.
  rstep. eapply wpe_lift; [exact Em|]. cbv iota. destruct (access_cycles lat Hlat) as (x & Ex & Hx & HxL). rstep. eapply wpe_lift; [exact Ex|]. rstep. rstep.
  pose proof L_range as [HL _]. destruct Hf as [[Hu1 Hu2 (Hh1 & Hh2 & Hh3)] Hf2 Hf3 Hf4 Hf5]. fold d in Hu1, Hu2, Hh1, Hh2, Hh3. specialize (Hu2 Eu). apply runs_windows. cbn [it_with_memory m_windows].
  set (d' := MicroOp.with_memory _ _ _ d). assert (El : execLatency d' = execLatency d + x) by (unfold d', MicroOp.with_memory; cbn; apply wrap_small; lia). destruct He as [He1 He2 He3].
  apply (runs_winv_update wcfg period exec_max L Hw U o h g f n E); try done.
  - split; cbn; try done. unfold the_uop. cbn. fold d. destruct He3. by split.
  - split; try done. unfold the_uop. cbn. split; [rewrite El; lia|by cbn|done].
  - by apply (wi_new HW); lia.
  - intros. apply (wi_times HW). lia.
  - intros w' HW'. apply (HQ _ (<[k := set_uop d' (E k)]> E)); try done.
    + split; [exact HW'|apply H|]. destruct Hr. by split.
    + split; [intros j Hj; by rewrite fn_lookup_insert_ne|]. exists d'. by rewrite fn_lookup_insert.
Qed.

(** ** Outstanding loads and stores *)

Lemma foldl_latest (l : list (Z * Z)) t B : t <= B -> Forall (fun u => 0 <= u.1 <= B) l ->
  t <= foldl (fun m u => if st_gtb u.1 m then u.1 else m) t l <= B.
Proof.
  unfold st_gtb, st_ltb. revert t. induction l as [|u l IH]; intros t Ht Hf; cbn [foldl]; [lia|]. inversion Hf; subst. destruct (Z.ltb_spec t u.1).
  - pose proof (IH u.1 ltac:(lia) ltac:(done)). lia.
  - by apply IH.
Qed.

Lemma getCompletionTime_bound k t d tag B : length (m_time k) = m_num_outstanding k -> Forall (fun u => 0 <= u.1 <= B) (m_time k) -> 0 <= t <= B -> 0 <= d -> B + d < 2 ^ 64 ->
  exists r k', getCompletionTime k t d tag = Ok (r, k') /\ t <= r <= B + d /\ m_proc_period k' = m_proc_period k /\ length (m_time k') = m_num_outstanding k' /\
    Forall (fun u => 0 <= u.1 <= B + d) (m_time k').
Proof.
  intros Hlen Hf Ht Hd HB. assert (Hf' : Forall (fun u : Z * Z => 0 <= u.1 <= B + d) (m_time k)) by (eapply Forall_impl; [exact Hf|]; cbn; lia).
  assert (Hadd : forall x, 0 <= x <= B -> st_add x d = x + d) by (intros x Hx; unfold st_add; apply wrap_small; lia).
  unfold getCompletionTime. destruct (Nat.eqb_spec (m_num_outstanding k) 0) as [|Hn].
  { rewrite Hadd by lia. eexists _, k. split; [reflexivity|]. split_and!; try done; lia. }
  unfold st_eqb. destruct (Z.eqb_spec t 0) as [->|].
  { eexists _, _. split; [reflexivity|]. split_and!; try done; lia. }
  destruct (st_ltb t (m_t_last k)).
  { rewrite Hadd by lia. eexists _, _. split; [reflexivity|]. split_and!; try done; lia. }
  destruct (find_unit_spec (m_time k) t (m_num_outstanding k) 0 0) as (u & v & Ef & Hu & Hv).
  { by rewrite Hlen. }
  { destruct (aget_lt (m_time k) 0) as (v & _ & Hv); [lia|]. exists v. split; [done|]. lia. }
  pose proof (proj1 (Forall_lookup _ _) Hf u v Hu) as Hvb. cbn in Hvb.
  rewrite Ef. cbn [mbind res_bind]. rewrite (proj2 (aget_ok _ _ _) Hu). cbn [mbind res_bind]. rewrite aset_lt by (by eapply lookup_lt_Some). cbn [mbind res_bind].
  assert (Hb : 0 <= (if st_ltb t v.1 then v.1 else t) <= B /\ t <= (if st_ltb t v.1 then v.1 else t)) by (unfold st_ltb; zcase; lia).
  rewrite Hadd by lia. eexists _, _. split; [reflexivity|]. split_and!; try done; try lia.
  - cbn. by rewrite length_insert.
  - cbn. apply Forall_insert; [done|]. cbn. lia.
Qed.

Lemma completion_ok (barrier : bool) k t lat : ContentionOk period T k -> 0 <= T -> 0 <= t -> 0 <= lat -> (Z.max T t + lat) * period < 2 ^ 64 ->
  exists r k', (if barrier then getBarrierCompletionTime_cycles (fun _ => period) k t lat 0 else getCompletionTime_cycles (fun _ => period) k t lat 0) = Ok (r, k') /\
    t <= r <= Z.max T t + lat /\ ContentionOk period (Z.max T t + lat) k'.
Proof.
  intros (Hp & Hl & Hf) HT Ht Hlat Hmax. pose proof (tc_period _ _ _ _ _ Hcfg) as Hper. set (B := Z.max T t * period).
  assert (Hf' : Forall (fun u : Z * Z => 0 <= u.1 <= B) (m_time k)) by (eapply Forall_impl; [exact Hf|]; cbn; nia).
  assert (HtB : 0 <= period * t <= B) by nia. assert (HdB : 0 <= period * lat) by nia. assert (HB : B + period * lat < 2 ^ 64) by nia.
  assert (Hdiv : forall r, period * t <= r <= B + period * lat -> t <= r / period <= Z.max T t + lat).
  { intros r Hr. split; [apply Z.div_le_lower_bound; lia|]. apply Z.div_le_upper_bound; [lia|]. nia. }
  unfold getBarrierCompletionTime_cycles, getCompletionTime_cycles, with_period, cyclesToSubsecondTime, subsecondTimeToCycles, st_mul. rewrite Hp, !wrap_small by lia.
  unfold st_div. rewrite (proj2 (Z.eqb_neq period 0)) by lia. destruct barrier.
  - unfold getBarrierCompletionTime. destruct (Nat.eqb_spec (m_num_outstanding k) 0) as [E0|Hn]; cbn [mbind res_bind].
    + unfold st_add. rewrite wrap_small by lia. eexists _, k. split; [reflexivity|]. split; [apply Hdiv; lia|]. split_and!; [done..|]. eapply Forall_impl; [exact Hf'|]. cbn. nia.
    + pose proof (foldl_latest (m_time k) (period * t) B ltac:(lia) Hf') as Hm. set (mt := foldl _ _ _) in *. unfold st_add at 1 2. rewrite wrap_small by lia.
      eexists _, _. split; [reflexivity|]. split; [apply Hdiv; lia|]. split_and!; cbn; [done|by rewrite length_fmap|]. apply Forall_fmap, Forall_true. intros u. cbn. nia.
  - destruct (getCompletionTime_bound k (period * t) (period * lat) 0 B Hl Hf' HtB HdB HB) as (r & k' & Er & Hr & Hp' & Hl' & Hf2). rewrite Er. cbn [mbind res_bind].
    eexists _, _. split; [reflexivity|]. split; [by apply Hdiv|]. split_and!; [by rewrite Hp'|done|]. eapply Forall_impl; [exact Hf2|]. cbn. nia.
Qed.

Lemma runs_loadstore_completion b t lat T' Q s : Inv s -> 0 <= t -> 0 <= lat -> Z.max T t + lat <= T' -> T' * period < 2 ^ 64 ->
  (forall r s', m_windows s' = m_windows s -> t <= r <= Z.max T t + lat -> TInv tr bw U s' o h g f n E T' c -> Q r s') -> runs (loadstore_completion period b t lat) Q s.
Proof.
  intros H Ht Hl HT' Hmax HQ. pose proof (tc_period _ _ _ _ _ Hcfg). pose proof (ti_rest H) as Hr. assert (HT : 0 <= T) by (pose proof (tr_store _ _ _ _ _ _ Hr); lia).
  destruct (completion_ok b (m_loadstore_contention s) t lat (tr_contention _ _ _ _ _ _ Hr) HT Ht Hl ltac:(nia)) as (r & k' & Er & Hrr & Hk').
  unfold loadstore_completion. rstep. rstep. rstep. eapply wpe_lift; [exact Er|]. cbv iota. rstep. rstep. rstep. apply HQ; [done|done|].
  split; [apply H|cbn; pose proof (ti_tail H); lia|]. apply (TRest_later cfg period exec_max L Hcfg _ _ (Z.max T t + lat)); [|lia].
  pose proof (TRest_later cfg period exec_max L Hcfg _ _ _ (Z.max T t + lat) _ _ Hr ltac:(lia)) as []. by split.
Qed.

(** ** Producers *)

Lemma runs_max_producer l : T < 2 ^ 62 -> forall pre i0 mp Q s, Inv s -> h < n -> udeps (the_uop (E h)) = pre ++ l -> 0 <= mp ->
  (forall r, mp <= r <= Z.max mp (m_critical_path_tail (m_windows s)) -> Q r s) ->
  runs (max_producer cfg (length l) (Z.of_nat (length pre)) (the_uop (E h)) i0 0 mp) Q s.
Proof.
  intros HT. induction l as [|y l IH]; intros pre i0 mp Q s H Hn Eq Hmp HQ; cbn [max_producer length]; [rstep; apply HQ; lia|].
  pose proof (ti_windows H) as HW. pose proof (wi_order _ HW). pose proof (wi_phase HW). assert (Hoh : o <= h < n) by lia.
  destruct (ti_entry cfg period exec_max L _ _ _ _ _ _ _ _ _ _ _ s h H Hoh) as [He _].
  assert (Hy : 0 <= y < h) by (rewrite <- (en_seq h _ He); apply udeps_bound; [apply (en_ok h _ He)|]; rewrite Eq; apply elem_of_app; right; left).
  rstep. eapply wpe_lift; [apply getDependency_udeps; [apply (en_ok h _ He)|]; rewrite Eq; by rewrite list_lookup_middle|].
  rstep. apply runs_read. eapply (runs_old_contains wcfg Hw o h n E); [exact (wi_rep HW)|lia|lia|]. split; [done|]. rstep.
  assert (Hrest : forall t, mp <= t <= Z.max mp (m_critical_path_tail (m_windows s)) -> runs (max_producer cfg (length l) (Z.of_nat (length pre) + 1) (the_uop (E h)) i0 0 t) Q s).
  { intros t Ht. replace (Z.of_nat (length pre) + 1) with (Z.of_nat (length (pre ++ [y]))) by (rewrite length_app; cbn; lia).
    apply IH; try done; [by rewrite <- app_assoc|lia|]. intros r Hr. apply HQ. lia. }
  destruct ((o <=? y) && (y <? h)) eqn:Eo; [|rstep; apply Hrest; lia]. apply andb_true_iff in Eo as [Eo1%Z.leb_le Eo2%Z.ltb_lt].
  rstep. apply runs_read. eapply (runs_getInstruction wcfg Hw o h n E); [exact (wi_rep HW)|lia|exact (wi_inside _ y HW ltac:(lia))|]. split; [done|].
  rstep. eapply (runs_entry_at cfg period exec_max L Hcfg); [exact H|lia|]. destruct (ti_entry cfg period exec_max L _ _ _ _ _ _ _ _ _ _ _ s y H ltac:(lia)) as [Hey Hfy].
  rstep. eapply wpe_lift; [by apply (getDynMicroOp_ok y)|]. rstep. apply Hrest. pose proof (wi_old_exec _ y HW ltac:(lia)). pose proof (fi_exec _ _ _ _ Hfy).
  assert (Hs64 : s64 (execTime (E y)) = execTime (E y)). { apply swrap_small; [lia|]. pose proof (ti_tail H). lia. }
  rewrite Hs64. zcase; lia.
Qed.

Lemma runs_getMaxProducerExecTime Q s : T < 2 ^ 62 -> Inv s -> h < n -> (forall r, 0 <= r <= m_critical_path_tail (m_windows s) -> Q r s) ->
  runs (getMaxProducerExecTime cfg (place h)) Q s.
Proof.
  intros HT H Hn HQ. pose proof (ti_windows H) as HW. pose proof (wi_order _ HW). pose proof (wi_phase HW). pose proof (wi_fields _ HW) as (_ & _ & Eo & _). pose proof (wi_cp _ HW) as (Hcp & _).
  destruct (ti_entry cfg period exec_max L _ _ _ _ _ _ _ _ _ _ _ s o H ltac:(lia)) as [Heo Hfo]. destruct (ti_entry cfg period exec_max L _ _ _ _ _ _ _ _ _ _ _ s h H ltac:(lia)) as [Heh Hfh].
  unfold getMaxProducerExecTime. rstep. apply runs_read. unfold getOldestInstruction. rstep. split; [done|]. rewrite Eo. rstep. eapply (runs_entry_at cfg period exec_max L Hcfg); [exact H|lia|].
  rstep. eapply wpe_lift; [by apply (getDynMicroOp_ok o)|]. rstep. eapply (runs_entry_at cfg period exec_max L Hcfg); [exact H|lia|]. rstep. eapply wpe_lift; [by apply (getDynMicroOp_ok h)|].
  rstep. rewrite (fi_fetch _ _ _ _ Hfo), (fi_fetch _ _ _ _ Hfh), length_udeps, Nat2Z.id by apply (en_ok h _ Heh). replace (s64 0 - s64 0) with 0 by done.
  apply (runs_max_producer (udeps (the_uop (E h))) HT []); try done. intros r Hr. rstep. rewrite wrap_small; [apply HQ; lia|]. pose proof (ti_tail H). lia.
Qed.
End memory.
