(* ===== verification/IntervalSteps.v ===== *)
(** * Dispatch of a micro-operation in the interval model

    Every case of [dispatchInstruction] keeps the invariant, succeeds, and returns the latency by which the CPI stack has
    grown. *)

From stdpp Require Import sets functions.
From S2P Require Import Prelude StateMonad SubsecondTime ContentionModel CircularQueue MicroOp MicroOpFacts CoreModelNehalem RobTimer RobInvariant RobAccess RobState RobDeps RobExecute IntervalContention Windows IntervalTimer WindowsFacts WindowsBranch WindowsInv IntervalInv.
#[local] Open Scope Z_scope.

Section steps.
Context (cfg : IntervalCfg) (period exec_max L : Z).
Context {C Mem : Type} `{!IntervalContention C} `{!IntervalContentionOk C} `{!CoreMemory Mem} `{!CoreMemoryOk Mem} `{!CoreMemoryKnown Mem}.
Abbreviation wcfg := (it_windows cfg).
Abbreviation place := (WindowsFacts.place wcfg).
Abbreviation TInv := (IntervalInv.TInv cfg period exec_max L).
Abbreviation cphead_of s := (m_critical_path_head (m_windows s)).
Abbreviation cptail_of s := (m_critical_path_tail (m_windows s)).
Implicit Types (s : IntervalTimer C Mem) (E : Z -> WindowEntry).
Context (Hcfg : TCfgOk cfg period exec_max L mem_max).
Abbreviation Hw := (tc_windows _ _ _ _ _ Hcfg).
Context (tr : list DynamicMicroOp) (bw : Z) (U : list DynamicMicroOp).

(** ** Parts of the state *)

Lemma TInv_later s o h g f n E T T' c : TInv tr bw U s o h g f n E T c -> T <= T' -> TInv tr bw U s o h g f n E T' c.
Proof. intros [HW Ht Hr] HT. split; [done|lia|]. by apply (TRest_later cfg period exec_max L Hcfg _ _ T). Qed.

Lemma TInv_same s o h g f n E T c c' : TInv tr bw U s o h g f n E T c -> u64 c = u64 c' -> TInv tr bw U s o h g f n E T c'.
Proof. intros [HW Ht Hr] Hc. split; [done..|]. by apply (TRest_same period _ _ _ c). Qed.

Lemma TInv_with_windows s w o h g f n E T c o' h' g' f' n' E' : TInv tr bw U s o h g f n E T c -> WInv wcfg period exec_max L U w o' h' g' f' n' E' ->
  m_critical_path_tail w <= T -> TInv tr bw U (it_with_windows w s) o' h' g' f' n' E' T c.
Proof. intros [HW Ht []] HW' Htl. split; [done|done|]. by split. Qed.

Lemma TInv_upd_stats s o h g f n E T c (F : IntervalStats -> IntervalStats) Q : TInv tr bw U s o h g f n E T c -> StatsOk (F (it_stats s)) ->
  (forall s', m_windows s' = m_windows s -> TInv tr bw U s' o h g f n E T c -> Q tt s') -> runs (upd_stats F) Q s.
Proof. intros [HW Ht Hr] HF HQ. unfold upd_stats. rstep. apply HQ; [done|]. split; [done..|]. destruct Hr. by split. Qed.

Lemma TInv_gets s o h g f n E T c {A} (F : Windows C -> A) Q : TInv tr bw U s o h g f n E T c -> Q (F (m_windows s)) s -> runs (windows (gets F)) Q s.
Proof. intros H HQ. apply runs_read. rstep. done. Qed.

Section window.
Context (h n : Z).

Lemma runs_clear_at o f E T c t T' Q s : TInv tr bw U s o h h f n E T c -> 0 <= t <= T' -> T <= T' -> (forall k, h <= k < n -> execTime (E k) <= t) ->
  (forall s', TInv tr bw U s' h h h h n E T' c -> cphead_of s' = t -> cptail_of s' = t -> Q tt s') -> runs (windows (clearOldWindow t)) Q s.
Proof.
  intros H Ht HT Hx HQ. apply runs_windows. eapply (runs_clearOldWindow wcfg period exec_max L U o h n E h f); [exact (ti_windows H)|done|lia|done|].
  intros w HW Eh Et. apply HQ; [|done|done]. apply (TInv_with_windows s w o h h f n E); [by apply (TInv_later _ _ _ _ _ _ _ T)|done|lia].
Qed.

Lemma runs_set_exec o E T c t Q s : TInv tr bw U s o h h (h + 1) n E T c -> h < n -> 0 <= t ->
  (forall s', TInv tr bw U s' o h h (h + 1) n (<[h := setExecTime t (E h)]> E) T c -> cphead_of s' = cphead_of s -> cptail_of s' = cptail_of s -> Q tt s') ->
  runs (windows (update wcfg (place h) (setExecTime t))) Q s.
Proof.
  intros H Hn Ht HQ. pose proof (ti_windows H) as HW. pose proof (wi_order _ HW). apply runs_windows. apply (runs_winv_harmless wcfg period exec_max L Hw U o h h (h + 1) n E); [exact HW|lia| |done|lia|].
  - split; try done. auto.
  - intros w HW'. apply HQ; [|done|done]. eapply TInv_with_windows; [exact H|exact HW'|exact (ti_tail H)].
Qed.

(** ** The critical path *)

Lemma runs_updateCriticalPath o E T c T' lat Q s : TInv tr bw U s o h h (h + 1) n E T c -> h < n -> execTime (E h) <= T' -> T <= T' -> T' < 2 ^ 62 ->
  (forall lat' s' o' E', TInv tr bw U s' o' h (h + 1) (h + 1) n E' T' (c - lat + lat') -> Q lat' s') ->
  runs (updateCriticalPath cfg (place h) lat) Q s.
Proof.
  intros H Hn HeT HT Hmax HQ. pose proof (ti_windows H) as HW. pose proof (wi_order _ HW). pose proof (wc_cutoff _ Hw). pose proof (wi_cp _ HW) as (Hcp & _).
  destruct (ti_entry cfg period exec_max L _ _ _ _ _ _ _ _ _ _ _ s h H ltac:(lia)) as [He Hf]. pose proof (fi_exec _ _ _ _ Hf) as Hx. pose proof (ti_tail H) as Htl.
  unfold updateCriticalPath. rstep. apply runs_read. unfold longLatencyOperationLatency. rstep. eapply (runs_by_index wcfg Hw o h n E); [exact (wi_rep HW)|exact (wi_inside _ h HW ltac:(lia))|].
  rstep. rstep. rstep. split; [done|].
  assert (Hcase : (if execTime (E h) <? cptail_of s then 0 else if execTime (E h) - cptail_of s <? long_latency_cutoff wcfg then 0 else 1) = 0 /\ execTime (E h) - cptail_of s < Z.max 1 (long_latency_cutoff wcfg) \/
    (if execTime (E h) <? cptail_of s then 0 else if execTime (E h) - cptail_of s <? long_latency_cutoff wcfg then 0 else 1) = 1 /\ cptail_of s <= execTime (E h)) by (repeat zcase; lia).
  destruct Hcase as [[-> Hlt]|[-> Hge]]; cbn [Z.eqb].
  - rstep. apply runs_windows. eapply (runs_updateCriticalPathTail wcfg period exec_max L Hw U o h n E); [done..|lia|]. intros w E' HW' Et Eh _ _ _ _. rstep. eapply (HQ lat).
    replace (c - lat + lat) with c by lia. eapply TInv_with_windows; [by eapply TInv_later|exact HW'|lia].
  - rstep. eapply (runs_charge cfg period exec_max L Hcfg); [exact H|lia|done|]. intros s1 E1 HI1. rstep. eapply (runs_entry_at cfg period exec_max L Hcfg); [exact HI1|lia|].
    rstep. eapply (runs_clear_at _ _ _ _ _ _ T'); [exact HI1|lia|lia| |].
    + intros k Hk. destruct (decide (k = h)) as [->|]; [lia|]. pose proof (wi_times HW k ltac:(lia)). lia.
    + intros s2 HI2 Eh2 Et2. rstep. apply (HQ _ _ h E). apply (TInv_same _ _ _ _ _ _ _ _ (c + 1)).
      * split; [apply (WInv_account wcfg period exec_max L); [exact (ti_windows HI2)|done]|exact (ti_tail HI2)|exact (ti_rest HI2)].
      * rewrite wrap_add_r by lia. f_equal. lia.
Qed.

(** ** Overlap under a long-latency load *)

Lemma ti_same_uop o E T c s o' E' T' c' s' g f g' f' k : TInv tr bw U s o h g f n E T c -> TInv tr bw U s' o' h g' f' n E' T' c' -> inside wcfg n k -> m_uop (the_uop (E' k)) = m_uop (the_uop (E k)).
Proof.
  intros H H' Hin. pose proof (ti_windows H) as HW. pose proof (ti_windows H') as HW'. pose proof Hin as [? ?].
  destruct (lookup_lt_is_Some_2 U (Z.to_nat k)) as [u Hu]; [pose proof (wi_entered HW); lia|].
  destruct (wi_uops HW k u Hin Hu) as [-> _]. by destruct (wi_uops HW' k u Hin Hu) as [-> _].
Qed.

Lemma runs_harmless_at fn o E T c k Q s : TInv tr bw U s o h h h n E T c -> h <= k < n -> harmless fn (E k) -> 0 <= execTime (fn (E k)) <= cptail_of s ->
  (forall s', TInv tr bw U s' o h h h n (<[k := fn (E k)]> E) T c -> cphead_of s' = cphead_of s -> cptail_of s' = cptail_of s -> Q tt s') ->
  runs (windows (update wcfg (place k) fn)) Q s.
Proof.
  intros H Hk Hfn Hx HQ. pose proof (ti_windows H) as HW. pose proof (wi_order _ HW). apply runs_windows.
  apply (runs_winv_harmless wcfg period exec_max L Hw U o h h h n E); [exact HW|lia|done|lia|lia|]. intros w HW'. apply HQ; [|done|done].
  eapply TInv_with_windows; [exact H|exact HW'|exact (ti_tail H)].
Qed.

(** What stays of an entry. *)
Definition changed k E E' : Prop := (forall j, j <> k -> E' j = E j) /\ w_uop (E' k) = w_uop (E k).
Lemma changed_refl k E : changed k E E.
Proof. done. Qed.
Lemma changed_trans k E1 E2 E3 : changed k E1 E2 -> changed k E2 E3 -> changed k E1 E3.
Proof. intros [H1 H2] [H3 H4]. split; [intros j Hj; rewrite H3 by done; auto|congruence]. Qed.
Lemma changed_insert k E e : w_uop e = w_uop (E k) -> changed k E (<[k := e]> E).
Proof. intros He. split; [intros j Hj; by rewrite fn_lookup_insert_ne|by rewrite fn_lookup_insert]. Qed.
Lemma changed_uop k E E' : changed k E E' -> the_uop (E' k) = the_uop (E k).
Proof. intros [_ Hu]. unfold the_uop. by rewrite Hu. Qed.

Lemma ti_exec_range o E T c k s : TInv tr bw U s o h h h n E T c -> h <= k < n -> 0 <= execTime (E k) <= cptail_of s.
Proof.
  intros H Hk. pose proof (ti_windows H) as HW. pose proof (wi_order _ HW). pose proof (wi_times HW k ltac:(lia)).
  destruct (ti_entry cfg period exec_max L _ _ _ _ _ _ _ _ _ _ _ s k H ltac:(lia)) as [_ Hf]. pose proof (fi_exec _ _ _ _ Hf). lia.
Qed.

Lemma runs_block_dependencies l : forall pre o E T c k Q s, TInv tr bw U s o h h h n E T c -> h < k < n -> udeps (the_uop (E k)) = pre ++ l ->
  (forall s' E', TInv tr bw U s' o h h h n E' T c -> cphead_of s' = cphead_of s -> cptail_of s' = cptail_of s -> changed k E E' -> Q tt s') ->
  runs (block_dependencies cfg (length l) (Z.of_nat (length pre)) (place k) (the_uop (E k))) Q s.
Proof.
  induction l as [|y l IH]; intros pre o E T c k Q s H Hk Eq HQ; cbn [block_dependencies length]; [rstep; by apply (HQ s E)|].
  pose proof (ti_windows H) as HW. pose proof (wi_order _ HW). destruct (ti_entry cfg period exec_max L _ _ _ _ _ _ _ _ _ _ _ s k H ltac:(lia)) as [He _].
  assert (Hy : 0 <= y < k) by (rewrite <- (en_seq k _ He); apply udeps_bound; [apply (en_ok k _ He)|]; rewrite Eq; apply elem_of_app; right; left).
  assert (Hrest : runs (block_dependencies cfg (length l) (Z.of_nat (length pre) + 1) (place k) (the_uop (E k))) Q s).
  { replace (Z.of_nat (length pre) + 1) with (Z.of_nat (length (pre ++ [y]))) by (rewrite length_app; cbn; lia). eapply IH; [exact H|done|by rewrite <- app_assoc|done]. }
  assert (Hset : runs (windows (update wcfg (place k) setDataDependent)) Q s).
  { eapply runs_harmless_at; [exact H|lia|by split|exact (ti_exec_range o E T c k s H ltac:(lia))|]. intros s' H' Eh Et. apply (HQ s' _ H' Eh Et). by apply changed_insert. }
  rstep. eapply wpe_lift; [apply getDependency_udeps; [apply (en_ok k _ He)|]; rewrite Eq; by rewrite list_lookup_middle|].
  rstep. apply runs_read. eapply (runs_window_contains wcfg Hw o h n E); [exact (wi_rep HW)|lia|]. split; [done|].
  destruct ((h <=? y) && (y <? n)) eqn:Ey; [|done]. apply andb_true_iff in Ey as [Ey1%Z.leb_le Ey2%Z.ltb_lt].
  rstep. apply runs_read. eapply (runs_getInstruction wcfg Hw o h n E); [exact (wi_rep HW)|lia|exact (wi_inside _ y HW ltac:(lia))|]. split; [done|].
  rstep. eapply (runs_entry_at cfg period exec_max L Hcfg); [exact H|lia|]. destruct (isDependent (E y)); [done|]. destruct (isIndependent (E y)) eqn:Ei; [|done].
  destruct (ti_entry cfg period exec_max L _ _ _ _ _ _ _ _ _ _ _ s y H ltac:(lia)) as [Hey Hfy]. apply bool_decide_eq_true_1 in Ei.
  rstep. eapply wpe_lift; [by apply (getDynMicroOp_ok y)|]. rstep. eapply wpe_lift; [unfold isLongLatencyLoad; rewrite (fi_miss _ _ _ _ Hfy Ei); reflexivity|]. by destruct (_ || _).
Qed.

Lemma runs_overlap_load o E T c k Q s : TInv tr bw U s o h h h n E T c -> h < k < n -> isLoad (m_uop (the_uop (E k))) = true ->
  (forall s' E', TInv tr bw U s' o h h h n E' T c -> cphead_of s' = cphead_of s -> cptail_of s' = cptail_of s -> Q tt s') ->
  runs (overlap_load cfg period (place h) (place k)) Q s.
Proof.
  intros H Hk Hl HQ. pose proof (ti_windows H) as HW. pose proof (wi_order _ HW). unfold overlap_load. rstep. eapply (runs_the_uop_at cfg period exec_max L Hcfg); [exact H|lia|].
  rstep. eapply (runs_the_uop_at cfg period exec_max L Hcfg); [exact H|lia|]. rstep. eapply TInv_upd_stats; [exact H|exact (tr_stats _ _ _ _ _ _ (ti_rest H))|]. intros s1 Ew1 HI1.
  pose proof (ti_exec_range o E T c k s1 HI1 ltac:(lia)) as Hx. rstep. eapply runs_harmless_at; [exact HI1|lia|split; auto|done|]. intros s2 HI2 Eh2 Et2. rewrite Ew1 in Eh2, Et2. set (E2 := <[k := _]> E) in *.
  rstep. eapply (runs_issueMemOp cfg period exec_max L Hcfg); [exact HI2|lia|]. intros s3 E3 HI3 Eh3 Et3 _.
  assert (Hl3 : isLoad (m_uop (the_uop (E3 k))) = true). { rewrite (ti_same_uop o E T c s o E3 T c s3 h h h h k H HI3); [done|]. exact (wi_inside _ k HW ltac:(lia)). }
  pose proof (ti_exec_range o E3 T c k s3 HI3 ltac:(lia)) as Hx3. rstep. eapply runs_harmless_at; [exact HI3|lia|split; auto|done|]. intros s4 HI4 Eh4 Et4. set (E4 := <[k := _]> E3) in *.
  rstep. eapply TInv_gets; [exact HI4|]. pose proof (wi_cp _ (ti_windows HI4)) as (Hcp4 & _). eapply runs_harmless_at; [exact HI4|lia|split; auto|cbn; lia|].
  intros s5 HI5 Eh5 Et5. apply (HQ s5 _ HI5); congruence.
Qed.

Lemma place_end k : h < k <= n -> n - h <= window_size wcfg -> (place k =? place n) = (k =? n).
Proof.
  intros Hk Hs. pose proof (wc_size _ Hw). assert (m_double_window_size wcfg = 2 * window_size wcfg) by done. destruct (Z.eqb_spec k n) as [->|Hne]; [apply Z.eqb_refl|].
  apply Z.eqb_neq. intros Ep. apply Hne. apply (place_inj wcfg Hw); [done|lia].
Qed.

Lemma runs_block_loop N : forall k ha mb o E T c Q s, TInv tr bw U s o h h h n E T c -> h < k <= n -> n - k <= Z.of_nat N ->
  (forall s' E', TInv tr bw U s' o h h h n E' T c -> cphead_of s' = cphead_of s -> cptail_of s' = cptail_of s -> Q tt s') ->
  runs (block_loop cfg period N (place h) ha (place k) mb) Q s.
Proof.
  induction N as [|N IH]; intros k ha mb o E T c Q s H Hk HN HQ; cbn [block_loop]; pose proof (ti_windows H) as HW; pose proof (wi_order _ HW) as (? & ? & ? & ?); pose proof (wi_fields _ HW) as (_ & Et & _);
    rstep; (eapply TInv_gets; [exact H|]); rewrite Et, place_end by lia.
  - rewrite (proj2 (Z.eqb_eq k n)) by lia. rstep. by apply (HQ s E).
  - destruct (Z.eqb_spec k n) as [|Hne]; [rstep; by apply (HQ s E)|]. assert (Hkn : h < k < n) by lia. pose proof (ti_exec_range o E T c k s H ltac:(lia)) as Hx.
    rstep. eapply runs_harmless_at; [exact H|lia|split; auto; done|done|]. intros s1 HI1 Eh1 Et1. set (E1 := <[k := _]> E) in *.
    rstep. eapply TInv_upd_stats; [exact HI1|exact (tr_stats _ _ _ _ _ _ (ti_rest HI1))|]. intros s2 Ew2 HI2. rewrite <- Ew2 in Eh1, Et1.
    rstep. eapply (runs_the_uop_at cfg period exec_max L Hcfg); [exact HI2|lia|]. set (d := the_uop (E1 k)). destruct (serializing (m_uop d)); [rstep; by apply (HQ s2 E1)|].
    destruct (ti_entry cfg period exec_max L _ _ _ _ _ _ _ _ _ _ _ s2 k HI2 ltac:(lia)) as [He2 _]. pose proof (en_ok k _ He2) as Hok2. fold d in Hok2.
    rstep. rewrite length_udeps, Nat2Z.id by done. eapply (runs_block_dependencies (udeps d) [] o E1 T c k); [exact HI2|done|done|]. intros s3 E3 HI3 Eh3 Et3 Hc3.
    pose proof (changed_uop _ _ _ Hc3) as Eu3. fold d in Eu3.
    assert (Hcont : forall s' E', TInv tr bw U s' o h h h n E' T c -> cphead_of s' = cphead_of s -> cptail_of s' = cptail_of s ->
      runs (block_loop cfg period N (place h) ha (incrementIndex wcfg (place k)) (mb || m_membar (m_uop d))) Q s').
    { intros s' E' H' Eh' Et'. rewrite increment_place by exact Hw. eapply IH; [exact H'|lia|lia|]. intros s'' E'' H'' Eh'' Et''. apply (HQ s'' E'' H''); congruence. }
    assert (Hbody : forall s' E', TInv tr bw U s' o h h h n E' T c -> cphead_of s' = cphead_of s -> cptail_of s' = cptail_of s -> the_uop (E' k) = d ->
      runs (e ← windows (getInstructionByIndex wcfg (place k));
            _ ← (if uo_branch (m_uop d) && negb (isDependent e) then
                 _ ← windows (update wcfg (place k) (addOverlapFlag BPRED_OVERLAP));
                 upd_overlap (fun o => mkOverlapStats (m_numICacheOverlapped o) (u64 (m_numBPredOverlapped o + 1)) (m_numDCacheOverlapped o)
                   (m_totalHiddenDCacheLatency o) (m_totalHiddenLongerDCacheLatency o) (m_numHiddenLongerDCacheLatency o))
               else if isLoad (m_uop d) && negb (isDependent e) && negb (mb || m_membar (m_uop d)) && negb (hasOverlapFlag DCACHE_OVERLAP e) then
                 overlap_load cfg period (place h) (place k)
               else mret tt);
            block_loop cfg period N (place h) ha (incrementIndex wcfg (place k)) (mb || m_membar (m_uop d))) Q s').
    { intros s' E' H' Eh' Et' Eu'. pose proof (ti_exec_range o E' T c k s' H' ltac:(lia)) as Hx'. rstep. eapply (runs_entry_at cfg period exec_max L Hcfg); [exact H'|lia|]. rstep.
      destruct (uo_branch (m_uop d) && _).
      - rstep. eapply runs_harmless_at; [exact H'|lia|split; auto|done|]. intros s4 HI4 Eh4 Et4.
        eapply TInv_upd_stats; [exact HI4|exact (tr_stats _ _ _ _ _ _ (ti_rest HI4))|]. intros s5 Ew5 HI5. eapply Hcont; [exact HI5|rewrite Ew5; congruence..].
      - destruct (isLoad (m_uop d)) eqn:Eld; cbn [andb]; [|rstep; by eapply Hcont]. destruct (_ && _); [|rstep; by eapply Hcont].
        eapply runs_overlap_load; [exact H'|done|by rewrite Eu'|]. intros s4 E4 HI4 Eh4 Et4. eapply Hcont; [exact HI4|congruence..]. }
    rstep. destruct (isLoad (m_uop d) && _).
    + pose proof (ti_exec_range o E3 T c k s3 HI3 ltac:(lia)) as Hx3. eapply runs_harmless_at; [exact HI3|lia|by split|done|]. intros s4 HI4 Eh4 Et4. eapply Hbody; [exact HI4|congruence..|].
      rewrite fn_lookup_insert. exact Eu3.
    + rstep. eapply Hbody; [exact HI3|congruence..].
Qed.

Lemma runs_blockWindow o E T c Q s : TInv tr bw U s o h h h n E T c -> h < n -> isLoad (m_uop (the_uop (E h))) = true ->
  (forall s' E', TInv tr bw U s' o h h h n E' T c -> cphead_of s' = cphead_of s -> cptail_of s' = cptail_of s -> Q tt s') -> runs (blockWindow cfg period) Q s.
Proof.
  intros H Hn Hl HQ. pose proof (ti_windows H) as HW. pose proof (wi_order _ HW) as (? & ? & ? & ?). pose proof (wi_fields _ HW) as (Eh & _). unfold blockWindow, getInstructionToDispatch.
  rstep. eapply TInv_gets; [exact H|]. rewrite Eh. rstep. eapply runs_harmless_at; [exact H|lia|split; auto|exact (ti_exec_range o E T c h s H ltac:(lia))|]. intros s1 HI1 Eh1 Et1.
  rstep. eapply (runs_the_uop_at cfg period exec_max L Hcfg); [exact HI1|lia|]. rewrite increment_place by exact Hw. assert (m_double_window_size wcfg = 2 * window_size wcfg) by done.
  eapply runs_block_loop; [exact HI1|lia|lia|]. intros s2 E2 HI2 Eh2 Et2. apply (HQ s2 E2 HI2); congruence.
Qed.

(** ** The cases of a dispatch *)

Context (T T' : Z) (HT' : T + window_size wcfg * long_latency_cutoff wcfg + L + 3 <= T') (Hmax : T' < 2 ^ 62 /\ T' * period < 2 ^ 64).
Abbreviation Done c lat Q := (forall lat' s' o' E', TInv tr bw U s' o' h (h + 1) (h + 1) n E' T' (c - lat + lat') -> Q lat' s').

Lemma TInv_account s o E T0 c : TInv tr bw U s o h h h n E T0 c -> h < n -> TInv tr bw U s o h (h + 1) (h + 1) n E T0 c.
Proof. intros [HW Ht Hr] Hn. split; [by apply (WInv_account wcfg period exec_max L)|done..]. Qed.

Lemma TInv_relax s o E T0 c : TInv tr bw U s o h h h n E T0 c -> TInv tr bw U s o h h (h + 1) n E T0 c.
Proof. intros [HW Ht Hr]. split; [by apply (WInv_relax wcfg period exec_max L)|done..]. Qed.

Lemma ti_time s o g f E T0 c : TInv tr bw U s o h g f n E T0 c -> 0 <= cphead_of s <= cptail_of s /\ cptail_of s <= T0.
Proof. intros H. pose proof (wi_cp _ (ti_windows H)) as (? & _). pose proof (ti_tail H). lia. Qed.

Lemma ti_length s o f E T0 c : TInv tr bw U s o h h f n E T0 c -> cptail_of s - cphead_of s <= window_size wcfg * long_latency_cutoff wcfg.
Proof.
  intros H. pose proof (ti_windows H) as HW. pose proof (wi_cp _ HW) as (_ & Hd & Hb). pose proof (wi_order _ HW). pose proof (wc_cutoff _ Hw). pose proof (wc_size _ Hw). nia.
Qed.

Lemma ti_fine s o f E T0 c : TInv tr bw U s o h h f n E T0 c -> h < n -> UopFine exec_max L (the_uop (E h)).
Proof.
  intros H Hn. pose proof (wi_order _ (ti_windows H)). destruct (ti_entry cfg period exec_max L _ _ _ _ _ _ _ _ _ _ _ s h H ltac:(lia)) as [_ Hf]. exact (fi_uop _ _ _ _ Hf).
Qed.

Lemma size_nonneg : 0 <= window_size wcfg * long_latency_cutoff wcfg /\ 0 <= L.
Proof. pose proof (wc_cutoff _ Hw). pose proof (wc_size _ Hw). pose proof (L_range cfg period exec_max L Hcfg). split; nia. Qed.

(** The execution time is set, and the critical path extended. *)
Lemma runs_extend o E T0 c x lat Q s : TInv tr bw U s o h h h n E T0 c -> h < n -> 0 <= x <= T' -> T0 <= T' -> Done c lat Q ->
  runs (_ ← windows (update wcfg (place h) (setExecTime x)); updateCriticalPath cfg (place h) lat) Q s.
Proof.
  intros H Hn Hx HT0 HQ. rstep. eapply runs_set_exec; [by apply TInv_relax|done|lia|]. intros s1 HI1 _ _. eapply (runs_updateCriticalPath _ _ T0); [exact HI1|done| |done|lia|done].
  rewrite fn_lookup_insert. cbn. lia.
Qed.

Lemma runs_dispatch_other o E c mp lat Q s : TInv tr bw U s o h h h n E T c -> h < n -> 0 <= mp <= T -> Done c lat Q ->
  runs (dispatch_other cfg (place h) (the_uop (E h)) mp lat) Q s.
Proof.
  intros H Hn Hmp HQ. pose proof (ti_time _ _ _ _ _ _ _ H). pose proof (uf_latency _ _ _ (ti_fine _ _ _ _ _ _ H Hn)). pose proof size_nonneg. unfold dispatch_other. rstep. eapply TInv_gets; [exact H|].
  rewrite wrap_small by lia. eapply runs_extend; [exact H|done|lia|lia|done].
Qed.

Lemma TInv_max_store s x o g f E T0 c : TInv tr bw U s o h g f n E T0 c -> 0 <= x <= T0 -> TInv tr bw U (it_with_max_store x s) o h g f n E T0 c.
Proof. intros [HW Ht []] Hx. split; [done..|]. by split. Qed.
Lemma TInv_max_load s x o g f E T0 c : TInv tr bw U s o h g f n E T0 c -> 0 <= x <= T0 -> TInv tr bw U (it_with_max_load x s) o h g f n E T0 c.
Proof. intros [HW Ht []] Hx. split; [done..|]. by split. Qed.

Lemma bypass_range b : 0 <= getBypassLatency b <= 2.
Proof. destruct b; cbn; lia. Qed.

Lemma runs_dispatch_store o E c mp lat Q s : TInv tr bw U s o h h h n E T c -> h < n -> 0 <= mp <= T -> Done c lat Q ->
  runs (dispatch_store cfg (place h) (the_uop (E h)) mp lat) Q s.
Proof.
  intros H Hn Hmp HQ. pose proof (ti_time _ _ _ _ _ _ _ H). pose proof (uf_latency _ _ _ (ti_fine _ _ _ _ _ _ H Hn)). pose proof size_nonneg. pose proof (bypass_range (uop_bypass (the_uop (E h)))).
  unfold dispatch_store. rstep. eapply TInv_gets; [exact H|]. rewrite !wrap_small by lia. rstep. eapply runs_set_exec; [by apply TInv_relax|done|lia|]. intros s1 HI1 _ _. rstep.
  eapply (runs_updateCriticalPath _ _ T _ T'); [exact HI1|done|rewrite fn_lookup_insert; cbn; lia|lia|lia|]. intros lat' s2 o' E' HI2. rstep. rstep. rstep. eapply HQ.
  apply TInv_max_store; [exact HI2|]. pose proof (tr_store _ _ _ _ _ _ (ti_rest HI2)). lia.
Qed.

Lemma runs_dispatch_fence o E c mp lat Q s : TInv tr bw U s o h h h n E T c -> h < n -> 0 <= mp <= T -> Done c lat Q ->
  runs (dispatch_fence cfg (place h) (the_uop (E h)) mp lat) Q s.
Proof.
  intros H Hn Hmp HQ. pose proof (uf_latency _ _ _ (ti_fine _ _ _ _ _ _ H Hn)). pose proof size_nonneg. pose proof (tr_store _ _ _ _ _ _ (ti_rest H)). pose proof (tr_load _ _ _ _ _ _ (ti_rest H)).
  unfold dispatch_fence. rstep. rstep. rstep. eapply TInv_upd_stats; [exact H|exact (tr_stats _ _ _ _ _ _ (ti_rest H))|]. intros s1 Ew1 HI1. rewrite wrap_small by lia.
  eapply runs_extend; [exact HI1|done|lia|lia|done].
Qed.

Lemma runs_dispatch_serializing o E c lat Q s : TInv tr bw U s o h h h n E T c -> h < n -> Done c lat Q ->
  runs (dispatch_serializing cfg (place h) (the_uop (E h)) lat) Q s.
Proof.
  intros H Hn HQ. pose proof (ti_time _ _ _ _ _ _ _ H) as [Hcp Htl]. pose proof size_nonneg. pose proof (tc_width _ _ _ _ _ Hcfg). pose proof (wi_order _ (ti_windows H)).
  unfold dispatch_serializing. rstep. rstep. rstep. eapply wpe_lift; [unfold getMinimalFlushLatency; rewrite (proj2 (Z.eqb_neq _ _)) by lia; reflexivity|]. set (ser := u64 (_ + execLatency _)).
  rstep. eapply TInv_upd_stats; [exact H|exact (tr_stats _ _ _ _ _ _ (ti_rest H))|]. intros s1 Ew1 HI1. rstep. eapply (runs_charge cfg period exec_max L Hcfg); [exact HI1|lia|done|].
  intros s2 Ew2 HI2. assert (Et2 : cptail_of s2 = cptail_of s) by congruence. rstep. eapply TInv_gets; [exact HI2|]. rstep. eapply runs_harmless_at; [exact HI2|lia|split; auto|cbn; lia|]. intros s3 HI3 _ Et3.
  rstep. eapply (runs_clear_at _ _ _ T _ _ T'); [exact HI3|lia|lia| |].
  { intros k Hk. pose proof (ti_exec_range _ _ _ _ k s3 HI3 Hk). lia. }
  intros s4 HI4 _ _. rstep. eapply HQ. eapply TInv_same; [by apply TInv_account|]. rewrite wrap_add_r by lia. f_equal. lia.
Qed.

Lemma runs_dispatch_short_load o E c mp lat Q s : TInv tr bw U s o h h h n E T c -> h < n -> 0 <= mp <= T -> Done c lat Q ->
  runs (dispatch_short_load cfg period (place h) (the_uop (E h)) mp lat) Q s.
Proof.
  intros H Hn Hmp HQ. pose proof (ti_time _ _ _ _ _ _ _ H). pose proof (uf_latency _ _ _ (ti_fine _ _ _ _ _ _ H Hn)). pose proof size_nonneg.
  unfold dispatch_short_load. rstep. eapply TInv_gets; [exact H|]. rstep. eapply (runs_loadstore_completion cfg period exec_max L Hcfg _ _ _ _ _ _ _ _ _ T c _ _ _ T'); [exact H|lia|lia|lia|lia|].
  intros r s1 Ew1 Hr HI1. eapply runs_extend; [exact HI1|done|lia|lia|done].
Qed.

Lemma runs_dispatch_long_load o E c mp lat Q s : TInv tr bw U s o h h h n E T c -> h < n -> 0 <= mp <= T -> isLoad (m_uop (the_uop (E h))) = true -> Done c lat Q ->
  runs (dispatch_long_load cfg period (place h) (the_uop (E h)) mp lat) Q s.
Proof.
  intros H Hn Hmp Hl HQ. pose proof (ti_time _ _ _ _ _ _ _ H) as [Hcp Htl]. pose proof (ti_fine _ _ _ _ _ _ H Hn) as [Hlat _ (Hhit & _)]. pose proof size_nonneg. pose proof (ti_length _ _ _ _ _ _ H) as Hlen.
  pose proof (wi_order _ (ti_windows H)). unfold dispatch_long_load. rstep. eapply TInv_gets; [exact H|]. set (t := Z.max mp (cphead_of s)).
  rstep. eapply (runs_loadstore_completion cfg period exec_max L Hcfg _ _ _ _ _ _ _ _ _ T c _ _ _ (T + L)); [exact H|lia|lia|lia|nia|]. intros r s1 Ew1 Hr HI1. rewrite (wrap_small 64 (r - t)) by lia.
  rstep. eapply TInv_gets; [exact HI1|]. rewrite Ew1, (wrap_small 64 (cptail_of s + (r - t))) by lia. rstep. eapply runs_harmless_at; [exact HI1|lia|split; auto|rewrite Ew1; cbn; lia|]. intros s2 HI2 _ Et2. rewrite Ew1 in Et2.
  rstep. eapply (runs_clear_at _ _ _ (T + L) _ _ T'); [exact HI2|lia|lia| |].
  { intros k Hk. pose proof (ti_exec_range _ _ _ _ k s2 HI2 Hk). lia. }
  intros s3 HI3 Eh3 Et3. rstep. eapply runs_blockWindow; [exact HI3|done|by rewrite fn_lookup_insert|]. intros s4 E4 HI4 _ _.
  rstep. eapply TInv_upd_stats; [exact HI4|exact (tr_stats _ _ _ _ _ _ (ti_rest HI4))|]. intros s5 Ew5 HI5. rstep. eapply (runs_charge cfg period exec_max L Hcfg); [exact HI5|lia|exact Hhit|].
  intros s6 Ew6 HI6. rstep. eapply HQ. eapply TInv_same; [by apply TInv_account|]. rewrite wrap_add_r by lia. f_equal. lia.
Qed.

Lemma runs_dispatch_load o E c mp lat Q s : TInv tr bw U s o h h h n E T c -> h < n -> 0 <= mp <= T -> isLoad (m_uop (the_uop (E h))) = true -> Done c lat Q ->
  runs (dispatch_load cfg period (place h) (the_uop (E h)) mp lat) Q s.
Proof.
  intros H Hn Hmp Hl HQ. pose proof (wi_order _ (ti_windows H)). pose proof size_nonneg. unfold dispatch_load. rstep. eapply (runs_entry_at cfg period exec_max L Hcfg); [exact H|lia|]. rstep.
  assert (Hcont : forall lat' s' o' E', TInv tr bw U s' o' h (h + 1) (h + 1) n E' T' (c - lat + lat') ->
    runs (e ← windows (getInstructionByIndex wcfg (place h)); _ ← modify (fun s => it_with_max_load (Z.max (m_max_load_completion_time s) (execTime e)) s);
          l ← lift_res (isLongLatencyLoad (long_latency_cutoff wcfg) (the_uop (E h))); _ ← (if (l : bool) then compute_mlp (execLatency (the_uop (E h))) else mret tt); mret lat') Q s').
  { intros lat' s' o' E' H'. pose proof (wi_order _ (ti_windows H')). rstep. eapply (runs_entry_at cfg period exec_max L Hcfg); [exact H'|lia|]. rstep. rstep.
    pose proof (wi_old_exec _ h (ti_windows H') ltac:(lia)). pose proof (ti_tail H'). destruct (ti_entry cfg period exec_max L _ _ _ _ _ _ _ _ _ _ _ s' h H' ltac:(lia)) as [_ Hf]. pose proof (fi_exec _ _ _ _ Hf).
    pose proof (tr_load _ _ _ _ _ _ (ti_rest H')). assert (HI2 : TInv tr bw U (it_with_max_load (Z.max (m_max_load_completion_time s') (execTime (E' h))) s') o' h (h + 1) (h + 1) n E' T' (c - lat + lat')) by (apply TInv_max_load; [done|lia]).
    rstep. eapply wpe_lift; [unfold isLongLatencyLoad; rewrite Hl; reflexivity|]. rstep. destruct (_ || _); [|rstep; rstep; by eapply HQ].
    unfold compute_mlp. rstep. eapply TInv_gets; [exact HI2|]. eapply TInv_upd_stats; [exact HI2|exact (tr_stats _ _ _ _ _ _ (ti_rest HI2))|]. intros s3 _ HI3. rstep. by eapply HQ. }
  destruct (hasOverlapFlag DCACHE_OVERLAP (E h)).
  - rstep. eapply (Hcont lat s o E). replace (c - lat + lat) with c by lia. apply TInv_account; [|done]. eapply TInv_later; [exact H|lia].
  - rstep. eapply wpe_lift; [unfold isLongLatencyLoad; rewrite Hl; reflexivity|]. destruct (_ || _).
    + eapply runs_dispatch_long_load; [exact H|done|done|done|]. exact Hcont.
    + eapply runs_dispatch_short_load; [exact H|done|done|]. exact Hcont.
Qed.
End window.

(** ** The dispatch of a micro-operation *)

(** The most that a dispatch adds to the times of the model. *)
Definition growth : Z := m_branch_misprediction_penalty cfg + window_size wcfg * L + L + (window_size wcfg * long_latency_cutoff wcfg + L + 3).

Lemma growth_pos : 0 <= growth.
Proof.
  unfold growth. pose proof (tc_penalty _ _ _ _ _ Hcfg). pose proof (wc_cutoff _ Hw). pose proof (wc_size _ Hw). pose proof (L_range cfg period exec_max L Hcfg). nia.
Qed.

(** The resolution time in terms of any function that gives the entries. *)
Lemma resolution_ok o h n E T c s E' : TInv tr bw U s o h h h n E T c -> h < n -> (forall k, inside wcfg n k -> E' k = E k) ->
  exists r, calculateBranchResolutionLatency wcfg (m_windows s) = Ok (r, m_windows s) /\ 0 <= r <= window_size wcfg * L /\ Longest o h E' (o - 1) r.
Proof.
  intros H Hn HE. pose proof (ti_windows H) as HW. pose proof (wi_order _ HW) as (? & ? & ? & ?). pose proof (L_range cfg period exec_max L Hcfg). pose proof (tc_resolution _ _ _ _ _ Hcfg). pose proof (tc_penalty _ _ _ _ _ Hcfg).
  assert (Hsz : (h - o) * L <= window_size wcfg * L) by nia. assert (Hin : forall k, o <= k <= h -> E' k = E k /\ inside wcfg n k) by (intros k Hk; assert (inside wcfg n k) by (apply (wi_inside _ k HW); lia); auto).
  assert (Hent : forall k, o <= k <= h -> EntryOk k (E' k)) by (intros k Hk; destruct (Hin k Hk) as [-> Hk']; exact (ent_ok wcfg o h n E _ k (wi_rep HW) Hk')).
  assert (Hlat : forall k, o <= k < h -> 0 <= lat E' k <= L).
  { intros k Hk. unfold lat. rewrite (proj1 (Hin k ltac:(lia))). destruct (ti_entry cfg period exec_max L _ _ _ _ _ _ _ _ _ _ _ s k H ltac:(lia)) as [_ Hf]. exact (uf_latency _ _ _ (fi_uop _ _ _ _ Hf)). }
  assert (HR : WRep wcfg (m_windows s) o h n E') by (eapply Ring_ext; [exact (wi_rep HW)|exact HE]).
  assert (Hrun : runs (calculateBranchResolutionLatency wcfg) (fun r w => w = m_windows s /\ 0 <= r <= window_size wcfg * L /\ Longest o h E' (o - 1) r) (m_windows s)).
  { apply (runs_branch_resolution wcfg Hw o h n E' Hent ltac:(lia) L Hlat ltac:(lia) _ HR Hn ltac:(lia)); [exact (wi_map HW)|]. intros r HL Hr. split_and!; try done; lia. }
  unfold wpe in Hrun. destruct (calculateBranchResolutionLatency wcfg (m_windows s)) as [[r w]|]; [|done]. destruct Hrun as (-> & ? & ?). eauto.
Qed.

Lemma runs_resolution o h n E T c Q s : TInv tr bw U s o h h h n E T c -> h < n -> (forall r, 0 <= r <= window_size wcfg * L -> Q r s) ->
  runs (windows (calculateBranchResolutionLatency wcfg)) Q s.
Proof.
  intros H Hn HQ. destruct (resolution_ok o h n E T c s E H Hn ltac:(done)) as (r & Er & Hr & _). apply runs_read. unfold wpe. rewrite Er. auto.
Qed.

Definition stop_ok (stop : Z) : Prop := stop = STOP_DISPATCH_NO_REASON \/ stop = STOP_DISPATCH_ICACHE_MISS \/ stop = STOP_DISPATCH_BRANCH_MISPREDICT.

Lemma runs_dispatch_uop o h n E T T' c Q s : TInv tr bw U s o h h h n E T c -> h < n -> T + growth <= T' -> T' < 2 ^ 62 -> T' * period < 2 ^ 64 ->
  (forall lat stop s' o' E', TInv tr bw U s' o' h (h + 1) (h + 1) n E' T' (c + lat) -> stop_ok stop -> Q (lat, stop) s') ->
  runs (dispatchInstruction cfg period (place h)) Q s.
Proof.
  intros H Hn HT1 Hmax1 Hmax2 HQ. pose proof (wi_order _ (ti_windows H)). pose proof (tc_penalty _ _ _ _ _ Hcfg) as Hpen. pose proof (tc_resolution _ _ _ _ _ Hcfg) as Hres. pose proof (tc_period _ _ _ _ _ Hcfg).
  pose proof (L_range cfg period exec_max L Hcfg) as [HL _]. pose proof (wc_size _ Hw). pose proof (wc_cutoff _ Hw). unfold growth in HT1. assert (HWL : 0 <= window_size wcfg * L) by nia. assert (HWC : 0 <= window_size wcfg * long_latency_cutoff wcfg) by nia.
  assert (exists T1, T1 = T + m_branch_misprediction_penalty cfg + window_size wcfg * L + L) as [T1 ET1] by eauto. unfold IntervalTimer.dispatchInstruction.
  rstep. eapply (runs_issueMemOp cfg period exec_max L Hcfg); [exact H|lia|]. intros s1 E1 HI1 Eh1 Et1 _. pose proof (ti_time h n s1 _ _ _ _ _ _ HI1) as [Hcp Htl].
  rstep. eapply (runs_getMaxProducerExecTime cfg period exec_max L Hcfg); [|exact HI1|done|]; [lia|]. intros mp Hmp. rstep. rstep.
  rstep. eapply runs_harmless_at; [exact HI1|lia|split; auto|exact (ti_exec_range h n _ _ _ _ h s1 HI1 ltac:(lia))|]. intros s2 HI2 Eh2 Et2. set (E2 := <[h := _]> E1) in *.
  assert (Hexec : forall k, h <= k < n -> execTime (E2 k) <= cptail_of s1) by (intros k Hk; pose proof (ti_exec_range h n _ _ _ _ k s2 HI2 Hk); lia).
  rstep. eapply (runs_entry_at cfg period exec_max L Hcfg); [exact HI2|lia|]. destruct (ti_entry cfg period exec_max L _ _ _ _ _ _ _ _ _ _ _ s2 h HI2 ltac:(lia)) as [He2 Hf2].
  rstep. eapply wpe_lift; [by apply (getDynMicroOp_ok h)|]. set (d := the_uop (E2 h)) in *. destruct (fi_uop _ _ _ _ Hf2) as [_ _ (_ & Hic & Hil)]. fold d in Hic, Hil.
  assert (Hbody : forall s' o' lat stop, TInv tr bw U s' o' h h h n E2 T1 (c + lat) -> stop_ok stop ->
    runs (latency ← (if serializing (m_uop d) then dispatch_serializing cfg (place h) d lat
                     else if isExecute (m_uop d) && m_membar (m_uop d) then dispatch_fence cfg (place h) d mp lat
                     else if isLoad (m_uop d) then dispatch_load cfg period (place h) d mp lat
                     else if isStore (m_uop d) then dispatch_store cfg (place h) d mp lat
                     else dispatch_other cfg (place h) d mp lat); mret (latency, stop)) Q s').
  { intros s' o' lat stop H' Hst. assert (Hend : forall lat' s'' o'' E'', TInv tr bw U s'' o'' h (h + 1) (h + 1) n E'' T' (c + lat - lat + lat') -> runs (mret (lat', stop)) Q s'').
    { intros lat' s'' o'' E'' H''. rstep. eapply HQ; [|done]. by replace (c + lat - lat + lat') with (c + lat') in H'' by lia. }
    rstep. destruct (serializing _); [eapply (runs_dispatch_serializing h n T1 T'); [..|exact Hend]; try exact H'; lia|].
    destruct (isExecute _ && _); [eapply (runs_dispatch_fence h n T1 T'); [..|exact Hend]; try exact H'; lia|].
    destruct (isLoad _) eqn:El; [eapply (runs_dispatch_load h n T1 T'); [..|exact Hend]; try exact H'; try exact El; lia|].
    destruct (isStore _); [eapply (runs_dispatch_store h n T1 T'); [..|exact Hend]; try exact H'; lia|].
    eapply (runs_dispatch_other h n T1 T'); [..|exact Hend]; try exact H'; lia. }
  assert (Hbranch : forall s' o' lat stop, TInv tr bw U s' o' h h h n E2 T1 (c + lat) -> stop_ok stop ->
    runs ('(latency, stop) ← (if uo_branch (m_uop d) then b ← lift_res (isBranchMispredicted d);
       if b && negb (hasOverlapFlag BPRED_OVERLAP (E2 h))
       then latency ← dispatch_mispredicted cfg (place h) (cptail_of s1) lat; mret (latency, STOP_DISPATCH_BRANCH_MISPREDICT)
       else mret (lat, stop) else mret (lat, stop));
       latency ← (if serializing (m_uop d) then dispatch_serializing cfg (place h) d latency
                     else if isExecute (m_uop d) && m_membar (m_uop d) then dispatch_fence cfg (place h) d mp latency
                     else if isLoad (m_uop d) then dispatch_load cfg period (place h) d mp latency
                     else if isStore (m_uop d) then dispatch_store cfg (place h) d mp latency
                     else dispatch_other cfg (place h) d mp latency); mret (latency, stop)) Q s').
  { intros s' o' lat stop H' Hst. rstep. destruct (uo_branch (m_uop d)) eqn:Eb; [|rstep; by eapply Hbody]. rstep. eapply wpe_lift; [unfold isBranchMispredicted; rewrite Eb; reflexivity|].
    destruct (branchMispredicted d && negb (hasOverlapFlag BPRED_OVERLAP (E2 h))); [|rstep; by eapply Hbody]. rstep. unfold dispatch_mispredicted. rstep. eapply runs_resolution; [exact H'|done|]. intros r Hr. rewrite (wrap_small 32), (wrap_small 64 (cptail_of s1 + _)) by lia.
    rstep. eapply (runs_clear_at h n _ _ _ _ _ _ T1); [exact H'|lia|lia| |]. { intros k Hk. pose proof (Hexec k Hk). lia. }
    intros s3 HI3 _ _. rstep. eapply (runs_charge cfg period exec_max L Hcfg); [exact HI3|lia|done|]. intros s4 _ HI4. rstep. rstep. eapply Hbody; [|by right; right].
    eapply TInv_same; [exact HI4|]. rewrite wrap_add_r by lia. f_equal. lia. }
  rstep. destruct (negb (iCacheHitWhere d =? HW_L1I) && negb (hasOverlapFlag ICACHE_OVERLAP (E2 h))).
  - rstep. unfold dispatch_icache. rewrite (wrap_small 64) by lia. rstep. eapply (runs_clear_at h n _ _ _ _ _ _ T1); [exact HI2|lia|lia| |]. { intros k Hk. pose proof (Hexec k Hk). lia. }
    intros s3 HI3 _ _. rstep. eapply (runs_charge cfg period exec_max L Hcfg); [exact HI3|lia|exact Hic|]. intros s4 _ HI4. rstep. rstep. eapply Hbranch; [exact HI4|by right; left].
  - rstep. eapply Hbranch; [|by left]. rewrite Z.add_0_r. eapply TInv_later; [exact HI2|lia].
Qed.
End steps.
