(* ===== verification/IntervalCorrect.v ===== *)
(** * Correctness of the interval model

    [simulate] ends: the window is dispatched from until it is no longer full, at most [fp_one] calls of [dispatchWindow]
    after a micro-operation has entered.  Micro-operations are dispatched in program order, and the CPI stack accounts for
    every cycle. *)

From stdpp Require Import sets functions.
From S2P Require Import Prelude StateMonad SubsecondTime ContentionModel CircularQueue MicroOp MicroOpFacts CoreModelNehalem RobTimer RobInvariant RobAccess RobState RobDeps RobExecute IntervalContention Windows IntervalTimer WindowsFacts WindowsBranch WindowsInv IntervalInv IntervalSteps.
#[local] Open Scope Z_scope.

Section correct.
Context (cfg : IntervalCfg) (period exec_max L : Z).
Context {C Mem : Type} `{!IntervalContention C} `{!IntervalContentionOk C} `{!CoreMemory Mem} `{!CoreMemoryOk Mem} `{!CoreMemoryKnown Mem}.
Abbreviation wcfg := (it_windows cfg).
Abbreviation place := (WindowsFacts.place wcfg).
Abbreviation TInv := (IntervalInv.TInv cfg period exec_max L).
Abbreviation growth := (IntervalSteps.growth cfg L).
Implicit Types (s : IntervalTimer C Mem) (E : Z -> WindowEntry) (U : list DynamicMicroOp).
Context (Hcfg : TCfgOk cfg period exec_max L mem_max).
Abbreviation Hw := (tc_windows _ _ _ _ _ Hcfg).

(** ** The dispatch rate *)

Lemma TInv_bandwidth tr bw bw' U s o h g f n E T c : TInv tr bw U s o h g f n E T c -> TInv tr bw' U (it_with_bandwidth bw' s) o h g f n E T c.
Proof. intros [HW Ht []]. split; [done..|]. by split. Qed.

Lemma runs_effective_at tr bw U o h g f n E T c cp u Q s : TInv tr bw U s o h g f n E T c -> 0 <= cp < 2 ^ 24 ->
  (forall r s', cp <= r <= Z.max cp (h - o) -> (exists k, m_windows s' = with_contention k (m_windows s)) -> TInv tr bw U s' o h g f n E T c -> Q r s') ->
  runs (windows (getEffectiveCriticalPathLength wcfg cp u)) Q s.
Proof.
  intros H Hcp HQ. apply runs_windows. eapply (runs_effective wcfg period exec_max L Hw U o h n E g f); [exact (ti_windows H)|done|]. intros r k Hr _ _ HW'.
  apply HQ; [done|by exists k|]. eapply TInv_with_windows; [exact H|exact HW'|exact (ti_tail H)].
Qed.

(** Without a micro-operation to dispatch, the remaining bandwidth grows. *)
Lemma runs_rate tr bw U o h n E T c Q s : TInv tr bw U s o h h h n E T c -> 0 <= bw < fp_one ->
  (forall rate bw' s', TInv tr bw' U s' o h h h n E T c -> 0 <= rate -> 0 <= bw' < fp_one -> (rate = 0 -> bw + 1 <= bw') -> Q rate s') ->
  runs (calculateCurrentDispatchRate cfg) Q s.
Proof.
  intros H Hbw HQ. pose proof (ti_windows H) as HW. pose proof (wi_order _ HW) as (Ho & Hn & Hso & _). pose proof (wc_size _ Hw). pose proof (wc_cutoff _ Hw). pose proof (tc_width _ _ _ _ _ Hcfg).
  pose proof (wi_fields _ HW) as (_ & _ & _ & _ & El & _). destruct (critical_path_length_ok wcfg period exec_max L Hw U o h n E _ _ _ HW) as [Ecp Hcp].
  pose proof (wi_cp _ HW) as (_ & Hd & Hb). assert (Hone : fp_one = 2 ^ 14) by done.
  unfold calculateCurrentDispatchRate. rstep. rstep. destruct (Z.ltb_spec 0 (getCriticalPathLength (m_windows s))) as [Hpos|Hz]; cycle 1.
  { rstep. rstep. rstep. eapply (HQ _ 0); [by eapply TInv_bandwidth|lia|lia|lia]. }
  assert (Hold : 1 <= h - o) by nia. rstep. rewrite El.
  eapply wpe_lift; [unfold fp_set_int; rewrite (proj2 (Z.ltb_lt (Z.abs (h - o)) _)) by (rewrite Hone; change (2 ^ 63 - 1) with 9223372036854775807; change (Z.quot 9223372036854775807 (2 ^ 14)) with 562949953421311; lia); reflexivity|].
  rstep. eapply runs_effective_at; [exact H|lia|]. intros r s1 Hr _ HI1. rewrite swrap_small by lia. rstep.
  eapply wpe_lift; [unfold fp_div_int; rewrite (proj2 (Z.eqb_neq r 0)) by lia; reflexivity|]. rstep. rstep. rewrite (tr_bandwidth _ _ _ _ _ _ (ti_rest HI1)). unfold fp_add, fp_floor, fp_sub_int.
  set (q := Z.quot ((h - o) * fp_one) r). assert (Hr2 : r <= (h - o) * fp_one) by nia.
  assert (Hq : 1 <= q <= (h - o) * fp_one). { unfold q. rewrite Z.quot_div_nonneg by lia. split; [apply Z.div_le_lower_bound; lia|]. apply Z.div_le_upper_bound; [lia|]. nia. }
  rewrite Z.quot_div_nonneg by lia. pose proof (Z.div_mod (q + bw) fp_one ltac:(lia)) as Hdm. pose proof (Z.mod_pos_bound (q + bw) fp_one ltac:(lia)) as Hmb.
  assert (Hrate : 0 <= (q + bw) / fp_one < 2 ^ 32) by nia. rewrite wrap_small by lia. rstep. rstep. rstep. eapply HQ; [by eapply TInv_bandwidth|lia| |].
  - destruct (Z.ltb_spec ((q + bw) / fp_one) (m_dispatch_width cfg)); lia.
  - intros Hz. rewrite Hz in *. rewrite (proj2 (Z.ltb_lt 0 _)) by lia. lia.
Qed.

(** ** The dispatch of a cycle *)

(** What has been traced: the first [h] micro-operations, in program order. *)
Definition Traced U (tr : list DynamicMicroOp) (h : Z) : Prop :=
  Z.of_nat (length tr) = h /\ forall i d, tr !! i = Some d -> exists u, U !! i = Some u /\ same_input u d.

(** At most [N] micro-operations; the times of the model stay in range. *)
Context (N : Z) (HN : N * growth < 2 ^ 62 /\ N * growth * period < 2 ^ 64).

Lemma TInv_trace tr U bw s o h g f n E T c d : TInv tr bw U s o h g f n E T c -> TInv (tr ++ [d]) bw U (it_with_trace (it_trace s ++ [d]) s) o h g f n E T c.
Proof. intros [HW Ht [? ? ? ? ? ? Etr ?]]. split; [done..|]. split; try done. cbn. by rewrite Etr. Qed.

Lemma Traced_snoc U tr h d u : Traced U tr h -> U !! Z.to_nat h = Some u -> same_input u d -> Traced U (tr ++ [d]) (h + 1).
Proof.
  intros [Hl Ht] Hu Hs. split; [rewrite length_app; cbn; lia|]. intros i x Hx. apply lookup_app_Some in Hx as [Hx|[Hi Hx]]; [auto|].
  apply list_lookup_singleton_Some in Hx as [Hi' <-]. exists u. split; [|done]. rewrite <- Hu. f_equal. lia.
Qed.

Lemma runs_window_loop U M : forall tr bw o h n E c rate g Q s, TInv tr bw U s o h h h n E (h * growth) c -> Traced U tr h -> n <= N -> n - h <= Z.of_nat M ->
  pg_period g = period -> stop_ok (pg_stop g) ->
  (forall tr' o' h' E' g' s', TInv tr' bw U s' o' h' h' h' n E' (h' * growth) (c - pg_latency g + pg_latency g') -> Traced U tr' h' -> h <= h' <= n ->
     (h < n -> pg_instructions g < m_dispatch_width cfg -> pg_micro_ops g < rate -> pg_stop g = STOP_DISPATCH_NO_REASON -> h < h') ->
     pg_period g' = period -> stop_ok (pg_stop g') -> Q g' s') ->
  runs (dispatch_loop cfg period M rate g) Q s.
Proof.
  induction M as [|M IH]; intros tr bw o h n E c rate g Q s H Htr HnN HM Hp Hst HQ; pose proof (ti_windows H) as HW; pose proof (wi_order _ HW) as (Ho & Hhn & _); pose proof (wi_fields _ HW) as (Eh & _ & _ & Ewl & _);
    cbn [dispatch_loop]; rstep; rstep; unfold wIsEmpty; rewrite Ewl.
  - rewrite (proj2 (Z.eqb_eq (n - h) 0)) by lia. cbn [negb andb]. rstep. eapply (HQ tr o h E g s); try done; [|lia|lia]. by replace (c - pg_latency g + pg_latency g) with c by lia.
  - destruct (negb (n - h =? 0) && (pg_instructions g <? m_dispatch_width cfg) && (pg_micro_ops g <? rate) && (pg_stop g =? STOP_DISPATCH_NO_REASON)) eqn:Econd; cycle 1.
    { rstep. eapply (HQ tr o h E g s); try done; [by replace (c - pg_latency g + pg_latency g) with c by lia|lia|]. intros Hlt Hi Hm Hs. exfalso.
      rewrite (proj2 (Z.eqb_neq _ _)), (proj2 (Z.ltb_lt _ _)), (proj2 (Z.ltb_lt _ _)), (proj2 (Z.eqb_eq _ _)) in Econd by (done || lia). done. }
    assert (Hlt : h < n). { destruct (Z.eqb_spec (n - h) 0); [done|lia]. } clear Econd. pose proof (growth_pos cfg period exec_max L Hcfg). pose proof (tc_period _ _ _ _ _ Hcfg).
    assert (HhN : (h + 1) * growth <= N * growth) by nia.
    rstep. unfold getInstructionToDispatch. eapply TInv_gets; [exact H|]. rewrite Eh. rstep.
    eapply (runs_dispatch_uop cfg period exec_max L Hcfg tr bw U o h n E (h * growth) ((h + 1) * growth)); [exact H|done|lia|lia|nia|]. intros lat stop s1 o1 E1 HI1 Hst1. cbv iota.
    rstep. apply runs_windows. eapply (runs_dispatchInstruction wcfg period exec_max L Hw U o1 h n E1); [exact (ti_windows HI1)|done|]. intros w o2 HW2 Ho2 Et2.
    assert (HI2 : TInv tr bw U (it_with_windows w s1) o2 (h + 1) (h + 1) (h + 1) n E1 ((h + 1) * growth) (c + lat)) by (eapply TInv_with_windows; [exact HI1|exact HW2|rewrite Et2; exact (ti_tail HI1)]).
    set (s2 := it_with_windows w s1) in *. pose proof (wi_order _ HW2). rstep. eapply (runs_entry_at cfg period exec_max L Hcfg); [exact HI2|lia|].
    destruct (ti_entry cfg period exec_max L _ _ _ _ _ _ _ _ _ _ _ s2 h HI2 ltac:(lia)) as [He Hf]. rstep. eapply wpe_lift; [by apply (getDynMicroOp_ok h)|]. rstep. rstep.
    rstep. eapply wpe_lift; [unfold getPeriod; rewrite (fi_period _ _ _ _ Hf), (proj2 (Z.eqb_neq period 0)) by lia; reflexivity|].
    destruct (lookup_lt_is_Some_2 U (Z.to_nat h)) as [u Hu]; [pose proof (wi_entered HW); lia|].
    eapply IH; [by eapply TInv_trace| |done|lia|done|done|].
    { eapply Traced_snoc; [done|exact Hu|]. exact (wi_uops HW2 h u (wi_inside _ h HW2 ltac:(lia)) Hu). }
    intros tr' o' h' E' g' s' HI' Htr' Hh' _ Hp' Hst'. eapply (HQ tr' o' h' E' g' s'); [|done|lia|lia|done|done].
    eapply TInv_same; [exact HI'|]. cbn [pg_latency]. destruct (u64_split (pg_latency g + lat)) as [q ->]. apply (u64_shift _ _ (- q)). lia.
Qed.

(** ** The account of a cycle *)

Lemma fraction_ok tr bw U s o h n E T c i r : TInv tr bw U s o h h h n E T c -> (i < CPCONTR_TYPE_SIZE)%nat ->
  m_critical_path_tail (m_windows s) - m_critical_path_head (m_windows s) <= r -> exists x, getCpContrFraction i r (m_windows s) = Ok x.
Proof.
  intros H Hi Hr. pose proof (ti_windows H) as HW. pose proof (wi_cp _ HW) as (_ & Hd & Hb). destruct (wi_path HW) as [_ Hp]. pose proof (contributions_of_bound i _ (path_nonneg _ _ _ _ Hp)) as Hc.
  unfold getCpContrFraction. rewrite (wi_bytype HW), (wi_total HW). unfold aget. rewrite list_lookup_fmap, lookup_seq_lt by done. cbn [fmap option_fmap option_map mbind res_bind Nat.add].
  rewrite (proj2 (Z.leb_le _ _)) by lia. cbn [assert_ mbind res_bind]. destruct (Z.ltb_spec 0 (contributions (entries E o h))); [|eauto]. rewrite (proj2 (Z.eqb_neq r 0)) by lia. eauto.
Qed.

Lemma runs_add_fractions tr bw U o h n E T c r m : forall i Q s, (i + m = CPCONTR_TYPE_SIZE)%nat -> TInv tr bw U s o h h h n E T c ->
  m_critical_path_tail (m_windows s) - m_critical_path_head (m_windows s) <= r ->
  (forall s', TInv tr bw U s' o h h h n E T c -> Q tt s') -> runs (add_fractions m i r) Q s.
Proof.
  induction m as [|m IH]; intros i Q s Hi H Hr HQ; cbn [add_fractions]; [rstep; auto|].
  destruct (fraction_ok tr bw U s o h n E T c i r H ltac:(lia) Hr) as [x Ex]. rstep. rstep. rstep. eapply wpe_lift; [exact Ex|]. rstep. rstep. rstep.
  destruct (tr_stats _ _ _ _ _ _ (ti_rest H)) as (Hs1 & Hs2 & Hs3). destruct (lookup_lt_is_Some_2 (m_cpContrByType (is_dispatch (it_stats s))) i) as [v Hv]; [lia|].
  eapply wpe_lift; [by apply aget_ok|]. rstep. eapply TInv_upd_stats; [exact H| |].
  - split_and!; cbn; [done|done|by rewrite length_insert].
  - intros s1 Ew HI1. apply IH; [lia|done|by rewrite Ew|done].
Qed.

Lemma TInv_base tr bw U s o h n E T c k' : TInv tr bw U s o h h h n E T c -> interval_cpi_lengths k' -> u64 (interval_cpi_sum k') = u64 (interval_cpi_sum (it_cpi s) + st_mul 1 period) ->
  TInv tr bw U (it_with_cpi k' s) o h h h n E T (c + 1).
Proof.
  intros [HW Ht [? ? ? ? ? [Hl Hs] ? ?]] Hl' Hs'. split; [done..|]. split; try done. split; [done|]. cbn. rewrite Hs'. unfold st_mul. rewrite wrap_add_r by lia.
  rewrite <- wrap_add_l, Hs, wrap_add_l by lia. f_equal. lia.
Qed.

Lemma stop_index stop (a b r : bool) : stop_ok stop ->
  let stop := if a then ADD_STOP_DISPATCH_REASON STOP_DISPATCH_WINDOW_EMPTY stop else stop in
  let stop := if b then ADD_STOP_DISPATCH_REASON STOP_DISPATCH_DISPATCH_WIDTH stop else stop in
  (Z.to_nat (if r then ADD_STOP_DISPATCH_REASON STOP_DISPATCH_DISPATCH_RATE stop else stop) < STOP_DISPATCH_SIZE)%nat.
Proof. intros [->|[->| ->]]; destruct a, b, r; vm_compute; lia. Qed.

Lemma runs_account_base tr bw U o h n E T c rate g Q s : TInv tr bw U s o h h h n E T c -> pg_period g = period -> stop_ok (pg_stop g) ->
  (forall s', TInv tr bw U s' o h h h n E T (c + 1) -> Q tt s') -> runs (account_base cfg rate g) Q s.
Proof.
  intros H Hp Hst HQ. pose proof (ti_windows H) as HW. destruct (critical_path_length_ok wcfg period exec_max L Hw U o h n E _ _ _ HW) as [Ecp Hcp]. pose proof (wi_order _ HW) as (? & ? & ? & _). pose proof (wc_size _ Hw).
  unfold account_base. rstep. rstep. set (empty := wIsEmpty (m_windows s)). set (wide := m_dispatch_width cfg <=? pg_instructions g). cbv zeta.
  set (stop1 := if empty then _ else _). set (stop2 := if wide then _ else _).
  assert (Hcont : forall s' (r : bool), TInv tr bw U s' o h h h n E T c ->
    runs (k ← gets it_cpi; k ← lift_res (interval_cpi_add IcBase (st_mul 1 (pg_period g)) k); _ ← modify (it_with_cpi k); t ← gets it_stats;
      v ← lift_res (aget (m_cpiBaseStopDispatch (is_dispatch t)) (Z.to_nat (if r then ADD_STOP_DISPATCH_REASON STOP_DISPATCH_DISPATCH_RATE stop2 else stop2)));
      upd_stats (fun t => mkIntervalStats (is_uops t) (is_overlap t) (is_latency t) (is_mlp t)
        (mkDispatchStats (<[Z.to_nat (if r then ADD_STOP_DISPATCH_REASON STOP_DISPATCH_DISPATCH_RATE stop2 else stop2) := u64 (v + 1)]> (m_cpiBaseStopDispatch (is_dispatch t))) (m_cpContrByType (is_dispatch t))))) Q s').
  { intros s' r H'. pose proof (stop_index (pg_stop g) empty wide r Hst) as Hix. cbv zeta in Hix. fold stop1 in Hix. fold stop2 in Hix. set (ix := Z.to_nat _) in *.
    destruct (tr_cpi _ _ _ _ _ _ (ti_rest H')) as [Hl _]. rewrite Hp. destruct (interval_cpi_add_ok IcBase (st_mul 1 period) (it_cpi s') I Hl) as (k' & Ek & Hl' & Hs'). rstep. rstep. rstep. eapply wpe_lift; [exact Ek|].
    rstep. rstep. rstep. rstep. destruct (tr_stats _ _ _ _ _ _ (ti_rest H')) as (Hs1 & Hs2 & Hs3). change (it_stats (it_with_cpi k' s')) with (it_stats s').
    destruct (lookup_lt_is_Some_2 (m_cpiBaseStopDispatch (is_dispatch (it_stats s'))) ix) as [v Hv]; [by rewrite Hs2|]. rstep. eapply wpe_lift; [by apply aget_ok|].
    eapply TInv_upd_stats; [exact (TInv_base _ _ _ _ _ _ _ _ _ _ _ H' Hl' Hs')| |].
    - split_and!; cbn; [done|by rewrite length_insert|done].
    - intros s2 _ HI2. by apply HQ. }
  rstep. destruct (rate <=? pg_micro_ops g); [|rstep; exact (Hcont s false H)]. rstep. rewrite wrap_small by lia. eapply runs_effective_at; [exact H|lia|]. intros r s1 Hr [k Ek] HI1.
  rewrite s32_small, wrap_small by (rewrite ?s32_small; lia). rstep. eapply runs_add_fractions; [done|exact HI1|rewrite Ek; cbn; lia|]. intros s2 HI2. rstep. exact (Hcont s2 true HI2).
Qed.

(** A cycle dispatches a micro-operation of a window that is not empty, or the remaining bandwidth grows. *)
Lemma runs_dispatchWindow tr bw U o h n E c Q s : TInv tr bw U s o h h h n E (h * growth) c -> Traced U tr h -> n <= N -> 0 <= bw < fp_one -> h < n ->
  (forall k lat tr' bw' o' h' E' s', TInv tr' bw' U s' o' h' h' h' n E' (h' * growth) (c + lat) -> Traced U tr' h' -> 0 <= bw' < fp_one -> h < h' <= n \/ h' = h /\ bw + 1 <= bw' -> Q (k, lat) s') ->
  runs (dispatchWindow cfg period) Q s.
Proof.
  intros H Htr HnN Hbw Hlt HQ. pose proof (tc_width _ _ _ _ _ Hcfg). unfold dispatchWindow. rstep. eapply runs_rate; [exact H|done|]. intros rate bw' s1 HI1 Hr0 Hbw' Hz. rstep. rstep.
  pose proof (wi_fields _ (ti_windows HI1)) as (_ & _ & _ & Ewl & _). rewrite Ewl. rstep. eapply (runs_window_loop U); [exact HI1|exact Htr|done|lia|done|by left|]. intros tr' o' h' E' g' s2 HI2 Htr' Hh' Hprog Hp' Hst'. cbn in HI2, Hprog.
  assert (Hdone : h < h' <= n \/ h' = h /\ bw + 1 <= bw').
  { destruct (decide (rate = 0)) as [Er|]; [destruct (decide (h' = h)); [right; split; [done|by apply Hz]|left; lia]|]. left. split; [apply Hprog; lia|lia]. }
  destruct (Z.eqb_spec (pg_latency g') 0) as [E0|_].
  - rstep. eapply runs_account_base; [exact HI2|done|done|]. intros s3 HI3. rstep. eapply (HQ _ _ tr' bw' o' h' E'); try done. replace (c - 0 + pg_latency g' + 1) with (c + 1) in HI3 by lia. done.
  - rstep. eapply (HQ _ _ tr' bw' o' h' E'); try done. replace (c - 0 + pg_latency g') with (c + pg_latency g') in HI2 by lia. done.
Qed.

(** ** The window is not full for long *)

Lemma runs_dispatch_full U fuel : forall tr bw o h n E c k lat Q s, TInv tr bw U s o h h h n E (h * growth) c -> Traced U tr h -> n <= N -> 0 <= bw < fp_one -> fp_one - bw <= Z.of_nat fuel ->
  (forall k' lat' tr' bw' o' h' E' s', TInv tr' bw' U s' o' h' h' h' n E' (h' * growth) (c - lat + lat') -> Traced U tr' h' -> 0 <= bw' < fp_one -> h <= h' -> n - h' < window_size wcfg -> Q (k', lat') s') ->
  runs (dispatch_full cfg period fuel k lat) Q s.
Proof.
  pose proof (wc_size _ Hw) as Hsz. induction fuel as [|fuel IH]; intros tr bw o h n E c k lat Q s H Htr HnN Hbw Hfuel HQ; [lia|]. pose proof (ti_windows H) as HW. pose proof (wi_order _ HW) as (? & ? & ? & ?).
  pose proof (wi_fields _ HW) as (_ & _ & _ & Ewl & _). cbn [dispatch_full]. rstep. rstep. unfold wIsFull. rewrite Ewl. destruct (Z.eqb_spec (n - h) (window_size wcfg)) as [Hfull|Hnot].
  - rstep. eapply runs_dispatchWindow; [exact H|exact Htr|done|done|lia|]. intros k1 lat1 tr1 bw1 o1 h1 E1 s1 HI1 Htr1 Hbw1 [Hh1|[-> Hgrow]]; cbv iota.
    + assert (Hend : runs (w ← gets m_windows; if wIsFull wcfg w then match fuel with O => fail OutOfFuel | S fuel => '(n, latency) ← dispatchWindow cfg period; dispatch_full cfg period fuel (u64 (u64 (k + k1) + n)) (u64 (u64 (lat + lat1) + latency)) end
        else mret (u64 (k + k1), u64 (lat + lat1))) Q s1); [|by destruct fuel].
      pose proof (wi_fields _ (ti_windows HI1)) as (_ & _ & _ & Ewl1 & _). rstep. rstep. unfold wIsFull. rewrite Ewl1, (proj2 (Z.eqb_neq _ _)) by lia. rstep. eapply HQ; [|exact Htr1|done|lia|lia].
      eapply TInv_same; [exact HI1|]. rewrite wrap_add_r by lia. f_equal. lia.
    + eapply IH; [exact HI1|exact Htr1|done|done|lia|]. intros k' lat' tr' bw' o' h' E' s' HI' Htr' Hbw' Hh' Hn'. eapply HQ; [|exact Htr'|done|lia|done].
      eapply TInv_same; [exact HI'|]. destruct (u64_split (lat + lat1)) as [q ->]. apply (u64_shift _ _ (- q)). lia.
  - rstep. eapply (HQ k lat tr bw o h E s); [|done|done|lia|lia]. by replace (c - lat + lat) with c by lia.
Qed.
(** ** Simulation *)

(** The micro-operations that enter the window: those that are not squashed, with the granularity of memory dependencies. *)
Fixpoint entering (insts : list (DynamicMicroOp * Z)) : list DynamicMicroOp :=
  match insts with [] => [] | (d, _) :: insts => if squashed d then entering insts else mask_address cfg d :: entering insts end.

(** What the callers of [simulate] promise. *)
Fixpoint insts_ok U (insts : list (DynamicMicroOp * Z)) : Prop :=
  match insts with
  | [] => True
  | (d, t) :: insts => if squashed d then insts_ok U insts
      else t = period /\ UopIn (tables wcfg) exec_max L 0 U (mask_address cfg d) /\ insts_ok (U ++ [mask_address cfg d]) insts
  end.

Lemma TInv_enter tr bw U s w d o h n E T c E' : TInv tr bw U s o h h h n E T c -> WInv wcfg period exec_max L (U ++ [d]) w o h h h (n + 1) E' ->
  m_critical_path_tail w = m_critical_path_tail (m_windows s) -> TInv tr bw (U ++ [d]) (it_with_windows w s) o h h h (n + 1) E' T c.
Proof. intros [HW Ht []] HW' Et. split; [done|cbn; lia|]. by split. Qed.

Lemma Traced_enter U tr h d : Traced U tr h -> Traced (U ++ [d]) tr h.
Proof. intros [Hl Ht]. split; [done|]. intros i x Hx. destruct (Ht i x Hx) as (u & Hu & Hs). exists u. split; [|done]. by apply lookup_app_l_Some. Qed.

Lemma subtype_index_lt t : (subtype_index t < UOP_SUBTYPE_SIZE)%nat.
Proof. unfold UOP_SUBTYPE_SIZE. destruct t; cbn; lia. Qed.

Lemma runs_count_uop tr bw U o h n E T c u Q s : TInv tr bw U s o h h h n E T c -> (forall s', TInv tr bw U s' o h h h n E T c -> Q tt s') -> runs (count_uop u) Q s.
Proof.
  intros H HQ. destruct (tr_stats _ _ _ _ _ _ (ti_rest H)) as (Hs1 & Hs2 & Hs3). pose proof (subtype_index_lt (uop_subtype u)).
  destruct (lookup_lt_is_Some_2 (is_uop_type_count (is_uops (it_stats s))) (subtype_index (uop_subtype u))) as [v Hv]; [lia|].
  unfold count_uop. rstep. rstep. rstep. eapply wpe_lift; [by apply aget_ok|]. eapply TInv_upd_stats; [exact H| |intros s' _ HI; by apply HQ]. split_and!; cbn; [by rewrite length_insert|done|done].
Qed.

Lemma growth_one : 1 <= growth.
Proof. unfold IntervalSteps.growth. pose proof (tc_penalty _ _ _ _ _ Hcfg). pose proof (wc_cutoff _ Hw). pose proof (wc_size _ Hw). pose proof (L_range cfg period exec_max L Hcfg). nia. Qed.

Lemma runs_simulate_loop fuel insts : fp_one <= Z.of_nat fuel -> forall U tr bw o h n E c k lat Q s, TInv tr bw U s o h h h n E (h * growth) c -> Traced U tr h -> 0 <= bw < fp_one -> n - h < window_size wcfg ->
  insts_ok U insts -> Z.of_nat (length (U ++ entering insts)) <= N ->
  (forall k' lat' tr' bw' o' h' n' E' s', TInv tr' bw' (U ++ entering insts) s' o' h' h' h' n' E' (h' * growth) (c - lat + lat') -> Traced (U ++ entering insts) tr' h' -> 0 <= bw' < fp_one -> n' - h' < window_size wcfg -> Q (k', lat') s') ->
  runs (simulate_loop cfg period fuel insts k lat) Q s.
Proof.
  intros Hfuel. induction insts as [|[d t] insts IH]; intros U tr bw o h n E c k lat Q s H Htr Hbw Hfree Hin Hlen HQ; cbn [simulate_loop entering insts_ok] in *.
  { rewrite app_nil_r in HQ. rstep. eapply HQ; [|done..]. by replace (c - lat + lat) with c by lia. }
  destruct (squashed d); [by eapply IH|]. destruct Hin as (-> & Hd & Hin). set (d' := mask_address cfg d) in *. rewrite cons_middle, app_assoc in HQ, Hlen.
  pose proof (wi_entered (ti_windows H)) as Hn. pose proof growth_one. assert (HnN : n + 1 <= N) by (rewrite !length_app in Hlen; cbn in Hlen; lia).
  rstep. apply runs_windows. eapply (runs_add wcfg period exec_max L Hw U o h n E); [exact (ti_windows H)|done|nia|exact Hd|apply (L_range cfg period exec_max L Hcfg)|]. intros w E1 HW1 Et1 _.
  pose proof (TInv_enter _ _ _ _ _ _ _ _ _ _ _ _ _ H HW1 Et1) as HI1. rstep. eapply runs_count_uop; [exact HI1|]. intros s2 HI2.
  rstep. eapply runs_dispatch_full; [exact HI2|by apply Traced_enter|done|done|lia|]. intros k1 lat1 tr1 bw1 o1 h1 E1' s3 HI3 Htr3 Hbw3 _ Hfree3. cbv iota.
  eapply IH; [exact HI3|exact Htr3|done|done|exact Hin|done|]. intros k' lat' tr' bw' o' h' n' E' s' HI' Htr' Hbw' Hfree'. eapply HQ; [|exact Htr'|done|exact Hfree'].
  replace (c - lat + lat') with (c - lat + lat1 - lat1 + lat') by lia. exact HI'.
Qed.
End correct.
