(* ===== verification/IntervalTheorems.v ===== *)
(** * Theorems about the interval model

    The states that the interval model can be in between calls of [simulate] ([visited]), and what holds in them, stated on
    the state: simulation ends, micro-operations are dispatched in program order, the CPI stack accounts for the latency that
    is returned, the length of the critical path is what the micro-operations of the old window contribute to it, and the
    resolution time of a branch is the longest chain of dependent micro-operations before it. *)

From stdpp Require Import sets functions.
From S2P Require Import Prelude StateMonad Utils SubsecondTime ContentionModel CircularQueue MicroOp MicroOpFacts CoreModelNehalem RobTimer RobInvariant RobAccess RobState RobDeps RobExecute RobCorrect IntervalContention Windows IntervalTimer WindowsFacts WindowsBranch WindowsInv IntervalInv IntervalSteps IntervalCorrect.
#[local] Open Scope Z_scope.

(** ** The windows of a state *)

Section views.
Context (cfg : WindowsCfg) {C : Type}.
Implicit Types (w : Windows C).

(** The numbers of the next micro-operation to dispatch and of the oldest one of the old window. *)
Definition next_dispatched w : Z := m_next_sequence_number w - m_window_length w.
Definition oldest w : Z := next_dispatched w - m_old_window_length w.
(** The entry of the micro-operation [k]. *)
Definition entry_at w (k : Z) : WindowEntry :=
  default (mkWE 0 None 0 0 0 0 0 0 NO_DEP 0 0 0) (m_double_window w !! Z.to_nat (place cfg k)).
(** The old window, the oldest micro-operation first. *)
Definition old_window w : list WindowEntry := entries (entry_at w) (oldest w) (next_dispatched w).
(** The chains of dependent micro-operations of the old window that end in the next micro-operation to dispatch, behind a direct
    producer with a latency of at least 1. *)
Definition old_chain w (l : list Z) : Prop := chain (oldest w) (next_dispatched w) (entry_at w) l.
Definition chain_latency w (l : list Z) : Z := weight (entry_at w) l.

Context (period exec_max L : Z) `{!IntervalContention C} `{!IntervalContentionOk C}.

Lemma views_ok U w o h g f n E : WInv cfg period exec_max L U w o h g f n E ->
  oldest w = o /\ next_dispatched w = h /\ (forall k, inside cfg n k -> entry_at w k = E k) /\ old_window w = entries E o h.
Proof.
  intros H. pose proof (wi_fields _ H) as (_ & _ & _ & Ewl & Eol & En). assert (Eh : next_dispatched w = h) by (unfold next_dispatched; lia). assert (Eo : oldest w = o) by (unfold oldest; lia).
  assert (Ee : forall k, inside cfg n k -> entry_at w k = E k).
  { intros k [Hk Hk']. unfold entry_at. by rewrite (proj1 (rg_entries _ _ _ _ _ _ _ _ _ _ _ _ (wi_rep H) k Hk Hk')). }
  split_and!; try done. unfold old_window. rewrite Eo, Eh. apply entries_ext. intros k Hk. apply Ee, (wi_inside w k H). pose proof (wi_order _ H). lia.
Qed.
End views.

Section visited.
Context (cfg : IntervalCfg) (period exec_max L : Z).
Context {C Mem : Type} `{!IntervalContention C} `{!IntervalContentionOk C} `{!CoreMemory Mem} `{!CoreMemoryOk Mem} `{!CoreMemoryKnown Mem}.
Context (contention : C) (memory : Mem) (N : Z).
Abbreviation wcfg := (it_windows cfg).
Abbreviation TInv := (IntervalInv.TInv cfg period exec_max L).
Abbreviation growth := (IntervalSteps.growth cfg L).
Abbreviation entering := (entering cfg).
Abbreviation insts_ok := (insts_ok cfg period exec_max L).
Implicit Types (s : IntervalTimer C Mem) (U : list DynamicMicroOp) (insts : list (DynamicMicroOp * Z)).

(** What the construction relies on; the times of the model stay in range for [N] micro-operations. *)
Record IntervalStartOk : Prop := {
  is_cfg : TCfgOk cfg period exec_max L mem_max;
  is_grains : isPower2 (u32 (mem_gran cfg)) = true /\ isPower2 (u32 (lll_gran cfg)) = true;
  is_contention : ic_holds [] contention;
  is_memory : mem_ok memory;
  is_range : N * growth < 2 ^ 62 /\ N * growth * period < 2 ^ 64
}.

(** [U] are the micro-operations that have entered the window. *)
Inductive visited : list DynamicMicroOp -> IntervalTimer C Mem -> Prop :=
  | visited_new s : IntervalTimer_new cfg contention memory = Ok s -> visited [] s
  | visited_simulate U s insts fuel r s' : visited U s -> insts_ok U insts -> Z.of_nat (length (U ++ entering insts)) <= N -> fp_one <= Z.of_nat fuel ->
      simulate cfg period fuel insts s = Ok (r, s') -> visited (U ++ entering insts) s'.

(** What holds between calls; [c] cycles have been accounted for. *)
Definition Between U (c : Z) s : Prop := exists tr bw o h n E,
  TInv tr bw U s o h h h n E (h * growth) c /\ Traced U tr h /\ 0 <= bw < fp_one /\ n - h < window_size wcfg.

Context (Hstart : IntervalStartOk).
Abbreviation Hcfg := (is_cfg Hstart).

Lemma between_new : exists s, IntervalTimer_new cfg contention memory = Ok s /\ Between [] 0 s.
Proof.
  destruct (Windows_new_ok wcfg period exec_max L (tc_windows _ _ _ _ _ Hcfg) contention [] (fun _ => mkWE 0 None 0 0 0 0 0 0 NO_DEP 0 0 0) (is_contention Hstart)) as (w & Ew & HW & Et).
  destruct (is_grains Hstart) as [Hg1 Hg2]. unfold IntervalTimer_new. rewrite Ew, Hg1, Hg2. cbn [mbind res_bind assert_]. eexists. split; [reflexivity|].
  pose proof (wc_size _ (tc_windows _ _ _ _ _ Hcfg)). eexists [], 0, 0, 0, 0, _. split_and!; [|done|done|done|lia]. split; [exact HW|cbn; lia|]. split; try done; cbn.
  - split; [done|]. split; [apply length_replicate|]. apply Forall_replicate. cbn. lia.
  - exact (is_memory Hstart).
  - split; [done|]. by rewrite Z.mul_0_r.
Qed.

Lemma between_simulate U s c insts fuel : Between U c s -> insts_ok U insts -> Z.of_nat (length (U ++ entering insts)) <= N -> fp_one <= Z.of_nat fuel ->
  exists k latency s', simulate cfg period fuel insts s = Ok ((k, latency), s') /\ Between (U ++ entering insts) (c + latency) s'.
Proof.
  intros (tr & bw & o & h & n & E & HI & Htr & Hbw & Hfree) Hin Hlen Hfuel. unfold simulate.
  assert (Hrun : runs (simulate_loop cfg period fuel insts 0 0) (fun r s' => Between (U ++ entering insts) (c + r.2) s') s).
  { eapply (runs_simulate_loop cfg period exec_max L Hcfg N (is_range Hstart)); [done|exact HI|done..|]. intros k' lat' tr' bw' o' h' n' E' s' HI' Htr' Hbw' Hfree'.
    exists tr', bw', o', h', n', E'. split_and!; try done; [|lia|lia]. by replace (c + (k', lat').2) with (c - 0 + lat') by (cbn; lia). }
  unfold wpe in Hrun. destruct (simulate_loop _ _ _ _ _ _ s) as [[[k latency] s']|]; [|done]. eauto.
Qed.

Lemma visited_between U s : visited U s -> exists c, Between U c s.
Proof.
  induction 1 as [s Es|U s insts fuel r s' Hv [c IH] Hin Hlen Hfuel Es].
  - destruct between_new as (s' & Es' & HB). rewrite Es in Es'. injection Es' as <-. eauto.
  - destruct (between_simulate U s c insts fuel IH Hin Hlen Hfuel) as (k & lat & s2 & Es2 & HB). rewrite Es in Es2. injection Es2 as _ <-. eauto.
Qed.

Lemma between_stack U c s : Between U c s -> u64 (interval_cpi_sum (it_cpi s)) = u64 (period * c).
Proof. intros (tr & bw & o & h & n & E & HI & _). exact (proj2 (tr_cpi _ _ _ _ _ _ (ti_rest HI))). Qed.

Lemma between_order U c s : Between U c s -> wIsFull wcfg (m_windows s) = false /\
  Z.of_nat (length (it_trace s)) + m_window_length (m_windows s) = Z.of_nat (length U) /\
  forall i d, it_trace s !! i = Some d -> exists u, U !! i = Some u /\ same_input u d.
Proof.
  intros (tr & bw & o & h & n & E & HI & [Hl Htr] & _ & Hfree). pose proof (ti_windows HI) as HW. pose proof (wi_fields _ HW) as (_ & _ & _ & Ewl & _). rewrite (tr_trace _ _ _ _ _ _ (ti_rest HI)).
  pose proof (wi_entered HW). split_and!; [|lia|done]. unfold wIsFull. apply Z.eqb_neq. lia.
Qed.

(** ** Theorems *)

(** C23: simulation with the interval model ends: from every state that the model can be in between calls, [simulate] takes all
    the micro-operations it is given, calling [dispatchWindow] at most 16384 times for each; afterwards the window has room
    again, the micro-operations that have been dispatched are the first ones that entered, in program order, and
    the others wait in the window; and the CPI stack has grown by the latency that is returned, in picoseconds modulo
    2^64. *)
Theorem interval_simulate_ends U s insts fuel : visited U s -> insts_ok U insts -> Z.of_nat (length (U ++ entering insts)) <= N -> 16384 <= Z.of_nat fuel ->
  exists k latency s', simulate cfg period fuel insts s = Ok ((k, latency), s') /\ visited (U ++ entering insts) s' /\
    wIsFull wcfg (m_windows s') = false /\ Z.of_nat (length (it_trace s')) + m_window_length (m_windows s') = Z.of_nat (length (U ++ entering insts)) /\
    (forall i d, it_trace s' !! i = Some d -> exists u, (U ++ entering insts) !! i = Some u /\ same_input u d) /\
    u64 (interval_cpi_sum (it_cpi s')) = u64 (interval_cpi_sum (it_cpi s) + period * latency).
Proof.
  intros Hv Hin Hlen Hfuel. destruct (visited_between U s Hv) as [c HB]. destruct (between_simulate U s c insts fuel HB Hin Hlen Hfuel) as (k & lat & s' & Es & HB').
  destruct (between_order _ _ _ HB') as (Hf & Hl & Ht). exists k, lat, s'. split_and!; try done; [by eapply visited_simulate|].
  rewrite (between_stack _ _ _ HB'), Z.mul_add_distr_l, <- wrap_add_l, <- (between_stack _ _ _ HB), wrap_add_l by lia. done.
Qed.

(** C25: the length of the critical path of the interval model is the sum of what the micro-operations of the old window
    contribute to it, each less than the cut-off for long latencies; [m_cpcontr_total] and [m_cpcontr_bytype] are that sum
    and its parts by type of micro-operation, as which the cycles that the critical path costs are reported; and no
    micro-operation of the old window is executed after the end of the path. *)
Theorem critical_path_adds_up U s : visited U s ->
  let w := m_windows s in let l := old_window wcfg w in
  m_critical_path_tail w - m_critical_path_head w = contributions l /\ getCriticalPathLength w = contributions l /\ m_cpcontr_total w = contributions l /\
  (forall i, (i < CPCONTR_TYPE_SIZE)%nat -> m_cpcontr_bytype w !! i = Some (contributions_of i l)) /\ m_old_window_length w = Z.of_nat (length l) /\
  Forall (fun e => 0 <= cpContr e < Z.max 1 (long_latency_cutoff wcfg) /\ execTime e <= m_critical_path_tail w) l.
Proof.
  intros Hv w l. destruct (visited_between U s Hv) as (c & tr & bw & o & h & n & E & HI & _). pose proof (ti_windows HI) as HW. destruct (views_ok _ _ _ _ _ _ _ _ _ _ _ _ HW) as (_ & _ & _ & El). fold w l in El. rewrite El.
  destruct (wi_path HW) as [_ Hp]. pose proof (path_total _ _ _ _ Hp) as Ht. pose proof (path_exec _ _ _ _ Hp) as Hx. pose proof (wi_order _ HW). pose proof (wi_fields _ HW) as (_ & _ & _ & _ & Eol & _).
  destruct (critical_path_length_ok wcfg period exec_max L (tc_windows _ _ _ _ _ Hcfg) U o h n E _ _ _ HW) as [Ecp _]. fold w in Ht, Hx, Eol, Ecp. split_and!; [lia|lia|exact (wi_total HW)| |rewrite entries_length; lia|].
  - intros i Hi. unfold w. rewrite (wi_bytype HW), list_lookup_fmap, lookup_seq_lt by done. done.
  - apply Forall_and. split; [by eapply path_contributions|done].
Qed.

(** C24: [calculateBranchResolutionLatency] computes the longest chain: when the window is not empty, the resolution time of the
    micro-operation to be dispatched is the largest sum of latencies of a chain of micro-operations of the old window, each
    depending on the one before and the last one, whose latency is at least 1, being depended on by the micro-operation to be
    dispatched (0 when there is no such chain); the state does not change.  Chains whose last micro-operation takes no time are
    not followed ([old_chain]): the code marks a micro-operation as reached by a time other than 0. *)
Theorem branch_resolution_longest_chain U s : visited U s -> wIsEmpty (m_windows s) = false ->
  let w := m_windows s in
  exists r, calculateBranchResolutionLatency wcfg w = Ok (r, w) /\ (exists l, old_chain wcfg w l /\ chain_latency wcfg w l = r) /\
    forall l, old_chain wcfg w l -> chain_latency wcfg w l <= r.
Proof.
  intros Hv Hne w. destruct (visited_between U s Hv) as (c & tr & bw & o & h & n & E & HI & _). pose proof (ti_windows HI) as HW. pose proof (wi_order _ HW) as (? & ? & ? & ?).
  destruct (views_ok _ _ _ _ _ _ _ _ _ _ _ _ HW) as (Eo & Eh & Ee & El). pose proof (wi_fields _ HW) as (_ & _ & _ & Ewl & _). assert (Hn : h < n) by (unfold wIsEmpty in Hne; apply Z.eqb_neq in Hne; lia).
  unfold old_chain, chain_latency. fold w in Eo, Eh, Ee, El |- *. rewrite Eo, Eh.
  destruct (resolution_ok cfg period exec_max L Hcfg tr bw U o h n E (h * growth) c s (entry_at wcfg w) HI Hn Ee) as (r & Er & Hr & [Hs Hc]). exists r. split_and!; [exact Er|exact Hs|].
  intros [|k l] Hch; [cbn; lia|]. apply Hc; [apply chain_in in Hch; lia|done].
Qed.
End visited.

(** ** A concrete core

    A core with a window of four micro-operations, two of which are dispatched per cycle, the contention model for the ports
    of a Nehalem core, and a memory where every access takes 50. *)

#[local] Open Scope string_scope.
#[local] Open Scope list_scope.
#[local] Open Scope Z_scope.

#[global] Instance flat_memory_known : CoreMemoryKnown unit.
Proof. intros w a sz ip t m lat h m' _ [= <- <- <-]. done. Qed.

Definition small_cfg : IntervalCfg := mkIntervalCfg (mkWindowsCfg 4 true 30 20) 2 8 8 64 2.

(** Two multiplications, a store and a load from where it stores, and a chain of three multiplications. *)
Definition small_insts : list DynamicMicroOp :=
  [demo_exec [] [3%nat]; demo_exec [3%nat] [4%nat]; demo_store [5%nat] [4%nat] 64; demo_load [5%nat] [6%nat] 64;
   demo_exec [6%nat] [7%nat]; demo_exec [7%nat] [8%nat]; demo_exec [8%nat] [9%nat]].
Definition timed (l : list DynamicMicroOp) : list (DynamicMicroOp * Z) := (fun d => (d, 10)) <$> l.

Definition small_new : res (IntervalTimer IntervalContentionNehalem unit) := IntervalTimer_new small_cfg IntervalContentionNehalem_new tt.
Definition small_run (l : list DynamicMicroOp) : res (IntervalTimer IntervalContentionNehalem unit) :=
  s ← small_new; '(_, s) ← simulate small_cfg 10 (Z.to_nat 16384) (timed l) s; Ok s.
Abbreviation small_visited := (visited small_cfg 10 40 60 IntervalContentionNehalem_new tt 1000).
Abbreviation small_entering l := (entering small_cfg (timed l)).

Lemma small_start : IntervalStartOk small_cfg 10 40 60 IntervalContentionNehalem_new tt 1000.
Proof. split; [split; [split|..]|..]; vm_compute; try split; done. Qed.

Lemma small_uop_in U d : demo_uop_ok d = true -> UopIn (tables (it_windows small_cfg)) 40 60 0 U d.
Proof. intros Hd. destruct (demo_uop_in false 0 U d Hd ltac:(lia)). by split. Qed.

Lemma small_insts_ok l U : forallb (fun d => negb (squashed d) && demo_uop_ok (mask_address small_cfg d)) l = true -> insts_ok small_cfg 10 40 60 U (timed l).
Proof.
  revert U. induction l as [|d l IH]; intros U H; [done|]. cbn [forallb] in H. rewrite !andb_true_iff, negb_true_iff in H. destruct H as [[H0 H1] H2].
  change (timed (d :: l)) with ((d, 10) :: timed l). cbn [insts_ok]. rewrite H0. split_and!; [done|by apply small_uop_in|by apply IH].
Qed.

Lemma small_checked : forallb (fun d => negb (squashed d) && demo_uop_ok (mask_address small_cfg d)) small_insts = true.
Proof. by vm_compute. Qed.

Lemma small_run_visited s : small_run small_insts = Ok s -> small_visited (small_entering small_insts) s.
Proof.
  unfold small_run. destruct small_new as [s0|] eqn:E0; [|done]. cbn [mbind res_bind]. destruct (simulate small_cfg 10 (Z.to_nat 16384) (timed small_insts) s0) as [[r s1]|] eqn:E1; [|done]. intros [= <-].
  change (small_entering small_insts) with ([] ++ small_entering small_insts). eapply visited_simulate; [by apply visited_new|apply small_insts_ok, small_checked|vm_compute; done| |exact E1].
  by rewrite Z2Nat.id.
Qed.

(** After the seven micro-operations, four have been dispatched; the chain that they form takes 18 cycles. *)
Definition small_check (s : IntervalTimer IntervalContentionNehalem unit) : bool :=
  let w := m_windows s in
  (length (it_trace s) =? 4)%nat && (m_window_length w =? 3) && (getCriticalPathLength w =? 13) &&
  match calculateBranchResolutionLatency (it_windows small_cfg) w with Ok (r, _) => r =? 18 | Err _ => false end.

Lemma small_checks : match small_run small_insts with Ok s => small_check s = true | Err _ => False end.
Proof. vm_compute. reflexivity. Qed.

Lemma small_state : exists s, small_run small_insts = Ok s /\ small_visited (small_entering small_insts) s /\ small_check s = true.
Proof.
  pose proof small_run_visited as Hv. generalize small_checks. revert Hv. generalize (small_run small_insts) as r.
  intros [s|] Hv H; [|destruct H]. exists s. split_and!; try done. by apply Hv.
Qed.

(** The same micro-operations again, from the state that the first ones leave. *)
Lemma interval_simulate_ends_witness : exists s k latency s', small_run small_insts = Ok s /\
  simulate small_cfg 10 (Z.to_nat 16384) (timed small_insts) s = Ok ((k, latency), s') /\
  Z.of_nat (length (it_trace s')) + m_window_length (m_windows s') = 14 /\
  u64 (interval_cpi_sum (it_cpi s')) = u64 (interval_cpi_sum (it_cpi s) + 10 * latency).
Proof.
  destruct small_state as (s & Es & Hv & _). exists s.
  destruct (interval_simulate_ends small_cfg 10 40 60 IntervalContentionNehalem_new tt 1000 small_start (small_entering small_insts) s (timed small_insts) (Z.to_nat 16384) Hv) as (k & lat & s' & E' & _ & _ & Hl & _ & Hc).
  - apply small_insts_ok, small_checked.
  - vm_compute. done.
  - by rewrite Z2Nat.id.
  - exists k, lat, s'. split; [exact Es|]. split; [exact E'|]. split; [rewrite Hl; vm_compute; reflexivity|exact Hc].
Defined.

Lemma critical_path_adds_up_witness : exists s, small_run small_insts = Ok s /\ contributions (old_window (it_windows small_cfg) (m_windows s)) = 13.
Proof.
  destruct small_state as (s & Es & Hv & Hc). exists s. split; [exact Es|]. unfold small_check in Hc. rewrite !andb_true_iff in Hc. destruct Hc as [[_ Hc] _].
  apply Z.eqb_eq in Hc. rewrite <- Hc. symmetry. apply (critical_path_adds_up small_cfg 10 40 60 IntervalContentionNehalem_new tt 1000 small_start _ s Hv).
Defined.

Lemma branch_resolution_longest_chain_witness : exists s, small_run small_insts = Ok s /\
  (exists l, old_chain (it_windows small_cfg) (m_windows s) l /\ chain_latency (it_windows small_cfg) (m_windows s) l = 18) /\
  forall l, old_chain (it_windows small_cfg) (m_windows s) l -> chain_latency (it_windows small_cfg) (m_windows s) l <= 18.
Proof.
  destruct small_state as (s & Es & Hv & Hc). exists s. split; [exact Es|]. unfold small_check in Hc. rewrite !andb_true_iff in Hc. destruct Hc as [[[_ Hw] _] Hr]. apply Z.eqb_eq in Hw.
  destruct (branch_resolution_longest_chain small_cfg 10 40 60 IntervalContentionNehalem_new tt 1000 small_start _ s Hv) as (r & Er & Hs & Hmax).
  - unfold wIsEmpty. by rewrite Hw.
  - rewrite Er in Hr. apply Z.eqb_eq in Hr as ->. split; [exact Hs|exact Hmax].
Defined.
