(* ===== verification/SimState.v ===== *)
(** * Threads, cores and the state of the simulation kernel

    The data of the components that share the thread manager's lock: threads and
    cores (src/common/core/thread.h, core.h, src/common/system/thread_manager.h),
    the schedulers (src/common/scheduler), the system-call server
    (src/common/system/syscall_server.h) and the barrier that keeps the clocks of
    the cores together (src/common/system/barrier_sync_server.h).  They call each
    other through the hooks of src/common/system/hooks_manager.{h,cc}.

    Identifiers of threads and cores are natural numbers; where the code stores
    INVALID_THREAD_ID or INVALID_CORE_ID the model has [None]. *)

From stdpp Require Import gmap.
From S2P Require Import Prelude StateMonad SubsecondTime.

(** ** Threads and cores *)

(** Core::State; also the status of a thread *)
Inductive CoreState := RUNNING | INITIALIZING | STALLED | SLEEPING | WAKING_UP | IDLE | BROKEN.
Inductive stall_type_t :=
  | STALL_UNSCHEDULED | STALL_BROKEN | STALL_JOIN | STALL_MUTEX | STALL_COND | STALL_BARRIER
  | STALL_FUTEX | STALL_PAUSE | STALL_SLEEP | STALL_SYSCALL.

#[global] Instance CoreState_eq_dec : EqDecision CoreState.
Proof. solve_decision. Defined.
#[global] Instance stall_type_t_eq_dec : EqDecision stall_type_t.
Proof. solve_decision. Defined.

(** [th_in_wait]: the thread is blocked on its condition variable [m_cond]; [th_clear_tid] is
    [m_os_info.tid_ptr] if [m_os_info.clear_tid] is set. *)
Record Thread := mkThread {
  m_app_id : nat;
  m_wakeup_time : Z;
  m_wakeup_msg : bool;
  th_in_wait : bool;
  m_core : option nat;
  th_clear_tid : option Z
}.

(** [stalled_reason] is read of stalled threads only, whose reason has been set. *)
Record ThreadState := mkThreadState {
  status : CoreState;
  stalled_reason : stall_type_t;
  waiter : option nat
}.
Definition ThreadState_new : ThreadState := mkThreadState IDLE STALL_UNSCHEDULED None.

(** The clock and the instruction count are those of the core's performance model. *)
Record Core := mkCore {
  m_core_state : CoreState;
  m_thread : option nat;
  core_elapsed : Z;
  m_instructions : Z
}.

(** What the components ask of the performance models and condition variables of the cores. *)
Inductive sim_event :=
  | SpawnInstruction (core : nat) (time : Z)
  | SyncInstruction (core : nat) (time : Z) (reason : stall_type_t)
  | BarrierEnter (core : nat)
  | BarrierExit (core : nat)
  | CoreSignal (core : nat)
  | WriteMemory (core : nat) (address : Z) (value : Z).

Record ThreadManager := mkTM {
  m_threads : list Thread;
  m_thread_state : list ThreadState;
  m_thread_spawn_list : list (option nat * nat * Z);
  tm_cores : list Core;
  tm_log : list sim_event
}.

(** ** Schedulers *)

Record ThreadInfo := mkThreadInfo {
  m_has_affinity : bool;
  m_explicit_affinity : bool;
  m_core_affinity : list bool;
  m_core_running : option nat;
  m_last_scheduled_in : Z;
  m_last_scheduled_out : Z
}.

(** The fields of SchedulerDynamic, SchedulerPinnedBase, SchedulerPinned and SchedulerRoaming that
    decide the placement of threads.  [m_next_core] is that of SchedulerPinned. *)
Record Scheduler := mkSched {
  m_threads_runnable : list bool;
  m_last_periodic : Z;
  m_thread_info : list ThreadInfo;
  m_core_thread_running : list (option nat);
  m_quantum_left : list Z;
  m_next_core : nat;
  (* kept if the macro MODIFIED_CODE is defined *)
  core_thread_map : gmap (nat * nat) nat;
  threads_on_core : list (list nat);
  current_thread_count : list nat;
  m_last_periodic_interval : Z;
  (* kept if the macro PERIODIC_WORKLOAD is defined *)
  m_hyper_period_number : nat;
  threads_of_app : list (list nat);
  m_num_threads_exited : nat;
  (* kept if the macro USE_RMU is defined *)
  end_times : list Z
}.

(** ** The system-call server *)

Record Waiter := mkWaiter { w_thread_id : nat; w_mask : Z; w_timeout : Z }.

Record SyscallServer := mkSyscall {
  m_sleeping : list Waiter;
  m_futexes : gmap Z (list Waiter)
}.

(** ** The barrier *)

Record BarrierSyncServer := mkBarrier {
  m_barrier_interval : Z;
  m_next_barrier_time : Z;
  m_local_clock_list : list Z;
  m_barrier_acquire_list : list bool;
  m_to_release : list nat;
  m_core_group : list (option nat);
  m_core_thread : list (option nat);
  m_global_time : Z;
  m_fastforward : bool;
  m_disable : bool
}.

(** ** The whole state *)

Record Sim := mkSim {
  s_tm : ThreadManager;
  s_sched : Scheduler;
  s_sys : SyscallServer;
  s_bar : BarrierSyncServer
}.

Definition set_tm (x : ThreadManager) (s : Sim) : Sim := mkSim x (s_sched s) (s_sys s) (s_bar s).
Definition set_sched (x : Scheduler) (s : Sim) : Sim := mkSim (s_tm s) x (s_sys s) (s_bar s).
Definition set_sys (x : SyscallServer) (s : Sim) : Sim := mkSim (s_tm s) (s_sched s) x (s_bar s).
Definition set_bar (x : BarrierSyncServer) (s : Sim) : Sim := mkSim (s_tm s) (s_sched s) (s_sys s) x.

Abbreviation M := (ST Sim).

(** ** Hooks *)

(** A call of [callHooks]: the type of the hook with its arguments. *)
Inductive hook_event :=
  | HOOK_PERIODIC (time : Z)
  | HOOK_THREAD_START (thread_id : nat) (time : Z)
  | HOOK_THREAD_EXIT (thread_id : nat) (time : Z)
  | HOOK_THREAD_STALL (thread_id : nat) (reason : stall_type_t) (time : Z)
  | HOOK_THREAD_RESUME (thread_id : nat) (thread_by : option nat) (time : Z)
  | HOOK_THREAD_MIGRATE (thread_id : nat) (core_id : option nat) (time : Z).
