(* ===== verification/ThreadManager.v ===== *)
(** * Thread manager

    Models src/common/system/thread_manager.{h,cc} and src/common/core/thread.{h,cc}:
    creation, start and exit of threads, stalling and resuming them, and moving
    them between cores.  The operations run with the thread manager's lock held.
    They call back into the other components through [callHooks] and, when no
    thread runs, let the barrier advance the time; both are parameters here and
    tied together in Simulator.

    A call that blocks the calling thread ends the operation of the model with
    the thread marked [th_in_wait]; the code after it runs when the thread has
    been signalled. *)

From stdpp Require Import gmap.
From S2P Require Import Prelude StateMonad SubsecondTime SimState.

(** ** Access to the state *)

Definition upd_tm (f : ThreadManager -> ThreadManager) : M unit := modify (fun s => set_tm (f (s_tm s)) s).

Definition tm_with_threads (l : list Thread) (m : ThreadManager) : ThreadManager :=
  mkTM l (m_thread_state m) (m_thread_spawn_list m) (tm_cores m) (tm_log m).
Definition tm_with_states (l : list ThreadState) (m : ThreadManager) : ThreadManager :=
  mkTM (m_threads m) l (m_thread_spawn_list m) (tm_cores m) (tm_log m).
Definition tm_with_spawn (l : list (option nat * nat * Z)) (m : ThreadManager) : ThreadManager :=
  mkTM (m_threads m) (m_thread_state m) l (tm_cores m) (tm_log m).
Definition tm_with_cores (l : list Core) (m : ThreadManager) : ThreadManager :=
  mkTM (m_threads m) (m_thread_state m) (m_thread_spawn_list m) l (tm_log m).
Definition tm_emit (e : sim_event) (m : ThreadManager) : ThreadManager :=
  mkTM (m_threads m) (m_thread_state m) (m_thread_spawn_list m) (tm_cores m) (tm_log m ++ [e]).

Definition emit (e : sim_event) : M unit := upd_tm (tm_emit e).

(** getThreadFromID and Sim()->getCoreManager()->getCoreFromID assert that the id is valid. *)
Definition getThreadFromID (t : nat) : M Thread :=
  l ← gets (fun s => m_threads (s_tm s));
  match l !! t with Some th => mret th | None => fail AssertFailed end.
Definition getCoreFromID (c : nat) : M Core :=
  l ← gets (fun s => tm_cores (s_tm s));
  match l !! c with Some co => mret co | None => fail AssertFailed end.
(** [m_thread_state[t]] *)
Definition thread_state (t : nat) : M ThreadState :=
  l ← gets (fun s => m_thread_state (s_tm s)); lift_res (aget l t).
Definition getThreadState (t : nat) : M CoreState := st ← thread_state t; mret (status st).

Definition upd_thread (t : nat) (f : Thread -> Thread) : M unit :=
  th ← getThreadFromID t; upd_tm (fun m => tm_with_threads (<[t := f th]> (m_threads m)) m).
Definition upd_core (c : nat) (f : Core -> Core) : M unit :=
  co ← getCoreFromID c; upd_tm (fun m => tm_with_cores (<[c := f co]> (tm_cores m)) m).
Definition upd_state (t : nat) (f : ThreadState -> ThreadState) : M unit :=
  st ← thread_state t; upd_tm (fun m => tm_with_states (<[t := f st]> (m_thread_state m)) m).

Definition setState (c : nat) (x : CoreState) : M unit :=
  upd_core c (fun co => mkCore x (m_thread co) (core_elapsed co) (m_instructions co)).
Definition setThread (c : nat) (t : option nat) : M unit :=
  upd_core c (fun co => mkCore (m_core_state co) t (core_elapsed co) (m_instructions co)).
Definition set_status (t : nat) (x : CoreState) : M unit :=
  upd_state t (fun st => mkThreadState x (stalled_reason st) (waiter st)).
Definition set_stalled (t : nat) (reason : stall_type_t) : M unit :=
  upd_state t (fun st => mkThreadState STALLED reason (waiter st)).
Definition set_waiter (t : nat) (w : option nat) : M unit :=
  upd_state t (fun st => mkThreadState (status st) (stalled_reason st) w).

(** ** class Thread *)

Definition Thread_new (app_id : nat) : Thread := mkThread app_id 0 false false None None.

(** [wait] up to the point where the thread blocks; [None] stands for blocking in the results
    below. *)
Definition thread_wait (t : nat) : M unit :=
  upd_thread t (fun th => mkThread (m_app_id th) (m_wakeup_time th) false true (m_core th) (th_clear_tid th)).

Definition thread_signal (t : nat) (time : Z) (msg : bool) : M unit :=
  upd_thread t (fun th => mkThread (m_app_id th) time msg false (m_core th) (th_clear_tid th)).

Definition setCore (t : nat) (core : option nat) : M unit :=
  th ← getThreadFromID t;
  _ ← match m_core th with Some c => setThread c None | None => mret tt end;
  _ ← upd_thread t (fun th => mkThread (m_app_id th) (m_wakeup_time th) (m_wakeup_msg th) (th_in_wait th) core (th_clear_tid th));
  match core with
  | Some c =>
      co ← getCoreFromID c;
      _ ← assertM (bool_decide (m_thread co = None));
      setThread c (Some t)
  | None => mret tt
  end.

(** ** class ThreadManager *)

Section ThreadManager.
Context (callHooks : hook_event -> M unit).
(** [Sim()->getClockSkewMinimizationServer()->advance()], and how often a stalling thread may
    call it in a row *)
Context (advance : M unit) (advance_fuel : nat).
(** [m_scheduler->threadCreate] *)
Context (threadCreate : nat -> M (option nat)).
(** [Sim()->getSyscallServer()->futexWake(thread_id, tid_ptr, 1, FUTEX_BITSET_MATCH_ANY, time, end_time)] *)
Context (futexWake_one : nat -> Z -> Z -> M unit).

Definition resumeThread_async (t : nat) (thread_by : option nat) (time : Z) : M unit :=
  _ ← set_status t RUNNING; callHooks (HOOK_THREAD_RESUME t thread_by time).

Definition resumeThread (t : nat) (thread_by : option nat) (time : Z) (msg : bool) : M unit :=
  _ ← thread_signal t time msg; resumeThread_async t thread_by time.

Definition stallThread_async (t : nat) (reason : stall_type_t) (time : Z) : M unit :=
  _ ← set_stalled t reason; callHooks (HOOK_THREAD_STALL t reason time).

(** isThreadRunning or isThreadInitializing *)
Definition alive (st : ThreadState) : bool :=
  bool_decide (status st = RUNNING) || bool_decide (status st = INITIALIZING).
(** The loop over [getNumThreads()] threads. *)
Fixpoint any_alive (k i : nat) (l : list ThreadState) : res bool :=
  match k with
  | O => Ok false
  | S k => st ← aget l i; if alive st then Ok true else any_alive k (S i) l
  end.
Definition anyThreadRunning : M bool :=
  tm ← gets s_tm; lift_res (any_alive (length (m_threads tm)) 0 (m_thread_state tm)).

Fixpoint advance_loop (k : nat) : M unit :=
  r ← anyThreadRunning;
  if r : bool then mret tt
  else match k with O => fail OutOfFuel | S k => _ ← advance; advance_loop k end.

(** The wake-up time, or [None] if the thread blocks. *)
Definition stallThread (t : nat) (reason : stall_type_t) (time : Z) : M (option Z) :=
  _ ← stallThread_async t reason time;
  _ ← advance_loop advance_fuel;
  st ← thread_state t;
  if bool_decide (status st = RUNNING) then th ← getThreadFromID t; mret (Some (m_wakeup_time th))
  else _ ← thread_wait t; mret None.

(** Thread::reschedule: the time when the thread is on a core again, [None] if it blocks (when
    it has been signalled it goes on here, with the wake-up time); the second result of the
    code is whether the core changed. *)
Fixpoint reschedule_loop (k : nat) (t : nat) (time : Z) : M (option Z) :=
  th ← getThreadFromID t;
  match m_core th with
  | Some c => _ ← emit (SyncInstruction c time STALL_UNSCHEDULED); mret (Some time)
  | None =>
      match k with
      | O => fail OutOfFuel
      | S k =>
          r ← stallThread t STALL_UNSCHEDULED time;
          match r with Some time => reschedule_loop k t time | None => mret None end
      end
  end.
Definition thread_reschedule (k : nat) (t : nat) (time : Z) (current_core : nat) : M (option (Z * bool)) :=
  th ← getThreadFromID t;
  if bool_decide (m_core th = Some current_core) then mret (Some (time, false))
  else r ← reschedule_loop k t time; mret ((fun time => (time, true)) <$> r).

Definition moveThread (t : nat) (core_id : option nat) (time : Z) : M unit :=
  th ← getThreadFromID t;
  _ ← match m_core th with Some c => setState c IDLE | None => mret tt end;
  _ ← match core_id with
      | None => setCore t None
      | Some c =>
          _ ← (if bool_decide (m_core th = None) then
                 st ← thread_state t;
                 if bool_decide (status st = STALLED) && bool_decide (stalled_reason st = STALL_UNSCHEDULED)
                 then resumeThread t None time false else mret tt
               else mret tt);
          _ ← getCoreFromID c;
          _ ← setCore t (Some c);
          x ← getThreadState t;
          if bool_decide (x = STALLED) then mret tt else setState c RUNNING
      end;
  callHooks (HOOK_THREAD_MIGRATE t core_id time).

(** The id of the new thread. *)
Definition createThread_unlocked (app_id : nat) : M nat :=
  tm ← gets s_tm;
  let thread_id := length (m_threads tm) in
  _ ← upd_tm (fun m => tm_with_threads (m_threads m ++ [Thread_new app_id]) m);
  _ ← upd_tm (fun m => tm_with_states (m_thread_state m ++ [ThreadState_new]) m);
  _ ← set_status thread_id INITIALIZING;
  core_id ← threadCreate thread_id;
  _ ← match core_id with
      | Some c => _ ← getCoreFromID c; _ ← setCore thread_id (Some c); setState c INITIALIZING
      | None => mret tt
      end;
  mret thread_id.

Definition spawnThread (thread_id : option nat) (app_id : nat) : M nat :=
  time_start ← match thread_id with
               | Some t =>
                   th ← getThreadFromID t;
                   match m_core th with Some c => co ← getCoreFromID c; mret (core_elapsed co) | None => fail NullDeref end
               | None => mret 0
               end;
  new ← createThread_unlocked app_id;
  _ ← upd_tm (fun m => tm_with_spawn (m_thread_spawn_list m ++ [(thread_id, new, time_start)]) m);
  mret new.

Definition getThreadToSpawn : M (nat * Z) :=
  tm ← gets s_tm;
  match m_thread_spawn_list tm with
  | (_, t, time) :: l => _ ← upd_tm (tm_with_spawn l); mret (t, time)
  | [] => fail AssertFailed
  end.

Definition onThreadStart (t : nat) (time : Z) : M unit :=
  _ ← getThreadFromID t;
  _ ← set_status t RUNNING;
  _ ← callHooks (HOOK_THREAD_START t time);
  th ← getThreadFromID t;
  time ← match m_core th with
         | Some c =>
             _ ← setState c RUNNING;
             co ← getCoreFromID c;
             let time := Z.max time (core_elapsed co) in
             _ ← emit (SpawnInstruction c time);
             _ ← set_status t RUNNING;
             _ ← callHooks (HOOK_THREAD_MIGRATE t (Some c) time);
             mret time
         | None => _ ← set_stalled t STALL_UNSCHEDULED; mret time
         end;
  st ← thread_state t;
  match waiter st with
  | Some w => _ ← thread_signal w time false; set_waiter t None
  | None => mret tt
  end.

(** Whether the caller blocks. *)
Definition waitForThreadStart (t wait_thread_id : nat) : M bool :=
  _ ← getThreadFromID t;
  st ← thread_state wait_thread_id;
  if bool_decide (status st = INITIALIZING) then
    _ ← assertM (bool_decide (waiter st = None));
    _ ← set_waiter wait_thread_id (Some t);
    _ ← thread_wait t; mret true
  else mret false.

Definition wakeUpWaiter (t : nat) (time : Z) : M unit :=
  st ← thread_state t;
  match waiter st with
  | Some w => _ ← resumeThread w (Some t) time false; set_waiter t None
  | None => mret tt
  end.

Definition onThreadExit (t : nat) : M unit :=
  _ ← thread_state t;
  th ← getThreadFromID t;
  match m_core th with
  | None => fail AssertFailed
  | Some c =>
      co ← getCoreFromID c;
      let time := core_elapsed co in
      st ← thread_state t;
      _ ← assertM (bool_decide (status st = RUNNING));
      _ ← set_status t IDLE;
      _ ← wakeUpWaiter t time;
      _ ← match th_clear_tid th with
          | Some p => _ ← emit (WriteMemory c p 0); futexWake_one t p time
          | None => mret tt
          end;
      _ ← setState c IDLE;
      _ ← setCore t None;
      callHooks (HOOK_THREAD_EXIT t time)
  end.

(** joinThread up to [reschedule]: [Some None] if the other thread has ended, [Some (Some t)] with
    the end time of the wait, [None] if the caller blocks. *)
Definition joinThread (t join_thread_id : nat) : M (option (option Z)) :=
  th ← getThreadFromID t;
  st ← thread_state join_thread_id;
  if bool_decide (status st = IDLE) then mret (Some None)
  else
    match m_core th with
    | None => fail NullDeref
    | Some c =>
        co ← getCoreFromID c;
        _ ← assertM (bool_decide (waiter st = None));
        _ ← set_waiter join_thread_id (Some t);
        r ← stallThread t STALL_JOIN (core_elapsed co);
        mret (match r with Some time => Some (Some time) | None => None end)
    end.
(** The rest of joinThread, [core] being the core when it was called. *)
Definition joinThread_end (k : nat) (t : nat) (end_time : Z) (core : nat) : M (option unit) :=
  r ← thread_reschedule k t end_time core;
  match r with
  | None => mret None
  | Some (time, b) =>
      th ← getThreadFromID t;
      match (if b : bool then m_core th else Some core) with
      | Some c => _ ← emit (SyncInstruction c time STALL_JOIN); mret (Some tt)
      | None => fail NullDeref
      end
  end.

Fixpoint none_idle (l : list ThreadState) : bool :=
  match l with [] => true | st :: l => negb (bool_decide (status st = IDLE)) && none_idle l end.
Definition areAllCoresRunning : M bool := tm ← gets s_tm; mret (none_idle (m_thread_state tm)).
End ThreadManager.
