(* ===== verification/SchedulerPinned.v ===== *)
(** * Schedulers

    Models src/common/scheduler: SchedulerDynamic (the hook handlers), the
    time-sharing of SchedulerPinnedBase, and the initial placement of
    SchedulerPinned and SchedulerRoaming.  The variants that the macros
    MODIFIED_CODE, PERIODIC_WORKLOAD and USE_RMU (written by install_config.py)
    select are fields of the configuration.  The files that the external
    algorithm writes for them are functions of the configuration; the power,
    temperature and reliability traces that the code writes are left out. *)

From stdpp Require Import gmap.
From S2P Require Import Prelude StateMonad SubsecondTime SimState ThreadManager.

Inductive sched_kind := Pinned | Roaming.

Record SchedCfg := mkSchedCfg {
  sc_kind : sched_kind;
  m_quantum : Z;
  m_interleaving : nat;
  m_core_mask : list bool;
  sc_modified_code : bool;
  sc_periodic_workload : bool;
  sc_use_rmu : bool;
  m_interval : Z;
  runtime_intervention : bool;
  (* the pairs of the mapping file at a time, if its first line says that the mapping changed *)
  mapping_file : Z -> option (list (nat * nat));
  m_num_apps : nat;
  num_app_per_hyper_period : nat;
  num_threads_per_hyper_period : nat;
  (* the lines (core, app, thread) of the mapping for a hyper-period *)
  app_core_mapping : nat -> list (nat * nat * nat);
  (* how many steps the search for the next core may take *)
  sc_fuel : nat
}.

(** ** Access to the state *)

Definition upd_sched (f : Scheduler -> Scheduler) : M unit := modify (fun s => set_sched (f (s_sched s)) s).

Definition sc_with_runnable (l : list bool) (s : Scheduler) : Scheduler :=
  mkSched l (m_last_periodic s) (m_thread_info s) (m_core_thread_running s) (m_quantum_left s) (m_next_core s)
    (core_thread_map s) (threads_on_core s) (current_thread_count s) (m_last_periodic_interval s)
    (m_hyper_period_number s) (threads_of_app s) (m_num_threads_exited s) (end_times s).
Definition sc_with_periodic (t : Z) (s : Scheduler) : Scheduler :=
  mkSched (m_threads_runnable s) t (m_thread_info s) (m_core_thread_running s) (m_quantum_left s) (m_next_core s)
    (core_thread_map s) (threads_on_core s) (current_thread_count s) (m_last_periodic_interval s)
    (m_hyper_period_number s) (threads_of_app s) (m_num_threads_exited s) (end_times s).
Definition sc_with_info (l : list ThreadInfo) (s : Scheduler) : Scheduler :=
  mkSched (m_threads_runnable s) (m_last_periodic s) l (m_core_thread_running s) (m_quantum_left s) (m_next_core s)
    (core_thread_map s) (threads_on_core s) (current_thread_count s) (m_last_periodic_interval s)
    (m_hyper_period_number s) (threads_of_app s) (m_num_threads_exited s) (end_times s).
Definition sc_with_running (l : list (option nat)) (s : Scheduler) : Scheduler :=
  mkSched (m_threads_runnable s) (m_last_periodic s) (m_thread_info s) l (m_quantum_left s) (m_next_core s)
    (core_thread_map s) (threads_on_core s) (current_thread_count s) (m_last_periodic_interval s)
    (m_hyper_period_number s) (threads_of_app s) (m_num_threads_exited s) (end_times s).
Definition sc_with_quantum (l : list Z) (s : Scheduler) : Scheduler :=
  mkSched (m_threads_runnable s) (m_last_periodic s) (m_thread_info s) (m_core_thread_running s) l (m_next_core s)
    (core_thread_map s) (threads_on_core s) (current_thread_count s) (m_last_periodic_interval s)
    (m_hyper_period_number s) (threads_of_app s) (m_num_threads_exited s) (end_times s).
Definition sc_with_next (c : nat) (s : Scheduler) : Scheduler :=
  mkSched (m_threads_runnable s) (m_last_periodic s) (m_thread_info s) (m_core_thread_running s) (m_quantum_left s) c
    (core_thread_map s) (threads_on_core s) (current_thread_count s) (m_last_periodic_interval s)
    (m_hyper_period_number s) (threads_of_app s) (m_num_threads_exited s) (end_times s).
(** The data of MODIFIED_CODE and PERIODIC_WORKLOAD. *)
Definition sc_with_map (m : gmap (nat * nat) nat) (l : list (list nat)) (k : list nat) (s : Scheduler) : Scheduler :=
  mkSched (m_threads_runnable s) (m_last_periodic s) (m_thread_info s) (m_core_thread_running s) (m_quantum_left s)
    (m_next_core s) m l k (m_last_periodic_interval s)
    (m_hyper_period_number s) (threads_of_app s) (m_num_threads_exited s) (end_times s).
Definition sc_with_interval (t : Z) (s : Scheduler) : Scheduler :=
  mkSched (m_threads_runnable s) (m_last_periodic s) (m_thread_info s) (m_core_thread_running s) (m_quantum_left s)
    (m_next_core s) (core_thread_map s) (threads_on_core s) (current_thread_count s) t
    (m_hyper_period_number s) (threads_of_app s) (m_num_threads_exited s) (end_times s).
Definition sc_with_hyper (h : nat) (l : list (list nat)) (exited : nat) (e : list Z) (s : Scheduler) : Scheduler :=
  mkSched (m_threads_runnable s) (m_last_periodic s) (m_thread_info s) (m_core_thread_running s) (m_quantum_left s)
    (m_next_core s) (core_thread_map s) (threads_on_core s) (current_thread_count s) (m_last_periodic_interval s)
    h l exited e.

Definition num_cores : M nat := tm ← gets s_tm; mret (length (tm_cores tm)).

(** ** class ThreadInfo *)

Definition ThreadInfo_new (n : nat) : ThreadInfo := mkThreadInfo false false (replicate n false) None 0 0.
Definition clearAffinity (i : ThreadInfo) : ThreadInfo :=
  mkThreadInfo (m_has_affinity i) (m_explicit_affinity i) ((fun _ => false) <$> m_core_affinity i) (m_core_running i)
    (m_last_scheduled_in i) (m_last_scheduled_out i).
Definition addAffinity (c : nat) (i : ThreadInfo) : res ThreadInfo :=
  l ← aset (m_core_affinity i) c true;
  Ok (mkThreadInfo true (m_explicit_affinity i) l (m_core_running i) (m_last_scheduled_in i) (m_last_scheduled_out i)).
Definition setAffinitySingle (c : nat) (i : ThreadInfo) : res ThreadInfo := addAffinity c (clearAffinity i).
Definition hasAffinity (c : nat) (i : ThreadInfo) : res bool := aget (m_core_affinity i) c.
Definition setExplicitAffinity (i : ThreadInfo) : ThreadInfo :=
  mkThreadInfo (m_has_affinity i) true (m_core_affinity i) (m_core_running i) (m_last_scheduled_in i) (m_last_scheduled_out i).
Definition setCoreRunning (c : option nat) (i : ThreadInfo) : ThreadInfo :=
  mkThreadInfo (m_has_affinity i) (m_explicit_affinity i) (m_core_affinity i) c (m_last_scheduled_in i) (m_last_scheduled_out i).
Definition setLastScheduledIn (t : Z) (i : ThreadInfo) : ThreadInfo :=
  mkThreadInfo (m_has_affinity i) (m_explicit_affinity i) (m_core_affinity i) (m_core_running i) t (m_last_scheduled_out i).
Definition setLastScheduledOut (t : Z) (i : ThreadInfo) : ThreadInfo :=
  mkThreadInfo (m_has_affinity i) (m_explicit_affinity i) (m_core_affinity i) (m_core_running i) (m_last_scheduled_in i) t.
Definition isRunning (i : ThreadInfo) : bool := bool_decide (is_Some (m_core_running i)).

(** [m_thread_info[t]], [m_core_thread_running[c]], [m_quantum_left[c]], [m_threads_runnable[t]] *)
Definition thread_info (t : nat) : M ThreadInfo := s ← gets s_sched; lift_res (aget (m_thread_info s) t).
Definition upd_info (t : nat) (f : ThreadInfo -> res ThreadInfo) : M unit :=
  s ← gets s_sched; i ← lift_res (aget (m_thread_info s) t); i ← lift_res (f i);
  upd_sched (sc_with_info (<[t := i]> (m_thread_info s))).
Definition core_thread_running (c : nat) : M (option nat) :=
  s ← gets s_sched; lift_res (aget (m_core_thread_running s) c).
Definition set_core_thread_running (c : nat) (t : option nat) : M unit :=
  s ← gets s_sched; l ← lift_res (aset (m_core_thread_running s) c t); upd_sched (sc_with_running l).
Definition quantum_left (c : nat) : M Z := s ← gets s_sched; lift_res (aget (m_quantum_left s) c).
Definition set_quantum_left (c : nat) (q : Z) : M unit :=
  s ← gets s_sched; l ← lift_res (aset (m_quantum_left s) c q); upd_sched (sc_with_quantum l).
Definition runnable (t : nat) : M bool := s ← gets s_sched; lift_res (aget (m_threads_runnable s) t).
Definition set_runnable (t : nat) (b : bool) : M unit :=
  s ← gets s_sched; l ← lift_res (aset (m_threads_runnable s) t b); upd_sched (sc_with_runnable l).

(** ** Initial placement *)

Section placement.
Context (cfg : SchedCfg).

(** SchedulerPinned::getNextCore *)
Definition next_core (n c : nat) : res nat :=
  let c := (c + m_interleaving cfg)%nat in
  if (n <=? c)%nat then
    if bool_decide (m_interleaving cfg = 0%nat) then Err DivByZero
    else Ok ((c mod n + 1) mod m_interleaving cfg)%nat
  else Ok c.
Fixpoint getNextCore (k n c : nat) : res nat :=
  c ← next_core n c;
  m ← aget (m_core_mask cfg) c;
  if m : bool then Ok c
  else match k with O => Err OutOfFuel | S k => getNextCore k n c end.

(** SchedulerPinned::getFreeCore: the search from [c] on *)
Fixpoint getFreeCore (k n : nat) (running : list (option nat)) (core_first c : nat) : res nat :=
  r ← aget running c; m ← aget (m_core_mask cfg) c;
  if bool_decide (r = None) && m then Ok c
  else
    c ← getNextCore (sc_fuel cfg) n c;
    if bool_decide (c = core_first) then Ok core_first
    else match k with O => Err OutOfFuel | S k => getFreeCore k n running core_first c end.

(** [m[k]], which adds the key with the value 0 if it is not there *)
Definition map_at (m : gmap (nat * nat) nat) (k : nat * nat) : nat * gmap (nat * nat) nat :=
  match m !! k with Some x => (x, m) | None => (0%nat, <[k := 0%nat]> m) end.
(** [m.insert(...)] does not replace *)
Definition map_insert (m : gmap (nat * nat) nat) (k : nat * nat) (x : nat) : gmap (nat * nat) nat :=
  match m !! k with Some _ => m | None => <[k := x]> m end.

(** The core that SchedulerPinned chooses. *)
Definition initial_core (t : nat) : M nat :=
  s ← gets s_sched;
  if sc_modified_code cfg then
    th ← getThreadFromID t;
    let key_app := m_app_id th in
    key_thread ← lift_res (aget (current_thread_count s) key_app);
    let '(core_id, map) := map_at (core_thread_map s) (key_app, key_thread) in
    l ← lift_res (aget (threads_on_core s) core_id);
    _ ← upd_sched (sc_with_map map (<[core_id := l ++ [t]]> (threads_on_core s))
                     (<[key_app := S key_thread]> (current_thread_count s)));
    mret core_id
  else
    n ← num_cores;
    core_id ← lift_res (getFreeCore (sc_fuel cfg) n (m_core_thread_running s) (m_next_core s) (m_next_core s));
    next ← lift_res (getNextCore (sc_fuel cfg) n core_id);
    _ ← upd_sched (sc_with_next next);
    mret core_id.

Fixpoint add_affinities (k c : nat) (mask : list bool) (i : ThreadInfo) : res ThreadInfo :=
  match k with
  | O => Ok i
  | S k => b ← aget mask c; i ← (if b : bool then addAffinity c i else Ok i); add_affinities k (S c) mask i
  end.

Definition threadSetInitialAffinity (t : nat) : M unit :=
  match sc_kind cfg with
  | Pinned => core_id ← initial_core t; upd_info t (setAffinitySingle core_id)
  | Roaming => n ← num_cores; upd_info t (fun i => add_affinities n 0 (m_core_mask cfg) (clearAffinity i))
  end.
End placement.

(** ** class SchedulerPinnedBase *)

(** The first core, from [c] on, that the thread may use and that is free. *)
Fixpoint find_free (k c : nat) (affinity : list bool) (running : list (option nat)) : res (option nat) :=
  match k with
  | O => Ok None
  | S k =>
      a ← aget affinity c;
      if a : bool then
        r ← aget running c;
        if bool_decide (r = None) then Ok (Some c) else find_free k (S c) affinity running
      else find_free k (S c) affinity running
  end.
Definition findFreeCoreForThread (t : nat) : M (option nat) :=
  n ← num_cores;
  s ← gets s_sched;
  lift_res (i ← match n with O => Ok (ThreadInfo_new 0) | S _ => aget (m_thread_info s) t end;
            find_free n 0 (m_core_affinity i) (m_core_thread_running s)).

(** A thread that [reschedule] may choose for the core, with its score. *)
Definition candidate (time : Z) (c : nat) (run : bool) (i : ThreadInfo) : res (option Z) :=
  a ← hasAffinity c i;
  Ok (if a && run && (negb (isRunning i) || bool_decide (m_core_running i = Some c)) then
        Some (s64 (u64 (if isRunning i then getPS (m_last_scheduled_in i) - getPS time
                        else getPS time - getPS (m_last_scheduled_out i))))
      else None).

(** The loop over the threads: the thread with the highest score, the first of equals. *)
Fixpoint best_thread (time : Z) (c t : nat) (runnables : list bool) (infos : list ThreadInfo)
    (best : option nat) (max_score : Z) : res (option nat) :=
  match runnables with
  | [] => Ok best
  | run :: runnables =>
      i ← aget infos t;
      s ← candidate time c run i;
      match s with
      | Some score =>
          if max_score <? score then best_thread time c (S t) runnables infos (Some t) score
          else best_thread time c (S t) runnables infos best max_score
      | None => best_thread time c (S t) runnables infos best max_score
      end
  end.

Definition INT64_MIN : Z := - 2 ^ 63.

Section SchedulerPinnedBase.
Context (callHooks : hook_event -> M unit) (cfg : SchedCfg).
Local Abbreviation moveThread := (moveThread callHooks).

(** The thread that ran on the core leaves it. *)
Definition unschedule (time : Z) (c t : nat) : M unit :=
  _ ← upd_info t (fun i => Ok (setLastScheduledOut (st_add time (PS (Z.of_nat c))) (setCoreRunning None i)));
  moveThread t None time.

(** A thread takes the core. *)
Definition schedule_in (time : Z) (c t : nat) : M unit :=
  i ← thread_info t;
  _ ← match m_core_running i with
      | Some c' => set_core_thread_running c' None
      | None => mret tt
      end;
  _ ← upd_info t (fun i => Ok (setLastScheduledIn time (setCoreRunning (Some c) i)));
  moveThread t (Some c) time.

Definition reschedule (time : Z) (c : nat) : M unit :=
  current ← core_thread_running c;
  starting ← match current with
             | Some t => x ← getThreadState t; mret (bool_decide (x = INITIALIZING))
             | None => mret false
             end;
  if starting : bool then mret tt
  else
    s ← gets s_sched;
    new ← lift_res (best_thread time c 0 (m_threads_runnable s) (m_thread_info s) None INT64_MIN);
    _ ← (if bool_decide (current = new) then mret tt
         else
           _ ← match current with Some t => unschedule time c t | None => mret tt end;
           _ ← set_core_thread_running c new;
           match new with Some t => schedule_in time c t | None => mret tt end);
    set_quantum_left c (m_quantum cfg).

Definition threadYield (t : nat) : M unit :=
  i ← thread_info t;
  match m_core_running i with
  | None => mret tt
  | Some c =>
      co ← getCoreFromID c;
      let time := core_elapsed co in
      _ ← set_quantum_left c 0;
      _ ← reschedule time c;
      i ← thread_info t;
      a ← lift_res (hasAffinity c i);
      if a : bool then mret tt
      else free ← findFreeCoreForThread t;
           match free with Some c' => reschedule time c' | None => mret tt end
  end.

(** [vector.resize(n)] with default-constructed elements *)
Definition resize_info (n cores : nat) (l : list ThreadInfo) : list ThreadInfo :=
  l ++ replicate (n - length l) (ThreadInfo_new cores).

Definition grow_info (t extra : nat) : M unit :=
  n ← num_cores;
  s ← gets s_sched;
  if (length (m_thread_info s) <=? t)%nat
  then upd_sched (sc_with_info (resize_info extra n (m_thread_info s))) else mret tt.

Definition threadCreate (t : nat) : M (option nat) :=
  s ← gets s_sched;
  _ ← grow_info t (length (m_thread_info s) + 16);
  s ← gets s_sched;
  (* the application of the thread, if it belongs to a later hyper-period *)
  later ← (if sc_periodic_workload cfg then
             th ← getThreadFromID t;
             mret (if ((m_hyper_period_number s + 1) * num_app_per_hyper_period cfg <=? m_app_id th)%nat
                   then Some (m_app_id th) else None)
           else mret None);
  match later with
  | Some app_id =>
      l ← lift_res (aget (threads_of_app s) app_id);
      _ ← upd_sched (sc_with_hyper (m_hyper_period_number s) (<[app_id := l ++ [t]]> (threads_of_app s))
                       (m_num_threads_exited s) (end_times s));
      _ ← upd_info t (fun i => Ok (setCoreRunning None i));
      s ← gets s_sched;
      k ← lift_res (aget (current_thread_count s) app_id);
      _ ← upd_sched (sc_with_map (core_thread_map s) (threads_on_core s) (<[app_id := S k]> (current_thread_count s)));
      mret None
  | None =>
      i ← thread_info t;
      _ ← (if m_has_affinity i then mret tt else threadSetInitialAffinity cfg t);
      free ← findFreeCoreForThread t;
      match free with
      | Some c =>
          _ ← upd_info t (fun i => Ok (setCoreRunning (Some c) i));
          _ ← set_core_thread_running c (Some t);
          _ ← set_quantum_left c (m_quantum cfg);
          mret (Some c)
      | None => _ ← upd_info t (fun i => Ok (setCoreRunning None i)); mret None
      end
  end.

(** The thread may now run on the core: if it waits for one, it gets it at once. *)
Definition schedule_now (t : nat) : M unit :=
  free ← findFreeCoreForThread t;
  match free with
  | Some c =>
      co ← getCoreFromID c;
      s ← gets s_bar;
      reschedule (Z.max (core_elapsed co) (m_global_time s)) c
  | None => mret tt
  end.

(** What threadSetAffinity and changeMapping do once the affinity of a thread has changed. *)
Definition affinity_changed (t : nat) : M unit :=
  i ← thread_info t;
  misplaced ← match m_core_running i with
              | Some c => a ← lift_res (hasAffinity c i); mret (negb a)
              | None => mret false
              end;
  match m_core_running i, misplaced with
  | Some c, true => set_quantum_left c 0
  | _, _ =>
      r ← runnable t;
      if r && negb (isRunning i) then schedule_now t else mret tt
  end.

Fixpoint affinity_of_mask (c : nat) (n : nat) (mask : list bool) (i : ThreadInfo) : res ThreadInfo :=
  match mask with
  | [] => Ok i
  | b :: mask =>
      i ← (if b : bool then _ ← assert_ (c <? n)%nat; addAffinity c i else Ok i);
      affinity_of_mask (S c) n mask i
  end.

(** [mask] is the bit set of the call, one bit per processor. *)
Definition threadSetAffinity (calling : option nat) (t : nat) (mask : option (list bool)) : M bool :=
  _ ← grow_info t (t + 16);
  n ← num_cores;
  _ ← upd_info t (fun i =>
        let i := setExplicitAffinity i in
        match mask with
        | None => add_affinities n 0 (replicate n true) i
        | Some mask => affinity_of_mask 0 n mask (clearAffinity i)
        end);
  tm ← gets s_tm;
  if (length (m_threads tm) <=? t)%nat then mret true
  else
    _ ← (if bool_decide (calling = Some t) then threadYield t else affinity_changed t);
    mret true.

(** The bit set returned, [None] if it does not fit into [size] bits. *)
Definition threadGetAffinity (t size : nat) : M (option (list bool)) :=
  n ← num_cores;
  if (size <? n)%nat then mret None
  else
    i ← thread_info t;
    mret (Some ((if m_explicit_affinity i then m_core_affinity i else replicate n true) ++ replicate (size - n) false)).

(** threadStart and threadResume: if a core for the thread is free, it is filled. *)
Definition fill_free_core (t : nat) (time : Z) : M unit :=
  free ← findFreeCoreForThread t;
  match free with Some c => reschedule time c | None => mret tt end.

(** threadStall; also the first part of threadExit *)
Definition leave_core (t : nat) (time : Z) : M unit :=
  i ← thread_info t;
  match m_core_running i with Some c => reschedule time c | None => mret tt end.

(** *** The next hyper-period (PERIODIC_WORKLOAD) *)

Definition place_thread (time : Z) (app thread_count t : nat) : M unit :=
  s ← gets s_sched;
  let '(c, map) := map_at (core_thread_map s) (app, thread_count) in
  _ ← upd_sched (sc_with_map map (threads_on_core s) (current_thread_count s));
  _ ← upd_info t (fun i => addAffinity c (clearAffinity (setExplicitAffinity i)));
  _ ← set_core_thread_running c (Some t);
  _ ← set_quantum_left c (m_quantum cfg);
  _ ← upd_info t (fun i => Ok (setLastScheduledIn time (setCoreRunning (Some c) i)));
  _ ← moveThread t (Some c) time;
  if sc_modified_code cfg then
    s ← gets s_sched;
    l ← lift_res (aget (threads_on_core s) c);
    upd_sched (sc_with_map (core_thread_map s) (<[c := l ++ [t]]> (threads_on_core s)) (current_thread_count s))
  else mret tt.

Fixpoint place_threads (time : Z) (app thread_count : nat) (l : list nat) : M unit :=
  match l with
  | [] => mret tt
  | t :: l => _ ← place_thread time app thread_count t; place_threads time app (S thread_count) l
  end.

Fixpoint place_apps (time : Z) (k app : nat) : M unit :=
  match k with
  | O => mret tt
  | S k =>
      s ← gets s_sched;
      l ← lift_res (aget (threads_of_app s) app);
      _ ← place_threads time app 0 l;
      place_apps time k (S app)
  end.

Definition next_hyper_period (time : Z) : M unit :=
  s ← gets s_sched;
  let h := S (m_hyper_period_number s) in
  _ ← upd_sched (sc_with_hyper h (threads_of_app s) 0 (end_times s));
  let offset := (h * num_app_per_hyper_period cfg)%nat in
  let map := foldl (fun m '(c, app, thread) => map_insert m ((app + offset)%nat, thread) c) (core_thread_map s)
               (app_core_mapping cfg h) in
  let on_core := if sc_modified_code cfg then (fun _ => []) <$> threads_on_core s else threads_on_core s in
  _ ← upd_sched (sc_with_map map on_core (current_thread_count s));
  place_apps time (num_app_per_hyper_period cfg) offset.

Definition threadExit (t : nat) (time : Z) : M unit :=
  _ ← leave_core t time;
  _ ← (if sc_use_rmu cfg then
         i ← thread_info t;
         s ← gets s_sched;
         match m_core_running i with
         | None => fail OutOfBounds                 (* end_times[INVALID_CORE_ID] *)
         | Some c =>
             l ← lift_res (aset (end_times s) c time);
             upd_sched (sc_with_hyper (m_hyper_period_number s) (threads_of_app s) (m_num_threads_exited s) l)
         end
       else mret tt);
  if sc_periodic_workload cfg then
    s ← gets s_sched;
    let exited := S (m_num_threads_exited s) in
    _ ← upd_sched (sc_with_hyper (m_hyper_period_number s) (threads_of_app s) exited (end_times s));
    if bool_decide (num_app_per_hyper_period cfg = 0%nat) then fail DivByZero
    else
      let max_hyper_periods := (m_num_apps cfg / num_app_per_hyper_period cfg)%nat in
      if bool_decide (exited = num_threads_per_hyper_period cfg) && (S (m_hyper_period_number s) <? max_hyper_periods)%nat
      then next_hyper_period time
      else mret tt
  else mret tt.

(** *** A new mapping (MODIFIED_CODE) *)

Fixpoint move_all (to : nat) (l : list nat) : M unit :=
  match l with
  | [] => mret tt
  | t :: l =>
      _ ← upd_info t (fun i => addAffinity to (clearAffinity (setExplicitAffinity i)));
      tm ← gets s_tm;
      _ ← (if (length (m_threads tm) <=? t)%nat then mret tt else affinity_changed t);
      move_all to l
  end.

(** [moved] is the local [temp_threads_on_core]. *)
Fixpoint migrate (l : list (nat * nat)) (moved : list (list nat)) : M (list (list nat)) :=
  match l with
  | [] => mret moved
  | (from, to) :: l =>
      s ← gets s_sched;
      ts ← lift_res (aget (threads_on_core s) from);
      ms ← lift_res (if bool_decide (ts = []) then Ok [] else aget moved to);
      _ ← move_all to ts;
      s ← gets s_sched;
      _ ← upd_sched (sc_with_map (core_thread_map s) (<[from := []]> (threads_on_core s)) (current_thread_count s));
      migrate l (if bool_decide (ts = []) then moved else <[to := ms ++ ts]> moved)
  end.

Definition changeMapping (time : Z) : M unit :=
  match mapping_file cfg time with
  | None => mret tt
  | Some l =>
      n ← num_cores;
      moved ← migrate l (replicate n []);
      s ← gets s_sched;
      upd_sched (sc_with_map (core_thread_map s) (zip_with app (threads_on_core s) moved) (current_thread_count s))
  end.

Fixpoint periodic_cores (time delta : Z) (k c : nat) : M unit :=
  match k with
  | O => mret tt
  | S k =>
      q ← quantum_left c;
      r ← core_thread_running c;
      _ ← (if (st_gtb delta q) || bool_decide (r = None) then reschedule time c
           else set_quantum_left c (st_sub q delta));
      periodic_cores time delta k (S c)
  end.

Definition periodic (time : Z) : M unit :=
  s ← gets s_sched;
  _ ← (if sc_modified_code cfg && runtime_intervention cfg &&
          st_geb time (st_add (m_last_periodic_interval s) (m_interval cfg)) then
         _ ← changeMapping time; upd_sched (sc_with_interval time)
       else mret tt);
  s ← gets s_sched;
  n ← num_cores;
  _ ← periodic_cores time (st_sub time (m_last_periodic s)) n 0;
  upd_sched (sc_with_periodic time).

(** ** class SchedulerDynamic: the hook handlers *)

Definition grow_runnable (t : nat) : M unit :=
  s ← gets s_sched;
  if (length (m_threads_runnable s) <=? t)%nat
  then upd_sched (sc_with_runnable (m_threads_runnable s ++ replicate 16 false)) else mret tt.

Definition sched_hook (e : hook_event) : M unit :=
  match e with
  | HOOK_PERIODIC time => periodic time
  | HOOK_THREAD_START t time => _ ← grow_runnable t; _ ← set_runnable t true; fill_free_core t time
  | HOOK_THREAD_STALL t reason time =>
      if bool_decide (reason = STALL_UNSCHEDULED) then mret tt
      else _ ← set_runnable t false; leave_core t time
  | HOOK_THREAD_RESUME t _ time => _ ← set_runnable t true; fill_free_core t time
  | HOOK_THREAD_EXIT t time => _ ← set_runnable t false; threadExit t time
  | HOOK_THREAD_MIGRATE _ _ _ => mret tt
  end.
End SchedulerPinnedBase.

(** The constructors; [mapping] holds the lines (core, app, thread) of the initial mapping. *)
Definition Scheduler_new (cfg : SchedCfg) (n : nat) (mapping : list (nat * nat * nat)) : Scheduler :=
  mkSched (replicate 16 false) 0 [] (replicate n None) (replicate n 0) 0
    (if sc_modified_code cfg
     then foldl (fun m '(c, app, thread) => map_insert m (app, thread) c) ∅ mapping else ∅)
    (replicate n []) (replicate (m_num_apps cfg) 0%nat) 0
    0 (replicate (m_num_apps cfg) []) 0 (replicate n 0).
