(* ===== verification/SyscallServer.v ===== *)
(** * System-call server

    Models src/common/system/syscall_server.{h,cc}: sleeping threads and futexes.
    A futex is the list of the threads that wait on it, oldest first. *)

From stdpp Require Import gmap.
From S2P Require Import Prelude StateMonad SubsecondTime SimState ThreadManager.

(** ** Constants of linux/futex.h and errno.h *)

Definition FUTEX_WAIT : Z := 0.
Definition FUTEX_WAKE : Z := 1.
Definition FUTEX_CMP_REQUEUE : Z := 4.
Definition FUTEX_WAKE_OP : Z := 5.
Definition FUTEX_WAIT_BITSET : Z := 9.
Definition FUTEX_WAKE_BITSET : Z := 10.
Definition FUTEX_PRIVATE_FLAG : Z := 128.
Definition FUTEX_CLOCK_REALTIME : Z := 256.
Definition FUTEX_BITSET_MATCH_ANY : Z := -1.
Definition EAGAIN : Z := 11.
Definition EWOULDBLOCK : Z := EAGAIN.
Definition ETIMEDOUT : Z := 110.

(** ** SimFutex *)

Definition futex (s : SyscallServer) (address : Z) : list Waiter := default [] (m_futexes s !! address).
Definition set_futex (address : Z) (l : list Waiter) (s : SyscallServer) : SyscallServer :=
  mkSyscall (m_sleeping s) (<[address := l]> (m_futexes s)).
Definition upd_sys (f : SyscallServer -> SyscallServer) : M unit := modify (fun s => set_sys (f (s_sys s)) s).

(** The first waiter that satisfies [p], and the list without it. *)
Fixpoint take_first (p : Waiter -> bool) (l : list Waiter) : option (Waiter * list Waiter) :=
  match l with
  | [] => None
  | w :: l =>
      if p w then Some (w, l)
      else match take_first p l with Some (x, l') => Some (x, w :: l') | None => None end
  end.

(** The latest waiter with a timeout determines the result. *)
Definition next_timeout (l : list Waiter) (next : Z) : Z :=
  foldl (fun next w => if st_ltb (w_timeout w) MaxTime then w_timeout w else next) next l.

Section SyscallServer.
Context (callHooks : hook_event -> M unit) (advance : M unit) (advance_fuel : nat).
Context (m_reschedule_cost : Z).
(** [va2pa] of a thread, and the word of memory at an address as the core of a thread reads it *)
Context (va2pa : nat -> Z -> Z) (memory : nat -> Z -> Z).
Local Abbreviation resumeThread := (resumeThread callHooks).
Local Abbreviation stallThread := (stallThread callHooks advance advance_fuel).

Definition handleSleepCall (t : nat) (wake_time curr_time : Z) : M (option Z) :=
  _ ← upd_sys (fun s => mkSyscall (m_sleeping s ++ [mkWaiter t 0 wake_time]) (m_futexes s));
  stallThread t STALL_SLEEP curr_time.

(** findFutexByUaddr: the key of the futex, which is created if it is new *)
Definition findFutexByUaddr (uaddr : Z) (t : nat) : M Z :=
  _ ← getThreadFromID t;
  let address := va2pa t uaddr in
  _ ← upd_sys (fun s => set_futex address (futex s address) s);
  mret address.

Definition applyRescheduleCost (t : nat) (conditional : bool) : M Z :=
  if conditional then
    th ← getThreadFromID t;
    match m_core th with
    | None => fail NullDeref
    | Some c => co ← getCoreFromID c; mret (if m_instructions co =? 0 then 0 else m_reschedule_cost)
    end
  else mret 0.

(** *** SimFutex *)

(** Up to the stall; when the thread runs again the result is its wake-up message. *)
Definition enqueueWaiter (address : Z) (t : nat) (mask time timeout_time : Z) : M (option (Z * bool)) :=
  _ ← upd_sys (fun s => set_futex address (futex s address ++ [mkWaiter t mask timeout_time]) s);
  r ← stallThread t STALL_FUTEX time;
  match r with
  | Some time_end => th ← getThreadFromID t; mret (Some (time_end, m_wakeup_msg th))
  | None => mret None
  end.

Definition dequeueWaiter (address : Z) (thread_by : nat) (mask time : Z) : M (option nat) :=
  s ← gets s_sys;
  match take_first (fun w => negb (Z.land mask (w_mask w) =? 0)) (futex s address) with
  | Some (w, l) =>
      _ ← upd_sys (set_futex address l);
      _ ← resumeThread (w_thread_id w) (Some thread_by) time true;
      mret (Some (w_thread_id w))
  | None => mret None
  end.

(** The loop of requeueWaiter: all waiters move behind those of the other futex; a futex that is
    requeued onto itself goes round for ever. *)
Definition requeue_all (from to : Z) : M unit :=
  s ← gets s_sys;
  if bool_decide (from = to) && negb (bool_decide (futex s from = [])) then fail OutOfFuel
  else upd_sys (fun s => set_futex to (futex s to ++ futex s from) (set_futex from [] s)).

Definition wakeTimedOut (time : Z) (address : Z) : M unit :=
  s ← gets s_sys;
  match take_first (fun w => st_leb (w_timeout w) time) (futex s address) with
  | Some (w, l) =>
      _ ← upd_sys (set_futex address l);
      resumeThread (w_thread_id w) None time false
  | None => mret tt
  end.

(** *** Futex calls *)

(** The return value with the end time; [None] if the caller blocks. *)
Definition futexWait (t : nat) (uaddr val act_val mask curr_time timeout_time : Z) : M (option (Z * Z)) :=
  address ← findFutexByUaddr uaddr t;
  if negb (val =? act_val) then mret (Some (- EWOULDBLOCK, curr_time))
  else
    r ← enqueueWaiter address t mask curr_time timeout_time;
    mret ((fun '(end_time, success) => (if success : bool then 0 else - ETIMEDOUT, end_time)) <$> r).
(** The value that futexWait returns to a thread that has been woken. *)
Definition futexWait_end (t : nat) : M (Z * Z) :=
  th ← getThreadFromID t; mret (if m_wakeup_msg th then 0 else - ETIMEDOUT, m_wakeup_time th).

Definition wakeFutexOne (address : Z) (thread_by : nat) (mask curr_time : Z) : M (option nat) :=
  cost ← applyRescheduleCost thread_by true;
  dequeueWaiter address thread_by mask (st_add curr_time cost).

(** [for (i = 0; i < nr_wake; i++)], ended when no waiter is left; how many were woken. *)
Fixpoint wake_loop (k : nat) (wake : M (option nat)) (woken : Z) : M Z :=
  match k with
  | O => mret woken
  | S k => w ← wake; match w with Some _ => wake_loop k wake (woken + 1) | None => mret woken end
  end.

Definition futexWake (t : nat) (uaddr nr_wake mask curr_time : Z) : M (Z * Z) :=
  address ← findFutexByUaddr uaddr t;
  woken ← wake_loop (Z.to_nat nr_wake) (wakeFutexOne address t mask curr_time) 0;
  cost ← applyRescheduleCost t (0 <? woken);
  mret (woken, st_add curr_time cost).

(** futexDoOp: the value to store and whether the comparison holds *)
Definition futexDoOp (encoded_op oldval : Z) : res (Z * bool) :=
  let op := Z.land (Z.shiftr encoded_op 28) 7 in
  let cmp := Z.land (Z.shiftr encoded_op 24) 15 in
  let oparg := Z.shiftr (s32 (Z.shiftl encoded_op 8)) 20 in
  let cmparg := Z.shiftr (s32 (Z.shiftl encoded_op 20)) 20 in
  let oparg := if Z.testbit encoded_op 31 then s32 (Z.shiftl 1 oparg) else oparg in
  newval ← (if op =? 0 then Ok oparg
            else if op =? 1 then Ok (s32 (oldval + oparg))
            else if op =? 2 then Ok (Z.lor oldval oparg)
            else if op =? 3 then Ok (Z.land oldval (Z.lnot oparg))
            else if op =? 4 then Ok (Z.lxor oldval oparg)
            else Err AssertFailed);
  ret ← (if cmp =? 0 then Ok (oldval =? cmparg)
         else if cmp =? 1 then Ok (negb (oldval =? cmparg))
         else if cmp =? 2 then Ok (oldval <? cmparg)
         else if cmp =? 3 then Ok (oldval <=? cmparg)
         else if cmp =? 4 then Ok (cmparg <? oldval)
         else if cmp =? 5 then Ok (cmparg <=? oldval)
         else Err AssertFailed);
  Ok (newval, ret).

Definition futexWakeOp (t : nat) (uaddr uaddr2 nr_wake nr_wake2 op curr_time : Z) : M (Z * Z) :=
  address ← findFutexByUaddr uaddr t;
  address2 ← findFutexByUaddr uaddr2 t;
  th ← getThreadFromID t;
  match m_core th with
  | None => fail AssertFailed
  | Some c =>
      '(newval, op_ret) ← lift_res (futexDoOp op (memory t uaddr2));
      _ ← emit (WriteMemory c uaddr2 newval);
      woken ← wake_loop (Z.to_nat nr_wake) (wakeFutexOne address t FUTEX_BITSET_MATCH_ANY curr_time) 0;
      woken ← (if op_ret : bool
               then wake_loop (Z.to_nat nr_wake2) (wakeFutexOne address2 t FUTEX_BITSET_MATCH_ANY curr_time) woken
               else mret woken);
      cost ← applyRescheduleCost t (0 <? woken);
      mret (woken, st_add curr_time cost)
  end.

Definition futexCmpRequeue (t : nat) (uaddr val uaddr2 val3 act_val curr_time : Z) : M (Z * Z) :=
  address ← findFutexByUaddr uaddr t;
  if negb (val3 =? act_val) then mret (- EAGAIN, curr_time)
  else
    woken ← wake_loop (Z.to_nat val) (dequeueWaiter address t FUTEX_BITSET_MATCH_ANY curr_time) 0;
    address2 ← findFutexByUaddr uaddr2 t;
    _ ← requeue_all address address2;
    mret (woken, curr_time).

Record futex_args_t := mkFutexArgs {
  fa_uaddr : Z; fa_op : Z; fa_val : Z;
  fa_timeout : option (Z * Z);      (* the seconds and nanoseconds that [timeout] points to *)
  fa_val2 : Z; fa_uaddr2 : Z; fa_val3 : Z
}.

(** [time_start] is getOSEmuTimeStart(). *)
Definition handleFutexCall (time_start : Z) (t : nat) (args : futex_args_t) (curr_time : Z) : M (option (Z * Z)) :=
  let cmd := Z.land (Z.land (fa_op args) (Z.lnot (Z.lor FUTEX_PRIVATE_FLAG FUTEX_CLOCK_REALTIME)))
               (Z.lnot FUTEX_PRIVATE_FLAG) in
  th ← getThreadFromID t;
  _ ← assertM (bool_decide (is_Some (m_core th)));
  _ ← assertM (bool_decide (cmd ∈ [FUTEX_WAIT; FUTEX_WAIT_BITSET; FUTEX_WAKE; FUTEX_WAKE_BITSET; FUTEX_WAKE_OP; FUTEX_CMP_REQUEUE]));
  let wait := (cmd =? FUTEX_WAIT) || (cmd =? FUTEX_WAIT_BITSET) in
  let timeout_time :=
    match fa_timeout args with
    | Some (sec, nsec) =>
        let timeout_val := st_add (SEC (u64 (sec - time_start))) (NS nsec) in
        if cmd =? FUTEX_WAIT_BITSET then timeout_val else st_add curr_time timeout_val
    | None => MaxTime
    end in
  let act_val := memory t (fa_uaddr args) in
  if wait then
    futexWait t (fa_uaddr args) (fa_val args) act_val
      (if cmd =? FUTEX_WAIT_BITSET then fa_val3 args else FUTEX_BITSET_MATCH_ANY) curr_time timeout_time
  else if (cmd =? FUTEX_WAKE) || (cmd =? FUTEX_WAKE_BITSET) then
    r ← futexWake t (fa_uaddr args) (fa_val args)
          (if cmd =? FUTEX_WAIT_BITSET then fa_val3 args else FUTEX_BITSET_MATCH_ANY) curr_time;
    mret (Some r)
  else if cmd =? FUTEX_WAKE_OP then
    r ← futexWakeOp t (fa_uaddr args) (fa_uaddr2 args) (fa_val args) (fa_val2 args) (fa_val3 args) curr_time;
    mret (Some r)
  else
    _ ← assertM (negb (fa_uaddr args =? fa_uaddr2 args));
    r ← futexCmpRequeue t (fa_uaddr args) (fa_val args) (fa_uaddr2 args) (fa_val3 args) act_val curr_time;
    mret (Some r).

(** *** Timeouts *)

(** [futexes] is the order in which the code iterates over the hash table. *)
Context (futexes : gmap Z (list Waiter) -> list Z).

Fixpoint wake_futexes (time : Z) (l : list Z) : M unit :=
  match l with [] => mret tt | a :: l => _ ← wakeTimedOut time a; wake_futexes time l end.

Definition futexPeriodic (time : Z) : M unit :=
  s ← gets s_sys;
  _ ← match take_first (fun w => st_leb (w_timeout w) time) (m_sleeping s) with
      | Some (w, l) =>
          _ ← upd_sys (fun s => mkSyscall l (m_futexes s));
          resumeThread (w_thread_id w) (Some (w_thread_id w)) time false
      | None => mret tt
      end;
  s ← gets s_sys;
  wake_futexes time (futexes (m_futexes s)).

Definition getNextTimeout : M Z :=
  s ← gets s_sys;
  mret (foldl (fun next a => let t := next_timeout (futex s a) MaxTime in if st_ltb t next then t else next)
          (next_timeout (m_sleeping s) MaxTime) (futexes (m_futexes s))).
End SyscallServer.
