(* ===== verification/BarrierSyncServer.v ===== *)
(** * Barrier synchronisation of the cores

    Models src/common/system/barrier_sync_server.{h,cc}: a core whose clock has
    reached the next barrier time waits until all running cores have; then the
    time advances and the cores are released. *)

From stdpp Require Import gmap.
From S2P Require Import Prelude StateMonad SubsecondTime SimState ThreadManager.

Definition upd_bar (f : BarrierSyncServer -> BarrierSyncServer) : M unit := modify (fun s => set_bar (f (s_bar s)) s).

Definition bar_with_times (next global : Z) (b : BarrierSyncServer) : BarrierSyncServer :=
  mkBarrier (m_barrier_interval b) next (m_local_clock_list b) (m_barrier_acquire_list b) (m_to_release b)
    (m_core_group b) (m_core_thread b) global (m_fastforward b) (m_disable b).
Definition bar_with_clocks (l : list Z) (b : BarrierSyncServer) : BarrierSyncServer :=
  mkBarrier (m_barrier_interval b) (m_next_barrier_time b) l (m_barrier_acquire_list b) (m_to_release b)
    (m_core_group b) (m_core_thread b) (m_global_time b) (m_fastforward b) (m_disable b).
Definition bar_with_acquire (l : list bool) (b : BarrierSyncServer) : BarrierSyncServer :=
  mkBarrier (m_barrier_interval b) (m_next_barrier_time b) (m_local_clock_list b) l (m_to_release b)
    (m_core_group b) (m_core_thread b) (m_global_time b) (m_fastforward b) (m_disable b).
Definition bar_with_to_release (l : list nat) (b : BarrierSyncServer) : BarrierSyncServer :=
  mkBarrier (m_barrier_interval b) (m_next_barrier_time b) (m_local_clock_list b) (m_barrier_acquire_list b) l
    (m_core_group b) (m_core_thread b) (m_global_time b) (m_fastforward b) (m_disable b).
Definition bar_with_group (l : list (option nat)) (b : BarrierSyncServer) : BarrierSyncServer :=
  mkBarrier (m_barrier_interval b) (m_next_barrier_time b) (m_local_clock_list b) (m_barrier_acquire_list b)
    (m_to_release b) l (m_core_thread b) (m_global_time b) (m_fastforward b) (m_disable b).
Definition bar_with_thread (l : list (option nat)) (b : BarrierSyncServer) : BarrierSyncServer :=
  mkBarrier (m_barrier_interval b) (m_next_barrier_time b) (m_local_clock_list b) (m_barrier_acquire_list b)
    (m_to_release b) (m_core_group b) l (m_global_time b) (m_fastforward b) (m_disable b).
Definition bar_with_flags (fastforward disable : bool) (b : BarrierSyncServer) : BarrierSyncServer :=
  mkBarrier (m_barrier_interval b) (m_next_barrier_time b) (m_local_clock_list b) (m_barrier_acquire_list b)
    (m_to_release b) (m_core_group b) (m_core_thread b) (m_global_time b) fastforward disable.

Definition BarrierSyncServer_new (n : nat) (quantum : Z) : BarrierSyncServer :=
  mkBarrier quantum quantum (replicate n 0) (replicate n false) [] (replicate n None) (replicate n None) 0 false false.

Definition local_clock (c : nat) : M Z := b ← gets s_bar; lift_res (aget (m_local_clock_list b) c).
Definition set_local_clock (c : nat) (t : Z) : M unit :=
  b ← gets s_bar; l ← lift_res (aset (m_local_clock_list b) c t); upd_bar (bar_with_clocks l).
Definition acquired (c : nat) : M bool := b ← gets s_bar; lift_res (aget (m_barrier_acquire_list b) c).
Definition set_acquired (c : nat) (x : bool) : M unit :=
  b ← gets s_bar; l ← lift_res (aset (m_barrier_acquire_list b) c x); upd_bar (bar_with_acquire l).
Definition core_group (c : nat) : M (option nat) := b ← gets s_bar; lift_res (aget (m_core_group b) c).
Definition set_core_group (c : nat) (master : option nat) : M unit :=
  b ← gets s_bar; l ← lift_res (aset (m_core_group b) c master); upd_bar (bar_with_group l).
Definition barrier_thread (c : nat) : M (option nat) := b ← gets s_bar; lift_res (aget (m_core_thread b) c).
Definition set_barrier_thread (c : nat) (t : option nat) : M unit :=
  b ← gets s_bar; l ← lift_res (aset (m_core_thread b) c t); upd_bar (bar_with_thread l).

(** [for (core_id = c; k left; core_id++)] over the application cores *)
Fixpoint for_cores (k c : nat) (body : nat -> M unit) : M unit :=
  match k with O => mret tt | S k => _ ← body c; for_cores k (S c) body end.
Definition cores_loop (body : nat -> M unit) : M unit :=
  tm ← gets s_tm; for_cores (length (tm_cores tm)) 0 body.

Section BarrierSyncServer.
Context (callHooks : hook_event -> M unit).
(** how many rounds barrierRelease may make *)
Context (release_fuel : nat).
(** [Sim()->getSyscallServer()->getNextTimeout], [getNumHostCores()], [std::random_shuffle] *)
Context (getNextTimeout : M Z) (num_host_cores : nat) (shuffle : list nat -> list nat).

(** isCoreRunning without siblings *)
Definition core_runs (c : nat) : M bool :=
  co ← getCoreFromID c;
  if bool_decide (m_core_state co = RUNNING) then
    match m_thread co with
    | None => fail AssertFailed
    | Some t => st ← thread_state t; mret (bool_decide (status st = RUNNING))
    end
  else mret false.

Fixpoint sibling_runs (k i c : nat) : M bool :=
  match k with
  | O => mret false
  | S k =>
      g ← core_group i;
      r ← (if bool_decide (g = Some c) then core_runs i else mret false);
      if r : bool then mret true else sibling_runs k (S i) c
  end.

Definition isCoreRunning (c : nat) : M bool :=
  r ← core_runs c;
  if r : bool then mret true
  else
    b ← gets s_bar;
    if m_fastforward b then mret false
    else tm ← gets s_tm; sibling_runs (length (tm_cores tm)) 0 c.

(** The loop of isBarrierReached; [reached] is single_core_barrier_reached. *)
Fixpoint barrier_reached (k c : nat) (reached : bool) : M bool :=
  match k with
  | O => mret reached
  | S k =>
      b ← gets s_bar;
      if m_fastforward b then
        a ← acquired c;
        if a : bool then barrier_reached k (S c) true
        else r ← isCoreRunning c; if r : bool then mret false else barrier_reached k (S c) reached
      else
        g ← core_group c;
        match g with
        | Some _ => barrier_reached k (S c) reached
        | None =>
            r ← isCoreRunning c;
            if r : bool then
              t ← local_clock c;
              if st_ltb t (m_next_barrier_time b) then mret false else barrier_reached k (S c) true
            else barrier_reached k (S c) reached
        end
  end.
Definition isBarrierReached : M bool := tm ← gets s_tm; barrier_reached (length (tm_cores tm)) 0 false.

(** Release up to [n] cores, the last of the list first; [None] for all. *)
Definition doRelease (n : option nat) : M unit :=
  b ← gets s_bar;
  let l := m_to_release b in
  let keep := match n with Some n => (length l - n)%nat | None => 0%nat end in
  _ ← upd_bar (bar_with_to_release (take keep l));
  upd_tm (fun m => foldl (fun m c => tm_emit (CoreSignal c) m) m (reverse (drop keep l))).

(** One round over the cores: whether a core was resumed, and whether the caller must wait. *)
Fixpoint release_cores (k c : nat) (caller : option nat) (resumed must_wait : bool) : M (bool * bool) :=
  match k with
  | O => mret (resumed, must_wait)
  | S k =>
      b ← gets s_bar;
      t ← local_clock c;
      a ← (if st_ltb t (m_next_barrier_time b) then acquired c else mret false);
      if a : bool then
        _ ← set_acquired c false;
        th ← barrier_thread c;
        if bool_decide (th = caller) then release_cores k (S c) caller true false
        else
          _ ← getCoreFromID c;
          _ ← emit (BarrierExit c);
          _ ← upd_bar (fun b => bar_with_to_release (m_to_release b ++ [c]) b);
          release_cores k (S c) caller true must_wait
      else release_cores k (S c) caller resumed must_wait
  end.

(** The loop [while (!core_resumed)]; [Some x] if the function returns [x] from inside it. *)
Fixpoint release_loop (k : nat) (caller : option nat) (continue_until_release must_wait : bool)
  : M (option bool * bool) :=
  match k with
  | O => fail OutOfFuel
  | S k =>
      _ ← upd_bar (fun b => bar_with_times (m_next_barrier_time b) (m_next_barrier_time b) b);
      b ← gets s_bar;
      _ ← callHooks (HOOK_PERIODIC (m_next_barrier_time b));
      any ← (if continue_until_release then
               r ← anyThreadRunning;
               if r : bool then mret true
               else next ← getNextTimeout; _ ← assertM (st_ltb next MaxTime); mret false
             else mret false);
      if any : bool then mret (Some false, must_wait)
      else
        b ← gets s_bar;
        if m_disable b then mret (Some false, must_wait)
        else
          _ ← upd_bar (fun b => bar_with_times (st_add (m_next_barrier_time b) (m_barrier_interval b)) (m_global_time b) b);
          tm ← gets s_tm;
          '(resumed, must_wait) ← release_cores (length (tm_cores tm)) 0 caller false must_wait;
          if resumed : bool then mret (None, must_wait)
          else release_loop k caller continue_until_release must_wait
  end.

Definition barrierRelease (caller : option nat) (continue_until_release : bool) : M bool :=
  b ← gets s_bar;
  _ ← assertM (bool_decide (m_to_release b = []));
  _ ← (if m_fastforward b then
         cores_loop (fun c =>
           t ← local_clock c;
           upd_bar (fun b => if st_gtb t (m_next_barrier_time b) then bar_with_times t (m_global_time b) b else b))
       else mret tt);
  '(ret, must_wait) ← release_loop release_fuel caller continue_until_release true;
  match ret with
  | Some x => mret x
  | None =>
      _ ← upd_bar (fun b => bar_with_to_release (shuffle (m_to_release b)) b);
      b ← gets s_bar;
      _ ← doRelease (if m_fastforward b then None else Some num_host_cores);
      mret must_wait
  end.

Definition barrier_advance : M unit := _ ← barrierRelease None true; mret tt.

(** Whether the caller blocks. *)
Definition synchronize (core_id : nat) (time : Z) : M bool :=
  b ← gets s_bar;
  if m_disable b then mret false
  else
    core ← getCoreFromID core_id;
    g ← core_group core_id;
    let master_core_id := if m_fastforward b then core_id else default core_id g in
    match m_thread core with
    | None => fail NullDeref
    | Some thread_me =>
        _ ← assertM (bool_decide (m_core_state core = RUNNING) || bool_decide (m_core_state core = INITIALIZING));
        a ← acquired master_core_id;
        _ ← assertM (negb a);
        if st_ltb time (m_next_barrier_time b) && negb (m_fastforward b) then mret false
        else
          _ ← doRelease (Some 1%nat);
          _ ← emit (BarrierEnter core_id);
          _ ← set_local_clock master_core_id time;
          _ ← set_acquired master_core_id true;
          _ ← set_barrier_thread master_core_id (Some thread_me);
          r ← isBarrierReached;
          mustWait ← (if r : bool then barrierRelease (Some thread_me) false else mret true);
          if mustWait : bool then mret true else _ ← emit (BarrierExit core_id); mret false
    end.

Definition releaseThread (t : nat) : M unit :=
  _ ← cores_loop (fun c =>
        a ← acquired c;
        if a : bool then
          th ← barrier_thread c;
          if bool_decide (th = Some t) then set_local_clock c 0 else mret tt
        else mret tt);
  doRelease (Some 1%nat).

Definition barrier_signal : M unit :=
  b ← gets s_bar;
  if m_disable b then mret tt
  else r ← isBarrierReached; if r : bool then _ ← barrierRelease None false; mret tt else mret tt.

Definition barrier_hook (e : hook_event) : M unit :=
  match e with
  | HOOK_THREAD_EXIT t _ | HOOK_THREAD_STALL t _ _ => _ ← releaseThread t; barrier_signal
  | HOOK_THREAD_MIGRATE t _ _ => releaseThread t
  | _ => mret tt
  end.

Definition abortBarrier : M unit :=
  cores_loop (fun c =>
    a ← acquired c;
    if a : bool then
      _ ← set_acquired c false;
      _ ← getCoreFromID c;
      _ ← emit (BarrierExit c);
      emit (CoreSignal c)
    else mret tt).

Definition setDisable (disable : bool) : M unit :=
  _ ← upd_bar (fun b => bar_with_flags (m_fastforward b) disable b);
  if disable then abortBarrier else mret tt.

Definition setGroup (c : nat) (master : option nat) : M unit :=
  _ ← match master with
      | Some _ => a ← acquired c; assertM (negb a)
      | None => mret tt
      end;
  set_core_group c master.

Definition setFastForward (fastforward : bool) (next_barrier_time : Z) : M unit :=
  _ ← upd_bar (fun b => bar_with_flags fastforward (m_disable b) b);
  if st_neb next_barrier_time MaxTime
  then upd_bar (fun b => bar_with_times (Z.max (m_next_barrier_time b) next_barrier_time) (m_global_time b) b)
  else mret tt.

Definition setBarrierInterval (interval : Z) : M unit :=
  upd_bar (fun b => mkBarrier interval (m_next_barrier_time b) (m_local_clock_list b) (m_barrier_acquire_list b)
    (m_to_release b) (m_core_group b) (m_core_thread b) (m_global_time b) (m_fastforward b) (m_disable b)).

Definition getGlobalTime (upper_bound : bool) : M Z :=
  b ← gets s_bar; mret (if upper_bound then m_next_barrier_time b else m_global_time b).
End BarrierSyncServer.
