(* ===== verification/Simulator.v ===== *)
(** * The simulation kernel: hooks and the operations of the whole

    Models src/common/system/hooks_manager.{h,cc} (registration and order of
    callbacks) and ties the components of the kernel together: the registry is
    the one that SyscallServer, SchedulerDynamic and BarrierSyncServer build in
    Simulator::start (src/common/system/simulator.cc).  The callbacks of
    statistics, sampling and the SMT timer are left out. *)

From stdpp Require Import gmap.
From S2P Require Import Prelude StateMonad SubsecondTime SimState ThreadManager SchedulerPinned SyscallServer BarrierSyncServer.

(** ** HooksManager *)

Inductive hook_type_t := T_PERIODIC | T_THREAD_START | T_THREAD_EXIT | T_THREAD_STALL | T_THREAD_RESUME | T_THREAD_MIGRATE.
Inductive HookCallbackOrder := ORDER_NOTIFY_PRE | ORDER_ACTION | ORDER_NOTIFY_POST.
Inductive listener := LSyscallServer | LScheduler | LBarrier.

#[global] Instance hook_type_eq_dec : EqDecision hook_type_t.
Proof. solve_decision. Defined.
#[global] Instance hook_order_eq_dec : EqDecision HookCallbackOrder.
Proof. solve_decision. Defined.

Definition hook_type (e : hook_event) : hook_type_t :=
  match e with
  | HOOK_PERIODIC _ => T_PERIODIC
  | HOOK_THREAD_START _ _ => T_THREAD_START
  | HOOK_THREAD_EXIT _ _ => T_THREAD_EXIT
  | HOOK_THREAD_STALL _ _ _ => T_THREAD_STALL
  | HOOK_THREAD_RESUME _ _ _ => T_THREAD_RESUME
  | HOOK_THREAD_MIGRATE _ _ _ => T_THREAD_MIGRATE
  end.

Record HookCallback (L : Type) := mkCallback { cb_type : hook_type_t; cb_func : L; cb_order : HookCallbackOrder }.
Arguments mkCallback {L} _ _ _.
Arguments cb_type {L} _.
Arguments cb_func {L} _.
Arguments cb_order {L} _.

Definition registerHook {L} (registry : list (HookCallback L)) (type : hook_type_t) (func : L) (order : HookCallbackOrder)
  : list (HookCallback L) := registry ++ [mkCallback type func order].

(** The callbacks of a type in the order in which callHooks runs them: by [order], and in the
    order of registration among equals. *)
Definition callbacks {L} (registry : list (HookCallback L)) (type : hook_type_t) : list L :=
  cb_func <$> ([ORDER_NOTIFY_PRE; ORDER_ACTION; ORDER_NOTIFY_POST] ≫= fun o =>
    filter (fun cb => cb_type cb = type /\ cb_order cb = o) registry).

(** The registrations of the three components, in the order of their construction. *)
Definition sim_registry : list (HookCallback listener) :=
  let r := registerHook [] T_PERIODIC LSyscallServer ORDER_NOTIFY_PRE in
  let r := registerHook r T_PERIODIC LScheduler ORDER_ACTION in
  let r := registerHook r T_THREAD_START LScheduler ORDER_ACTION in
  let r := registerHook r T_THREAD_STALL LScheduler ORDER_ACTION in
  let r := registerHook r T_THREAD_RESUME LScheduler ORDER_ACTION in
  let r := registerHook r T_THREAD_EXIT LScheduler ORDER_ACTION in
  let r := registerHook r T_THREAD_EXIT LBarrier ORDER_NOTIFY_POST in
  let r := registerHook r T_THREAD_STALL LBarrier ORDER_NOTIFY_POST in
  registerHook r T_THREAD_MIGRATE LBarrier ORDER_NOTIFY_POST.

Record SimCfg := mkSimCfg {
  sim_sched : SchedCfg;
  sim_release_fuel : nat;
  sim_advance_fuel : nat;
  sim_host_cores : nat;
  sim_shuffle : list nat -> list nat;
  sim_reschedule_cost : Z;
  sim_va2pa : nat -> Z -> Z;
  sim_memory : nat -> Z -> Z;
  sim_futexes : gmap Z (list Waiter) -> list Z
}.

Section Simulator.
Context (cfg : SimCfg).

Definition run_listener (callHooks : hook_event -> M unit) (e : hook_event) (l : listener) : M unit :=
  match l with
  | LSyscallServer =>
      match e with HOOK_PERIODIC time => futexPeriodic callHooks (sim_futexes cfg) time | _ => mret tt end
  | LScheduler => sched_hook callHooks (sim_sched cfg) e
  | LBarrier =>
      barrier_hook callHooks (sim_release_fuel cfg) (getNextTimeout (sim_futexes cfg)) (sim_host_cores cfg) (sim_shuffle cfg) e
  end.

Fixpoint run_listeners (callHooks : hook_event -> M unit) (e : hook_event) (l : list listener) : M unit :=
  match l with
  | [] => mret tt
  | x :: l => _ ← run_listener callHooks e x; run_listeners callHooks e l
  end.

(** [n] bounds how deep hooks call hooks. *)
Fixpoint callHooks (n : nat) (e : hook_event) : M unit :=
  match n with
  | O => fail OutOfFuel
  | S n => run_listeners (callHooks n) e (callbacks sim_registry (hook_type e))
  end.

(** ** The operations of the kernel *)

Section operations.
Context (n : nat).

Definition sim_advance : M unit :=
  barrier_advance (callHooks n) (sim_release_fuel cfg) (getNextTimeout (sim_futexes cfg)) (sim_host_cores cfg) (sim_shuffle cfg).
Definition sim_stall : nat -> stall_type_t -> Z -> M (option Z) :=
  stallThread (callHooks n) sim_advance (sim_advance_fuel cfg).
Definition sim_resume : nat -> option nat -> Z -> bool -> M unit := resumeThread (callHooks n).
Definition sim_create : nat -> M nat := createThread_unlocked (threadCreate (sim_sched cfg)).
Definition sim_spawn : option nat -> nat -> M nat := spawnThread (threadCreate (sim_sched cfg)).
Definition sim_start : nat -> Z -> M unit := onThreadStart (callHooks n).
Definition sim_futexWake (t : nat) (uaddr nr_wake mask curr_time : Z) : M (Z * Z) :=
  futexWake (callHooks n) (sim_reschedule_cost cfg) (sim_va2pa cfg) t uaddr nr_wake mask curr_time.
Definition sim_exit : nat -> M unit :=
  onThreadExit (callHooks n)
    (fun t p time => _ ← sim_futexWake t p 1 FUTEX_BITSET_MATCH_ANY time; mret tt).
Definition sim_yield : nat -> M unit := threadYield (callHooks n) (sim_sched cfg).
Definition sim_set_affinity : option nat -> nat -> option (list bool) -> M bool :=
  threadSetAffinity (callHooks n) (sim_sched cfg).
Definition sim_synchronize : nat -> Z -> M bool :=
  synchronize (callHooks n) (sim_release_fuel cfg) (getNextTimeout (sim_futexes cfg)) (sim_host_cores cfg) (sim_shuffle cfg).
Definition sim_futex : Z -> nat -> futex_args_t -> Z -> M (option (Z * Z)) :=
  handleFutexCall (callHooks n) sim_advance (sim_advance_fuel cfg) (sim_reschedule_cost cfg) (sim_va2pa cfg) (sim_memory cfg).
Definition sim_sleep : nat -> Z -> Z -> M (option Z) :=
  handleSleepCall (callHooks n) sim_advance (sim_advance_fuel cfg).
Definition sim_join : nat -> nat -> M (option (option Z)) :=
  joinThread (callHooks n) sim_advance (sim_advance_fuel cfg).
End operations.
End Simulator.

Definition Sim_new (cfg : SchedCfg) (cores : nat) (quantum : Z) (mapping : list (nat * nat * nat)) : Sim :=
  mkSim (mkTM [] [] [] (replicate cores (mkCore IDLE None 0 0)) []) (Scheduler_new cfg cores mapping)
    (mkSyscall [] ∅) (BarrierSyncServer_new cores quantum).
