(* ===== verification/SchedulerConsistency.v ===== *)
(** * The scheduler and the thread manager agree

    Both keep which thread is on which core: the scheduler in
    [m_core_thread_running] and [m_core_running], the thread manager in the
    threads' and the cores' pointers to each other.  The operations call each
    other recursively through the hooks, with the two views apart in between. *)

From stdpp Require Import gmap.
From S2P Require Import Prelude StateMonad SubsecondTime SimState ThreadManager SchedulerPinned SyscallServer BarrierSyncServer Simulator.

(** ** Views of the state *)

Definition n_threads (s : Sim) : nat := length (m_threads (s_tm s)).
Definition n_cores (s : Sim) : nat := length (tm_cores (s_tm s)).
Definition th_core (s : Sim) (t : nat) : option nat := m_threads (s_tm s) !! t ≫= m_core.
Definition co_thread (s : Sim) (c : nat) : option nat := tm_cores (s_tm s) !! c ≫= m_thread.
Definition co_state (s : Sim) (c : nat) : option CoreState := m_core_state <$> tm_cores (s_tm s) !! c.
Definition run_core (s : Sim) (t : nat) : option nat := m_thread_info (s_sched s) !! t ≫= m_core_running.
Definition run_thread (s : Sim) (c : nat) : option nat := mjoin (m_core_thread_running (s_sched s) !! c).

(** ** The thread manager's pointers *)

Record TMok (s : Sim) : Prop := {
  tm_states : length (m_thread_state (s_tm s)) = n_threads s;
  tm_bij : forall t c, th_core s t = Some c <-> co_thread s c = Some t;
  tm_run : forall c, co_state s c = Some RUNNING -> is_Some (co_thread s c)
}.

Section primitives.
Context (E : error -> Prop).

Lemma wpe_getThread t th s (Q : Thread -> Sim -> Prop) :
  m_threads (s_tm s) !! t = Some th -> Q th s -> wpe E (getThreadFromID t) Q s.
Proof. intros Ht HQ. unfold getThreadFromID. apply wpe_bind, wpe_gets. by rewrite Ht. Qed.

Lemma wpe_getCore c co s (Q : Core -> Sim -> Prop) :
  tm_cores (s_tm s) !! c = Some co -> Q co s -> wpe E (getCoreFromID c) Q s.
Proof. intros Hc HQ. unfold getCoreFromID. apply wpe_bind, wpe_gets. by rewrite Hc. Qed.

Lemma wpe_thread_state t st s (Q : ThreadState -> Sim -> Prop) :
  m_thread_state (s_tm s) !! t = Some st -> Q st s -> wpe E (thread_state t) Q s.
Proof. intros Ht HQ. unfold thread_state. apply wpe_bind, wpe_gets. apply (wpe_lift _ _ _ _ st); [by apply aget_ok|done]. Qed.

Lemma wpe_upd_thread t f th s (Q : unit -> Sim -> Prop) :
  m_threads (s_tm s) !! t = Some th ->
  Q tt (set_tm (tm_with_threads (<[t := f th]> (m_threads (s_tm s))) (s_tm s)) s) -> wpe E (upd_thread t f) Q s.
Proof. intros Ht HQ. unfold upd_thread. apply wpe_bind. eapply wpe_getThread; [done|]. by apply wpe_modify. Qed.

Lemma wpe_upd_core c f co s (Q : unit -> Sim -> Prop) :
  tm_cores (s_tm s) !! c = Some co ->
  Q tt (set_tm (tm_with_cores (<[c := f co]> (tm_cores (s_tm s))) (s_tm s)) s) -> wpe E (upd_core c f) Q s.
Proof. intros Ht HQ. unfold upd_core. apply wpe_bind. eapply wpe_getCore; [done|]. by apply wpe_modify. Qed.

Lemma wpe_upd_state t f st s (Q : unit -> Sim -> Prop) :
  m_thread_state (s_tm s) !! t = Some st ->
  Q tt (set_tm (tm_with_states (<[t := f st]> (m_thread_state (s_tm s))) (s_tm s)) s) -> wpe E (upd_state t f) Q s.
Proof. intros Ht HQ. unfold upd_state. apply wpe_bind. eapply wpe_thread_state; [done|]. by apply wpe_modify. Qed.
End primitives.

(** The parts of the state that the operations on threads and cores leave alone. *)
Record same_rest (s s' : Sim) : Prop := {
  sr_sched : s_sched s' = s_sched s;
  sr_sys : s_sys s' = s_sys s;
  sr_bar : s_bar s' = s_bar s;
  sr_states : m_thread_state (s_tm s') = m_thread_state (s_tm s);
  sr_threads : n_threads s' = n_threads s;
  sr_cores : n_cores s' = n_cores s
}.

#[global] Instance same_rest_preorder : PreOrder same_rest.
Proof.
  split; [by intros s|]. intros s1 s2 s3 [] []. split; congruence.
Qed.

(** One core changed. *)
Definition core_upd (c : nat) (t : option nat) (x : CoreState) (s s' : Sim) : Prop :=
  same_rest s s' /\ (forall u, th_core s' u = th_core s u) /\
  (forall d, co_thread s' d = if decide (d = c) then t else co_thread s d) /\
  (forall d, co_state s' d = if decide (d = c) then Some x else co_state s d).

(** One thread changed its pointer to its core. *)
Definition thread_upd (t : nat) (x : option nat) (s s' : Sim) : Prop :=
  same_rest s s' /\ (forall u, th_core s' u = if decide (u = t) then x else th_core s u) /\
  (forall d, co_thread s' d = co_thread s d) /\ (forall d, co_state s' d = co_state s d).

Lemma insert_view {A B} (l : list A) i x y (f : A -> B) j :
  l !! i = Some y -> f <$> (<[i := x]> l !! j) = if decide (j = i) then Some (f x) else f <$> (l !! j).
Proof.
  intros Hi. destruct (decide (j = i)) as [->|]; [|by rewrite list_lookup_insert_ne].
  by rewrite list_lookup_insert_eq by (by eapply lookup_lt_Some).
Qed.

Lemma insert_view_bind {A B} (l : list A) i x y (f : A -> option B) j :
  l !! i = Some y -> (<[i := x]> l !! j) ≫= f = if decide (j = i) then f x else (l !! j) ≫= f.
Proof.
  intros Hi. destruct (decide (j = i)) as [->|]; [|by rewrite list_lookup_insert_ne].
  by rewrite list_lookup_insert_eq by (by eapply lookup_lt_Some).
Qed.

Lemma th_core_lt s t c : th_core s t = Some c -> (t < n_threads s)%nat.
Proof. unfold th_core, n_threads. intros H. apply bind_Some in H as (th & H & _). by eapply lookup_lt_Some. Qed.

Lemma co_thread_lt s t c : co_thread s c = Some t -> (c < n_cores s)%nat.
Proof. unfold co_thread, n_cores. intros H. apply bind_Some in H as (co & H & _). by eapply lookup_lt_Some. Qed.

Section moves.
Context (E : error -> Prop).

Lemma wpe_core c f s (Q : unit -> Sim -> Prop) :
  (c < n_cores s)%nat ->
  (forall co s', tm_cores (s_tm s) !! c = Some co -> core_upd c (m_thread (f co)) (m_core_state (f co)) s s' -> Q tt s') ->
  wpe E (upd_core c f) Q s.
Proof.
  intros Hc HQ. destruct (lookup_lt_is_Some_2 _ _ Hc) as [co Hco]. eapply wpe_upd_core; [done|]. apply (HQ co); [done|].
  repeat split; try done.
  - unfold n_cores. cbn. by rewrite length_insert.
  - intros d. unfold co_thread. cbn. by erewrite insert_view_bind.
  - intros d. unfold co_state. cbn. by erewrite insert_view.
Qed.

Lemma wpe_setState c x s (Q : unit -> Sim -> Prop) :
  (c < n_cores s)%nat -> (forall s', core_upd c (co_thread s c) x s s' -> Q tt s') -> wpe E (setState c x) Q s.
Proof.
  intros Hc HQ. apply wpe_core; [done|]. intros co s' Hco H. apply HQ. unfold co_thread. by rewrite Hco.
Qed.

Lemma wpe_setThread c t s (Q : unit -> Sim -> Prop) :
  (c < n_cores s)%nat -> (forall x s', co_state s c = Some x -> core_upd c t x s s' -> Q tt s') -> wpe E (setThread c t) Q s.
Proof.
  intros Hc HQ. apply wpe_core; [done|]. intros co s' Hco H. apply (HQ (m_core_state co)); [|done].
  unfold co_state. by rewrite Hco.
Qed.

Lemma wpe_thread t f s (Q : unit -> Sim -> Prop) :
  (t < n_threads s)%nat ->
  (forall th s', m_threads (s_tm s) !! t = Some th -> thread_upd t (m_core (f th)) s s' -> Q tt s') ->
  wpe E (upd_thread t f) Q s.
Proof.
  intros Ht HQ. destruct (lookup_lt_is_Some_2 _ _ Ht) as [th Hth]. eapply wpe_upd_thread; [done|]. apply (HQ th); [done|].
  repeat split; try done.
  - unfold n_threads. cbn. by rewrite length_insert.
  - intros u. unfold th_core. cbn. by erewrite insert_view_bind.
Qed.

(** setCore moves the pointers; the core it goes to has no other thread. *)
Lemma wpe_setCore t x s (Q : unit -> Sim -> Prop) :
  TMok s -> (t < n_threads s)%nat -> (forall c, th_core s t = Some c -> co_state s c <> Some RUNNING) ->
  (forall c, x = Some c -> (c < n_cores s)%nat /\ (co_thread s c = None \/ th_core s t = Some c)) ->
  (forall s', TMok s' -> same_rest s s' -> (forall u, th_core s' u = if decide (u = t) then x else th_core s u) ->
     (forall d, co_state s' d = co_state s d) -> Q tt s') ->
  wpe E (setCore t x) Q s.
Proof.
  intros [Hst Hbij Hrun] Ht Hidle Hx HQ. destruct (lookup_lt_is_Some_2 _ _ Ht) as [th Hth]. unfold setCore.
  apply wpe_bind. eapply wpe_getThread; [done|].
  assert (th_core s t = m_core th) as Hc0 by (unfold th_core; by rewrite Hth).
  (* the old core loses the thread *)
  assert (forall (K : unit -> Sim -> Prop),
    (forall s1, same_rest s s1 -> (forall u, th_core s1 u = th_core s u) -> (forall d, co_state s1 d = co_state s d) ->
       (forall d, co_thread s1 d = if decide (Some d = th_core s t) then None else co_thread s d) -> K tt s1) ->
    wpe E (match m_core th with Some c => setThread c None | None => mret tt end) K s) as Hold.
  { intros K HK. destruct (m_core th) as [c|] eqn:Ec.
    - apply wpe_setThread; [by eapply co_thread_lt, Hbij|]. intros st s1 Est (H1 & H2 & H3 & H4). apply HK; [done|done| |].
      + intros d. rewrite H4. case_decide; [by subst|done].
      + intros d. rewrite H3, Hc0. do 2 case_decide; congruence.
    - apply wpe_ret, HK; try done. intros d. by rewrite Hc0, decide_False. }
  apply wpe_bind, Hold. clear Hold. intros s1 R1 T1 S1 C1. apply wpe_bind, wpe_thread; [by rewrite (sr_threads _ _ R1)|].
  intros th1 s2 _ (R2 & T2 & C2 & S2). cbn [m_core] in T2.
  assert (same_rest s s2) as R by (by etrans).
  assert (forall s3, same_rest s2 s3 -> (forall u, th_core s3 u = th_core s2 u) ->
    (forall d, co_thread s3 d = if decide (Some d = x) then Some t else co_thread s2 d) ->
    (forall d, co_state s3 d = co_state s2 d) -> Q tt s3) as Hfin.
  { intros s3 R3 T3 C3 S3. pose proof (transitivity R R3) as R'.
    assert (forall u, th_core s3 u = if decide (u = t) then x else th_core s u) as Hth3.
    { intros u. by rewrite T3, T2, T1. }
    assert (forall d, co_thread s3 d = if decide (Some d = x) then Some t else
                      if decide (Some d = th_core s t) then None else co_thread s d) as Hco3.
    { intros d. rewrite C3, C2, C1. done. }
    apply HQ; [|done|exact Hth3|intros d; by rewrite S3, S2, S1]. split.
    - rewrite (sr_states _ _ R'), (sr_threads _ _ R'). exact Hst.
    - intros u d. rewrite Hth3, Hco3. destruct (decide (u = t)) as [->|Hu], (decide (Some d = x)) as [<-|Hd]; try done.
      + split; [congruence|]. case_decide as Hk; [done|]. intros H'%Hbij. congruence.
      + split; [|congruence]. intros H. destruct (Hx d eq_refl) as [_ [H0|H0]]; apply Hbij in H; [congruence|].
        apply Hbij in H0. congruence.
      + destruct (decide (Some d = th_core s t)) as [Hd'|]; [|apply Hbij]. split; [|done].
        intros H. symmetry in Hd'. apply Hbij in H. apply Hbij in Hd'. congruence.
    - intros d. rewrite S3, S2, S1, Hco3. intros H. case_decide; [done|]. case_decide as Hd; [|by apply Hrun].
      symmetry in Hd. by apply Hidle in Hd. }
  destruct x as [c|].
  - destruct (Hx c eq_refl) as [Hc Hfree]. rewrite <- (sr_cores _ _ R) in Hc.
    destruct (lookup_lt_is_Some_2 _ _ Hc) as [co Hco]. apply wpe_bind. eapply wpe_getCore; [done|].
    assert (m_thread co = None) as Hnone.
    { assert (co_thread s2 c = m_thread co) as <- by (unfold co_thread; by rewrite Hco). rewrite C2, C1.
      case_decide; [done|]. by destruct Hfree. }
    apply wpe_bind. rewrite bool_decide_true by done. apply wpe_ret. apply wpe_setThread; [done|].
    intros st s3 Est (R3 & T3 & C3 & S3). apply Hfin; [done|done| |].
    + intros d. rewrite C3. do 2 case_decide; congruence.
    + intros d. rewrite S3. case_decide; [by subst|done].
  - by apply wpe_ret, Hfin.
Qed.
End moves.

(** ** The invariant *)

(** The lists of the barrier have one entry per core. *)
Record BarOk (s : Sim) : Prop := {
  bo_clock : length (m_local_clock_list (s_bar s)) = n_cores s;
  bo_acquire : length (m_barrier_acquire_list (s_bar s)) = n_cores s;
  bo_group : length (m_core_group (s_bar s)) = n_cores s;
  bo_thread : length (m_core_thread (s_bar s)) = n_cores s
}.

(** The threads of [X] are on their way: the scheduler has placed them, or they have ended, but the
    thread manager has them on no core yet (any more). *)
Record Inv (X : gset nat) (s : Sim) : Prop := {
  i_tm : TMok s;
  i_bar : BarOk s;
  i_running : length (m_core_thread_running (s_sched s)) = n_cores s;
  i_quantum : length (m_quantum_left (s_sched s)) = n_cores s;
  i_affinity : Forall (fun i => length (m_core_affinity i) = n_cores s) (m_thread_info (s_sched s));
  i_infos : (length (m_threads_runnable (s_sched s)) <= length (m_thread_info (s_sched s)))%nat;
  i_threads : (n_threads s <= length (m_thread_info (s_sched s)))%nat;
  i_runnable : forall t, m_threads_runnable (s_sched s) !! t = Some true -> (t < n_threads s)%nat;
  i_sched : forall t c, run_core s t = Some c <-> run_thread s c = Some t;
  i_exists : forall t c, run_core s t = Some c -> (t < n_threads s)%nat;
  i_link : forall t, t ∉ X -> th_core s t = run_core s t;
  i_moving : forall t, t ∈ X -> th_core s t = None /\
    (is_Some (run_core s t) \/ m_threads_runnable (s_sched s) !! t <> Some true)
}.

(** ** What a rescheduling changes

    Threads may be scheduled on free cores and, if they were stalled for want of a core, run
    again; [c] is the core that is rescheduled. *)

Definition status_step (st st' : ThreadState) : Prop :=
  waiter st' = waiter st /\ stalled_reason st' = stalled_reason st /\
  (status st' = status st \/ (status st = STALLED /\ stalled_reason st = STALL_UNSCHEDULED /\ status st' = RUNNING)).

Record evolves (c : option nat) (s s' : Sim) : Prop := {
  e_threads : n_threads s' = n_threads s;
  e_cores : n_cores s' = n_cores s;
  e_sys : s_sys s' = s_sys s;
  e_runnable : m_threads_runnable (s_sched s') = m_threads_runnable (s_sched s);
  e_infos : length (m_thread_info (s_sched s')) = length (m_thread_info (s_sched s));
  e_keep : forall d u, Some d <> c -> run_thread s d = Some u -> run_thread s' d = Some u;
  e_new : forall u d, run_core s' u = Some d -> run_core s u = Some d \/ m_threads_runnable (s_sched s) !! u = Some true;
  e_status : Forall2 status_step (m_thread_state (s_tm s)) (m_thread_state (s_tm s'))
}.

#[global] Instance status_step_preorder : PreOrder status_step.
Proof.
  split.
  - intros st. split_and!; auto.
  - intros st1 st2 st3 (W1 & R1 & S1) (W2 & R2 & S2). split_and!; [congruence..|].
    destruct S1 as [S1|(A1 & B1 & C1)], S2 as [S2|(A2 & B2 & C2)]; [left; congruence|right; split_and!; congruence..].
Qed.

Lemma evolves_refl c s : evolves c s s.
Proof. split; try done. auto. Qed.

Lemma evolves_trans c s1 s2 s3 : evolves c s1 s2 -> evolves c s2 s3 -> evolves c s1 s3.
Proof.
  intros [] []. split; try congruence; try (by etrans).
  - eauto.
  - intros u d H. destruct (e_new1 u d H) as [?|Hr]; [by apply e_new0|]. right. by rewrite <- e_runnable0.
Qed.

Lemma evolves_weaken c s s' : evolves None s s' -> evolves c s s'.
Proof. intros []. split; try done. intros d u _. by apply e_keep0. Qed.

(** Only the log and the barrier changed. *)
Definition bar_only (s s' : Sim) : Prop :=
  s_sched s' = s_sched s /\ s_sys s' = s_sys s /\ m_threads (s_tm s') = m_threads (s_tm s) /\
  m_thread_state (s_tm s') = m_thread_state (s_tm s) /\ tm_cores (s_tm s') = tm_cores (s_tm s).

#[global] Instance bar_only_preorder : PreOrder bar_only.
Proof. split; [done|]. intros s1 s2 s3 (?&?&?&?&?) (?&?&?&?&?). split_and!; congruence. Qed.

Lemma bar_only_evolves c s s' : bar_only s s' -> evolves c s s'.
Proof.
  intros (H1 & H2 & H3 & H4 & H5). split; unfold n_threads, n_cores, run_thread, run_core; try congruence.
  - by intros u d; rewrite H1; left.
  - rewrite H4. reflexivity.
Qed.

Lemma Inv_bar X s s' : Inv X s -> bar_only s s' -> BarOk s' -> Inv X s'.
Proof.
  intros [HT HB H1 H2 H3 H4 H5 H6 H7 H8 H9 H10] (E1 & E2 & E3 & E4 & E5) HB'.
  assert (n_threads s' = n_threads s) as En by (unfold n_threads; congruence).
  assert (n_cores s' = n_cores s) as Ec by (unfold n_cores; congruence).
  split; rewrite ?E1, ?En, ?Ec; try done; unfold run_core, run_thread, th_core in *; rewrite ?E1, ?E3; try done.
  destruct HT as [T1 T2 T3]. split; unfold n_threads, th_core, co_thread, co_state in *; by rewrite ?E3, ?E4, ?E5.
Qed.

(** ** Free cores *)

Definition free_cores (s : Sim) : nat := length (filter (fun r => r = None) (m_core_thread_running (s_sched s))).

Lemma filter_insert_none (l : list (option nat)) c t u :
  l !! c = Some u ->
  (length (filter (fun r => r = None) (<[c := Some t]> l)) + (if decide (u = None) then 1 else 0))%nat =
  length (filter (fun r => r = None) l).
Proof.
  intros Hc. rewrite <- (take_drop_middle l c u Hc) at 2.
  rewrite insert_take_drop by (by eapply lookup_lt_Some). rewrite !filter_app, !length_app, !filter_cons.
  rewrite (decide_False (P := Some t = None)) by done. case_decide; cbn; lia.
Qed.

(** ** The barrier's part of a migration *)

Section barrier.
Context (E : error -> Prop).

Lemma bar_upd f s :
  (forall b, length (m_local_clock_list (f b)) = length (m_local_clock_list b) /\
     length (m_barrier_acquire_list (f b)) = length (m_barrier_acquire_list b) /\
     m_core_group (f b) = m_core_group b /\ m_core_thread (f b) = m_core_thread b) ->
  BarOk s -> BarOk (set_bar (f (s_bar s)) s) /\ bar_only s (set_bar (f (s_bar s)) s).
Proof.
  intros Hf [H1 H2 H3 H4]. destruct (Hf (s_bar s)) as (F1 & F2 & F3 & F4). split; [|done].
  split; cbn; rewrite ?F1, ?F2, ?F3, ?F4; done.
Qed.

Lemma wpe_for_cores k c body s :
  (c + k <= n_cores s)%nat -> BarOk s ->
  (forall d s', (d < n_cores s')%nat -> BarOk s' -> wpe E (body d) (fun _ s'' => bar_only s' s'' /\ BarOk s'') s') ->
  wpe E (for_cores k c body) (fun _ s' => bar_only s s' /\ BarOk s') s.
Proof.
  revert c s. induction k as [|k IH]; intros c s Hk HB Hbody; cbn [for_cores]; [by apply wpe_ret|].
  apply wpe_bind. eapply wpe_mono; [apply Hbody; [lia|done]|done|]. intros _ s1 [H1 HB1].
  assert (n_cores s1 = n_cores s) as En by (unfold n_cores; by destruct H1 as (_ & _ & _ & _ & ->)).
  eapply wpe_mono; [apply IH; [lia|done|done]|done|]. intros _ s2 [H2 HB2]. split; [by etrans|done].
Qed.

Lemma wpe_doRelease n s : BarOk s -> wpe E (doRelease n) (fun _ s' => bar_only s s' /\ BarOk s') s.
Proof.
  intros HB. unfold doRelease. apply wpe_bind, wpe_gets, wpe_bind, wpe_modify, wpe_modify.
  assert (forall l m, m_threads (foldl (fun m c => tm_emit (CoreSignal c) m) m l) = m_threads m /\
    m_thread_state (foldl (fun m c => tm_emit (CoreSignal c) m) m l) = m_thread_state m /\
    tm_cores (foldl (fun m c => tm_emit (CoreSignal c) m) m l) = tm_cores m) as Hl.
  { intros l. induction l as [|x l IH]; intros m; cbn; [done|]. by destruct (IH (tm_emit (CoreSignal x) m)) as (-> & -> & ->). }
  destruct HB. unfold bar_only. cbn. edestruct Hl as (L1 & L2 & L3). split; [by rewrite L1, L2, L3|].
  split; unfold n_cores; cbn; rewrite L3; done.
Qed.

Lemma wpe_releaseThread t s : BarOk s -> wpe E (releaseThread t) (fun _ s' => bar_only s s' /\ BarOk s') s.
Proof.
  intros HB. unfold releaseThread, cores_loop. apply wpe_bind, wpe_bind, wpe_gets.
  eapply wpe_mono; [apply wpe_for_cores; [by cbn|done|]|done|].
  - intros d s' Hd HB'. apply wpe_bind. unfold acquired. apply wpe_bind, wpe_gets.
    destruct (aget_lt (m_barrier_acquire_list (s_bar s')) d) as (a & Ha & _); [by rewrite (bo_acquire _ HB')|].
    eapply wpe_lift; [exact Ha|]. destruct a; [|by apply wpe_ret].
    apply wpe_bind. unfold barrier_thread. apply wpe_bind, wpe_gets.
    destruct (aget_lt (m_core_thread (s_bar s')) d) as (th & Hth & _); [by rewrite (bo_thread _ HB')|].
    eapply wpe_lift; [exact Hth|]. case_bool_decide; [|by apply wpe_ret].
    unfold set_local_clock. apply wpe_bind, wpe_gets, wpe_bind.
    eapply wpe_lift; [apply aset_lt; by rewrite (bo_clock _ HB')|]. apply wpe_modify.
    destruct HB'. split; [done|]. split; try done. cbn. by rewrite length_insert.
  - intros _ s1 [H1 HB1]. eapply wpe_mono; [by apply wpe_doRelease|done|]. intros _ s2 [H2 HB2].
    split; [by etrans|done].
Qed.

Lemma wpe_migrate cfg n t c time s :
  BarOk s -> wpe E (callHooks cfg (S n) (HOOK_THREAD_MIGRATE t c time)) (fun _ s' => bar_only s s' /\ BarOk s') s.
Proof.
  intros HB. change (callHooks cfg (S n) (HOOK_THREAD_MIGRATE t c time)) with
    (mbind (fun _ : unit => mret tt) (releaseThread t : M unit) : M unit).
  apply wpe_bind. eapply wpe_mono; [by apply wpe_releaseThread|done|]. intros ? s' H. by apply wpe_ret.
Qed.
End barrier.

(** ** The scheduler's data *)

Section sched_primitives.
Context (E : error -> Prop).

Lemma wpe_upd_info t f i i' s (Q : unit -> Sim -> Prop) :
  m_thread_info (s_sched s) !! t = Some i -> f i = Ok i' ->
  Q tt (set_sched (sc_with_info (<[t := i']> (m_thread_info (s_sched s))) (s_sched s)) s) -> wpe E (upd_info t f) Q s.
Proof.
  intros Ht Hf HQ. unfold upd_info. apply wpe_bind, wpe_gets, wpe_bind. eapply wpe_lift; [by apply aget_ok|].
  apply wpe_bind. eapply wpe_lift; [exact Hf|]. by apply wpe_modify.
Qed.

Lemma wpe_thread_info t i s (Q : ThreadInfo -> Sim -> Prop) :
  m_thread_info (s_sched s) !! t = Some i -> Q i s -> wpe E (thread_info t) Q s.
Proof. intros Ht HQ. unfold thread_info. apply wpe_bind, wpe_gets. eapply wpe_lift; [by apply aget_ok|done]. Qed.

Lemma wpe_core_thread_running c s (Q : option nat -> Sim -> Prop) :
  (c < length (m_core_thread_running (s_sched s)))%nat -> Q (run_thread s c) s -> wpe E (core_thread_running c) Q s.
Proof.
  intros Hc HQ. unfold core_thread_running. apply wpe_bind, wpe_gets.
  destruct (aget_lt _ _ Hc) as (x & Hx & Hl). eapply wpe_lift; [exact Hx|]. unfold run_thread in HQ. by rewrite Hl in HQ.
Qed.

Lemma wpe_set_running c x s (Q : unit -> Sim -> Prop) :
  (c < length (m_core_thread_running (s_sched s)))%nat ->
  Q tt (set_sched (sc_with_running (<[c := x]> (m_core_thread_running (s_sched s))) (s_sched s)) s) ->
  wpe E (set_core_thread_running c x) Q s.
Proof.
  intros Hc HQ. unfold set_core_thread_running. apply wpe_bind, wpe_gets, wpe_bind.
  eapply wpe_lift; [by apply aset_lt|]. by apply wpe_modify.
Qed.

Lemma wpe_set_quantum c q X s (Q : unit -> Sim -> Prop) :
  Inv X s -> (c < n_cores s)%nat ->
  (forall s', Inv X s' -> evolves None s s' -> s_tm s' = s_tm s -> run_core s' = run_core s -> run_thread s' = run_thread s -> Q tt s') ->
  wpe E (set_quantum_left c q) Q s.
Proof.
  intros HI Hc HQ. unfold set_quantum_left. apply wpe_bind, wpe_gets, wpe_bind.
  eapply wpe_lift; [apply aset_lt; by rewrite (i_quantum _ _ HI)|]. apply wpe_modify. apply HQ; try done.
  - destruct HI as [HT HB H1 H2 H3 H4 H5 H6 H7 H8 H9 H10]. split; try done.
    + by destruct HT.
    + by destruct HB.
    + cbn. by rewrite length_insert.
  - split; try done. by left.
Qed.
End sched_primitives.

Lemma run_thread_lookup s c t : run_thread s c = Some t -> m_core_thread_running (s_sched s) !! c = Some (Some t).
Proof. unfold run_thread. by destruct (m_core_thread_running (s_sched s) !! c) as [[x|]|]; cbn; intros [= ->]. Qed.

Lemma run_thread_lt X s c t : Inv X s -> run_thread s c = Some t -> (c < n_cores s)%nat.
Proof. intros HI H%run_thread_lookup%lookup_lt_Some. by rewrite (i_running _ _ HI) in H. Qed.

(** The thread chosen by [reschedule] is runnable, may use the core, and is on no other core. *)
Lemma best_thread_spec time c t0 rs infos n best m :
  (c < n)%nat -> Forall (fun i => length (m_core_affinity i) = n) infos -> (t0 + length rs <= length infos)%nat ->
  exists new, best_thread time c t0 rs infos best m = Ok new /\
    (new = best \/ exists t i, new = Some t /\ (t0 <= t)%nat /\ rs !! (t - t0)%nat = Some true /\ infos !! t = Some i /\
       m_core_affinity i !! c = Some true /\ (m_core_running i = None \/ m_core_running i = Some c)).
Proof.
  intros Hc Hinf. revert t0 best m. induction rs as [|r rs IH]; intros t0 best m Hlen; cbn [best_thread]; [eauto|].
  cbn in Hlen. destruct (aget_lt infos t0) as (i & Hi & Hl); [lia|]. rewrite Hi. cbn [mbind res_bind].
  assert (length (m_core_affinity i) = n) as Hn by (by eapply (Forall_lookup_1 _ _ _ _ Hinf)).
  destruct (aget_lt (m_core_affinity i) c) as (a & Ha & Hla); [lia|].
  assert (forall best m, exists new, best_thread time c (S t0) rs infos best m = Ok new /\
    (new = best \/ exists t i, new = Some t /\ (t0 <= t)%nat /\ (r :: rs) !! (t - t0)%nat = Some true /\ infos !! t = Some i /\
       m_core_affinity i !! c = Some true /\ (m_core_running i = None \/ m_core_running i = Some c))) as Hrec.
  { intros b' m'. destruct (IH (S t0) b' m') as (new & En & Hnew); [lia|]. exists new. split; [done|].
    destruct Hnew as [->|(t & i' & -> & Ht & Hr & Hrest)]; [by left|]. right. exists t, i'.
    split_and!; [done|lia| |apply Hrest..]. by replace (t - t0)%nat with (S (t - S t0)) by lia. }
  unfold candidate, hasAffinity. rewrite Ha. cbn [mbind res_bind].
  destruct (a && r && (negb (isRunning i) || bool_decide (m_core_running i = Some c))) eqn:Ec; [|apply Hrec].
  cbv zeta. destruct (m <? _); [|apply Hrec].
  destruct (Hrec (Some t0) (s64 (u64 (if isRunning i then getPS (m_last_scheduled_in i) - getPS time
    else getPS time - getPS (m_last_scheduled_out i))))) as (new & En & Hnew).
  exists new. split; [exact En|]. destruct Hnew as [->|Hnew]; [|by right]. right. exists t0, i.
  apply andb_true_iff in Ec as [[-> ->]%andb_true_iff Hr]. rewrite Nat.sub_diag. split_and!; try done.
  unfold isRunning in Hr. destruct (m_core_running i); [|by left]. right. cbn in Hr. by case_bool_decide.
Qed.

Lemma find_free_spec k c aff running n :
  length aff = n -> length running = n -> (c + k = n)%nat ->
  exists r, find_free k c aff running = Ok r /\
    (forall d, r = Some d -> aff !! d = Some true /\ running !! d = Some None /\ (d < n)%nat).
Proof.
  intros Ha Hr. revert c. induction k as [|k IH]; intros c Hc; cbn [find_free]; [eexists; split; [done|]; done|].
  destruct (aget_lt aff c) as (a & Ea & La); [lia|]. rewrite Ea. cbn [mbind res_bind].
  destruct (IH (S c)) as (r & Er & Hres); [lia|]. destruct a; [|eauto].
  destruct (aget_lt running c) as (x & Ex & Lx); [lia|]. rewrite Ex. cbn [mbind res_bind].
  case_bool_decide; [|eauto]. subst. eexists. split; [done|]. intros d [= <-]. split_and!; [done..|lia].
Qed.

Lemma wpe_findFree E X t s (Q : option nat -> Sim -> Prop) :
  Inv X s -> (t < length (m_thread_info (s_sched s)))%nat ->
  (forall r, (forall c, r = Some c -> (c < n_cores s)%nat /\ run_thread s c = None /\
      m_core_thread_running (s_sched s) !! c = Some None) -> Q r s) ->
  wpe E (findFreeCoreForThread t) Q s.
Proof.
  intros HI Ht HQ. unfold findFreeCoreForThread, num_cores. apply wpe_bind, wpe_bind, wpe_gets, wpe_ret, wpe_bind, wpe_gets.
  fold (n_cores s). destruct (aget_lt _ _ Ht) as (i & Ei & Li). destruct (n_cores s) as [|n] eqn:En.
  { eapply wpe_lift; [done|]. by apply HQ. }
  rewrite Ei. cbn [mbind res_bind]. destruct (find_free_spec (S n) 0 (m_core_affinity i) (m_core_thread_running (s_sched s)) (S n))
    as (r & Er & Hr); [|rewrite (i_running _ _ HI); done|lia|].
  { rewrite <- En. by eapply (Forall_lookup_1 _ _ _ _ (i_affinity _ _ HI)). }
  eapply wpe_lift; [exact Er|]. apply HQ. intros c ->. destruct (Hr c eq_refl) as (_ & Hf & Hc). split_and!; [lia| |done].
  unfold run_thread. by rewrite Hf.
Qed.

(** ** Moving threads *)

Lemma Inv_rest X s s' :
  Inv X s -> same_rest s s' -> TMok s' -> (forall u, th_core s' u = th_core s u) -> Inv X s'.
Proof.
  intros [HT HB H1 H2 H3 H4 H5 H6 H7 H8 H9 H10] [E1 E2 E3 E4 E5 E6] HT' Hth.
  split; rewrite ?E1, ?E5, ?E6; try done; unfold run_core, run_thread in *; rewrite ?E1; try done.
  - destruct HB. split; by rewrite ?E3, ?E6.
  - intros t Ht. rewrite Hth. by apply H9.
  - intros t Ht. rewrite Hth. by apply H10.
Qed.

Lemma rest_evolves c s s' : same_rest s s' -> evolves c s s'.
Proof.
  intros [E1 E2 E3 E4 E5 E6]. split; unfold run_thread, run_core; try congruence.
  - intros u d. rewrite E1. by left.
  - rewrite E4. reflexivity.
Qed.

(** A thread that the scheduler has placed on [c] gets there. *)
Lemma wpe_arrive E X t c s (Q : unit -> Sim -> Prop) :
  Inv ({[t]} ∪ X) s -> t ∉ X -> run_core s t = Some c ->
  (forall s', Inv X s' -> same_rest s s' -> th_core s' t = Some c -> (forall d, co_state s' d = co_state s d) -> Q tt s') ->
  wpe E (setCore t (Some c)) Q s.
Proof.
  intros HI HtX Hrc HQ. pose proof (proj1 (i_sched _ _ HI t c) Hrc) as Hrt. pose proof (run_thread_lt _ _ _ _ HI Hrt) as Hc.
  assert (th_core s t = None) as Hn by (apply (i_moving _ _ HI); set_solver).
  apply wpe_setCore; [apply HI|by eapply i_exists|by rewrite Hn| |].
  { intros d [= <-]. split; [done|]. left. destruct (co_thread s c) as [u|] eqn:Eu; [|done]. exfalso.
    apply (tm_bij _ (i_tm _ _ HI)) in Eu. destruct (decide (u ∈ {[t]} ∪ X)) as [Hu|Hu].
    - apply (i_moving _ _ HI) in Hu as [Hu _]. congruence.
    - rewrite (i_link _ _ HI u Hu) in Eu. apply (i_sched _ _ HI) in Eu. assert (u = t) by congruence. set_solver. }
  intros s2 HT2 R2 T2 S2. apply HQ; [|done|by rewrite T2, decide_True|done].
  destruct HI as [HT HB H1 H2 H3 H4 H5 H6 H7 H8 H9 H10]. destruct R2 as [E1 E2 E3 E4 E5 E6].
  split; rewrite ?E1, ?E5, ?E6; try done; unfold run_core, run_thread in *; rewrite ?E1; try done.
  - destruct HB. split; by rewrite ?E3, ?E6.
  - intros u Hu. rewrite T2. case_decide; [by subst|]. apply H9. set_solver.
  - intros u Hu. rewrite T2. case_decide; [by subst|]. apply H10. set_solver.
Qed.

(** What stays as it is while [reschedule] takes a thread off its core and chooses another. *)
Record frame (s s' : Sim) : Prop := {
  fr_threads : n_threads s' = n_threads s;
  fr_cores : n_cores s' = n_cores s;
  fr_sys : s_sys s' = s_sys s;
  fr_states : m_thread_state (s_tm s') = m_thread_state (s_tm s);
  fr_runnable : m_threads_runnable (s_sched s') = m_threads_runnable (s_sched s);
  fr_running : length (m_core_thread_running (s_sched s')) = length (m_core_thread_running (s_sched s));
  fr_quantum : m_quantum_left (s_sched s') = m_quantum_left (s_sched s);
  fr_affinity : m_core_affinity <$> m_thread_info (s_sched s') = m_core_affinity <$> m_thread_info (s_sched s)
}.

#[global] Instance frame_preorder : PreOrder frame.
Proof. split; [by intros s|]. intros s1 s2 s3 [] []. split; congruence. Qed.

Lemma frame_infos s s' : frame s s' -> length (m_thread_info (s_sched s')) = length (m_thread_info (s_sched s)).
Proof. intros Hf. pose proof (f_equal length (fr_affinity _ _ Hf)) as Hl. by rewrite !length_fmap in Hl. Qed.

Lemma frame_Forall s s' n :
  frame s s' -> Forall (fun i => length (m_core_affinity i) = n) (m_thread_info (s_sched s)) ->
  Forall (fun i => length (m_core_affinity i) = n) (m_thread_info (s_sched s')).
Proof.
  intros Hf. rewrite <- !(Forall_fmap m_core_affinity (fun a => length a = n)). by rewrite (fr_affinity _ _ Hf).
Qed.

(** The scheduler has given [c] to [new]; the thread that had it is on no core. *)
Record replaced (c : nat) (new : option nat) (s s' : Sim) : Prop := {
  r_tm : TMok s';
  r_bar : BarOk s';
  r_frame : frame s s';
  r_thread : forall d, run_thread s' d = if decide (d = c) then new else run_thread s d;
  r_core : forall v, run_core s' v =
    if decide (new = Some v) then Some c else if decide (run_thread s c = Some v) then None else run_core s v;
  r_th_core : forall v, th_core s' v = if decide (run_thread s c = Some v) then None else th_core s v
}.

Lemma Inv_replace X s s' c new :
  Inv X s -> replaced c new s s' ->
  (forall t, new = Some t -> (t < n_threads s)%nat /\ t ∉ X /\ run_core s t = None) ->
  (forall u, run_thread s c = Some u -> u ∈ X -> m_threads_runnable (s_sched s) !! u <> Some true) ->
  Inv (match new with Some t => {[t]} | None => ∅ end ∪ X) s'.
Proof.
  intros HI [HT HB Hf Hrt Hrc Hth] Hnew Hold. destruct HI as [_ _ H1 H2 H3 H4 H5 H6 H7 H8 H9 H10].
  destruct (Hf) as [F1 F2 F3 F4 F5 F6 F7 _]. split; rewrite ?F1, ?F2, ?F5, ?F6, ?F7, ?(frame_infos _ _ Hf); try done.
  - by apply (frame_Forall s).
  - intros v d. rewrite Hrt, Hrc. destruct (decide (new = Some v)) as [E|E].
    { destruct (Hnew v E) as (_ & _ & Hn). case_decide as Ed; [by subst|]. split; [congruence|]. intros Hd%H7. congruence. }
    destruct (decide (run_thread s c = Some v)) as [Ec|Ec]; case_decide as Ed; subst; rewrite ?H7; try done.
    split; [done|]. intros Hd. apply H7 in Ec, Hd. congruence.
  - intros v d. rewrite Hrc. case_decide as E; [intros _; by apply Hnew|]. case_decide; [done|]. apply H8.
  - intros v Hv. rewrite Hth, Hrc, (decide_False (P := new = Some v)) by (intros ->; set_solver).
    case_decide; [done|]. apply H9. set_solver.
  - intros v Hv. rewrite Hth, Hrc. destruct (decide (new = Some v)) as [E|E].
    + destruct (Hnew v E) as (_ & HnX & Hn). split; [|left; eauto]. case_decide; [done|]. by rewrite H9.
    + assert (v ∈ X) as HvX by (destruct new; set_solver). case_decide; [|by apply H10]. split; [done|]. right. by apply Hold.
Qed.

Lemma evolves_replace s s' c new :
  replaced c new s s' -> (forall t, new = Some t -> m_threads_runnable (s_sched s) !! t = Some true) -> evolves (Some c) s s'.
Proof.
  intros [HT HB Hf Hrt Hrc Hth] Hnew. destruct (Hf) as [F1 F2 F3 F4 F5 F6 F7 _].
  split; rewrite ?F1, ?F2, ?F5, ?(frame_infos _ _ Hf); try done.
  - intros d v Hd. rewrite Hrt. by rewrite decide_False by congruence.
  - intros v d. rewrite Hrc. case_decide as E; [intros _; right; by apply Hnew|]. case_decide; [done|]. by left.
  - rewrite F4. reflexivity.
Qed.

Lemma frame_info t i i' s :
  m_thread_info (s_sched s) !! t = Some i -> m_core_affinity i' = m_core_affinity i ->
  frame s (set_sched (sc_with_info (<[t := i']> (m_thread_info (s_sched s))) (s_sched s)) s).
Proof.
  intros Hi Ha. split; try done. cbn. rewrite list_fmap_insert, Ha. apply list_insert_id. by rewrite list_lookup_fmap, Hi.
Qed.

Lemma run_core_info t i' s u :
  (t < length (m_thread_info (s_sched s)))%nat ->
  run_core (set_sched (sc_with_info (<[t := i']> (m_thread_info (s_sched s))) (s_sched s)) s) u =
  if decide (u = t) then m_core_running i' else run_core s u.
Proof. intros Ht. destruct (lookup_lt_is_Some_2 _ _ Ht) as [i Hi]. unfold run_core. cbn. by erewrite insert_view_bind. Qed.

Lemma run_core_lt s t c : run_core s t = Some c -> (t < length (m_thread_info (s_sched s)))%nat.
Proof. unfold run_core. intros E. apply bind_Some in E as (i & E & _). by eapply lookup_lt_Some. Qed.

Section reschedule.
Context (cfg : SchedCfg) (H : hook_event -> M unit) (k : nat).

(** The hooks that a rescheduling calls: a resumed thread when at most [k] cores are free, and a
    migration. *)
Context (HR : forall X s t thread_by time, Inv X s -> m_threads_runnable (s_sched s) !! t = Some true ->
  (free_cores s <= k)%nat ->
  runs (H (HOOK_THREAD_RESUME t thread_by time)) (fun _ s' => Inv X s' /\ evolves None s s') s).
Context (HM : forall s t c time, BarOk s ->
  runs (H (HOOK_THREAD_MIGRATE t c time)) (fun _ s' => bar_only s s' /\ BarOk s') s).

(** A stalled thread that waits for a core is woken. *)
Lemma runs_resume X t thread_by time msg s st :
  Inv X s -> m_threads_runnable (s_sched s) !! t = Some true -> (free_cores s <= k)%nat ->
  m_thread_state (s_tm s) !! t = Some st -> status st = STALLED -> stalled_reason st = STALL_UNSCHEDULED ->
  runs (resumeThread H t thread_by time msg) (fun _ s' => Inv X s' /\ evolves None s s') s.
Proof.
  intros HI Hrun Hfree Hst Hs Hr. pose proof (i_runnable _ _ HI t Hrun) as Ht.
  unfold resumeThread, resumeThread_async. apply wpe_bind. unfold thread_signal.
  apply wpe_thread; [done|]. intros th s1 Hth (R1 & T1 & C1 & S1). cbn [m_core] in T1.
  assert (Inv X s1) as HI1.
  { assert (forall u, th_core s1 u = th_core s u) as Hsame.
    { intros u. rewrite T1. case_decide; [|done]. subst. unfold th_core. by rewrite Hth. }
    apply (Inv_rest X s); [done|done| |done]. destruct (i_tm _ _ HI) as [A B C]. split.
    - by rewrite (sr_states _ _ R1), (sr_threads _ _ R1).
    - intros u d. by rewrite Hsame, C1.
    - intros d. rewrite S1, C1. apply C. }
  apply wpe_bind. eapply wpe_upd_state; [by rewrite (sr_states _ _ R1)|].
  set (s2 := set_tm _ s1). assert (Inv X s2) as HI2.
  { destruct HI1 as [HT HB H1 H2 H3 H4 H5 H6 H7 H8 H9 H10]. split; try done.
    - destruct HT as [A B C]. split; try done. cbn. by rewrite length_insert.
    - by destruct HB. }
  assert (evolves None s s2) as Hev.
  { apply (evolves_trans _ _ s1); [by apply rest_evolves|]. split; try done; [by left|]. cbn.
    rewrite <- (list_insert_id (m_thread_state (s_tm s1)) t st) at 1 by (by rewrite (sr_states _ _ R1)).
    apply Forall2_insert; [reflexivity|]. split_and!; try done. by right. }
  eapply wpe_mono; [apply (HR X); [done| |]|done|].
  - cbn. by rewrite (sr_sched _ _ R1).
  - unfold free_cores in *. cbn. by rewrite (sr_sched _ _ R1).
  - intros ? s3 [HI3 Hev3]. split; [done|]. by eapply evolves_trans.
Qed.

(** A thread leaves its core. *)
Lemma runs_move_out t time s :
  TMok s -> BarOk s -> (t < n_threads s)%nat ->
  runs (moveThread H t None time) (fun _ s' => TMok s' /\ BarOk s' /\ s_sched s' = s_sched s /\ s_sys s' = s_sys s /\
    m_thread_state (s_tm s') = m_thread_state (s_tm s) /\ n_threads s' = n_threads s /\ n_cores s' = n_cores s /\
    (forall u, th_core s' u = if decide (u = t) then None else th_core s u)) s.
Proof.
  intros HT HB Ht. destruct (lookup_lt_is_Some_2 _ _ Ht) as [th Hth]. unfold moveThread.
  apply wpe_bind. eapply wpe_getThread; [done|]. assert (th_core s t = m_core th) as Hc0 by (unfold th_core; by rewrite Hth).
  apply wpe_bind. apply (wpe_mono _ (fun _ => False) _ (fun _ s1 => same_rest s s1 /\ TMok s1 /\
    (forall u, th_core s1 u = th_core s u) /\ forall c, th_core s1 t = Some c -> co_state s1 c <> Some RUNNING)); [|done|].
  { destruct (m_core th) as [c|] eqn:Ec.
    - apply wpe_setState; [by eapply co_thread_lt, tm_bij|]. intros s1 (R & T & C & S). split_and!; [done| |done|].
      + destruct HT as [A B D]. split.
        * by rewrite (sr_states _ _ R), (sr_threads _ _ R).
        * intros u d. rewrite T, C. case_decide; [by subst|apply B].
        * intros d. rewrite S, C. case_decide; [done|apply D].
      + intros d. rewrite T, Hc0. intros [= <-]. by rewrite S, decide_True.
    - apply wpe_ret. split_and!; try done. intros c. by rewrite Hc0. }
  intros ? s1 (R1 & HT1 & T1 & Hidle). apply wpe_bind.
  apply wpe_setCore; [done|by rewrite (sr_threads _ _ R1)|done|done|].
  intros s2 HT2 R2 T2 _. assert (same_rest s s2) as R by (by etrans).
  eapply wpe_mono; [apply HM|done|].
  - destruct HB. split; by rewrite (sr_bar _ _ R), (sr_cores _ _ R).
  - intros ? s3 [(B1 & B2 & B3 & B4 & B5) HB3]. split_and!; try done.
    + destruct HT2 as [A B C]. split; unfold n_threads, th_core, co_thread, co_state in *; by rewrite ?B3, ?B4, ?B5.
    + by rewrite B1, (sr_sched _ _ R).
    + by rewrite B2, (sr_sys _ _ R).
    + by rewrite B4, (sr_states _ _ R).
    + unfold n_threads at 1. rewrite B3. apply (sr_threads _ _ R).
    + unfold n_cores at 1. rewrite B5. apply (sr_cores _ _ R).
    + intros u. unfold th_core at 1. rewrite B3. fold (th_core s2 u). by rewrite T2, T1.
Qed.

Lemma runs_move_in X t c time s :
  Inv ({[t]} ∪ X) s -> t ∉ X -> run_core s t = Some c -> m_threads_runnable (s_sched s) !! t = Some true ->
  (free_cores s <= k)%nat ->
  runs (moveThread H t (Some c) time) (fun _ s' => Inv X s' /\ evolves None s s') s.
Proof.
  intros HI HtX Hcore Hrun Hfree. pose proof (i_runnable _ _ HI t Hrun) as Ht.
  destruct (lookup_lt_is_Some_2 _ _ Ht) as [th Hth]. destruct (i_moving _ _ HI t) as [Hnone _]; [set_solver|].
  assert (m_core th = None) as Hm by (unfold th_core in Hnone; by rewrite Hth in Hnone).
  unfold moveThread. apply wpe_bind. eapply wpe_getThread; [done|]. rewrite Hm. apply wpe_bind, wpe_ret, wpe_bind, wpe_bind.
  rewrite bool_decide_true by done. apply (wpe_mono _ (fun _ => False) _ (fun _ s' => Inv ({[t]} ∪ X) s' /\ evolves None s s')); [|done|].
  { assert (t < length (m_thread_state (s_tm s)))%nat as Hts by (by rewrite (tm_states _ (i_tm _ _ HI))).
    destruct (lookup_lt_is_Some_2 _ _ Hts) as [st Hst]. apply wpe_bind. eapply wpe_thread_state; [done|].
    case_bool_decide; [|apply wpe_ret; split; [done|apply evolves_refl]].
    case_bool_decide; [|apply wpe_ret; split; [done|apply evolves_refl]]. by eapply runs_resume. }
  intros ? s1 [HI1 Hev1]. pose proof (e_keep _ _ _ Hev1 c t ltac:(done) (proj1 (i_sched _ _ HI t c) Hcore)) as Hrt.
  pose proof (proj2 (i_sched _ _ HI1 t c) Hrt) as Hrc. pose proof (run_thread_lt _ _ _ _ HI1 Hrt) as Hc.
  destruct (lookup_lt_is_Some_2 _ _ Hc) as [co Hco]. apply wpe_bind. eapply wpe_getCore; [done|].
  apply wpe_bind. apply (wpe_arrive _ X); [done..|]. intros s2 HI2 R2 T2 S2.
  assert (evolves None s s2) as Hev2 by (eapply evolves_trans; [exact Hev1|by apply rest_evolves]).
  assert (t < length (m_thread_state (s_tm s2)))%nat as Hts2.
  { rewrite (tm_states _ (i_tm _ _ HI2)), (e_threads _ _ _ Hev2). done. }
  destruct (lookup_lt_is_Some_2 _ _ Hts2) as [st Hst]. apply wpe_bind, wpe_bind. eapply wpe_thread_state; [done|]. apply wpe_ret.
  apply (wpe_mono _ (fun _ => False) _ (fun _ s' => Inv X s' /\ evolves None s s')); [|done|].
  { case_bool_decide; [by apply wpe_ret|]. apply wpe_setState; [by rewrite (sr_cores _ _ R2)|].
    intros s3 (R3 & T3 & C3 & S3). split; [|eapply evolves_trans; [exact Hev2|by apply rest_evolves]].
    apply (Inv_rest X s2); try done. destruct (i_tm _ _ HI2) as [A B D]. split.
    - by rewrite (sr_states _ _ R3), (sr_threads _ _ R3).
    - intros u d. rewrite T3, C3. case_decide; [by subst|apply B].
    - intros d. rewrite S3, C3. case_decide; [|apply D]. subst. intros _. exists t. by apply B. }
  intros ? s3 [HI3 Hev3]. eapply wpe_mono; [apply HM, HI3|done|]. intros ? s4 [Hb4 HB4].
  split; [by eapply Inv_bar|]. eapply evolves_trans; [exact Hev3|by apply bar_only_evolves].
Qed.

(** The thread on [c] leaves it, for the thread manager and in its own record. *)
Lemma runs_unschedule X time c u s :
  Inv X s -> run_thread s c = Some u ->
  runs (unschedule H time c u) (fun _ s' => TMok s' /\ BarOk s' /\ frame s s' /\
    (forall v, run_core s' v = if decide (v = u) then None else run_core s v) /\
    m_core_thread_running (s_sched s') = m_core_thread_running (s_sched s) /\
    (forall v, th_core s' v = if decide (v = u) then None else th_core s v)) s.
Proof.
  intros HI Hu. pose proof (proj2 (i_sched _ _ HI _ _) Hu) as Hc. pose proof (run_core_lt _ _ _ Hc) as Hl.
  destruct (lookup_lt_is_Some_2 _ _ Hl) as [i Hi]. unfold unschedule. apply wpe_bind. eapply wpe_upd_info; [done..|].
  set (s1 := set_sched _ s). assert (frame s s1) as F1 by (by eapply frame_info).
  eapply wpe_mono; [apply runs_move_out|done|].
  - by destruct (i_tm _ _ HI).
  - by destruct (i_bar _ _ HI).
  - rewrite (fr_threads _ _ F1). by eapply i_exists.
  - intros _ s2 (HT & HB & E1 & E2 & E3 & E4 & E5 & E6). split_and!; [done|done| | |by rewrite E1|].
    + etrans; [exact F1|]. split; rewrite ?E1; done.
    + intros v. transitivity (run_core s1 v); [unfold run_core; by rewrite E1|]. subst s1. by rewrite run_core_info.
    + intros v. rewrite E6. done.
Qed.

(** ** Rescheduling a core *)

Lemma run_thread_running s s' c x :
  (c < length (m_core_thread_running (s_sched s)))%nat ->
  m_core_thread_running (s_sched s') = <[c := x]> (m_core_thread_running (s_sched s)) ->
  forall d, run_thread s' d = if decide (d = c) then x else run_thread s d.
Proof.
  intros Hc E d. unfold run_thread. rewrite E. case_decide; [subst; by rewrite list_lookup_insert_eq|].
  by rewrite list_lookup_insert_ne.
Qed.

(** At most [k] cores are free once [c] is taken. *)
Definition room (c : nat) (s : Sim) : Prop :=
  (free_cores s <= match run_thread s c with Some _ => k | None => S k end)%nat.

Lemma free_cores_taken s s' c t :
  (c < length (m_core_thread_running (s_sched s)))%nat -> room c s ->
  m_core_thread_running (s_sched s') = <[c := Some t]> (m_core_thread_running (s_sched s)) -> (free_cores s' <= k)%nat.
Proof.
  intros Hc Hroom E. destruct (lookup_lt_is_Some_2 _ _ Hc) as [u Hu]. unfold room, free_cores, run_thread in Hroom |- *.
  rewrite Hu in Hroom. cbn in Hroom. pose proof (filter_insert_none _ _ t _ Hu) as Hn. rewrite <- E in Hn.
  destruct u; [rewrite decide_False in Hn by done|rewrite decide_True in Hn by done]; lia.
Qed.

Lemma runs_switch X time c new s :
  Inv X s -> (c < n_cores s)%nat -> room c s -> run_thread s c <> new ->
  (forall t, new = Some t -> m_threads_runnable (s_sched s) !! t = Some true /\ run_core s t = None) ->
  (forall u, run_thread s c = Some u -> u ∈ X -> m_threads_runnable (s_sched s) !! u <> Some true) ->
  runs (_ ← match run_thread s c with Some t => unschedule H time c t | None => mret tt end;
        _ ← set_core_thread_running c new;
        match new with Some t => schedule_in H time c t | None => mret tt end)
    (fun _ s' => Inv X s' /\ evolves (Some c) s s' /\ run_thread s' c = new) s.
Proof.
  intros HI Hc Hroom Hne Hnew Hold. pose proof (i_running _ _ HI) as Hlen. apply wpe_bind.
  apply (wpe_mono _ (fun _ => False) _ (fun _ s' => TMok s' /\ BarOk s' /\ frame s s' /\
    (forall v, run_core s' v = if decide (run_thread s c = Some v) then None else run_core s v) /\
    m_core_thread_running (s_sched s') = m_core_thread_running (s_sched s) /\
    (forall v, th_core s' v = if decide (run_thread s c = Some v) then None else th_core s v))); [|done|].
  { destruct (run_thread s c) as [u|] eqn:Eu.
    - eapply wpe_mono; [by eapply runs_unschedule|done|]. intros _ s1 (A1 & A2 & A3 & A4 & A5 & A6).
      split_and!; [done..| |done|]; intros v; rewrite ?A4, ?A6; do 2 case_decide; congruence.
    - apply wpe_ret. split_and!; try done; apply HI. }
  intros _ s1 (HT1 & HB1 & F1 & C1 & R1 & T1). apply wpe_bind, wpe_set_running; [rewrite R1, Hlen; done|].
  set (s2 := set_sched _ s1). assert (frame s s2) as F2.
  { etrans; [exact F1|]. split; try done. cbn. by rewrite length_insert. }
  assert (TMok s2 /\ BarOk s2) as [HT2 HB2] by (split; [by destruct HT1|by destruct HB1]).
  assert (m_core_thread_running (s_sched s2) = <[c := new]> (m_core_thread_running (s_sched s))) as R2 by (cbn; by rewrite R1).
  pose proof (run_thread_running s s2 c new ltac:(by rewrite Hlen) R2) as RT2.
  destruct new as [t|]; last first.
  { apply wpe_ret. assert (replaced c None s s2) as Hrep by done. pose proof (Inv_replace X s s2 c None HI Hrep ltac:(done) Hold) as HI2.
    change (Inv (∅ ∪ X) s2) in HI2. rewrite (left_id_L ∅ (∪)) in HI2. split_and!; [done|by eapply evolves_replace|]. by rewrite RT2, decide_True. }
  destruct (Hnew t eq_refl) as [Hr Hn]. unfold schedule_in.
  assert (t < length (m_thread_info (s_sched s2)))%nat as Hl.
  { rewrite (frame_infos _ _ F2). eapply Nat.lt_le_trans; [by eapply lookup_lt_Some|apply HI]. }
  destruct (lookup_lt_is_Some_2 _ _ Hl) as [i Hi]. apply wpe_bind. eapply wpe_thread_info; [done|].
  assert (run_core s2 t = None) as Hn2.
  { change (run_core s2 t) with (run_core s1 t). rewrite C1. case_decide; done. }
  assert (m_core_running i = None) as -> by (unfold run_core in Hn2; by rewrite Hi in Hn2).
  apply wpe_bind, wpe_ret, wpe_bind. eapply wpe_upd_info; [done..|]. set (s3 := set_sched _ s2).
  assert (frame s s3) as F3 by (etrans; [exact F2|by eapply frame_info]).
  assert (replaced c (Some t) s s3) as Hrep.
  { split; [by destruct HT2|by destruct HB2|done|done| |done]. intros v. subst s3. rewrite run_core_info by done.
    cbn [m_core_running setCoreRunning setLastScheduledIn]. case_decide as Ev; [subst; by rewrite decide_True|].
    rewrite decide_False by congruence. exact (C1 v). }
  assert (t ∉ X) as HtX.
  { intros Ht. destruct (i_moving _ _ HI t Ht) as [_ [[]|Hs]]; [congruence|done]. }
  assert (Inv ({[t]} ∪ X) s3) as HI3.
  { apply (Inv_replace X s s3 c (Some t)); [done|exact Hrep| |done]. intros u Hu. injection Hu as <-. split_and!; [by eapply i_runnable|done..]. }
  assert (evolves (Some c) s s3) as Hev3 by (eapply evolves_replace; [exact Hrep|]; by intros ? [= <-]).
  assert (run_core s3 t = Some c) as Hrc3 by (subst s3; by rewrite run_core_info, decide_True).
  eapply wpe_mono; [apply (runs_move_in X); try done|done|].
  { by rewrite (fr_runnable _ _ F3). }
  { eapply (free_cores_taken s s3); [by rewrite Hlen|done|exact R2]. }
  intros ? s4 [HI4 Hev4]. split_and!; [done| |].
  - eapply evolves_trans; [exact Hev3|by apply evolves_weaken].
  - apply (e_keep _ _ _ Hev4); [done|]. by apply (i_sched _ _ HI3).
Qed.

(** [reschedule] gives [c] to the best candidate, unless the thread on it is being started. *)
Lemma runs_reschedule X time c s :
  Inv X s -> (c < n_cores s)%nat -> room c s ->
  (forall u, run_thread s c = Some u -> u ∈ X -> m_threads_runnable (s_sched s) !! u <> Some true) ->
  runs (reschedule H cfg time c) (fun _ s' => Inv X s' /\ evolves (Some c) s s' /\
    (run_thread s c ≫= (fun u => status <$> m_thread_state (s_tm s) !! u) = Some INITIALIZING \/
     best_thread time c 0 (m_threads_runnable (s_sched s)) (m_thread_info (s_sched s)) None INT64_MIN = Ok (run_thread s' c))) s.
Proof.
  intros HI Hc Hroom Hold. pose proof (i_running _ _ HI) as Hlen. unfold reschedule.
  apply wpe_bind, wpe_core_thread_running; [by rewrite Hlen|]. apply wpe_bind.
  apply (wpe_mono _ (fun _ => False) _ (fun b s' => s' = s /\
    (b = true -> run_thread s c ≫= (fun u => status <$> m_thread_state (s_tm s) !! u) = Some INITIALIZING))); [|done|].
  { destruct (run_thread s c) as [u|] eqn:Eu; [|by apply wpe_ret].
    apply (i_sched _ _ HI), (i_exists _ _ HI) in Eu. rewrite <- (tm_states _ (i_tm _ _ HI)) in Eu.
    destruct (lookup_lt_is_Some_2 _ _ Eu) as [st Hst]. apply wpe_bind, wpe_bind. eapply wpe_thread_state; [done|].
    apply wpe_ret, wpe_ret. split; [done|]. intros Hb%bool_decide_eq_true. cbn. by rewrite Hst, <- Hb. }
  intros starting ? [-> Hstart]. destruct starting.
  { apply wpe_ret. split_and!; [done|apply evolves_refl|left; by apply Hstart]. }
  apply wpe_bind, wpe_gets, wpe_bind.
  destruct (best_thread_spec time c 0 (m_threads_runnable (s_sched s)) (m_thread_info (s_sched s)) (n_cores s) None INT64_MIN)
    as (new & En & Hnew); [done|apply HI|apply HI|]. eapply wpe_lift; [exact En|]. apply wpe_bind.
  apply (wpe_mono _ (fun _ => False) _ (fun _ s' => Inv X s' /\ evolves (Some c) s s' /\ run_thread s' c = new)); [|done|].
  { case_bool_decide as Ecur; [apply wpe_ret; split_and!; [done|apply evolves_refl|done]|].
    apply runs_switch; try done. intros t ->. destruct Hnew as [|(? & i & [= <-] & _ & Hr & Hi & _ & Hrun)]; [done|].
    rewrite Nat.sub_0_r in Hr. split; [done|]. unfold run_core. rewrite Hi. cbn. destruct Hrun as [|Hrun]; [done|].
    destruct Ecur. apply (i_sched _ _ HI). unfold run_core. by rewrite Hi. }
  intros ? s1 (HI1 & Hev1 & Hr1). apply (wpe_set_quantum _ _ _ X); [done|by rewrite (e_cores _ _ _ Hev1)|].
  intros s2 HI2 Hev2 _ _ Hr2. split_and!; [done| |].
  - eapply evolves_trans; [exact Hev1|by apply evolves_weaken].
  - right. by rewrite Hr2, Hr1.
Qed.

(** A thread that has become runnable takes a free core. *)
Lemma runs_fill X t time s :
  Inv X s -> (t < n_threads s)%nat -> (free_cores s <= S k)%nat ->
  runs (fill_free_core H cfg t time) (fun _ s' => Inv X s' /\ evolves None s s') s.
Proof.
  intros HI Ht Hfree. unfold fill_free_core. apply wpe_bind. eapply (wpe_findFree _ X); [done| |].
  { eapply Nat.lt_le_trans; [exact Ht|apply HI]. }
  intros r Hr. destruct r as [c|]; [|apply wpe_ret; split; [done|apply evolves_refl]].
  destruct (Hr c eq_refl) as (Hc & Hn & _). eapply wpe_mono; [apply (runs_reschedule X); try done|done|].
  - unfold room. by rewrite Hn.
  - by rewrite Hn.
  - intros ? s' (HI' & Hev & _). split; [done|]. destruct Hev. split; try done.
    intros d u _ Hd. apply e_keep0; [|done]. intros [= ->]. congruence.
Qed.
End reschedule.

(** ** The hooks *)

Lemma set_runnable_same t s (Q : unit -> Sim -> Prop) E :
  m_threads_runnable (s_sched s) !! t = Some true -> Q tt s -> wpe E (set_runnable t true) Q s.
Proof.
  intros Ht HQ. unfold set_runnable. apply wpe_bind, wpe_gets, wpe_bind.
  eapply wpe_lift; [apply aset_lt; by eapply lookup_lt_Some|]. apply wpe_modify.
  rewrite list_insert_id by done. by destruct s as [? []].
Qed.

Lemma callHooks_resume cfg n t thread_by time s Q E :
  wpe E (_ ← set_runnable t true; fill_free_core (callHooks cfg n) (sim_sched cfg) t time) Q s ->
  wpe E (callHooks cfg (S n) (HOOK_THREAD_RESUME t thread_by time)) Q s.
Proof.
  intros HQ. change (callHooks cfg (S n) (HOOK_THREAD_RESUME t thread_by time)) with
    (mbind (fun _ : unit => mret tt)
       (_ ← set_runnable t true; fill_free_core (callHooks cfg n) (sim_sched cfg) t time : M unit) : M unit).
  apply wpe_bind. eapply wpe_mono; [exact HQ|done|]. intros [] s' HQ'. by apply wpe_ret.
Qed.

Lemma free_core_free X t s :
  Inv X s -> (t < n_threads s)%nat -> free_cores s = 0%nat ->
  runs (findFreeCoreForThread t) (fun r s' => r = None /\ s' = s) s.
Proof.
  intros HI Ht Hz. eapply (wpe_findFree _ X); [done|eapply Nat.lt_le_trans; [exact Ht|apply HI]|].
  intros [c|] Hr; [|done]. exfalso. destruct (Hr c eq_refl) as (_ & _ & Hl). unfold free_cores in Hz.
  apply nil_length_inv in Hz. assert (None ∈ filter (fun r : option nat => r = None) (m_core_thread_running (s_sched s))) as Hin.
  { apply list_elem_of_filter. split; [done|]. by eapply list_elem_of_lookup_2. }
  rewrite Hz in Hin. by apply elem_of_nil in Hin.
Qed.

(** A resumed thread may take a core, which may resume another thread, and so on; each time one
    core fewer is free, so [n] levels are enough for fewer than [n] free cores. *)
Lemma runs_resume_hook cfg n k X s t thread_by time :
  (k < n)%nat -> Inv X s -> m_threads_runnable (s_sched s) !! t = Some true -> (free_cores s <= k)%nat ->
  runs (callHooks cfg n (HOOK_THREAD_RESUME t thread_by time)) (fun _ s' => Inv X s' /\ evolves None s s') s.
Proof.
  revert k X s t thread_by time. induction n as [|n IH]; intros k X s t thread_by time Hk HI Hrun Hfree; [lia|].
  apply callHooks_resume. apply wpe_bind, set_runnable_same; [done|]. pose proof (i_runnable _ _ HI t Hrun) as Ht.
  destruct k as [|k].
  - unfold fill_free_core. apply wpe_bind. eapply wpe_mono; [apply (free_core_free X); [done..|lia]|done|].
    intros ? ? [-> ->]. apply wpe_ret. split; [done|apply evolves_refl].
  - destruct n as [|n]; [lia|]. apply (runs_fill _ _ k); [| |done..].
    + intros X' s' t' by' time' HI' Hrun' Hfree'. apply (IH k); [lia|done..].
    + intros s' t' c' time' HB'. by apply wpe_migrate.
Qed.

Lemma free_cores_le X s : Inv X s -> (free_cores s <= n_cores s)%nat.
Proof. intros HI. unfold free_cores. rewrite <- (i_running _ _ HI). apply length_filter. Qed.
