(* ===== verification/KernelInvariant.v ===== *)
(** * The kernel keeps its invariant

    Every operation of the simulation kernel, however deep it calls back through
    the hooks, leaves the scheduler and the thread manager in agreement
    ([SchedulerConsistency.Inv]).  Statements about operations that may fail in
    other parts (an assertion of the barrier, an address out of a table) say
    what holds if they end. *)

From stdpp Require Import gmap.
From S2P Require Import Prelude StateMonad SubsecondTime SimState ThreadManager SchedulerPinned SyscallServer BarrierSyncServer Simulator SchedulerConsistency.

(** ** States that keep the invariant *)

(** The two vectors that grow by 16 elements stay in step. *)
Record Good (N : nat) (s : Sim) : Prop := {
  g_inv : Inv ∅ s;
  g_cores : n_cores s = N;
  g_runnable : Nat.divide 16 (length (m_threads_runnable (s_sched s)));
  g_infos : Nat.divide 16 (length (m_thread_info (s_sched s)))
}.

(** A thread that has a core keeps it, and one that has started does not start again. *)
Definition started (s : Sim) (t : nat) : Prop := exists st, m_thread_state (s_tm s) !! t = Some st /\ status st <> INITIALIZING.
Definition kept (s s' : Sim) : Prop :=
  n_threads s' = n_threads s /\ (forall d u, run_thread s d = Some u -> run_thread s' d = Some u) /\
  (forall t, started s t -> started s' t).
Definition any (s s' : Sim) : Prop := True.

#[global] Instance kept_preorder : PreOrder kept.
Proof. split; [done|]. intros s1 s2 s3 (E1 & K1 & S1) (E2 & K2 & S2). split_and!; [congruence|auto..]. Qed.
#[global] Instance any_preorder : PreOrder any.
Proof. done. Qed.

Class Weaker (V : relation Sim) := weaker : forall s s', kept s s' -> V s s'.
#[global] Instance weaker_kept : Weaker kept.
Proof. by intros s s'. Qed.
#[global] Instance weaker_any : Weaker any.
Proof. by intros s s'. Qed.

Lemma evolves_kept s s' : evolves None s s' -> kept s s'.
Proof.
  intros [E1 _ _ _ _ K _ St]. split_and!; [done|intros d u; by apply K|]. intros t (st & Hst & Hs).
  destruct (Forall2_lookup_l _ _ _ _ _ St Hst) as (st' & Hst' & _ & _ & Hor). exists st'. split; [done|].
  destruct Hor as [->|(_ & _ & ->)]; done.
Qed.

Lemma Good_evolves N c s s' : Good N s -> Inv ∅ s' -> evolves c s s' -> Good N s'.
Proof. intros [G1 G2 G3 G4] HI [E1 E2 E3 E4 E5 E6 E7 E8]. split; rewrite ?E2, ?E4, ?E5; done. Qed.

Definition pres (N : nat) (V : relation Sim) {A} (m : M A) : Prop :=
  forall s, Good N s -> wlp m (fun _ s' => Good N s' /\ V s s') s.

Section pres.
Context (N : nat) (V : relation Sim) `{!PreOrder V}.

Lemma pres_bind {A B} (m : M A) (f : A -> M B) : pres N V m -> (forall a, pres N V (f a)) -> pres N V (mbind f m).
Proof.
  intros Hm Hf s Hs. apply wpe_bind. eapply wpe_mono; [by apply Hm|done|]. intros a s1 [H1 V1].
  eapply wpe_mono; [by apply Hf|done|]. intros b s2 [H2 V2]. split; [done|by etrans].
Qed.
Lemma pres_ret {A} (a : A) : pres N V (mret a).
Proof. intros s Hs. by apply wpe_ret. Qed.
Lemma pres_gets {A} (f : Sim -> A) : pres N V (gets f).
Proof. intros s Hs. by apply wpe_gets. Qed.
Lemma pres_fail {A} e : pres N V (fail e : M A).
Proof. by intros s Hs. Qed.
Lemma pres_lift {A} (r : res A) : pres N V (lift_res r).
Proof. intros s Hs. by apply wlp_lift. Qed.
Lemma pres_assert b : pres N V (assertM b).
Proof. apply pres_lift. Qed.

Lemma pres_any {A} (m : M A) : pres N V m -> pres N any m.
Proof. intros Hm s Hs. eapply wpe_mono; [by apply Hm|done|]. by intros ? ? []. Qed.
End pres.

Create HintDb pres discriminated.
#[export] Hint Resolve pres_ret pres_gets pres_fail pres_lift pres_assert : pres.

(** Follow the structure of an operation. *)
Ltac pres_step :=
  match goal with
  | |- pres _ _ (mbind _ _) => apply pres_bind; [apply _| |intros ?]
  | |- pres _ _ (match ?x with _ => _ end) => destruct x
  | |- pres _ _ (let _ := _ in _) => cbv zeta
  | |- pres _ _ _ => solve [auto with pres typeclass_instances]
  end.
Ltac pres_auto := intros; repeat pres_step.

(** ** Changes outside the agreement *)

Lemma Inv_same X s s' :
  Inv X s -> s_sched s' = s_sched s -> TMok s' -> BarOk s' -> n_threads s' = n_threads s -> n_cores s' = n_cores s ->
  (forall u, th_core s' u = th_core s u) -> Inv X s'.
Proof.
  intros [HT HB H1 H2 H3 H4 H5 H6 H7 H8 H9 H10] E1 HT' HB' E2 E3 Hth.
  split; rewrite ?E1, ?E2, ?E3; try done; unfold run_core, run_thread in *; rewrite ?E1; try done.
  - intros t Ht. rewrite Hth. by apply H9.
  - intros t Ht. rewrite Hth. by apply H10.
Qed.

Lemma Good_same N s s' :
  Good N s -> s_sched s' = s_sched s -> TMok s' -> BarOk s' -> n_threads s' = n_threads s -> n_cores s' = n_cores s ->
  (forall u, th_core s' u = th_core s u) -> Good N s'.
Proof. intros [] E1 HT HB E2 E3 Hth. split; rewrite ?E1, ?E3; try done. by eapply Inv_same. Qed.

Lemma kept_same s s' :
  n_threads s' = n_threads s -> s_sched s' = s_sched s -> m_thread_state (s_tm s') = m_thread_state (s_tm s) -> kept s s'.
Proof. intros E1 E2 E3. unfold kept, run_thread, started. by rewrite E2, E3. Qed.

Section frame.
Context (N : nat) (V : relation Sim) `{!PreOrder V, !Weaker V}.

Lemma pres_upd_sys f : pres N V (upd_sys f).
Proof.
  intros s Hs. apply wpe_modify. split; [|by apply weaker, kept_same].
  eapply Good_same; try done; [by destruct (i_tm _ _ (g_inv _ _ Hs))|by destruct (i_bar _ _ (g_inv _ _ Hs))].
Qed.

Lemma pres_emit e : pres N V (emit e).
Proof.
  intros s Hs. apply wpe_modify. split; [|by apply weaker, kept_same].
  eapply Good_same; try done; [by destruct (i_tm _ _ (g_inv _ _ Hs))|by destruct (i_bar _ _ (g_inv _ _ Hs))].
Qed.

Lemma pres_tm f :
  (forall m, m_threads (f m) = m_threads m /\ m_thread_state (f m) = m_thread_state m /\ tm_cores (f m) = tm_cores m) ->
  pres N V (upd_tm f).
Proof.
  intros Hf s Hs. apply wpe_modify. destruct (Hf (s_tm s)) as (E1 & E2 & E3).
  assert (n_threads (set_tm (f (s_tm s)) s) = n_threads s) as En by (unfold n_threads; cbn; by rewrite E1).
  assert (n_cores (set_tm (f (s_tm s)) s) = n_cores s) as Ec by (unfold n_cores; cbn; by rewrite E3).
  split; [|by apply weaker, kept_same]. eapply Good_same; try done.
  - destruct (i_tm _ _ (g_inv _ _ Hs)) as [A B C].
    split; unfold n_threads, th_core, co_thread, co_state in *; cbn; by rewrite ?E1, ?E2, ?E3.
  - destruct (i_bar _ _ (g_inv _ _ Hs)). by split; rewrite Ec.
  - intros u. unfold th_core. cbn. by rewrite E1.
Qed.

Lemma pres_upd_state t f :
  (forall st, status (f st) = INITIALIZING -> status st = INITIALIZING) -> pres N V (upd_state t f).
Proof.
  intros Hf s Hs. apply wpe_bind, wpe_bind, wpe_gets, wlp_lift. intros st Hst%aget_ok. apply wpe_modify.
  destruct (i_tm _ _ (g_inv _ _ Hs)) as [A B C]. split.
  - eapply Good_same; try done; [|by destruct (i_bar _ _ (g_inv _ _ Hs))]. split; try done. cbn. by rewrite length_insert.
  - apply weaker. split_and!; [done..|]. intros u (su & Hu & Hsu). unfold started. cbn. destruct (decide (u = t)) as [->|Hne].
    + rewrite list_lookup_insert_eq by (by eapply lookup_lt_Some). exists (f st). split; [done|]. intros E%Hf. congruence.
    + rewrite list_lookup_insert_ne by done. eauto.
Qed.

Lemma wlp_upd_thread t f s (Q : unit -> Sim -> Prop) :
  (forall th s', m_threads (s_tm s) !! t = Some th -> thread_upd t (m_core (f th)) s s' -> Q tt s') -> wlp (upd_thread t f) Q s.
Proof.
  intros HQ. destruct (decide (t < n_threads s)%nat) as [Ht|Ht]; [by apply wpe_thread|].
  apply wpe_bind, wpe_bind, wpe_gets. apply Nat.nlt_ge, lookup_ge_None_2 in Ht. rewrite Ht. apply wlp_fail.
Qed.

Lemma pres_upd_thread t f : (forall th, m_core (f th) = m_core th) -> pres N V (upd_thread t f).
Proof.
  intros Hf s Hs. apply wlp_upd_thread. intros th s' Hth (R & T & C & S). rewrite Hf in T.
  assert (forall u, th_core s' u = th_core s u) as Hsame.
  { intros u. rewrite T. case_decide; [|done]. subst. unfold th_core. by rewrite Hth. }
  destruct (i_tm _ _ (g_inv _ _ Hs)) as [A B D], (i_bar _ _ (g_inv _ _ Hs)), R as [R1 R2 R3 R4 R5 R6].
  split; [|by apply weaker, kept_same]. eapply Good_same; try done.
  - split; [by rewrite R4, R5|intros u d; rewrite Hsame, C; apply B|intros d; rewrite S, C; apply D].
  - split; by rewrite R3, R6.
Qed.

Lemma pres_upd_bar f :
  (forall b, length (m_local_clock_list (f b)) = length (m_local_clock_list b) /\
     length (m_barrier_acquire_list (f b)) = length (m_barrier_acquire_list b) /\
     length (m_core_group (f b)) = length (m_core_group b) /\ length (m_core_thread (f b)) = length (m_core_thread b)) ->
  pres N V (upd_bar f).
Proof.
  intros Hf s Hs. apply wpe_modify. split; [|by apply weaker, kept_same].
  destruct (Hf (s_bar s)) as (F1 & F2 & F3 & F4), (i_bar _ _ (g_inv _ _ Hs)) as [B1 B2 B3 B4].
  eapply Good_same; try done; [by destruct (i_tm _ _ (g_inv _ _ Hs))|]. split; cbn; by rewrite ?F1, ?F2, ?F3, ?F4.
Qed.

(** A core that stops running *)
Lemma pres_setState c x : x <> RUNNING -> pres N V (setState c x).
Proof.
  intros Hx s Hs. destruct (decide (c < n_cores s)%nat) as [Hc|Hc]; last first.
  { apply wpe_bind, wpe_bind, wpe_gets. apply Nat.nlt_ge, lookup_ge_None_2 in Hc. rewrite Hc. apply wlp_fail. }
  apply wpe_setState; [done|]. intros s' (R & T & C & S).
  destruct (i_tm _ _ (g_inv _ _ Hs)) as [A B D], (i_bar _ _ (g_inv _ _ Hs)), R as [R1 R2 R3 R4 R5 R6].
  split; [|by apply weaker, kept_same]. eapply Good_same; try done.
  - split; [by rewrite R4, R5| |].
    + intros u d. rewrite T, C. case_decide; [by subst|apply B].
    + intros d. rewrite S, C. case_decide; [congruence|apply D].
  - split; by rewrite R3, R6.
Qed.
End frame.

#[export] Hint Resolve pres_upd_sys pres_emit : pres.

(** ** Operations that keep every thread on its core *)

Section kept.
Context (N : nat) (V : relation Sim) `{!PreOrder V, !Weaker V}.

Lemma pres_aset {A} (proj : BarrierSyncServer -> list A) (upd : list A -> BarrierSyncServer -> BarrierSyncServer) c x :
  (forall l b, length l = length (proj b) -> length (m_local_clock_list (upd l b)) = length (m_local_clock_list b) /\
     length (m_barrier_acquire_list (upd l b)) = length (m_barrier_acquire_list b) /\
     length (m_core_group (upd l b)) = length (m_core_group b) /\ length (m_core_thread (upd l b)) = length (m_core_thread b)) ->
  pres N V (b ← gets s_bar; l ← lift_res (aset (proj b) c x); upd_bar (upd l)).
Proof.
  intros Hf s Hs. apply wpe_bind, wpe_gets, wpe_bind, wlp_lift. intros l Hl.
  assert (length l = length (proj (s_bar s))) as Hlen.
  { unfold aset in Hl. destruct (proj (s_bar s) !! c); simplify_eq. by rewrite length_insert. }
  apply wpe_modify. split; [|by apply weaker, kept_same].
  destruct (Hf l (s_bar s) Hlen) as (F1 & F2 & F3 & F4), (i_bar _ _ (g_inv _ _ Hs)) as [B1 B2 B3 B4].
  eapply Good_same; try done; [by destruct (i_tm _ _ (g_inv _ _ Hs))|]. split; cbn; by rewrite ?F1, ?F2, ?F3, ?F4.
Qed.

Lemma pres_set_local_clock c t : pres N V (set_local_clock c t).
Proof. by apply pres_aset. Qed.
Lemma pres_set_acquired c x : pres N V (set_acquired c x).
Proof. by apply pres_aset. Qed.
Lemma pres_set_core_group c x : pres N V (set_core_group c x).
Proof. by apply pres_aset. Qed.
Lemma pres_set_barrier_thread c x : pres N V (set_barrier_thread c x).
Proof. by apply pres_aset. Qed.

Lemma pres_getThread t : pres N V (getThreadFromID t).
Proof. unfold getThreadFromID. pres_auto. Qed.
Lemma pres_getCore c : pres N V (getCoreFromID c).
Proof. unfold getCoreFromID. pres_auto. Qed.
Lemma pres_thread_state t : pres N V (thread_state t).
Proof. unfold thread_state. pres_auto. Qed.
Lemma pres_thread_signal t time msg : pres N V (thread_signal t time msg).
Proof. by apply pres_upd_thread. Qed.
Lemma pres_thread_wait t : pres N V (thread_wait t).
Proof. by apply pres_upd_thread. Qed.
Lemma pres_set_status t x : x <> INITIALIZING -> pres N V (set_status t x).
Proof. intros Hx. by apply pres_upd_state. Qed.
Lemma pres_set_stalled t x : pres N V (set_stalled t x).
Proof. by apply pres_upd_state. Qed.
Lemma pres_set_waiter t x : pres N V (set_waiter t x).
Proof. by apply pres_upd_state. Qed.
Lemma pres_acquired c : pres N V (acquired c).
Proof. unfold acquired. pres_auto. Qed.
Lemma pres_local_clock c : pres N V (local_clock c).
Proof. unfold local_clock. pres_auto. Qed.
Lemma pres_core_group c : pres N V (core_group c).
Proof. unfold core_group. pres_auto. Qed.
Lemma pres_barrier_thread c : pres N V (barrier_thread c).
Proof. unfold barrier_thread. pres_auto. Qed.
End kept.

#[export] Hint Extern 1 (_ <> INITIALIZING) => discriminate : pres.
#[export] Hint Resolve pres_set_local_clock pres_set_acquired pres_set_core_group pres_set_barrier_thread
  pres_getThread pres_getCore pres_thread_state pres_thread_signal pres_thread_wait pres_set_status pres_set_stalled
  pres_set_waiter pres_acquired pres_local_clock pres_core_group pres_barrier_thread : pres.

(** ** The scheduler's operations *)

Lemma Inv_runnable X t b s :
  Inv X s -> (b = true -> (t < n_threads s)%nat /\ t ∉ X) ->
  Inv X (set_sched (sc_with_runnable (<[t := b]> (m_threads_runnable (s_sched s))) (s_sched s)) s).
Proof.
  intros [HT HB H1 H2 H3 H4 H5 H6 H7 H8 H9 H10] Ht. split; try done.
  - by destruct HT.
  - by destruct HB.
  - cbn. by rewrite length_insert.
  - intros u. cbn. destruct (decide (u = t)) as [->|Hu]; [|rewrite list_lookup_insert_ne by done; apply H6].
    intros Hl. destruct b; [by apply Ht|]. apply list_lookup_insert_Some in Hl as [(_ & ? & _)|[? _]]; done.
  - intros u Hu. destruct (H10 u Hu) as [Hn Hor]. split; [done|]. destruct Hor as [|Hor]; [by left|]. right. cbn.
    destruct (decide (u = t)) as [->|Hne]; [|by rewrite list_lookup_insert_ne].
    destruct b; [by destruct (Ht eq_refl)|]. intros Hl. apply list_lookup_insert_Some in Hl as [(_ & ? & _)|[? _]]; done.
Qed.

Lemma aset_inv {A} (l l' : list A) i x : aset l i x = Ok l' -> (i < length l)%nat /\ l' = <[i := x]> l.
Proof. unfold aset. destruct (l !! i) eqn:E; intros; simplify_eq. split; [by eapply lookup_lt_Some|done]. Qed.

Lemma wlp_set_runnable t b s (Q : unit -> Sim -> Prop) :
  ((t < length (m_threads_runnable (s_sched s)))%nat ->
   Q tt (set_sched (sc_with_runnable (<[t := b]> (m_threads_runnable (s_sched s))) (s_sched s)) s)) ->
  wlp (set_runnable t b) Q s.
Proof.
  intros HQ. apply wpe_bind, wpe_gets, wpe_bind, wlp_lift. intros l [Hl ->]%aset_inv. apply wpe_modify. by apply HQ.
Qed.

Lemma Good_runnable N t b s :
  Good N s -> (b = true -> (t < n_threads s)%nat) ->
  Good N (set_sched (sc_with_runnable (<[t := b]> (m_threads_runnable (s_sched s))) (s_sched s)) s).
Proof.
  intros [] Hb. split; try done; [|cbn; by rewrite length_insert]. apply Inv_runnable; [done|].
  intros ->. split; [by apply Hb|set_solver].
Qed.

Section hooks.
Context (cfg : SimCfg) (N n : nat) (Hn : (N < n)%nat).
Local Abbreviation H := (callHooks cfg n).
Local Abbreviation sc := (sim_sched cfg).

Lemma hooks_resume X s t thread_by time :
  Inv X s -> m_threads_runnable (s_sched s) !! t = Some true -> (free_cores s <= N)%nat ->
  runs (H (HOOK_THREAD_RESUME t thread_by time)) (fun _ s' => Inv X s' /\ evolves None s s') s.
Proof. by apply runs_resume_hook. Qed.

Lemma hooks_migrate s t c time :
  BarOk s -> runs (H (HOOK_THREAD_MIGRATE t c time)) (fun _ s' => bar_only s s' /\ BarOk s') s.
Proof. destruct n as [|m]; [lia|]. apply wpe_migrate. Qed.

(** Rescheduling a core from outside. *)
Lemma runs_resched X time c s :
  Inv X s -> n_cores s = N -> (c < N)%nat ->
  (forall u, run_thread s c = Some u -> u ∈ X -> m_threads_runnable (s_sched s) !! u <> Some true) ->
  runs (reschedule H sc time c) (fun _ s' => Inv X s' /\ evolves (Some c) s s' /\
    (run_thread s c ≫= (fun u => status <$> m_thread_state (s_tm s) !! u) = Some INITIALIZING \/
     best_thread time c 0 (m_threads_runnable (s_sched s)) (m_thread_info (s_sched s)) None INT64_MIN = Ok (run_thread s' c))) s.
Proof.
  intros HI Hc Hlt Hold. apply (runs_reschedule _ _ N); try done; [apply hooks_resume|apply hooks_migrate|by rewrite Hc|].
  pose proof (free_cores_le _ _ HI). unfold room. destruct (run_thread s c); lia.
Qed.

Lemma pres_reschedule time c : pres N any (reschedule H sc time c).
Proof.
  intros s Hs. destruct (decide (c < N)%nat) as [Hc|Hc].
  - eapply wpe_mono; [apply (runs_resched ∅); [apply Hs|apply Hs|done|set_solver]|done|].
    intros _ s' (HI & Hev & _). split; [by eapply Good_evolves|done].
  - apply wpe_bind, wpe_bind, wpe_gets, wlp_lift. intros r Hr%aget_ok%lookup_lt_Some.
    rewrite (i_running _ _ (g_inv _ _ Hs)), (g_cores _ _ Hs) in Hr. done.
Qed.

Lemma wlp_fill t time s :
  Good N s -> (t < n_threads s)%nat -> wlp (fill_free_core H sc t time) (fun _ s' => Good N s' /\ kept s s') s.
Proof.
  intros Hs Ht. eapply wpe_mono; [apply (runs_fill _ _ N hooks_resume hooks_migrate ∅); [apply Hs|done|]|done|].
  - pose proof (free_cores_le _ _ (g_inv _ _ Hs)) as Hf. rewrite (g_cores _ _ Hs) in Hf. lia.
  - intros _ s' [HI Hev]. split; [by eapply Good_evolves|by apply evolves_kept].
Qed.

Lemma wlp_resume_hook t thread_by time s :
  Good N s -> (t < n_threads s)%nat ->
  wlp (callHooks cfg (S n) (HOOK_THREAD_RESUME t thread_by time)) (fun _ s' => Good N s' /\ kept s s') s.
Proof.
  intros Hs Ht. apply callHooks_resume, wpe_bind, wlp_set_runnable. intros _.
  eapply wpe_mono; [apply wlp_fill; [by apply Good_runnable|done]|done|]. intros _ s' [Hs' Hk]. done.
Qed.

Context (V : relation Sim) `{!PreOrder V, !Weaker V}.

Lemma pres_resume t thread_by time msg : pres N V (resumeThread (callHooks cfg (S n)) t thread_by time msg).
Proof.
  intros s Hs. apply wpe_bind. destruct (decide (t < n_threads s)%nat) as [Ht|Ht]; last first.
  { apply wpe_bind, wpe_bind, wpe_gets. apply Nat.nlt_ge, lookup_ge_None_2 in Ht. rewrite Ht. apply wlp_fail. }
  eapply wpe_mono; [by apply (pres_thread_signal N kept)|done|]. intros _ s1 [H1 K1]. apply wpe_bind.
  eapply wpe_mono; [by apply (pres_set_status N kept)|done|]. intros _ s2 [H2 K2].
  eapply wpe_mono; [apply wlp_resume_hook; [done|]|done|].
  - destruct K1 as [E1 _], K2 as [E2 _]. by rewrite E2, E1.
  - intros _ s3 [H3 K3]. split; [done|]. apply weaker. etrans; [exact K1|]. by etrans.
Qed.
End hooks.

(** *** Changes of the scheduler's records *)

Lemma Inv_info X t i i' s :
  Inv X s -> m_thread_info (s_sched s) !! t = Some i ->
  length (m_core_affinity i') = length (m_core_affinity i) -> m_core_running i' = m_core_running i ->
  Inv X (set_sched (sc_with_info (<[t := i']> (m_thread_info (s_sched s))) (s_sched s)) s).
Proof.
  intros HI Hi Ha Hr. set (s' := set_sched _ s). assert (forall u, run_core s' u = run_core s u) as Hrc.
  { intros u. subst s'. rewrite run_core_info by (by eapply lookup_lt_Some). case_decide; [|done]. subst.
    unfold run_core. by rewrite Hi. }
  destruct HI as [HT HB H1 H2 H3 H4 H5 H6 H7 H8 H9 H10]. split; try done.
  - by destruct HT.
  - by destruct HB.
  - apply Forall_insert; [done|]. rewrite Ha. by eapply (Forall_lookup_1 _ _ _ _ H3).
  - cbn. by rewrite length_insert.
  - cbn. rewrite length_insert. done.
  - intros u d. rewrite Hrc. apply H7.
  - intros u d. rewrite Hrc. apply H8.
  - intros u Hu. rewrite Hrc. by apply H9.
  - intros u Hu. rewrite Hrc. by apply H10.
Qed.

(** Fields of the scheduler that the agreement does not depend on. *)
Definition sched_rest (f : Scheduler -> Scheduler) : Prop := forall s,
  m_threads_runnable (f s) = m_threads_runnable s /\ m_thread_info (f s) = m_thread_info s /\
  m_core_thread_running (f s) = m_core_thread_running s /\ length (m_quantum_left (f s)) = length (m_quantum_left s).

(** Relations that changes of the scheduler's records respect, as long as they move no thread. *)
Class SchedV (V : relation Sim) := sched_v : forall s x,
  m_core_thread_running x = m_core_thread_running (s_sched s) -> V s (set_sched x s).
#[global] Instance sched_weaker V `{!Weaker V} : SchedV V.
Proof. intros s x Hx. apply weaker. unfold kept, run_thread. cbn. by rewrite Hx. Qed.
Definition same_tm (s s' : Sim) : Prop := s_tm s' = s_tm s.
#[global] Instance same_tm_preorder : PreOrder same_tm.
Proof. split; [done|]. unfold same_tm. intros s1 s2 s3. congruence. Qed.
#[global] Instance sched_same_tm : SchedV same_tm.
Proof. by intros s x _. Qed.

Section records.
Context (N : nat) (V : relation Sim) `{!PreOrder V, !SchedV V}.

Lemma pres_upd_sched f : sched_rest f -> pres N V (upd_sched f).
Proof.
  intros Hf s [[HT HB H1 H2 H3 H4 H5 H6 H7 H8 H9 H10] G1 G2 G3]. apply wpe_modify. destruct (Hf (s_sched s)) as (E1 & E2 & E3 & E4).
  split; [|by apply sched_v].
  split; [split|done|cbn; by rewrite E1|cbn; by rewrite E2];
    unfold run_core, run_thread, n_threads, n_cores in *; cbn; rewrite ?E1, ?E2, ?E3, ?E4; try done.
  - by destruct HT.
  - by destruct HB.
Qed.

Lemma pres_upd_info t f :
  (forall i i', f i = Ok i' -> length (m_core_affinity i') = length (m_core_affinity i) /\ m_core_running i' = m_core_running i) ->
  pres N V (upd_info t f).
Proof.
  intros Hf s Hs. apply wpe_bind, wpe_gets, wpe_bind, wlp_lift. intros i Hi%aget_ok. apply wpe_bind, wlp_lift.
  intros i' [Ha Hr]%Hf. apply wpe_modify. split; [|by apply sched_v]. destruct Hs as [G1 G2 G3 G4].
  split; [by eapply Inv_info|done..|cbn; by rewrite length_insert].
Qed.

Lemma pres_set_quantum c q : pres N V (set_quantum_left c q).
Proof.
  intros s Hs. pose proof (i_quantum _ _ (g_inv _ _ Hs)) as Hq. apply wpe_bind, wpe_gets, wpe_bind, wlp_lift.
  intros l [Hl ->]%aset_inv. rewrite Hq in Hl. apply wlp_intro. intros [] s' [= <-]. split; [|by apply sched_v].
  eapply (wpe_ok (fun _ => False) (set_quantum_left c q) (fun _ s' => Good N s') s tt).
  - eapply (wpe_set_quantum _ _ _ ∅); [apply Hs|done|]. intros s' HI Hev _ _ _. by eapply Good_evolves.
  - unfold set_quantum_left, gets, mbind, st_bind, lift_res. rewrite aset_lt by (by rewrite Hq). done.
Qed.

Lemma pres_thread_info t : pres N V (thread_info t).
Proof. unfold thread_info. pres_auto. Qed.
Lemma pres_runnable t : pres N V (runnable t).
Proof. unfold runnable. pres_auto. Qed.
Lemma pres_core_thread_running c : pres N V (core_thread_running c).
Proof. unfold core_thread_running. pres_auto. Qed.
Lemma pres_quantum_left c : pres N V (quantum_left c).
Proof. unfold quantum_left. pres_auto. Qed.
Lemma pres_num_cores : pres N V num_cores.
Proof. unfold num_cores. pres_auto. Qed.
End records.

#[export] Hint Resolve pres_set_quantum pres_thread_info pres_runnable pres_core_thread_running pres_quantum_left pres_num_cores : pres.

Lemma addAffinity_keeps c i i' :
  addAffinity c i = Ok i' -> length (m_core_affinity i') = length (m_core_affinity i) /\ m_core_running i' = m_core_running i.
Proof. unfold addAffinity. intros Ha. res_inv Ha. apply aset_inv in E as [_ ->]. simplify_eq. cbn. by rewrite length_insert. Qed.

Lemma add_affinities_keeps k c mask i i' :
  add_affinities k c mask i = Ok i' -> length (m_core_affinity i') = length (m_core_affinity i) /\ m_core_running i' = m_core_running i.
Proof.
  revert c i. induction k as [|k IH]; intros c i; cbn [add_affinities]; intros Ha; [by simplify_eq|]. res_inv Ha.
  destruct (IH _ _ Ha) as [-> ->]. destruct a; [by apply addAffinity_keeps in E0|by simplify_eq].
Qed.

Lemma affinity_of_mask_keeps c n mask i i' :
  affinity_of_mask c n mask i = Ok i' -> length (m_core_affinity i') = length (m_core_affinity i) /\ m_core_running i' = m_core_running i.
Proof.
  revert c i. induction mask as [|b mask IH]; intros c i; cbn [affinity_of_mask]; intros Ha; [by simplify_eq|]. res_inv Ha.
  destruct (IH _ _ Ha) as [-> ->]. destruct b; [|by simplify_eq]. res_inv E. by apply addAffinity_keeps in E.
Qed.

(** *** Affinities, yielding and the periodic rescheduling *)

Section sched_ops.
Context (cfg : SimCfg) (N n : nat) (Hn : (N < n)%nat).
Local Abbreviation H := (callHooks cfg n).
Local Abbreviation sc := (sim_sched cfg).

Lemma pres_resched time c : pres N any (reschedule H sc time c).
Proof. by apply pres_reschedule. Qed.
#[local] Hint Resolve pres_resched : pres.

Lemma pres_findFree t : pres N any (findFreeCoreForThread t).
Proof. unfold findFreeCoreForThread. pres_auto. Qed.
#[local] Hint Resolve pres_findFree : pres.

Lemma pres_yield t : pres N any (threadYield H sc t).
Proof. unfold threadYield. pres_auto. Qed.

Lemma pres_affinity_changed t : pres N any (affinity_changed H sc t).
Proof. unfold affinity_changed, schedule_now. pres_auto. Qed.
#[local] Hint Resolve pres_yield pres_affinity_changed : pres.

Lemma pres_leave_core t time : pres N any (leave_core H sc t time).
Proof. unfold leave_core. pres_auto. Qed.

(** The affinity of a thread that the scheduler knows. *)
Lemma wlp_set_affinity calling t mask s :
  Good N s -> (t < length (m_thread_info (s_sched s)))%nat ->
  wlp (threadSetAffinity H sc calling t mask) (fun _ s' => Good N s') s.
Proof.
  intros Hs Ht. unfold threadSetAffinity. apply wpe_bind. unfold grow_info.
  apply wpe_bind, wpe_bind, wpe_gets, wpe_ret, wpe_bind, wpe_gets. rewrite (proj2 (Nat.leb_gt _ _)) by done. apply wpe_ret.
  apply (wpe_mono _ (fun _ => True) _ (fun _ s' => Good N s' /\ any s s')); [|done|by intros ? ? []].
  clear Ht. revert s Hs. apply (pres_bind N any); [pres_auto|intros nc].
  apply pres_bind; [apply _| |intros _; pres_auto]. apply pres_upd_info; [apply _|]. intros i i'. destruct mask.
  - intros [E1 E2]%affinity_of_mask_keeps. rewrite E1, E2. cbn. by rewrite length_fmap.
  - intros [E1 E2]%add_affinities_keeps. by rewrite E1, E2.
Qed.

Lemma pres_move_all to l : pres N any (move_all H sc to l).
Proof.
  induction l as [|t l IH]; cbn [move_all]; [pres_auto|]. apply pres_bind; [apply _| |intros _; pres_auto].
  apply pres_upd_info; [apply _|]. intros i i' [E1 E2]%addAffinity_keeps. rewrite E1, E2. cbn. by rewrite length_fmap.
Qed.
#[local] Hint Resolve pres_move_all : pres.

Lemma pres_map m l k : pres N any (upd_sched (sc_with_map m l k)).
Proof. by apply pres_upd_sched; [apply _|]. Qed.
#[local] Hint Resolve pres_map : pres.

Lemma pres_migrate l moved : pres N any (migrate H sc l moved).
Proof. revert moved. induction l as [|[from to] l IH]; intros moved; cbn [migrate]; pres_auto. Qed.
#[local] Hint Resolve pres_migrate : pres.

Lemma pres_periodic_cores time delta k c : pres N any (periodic_cores H sc time delta k c).
Proof. revert c. induction k as [|k IH]; intros c; cbn [periodic_cores]; pres_auto. Qed.
#[local] Hint Resolve pres_periodic_cores : pres.

Lemma pres_periodic time : pres N any (periodic H sc time).
Proof.
  assert (pres N any (upd_sched (sc_with_interval time))) by (by apply pres_upd_sched; [apply _|]).
  assert (pres N any (upd_sched (sc_with_periodic time))) by (by apply pres_upd_sched; [apply _|]).
  unfold periodic, changeMapping. pres_auto.
Qed.
End sched_ops.
#[export] Hint Resolve pres_periodic : pres.

(** ** The system-call server *)

Section syscalls.
Context (cfg : SimCfg) (N n : nat) (Hn : (N < n)%nat) (V : relation Sim) `{!PreOrder V, !Weaker V}.
Local Abbreviation H := (callHooks cfg (S n)).

Lemma pres_resumed t thread_by time msg : pres N V (resumeThread H t thread_by time msg).
Proof. by apply pres_resume. Qed.
#[local] Hint Resolve pres_resumed : pres.

Lemma pres_findFutex va2pa uaddr t : pres N V (findFutexByUaddr va2pa uaddr t).
Proof. unfold findFutexByUaddr. pres_auto. Qed.
Lemma pres_cost cost t b : pres N V (applyRescheduleCost cost t b).
Proof. unfold applyRescheduleCost. pres_auto. Qed.
Lemma pres_dequeue address thread_by mask time : pres N V (dequeueWaiter H address thread_by mask time).
Proof. unfold dequeueWaiter. pres_auto. Qed.
#[local] Hint Resolve pres_findFutex pres_cost pres_dequeue : pres.
Lemma pres_wakeOne cost address thread_by mask time : pres N V (wakeFutexOne H cost address thread_by mask time).
Proof. unfold wakeFutexOne. pres_auto. Qed.
Lemma pres_wake_loop k wake woken : pres N V wake -> pres N V (wake_loop k wake woken).
Proof. intros Hw. revert woken. induction k as [|k IH]; intros woken; cbn [wake_loop]; pres_auto. Qed.
#[local] Hint Resolve pres_wakeOne pres_wake_loop : pres.
Lemma pres_futexWake t uaddr nr mask time :
  pres N V (futexWake H (sim_reschedule_cost cfg) (sim_va2pa cfg) t uaddr nr mask time).
Proof. unfold futexWake. pres_auto. Qed.
Lemma pres_futexWakeOp cost va2pa memory t uaddr uaddr2 nr nr2 op time :
  pres N V (futexWakeOp H cost va2pa memory t uaddr uaddr2 nr nr2 op time).
Proof. unfold futexWakeOp. pres_auto. Qed.
Lemma pres_requeue va2pa t uaddr val uaddr2 val3 act time : pres N V (futexCmpRequeue H va2pa t uaddr val uaddr2 val3 act time).
Proof. unfold futexCmpRequeue, requeue_all. pres_auto. Qed.
Lemma pres_wake_futexes time l : pres N V (wake_futexes H time l).
Proof. induction l as [|a l IH]; cbn [wake_futexes]; unfold wakeTimedOut; pres_auto. Qed.
#[local] Hint Resolve pres_wake_futexes : pres.
Lemma pres_futexPeriodic futexes time : pres N V (futexPeriodic H futexes time).
Proof. unfold futexPeriodic. pres_auto. Qed.
Lemma pres_wakeUpWaiter t time : pres N V (wakeUpWaiter H t time).
Proof. unfold wakeUpWaiter. pres_auto. Qed.
End syscalls.

(** ** The barrier *)

Section barrier.
Context (N : nat) (H : hook_event -> M unit) (fuel : nat) (next : M Z) (host : nat) (shuffle : list nat -> list nat).
Context (Hper : forall time, pres N any (H (HOOK_PERIODIC time))) (Hnext : pres N any next).

Lemma pres_bar f :
  (forall b, m_local_clock_list (f b) = m_local_clock_list b /\ m_barrier_acquire_list (f b) = m_barrier_acquire_list b /\
     m_core_group (f b) = m_core_group b /\ m_core_thread (f b) = m_core_thread b) -> pres N any (upd_bar f).
Proof. intros Hf. apply pres_upd_bar; [apply _|]. intros b. by destruct (Hf b) as (-> & -> & -> & ->). Qed.
#[local] Hint Extern 1 (pres _ _ (upd_bar _)) => apply pres_bar; by intros [] : pres.

Lemma pres_core_runs c : pres N any (core_runs c).
Proof. unfold core_runs. pres_auto. Qed.
#[local] Hint Resolve pres_core_runs : pres.
Lemma pres_sibling k i c : pres N any (sibling_runs k i c).
Proof. revert i. induction k as [|k IH]; intros i; cbn [sibling_runs]; pres_auto. Qed.
#[local] Hint Resolve pres_sibling : pres.
Lemma pres_isCoreRunning c : pres N any (isCoreRunning c).
Proof. unfold isCoreRunning. pres_auto. Qed.
#[local] Hint Resolve pres_isCoreRunning : pres.
Lemma pres_barrier_reached k c b : pres N any (barrier_reached k c b).
Proof. revert c b. induction k as [|k IH]; intros c b; cbn [barrier_reached]; pres_auto. Qed.
#[local] Hint Resolve pres_barrier_reached : pres.
Lemma pres_isBarrierReached : pres N any isBarrierReached.
Proof. unfold isBarrierReached. pres_auto. Qed.
#[local] Hint Resolve pres_isBarrierReached : pres.

Lemma pres_doRelease k : pres N any (doRelease k).
Proof.
  intros s Hs. eapply wpe_mono; [apply (wpe_doRelease (fun _ => False)), Hs|done|]. intros _ s' [Hb HB]. split; [|done].
  eapply Good_evolves; [done| |by apply (bar_only_evolves None)]. eapply Inv_bar; [apply Hs|done|done].
Qed.
#[local] Hint Resolve pres_doRelease : pres.

Lemma pres_releaseThread t : pres N any (releaseThread t).
Proof.
  intros s Hs. eapply wpe_mono; [apply (wpe_releaseThread (fun _ => False)), Hs|done|]. intros _ s' [Hb HB]. split; [|done].
  eapply Good_evolves; [done| |by apply (bar_only_evolves None)]. eapply Inv_bar; [apply Hs|done|done].
Qed.

Lemma pres_release_cores k c caller r w : pres N any (release_cores k c caller r w).
Proof. revert c r w. induction k as [|k IH]; intros c r w; cbn [release_cores]; pres_auto. Qed.
#[local] Hint Resolve pres_release_cores : pres.

Lemma pres_anyRunning : pres N any anyThreadRunning.
Proof. unfold anyThreadRunning. pres_auto. Qed.
#[local] Hint Resolve pres_anyRunning : pres.

Lemma pres_release_loop k caller b w : pres N any (release_loop H next k caller b w).
Proof. revert w. induction k as [|k IH]; intros w; cbn [release_loop]; pres_auto. Qed.
#[local] Hint Resolve pres_release_loop : pres.

Lemma pres_for_cores k c body : (forall d, pres N any (body d)) -> pres N any (for_cores k c body).
Proof. intros Hb. revert c. induction k as [|k IH]; intros c; cbn [for_cores]; pres_auto. Qed.

Lemma pres_barrierRelease caller b : pres N any (barrierRelease H fuel next host shuffle caller b).
Proof.
  assert (forall t, pres N any (upd_bar (fun b => if st_gtb t (m_next_barrier_time b) then bar_with_times t (m_global_time b) b else b))).
  { intros t. apply pres_bar. intros []. by case_match. }
  assert (pres N any (cores_loop (fun c => t ← local_clock c;
    upd_bar (fun b => if st_gtb t (m_next_barrier_time b) then bar_with_times t (m_global_time b) b else b)))).
  { unfold cores_loop. pres_auto. apply pres_for_cores. pres_auto. }
  unfold barrierRelease. pres_auto.
Qed.
#[local] Hint Resolve pres_barrierRelease : pres.

Lemma pres_advance : pres N any (barrier_advance H fuel next host shuffle).
Proof. unfold barrier_advance. pres_auto. Qed.
Lemma pres_signal : pres N any (barrier_signal H fuel next host shuffle).
Proof. unfold barrier_signal. pres_auto. Qed.
Lemma pres_synchronize c time : pres N any (synchronize H fuel next host shuffle c time).
Proof. unfold synchronize. pres_auto. Qed.
End barrier.

(** ** The hooks *)

Section kernel.
Context (cfg : SimCfg) (N n : nat) (Hn : (N < n)%nat).
Local Abbreviation sc := (sim_sched cfg).

Lemma callHooks_unfold m e : callHooks cfg (S m) e = run_listeners cfg (callHooks cfg m) e (callbacks sim_registry (hook_type e)).
Proof. done. Qed.

Lemma pres_hook_periodic time : pres N any (callHooks cfg (S (S n)) (HOOK_PERIODIC time)).
Proof.
  rewrite callHooks_unfold. change (callbacks sim_registry (hook_type (HOOK_PERIODIC time))) with [LSyscallServer; LScheduler].
  cbn [run_listeners run_listener sched_hook]. apply pres_bind; [apply _|by apply pres_futexPeriodic; try apply _|intros _].
  apply pres_bind; [apply _| |intros _; pres_auto]. apply pres_periodic. lia.
Qed.

Lemma pres_nextTimeout : pres N any (getNextTimeout (sim_futexes cfg)).
Proof. unfold getNextTimeout. pres_auto. Qed.

Local Abbreviation H3 := (callHooks cfg (S (S (S n)))).

Lemma pres_set_not_runnable t : pres N any (set_runnable t false).
Proof. intros s Hs. apply wlp_set_runnable. intros _. split; [by apply Good_runnable|done]. Qed.

Lemma pres_hook_stall t reason time : pres N any (H3 (HOOK_THREAD_STALL t reason time)).
Proof.
  rewrite callHooks_unfold. change (callbacks sim_registry (hook_type (HOOK_THREAD_STALL t reason time))) with [LScheduler; LBarrier].
  cbn [run_listeners run_listener sched_hook barrier_hook]. apply pres_bind; [apply _| |intros _; apply pres_bind; [apply _| |intros _; pres_auto]].
  - case_bool_decide; [pres_auto|]. apply pres_bind; [apply _|apply pres_set_not_runnable|intros _]. apply pres_leave_core. lia.
  - apply pres_bind; [apply _|apply pres_releaseThread|intros _]. apply pres_signal; [apply pres_hook_periodic|apply pres_nextTimeout].
Qed.

Lemma pres_sim_advance : pres N any (sim_advance cfg (S (S n))).
Proof. unfold sim_advance. apply pres_advance; [exact pres_hook_periodic|exact pres_nextTimeout]. Qed.

(** A thread starts. *)
Lemma wlp_grow_runnable t s :
  Good N s -> (t < n_threads s)%nat -> wlp (grow_runnable t) (fun _ s' => Good N s' /\ kept s s') s.
Proof.
  intros Hs Ht. apply wpe_bind, wpe_gets. destruct (Nat.leb_spec (length (m_threads_runnable (s_sched s))) t) as [Hle|]; [|by apply wpe_ret].
  apply wpe_modify. split; [|done]. destruct Hs as [[HT HB H1 H2 H3 H4 H5 H6 H7 H8 H9 H10] G1 G2 G3].
  assert (length (m_threads_runnable (s_sched s)) + 16 <= length (m_thread_info (s_sched s)))%nat as Hroom.
  { destruct G2 as [a Ea], G3 as [b Eb]. lia. }
  split; [split|done| |done]; try done; cbn [s_sched set_sched sc_with_runnable m_threads_runnable m_thread_info].
  - by destruct HT.
  - by destruct HB.
  - by rewrite length_app, length_replicate.
  - intros u [Hu|[_ Hu]]%lookup_app_Some; [by apply H6|]. apply lookup_replicate in Hu as [? _]. done.
  - rewrite length_app, length_replicate. destruct G2 as [a Ea]. exists (S a). lia.
Qed.

Lemma wlp_hook_start t time s :
  Good N s -> (t < n_threads s)%nat ->
  wlp (callHooks cfg (S n) (HOOK_THREAD_START t time)) (fun _ s' => Good N s' /\ kept s s') s.
Proof.
  intros Hs Ht. rewrite callHooks_unfold. change (callbacks sim_registry (hook_type (HOOK_THREAD_START t time))) with [LScheduler].
  cbn [run_listeners run_listener sched_hook]. apply wpe_bind, wpe_bind.
  eapply wpe_mono; [by apply wlp_grow_runnable|done|]. intros _ s1 [H1 K1]. apply wpe_bind, wlp_set_runnable. intros _.
  assert (t < n_threads s1)%nat as Ht1 by (destruct K1 as [E1 _]; by rewrite E1).
  eapply wpe_mono; [apply wlp_fill; [exact Hn|by apply Good_runnable|done]|done|]. intros _ s2 [H2 K2]. apply wpe_ret.
  split; [done|]. by etrans.
Qed.

(** A thread ends: it is on its way out from when the thread manager takes it off its core. *)
Lemma Inv_drop t s : Inv {[t]} s -> run_core s t = None -> Inv ∅ s.
Proof.
  intros [HT HB H1 H2 H3 H4 H5 H6 H7 H8 H9 H10] Hr. split; try done. intros u _.
  destruct (decide (u = t)) as [->|Hu]; [|apply H9; set_solver]. rewrite Hr. apply H10. set_solver.
Qed.

Lemma runs_leave_core_exit t time s st :
  Inv {[t]} s -> n_cores s = N -> (t < n_threads s)%nat -> m_threads_runnable (s_sched s) !! t = Some false ->
  m_thread_state (s_tm s) !! t = Some st -> status st <> INITIALIZING ->
  runs (leave_core (callHooks cfg (S (S n))) sc t time) (fun _ s' => Inv ∅ s' /\ exists c, evolves c s s') s.
Proof.
  intros HI Hc Ht Hrun Hst Hini. assert (t < length (m_thread_info (s_sched s)))%nat as Hl.
  { eapply Nat.lt_le_trans; [exact Ht|apply HI]. }
  destruct (lookup_lt_is_Some_2 _ _ Hl) as [i Hi]. apply wpe_bind. eapply wpe_thread_info; [done|].
  assert (run_core s t = m_core_running i) as Hrc by (unfold run_core; by rewrite Hi).
  destruct (m_core_running i) as [c|] eqn:Ec; last first.
  { apply wpe_ret. split; [by eapply Inv_drop|exists None; apply evolves_refl]. }
  pose proof (proj1 (i_sched _ _ HI t c) Hrc) as Hrt. pose proof (run_thread_lt _ _ _ _ HI Hrt) as Hlt.
  eapply wpe_mono; [apply (runs_resched cfg N (S (S n))) with (X := {[t]}); [lia|done|done|by rewrite <- Hc|]|done|].
  { intros u Hu _. assert (u = t) as -> by congruence. by rewrite Hrun. }
  intros _ s' (HI' & Hev & Hbest). split; [|by eexists]. apply (Inv_drop t); [done|].
  destruct (run_core s' t) as [d|] eqn:Ed; [|done]. exfalso. destruct (e_new _ _ _ Hev t d Ed) as [Hd|Hd]; [|congruence].
  assert (d = c) as -> by congruence. apply (i_sched _ _ HI') in Ed. destruct Hbest as [Hbest|Hbest].
  { rewrite Hrt in Hbest. cbn in Hbest. rewrite Hst in Hbest. cbn in Hbest. congruence. }
  destruct (best_thread_spec time c 0 (m_threads_runnable (s_sched s)) (m_thread_info (s_sched s)) (n_cores s) None INT64_MIN)
    as (new & En & Hnew); [done|apply HI|apply HI|]. rewrite Hbest, Ed in En. injection En as <-.
  destruct Hnew as [|(? & _ & [= <-] & _ & Hr & _)]; [done|]. rewrite Nat.sub_0_r in Hr. congruence.
Qed.
End kernel.

(** ** The operations *)

Section operations.
Context (cfg : SimCfg) (N D : nat) (HD : (N + 4 <= D)%nat) (Hwork : sc_periodic_workload (sim_sched cfg) = false).
Local Abbreviation H := (callHooks cfg D).
Local Abbreviation sc := (sim_sched cfg).

Lemma hook_periodic m time : (N + 3 <= m)%nat -> pres N any (callHooks cfg m (HOOK_PERIODIC time)).
Proof. intros Hm. destruct m as [|[|m]]; [lia..|]. apply pres_hook_periodic. lia. Qed.

Lemma hook_stall t reason time : pres N any (H (HOOK_THREAD_STALL t reason time)).
Proof. destruct D as [|[|[|m]]]; [lia..|]. apply pres_hook_stall. lia. Qed.

Lemma hook_migrate V `{!PreOrder V, !Weaker V} t c time : pres N V (H (HOOK_THREAD_MIGRATE t c time)).
Proof.
  intros s Hs. eapply wpe_mono; [apply (hooks_migrate cfg N D ltac:(lia)), Hs|done|]. intros _ s' [Hb HB].
  pose proof (bar_only_evolves None _ _ Hb) as Hev. split; [|by apply weaker, evolves_kept].
  eapply Good_evolves; [done| |exact Hev]. eapply Inv_bar; [apply Hs|done..].
Qed.

Lemma op_resume V `{!PreOrder V, !Weaker V} t thread_by time msg : pres N V (sim_resume cfg D t thread_by time msg).
Proof. unfold sim_resume. destruct D as [|m]; [lia|]. apply pres_resume; [lia|done]. Qed.

Lemma op_advance : pres N any (sim_advance cfg D).
Proof. unfold sim_advance. apply pres_advance; [intros; apply hook_periodic; lia|apply pres_nextTimeout]. Qed.

Lemma pres_advance_loop k : pres N any (advance_loop (sim_advance cfg D) k).
Proof.
  pose proof op_advance. pose proof (pres_anyRunning N). induction k as [|k IH]; cbn [advance_loop]; pres_auto.
Qed.

Lemma op_stall t reason time : pres N any (sim_stall cfg D t reason time).
Proof.
  pose proof pres_advance_loop. pose proof hook_stall.
  unfold sim_stall, stallThread, stallThread_async. pres_auto.
Qed.

Lemma op_yield t : pres N any (sim_yield cfg D t).
Proof. apply pres_yield. lia. Qed.

Lemma op_synchronize c time : pres N any (sim_synchronize cfg D c time).
Proof. unfold sim_synchronize. apply pres_synchronize; [intros; apply hook_periodic; lia|apply pres_nextTimeout]. Qed.

Lemma op_futexWake V `{!PreOrder V, !Weaker V} t uaddr nr mask time : pres N V (sim_futexWake cfg D t uaddr nr mask time).
Proof. unfold sim_futexWake. destruct D as [|m]; [lia|]. apply pres_futexWake; [lia|apply _..]. Qed.

Lemma op_sleep t wake time : pres N any (sim_sleep cfg D t wake time).
Proof. pose proof op_stall as Hst. unfold sim_stall in Hst. unfold sim_sleep, handleSleepCall. pres_auto. Qed.

Lemma op_join t u : pres N any (sim_join cfg D t u).
Proof. pose proof op_stall as Hst. unfold sim_stall in Hst. unfold sim_join, joinThread. pres_auto. Qed.

Lemma op_futex start t args time : pres N any (sim_futex cfg D start t args time).
Proof.
  pose proof op_stall as Hst. unfold sim_stall in Hst. pose proof (pres_findFutex N any).
  unfold sim_futex, handleFutexCall, futexWait, enqueueWaiter. destruct D as [|m] eqn:ED; [lia|].
  assert (N < m)%nat as Hm by lia. 
  pose proof (pres_futexWake cfg N m Hm any). pose proof (pres_futexWakeOp cfg N m Hm any). pose proof (pres_requeue cfg N m Hm any).
  pres_auto.
Qed.

Lemma op_set_affinity calling t mask s :
  Good N s -> (t < length (m_thread_info (s_sched s)))%nat ->
  wlp (sim_set_affinity cfg D calling t mask) (fun _ s' => Good N s') s.
Proof. apply wlp_set_affinity. lia. Qed.

(** *** Start *)

Lemma wlp_setRunning c t s :
  Good N s -> th_core s t = Some c -> wlp (setState c RUNNING) (fun _ s' => Good N s' /\ kept s s') s.
Proof.
  intros Hs Hc. destruct (i_tm _ _ (g_inv _ _ Hs)) as [A B C], (i_bar _ _ (g_inv _ _ Hs)). apply B in Hc as Ht.
  apply wpe_setState; [by eapply co_thread_lt|]. intros s' (R & T & K & S). destruct R as [R1 R2 R3 R4 R5 R6].
  split; [|by apply kept_same]. eapply Good_same; try done.
  - split; [by rewrite R4, R5| |].
    + intros u d. rewrite T, K. case_decide; [by subst|apply B].
    + intros d. rewrite S, K. case_decide; [by subst|apply C].
  - split; by rewrite R3, R6.
Qed.

Lemma wlp_then {A B} (m : M A) (f : A -> M B) s :
  wlp m (fun _ s' => Good N s') s -> (forall a, pres N any (f a)) -> wlp (mbind f m) (fun _ s' => Good N s') s.
Proof.
  intros Hm Hf. apply wpe_bind. eapply wpe_mono; [exact Hm|done|]. intros a s' Hs'.
  eapply wpe_mono; [by apply Hf|done|]. by intros ? ? [].
Qed.

Lemma op_start t time s : Good N s -> wlp (sim_start cfg D t time) (fun _ s' => Good N s') s.
Proof.
  intros Hs. apply wpe_bind, wpe_bind, wpe_gets. destruct (m_threads (s_tm s) !! t) as [th0|] eqn:Et; [|apply wlp_fail].
  apply wpe_ret, wpe_bind. apply lookup_lt_Some in Et as Ht. fold (n_threads s) in Ht.
  eapply wpe_mono; [by apply (pres_set_status N kept)|done|]. intros _ s1 [H1 [E1 _]]. apply wpe_bind.
  assert (t < n_threads s1)%nat as Ht1 by (by rewrite E1).
  assert (wlp (H (HOOK_THREAD_START t time)) (fun _ s' => Good N s' /\ kept s1 s') s1) as Hstart.
  { destruct D as [|m]; [lia|]. apply wlp_hook_start; [lia|done..]. }
  eapply wpe_mono; [exact Hstart|done|]. intros _ s2 [H2 _].
  apply wpe_bind, wpe_bind, wpe_gets. destruct (m_threads (s_tm s2) !! t) as [th|] eqn:Eth; [|apply wlp_fail]. apply wpe_ret.
  apply wlp_then; [|pres_auto]. pose proof (hook_migrate any). destruct (m_core th) as [c|] eqn:Ec.
  - apply wlp_then; [|pres_auto]. eapply wpe_mono; [apply (wlp_setRunning c t); [done|unfold th_core; by rewrite Eth]|done|].
    by intros ? ? [].
  - apply wlp_then; [|pres_auto]. eapply wpe_mono; [by apply (pres_set_stalled N any)|done|]. by intros ? ? [].
Qed.

(** *** Exit *)

Lemma hook_exit t time s st :
  Inv {[t]} s -> n_cores s = N -> Nat.divide 16 (length (m_threads_runnable (s_sched s))) ->
  Nat.divide 16 (length (m_thread_info (s_sched s))) -> (t < n_threads s)%nat ->
  m_thread_state (s_tm s) !! t = Some st -> status st <> INITIALIZING ->
  wlp (H (HOOK_THREAD_EXIT t time)) (fun _ s' => Good N s') s.
Proof.
  intros HI Hc Hr Hi Ht Hst Hini. destruct D as [|[|[|m]]]; [lia..|]. assert (N < m)%nat as Hm by lia. rewrite callHooks_unfold.
  change (callbacks sim_registry (hook_type (HOOK_THREAD_EXIT t time))) with [LScheduler; LBarrier].
  cbn [run_listeners run_listener sched_hook barrier_hook]. apply wlp_then.
  - apply wpe_bind, wlp_set_runnable. intros Hl. set (s1 := set_sched _ s).
    assert (Inv {[t]} s1) as HI1 by (by apply Inv_runnable).
    unfold threadExit. rewrite Hwork. apply wlp_then; [|intros _; apply pres_bind; [apply _| |pres_auto]].
    + eapply wpe_mono; [apply (runs_leave_core_exit cfg N m Hm t time s1 st); try done|done|].
      { cbn. by apply list_lookup_insert_eq. }
      intros _ s2 [HI2 [c Hev]]. destruct Hev as [_ E2 _ E4 E5 _ _ _]. split; [done|by rewrite E2|..].
      * rewrite E4. cbn. by rewrite length_insert.
      * by rewrite E5.
    + assert (forall l s, pres N any (upd_sched (sc_with_hyper (m_hyper_period_number s) (threads_of_app s) (m_num_threads_exited s) l)))
        by (intros; by apply pres_upd_sched; [apply _|]). pres_auto.
  - intros _. apply pres_bind; [apply _| |pres_auto]. apply pres_bind; [apply _|apply pres_releaseThread|intros _].
    apply pres_signal; [by apply pres_hook_periodic|apply pres_nextTimeout].
Qed.

(** The thread manager takes the thread off its core; the scheduler has it there still. *)
Lemma wlp_setCore_none t c s :
  Good N s -> run_core s t = Some c -> co_state s c <> Some RUNNING ->
  wlp (setCore t None) (fun _ s' => Inv {[t]} s' /\ same_rest s s') s.
Proof.
  intros Hs Hc Hidle. destruct (g_inv _ _ Hs) as [HT HB H1 H2 H3 H4 H5 H6 H7 H8 H9 H10].
  apply wpe_setCore; [done|by eapply H8| |done|].
  { intros d. rewrite H9 by set_solver. intros Hd. assert (d = c) as -> by congruence. done. }
  intros s' HT' R' T' S'. split; [|done]. destruct R' as [E1 E2 E3 E4 E5 E6].
  split; rewrite ?E1, ?E5, ?E6; try done; unfold run_core, run_thread in *; rewrite ?E1; try done.
  - destruct HB. split; by rewrite ?E3, ?E6.
  - intros u Hu. rewrite T', decide_False by set_solver. apply H9. set_solver.
  - intros u Hu. assert (u = t) as -> by set_solver. rewrite T', decide_True by done. split; [done|]. left. by exists c.
Qed.

Lemma run_core_kept s s' t c : Good N s -> Good N s' -> kept s s' -> run_core s t = Some c -> run_core s' t = Some c.
Proof. intros [HI _ _ _] [HI' _ _ _] (_ & K & _) Hr%(i_sched _ _ HI)%K. by apply (i_sched _ _ HI'). Qed.

Lemma wlp_setIdle c s : Good N s -> wlp (setState c IDLE) (fun _ s' => Good N s' /\ kept s s' /\ co_state s' c = Some IDLE) s.
Proof.
  intros Hs. pose proof (pres_setState N kept c IDLE ltac:(done) s Hs) as Hp.
  destruct (decide (c < n_cores s)%nat) as [Hc|Hc]; last first.
  { apply wpe_bind, wpe_bind, wpe_gets. apply Nat.nlt_ge, lookup_ge_None_2 in Hc. rewrite Hc. apply wlp_fail. }
  apply wlp_intro. intros [] s' E. destruct (wpe_ok _ _ _ _ _ _ Hp E) as [HG HK]. split_and!; [done..|].
  eapply (wpe_ok (fun _ => False) _ (fun _ s' => co_state s' c = Some IDLE)); [|exact E].
  apply wpe_setState; [done|]. intros s2 (_ & _ & _ & S). by rewrite S, decide_True.
Qed.

Lemma op_exit t s : Good N s -> wlp (sim_exit cfg D t) (fun _ s' => Good N s') s.
Proof.
  intros Hs. apply wpe_bind, wpe_bind, wpe_gets, wlp_lift. intros st0 _. apply wpe_bind, wpe_bind, wpe_gets.
  destruct (m_threads (s_tm s) !! t) as [th|] eqn:Eth; [|apply wlp_fail]. apply wpe_ret.
  destruct (m_core th) as [c|] eqn:Ec; [|apply wlp_fail]. apply wpe_bind, wpe_bind, wpe_gets.
  destruct (tm_cores (s_tm s) !! c) as [co|]; [|apply wlp_fail]. apply wpe_ret. cbv zeta.
  apply wpe_bind, wpe_bind, wpe_gets, wlp_lift. intros st Hst%aget_ok. apply wpe_bind, wlp_assert. intros _.
  assert (run_core s t = Some c) as Hrc.
  { rewrite <- (i_link _ _ (g_inv _ _ Hs)) by set_solver. unfold th_core. by rewrite Eth. }
  (* until the thread leaves its core, the threads stay where they are *)
  apply wpe_bind. apply (wpe_mono _ (fun _ => True) _ (fun _ s' => Good N s' /\ kept s s' /\ started s' t)); [|done|].
  { apply wlp_intro. intros [] s1 E. destruct (wpe_ok _ _ _ _ _ _ (pres_set_status N kept t IDLE ltac:(done) s Hs) E) as [H1 K1].
    split_and!; [done..|]. eapply (wpe_ok (fun _ => False) _ (fun _ s' => started s' t)); [|exact E].
    eapply wpe_upd_state; [done|]. exists (mkThreadState IDLE (stalled_reason st) (waiter st)). split; [|done]. cbn.
    apply list_lookup_insert_eq. by eapply lookup_lt_Some. }
  intros _ s1 (H1 & K1 & S1). apply wpe_bind.
  assert (pres N kept (wakeUpWaiter H t (core_elapsed co))) as Hw by (destruct D as [|m]; [lia|]; apply pres_wakeUpWaiter; [lia|apply _..]).
  eapply wpe_mono; [by apply Hw|done|]. intros _ s2 [H2 K2]. apply wpe_bind.
  eapply (wpe_mono _ _ _ (fun _ s' => Good N s' /\ kept s2 s')); [|done|].
  { pose proof (op_futexWake kept). refine ((_ : pres N kept _) s2 H2). pres_auto. }
  intros _ s3 [H3 K3]. apply wpe_bind. eapply wpe_mono; [by apply wlp_setIdle|done|]. intros _ s4 (H4 & K4 & I4).
  assert (kept s s4) as K by (do 3 (etrans; [eassumption|]); done).
  assert (run_core s4 t = Some c) as Hrc4 by (by apply (run_core_kept s s4)).
  assert (started s4 t) as (st4 & Hst4 & Hs4) by (by apply K4, K3, K2).
  apply wpe_bind. eapply wpe_mono; [apply (wlp_setCore_none t c); [done|done|by rewrite I4]|done|]. intros _ s5 [HI5 R5].
  destruct R5 as [R1 R2 R3 R4 R5 R6]. eapply (hook_exit _ _ _ st4); rewrite ?R1, ?R4, ?R5, ?R6; try done; [apply H4..|].
  destruct K as [-> _]. by apply lookup_lt_Some in Eth.
Qed.

(** *** Creation *)

Record Creatable (s : Sim) : Prop := {
  w_tm : TMok s;
  w_bar : BarOk s;
  w_running : length (m_core_thread_running (s_sched s)) = N;
  w_quantum : length (m_quantum_left (s_sched s)) = N;
  w_affinity : Forall (fun i => length (m_core_affinity i) = N) (m_thread_info (s_sched s));
  w_threads : (n_threads s <= length (m_thread_info (s_sched s)))%nat;
  w_runnable : forall t, m_threads_runnable (s_sched s) !! t = Some true -> (t < n_threads s)%nat;
  w_sched : forall t c, run_core s t = Some c <-> run_thread s c = Some t;
  w_exists : forall t c, run_core s t = Some c -> (t < n_threads s)%nat;
  w_link : forall t, th_core s t = run_core s t;
  w_cores : n_cores s = N;
  w_room : (length (m_threads_runnable (s_sched s)) <= 16 `max` length (m_thread_info (s_sched s)))%nat;
  w_align : Nat.divide 16 (length (m_threads_runnable (s_sched s)));
  w_infos : Nat.divide 16 (length (m_thread_info (s_sched s)))
}.

Lemma Good_creatable s : Good N s -> Creatable s.
Proof.
  clear HD Hwork. intros [[HT HB H1 H2 H3 H4 H5 H6 H7 H8 H9 H10] G1 G2 G3]. rewrite G1 in *. split; try done; [|lia].
  intros t. apply H9. set_solver.
Qed.

(** The new thread [n_threads s] has a record in both components. *)
Lemma Good_create s s' k :
  Creatable s -> TMok s' -> n_threads s' = S (n_threads s) -> n_cores s' = N -> s_bar s' = s_bar s ->
  (forall u, th_core s' u = th_core s u) ->
  s_sched s' = sc_with_info (m_thread_info (s_sched s) ++ replicate k (ThreadInfo_new N)) (s_sched s) ->
  k = (if (length (m_thread_info (s_sched s)) <=? n_threads s)%nat then 16 else 0)%nat -> Good N s'.
Proof.
  clear HD Hwork. intros [HT HB H1 H2 H3 H5 H6 H7 H8 H9 Hc Hroom G2 G3] HT' En Ec Eb Hth Es Hk.
  assert (forall u, run_core s' u = run_core s u) as Hrc.
  { intros u. unfold run_core. rewrite Es. cbn. destruct (decide (u < length (m_thread_info (s_sched s)))%nat).
    - by rewrite lookup_app_l.
    - rewrite (lookup_ge_None_2 (m_thread_info (s_sched s))) by lia. cbn. rewrite lookup_app_r by lia.
      destruct (_ !! _) as [i|] eqn:Ei; [|done]. apply lookup_replicate in Ei as [-> _]. done. }
  assert (forall d, run_thread s' d = run_thread s d) as Hrt by (intros d; unfold run_thread; by rewrite Es).
  assert (S (n_threads s) <= length (m_thread_info (s_sched s)) + k /\ 16 <= length (m_thread_info (s_sched s)) + k /\
    (k = 0 \/ k = 16))%nat as (Hlen & H16 & Hk').
  { destruct G3 as [b Eb3], (Nat.leb_spec (length (m_thread_info (s_sched s))) (n_threads s)); lia. }
  split; [split|done|by rewrite Es|]; rewrite ?En, ?Ec, ?Es; cbn [m_core_thread_running m_quantum_left m_thread_info m_threads_runnable sc_with_info];
    rewrite ?length_app, ?length_replicate; try done; try lia.
  - destruct HB. split; by rewrite Eb, Ec, <- Hc.
  - apply Forall_app. split; [done|]. apply Forall_replicate. cbn. by rewrite length_replicate.
  - intros t Ht%H6. lia.
  - intros t c. rewrite Hrc, Hrt. apply H7.
  - intros t c. rewrite Hrc. intros Ht%H8. lia.
  - intros t _. by rewrite Hth, Hrc.
  - destruct G3 as [b Eb3], Hk' as [-> | ->]; [by exists b; lia|exists (S b); lia].
Qed.

Lemma threads_appended s th st :
  TMok s -> m_core th = None ->
  let s' := set_tm (tm_with_states (m_thread_state (s_tm s) ++ [st]) (tm_with_threads (m_threads (s_tm s) ++ [th]) (s_tm s))) s in
  TMok s' /\ n_threads s' = S (n_threads s) /\ (forall u, th_core s' u = th_core s u) /\ th_core s' (n_threads s) = None.
Proof.
  clear HD Hwork. intros [A B C] Hth s'. assert (forall u, th_core s' u = th_core s u) as Hsame.
  { intros u. unfold th_core. cbn. destruct (decide (u < n_threads s)%nat) as [Hu|Hu]; [by rewrite lookup_app_l|].
    rewrite (lookup_ge_None_2 (m_threads (s_tm s))) by (unfold n_threads in Hu; lia). cbn.
    destruct (_ !! u) as [x|] eqn:Ex; [|done]. apply lookup_app_Some in Ex as [Ex|[_ Ex]].
    - apply lookup_lt_Some in Ex. unfold n_threads in Hu. lia.
    - apply list_lookup_singleton_Some in Ex as [_ <-]. done. }
  assert (n_threads s' = S (n_threads s)) as En by (unfold n_threads; cbn; rewrite length_app; cbn; lia).
  split_and!; [split| | |]; try done.
  - rewrite En. cbn. rewrite length_app, A. cbn. lia.
  - intros u d. rewrite Hsame. apply B.
  - rewrite Hsame. unfold th_core. by rewrite lookup_ge_None_2.
Qed.

Lemma pres_initial_affinity t : pres N same_tm (threadSetInitialAffinity sc t).
Proof.
  assert (forall m l k, pres N same_tm (upd_sched (sc_with_map m l k))) by (intros; by apply pres_upd_sched; [apply _|]).
  assert (forall c, pres N same_tm (upd_sched (sc_with_next c))) by (intros; by apply pres_upd_sched; [apply _|]).
  unfold threadSetInitialAffinity, initial_core. destruct (sc_kind sc).
  - apply pres_bind; [apply _|pres_auto|intros c]. apply pres_upd_info; [apply _|]. intros i i' [E1 E2]%addAffinity_keeps.
    rewrite E1, E2. cbn. by rewrite length_fmap.
  - apply pres_bind; [apply _|pres_auto|intros c]. apply pres_upd_info; [apply _|]. intros i i' [E1 E2]%add_affinities_keeps.
    rewrite E1, E2. cbn. by rewrite length_fmap.
Qed.

(** The scheduler finds a core for the new thread, or none. *)
Lemma wlp_place t s (Q : option nat -> Sim -> Prop) :
  Good N s -> (t < n_threads s)%nat -> th_core s t = None ->
  (forall s', Good N s' -> Q None s') ->
  (forall c s', Inv {[t]} s' -> run_core s' t = Some c -> n_cores s' = N ->
     Nat.divide 16 (length (m_threads_runnable (s_sched s'))) -> Nat.divide 16 (length (m_thread_info (s_sched s'))) -> Q (Some c) s') ->
  wlp (free ← findFreeCoreForThread t;
       match free with
       | Some c => _ ← upd_info t (fun i => Ok (setCoreRunning (Some c) i)); _ ← set_core_thread_running c (Some t);
                   _ ← set_quantum_left c (m_quantum sc); mret (Some c)
       | None => _ ← upd_info t (fun i => Ok (setCoreRunning None i)); mret None
       end) Q s.
Proof.
  clear HD Hwork. intros Hs Ht Hth HN HS. destruct (Hs) as [HI Hc G2 G3]. assert (run_core s t = None) as Hrc by (rewrite <- (i_link _ _ HI); [done|set_solver]).
  assert (t < length (m_thread_info (s_sched s)))%nat as Hl by (eapply Nat.lt_le_trans; [exact Ht|apply HI]).
  destruct (lookup_lt_is_Some_2 _ _ Hl) as [i Hi]. assert (m_core_running i = None) as Hir by (unfold run_core in Hrc; by rewrite Hi in Hrc).
  apply wpe_bind, (wpe_findFree _ ∅); [done..|]. intros r Hr.
  destruct r as [c|]; apply wpe_bind; (eapply wpe_upd_info; [done..|]); last first.
  { apply wpe_ret, HN. split; [|done..|cbn; by rewrite length_insert]. eapply Inv_info; done. }
  destruct (Hr c eq_refl) as (Hcl & Hn & _). apply wpe_bind, wpe_set_running; [cbn; by rewrite (i_running _ _ HI)|].
  set (s1 := set_sched (sc_with_info _ _) s). set (s2 := set_sched (sc_with_running _ _) s1).
  assert (frame s s2) as F2.
  { transitivity s1; [by eapply frame_info|]. split; try done. cbn. by rewrite length_insert. }
  assert (replaced c (Some t) s s2) as Hrep.
  { split; [by destruct (i_tm _ _ HI)|by destruct (i_bar _ _ HI)|done| | |].
    - apply (run_thread_running s s2); [by rewrite (i_running _ _ HI)|done].
    - intros v. change (run_core s2 v) with (run_core s1 v). subst s1. rewrite run_core_info by done. rewrite Hn.
      rewrite (decide_False (P := None = Some v)) by done. do 2 case_decide; try done; congruence.
    - intros v. by rewrite Hn, decide_False. }
  pose proof (Inv_replace ∅ s s2 c (Some t) HI Hrep) as HI2. rewrite (right_id_L ∅ (∪)) in HI2.
  apply wpe_bind, (wpe_set_quantum _ _ _ {[t]}).
  - apply HI2; [|set_solver]. intros ? [= <-]. split_and!; [done|set_solver|done].
  - by rewrite (fr_cores _ _ F2).
  - intros s3 HI3 Hev3 _ Hrc3 _. apply wpe_ret, HS; [done| |..].
    + rewrite Hrc3, (r_core _ _ _ _ Hrep), decide_True; done.
    + by rewrite (e_cores _ _ _ Hev3), (fr_cores _ _ F2).
    + by rewrite (e_runnable _ _ _ Hev3), (fr_runnable _ _ F2).
    + by rewrite (e_infos _ _ _ Hev3), (frame_infos _ _ F2).
Qed.

Lemma wlp_grow_info s t (Q : unit -> Sim -> Prop) :
  n_cores s = N ->
  Q tt (set_sched (sc_with_info (m_thread_info (s_sched s) ++
    replicate (if (length (m_thread_info (s_sched s)) <=? t)%nat then 16 else 0) (ThreadInfo_new N)) (s_sched s)) s) ->
  wlp (grow_info t (length (m_thread_info (s_sched s)) + 16)) Q s.
Proof.
  clear HD Hwork. intros Hc HQ. apply wpe_bind, wpe_bind, wpe_gets, wpe_ret, wpe_bind, wpe_gets. fold (n_cores s). rewrite Hc.
  destruct (_ <=? t)%nat; [apply wpe_modify; unfold resize_info|apply wpe_ret].
  - by replace (length (m_thread_info (s_sched s)) + 16 - length (m_thread_info (s_sched s)))%nat with 16%nat by lia.
  - cbn [replicate] in HQ. rewrite app_nil_r in HQ. by destruct s as [? []].
Qed.

Lemma op_create app s : Creatable s -> wlp (sim_create cfg app) (fun _ s' => Good N s') s.
Proof.
  clear HD. intros Hs. unfold sim_create, createThread_unlocked. apply wpe_bind, wpe_gets. fold (n_threads s).
  apply wpe_bind, wpe_modify, wpe_bind, wpe_modify, wpe_bind. pose proof (w_tm _ Hs) as HT.
  eapply wpe_upd_state; [cbn; rewrite <- (tm_states _ HT); by apply list_lookup_middle|].
  destruct (threads_appended s (Thread_new app) (mkThreadState INITIALIZING STALL_UNSCHEDULED None) HT eq_refl) as (HT1 & En1 & Hth1 & Hn1).
  set (s1 := set_tm _ s) in HT1, En1, Hth1, Hn1.
  match goal with |- wlp _ _ ?x => replace x with s1 end; last first.
  { subst s1. unfold set_tm, tm_with_states, tm_with_threads. cbn. f_equal. f_equal.
    rewrite <- (tm_states _ HT), insert_app_r_alt, Nat.sub_diag by done. done. }
  apply wpe_bind. unfold threadCreate. rewrite Hwork. apply wpe_bind, wpe_gets, wpe_bind.
  apply wlp_grow_info; [exact (w_cores _ Hs)|]. set (s2 := set_sched _ s1).
  assert (Good N s2) as H2.
  { eapply (Good_create s s2); [done|by destruct HT1|done|exact (w_cores _ Hs)|done|done| |done]. done. }
  apply wpe_bind, wpe_gets, wpe_bind, wpe_ret, wpe_bind. eapply wpe_mono; [by apply (pres_thread_info N same_tm)|done|].
  intros i s3 [H3 E3]. apply wpe_bind. eapply (wpe_mono _ _ _ (fun _ s' => Good N s' /\ same_tm s3 s')); [|done|].
  { pose proof pres_initial_affinity. refine ((_ : pres N same_tm _) s3 H3). pres_auto. }
  intros _ s4 [H4 E4]. assert (s_tm s4 = s_tm s1) as E by (etrans; [exact E4|exact E3]). apply wlp_place; [done|..].
  - unfold n_threads at 2. rewrite E. fold (n_threads s1). lia.
  - unfold th_core. by rewrite E.
  - intros s5 H5. by apply wpe_bind, wpe_ret, wpe_ret.
  - intros c s5 HI5 Hrc5 Hc5 A5 B5. apply wpe_bind, wpe_bind, wpe_bind, wpe_gets.
    destruct (tm_cores (s_tm s5) !! c); [|apply wlp_fail]. apply wpe_ret, wlp_then; [|intros _; apply pres_setState; [apply _|done]].
    apply (wpe_arrive _ ∅); [by rewrite (right_id_L ∅ (∪))|set_solver|done|]. intros s6 HI6 R6 _ _.
    destruct R6. split; [done|congruence..].
Qed.
End operations.
