(* ===== verification/Kernel.v ===== *)
(** * Runs of the simulation kernel

    The kernel's operations as steps of a transition system, in any order and
    with any arguments, from the state that the simulator starts in; what holds
    in every state that can be reached; and the operations of the scheduler that
    always succeed there. *)

From stdpp Require Import gmap.
From S2P Require Import Prelude StateMonad SubsecondTime SimState ThreadManager SchedulerPinned SyscallServer BarrierSyncServer Simulator SchedulerConsistency KernelInvariant.

Section steps.
Context (cfg : SimCfg) (D : nat).

(** A core simulates instructions: its clock and its instruction count change. *)
Definition core_executes (c : nat) (elapsed instructions : Z) : M unit :=
  upd_core c (fun co => mkCore (m_core_state co) (m_thread co) elapsed instructions).

(** [k_affinity]: the affinity of a thread that the scheduler has a record of. *)
Inductive kstep (s s' : Sim) : Prop :=
  | k_create app t : sim_create cfg app s = Ok (t, s') -> kstep s s'
  | k_spawn by_ app t : sim_spawn cfg by_ app s = Ok (t, s') -> kstep s s'
  | k_to_spawn r : getThreadToSpawn s = Ok (r, s') -> kstep s s'
  | k_start t time : sim_start cfg D t time s = Ok (tt, s') -> kstep s s'
  | k_stall t reason time r : sim_stall cfg D t reason time s = Ok (r, s') -> kstep s s'
  | k_resume t by_ time msg : sim_resume cfg D t by_ time msg s = Ok (tt, s') -> kstep s s'
  | k_exit t : sim_exit cfg D t s = Ok (tt, s') -> kstep s s'
  | k_yield t : sim_yield cfg D t s = Ok (tt, s') -> kstep s s'
  | k_affinity calling t mask r : (t < length (m_thread_info (s_sched s)))%nat ->
      sim_set_affinity cfg D calling t mask s = Ok (r, s') -> kstep s s'
  | k_synchronize c time b : sim_synchronize cfg D c time s = Ok (b, s') -> kstep s s'
  | k_futex start t args time r : sim_futex cfg D start t args time s = Ok (r, s') -> kstep s s'
  | k_sleep t wake time r : sim_sleep cfg D t wake time s = Ok (r, s') -> kstep s s'
  | k_join t u r : sim_join cfg D t u s = Ok (r, s') -> kstep s s'
  | k_execute c elapsed instructions : is_Some (co_thread s c) -> core_executes c elapsed instructions s = Ok (tt, s') -> kstep s s'.
End steps.

(** ** The invariant of the transition system *)

Lemma pres_core_executes N V `{!PreOrder V, !Weaker V} c e i : pres N V (core_executes c e i).
Proof.
  intros s Hs. destruct (decide (c < n_cores s)%nat) as [Hc|Hc]; last first.
  { apply wpe_bind, wpe_bind, wpe_gets. apply Nat.nlt_ge, lookup_ge_None_2 in Hc. rewrite Hc. apply wlp_fail. }
  apply wpe_core; [done|]. intros co s' Hco (R & T & C & S). cbn [m_thread m_core_state] in C, S.
  destruct (i_tm _ _ (g_inv _ _ Hs)) as [A B E], (i_bar _ _ (g_inv _ _ Hs)), R as [R1 R2 R3 R4 R5 R6].
  assert (forall d, co_thread s' d = co_thread s d) as C'.
  { intros d. rewrite C. case_decide; [|done]. subst. unfold co_thread. by rewrite Hco. }
  assert (forall d, co_state s' d = co_state s d) as S'.
  { intros d. rewrite S. case_decide; [|done]. subst. unfold co_state. by rewrite Hco. }
  split; [|by apply weaker, kept_same]. eapply Good_same; try done.
  - split; [by rewrite R4, R5|intros u d; rewrite T, C'; apply B|intros d; rewrite S', C'; apply E].
  - split; by rewrite R3, R6.
Qed.

(** Before the first thread is created no operation but creation does anything to threads. *)
Record Empty (N : nat) (s : Sim) : Prop := {
  em_creatable : Creatable N s;
  em_threads : m_threads (s_tm s) = [];
  em_states : m_thread_state (s_tm s) = [];
  em_infos : m_thread_info (s_sched s) = [];
  em_spawn : m_thread_spawn_list (s_tm s) = []
}.

Lemma Sim_new_empty cfg N quantum mapping : Empty N (Sim_new cfg N quantum mapping).
Proof.
  assert (forall c, run_thread (Sim_new cfg N quantum mapping) c = None) as Hrt.
  { intros c. unfold run_thread. cbn. destruct (replicate N None !! c) as [x|] eqn:E; [|done].
    apply lookup_replicate in E as [-> _]. done. }
  assert (forall c, co_thread (Sim_new cfg N quantum mapping) c = None) as Hct.
  { intros c. unfold co_thread. cbn. destruct (replicate N _ !! c) as [x|] eqn:E; [|done].
    apply lookup_replicate in E as [-> _]. done. }
  split; [|done..]. split; try done; rewrite ?Hrt.
  - split; try done; [intros t c; by rewrite Hct|]. intros c. unfold co_state. cbn.
    destruct (replicate N _ !! c) as [x|] eqn:E; [|done]. apply lookup_replicate in E as [-> _]. done.
  - split; unfold n_cores; cbn; by rewrite !length_replicate.
  - cbn. by rewrite length_replicate.
  - cbn. by rewrite length_replicate.
  - intros t Ht. cbn in Ht. do 16 (destruct t as [|t]; [done|]). done.
  - intros t c. by rewrite Hrt.
  - unfold n_cores. cbn. by rewrite length_replicate.
  - by exists 0%nat.
Qed.

Lemma empty_no_thread N s t : Empty N s -> getThreadFromID t s = Err AssertFailed.
Proof. intros HE. unfold getThreadFromID, gets, mbind, st_bind. by rewrite (em_threads _ _ HE). Qed.

Lemma empty_no_state N s t : Empty N s -> thread_state t s = Err OutOfBounds.
Proof. intros HE. unfold thread_state, gets, mbind, st_bind. by rewrite (em_states _ _ HE). Qed.

Lemma bind_err {S A B} (m : ST S A) (f : A -> ST S B) e s : m s = Err e -> mbind f m s = Err e.
Proof. intros Hm. unfold mbind, st_bind. by rewrite Hm. Qed.

Section invariant.
Context (cfg : SimCfg) (N D : nat) (HD : (N + 4 <= D)%nat) (Hwork : sc_periodic_workload (sim_sched cfg) = false).

Lemma op_spawn by_ app s : Creatable N s -> wlp (sim_spawn cfg by_ app) (fun _ s' => Good N s') s.
Proof.
  intros Hs. unfold sim_spawn, spawnThread. apply wpe_bind.
  apply (wpe_mono _ (fun _ => True) _ (fun _ s' => s' = s)); [|done|].
  { destruct by_ as [t|]; [|by apply wpe_ret]. apply wpe_bind, wpe_bind, wpe_gets.
    destruct (_ !! t) as [th|]; [|apply wlp_fail]. apply wpe_ret. destruct (m_core th) as [c|]; [|apply wlp_fail].
    apply wpe_bind, wpe_bind, wpe_gets. destruct (_ !! c); [|apply wlp_fail]. by apply wpe_ret, wpe_ret. }
  intros time ? ->. apply wlp_then; [exact (op_create cfg N Hwork app s Hs)|]. intros t. apply pres_bind; [apply _|by apply pres_tm; [apply _|]|pres_auto].
Qed.

Lemma Good_step s s' : Good N s -> kstep cfg D s s' -> Good N s'.
Proof.
  intros Hs Hstep.
  assert (forall A (m : M A) a, pres N any m -> m s = Ok (a, s') -> Good N s') as Hp.
  { intros A m a Hm E. by destruct (wpe_ok _ _ _ _ _ _ (Hm s Hs) E). }
  assert (forall A (m : M A) a, wlp m (fun _ s' => Good N s') s -> m s = Ok (a, s') -> Good N s') as Hw.
  { intros A m a Hm E. exact (wpe_ok _ _ _ _ _ _ Hm E). }
  destruct Hstep as [app t E|by_ app t E|r E|t time E|t reason time r E|t by_ time msg E|t E|t E|calling t mask r Hl E
                    |c time b E|start t args time r E|t wake time r E|t u r E|c e i _ E].
  - eapply Hw, E. by apply op_create, Good_creatable.
  - eapply Hw, E. by apply op_spawn, Good_creatable.
  - eapply Hp, E. unfold getThreadToSpawn. pres_auto. by apply pres_tm; [apply _|].
  - eapply Hw, E. by apply op_start.
  - by eapply Hp, E; apply op_stall.
  - by eapply Hp, E; apply op_resume; try apply _.
  - eapply Hw, E. by apply op_exit.
  - by eapply Hp, E; apply op_yield.
  - eapply Hw, E. by apply op_set_affinity.
  - by eapply Hp, E; apply op_synchronize.
  - by eapply Hp, E; apply op_futex.
  - by eapply Hp, E; apply op_sleep.
  - by eapply Hp, E; apply op_join.
  - by eapply Hp, E; apply pres_core_executes; apply _.
Qed.

Lemma Empty_step s s' : Empty N s -> kstep cfg D s s' -> Empty N s' \/ Good N s'.
Proof.
  intros Hs Hstep. pose proof (fun t => empty_no_thread N s t Hs) as Hth. pose proof (fun t => empty_no_state N s t Hs) as Hst.
  assert (forall t f, upd_thread t f s = Err AssertFailed) as Hut by (intros; by apply bind_err).
  assert (forall t f s2, m_thread_state (s_tm s2) = [] -> upd_state t f s2 = Err OutOfBounds) as Hus.
  { intros t f s2 E2. apply bind_err. unfold thread_state, gets, mbind, st_bind. by rewrite E2. }
  assert (forall A (m : M A) a, wlp m (fun _ s' => Good N s') s -> m s = Ok (a, s') -> Good N s') as Hw.
  { intros A m a Hm E. exact (wpe_ok _ _ _ _ _ _ Hm E). }
  assert (forall c, co_thread s c = None) as Hco.
  { intros c. destruct (co_thread s c) as [t|] eqn:E; [|done]. apply (tm_bij _ (w_tm _ _ (em_creatable _ _ Hs))), th_core_lt in E.
    unfold n_threads in E. rewrite (em_threads _ _ Hs) in E. cbn in E. lia. }
  destruct Hstep as [app t E|by_ app t E|r E|t time E|t reason time r E|t by_ time msg E|t E|t E|calling t mask r Hl E
                    |c time b E|start t args time r E|t wake time r E|t u r E|c e i Hc E].
  - right. eapply Hw, E. apply op_create; [done|apply Hs].
  - right. eapply Hw, E. apply op_spawn, Hs.
  - unfold getThreadToSpawn, gets, mbind, st_bind in E. by rewrite (em_spawn _ _ Hs) in E.
  - unfold sim_start, onThreadStart in E. by rewrite (bind_err _ _ _ _ (Hth t)) in E.
  - unfold sim_stall, stallThread, stallThread_async in E. by rewrite (bind_err _ _ OutOfBounds) in E by (by apply bind_err, Hus, Hs).
  - unfold sim_resume, resumeThread, thread_signal in E. by rewrite (bind_err _ _ _ _ (Hut _ _)) in E.
  - unfold sim_exit, onThreadExit in E. by rewrite (bind_err _ _ _ _ (Hst t)) in E.
  - unfold sim_yield, threadYield in E. rewrite (bind_err _ _ OutOfBounds) in E; [done|].
    unfold thread_info, gets, mbind, st_bind. by rewrite (em_infos _ _ Hs).
  - rewrite (em_infos _ _ Hs) in Hl. cbn in Hl. lia.
  - unfold sim_synchronize, synchronize, gets, mbind, st_bind in E. destruct (m_disable (s_bar s)); [change (Ok (false, s) = Ok (b, s')) in E; simplify_eq; by left|].
    unfold getCoreFromID, gets, mbind, st_bind in E. destruct (tm_cores (s_tm s) !! c) as [co|] eqn:Eco; [|done].
    specialize (Hco c). unfold co_thread in Hco. rewrite Eco in Hco. cbn in Hco.
    cbn in E. destruct (core_group c s) as [[g s1]|]; [|done]. by rewrite Hco in E.
  - unfold sim_futex, handleFutexCall in E. by rewrite (bind_err _ _ _ _ (Hth t)) in E.
  - change (sim_stall cfg D t STALL_SLEEP time (set_sys (mkSyscall (m_sleeping (s_sys s) ++ [mkWaiter t 0 wake]) (m_futexes (s_sys s))) s)
      = Ok (r, s')) in E. unfold sim_stall, stallThread, stallThread_async in E.
    by rewrite (bind_err _ _ OutOfBounds) in E by (by apply bind_err, Hus, Hs).
  - unfold sim_join, joinThread in E. by rewrite (bind_err _ _ _ _ (Hth t)) in E.
  - rewrite Hco in Hc. by destruct Hc.
Qed.

Lemma reachable_ok quantum mapping s :
  rtc (kstep cfg D) (Sim_new (sim_sched cfg) N quantum mapping) s -> Empty N s \/ Good N s.
Proof.
  intros Hr. remember (Sim_new (sim_sched cfg) N quantum mapping) as s0 eqn:E0.
  assert (Empty N s0 \/ Good N s0) as H0 by (left; subst; apply Sim_new_empty). clear E0.
  induction Hr as [s|s1 s2 s3 Hstep _ IH]; [done|]. apply IH. destruct H0 as [H0|H0]; [by eapply Empty_step|].
  right. by eapply Good_step.
Qed.
End invariant.

(** ** A run

    Three threads on two cores: the third waits until the first stalls, and the first gets the
    other core when the second stalls. *)

Definition ex_sched : SchedCfg :=
  mkSchedCfg Roaming 1000000 1 [true; true] false false false 0 false (fun _ => None) 1 1 1 (fun _ => []) 10.
Definition ex_cfg : SimCfg :=
  mkSimCfg ex_sched 10 10 4 (fun l => l) 0 (fun _ a => a) (fun _ _ => 0) (fun m => (map_to_list m).*1).
Definition ex_init : Sim := Sim_new ex_sched 2 100 [].

(** The state after an operation that succeeds. *)
Definition after {A} (m : M A) (s : Sim) : Sim := match m s with Ok (_, s') => s' | Err _ => s end.

Definition ex_started : Sim :=
  after (sim_start ex_cfg 6 2 0) (after (sim_start ex_cfg 6 1 0) (after (sim_start ex_cfg 6 0 0)
    (after (sim_create ex_cfg 0) (after (sim_create ex_cfg 0) (after (sim_create ex_cfg 0) ex_init))))).
Definition ex_switched : Sim :=
  after (sim_stall ex_cfg 6 1 STALL_MUTEX 70) (after (sim_resume ex_cfg 6 0 (Some 1%nat) 60 false)
    (after (sim_stall ex_cfg 6 0 STALL_MUTEX 50) ex_started)).

Lemma after_ok {A} (m : M A) s :
  match m s with Ok _ => true | Err _ => false end = true -> exists a, m s = Ok (a, after m s).
Proof. unfold after. destruct (m s) as [[a s']|]; [eauto|done]. Qed.

(** The last operation of a run is the step [c]. *)
Ltac last_step c :=
  match goal with
  | |- rtc _ _ (after ?m ?s) =>
      apply rtc_r with (y := s); [|
        let a := fresh in let E := fresh in
        destruct (after_ok m s) as [a E]; [vm_compute; reflexivity|]; first [eapply c; exact E|destruct a; eapply c; exact E]]
  end.

Lemma ex_started_reachable : rtc (kstep ex_cfg 6) ex_init ex_started.
Proof. unfold ex_started. do 3 last_step k_start. do 3 last_step k_create. apply rtc_refl. Qed.

Lemma ex_switched_reachable : rtc (kstep ex_cfg 6) ex_init ex_switched.
Proof.
  unfold ex_switched. last_step k_stall. last_step k_resume. last_step k_stall. apply ex_started_reachable.
Qed.

(** ** What holds in every state *)

(** C14: without PERIODIC_WORKLOAD, in every state that the kernel can reach by its operations in any order, affinities being
    set only of threads that the scheduler has a record of ([k_affinity]), the scheduler and the thread manager agree: a thread is on the core that the scheduler has it on, a core has at most one thread and a thread at most
    one core in both components, and a running core has a thread. *)
Theorem kernel_consistent (cfg : SimCfg) (N D : nat) (quantum : Z) (mapping : list (nat * nat * nat)) (s : Sim) :
  (N + 4 <= D)%nat -> sc_periodic_workload (sim_sched cfg) = false ->
  rtc (kstep cfg D) (Sim_new (sim_sched cfg) N quantum mapping) s ->
  (forall t, th_core s t = run_core s t) /\
  (forall t c, run_core s t = Some c <-> run_thread s c = Some t) /\
  (forall t c, th_core s t = Some c <-> co_thread s c = Some t) /\
  (forall c, co_state s c = Some RUNNING -> is_Some (co_thread s c)).
Proof.
  intros HD Hwork Hr. destruct (reachable_ok cfg N D HD Hwork quantum mapping s Hr) as [[Hs _ _ _ _]|[Hs _ _ _]].
  - destruct Hs as [[_ B C] _ _ _ _ _ _ Hsched _ Hlink _ _ _ _]. done.
  - destruct Hs as [[_ B C] _ _ _ _ _ _ _ Hsched _ Hlink _]. split_and!; try done. intros t. apply Hlink. set_solver.
Qed.

Lemma kernel_consistent_witness :
  rtc (kstep ex_cfg 6) ex_init ex_switched /\ th_core ex_switched 0 = Some 1%nat /\
  (forall t, th_core ex_switched t = run_core ex_switched t).
Proof.
  split_and!; [apply ex_switched_reachable|vm_compute; reflexivity|].
  eapply (kernel_consistent ex_cfg 2 6 100 []); [lia|reflexivity|apply ex_switched_reachable].
Defined.

(** ** The scheduler never fails *)

Section total.
Context (cfg : SimCfg) (N D : nat) (HD : (N < D)%nat).
Local Abbreviation H := (callHooks cfg D).
Local Abbreviation sc := (sim_sched cfg).

Lemma runs_resched_core time c s :
  Good N s -> (c < N)%nat -> runs (reschedule H sc time c) (fun _ s' => Good N s' /\ evolves (Some c) s s') s.
Proof.
  intros Hs Hc. eapply wpe_mono; [apply (runs_resched cfg N D HD ∅); [apply Hs|apply Hs|done|set_solver]|done|].
  intros _ s' (HI & Hev & _). split; [by eapply Good_evolves|done].
Qed.

Lemma runs_set_quantum c q s :
  Good N s -> (c < N)%nat ->
  runs (set_quantum_left c q) (fun _ s' => Good N s' /\ evolves None s s') s.
Proof.
  intros Hs Hc. eapply (wpe_set_quantum _ _ _ ∅); [apply Hs|by rewrite (g_cores _ _ Hs)|]. intros s' HI Hev _ _ _.
  split; [by eapply Good_evolves|done].
Qed.

Lemma runs_yield t s :
  Good N s -> (t < length (m_thread_info (s_sched s)))%nat -> runs (threadYield H sc t) (fun _ s' => Good N s') s.
Proof.
  intros Hs Ht. destruct (lookup_lt_is_Some_2 _ _ Ht) as [i Hi]. apply wpe_bind. eapply wpe_thread_info; [done|].
  destruct (m_core_running i) as [c|] eqn:Ec; [|by apply wpe_ret].
  assert (run_core s t = Some c) as Hrc by (unfold run_core; by rewrite Hi).
  apply (i_sched _ _ (g_inv _ _ Hs)) in Hrc as Hrt. apply (run_thread_lt _ _ _ _ (g_inv _ _ Hs)) in Hrt as Hlt.
  destruct (lookup_lt_is_Some_2 _ _ Hlt) as [co Hco]. rewrite (g_cores _ _ Hs) in Hlt. apply wpe_bind. eapply wpe_getCore; [done|].
  apply wpe_bind. eapply wpe_mono; [by apply runs_set_quantum|done|]. intros _ s1 [H1 E1].
  apply wpe_bind. eapply wpe_mono; [by apply runs_resched_core|done|]. intros _ s2 [H2 E2].
  assert (t < length (m_thread_info (s_sched s2)))%nat as Ht2 by (rewrite (e_infos _ _ _ E2), (e_infos _ _ _ E1); done).
  destruct (lookup_lt_is_Some_2 _ _ Ht2) as [i2 Hi2]. apply wpe_bind. eapply wpe_thread_info; [done|].
  assert (length (m_core_affinity i2) = N) as Ha.
  { rewrite <- (g_cores _ _ H2). by eapply (Forall_lookup_1 _ _ _ _ (i_affinity _ _ (g_inv _ _ H2))). }
  destruct (aget_lt (m_core_affinity i2) c) as (a & Ea & _); [lia|]. apply wpe_bind. eapply wpe_lift; [exact Ea|].
  destruct a; [by apply wpe_ret|]. apply wpe_bind. eapply (wpe_findFree _ ∅); [apply H2|done|]. intros [d|] Hr; [|by apply wpe_ret].
  destruct (Hr d eq_refl) as (Hd & _). rewrite (g_cores _ _ H2) in Hd.
  eapply wpe_mono; [by apply runs_resched_core|done|]. by intros ? ? [].
Qed.

Lemma runs_periodic_cores time delta k c s :
  Good N s -> (c + k = N)%nat -> runs (periodic_cores H sc time delta k c) (fun _ s' => Good N s') s.
Proof.
  revert c s. induction k as [|k IH]; intros c s Hs Hk; cbn [periodic_cores]; [by apply wpe_ret|].
  destruct (aget_lt (m_quantum_left (s_sched s)) c) as (q & Eq & _); [rewrite (i_quantum _ _ (g_inv _ _ Hs)), (g_cores _ _ Hs); lia|].
  apply wpe_bind, wpe_bind, wpe_gets. eapply wpe_lift; [exact Eq|].
  apply wpe_bind, wpe_core_thread_running; [rewrite (i_running _ _ (g_inv _ _ Hs)), (g_cores _ _ Hs); lia|].
  apply wpe_bind. apply (wpe_mono _ (fun _ => False) _ (fun _ s' => Good N s')); [|done|intros ? s1 H1; apply IH; [done|lia]].
  destruct (_ || _).
  - eapply wpe_mono; [apply runs_resched_core; [done|lia]|done|]. by intros ? ? [].
  - eapply wpe_mono; [apply runs_set_quantum; [done|lia]|done|]. by intros ? ? [].
Qed.

Lemma runs_periodic time s :
  Good N s -> sc_modified_code sc && runtime_intervention sc = false ->
  runs (periodic H sc time) (fun _ s' => Good N s') s.
Proof.
  intros Hs Hm. apply wpe_bind, wpe_gets. rewrite Hm. apply wpe_bind, wpe_ret, wpe_bind, wpe_gets, wpe_bind, wpe_bind, wpe_gets, wpe_ret.
  fold (n_cores s). rewrite (g_cores _ _ Hs). apply wpe_bind. eapply wpe_mono; [by apply runs_periodic_cores|done|].
  intros ? s1 H1. eapply wpe_modify. eapply (wpe_ok (fun _ => True) (upd_sched (sc_with_periodic time)) (fun _ s' => Good N s') s1 tt); [|done].
  eapply wpe_mono; [by apply (pres_upd_sched N any)|done|]. by intros ? ? [].
Qed.
End total.

(** C15: without PERIODIC_WORKLOAD and changes of the mapping at run time, in every state that the kernel can reach once a
    thread exists, affinities having been set only of threads that the scheduler has a record of ([k_affinity]; see
    [early_affinity_out_of_bounds] for others), yielding a core and the periodic rescheduling of all cores succeed: no assertion fails, no table is indexed out of its bounds, and the hooks that call each other ("recursive
    loop of reschedulings") end within as many levels as there are cores. *)
Theorem scheduler_total (cfg : SimCfg) (N D : nat) (quantum : Z) (mapping : list (nat * nat * nat)) (s : Sim) (t : nat) (time : Z) :
  (N + 4 <= D)%nat -> sc_periodic_workload (sim_sched cfg) = false ->
  sc_modified_code (sim_sched cfg) && runtime_intervention (sim_sched cfg) = false ->
  rtc (kstep cfg D) (Sim_new (sim_sched cfg) N quantum mapping) s -> (t < n_threads s)%nat ->
  (exists s', sim_yield cfg D t s = Ok (tt, s')) /\
  (exists s', periodic (callHooks cfg (S N)) (sim_sched cfg) time s = Ok (tt, s')).
Proof.
  intros HD Hwork Hm Hr Ht. destruct (reachable_ok cfg N D HD Hwork quantum mapping s Hr) as [Hs|Hs].
  { unfold n_threads in Ht. rewrite (em_threads _ _ Hs) in Ht. cbn in Ht. lia. }
  split.
  - destruct (runs_ok _ _ _ (runs_yield cfg N D ltac:(lia) t s Hs ltac:(eapply Nat.lt_le_trans; [exact Ht|apply Hs]))) as ([] & s' & E & _).
    eauto.
  - destruct (runs_ok _ _ _ (runs_periodic cfg N (S N) ltac:(lia) time s Hs Hm)) as ([] & s' & E & _). eauto.
Qed.

Lemma scheduler_total_witness :
  (exists s', sim_yield ex_cfg 6 2 ex_started = Ok (tt, s')) /\
  (exists s', periodic (callHooks ex_cfg 3) ex_sched 2000000 ex_started = Ok (tt, s')).
Proof.
  apply (scheduler_total ex_cfg 2 6 100 []); [lia|reflexivity|reflexivity|apply ex_started_reachable|].
  vm_compute. lia.
Defined.

(** ** The thread that has waited longest *)

(** The score with which a thread competes for the core, if it does. *)
Definition score (s : Sim) (time : Z) (c t : nat) : option Z :=
  run ← m_threads_runnable (s_sched s) !! t;
  i ← m_thread_info (s_sched s) !! t;
  match candidate time c run i with Ok x => x | Err _ => None end.

(** Thread [t] of those from [t0] on competes with score [x]. *)
Definition competes (time : Z) (c : nat) (infos : list ThreadInfo) (t0 : nat) (rs : list bool) (t : nat) (x : Z) : Prop :=
  (t0 <= t)%nat /\ exists r i, rs !! (t - t0)%nat = Some r /\ infos !! t = Some i /\ candidate time c r i = Ok (Some x).

Lemma competes_cons time c infos t0 r rs t x :
  competes time c infos t0 (r :: rs) t x <->
  (t = t0 /\ exists i, infos !! t0 = Some i /\ candidate time c r i = Ok (Some x)) \/ competes time c infos (S t0) rs t x.
Proof.
  unfold competes. split.
  - intros (Hle & r' & i & Hr & Hi & Hc). destruct (decide (t = t0)) as [->|Hne].
    + left. rewrite Nat.sub_diag in Hr. injection Hr as <-. eauto.
    + right. split; [lia|]. replace (t - t0)%nat with (S (t - S t0)) in Hr by lia. eauto.
  - intros [(-> & i & Hi & Hc)|(Hle & r' & i & Hr & Hi & Hc)].
    + split; [lia|]. exists r, i. by rewrite Nat.sub_diag.
    + split; [lia|]. exists r', i. by replace (t - t0)%nat with (S (t - S t0)) by lia.
Qed.

Lemma best_thread_max time c infos rs t0 best m new :
  best_thread time c t0 rs infos best m = Ok new ->
  exists mf, m <= mf /\ (new = best /\ mf = m \/ exists b, new = Some b /\ competes time c infos t0 rs b mf) /\
    (forall t x, competes time c infos t0 rs t x -> x <= mf).
Proof.
  revert t0 best m. induction rs as [|r rs IH]; intros t0 best m; cbn [best_thread]; intros Hb.
  { exists m. simplify_eq. split_and!; [lia|by left|]. by intros t x (_ & r & i & ? & _). }
  res_inv Hb. rename a into i, a0 into o. apply aget_ok in E. setoid_rewrite competes_cons.
  destruct o as [x0|]; [destruct (Z.ltb_spec m x0) as [Hlt|Hge]|];
    apply IH in Hb as (mf & Hm & Hnew & Hmax); exists mf; (split_and!; [lia| |]).
  - right. destruct Hnew as [[-> ->]|(b & -> & Hcomp)]; [exists t0|exists b]; (split; [done|]); [left; eauto|by right].
  - intros t x [(-> & i' & Hi & Hc)|Hc]; [|by eapply Hmax]. assert (x = x0) by congruence. lia.
  - destruct Hnew as [Hnew|(b & -> & Hcomp)]; [by left|]. right. eauto.
  - intros t x [(-> & i' & Hi & Hc)|Hc]; [|by eapply Hmax]. assert (x = x0) by congruence. lia.
  - destruct Hnew as [Hnew|(b & -> & Hcomp)]; [by left|]. right. eauto.
  - intros t x [(-> & i' & Hi & Hc)|Hc]; [congruence|by eapply Hmax].
Qed.

Lemma score_competes s time c t x :
  score s time c t = Some x <-> competes time c (m_thread_info (s_sched s)) 0 (m_threads_runnable (s_sched s)) t x.
Proof.
  unfold score, competes. rewrite Nat.sub_0_r. split.
  - intros Hs. apply bind_Some in Hs as (r & Hr & Hs). apply bind_Some in Hs as (i & Hi & Hs).
    split; [lia|]. exists r, i. destruct (candidate time c r i); simplify_eq. done.
  - intros (_ & r & i & Hr & Hi & Hc). by rewrite Hr, Hi; cbn; rewrite Hc.
Qed.

(** C16: without PERIODIC_WORKLOAD, in every state that the kernel can reach once a thread exists, affinities having been set
    only of threads that the scheduler has a record of ([k_affinity]), rescheduling a core whose thread is not INITIALIZING
    succeeds and leaves the core to a thread with the highest score among those that may run there: no thread that waits for it has waited longer (a waiting thread's score is
    how long it has been off its core, the running thread's how long it has run, negated); in particular the core stays idle
    only if no thread can use it.  The threads on the other cores stay there. *)
Theorem reschedule_best (cfg : SimCfg) (N D : nat) (quantum : Z) (mapping : list (nat * nat * nat)) (s : Sim) (c : nat) (time : Z) :
  (N + 4 <= D)%nat -> sc_periodic_workload (sim_sched cfg) = false ->
  rtc (kstep cfg D) (Sim_new (sim_sched cfg) N quantum mapping) s -> n_threads s <> 0%nat -> (c < N)%nat ->
  run_thread s c ≫= (fun u => status <$> m_thread_state (s_tm s) !! u) <> Some INITIALIZING ->
  exists s', reschedule (callHooks cfg D) (sim_sched cfg) time c s = Ok (tt, s') /\
    (forall t x, score s time c t = Some x -> INT64_MIN < x ->
       exists b y, run_thread s' c = Some b /\ score s time c b = Some y /\ x <= y) /\
    (forall d u, d <> c -> run_thread s d = Some u -> run_thread s' d = Some u).
Proof.
  intros HD Hwork Hr Hn Hc Hini. destruct (reachable_ok cfg N D HD Hwork quantum mapping s Hr) as [Hs|Hs].
  { unfold n_threads in Hn. by rewrite (em_threads _ _ Hs) in Hn. }
  destruct (runs_ok _ _ _ (runs_resched cfg N D ltac:(lia) ∅ time c s (g_inv _ _ Hs) (g_cores _ _ Hs) Hc ltac:(set_solver)))
    as ([] & s' & E & _ & Hev & [Hi|Hbest]); [done|]. exists s'. split_and!; [done| |].
  - intros t x Ht Hx. apply score_competes in Ht. apply best_thread_max in Hbest as (mf & _ & [[_ ->]|(b & Hb & Hcomp)] & Hmax).
    + apply Hmax in Ht. lia.
    + exists b, mf. split_and!; [done|by apply score_competes|by eapply Hmax].
  - intros d u Hd. apply (e_keep _ _ _ Hev). congruence.
Qed.

Lemma reschedule_best_witness :
  score ex_started 500000 0 2 = Some 500 /\ run_thread ex_started 0 = Some 0%nat /\
  exists s', reschedule (callHooks ex_cfg 6) ex_sched 500000 0 ex_started = Ok (tt, s') /\
    (forall t x, score ex_started 500000 0 t = Some x -> INT64_MIN < x ->
       exists b y, run_thread s' 0 = Some b /\ score ex_started 500000 0 b = Some y /\ x <= y) /\
    (forall d u, d <> 0%nat -> run_thread ex_started d = Some u -> run_thread s' d = Some u).
Proof.
  split_and!; [vm_compute; reflexivity..|]. apply (reschedule_best ex_cfg 2 6 100 []);
    [lia|reflexivity|apply ex_started_reachable|vm_compute; discriminate|lia|vm_compute; discriminate].
Defined.

(** ** Outside the theorems *)

(** The affinity of a thread that the scheduler has no record of yet: setting that of thread 20 before any thread exists leaves
    [m_thread_info] with 36 entries; with 33 threads [m_threads_runnable] has 48, and a yield indexes the former out of its
    bounds. *)
Definition ex_crowd (n : nat) (s : Sim) : Sim :=
  foldl (fun s t => after (sim_start ex_cfg 6 t 0) (after (sim_create ex_cfg 0) s)) s (seq 0 n).

Lemma early_affinity_out_of_bounds :
  sim_yield ex_cfg 6 0 (ex_crowd 33 (after (sim_set_affinity ex_cfg 6 None 20 None) ex_init)) = Err OutOfBounds /\
  exists s', sim_yield ex_cfg 6 0 (ex_crowd 33 ex_init) = Ok (tt, s').
Proof. split; [vm_compute; reflexivity|]. eexists. vm_compute. reflexivity. Qed.

(** PERIODIC_WORKLOAD, two hyper-periods of one application with one thread each: the thread of the second one is given a core
    by a change of its affinity; when the first one ends, the mapping of the new hyper-period moves it to core 0, but the
    scheduler still has it on core 1 as well. *)
Definition hyper_sched : SchedCfg :=
  mkSchedCfg Roaming 1000000 1 [true; true] true true false 0 false (fun _ => None) 2 1 1 (fun _ => [(0, 0, 0)%nat]) 10.
Definition hyper_cfg : SimCfg :=
  mkSimCfg hyper_sched 10 10 4 (fun l => l) 0 (fun _ a => a) (fun _ _ => 0) (fun m => (map_to_list m).*1).
Definition hyper_state : Sim :=
  after (sim_exit hyper_cfg 6 0) (after (sim_set_affinity hyper_cfg 6 None 1 (Some [false; true]))
    (after (sim_start hyper_cfg 6 1 0) (after (sim_start hyper_cfg 6 0 0)
      (after (sim_create hyper_cfg 1) (after (sim_create hyper_cfg 0) (Sim_new hyper_sched 2 100 [])))))).

Lemma hyper_period_thread_on_two_cores :
  run_thread hyper_state 0 = Some 1%nat /\ run_thread hyper_state 1 = Some 1%nat /\ run_core hyper_state 1 = Some 0%nat.
Proof. vm_compute. done. Qed.
