(* ===== verification/SyncServer.v ===== *)
(** * Mutexes, condition variables and barriers of the application

    Models src/common/system/sync_server.{h,cc}.  The server keeps its own state
    beside the kernel's, whose stallThread and resumeThread it calls; an operation
    that blocks the calling thread returns [None]. *)

From stdpp Require Import gmap.
From S2P Require Import Prelude StateMonad SubsecondTime SimState ThreadManager SchedulerPinned SyscallServer BarrierSyncServer Simulator SchedulerConsistency KernelInvariant Kernel.

(** ** The data *)

(** [m_owner] is [None] for NO_OWNER. *)
Record SimMutex := mkMutex { mx_waiting : list nat; mx_owner : option nat }.
(** The mutex of a waiter is the key of its [SimMutex]. *)
Record CondWaiter := mkCondWaiter { cw_thread_id : nat; cw_mutex : Z }.
Record SimBarrier := mkSimBarrier { sb_waiting : list nat; sb_count : Z }.

Record SyncServer := mkSync {
  m_mutexes : gmap Z SimMutex;
  m_conds : gmap Z (list CondWaiter);
  m_barriers : list SimBarrier
}.

Definition SimMutex_new : SimMutex := mkMutex [] None.
Definition SyncServer_new : SyncServer := mkSync ∅ ∅ [].

Definition World : Type := SyncServer * Sim.
Abbreviation W := (ST World).

Definition upd_sync (f : SyncServer -> SyncServer) : W unit := modify (fun s => (f s.1, s.2)).
Definition with_mutex (k : Z) (m : SimMutex) (s : SyncServer) : SyncServer := mkSync (<[k := m]> (m_mutexes s)) (m_conds s) (m_barriers s).
Definition with_cond (k : Z) (l : list CondWaiter) (s : SyncServer) : SyncServer := mkSync (m_mutexes s) (<[k := l]> (m_conds s)) (m_barriers s).
Definition with_barriers (l : list SimBarrier) (s : SyncServer) : SyncServer := mkSync (m_mutexes s) (m_conds s) l.

Section SyncServer.
Context (cfg : SimCfg) (D : nat) (m_reschedule_cost : Z).

(** [Sim()->getThreadManager()->stallThread], [resumeThread] *)
Definition kernel {A} (m : M A) : W A := zoom snd (fun x s => (s.1, x)) m.
Definition stall (t : nat) (reason : stall_type_t) (time : Z) : W (option Z) := kernel (sim_stall cfg D t reason time).
Definition resume (t by_ : nat) (time : Z) : W unit := kernel (sim_resume cfg D t (Some by_) time false).

(** ** SimMutex *)

(** The object that a pointer to a mutex refers to. *)
Definition the_mutex (k : Z) : W SimMutex :=
  s ← gets fst; match m_mutexes s !! k with Some m => mret m | None => fail NullDeref end.

Definition isLocked (k : Z) (t : nat) : W bool :=
  m ← the_mutex k;
  mret (match mx_owner m with None => false | Some o => negb (o =? t)%nat end).

Definition lock (k : Z) (t : nat) (time : Z) : W (option Z) :=
  m ← the_mutex k;
  match mx_owner m with
  | None => _ ← upd_sync (with_mutex k (mkMutex (mx_waiting m) (Some t))); mret (Some time)
  | Some _ =>
      _ ← upd_sync (with_mutex k (mkMutex (mx_waiting m ++ [t]) (mx_owner m)));
      stall t STALL_MUTEX time
  end.

Definition lock_async (k : Z) (t thread_by : nat) (time : Z) : W bool :=
  m ← the_mutex k;
  match mx_owner m with
  | None =>
      _ ← upd_sync (with_mutex k (mkMutex (mx_waiting m) (Some t)));
      _ ← resume t thread_by time;
      mret true
  | Some _ => _ ← upd_sync (with_mutex k (mkMutex (mx_waiting m ++ [t]) (mx_owner m))); mret false
  end.

(** The next owner. *)
Definition unlock (k : Z) (t : nat) (time : Z) : W (option nat) :=
  m ← the_mutex k;
  _ ← assertM (bool_decide (mx_owner m = Some t));
  match mx_waiting m with
  | [] => _ ← upd_sync (with_mutex k (mkMutex [] None)); mret None
  | w :: ws =>
      _ ← upd_sync (with_mutex k (mkMutex ws (Some w)));
      _ ← resume w t time;
      mret (Some w)
  end.

(** ** SimCond *)

Definition the_cond (k : Z) : W (list CondWaiter) :=
  s ← gets fst; match m_conds s !! k with Some l => mret l | None => fail NullDeref end.

Definition cond_wait (k : Z) (t : nat) (time : Z) (mux : Z) : W (option Z) :=
  _ ← unlock mux t time;
  l ← the_cond k;
  _ ← upd_sync (with_cond k (l ++ [mkCondWaiter t mux]));
  stall t STALL_COND time.

Definition cond_signal (k : Z) (t : nat) (time : Z) : W (option nat) :=
  l ← the_cond k;
  match l with
  | woken :: l =>
      _ ← upd_sync (with_cond k l);
      b ← lock_async (cw_mutex woken) (cw_thread_id woken) t time;
      mret (if b : bool then Some (cw_thread_id woken) else None)
  | [] => mret None
  end.

(** [while (!m_waiting.empty())]; nothing is added meanwhile *)
Fixpoint broadcast_loop (k : Z) (t : nat) (time : Z) (l : list CondWaiter) : W unit :=
  match l with
  | [] => mret tt
  | woken :: l =>
      _ ← upd_sync (with_cond k l);
      _ ← lock_async (cw_mutex woken) (cw_thread_id woken) t time;
      broadcast_loop k t time l
  end.
Definition cond_broadcast (k : Z) (t : nat) (time : Z) : W unit := l ← the_cond k; broadcast_loop k t time l.

(** ** SimBarrier *)

(** [m_barriers[i]] *)
Definition the_barrier (i : nat) : W SimBarrier := s ← gets fst; lift_res (aget (m_barriers s) i).
Definition set_barrier (i : nat) (b : SimBarrier) : W unit :=
  s ← gets fst; l ← lift_res (aset (m_barriers s) i b); upd_sync (with_barriers l).

Fixpoint release_all (i : nat) (count : Z) (t : nat) (time : Z) (l : list nat) : W unit :=
  match l with
  | [] => mret tt
  | w :: l => _ ← set_barrier i (mkSimBarrier l count); _ ← resume w t time; release_all i count t time l
  end.

Definition barrier_wait (i : nat) (t : nat) (time : Z) : W (option Z) :=
  b ← the_barrier i;
  if Z.of_nat (length (sb_waiting b)) =? u32 (sb_count b - 1) then
    _ ← release_all i (sb_count b) t time (sb_waiting b); mret (Some time)
  else
    _ ← set_barrier i (mkSimBarrier (sb_waiting b ++ [t]) (sb_count b));
    stall t STALL_BARRIER time.

(** ** SyncServer *)

Definition getMutex (mux : Z) (canCreate : bool) : W Z :=
  s ← gets fst;
  match m_mutexes s !! mux with
  | Some _ => mret mux
  | None => if canCreate then _ ← upd_sync (with_mutex mux SimMutex_new); mret mux else fail AssertFailed
  end.
Definition getCond (cond : Z) : W Z :=
  s ← gets fst;
  match m_conds s !! cond with Some _ => mret cond | None => _ ← upd_sync (with_cond cond []); mret cond end.

Definition mutexInit (t : nat) (mux : Z) : W unit := _ ← getMutex mux true; mret tt.

(** The time and whether the lock was taken; [None] if the caller blocks. *)
Definition mutexLock (t : nat) (mux : Z) (tryLock : bool) (time : Z) : W (option (Z * bool)) :=
  k ← getMutex mux true;
  locked ← (if tryLock then isLocked k t else mret false);
  if locked : bool then mret (Some (time, false))
  else r ← lock k t time; mret ((fun time_end => (st_add time_end m_reschedule_cost, true)) <$> r).

Definition mutexUnlock (t : nat) (mux : Z) (time : Z) : W Z :=
  k ← getMutex mux false;
  new_owner ← unlock k t (st_add time m_reschedule_cost);
  mret (st_add time (match new_owner with None => 0 | Some _ => m_reschedule_cost end)).

Definition condInit (t : nat) (cond : Z) : W unit := _ ← getCond cond; mret tt.
Definition condWait (t : nat) (cond mux : Z) (time : Z) : W (option Z) :=
  m ← getMutex mux true; c ← getCond cond; cond_wait c t time m.
Definition condSignal (t : nat) (cond : Z) (time : Z) : W Z :=
  c ← getCond cond; _ ← cond_signal c t time; mret time.
Definition condBroadcast (t : nat) (cond : Z) (time : Z) : W Z :=
  c ← getCond cond; _ ← cond_broadcast c t time; mret time.
Definition barrierInit (t : nat) (count : Z) : W nat :=
  s ← gets fst;
  _ ← upd_sync (with_barriers (m_barriers s ++ [mkSimBarrier [] count]));
  mret (length (m_barriers s)).
Definition barrierWait (t : nat) (barrier : nat) (time : Z) : W (option Z) := barrier_wait barrier t time.
End SyncServer.

(** ** The server changes the kernel's state only through the kernel's operations *)

Section kernel_use.
Context (cfg : SimCfg) (D : nat).

Definition through {A} (m : W A) : Prop := forall w, wlp m (fun _ w' => rtc (kstep cfg D) w.2 w'.2) w.

Lemma through_bind {A B} (m : W A) (f : A -> W B) : through m -> (forall a, through (f a)) -> through (mbind f m).
Proof.
  intros Hm Hf w. apply wpe_bind. eapply wpe_mono; [apply Hm|done|]. intros a w1 H1.
  eapply wpe_mono; [apply Hf|done|]. intros b w2 H2. revert H1 H2. apply (transitivity (R := rtc (kstep cfg D))).
Qed.
Lemma through_ret {A} (a : A) : through (mret a).
Proof. intros w. apply wpe_ret, rtc_refl. Qed.
Lemma through_gets {A} (f : World -> A) : through (gets f).
Proof. intros w. apply wpe_gets, rtc_refl. Qed.
Lemma through_fail {A} e : through (fail e : W A).
Proof. by intros w. Qed.
Lemma through_lift {A} (r : res A) : through (lift_res r).
Proof. intros w. apply wlp_lift. intros. apply rtc_refl. Qed.
Lemma through_upd f : through (upd_sync f).
Proof. intros w. apply wpe_modify, rtc_refl. Qed.
Lemma through_stall t r time : through (stall cfg D t r time).
Proof.
  intros w. apply wlp_intro. intros a w' E. unfold stall, kernel, zoom in E.
  destruct (sim_stall cfg D t r time w.2) as [[x s']|] eqn:Es; cbn in E; simplify_eq.
  apply rtc_once. by eapply k_stall.
Qed.
Lemma through_resume t u time : through (resume cfg D t u time).
Proof.
  intros w. apply wlp_intro. intros a w' E. unfold resume, kernel, zoom in E.
  destruct (sim_resume cfg D t (Some u) time false w.2) as [[[] s']|] eqn:Es; cbn in E; simplify_eq.
  apply rtc_once. by eapply k_resume.
Qed.
End kernel_use.

Create HintDb sync discriminated.
#[export] Hint Resolve through_ret through_gets through_fail through_lift through_upd through_stall through_resume : sync.

Ltac through_step :=
  match goal with
  | |- through _ _ (mbind _ _) => apply through_bind; [|intros ?]
  | |- through _ _ (match ?x with _ => _ end) => destruct x
  | |- through _ _ _ => solve [auto with sync]
  end.
Ltac through_auto := intros; repeat through_step.

Section kernel_use_ops.
Context (cfg : SimCfg) (D : nat) (cost : Z).

Lemma through_the_mutex k : through cfg D (the_mutex k).
Proof. unfold the_mutex. through_auto. Qed.
Lemma through_the_cond k : through cfg D (the_cond k).
Proof. unfold the_cond. through_auto. Qed.
Lemma through_set_barrier i b : through cfg D (set_barrier i b).
Proof. unfold set_barrier. through_auto. Qed.
Lemma through_getMutex k b : through cfg D (getMutex k b).
Proof. unfold getMutex. through_auto. Qed.
Lemma through_getCond k : through cfg D (getCond k).
Proof. unfold getCond. through_auto. Qed.
#[local] Hint Resolve through_the_mutex through_the_cond through_set_barrier through_getMutex through_getCond : sync.

Lemma through_lock k t time : through cfg D (lock cfg D k t time).
Proof. unfold lock. through_auto. Qed.
Lemma through_lock_async k t u time : through cfg D (lock_async cfg D k t u time).
Proof. unfold lock_async. through_auto. Qed.
Lemma through_unlock k t time : through cfg D (unlock cfg D k t time).
Proof. unfold unlock, assertM. through_auto. Qed.
#[local] Hint Resolve through_lock through_lock_async through_unlock : sync.

Lemma through_broadcast k t time l : through cfg D (broadcast_loop cfg D k t time l).
Proof. induction l as [|x l IH]; cbn [broadcast_loop]; through_auto. Qed.
Lemma through_release_all i c t time l : through cfg D (release_all cfg D i c t time l).
Proof. induction l as [|x l IH]; cbn [release_all]; through_auto. Qed.
#[local] Hint Resolve through_broadcast through_release_all : sync.

Lemma through_mutexLock t mux try time : through cfg D (mutexLock cfg D cost t mux try time).
Proof. unfold mutexLock, isLocked. through_auto. Qed.
Lemma through_mutexUnlock t mux time : through cfg D (mutexUnlock cfg D cost t mux time).
Proof. unfold mutexUnlock. through_auto. Qed.
Lemma through_condWait t c mux time : through cfg D (condWait cfg D t c mux time).
Proof. unfold condWait, cond_wait. through_auto. Qed.
Lemma through_condSignal t c time : through cfg D (condSignal cfg D t c time).
Proof. unfold condSignal, cond_signal. through_auto. Qed.
Lemma through_condBroadcast t c time : through cfg D (condBroadcast cfg D t c time).
Proof. unfold condBroadcast, cond_broadcast. through_auto. Qed.
Lemma through_barrierInit t n : through cfg D (barrierInit t n).
Proof. unfold barrierInit. through_auto. Qed.
Lemma through_barrierWait t i time : through cfg D (barrierWait cfg D t i time).
Proof. unfold barrierWait, barrier_wait, the_barrier. through_auto. Qed.
End kernel_use_ops.

(** A run of the whole: steps of the kernel and calls of the server. *)
Inductive wstep (cfg : SimCfg) (D : nat) (cost : Z) (w w' : World) : Prop :=
  | w_kernel : kstep cfg D w.2 w'.2 -> w'.1 = w.1 -> wstep cfg D cost w w'
  | w_lock t mux try time r : mutexLock cfg D cost t mux try time w = Ok (r, w') -> wstep cfg D cost w w'
  | w_unlock t mux time r : mutexUnlock cfg D cost t mux time w = Ok (r, w') -> wstep cfg D cost w w'
  | w_cond_wait t c mux time r : condWait cfg D t c mux time w = Ok (r, w') -> wstep cfg D cost w w'
  | w_signal t c time r : condSignal cfg D t c time w = Ok (r, w') -> wstep cfg D cost w w'
  | w_broadcast t c time r : condBroadcast cfg D t c time w = Ok (r, w') -> wstep cfg D cost w w'
  | w_barrier_init t n r : barrierInit t n w = Ok (r, w') -> wstep cfg D cost w w'
  | w_barrier_wait t i time r : barrierWait cfg D t i time w = Ok (r, w') -> wstep cfg D cost w w'.

Lemma wstep_through cfg D cost w w' : wstep cfg D cost w w' -> rtc (kstep cfg D) w.2 w'.2.
Proof.
  assert (forall A (m : W A) a, through cfg D m -> m w = Ok (a, w') -> rtc (kstep cfg D) w.2 w'.2) as Ht.
  { intros A m a Hm E. exact (wpe_ok _ _ _ _ _ _ (Hm w) E). }
  intros [E _|t mux try time r E|t mux time r E|t c mux time r E|t c time r E|t c time r E|t n r E|t i time r E].
  - by apply rtc_once.
  - eapply Ht, E. apply through_mutexLock.
  - eapply Ht, E. apply through_mutexUnlock.
  - eapply Ht, E. apply through_condWait.
  - eapply Ht, E. apply through_condSignal.
  - eapply Ht, E. apply through_condBroadcast.
  - eapply Ht, E. apply through_barrierInit.
  - eapply Ht, E. apply through_barrierWait.
Qed.

(** ** Mutexes are first-come first-served queues *)

(** The owner and, behind it, the threads that wait. *)
Definition abs_mutex (m : SimMutex) : list nat := match mx_owner m with Some o => o :: mx_waiting m | None => [] end.
(** A mutex without an owner has no waiters. *)
Definition mutex_ok (m : SimMutex) : Prop := mx_owner m = None -> mx_waiting m = [].

(** The mutex [k] of the world is the queue [q]. *)
Definition is_queue (w : World) (k : Z) (q : list nat) : Prop :=
  exists m, m_mutexes w.1 !! k = Some m /\ mutex_ok m /\ abs_mutex m = q.

(** Nothing of the server but the mutex [k] changed. *)
Definition only_mutex (k : Z) (w w' : World) : Prop :=
  (forall k', k' <> k -> m_mutexes w'.1 !! k' = m_mutexes w.1 !! k') /\ m_conds w'.1 = m_conds w.1 /\ m_barriers w'.1 = m_barriers w.1.

Lemma with_mutex_queue k m (w : World) s : mutex_ok m -> is_queue (with_mutex k m w.1, s) k (abs_mutex m).
Proof. intros Hm. exists m. split_and!; [apply lookup_insert_eq|done|done]. Qed.

Lemma with_mutex_only k m (w : World) s : only_mutex k w (with_mutex k m w.1, s).
Proof. split_and!; try done. intros k' Hk. cbn. by rewrite lookup_insert_ne. Qed.

Section mutexes.
Context (cfg : SimCfg) (D : nat) (cost : Z).

Lemma wlp_kernel {A} (m : M A) (w : World) (Q : A -> World -> Prop) :
  (forall a s, m w.2 = Ok (a, s) -> Q a (w.1, s)) -> wlp (kernel m) Q w.
Proof.
  intros HQ. apply wlp_intro. intros a w' E. unfold kernel, zoom in E.
  destruct (m w.2) as [[x s]|] eqn:Em; cbn in E; simplify_eq. by apply HQ.
Qed.

Lemma wpe_the_mutex E k m (w : World) (Q : SimMutex -> World -> Prop) :
  m_mutexes w.1 !! k = Some m -> Q m w -> wpe E (the_mutex k) Q w.
Proof. intros Hm HQ. apply wpe_bind, wpe_gets. rewrite Hm. by apply wpe_ret. Qed.

Lemma abs_mutex_cases m : mutex_ok m ->
  mx_owner m = None /\ abs_mutex m = [] /\ mx_waiting m = [] \/ exists o, mx_owner m = Some o /\ abs_mutex m = o :: mx_waiting m.
Proof. unfold mutex_ok, abs_mutex. destruct (mx_owner m) as [o|]; intros Hm; [right; eauto|left; auto]. Qed.

(** The calling thread joins the queue; it has the lock at once if the queue was empty. *)
Lemma wlp_lock k t time q w :
  is_queue w k q ->
  wlp (lock cfg D k t time) (fun r w' => is_queue w' k (q ++ [t]) /\ (q = [] -> r = Some time) /\ only_mutex k w w') w.
Proof.
  intros (m & Hm & Hok & <-). apply wpe_bind. eapply wpe_the_mutex; [done|].
  destruct (abs_mutex_cases m Hok) as [(Eo & Ea & Ew)|(o & Eo & Ea)]; rewrite Eo, Ea.
  - apply wpe_bind, wpe_modify, wpe_ret. cbn [fst snd]. split_and!; try done.
    + rewrite Ew. by apply (with_mutex_queue k (mkMutex [] (Some t))).
    + apply with_mutex_only.
  - apply wpe_bind, wpe_modify. apply wlp_kernel. intros a s _. cbn [fst snd]. split_and!; try done.
    + by eapply with_mutex_queue.
    + apply with_mutex_only.
Qed.

Lemma wlp_lock_async k t u time q w :
  is_queue w k q ->
  wlp (lock_async cfg D k t u time) (fun r w' => is_queue w' k (q ++ [t]) /\ r = bool_decide (q = []) /\ only_mutex k w w') w.
Proof.
  intros (m & Hm & Hok & <-). apply wpe_bind. eapply wpe_the_mutex; [done|].
  destruct (abs_mutex_cases m Hok) as [(Eo & Ea & Ew)|(o & Eo & Ea)]; rewrite Eo, Ea.
  - apply wpe_bind, wpe_modify, wpe_bind, wlp_kernel. intros a s _. apply wpe_ret. cbn [fst snd]. split_and!; try done.
    + rewrite Ew. by apply (with_mutex_queue k (mkMutex [] (Some t))).
    + apply with_mutex_only.
  - apply wpe_bind, wpe_modify, wpe_ret. cbn [fst snd]. split_and!; try done.
    + by eapply with_mutex_queue.
    + apply with_mutex_only.
Qed.

(** The owner leaves the queue; the next thread has the lock. *)
Lemma wlp_unlock k t time q w :
  is_queue w k q ->
  wlp (unlock cfg D k t time) (fun r w' => exists q', q = t :: q' /\ is_queue w' k q' /\ r = head q' /\ only_mutex k w w') w.
Proof.
  intros (m & Hm & Hok & <-). apply wpe_bind. eapply wpe_the_mutex; [done|]. apply wpe_bind, wlp_assert.
  intros Eo%bool_decide_eq_true. unfold abs_mutex at 1. rewrite Eo. destruct (mx_waiting m) as [|x ws] eqn:Ew.
  - apply wpe_bind, wpe_modify, wpe_ret. exists []. cbn [fst snd]. split_and!; try done.
    + by eapply with_mutex_queue.
    + apply with_mutex_only.
  - apply wpe_bind, wpe_modify, wpe_bind, wlp_kernel. intros a s _. apply wpe_ret. exists (x :: ws). cbn [fst snd].
    split_and!; try done.
    + by eapply with_mutex_queue.
    + apply with_mutex_only.
Qed.
End mutexes.

(** Requests of the application for one mutex, in the order in which the server serves them. *)
Inductive mutex_request := Lock (t : nat) (time : Z) | Unlock (t : nat) (time : Z).

(** The specification: a queue of threads, the first of which has the lock. *)
Definition spec_request (q : list nat) (r : mutex_request) : option (list nat) :=
  match r, q with
  | Lock t _, _ => Some (q ++ [t])
  | Unlock t _, x :: q => if decide (x = t) then Some q else None
  | Unlock _ _, [] => None
  end.
Fixpoint spec_requests (q : list nat) (l : list mutex_request) : option (list nat) :=
  match l with [] => Some q | r :: l => q ← spec_request q r; spec_requests q l end.

Section fifo.
Context (cfg : SimCfg) (D : nat) (cost : Z).

Definition serve (mux : Z) (r : mutex_request) : W unit :=
  match r with
  | Lock t time => _ ← mutexLock cfg D cost t mux false time; mret tt
  | Unlock t time => _ ← mutexUnlock cfg D cost t mux time; mret tt
  end.
Fixpoint serve_all (mux : Z) (l : list mutex_request) : W unit :=
  match l with [] => mret tt | r :: l => _ ← serve mux r; serve_all mux l end.

Lemma wpe_getMutex E mux q b (w : World) (Q : Z -> World -> Prop) :
  is_queue w mux q -> Q mux w -> wpe E (getMutex mux b) Q w.
Proof. intros (m & Hm & _) HQ. apply wpe_bind, wpe_gets. rewrite Hm. by apply wpe_ret. Qed.

Lemma wlp_serve mux r q w :
  is_queue w mux q -> wlp (serve mux r) (fun _ w' => exists q', spec_request q r = Some q' /\ is_queue w' mux q') w.
Proof.
  intros Hq. destruct r as [t time|t time]; cbn [serve].
  - apply wpe_bind, wpe_bind. eapply wpe_getMutex; [done|]. apply wpe_bind, wpe_ret, wpe_bind.
    eapply wpe_mono; [by apply wlp_lock|done|]. intros r w' (Hq' & _). apply wpe_ret, wpe_ret. by exists (q ++ [t]).
  - apply wpe_bind, wpe_bind. eapply wpe_getMutex; [done|]. apply wpe_bind.
    eapply wpe_mono; [by apply wlp_unlock|done|]. intros r w' (q' & -> & Hq' & _). apply wpe_ret, wpe_ret. exists q'.
    cbn. by rewrite decide_True.
Qed.

Lemma wlp_serve_all mux l q w :
  is_queue w mux q -> wlp (serve_all mux l) (fun _ w' => exists q', spec_requests q l = Some q' /\ is_queue w' mux q') w.
Proof.
  revert q w. induction l as [|r l IH]; intros q w Hq; cbn [serve_all spec_requests]; [apply wpe_ret; eauto|].
  apply wpe_bind. eapply wpe_mono; [by apply wlp_serve|done|]. intros _ w1 (q1 & E1 & H1). rewrite E1. by apply IH.
Qed.

(** C27: a mutex serves its threads first come, first served, and excludes them mutually: whatever sequence of lock and unlock
    calls the server carries out, its mutex goes through the states of a queue that each lock joins at the end and each
    unlock leaves at the head, only the thread at the head being able to unlock; a mutex without an owner has no waiters. *)
Theorem mutex_refines_fifo (mux : Z) (l : list mutex_request) (q : list nat) (w w' : World) :
  is_queue w mux q -> serve_all mux l w = Ok (tt, w') ->
  exists q', spec_requests q l = Some q' /\ is_queue w' mux q'.
Proof. intros Hq E. exact (wpe_ok _ _ _ _ _ _ (wlp_serve_all mux l q w Hq) E). Qed.

(** an unlock by a thread that does not own the mutex fails the assertion, and changes nothing. *)
Theorem unlock_not_owner (t : nat) (mux time : Z) (q : list nat) (w : World) :
  is_queue w mux q -> head q <> Some t -> mutexUnlock cfg D cost t mux time w = Err AssertFailed.
Proof.
  intros (m & Hm & Hok & <-) Hne. unfold mutexUnlock, getMutex, unlock, the_mutex, gets, mbind, st_bind. cbn. rewrite Hm. cbn.
  unfold gets, mbind, st_bind. rewrite Hm. cbn. rewrite bool_decide_false; [done|]. intros Ho. apply Hne. unfold abs_mutex. by rewrite Ho.
Qed.
End fifo.

(** Two threads on the example's cores contend for the mutex at address 64. *)
Definition ex_world : World := (with_mutex 64 SimMutex_new SyncServer_new, ex_started).

Definition afterW {A} (m : W A) (w : World) : World := match m w with Ok (_, w') => w' | Err _ => w end.

Lemma mutex_refines_fifo_witness :
  let reqs := [Lock 0 10; Lock 1 20; Unlock 0 30] in
  let w' := afterW (serve_all ex_cfg 6 0 64 reqs) ex_world in
  exists q', spec_requests [] reqs = Some q' /\ is_queue w' 64 q'.
Proof.
  intros reqs w'. apply (mutex_refines_fifo ex_cfg 6 0 64 reqs [] ex_world w').
  - exists SimMutex_new. split_and!; [reflexivity|done|done].
  - subst w'. unfold afterW. destruct (serve_all ex_cfg 6 0 64 reqs ex_world) as [[[] w']|] eqn:E; [done|].
    exfalso. apply (f_equal (fun r => match r with Ok _ => true | Err _ => false end)) in E. vm_compute in E. discriminate.
Defined.

Lemma unlock_not_owner_witness : mutexUnlock ex_cfg 6 0 1 64 50 ex_world = Err AssertFailed.
Proof. apply (unlock_not_owner ex_cfg 6 0 1 64 50 []); [|done]. exists SimMutex_new. split_and!; [reflexivity|done|done]. Defined.

(** a thread that tries to take a mutex it already owns does not get told that it is taken: it is stalled, queued behind
    itself, and only it could release the mutex. *)
Theorem trylock_owner_deadlocks (cfg : SimCfg) (D : nat) (cost : Z) (t : nat) (mux time : Z) (q : list nat)
    (w w' : World) (r : option (Z * bool)) :
  is_queue w mux (t :: q) -> mutexLock cfg D cost t mux true time w = Ok (r, w') -> is_queue w' mux (t :: q ++ [t]).
Proof.
  intros Hq E. refine (wpe_ok (fun _ => True) _ (fun _ w' => is_queue w' mux (t :: q ++ [t])) _ _ _ _ E).
  destruct (Hq) as (m & Hm & Hok & Ha). apply wpe_bind. eapply wpe_getMutex; [done|]. apply wpe_bind, wpe_bind. eapply wpe_the_mutex; [done|].
  assert (mx_owner m = Some t) as -> by (unfold abs_mutex in Ha; destruct (mx_owner m); by simplify_eq).
  rewrite Nat.eqb_refl. apply wpe_ret, wpe_bind. eapply wpe_mono; [by apply wlp_lock|done|]. intros ? w1 (Hq1 & _). by apply wpe_ret.
Qed.

Lemma trylock_owner_deadlocks_witness :
  let w := (with_mutex 64 (mkMutex [] (Some 0%nat)) SyncServer_new, ex_started) in
  is_queue (afterW (mutexLock ex_cfg 6 0 0 64 true 10) w) 64 [0; 0]%nat.
Proof.
  intros w. unfold afterW. destruct (mutexLock ex_cfg 6 0 0 64 true 10 w) as [[r w']|] eqn:E.
  - apply (trylock_owner_deadlocks ex_cfg 6 0 0 64 10 [] w w' r); [|done].
    exists (mkMutex [] (Some 0%nat)). split_and!; [reflexivity|done|done].
  - exfalso. apply (f_equal (fun r => match r with Ok _ => true | Err _ => false end)) in E. vm_compute in E. discriminate.
Defined.

(** ** Condition variables lose no waiter *)

Section conditions.
Context (cfg : SimCfg) (D : nat).

Lemma wlp_broadcast_loop k t time mux l q w :
  Forall (fun x => cw_mutex x = mux) l -> m_conds w.1 !! k = Some l -> is_queue w mux q ->
  wlp (broadcast_loop cfg D k t time l)
    (fun _ w' => is_queue w' mux (q ++ (cw_thread_id <$> l)) /\ m_conds w'.1 !! k = Some []) w.
Proof.
  revert q w. induction l as [|x l IH]; intros q w Hl Hc Hq; cbn [broadcast_loop].
  { apply wpe_ret. rewrite app_nil_r. done. }
  apply Forall_cons in Hl as [Hx Hl]. apply wpe_bind, wpe_modify, wpe_bind. rewrite Hx.
  eapply wpe_mono; [apply wlp_lock_async; exact Hq|done|]. intros b w1 (Hq1 & _ & _ & Hc1 & _).
  eapply wpe_mono; [apply (IH (q ++ [cw_thread_id x])); [done| |done]|done|].
  - rewrite Hc1. apply lookup_insert_eq.
  - intros _ w2 [Hq2 Hc2]. split; [|done]. by rewrite <- app_assoc in Hq2.
Qed.

(** a broadcast wakes every waiter of a condition variable, in the order in which they waited: afterwards none waits on
    it any more, and all of them own or queue for the mutex that they released, behind the threads that did before. *)
Theorem broadcast_requeues_all (t : nat) (cond mux time : Z) (l : list CondWaiter) (q : list nat) (w w' : World) (r : Z) :
  m_conds w.1 !! cond = Some l -> Forall (fun x => cw_mutex x = mux) l -> is_queue w mux q ->
  condBroadcast cfg D t cond time w = Ok (r, w') ->
  is_queue w' mux (q ++ (cw_thread_id <$> l)) /\ m_conds w'.1 !! cond = Some [].
Proof.
  intros Hc Hl Hq E. refine (wpe_ok (fun _ => True) _ (fun _ w' => is_queue w' mux (q ++ (cw_thread_id <$> l)) /\ m_conds w'.1 !! cond = Some []) _ _ _ _ E).
  unfold condBroadcast. apply wpe_bind. unfold getCond. apply wpe_bind, wpe_gets. rewrite Hc. apply wpe_ret, wpe_bind, wpe_bind, wpe_bind, wpe_gets.
  rewrite Hc. apply wpe_ret. eapply wpe_mono; [by apply wlp_broadcast_loop|done|]. intros ? w1 H1. by apply wpe_ret.
Qed.
End conditions.

Lemma broadcast_requeues_all_witness :
  let w := (with_cond 128 [mkCondWaiter 1 64; mkCondWaiter 2 64] (with_mutex 64 (mkMutex [] (Some 0%nat)) SyncServer_new), ex_started) in
  let w' := afterW (condBroadcast ex_cfg 6 0 128 10) w in
  is_queue w' 64 [0; 1; 2]%nat /\ m_conds w'.1 !! 128 = Some [].
Proof.
  intros w w'. subst w'. unfold afterW. destruct (condBroadcast ex_cfg 6 0 128 10 w) as [[r w']|] eqn:E.
  - apply (broadcast_requeues_all ex_cfg 6 0 128 64 10 [mkCondWaiter 1 64; mkCondWaiter 2 64] [0%nat] w w' r); [reflexivity| | |done].
    + repeat constructor.
    + exists (mkMutex [] (Some 0%nat)). split_and!; [reflexivity|done|done].
  - exfalso. apply (f_equal (fun r => match r with Ok _ => true | Err _ => false end)) in E. vm_compute in E. discriminate.
Defined.

(** ** Barriers *)

Section barriers.
Context (cfg : SimCfg) (D : nat).

Lemma wlp_set_barrier i b b' (w : World) (Q : unit -> World -> Prop) :
  m_barriers w.1 !! i = Some b -> Q tt (with_barriers (<[i := b']> (m_barriers w.1)) w.1, w.2) -> wlp (set_barrier i b') Q w.
Proof.
  intros Hb HQ. apply wpe_bind, wpe_gets, wpe_bind. eapply wpe_lift; [apply aset_lt; by eapply lookup_lt_Some|]. by apply wpe_modify.
Qed.

Lemma wlp_release_all i c t time l b (w : World) :
  m_barriers w.1 !! i = Some b -> (l = [] -> b = mkSimBarrier [] c) ->
  wlp (release_all cfg D i c t time l) (fun _ w' => m_barriers w'.1 !! i = Some (mkSimBarrier [] c)) w.
Proof.
  revert b w. induction l as [|x l IH]; intros b w Hb Hl; cbn [release_all]; [apply wpe_ret; by rewrite Hl in Hb|].
  apply wpe_bind. eapply wlp_set_barrier; [done|]. apply wpe_bind, wlp_kernel. intros [] s _.
  apply (IH (mkSimBarrier l c)); [|by intros ->]. cbn. apply list_lookup_insert_eq. by eapply lookup_lt_Some.
Qed.

Lemma wlp_barrier_wait i t time q c w :
  0 < c < 2 ^ 32 -> Z.of_nat (length q) < c -> m_barriers w.1 !! i = Some (mkSimBarrier q c) ->
  wlp (barrier_wait cfg D i t time) (fun r w' =>
    m_barriers w'.1 !! i = Some (mkSimBarrier (if Z.of_nat (S (length q)) =? c then [] else q ++ [t]) c) /\
    (Z.of_nat (S (length q)) = c -> r = Some time)) w.
Proof.
  intros Hc Hq Hb. apply wpe_bind, wpe_bind, wpe_gets. eapply wpe_lift; [by apply aget_ok|]. cbn [sb_waiting sb_count].
  assert (u32 (c - 1) = c - 1) as -> by (apply wrap_small; lia).
  destruct (Z.eqb_spec (Z.of_nat (length q)) (c - 1)) as [E|E].
  - apply wpe_bind. eapply wpe_mono; [eapply wlp_release_all; [done|by intros ->]|done|]. intros ? w1 H1. apply wpe_ret.
    rewrite (proj2 (Z.eqb_eq _ _)) by lia. done.
  - apply wpe_bind. eapply wlp_set_barrier; [done|]. apply wlp_kernel. intros a s _. cbn [fst].
    rewrite (proj2 (Z.eqb_neq _ _)) by lia. split; [|lia]. cbn. apply list_lookup_insert_eq. by eapply lookup_lt_Some.
Qed.

(** A sequence of arrivals, and whether each thread may go on at once. *)
Fixpoint arrivals (i : nat) (ts : list (nat * Z)) : W (list (option Z)) :=
  match ts with
  | [] => mret []
  | (t, time) :: ts => r ← barrierWait cfg D t i time; rs ← arrivals i ts; mret (r :: rs)
  end.

Lemma wlp_arrivals i c ts q w :
  0 < c < 2 ^ 32 -> Z.of_nat (length q) < c -> m_barriers w.1 !! i = Some (mkSimBarrier q c) ->
  wlp (arrivals i ts) (fun _ w' => m_barriers w'.1 !! i =
    Some (mkSimBarrier (drop ((length q + length ts) / Z.to_nat c * Z.to_nat c) (q ++ ts.*1)) c)) w.
Proof.
  intros Hc. revert q w. induction ts as [|[t time] ts IH]; intros q w Hq Hb; cbn [arrivals].
  { apply wpe_ret. rewrite app_nil_r, Nat.add_0_r, Nat.div_small by lia. done. }
  apply wpe_bind. eapply wpe_mono; [by apply wlp_barrier_wait|done|]. intros r w1 [H1 _]. apply wpe_bind.
  destruct (Z.eqb_spec (Z.of_nat (S (length q))) c) as [E|E].
  - eapply wpe_mono; [apply (IH []); [cbn; lia|done]|done|]. intros rs w2 H2. apply wpe_ret. rewrite H2. do 2 f_equal. cbn [length app].
    replace (length q + S (length ts))%nat with (length ts + 1 * Z.to_nat c)%nat by lia. rewrite Nat.div_add by lia.
    replace ((length ts / Z.to_nat c + 1) * Z.to_nat c)%nat with (length (q ++ [t]) + length ts / Z.to_nat c * Z.to_nat c)%nat
      by (rewrite length_app; cbn; lia).
    change ((t, time) :: ts).*1 with ([t] ++ ts.*1). by rewrite (app_assoc q [t]), drop_app_add.
  - eapply wpe_mono; [apply (IH (q ++ [t])); [rewrite length_app; cbn; lia|done]|done|]. intros rs w2 H2. apply wpe_ret.
    rewrite H2. do 2 f_equal. cbn. rewrite <- app_assoc, length_app. cbn. by replace (length q + 1 + length ts)%nat with (length q + S (length ts))%nat by lia.
Qed.

(** a barrier of [c] threads works in rounds: whatever threads have arrived at it one after the other, those that wait are
    exactly the arrivals since the last multiple of [c], so each [c]-th arrival empties it. *)
Theorem barrier_rounds (i : nat) (c : Z) (ts : list (nat * Z)) (rs : list (option Z)) (w w' : World) :
  0 < c < 2 ^ 32 -> m_barriers w.1 !! i = Some (mkSimBarrier [] c) -> arrivals i ts w = Ok (rs, w') ->
  m_barriers w'.1 !! i = Some (mkSimBarrier (drop (length ts / Z.to_nat c * Z.to_nat c) ts.*1) c).
Proof.
  intros Hc Hb E. refine (wpe_ok (fun _ => True) _ (fun _ w' => m_barriers w'.1 !! i = _) _ _ _ _ E).
  apply (wlp_arrivals i c ts []); [done|cbn; lia|done].
Qed.
End barriers.

Lemma barrier_rounds_witness :
  let w := (with_barriers [mkSimBarrier [] 2] SyncServer_new, ex_started) in
  m_barriers (afterW (arrivals ex_cfg 6 0 [(0%nat, 10); (1%nat, 20)]) w).1 !! 0%nat = Some (mkSimBarrier [] 2).
Proof.
  intros w. unfold afterW. destruct (arrivals ex_cfg 6 0 [(0%nat, 10); (1%nat, 20)] w) as [[rs w']|] eqn:E.
  - exact (barrier_rounds ex_cfg 6 0 2 [(0%nat, 10); (1%nat, 20)] rs w w' ltac:(lia) eq_refl E).
  - exfalso. apply (f_equal (fun r => match r with Ok _ => true | Err _ => false end)) in E. vm_compute in E. discriminate.
Defined.

(** The server and the kernel together, in any order of calls from the start of the simulator: the kernel still only takes
    steps of its own, so all that holds of the states it can reach holds here. *)
Lemma sync_server_through_kernel (cfg : SimCfg) (D N : nat) (cost quantum : Z) (mapping : list (nat * nat * nat)) (w : World) :
  rtc (wstep cfg D cost) (SyncServer_new, Sim_new (sim_sched cfg) N quantum mapping) w ->
  rtc (kstep cfg D) (Sim_new (sim_sched cfg) N quantum mapping) w.2.
Proof.
  intros Hr. apply (rtc_congruence snd (rtc (kstep cfg D))) in Hr; [|intros; by eapply wstep_through].
  cbn in Hr. revert Hr. generalize (Sim_new (sim_sched cfg) N quantum mapping), w.2. intros s s' Hr.
  induction Hr as [s|s1 s2 s3 H1 _ IH]; [apply rtc_refl|]. revert H1 IH. apply (transitivity (R := rtc (kstep cfg D))).
Qed.
