(* ===== verification/FutexFifo.v ===== *)
(** * Futexes wake their waiters in order

    What FUTEX_WAKE and FUTEX_WAKE_BITSET of SyscallServer do to the queues of waiting
    threads and to the threads that they take from them.  Resuming a thread, with all the
    rescheduling that it causes, leaves the queues alone and lets no thread that runs wait
    again; this holds in every state.  That the calls succeed is shown of the states that
    the kernel can reach. *)

From stdpp Require Import gmap.
From S2P Require Import Prelude StateMonad SubsecondTime SimState ThreadManager SchedulerPinned SyscallServer BarrierSyncServer Simulator SchedulerConsistency KernelInvariant Kernel.

(** ** Threads that have been woken *)

(** The thread has been signalled with success, runs for the thread manager and may run for the
    scheduler. *)
Definition awake (s : Sim) (t : nat) : Prop :=
  (exists th, m_threads (s_tm s) !! t = Some th /\ th_in_wait th = false /\ m_wakeup_msg th = true) /\
  (exists st, m_thread_state (s_tm s) !! t = Some st /\ status st = RUNNING) /\
  m_threads_runnable (s_sched s) !! t = Some true.

(** The futexes stay as they are, and so do the threads that have been woken. *)
Definition steady (s s' : Sim) : Prop := s_sys s' = s_sys s /\ forall t, awake s t -> awake s' t.

#[global] Instance steady_preorder : PreOrder steady.
Proof. split; [done|]. intros s1 s2 s3 [E1 A1] [E2 A2]. split; [congruence|auto]. Qed.

Definition quiet {A} (m : M A) : Prop := forall s, wlp m (fun _ s' => steady s s') s.

Lemma quiet_bind {A B} (m : M A) (f : A -> M B) : quiet m -> (forall a, quiet (f a)) -> quiet (mbind f m).
Proof.
  intros Hm Hf s. apply wpe_bind. eapply wpe_mono; [apply Hm|done|]. intros a s1 H1.
  eapply wpe_mono; [apply Hf|done|]. intros b s2 H2. etrans; [exact H1|exact H2].
Qed.
Lemma quiet_ret {A} (a : A) : quiet (mret a).
Proof. intros s. apply wpe_ret. reflexivity. Qed.
Lemma quiet_gets {A} (f : Sim -> A) : quiet (gets f).
Proof. intros s. apply wpe_gets. reflexivity. Qed.
Lemma quiet_fail {A} e : quiet (fail e : M A).
Proof. by intros s. Qed.
Lemma quiet_lift {A} (r : res A) : quiet (lift_res r).
Proof. intros s. apply wlp_lift. intros a _. reflexivity. Qed.
Lemma quiet_assert b : quiet (assertM b).
Proof. apply quiet_lift. Qed.
Lemma quiet_bar f : quiet (upd_bar f).
Proof. intros s. by apply wpe_modify. Qed.
Lemma quiet_sched f : (forall x, m_threads_runnable (f x) = m_threads_runnable x) -> quiet (upd_sched f).
Proof. intros Hf s. apply wpe_modify. split; [done|]. intros t. unfold awake. cbn. by rewrite Hf. Qed.

(** The thread manager keeps its threads and their states. *)
Lemma quiet_tm f :
  (forall m, m_threads (f m) = m_threads m /\ m_thread_state (f m) = m_thread_state m) -> quiet (upd_tm f).
Proof.
  intros Hf s. apply wpe_modify. split; [done|]. intros t. unfold awake. cbn. by destruct (Hf (s_tm s)) as [-> ->].
Qed.

Create HintDb quiet discriminated.
#[export] Hint Resolve quiet_ret quiet_gets quiet_fail quiet_lift quiet_assert quiet_bar : quiet.

(** Follow the structure of an operation. *)
Ltac quiet_step :=
  match goal with
  | H : ?P |- ?P => exact H
  | |- quiet (mbind _ _) => apply quiet_bind; [|intros ?]
  | |- quiet (match ?x with _ => _ end) => destruct x
  | |- quiet (let _ := _ in _) => cbv zeta
  | |- quiet _ => solve [auto with quiet]
  end.
Ltac quiet_auto := intros; repeat quiet_step.

(** *** Threads and cores *)

Lemma quiet_thread t f :
  (forall th, th_in_wait (f th) = th_in_wait th /\ m_wakeup_msg (f th) = m_wakeup_msg th) -> quiet (upd_thread t f).
Proof.
  intros Hf s. apply wpe_bind, wpe_bind, wpe_gets. destruct (m_threads (s_tm s) !! t) as [th|] eqn:Et; [|apply wlp_fail].
  apply wpe_ret, wpe_modify. split; [done|]. intros u ((th' & Hu & Hw & Hm) & Hst & Hr). split; [|done]. cbn.
  destruct (decide (u = t)) as [->|]; [|by exists th'; rewrite list_lookup_insert_ne].
  exists (f th). rewrite list_lookup_insert_eq by (by eapply lookup_lt_Some). destruct (Hf th) as [-> ->]. by simplify_eq.
Qed.

Lemma quiet_core c f : quiet (upd_core c f).
Proof. unfold upd_core, getCoreFromID. quiet_auto. by apply quiet_tm. Qed.
Lemma quiet_running t : quiet (set_status t RUNNING).
Proof.
  intros s. apply wpe_bind, wpe_bind, wpe_gets, wlp_lift. intros st Hst%aget_ok. apply wpe_modify. split; [done|].
  intros u (Hth & (st' & Hu & Hs) & Hr). split_and!; [done| |done]. cbn. destruct (decide (u = t)) as [->|].
  - eexists. by rewrite list_lookup_insert_eq by (by eapply lookup_lt_Some).
  - exists st'. by rewrite list_lookup_insert_ne.
Qed.
Lemma quiet_runnable t : quiet (set_runnable t true).
Proof.
  intros s. apply wlp_set_runnable. intros Ht. split; [done|]. intros u (Hth & Hst & Hr). split_and!; [done|done|]. cbn.
  destruct (decide (u = t)) as [->|]; [by rewrite list_lookup_insert_eq|by rewrite list_lookup_insert_ne].
Qed.
Lemma quiet_getThread t : quiet (getThreadFromID t).
Proof. unfold getThreadFromID. quiet_auto. Qed.
Lemma quiet_getCore c : quiet (getCoreFromID c).
Proof. unfold getCoreFromID. quiet_auto. Qed.
Lemma quiet_thread_state t : quiet (thread_state t).
Proof. unfold thread_state. quiet_auto. Qed.
#[export] Hint Resolve quiet_core quiet_running quiet_runnable quiet_getThread quiet_getCore quiet_thread_state : quiet.

Lemma quiet_setState c x : quiet (setState c x).
Proof. apply quiet_core. Qed.
Lemma quiet_setCore t x : quiet (setCore t x).
Proof. unfold setCore, setThread. quiet_auto. by apply quiet_thread. Qed.
Lemma quiet_getThreadState t : quiet (getThreadState t).
Proof. unfold getThreadState. quiet_auto. Qed.
#[export] Hint Resolve quiet_setState quiet_setCore quiet_getThreadState : quiet.

(** *** The scheduler *)

Lemma quiet_thread_info t : quiet (thread_info t).
Proof. unfold thread_info. quiet_auto. Qed.
Lemma quiet_upd_info t f : quiet (upd_info t f).
Proof. unfold upd_info. quiet_auto. by apply quiet_sched. Qed.
Lemma quiet_core_thread c : quiet (core_thread_running c).
Proof. unfold core_thread_running. quiet_auto. Qed.
Lemma quiet_set_core_thread c x : quiet (set_core_thread_running c x).
Proof. unfold set_core_thread_running. quiet_auto. by apply quiet_sched. Qed.
Lemma quiet_set_quantum c q : quiet (set_quantum_left c q).
Proof. unfold set_quantum_left. quiet_auto. by apply quiet_sched. Qed.
Lemma quiet_findFree t : quiet (findFreeCoreForThread t).
Proof. unfold findFreeCoreForThread, num_cores. quiet_auto. Qed.
#[export] Hint Resolve quiet_thread_info quiet_upd_info quiet_core_thread quiet_set_core_thread quiet_set_quantum quiet_findFree : quiet.

(** *** The barrier *)

Lemma quiet_for_cores k c body : (forall d, quiet (body d)) -> quiet (for_cores k c body).
Proof. intros Hb. revert c. induction k as [|k IH]; intros c; cbn [for_cores]; quiet_auto. Qed.
Lemma quiet_releaseThread t : quiet (releaseThread t).
Proof.
  unfold releaseThread, cores_loop, doRelease. quiet_auto.
  - apply quiet_for_cores. unfold acquired, barrier_thread, set_local_clock. quiet_auto.
  - apply quiet_tm. generalize (reverse (drop (length (m_to_release a0) - 1) (m_to_release a0))). intros l.
    induction l as [|x l IH]; intros m; cbn; [done|]. by destruct (IH (tm_emit (CoreSignal x) m)) as [-> ->].
Qed.
#[export] Hint Resolve quiet_releaseThread : quiet.

(** *** Resuming a thread *)

(** A signal does no harm if it reports success or the thread does not run. *)
Lemma signal_steady t time msg s :
  (awake s t -> msg = true) -> wlp (thread_signal t time msg)
    (fun _ s' => steady s s' /\ s_sched s' = s_sched s /\ m_thread_state (s_tm s') = m_thread_state (s_tm s) /\
       exists th, m_threads (s_tm s') !! t = Some th /\ th_in_wait th = false /\ m_wakeup_msg th = msg) s.
Proof.
  intros Ha. apply wpe_bind, wpe_bind, wpe_gets. destruct (m_threads (s_tm s) !! t) as [th|] eqn:Et; [|apply wlp_fail].
  apply wpe_ret, wpe_modify. apply lookup_lt_Some in Et as Hlt. cbn. split_and!; try done; last first.
  { eexists. by rewrite list_lookup_insert_eq. }
  split; [done|]. intros u Hu. pose proof Hu as ((th' & Hl & Hw & Hm) & Hst & Hr). split; [|done]. cbn.
  destruct (decide (u = t)) as [->|]; [|by exists th'; rewrite list_lookup_insert_ne].
  eexists. by rewrite list_lookup_insert_eq, (Ha Hu).
Qed.

Section resume.
Context (H : hook_event -> M unit).
Context (HR : forall t by_ time, quiet (H (HOOK_THREAD_RESUME t by_ time))).
Context (HM : forall t c time, quiet (H (HOOK_THREAD_MIGRATE t c time))).

Lemma quiet_resume_async t by_ time : quiet (resumeThread_async H t by_ time).
Proof. unfold resumeThread_async. quiet_auto. Qed.

Lemma quiet_wake t time :
  quiet (st ← thread_state t;
         if bool_decide (status st = STALLED) && bool_decide (stalled_reason st = STALL_UNSCHEDULED)
         then resumeThread H t None time false else mret tt).
Proof.
  intros s. apply wpe_bind, wpe_bind, wpe_gets, wlp_lift. intros st Hst%aget_ok.
  case_bool_decide as Hs; [|by apply quiet_ret]. case_bool_decide; [|by apply quiet_ret]. unfold resumeThread. apply wpe_bind.
  eapply wpe_mono; [apply signal_steady|done|].
  - intros (_ & (st' & Hst' & Hr) & _). congruence.
  - intros ? s1 (H1 & _). eapply wpe_mono; [apply quiet_resume_async|done|]. intros ? s2 H2. etrans; [exact H1|exact H2].
Qed.

Lemma quiet_move t c time : quiet (moveThread H t c time).
Proof. pose proof (quiet_wake t time) as Hw. unfold moveThread. quiet_auto. Qed.

Lemma quiet_reschedule cfg time c : quiet (reschedule H cfg time c).
Proof. unfold reschedule, unschedule, schedule_in. quiet_auto; apply quiet_move. Qed.

Lemma quiet_fill cfg t time : quiet (fill_free_core H cfg t time).
Proof. unfold fill_free_core. quiet_auto. apply quiet_reschedule. Qed.
End resume.

Lemma quiet_migrate cfg n t c time : quiet (callHooks cfg n (HOOK_THREAD_MIGRATE t c time)).
Proof.
  destruct n as [|n]; [apply quiet_fail|]. change (callHooks cfg (S n) (HOOK_THREAD_MIGRATE t c time)) with
    (mbind (fun _ : unit => mret tt) (releaseThread t : M unit) : M unit). quiet_auto.
Qed.

Lemma quiet_resume_hook cfg n t by_ time : quiet (callHooks cfg n (HOOK_THREAD_RESUME t by_ time)).
Proof.
  revert t by_ time. induction n as [|n IH]; intros t by_ time; [apply quiet_fail|]. intros s. apply callHooks_resume.
  revert s. change (quiet (_ ← set_runnable t true; fill_free_core (callHooks cfg n) (sim_sched cfg) t time)).
  quiet_auto. apply quiet_fill; [apply IH|apply quiet_migrate].
Qed.

(** After the hook of a resumed thread, the scheduler may run it. *)
Lemma resume_hook_runnable cfg n t by_ time s :
  wlp (callHooks cfg n (HOOK_THREAD_RESUME t by_ time)) (fun _ s' => steady s s' /\
    ((exists th, m_threads (s_tm s) !! t = Some th /\ th_in_wait th = false /\ m_wakeup_msg th = true) ->
     (exists st, m_thread_state (s_tm s) !! t = Some st /\ status st = RUNNING) -> awake s' t)) s.
Proof.
  destruct n as [|n]; [apply wlp_fail|]. apply callHooks_resume, wpe_bind.
  apply wlp_intro. intros [] s1 E1. pose proof (wpe_ok _ _ _ _ _ _ (quiet_runnable t s) E1) as H1.
  assert (s_tm s1 = s_tm s /\ m_threads_runnable (s_sched s1) !! t = Some true) as [Etm Hr].
  { refine (wpe_ok (fun _ => True) _ (fun _ s' => s_tm s' = s_tm s /\ m_threads_runnable (s_sched s') !! t = Some true) _ _ _ _ E1).
    apply wlp_set_runnable. intros Ht. split; [done|]. cbn. by rewrite list_lookup_insert_eq. }
  eapply wpe_mono; [apply quiet_fill; [apply quiet_resume_hook|apply quiet_migrate]|done|]. intros ? s2 H2.
  split; [etrans; [exact H1|exact H2]|]. intros Hth Hst. apply H2. unfold awake. by rewrite Etm.
Qed.

Lemma resume_awake cfg D t by_ time s :
  wlp (resumeThread (callHooks cfg D) t by_ time true) (fun _ s' => steady s s' /\ awake s' t) s.
Proof.
  apply wpe_bind. eapply wpe_mono; [by apply signal_steady|done|]. intros ? s1 (H1 & _ & _ & Hth).
  apply wpe_bind. apply wlp_intro. intros [] s2 E2. pose proof (wpe_ok _ _ _ _ _ _ (quiet_running t s1) E2) as H2.
  assert (m_threads (s_tm s2) = m_threads (s_tm s1) /\ exists st, m_thread_state (s_tm s2) !! t = Some st /\ status st = RUNNING)
    as [Etm Hst].
  { refine (wpe_ok (fun _ => True) _ (fun _ s' => m_threads (s_tm s') = m_threads (s_tm s1) /\
      exists st, m_thread_state (s_tm s') !! t = Some st /\ status st = RUNNING) _ _ _ _ E2).
    apply wpe_bind, wpe_bind, wpe_gets, wlp_lift. intros st Hst%aget_ok%lookup_lt_Some. apply wpe_modify. split; [done|].
    eexists. cbn. by rewrite list_lookup_insert_eq. }
  eapply wpe_mono; [apply resume_hook_runnable|done|]. intros ? s3 [H3 Ha]. split; [etrans; [exact H1|]; etrans; [exact H2|]; exact H3|].
  apply Ha; [by rewrite Etm|done].
Qed.

(** ** The waiters that a wake takes *)

(** The first [k] waiters that [mask] selects, and those that stay in the queue. *)
Fixpoint select (mask : Z) (k : nat) (q : list Waiter) : list Waiter * list Waiter :=
  match q with
  | [] => ([], [])
  | w :: q' =>
      match k with
      | O => ([], q)
      | S k' =>
          if negb (Z.land mask (w_mask w) =? 0) then let '(a, b) := select mask k' q' in (w :: a, b)
          else let '(a, b) := select mask k q' in (a, w :: b)
      end
  end.

Lemma select_0 mask q : select mask 0 q = ([], q).
Proof. by destruct q. Qed.

Lemma select_first mask k q :
  select mask (S k) q =
  match take_first (fun w => negb (Z.land mask (w_mask w) =? 0)) q with
  | Some (w, q') => let '(a, b) := select mask k q' in (w :: a, b)
  | None => ([], q)
  end.
Proof.
  induction q as [|w q IH]; [done|]. cbn [select take_first]. destruct (negb _) eqn:E; [done|]. rewrite IH.
  destruct (take_first _ q) as [[x l]|]; [|done]. destruct k as [|k].
  - by rewrite !select_0.
  - cbn [select]. rewrite E. by destruct (select mask (S k) l).
Qed.

Lemma select_elem mask k q w : w ∈ (select mask k q).1 -> w ∈ q.
Proof.
  revert k. induction q as [|x q IH]; intros k; [done|]. destruct k as [|k]; cbn [select].
  - by intros ?%elem_of_nil.
  - destruct (negb _).
    + specialize (IH k). destruct (select mask k q) as [a b]. cbn in *. rewrite !elem_of_cons. naive_solver.
    + specialize (IH (S k)). destruct (select mask (S k) q) as [a b]. cbn in *. rewrite !elem_of_cons. naive_solver.
Qed.

(** The queue of the futex at [a] is [q]; the other queues are those of [s0]. *)
Definition futex_is (s0 : Sim) (a : Z) (q : list Waiter) (s : Sim) : Prop :=
  futex (s_sys s) a = q /\ forall a', a' <> a -> futex (s_sys s) a' = futex (s_sys s0) a'.

Lemma futex_set s0 s a q q' :
  futex_is s0 a q s -> futex_is s0 a q' (set_sys (set_futex a q' (s_sys s)) s).
Proof.
  intros [_ Ho]. split; unfold futex, set_futex; cbn; [by rewrite lookup_insert_eq|]. intros a' Ha.
  rewrite lookup_insert_ne by done. by apply Ho.
Qed.

Section futex.
Context (cfg : SimCfg) (D : nat).
Local Abbreviation H := (callHooks cfg D).

Lemma wlp_cost t b s (Q : Z -> Sim -> Prop) : (forall c, Q c s) -> wlp (applyRescheduleCost (sim_reschedule_cost cfg) t b) Q s.
Proof.
  intros HQ. unfold applyRescheduleCost. destruct b; [|by apply wpe_ret]. apply wpe_bind, wpe_bind, wpe_gets.
  destruct (_ !! t) as [th|]; [|apply wlp_fail]. apply wpe_ret. destruct (m_core th) as [c|]; [|apply wlp_fail].
  apply wpe_bind, wpe_bind, wpe_gets. destruct (_ !! c) as [co|]; [|apply wlp_fail]. by apply wpe_ret, wpe_ret.
Qed.

Lemma wlp_wake_loop s0 a t mask time k q woken s :
  futex_is s0 a q s ->
  wlp (wake_loop k (wakeFutexOne H (sim_reschedule_cost cfg) a t mask time) woken)
    (fun r s' => let '(ws, q') := select mask k q in
       r = woken + Z.of_nat (length ws) /\ futex_is s0 a q' s' /\ Forall (fun w => awake s' (w_thread_id w)) ws /\
       forall u, awake s u -> awake s' u) s.
Proof.
  revert q woken s. induction k as [|k IH]; intros q woken s Hq; cbn [wake_loop].
  { rewrite select_0. apply wpe_ret. split_and!; [cbn; lia|done|done|done]. }
  apply wpe_bind, wpe_bind, wlp_cost. intros c. unfold dequeueWaiter. apply wpe_bind, wpe_gets.
  rewrite select_first, (proj1 Hq). destruct (take_first _ q) as [[w q']|].
  - apply wpe_bind, wpe_modify, wpe_bind. pose proof (futex_set s0 s a q q' Hq) as Hq'.
    eapply wpe_mono; [apply resume_awake|done|]. intros ? s1 [[E1 A1] Hw]. apply wpe_ret.
    eapply wpe_mono; [apply (IH q')|done|].
    + unfold futex_is in *. by rewrite E1.
    + intros r s2. destruct (select mask k q') as [ws q'']. intros (-> & Hf & HF & HA). cbn [length].
      split_and!; [lia|done|constructor; [by apply HA|done]|]. intros u Hu. apply HA, A1. exact Hu.
  - by apply wpe_ret, wpe_ret; split_and!; [cbn; lia|..].
Qed.

Lemma futex_wake_spec t uaddr nr mask time s woken end_time s' :
  sim_futexWake cfg D t uaddr nr mask time s = Ok ((woken, end_time), s') ->
  let '(ws, q') := select mask (Z.to_nat nr) (futex (s_sys s) (sim_va2pa cfg t uaddr)) in
  woken = Z.of_nat (length ws) /\ futex_is s (sim_va2pa cfg t uaddr) q' s' /\
  Forall (fun w => awake s' (w_thread_id w)) ws /\ forall u, awake s u -> awake s' u.
Proof.
  intros E. set (q := futex _ _).
  refine (wpe_ok (fun _ => True) _ (fun r s' => let '(ws, q') := select mask (Z.to_nat nr) q in
    r.1 = Z.of_nat (length ws) /\ futex_is s (sim_va2pa cfg t uaddr) q' s' /\
    Forall (fun w => awake s' (w_thread_id w)) ws /\ forall u, awake s u -> awake s' u) _ (woken, end_time) _ _ E). clear E s'.
  unfold sim_futexWake, futexWake. apply wpe_bind. unfold findFutexByUaddr. apply wpe_bind, wpe_bind, wpe_gets.
  destruct (m_threads (s_tm s) !! t); [|apply wlp_fail]. apply wpe_ret. cbv zeta. apply wpe_bind, wpe_modify, wpe_ret, wpe_bind.
  eapply wpe_mono; [apply (wlp_wake_loop s _ t mask time _ q); by apply (futex_set s s _ q)|done|].
  intros r s2. destruct (select mask (Z.to_nat nr) q) as [ws q']. intros (-> & Hq2 & HF & HA).
  apply wpe_bind, wlp_cost. intros c. apply wpe_ret. cbn [fst]. split_and!; [lia|done|done|exact HA].
Qed.
End futex.

(** ** The calls succeed *)

(** The thread exists and has started, so that the scheduler has an entry for it. *)
Definition registered (s : Sim) (t : nat) : Prop :=
  (t < n_threads s)%nat /\ (t < length (m_threads_runnable (s_sched s)))%nat.

(** What the wake-ups keep: threads keep their cores and stay registered. *)
Definition wakes (s s' : Sim) : Prop :=
  kept s s' /\ length (m_threads_runnable (s_sched s')) = length (m_threads_runnable (s_sched s)).

#[global] Instance wakes_preorder : PreOrder wakes.
Proof.
  split; [by intros s; split|]. intros s1 s2 s3 [K1 L1] [K2 L2]. split; [by transitivity s2|congruence].
Qed.

Lemma wakes_registered s s' t : wakes s s' -> registered s t -> registered s' t.
Proof. intros [(E & _) L] []. unfold registered. by rewrite E, L. Qed.

Lemma runs_also {A} (m : M A) (P Q : A -> Sim -> Prop) s :
  wlp m P s -> runs m (fun a s' => P a s' -> Q a s') s -> runs m Q s.
Proof. unfold wpe. destruct (m s) as [[a s']|e]; auto. Qed.

Section success.
Context (cfg : SimCfg) (N D : nat) (HD : (N + 4 <= D)%nat).
Local Abbreviation H := (callHooks cfg D).

Lemma runs_resumed t by_ time msg s :
  Good N s -> registered s t -> runs (resumeThread H t by_ time msg) (fun _ s' => Good N s' /\ wakes s s') s.
Proof.
  intros Hs [Ht Hr]. apply wpe_bind. destruct (lookup_lt_is_Some_2 _ _ Ht) as [th Hth].
  apply wpe_bind. eapply wpe_getThread; [done|]. apply wpe_modify. set (s1 := set_tm _ s).
  assert (thread_signal t time msg s = Ok (tt, s1)) as E1 
    by (unfold thread_signal, upd_thread, getThreadFromID, gets, mbind, st_bind; by rewrite Hth).
  destruct (wpe_ok _ _ _ _ _ _ (pres_thread_signal N kept t time msg s Hs) E1) as [H1 K1].
  assert (t < length (m_thread_state (s_tm s1)))%nat as [st Hst]%lookup_lt_is_Some_2.
  { rewrite (tm_states _ (i_tm _ _ (g_inv _ _ H1))). destruct K1 as [-> _]. done. }
  apply wpe_bind. eapply wpe_upd_state; [done|]. set (s2 := set_tm _ s1).
  assert (set_status t RUNNING s1 = Ok (tt, s2)) as E2.
  { unfold set_status, upd_state, thread_state, gets, lift_res, mbind, st_bind, aget. by rewrite Hst. }
  destruct (wpe_ok _ _ _ _ _ _ (pres_set_status N kept t RUNNING ltac:(done) s1 H1) E2) as [H2 K2].
  assert (t < n_threads s2)%nat as Ht2 by (destruct K1 as [N1 _], K2 as [N2 _]; rewrite N2, N1; done).
  destruct D as [|n]; [lia|]. apply callHooks_resume, wpe_bind. unfold set_runnable. apply wpe_bind, wpe_gets, wpe_bind.
  eapply wpe_lift; [by apply aset_lt|]. apply wpe_modify. set (s3 := set_sched _ s2).
  pose proof (Good_runnable N t true s2 H2 (fun _ => Ht2)) as H3.
  eapply wpe_mono; [apply (runs_fill _ _ N (hooks_resume cfg N n ltac:(lia)) (hooks_migrate cfg N n ltac:(lia)) ∅);
    [apply H3|done|]|done|].
  - pose proof (free_cores_le _ _ (g_inv _ _ H3)) as Hf. rewrite (g_cores _ _ H3) in Hf. apply le_S, Hf.
  - intros ? s4 [HI Hev]. split; [by eapply Good_evolves|]. split.
    + etrans; [exact K1|]. etrans; [exact K2|]. by apply (evolves_kept s3).
    + rewrite (e_runnable _ _ _ Hev). cbn. by rewrite length_insert.
Qed.

(** The thread is on a core. *)
Lemma runs_cost t c b s (Q : Z -> Sim -> Prop) :
  Good N s -> run_core s t = Some c -> (forall x, Q x s) -> runs (applyRescheduleCost (sim_reschedule_cost cfg) t b) Q s.
Proof.
  intros Hs Hc HQ. unfold applyRescheduleCost. destruct b; [|by apply wpe_ret].
  rewrite <- (i_link _ _ (g_inv _ _ Hs) t) in Hc by set_solver. pose proof Hc as (th & Hth & Em)%bind_Some.
  apply wpe_bind. eapply wpe_getThread; [done|]. rewrite Em.
  apply (tm_bij _ (i_tm _ _ (g_inv _ _ Hs))), co_thread_lt in Hc. destruct (lookup_lt_is_Some_2 _ _ Hc) as [co Hco].
  apply wpe_bind. eapply wpe_getCore; [done|]. by apply wpe_ret.
Qed.

Lemma runs_wake_loop a t c mask time k woken s :
  Good N s -> run_core s t = Some c -> Forall (fun w => registered s (w_thread_id w)) (futex (s_sys s) a) ->
  runs (wake_loop k (wakeFutexOne H (sim_reschedule_cost cfg) a t mask time) woken)
    (fun _ s' => Good N s' /\ wakes s s') s.
Proof.
  revert woken s. induction k as [|k IH]; intros woken s Hs Hc HF; cbn [wake_loop].
  { apply wpe_ret. split; [done|reflexivity]. }
  apply wpe_bind, wpe_bind. eapply runs_cost; [done..|]. intros x. unfold dequeueWaiter. apply wpe_bind, wpe_gets.
  destruct (take_first _ _) as [[w q']|] eqn:Eq; [|apply wpe_ret, wpe_ret; split; [done|reflexivity]].
  assert (w ∈ futex (s_sys s) a /\ forall v, v ∈ q' -> v ∈ futex (s_sys s) a) as [Hw Hq'].
  { clear HF Hc. revert q' Eq. induction (futex (s_sys s) a) as [|v q IHq]; intros q' Eq; cbn in Eq; [done|].
    destruct (negb _); simplify_eq; [by split; [left|right]|]. destruct (take_first _ q) as [[u l]|]; simplify_eq.
    destruct (IHq _ eq_refl) as [? Hl]. split; [by right|]. intros y [->|?]%elem_of_cons; [left|right; by apply Hl]. }
  rewrite Forall_forall in HF. apply wpe_bind. apply wpe_modify. set (s1 := set_sys _ s).
  assert (Good N s1) as H1 by (by eapply (wpe_ok _ _ _ _ _ _ (pres_upd_sys N any (set_futex a q') s Hs) eq_refl)).
  assert (wakes s s1) as W1 by (by split).
  apply wpe_bind. apply (runs_also _ _ _ _ (resume_awake cfg D _ _ _ s1)).
  eapply wpe_mono; [apply runs_resumed; [done|by apply HF]|done|]. intros ? s2 [H2 W2] [[E2 _] _]. apply wpe_ret.
  assert (wakes s s2) as W by (by transitivity s1).
  eapply wpe_mono; [apply IH; [done| |]|done|].
  - eapply run_core_kept; [exact Hs|done|apply W|done].
  - apply Forall_forall. intros v Hv. rewrite E2 in Hv. unfold s1, futex, set_futex in Hv. cbn in Hv. rewrite lookup_insert_eq in Hv.
    eapply wakes_registered; [done|]. by apply HF, Hq'.
  - intros r s3 [H3 W3]. split; [done|]. by transitivity s2.
Qed.
End success.

(** C28: FUTEX_WAKE and FUTEX_WAKE_BITSET wake the threads that have waited longest.  In every state, with any configuration: when
    the call returns, it has taken from the futex the first [nr] waiters whose mask has a bit in common with the one given, or all
    of them if there are fewer, and returns how many it took; each of them has been signalled, runs and may be scheduled; the other
    waiters keep their places and the other futexes theirs, and no thread that was awake waits.  And in every state that the kernel
    reaches without PERIODIC_WORKLOAD, the call does return if the caller is on a core and the waiters are threads that have
    started. *)
Theorem futex_wake_fifo (cfg : SimCfg) (D t : nat) (uaddr nr mask time : Z) (s : Sim) :
  let a := sim_va2pa cfg t uaddr in
  let '(ws, q') := select mask (Z.to_nat nr) (futex (s_sys s) a) in
  (forall woken end_time s', sim_futexWake cfg D t uaddr nr mask time s = Ok ((woken, end_time), s') ->
     woken = Z.of_nat (length ws) /\ futex (s_sys s') a = q' /\
     (forall b, b <> a -> futex (s_sys s') b = futex (s_sys s) b) /\
     Forall (fun w => awake s' (w_thread_id w)) ws /\ (forall u, awake s u -> awake s' u)) /\
  (forall N quantum mapping, (N + 4 <= D)%nat -> sc_periodic_workload (sim_sched cfg) = false ->
     rtc (kstep cfg D) (Sim_new (sim_sched cfg) N quantum mapping) s -> is_Some (th_core s t) ->
     Forall (fun w => registered s (w_thread_id w)) (futex (s_sys s) a) ->
     exists woken end_time s', sim_futexWake cfg D t uaddr nr mask time s = Ok ((woken, end_time), s')).
Proof.
  intros a. destruct (select mask (Z.to_nat nr) (futex (s_sys s) a)) as [ws q'] eqn:Es. split.
  - intros woken end_time s' E. apply futex_wake_spec in E. fold a in E. rewrite Es in E.
    destruct E as (-> & [Hq Ho] & HF & HA). by split_and!.
  - intros N quantum mapping HD Hwork Hr [c Hc] HF.
    destruct (reachable_ok cfg N D HD Hwork quantum mapping s Hr) as [Hs|Hs].
    { apply bind_Some in Hc as (th & Hth & _). pose proof (empty_no_thread N s t Hs) as He.
      unfold getThreadFromID, gets, mbind, st_bind in He. by rewrite Hth in He. }
    rewrite (i_link _ _ (g_inv _ _ Hs) t) in Hc by set_solver.
    destruct (runs_ok (sim_futexWake cfg D t uaddr nr mask time) (fun _ _ => True) s) as ([woken end_time] & s' & E & _); [|eauto].
    pose proof Hc as Ht%(i_exists _ _ (g_inv _ _ Hs)). destruct (lookup_lt_is_Some_2 _ _ Ht) as [th Hth].
    unfold sim_futexWake, futexWake, findFutexByUaddr. apply wpe_bind, wpe_bind. eapply wpe_getThread; [done|]. cbv zeta.
    apply wpe_bind, wpe_modify, wpe_ret, wpe_bind. fold a. set (s1 := set_sys _ s).
    assert (Good N s1) as H1 by (by eapply (wpe_ok _ _ _ _ _ _ (pres_upd_sys N any _ s Hs) eq_refl)).
    eapply wpe_mono; [apply (runs_wake_loop cfg N D HD a t c); [done|done|]|done|].
    + unfold s1, futex, set_futex. cbn. rewrite lookup_insert_eq. exact HF.
    + intros woken s2 [H2 [K2 _]]. apply wpe_bind. eapply (runs_cost cfg N D HD t c); [done| |].
      * eapply run_core_kept; [exact H1|done|exact K2|done].
      * intros x. by apply wpe_ret.
Qed.

(** Threads 0 and 1 of the example wait for the word at address 64, thread 0 with the mask 2 and thread 1 with the mask 1. *)
Definition ex_wait (mask : Z) : futex_args_t := mkFutexArgs 64 FUTEX_WAIT_BITSET 0 None 0 0 mask.
Definition ex_waiting : Sim :=
  after (sim_futex ex_cfg 6 0 1 (ex_wait 1) 60) (after (sim_futex ex_cfg 6 0 0 (ex_wait 2) 50) ex_started).

Lemma ex_waiting_reachable : rtc (kstep ex_cfg 6) ex_init ex_waiting.
Proof. unfold ex_waiting. do 2 last_step k_futex. apply ex_started_reachable. Qed.

(** Thread 2 wakes two threads with the mask 3, then both have left the queue in their order; with the mask 1 only the second
    one is woken. *)
Lemma futex_wake_fifo_witness :
  w_thread_id <$> futex (s_sys ex_waiting) 64 = [0; 1]%nat /\
  (exists end_time s', sim_futexWake ex_cfg 6 2 64 2 3 70 ex_waiting = Ok ((2, end_time), s') /\
     futex (s_sys s') 64 = [] /\ awake s' 0 /\ awake s' 1) /\
  (exists end_time s', sim_futexWake ex_cfg 6 2 64 2 1 70 ex_waiting = Ok ((1, end_time), s') /\
     w_thread_id <$> futex (s_sys s') 64 = [0%nat] /\ awake s' 1).
Proof.
  assert (forall mask, exists woken end_time s', sim_futexWake ex_cfg 6 2 64 2 mask 70 ex_waiting = Ok ((woken, end_time), s')) as Hok.
  { intros mask. pose proof (futex_wake_fifo ex_cfg 6 2 64 2 mask 70 ex_waiting) as Hw. cbv zeta in Hw.
    destruct (select mask _ _) as [ws q']. apply (proj2 Hw 2%nat 100 []).
    - lia.
    - reflexivity.
    - apply ex_waiting_reachable.
    - eexists. vm_compute. reflexivity.
    - apply (Forall_fmap w_thread_id (registered ex_waiting)). unfold registered. vm_compute. repeat constructor. }
  split; [vm_compute; reflexivity|]. split.
  - destruct (Hok 3) as (woken & end_time & s' & E). pose proof (futex_wake_fifo ex_cfg 6 2 64 2 3 70 ex_waiting) as Hw.
    cbv zeta in Hw. vm_compute select in Hw. destruct (proj1 Hw _ _ _ E) as (-> & Hq & _ & HF & _).
    apply Forall_cons in HF as [H0 [H1 _]%Forall_cons]. exists end_time, s'. exact (conj E (conj Hq (conj H0 H1))).
  - destruct (Hok 1) as (woken & end_time & s' & E). pose proof (futex_wake_fifo ex_cfg 6 2 64 2 1 70 ex_waiting) as Hw.
    cbv zeta in Hw. vm_compute select in Hw. destruct (proj1 Hw _ _ _ E) as (-> & Hq & _ & HF & _).
    apply Forall_cons in HF as [H1 _]. exists end_time, s'. split_and!; [exact E|exact (f_equal (fmap w_thread_id) Hq)|exact H1].
Defined.
