(* ===== verification/BranchPredictor.v ===== *)
(** * Branch predictors

    Models src/common/performance_model/branch_predictor.{h,cc} and
    branch_predictors/: saturating counters, the bimodal table, the branch target
    buffer, the global predictor and the loop predictor, which the Pentium M
    predictor combines, and the one-bit predictor.  The tables that the code keeps
    as one vector per field are vectors of records here. *)

From S2P Require Import Prelude.

Abbreviation s8 := (swrap 8).

(** ** SaturatingPredictor<n> *)

Section Saturating.
Context (n : Z).

Definition sat_max : Z := 2 ^ (n - 1) - 1.
Definition sat_min : Z := - 2 ^ (n - 1).
Definition sat_predict (c : Z) : bool := 0 <=? c.
Definition sat_reset (prediction : bool) : Z := if prediction then sat_max else sat_min.
Definition sat_inc (c : Z) : Z := if c =? sat_max then c else s8 (c + 1).
Definition sat_dec (c : Z) : Z := if c =? sat_min then c else s8 (c - 1).
Definition sat_update (actual : bool) (c : Z) : Z := if actual then sat_inc c else sat_dec c.
End Saturating.

(** ** SimpleBimodalTable *)

Record SimpleBimodalTable := mkBimodal { bm_mask : Z; bm_table : list Z }.

(** [ilog2] of the class: the loop over the bits *)
Fixpoint ilog2_loop (k : nat) (n i : Z) : res Z :=
  if 0 <? n then match k with O => Err OutOfFuel | S k => ilog2_loop k (Z.shiftr n 1) (i + 1) end else Ok i.
Definition ilog2 (n : Z) : res Z := i ← ilog2_loop 32 n 0; Ok (u32 (i - 1)).

Definition SimpleBimodalTable_new (entries : Z) : res SimpleBimodalTable :=
  bits ← ilog2 entries;
  Ok (mkBimodal (foldl (fun m i => Z.lor m (Z.shiftl 1 (Z.of_nat i))) 0 (seq 0 (Z.to_nat bits)))
        (replicate (Z.to_nat entries) (sat_reset 2 false))).

Definition bm_index (t : SimpleBimodalTable) (ip : Z) : nat := Z.to_nat (u32 (Z.land ip (bm_mask t))).
Definition bm_predict (t : SimpleBimodalTable) (ip : Z) : res bool :=
  c ← aget (bm_table t) (bm_index t ip); Ok (sat_predict c).
Definition bm_update (actual : bool) (ip : Z) (t : SimpleBimodalTable) : res SimpleBimodalTable :=
  c ← aget (bm_table t) (bm_index t ip);
  l ← aset (bm_table t) (bm_index t ip) (if actual then sat_inc 2 c else sat_dec 2 c);
  Ok (mkBimodal (bm_mask t) l).

(** ** Set-associative tables *)

(** The entries of one index in all ways. *)
Fixpoint column {E} (ways : list (list E)) (i : nat) : res (list E) :=
  match ways with [] => Ok [] | w :: ways => e ← aget w i; l ← column ways i; Ok (e :: l) end.

Inductive found := Hit (w : nat) | Miss (lru_way : nat).

(** The loop over the ways: the first way that matches, or else the first of the ways with the
    smallest use count. *)
Fixpoint search {E} (hit : E -> bool) (lru : E -> Z) (w lru_way : nat) (lru_min : Z) (l : list E) : found :=
  match l with
  | [] => Miss lru_way
  | e :: l =>
      if hit e then Hit w
      else if lru e <? lru_min then search hit lru (S w) w (lru e) l
      else search hit lru (S w) lru_way lru_min l
  end.
Definition search_ways {E} (hit : E -> bool) (lru : E -> Z) (l : list E) : found :=
  search hit lru 0 0 (match l with e :: _ => lru e | [] => 0 end) l.

Definition set_entry {E} (ways : list (list E)) (w i : nat) (f : E -> E) : res (list (list E)) :=
  way ← aget ways w; e ← aget way i; way ← aset way i (f e); aset ways w way.

(** ** PentiumMBranchTargetBuffer *)

Record btb_entry := mkBtb { m_tag_offset : Z; m_plru : Z }.
Record BTB := mkBTB { btb_ways : list (list btb_entry); btb_use_count : Z }.

Definition NUM_WAYS : nat := 4.
Definition NUM_ENTRIES : nat := 512.
Definition BTB_new : BTB := mkBTB (replicate NUM_WAYS (replicate NUM_ENTRIES (mkBtb 0 0))) 0.

Definition IP_TO_INDEX (ip : Z) : nat := Z.to_nat (Z.land (Z.shiftr ip 4) 511).
Definition IP_TO_TAGOFF (ip : Z) : Z := Z.land ip 4186127.          (* 0x3fe00f *)

Definition btb_lookup (t : BTB) (ip : Z) : res bool :=
  l ← column (btb_ways t) (IP_TO_INDEX ip);
  Ok (existsb (fun e => m_tag_offset e =? IP_TO_TAGOFF ip) l).

Definition btb_update (ip : Z) (t : BTB) : res BTB :=
  l ← column (btb_ways t) (IP_TO_INDEX ip);
  let tag := IP_TO_TAGOFF ip in
  let c := btb_use_count t in
  ways ← match search_ways (fun e => m_tag_offset e =? tag) m_plru l with
         | Hit w => set_entry (btb_ways t) w (IP_TO_INDEX ip) (fun e => mkBtb (m_tag_offset e) c)
         | Miss w => set_entry (btb_ways t) w (IP_TO_INDEX ip) (fun _ => mkBtb tag c)
         end;
  Ok (mkBTB ways (u64 (c + 1))).

(** ** GlobalPredictor *)

Record gp_entry := mkGp { gp_valid : bool; gp_tag : Z; gp_counter : Z; gp_lru : Z }.
Record GlobalPredictor := mkGlobal { gp_ways : list (list gp_entry); gp_use_count : Z }.

Definition GlobalPredictor_new (entries ways : nat) : GlobalPredictor :=
  mkGlobal (replicate ways (replicate (entries / ways) (mkGp false 0 0 0))) 0.

Definition gp_index (ip pir : Z) : nat := Z.to_nat (Z.land (Z.lxor (Z.shiftr ip 4) (Z.shiftr pir 6)) 511).
Definition gp_gen_tag (ip pir : Z) : Z := Z.land (Z.lxor (Z.shiftr ip 13) pir) 63.
Definition gp_match (tag : Z) (e : gp_entry) : bool := gp_valid e && (gp_tag e =? tag).

(** Whether an entry was hit, and its prediction. *)
Definition gp_lookup (t : GlobalPredictor) (ip pir : Z) : res (bool * bool) :=
  l ← column (gp_ways t) (gp_index ip pir);
  Ok (match search_ways (gp_match (gp_gen_tag ip pir)) gp_lru l with
      | Hit w => match l !! w with Some e => (true, sat_predict (gp_counter e)) | None => (false, false) end
      | Miss _ => (false, false)
      end).

Definition gp_update (actual : bool) (ip pir : Z) (t : GlobalPredictor) : res GlobalPredictor :=
  l ← column (gp_ways t) (gp_index ip pir);
  let tag := gp_gen_tag ip pir in
  let c := gp_use_count t in
  ways ← match search_ways (gp_match tag) gp_lru l with
         | Hit w => set_entry (gp_ways t) w (gp_index ip pir)
                      (fun e => mkGp (gp_valid e) (gp_tag e) (sat_update 2 actual (gp_counter e)) c)
         | Miss w => set_entry (gp_ways t) w (gp_index ip pir) (fun _ => mkGp true tag (sat_reset 2 actual) c)
         end;
  Ok (mkGlobal ways (u64 (c + 1))).

Definition gp_evict (ip pir : Z) (t : GlobalPredictor) : res GlobalPredictor :=
  l ← column (gp_ways t) (gp_index ip pir);
  match search_ways (gp_match (gp_gen_tag ip pir)) gp_lru l with
  | Hit w =>
      ways ← set_entry (gp_ways t) w (gp_index ip pir) (fun e => mkGp false (gp_tag e) (gp_counter e) (gp_lru e));
      Ok (mkGlobal ways (gp_use_count t))
  | Miss _ => Ok t
  end.

(** ** LoopBranchPredictor *)

Record lp_entry := mkLp {
  lp_tag : Z; m_previous_actual : bool; m_enabled : bool; lp_counter : Z; lp_lru : Z; m_count : Z; m_limit : Z
}.
Record LoopBranchPredictor := mkLoop { lp_ways : list (list lp_entry); lp_use_count : Z }.

Definition lp_entry_new : lp_entry := mkLp 0 false false 0 0 0 0.
Definition LoopBranchPredictor_new (entries ways : nat) : LoopBranchPredictor :=
  mkLoop (replicate ways (replicate (entries / ways) lp_entry_new)) 0.

Definition lp_index (ip : Z) : nat := Z.to_nat (Z.land (Z.shiftr ip 4) 63).
Definition lp_gen_tag (ip : Z) : Z := Z.land (Z.shiftr ip 10) 63.

(** What an entry predicts: its direction, and the opposite at the end of the loop. *)
Definition lp_prediction (e : lp_entry) : bool :=
  if m_count e =? m_limit e then negb (sat_predict (lp_counter e)) else sat_predict (lp_counter e).

(** [prediction_match] *)
Definition prediction_match (e : lp_entry) (actual : bool) : bool :=
  if m_count e =? m_limit e then negb (Bool.eqb (sat_predict (lp_counter e)) actual)
  else Bool.eqb (sat_predict (lp_counter e)) actual.

Definition lp_lookup (ip : Z) (t : LoopBranchPredictor) : res (bool * bool * LoopBranchPredictor) :=
  l ← column (lp_ways t) (lp_index ip);
  let tag := lp_gen_tag ip in
  match search_ways (fun e => m_enabled e && (lp_tag e =? tag)) lp_lru l with
  | Hit w =>
      match l !! w with
      | Some e =>
          ways ← set_entry (lp_ways t) w (lp_index ip)
                   (fun e => mkLp (lp_tag e) (m_previous_actual e) (m_enabled e) (lp_counter e) (lp_use_count t) (m_count e) (m_limit e));
          Ok (true, lp_prediction e, mkLoop ways (u64 (lp_use_count t + 1)))
      | None => Err OutOfBounds
      end
  | Miss _ => Ok (false, false, t)
  end.

(** [update] of an entry whose tag matches: counter, limit and whether the entry is enabled, as if
    the direction stayed the same *)
Definition same_direction (e : lp_entry) (actual : bool) : Z * Z * bool :=
  if prediction_match e actual then
    (if m_count e =? m_limit e then 0 else u32 (m_count e + 1), m_limit e, m_enabled e)
  else if m_count e <? m_limit e then (0, m_count e, m_enabled e)
  else (u32 (m_count e + 1), u32 (m_count e + 1), false).

Definition lp_entry_update (use_count : Z) (actual : bool) (e : lp_entry) : lp_entry :=
  let current_prediction := sat_predict (lp_counter e) in
  let '(counter, limit, enabled) := same_direction e actual in
  if Bool.eqb (m_previous_actual e) actual && Bool.eqb actual (negb current_prediction) then
    mkLp (lp_tag e) actual false (sat_update 1 actual (lp_counter e)) use_count 1 1
  else if negb (Bool.eqb (m_previous_actual e) actual) && Bool.eqb actual (negb current_prediction) && negb (m_enabled e) then
    mkLp (lp_tag e) actual true (lp_counter e) use_count 0 (m_limit e)
  else mkLp (lp_tag e) actual enabled (lp_counter e) use_count counter limit.

(** An entry that is taken over keeps [m_enabled]. *)
Definition lp_entry_allocate (use_count tag : Z) (actual : bool) (e : lp_entry) : lp_entry :=
  mkLp tag actual (m_enabled e) (sat_reset 1 actual) use_count 1 1.

Definition lp_update (actual : bool) (ip : Z) (t : LoopBranchPredictor) : res LoopBranchPredictor :=
  l ← column (lp_ways t) (lp_index ip);
  let tag := lp_gen_tag ip in
  let c := lp_use_count t in
  ways ← match search_ways (fun e => lp_tag e =? tag) lp_lru l with
         | Hit w => set_entry (lp_ways t) w (lp_index ip) (lp_entry_update c actual)
         | Miss w => set_entry (lp_ways t) w (lp_index ip) (lp_entry_allocate c tag actual)
         end;
  Ok (mkLoop ways (u64 (c + 1))).

(** ** PentiumMBranchPredictor *)

Inductive BranchType := InvalidBranch | DirectBranch | IndirectBranch | UnconditionalBranch | ConditionalBranch.

Record PentiumM := mkPentiumM {
  m_global_predictor : GlobalPredictor;
  m_btb : BTB;
  m_bimodal_table : SimpleBimodalTable;
  m_lpb : LoopBranchPredictor;
  m_pir : Z;
  m_last_gp_hit : bool;
  m_last_bm_pred : bool;
  m_last_lpb_hit : bool
}.

(** [garbage] is the value of [m_last_bm_pred], which the constructor does not set. *)
Definition PentiumM_new (garbage : bool) : res PentiumM :=
  bm ← SimpleBimodalTable_new 4096;
  Ok (mkPentiumM (GlobalPredictor_new 2048 4) BTB_new bm (LoopBranchPredictor_new 128 2) 0 false garbage false).

Definition pm_predict (ip : Z) (p : PentiumM) : res (bool * PentiumM) :=
  '(gp_hit, gp_pred) ← gp_lookup (m_global_predictor p) ip (m_pir p);
  btb_hit ← btb_lookup (m_btb p) ip;
  '(lpb_hit, lpb_pred, lpb) ← lp_lookup ip (m_lpb p);
  bimodal_out ← bm_predict (m_bimodal_table p) ip;
  Ok (if gp_hit : bool then gp_pred else if lpb_hit && btb_hit then lpb_pred else bimodal_out,
      mkPentiumM (m_global_predictor p) (m_btb p) (m_bimodal_table p) lpb (m_pir p) gp_hit bimodal_out (lpb_hit && btb_hit)).

Definition update_pir (actual : bool) (ip target : Z) (branch_type : BranchType) (pir : Z) : Z :=
  let shift rhs := Z.land (Z.lxor (u64 (Z.shiftl pir 2)) rhs) 32767 in
  match branch_type with
  | ConditionalBranch => if actual then shift (Z.shiftr ip 4) else pir
  | IndirectBranch => shift (Z.lor (Z.shiftr ip 4) target)
  | _ => pir
  end.

Definition pm_update (predicted actual : bool) (ip target : Z) (p : PentiumM) : res PentiumM :=
  btb ← btb_update ip (m_btb p);
  lpb ← lp_update actual ip (m_lpb p);
  bm ← (if negb (m_last_gp_hit p) && negb (m_last_lpb_hit p) then bm_update actual ip (m_bimodal_table p) else Ok (m_bimodal_table p));
  let lpb_or_bm_hit := m_last_lpb_hit p || Bool.eqb (m_last_bm_pred p) actual in
  gp ← (if m_last_gp_hit p then
          if negb (Bool.eqb predicted actual) && lpb_or_bm_hit then gp_evict ip (m_pir p) (m_global_predictor p)
          else gp_update actual ip (m_pir p) (m_global_predictor p)
        else if negb (Bool.eqb predicted actual) && (m_last_gp_hit p || negb lpb_or_bm_hit) then
          gp_update actual ip (m_pir p) (m_global_predictor p)
        else Ok (m_global_predictor p));
  Ok (mkPentiumM gp btb bm lpb (update_pir actual ip target ConditionalBranch (m_pir p))
        (m_last_gp_hit p) (m_last_bm_pred p) (m_last_lpb_hit p)).

(** ** IndirectBranchTargetBuffer *)

Definition IBTB_new (entries : nat) : list Z := replicate entries 0.
Definition ibtb_index (ip : Z) : nat := Z.to_nat (Z.land (Z.shiftr ip 6) 255).
Definition ibtb_tag (ip : Z) : Z := Z.lor (Z.shiftr (Z.land ip 16384) 8) (Z.land ip 63).
Definition ibtb_predict (t : list Z) (ip : Z) : res bool := x ← aget t (ibtb_index ip); Ok (x =? ibtb_tag ip).
Definition ibtb_update (ip : Z) (t : list Z) : res (list Z) := aset t (ibtb_index ip) (u8 (ibtb_tag ip)).

(** ** BranchPredictor *)

Inductive Predictor := OneBit (m_bits : list bool) | Pentium (p : PentiumM).
Record BranchPredictor := mkBP { bp_predictor : Predictor; m_correct_predictions : Z; m_incorrect_predictions : Z }.

Definition onebit_index (m_bits : list bool) (ip : Z) : res nat :=
  if bool_decide (m_bits = []) then Err DivByZero else Ok (Z.to_nat (u32 (ip mod Z.of_nat (length m_bits)))).

(** [None] stands for the null pointer that [create] returns for "none". *)
Definition BranchPredictor_create (garbage : bool) (type : string) (size : nat) : res (option BranchPredictor) :=
  if bool_decide (type = "none"%string) then Ok None
  else if bool_decide (type = "one_bit"%string) then Ok (Some (mkBP (OneBit (replicate size false)) 0 0))
  else if bool_decide (type = "pentium_m"%string) then p ← PentiumM_new garbage; Ok (Some (mkBP (Pentium p) 0 0))
  else Err LogError.

Definition predict (ip : Z) (b : BranchPredictor) : res (bool * BranchPredictor) :=
  match bp_predictor b with
  | OneBit bits => i ← onebit_index bits ip; x ← aget bits i; Ok (x, b)
  | Pentium p => '(x, p) ← pm_predict ip p; Ok (x, mkBP (Pentium p) (m_correct_predictions b) (m_incorrect_predictions b))
  end.

Definition updateCounters (predicted actual : bool) (b : BranchPredictor) : BranchPredictor :=
  if Bool.eqb predicted actual then mkBP (bp_predictor b) (u64 (m_correct_predictions b + 1)) (m_incorrect_predictions b)
  else mkBP (bp_predictor b) (m_correct_predictions b) (u64 (m_incorrect_predictions b + 1)).

Definition bp_update (predicted actual : bool) (ip target : Z) (b : BranchPredictor) : res BranchPredictor :=
  let b := updateCounters predicted actual b in
  p ← match bp_predictor b with
      | OneBit bits => i ← onebit_index bits ip; bits ← aset bits i actual; Ok (OneBit bits)
      | Pentium p => p ← pm_update predicted actual ip target p; Ok (Pentium p)
      end;
  Ok (mkBP p (m_correct_predictions b) (m_incorrect_predictions b)).

Definition resetCounters (b : BranchPredictor) : BranchPredictor := mkBP (bp_predictor b) 0 0.

(** Core::accessBranchPredictor: whether the branch was mispredicted *)
Definition accessBranchPredictor (eip : Z) (taken : bool) (target : Z) (bp : option BranchPredictor)
  : res (bool * option BranchPredictor) :=
  match bp with
  | Some b =>
      '(prediction, b) ← predict eip b;
      b ← bp_update prediction taken eip target b;
      Ok (negb (Bool.eqb prediction taken), Some b)
  | None => Ok (false, None)
  end.

(** ** Well-formed predictors *)

Definition sat_ok (n c : Z) : Prop := sat_min n <= c <= sat_max n.

Lemma s8_small z : -128 <= z <= 127 -> s8 z = z.
Proof.
  intros Hz. unfold swrap, wrap. change (2 ^ 8) with 256. change (2 ^ (8 - 1)) with 128.
  destruct (Z.ltb_spec (z mod 256) 128); destruct (decide (0 <= z));
    try (rewrite Z.mod_small in * by lia; lia).
  - rewrite <- (Z_mod_plus_full z 1 256), Z.mod_small in * by lia. lia.
  - rewrite <- (Z_mod_plus_full z 1 256), Z.mod_small in * by lia. lia.
Qed.

Lemma sat_range n : 1 <= n <= 8 -> 1 <= 2 ^ (n - 1) <= 128.
Proof. intros Hn. change 128 with (2 ^ 7). pose proof (Z.pow_pos_nonneg 2 (n - 1)). split; [lia|]. apply Z.pow_le_mono_r; lia. Qed.

Lemma sat_update_ok n a c : 1 <= n <= 8 -> sat_ok n c -> sat_ok n (sat_update n a c).
Proof.
  intros Hn Hc. pose proof (sat_range n Hn). unfold sat_ok, sat_update, sat_inc, sat_dec, sat_min, sat_max in *.
  destruct a.
  - destruct (Z.eqb_spec c (2 ^ (n - 1) - 1)); [lia|]. rewrite s8_small; lia.
  - destruct (Z.eqb_spec c (- 2 ^ (n - 1))); [lia|]. rewrite s8_small; lia.
Qed.

Lemma sat_reset_ok n a : 1 <= n <= 8 -> sat_ok n (sat_reset n a).
Proof. intros Hn. pose proof (sat_range n Hn). unfold sat_ok, sat_reset, sat_min, sat_max. destruct a; lia. Qed.

(** [ways] ways of [entries] entries, each of which satisfies [P] *)
Definition table_ok {E} (ways entries : nat) (P : E -> Prop) (t : list (list E)) : Prop :=
  length t = ways /\ Forall (fun w => length w = entries /\ Forall P w) t.

Section tables.
Context {E : Type} (ways entries : nat) (P : E -> Prop).

Lemma table_new e : P e -> table_ok ways entries P (replicate ways (replicate entries e)).
Proof.
  intros He. split; [apply length_replicate|]. apply Forall_replicate. split; [apply length_replicate|]. by apply Forall_replicate.
Qed.

Lemma column_ok t i : table_ok ways entries P t -> (i < entries)%nat -> exists l, column t i = Ok l /\ length l = ways /\ Forall P l /\
  (forall w, l !! w = t !! w ≫= (.!! i)).
Proof.
  intros [Hl Ht] Hi. rewrite <- Hl. clear Hl. induction Ht as [|w t [Hw HP] Ht IH]; cbn [column].
  { exists []. split_and!; try done. }
  destruct (aget_lt w i) as (e & He & Hlk); [lia|]. destruct IH as (l & El & Hlen & HPl & Hlook).
  exists (e :: l). rewrite He, El. cbn. split_and!; [done|by rewrite Hlen|constructor; [exact (Forall_lookup_1 _ _ _ _ HP Hlk)|done]|].
  intros [|k]; cbn; [done|apply Hlook].
Qed.

Lemma search_range (hit : E -> bool) (lru : E -> Z) l w lru_way m n :
  (w + length l = n)%nat -> (lru_way < n)%nat ->
  match search hit lru w lru_way m l with
  | Hit k => (w <= k < n)%nat /\ exists e, l !! (k - w)%nat = Some e /\ hit e = true
  | Miss k => (k < n)%nat /\ Forall (fun e => hit e = false) l
  end.
Proof.
  revert w lru_way m. induction l as [|e l IH]; intros w lru_way m Hn Hw; cbn [search length] in *; [done|].
  destruct (hit e) eqn:Eh.
  { split; [lia|]. exists e. by rewrite Nat.sub_diag. }
  destruct (lru e <? m).
  - specialize (IH (S w) w (lru e)). destruct (search hit lru (S w) w (lru e) l) as [k|k].
    + destruct IH as [Hk (e' & He' & Hh)]; [lia..|]. split; [lia|]. exists e'. by replace (k - w)%nat with (S (k - S w)) by lia.
    + destruct IH; [lia..|]. split; [done|by constructor].
  - specialize (IH (S w) lru_way m). destruct (search hit lru (S w) lru_way m l) as [k|k].
    + destruct IH as [Hk (e' & He' & Hh)]; [lia..|]. split; [lia|]. exists e'. by replace (k - w)%nat with (S (k - S w)) by lia.
    + destruct IH; [lia..|]. split; [done|by constructor].
Qed.

Lemma search_ways_range (hit : E -> bool) (lru : E -> Z) l :
  l <> [] -> match search_ways hit lru l with
  | Hit k => exists e, l !! k = Some e /\ hit e = true
  | Miss k => (k < length l)%nat /\ Forall (fun e => hit e = false) l
  end.
Proof.
  intros Hl. assert (0 < length l)%nat by (destruct l; cbn; [done|lia]). unfold search_ways.
  pose proof (search_range hit lru l 0 0 (match l with e :: _ => lru e | [] => 0 end) (length l) eq_refl ltac:(done)) as Hs.
  destruct (search _ _ _ _ _ _) as [k|k]; [|done]. destruct Hs as [_ Hs]. by rewrite Nat.sub_0_r in Hs.
Qed.

(** One entry changes. *)
Lemma set_entry_ok t w i f :
  table_ok ways entries P t -> (w < ways)%nat -> (i < entries)%nat -> (forall e, P e -> P (f e)) ->
  exists t', set_entry t w i f = Ok t' /\ table_ok ways entries P t' /\
    (forall w' i', t' !! w' ≫= (.!! i') = if decide (w' = w /\ i' = i) then f <$> (t !! w ≫= (.!! i)) else t !! w' ≫= (.!! i')).
Proof.
  intros [Hl Ht] Hw Hi Hf. unfold set_entry. destruct (aget_lt t w) as (way & -> & Hway); [lia|]. cbn [mbind res_bind].
  destruct (Forall_lookup_1 _ _ _ _ Ht Hway) as [Hlen HP]. destruct (aget_lt way i) as (e & -> & He); [lia|]. cbn [mbind res_bind].
  rewrite aset_lt by lia. cbn [mbind res_bind]. rewrite aset_lt by lia. eexists. split; [done|]. split; [split|].
  - by rewrite length_insert.
  - apply Forall_insert; [done|]. split; [by rewrite length_insert|]. apply Forall_insert; [done|]. apply Hf. exact (Forall_lookup_1 _ _ _ _ HP He).
  - intros w' i'. destruct (decide (w' = w)) as [->|Hne].
    + rewrite list_lookup_insert_eq by lia. rewrite Hway. cbn. rewrite He. destruct (decide (i' = i)) as [->|Hne].
      * rewrite decide_True by done. cbn. by rewrite list_lookup_insert_eq by lia.
      * rewrite decide_False by naive_solver. by rewrite list_lookup_insert_ne.
    + rewrite decide_False by naive_solver. by rewrite list_lookup_insert_ne.
Qed.
End tables.

Lemma land_index x (k : nat) : (Z.to_nat (Z.land x (Z.ones (Z.of_nat k))) < 2 ^ k)%nat.
Proof.
  rewrite Z.land_ones by lia. pose proof (Z.mod_pos_bound x (2 ^ Z.of_nat k)) as Hb.
  assert (0 < 2 ^ Z.of_nat k) by (apply Z.pow_pos_nonneg; lia). specialize (Hb ltac:(done)).
  apply Nat2Z.inj_lt. rewrite Z2Nat.id, Nat2Z.inj_pow by lia. change (Z.of_nat 2) with 2. lia.
Qed.

Lemma IP_TO_INDEX_lt ip : (IP_TO_INDEX ip < 512)%nat.
Proof. apply (land_index _ 9). Qed.
Lemma gp_index_lt ip pir : (gp_index ip pir < 512)%nat.
Proof. apply (land_index _ 9). Qed.
Lemma lp_index_lt ip : (lp_index ip < 64)%nat.
Proof. apply (land_index _ 6). Qed.

Definition gp_ok (t : GlobalPredictor) : Prop := table_ok 4 512 (fun e => sat_ok 2 (gp_counter e)) (gp_ways t).
Definition btb_ok (t : BTB) : Prop := table_ok 4 512 (fun _ => True) (btb_ways t).
Definition lp_ok (t : LoopBranchPredictor) : Prop := table_ok 2 64 (fun e => sat_ok 1 (lp_counter e)) (lp_ways t).
Definition bm_ok (t : SimpleBimodalTable) : Prop :=
  bm_mask t = 4095 /\ length (bm_table t) = 4096%nat /\ Forall (sat_ok 2) (bm_table t).
Definition pm_ok (p : PentiumM) : Prop :=
  gp_ok (m_global_predictor p) /\ btb_ok (m_btb p) /\ bm_ok (m_bimodal_table p) /\ lp_ok (m_lpb p) /\ in_width 15 (m_pir p).

Lemma column_nonempty {E} ways entries (P : E -> Prop) t i :
  table_ok (S ways) entries P t -> (i < entries)%nat ->
  exists l, column t i = Ok l /\ l <> [] /\ length l = S ways /\ Forall P l /\ (forall w, l !! w = t !! w ≫= (.!! i)).
Proof.
  intros Ht Hi. destruct (column_ok _ _ P t i Ht Hi) as (l & E1 & Hl & HP & Hlk). exists l. split_and!; try done. by intros ->.
Qed.

Lemma btb_lookup_ok t ip : btb_ok t -> exists b, btb_lookup t ip = Ok b.
Proof.
  intros Ht. destruct (column_nonempty _ _ _ _ _ Ht (IP_TO_INDEX_lt ip)) as (l & El & _). unfold btb_lookup. rewrite El. eauto.
Qed.

(** [search_ways] gives a way of the table. *)
Lemma search_ways_lt {E} (hit : E -> bool) (lru : E -> Z) l n :
  length l = S n -> (match search_ways hit lru l with Hit w | Miss w => w end < S n)%nat.
Proof.
  intros Hl. assert (l <> []) as Hne by (by destruct l). pose proof (search_ways_range hit lru l Hne) as Hs.
  destruct (search_ways hit lru l) as [w|w]; rewrite <- Hl; [|apply Hs]. destruct Hs as (e & He & _). by eapply lookup_lt_Some.
Qed.

Lemma btb_update_ok t ip : btb_ok t -> exists t', btb_update ip t = Ok t' /\ btb_ok t'.
Proof.
  intros Ht. destruct (column_nonempty _ _ _ _ _ Ht (IP_TO_INDEX_lt ip)) as (l & El & _ & Hl & _).
  unfold btb_update. rewrite El. cbn [mbind res_bind]. cbv zeta.
  pose proof (search_ways_lt (fun e => m_tag_offset e =? IP_TO_TAGOFF ip) m_plru l 3 Hl) as Hw.
  destruct (search_ways _ _ l) as [w|w];
    (edestruct (set_entry_ok 4 512 (fun _ => True) (btb_ways t) w (IP_TO_INDEX ip)) as (ways & -> & Hok & _);
     [exact Ht|exact Hw|apply IP_TO_INDEX_lt|done|]); eexists; split; try done; exact Hok.
Qed.

Lemma gp_lookup_ok t ip pir : gp_ok t -> exists r, gp_lookup t ip pir = Ok r.
Proof.
  intros Ht. destruct (column_nonempty _ _ _ _ _ Ht (gp_index_lt ip pir)) as (l & El & _). unfold gp_lookup. rewrite El. eauto.
Qed.

Lemma gp_update_ok t a ip pir : gp_ok t -> exists t', gp_update a ip pir t = Ok t' /\ gp_ok t'.
Proof.
  intros Ht. destruct (column_nonempty _ _ _ _ _ Ht (gp_index_lt ip pir)) as (l & El & _ & Hl & _).
  unfold gp_update. rewrite El. cbn [mbind res_bind]. cbv zeta.
  pose proof (search_ways_lt (gp_match (gp_gen_tag ip pir)) gp_lru l 3 Hl) as Hw.
  destruct (search_ways _ _ l) as [w|w];
    (edestruct (set_entry_ok 4 512 (fun e => sat_ok 2 (gp_counter e)) (gp_ways t) w (gp_index ip pir)) as (ways & -> & Hok & _);
     [exact Ht|exact Hw|apply gp_index_lt| |]); cbn [mbind res_bind]; try (eexists; split; [done|exact Hok]).
  - intros e He. cbn. apply sat_update_ok; [lia|exact He].
  - intros e _. cbn. apply sat_reset_ok. lia.
Qed.

Lemma gp_evict_ok t ip pir : gp_ok t -> exists t', gp_evict ip pir t = Ok t' /\ gp_ok t'.
Proof.
  intros Ht. destruct (column_nonempty _ _ _ _ _ Ht (gp_index_lt ip pir)) as (l & El & _ & Hl & _).
  unfold gp_evict. rewrite El. cbn [mbind res_bind].
  pose proof (search_ways_lt (gp_match (gp_gen_tag ip pir)) gp_lru l 3 Hl) as Hw.
  destruct (search_ways _ _ l) as [w|w]; [|eauto].
  edestruct (set_entry_ok 4 512 (fun e => sat_ok 2 (gp_counter e)) (gp_ways t) w (gp_index ip pir)) as (ways & -> & Hok & _);
     [exact Ht|exact Hw|apply gp_index_lt| |eexists; split; [done|exact Hok]]. intros e He. exact He.
Qed.

Lemma lp_lookup_ok t ip : lp_ok t -> exists h p t', lp_lookup ip t = Ok (h, p, t') /\ lp_ok t'.
Proof.
  intros Ht. destruct (column_nonempty _ _ _ _ _ Ht (lp_index_lt ip)) as (l & El & Hne & Hl & _).
  unfold lp_lookup. rewrite El. cbn [mbind res_bind]. cbv zeta.
  pose proof (search_ways_range (fun e => m_enabled e && (lp_tag e =? lp_gen_tag ip)) lp_lru l Hne) as Hs.
  destruct (search_ways _ _ l) as [w|w]; [|eauto 6]. destruct Hs as (e & He & _). rewrite He.
  edestruct (set_entry_ok 2 64 (fun e => sat_ok 1 (lp_counter e)) (lp_ways t) w (lp_index ip)) as (ways & -> & Hok & _);
    [exact Ht|rewrite <- Hl; by eapply lookup_lt_Some|apply lp_index_lt| |do 3 eexists; split; [done|exact Hok]]. intros x Hx. exact Hx.
Qed.

Lemma lp_entry_update_ok c a e : sat_ok 1 (lp_counter e) -> sat_ok 1 (lp_counter (lp_entry_update c a e)).
Proof.
  intros He. unfold lp_entry_update. destruct (same_direction e a) as [[? ?] ?].
  destruct (_ && _); [cbn; apply sat_update_ok; [lia|done]|]. by destruct (_ && _).
Qed.

Lemma lp_update_ok t a ip : lp_ok t -> exists t', lp_update a ip t = Ok t' /\ lp_ok t'.
Proof.
  intros Ht. destruct (column_nonempty _ _ _ _ _ Ht (lp_index_lt ip)) as (l & El & _ & Hl & _).
  unfold lp_update. rewrite El. cbn [mbind res_bind]. cbv zeta.
  pose proof (search_ways_lt (fun e => lp_tag e =? lp_gen_tag ip) lp_lru l 1 Hl) as Hw.
  destruct (search_ways _ _ l) as [w|w];
    (edestruct (set_entry_ok 2 64 (fun e => sat_ok 1 (lp_counter e)) (lp_ways t) w (lp_index ip)) as (ways & -> & Hok & _);
     [exact Ht|exact Hw|apply lp_index_lt| |]); cbn [mbind res_bind]; try (eexists; split; [done|exact Hok]).
  - intros e He. by apply lp_entry_update_ok.
  - intros e _. cbn. apply sat_reset_ok. lia.
Qed.

Lemma bm_index_lt t ip : bm_ok t -> (bm_index t ip < length (bm_table t))%nat.
Proof.
  intros (Hm & Hl & _). unfold bm_index. rewrite Hm, Hl. change 4095 with (Z.ones 12). rewrite Z.land_ones by lia.
  pose proof (Z.mod_pos_bound ip (2 ^ 12) ltac:(lia)). rewrite wrap_small by lia. lia.
Qed.

Lemma bm_update_ok t a ip : bm_ok t -> exists t', bm_update a ip t = Ok t' /\ bm_ok t'.
Proof.
  intros Ht. pose proof (bm_index_lt t ip Ht) as Hi. destruct Ht as (Hm & Hl & HP). unfold bm_update.
  destruct (aget_lt _ _ Hi) as (c & -> & Hc). cbn [mbind res_bind]. rewrite aset_lt by done. cbn [mbind res_bind].
  eexists. split; [done|]. split_and!; [done|cbn; by rewrite length_insert|]. cbn. apply Forall_insert; [done|].
  pose proof (Forall_lookup_1 _ _ _ _ HP Hc). exact (sat_update_ok 2 a c ltac:(lia) H).
Qed.

Lemma update_pir_ok a ip target b pir : in_width 15 pir -> in_width 15 (update_pir a ip target b pir).
Proof.
  intros Hp. assert (forall x, in_width 15 (Z.land x 32767)) as Hl.
  { intros x. change 32767 with (Z.ones 15). rewrite Z.land_ones by lia. apply Z.mod_pos_bound. lia. }
  unfold update_pir. destruct b; [done|done|apply Hl|done|destruct a; [apply Hl|done]].
Qed.

Lemma pm_predict_ok p ip : pm_ok p -> exists b p', pm_predict ip p = Ok (b, p') /\ pm_ok p'.
Proof.
  intros (Hg & Hb & Hm & Hl & Hp). unfold pm_predict.
  destruct (gp_lookup_ok _ ip (m_pir p) Hg) as ([gh gp] & ->), (btb_lookup_ok _ ip Hb) as (bh & ->),
    (lp_lookup_ok _ ip Hl) as (lh & lp & lpb & -> & Hl'). cbn [mbind res_bind].
  unfold bm_predict. destruct (aget_lt _ _ (bm_index_lt _ ip Hm)) as (c & -> & _). cbn [mbind res_bind].
  do 2 eexists. split; [done|]. by split_and!.
Qed.

Lemma pm_update_ok p a b ip target : pm_ok p -> exists p', pm_update a b ip target p = Ok p' /\ pm_ok p'.
Proof.
  intros (Hg & Hb & Hm & Hl & Hp). unfold pm_update.
  destruct (btb_update_ok _ ip Hb) as (btb & -> & Hb'), (lp_update_ok _ b ip Hl) as (lpb & -> & Hl'). cbn [mbind res_bind].
  assert (exists bm, (if negb (m_last_gp_hit p) && negb (m_last_lpb_hit p) then bm_update b ip (m_bimodal_table p)
    else Ok (m_bimodal_table p)) = Ok bm /\ bm_ok bm) as (bm & -> & Hm') by (destruct (_ && _); [by apply bm_update_ok|eauto]).
  cbn [mbind res_bind]. cbv zeta.
  match goal with |- context [if m_last_gp_hit p then ?x else ?y] =>
    assert (exists gp, (if m_last_gp_hit p then x else y) = Ok gp /\ gp_ok gp) as (gp & -> & Hg') end.
  { destruct (m_last_gp_hit p); destruct (_ && _); [by apply gp_evict_ok|by apply gp_update_ok|by apply gp_update_ok|eauto]. }
  cbn [mbind res_bind]. eexists. split; [done|]. split_and!; try done. by apply update_pir_ok.
Qed.

Definition bp_ok (b : BranchPredictor) : Prop :=
  match bp_predictor b with OneBit bits => bits <> [] /\ Z.of_nat (length bits) < 2 ^ 32 | Pentium p => pm_ok p end.

Lemma onebit_index_ok bits ip :
  bits <> [] -> Z.of_nat (length bits) < 2 ^ 32 ->
  exists i, onebit_index bits ip = Ok i /\ (i < length bits)%nat /\ Z.of_nat i = ip mod Z.of_nat (length bits).
Proof.
  intros Hne Hl. unfold onebit_index. rewrite bool_decide_false by done. eexists. split; [done|].
  assert (0 < length bits)%nat by (destruct bits; [done|cbn; lia]).
  pose proof (Z.mod_pos_bound ip (Z.of_nat (length bits)) ltac:(lia)). rewrite wrap_small by lia. split; lia.
Qed.

Lemma access_ok b ip taken target :
  bp_ok b -> exists m b', accessBranchPredictor ip taken target (Some b) = Ok (m, Some b') /\ bp_ok b'.
Proof.
  destruct b as [[bits|p] c i]; unfold bp_ok, accessBranchPredictor, predict, bp_update; cbn [bp_predictor].
  - intros [Hne Hl]. destruct (onebit_index_ok bits ip Hne Hl) as (k & Ek & Hk & _). rewrite Ek. cbn [mbind res_bind].
    destruct (aget_lt bits k Hk) as (x & -> & _). cbn [mbind res_bind]. unfold updateCounters.
    destruct (Bool.eqb x taken); cbn [bp_predictor]; rewrite Ek; cbn [mbind res_bind]; rewrite aset_lt by done;
      (do 2 eexists; split; [done|]; cbn; rewrite length_insert; split; [|done]; destruct bits, k; done).
  - intros Hp. destruct (pm_predict_ok p ip Hp) as (x & p1 & -> & Hp1). cbn [mbind res_bind]. unfold updateCounters.
    destruct (pm_update_ok p1 x taken ip target Hp1) as (p2 & E2 & Hp2).
    destruct (Bool.eqb x taken); cbn [bp_predictor]; rewrite E2; (do 2 eexists; split; [done|]; exact Hp2).
Qed.

(** A sequence of branches (address, outcome, target), and how many were mispredicted. *)
Fixpoint branches (l : list (Z * bool * Z)) (bp : option BranchPredictor) : res (Z * option BranchPredictor) :=
  match l with
  | [] => Ok (0, bp)
  | (ip, taken, target) :: l =>
      '(m, bp) ← accessBranchPredictor ip taken target bp;
      '(k, bp) ← branches l bp;
      Ok ((if m : bool then 1 else 0) + k, bp)
  end.

Lemma branches_ok l b : bp_ok b -> exists k b', branches l (Some b) = Ok (k, Some b') /\ bp_ok b'.
Proof.
  revert b. induction l as [|[[ip taken] target] l IH]; intros b Hb; cbn [branches]; [eauto|].
  destruct (access_ok b ip taken target Hb) as (m & b1 & -> & Hb1). cbn [mbind res_bind].
  destruct (IH b1 Hb1) as (k & b2 & -> & Hb2). cbn [mbind res_bind]. eauto.
Qed.

Lemma PentiumM_new_ok garbage : exists p, PentiumM_new garbage = Ok p /\ pm_ok p.
Proof.
  assert (SimpleBimodalTable_new 4096 = Ok (mkBimodal 4095 (replicate 4096 (-2)))) as E by (vm_compute; reflexivity).
  unfold PentiumM_new. rewrite E. cbn [mbind res_bind]. eexists. split; [done|].
  split_and!; cbn [m_global_predictor m_btb m_bimodal_table m_lpb m_pir]; try (by apply table_new); try done.
  split_and!; [done|apply length_replicate|]. by apply Forall_replicate.
Qed.

Lemma create_ok garbage type size bp :
  (0 < size)%nat -> Z.of_nat size < 2 ^ 32 -> BranchPredictor_create garbage type size = Ok bp ->
  bp = None \/ exists b, bp = Some b /\ bp_ok b /\ m_correct_predictions b = 0 /\ m_incorrect_predictions b = 0.
Proof.
  intros H0 Hs. unfold BranchPredictor_create. destruct (PentiumM_new_ok garbage) as (p & Ep & Hp). rewrite Ep.
  repeat case_bool_decide; cbn; intros [= <-]; [by left|right|right]; eexists; (split_and!; [done| |done|done]); [|exact Hp].
  split; [destruct size; [lia|done]|]. by rewrite length_replicate.
Qed.

(** C30: a branch predictor of any configured type never indexes its tables out of their bounds, and after any sequence of branches
    its state is well formed: tables of the configured sizes, the counters of each table within their number of bits, and
    the path history within fifteen bits. *)
Theorem predictor_well_formed (garbage : bool) (type : string) (size : nat) (b : BranchPredictor) (l : list (Z * bool * Z)) :
  (0 < size)%nat -> Z.of_nat size < 2 ^ 32 -> BranchPredictor_create garbage type size = Ok (Some b) ->
  exists k b', branches l (Some b) = Ok (k, Some b') /\ bp_ok b'.
Proof.
  intros H0 Hs E. destruct (create_ok _ _ _ _ H0 Hs E) as [|(b0 & [= <-] & Hb & _)]; [done|]. by apply branches_ok.
Qed.

Lemma predictor_well_formed_witness :
  exists k b', branches [(64, true, 0); (80, false, 0)] (Some (mkBP (OneBit (replicate 8 false)) 0 0)) = Ok (k, Some b') /\ bp_ok b'.
Proof. apply (predictor_well_formed false "one_bit" 8); [lia|lia|reflexivity]. Defined.

(** ** The loop predictor learns loops *)

(** The part of an entry that determines its predictions. *)
Definition lp_core (e : lp_entry) : bool * bool * Z * Z * Z := (m_previous_actual e, m_enabled e, lp_counter e, m_count e, m_limit e).

(** While the loop is seen for the first time: [j] branches in direction [d] so far. *)
Definition learning (d : bool) (j : Z) := (d, false, sat_reset 1 d, j, j).
(** Afterwards: [k] branches of the current pass of a loop of [n] branches in direction [d]. *)
Definition learned (d : bool) (n k : Z) := (if k =? 0 then negb d else d, true, sat_reset 1 d, k, n).

Lemma sat_predict_reset d : sat_predict (sat_reset 1 d) = d.
Proof. by destruct d. Qed.

Lemma learning_step c d j e :
  0 <= j < 2 ^ 32 - 1 -> lp_core e = learning d j -> lp_core (lp_entry_update c d e) = learning d (j + 1).
Proof.
  intros Hj [= H1 H2 H3 H4 H5]. unfold lp_entry_update, same_direction, prediction_match.
  rewrite H1, H2, H3, H4, H5, sat_predict_reset, Z.eqb_refl, Z.ltb_irrefl, Bool.eqb_reflx. cbn [negb].
  rewrite wrap_small by lia. unfold lp_core, learning. by destruct d.
Qed.

Lemma learning_end c d n e :
  lp_core e = learning d n -> lp_core (lp_entry_update c (negb d) e) = learned d n 0.
Proof.
  intros [= H1 H2 H3 H4 H5]. unfold lp_entry_update, same_direction, prediction_match.
  rewrite H1, H2, H3, H4, H5, sat_predict_reset, Z.eqb_refl. unfold lp_core, learned. by destruct d.
Qed.

Lemma learned_step c d n k e :
  0 <= k < n -> n < 2 ^ 32 -> lp_core e = learned d n k ->
  lp_prediction e = d /\ lp_core (lp_entry_update c d e) = learned d n (k + 1).
Proof.
  intros Hk Hn [= H1 H2 H3 H4 H5]. unfold lp_prediction, lp_entry_update, same_direction, prediction_match.
  rewrite H1, H2, H3, H4, H5, sat_predict_reset, (proj2 (Z.eqb_neq k n)), Bool.eqb_reflx by lia. split; [done|].
  rewrite wrap_small by lia. unfold lp_core, learned. rewrite (proj2 (Z.eqb_neq (k + 1) 0)) by lia. destruct d, (k =? 0); done.
Qed.

Lemma learned_end c d n e :
  0 < n -> lp_core e = learned d n n -> lp_prediction e = negb d /\ lp_core (lp_entry_update c (negb d) e) = learned d n 0.
Proof.
  intros Hn [= H1 H2 H3 H4 H5]. unfold lp_prediction, lp_entry_update, same_direction, prediction_match.
  rewrite H1, H2, H3, H4, H5, sat_predict_reset, Z.eqb_refl, (proj2 (Z.eqb_neq n 0)) by lia. split; [done|].
  unfold lp_core, learned. by destruct d.
Qed.

(** The branch at [ip] has the entry in way 0 of its set, with core [c]; the other way is not in use. *)
Definition holds (ip : Z) (t : LoopBranchPredictor) (c : bool * bool * Z * Z * Z) : Prop :=
  lp_ok t /\ (exists e, lp_ways t !! 0%nat ≫= (.!! lp_index ip) = Some e /\ lp_tag e = lp_gen_tag ip /\ lp_core e = c) /\
  (exists e, lp_ways t !! 1%nat ≫= (.!! lp_index ip) = Some e /\ m_enabled e = false).

(** What [lp_lookup] answers for an entry. *)
Definition answer (e : lp_entry) : bool * bool := if m_enabled e then (true, lp_prediction e) else (false, false).

Lemma holds_column ip t c :
  holds ip t c -> exists e0 e1, column (lp_ways t) (lp_index ip) = Ok [e0; e1] /\ lp_tag e0 = lp_gen_tag ip /\ lp_core e0 = c /\
    m_enabled e1 = false /\ lp_ways t !! 0%nat ≫= (.!! lp_index ip) = Some e0 /\ lp_ways t !! 1%nat ≫= (.!! lp_index ip) = Some e1.
Proof.
  intros (Hok & (e0 & H0 & Ht & Hc) & (e1 & H1 & Hd)). exists e0, e1. split_and!; try done.
  destruct (column_nonempty _ _ _ _ _ Hok (lp_index_lt ip)) as (l & -> & _ & Hl & _ & Hlk). rewrite <- Hlk in H0, H1.
  destruct l as [|a [|b [|? ?]]]; cbn in *; simplify_eq. done.
Qed.

Lemma holds_set ip t f use :
  lp_ok t -> (forall e, sat_ok 1 (lp_counter e) -> sat_ok 1 (lp_counter (f e))) ->
  (exists e, lp_ways t !! 1%nat ≫= (.!! lp_index ip) = Some e /\ m_enabled e = false) ->
  forall e0, lp_ways t !! 0%nat ≫= (.!! lp_index ip) = Some e0 -> lp_tag (f e0) = lp_gen_tag ip ->
  exists ways, set_entry (lp_ways t) 0 (lp_index ip) f = Ok ways /\ holds ip (mkLoop ways use) (lp_core (f e0)).
Proof.
  intros Hok Hf H1 e0 H0 Ht. destruct (set_entry_ok 2 64 (fun e => sat_ok 1 (lp_counter e)) (lp_ways t) 0 (lp_index ip) f)
    as (ways & -> & Hok' & Hlk); [exact Hok|lia|apply lp_index_lt|done|]. exists ways. split; [done|]. split_and!; [exact Hok'| |].
  - exists (f e0). cbn [lp_ways]. rewrite Hlk, decide_True by done. rewrite H0. done.
  - destruct H1 as (e1 & H1 & Hd). exists e1. cbn [lp_ways]. rewrite Hlk, decide_False by lia. done.
Qed.

(** A lookup and an update of the branch at [ip]. *)
Definition lp_branch (ip : Z) (actual : bool) (t : LoopBranchPredictor) : res (bool * bool * LoopBranchPredictor) :=
  '(h, p, t) ← lp_lookup ip t; t ← lp_update actual ip t; Ok (h, p, t).

Lemma holds_branch ip a t c :
  holds ip t c -> exists e t', lp_core e = c /\ lp_branch ip a t = Ok (answer e, t') /\ holds ip t' (lp_core (lp_entry_update 0 a e)).
Proof.
  intros Hh. destruct (holds_column ip t c Hh) as (e0 & e1 & El & Ht & Hc & Hd & H0 & H1). destruct (Hh) as (Hok & _ & Hone).
  assert (forall use e, lp_core (lp_entry_update use a e) = lp_core (lp_entry_update 0 a e)) as Huse.
  { intros use e. unfold lp_entry_update. destruct (same_direction e a) as [[? ?] ?]. by repeat case_match. }
  (* the update, from a table that holds the entry [e] *)
  assert (forall e t1, holds ip t1 (lp_core e) -> exists t', lp_update a ip t1 = Ok t' /\ holds ip t' (lp_core (lp_entry_update 0 a e))) as Hupd.
  { intros e t1 Hh1. destruct (holds_column ip t1 _ Hh1) as (f0 & f1 & Ef & Hft & Hfc & Hfd & Hf0 & Hf1).
    unfold lp_update. rewrite Ef. cbn [mbind res_bind]. cbv zeta. unfold search_ways. cbn [search]. rewrite Hft, Z.eqb_refl.
    destruct (holds_set ip t1 (lp_entry_update (lp_use_count t1) a) (u64 (lp_use_count t1 + 1)) (proj1 Hh1)
      (fun e He => lp_entry_update_ok _ _ _ He) (proj2 (proj2 Hh1)) f0 Hf0) as (ways & -> & Hw).
    { unfold lp_entry_update. destruct (same_direction f0 a) as [[? ?] ?]. by repeat case_match. }
    cbn [mbind res_bind]. eexists. split; [done|]. rewrite Huse in Hw.
    replace (lp_core (lp_entry_update 0 a e)) with (lp_core (lp_entry_update 0 a f0)); [done|].
    destruct e, f0. unfold lp_core in Hfc. cbn in Hfc. simplify_eq. unfold lp_entry_update, lp_core, same_direction, prediction_match.
    cbn. by repeat case_match. }
  exists e0. unfold lp_branch, lp_lookup, answer. rewrite El. cbn [mbind res_bind]. cbv zeta. unfold search_ways. cbn [search].
  rewrite Ht, Z.eqb_refl, Hd, andb_true_r. destruct (m_enabled e0) eqn:Een; cbn [lookup list_lookup].
  - destruct (holds_set ip t (fun e => mkLp (lp_tag e) (m_previous_actual e) (m_enabled e) (lp_counter e) (lp_use_count t) (m_count e) (m_limit e))
      (u64 (lp_use_count t + 1)) Hok ltac:(done) Hone e0 H0 Ht) as (ways & -> & Hw). cbn [mbind res_bind].
    destruct (Hupd e0 _ Hw) as (t' & -> & Ht'). exists t'. done.
  - rewrite <- Hc in Hh. destruct (Hupd e0 t Hh) as (t' & Et & Ht'). exists t'. split_and!; [done| |done].
    rewrite Z.ltb_irrefl. cbn [andb]. destruct (lp_lru e1 <? lp_lru e0); cbn [mbind res_bind]; rewrite Et; done.
Qed.

(** *** The branch among others *)

(** The branches at [l] one after the other: what the predictor answers for each. *)
Fixpoint lp_trace (l : list (Z * bool)) (t : LoopBranchPredictor) : res (list (Z * (bool * bool)) * LoopBranchPredictor) :=
  match l with
  | [] => Ok ([], t)
  | (ip, a) :: l => '(h, p, t) ← lp_branch ip a t; '(r, t) ← lp_trace l t; Ok ((ip, (h, p)) :: r, t)
  end.

(** Those of the branch at [ip]. *)
Definition at_ip {A} (ip : Z) (l : list (Z * A)) : list A := omap (fun x => if decide (x.1 = ip) then Some x.2 else None) l.

(** The set of [ip] is the same in both tables. *)
Definition same_set (ip : Z) (t t' : LoopBranchPredictor) : Prop :=
  lp_ok t' /\ forall w, lp_ways t' !! w ≫= (.!! lp_index ip) = lp_ways t !! w ≫= (.!! lp_index ip).

Lemma same_set_entry ip ip' t w f c :
  lp_ok t -> lp_index ip' <> lp_index ip -> (w < 2)%nat ->
  (forall e, sat_ok 1 (lp_counter e) -> sat_ok 1 (lp_counter (f e))) ->
  exists ways, set_entry (lp_ways t) w (lp_index ip') f = Ok ways /\ same_set ip t (mkLoop ways c).
Proof.
  intros Hok Hne Hw Hf. destruct (set_entry_ok 2 64 (fun e => sat_ok 1 (lp_counter e)) (lp_ways t) w (lp_index ip') f)
    as (ways & -> & Hok' & Hlk); [exact Hok|done|apply lp_index_lt|done|]. exists ways. split; [done|]. split; [exact Hok'|].
  intros v. cbn [lp_ways]. rewrite Hlk. rewrite decide_False by naive_solver. done.
Qed.

Lemma lookup_other ip ip' t :
  lp_ok t -> lp_index ip' <> lp_index ip -> exists h p t', lp_lookup ip' t = Ok (h, p, t') /\ same_set ip t t'.
Proof.
  intros Ht Hne. destruct (column_nonempty _ _ _ _ _ Ht (lp_index_lt ip')) as (l & El & Hnil & Hl & _).
  unfold lp_lookup. rewrite El. cbn [mbind res_bind]. cbv zeta.
  pose proof (search_ways_range (fun e => m_enabled e && (lp_tag e =? lp_gen_tag ip')) lp_lru l Hnil) as Hs.
  destruct (search_ways _ _ l) as [w|w]; [|by do 3 eexists]. destruct Hs as (e & He & _). rewrite He.
  edestruct (same_set_entry ip ip' t w) as (ways & -> & Hs'); [done|done|rewrite <- Hl; by eapply lookup_lt_Some| |].
  - by intros e' He'.
  - do 3 eexists. split; [done|exact Hs'].
Qed.

Lemma update_other ip ip' a t :
  lp_ok t -> lp_index ip' <> lp_index ip -> exists t', lp_update a ip' t = Ok t' /\ same_set ip t t'.
Proof.
  intros Ht Hne. destruct (column_nonempty _ _ _ _ _ Ht (lp_index_lt ip')) as (l & El & _ & Hl & _).
  unfold lp_update. rewrite El. cbn [mbind res_bind]. cbv zeta.
  pose proof (search_ways_lt (fun e => lp_tag e =? lp_gen_tag ip') lp_lru l 1 Hl) as Hw.
  destruct (search_ways _ _ l) as [w|w]; (edestruct (same_set_entry ip ip' t w) as (ways & -> & Hs'); [done|done|exact Hw| |]);
    cbn [mbind res_bind]; try (eexists; split; [done|exact Hs']).
  - intros e He. by apply lp_entry_update_ok.
  - intros e _. cbn. apply sat_reset_ok. lia.
Qed.

(** A branch of another set leaves the set of [ip] alone. *)
Lemma branch_other ip ip' a t :
  lp_ok t -> lp_index ip' <> lp_index ip -> exists r t', lp_branch ip' a t = Ok (r, t') /\ same_set ip t t'.
Proof.
  intros Ht Hne. destruct (lookup_other ip ip' t Ht Hne) as (h & p & t1 & E1 & Hok1 & Hs1).
  destruct (update_other ip ip' a t1 Hok1 Hne) as (t2 & E2 & Hok2 & Hs2).
  exists (h, p), t2. unfold lp_branch. rewrite E1. cbn [mbind res_bind]. rewrite E2. split; [done|]. split; [done|].
  intros w. by rewrite Hs2, Hs1.
Qed.

(** The set of [ip]: not in use, or with an entry for the branch. *)
Definition known (ip : Z) (t : LoopBranchPredictor) (c : option (bool * bool * Z * Z * Z)) : Prop :=
  match c with
  | Some c => holds ip t c
  | None => lp_ok t /\ forall w, (w < 2)%nat -> lp_ways t !! w ≫= (.!! lp_index ip) = Some lp_entry_new
  end.

Lemma known_same ip t t' c : known ip t c -> same_set ip t t' -> known ip t' c.
Proof.
  intros Hk [Hok Hs]. destruct c as [c|]; cbn in *.
  - destruct Hk as (_ & H0 & H1). split_and!; [done|by rewrite Hs..].
  - split; [done|]. intros w Hw. rewrite Hs. by apply Hk.
Qed.

(** The answer to a branch, and the core of its entry afterwards. *)
Definition entry_of (c : bool * bool * Z * Z * Z) : lp_entry := let '(p, en, counter, n, l) := c in mkLp 0 p en counter 0 n l.
Definition core_step (c : option (bool * bool * Z * Z * Z)) (a : bool) : (bool * bool) * (bool * bool * Z * Z * Z) :=
  match c with
  | None => ((false, false), learning a 1)
  | Some c => (answer (entry_of c), lp_core (lp_entry_update 0 a (entry_of c)))
  end.

Lemma core_entry_of c : lp_core (entry_of c) = c.
Proof. by destruct c as [[[[? ?] ?] ?] ?]. Qed.

(** The first branch takes an entry. *)
Lemma first_branch ip d t : known ip t None -> exists t', lp_branch ip d t = Ok ((false, false), t') /\ holds ip t' (learning d 1).
Proof.
  intros [Hok Hlk]. pose proof (lp_index_lt ip) as Hi.
  assert (column (lp_ways t) (lp_index ip) = Ok [lp_entry_new; lp_entry_new]) as Hcol.
  { destruct (column_nonempty _ _ _ _ _ Hok Hi) as (l & -> & _ & Hl & _ & Hlc). pose proof (Hlc 0%nat) as H0. pose proof (Hlc 1%nat) as H1.
    rewrite Hlk in H0, H1 by lia. destruct l as [|a [|b [|? ?]]]; cbn in *; simplify_eq. done. }
  unfold lp_branch, lp_lookup. rewrite Hcol. cbn [mbind res_bind]. unfold search_ways at 1. cbn [search m_enabled lp_entry_new andb lp_lru].
  change (0 <? 0) with false. cbn [mbind res_bind]. unfold lp_update. rewrite Hcol. cbn [mbind res_bind]. cbv zeta. unfold search_ways. cbn [search lp_tag lp_entry_new lp_lru].
  change (0 <? 0) with false. destruct (Z.eqb_spec 0 (lp_gen_tag ip)) as [Et|Et]; cbv iota.
  - destruct (holds_set ip t (lp_entry_update (lp_use_count t) d) (u64 (lp_use_count t + 1)) Hok (fun e He => lp_entry_update_ok _ _ _ He)
      (ex_intro _ lp_entry_new (conj (Hlk 1%nat ltac:(lia)) eq_refl)) lp_entry_new (Hlk 0%nat ltac:(lia))) as (ways & E & Hw).
    { rewrite <- Et. by destruct d. }
    rewrite E. cbn [mbind res_bind]. eexists. split; [done|]. destruct d; exact Hw.
  - destruct (holds_set ip t (lp_entry_allocate (lp_use_count t) (lp_gen_tag ip) d) (u64 (lp_use_count t + 1)) Hok
      (fun e _ => sat_reset_ok 1 d ltac:(lia)) (ex_intro _ lp_entry_new (conj (Hlk 1%nat ltac:(lia)) eq_refl)) lp_entry_new
      (Hlk 0%nat ltac:(lia)) eq_refl) as (ways & E & Hw).
    rewrite E. cbn [mbind res_bind]. eexists. split; [done|]. exact Hw.
Qed.

Lemma known_branch ip a t c :
  known ip t c -> exists t', lp_branch ip a t = Ok ((core_step c a).1, t') /\ known ip t' (Some (core_step c a).2).
Proof.
  destruct c as [c|]; [|apply first_branch]. intros Hk. destruct (holds_branch ip a t c Hk) as (e & t' & He & E & Ht').
  exists t'. cbn. rewrite <- He at 1 2.
  assert (answer (entry_of (lp_core e)) = answer e) as -> by (by destruct e).
  assert (lp_core (lp_entry_update 0 a (entry_of (lp_core e))) = lp_core (lp_entry_update 0 a e)) as ->; [|done].
  destruct e. unfold lp_entry_update, same_direction, prediction_match. cbn. by repeat case_match.
Qed.

Fixpoint core_run (c : option (bool * bool * Z * Z * Z)) (l : list bool) : list (bool * bool) :=
  match l with [] => [] | a :: l => (core_step c a).1 :: core_run (Some (core_step c a).2) l end.

(** What the branch at [ip] is answered depends on its own outcomes only, if the other branches are in other sets. *)
Lemma trace_answers ip l t c :
  known ip t c -> Forall (fun b => b.1 = ip \/ lp_index b.1 <> lp_index ip) l ->
  exists r t', lp_trace l t = Ok (r, t') /\ at_ip ip r = core_run c (at_ip ip l).
Proof.
  intros Hk HF. revert t c Hk. induction HF as [|[ip' a] l Hb HF IH]; intros t c Hk; cbn [lp_trace]; [by eexists _, _|].
  unfold at_ip. cbn [omap list_omap fst snd]. fold (at_ip (A := bool) ip). fold (at_ip (A := bool * bool) ip). cbn in Hb.
  destruct (decide (ip' = ip)) as [->|Hne].
  - destruct (known_branch ip a t c Hk) as (t1 & -> & Hk1). destruct (core_step c a) as [[h p] c1] eqn:Ec. cbn [fst snd mbind res_bind] in *.
    destruct (IH t1 _ Hk1) as (r & t2 & -> & Hr). cbn [mbind res_bind]. do 2 eexists. split; [done|].
    cbn [omap list_omap fst snd]. rewrite decide_True by done. cbn [core_run]. rewrite Ec. f_equal. exact Hr.
  - destruct Hb as [|Hb]; [done|]. assert (lp_ok t) as Hok by (destruct c; apply Hk).
    destruct (branch_other ip ip' a t Hok Hb) as ([h p] & t1 & -> & Hs). cbn [mbind res_bind].
    destruct (IH t1 c (known_same _ _ _ _ Hk Hs)) as (r & t2 & -> & Hr). cbn [mbind res_bind]. do 2 eexists. split; [done|].
    cbn [omap list_omap fst snd]. by rewrite decide_False.
Qed.

(** *** Passes of a loop *)

(** One pass of the loop. *)
Definition pass (d : bool) (n : nat) : list bool := replicate n d ++ [negb d].

Lemma learned_run d n j k l :
  (j + k = n)%nat -> (0 < n)%nat -> Z.of_nat n < 2 ^ 32 ->
  core_run (Some (learned d (Z.of_nat n) (Z.of_nat k))) (pass d j ++ l) =
  ((fun a => (true, a)) <$> pass d j) ++ core_run (Some (learned d (Z.of_nat n) 0)) l.
Proof.
  intros Hj Hn Hb. revert k Hj. induction j as [|j IH]; intros k Hj; unfold pass; cbn [replicate app core_run fmap list_fmap core_step fst snd].
  - replace (Z.of_nat k) with (Z.of_nat n) by lia.
    destruct (learned_end 0 d (Z.of_nat n) (entry_of (learned d (Z.of_nat n) (Z.of_nat n)))) as [Hp Hc]; [lia|apply core_entry_of|].
    rewrite Hc. unfold answer. rewrite Hp. done.
  - destruct (learned_step 0 d (Z.of_nat n) (Z.of_nat k) (entry_of (learned d (Z.of_nat n) (Z.of_nat k)))) as [Hp Hc]; [lia|done|apply core_entry_of|].
    rewrite Hc. unfold answer. rewrite Hp. replace (Z.of_nat k + 1) with (Z.of_nat (S k)) by lia. cbn [m_enabled entry_of learned]. f_equal.
    apply (IH (S k)). lia.
Qed.

Lemma learning_run d n j k l :
  (j + k = n)%nat -> Z.of_nat n < 2 ^ 32 ->
  exists r, length r = S j /\
    core_run (Some (learning d (Z.of_nat k))) (pass d j ++ l) = r ++ core_run (Some (learned d (Z.of_nat n) 0)) l.
Proof.
  intros Hj Hb. revert k Hj. induction j as [|j IH]; intros k Hj; unfold pass; cbn [replicate app core_run core_step fst snd].
  - replace (Z.of_nat k) with (Z.of_nat n) by lia. rewrite (learning_end 0 d (Z.of_nat n)) by apply core_entry_of. by eexists [_].
  - rewrite (learning_step 0 d (Z.of_nat k)) by (lia || apply core_entry_of). replace (Z.of_nat k + 1) with (Z.of_nat (S k)) by lia.
    destruct (IH (S k) ltac:(lia)) as (r & Hl & Er). unfold pass in Er. rewrite Er.
    exists (answer (entry_of (learning d (Z.of_nat k))) :: r). by rewrite <- Hl.
Qed.

Lemma learned_passes d n m :
  (0 < n)%nat -> Z.of_nat n < 2 ^ 32 ->
  core_run (Some (learned d (Z.of_nat n) 0)) (concat (replicate m (pass d n))) = (fun a => (true, a)) <$> concat (replicate m (pass d n)).
Proof.
  intros Hn Hb. induction m as [|m IH]; cbn [replicate concat]; [done|].
  rewrite (learned_run d n n 0) by lia. by rewrite IH, fmap_app.
Qed.

(** C29: the loop predictor learns loops: in a run of a new predictor, let a branch go [n] times in one direction and then once in the
    other, over and over, from its first execution on, among any branches that use other sets of the table; then it hits the
    predictor and is predicted correctly every time from its second pass on. *)
Theorem loop_predictor_learns (ip : Z) (d : bool) (n m : nat) (l : list (Z * bool)) :
  (0 < n)%nat -> Z.of_nat n < 2 ^ 32 ->
  Forall (fun b => b.1 = ip \/ lp_index b.1 <> lp_index ip) l -> at_ip ip l = concat (replicate (S m) (pass d n)) ->
  exists answers t', lp_trace l (LoopBranchPredictor_new 128 2) = Ok (answers, t') /\
    drop (S n) (at_ip ip answers) = (fun a => (true, a)) <$> drop (S n) (at_ip ip l).
Proof.
  intros Hn Hb HF Hl. assert (known ip (LoopBranchPredictor_new 128 2) None) as Hk.
  { split; [by apply table_new|]. intros w Hw. change (lp_ways _) with (replicate 2 (replicate 64 lp_entry_new)).
    rewrite lookup_replicate_2 by done. cbn [mbind option_bind]. apply lookup_replicate_2, lp_index_lt. }
  destruct (trace_answers ip l _ None Hk HF) as (r & t' & E & Hr). exists r, t'. split; [exact E|]. rewrite Hr, Hl.
  destruct n as [|n]; [lia|]. cbn [replicate concat].
  destruct (learning_run d (S n) n 1 (concat (replicate m (pass d (S n))))) as (r1 & Hl1 & E1); [lia|done|].
  change (core_run None (pass d (S n) ++ concat (replicate m (pass d (S n))))) with
    ((false, false) :: core_run (Some (learning d 1)) (pass d n ++ concat (replicate m (pass d (S n))))).
  change 1 with (Z.of_nat 1). rewrite E1, (learned_passes d (S n) m) by lia.
  change (drop (S (S n)) ((false, false) :: r1 ++ ?x)) with (drop (S n) (r1 ++ x)).
  assert (length (pass d (S n)) = S (S n)) as Hp by (unfold pass; rewrite length_app, length_replicate; cbn; lia).
  rewrite !drop_app_length' by done. done.
Qed.

(** A loop of three with a branch of another set in between. *)
Definition example_branches : list (Z * bool) :=
  [(4096, true); (8208, false); (4096, true); (4096, true); (4096, false); (8208, true); (4096, true); (4096, true); (8208, true);
   (4096, true); (4096, false)].

Lemma loop_predictor_learns_witness :
  exists answers t', lp_trace example_branches (LoopBranchPredictor_new 128 2) = Ok (answers, t') /\
    drop 4 (at_ip 4096 answers) = [(true, true); (true, true); (true, true); (true, false)].
Proof.
  apply (loop_predictor_learns 4096 true 3 1 example_branches); [lia|lia| |reflexivity].
  unfold example_branches.
  repeat (apply Forall_cons_2; [first [left; reflexivity|right; vm_compute; discriminate]|]). apply Forall_nil_2.
Defined.
